(* ===== verification/_CoqProject ===== *)
-Q . S2P
Prelude.v
Abi.v
AbiCaps.v
Protocol.v
Sha256.v
Utf8.v
Keys.v
GoStrings.v
Json.v
Pairing.v
KVStore.v
Bus.v
Timer.v
Streams.v
Exec.v
Egress.v
HostFns.v
Render.v
Screen.v
Tty.v
Keyboard.v
Input.v
CliText.v
Transport.v
Paired.v
Cli.v
CliLaws.v
Ui.v
UiLaws.v
UiInput.v
AppRuntime.v
AppLaws.v
AppHost.v
AppHostLaws.v
SqlRepo.v
SqlKV.v
SqlDB.v
SqlIdentity.v
SqlIdentityLaws.v
SqlCredentials.v
SqlApps.v
SqlAppsLaws.v
SqlCatalog.v
SqlRun.v
Tenants.v
Service.v
PairServer.v
PairExchange.v
HttpApi.v
HttpApiLaws.v
Devhost.v
Worker.v
WorkerLaws.v
Isolation.v
GuestHeap.v
GuestKV.v
GuestSvc.v
OsFs.v
State.v
StateLaws.v
StateRestore.v
Gateway.v
GatewayKill.v
GatewayRun.v
GatewayLaws.v
