(* ===== verification/Prelude.v ===== *)
(** * Plumtree: a verification of the runner, the control plane and their protocols

    ** The program

    Plumtree (src/README.md) runs small terminal applications, compiled to
    WebAssembly, for people who connect over SSH.  An application (the guest) has
    no access to the machine: it exchanges events and frames with the host and
    calls capability functions (storage, messages, timers, HTTP, commands,
    identity, secrets) that the host exports to it.  The parts modelled here are
    the ones that stand between a guest and the rest of the world:

    - the wire format between guest and host (src/sdk/abi);
    - the runner (src/internal/runner): the session engine that drives a guest,
      the capabilities and the host functions that give them to it, the sinks its
      frames are painted on, and the isolated mode in which the guest runs in
      a worker process that asks its parent, over a framed protocol, for
      everything it does;
    - the framing of that protocol (src/internal/protocol), the diffing terminal
      screen and the keyboard parser (src/internal/terminal);
    - the libraries guests are written with: the interface tree and its renderer
      (src/sdk/ui), the application runtime (src/sdk/app), the command-line
      framework (src/sdk/cli) and the bindings of the capabilities (src/sdk/kv, bus,
      fetch, hostexec, identity, secrets);
    - the control plane: the repository on SQLite (src/internal/sqlite), the identity
      service and the pairing handler (src/internal/server), the control API
      (src/internal/httpapi), discovery and pins (src/internal/transport), the paired
      client (src/internal/cli/paired) and the offline state bundle (src/internal/state).

    A guest call in isolated mode passes through all of them: host function
    (HostFns) over a proxy (Worker), a frame of the protocol (Protocol) around
    a payload of the wire format (Abi, AbiCaps), the parent's handler (Worker), the
    capability itself (KVStore, Bus, Timer, Egress, Exec), and back.  In process
    the host function works on the capability directly.  Both run the same
    definitions of the host functions, which are written against type classes for
    the Go interfaces ([Store], [Bus], [Fetcher], [Commander], [timerService],
    [Memory], [Writer], [Sink]); an implementation is an instance, and what
    a client may rely on is a class of laws ([StoreLaws], [MemoryLaws],
    [WriterLaws]) that the implementations discharge.

    What a viewer types passes through the keyboard parser (Keyboard), the input source
    (Input) and the event codec (Abi) to the guest's loop (AppHost), which gives it
    to the runtime (AppRuntime): routed through the interface (UiInput), taken by
    the model, rendered (Ui), encoded (Abi), and painted by the host (Render, Screen,
    Tty).

    What an author does passes through the paired client (Paired) and its transport
    (Transport), on first contact through pairing (Pairing, PairServer, PairExchange), to
    the control API (HttpApi) and the identity service (Service), which run transactions of
    the repository (SqlRepo, SqlDB, SqlIdentity, SqlApps).  What they deploy is what the leaf
    gateway (Gateway, GatewayRun) resolves (SqlRun), records and runs for those who connect,
    with capabilities read from the repository; a deployment that is suspended has its
    sessions ended by the kill switch (GatewayKill).

    ** Files, in dependency order

    - Prelude: outcomes of Go calls ([res]: value, error, panic), bytes,
      little-endian and fixed-width integers, slices, tactics and hints.
    - Abi, AbiCaps: src/sdk/abi.  Records, constants, encoders and decoders with
      the buffers they reuse.
    - Protocol: src/internal/protocol/protocol.go and procproto.go.  [Write] and
      [AppendReadBounded] over partial writes and truncated input; the payload
      codecs.
    - Sha256, Utf8, Keys, GoStrings: what the code uses of crypto/sha256,
      unicode/utf8, sort, strings, strconv and path/filepath, executable.
    - KVStore: kv.go.  [MemStore] and [FileStore], instances of [Store].
    - Bus: bus.go.  [MemBus] sequentially, and as interleaved steps.
    - Timer: timer.go.  [timerManager] as a state with a step relation.
    - Streams: the output filter and exit status of cli.go, the bounded buffers of
      exec.go and procrunner.go.
    - Exec, Egress: exec.go and fetch.go.  Who may run what, and who may be
      contacted.
    - HostFns: the host functions registered by kv.go, bus.go, auth.go, env.go,
      fetch.go, exec.go, timer.go and goodbye.go.
    - Render, Screen, Tty: render.go and src/internal/terminal/screen.go.  From
      a frame to the bytes a terminal receives.
    - Keyboard, Input: src/internal/terminal/keyboard, source.go and the merged source
      of timer.go.  From the reads of a terminal to the events of a session.
    - CliText, Cli, CliLaws: src/sdk/cli/cli.go.  The lexer, suggestions and bounded
      streams; descriptors, parsing and execution; their laws.
    - Ui, UiLaws, UiInput: src/sdk/ui.  The tree, layout and rendering; what rendering
      does to a frame; focus, keys and the mouse.
    - AppRuntime, AppLaws: src/sdk/app (app.go, command.go, event.go, subscription.go).
      The runtime, and the plain event loop it refines.
    - AppHost, AppHostLaws: src/sdk/app (wasip1.go, frame.go).  The loop of a hosted
      application, composed with the codecs.
    - SqlRepo, SqlKV: src/internal/sqlite (repository.go, repository_kv.go) and
      src/internal/gateway/kvstore.go.  Transactions over tables, and the storage of
      hosted applications, another instance of [Store].
    - SqlDB, SqlIdentity, SqlApps: the rest of src/internal/sqlite.  The tables of the
      schema with their constraints; the operations on authors, devices and credentials;
      the operations on applications, artifacts, deployments, sessions and secrets.
    - SqlIdentityLaws, SqlCredentials, SqlAppsLaws, SqlCatalog, SqlRun: their laws.  The
      invariants of both groups of tables, atomicity, what credentials are good for, and
      what the gateway is given to run.
    - Tenants: what a transaction for one author leaves alone.
    - Json, Pairing: encoding/json on the structs of the protocol, and
      src/internal/protocol/pairing.
    - Service, PairServer, PairExchange: src/internal/server/identity/service.go,
      src/internal/server/pairing/handler.go and src/internal/cli/paired/pairing.go.  The
      service, and the two ends of the exchange as programs run against any peer and
      against each other.
    - Transport, Paired: src/internal/transport and src/internal/protocol (control, exec);
      src/internal/cli/paired (store.go, keys.go, manager.go).  Discovery and pins; the
      store of servers and its transactions.
    - HttpApi, HttpApiLaws: src/internal/httpapi/v1/server.go.  Every route, and what a
      request may touch.
    - OsFs, State, StateLaws, StateRestore: src/internal/state/state.go.  A file system
      whose calls fail and at each of which the process may stop; inventory, backup,
      restore and recovery; rolling forward.
    - Devhost: devhost.go and runner.go.  Limits, watchdogs, [recv], [present].
    - Worker: procrunner.go (the parent's handlers) and procworker.go (the
      proxies), joined by [call], one request and one response over the framing.
    - WorkerLaws: the lemmas on the exchange and on every proxy.
    - Isolation: the theorems on a whole isolated session.
    - GuestHeap, GuestKV, GuestSvc: src/sdk/kv, bus, fetch, hostexec, identity, secrets.
      The guest's side of the host functions, over a guest heap; the in-memory store of
      the SDK.
    - Gateway: src/internal/gateway and src/internal/sshconn.  Identities, configuration, the
      backend over the repository, capabilities, the requests on a channel, connections.
    - GatewayKill: killswitch.go, lifecycle.go, the delivery queue of sqlitebackend.go and
      src/internal/backoff.  Suspensions, retries and sessions as interleaved steps.
    - GatewayRun, GatewayLaws: [startSessionArgs] of session.go; what a session is, that it
      is a sequence of those steps, and what a client can ask for.

    ** What the theorems show

    - Isolation: a guest cannot tell the worker from in-process execution.  Every
      storage, identity, secret, message and timer call gives the same code, the
      same guest memory and the same capability state ([process_kv_transparent],
      [process_services_transparent]); events and frames arrive unchanged
      ([process_screen_transparent]); fetch and exec agree but for two groups of
      failures reported with another code ([process_fetch_exec]); the session gets
      the parent's limits and its outcome comes back ([process_session],
      [process_streams]).
    - Tty: as long as no write fails, the bytes written to a terminal mean, to a reference
      terminal no smaller than the frames, the last frame presented, whatever the guest
      puts in its cells ([tty_shows_last]).
    - Storage: quotas are exact, a file store is durable under any input/output
      failure, the guest's calls change what their code says ([mem_quota_exact],
      [file_store_durable], [kv_writes_exact], [kv_reads_exact], [list_exact]); the
      SQLite store of a hosted application answers as the in-memory one while nothing
      fails ([sqlite_store_is_memory]) and is atomic and isolated whatever fails
      ([sqlite_store_atomic]); an application gets through its bindings the answers of the
      SDK's own store ([guest_storage_exact]).
    - The control plane: every call of the repository, the storage of applications
      included, is atomic, a deployment up to the collection of the one it replaces, and
      keeps its tables consistent ([calls_atomic], [database_invariant]); credentials are used once, handles
      stay reserved, collections take nothing that is in use ([credential_single_use],
      [handle_reserved], [collection_safe]); what runs is the active deployment, for those
      it admits ([leaf_access_exact], [deploy_replaces], [session_admission]); a request to
      the control API touches and shows rows of its own author only ([api_isolation]), and
      panics on one route ([api_panic_exact]).
    - Pairing: nothing is registered without a proof over the session, the key and a fresh
      nonce ([pairing_requires_proof], [pairing_client_checks]), and the exchange over byte
      streams does what the service does when called ([pairing_exchange_exact]); the client
      keeps its store whatever fails, and its keys unless the removal of the new one fails
      ([pair_transaction], [store_is_map]), and pins the endpoint, host key, server and
      version it confirmed ([discover_exact]).
    - The gateway: a session runs the guest its client is admitted to, with the capabilities
      of its application, and leaves the server as it was ([leaf_session], [session_steps]);
      a client's requests stay within bounds and are answered in order, up to a command
      that does not parse ([requests_bounded]); no suspension is lost and
      an acknowledged one is a boundary ([suspension_delivered], [kill_boundary]); connections
      stay within their limits ([Acquire_ok], [Release_ok], [deadline_bounds]).
    - State: the first restore into a place, interrupted anywhere and any number of times,
      is either not begun or rolled forward with nothing lost ([restore_crash_safe]); a
      second one can get stuck ([recover_stuck]).
    - Egress and commands: only admitted hosts, public addresses and allowlisted
      programs that are no shells, and whole results or errors.
    - Sessions: the frame watchdog fires exactly for a frame over its deadline;
      [recv] delivers exactly the next event or nothing.
    - Messages and timers: delivery, bounds and cancellation for every
      interleaving.
    - Wire formats: decoders are total on hostile bytes and accept exactly what the
      encoders produce; encoders and decoders are inverse within the documented
      caps; framing survives partial writes.
    - Input: however typing is cut into reads, the guest receives exactly its keys
      ([typing_exact], [typed_keys_reach_guest]), and its application gets the same key
      ([typed_key_meaning]).
    - Command line: [execute_exact] gives the exit code of every invocation and that it
      writes one document at most, [parse_typed] what a handler may rely on (the types of
      its flags unless a parent's flag has the same name), [validate_exact] and
      [lex_exact] equate the checks with reference definitions.
    - Interface: rendering is safe for every tree ([render_safe]), text is shown as it
      is ([text_exact]), clicks and focus do what the tree says ([click_exact],
      [focus_exact]).
    - Applications: the runtime refines a plain loop over the model
      ([dispatch_refines_loop]), keeps sources in step with the declarations
      ([reconcile_exact]), and in the sandbox every input is answered by a picture
      that the host decodes to the view of the model ([hosted_session]).
    - Output: control characters never reach a viewer from a CLI guest's output or
      a frame.

    Theorems that show where the code departs from its comments are kept as well
    ([fetch_too_large_masked], [exec_denied_masked], [subscribe_close_race],
    [cancelled_timer_delivered], [timer_queue_grows], [failed_write_not_healed],
    [lex_escaped_control], [pointer_error_exits_zero], [json_overflow_no_error],
    [parent_flag_shadows], [short_flag_bytes], [click_activates_twice],
    [button_width_bytes], [batch_drops_quit], [timer_event_kept],
    [timer_ticks_early], [hosted_timer_two_sources], [large_answer_twice],
    [put_panics], [duplicate_name_loses_device], [recover_stuck], [suspension_race]).

    ** Conventions and bounds

    Bytes and machine integers are [Z]; encoders truncate with the source's
    conversions and the theorems' hypotheses give the ranges ([is_u8], [is_u32],
    ...).  Indexing and slicing out of range is [Panic], so the absence of panics
    is proved.  Loops that are not structural take fuel: the write loop one round
    per byte, the output filter and decoders one per byte, the row loop of [Flush]
    one per cell, the id loop of the timers [TimerMaxActive + 1] rounds, the chunk
    loop of a worker's output one per byte; the event queue of an application one per
    event, where the theorems follow a reference loop of the same fuel or assume that
    the application's own chains of commands and events end; each is proved to be enough where
    the result is stated.  A critical section under a mutex is one step; where
    goroutines interleave between sections (Bus, Timer, Tty) the theorems quantify
    over the interleavings.  Instants are nanoseconds on a monotonic clock.

    ** Parameters

    Code that is not in the repository is an argument of the definitions that use
    it: guest memory and the execution of WebAssembly (wazero), encoding/json and
    the file system under [FileStore], [url.Parse] and the HTTP client, processes
    and the paths of executables, Unicode's case tables, the answers of the
    floating-point token buckets of ratelimit.go, the quoting, durations, formatting and
    JSON of the command-line framework, what an application's model and commands
    return, the order in which Go ranges over a map, Ed25519 and the other primitives of
    pairing but SHA-256 (class [Platform]), the probe and the round trips of the transport,
    the generation of keys, the run of a compiled guest and the SSH client of a guest machine
    in a session of the gateway, strconv.Quote, the heap of a guest (class [GuestHeap]), MIME, multipart and the
    compiler behind the control API (class [HttpLib]), and the SQLite engine, SSH keys and
    JSON under the state bundle (class [StateLib]).  Their documented behaviour is
    a named hypothesis or a class of laws, and the theorems that use it are
    applied to concrete instances.

    The SQL engine is the meaning of the statements: each is translated to the
    operation on finite maps that its text says, with the constraints of the schema,
    and any statement, begin or commit may fail.

    The reference terminal of Screen (cursor moves, colours, decoration, UTF-8)
    gives every glyph one cell and keeps its size; sequences and controls outside
    that set put it in a state the theorems exclude.

    ** Not modelled

    SSH itself (its handshake, channels and clients), the roles and the configuration of the
    server process, the proxies of the control transport, the build pipeline and the commands of
    the command-line front end are file-system, network and process plumbing over
    third-party libraries.  The driver, the migrations and the encryption of the database
    are SQLite's.  What goroutines do while the application runtime releases its mutex
    around a command, and the instants of real-time tickers, are left out; so is what a
    power failure does to files that were not synced.  The broker that pools workers, the
    native terminal toolkit (src/sdk/internal/tui) and the adapters of native runs, the
    SGR writer (src/sdk/abi/sgr.go), host keys, and the version ordering of the self updater
    are program logic that is not modelled. *)

From stdpp Require Export base tactics list option gmap sets strings.
From Stdlib Require Export ZArith Lia.

#[global] Open Scope Z_scope.

(** ** Outcomes of a Go call

    A Go function that returns [(T, error)] either returns a value, returns an
    error, or panics (an index or slice expression out of range).  Panics are
    a separate outcome, so "never panics" is a statement about the model. *)

Inductive res (E A : Type) : Type :=
| Ok (a : A)
| Err (e : E)
| Panic.
Arguments Ok {E A} a.
Arguments Err {E A} e.
Arguments Panic {E A}.

Definition rbind {E A B} (c : res E A) (k : A -> res E B) : res E B :=
  match c with
  | Ok a => k a
  | Err e => Err e
  | Panic => Panic
  end.

Declare Scope go_scope.
Delimit Scope go_scope with go.
Notation "'let?' x ':=' c 'in' k" := (rbind c (fun x => k))
  (at level 10, x name, c at level 100, k at level 200) : go_scope.
Notation "'let?' ' p ':=' c 'in' k" := (rbind c (fun x => match x with p => k end))
  (at level 10, p strict pattern, c at level 100, k at level 200) : go_scope.
#[global] Open Scope go_scope.

Definition no_panic {E A} (c : res E A) : Prop :=
  match c with Panic => False | _ => True end.

(** ** Machine integers, kept at their width *)

Definition u8 (z : Z) : Z := z mod 2 ^ 8.
Definition u16 (z : Z) : Z := z mod 2 ^ 16.
Definition u32 (z : Z) : Z := z mod 2 ^ 32.
Definition u64 (z : Z) : Z := z mod 2 ^ 64.
Definition i32 (z : Z) : Z := (z + 2 ^ 31) mod 2 ^ 32 - 2 ^ 31.
Definition i64 (z : Z) : Z := (z + 2 ^ 63) mod 2 ^ 64 - 2 ^ 63.

Definition is_u8 (z : Z) : Prop := 0 <= z < 2 ^ 8.
Definition is_u16 (z : Z) : Prop := 0 <= z < 2 ^ 16.
Definition is_u32 (z : Z) : Prop := 0 <= z < 2 ^ 32.
Definition is_i32 (z : Z) : Prop := - 2 ^ 31 <= z < 2 ^ 31.
Definition is_u64 (z : Z) : Prop := 0 <= z < 2 ^ 64.
Definition is_i64 (z : Z) : Prop := - 2 ^ 63 <= z < 2 ^ 63.

(** ** Byte strings

    Go's [string] and [[]byte] are both byte sequences here; a byte is a [Z]
    and [bytes_ok] says that every element is in range. *)

Abbreviation bytes := (list Z).

Definition bytes_ok (b : bytes) : Prop := Forall is_u8 b.

Definition len {A} (l : list A) : Z := Z.of_nat (length l).

(** Literals: [str "..."] is the byte string of an ASCII literal. *)
Fixpoint str (s : string) : bytes :=
  match s with
  | EmptyString => []
  | String c s' => Z.of_N (Ascii.N_of_ascii c) :: str s'
  end.

(** [b[i]] and [b[i:j]]; both panic out of range.  (Go bounds a slice
    expression by the capacity; bounding it by the length panics more often,
    so the absence of panics proved here implies it there.) *)
Definition index {E A} (b : list A) (i : Z) : res E A :=
  if i <? 0 then Panic
  else match b !! Z.to_nat i with Some x => Ok x | None => Panic end.

Definition slice {E A} (b : list A) (i j : Z) : res E (list A) :=
  if (0 <=? i) && (i <=? j) && (j <=? len b)
  then Ok (take (Z.to_nat (j - i)) (drop (Z.to_nat i) b))
  else Panic.

(** [b[i:]] *)
Definition slice_from {E A} (b : list A) (i : Z) : res E (list A) :=
  slice b i (len b).

(** [b[i] = v], [binary.LittleEndian.PutUintN(b[i:i+n], v)] and
    [copy(b[i:], src)]: in-place writes into a buffer. *)
Definition overwrite {A} (b : list A) (i : nat) (src : list A) : list A :=
  take i b ++ src ++ drop (i + length src) b.

Definition put {E A} (b : list A) (i : Z) (v : A) : res E (list A) :=
  if (0 <=? i) && (i <? len b) then Ok (overwrite b (Z.to_nat i) [v]) else Panic.

Definition put_slice {E A} (b : list A) (i : Z) (src : list A) : res E (list A) :=
  if (0 <=? i) && (i + len src <=? len b) then Ok (overwrite b (Z.to_nat i) src) else Panic.

(** [copy(b[i:], src)] copies what fits and returns the count. *)
Definition copy_at {E A} (b : list A) (i : Z) (src : list A) : res E (list A * Z) :=
  if (0 <=? i) && (i <=? len b)
  then let n := Z.min (len src) (len b - i) in
       Ok (overwrite b (Z.to_nat i) (take (Z.to_nat n) src), n)
  else Panic.

(** ** Little-endian integers ([encoding/binary]) *)

Fixpoint le_bytes (n : nat) (v : Z) : bytes :=
  match n with
  | O => []
  | S n' => u8 v :: le_bytes n' (Z.shiftr v 8)
  end.

Fixpoint le_val (b : bytes) : Z :=
  match b with
  | [] => 0
  | x :: b' => x + 2 ^ 8 * le_val b'
  end.

(** ** Tactics *)

Ltac des_if :=
  match goal with
  | |- context [if ?c then _ else _] => destruct c eqn:?
  | H : context [if ?c then _ else _] |- _ => destruct c eqn:?
  end.

Ltac zbool :=
  repeat match goal with
  | H : _ && _ = true |- _ => apply andb_true_iff in H; destruct H
  | H : _ || _ = false |- _ => apply orb_false_iff in H; destruct H
  | H : negb _ = true |- _ => apply negb_true_iff in H
  | H : negb _ = false |- _ => apply negb_false_iff in H
  | H : (_ <? _) = true |- _ => apply Z.ltb_lt in H
  | H : (_ <? _) = false |- _ => apply Z.ltb_ge in H
  | H : (_ <=? _) = true |- _ => apply Z.leb_le in H
  | H : (_ <=? _) = false |- _ => apply Z.leb_gt in H
  | H : (_ =? _) = true |- _ => apply Z.eqb_eq in H
  | H : (_ =? _) = false |- _ => apply Z.eqb_neq in H
  end.

(** ** Lengths *)

Create Rewrite HintDb len.

Lemma len_nonneg {A} (l : list A) : 0 <= len l.
Proof. unfold len; lia. Qed.
Lemma len_nil {A} : len (@nil A) = 0.
Proof. reflexivity. Qed.
Lemma len_cons {A} (x : A) l : len (x :: l) = 1 + len l.
Proof. unfold len; simpl length; lia. Qed.
Lemma len_app {A} (l k : list A) : len (l ++ k) = len l + len k.
Proof. unfold len; rewrite length_app; lia. Qed.
Lemma len_map {A B} (f : A -> B) l : len (map f l) = len l.
Proof. unfold len; by rewrite length_map. Qed.
Lemma len_le_bytes n v : len (le_bytes n v) = Z.of_nat n.
Proof. revert v; induction n; intros; simpl; rewrite ?len_cons, ?IHn, ?len_nil; lia. Qed.
Lemma len_take {A} (l : list A) n : len (take n l) = Z.min (Z.of_nat n) (len l).
Proof. unfold len; rewrite length_take; lia. Qed.
Lemma len_drop {A} (l : list A) n : len (drop n l) = Z.max 0 (len l - Z.of_nat n).
Proof. unfold len; rewrite length_drop; lia. Qed.
Lemma len_0_nil {A} (l : list A) : len l = 0 -> l = [].
Proof. destruct l; [done|]. rewrite len_cons. pose proof (len_nonneg l). lia. Qed.
Lemma to_nat_len {A} (l : list A) : Z.to_nat (len l) = length l.
Proof. unfold len; lia. Qed.
Lemma len_replicate {A} n (x : A) : len (replicate n x) = Z.of_nat n.
Proof. unfold len; by rewrite length_replicate. Qed.

#[export] Hint Rewrite @len_nil @len_cons @len_app @len_map len_le_bytes
  @len_take @len_drop @len_replicate : len.

(** Linear arithmetic over lengths. *)
Ltac len_pos :=
  repeat match goal with
  | |- context [len ?l] =>
    lazymatch goal with
    | _ : 0 <= len l |- _ => fail
    | _ => pose proof (len_nonneg l)
    end
  | _ : context [len ?l] |- _ =>
    lazymatch goal with
    | _ : 0 <= len l |- _ => fail
    | _ => pose proof (len_nonneg l)
    end
  end.
Ltac len_lia := autorewrite with len in *; len_pos; lia.

(** ** Indexing and slicing in range *)

Lemma slice_ok {E A} (b : list A) i j :
  0 <= i <= j -> j <= len b ->
  slice (E:=E) b i j = Ok (take (Z.to_nat (j - i)) (drop (Z.to_nat i) b)).
Proof. intros. unfold slice. by rewrite !(proj2 (Z.leb_le _ _)) by lia. Qed.

Lemma slice_from_ok {E A} (b : list A) i :
  0 <= i <= len b -> slice_from (E:=E) b i = Ok (drop (Z.to_nat i) b).
Proof.
  intros. unfold slice_from. rewrite slice_ok by lia. f_equal.
  apply take_ge. rewrite length_drop. unfold len in *. lia.
Qed.

(** The middle part of a three-part buffer. *)
Lemma slice_mid {E A} (p m s : list A) i j :
  i = len p -> j = len p + len m -> slice (E:=E) (p ++ m ++ s) i j = Ok m.
Proof.
  intros -> ->. rewrite slice_ok by len_lia. f_equal.
  rewrite to_nat_len, drop_app_length.
  replace (Z.to_nat _) with (length m) by (unfold len; lia).
  apply take_app_length.
Qed.

Lemma slice_part {E A} (b p m s : list A) i j :
  b = p ++ m ++ s -> i = len p -> j = len p + len m -> slice (E:=E) b i j = Ok m.
Proof. intros ->. apply slice_mid. Qed.

Lemma slice_from_app {E A} (p s : list A) i :
  i = len p -> slice_from (E:=E) (p ++ s) i = Ok s.
Proof.
  intros ->. rewrite slice_from_ok by len_lia.
  by rewrite to_nat_len, drop_app_length.
Qed.

Lemma index_ok {E A} (b : list A) i x :
  0 <= i -> b !! Z.to_nat i = Some x -> index (E:=E) b i = Ok x.
Proof.
  intros Hi Hx. unfold index. rewrite (proj2 (Z.ltb_ge _ _)) by lia. by rewrite Hx.
Qed.

(** Reads that stay inside the first part of a buffer. *)
Lemma index_app_l {E A} (p s : list A) i :
  0 <= i < len p -> index (E:=E) (p ++ s) i = index p i.
Proof.
  intros Hi. unfold index. destruct (i <? 0); [done|].
  rewrite lookup_app_l by (unfold len in *; lia). done.
Qed.

Lemma slice_app_l {E A} (p s : list A) i j :
  0 <= i <= j -> j <= len p -> slice (E:=E) (p ++ s) i j = slice p i j.
Proof.
  intros. rewrite !slice_ok by len_lia. f_equal.
  rewrite drop_app_le by (unfold len in *; lia).
  rewrite take_app_le; [done|]. rewrite length_drop. unfold len in *; lia.
Qed.

Lemma index_no_panic {E A} (b : list A) i :
  0 <= i < len b -> exists x, index (E:=E) b i = Ok x /\ b !! Z.to_nat i = Some x.
Proof.
  intros Hi. destruct (lookup_lt_is_Some_2 b (Z.to_nat i)) as [x Hx];
    [unfold len in *; lia|]. exists x; split; [apply index_ok; [lia|done]|done].
Qed.

Lemma slice_len {E A} (b l : list A) i j :
  slice (E:=E) b i j = Ok l -> len l = j - i.
Proof.
  unfold slice. intros H. des_if; [|done]. zbool. injection H as <-. len_lia.
Qed.

Lemma slice_Forall {E A} (P : A -> Prop) (b l : list A) i j :
  Forall P b -> slice (E:=E) b i j = Ok l -> Forall P l.
Proof.
  unfold slice. intros Hb H. des_if; [|done]. injection H as <-.
  by apply Forall_take, Forall_drop.
Qed.

(** Adjacent slices concatenate; the full slice is the buffer. *)
Lemma slice_glue {E A} (b x y : list A) i j k :
  slice (E:=E) b i j = Ok x -> slice (E:=E) b j k = Ok y -> slice (E:=E) b i k = Ok (x ++ y).
Proof.
  unfold slice. intros Hx Hy. repeat des_if; try done; zbool; try lia.
  injection Hx as <-. injection Hy as <-. f_equal.
  replace (Z.to_nat (k - i)) with (Z.to_nat (j - i) + Z.to_nat (k - j))%nat by lia.
  rewrite <- take_take_drop, drop_drop. do 3 f_equal. lia.
Qed.

Lemma slice_full {E A} (b : list A) n : n = len b -> slice (E:=E) b 0 n = Ok b.
Proof.
  intros ->. rewrite slice_ok by len_lia. f_equal. simpl.
  apply take_ge. unfold len; lia.
Qed.

Lemma index_slice {E A} (b : list A) i x :
  index (E:=E) b i = Ok x -> slice (E:=E) b i (i + 1) = Ok [x].
Proof.
  unfold index. intros H. des_if; [done|]. zbool.
  destruct (b !! Z.to_nat i) as [y|] eqn:Hl; [|done]. injection H as ->.
  pose proof (lookup_lt_Some _ _ _ Hl).
  rewrite slice_ok by (unfold len; lia). f_equal.
  replace (Z.to_nat (i + 1 - i)) with 1%nat by lia.
  by rewrite (drop_S _ _ _ Hl).
Qed.

Lemma index_Forall {E A} (P : A -> Prop) (b : list A) i x :
  Forall P b -> index (E:=E) b i = Ok x -> P x.
Proof.
  intros Hb H. apply index_slice in H. apply (slice_Forall P) in H; [|done].
  by inversion H.
Qed.

(** ** In-place writes *)

Lemma overwrite_mid {A} (p m s src : list A) i :
  i = length p -> length src = length m ->
  overwrite (p ++ m ++ s) i src = p ++ src ++ s.
Proof.
  intros -> Hl. unfold overwrite. rewrite take_app_length. do 2 f_equal.
  rewrite Hl, app_assoc, <- length_app. apply drop_app_length.
Qed.

Lemma put_slice_mid {E A} (p m s src : list A) i :
  i = len p -> len src = len m ->
  put_slice (E:=E) (p ++ m ++ s) i src = Ok (p ++ src ++ s).
Proof.
  intros -> Hl. unfold put_slice.
  rewrite !(proj2 (Z.leb_le _ _)) by len_lia. simpl. f_equal.
  apply overwrite_mid; unfold len in *; lia.
Qed.

Lemma put_mid {E A} (p s : list A) x v i :
  i = len p -> put (E:=E) (p ++ x :: s) i v = Ok (p ++ v :: s).
Proof.
  intros ->. unfold put.
  rewrite (proj2 (Z.leb_le _ _)), (proj2 (Z.ltb_lt _ _)) by len_lia. simpl. f_equal.
  apply (overwrite_mid p [x] s [v]); unfold len in *; simpl; lia.
Qed.

Lemma copy_at_mid {E A} (p m s src : list A) i :
  i = len p -> len src = len m ->
  copy_at (E:=E) (p ++ m ++ s) i src = Ok (p ++ src ++ s, len src).
Proof.
  intros -> Hl. unfold copy_at.
  rewrite !(proj2 (Z.leb_le _ _)) by len_lia. simpl.
  replace (Z.min _ _) with (len src) by len_lia.
  rewrite take_ge by (unfold len; lia). do 2 f_equal.
  apply overwrite_mid; unfold len in *; lia.
Qed.

(** A buffer of known length splits at any point. *)
Lemma split_at {A} (l : list A) n :
  0 <= n <= len l -> exists p s, l = p ++ s /\ len p = n /\ len s = len l - n.
Proof.
  intros Hn. exists (take (Z.to_nat n) l), (drop (Z.to_nat n) l).
  split; [by rewrite take_drop|]. split; len_lia.
Qed.

(** ** Little-endian codec lemmas *)

Lemma u8_range z : is_u8 (u8 z).
Proof. unfold is_u8, u8. apply Z.mod_pos_bound. lia. Qed.

Lemma le_bytes_ok n v : bytes_ok (le_bytes n v).
Proof. revert v; induction n as [|n IH]; intros; constructor; [apply u8_range|apply IH]. Qed.

Lemma le_val_bytes n v : le_val (le_bytes n v) = v mod 2 ^ (8 * Z.of_nat n).
Proof.
  revert v; induction n as [|n IH]; intros v; cbn [le_bytes le_val].
  - by rewrite Z.mod_1_r.
  - rewrite IH. unfold u8. rewrite Z.shiftr_div_pow2 by lia.
    replace (8 * Z.of_nat (S n)) with (8 + 8 * Z.of_nat n) by lia.
    rewrite Z.pow_add_r by lia.
    rewrite Z.rem_mul_r by first [lia | apply Z.pow_pos_nonneg; lia]. lia.
Qed.

Lemma le_val_bound b : bytes_ok b -> 0 <= le_val b < 2 ^ (8 * len b).
Proof.
  induction 1 as [|x b Hx Hb IH]; [done|].
  cbn [le_val]. rewrite len_cons.
  replace (8 * (1 + len b)) with (8 + 8 * len b) by lia.
  rewrite Z.pow_add_r by len_lia. unfold is_u8 in Hx. nia.
Qed.

Lemma le_bytes_val b : bytes_ok b -> le_bytes (length b) (le_val b) = b.
Proof.
  induction 1 as [|x b Hx Hb IH]; [done|].
  cbn [le_val le_bytes length]. unfold is_u8 in Hx. f_equal.
  - unfold u8. rewrite Z.mul_comm, Z.mod_add by lia. by apply Z.mod_small.
  - rewrite Z.shiftr_div_pow2 by lia.
    rewrite Z.mul_comm, Z.div_add by lia. rewrite Z.div_small by lia. exact IH.
Qed.

Lemma le_val_small n v :
  0 <= v < 2 ^ (8 * Z.of_nat n) -> le_val (le_bytes n v) = v.
Proof. intros. rewrite le_val_bytes. by apply Z.mod_small. Qed.

Lemma bytes_ok_app a b : bytes_ok (a ++ b) <-> bytes_ok a /\ bytes_ok b.
Proof. apply Forall_app. Qed.

(** [bytes_ok] by evaluation on a concrete buffer. *)
Lemma bytes_ok_eval b :
  forallb (fun z => (0 <=? z) && (z <? 2 ^ 8)) b = true -> bytes_ok b.
Proof.
  intros Hb. apply Forall_forall. intros z Hz.
  rewrite forallb_forall in Hb. apply list_elem_of_In, Hb in Hz. zbool. unfold is_u8; lia.
Qed.

(** ** Conversions *)

Lemma u16_small z : is_u16 z -> u16 z = z.
Proof. apply Z.mod_small. Qed.
Lemma u32_small z : is_u32 z -> u32 z = z.
Proof. apply Z.mod_small. Qed.
Lemma u8_small z : is_u8 z -> u8 z = z.
Proof. apply Z.mod_small. Qed.
Lemma i32_small z : is_i32 z -> i32 z = z.
Proof. unfold is_i32, i32. intros. rewrite Z.mod_small; lia. Qed.
Lemma i64_small z : is_i64 z -> i64 z = z.
Proof. unfold is_i64, i64. intros. rewrite Z.mod_small; lia. Qed.
Lemma i32_u32 z : i32 (u32 z) = i32 z.
Proof. unfold i32, u32. rewrite Zplus_mod_idemp_l. done. Qed.
Lemma i64_u64 z : i64 (u64 z) = i64 z.
Proof. unfold i64, u64. rewrite Zplus_mod_idemp_l. done. Qed.
Lemma u32_i32 z : u32 (i32 z) = u32 z.
Proof.
  unfold i32, u32. rewrite Zminus_mod, Zmod_mod, <- Zminus_mod.
  f_equal. lia.
Qed.
Lemma i32_range z : is_i32 (i32 z).
Proof. unfold is_i32, i32. pose proof (Z.mod_pos_bound (z + 2^31) (2^32)). lia. Qed.

(** Fixed-width fields survive the wire. *)
Lemma le2_u16 z : is_u16 z -> le_val (le_bytes 2 (u16 z)) = z.
Proof. intros Hz. rewrite u16_small by done. by apply le_val_small. Qed.
Lemma le4_u32 z : is_u32 z -> le_val (le_bytes 4 (u32 z)) = z.
Proof. intros Hz. rewrite u32_small by done. by apply le_val_small. Qed.
Lemma le4_i32 z : is_i32 z -> i32 (le_val (le_bytes 4 (u32 z))) = z.
Proof.
  intros Hz. rewrite le_val_small by (apply Z.mod_pos_bound; lia).
  rewrite i32_u32. by apply i32_small.
Qed.
Lemma le8_i64 z : is_i64 z -> i64 (le_val (le_bytes 8 (u64 z))) = z.
Proof.
  intros Hz. rewrite le_val_small by (apply Z.mod_pos_bound; lia).
  rewrite i64_u64. by apply i64_small.
Qed.

Ltac bytes_tac :=
  unfold bytes_ok;
  repeat first [assumption | apply Forall_nil_2 | apply Forall_cons_2
               | apply Forall_app_2 | apply le_bytes_ok | apply u8_range].

(** ... and the bytes of a field survive decoding it. *)
Lemma le2_bytes a b : is_u8 a -> is_u8 b -> le_bytes 2 (u16 (le_val [a; b])) = [a; b].
Proof.
  intros. assert (bytes_ok [a; b]) as Hb by bytes_tac.
  rewrite u16_small by apply (le_val_bound _ Hb). apply (le_bytes_val _ Hb).
Qed.
Lemma le4_bytes a b c d :
  is_u8 a -> is_u8 b -> is_u8 c -> is_u8 d ->
  le_bytes 4 (u32 (le_val [a; b; c; d])) = [a; b; c; d].
Proof.
  intros. assert (bytes_ok [a; b; c; d]) as Hb by bytes_tac.
  rewrite u32_small by apply (le_val_bound _ Hb). apply (le_bytes_val _ Hb).
Qed.
Lemma le_val_u16 a b : is_u8 a -> is_u8 b -> is_u16 (le_val [a; b]).
Proof. intros. apply (le_val_bound [a; b]). bytes_tac. Qed.
Lemma le_val_u32 a b c d :
  is_u8 a -> is_u8 b -> is_u8 c -> is_u8 d -> is_u32 (le_val [a; b; c; d]).
Proof. intros. apply (le_val_bound [a; b; c; d]). bytes_tac. Qed.

(** ** Symbolic execution of buffer code

    [zconst] evaluates closed list positions, [go_step] runs the next write or
    read of a monadic chain whose bounds follow from known lengths. *)

Ltac zconst :=
  repeat match goal with
  | |- context [Z.to_nat ?z] =>
    let n := eval vm_compute in (Z.to_nat z) in
    lazymatch n with
    | O => idtac
    | S _ => idtac
    end;
    change (Z.to_nat z) with n
  end.

Lemma put_eq {E A} (b : list A) i v :
  0 <= i < len b -> put (E:=E) b i v = Ok (overwrite b (Z.to_nat i) [v]).
Proof.
  intros. unfold put. by rewrite (proj2 (Z.leb_le _ _)), (proj2 (Z.ltb_lt _ _)) by lia.
Qed.

Lemma put_slice_eq {E A} (b : list A) i src :
  0 <= i -> i + len src <= len b ->
  put_slice (E:=E) b i src = Ok (overwrite b (Z.to_nat i) src).
Proof. intros. unfold put_slice. by rewrite !(proj2 (Z.leb_le _ _)) by lia. Qed.

(** A write past a prefix leaves the prefix alone. *)
Lemma overwrite_app_r {A} (p b src : list A) k :
  overwrite (p ++ b) (length p + k) src = p ++ overwrite b k src.
Proof.
  unfold overwrite. rewrite take_app_add, <- app_assoc. do 3 f_equal.
  rewrite <- Nat.add_assoc. apply drop_app_add.
Qed.

Lemma put_app_r {E A} (p b : list A) i k v :
  i = len p + k -> 0 <= k < len b ->
  put (E:=E) (p ++ b) i v = Ok (p ++ overwrite b (Z.to_nat k) [v]).
Proof.
  intros -> Hk. rewrite put_eq by len_lia.
  replace (Z.to_nat (len p + k)) with (length p + Z.to_nat k)%nat by (unfold len; lia).
  by rewrite overwrite_app_r.
Qed.

Lemma put_slice_app_r {E A} (p b : list A) i k src :
  i = len p + k -> 0 <= k -> k + len src <= len b ->
  put_slice (E:=E) (p ++ b) i src = Ok (p ++ overwrite b (Z.to_nat k) src).
Proof.
  intros -> Hk Hl. rewrite put_slice_eq by len_lia.
  replace (Z.to_nat (len p + k)) with (length p + Z.to_nat k)%nat by (unfold len; lia).
  by rewrite overwrite_app_r.
Qed.

(** ... and reads past a prefix do not see it. *)
Lemma index_app_r {E A} (p b : list A) i k :
  i = len p + k -> 0 <= k -> index (E:=E) (p ++ b) i = index b k.
Proof.
  intros -> Hk. unfold index. len_pos.
  rewrite !(proj2 (Z.ltb_ge _ _)) by lia.
  rewrite lookup_app_r by (unfold len; lia).
  by replace (Z.to_nat (len p + k) - length p)%nat with (Z.to_nat k) by (unfold len; lia).
Qed.

Lemma slice_app_r {E A} (p b : list A) i j k l :
  i = len p + k -> j = len p + l -> 0 <= k <= l -> l <= len b ->
  slice (E:=E) (p ++ b) i j = slice b k l.
Proof.
  intros -> -> Hk Hl. rewrite !slice_ok by len_lia. f_equal.
  rewrite drop_app_ge by (unfold len; lia).
  replace (Z.to_nat (len p + k) - length p)%nat with (Z.to_nat k) by (unfold len; lia).
  f_equal. lia.
Qed.

Lemma index_cons_eq {E A} (b : list A) i d :
  0 <= i < len b -> index (E:=E) b i = Ok (nth (Z.to_nat i) b d).
Proof.
  intros Hi. destruct (index_no_panic (E:=E) b i Hi) as (x & -> & Hx).
  f_equal. symmetry. apply nth_lookup_Some with (d := d) in Hx. done.
Qed.

(** [no_panic] goes through binds. *)
Lemma no_panic_bind {E A B} (c : res E A) (k : A -> res E B) :
  no_panic c -> (forall a, c = Ok a -> no_panic (k a)) -> no_panic (rbind c k).
Proof. destruct c; simpl; auto. Qed.

Lemma no_panic_slice {E A} (b : list A) i j :
  0 <= i <= j -> j <= len b -> no_panic (slice (E:=E) b i j).
Proof. intros. by rewrite slice_ok by lia. Qed.

Lemma no_panic_slice_from {E A} (b : list A) i :
  0 <= i <= len b -> no_panic (slice_from (E:=E) b i).
Proof. intros. by rewrite slice_from_ok by lia. Qed.

Lemma no_panic_index {E A} (b : list A) i :
  0 <= i < len b -> no_panic (index (E:=E) b i).
Proof. intros Hi. destruct (index_no_panic (E:=E) b i Hi) as (x & -> & _). done. Qed.

Lemma rbind_ok {E A B} (c : res E A) (k : A -> res E B) v :
  rbind c k = Ok v -> exists a, c = Ok a /\ k a = Ok v.
Proof. destruct c; simpl; [eauto|done|done]. Qed.

Lemma ok_inj {E A} (a b : A) : Ok (E:=E) a = Ok b -> a = b.
Proof. by injection 1. Qed.

(** Inversion of a successful chain: every guard that was passed and every
    intermediate value becomes a hypothesis. *)
Ltac inv_ok :=
  repeat match goal with
  | H : rbind _ _ = Ok _ |- _ =>
    apply rbind_ok in H; let a := fresh "a" in let E := fresh "E" in destruct H as (a & E & H)
  | H : (if ?c then _ else _) = Ok _ |- _ =>
    destruct c eqn:?; try discriminate H
  | H : Ok _ = Ok _ |- _ => apply ok_inj in H
  | H : Err _ = Ok _ |- _ => discriminate H
  | H : Panic = Ok _ |- _ => discriminate H
  end; zbool.

(** Solve a [no_panic] goal by walking down the chain. *)
Ltac np_step :=
  match goal with
  | |- no_panic (if ?c then _ else _) => destruct c eqn:?; zbool
  | |- no_panic (rbind _ _) => apply no_panic_bind; [|intros ? ?]
  | |- no_panic (slice _ _ _) => apply no_panic_slice
  | |- no_panic (slice_from _ _) => apply no_panic_slice_from
  | |- no_panic (index _ _) => apply no_panic_index
  | |- no_panic (match ?t with _ => _ end) => destruct t eqn:?
  | |- no_panic (Ok _) => exact I
  | |- no_panic (Err _) => exact I
  end.

(** Evaluate the reads of an explicit header [hd]. *)
Ltac read_hd hd :=
  repeat match goal with
  | |- context [@index ?E ?A hd ?i] =>
    let v := eval vm_compute in (@index E A hd i) in change (@index E A hd i) with v
  | |- context [@slice ?E ?A hd ?i ?j] =>
    let v := eval vm_compute in (@slice E A hd i j) in change (@slice E A hd i j) with v
  end; cbn [rbind].

Lemma le_val_slice_bound {E} b s i j :
  bytes_ok b -> slice (E:=E) b i j = Ok s -> 0 <= le_val s < 2 ^ (8 * (j - i)).
Proof.
  intros Hb Hs. rewrite <- (slice_len _ _ _ _ Hs).
  apply le_val_bound. by apply (slice_Forall _ _ _ _ _ Hb Hs).
Qed.

Lemma le_val_field {E} n b s i j :
  bytes_ok b -> slice (E:=E) b i j = Ok s -> j - i = n -> 0 <= le_val s < 2 ^ (8 * n).
Proof. intros Hb Hs <-. by apply (le_val_slice_bound _ _ _ _ Hb Hs). Qed.

(** Re-encoding the value of a fixed-width field gives back its bytes. *)
Lemma le_bytes_slice {E} b s i j n :
  bytes_ok b -> slice (E:=E) b i j = Ok s -> j - i = Z.of_nat n ->
  le_bytes n (le_val s) = s.
Proof.
  intros Hb Hs Hn. pose proof (slice_len _ _ _ _ Hs) as Hl.
  replace n with (length s) by (unfold len in Hl; lia).
  apply le_bytes_val. by apply (slice_Forall _ _ _ _ _ Hb Hs).
Qed.

(** Replace every known slice of a byte buffer by the bound on its value. *)
Ltac le_bounds :=
  repeat match goal with
  | Hb : bytes_ok ?b, H : slice ?b _ _ = Ok _ |- _ =>
    apply (le_val_slice_bound _ _ _ _ Hb) in H
  end.

(** ** Lists *)

Lemma filter_iff_in {A} (P Q : A -> Prop) `{!forall x, Decision (P x), !forall x, Decision (Q x)} (l : list A) :
  (forall x, x ∈ l -> P x <-> Q x) -> filter P l = filter Q l.
Proof.
  induction l as [|x l IH]; intros Hl; [done|]. rewrite !filter_cons.
  pose proof (Hl x (list_elem_of_here _ _)) as Hx.
  rewrite IH by (intros y Hy; apply Hl; by constructor).
  repeat case_decide; tauto || done.
Qed.
