(* ===== verification/Abi.v ===== *)
(** * The guest/host wire format (sdk/abi)

    The versioned little-endian messages of a guest's main loop: events (host
    to guest) and frames (guest to host); the capability messages are in
    AbiCaps.v.  Encoders are modelled as
    the in-place writes of the source into a caller-supplied buffer; decoders
    keep every guard of the source, and an index or slice out of range is a
    [Panic], so that "the decoder never panics on hostile bytes" is a theorem
    about the model and not a convention of it. *)

From S2P Require Import Prelude.

(** ** abi.go: constants and data *)

Inductive AbiErr := ErrShort | ErrMagic | ErrVersion | ErrSize | ErrKVList.

Definition Version : Z := 4.
Definition magicEvent : Z := 1.
Definition magicFrame : Z := 2.

Definition KindNone : Z := 0.
Definition KindKey : Z := 1.
Definition KindResize : Z := 2.
Definition KindMessage : Z := 3.
Definition KindMouse : Z := 4.
Definition KindTimer : Z := 5.

Definition MouseButtonNone : Z := 0.
Definition MouseButtonLeft : Z := 1.
Definition MouseDown : Z := 1.
Definition MouseUp : Z := 2.
Definition MouseDrag : Z := 3.
Definition MouseWheelUp : Z := 4.
Definition MouseWheelDown : Z := 5.

Definition KeyRune : Z := 0.
Definition KeyEnter : Z := 1.
Definition KeyBackspace : Z := 2.
Definition KeyTab : Z := 3.
Definition KeyEscape : Z := 4.
Definition KeyCtrlC : Z := 5.
Definition KeyArrowUp : Z := 6.
Definition KeyArrowDown : Z := 7.
Definition KeyArrowLeft : Z := 8.
Definition KeyArrowRight : Z := 9.
Definition KeyHome : Z := 10.
Definition KeyEnd : Z := 11.
Definition KeyPageUp : Z := 12.
Definition KeyPageDown : Z := 13.
Definition KeyDelete : Z := 14.

Definition ModShift : Z := Z.shiftl 1 0.
Definition ModCtrl : Z := Z.shiftl 1 1.
Definition ModAlt : Z := Z.shiftl 1 2.
Definition ModCmd : Z := Z.shiftl 1 3.

Definition DecorBold : Z := Z.shiftl 1 0.
Definition DecorItalic : Z := Z.shiftl 1 1.
Definition DecorUnderline : Z := Z.shiftl 1 2.

Record RGB := mkRGB { rgb_R : Z; rgb_G : Z; rgb_B : Z }.

Record Event := mkEvent {
  Kind : Z; Key : Z; Ch : Z; Mods : Z; ev_W : Z; ev_H : Z;
  Topic : bytes; Data : bytes;
  MouseX : Z; MouseY : Z; Button : Z; Action : Z; CommandID : Z }.

(** [Event{Kind: k}] with every other field zero. *)
Definition event0 (k : Z) : Event := mkEvent k 0 0 0 0 0 [] [] 0 0 0 0 0.

Record Cell := mkCell { cell_Ch : Z; Fg : RGB; Bg : RGB; Decor : Z }.

(** [Cell{}], the zero value a fresh cell buffer holds. *)
Definition cell0 : Cell := mkCell 0 (mkRGB 0 0 0) (mkRGB 0 0 0) 0.

Record Frame := mkFrame { frame_W : Z; frame_H : Z; Quit : bool; Cells : list Cell }.

Definition At {E} (f : Frame) (x y : Z) : res E Cell :=
  index (Cells f) (y * frame_W f + x).

Definition BusMaxTopic : Z := 128.
Definition BusMaxData : Z := 3072.

Definition TimerMaxActive : Z := 64.
Definition TimerMinDelayNanos : Z := 1000000.
Definition TimerMinEveryNanos : Z := 10000000.
Definition TimerMaxDelayNanos : Z := 24 * 60 * 60 * 10 ^ 9.
Definition TimerErrInvalid : Z := -1.
Definition TimerErrLimit : Z := -2.
Definition TimerErrInternal : Z := -3.

Definition BusOk : Z := 0.
Definition BusErrTooLarge : Z := -1.
Definition BusErrInternal : Z := -2.

(** ** event.go *)

Definition EventLen : Z := 13.

(** [AppendEvent dst e]: [dst] is the backing array of the Go slice up to its
    capacity, so [cap(dst)] is its length here; what it held before is
    arbitrary.  Every byte of the result is written below. *)
Definition AppendEvent (dst : bytes) (e : Event) : res AbiErr bytes :=
  let tail := if Kind e =? KindMessage
              then 2 + len (Topic e) + 4 + len (Data e) else 0 in
  let size := EventLen + tail in
  let dst := if len dst <? size then replicate (Z.to_nat size) 0 else dst in
  let? b := slice dst 0 size in
  let? b := put b 0 magicEvent in
  let? b := put b 1 Version in
  let? b := put b 2 (u8 (Kind e)) in
  let? b := put b 3 (if Kind e =? KindMouse then u8 (Button e) else u8 (Key e)) in
  let? b := put_slice b 4 (le_bytes 4 (if Kind e =? KindTimer
                                       then u32 (CommandID e) else u32 (Ch e))) in
  let? b := put b 8 (if Kind e =? KindMouse then u8 (Action e) else u8 (Mods e)) in
  let? b := put_slice b 9 (le_bytes 2 (if Kind e =? KindMouse
                                       then u16 (MouseX e) else u16 (ev_W e))) in
  let? b := put_slice b 11 (le_bytes 2 (if Kind e =? KindMouse
                                        then u16 (MouseY e) else u16 (ev_H e))) in
  if Kind e =? KindMessage then
    let off := EventLen in
    let? b := put_slice b off (le_bytes 2 (u16 (len (Topic e)))) in
    let off := off + 2 in
    let? '(b, n) := copy_at b off (Topic e) in
    let off := off + n in
    let? b := put_slice b off (le_bytes 4 (u32 (len (Data e)))) in
    let off := off + 4 in
    let? '(b, _) := copy_at b off (Data e) in
    Ok b
  else Ok b.

Definition EncodeEvent (e : Event) : res AbiErr bytes := AppendEvent [] e.

Definition DecodeEvent (b : bytes) : res AbiErr Event :=
  if len b <? EventLen then Err ErrShort else
  let? b0 := index b 0 in
  if negb (b0 =? magicEvent) then Err ErrMagic else
  let? b1 := index b 1 in
  if negb (b1 =? Version) then Err ErrVersion else
  let? b2 := index b 2 in
  let? b3 := index b 3 in
  let? s4 := slice b 4 8 in
  let? b8 := index b 8 in
  let? s9 := slice b 9 11 in
  let? s11 := slice b 11 13 in
  let e := mkEvent b2 b3 (i32 (le_val s4)) b8 (le_val s9) (le_val s11)
             [] [] 0 0 0 0 0 in
  let e := if Kind e =? KindMouse
           then mkEvent (Kind e) 0 (Ch e) 0 0 0 (Topic e) (Data e)
                  (le_val s9) (le_val s11) b3 b8 (CommandID e)
           else e in
  let e := if Kind e =? KindTimer
           then mkEvent (Kind e) 0 0 0 0 0 (Topic e) (Data e)
                  (MouseX e) (MouseY e) (Button e) (Action e) (le_val s4)
           else e in
  if negb (Kind e =? KindMessage) then
    (if negb (len b =? EventLen) then Err ErrSize else Ok e)
  else
  let off := EventLen in
  if len b <? off + 2 then Err ErrShort else
  let? st := slice b off (off + 2) in
  let tlen := le_val st in
  let off := off + 2 in
  if len b <? off + tlen + 4 then Err ErrShort else
  let? topic := slice b off (off + tlen) in
  let off := off + tlen in
  let? sd := slice b off (off + 4) in
  let dlen := le_val sd in
  let off := off + 4 in
  if len b <? off + dlen then Err ErrShort else
  if off + dlen <? len b then Err ErrSize else
  let? data := slice b off (off + dlen) in
  Ok (mkEvent (Kind e) (Key e) (Ch e) (Mods e) (ev_W e) (ev_H e) topic data
        (MouseX e) (MouseY e) (Button e) (Action e) (CommandID e)).

(** ** frame.go *)

Definition frameHeaderLen : Z := 8.
Definition cellLen : Z := 11.
Definition MaxFrameWidth : Z := 500.
Definition MaxFrameHeight : Z := 300.
Definition MaxFrameBytes : Z := frameHeaderLen + MaxFrameWidth * MaxFrameHeight * cellLen.
Definition flagQuit : Z := Z.shiftl 1 0.

(** The cell loop of [AppendFrame]: [off] advances by [cellLen] per cell. *)
Fixpoint appendCells (b : bytes) (off : Z) (cs : list Cell) : res AbiErr bytes :=
  match cs with
  | [] => Ok b
  | c :: cs' =>
    let? b := put_slice b off (le_bytes 4 (u32 (cell_Ch c))) in
    let? b := put b (off + 4) (rgb_R (Fg c)) in
    let? b := put b (off + 5) (rgb_G (Fg c)) in
    let? b := put b (off + 6) (rgb_B (Fg c)) in
    let? b := put b (off + 7) (rgb_R (Bg c)) in
    let? b := put b (off + 8) (rgb_G (Bg c)) in
    let? b := put b (off + 9) (rgb_B (Bg c)) in
    let? b := put b (off + 10) (Decor c) in
    appendCells b (off + cellLen) cs'
  end.

Definition AppendFrame (dst : bytes) (f : Frame) : res AbiErr bytes :=
  let size := frameHeaderLen + len (Cells f) * cellLen in
  let dst := if len dst <? size then replicate (Z.to_nat size) 0 else dst in
  let? b := slice dst 0 size in
  let? b := put b 0 magicFrame in
  let? b := put b 1 Version in
  let? b := put b 2 0 in
  let? b := if Quit f then put b 2 flagQuit else Ok b in
  let? b := put b 3 0 in
  let? b := put_slice b 4 (le_bytes 2 (u16 (frame_W f))) in
  let? b := put_slice b 6 (le_bytes 2 (u16 (frame_H f))) in
  appendCells b frameHeaderLen (Cells f).

Definition EncodeFrame (f : Frame) : res AbiErr bytes := AppendFrame [] f.

(** The cell loop of [AppendDecodeFrame]: [n] cells of [dst] are left to fill,
    the next one is [dst[i]]. *)
Fixpoint decodeCells {E} (n : nat) (i off : Z) (dst : list Cell) (b : bytes)
  : res E (list Cell) :=
  match n with
  | O => Ok dst
  | S n' =>
    let? ch := slice b off (off + 4) in
    let? r := index b (off + 4) in
    let? g := index b (off + 5) in
    let? bl := index b (off + 6) in
    let? r' := index b (off + 7) in
    let? g' := index b (off + 8) in
    let? bl' := index b (off + 9) in
    let? d := index b (off + 10) in
    let? dst := put dst i (mkCell (i32 (le_val ch)) (mkRGB r g bl) (mkRGB r' g' bl') d) in
    decodeCells n' (i + 1) (off + cellLen) dst b
  end.

(** The source returns [(Frame, []Cell, error)]; the buffer handed back with
    an error is part of the error value here. *)
Definition AppendDecodeFrame (dst : list Cell) (b : bytes)
  : res (AbiErr * list Cell) (Frame * list Cell) :=
  if len b <? frameHeaderLen then Err (ErrShort, dst) else
  let? b0 := index b 0 in
  if negb (b0 =? magicFrame) then Err (ErrMagic, dst) else
  let? b1 := index b 1 in
  if negb (b1 =? Version) then Err (ErrVersion, dst) else
  let? b2 := index b 2 in
  let? sw := slice b 4 6 in
  let? sh := slice b 6 8 in
  let q := negb (Z.land b2 flagQuit =? 0) in
  let w := le_val sw in
  let h := le_val sh in
  if (w <? 1) || (MaxFrameWidth <? w) || (h <? 1) || (MaxFrameHeight <? h)
  then Err (ErrSize, dst) else
  let n := w * h in
  if negb (len b =? frameHeaderLen + n * cellLen) then Err (ErrSize, dst) else
  let dst := if len dst <? n then replicate (Z.to_nat n) cell0 else dst in
  let? dst := slice dst 0 n in
  let? dst := decodeCells (Z.to_nat n) 0 frameHeaderLen dst b in
  Ok (mkFrame w h q dst, dst).

Definition DecodeFrame (b : bytes) : res AbiErr Frame :=
  match AppendDecodeFrame [] b with
  | Ok (f, _) => Ok f
  | Err (e, _) => Err e
  | Panic => Panic
  end.

(** ** Reference layout of an event

    The wire layout as the comment above [EncodeEvent] states it, written as a
    plain concatenation: the specification the in-place encoder is held to. *)

Definition event_header (e : Event) : bytes :=
  [magicEvent; Version; u8 (Kind e);
   if Kind e =? KindMouse then u8 (Button e) else u8 (Key e)]
  ++ le_bytes 4 (if Kind e =? KindTimer then u32 (CommandID e) else u32 (Ch e))
  ++ [if Kind e =? KindMouse then u8 (Action e) else u8 (Mods e)]
  ++ le_bytes 2 (if Kind e =? KindMouse then u16 (MouseX e) else u16 (ev_W e))
  ++ le_bytes 2 (if Kind e =? KindMouse then u16 (MouseY e) else u16 (ev_H e)).

Definition event_tail (e : Event) : bytes :=
  if Kind e =? KindMessage
  then le_bytes 2 (u16 (len (Topic e))) ++ Topic e
       ++ le_bytes 4 (u32 (len (Data e))) ++ Data e
  else [].

Definition event_wire (e : Event) : bytes := event_header e ++ event_tail e.

(** The events the format can carry: the fields used by the kind fit their
    width and the fields the kind does not use are zero. *)
Definition event_wf (e : Event) : Prop :=
  is_u8 (Kind e) /\ bytes_ok (Topic e) /\ bytes_ok (Data e) /\
  (Kind e <> KindMessage -> Topic e = [] /\ Data e = []) /\
  (Kind e = KindMessage -> len (Topic e) < 2 ^ 16 /\ len (Data e) < 2 ^ 32) /\
  (if Kind e =? KindTimer
   then Key e = 0 /\ Ch e = 0 /\ Mods e = 0 /\ is_u32 (CommandID e)
   else CommandID e = 0 /\ is_i32 (Ch e)) /\
  (if Kind e =? KindMouse
   then Key e = 0 /\ Mods e = 0 /\ ev_W e = 0 /\ ev_H e = 0 /\
        is_u8 (Button e) /\ is_u8 (Action e) /\ is_u16 (MouseX e) /\ is_u16 (MouseY e)
   else Button e = 0 /\ Action e = 0 /\ MouseX e = 0 /\ MouseY e = 0 /\
        is_u8 (Key e) /\ is_u8 (Mods e) /\
        (if Kind e =? KindTimer then ev_W e = 0 /\ ev_H e = 0
         else is_u16 (ev_W e) /\ is_u16 (ev_H e))).

Lemma len_event_header e : len (event_header e) = EventLen.
Proof. reflexivity. Qed.
#[export] Hint Rewrite len_event_header : len.

(** A run of in-place writes at the constant offsets of a header. *)
Ltac run_writes :=
  repeat (first [rewrite put_eq by (unfold EventLen, frameHeaderLen in *; len_lia)
                |rewrite put_slice_eq by (unfold EventLen, frameHeaderLen in *; len_lia)];
          unfold overwrite at 1; zconst; cbn [rbind take drop app length le_bytes Nat.add]).

Tactic Notation "split_cells" ident(b) integer(n) :=
  do n (let x := fresh "x" in
        destruct b as [|x b]; [exfalso; unfold EventLen, frameHeaderLen in *; len_lia|]).

(** The shared prefix of both encoders: whatever the buffer held, the code
    starts from some buffer of exactly [size] bytes. *)
Lemma fresh_or_reused {E} (dst : bytes) size :
  0 <= size ->
  exists b, len b = size /\
    slice (E:=E) (if len dst <? size then replicate (Z.to_nat size) 0 else dst) 0 size = Ok b.
Proof.
  intros Hs. destruct (len dst <? size) eqn:Hc; zbool.
  - eexists; split; [|apply slice_ok; len_lia]. len_lia.
  - eexists; split; [|apply slice_ok; len_lia]. len_lia.
Qed.

(** The variable tail of a message, written after the header. *)
Lemma append_message_tail hd b topic data :
  len hd = EventLen -> len b = 2 + len topic + 4 + len data ->
  (let? b := put_slice (hd ++ b) EventLen (le_bytes 2 (u16 (len topic))) in
   let? '(b, n) := copy_at b (EventLen + 2) topic in
   let? b := put_slice b (EventLen + 2 + n) (le_bytes 4 (u32 (len data))) in
   let? '(b, _) := copy_at b (EventLen + 2 + n + 4) data in
   Ok (E:=AbiErr) b)
  = Ok (hd ++ le_bytes 2 (u16 (len topic)) ++ topic ++ le_bytes 4 (u32 (len data)) ++ data).
Proof.
  intros Hh Hb.
  destruct (split_at b 2) as (m1 & b1 & -> & H1 & Hb1); [len_lia|].
  destruct (split_at b1 (len topic)) as (m2 & b2 & -> & H2 & Hb2); [len_lia|].
  destruct (split_at b2 4) as (m3 & m4 & -> & H3 & H4); [len_lia|].
  rewrite put_slice_mid by len_lia. cbn [rbind].
  rewrite (app_assoc hd). rewrite copy_at_mid by len_lia. cbn [rbind].
  rewrite (app_assoc _ topic). rewrite put_slice_mid by len_lia. cbn [rbind].
  rewrite (app_assoc _ (le_bytes 4 _)), <- (app_nil_r m4).
  rewrite copy_at_mid by len_lia. cbn [rbind]. by rewrite app_nil_r, <- !app_assoc.
Qed.

Lemma AppendEvent_wire dst e : AppendEvent dst e = Ok (event_wire e).
Proof.
  unfold AppendEvent.
  set (tail := if Kind e =? KindMessage then _ else _).
  assert (Ht : 0 <= tail) by (subst tail; destruct (_ =? _); len_lia).
  destruct (fresh_or_reused (E:=AbiErr) dst (EventLen + tail)) as (b & Hb & ->);
    [unfold EventLen; lia|].
  cbn [rbind]. split_cells b 13. run_writes.
  unfold event_wire, event_tail. subst tail.
  destruct (Kind e =? KindMessage) eqn:Hk.
  - apply (append_message_tail (event_header e) b (Topic e) (Data e));
      [done|unfold EventLen in *; len_lia].
  - assert (b = []) as -> by (apply len_0_nil; unfold EventLen in *; len_lia). done.
Qed.

(** Decoding a buffer that starts with a header of this version: all header
    reads happen inside the first thirteen bytes. *)
Lemma DecodeEvent_header x2 x3 a0 a1 a2 a3 x8 w0 w1 h0 h1 tail :
  let hd := [magicEvent; Version; x2; x3; a0; a1; a2; a3; x8; w0; w1; h0; h1] in
  x2 <> KindMessage ->
  DecodeEvent (hd ++ tail) =
    if negb (len (hd ++ tail) =? EventLen) then Err ErrSize
    else Ok (if x2 =? KindMouse
             then mkEvent x2 0 (i32 (le_val [a0; a1; a2; a3])) 0 0 0 [] []
                    (le_val [w0; w1]) (le_val [h0; h1]) x3 x8 0
             else if x2 =? KindTimer
             then mkEvent x2 0 0 0 0 0 [] [] 0 0 0 0 (le_val [a0; a1; a2; a3])
             else mkEvent x2 x3 (i32 (le_val [a0; a1; a2; a3])) x8
                    (le_val [w0; w1]) (le_val [h0; h1]) [] [] 0 0 0 0 0).
Proof.
  intros hd Hk. assert (Hhd : len hd = EventLen) by reflexivity.
  unfold DecodeEvent. rewrite (proj2 (Z.ltb_ge _ _)) by len_lia.
  unfold EventLen in Hhd. rewrite !(index_app_l hd), !(slice_app_l hd) by lia.
  generalize (len (hd ++ tail)); intros n. clear Hhd. read_hd hd.
  change (negb (1 =? magicEvent)) with false.
  change (negb (4 =? Version)) with false. cbn [Kind].
  apply Z.eqb_neq in Hk.
  destruct (x2 =? KindMouse) eqn:Hmo; cbn [Kind].
  - apply Z.eqb_eq in Hmo as ->. done.
  - destruct (x2 =? KindTimer) eqn:Hti; cbn [Kind]; by rewrite Hk.
Qed.

Lemma DecodeEvent_message x3 a0 a1 a2 a3 x8 w0 w1 h0 h1 topic data :
  len topic < 2 ^ 16 -> len data < 2 ^ 32 ->
  DecodeEvent ([magicEvent; Version; KindMessage; x3; a0; a1; a2; a3; x8; w0; w1; h0; h1]
               ++ le_bytes 2 (u16 (len topic)) ++ topic ++ le_bytes 4 (u32 (len data)) ++ data)
  = Ok (mkEvent KindMessage x3 (i32 (le_val [a0; a1; a2; a3])) x8
          (le_val [w0; w1]) (le_val [h0; h1]) topic data 0 0 0 0 0).
Proof.
  intros Ht Hd.
  set (hd := [magicEvent; Version; KindMessage; x3; a0; a1; a2; a3; x8; w0; w1; h0; h1]).
  set (t2 := le_bytes 2 _). set (d4 := le_bytes 4 _). set (b := hd ++ _).
  assert (Ht2 : le_val t2 = len topic).
  { subst t2. rewrite u16_small, le_val_small; unfold is_u16; len_lia. }
  assert (Hd4 : le_val d4 = len data).
  { subst d4. rewrite u32_small, le_val_small; unfold is_u32; len_lia. }
  assert (Hl2 : len t2 = 2) by apply len_le_bytes.
  assert (Hl4 : len d4 = 4) by apply len_le_bytes.
  assert (Hhd : len hd = EventLen) by reflexivity.
  assert (Hlen : len b = EventLen + 2 + len topic + 4 + len data) by (subst b; len_lia).
  unfold EventLen in *. len_pos.
  assert (S1 : slice (E:=AbiErr) b 13 15 = Ok t2).
  { apply (slice_part b hd t2 (topic ++ d4 ++ data)); [done|lia|lia]. }
  assert (S2 : slice (E:=AbiErr) b 15 (15 + len topic) = Ok topic).
  { apply (slice_part b (hd ++ t2) topic (d4 ++ data)); [|len_lia..].
    subst b. by rewrite <- !app_assoc. }
  assert (S3 : slice (E:=AbiErr) b (15 + len topic) (15 + len topic + 4) = Ok d4).
  { apply (slice_part b (hd ++ t2 ++ topic) d4 data); [|len_lia..].
    subst b. by rewrite <- !app_assoc. }
  assert (S4 : slice (E:=AbiErr) b (15 + len topic + 4) (15 + len topic + 4 + len data) = Ok data).
  { apply (slice_part b (hd ++ t2 ++ topic ++ d4) data []); [|len_lia..].
    subst b. by rewrite app_nil_r, <- !app_assoc. }
  unfold DecodeEvent, EventLen.
  rewrite (proj2 (Z.ltb_ge (len b) 13)) by lia.
  assert (Hi : forall i, 0 <= i < 13 -> index (E:=AbiErr) b i = index hd i)
    by (intros; apply index_app_l; lia).
  assert (Hs : forall i j, 0 <= i <= j -> j <= 13 -> slice (E:=AbiErr) b i j = slice hd i j)
    by (intros; apply slice_app_l; lia).
  rewrite !Hi, (Hs 4 8), (Hs 9 11), (Hs 11 13) by lia. clear Hi Hs.
  clearbody b.
  read_hd hd. change (negb (1 =? magicEvent)) with false.
  change (negb (4 =? Version)) with false.
  cbn [Kind Key Ch Mods ev_W ev_H MouseX MouseY Button Action CommandID
       Z.eqb Pos.eqb negb KindMessage KindMouse KindTimer].
  rewrite (proj2 (Z.ltb_ge (len b) (13 + 2))) by lia.
  change (13 + 2) with 15. rewrite S1. cbn [rbind]. rewrite Ht2.
  rewrite (proj2 (Z.ltb_ge _ _)) by lia. rewrite S2. cbn [rbind].
  rewrite S3. cbn [rbind]. rewrite Hd4.
  rewrite !(proj2 (Z.ltb_ge _ _)) by lia. by rewrite S4.
Qed.

(** Fold the explicit bytes of a fixed-width field back into [le_bytes]. *)
Ltac fold_le :=
  repeat match goal with
  | |- context [le_val (u8 ?a :: u8 (Z.shiftr ?a 8) :: u8 (Z.shiftr (Z.shiftr ?a 8) 8) :: ?r)] =>
    change (le_val (u8 a :: u8 (Z.shiftr a 8) :: u8 (Z.shiftr (Z.shiftr a 8) 8) :: r))
      with (le_val (le_bytes 4 a))
  | |- context [le_val [u8 ?a; u8 (Z.shiftr ?a 8)]] =>
    change (le_val [u8 a; u8 (Z.shiftr a 8)]) with (le_val (le_bytes 2 a))
  end.

Lemma DecodeEvent_wire e : event_wf e -> DecodeEvent (event_wire e) = Ok e.
Proof.
  destruct e as [k key ch mods w h topic data mx my btn act cid].
  unfold event_wf, event_wire, event_tail, event_header;
    cbn [Kind Key Ch Mods ev_W ev_H Topic Data MouseX MouseY Button Action CommandID].
  intros (Hk & Ht & Hd & Hnm & Hm & Htm & Hmo).
  rewrite (u8_small k) by done.
  destruct (Z.eq_dec k KindMessage) as [->|Hne].
  - destruct (Hm eq_refl) as [Hlt Hld]. cbn in Htm, Hmo.
    destruct Htm as [-> Hch].
    destruct Hmo as (-> & -> & -> & -> & Hkey & Hmods & Hw & Hh).
    etransitivity; [apply (DecodeEvent_message _ _ _ _ _ _ _ _ _ _ topic data Hlt Hld)|].
    cbn -[le_val le_bytes u8 u16 u32 i32]. fold_le.
    by rewrite le4_i32, !le2_u16, !u8_small by done.
  - destruct (Hnm Hne) as [-> ->].
    etransitivity; [apply (DecodeEvent_header k _ _ _ _ _ _ _ _ _ _ _); exact Hne|].
    rewrite (proj2 (Z.eqb_neq k KindMessage)) by done.
    match goal with |- context [negb ?c] => change (negb c) with false end. cbv iota. f_equal.
    destruct (k =? KindTimer) eqn:Hti; destruct (k =? KindMouse) eqn:Hkm; zbool;
      [subst; discriminate| | |]; destruct_and!; subst; fold_le;
      by rewrite ?le4_i32, ?le4_u32, ?le2_u16, ?u8_small by done.
Qed.

(** *** Decoding hostile bytes *)

Lemma DecodeEvent_total b : bytes_ok b -> no_panic (DecodeEvent b).
Proof.
  intros Hb. unfold DecodeEvent, EventLen.
  repeat (np_step; try lia); le_bounds; lia.
Qed.

Lemma DecodeEvent_prefix b e :
  DecodeEvent b = Ok e ->
  exists x2 x3 a0 a1 a2 a3 x8 w0 w1 h0 h1 tail,
    b = [magicEvent; Version; x2; x3; a0; a1; a2; a3; x8; w0; w1; h0; h1] ++ tail.
Proof.
  intros He. unfold DecodeEvent in He.
  destruct (len b <? EventLen) eqn:Hl; [done|]. zbool. unfold EventLen in Hl.
  apply rbind_ok in He as (x0 & E0 & He).
  destruct (negb (x0 =? magicEvent)) eqn:Hx0; [done|].
  apply rbind_ok in He as (x1 & E1 & He).
  destruct (negb (x1 =? Version)) eqn:Hx1; [done|]. zbool. subst. clear He.
  split_cells b 13.
  assert (x = magicEvent) as -> by (by injection E0).
  assert (x0 = Version) as -> by (by injection E1).
  do 12 eexists. reflexivity.
Qed.

(** The tail of a decoded message, read back from the code. *)
Lemma DecodeEvent_message_inv x3 a0 a1 a2 a3 x8 w0 w1 h0 h1 tail e :
  let hd := [magicEvent; Version; KindMessage; x3; a0; a1; a2; a3; x8; w0; w1; h0; h1] in
  bytes_ok (hd ++ tail) -> DecodeEvent (hd ++ tail) = Ok e ->
  exists topic data, len topic < 2 ^ 16 /\ len data < 2 ^ 32 /\
    tail = le_bytes 2 (u16 (len topic)) ++ topic ++ le_bytes 4 (u32 (len data)) ++ data.
Proof.
  intros hd Hb He. assert (Hhd : len hd = 13) by reflexivity.
  remember (hd ++ tail) as b eqn:Hbe.
  assert (Hi : index (E:=AbiErr) b 2 = Ok KindMessage)
    by (rewrite Hbe, index_app_l by lia; reflexivity).
  unfold DecodeEvent in He.
  destruct (len b <? EventLen) eqn:Hl; [done|].
  do 2 (apply rbind_ok in He as (? & _ & He); destruct (negb _); [done|]).
  rewrite Hi in He. cbn [rbind] in He.
  do 5 (apply rbind_ok in He as (? & _ & He)).
  cbn [Kind Z.eqb Pos.eqb negb KindMessage KindMouse KindTimer] in He.
  unfold EventLen in *. change (13 + 2) with 15 in He.
  destruct (len b <? 15) eqn:?; [done|].
  apply rbind_ok in He as (t2 & E2 & He).
  destruct (len b <? 15 + le_val t2 + 4) eqn:?; [done|].
  apply rbind_ok in He as (topic & Et & He). apply rbind_ok in He as (d4 & E4 & He).
  destruct (len b <? 15 + le_val t2 + 4 + le_val d4) eqn:?; [done|].
  destruct (15 + le_val t2 + 4 + le_val d4 <? len b) eqn:?; [done|].
  apply rbind_ok in He as (data & Ed & _). zbool.
  pose proof (le_val_field 2 _ _ _ _ Hb E2 ltac:(lia)) as V2.
  pose proof (le_val_field 4 _ _ _ _ Hb E4 ltac:(lia)) as V4.
  change (8 * 2) with 16 in V2. change (8 * 4) with 32 in V4.
  pose proof (slice_len _ _ _ _ Et) as Lt. pose proof (slice_len _ _ _ _ Ed) as Ld.
  pose proof (slice_len _ _ _ _ E2) as L2. pose proof (slice_len _ _ _ _ E4) as L4.
  exists topic, data. split; [lia|]. split; [lia|].
  assert (Ht : slice (E:=AbiErr) b 13 (len b) = Ok tail).
  { rewrite Hbe. exact (slice_from_app (E:=AbiErr) hd tail 13 (eq_sym Hhd)). }
  pose proof (slice_glue _ _ _ _ _ _ E2 (slice_glue _ _ _ _ _ _ Et
    (slice_glue _ _ _ _ _ _ E4 Ed))) as Hg.
  replace (15 + _ + _ + _) with (len b) in Hg by lia.
  rewrite Ht in Hg. injection Hg as ->.
  rewrite (u16_small (len topic)), (u32_small (len data)) by (unfold is_u16, is_u32; lia).
  replace (len topic) with (le_val t2) by lia. replace (len data) with (le_val d4) by lia.
  by rewrite (le_bytes_slice _ _ _ _ _ Hb E2), (le_bytes_slice _ _ _ _ _ Hb E4) by lia.
Qed.

Ltac wf_tac :=
  split_and!; intros; try done; try lia;
  auto using le_val_u16, i32_range, u8_range, Forall_nil_2.

(** What a successful decode says about the bytes: the event is one the format
    can carry and, timers aside, encoding it gives back the same bytes.  (A
    timer event drops its unused header fields.) *)
Lemma DecodeEvent_inv b e :
  bytes_ok b -> DecodeEvent b = Ok e ->
  event_wf e /\ (Kind e <> KindTimer -> event_wire e = b).
Proof.
  intros Hb He.
  destruct (DecodeEvent_prefix _ _ He)
    as (k & x3 & a0 & a1 & a2 & a3 & x8 & w0 & w1 & h0 & h1 & tail & ->).
  pose proof Hb as Hb'. unfold bytes_ok in Hb'. cbn [app] in Hb'.
  rewrite !Forall_cons in Hb'. destruct_and!.
  destruct (Z.eq_dec k KindMessage) as [->|Hk].
  - destruct (DecodeEvent_message_inv _ _ _ _ _ _ _ _ _ _ _ _ Hb He)
      as (topic & data & Ht & Hd & ->).
    rewrite DecodeEvent_message in He by done. apply ok_inj in He as <-.
    apply bytes_ok_app in Hb as [_ Hb].
    rewrite !bytes_ok_app in Hb. destruct_and!.
    unfold event_wf, event_wire, event_header, event_tail.
    cbn [Kind Key Ch Mods ev_W ev_H Topic Data MouseX MouseY Button Action CommandID
         Z.eqb Pos.eqb KindMessage KindMouse KindTimer].
    rewrite u32_i32, le4_bytes, !le2_bytes, !u8_small by done.
    wf_tac.
  - rewrite DecodeEvent_header in He by done.
    destruct (negb _) eqn:Hl; [done|]. zbool. apply ok_inj in He as <-.
    assert (tail = []) as -> by (apply len_0_nil; unfold EventLen in *; len_lia).
    pose proof (i32_range (le_val [a0; a1; a2; a3])).
    pose proof (le_val_u16 w0 w1). pose proof (le_val_u16 h0 h1).
    pose proof (le_val_u32 a0 a1 a2 a3).
    unfold event_wf, event_wire, event_header, event_tail.
    destruct (k =? KindMouse) eqn:Hmo; [|destruct (k =? KindTimer) eqn:Hti];
      cbn [Kind Key Ch Mods ev_W ev_H Topic Data MouseX MouseY Button Action CommandID];
      rewrite ?Hmo, ?Hti, (proj2 (Z.eqb_neq k KindMessage)) by done; zbool; subst.
    + change (KindMouse =? KindTimer) with false. cbv iota.
      rewrite u32_i32, le4_bytes, !le2_bytes, !u8_small by done.
      wf_tac.
    + wf_tac.
    + rewrite u32_i32, le4_bytes, !le2_bytes, !u8_small by done.
      wf_tac.
Qed.

(** ** Reference layout of a frame *)

Definition cell_wire (c : Cell) : bytes :=
  le_bytes 4 (u32 (cell_Ch c))
  ++ [rgb_R (Fg c); rgb_G (Fg c); rgb_B (Fg c); rgb_R (Bg c); rgb_G (Bg c); rgb_B (Bg c); Decor c].

Definition cells_wire (cs : list Cell) : bytes := concat (map cell_wire cs).

Definition frame_header (f : Frame) : bytes :=
  [magicFrame; Version; if Quit f then flagQuit else 0; 0]
  ++ le_bytes 2 (u16 (frame_W f)) ++ le_bytes 2 (u16 (frame_H f)).

Definition frame_wire (f : Frame) : bytes := frame_header f ++ cells_wire (Cells f).

Definition rgb_wf (c : RGB) : Prop := is_u8 (rgb_R c) /\ is_u8 (rgb_G c) /\ is_u8 (rgb_B c).
Definition cell_wf (c : Cell) : Prop :=
  is_i32 (cell_Ch c) /\ rgb_wf (Fg c) /\ rgb_wf (Bg c) /\ is_u8 (Decor c).

(** A frame a sink may paint: dimensions within the terminal limits and exactly
    a full grid of cells. *)
Definition frame_wf (f : Frame) : Prop :=
  1 <= frame_W f <= MaxFrameWidth /\ 1 <= frame_H f <= MaxFrameHeight /\
  len (Cells f) = frame_W f * frame_H f /\ Forall cell_wf (Cells f).

Lemma len_cell_wire c : len (cell_wire c) = 11.
Proof. reflexivity. Qed.

Lemma len_cells_wire cs : len (cells_wire cs) = len cs * 11.
Proof.
  induction cs as [|c cs IH]; [done|].
  change (cells_wire (c :: cs)) with (cell_wire c ++ cells_wire cs).
  rewrite len_app, len_cell_wire, IH, len_cons. lia.
Qed.
#[export] Hint Rewrite len_cell_wire len_cells_wire : len.

(** One write at a constant offset past a symbolic prefix. *)
Ltac eval_write :=
  unfold overwrite at 1; zconst; cbn [rbind take drop app length le_bytes Nat.add].
Ltac write_at pre k := rewrite (put_app_r pre _ _ k) by len_lia; eval_write.

(** Writing one cell at [off] replaces exactly its eleven bytes. *)
Lemma appendCells_wire pre body cs :
  len body = len cs * cellLen ->
  appendCells (pre ++ body) (len pre) cs = Ok (pre ++ cells_wire cs).
Proof.
  revert pre body. induction cs as [|c cs IH]; intros pre body Hb.
  - simpl. by rewrite (len_0_nil body) by len_lia.
  - unfold cellLen in *.
    destruct (split_at body 11) as (m & s & -> & Hm & Hs); [len_lia|].
    split_cells m 11. assert (m = []) as -> by (apply len_0_nil; len_lia).
    cbn [appendCells app]. unfold cellLen. len_pos.
    rewrite (put_slice_app_r pre _ _ 0) by len_lia. eval_write.
    write_at pre 4. write_at pre 5. write_at pre 6. write_at pre 7.
    write_at pre 8. write_at pre 9. write_at pre 10.
    change (cells_wire (c :: cs)) with (cell_wire c ++ cells_wire cs).
    rewrite app_assoc, <- IH with (body := s) by len_lia.
    rewrite len_app, len_cell_wire, <- app_assoc. reflexivity.
Qed.

Lemma AppendFrame_wire dst f : AppendFrame dst f = Ok (frame_wire f).
Proof.
  unfold AppendFrame, cellLen.
  destruct (fresh_or_reused (E:=AbiErr) dst (frameHeaderLen + len (Cells f) * 11))
    as (b & Hb & ->); [unfold frameHeaderLen; len_lia|].
  cbn [rbind]. split_cells b 8. len_pos.
  do 3 (rewrite put_eq by len_lia; eval_write).
  assert (Hq : (if Quit f then put (E:=AbiErr) (magicFrame :: Version :: 0 :: x2 :: x3 :: x4 :: x5 :: x6 :: b) 2 flagQuit
                else Ok (magicFrame :: Version :: 0 :: x2 :: x3 :: x4 :: x5 :: x6 :: b))
               = Ok (magicFrame :: Version :: (if Quit f then flagQuit else 0)
                       :: x2 :: x3 :: x4 :: x5 :: x6 :: b)).
  { destruct (Quit f); [|done]. rewrite put_eq by len_lia. reflexivity. }
  rewrite Hq. cbn [rbind]. clear Hq.
  rewrite put_eq by len_lia. eval_write.
  do 2 (rewrite put_slice_eq by len_lia; eval_write).
  apply (appendCells_wire (frame_header f) b).
  unfold frameHeaderLen, cellLen in *. len_lia.
Qed.

(** Eleven bytes are one cell, and reading them back is exact. *)
Lemma decodeCells_wire {E} cs pre dn todo :
  Forall cell_wf cs -> len todo = len cs ->
  decodeCells (E:=E) (length cs) (len dn) (len pre) (dn ++ todo) (pre ++ cells_wire cs)
  = Ok (dn ++ cs).
Proof.
  intros Hcs. revert pre dn todo.
  induction Hcs as [|c cs Hc Hcs IH]; intros pre dn todo Ht.
  - by rewrite (len_0_nil todo) by len_lia.
  - destruct todo as [|t todo]; [exfalso; len_lia|].
    change (cells_wire (c :: cs)) with (cell_wire c ++ cells_wire cs).
    cbn [length decodeCells].
    rewrite (slice_app_r pre _ _ _ 0 4), (index_app_r pre _ _ 4), (index_app_r pre _ _ 5),
      (index_app_r pre _ _ 6), (index_app_r pre _ _ 7), (index_app_r pre _ _ 8),
      (index_app_r pre _ _ 9), (index_app_r pre _ _ 10) by len_lia.
    rewrite !(index_app_l (cell_wire c)), !(slice_app_l (cell_wire c))
      by (rewrite ?len_cell_wire; lia).
    destruct c as [ch [r g bl] [r' g' bl'] d]. destruct Hc as (Hch & _).
    cbn [cell_Ch Fg Bg Decor rgb_R rgb_G rgb_B] in *.
    set (cw := cell_wire _). 
    change (slice cw 0 4) with (Ok (E:=E) (le_bytes 4 (u32 ch))).
    change (index cw 4) with (Ok (E:=E) r). change (index cw 5) with (Ok (E:=E) g).
    change (index cw 6) with (Ok (E:=E) bl). change (index cw 7) with (Ok (E:=E) r').
    change (index cw 8) with (Ok (E:=E) g'). change (index cw 9) with (Ok (E:=E) bl').
    change (index cw 10) with (Ok (E:=E) d). cbn [rbind].
    rewrite le4_i32 by done. rewrite put_mid by done. cbn [rbind].
    specialize (IH (pre ++ cw) (dn ++ [mkCell ch (mkRGB r g bl) (mkRGB r' g' bl') d]) todo).
    rewrite <- !app_assoc in IH. cbn [app] in IH. rewrite <- IH by len_lia.
    subst cw. rewrite !len_app, len_cell_wire. reflexivity.
Qed.

(** *** Reference parser for frames

    A pure function of the bytes: no buffer, no offsets.  [AppendDecodeFrame]
    is shown to compute it whatever the reused cell buffer holds. *)

Fixpoint parse_cells (b : bytes) : list Cell :=
  match b with
  | a0 :: a1 :: a2 :: a3 :: r :: g :: bl :: r' :: g' :: bl' :: d :: b' =>
    mkCell (i32 (le_val [a0; a1; a2; a3])) (mkRGB r g bl) (mkRGB r' g' bl') d :: parse_cells b'
  | _ => []
  end.

Definition parse_frame (b : bytes) : AbiErr + Frame :=
  match b with
  | m :: v :: fl :: _ :: w0 :: w1 :: h0 :: h1 :: body =>
    let w := le_val [w0; w1] in
    let h := le_val [h0; h1] in
    if negb (m =? magicFrame) then inl ErrMagic
    else if negb (v =? Version) then inl ErrVersion
    else if (w <? 1) || (MaxFrameWidth <? w) || (h <? 1) || (MaxFrameHeight <? h)
    then inl ErrSize
    else if negb (len body =? w * h * cellLen) then inl ErrSize
    else inr (mkFrame w h (Z.testbit fl 0) (parse_cells body))
  | _ => inl ErrShort
  end.

Lemma parse_cells_wire n body :
  bytes_ok body -> len body = Z.of_nat n * 11 ->
  length (parse_cells body) = n /\ Forall cell_wf (parse_cells body) /\
  cells_wire (parse_cells body) = body.
Proof.
  revert body. induction n as [|n IH]; intros body Hb Hl.
  - rewrite (len_0_nil body) by lia. repeat split; constructor.
  - split_cells body 11. unfold bytes_ok in Hb. rewrite !Forall_cons in Hb. destruct_and!.
    destruct (IH body) as (IHl & IHw & IHb); [done|len_lia|].
    cbn [parse_cells]. split_and!.
    + cbn [length]. by rewrite IHl.
    + constructor; [|done]. unfold cell_wf, rgb_wf; cbn. split_and!; auto using i32_range.
    + change (cells_wire (?c :: ?cs)) with (cell_wire c ++ cells_wire cs).
      unfold cell_wire; cbn [cell_Ch Fg Bg Decor rgb_R rgb_G rgb_B].
      by rewrite u32_i32, le4_bytes, IHb by done.
Qed.

Lemma land_1_testbit z : negb (Z.land z flagQuit =? 0) = Z.testbit z 0.
Proof.
  change flagQuit with (Z.ones 1). rewrite Z.land_ones by lia. change (2 ^ 1) with 2.
  rewrite <- Z.bit0_mod. by destruct (Z.testbit z 0).
Qed.

Lemma AppendDecodeFrame_parse dst b :
  bytes_ok b ->
  AppendDecodeFrame dst b =
    match parse_frame b with
    | inl e => Err (e, dst)
    | inr f => Ok (f, Cells f)
    end.
Proof.
  intros Hb. unfold AppendDecodeFrame.
  destruct (len b <? frameHeaderLen) eqn:Hl; zbool; unfold frameHeaderLen in *.
  { do 8 (destruct b as [|? b]; [reflexivity|]). exfalso; len_lia. }
  split_cells b 8. unfold bytes_ok in Hb. rewrite !Forall_cons in Hb. destruct_and!.
  cbn [parse_frame].
  set (hd := [x; x0; x1; x2; x3; x4; x5; x6]).
  change (x :: x0 :: x1 :: x2 :: x3 :: x4 :: x5 :: x6 :: b) with (hd ++ b) in *.
  assert (Hhd : len hd = 8) by reflexivity. unfold frameHeaderLen.
  rewrite !(index_app_l hd), !(slice_app_l hd) by lia. read_hd hd.
  destruct (negb (x =? magicFrame)); [done|]. destruct (negb (x0 =? Version)); [done|].
  rewrite land_1_testbit.
  destruct ((_ <? 1) || _ || _ || _) eqn:Hdim; [done|]. zbool.
  set (w := le_val [x3; x4]) in *. set (h := le_val [x5; x6]) in *.
  rewrite len_app, Hhd. unfold cellLen.
  destruct (len b =? w * h * 11) eqn:Hlen; zbool.
  2: { rewrite (proj2 (Z.eqb_neq _ _)) by lia. done. }
  rewrite (proj2 (Z.eqb_eq _ _)) by lia. cbn [negb Cells].
  destruct (parse_cells_wire (Z.to_nat (w * h)) b) as (Pl & Pw & Pb); [done|nia|].
  assert (Hd : exists todo, len todo = w * h /\
     slice (E:=AbiErr * list Cell) (if len dst <? w * h then replicate (Z.to_nat (w * h)) cell0 else dst) 0 (w * h) = Ok todo).
  { destruct (len dst <? w * h) eqn:?; zbool;
      (eexists; split; [|apply slice_ok; [nia|rewrite ?len_replicate; nia]]);
      autorewrite with len; nia. }
  destruct Hd as (todo & Ht & ->). cbn [rbind].
  assert (D : decodeCells (E:=AbiErr * list Cell) (length (parse_cells b)) 0 (len hd) todo
                (hd ++ cells_wire (parse_cells b)) = Ok (parse_cells b)).
  { apply (decodeCells_wire (parse_cells b) hd [] todo); [done|unfold len in *; nia]. }
  rewrite Pl, Pb, Hhd in D. by rewrite D.
Qed.

Lemma parse_frame_wf b f : bytes_ok b -> parse_frame b = inr f -> frame_wf f.
Proof.
  intros Hb Hf. do 8 (destruct b as [|? b]; [done|]). cbn [parse_frame] in Hf.
  do 2 (destruct (negb _); [done|]).
  destruct (_ || _) eqn:Hdim; [done|]. destruct (negb _) eqn:Hlen; [done|].
  apply (inj inr) in Hf as <-. zbool. unfold frame_wf, cellLen in *. cbn [frame_W frame_H Cells].
  unfold bytes_ok in Hb. rewrite !Forall_cons in Hb. destruct_and!.
  match type of Hlen with _ = ?w * ?h * 11 =>
    destruct (parse_cells_wire (Z.to_nat (w * h)) b) as (Pl & Pw & _); [done|nia|];
    split_and!; try lia; [unfold len in *; nia|done]
  end.
Qed.

Lemma frame_wire_bytes f : frame_wf f -> bytes_ok (frame_wire f).
Proof.
  intros (_ & _ & _ & Hc). unfold frame_wire, frame_header. rewrite !bytes_ok_app.
  split_and!; try apply le_bytes_ok.
  - by destruct (Quit f); apply bytes_ok_eval.
  - induction Hc as [|c cs (_ & (? & ? & ?) & (? & ? & ?) & ?) _ IH]; [constructor|].
    change (cells_wire (c :: cs)) with (cell_wire c ++ cells_wire cs).
    unfold cell_wire. bytes_tac.
Qed.

(** The reference parser inverts the reference layout. *)
Lemma parse_frame_wire f : frame_wf f -> parse_frame (frame_wire f) = inr f.
Proof.
  destruct f as [w h q cs]. intros (Hw & Hh & Hl & Hc). cbn [frame_W frame_H Cells] in *.
  unfold MaxFrameWidth, MaxFrameHeight in *.
  unfold frame_wire, frame_header. cbn [frame_W frame_H Cells Quit app le_bytes parse_frame].
  fold_le. rewrite !le2_u16 by (unfold is_u16; lia).
  change (negb (magicFrame =? magicFrame)) with false.
  change (negb (Version =? Version)) with false. cbv iota.
  rewrite (proj2 (Z.ltb_ge w 1)), (proj2 (Z.ltb_ge MaxFrameWidth w)),
    (proj2 (Z.ltb_ge h 1)), (proj2 (Z.ltb_ge MaxFrameHeight h))
    by (unfold MaxFrameWidth, MaxFrameHeight; lia).
  rewrite len_cells_wire, Hl, Z.eqb_refl. cbn [orb negb].
  f_equal. f_equal; [by destruct q|].
  clear -Hc. induction Hc as [|c cs Hc _ IH]; [done|].
  destruct c as [ch [r g b] [r' g' b'] d]. destruct Hc as (Hch & _).
  change (cells_wire (?c :: ?cs)) with (cell_wire c ++ cells_wire cs).
  unfold cell_wire. cbn [cell_Ch Fg Bg Decor rgb_R rgb_G rgb_B app le_bytes parse_cells].
  fold_le. cbn [cell_Ch] in Hch. by rewrite le4_i32, IH by done.
Qed.

(** ** Theorems *)

(** (event round trip): every event the format can carry is decoded to
    itself from the bytes the host writes into any reused buffer. *)
Theorem event_roundtrip dst e :
  event_wf e -> rbind (AppendEvent dst e) DecodeEvent = Ok e.
Proof. intros He. rewrite AppendEvent_wire. by apply DecodeEvent_wire. Qed.

Definition sample_message : Event :=
  mkEvent KindMessage 0 0 0 80 24 (str "room") (str "hi") 0 0 0 0 0.

Lemma event_roundtrip_witness :
  rbind (AppendEvent [7; 7; 7] sample_message) DecodeEvent = Ok sample_message.
Proof.
  apply event_roundtrip. unfold event_wf; cbn -[bytes_ok is_u8 is_i32 is_u16 len].
  split_and!;
    first [reflexivity | apply bytes_ok_eval; reflexivity | by intros Hne; destruct Hne
          | intros _; split; reflexivity | unfold is_u8, is_i32, is_u16, KindMessage; lia].
Defined.

(** C37 (decoder safety): on arbitrary bytes [DecodeEvent] never indexes out of
    range; what it accepts is an event the format can carry, and apart from
    timer events (whose unused header fields are ignored) the accepted bytes are
    the only encoding of it. *)
Theorem event_decoder_sound b :
  bytes_ok b ->
  no_panic (DecodeEvent b) /\
  forall e, DecodeEvent b = Ok e ->
    event_wf e /\ (Kind e <> KindTimer -> forall dst, AppendEvent dst e = Ok b).
Proof.
  intros Hb. split; [by apply DecodeEvent_total|]. intros e He.
  destruct (DecodeEvent_inv b e Hb He) as [Hwf Hw]. split; [done|].
  intros Hk dst. by rewrite AppendEvent_wire, Hw.
Qed.

Lemma event_decoder_sound_witness :
  exists e, DecodeEvent [1; 4; 4; 1; 0; 0; 0; 0; 3; 5; 0; 7; 0] = Ok e /\ event_wf e /\
            MouseX e = 5 /\ MouseY e = 7.
Proof.
  eexists. split; [reflexivity|]. split; [|done].
  eapply (event_decoder_sound [1; 4; 4; 1; 0; 0; 0; 0; 3; 5; 0; 7; 0]); [|reflexivity].
  by apply bytes_ok_eval.
Defined.

(** C38 (frame decoding): for every cell buffer left over from earlier frames and
    every byte string, [AppendDecodeFrame] computes the reference parser: it
    does not panic, it returns the caller's buffer untouched with each error,
    no stale cell shows up in an accepted frame, and every accepted frame has
    dimensions within the terminal limits and exactly W*H cells. *)
Theorem frame_decoder_reference dst b :
  bytes_ok b ->
  AppendDecodeFrame dst b =
    match parse_frame b with
    | inl e => Err (e, dst)
    | inr f => Ok (f, Cells f)
    end /\
  (forall f, parse_frame b = inr f -> frame_wf f).
Proof.
  intros Hb. split; [by apply AppendDecodeFrame_parse|].
  intros f. by apply parse_frame_wf.
Qed.

Lemma frame_decoder_reference_witness :
  exists f, AppendDecodeFrame [cell0; cell0] [2; 4; 1; 0; 1; 0; 1; 0; 65; 0; 0; 0; 1; 2; 3; 4; 5; 6; 7]
            = Ok (f, Cells f) /\ frame_wf f /\ Quit f = true.
Proof.
  eexists. destruct (frame_decoder_reference [cell0; cell0]
    [2; 4; 1; 0; 1; 0; 1; 0; 65; 0; 0; 0; 1; 2; 3; 4; 5; 6; 7]) as [-> Hw].
  { by apply bytes_ok_eval. }
  split; [reflexivity|]. split; [by apply Hw|reflexivity].
Defined.

(** (frame round trip): a full grid within the limits is encoded in at most
    [MaxFrameBytes] bytes and decoded to the same frame, for any reused byte
    buffer on the guest side and any reused cell buffer on the host side. *)
Theorem frame_roundtrip dst cells f :
  frame_wf f ->
  exists b, AppendFrame dst f = Ok b /\ len b <= MaxFrameBytes /\
    AppendDecodeFrame cells b = Ok (f, Cells f).
Proof.
  intros Hf. exists (frame_wire f). split; [apply AppendFrame_wire|]. split.
  - destruct Hf as (Hw & Hh & Hl & _).
    unfold frame_wire, MaxFrameBytes, frameHeaderLen, cellLen, MaxFrameWidth, MaxFrameHeight in *.
    rewrite len_app, len_cells_wire, Hl. change (len (frame_header f)) with 8. nia.
  - by rewrite AppendDecodeFrame_parse, parse_frame_wire by auto using frame_wire_bytes.
Qed.

Definition sample_frame : Frame :=
  mkFrame 1 2 true [mkCell 65 (mkRGB 1 2 3) (mkRGB 4 5 6) 7; cell0].

Lemma frame_roundtrip_witness :
  exists b, AppendFrame [9; 9] sample_frame = Ok b /\ len b <= MaxFrameBytes /\
    AppendDecodeFrame [] b = Ok (sample_frame, Cells sample_frame).
Proof.
  apply frame_roundtrip. unfold frame_wf, MaxFrameWidth, MaxFrameHeight; cbn.
  split_and!; try lia; try reflexivity. repeat apply Forall_cons_2; try apply Forall_nil_2;
    unfold cell_wf, rgb_wf, is_i32, is_u8, cell0;
    cbn [cell_Ch Fg Bg Decor rgb_R rgb_G rgb_B]; lia.
Defined.
