(* ===== verification/AbiCaps.v ===== *)
(** * Capability messages of the wire format (sdk/abi)

    fetch.go, exec.go, kv.go, auth.go and env.go: the request and response
    messages of the capability host functions, their result codes and caps,
    and the codec laws the host and the worker rely on. *)

From S2P Require Import Prelude Abi.

(** ** fetch.go *)

Definition FetchMaxMethod : Z := 32.
Definition FetchMaxURL : Z := 2048.
Definition FetchMaxBody : Z := Z.shiftl 1 20.

Definition FetchErrDenied : Z := -1.
Definition FetchErrTooLarge : Z := -2.
Definition FetchErrInternal : Z := -3.
Definition FetchErrUnavail : Z := -4.

Record FetchRequest := mkFetchRequest { Method : bytes; URL : bytes; req_Body : bytes }.
Record FetchResponse := mkFetchResponse { Status : Z; resp_Body : bytes }.

Definition appendU16 (b : bytes) (n : Z) : bytes := b ++ le_bytes 2 (u16 n).
Definition appendU32 (b : bytes) (n : Z) : bytes := b ++ le_bytes 4 (u32 n).

(** [None] is the source's [ok = false]. *)
Definition takeU16Bytes {E} (b : bytes) : res E (option (bytes * bytes)) :=
  if len b <? 2 then Ok None else
  let? s := slice b 0 2 in
  let n := le_val s in
  if len b <? 2 + n then Ok None else
  let? v := slice b 2 (2 + n) in
  let? rest := slice_from b (2 + n) in
  Ok (Some (v, rest)).

Definition takeU32Bytes {E} (b : bytes) : res E (option (bytes * bytes)) :=
  if len b <? 4 then Ok None else
  let? s := slice b 0 4 in
  let n := le_val s in
  if len b <? 4 + n then Ok None else
  let? v := slice b 4 (4 + n) in
  let? rest := slice_from b (4 + n) in
  Ok (Some (v, rest)).

Definition EncodeFetchRequest (r : FetchRequest) : bytes :=
  let b := [] in
  let b := appendU16 b (len (Method r)) in
  let b := b ++ Method r in
  let b := appendU16 b (len (URL r)) in
  let b := b ++ URL r in
  let b := appendU32 b (len (req_Body r)) in
  b ++ req_Body r.

Definition DecodeFetchRequest (b : bytes) : res AbiErr FetchRequest :=
  let? t := takeU16Bytes b in
  match t with
  | None => Err ErrShort
  | Some (method, rest) =>
    let? t := takeU16Bytes rest in
    match t with
    | None => Err ErrShort
    | Some (urlb, rest) =>
      let? t := takeU32Bytes rest in
      match t with
      | None => Err ErrShort
      | Some (body, rest) =>
        if negb (len rest =? 0) then Err ErrShort
        else Ok (mkFetchRequest method urlb body)
      end
    end
  end.

Definition EncodeFetchResponse (r : FetchResponse) : bytes :=
  let b := [] in
  let b := appendU16 b (Status r) in
  let b := appendU32 b (len (resp_Body r)) in
  b ++ resp_Body r.

Definition DecodeFetchResponse (b : bytes) : res AbiErr FetchResponse :=
  if len b <? 6 then Err ErrShort else
  let? s := slice b 0 2 in
  let status := le_val s in
  let? b2 := slice_from b 2 in
  let? t := takeU32Bytes b2 in
  match t with
  | None => Err ErrShort
  | Some (body, rest) =>
    if negb (len rest =? 0) then Err ErrShort
    else Ok (mkFetchResponse status body)
  end.

(** ** exec.go *)

Definition ExecMaxName : Z := 4096.
Definition ExecMaxArgs : Z := 256.
Definition ExecMaxArg : Z := Z.shiftl 64 10.
Definition ExecMaxOutput : Z := Z.shiftl 1 20.

Definition ExecErrUnavailable : Z := -1.
Definition ExecErrTooLarge : Z := -2.
Definition ExecErrFailed : Z := -3.

Record ExecRequest := mkExecRequest { Name : bytes; Args : list bytes }.
Record ExecResponse := mkExecResponse { ExitCode : Z; Stdout : bytes; Stderr : bytes }.

Definition appendArgs (b : bytes) (args : list bytes) : bytes :=
  fold_left (fun b arg => appendU32 b (len arg) ++ arg) args b.

Definition EncodeExecRequest (r : ExecRequest) : bytes :=
  let b := [] in
  let b := appendU32 b (len (Name r)) in
  let b := b ++ Name r in
  let b := appendU32 b (len (Args r)) in
  appendArgs b (Args r).

(** The [for range n] loop: [n] arguments are left to read from [rest]. *)
Fixpoint decodeArgs (n : nat) (rest : bytes) (args : list bytes)
  : res AbiErr (list bytes * bytes) :=
  match n with
  | O => Ok (args, rest)
  | S n' =>
    let? t := takeU32Bytes rest in
    match t with
    | None => Err ErrShort
    | Some (arg, next) =>
      if ExecMaxArg <? len arg then Err ErrShort
      else decodeArgs n' next (args ++ [arg])
    end
  end.

Definition DecodeExecRequest (b : bytes) : res AbiErr ExecRequest :=
  let? t := takeU32Bytes b in
  match t with
  | None => Err ErrShort
  | Some (name, rest) =>
    if len rest <? 4 then Err ErrShort else
    if ExecMaxName <? len name then Err ErrShort else
    let? s := slice rest 0 4 in
    let n := le_val s in
    let? rest := slice_from rest 4 in
    if ExecMaxArgs <? n then Err ErrShort else
    let? '(args, rest) := decodeArgs (Z.to_nat n) rest [] in
    if negb (len rest =? 0) then Err ErrShort else
    Ok (mkExecRequest name args)
  end.

Definition EncodeExecResponse (r : ExecResponse) : bytes :=
  let b := [] in
  let b := b ++ le_bytes 4 (u32 (i32 (ExitCode r))) in
  let b := appendU32 b (len (Stdout r)) in
  let b := b ++ Stdout r in
  let b := appendU32 b (len (Stderr r)) in
  b ++ Stderr r.

Definition DecodeExecResponse (b : bytes) : res AbiErr ExecResponse :=
  if len b <? 4 then Err ErrShort else
  let? s := slice b 0 4 in
  let exitCode := i32 (le_val s) in
  let? b4 := slice_from b 4 in
  let? t := takeU32Bytes b4 in
  match t with
  | None => Err ErrShort
  | Some (stdout, rest) =>
    let? t := takeU32Bytes rest in
    match t with
    | None => Err ErrShort
    | Some (stderr, rest) =>
      if negb (len rest =? 0) then Err ErrShort
      else Ok (mkExecResponse exitCode stdout stderr)
    end
  end.

(** ** kv.go *)

Definition GoodbyeMaxLen : Z := 4096.
Definition KVMaxKey : Z := 256.
Definition KVMaxValue : Z := 64 * 1024.
Definition KVMaxList : Z := 256.
Definition KVHashSize : Z := 32.

Definition KVOk : Z := 0.
Definition KVErrNotFound : Z := -1.
Definition KVErrTooLarge : Z := -2.
Definition KVErrQuota : Z := -3.
Definition KVErrInternal : Z := -4.
Definition KVErrConflict : Z := -5.

Definition EncodeKVList (keys : list bytes) : bytes :=
  fold_left (fun out key => (out ++ le_bytes 2 (u16 (len key))) ++ key) keys [].

(** [for len(raw) > 0 { ... }].  Each round consumes at least two bytes, so
    [S (length raw)] rounds of fuel are enough; running out is a [Panic] here,
    and [DecodeKVList_no_panic] shows that it never happens. *)
Fixpoint decodeKVList (fuel : nat) (raw : bytes) (keys : list bytes)
  : res AbiErr (list bytes) :=
  match fuel with
  | O => Panic
  | S fuel' =>
    if negb (0 <? len raw) then Ok keys else
    if len raw <? 2 then Err ErrKVList else
    let? s := slice raw 0 2 in
    let n := le_val s in
    let? raw := slice_from raw 2 in
    if (n =? 0) || (KVMaxKey <? n) || (len raw <? n) || (KVMaxList <=? len keys)
    then Err ErrKVList else
    let? k := slice raw 0 n in
    let? raw := slice_from raw n in
    decodeKVList fuel' raw (keys ++ [k])
  end.

Definition DecodeKVList (raw : bytes) : res AbiErr (list bytes) :=
  decodeKVList (S (length raw)) raw [].

(** ** auth.go *)

Definition AuthMaxUser : Z := 256.
Definition AuthErrInternal : Z := -1.

Definition IdentityUnknown : Z := 0.
Definition IdentitySSHKey : Z := 1.
Definition IdentityAnonymous : Z := 2.

Record Identity := mkIdentity {
  User : bytes; Authenticated : bool; id_Kind : Z; OwnsApp : bool }.

Definition EncodeIdentity (id : Identity) : res AbiErr bytes :=
  let u := User id in
  let? u := if AuthMaxUser <? len u then slice u 0 AuthMaxUser else Ok u in
  let b := replicate (Z.to_nat (3 + len u)) 0 in
  let? b := if Authenticated id then put b 0 1 else Ok b in
  let? b := if OwnsApp id
            then let? b0 := index b 0 in put b 0 (Z.lor b0 (Z.shiftl 1 1)) else Ok b in
  let? b0 := index b 0 in
  let? b := put b 0 (Z.lor b0 (u8 (Z.shiftl (u8 (Z.land (id_Kind id) 3)) 2))) in
  let? b := put_slice b 1 (le_bytes 2 (u16 (len u))) in
  let? '(b, _) := copy_at b 3 u in
  Ok b.

Definition DecodeIdentity (b : bytes) : res AbiErr Identity :=
  if len b <? 3 then Err ErrShort else
  let? s := slice b 1 3 in
  let ulen := le_val s in
  if len b <? 3 + ulen then Err ErrShort else
  if 3 + ulen <? len b then Err ErrSize else
  let? b0 := index b 0 in
  let? u := slice b 3 (3 + ulen) in
  Ok (mkIdentity u (negb (Z.land b0 1 =? 0)) (Z.land (Z.shiftr b0 2) 3)
        (negb (Z.land b0 (Z.shiftl 1 1) =? 0))).

(** ** env.go *)

Definition EnvMaxKey : Z := 256.
Definition EnvMaxValue : Z := 64 * 1024.
Definition EnvOk : Z := 0.
Definition EnvErrNotFound : Z := -1.
Definition EnvErrTooLarge : Z := -2.
Definition EnvErrInternal : Z := -3.

(** ** Length-prefixed fields

    [takeU16Bytes] and [takeU32Bytes] are the same code at two widths; the
    lemmas are proved once for a prefix of [w] bytes. *)

Definition takeField {E} (w : nat) (b : bytes) : res E (option (bytes * bytes)) :=
  let p := Z.of_nat w in
  if len b <? p then Ok None else
  let? s := slice b 0 p in
  let n := le_val s in
  if len b <? p + n then Ok None else
  let? v := slice b p (p + n) in
  let? rest := slice_from b (p + n) in
  Ok (Some (v, rest)).

Definition field (w : nat) (v : bytes) : bytes := le_bytes w (len v).

Section TakeField.
Context {E : Type} (w : nat).
#[local] Abbreviation fits v := (len v < 2 ^ (8 * Z.of_nat w)).

Lemma takeField_app v rest :
  fits v -> takeField (E:=E) w (field w v ++ v ++ rest) = Ok (Some (v, rest)).
Proof.
  intros Hv. unfold takeField, field.
  set (p := le_bytes w (len v)).
  assert (Hp : len p = Z.of_nat w) by apply len_le_bytes.
  rewrite (proj2 (Z.ltb_ge _ _)) by len_lia.
  rewrite (slice_app_l p), slice_full by lia. cbn [rbind].
  subst p. rewrite le_val_small by len_lia. set (p := le_bytes w _) in *.
  rewrite (proj2 (Z.ltb_ge _ _)) by len_lia.
  rewrite (slice_mid p v rest) by lia. cbn [rbind].
  rewrite app_assoc, slice_from_app by len_lia. done.
Qed.

Lemma takeField_inv b v rest :
  bytes_ok b -> takeField (E:=E) w b = Ok (Some (v, rest)) ->
  fits v /\ b = field w v ++ v ++ rest.
Proof.
  intros Hb. unfold takeField, field.
  destruct (len b <? Z.of_nat w) eqn:?; [done|]. intros H.
  apply rbind_ok in H as (s & Es & H).
  destruct (len b <? _ + le_val s) eqn:?; [done|].
  apply rbind_ok in H as (v' & Ev & H). apply rbind_ok in H as (r & Er & H).
  injection H as -> ->. zbool.
  pose proof (le_val_field (Z.of_nat w) _ _ _ _ Hb Es ltac:(lia)).
  pose proof (slice_len _ _ _ _ Ev). split; [lia|].
  replace (len v) with (le_val s) by lia.
  rewrite (le_bytes_slice _ _ _ _ _ Hb Es) by lia.
  pose proof (slice_glue _ _ _ _ _ _ Es (slice_glue _ _ _ _ _ _ Ev Er)) as Hg.
  rewrite slice_full in Hg by done. by injection Hg.
Qed.

Lemma takeField_total b : bytes_ok b -> no_panic (takeField (E:=E) w b).
Proof. intros Hb. unfold takeField. repeat (np_step; try lia); le_bounds; lia. Qed.

(** What is left after a field is again a byte string, and shorter. *)
Lemma takeField_rest b v rest :
  bytes_ok b -> takeField (E:=E) w b = Ok (Some (v, rest)) -> bytes_ok v /\ bytes_ok rest.
Proof.
  intros Hb H. apply takeField_inv in H as [_ ->]; [|done].
  rewrite !bytes_ok_app in Hb. tauto.
Qed.
End TakeField.

Lemma takeU16Bytes_eq {E} b : takeU16Bytes (E:=E) b = takeField 2 b.
Proof. reflexivity. Qed.
Lemma takeU32Bytes_eq {E} b : takeU32Bytes (E:=E) b = takeField 4 b.
Proof. reflexivity. Qed.

Lemma appendU16_field b v : len v < 2 ^ 16 -> appendU16 b (len v) = b ++ field 2 v.
Proof. intros. unfold appendU16, field. by rewrite u16_small by (unfold is_u16; len_lia). Qed.
Lemma appendU32_field b v : len v < 2 ^ 32 -> appendU32 b (len v) = b ++ field 4 v.
Proof. intros. unfold appendU32, field. by rewrite u32_small by (unfold is_u32; len_lia). Qed.

#[export] Hint Resolve takeField_total : core.

(** ** The codec interface

    What the host functions and the worker protocol rely on for a message type:
    decoding never panics, decoding an encoding is the identity on the messages
    that fit, and the accepted bytes are the unique encoding of the result. *)

Class Codec (A : Type) := {
  enc : A -> bytes;
  dec : bytes -> res AbiErr A;
  fits : A -> Prop }.

Class CodecLaws (A : Type) `{Codec A} := {
  dec_enc a : fits a -> dec (enc a) = Ok a;
  enc_dec b a : bytes_ok b -> dec b = Ok a -> fits a /\ enc a = b;
  dec_total b : bytes_ok b -> no_panic (dec b) }.

(** Messages that fit have unambiguous encodings. *)
Lemma enc_inj `{CodecLaws A} a a' : fits a -> fits a' -> enc a = enc a' -> a = a'.
Proof. intros Ha Ha' He. apply dec_enc in Ha, Ha'. congruence. Qed.

#[export] Instance FetchRequest_codec : Codec FetchRequest := {
  enc := EncodeFetchRequest; dec := DecodeFetchRequest;
  fits r := len (Method r) < 2 ^ 16 /\ len (URL r) < 2 ^ 16 /\ len (req_Body r) < 2 ^ 32 }.

#[export] Instance FetchResponse_codec : Codec FetchResponse := {
  enc := EncodeFetchResponse; dec := DecodeFetchResponse;
  fits r := is_u16 (Status r) /\ len (resp_Body r) < 2 ^ 32 }.

#[export] Instance ExecRequest_codec : Codec ExecRequest := {
  enc := EncodeExecRequest; dec := DecodeExecRequest;
  fits r := len (Name r) <= ExecMaxName /\ len (Args r) <= ExecMaxArgs /\
            Forall (fun a => len a <= ExecMaxArg) (Args r) }.

#[export] Instance ExecResponse_codec : Codec ExecResponse := {
  enc := EncodeExecResponse; dec := DecodeExecResponse;
  fits r := is_i32 (ExitCode r) /\ len (Stdout r) < 2 ^ 32 /\ len (Stderr r) < 2 ^ 32 }.

#[export] Instance KVList_codec : Codec (list bytes) := {
  enc := EncodeKVList; dec := DecodeKVList;
  fits keys := len keys <= KVMaxList /\ Forall (fun k => 1 <= len k <= KVMaxKey) keys }.

(** Read one length-prefixed field off the front of the buffer. *)
Ltac take_app :=
  rewrite ?takeU16Bytes_eq, ?takeU32Bytes_eq, takeField_app by (simpl; lia); cbn [rbind].

(** Case on the next field read by a decoder that succeeded. *)
Ltac take_inv H v rest :=
  let t := fresh "t" in let E := fresh "E" in let F := fresh "F" in
  apply rbind_ok in H as (t & E & H); destruct t as [[v rest]|]; [|discriminate H];
  rewrite ?takeU16Bytes_eq, ?takeU32Bytes_eq in E;
  match goal with Hb : bytes_ok ?b, E' : takeField _ ?b = Ok (Some (v, rest)) |- _ =>
    let Hv := fresh "Hv" in let Hr := fresh "Hr" in
    destruct (takeField_rest _ _ _ _ Hb E') as [Hv Hr];
    apply (takeField_inv _ _ _ _ Hb) in E' as [F E']
  end.

Ltac take_total :=
  apply no_panic_bind;
  [rewrite ?takeU16Bytes_eq, ?takeU32Bytes_eq; by apply takeField_total
  |let t := fresh "t" in let E := fresh "E" in
   intros t E; destruct t as [[? ?]|]; [|exact I];
   rewrite ?takeU16Bytes_eq, ?takeU32Bytes_eq in E;
   match goal with Hb : bytes_ok ?b, E' : takeField _ ?b = Ok (Some (?v, ?r)) |- _ =>
     destruct (takeField_rest _ _ _ _ Hb E')
   end].

Lemma EncodeFetchRequest_layout r :
  fits r -> EncodeFetchRequest r =
    field 2 (Method r) ++ Method r ++ field 2 (URL r) ++ URL r
    ++ field 4 (req_Body r) ++ req_Body r ++ [].
Proof.
  intros (? & ? & ?). unfold EncodeFetchRequest.
  rewrite !appendU16_field, appendU32_field by done.
  by rewrite <- !app_assoc, !app_nil_r, ?app_nil_l.
Qed.

#[export] Instance FetchRequest_laws : CodecLaws FetchRequest.
Proof.
  constructor.
  - intros r Hr. cbn [enc dec FetchRequest_codec]. rewrite EncodeFetchRequest_layout by done.
    destruct Hr as (? & ? & ?). unfold DecodeFetchRequest. do 3 take_app. by destruct r.
  - intros b r Hb H. cbn [enc dec FetchRequest_codec] in *. unfold DecodeFetchRequest in H.
    take_inv H m r1. take_inv H u r2. take_inv H bd r3.
    destruct (negb _) eqn:Hz; [done|]. zbool. apply len_0_nil in Hz. subst.
    apply ok_inj in H as <-. assert (fits (mkFetchRequest m u bd)) by done.
    split; [done|]. by rewrite EncodeFetchRequest_layout.
  - intros b Hb. cbn [dec FetchRequest_codec]. unfold DecodeFetchRequest.
    do 3 take_total. by repeat np_step.
Qed.

Lemma EncodeFetchResponse_layout r :
  fits r -> EncodeFetchResponse r =
    le_bytes 2 (u16 (Status r)) ++ field 4 (resp_Body r) ++ resp_Body r ++ [].
Proof.
  intros (? & ?). unfold EncodeFetchResponse.
  rewrite appendU32_field by done. unfold appendU16.
  by rewrite <- !app_assoc, !app_nil_r.
Qed.

#[export] Instance FetchResponse_laws : CodecLaws FetchResponse.
Proof.
  constructor.
  - intros r Hr. cbn [enc dec FetchResponse_codec].
    rewrite EncodeFetchResponse_layout by done. destruct Hr as (? & ?).
    unfold DecodeFetchResponse, field. set (p := le_bytes 2 _).
    assert (Hp : len p = 2) by apply len_le_bytes.
    rewrite (proj2 (Z.ltb_ge _ _)) by len_lia.
    rewrite (slice_app_l p), slice_full by lia. cbn [rbind].
    rewrite slice_from_app by lia. cbn [rbind]. fold (field 4 (resp_Body r)). take_app.
    subst p. rewrite le2_u16 by done. by destruct r.
  - intros b r Hb H. cbn [enc dec FetchResponse_codec] in *. unfold DecodeFetchResponse in H.
    destruct (len b <? 6) eqn:?; [done|]. zbool.
    apply rbind_ok in H as (s & Es & H). apply rbind_ok in H as (b2 & Eb & H).
    assert (Hb2 : bytes_ok b2) by (by apply (slice_Forall _ _ _ _ _ Hb Eb)).
    take_inv H bd r3.
    destruct (negb _) eqn:Hz; [done|]. zbool. apply len_0_nil in Hz. subst r3.
    apply ok_inj in H as <-.
    pose proof (le_val_field 2 _ _ _ _ Hb Es ltac:(lia)) as Hs.
    assert (fits (mkFetchResponse (le_val s) bd)) by done.
    split; [done|]. rewrite EncodeFetchResponse_layout by done. cbn [Status resp_Body].
    rewrite u16_small, (le_bytes_slice _ _ _ _ _ Hb Es) by done. rewrite <- E.
    pose proof (slice_glue _ _ _ _ _ _ Es Eb) as Hg.
    rewrite slice_full in Hg by done. by injection Hg.
  - intros b Hb. cbn [dec FetchResponse_codec]. unfold DecodeFetchResponse.
    np_step; [done|]. np_step; [apply no_panic_slice; lia|].
    np_step; [apply no_panic_slice_from; lia|].
    match goal with H : slice_from b 2 = Ok ?x |- _ =>
      assert (bytes_ok x) by (by apply (slice_Forall _ _ _ _ _ Hb H)) end.
    take_total. by repeat np_step.
Qed.

(** *** exec: the argument loop *)

Definition args_wire (args : list bytes) : bytes :=
  concat (map (fun a => field 4 a ++ a) args).

Lemma appendArgs_wire b args :
  Forall (fun a => len a <= ExecMaxArg) args -> appendArgs b args = b ++ args_wire args.
Proof.
  intros Ha. revert b. unfold appendArgs. induction Ha as [|a args Ha _ IH]; intros b.
  - by rewrite app_nil_r.
  - cbn [fold_left]. rewrite IH. change ExecMaxArg with 65536 in Ha.
    rewrite appendU32_field by lia. unfold args_wire; cbn [map concat].
    by rewrite <- !app_assoc.
Qed.

Lemma decodeArgs_wire args acc rest :
  Forall (fun a => len a <= ExecMaxArg) args ->
  decodeArgs (length args) (args_wire args ++ rest) acc = Ok (acc ++ args, rest).
Proof.
  intros Ha. revert acc. induction Ha as [|a args Ha _ IH]; intros acc.
  - simpl. by rewrite app_nil_r.
  - cbn [length decodeArgs]. unfold args_wire; cbn [map concat]; fold (args_wire args).
    rewrite <- !app_assoc. change ExecMaxArg with 65536 in *.
    take_app. rewrite (proj2 (Z.ltb_ge _ _)) by lia.
    rewrite IH. by rewrite <- app_assoc.
Qed.

Lemma decodeArgs_inv n b acc args rest :
  bytes_ok b -> decodeArgs n b acc = Ok (args, rest) ->
  exists new, args = acc ++ new /\ length new = n /\
    Forall (fun a => len a <= ExecMaxArg) new /\ b = args_wire new ++ rest.
Proof.
  revert b acc. induction n as [|n IH]; intros b acc Hb H.
  - apply ok_inj in H. injection H as -> ->. exists []. by rewrite app_nil_r.
  - cbn [decodeArgs] in H. take_inv H a r1.
    destruct (ExecMaxArg <? len a) eqn:Hc; [done|]. zbool.
    destruct (IH _ _ Hr H) as (new & -> & <- & Hn & ->).
    exists (a :: new). rewrite <- app_assoc. repeat split; [by constructor|].
    subst b. unfold args_wire; cbn [map concat]. by rewrite <- !app_assoc.
Qed.

Lemma decodeArgs_total n b acc : bytes_ok b -> no_panic (decodeArgs n b acc).
Proof.
  revert b acc. induction n as [|n IH]; intros b acc Hb; [exact I|].
  cbn [decodeArgs]. take_total. np_step; [exact I|]. by apply IH.
Qed.

Lemma EncodeExecRequest_layout r :
  fits r -> EncodeExecRequest r =
    field 4 (Name r) ++ Name r ++ le_bytes 4 (len (Args r)) ++ args_wire (Args r) ++ [].
Proof.
  unfold ExecMaxName, ExecMaxArgs. intros (Hn & Ha & Hf).
  unfold EncodeExecRequest. unfold ExecMaxName, ExecMaxArgs in *.
  rewrite appendArgs_wire, appendU32_field by (done || lia). unfold appendU32.
  rewrite u32_small by (unfold is_u32; len_lia). by rewrite <- !app_assoc, app_nil_r.
Qed.

#[export] Instance ExecRequest_laws : CodecLaws ExecRequest.
Proof.
  constructor.
  - intros r Hr. cbn [enc dec ExecRequest_codec]. rewrite EncodeExecRequest_layout by done.
    destruct Hr as (Hn & Ha & Hf). unfold ExecMaxName, ExecMaxArgs in *.
    unfold DecodeExecRequest. take_app. set (p := le_bytes 4 _).
    assert (Hp : len p = 4) by apply len_le_bytes.
    rewrite (proj2 (Z.ltb_ge _ _)) by len_lia.
    rewrite (proj2 (Z.ltb_ge _ (len (Name r)))) by (unfold ExecMaxName; lia).
    rewrite (slice_app_l p), slice_full by lia. cbn [rbind].
    rewrite slice_from_app by lia. cbn [rbind]. subst p.
    rewrite le_val_small by (simpl; len_lia).
    rewrite (proj2 (Z.ltb_ge _ _)) by (unfold ExecMaxArgs; lia).
    rewrite to_nat_len, decodeArgs_wire by done. by destruct r.
  - intros b r Hb H. cbn [enc dec ExecRequest_codec] in *. unfold DecodeExecRequest in H.
    take_inv H nm r1.
    destruct (len r1 <? 4) eqn:?; [done|]. destruct (ExecMaxName <? len nm) eqn:?; [done|].
    apply rbind_ok in H as (s & Es & H). apply rbind_ok in H as (r2 & Eb & H).
    destruct (ExecMaxArgs <? le_val s) eqn:?; [done|].
    apply rbind_ok in H as ([args r3] & Ea & H).
    destruct (negb _) eqn:Hz; [done|]. zbool. apply len_0_nil in Hz. subst r3.
    apply ok_inj in H as <-.
    assert (Hb2 : bytes_ok r2) by (by apply (slice_Forall _ _ _ _ _ Hr Eb)).
    destruct (decodeArgs_inv _ _ _ _ _ Hb2 Ea) as (new & -> & Hl & Hf & ->).
    pose proof (le_val_field 4 _ _ _ _ Hr Es ltac:(lia)) as Hs.
    assert (Hlen : len new = le_val s) by (unfold len; lia).
    assert (fits (mkExecRequest nm new)) by (split_and!; cbn; (done || lia)).
    split; [done|]. cbn [app] in *. rewrite EncodeExecRequest_layout by done. cbn [Name Args].
    rewrite Hlen, (le_bytes_slice _ _ _ _ _ Hr Es) by done. rewrite E. do 2 f_equal.
    pose proof (slice_glue _ _ _ _ _ _ Es Eb) as Hg.
    rewrite slice_full in Hg by done. by injection Hg.
  - intros b Hb. cbn [dec ExecRequest_codec]. unfold DecodeExecRequest. take_total.
    do 2 (np_step; [done|]). np_step; [apply no_panic_slice; lia|].
    np_step; [apply no_panic_slice_from; lia|]. np_step; [done|].
    match goal with H : slice_from ?x 4 = Ok ?y, Hx : bytes_ok ?x |- _ =>
      assert (bytes_ok y) by (by apply (slice_Forall _ _ _ _ _ Hx H)) end.
    np_step; [by apply decodeArgs_total|]. by repeat np_step.
Qed.

Lemma EncodeExecResponse_layout r :
  fits r -> EncodeExecResponse r =
    le_bytes 4 (u32 (i32 (ExitCode r))) ++ field 4 (Stdout r) ++ Stdout r
    ++ field 4 (Stderr r) ++ Stderr r ++ [].
Proof.
  intros (? & ? & ?). unfold EncodeExecResponse. rewrite !appendU32_field by done.
  by rewrite <- !app_assoc, !app_nil_r, app_nil_l.
Qed.

#[export] Instance ExecResponse_laws : CodecLaws ExecResponse.
Proof.
  constructor.
  - intros r Hr. cbn [enc dec ExecResponse_codec].
    rewrite EncodeExecResponse_layout by done. destruct Hr as (? & ? & ?).
    unfold DecodeExecResponse. set (p := le_bytes 4 (u32 _)).
    assert (Hp : len p = 4) by apply len_le_bytes.
    rewrite (proj2 (Z.ltb_ge _ _)) by len_lia.
    rewrite (slice_app_l p), slice_full by lia. cbn [rbind].
    rewrite slice_from_app by lia. cbn [rbind]. do 2 take_app. subst p.
    rewrite (i32_small (ExitCode r)), le4_i32 by done. by destruct r.
  - intros b r Hb H. cbn [enc dec ExecResponse_codec] in *. unfold DecodeExecResponse in H.
    destruct (len b <? 4) eqn:?; [done|]. zbool.
    apply rbind_ok in H as (s & Es & H). apply rbind_ok in H as (b2 & Eb & H).
    assert (Hb2 : bytes_ok b2) by (by apply (slice_Forall _ _ _ _ _ Hb Eb)).
    take_inv H so r2. take_inv H se r3.
    destruct (negb _) eqn:Hz; [done|]. zbool. apply len_0_nil in Hz. subst r3.
    apply ok_inj in H as <-.
    pose proof (le_val_field 4 _ _ _ _ Hb Es ltac:(lia)) as Hs.
    assert (fits (mkExecResponse (i32 (le_val s)) so se))
      by (split_and!; cbn [ExitCode Stdout Stderr]; [apply i32_range|done|done]).
    split; [done|]. rewrite EncodeExecResponse_layout by done. cbn [ExitCode Stdout Stderr].
    rewrite (i32_small (i32 _)), u32_i32, u32_small, (le_bytes_slice _ _ _ _ _ Hb Es)
      by (done || apply i32_range).
    rewrite <- E0, <- E. pose proof (slice_glue _ _ _ _ _ _ Es Eb) as Hg.
    rewrite slice_full in Hg by done. by injection Hg.
  - intros b Hb. cbn [dec ExecResponse_codec]. unfold DecodeExecResponse.
    np_step; [done|]. np_step; [apply no_panic_slice; lia|].
    np_step; [apply no_panic_slice_from; lia|].
    match goal with H : slice_from b 4 = Ok ?x |- _ =>
      assert (bytes_ok x) by (by apply (slice_Forall _ _ _ _ _ Hb H)) end.
    do 2 take_total. by repeat np_step.
Qed.

(** *** kv: the key list *)

Definition keys_wire (keys : list bytes) : bytes :=
  concat (map (fun k => field 2 k ++ k) keys).

Lemma EncodeKVList_layout keys :
  Forall (fun k => 1 <= len k <= KVMaxKey) keys -> EncodeKVList keys = keys_wire keys.
Proof.
  intros Hk. unfold EncodeKVList. rewrite <- (app_nil_l (keys_wire keys)).
  generalize (@nil Z) as out. induction Hk as [|k keys Hk _ IH]; intros out.
  - by rewrite app_nil_r.
  - cbn [fold_left]. rewrite IH. unfold KVMaxKey in Hk.
    rewrite u16_small by (unfold is_u16; lia). unfold keys_wire; cbn [map concat]; unfold field.
    by rewrite <- !app_assoc.
Qed.

Lemma decodeKVList_wire keys acc fuel :
  Forall (fun k => 1 <= len k <= KVMaxKey) keys -> len acc + len keys <= KVMaxList ->
  (length keys < fuel)%nat ->
  decodeKVList fuel (keys_wire keys) acc = Ok (acc ++ keys).
Proof.
  intros Hk. revert acc fuel. induction Hk as [|k keys Hk _ IH]; intros acc fuel Hl Hf;
    (destruct fuel as [|fuel]; [simpl in Hf; lia|]); cbn [decodeKVList].
  - by rewrite app_nil_r.
  - unfold keys_wire; cbn [map concat]; fold (keys_wire keys). rewrite <- app_assoc.
    unfold KVMaxKey, KVMaxList in *. rewrite len_cons in Hl.
    assert (Hp : len (field 2 k) = 2) by apply len_le_bytes.
    rewrite (proj2 (Z.ltb_lt 0 _)), (proj2 (Z.ltb_ge _ 2)) by len_lia. cbn [negb].
    rewrite (slice_app_l (field 2 k)), slice_full by lia. cbn [rbind].
    rewrite slice_from_app by lia. cbn [rbind].
    unfold field. rewrite le_val_small by (simpl; lia).
    rewrite (proj2 (Z.eqb_neq (len k) 0)), (proj2 (Z.ltb_ge _ (len k))),
      (proj2 (Z.ltb_ge _ (len k))), (proj2 (Z.leb_gt _ (len acc))) by (unfold KVMaxKey, KVMaxList; len_lia).
    cbn [orb]. rewrite (slice_app_l k), slice_full by lia. cbn [rbind].
    rewrite slice_from_app by lia. cbn [rbind].
    rewrite IH by (simpl in Hf; len_lia). by rewrite <- app_assoc.
Qed.

Lemma decodeKVList_inv fuel raw acc keys :
  bytes_ok raw -> len acc <= KVMaxList -> decodeKVList fuel raw acc = Ok keys ->
  exists new, keys = acc ++ new /\ len keys <= KVMaxList /\
    Forall (fun k => 1 <= len k <= KVMaxKey) new /\ raw = keys_wire new.
Proof.
  revert raw acc. induction fuel as [|fuel IH]; intros raw acc Hb Hl H; [done|].
  cbn [decodeKVList] in H. destruct (0 <? len raw) eqn:Hz; cbn [negb] in H.
  2: { apply ok_inj in H as <-. zbool. rewrite (len_0_nil raw) by len_lia.
       exists []. rewrite app_nil_r. by split_and!; try constructor. }
  destruct (len raw <? 2) eqn:?; [done|].
  apply rbind_ok in H as (s & Es & H). apply rbind_ok in H as (r1 & Er & H).
  destruct (_ || _) eqn:Hc; [done|].
  apply rbind_ok in H as (k & Ek & H). apply rbind_ok in H as (r2 & Er2 & H). zbool.
  pose proof (le_val_field 2 _ _ _ _ Hb Es ltac:(lia)).
  pose proof (slice_len _ _ _ _ Ek) as Hk.
  assert (Hb1 : bytes_ok r1) by (by apply (slice_Forall _ _ _ _ _ Hb Er)).
  assert (Hb2 : bytes_ok r2) by (by apply (slice_Forall _ _ _ _ _ Hb1 Er2)).
  destruct (IH r2 (acc ++ [k])) as (new & -> & Hlen & Hn & ->); [done|len_lia|done|].
  exists (k :: new). rewrite <- app_assoc in *. split_and!; [done|done| |].
  - constructor; [lia|done].
  - unfold keys_wire; cbn [map concat]; fold (keys_wire new). unfold field.
    replace (len k) with (le_val s) by lia.
    rewrite (le_bytes_slice _ _ _ _ _ Hb Es) by done.
    pose proof (slice_glue _ _ _ _ _ _ Ek Er2) as Hg1. rewrite slice_full in Hg1 by done.
    apply ok_inj in Hg1 as ->.
    pose proof (slice_glue _ _ _ _ _ _ Es Er) as Hg. rewrite slice_full in Hg by done.
    apply ok_inj in Hg as ->. by rewrite <- app_assoc.
Qed.

Lemma decodeKVList_total fuel raw acc :
  bytes_ok raw -> (length raw < fuel)%nat -> no_panic (decodeKVList fuel raw acc).
Proof.
  revert raw acc. induction fuel as [|fuel IH]; intros raw acc Hb Hf; [lia|].
  cbn [decodeKVList]. np_step; [exact I|]. np_step; [exact I|].
  apply no_panic_bind; [apply no_panic_slice; lia|intros s Es].
  apply no_panic_bind; [apply no_panic_slice_from; lia|intros r1 Er].
  np_step; [exact I|].
  pose proof (le_val_field 2 _ _ _ _ Hb Es ltac:(lia)).
  apply no_panic_bind; [apply no_panic_slice; lia|intros k Ek].
  apply no_panic_bind; [apply no_panic_slice_from; lia|intros r2 Er2].
  assert (Hb1 : bytes_ok r1) by (by apply (slice_Forall _ _ _ _ _ Hb Er)).
  pose proof (slice_len _ _ _ _ Er). pose proof (slice_len _ _ _ _ Er2).
  apply IH; [by apply (slice_Forall _ _ _ _ _ Hb1 Er2)|unfold len in *; lia].
Qed.

Lemma length_keys_wire keys :
  Forall (fun k => 1 <= len k <= KVMaxKey) keys -> (length keys <= length (keys_wire keys))%nat.
Proof.
  induction 1 as [|k keys Hk _ IH]; [done|]. unfold keys_wire; cbn [map concat length].
  fold (keys_wire keys). rewrite !length_app. unfold len in Hk. lia.
Qed.

#[export] Instance KVList_laws : CodecLaws (list bytes).
Proof.
  constructor.
  - intros keys [Hl Hk]. cbn [enc dec KVList_codec]. unfold DecodeKVList.
    rewrite EncodeKVList_layout by done. apply (decodeKVList_wire keys []); [done|len_lia|].
    pose proof (length_keys_wire keys Hk). lia.
  - intros raw keys Hb H. cbn [enc dec KVList_codec] in *.
    destruct (decodeKVList_inv _ raw [] keys Hb ltac:(unfold KVMaxList; len_lia) H) as (new & -> & Hl & Hk & ->).
    cbn [app] in *. split; [done|]. by rewrite EncodeKVList_layout.
  - intros raw Hb. apply decodeKVList_total; [done|lia].
Qed.

(** *** auth: identities

    The encoder truncates the user to [AuthMaxUser] bytes and keeps two bits of
    the kind; [identity_sent] is what reaches the guest. *)

Definition identity_sent (id : Identity) : Identity :=
  mkIdentity (take (Z.to_nat AuthMaxUser) (User id)) (Authenticated id)
    (Z.land (id_Kind id) 3) (OwnsApp id).

Definition identity_flags (id : Identity) : Z :=
  Z.lor (Z.lor (Z.b2z (Authenticated id)) (if OwnsApp id then 2 else 0))
        (u8 (Z.shiftl (u8 (Z.land (id_Kind id) 3)) 2)).

Lemma EncodeIdentity_layout id :
  EncodeIdentity id =
    Ok (identity_flags id :: field 2 (User (identity_sent id)) ++ User (identity_sent id)).
Proof.
  unfold EncodeIdentity, identity_sent; cbn [User].
  assert (Hu : (if AuthMaxUser <? len (User id) then slice (E:=AbiErr) (User id) 0 AuthMaxUser
                else Ok (User id)) = Ok (take (Z.to_nat AuthMaxUser) (User id))).
  { destruct (AuthMaxUser <? len (User id)) eqn:Hc; zbool; unfold AuthMaxUser in *.
    - rewrite slice_ok by lia. done.
    - rewrite take_ge; [done|]. unfold len in *; lia. }
  rewrite Hu. cbn [rbind]. clear Hu.
  set (u := take _ _). assert (Hu : len u <= 256) by (subst u; unfold AuthMaxUser; len_lia).
  clearbody u. len_pos.
  replace (Z.to_nat (3 + len u)) with (3 + length u)%nat by (unfold len; lia).
  cbn [replicate Nat.add].
  set (pad := replicate (length u) 0).
  assert (Hp : len pad = len u) by (subst pad; rewrite len_replicate; done). clearbody pad.
  assert (Hf : forall fl, (let? b := put_slice (fl :: 0 :: 0 :: pad) 1 (le_bytes 2 (u16 (len u))) in
             let? '(b, _) := copy_at b 3 u in Ok (E:=AbiErr) b)
             = Ok (fl :: field 2 u ++ u)).
  { intros fl. rewrite (put_slice_mid [fl] [0; 0] pad) by (len_lia || done). cbn [rbind].
    rewrite u16_small by (unfold is_u16; lia). rewrite (app_assoc [fl]), <- (app_nil_r pad).
    rewrite copy_at_mid by len_lia. cbn [rbind]. by rewrite app_nil_r. }
  unfold identity_flags. destruct (Authenticated id), (OwnsApp id); cbn [rbind Z.b2z];
    rewrite ?put_eq by len_lia; cbn [rbind]; unfold overwrite, index; zconst;
    cbn [take drop app length Nat.add lookup list_lookup rbind Z.ltb Z.compare];
    rewrite ?put_eq by len_lia; cbn [rbind]; unfold overwrite; zconst;
    cbn [take drop app length Nat.add lookup list_lookup rbind];
    rewrite ?put_eq by len_lia; cbn [rbind]; unfold overwrite; zconst;
    cbn [take drop app length Nat.add]; apply Hf.
Qed.

Lemma identity_flags_read id :
  negb (Z.land (identity_flags id) 1 =? 0) = Authenticated id /\
  negb (Z.land (identity_flags id) (Z.shiftl 1 1) =? 0) = OwnsApp id /\
  Z.land (Z.shiftr (identity_flags id) 2) 3 = Z.land (id_Kind id) 3.
Proof.
  unfold identity_flags. change 3 with (Z.ones 2). rewrite Z.land_ones by lia.
  pose proof (Z.mod_pos_bound (id_Kind id) (2 ^ 2) ltac:(lia)) as Hk.
  set (k := id_Kind id mod 2 ^ 2) in *. clearbody k.
  assert (k = 0 \/ k = 1 \/ k = 2 \/ k = 3) as [->|[->|[->| ->]]] by lia;
    destruct (Authenticated id), (OwnsApp id); done.
Qed.

Lemma DecodeIdentity_layout fl u :
  len u < 2 ^ 16 ->
  DecodeIdentity (fl :: field 2 u ++ u) =
    Ok (mkIdentity u (negb (Z.land fl 1 =? 0)) (Z.land (Z.shiftr fl 2) 3)
          (negb (Z.land fl (Z.shiftl 1 1) =? 0))).
Proof.
  intros Hu. unfold DecodeIdentity.
  assert (Hp : len (field 2 u) = 2) by apply len_le_bytes.
  rewrite (proj2 (Z.ltb_ge _ _)) by len_lia.
  rewrite (slice_part _ [fl] (field 2 u) u) by (done || len_lia). cbn [rbind].
  assert (Hv : le_val (field 2 u) = len u)
    by (unfold field; apply le_val_small; simpl; len_lia).
  rewrite Hv. rewrite !(proj2 (Z.ltb_ge _ _)) by len_lia.
  rewrite (slice_part _ (fl :: field 2 u) u []) by (rewrite ?app_nil_r; (done || len_lia)).
  done.
Qed.

Lemma DecodeIdentity_total b : bytes_ok b -> no_panic (DecodeIdentity b).
Proof. intros Hb. unfold DecodeIdentity. repeat (np_step; try lia); le_bounds; lia. Qed.

(** ** Theorems *)

(** (capability messages round trip): fetch requests and responses, exec
    requests and responses and key lists that fit their caps are decoded to
    themselves from their encodings. *)
Theorem capability_roundtrip
    (q : FetchRequest) (p : FetchResponse) (x : ExecRequest) (y : ExecResponse) (ks : list bytes) :
  (fits q -> DecodeFetchRequest (EncodeFetchRequest q) = Ok q) /\
  (fits p -> DecodeFetchResponse (EncodeFetchResponse p) = Ok p) /\
  (fits x -> DecodeExecRequest (EncodeExecRequest x) = Ok x) /\
  (fits y -> DecodeExecResponse (EncodeExecResponse y) = Ok y) /\
  (fits ks -> DecodeKVList (EncodeKVList ks) = Ok ks).
Proof.
  exact (conj (dec_enc q) (conj (dec_enc p) (conj (dec_enc x) (conj (dec_enc y) (dec_enc ks))))).
Qed.

Lemma capability_roundtrip_witness :
  DecodeKVList (EncodeKVList [str "a"; str "room/1"]) = Ok [str "a"; str "room/1"] /\
  DecodeExecRequest (EncodeExecRequest (mkExecRequest (str "git") [str "log"; []]))
    = Ok (mkExecRequest (str "git") [str "log"; []]).
Proof.
  pose proof (capability_roundtrip (mkFetchRequest [] [] []) (mkFetchResponse 0 [])
    (mkExecRequest (str "git") [str "log"; []]) (mkExecResponse 0 [] []) [str "a"; str "room/1"])
    as (_ & _ & Hx & _ & Hk).
  split.
  - apply Hk. split; [done|].
    (repeat apply Forall_cons_2); try apply Forall_nil_2; vm_compute; split; discriminate.
  - apply Hx. split_and!; [done|done|].
    (repeat apply Forall_cons_2); try apply Forall_nil_2; vm_compute; discriminate.
Defined.

(** (capability decoders are exact): on arbitrary bytes the five decoders
    never index out of range (the key-list loop terminates within its fuel);
    whatever they accept is within its caps and re-encodes to the same bytes,
    so no two byte strings stand for one message. *)
Theorem capability_decoders_exact b :
  bytes_ok b ->
  (no_panic (DecodeFetchRequest b) /\ no_panic (DecodeFetchResponse b) /\
   no_panic (DecodeExecRequest b) /\ no_panic (DecodeExecResponse b) /\
   no_panic (DecodeKVList b)) /\
  (forall q, DecodeFetchRequest b = Ok q -> fits q /\ EncodeFetchRequest q = b) /\
  (forall p, DecodeFetchResponse b = Ok p -> fits p /\ EncodeFetchResponse p = b) /\
  (forall x, DecodeExecRequest b = Ok x -> fits x /\ EncodeExecRequest x = b) /\
  (forall y, DecodeExecResponse b = Ok y -> fits y /\ EncodeExecResponse y = b) /\
  (forall ks, DecodeKVList b = Ok ks -> fits ks /\ EncodeKVList ks = b).
Proof.
  intros Hb. split_and!.
  - exact (dec_total (A:=FetchRequest) b Hb).
  - exact (dec_total (A:=FetchResponse) b Hb).
  - exact (dec_total (A:=ExecRequest) b Hb).
  - exact (dec_total (A:=ExecResponse) b Hb).
  - exact (dec_total (A:=list bytes) b Hb).
  - intros q. exact (enc_dec b q Hb).
  - intros p. exact (enc_dec b p Hb).
  - intros x. exact (enc_dec b x Hb).
  - intros y. exact (enc_dec b y Hb).
  - intros ks. exact (enc_dec b ks Hb).
Qed.

Lemma capability_decoders_exact_witness :
  fits [str "k"] /\ EncodeKVList [str "k"] = [1; 0; 107].
Proof.
  apply (capability_decoders_exact [1; 0; 107]); [by apply bytes_ok_eval|reflexivity].
Defined.

(** (identity): what the guest decodes is the session identity with the user
    cut at [AuthMaxUser] bytes and the kind at two bits; in particular the
    authenticated and owner bits always survive and are never confused with
    each other or with the kind. *)
Theorem identity_roundtrip id :
  rbind (EncodeIdentity id) DecodeIdentity = Ok (identity_sent id).
Proof.
  rewrite EncodeIdentity_layout. cbn [rbind].
  rewrite DecodeIdentity_layout
    by (unfold identity_sent, AuthMaxUser; cbn [User]; autorewrite with len; lia).
  destruct (identity_flags_read id) as (-> & -> & ->). done.
Qed.
