(* ===== verification/Protocol.v ===== *)
(** * The framed worker protocol (internal/protocol, internal/runner/procproto.go)

    Framing: one operation byte, a little-endian length and the payload, with
    an allocation guard on the reading side.  The reader is the list of bytes
    the peer sends before it closes; the writer is any [io.Writer], through the
    interface [Writer] and its documented contract [WriterLaws].  On top of the
    framing, the payload codecs of the lock-step protocol between the parent
    and its runner worker. *)

From S2P Require Import Prelude Abi AbiCaps.

Inductive ProtoErr := ErrProtocol | ErrEOF | ErrUnexpectedEOF | ErrShortWrite | ErrWrite.

(** ** protocol.go: operations *)

Definition OpStart : Z := 1.
Definition OpResp : Z := 2.
Definition OpRecv : Z := 3.
Definition OpPresent : Z := 4.
Definition OpKVGet : Z := 5.
Definition OpKVSet : Z := 6.
Definition OpKVDel : Z := 7.
Definition OpBusSub : Z := 8.
Definition OpBusPub : Z := 9.
Definition OpAuth : Z := 10.
Definition OpEnv : Z := 11.
Definition OpFetch : Z := 12.
Definition OpDone : Z := 13.
Definition OpOutput : Z := 14.
Definition OpKVList : Z := 15.
Definition OpKVCAS : Z := 16.
Definition OpExec : Z := 17.
Definition OpTimerStart : Z := 18.
Definition OpTimerCancel : Z := 19.
Definition OpOutputStderr : Z := 20.
Definition OpInput : Z := 21.

Definition MaxFrame : Z := Z.shiftl 64 20.
Definition inlineWriteMax : Z := 4096.

(** ** Writers

    [io.Writer.Write p] returns the number of bytes taken and an error.
    [written] is what has reached the other side. *)
Class Writer (T : Type) := {
  wr : T -> bytes -> T * Z * bool;          (* [true]: a non-nil error *)
  written : T -> bytes }.

(** The contract in io.Writer's documentation: at most [len p] bytes are taken,
    and what is taken is a prefix of [p]. *)
Class WriterLaws (T : Type) `{Writer T} := {
  wr_count s p s' n e : wr s p = (s', n, e) -> 0 <= n <= len p;
  wr_prefix s p s' n e :
    wr s p = (s', n, e) -> written s' = written s ++ take (Z.to_nat n) p }.

(** [for len(p) > 0 { ... }].  Every round that goes on takes at least one
    byte, so [S (length p)] rounds are enough. *)
Fixpoint writeLoop {T} `{Writer T} (fuel : nat) (w : T) (p : bytes) : T * res ProtoErr unit :=
  match fuel with
  | O => (w, Panic)
  | S fuel' =>
    if negb (0 <? len p) then (w, Ok tt) else
    let '(w, n, e) := wr w p in
    match (if 0 <? n then slice_from p n else Ok p) with
    | Ok p =>
      if (e : bool) then (w, Err ErrWrite)
      else if n =? 0 then (w, Err ErrShortWrite)
      else writeLoop fuel' w p
    | Err e => (w, Err e)
    | Panic => (w, Panic)
    end
  end.

Definition writeAll {T} `{Writer T} (w : T) (p : bytes) : T * res ProtoErr unit :=
  writeLoop (S (length p)) w p.

(** [Write w op payload].  [bufp] is the pooled scratch array; what an earlier
    message left in it is arbitrary. *)
Definition Write {T} `{Writer T} (bufp : bytes) (w : T) (op : Z) (payload : bytes)
  : T * res ProtoErr unit :=
  if MaxFrame <? len payload then (w, Err ErrProtocol) else
  if len payload <=? inlineWriteMax then
    match (let? b := slice bufp 0 (5 + len payload) in
           let? b := put b 0 op in
           let? b := put_slice b 1 (le_bytes 4 (u32 (len payload))) in
           let? '(b, _) := copy_at b 5 payload in
           Ok b) with
    | Ok b => writeAll w b
    | Err e => (w, Err e)
    | Panic => (w, Panic)
    end
  else
    let hdr := replicate 5 0 in
    match (let? hdr := put hdr 0 op in
           put_slice hdr 1 (le_bytes 4 (u32 (len payload)))) with
    | Ok hdr =>
      let '(w, r) := writeAll w hdr in
      match r with
      | Ok _ => writeAll w payload
      | Err e => (w, Err e)
      | Panic => (w, Panic)
      end
    | Err e => (w, Err e)
    | Panic => (w, Panic)
    end.

(** ** Readers

    [io.ReadFull r buf]: the bytes still to come, the buffer afterwards, and
    the error of a short stream. *)
Definition ReadFull (r buf : bytes) : bytes * bytes * option ProtoErr :=
  let n := length buf in
  (drop n r, overwrite buf 0 (take n r),
   if len buf <=? len r then None
   else if len r =? 0 then Some ErrEOF else Some ErrUnexpectedEOF).

(** [AppendReadBounded r buf maxFor]: the rest of the stream and the outcome;
    an error carries the buffer handed back with it.  A [nil] bound is [None].
    [buf] is the backing array, so its length is [cap(buf)]. *)
Definition AppendReadBounded (r buf : bytes) (maxFor : option (Z -> Z))
  : bytes * res (ProtoErr * bytes) (Z * bytes) :=
  let '(r, hdr, err) := ReadFull r (replicate 5 0) in
  match err with
  | Some e => (r, Err (e, buf))
  | None =>
    match (let? op := index hdr 0 in let? s := slice_from hdr 1 in Ok (op, le_val s)) with
    | Ok (op, n) =>
      if MaxFrame <? n then (r, Err (ErrProtocol, buf)) else
      if match maxFor with Some f => f op <? n | None => false end
      then (r, Err (ErrProtocol, buf)) else
      let buf := if len buf <? n then replicate (Z.to_nat n) 0 else buf in
      match slice buf 0 n with
      | Ok buf =>
        let '(r, buf, err) := ReadFull r buf in
        match err with
        | Some e => (r, Err (e, buf))
        | None => (r, Ok (op, buf))
        end
      | Err e => (r, Err e)
      | Panic => (r, Panic)
      end
    | Err e => (r, Err e)
    | Panic => (r, Panic)
    end
  end.

Definition ReadBounded (r : bytes) (maxFor : option (Z -> Z)) := AppendReadBounded r [] maxFor.
Definition Read (r : bytes) := ReadBounded r (Some (fun _ => MaxFrame)).
Definition AppendRead (r buf : bytes) := AppendReadBounded r buf None.

(** ** procproto.go: payloads *)

(** The session limits of devhost.go; durations are int64 nanoseconds. *)
Record Limits := mkLimits {
  MemoryPages : Z; FrameTimeout : Z; SessionTimeout : Z;
  MaxEventsPerSec : Z; MaxFramesPerSec : Z }.

Definition capKV : Z := Z.shiftl 1 0.
Definition capBus : Z := Z.shiftl 1 1.
Definition capAuth : Z := Z.shiftl 1 2.
Definition capEnv : Z := Z.shiftl 1 3.
Definition capFetch : Z := Z.shiftl 1 4.
Definition capExec : Z := Z.shiftl 1 5.

(** Which capabilities a session holds: each field says whether the interface
    value of that name in [Capabilities] is non-nil. *)
Record CapSet := mkCapSet {
  has_KV : bool; has_Bus : bool; has_Auth : bool; has_Env : bool; has_Fetch : bool; has_Exec : bool }.

Definition capMask (caps : CapSet) : Z :=
  let m := 0 in
  let m := if has_KV caps then Z.lor m capKV else m in
  let m := if has_Bus caps then Z.lor m capBus else m in
  let m := if has_Auth caps then Z.lor m capAuth else m in
  let m := if has_Env caps then Z.lor m capEnv else m in
  let m := if has_Fetch caps then Z.lor m capFetch else m in
  let m := if has_Exec caps then Z.lor m capExec else m in
  m.

Definition encodeStart (lim : Limits) (cli : bool) (caps : Z) (args : list bytes) (wasm : bytes)
  : bytes :=
  let b := [] in
  let appType := if cli then 1 else 0 in
  let b := b ++ [appType] in
  let b := b ++ le_bytes 4 (MemoryPages lim) in
  let b := b ++ le_bytes 8 (u64 (FrameTimeout lim)) in
  let b := b ++ le_bytes 8 (u64 (SessionTimeout lim)) in
  let b := b ++ le_bytes 4 (u32 (MaxEventsPerSec lim)) in
  let b := b ++ le_bytes 4 (u32 (MaxFramesPerSec lim)) in
  let b := b ++ [caps] in
  let b := b ++ le_bytes 4 (u32 (len args)) in
  let b := fold_left (fun b arg => (b ++ le_bytes 4 (u32 (len arg))) ++ arg) args b in
  b ++ wasm.

(** The argument loop of [decodeStart]: [n] arguments are left in [b]. *)
Fixpoint decodeStartArgs (n : nat) (b : bytes) (args : list bytes)
  : res ProtoErr (list bytes * bytes) :=
  match n with
  | O => Ok (args, b)
  | S n' =>
    if len b <? 4 then Err ErrProtocol else
    let? s := slice b 0 4 in
    let k := le_val s in
    let? b := slice_from b 4 in
    if len b <? k then Err ErrProtocol else
    let? arg := slice b 0 k in
    let? b := slice_from b k in
    decodeStartArgs n' b (args ++ [arg])
  end.

Definition decodeStart (b : bytes)
  : res ProtoErr (Limits * bool * Z * list bytes * bytes) :=
  if len b <? 34 then Err ErrProtocol else
  let? b0 := index b 0 in
  if 1 <? b0 then Err ErrProtocol else
  let cli := b0 =? 1 in
  let? s1 := slice b 1 5 in
  let? s5 := slice b 5 13 in
  let? s13 := slice b 13 21 in
  let? s21 := slice b 21 25 in
  let? s25 := slice b 25 29 in
  let lim := mkLimits (le_val s1) (i64 (le_val s5)) (i64 (le_val s13)) (le_val s21) (le_val s25) in
  let? caps := index b 29 in
  let? s30 := slice b 30 34 in
  let argc := le_val s30 in
  let? b := slice_from b 34 in
  if len b / 4 <? argc then Err ErrProtocol else
  let? '(args, b) := decodeStartArgs (Z.to_nat argc) b [] in
  Ok (lim, cli, caps, args, b).

Definition encodeKeyValue (key value : bytes) : bytes :=
  let b := [] in
  let b := b ++ le_bytes 2 (u16 (len key)) in
  let b := b ++ key in
  b ++ value.

(** [None] is the source's [ok = false]. *)
Definition decodeKeyValue {E} (b : bytes) : res E (option (bytes * bytes)) :=
  if len b <? 2 then Ok None else
  let? s := slice b 0 2 in
  let n := le_val s in
  if len b <? 2 + n then Ok None else
  let? k := slice b 2 (2 + n) in
  let? v := slice_from b (2 + n) in
  Ok (Some (k, v)).

Definition encodeKVListRequest (prefix : bytes) (limit : Z) : bytes :=
  le_bytes 2 (u16 limit) ++ prefix.

Definition decodeKVListRequest {E} (b : bytes) : res E (option (bytes * Z)) :=
  if len b <? 2 then Ok None else
  let? p := slice_from b 2 in
  let? s := slice b 0 2 in
  Ok (Some (p, le_val s)).

Definition encodeKVCAS (key expected value : bytes) : bytes :=
  let b := le_bytes 2 (u16 (len key)) in
  let b := b ++ key in
  let b := b ++ expected in
  b ++ value.

(** [expected] is a [[32]byte]. *)
Definition decodeKVCAS {E} (b : bytes) : res E (option (bytes * bytes * bytes)) :=
  if len b <? 2 then Ok None else
  let? s := slice b 0 2 in
  let n := le_val s in
  if (n =? 0) || (len b <? 2 + n + 32) then Ok None else
  let? key := slice b 2 (2 + n) in
  let? expected := slice b (2 + n) (2 + n + 32) in
  let? value := slice_from b (2 + n + 32) in
  Ok (Some (key, expected, value)).

Definition encodeDone (errStr goodbye logs : bytes) : bytes :=
  let b := [] in
  let b := b ++ le_bytes 4 (u32 (len errStr)) in
  let b := b ++ errStr in
  let b := b ++ le_bytes 4 (u32 (len goodbye)) in
  let b := b ++ goodbye in
  b ++ logs.

Definition decodeDone {E} (b : bytes) : res E (option (bytes * bytes * bytes)) :=
  if len b <? 4 then Ok None else
  let? s := slice b 0 4 in
  let n := le_val s in
  if len b <? 4 + n then Ok None else
  let? errStr := slice b 4 (4 + n) in
  let? b := slice_from b (4 + n) in
  if len b <? 4 then Ok None else
  let? s := slice b 0 4 in
  let n := le_val s in
  if len b <? 4 + n then Ok None else
  let? goodbye := slice b 4 (4 + n) in
  let? logs := slice_from b (4 + n) in
  Ok (Some (errStr, goodbye, logs)).

(** ** Framing lemmas *)

Definition frame_bytes (op : Z) (payload : bytes) : bytes :=
  op :: le_bytes 4 (len payload) ++ payload.

Section Writing.
Context {T : Type} `{WriterLaws T}.

(** [writeAll] terminates, and either the whole of [p] has reached the other
    side or an error was returned after some prefix of it. *)
Lemma writeLoop_spec fuel (w : T) p w' r :
  (length p < fuel)%nat -> writeLoop fuel w p = (w', r) ->
  r <> Panic /\
  (r = Ok tt -> written w' = written w ++ p) /\
  (exists k, (k <= length p)%nat /\ written w' = written w ++ take k p).
Proof.
  revert w p. induction fuel as [|fuel IH]; intros w p Hf Hw; [lia|].
  cbn [writeLoop] in Hw. destruct (0 <? len p) eqn:Hz; cbn [negb] in Hw; zbool.
  2: { injection Hw as <- <-. rewrite (len_0_nil p) by len_lia.
       split; [done|]. split; [by rewrite app_nil_r|]. exists 0%nat. by rewrite app_nil_r. }
  destruct (wr w p) as [[w1 n] e] eqn:Hwr.
  pose proof (wr_count _ _ _ _ _ Hwr) as Hn. pose proof (wr_prefix _ _ _ _ _ Hwr) as Hp.
  assert (Hs : (if 0 <? n then slice_from (E:=ProtoErr) p n else Ok p) = Ok (drop (Z.to_nat n) p)).
  { destruct (0 <? n) eqn:?; zbool; [by rewrite slice_from_ok by lia|].
    assert (n = 0) as -> by lia. done. }
  rewrite Hs in Hw. clear Hs.
  assert (Hk : exists k, (k <= length p)%nat /\ written w1 = written w ++ take k p).
  { exists (Z.to_nat n). split; [unfold len in Hn; lia|done]. }
  destruct e; [by injection Hw as <- <-|].
  destruct (n =? 0) eqn:Hn0; [by injection Hw as <- <-|]. zbool.
  destruct (IH w1 (drop (Z.to_nat n) p)) as (Hnp & Hok & k & Hkl & Hkw);
    [rewrite length_drop; unfold len in *; lia|done|]. split; [done|]. split.
  - intros Hr. by rewrite (Hok Hr), Hp, <- app_assoc, take_drop.
  - exists (Z.to_nat n + k)%nat. rewrite length_drop in Hkl.
    split; [unfold len in Hn; lia|]. by rewrite Hkw, Hp, <- app_assoc, take_take_drop.
Qed.

Lemma writeAll_spec (w : T) p w' r :
  writeAll w p = (w', r) ->
  r <> Panic /\ (r = Ok tt -> written w' = written w ++ p) /\
  (exists k, (k <= length p)%nat /\ written w' = written w ++ take k p).
Proof. intros Hw. eapply writeLoop_spec; [|exact Hw]. lia. Qed.

(** The scratch buffer of the inline path ends up holding exactly the frame. *)
Lemma inline_frame bufp op payload :
  len bufp = 5 + inlineWriteMax -> len payload <= inlineWriteMax ->
  (let? b := slice bufp 0 (5 + len payload) in
   let? b := put b 0 op in
   let? b := put_slice b 1 (le_bytes 4 (u32 (len payload))) in
   let? '(b, _) := copy_at b 5 payload in
   Ok (E:=ProtoErr) b) = Ok (frame_bytes op payload).
Proof.
  unfold inlineWriteMax. intros Hb Hp. len_pos.
  destruct (split_at bufp (5 + len payload)) as (b & s & -> & Hlb & _); [lia|].
  rewrite (slice_app_l b), slice_full by lia. cbn [rbind].
  destruct b as [|x b]; [exfalso; len_lia|].
  rewrite (put_mid [] b x) by done. cbn [rbind app].
  destruct (split_at b 4) as (l4 & pl & -> & Hl4 & Hpl); [len_lia|].
  rewrite (put_slice_mid [op] l4 pl) by (rewrite ?len_le_bytes; len_lia). cbn [rbind].
  rewrite (app_assoc [op]), <- (app_nil_r pl), copy_at_mid by len_lia. cbn [rbind].
  rewrite u32_small by (unfold is_u32; lia). by rewrite app_nil_r.
Qed.

Lemma Write_spec bufp (w : T) op payload w' r :
  len bufp = 5 + inlineWriteMax -> Write bufp w op payload = (w', r) ->
  r <> Panic /\
  (r = Ok tt -> len payload <= MaxFrame /\ written w' = written w ++ frame_bytes op payload) /\
  (MaxFrame < len payload -> w' = w /\ r = Err ErrProtocol) /\
  (exists k, written w' = written w ++ take k (frame_bytes op payload)).
Proof.
  intros Hb Hw. unfold Write in Hw.
  destruct (MaxFrame <? len payload) eqn:Hm; zbool.
  { injection Hw as <- <-. split_and!; [done|done|done|]. exists 0%nat. by rewrite app_nil_r. }
  destruct (len payload <=? inlineWriteMax) eqn:Hi; zbool.
  - rewrite inline_frame in Hw by done.
    destruct (writeAll_spec _ _ _ _ Hw) as (? & Hok & k & _ & Hk).
    split_and!; [done|intros Hr; by split; auto|lia|by exists k].
  - change (put (replicate 5 0) 0 op) with (Ok (E:=ProtoErr) ([op] ++ [0; 0; 0; 0] ++ [])) in Hw.
    cbn [rbind] in Hw. len_pos.
    rewrite (put_slice_mid [op] [0; 0; 0; 0] []) in Hw by done.
    rewrite u32_small in Hw by (unfold is_u32; change MaxFrame with 67108864 in Hm; lia).
    destruct (writeAll w _) as [w1 r1] eqn:Hw1.
    destruct (writeAll_spec _ _ _ _ Hw1) as (Hnp & Hok & k & Hkl & Hk).
    assert (Hpre : exists j, written w1 = written w ++ take j (frame_bytes op payload)).
    { exists k. rewrite Hk. f_equal. unfold frame_bytes. rewrite app_nil_r in *.
      change (op :: le_bytes 4 (len payload) ++ payload)
        with (([op] ++ le_bytes 4 (len payload)) ++ payload).
      symmetry. by apply take_app_le. }
    destruct r1 as [[]|e|]; [|injection Hw as <- <-; split_and!; done || lia|done].
    destruct (writeAll_spec _ _ _ _ Hw) as (Hnp2 & Hok2 & k2 & Hkl2 & Hk2).
    specialize (Hok eq_refl). rewrite app_nil_r in Hok.
    split_and!; [done| |lia|].
    + intros Hr. split; [done|]. rewrite (Hok2 Hr), Hok, <- app_assoc. done.
    + exists (5 + k2)%nat. rewrite Hk2, Hok, <- app_assoc. f_equal.
Qed.
End Writing.

(** ** Reading *)

Lemma ReadFull_exact x r buf : length buf = length x -> ReadFull (x ++ r) buf = (r, x, None).
Proof.
  intros Hl. unfold ReadFull, overwrite. rewrite Hl, drop_app_length, take_app_length.
  rewrite (proj2 (Z.leb_le _ _)) by (unfold len; rewrite length_app; lia).
  simpl. by rewrite drop_ge, app_nil_r by lia.
Qed.

Lemma ReadFull_none r buf r' buf' :
  ReadFull r buf = (r', buf', None) -> length buf' = length buf /\ r = buf' ++ r'.
Proof.
  unfold ReadFull, overwrite. intros H. injection H as <- <- H.
  destruct (len buf <=? len r) eqn:Hl; [|by destruct (len r =? 0)]. zbool.
  unfold len in Hl. simpl. rewrite length_take, (drop_ge buf), app_nil_r by lia.
  split; [|by rewrite take_drop]. rewrite length_take. lia.
Qed.

Lemma slice_from_cons {E A} (x : A) l : slice_from (E:=E) (x :: l) 1 = Ok l.
Proof. exact (slice_from_app (E:=E) [x] l 1 eq_refl). Qed.

Definition within (maxFor : option (Z -> Z)) (op n : Z) : Prop :=
  match maxFor with Some f => n <= f op | None => True end.

Lemma read_frame op payload rest buf maxFor :
  len payload <= MaxFrame -> within maxFor op (len payload) ->
  AppendReadBounded (frame_bytes op payload ++ rest) buf maxFor = (rest, Ok (op, payload)).
Proof.
  intros Hm Hw. unfold AppendReadBounded, frame_bytes.
  change ((op :: le_bytes 4 (len payload) ++ payload) ++ rest)
    with ((op :: le_bytes 4 (len payload)) ++ (payload ++ rest)).
  rewrite ReadFull_exact by done. cbv beta iota zeta.
  change (index (op :: ?l) 0) with (Ok (E:=ProtoErr * bytes) op). cbn [rbind].
  rewrite slice_from_cons. cbn [rbind].
  rewrite le_val_small by (change MaxFrame with 67108864 in Hm; simpl; len_lia).
  rewrite (proj2 (Z.ltb_ge _ _)) by lia.
  assert (Hb : match maxFor with Some f => f op <? len payload | None => false end = false).
  { destruct maxFor; [|done]. apply Z.ltb_ge. exact Hw. }
  rewrite Hb. destruct (fresh_or_reused (E:=ProtoErr * bytes) buf (len payload))
    as (b & Hl & ->); [len_lia|].
  rewrite ReadFull_exact by (unfold len in *; lia). done.
Qed.

(** What a successful read says about the stream: it starts with exactly that
    frame, and the frame is within both bounds. *)
Lemma read_inv r buf maxFor r' op payload :
  bytes_ok r -> AppendReadBounded r buf maxFor = (r', Ok (op, payload)) ->
  r = frame_bytes op payload ++ r' /\ len payload <= MaxFrame /\ within maxFor op (len payload).
Proof.
  intros Hr H. unfold AppendReadBounded in H.
  destruct (ReadFull r (replicate 5 0)) as [[r1 hdr] [e|]] eqn:Hf; [done|].
  apply ReadFull_none in Hf as [Hl ->]. rewrite length_replicate in Hl.
  destruct hdr as [|o hdr]; [done|]. simpl in Hl. injection Hl as Hl.
  apply bytes_ok_app in Hr as [Hh Hr1]. apply Forall_cons in Hh as [Ho Hh].
  change (index (o :: hdr) 0) with (Ok (E:=ProtoErr * bytes) o) in H. cbn [rbind] in H.
  rewrite slice_from_cons in H. cbn [rbind] in H.
  destruct (MaxFrame <? le_val hdr) eqn:?; [done|].
  destruct (match maxFor with Some f => _ | None => false end) eqn:Hb; [done|]. zbool.
  pose proof (le_val_bound _ Hh) as Hn.
  destruct (fresh_or_reused (E:=ProtoErr * bytes) buf (le_val hdr)) as (b & Hlb & Hs); [lia|].
  rewrite Hs in H. destruct (ReadFull r1 b) as [[r2 b2] [e|]] eqn:Hf2; [done|].
  injection H as <- <- <-. apply ReadFull_none in Hf2 as [Hl2 ->].
  assert (Hlp : len b2 = le_val hdr) by (unfold len in *; lia).
  split_and!.
  - unfold frame_bytes. rewrite Hlp, <- Hl, le_bytes_val by done.
    cbn [app]. by rewrite <- app_assoc.
  - lia.
  - unfold within. destruct maxFor; [|done]. apply Z.ltb_ge in Hb. lia.
Qed.

Lemma read_total r buf maxFor r' o :
  bytes_ok r -> AppendReadBounded r buf maxFor = (r', o) -> no_panic o.
Proof.
  intros Hr H. unfold AppendReadBounded in H.
  destruct (ReadFull r (replicate 5 0)) as [[r1 hdr] [e|]] eqn:Hf; [by injection H as <- <-|].
  apply ReadFull_none in Hf as [Hl ->]. rewrite length_replicate in Hl.
  destruct hdr as [|op hdr]; [done|].
  apply bytes_ok_app in Hr as [Hh Hr1]. apply Forall_cons in Hh as [Ho Hh].
  change (index (op :: hdr) 0) with (Ok (E:=ProtoErr * bytes) op) in H. cbn [rbind] in H.
  rewrite slice_from_cons in H. cbn [rbind] in H.
  destruct (MaxFrame <? le_val hdr); [by injection H as <- <-|].
  destruct (match maxFor with Some f => _ | None => false end); [by injection H as <- <-|].
  pose proof (le_val_bound _ Hh) as Hn.
  destruct (fresh_or_reused (E:=ProtoErr * bytes) buf (le_val hdr)) as (b & Hlb & Hs); [lia|].
  rewrite Hs in H. destruct (ReadFull r1 b) as [[r2 b2] [e|]]; by injection H as <- <-.
Qed.

(** An oversized announcement is refused after the five header bytes, with the
    caller's buffer untouched: nothing is allocated and nothing more is read. *)
Lemma read_oversized op n rest buf maxFor :
  is_u32 n -> ~ (n <= MaxFrame /\ within maxFor op n) ->
  AppendReadBounded ((op :: le_bytes 4 n) ++ rest) buf maxFor = (rest, Err (ErrProtocol, buf)).
Proof.
  intros Hn Hbad. unfold AppendReadBounded.
  rewrite ReadFull_exact by done. cbv beta iota zeta.
  change (index (op :: ?l) 0) with (Ok (E:=ProtoErr * bytes) op). cbn [rbind].
  rewrite slice_from_cons. cbn [rbind].
  rewrite le_val_small by done.
  destruct (MaxFrame <? n) eqn:Hm; [done|]. zbool.
  destruct maxFor as [f|]; unfold within in Hbad; [|tauto].
  rewrite (proj2 (Z.ltb_lt _ _)); [done|]. lia.
Qed.

(** ** Payload codecs *)

Lemma decodeKeyValue_eq {E} b : decodeKeyValue (E:=E) b = takeField 2 b.
Proof. reflexivity. Qed.

Lemma encodeKeyValue_layout k v :
  len k < 2 ^ 16 -> encodeKeyValue k v = field 2 k ++ k ++ v.
Proof.
  intros. unfold encodeKeyValue, field. rewrite u16_small by (unfold is_u16; len_lia).
  by rewrite <- !app_assoc.
Qed.

Lemma decode_encodeKeyValue {E} k v :
  len k < 2 ^ 16 -> decodeKeyValue (E:=E) (encodeKeyValue k v) = Ok (Some (k, v)).
Proof.
  intros. rewrite encodeKeyValue_layout, decodeKeyValue_eq by done. by apply takeField_app.
Qed.

Lemma decode_encodeKVListRequest {E} p limit :
  is_u16 limit ->
  decodeKVListRequest (E:=E) (encodeKVListRequest p limit) = Ok (Some (p, limit)).
Proof.
  intros Hl. unfold decodeKVListRequest, encodeKVListRequest. set (h := le_bytes 2 _).
  assert (Hh : len h = 2) by apply len_le_bytes.
  rewrite (proj2 (Z.ltb_ge _ _)) by len_lia.
  rewrite slice_from_app by lia. cbn [rbind].
  rewrite (slice_app_l h), slice_full by lia. cbn [rbind]. subst h. by rewrite le2_u16.
Qed.

Lemma decode_encodeKVCAS {E} k x v :
  1 <= len k < 2 ^ 16 -> len x = 32 ->
  decodeKVCAS (E:=E) (encodeKVCAS k x v) = Ok (Some (k, x, v)).
Proof.
  intros Hk Hx. unfold decodeKVCAS, encodeKVCAS. set (h := le_bytes 2 _).
  assert (Hh : len h = 2) by apply len_le_bytes.
  assert (Hv : le_val h = len k) by (subst h; apply le2_u16; unfold is_u16; lia).
  rewrite <- !app_assoc. rewrite (proj2 (Z.ltb_ge _ _)) by len_lia.
  rewrite (slice_app_l h), slice_full by lia. cbn [rbind]. rewrite Hv.
  rewrite (proj2 (Z.eqb_neq _ _)), (proj2 (Z.ltb_ge _ _)) by len_lia. cbn [orb].
  rewrite (slice_mid h k) by lia. cbn [rbind].
  rewrite (slice_part _ (h ++ k) x v) by (rewrite <- ?app_assoc; (done || len_lia)). cbn [rbind].
  rewrite !app_assoc, slice_from_app by len_lia. done.
Qed.

Lemma decode_encodeDone {E} e g l :
  len e < 2 ^ 32 -> len g < 2 ^ 32 ->
  decodeDone (E:=E) (encodeDone e g l) = Ok (Some (e, g, l)).
Proof.
  intros He Hg. unfold decodeDone, encodeDone.
  rewrite !u32_small by (unfold is_u32; len_lia).
  fold (field 4 e) (field 4 g). rewrite <- !app_assoc, app_nil_l.
  set (fe := field 4 e). set (fg := field 4 g).
  assert (He4 : len fe = 4) by apply len_le_bytes. assert (Hg4 : len fg = 4) by apply len_le_bytes.
  assert (Hve : le_val fe = len e) by (apply le_val_small; simpl; len_lia).
  assert (Hvg : le_val fg = len g) by (apply le_val_small; simpl; len_lia).
  rewrite (proj2 (Z.ltb_ge _ _)) by len_lia.
  rewrite (slice_app_l fe), slice_full by lia. cbn [rbind]. rewrite Hve.
  rewrite (proj2 (Z.ltb_ge _ _)) by len_lia.
  rewrite (slice_mid fe e) by lia. cbn [rbind].
  rewrite (app_assoc fe e), slice_from_app by len_lia. cbn [rbind].
  rewrite (proj2 (Z.ltb_ge _ _)) by len_lia.
  rewrite (slice_app_l fg), slice_full by lia. cbn [rbind]. rewrite Hvg.
  rewrite (proj2 (Z.ltb_ge _ _)) by len_lia.
  rewrite (slice_mid fg g) by lia. cbn [rbind].
  rewrite (app_assoc fg g), slice_from_app by len_lia. done.
Qed.

(** *** The start payload *)

Lemma encodeArgs_wire args b :
  Forall (fun a => len a < 2 ^ 32) args ->
  fold_left (fun b arg => (b ++ le_bytes 4 (u32 (len arg))) ++ arg) args b = b ++ args_wire args.
Proof.
  intros Ha. revert b. induction Ha as [|a args Ha _ IH]; intros b; cbn [fold_left].
  - by rewrite app_nil_r.
  - rewrite IH, u32_small by (unfold is_u32; len_lia).
    unfold args_wire; cbn [map concat]; unfold field. by rewrite <- !app_assoc.
Qed.

Lemma decodeStartArgs_wire args acc rest :
  Forall (fun a => len a < 2 ^ 32) args ->
  decodeStartArgs (length args) (args_wire args ++ rest) acc = Ok (acc ++ args, rest).
Proof.
  intros Ha. revert acc. induction Ha as [|a args Ha _ IH]; intros acc.
  - simpl. by rewrite app_nil_r.
  - cbn [length decodeStartArgs]. unfold args_wire; cbn [map concat]; fold (args_wire args).
    rewrite <- !app_assoc. set (f := field 4 a). assert (Hf : len f = 4) by apply len_le_bytes.
    assert (Hv : le_val f = len a) by (apply le_val_small; simpl; len_lia).
    rewrite (proj2 (Z.ltb_ge _ _)) by len_lia.
    rewrite (slice_app_l f), slice_full by lia. cbn [rbind]. rewrite Hv.
    rewrite slice_from_app by lia. cbn [rbind].
    rewrite (proj2 (Z.ltb_ge _ _)) by len_lia.
    rewrite (slice_app_l a), slice_full by len_lia. cbn [rbind].
    rewrite slice_from_app by lia. cbn [rbind]. rewrite IH. by rewrite <- app_assoc.
Qed.

Lemma len_args_wire args : 4 * len args <= len (args_wire args).
Proof.
  induction args as [|a args IH]; [done|]. unfold args_wire in *; cbn [map concat].
  unfold field in *. len_lia.
Qed.

Definition limits_wf (lim : Limits) : Prop :=
  is_u32 (MemoryPages lim) /\ is_i64 (FrameTimeout lim) /\ is_i64 (SessionTimeout lim) /\
  is_u32 (MaxEventsPerSec lim) /\ is_u32 (MaxFramesPerSec lim).

Lemma decode_encodeStart lim cli caps args wasm :
  limits_wf lim -> len args < 2 ^ 32 -> Forall (fun a => len a < 2 ^ 32) args ->
  decodeStart (encodeStart lim cli caps args wasm) = Ok (lim, cli, caps, args, wasm).
Proof.
  intros (Hm & Hft & Hst & He & Hfr) Hargc Ha. unfold encodeStart.
  rewrite encodeArgs_wire by done. rewrite (u32_small (len args)) by (unfold is_u32; len_lia).
  rewrite <- !app_assoc, app_nil_l.
  set (hd := [if cli then 1 else 0] ++ le_bytes 4 (MemoryPages lim) ++ le_bytes 8 (u64 (FrameTimeout lim))
    ++ le_bytes 8 (u64 (SessionTimeout lim)) ++ le_bytes 4 (u32 (MaxEventsPerSec lim))
    ++ le_bytes 4 (u32 (MaxFramesPerSec lim)) ++ [caps] ++ le_bytes 4 (len args)).
  match goal with |- decodeStart ?b = _ =>
    assert (Hb : b = hd ++ (args_wire args ++ wasm)) by (subst hd; by rewrite <- !app_assoc) end.
  rewrite Hb. clear Hb. assert (Hh : len hd = 34) by reflexivity.
  unfold decodeStart. len_pos. rewrite (proj2 (Z.ltb_ge _ _)) by len_lia.
  rewrite !(index_app_l hd), !(slice_app_l hd) by lia.
  change (index hd 0) with (Ok (E:=ProtoErr) (if cli then 1 else 0)).
  change (index hd 29) with (Ok (E:=ProtoErr) caps).
  change (slice hd 1 5) with (Ok (E:=ProtoErr) (le_bytes 4 (MemoryPages lim))).
  change (slice hd 5 13) with (Ok (E:=ProtoErr) (le_bytes 8 (u64 (FrameTimeout lim)))).
  change (slice hd 13 21) with (Ok (E:=ProtoErr) (le_bytes 8 (u64 (SessionTimeout lim)))).
  change (slice hd 21 25) with (Ok (E:=ProtoErr) (le_bytes 4 (u32 (MaxEventsPerSec lim)))).
  change (slice hd 25 29) with (Ok (E:=ProtoErr) (le_bytes 4 (u32 (MaxFramesPerSec lim)))).
  change (slice hd 30 34) with (Ok (E:=ProtoErr) (le_bytes 4 (len args))).
  cbn [rbind]. rewrite slice_from_app by lia.
  rewrite !le8_i64, !le4_u32, (le_val_small 4 (MemoryPages lim)), (le_val_small 4 (len args))
    by first [done | exact Hm | change (2 ^ (8 * Z.of_nat 4)) with (2 ^ 32); len_lia].
  pose proof (len_args_wire args).
  assert (Hd : (len (args_wire args ++ wasm) / 4 <? len args) = false).
  { apply Z.ltb_ge. apply Z.div_le_lower_bound; len_lia. }
  destruct cli; cbn [rbind]; change (1 <? 1) with false; change (1 <? 0) with false;
    cbv iota; rewrite Hd, to_nat_len, decodeStartArgs_wire by done; by destruct lim.
Qed.

Lemma decodeStartArgs_total n b acc : bytes_ok b -> no_panic (decodeStartArgs n b acc).
Proof.
  revert b acc. induction n as [|n IH]; intros b acc Hb; [exact I|].
  cbn [decodeStartArgs]. np_step; [exact I|].
  apply no_panic_bind; [apply no_panic_slice; lia|intros s Es].
  apply no_panic_bind; [apply no_panic_slice_from; lia|intros b1 Eb].
  assert (Hb1 : bytes_ok b1) by (by apply (slice_Forall _ _ _ _ _ Hb Eb)).
  pose proof (le_val_slice_bound _ _ _ _ Hb Es). np_step; [exact I|].
  apply no_panic_bind; [apply no_panic_slice; lia|intros a Ea].
  apply no_panic_bind; [apply no_panic_slice_from; lia|intros b2 Eb2].
  apply IH. by apply (slice_Forall _ _ _ _ _ Hb1 Eb2).
Qed.

Lemma decodeStart_total b : bytes_ok b -> no_panic (decodeStart b).
Proof.
  intros Hb. unfold decodeStart. repeat (np_step; try lia).
  match goal with H : slice_from b 34 = Ok ?x |- _ =>
    apply decodeStartArgs_total; by apply (slice_Forall _ _ _ _ _ Hb H) end.
Qed.

(** Each presence bit of the mask reads back one field of the capability set. *)
Lemma capMask_bits caps :
  negb (Z.land (capMask caps) capKV =? 0) = has_KV caps /\
  negb (Z.land (capMask caps) capBus =? 0) = has_Bus caps /\
  negb (Z.land (capMask caps) capAuth =? 0) = has_Auth caps /\
  negb (Z.land (capMask caps) capEnv =? 0) = has_Env caps /\
  negb (Z.land (capMask caps) capFetch =? 0) = has_Fetch caps /\
  negb (Z.land (capMask caps) capExec =? 0) = has_Exec caps /\
  is_u8 (capMask caps).
Proof.
  destruct caps as [[] [] [] [] [] []]; unfold is_u8; split_and!; reflexivity || done.
Qed.

(** ** Theorems *)

(** (framing delivers): over any writer that honours io.Writer's contract,
    however few bytes it takes at a time, [Write] terminates without panicking;
    when it reports success the whole frame has reached the other side, when it
    fails some prefix of the frame has, and an oversized payload is refused
    before anything is sent. *)
Theorem write_delivers {T} `{WriterLaws T} bufp (w : T) op payload w' r :
  len bufp = 5 + inlineWriteMax -> Write bufp w op payload = (w', r) ->
  r <> Panic /\
  (r = Ok tt -> len payload <= MaxFrame /\ written w' = written w ++ frame_bytes op payload) /\
  (MaxFrame < len payload -> w' = w /\ r = Err ErrProtocol) /\
  (exists k, written w' = written w ++ take k (frame_bytes op payload)).
Proof. apply Write_spec. Qed.

(** A writer that takes at most three bytes per call. *)
#[export] Instance slow_writer : Writer bytes := {
  wr s p := (s ++ take 3 p, Z.min 3 (len p), false);
  written s := s }.

#[export] Instance slow_writer_laws : WriterLaws bytes.
Proof.
  split; intros s p s' n e [= <- <- <-]; [len_lia|]. cbn. f_equal.
  destruct (Z.le_ge_cases 3 (len p)).
  - by rewrite Z.min_l by done.
  - rewrite Z.min_r, to_nat_len by done. rewrite !take_ge; [done|lia|unfold len in *; lia].
Qed.

Lemma write_delivers_witness :
  Write (replicate 4101 7) [] OpAuth (str "hello") = (OpAuth :: 5 :: 0 :: 0 :: 0 :: str "hello", Ok tt) /\
  len (str "hello") <= MaxFrame.
Proof.
  split; [vm_compute; reflexivity|].
  apply (write_delivers (replicate 4101 7) (@nil Z) OpAuth (str "hello")
           (OpAuth :: 5 :: 0 :: 0 :: 0 :: str "hello") (Ok tt)); vm_compute; reflexivity.
Defined.

(** C36 (framing reads back): a frame sent within the bounds is read back
    exactly, leaving the rest of the stream, whatever buffer is reused;
    conversely a successful read consumed exactly one frame within the bounds.
    On hostile streams the reader never panics, and a header that announces more
    than [MaxFrame] or the bound of its operation is refused after its five
    bytes with the caller's buffer unchanged. *)
Theorem read_exact r buf maxFor :
  bytes_ok r ->
  (forall op payload rest,
     r = frame_bytes op payload ++ rest -> len payload <= MaxFrame ->
     within maxFor op (len payload) -> AppendReadBounded r buf maxFor = (rest, Ok (op, payload))) /\
  (forall op payload r',
     AppendReadBounded r buf maxFor = (r', Ok (op, payload)) ->
     r = frame_bytes op payload ++ r' /\ len payload <= MaxFrame /\ within maxFor op (len payload)) /\
  no_panic (AppendReadBounded r buf maxFor).2 /\
  (forall op n rest,
     r = (op :: le_bytes 4 n) ++ rest -> is_u32 n -> ~ (n <= MaxFrame /\ within maxFor op n) ->
     AppendReadBounded r buf maxFor = (rest, Err (ErrProtocol, buf))).
Proof.
  intros Hr. split_and!.
  - intros op payload rest ->. apply read_frame.
  - intros op payload r'. by apply read_inv.
  - destruct (AppendReadBounded r buf maxFor) as [r' o] eqn:H. by eapply read_total.
  - intros op n rest ->. apply read_oversized.
Qed.

Lemma read_exact_witness :
  AppendReadBounded ([OpKVGet; 2; 0; 0; 0] ++ str "hi" ++ [9]) [] (Some (fun _ => 1024))
    = ([9], Ok (OpKVGet, str "hi")) /\
  AppendReadBounded (OpKVGet :: le_bytes 4 2048) [1] (Some (fun _ => 1024)) = ([], Err (ErrProtocol, [1])).
Proof.
  split.
  - destruct (read_exact ([OpKVGet; 2; 0; 0; 0] ++ str "hi" ++ [9]) [] (Some (fun _ => 1024)))
      as (H & _); [by apply bytes_ok_eval|].
    apply H; [reflexivity|vm_compute; discriminate|vm_compute; discriminate].
  - destruct (read_exact (OpKVGet :: le_bytes 4 2048) [1] (Some (fun _ => 1024)))
      as (_ & _ & _ & H); [by apply bytes_ok_eval|].
    apply (H OpKVGet 2048 []); [reflexivity|split; [vm_compute; discriminate|reflexivity]|].
    intros [_ Hw]. vm_compute in Hw. by apply Hw.
Defined.

(** (start message): the worker starts with exactly the limits, mode,
    capability set, arguments and module its parent sent, each capability bit
    standing for one capability, and never panics on a hostile start message. *)
Theorem start_roundtrip lim cli caps args wasm :
  limits_wf lim -> len args < 2 ^ 32 -> Forall (fun a => len a < 2 ^ 32) args ->
  decodeStart (encodeStart lim cli (capMask caps) args wasm)
    = Ok (lim, cli, capMask caps, args, wasm) /\
  (forall caps', capMask caps' = capMask caps -> caps' = caps) /\
  (forall b, bytes_ok b -> no_panic (decodeStart b)).
Proof.
  intros. split; [by apply decode_encodeStart|]. split; [|apply decodeStart_total].
  intros caps' He.
  destruct (capMask_bits caps') as (A1 & A2 & A3 & A4 & A5 & A6 & _).
  destruct (capMask_bits caps) as (B1 & B2 & B3 & B4 & B5 & B6 & _).
  rewrite He in *. destruct caps, caps'; cbn [has_KV has_Bus has_Auth has_Env has_Fetch has_Exec] in *.
  congruence.
Qed.

Lemma start_roundtrip_witness :
  decodeStart (encodeStart (mkLimits 256 2000000000 (-1) 50 30) true
                 (capMask (mkCapSet true false true false false true)) [str "-v"; []] [0; 97])
  = Ok (mkLimits 256 2000000000 (-1) 50 30, true, 37, [str "-v"; []], [0; 97]).
Proof.
  apply (start_roundtrip (mkLimits 256 2000000000 (-1) 50 30) true
           (mkCapSet true false true false false true) [str "-v"; []] [0; 97]).
  - unfold limits_wf, is_u32, is_i64; cbn; lia.
  - vm_compute. reflexivity.
  - repeat apply Forall_cons_2; try apply Forall_nil_2; vm_compute; reflexivity.
Defined.
