(* ===== verification/Sha256.v ===== *)
(** * SHA-256 ([crypto/sha256.Sum256])

    The compare-and-swap of the key/value stores compares 32-byte digests, so
    the digest is an executable definition (FIPS 180-4) and not an assumption.
    Only its length is used by the theorems; no collision resistance is
    claimed. HMAC-SHA256 (RFC 2104) authenticates the pairing protocol. *)

From S2P Require Import Prelude.

Definition rotr (n x : Z) : Z := Z.lor (Z.shiftr x n) (u32 (Z.shiftl x (32 - n))).
Definition not32 (x : Z) : Z := Z.lxor x (2 ^ 32 - 1).

Definition ch (x y z : Z) : Z := Z.lxor (Z.land x y) (Z.land (not32 x) z).
Definition maj (x y z : Z) : Z := Z.lxor (Z.lxor (Z.land x y) (Z.land x z)) (Z.land y z).
Definition bsig0 (x : Z) : Z := Z.lxor (Z.lxor (rotr 2 x) (rotr 13 x)) (rotr 22 x).
Definition bsig1 (x : Z) : Z := Z.lxor (Z.lxor (rotr 6 x) (rotr 11 x)) (rotr 25 x).
Definition ssig0 (x : Z) : Z := Z.lxor (Z.lxor (rotr 7 x) (rotr 18 x)) (Z.shiftr x 3).
Definition ssig1 (x : Z) : Z := Z.lxor (Z.lxor (rotr 17 x) (rotr 19 x)) (Z.shiftr x 10).

(** The constants are the first 32 bits of the fractional parts of the cube roots
    of the first 64 primes, and of the square roots of the first eight. *)

(** The least divisor of [n] above 1 is [n]. *)
Definition is_prime (n : nat) : bool :=
  (2 <=? n)%nat && forallb (fun d => negb (Nat.modulo n d =? 0)%nat) (seq 2 (n - 2)).
Definition primes (bound : nat) : list Z := map Z.of_nat (List.filter is_prime (seq 0 bound)).

(** The integer cube root, one bit at a time from bit [bit - 1] down. *)
Fixpoint cube_root (bit : nat) (n root : Z) : Z :=
  match bit with
  | O => root
  | S b =>
    let r := root + 2 ^ Z.of_nat b in
    cube_root b n (if r * r * r <=? n then r else root)
  end.

Definition round_constants : list Z :=
  Eval vm_compute in map (fun p => u32 (cube_root 40 (Z.shiftl p 96) 0)) (primes 312).
Definition root_bits : list Z :=
  Eval vm_compute in map (fun p => u32 (Z.sqrt (Z.shiftl p 64))) (primes 20).

Record sha_state := mkSha { ha : Z; hb : Z; hc : Z; hd : Z; he : Z; hf : Z; hg : Z; hh : Z }.

Definition sha_init : sha_state :=
  let h i := nth i root_bits 0 in mkSha (h 0%nat) (h 1%nat) (h 2%nat) (h 3%nat) (h 4%nat) (h 5%nat) (h 6%nat) (h 7%nat).

(** The message schedule: [w] holds the last sixteen words, newest first. *)
Fixpoint schedule (n : nat) (w : list Z) : list Z :=
  match n with
  | O => []
  | S n' =>
    let nxt := u32 (ssig1 (nth 1 w 0) + nth 6 w 0 + ssig0 (nth 14 w 0) + nth 15 w 0) in
    nxt :: schedule n' (nxt :: take 15 w)
  end.

Definition sha_round (s : sha_state) (kw : Z * Z) : sha_state :=
  let t1 := hh s + bsig1 (he s) + ch (he s) (hf s) (hg s) + kw.1 + kw.2 in
  let t2 := bsig0 (ha s) + maj (ha s) (hb s) (hc s) in
  mkSha (u32 (t1 + t2)) (ha s) (hb s) (hc s) (u32 (hd s + t1)) (he s) (hf s) (hg s).

Definition be_val (b : bytes) : Z := fold_left (fun acc x => acc * 256 + x) b 0.
Definition be_bytes (n : nat) (v : Z) : bytes := rev (le_bytes n v).

Fixpoint chunks {A} (fuel n : nat) (l : list A) : list (list A) :=
  match fuel, l with
  | S fuel', _ :: _ => take n l :: chunks fuel' n (drop n l)
  | _, _ => []
  end.

Definition sha_block (s : sha_state) (blk : bytes) : sha_state :=
  let w16 := map be_val (chunks 16 4 blk) in
  let w := w16 ++ schedule 48 (rev w16) in
  let r := fold_left sha_round (combine round_constants w) s in
  mkSha (u32 (ha s + ha r)) (u32 (hb s + hb r)) (u32 (hc s + hc r)) (u32 (hd s + hd r))
        (u32 (he s + he r)) (u32 (hf s + hf r)) (u32 (hg s + hg r)) (u32 (hh s + hh r)).

Definition sha_pad (m : bytes) : bytes :=
  m ++ [0x80] ++ replicate (Z.to_nat ((55 - len m) mod 64)) 0 ++ be_bytes 8 (u64 (8 * len m)).

Definition sha256 (m : bytes) : bytes :=
  let p := sha_pad m in
  let s := fold_left sha_block (chunks (length p) 64 p) sha_init in
  concat (map (be_bytes 4) [ha s; hb s; hc s; hd s; he s; hf s; hg s; hh s]).

(** FIPS 180-4 test vectors. *)
Example sha256_empty :
  sha256 [] = [0xe3;0xb0;0xc4;0x42;0x98;0xfc;0x1c;0x14;0x9a;0xfb;0xf4;0xc8;0x99;0x6f;0xb9;0x24;
               0x27;0xae;0x41;0xe4;0x64;0x9b;0x93;0x4c;0xa4;0x95;0x99;0x1b;0x78;0x52;0xb8;0x55].
Proof. vm_compute. reflexivity. Qed.

Example sha256_abc :
  sha256 (str "abc") = [0xba;0x78;0x16;0xbf;0x8f;0x01;0xcf;0xea;0x41;0x41;0x40;0xde;0x5d;0xae;0x22;0x23;
                        0xb0;0x03;0x61;0xa3;0x96;0x17;0x7a;0x9c;0xb4;0x10;0xff;0x61;0xf2;0x00;0x15;0xad].
Proof. vm_compute. reflexivity. Qed.

Lemma len_be_bytes n v : len (be_bytes n v) = Z.of_nat n.
Proof. unfold be_bytes, len. rewrite length_rev. apply (len_le_bytes n v). Qed.

Lemma len_sha256 m : len (sha256 m) = 32.
Proof. unfold sha256. cbn [map concat]. rewrite !len_app, !len_be_bytes. done. Qed.

Lemma sha256_bytes m : bytes_ok (sha256 m).
Proof.
  unfold sha256. cbn [map concat]. unfold be_bytes.
  repeat (apply Forall_app_2; [apply Forall_rev, le_bytes_ok|]). constructor.
Qed.

(** [hmac.New(sha256.New, key)]. *)
Definition hmac_pad (x : Z) (key : bytes) : bytes := map (Z.lxor x) (key ++ replicate (64 - length key) 0).
Definition hmac_sha256 (key m : bytes) : bytes :=
  let key := if 64 <? len key then sha256 key else key in
  sha256 (hmac_pad 0x5C key ++ sha256 (hmac_pad 0x36 key ++ m)).

(** RFC 4231, test case 2. *)
Example hmac_jefe :
  hmac_sha256 (str "Jefe") (str "what do ya want for nothing?") =
    [0x5b;0xdc;0xc1;0x46;0xbf;0x60;0x75;0x4e;0x6a;0x04;0x24;0x26;0x08;0x95;0x75;0xc7;
     0x5a;0x00;0x3f;0x08;0x9d;0x27;0x39;0x83;0x9d;0xec;0x58;0xb9;0x64;0xec;0x38;0x43].
Proof. vm_compute. reflexivity. Qed.
Lemma hmac_bytes key m : bytes_ok (hmac_sha256 key m).
Proof. apply sha256_bytes. Qed.
Lemma len_hmac key m : len (hmac_sha256 key m) = 32.
Proof. apply len_sha256. Qed.
