(* ===== verification/Utf8.v ===== *)
(** * UTF-8 as Go's unicode/utf8 reads it

    [DecodeRune], [FullRune] and [Valid] of the standard library, which the
    terminal filters and the JSON object keys of the stores depend on.  The
    table [first]/[acceptRanges] of the library is [accept]. *)

From S2P Require Import Prelude.

Definition RuneError : Z := 65533.

Definition within_b (lo hi b : Z) : bool := (lo <=? b) && (b <=? hi).

(** For a leading byte of a multi-byte sequence: its size and the range of the
    second byte; [None] for ASCII and for bytes that cannot lead. *)
Definition accept (b0 : Z) : option (nat * Z * Z) :=
  if within_b 0xC2 0xDF b0 then Some (2%nat, 0x80, 0xBF)
  else if b0 =? 0xE0 then Some (3%nat, 0xA0, 0xBF)
  else if within_b 0xE1 0xEC b0 then Some (3%nat, 0x80, 0xBF)
  else if b0 =? 0xED then Some (3%nat, 0x80, 0x9F)
  else if within_b 0xEE 0xEF b0 then Some (3%nat, 0x80, 0xBF)
  else if b0 =? 0xF0 then Some (4%nat, 0x90, 0xBF)
  else if within_b 0xF1 0xF3 b0 then Some (4%nat, 0x80, 0xBF)
  else if b0 =? 0xF4 then Some (4%nat, 0x80, 0x8F)
  else None.

Definition cont (b : Z) : bool := within_b 0x80 0xBF b.
Definition low6 (b : Z) : Z := Z.land b 0x3F.

(** The rune and its width; [(RuneError, 1)] for an invalid sequence,
    [(RuneError, 0)] for no bytes at all. *)
Definition decode_rune (p : bytes) : Z * nat :=
  match p with
  | [] => (RuneError, 0%nat)
  | b0 :: p1 =>
    if b0 <? 0x80 then (b0, 1%nat) else
    match accept b0 with
    | None => (RuneError, 1%nat)
    | Some (sz, lo, hi) =>
      if (length p <? sz)%nat then (RuneError, 1%nat) else
      match p1 with
      | [] => (RuneError, 1%nat)
      | b1 :: p2 =>
        if negb (within_b lo hi b1) then (RuneError, 1%nat) else
        if (sz <=? 2)%nat then (Z.lor (Z.shiftl (Z.land b0 0x1F) 6) (low6 b1), 2%nat) else
        match p2 with
        | [] => (RuneError, 1%nat)
        | b2 :: p3 =>
          if negb (cont b2) then (RuneError, 1%nat) else
          if (sz <=? 3)%nat
          then (Z.lor (Z.lor (Z.shiftl (Z.land b0 0x0F) 12) (Z.shiftl (low6 b1) 6)) (low6 b2), 3%nat)
          else
          match p3 with
          | [] => (RuneError, 1%nat)
          | b3 :: _ =>
            if negb (cont b3) then (RuneError, 1%nat) else
            (Z.lor (Z.lor (Z.lor (Z.shiftl (Z.land b0 0x07) 18) (Z.shiftl (low6 b1) 12))
                      (Z.shiftl (low6 b2) 6)) (low6 b3), 4%nat)
          end
        end
      end
    end
  end.

(** Does [p] begin with a whole rune (an invalid sequence counts as one)? *)
Definition full_rune (p : bytes) : bool :=
  match p with
  | [] => false
  | b0 :: p1 =>
    match accept b0 with
    | None => true
    | Some (sz, lo, hi) =>
      if (sz <=? length p)%nat then true else
      match p1 with
      | [] => false
      | b1 :: p2 =>
        if negb (within_b lo hi b1) then true else
        match p2 with
        | [] => false
        | b2 :: _ => negb (cont b2)
        end
      end
    end
  end.

(** [utf8.Valid]; every round drops at least one byte, so [length p] rounds do. *)
Fixpoint valid_loop (fuel : nat) (p : bytes) : bool :=
  match p with
  | [] => true
  | _ =>
    match fuel with
    | O => false
    | S fuel' =>
      let '(r, n) := decode_rune p in
      if (r =? RuneError) && (n =? 1)%nat then false else valid_loop fuel' (drop n p)
    end
  end.

Definition utf8_valid (p : bytes) : bool := valid_loop (length p) p.

(** ** Lemmas *)

(** Case analysis on every test of a decoder. *)
Ltac utf8_cases :=
  repeat match goal with
  | |- context [match ?p with [] => _ | _ :: _ => _ end] =>
    is_var p; destruct p; simpl length in *
  | |- context [if ?c then _ else _] => destruct c eqn:?
  | |- context [match accept ?b with _ => _ end] =>
    let E := fresh "Hacc" in destruct (accept b) as [[[??]?]|] eqn:E
  end.

Lemma accept_size b0 sz lo hi :
  accept b0 = Some (sz, lo, hi) -> (2 <= sz <= 4)%nat /\ 0x80 <= lo /\ hi <= 0xBF /\ 0xC2 <= b0 <= 0xF4.
Proof.
  unfold accept. intros H.
  repeat match type of H with
  | (if ?c then _ else _) = _ => destruct c eqn:?; [injection H as <- <- <-; unfold within_b in *; zbool; lia|]
  end; done.
Qed.

Lemma decode_rune_width p :
  p <> [] -> (1 <= (decode_rune p).2 <= 4)%nat /\ ((decode_rune p).2 <= length p)%nat.
Proof.
  intros Hp. destruct p as [|b0 p]; [done|]. unfold decode_rune.
  utf8_cases; simpl; try lia.
Qed.

(** A whole rune is read the same whatever follows it. *)
Lemma decode_rune_app p q :
  full_rune p = true -> decode_rune (p ++ q) = decode_rune p.
Proof.
  destruct p as [|b0 p]; [done|]. unfold full_rune, decode_rune. cbn [app].
  destruct (accept b0) as [[[sz lo] hi]|] eqn:Ha; [|done].
  destruct (accept_size _ _ _ _ Ha) as (Hsz & _).
  destruct (b0 <? 0x80) eqn:?; [done|]. intros Hf.
  destruct (sz <=? length (b0 :: p))%nat eqn:Hl.
  - apply Nat.leb_le in Hl. simpl in Hl.
    rewrite !(proj2 (Nat.ltb_ge _ _)) by (simpl; rewrite ?length_app; lia).
    destruct p as [|b1 p]; [simpl in Hl; lia|]. cbn [app].
    destruct (negb (within_b lo hi b1)); [done|].
    destruct (sz <=? 2)%nat eqn:H2; [done|]. apply Nat.leb_gt in H2.
    destruct p as [|b2 p]; [simpl in Hl; lia|]. cbn [app].
    destruct (negb (cont b2)); [done|].
    destruct (sz <=? 3)%nat eqn:H3; [done|]. apply Nat.leb_gt in H3.
    destruct p as [|b3 p]; [simpl in Hl; lia|]. done.
  - apply Nat.leb_gt in Hl. rewrite (proj2 (Nat.ltb_lt (length (b0 :: p)) _)) by lia.
    destruct p as [|b1 p]; [done|]. cbn [app].
    destruct (negb (within_b lo hi b1)); [by destruct (_ <? sz)%nat|].
    destruct p as [|b2 p]; [done|]. cbn [app].
    rewrite Hf. simpl in Hl. rewrite (proj2 (Nat.leb_gt sz 2)) by lia.
    by destruct (_ <? sz)%nat.
Qed.

Lemma full_rune_app p q : full_rune p = true -> full_rune (p ++ q) = true.
Proof.
  destruct p as [|b0 p]; [done|]. unfold full_rune. cbn [app].
  destruct (accept b0) as [[[sz lo] hi]|]; [|done].
  destruct (sz <=? length (b0 :: p))%nat eqn:Hl.
  - intros _. apply Nat.leb_le in Hl.
    rewrite (proj2 (Nat.leb_le sz (length (b0 :: p ++ q))));
      [done|simpl in *; rewrite length_app; lia].
  - intros Hf. destruct (sz <=? length (b0 :: p ++ q))%nat; [done|].
    destruct p as [|b1 p]; [done|]. cbn [app].
    destruct (negb (within_b lo hi b1)); [done|].
    by destruct p as [|b2 p].
Qed.

(** A partial rune is at most three bytes long. *)
Lemma partial_rune_short p : full_rune p = false -> (length p <= 3)%nat.
Proof.
  destruct p as [|b0 p]; [simpl; lia|]. unfold full_rune.
  destruct (accept b0) as [[[sz lo] hi]|] eqn:Ha; [|done].
  destruct (accept_size _ _ _ _ Ha) as (Hsz & _).
  destruct (sz <=? length (b0 :: p))%nat eqn:Hl; [done|]. apply Nat.leb_gt in Hl. intros _. lia.
Qed.

Lemma full_rune_head b0 p : 0 <= b0 < 0x80 -> full_rune (b0 :: p) = true.
Proof.
  intros Hb. unfold full_rune. destruct (accept b0) as [[[sz lo] hi]|] eqn:Ha; [|done].
  apply accept_size in Ha. lia.
Qed.

(** Valid text decodes rune by rune. *)
Lemma valid_loop_fuel f1 f2 p :
  (length p <= f1)%nat -> (length p <= f2)%nat -> valid_loop f1 p = valid_loop f2 p.
Proof.
  revert f2 p. induction f1 as [|f1 IH]; intros f2 p H1 H2.
  - destruct p; simpl in *; [by destruct f2|lia].
  - destruct p as [|b p]; [by destruct f2|]. destruct f2 as [|f2]; [simpl in *; lia|].
    cbn [valid_loop].
    pose proof (decode_rune_width (b :: p) ltac:(done)) as [Hw _].
    destruct (decode_rune (b :: p)) as [r n]. cbn [snd] in Hw.
    destruct (_ && _); [done|]. apply IH; rewrite length_drop; simpl in *; lia.
Qed.

(** ASCII is valid. *)
Lemma utf8_valid_ascii p : Forall (fun b => 0 <= b < 0x80) p -> utf8_valid p = true.
Proof.
  unfold utf8_valid. induction 1 as [|b p Hb _ IH]; [done|].
  cbn [length valid_loop]. unfold decode_rune.
  rewrite (proj2 (Z.ltb_lt _ _)) by lia. cbn [drop].
  replace (b =? RuneError) with false by (symmetry; apply Z.eqb_neq; unfold RuneError; lia).
  done.
Qed.
