(* ===== verification/Keys.v ===== *)
(** * Keys in byte order: what the code uses of sort.Strings

    The comparison of strings and an insertion sort; the order in which the keys are
    given does not show in the result. *)

From stdpp Require Import sorting.
From S2P Require Import Prelude.

Fixpoint bytes_leb (a b : bytes) : bool :=
  match a, b with
  | [], _ => true
  | _ :: _, [] => false
  | x :: a', y :: b' => if x <? y then true else if y <? x then false else bytes_leb a' b'
  end.

Fixpoint insert_key (k : bytes) (l : list bytes) : list bytes :=
  match l with
  | [] => [k]
  | x :: l' => if bytes_leb k x then k :: l else x :: insert_key k l'
  end.

Definition sort_keys (l : list bytes) : list bytes := foldr insert_key [] l.

#[export] Instance bytes_leb_rel_dec : RelDecision (fun a b => bytes_leb a b = true).
Proof. intros a b. apply _. Defined.

Lemma bytes_leb_trans a b c : bytes_leb a b = true -> bytes_leb b c = true -> bytes_leb a c = true.
Proof.
  revert b c. induction a as [|x a IH]; intros [|y b] [|z c]; cbn [bytes_leb]; try done.
  destruct (x <? y) eqn:?, (y <? z) eqn:?, (x <? z) eqn:?, (z <? x) eqn:?,
    (y <? x) eqn:?, (z <? y) eqn:?; zbool; try done; try lia. intros; eauto.
Qed.

Lemma bytes_leb_total a b : bytes_leb a b = true \/ bytes_leb b a = true.
Proof.
  revert b. induction a as [|x a IH]; intros [|y b]; cbn [bytes_leb]; auto.
  destruct (x <? y) eqn:?, (y <? x) eqn:?; zbool; auto; lia.
Qed.

Lemma bytes_leb_antisym a b : bytes_leb a b = true -> bytes_leb b a = true -> a = b.
Proof.
  revert b. induction a as [|x a IH]; intros [|y b]; cbn [bytes_leb]; try done.
  destruct (x <? y) eqn:?, (y <? x) eqn:?; zbool; try done; try lia.
  intros. assert (x = y) as -> by lia. f_equal. eauto.
Qed.

Abbreviation key_le := (fun a b => bytes_leb a b = true).

Lemma insert_key_perm k l : insert_key k l ≡ₚ k :: l.
Proof.
  induction l as [|x l IH]; [done|]. cbn [insert_key].
  destruct (bytes_leb k x); [done|]. rewrite IH. by constructor.
Qed.

Lemma insert_key_sorted k l : StronglySorted key_le l -> StronglySorted key_le (insert_key k l).
Proof.
  induction 1 as [|x l Hl IH Hx]; [by repeat constructor|]. cbn [insert_key].
  destruct (bytes_leb k x) eqn:Hk.
  - constructor; [by constructor|]. constructor; [done|].
    eapply Forall_impl; [exact Hx|]. intros y Hy. by apply bytes_leb_trans with x.
  - constructor; [done|]. rewrite insert_key_perm. constructor; [|done].
    by destruct (bytes_leb_total k x); [congruence|].
Qed.

Lemma sort_keys_perm l : sort_keys l ≡ₚ l.
Proof.
  induction l as [|k l IH]; [done|]. cbn [sort_keys foldr]. fold (sort_keys l).
  by rewrite insert_key_perm, IH.
Qed.

Lemma sort_keys_sorted l : StronglySorted key_le (sort_keys l).
Proof. induction l as [|k l IH]; [constructor|]. by apply insert_key_sorted. Qed.

(** Go's map iteration order does not show. *)
Lemma sort_keys_order l1 l2 : l1 ≡ₚ l2 -> sort_keys l1 = sort_keys l2.
Proof.
  intros Hp.
  assert (Transitive key_le) by (intros ???; apply bytes_leb_trans).
  assert (AntiSymm (=) key_le) by (intros ??; apply bytes_leb_antisym).
  apply (Sorted_unique key_le); [apply StronglySorted_Sorted, sort_keys_sorted..|].
  by rewrite !sort_keys_perm.
Qed.
