(* ===== verification/GoStrings.v ===== *)
(** * Strings and paths as Go's standard library treats them

    The functions of strings, unicode/utf8 and path/filepath (on Unix) that the
    allowlists depend on.  Strings are byte sequences; whitespace is Unicode's
    White_Space.  The Unicode case tables are the parameter [uni_lower] of the
    definitions that lower-case text. *)

From S2P Require Import Prelude Utf8.

(** ** strings *)

Definition slash : Z := 47.
Definition backslash : Z := 92.
Definition dot : Z := 46.
Definition colon : Z := 58.
Definition hyphen : Z := 45.

(** [strings.IndexByte(s, c) >= 0] *)
Definition contains_byte (c : Z) (s : bytes) : bool := existsb (fun b => b =? c) s.

Definition HasPrefix (s p : bytes) : bool := bool_decide (take (length p) s = p).
Definition HasSuffix (s p : bytes) : bool :=
  (length p <=? length s)%nat && bool_decide (drop (length s - length p) s = p).
Definition TrimPrefix (s p : bytes) : bytes := if HasPrefix s p then drop (length p) s else s.
Definition TrimSuffix (s p : bytes) : bytes :=
  if HasSuffix s p then take (length s - length p) s else s.

(** [strings.Split(s, sep)] for a one-byte separator: always at least one piece. *)
Fixpoint Split (sep : Z) (s : bytes) : list bytes :=
  match s with
  | [] => [[]]
  | c :: s' =>
    if c =? sep then [] :: Split sep s'
    else match Split sep s' with
         | p :: ps => (c :: p) :: ps
         | [] => [[c]]
         end
  end.

Fixpoint Join (sep : Z) (l : list bytes) : bytes :=
  match l with
  | [] => []
  | [p] => p
  | p :: l' => p ++ sep :: Join sep l'
  end.

(** [unicode.IsSpace] *)
Definition is_space (r : Z) : bool :=
  within_b 0x09 0x0D r || (r =? 0x20) || (r =? 0x85) || (r =? 0xA0) || (r =? 0x1680)
  || within_b 0x2000 0x200A r || (r =? 0x2028) || (r =? 0x2029) || (r =? 0x202F)
  || (r =? 0x205F) || (r =? 0x3000).

(** [utf8.DecodeLastRune]: the width of the last rune and the rune. *)
Definition rune_start (b : Z) : bool := negb (Z.land b 0xC0 =? 0x80).

(** The backward scan for a start byte: [start] bytes precede the candidate and
    at most [k] more positions may be tried. *)
Fixpoint last_start (p : bytes) (start : nat) (k : nat) : nat :=
  match k with
  | O => start
  | S k' =>
    match start with
    | O => O
    | S s' => if rune_start (nth s' p 0) then s' else last_start p s' k'
    end
  end.

Definition decode_last_rune (p : bytes) : Z * nat :=
  let e := length p in
  if (e =? 0)%nat then (RuneError, 0%nat) else
  let b := nth (e - 1) p 0 in
  if b <? 0x80 then (b, 1%nat) else
  let start := last_start p (e - 1) 3 in
  let '(r, n) := decode_rune (drop start p) in
  if (start + n =? e)%nat then (r, n) else (RuneError, 1%nat).

(** [strings.TrimSpace], leading and then trailing; each round drops at least
    one byte. *)
Fixpoint trim_left (fuel : nat) (s : bytes) : bytes :=
  match fuel, s with
  | S fuel', _ :: _ =>
    let '(r, n) := decode_rune s in
    if is_space r then trim_left fuel' (drop n s) else s
  | _, _ => s
  end.

Fixpoint trim_right (fuel : nat) (s : bytes) : bytes :=
  match fuel, s with
  | S fuel', _ :: _ =>
    let '(r, n) := decode_last_rune s in
    if is_space r then trim_right fuel' (take (length s - n) s) else s
  | _, _ => s
  end.

Definition TrimSpace (s : bytes) : bytes :=
  let s := trim_left (length s) s in trim_right (length s) s.

(** [utf8.AppendRune]; an invalid rune is encoded as [RuneError]. *)
Definition valid_rune (r : Z) : bool := within_b 0 0xD7FF r || within_b 0xE000 0x10FFFF r.

Definition encode_rune (r : Z) : bytes :=
  let r := if valid_rune r then r else RuneError in
  if r <=? 0x7F then [r]
  else if r <=? 0x7FF then [Z.lor 0xC0 (Z.shiftr r 6); Z.lor 0x80 (Z.land r 0x3F)]
  else if r <=? 0xFFFF
  then [Z.lor 0xE0 (Z.shiftr r 12); Z.lor 0x80 (Z.land (Z.shiftr r 6) 0x3F); Z.lor 0x80 (Z.land r 0x3F)]
  else [Z.lor 0xF0 (Z.shiftr r 18); Z.lor 0x80 (Z.land (Z.shiftr r 12) 0x3F);
        Z.lor 0x80 (Z.land (Z.shiftr r 6) 0x3F); Z.lor 0x80 (Z.land r 0x3F)].

(** [[]rune(s)], [for _, r := range s]: invalid bytes read as [RuneError]. *)
Fixpoint runes_loop (fuel : nat) (s : bytes) : list Z :=
  match fuel, s with
  | S fuel', _ :: _ => let '(r, n) := decode_rune s in r :: runes_loop fuel' (drop n s)
  | _, _ => []
  end.

Definition runes (s : bytes) : list Z := runes_loop (length s) s.

Definition is_ascii (s : bytes) : bool := forallb (fun b => b <? 0x80) s.
Definition ascii_lower (b : Z) : Z := if within_b 65 90 b then b + 32 else b.

Definition ToLower (uni_lower : Z -> Z) (s : bytes) : bytes :=
  if is_ascii s then map ascii_lower s
  else concat (map (fun r => encode_rune (uni_lower r)) (runes s)).

(** ** path/filepath on Unix *)

Definition IsAbs (p : bytes) : bool := HasPrefix p [slash].

(** One element of a path onto the stack of those before it (last first). *)
Definition clean_elem (rooted : bool) (stack : list bytes) (e : bytes) : list bytes :=
  if bool_decide (e = []) || bool_decide (e = [dot]) then stack
  else if bool_decide (e = [dot; dot]) then
    match stack with
    | top :: stack' => if bool_decide (top = [dot; dot]) then e :: stack else stack'
    | [] => if rooted then [] else [e]
    end
  else e :: stack.

Definition Clean (p : bytes) : bytes :=
  if bool_decide (p = []) then [dot] else
  let rooted := IsAbs p in
  let out := Join slash (rev (fold_left (clean_elem rooted) (Split slash p) [])) in
  if rooted then slash :: out else if bool_decide (out = []) then [dot] else out.

(** [filepath.Join(dir, name)] of two non-empty elements. *)
Definition JoinPath (dir name : bytes) : bytes := Clean (dir ++ slash :: name).

Fixpoint strip_trailing (fuel : nat) (p : bytes) : bytes :=
  match fuel with
  | O => p
  | S fuel' => if HasSuffix p [slash] then strip_trailing fuel' (take (length p - 1) p) else p
  end.

Definition Base (p : bytes) : bytes :=
  if bool_decide (p = []) then [dot] else
  let p := strip_trailing (length p) p in
  let p := List.last (Split slash p) [] in
  if bool_decide (p = []) then [slash] else p.

(** ** Examples, as in the packages' documentation *)

Example clean_1 : Clean (str "/usr//local/./bin/../sbin/") = str "/usr/local/sbin".
Proof. reflexivity. Qed.
Example clean_2 : Clean (str "../../a/..") = str "../..".
Proof. reflexivity. Qed.
Example clean_3 : Clean (str "/../x") = str "/x".
Proof. reflexivity. Qed.
Example base_1 : Base (str "/bin/sh//") = str "sh".
Proof. reflexivity. Qed.
Example trim_1 : TrimSpace ([0xC2; 0xA0; 9] ++ str "git" ++ [32; 0xE3; 0x80; 0x80]) = str "git".
Proof. reflexivity. Qed.

(** ** Lemmas *)

Lemma HasPrefix_spec s p : HasPrefix s p = true <-> exists t, s = p ++ t.
Proof.
  unfold HasPrefix. rewrite bool_decide_eq_true. split.
  - intros H. exists (drop (length p) s). rewrite <- H at 1. by rewrite take_drop.
  - intros [t ->]. apply take_app_length.
Qed.

Lemma HasSuffix_spec s p : HasSuffix s p = true <-> exists t, s = t ++ p.
Proof.
  unfold HasSuffix. rewrite andb_true_iff, Nat.leb_le, bool_decide_eq_true. split.
  - intros [Hl H]. exists (take (length s - length p) s). rewrite <- H at 2. by rewrite take_drop.
  - intros [t ->]. rewrite length_app. split; [lia|].
    replace (length t + length p - length p)%nat with (length t) by lia. apply drop_app_length.
Qed.

Lemma Split_nonempty sep s : Split sep s <> [].
Proof. destruct s as [|c s]; [done|]. cbn [Split]. destruct (c =? sep); [done|]. by destruct (Split sep s). Qed.

Lemma Split_no_sep sep s : Forall (fun p => ~ sep ∈ p) (Split sep s).
Proof.
  induction s as [|c s IH]; cbn [Split]; [constructor; [apply not_elem_of_nil|constructor]|].
  destruct (c =? sep) eqn:He; zbool; [constructor; [apply not_elem_of_nil|done]|].
  destruct (Split sep s) as [|p ps]; [by repeat constructor; set_solver|].
  apply Forall_cons in IH as [Hp Hps]. constructor; [set_solver|done].
Qed.

Lemma Join_Split sep s : Join sep (Split sep s) = s.
Proof.
  induction s as [|c s IH]; [done|]. cbn [Split]. destruct (c =? sep) eqn:He; zbool.
  - subst c. destruct (Split sep s) as [|p ps] eqn:E; [by apply Split_nonempty in E|].
    cbn [Join app] in *. by rewrite IH.
  - destruct (Split sep s) as [|p ps] eqn:E; [by apply Split_nonempty in E|].
    destruct ps; cbn [Join app] in *; by rewrite IH.
Qed.

Lemma ToLower_ascii u s : is_ascii s = true -> ToLower u s = map ascii_lower s.
Proof. intros H. unfold ToLower. by rewrite H. Qed.

Lemma contains_byte_spec c s : contains_byte c s = true <-> c ∈ s.
Proof.
  unfold contains_byte. rewrite existsb_exists. setoid_rewrite Z.eqb_eq.
  rewrite list_elem_of_In. split; [by intros (x & Hx & ->)|eauto].
Qed.

(** *** Cleaned absolute paths *)

(** The elements a rooted path keeps: never empty, ".", ".." or with a slash. *)
Definition plain_elem (e : bytes) : Prop :=
  e <> [] /\ e <> [dot] /\ e <> [dot; dot] /\ ~ slash ∈ e.

Lemma clean_elem_plain stack e :
  Forall plain_elem stack -> ~ slash ∈ e -> Forall plain_elem (clean_elem true stack e).
Proof.
  intros Hs He. unfold clean_elem.
  destruct (bool_decide (e = [])) eqn:H1; [done|]. destruct (bool_decide (e = [dot])) eqn:H2; [done|].
  destruct (bool_decide (e = [dot; dot])) eqn:H3; cbn [orb].
  - destruct stack as [|top stack]; [constructor|]. apply Forall_cons in Hs as [Ht Hs].
    rewrite bool_decide_eq_false_2 by apply Ht. done.
  - apply bool_decide_eq_false in H1, H2, H3. constructor; [done|done].
Qed.

(** A cleaned absolute path is [/] and its plain elements joined by slashes:
    no "." or "..", no empty element. *)
Lemma Clean_abs p :
  IsAbs p = true -> exists es, Clean p = slash :: Join slash es /\ Forall plain_elem es.
Proof.
  intros Ha. unfold Clean. destruct (bool_decide (p = [])) eqn:Hp.
  { apply bool_decide_eq_true in Hp. subst. done. }
  rewrite Ha. eexists. split; [done|]. apply Forall_rev.
  assert (Hgen : forall l stack, Forall (fun e => ~ slash ∈ e) l -> Forall plain_elem stack ->
            Forall plain_elem (fold_left (clean_elem true) l stack)).
  { induction l as [|e l IH]; intros stack Hl Hs; [done|]. apply Forall_cons in Hl as [He Hl].
    cbn [fold_left]. apply IH; [done|]. by apply clean_elem_plain. }
  apply Hgen; [apply Split_no_sep|constructor].
Qed.

(** ** Encoding a rune and decoding it *)

Lemma lor_high k a b : 0 <= k -> 0 <= b < 2 ^ k -> Z.lor (a * 2 ^ k) b = a * 2 ^ k + b.
Proof.
  intros Hk Hb. symmetry. rewrite <- Z.lxor_lor, <- Z.add_nocarry_lxor; [done| |].
  all: apply Z.bits_inj'; intros i Hi; rewrite Z.land_spec, Z.bits_0; destruct (Z.lt_ge_cases i k).
  all: rewrite ?(Z.mul_pow2_bits_low a k i) by lia; try done.
  all: replace (Z.testbit b i) with false; [by rewrite andb_false_r|].
  all: destruct (Z.eq_dec b 0) as [->|Hne]; [by rewrite Z.bits_0|].
  all: symmetry; apply Z.bits_above_log2; [lia|]; apply Z.log2_lt_pow2; [lia|].
  all: apply (Z.lt_le_trans _ (2 ^ k)); [lia|]; apply Z.pow_le_mono_r; lia.
Qed.

Lemma land_low k a : 0 <= k -> Z.land a (Z.ones k) = a mod 2 ^ k.
Proof. apply Z.land_ones. Qed.

(** The bytes of a rune in terms of its digits in base 64. *)
Lemma encode_rune_2 a b :
  2 <= a < 32 -> 0 <= b < 64 -> encode_rune (a * 64 + b) = [0xC0 + a; 0x80 + b].
Proof.
  intros Ha Hb. unfold encode_rune. set (r := a * 64 + b). assert (Hr : r = a * 64 + b) by reflexivity.
  assert (Hv : valid_rune r = true).
  { unfold valid_rune, within_b. rewrite !(proj2 (Z.leb_le _ _)) by lia. done. }
  rewrite Hv, (proj2 (Z.leb_gt _ 0x7F)), (proj2 (Z.leb_le _ 0x7FF)) by lia.
  change 0x3F with (Z.ones 6). rewrite land_low, Z.shiftr_div_pow2 by lia.
  replace (r / 2 ^ 6) with a by (apply Z.div_unique with b; lia).
  replace (r mod 2 ^ 6) with b by (apply Z.mod_unique with a; lia).
  change 0xC0 with (6 * 2 ^ 5). change 0x80 with (2 * 2 ^ 6). by rewrite !lor_high by lia.
Qed.

Lemma encode_rune_3 a b c :
  0 <= a < 16 -> 0 <= b < 64 -> 0 <= c < 64 ->
  0x800 <= (a * 64 + b) * 64 + c -> valid_rune ((a * 64 + b) * 64 + c) = true ->
  encode_rune ((a * 64 + b) * 64 + c) = [0xE0 + a; 0x80 + b; 0x80 + c].
Proof.
  intros Ha Hb Hc Hr Hv. unfold encode_rune. rewrite Hv.
  set (r := (a * 64 + b) * 64 + c) in *. assert (Er : r = (a * 64 + b) * 64 + c) by reflexivity.
  rewrite (proj2 (Z.leb_gt _ 0x7F)), (proj2 (Z.leb_gt _ 0x7FF)), (proj2 (Z.leb_le _ 0xFFFF)) by lia.
  change 0x3F with (Z.ones 6). rewrite !land_low, !Z.shiftr_div_pow2 by lia.
  replace (r / 2 ^ 12) with a by (apply Z.div_unique with (b * 64 + c); lia).
  replace (r / 2 ^ 6) with (a * 64 + b) by (apply Z.div_unique with c; lia).
  replace ((a * 64 + b) mod 2 ^ 6) with b by (apply Z.mod_unique with a; lia).
  replace (r mod 2 ^ 6) with c by (apply Z.mod_unique with (a * 64 + b); lia).
  change 0xE0 with (14 * 2 ^ 4). change 0x80 with (2 * 2 ^ 6). by rewrite !lor_high by lia.
Qed.

Lemma encode_rune_4 a b c d :
  0 <= a < 8 -> 0 <= b < 64 -> 0 <= c < 64 -> 0 <= d < 64 ->
  0x10000 <= ((a * 64 + b) * 64 + c) * 64 + d <= 0x10FFFF ->
  encode_rune (((a * 64 + b) * 64 + c) * 64 + d) = [0xF0 + a; 0x80 + b; 0x80 + c; 0x80 + d].
Proof.
  intros Ha Hb Hc Hd Hr. unfold encode_rune.
  set (r := ((a * 64 + b) * 64 + c) * 64 + d) in *. assert (Er : r = ((a * 64 + b) * 64 + c) * 64 + d) by reflexivity.
  assert (Hv : valid_rune r = true).
  { unfold valid_rune, within_b. rewrite orb_true_iff, !andb_true_iff, !Z.leb_le. lia. }
  rewrite Hv, (proj2 (Z.leb_gt _ 0x7F)), (proj2 (Z.leb_gt _ 0x7FF)), (proj2 (Z.leb_gt _ 0xFFFF)) by lia.
  change 0x3F with (Z.ones 6). rewrite !land_low, !Z.shiftr_div_pow2 by lia.
  replace (r / 2 ^ 18) with a by (apply Z.div_unique with ((b * 64 + c) * 64 + d); lia).
  replace (r / 2 ^ 12) with (a * 64 + b) by (apply Z.div_unique with (c * 64 + d); lia).
  replace (r / 2 ^ 6) with ((a * 64 + b) * 64 + c) by (apply Z.div_unique with d; lia).
  replace ((a * 64 + b) mod 2 ^ 6) with b by (apply Z.mod_unique with a; lia).
  replace (((a * 64 + b) * 64 + c) mod 2 ^ 6) with c by (apply Z.mod_unique with (a * 64 + b); lia).
  replace (r mod 2 ^ 6) with d by (apply Z.mod_unique with ((a * 64 + b) * 64 + c); lia).
  change 0xF0 with (30 * 2 ^ 3). change 0x80 with (2 * 2 ^ 6). by rewrite !lor_high by lia.
Qed.

Lemma within_b_true lo hi b : lo <= b <= hi -> within_b lo hi b = true.
Proof. intros. unfold within_b. by rewrite !(proj2 (Z.leb_le _ _)) by lia. Qed.

Lemma within_b_false lo hi b : b < lo \/ hi < b -> within_b lo hi b = false.
Proof. intros. unfold within_b. apply andb_false_iff. rewrite !Z.leb_gt. lia. Qed.

(** Walk the tests of [accept] for a lead byte in a known range. *)
Ltac accept_tac :=
  unfold accept;
  repeat match goal with
  | |- context [if within_b ?lo ?hi ?b then _ else _] =>
    first [rewrite (within_b_true lo hi b) by lia | rewrite (within_b_false lo hi b) by lia]
  | |- context [if ?x =? ?y then _ else _] =>
    first [rewrite (proj2 (Z.eqb_eq x y)) by lia | rewrite (proj2 (Z.eqb_neq x y)) by lia]
  end; try reflexivity.

Lemma low6_digit b : 0 <= b < 64 -> low6 (0x80 + b) = b.
Proof.
  intros. unfold low6. change 0x3F with (Z.ones 6). rewrite land_low by lia.
  symmetry. apply Z.mod_unique with 2; lia.
Qed.

Lemma cont_digit b : 0 <= b < 64 -> cont (0x80 + b) = true.
Proof. intros. apply within_b_true. lia. Qed.

Lemma decode_2 a b :
  2 <= a < 32 -> 0 <= b < 64 -> decode_rune [0xC0 + a; 0x80 + b] = (a * 64 + b, 2%nat).
Proof.
  intros Ha Hb. unfold decode_rune. rewrite (proj2 (Z.ltb_ge _ _)) by lia.
  assert (accept (0xC0 + a) = Some (2%nat, 0x80, 0xBF)) as -> by accept_tac.
  cbn [length Nat.ltb Nat.leb]. rewrite within_b_true by lia. cbn [negb].
  rewrite low6_digit by done. change 0x1F with (Z.ones 5). rewrite land_low by lia.
  replace ((0xC0 + a) mod 2 ^ 5) with a by (apply Z.mod_unique with 6; lia).
  rewrite Z.shiftl_mul_pow2, lor_high by lia. done.
Qed.

Lemma decode_3 a b c :
  0 <= a < 16 -> 0 <= b < 64 -> 0 <= c < 64 ->
  0x800 <= (a * 64 + b) * 64 + c -> valid_rune ((a * 64 + b) * 64 + c) = true ->
  decode_rune [0xE0 + a; 0x80 + b; 0x80 + c] = ((a * 64 + b) * 64 + c, 3%nat).
Proof.
  intros Ha Hb Hc Hr Hv. unfold decode_rune. rewrite (proj2 (Z.ltb_ge _ _)) by lia.
  assert (exists lo hi, accept (0xE0 + a) = Some (3%nat, lo, hi) /\ lo <= 0x80 + b <= hi) as (lo & hi & -> & Hlo).
  { unfold valid_rune, within_b in Hv. rewrite orb_true_iff, !andb_true_iff, !Z.leb_le in Hv.
    destruct (Z.eq_dec a 0) as [->|]; [exists 0xA0, 0xBF; split; [accept_tac|lia]|].
    destruct (Z.eq_dec a 13) as [->|]; [exists 0x80, 0x9F; split; [accept_tac|lia]|].
    destruct (Z.lt_ge_cases a 13); exists 0x80, 0xBF; (split; [accept_tac|lia]). }
  cbn [length Nat.ltb Nat.leb]. rewrite within_b_true by lia. cbn [negb].
  rewrite cont_digit by done. cbn [negb].
  rewrite !low6_digit by done. change 0x0F with (Z.ones 4). rewrite land_low by lia.
  replace ((0xE0 + a) mod 2 ^ 4) with a by (apply Z.mod_unique with 14; lia).
  rewrite !Z.shiftl_mul_pow2 by lia.
  rewrite (lor_high 12) by lia.
  replace (a * 2 ^ 12 + b * 2 ^ 6) with ((a * 64 + b) * 2 ^ 6) by lia. rewrite lor_high by lia. done.
Qed.

Lemma decode_4 a b c d :
  0 <= a < 8 -> 0 <= b < 64 -> 0 <= c < 64 -> 0 <= d < 64 ->
  0x10000 <= ((a * 64 + b) * 64 + c) * 64 + d <= 0x10FFFF ->
  decode_rune [0xF0 + a; 0x80 + b; 0x80 + c; 0x80 + d] = (((a * 64 + b) * 64 + c) * 64 + d, 4%nat).
Proof.
  intros Ha Hb Hc Hd Hr. unfold decode_rune. rewrite (proj2 (Z.ltb_ge _ _)) by lia.
  assert (exists lo hi, accept (0xF0 + a) = Some (4%nat, lo, hi) /\ lo <= 0x80 + b <= hi) as (lo & hi & -> & Hlo).
  { destruct (Z.eq_dec a 0) as [->|]; [exists 0x90, 0xBF; split; [accept_tac|lia]|].
    destruct (Z.eq_dec a 4) as [->|]; [exists 0x80, 0x8F; split; [accept_tac|lia]|].
    exists 0x80, 0xBF; split; [accept_tac|lia]. }
  cbn [length Nat.ltb Nat.leb]. rewrite within_b_true by lia. cbn [negb].
  rewrite !cont_digit by done. cbn [negb].
  rewrite !low6_digit by done. change 0x07 with (Z.ones 3). rewrite land_low by lia.
  replace ((0xF0 + a) mod 2 ^ 3) with a by (apply Z.mod_unique with 30; lia).
  rewrite !Z.shiftl_mul_pow2 by lia. rewrite (lor_high 18) by lia.
  replace (a * 2 ^ 18 + b * 2 ^ 12) with ((a * 64 + b) * 2 ^ 12) by lia. rewrite (lor_high 12) by lia.
  replace ((a * 64 + b) * 2 ^ 12 + c * 2 ^ 6) with (((a * 64 + b) * 64 + c) * 2 ^ 6) by lia.
  rewrite lor_high by lia. done.
Qed.

(** [utf8.DecodeRune] undoes [utf8.AppendRune]. *)
Lemma decode_encode_rune r :
  valid_rune r = true -> decode_rune (encode_rune r) = (r, length (encode_rune r)) /\ encode_rune r <> [].
Proof.
  intros Hv. assert (Hr : 0 <= r <= 0x10FFFF).
  { unfold valid_rune, within_b in Hv. rewrite orb_true_iff, !andb_true_iff, !Z.leb_le in Hv. lia. }
  assert (Hd : forall x, x = (x / 64) * 64 + x mod 64 /\ 0 <= x mod 64 < 64).
  { intros x. pose proof (Z.div_mod x 64 ltac:(lia)). pose proof (Z.mod_pos_bound x 64 ltac:(lia)). lia. }
  destruct (Hd r) as [E1 B1]. destruct (Hd (r / 64)) as [E2 B2]. destruct (Hd (r / 64 / 64)) as [E3 B3].
  destruct (Z.le_gt_cases r 0x7F).
  { unfold encode_rune. rewrite Hv, (proj2 (Z.leb_le _ _)) by lia. unfold decode_rune.
    by rewrite (proj2 (Z.ltb_lt _ _)) by lia. }
  destruct (Z.le_gt_cases r 0x7FF).
  { rewrite E1, encode_rune_2 by lia. split; [|done]. rewrite decode_2 by lia. done. }
  destruct (Z.le_gt_cases r 0xFFFF).
  { rewrite E1, E2 in Hv |- *. rewrite encode_rune_3 by (done || lia). split; [|done].
    rewrite decode_3 by (done || lia). done. }
  rewrite E1, E2, E3. rewrite encode_rune_4 by lia. split; [|done]. rewrite decode_4 by lia. done.
Qed.

(** What comes before the end of a rune is not a whole rune. *)
Lemma prefix_not_full p q r :
  decode_rune (p ++ q) = (r, length (p ++ q)) -> q <> [] -> full_rune p = false.
Proof.
  intros Hd Hq. destruct (full_rune p) eqn:Hf; [|done]. exfalso.
  rewrite decode_rune_app in Hd by done.
  assert (Hp : p <> []) by (intros ->; done).
  destruct (decode_rune_width p Hp) as [_ Hl]. rewrite Hd in Hl. cbn in Hl. rewrite length_app in Hl.
  destruct q; [done|]. simpl in Hl. lia.
Qed.

Lemma encode_rune_head r c q :
  valid_rune r = true -> 0x80 <= r -> encode_rune r = c :: q -> q <> [] /\ 0x80 <= c.
Proof.
  intros Hv Hr He. destruct (decode_encode_rune r Hv) as [Hd _]. rewrite He in Hd.
  assert (Hc : 0x80 <= c).
  { unfold decode_rune in Hd. destruct (c <? 0x80) eqn:Hlt; zbool; [|done]. injection Hd as <- _. lia. }
  split; [|done]. intros ->.
  assert (r = RuneError) as ->; [|by vm_compute in He].
  unfold decode_rune in Hd. rewrite (proj2 (Z.ltb_ge _ _)) in Hd by lia.
  destruct (accept c) as [[[sz lo] hi]|]; [|by injection Hd].
  destruct (_ <? _)%nat; by injection Hd.
Qed.
