(* ===== verification/Json.v ===== *)
(** * encoding/json and encoding/base64, as the pairing protocol uses them

    [json.Marshal] of structs of strings, byte slices (in base64) and lists of strings, and
    [json.Decoder.Decode] with [DisallowUnknownFields]: the first value of the input, read
    into a struct field by field. Byte slices have no [nil] here. Reading what has been
    written gives it back. *)

From stdpp Require Import list.
From S2P Require Import Prelude Utf8 GoStrings.

Module json.

(** ** Values *)

Inductive value :=
| JNull
| JBool (b : bool)
| JNum (literal : bytes)
| JStr (s : bytes)
| JArr (l : list value)
| JObj (l : list (bytes * value)).

(** ** Strings *)

Definition hex_digit (n : Z) : Z := if n <? 10 then 48 + n else 87 + n.
Definition u_escape (r : Z) : bytes :=
  [92; 117; hex_digit (r / 4096 mod 16); hex_digit (r / 256 mod 16); hex_digit (r / 16 mod 16); hex_digit (r mod 16)].

(** A byte below 0x80; the escapes of HTML are on. *)
Definition escape_ascii (c : Z) : bytes :=
  if (c =? 92) || (c =? 34) then [92; c] else
  if c =? 8 then str "\b" else if c =? 12 then str "\f" else if c =? 10 then str "\n" else if c =? 13 then str "\r" else if c =? 9 then str "\t" else
  if (c <? 32) || (c =? 60) || (c =? 62) || (c =? 38) then u_escape c else [c].
(** One rune, of the [n] bytes at the head of [p]. *)
Definition escape_rune (r : Z) (n : nat) (p : bytes) : bytes :=
  if (r =? RuneError) && (n =? 1)%nat then str "\ufffd" else
  if (r =? 0x2028) || (r =? 0x2029) then u_escape r else take n p.
Fixpoint escape (fuel : nat) (s : bytes) : bytes :=
  match fuel, s with
  | S fuel, c :: s' =>
    if c <? 0x80 then escape_ascii c ++ escape fuel s' else
    let '(r, n) := decode_rune s in escape_rune r n s ++ escape fuel (drop n s)
  | _, _ => []
  end.
Definition quote (s : bytes) : bytes := [34] ++ escape (length s) s ++ [34].

Definition hex_value (c : Z) : option Z :=
  if within_b 48 57 c then Some (c - 48) else
  if within_b 97 102 c then Some (c - 87) else
  if within_b 65 70 c then Some (c - 55) else None.
(** [getu4], after the backslash and the u. *)
Definition u4 (p : bytes) : option (Z * bytes) :=
  match p with
  | a :: b :: c :: d :: p =>
    match hex_value a, hex_value b, hex_value c, hex_value d with
    | Some a, Some b, Some c, Some d => Some (((a * 16 + b) * 16 + c) * 16 + d, p)
    | _, _, _, _ => None
    end
  | _ => None
  end.
Definition surrogate (r : Z) : bool := within_b 0xD800 0xDFFF r.
(** The second half of a surrogate pair, when there is one. *)
Definition low_half (hi : Z) (p : bytes) : option (Z * bytes) :=
  match p with
  | 92 :: 117 :: p' =>
    match u4 p' with
    | Some (lo, p'') => if within_b 0xD800 0xDBFF hi && within_b 0xDC00 0xDFFF lo
                        then Some ((hi - 0xD800) * 1024 + (lo - 0xDC00) + 0x10000, p'') else None
    | None => None
    end
  | _ => None
  end.
Definition unescape (c : Z) : option Z :=
  if (c =? 34) || (c =? 92) || (c =? 47) then Some c else
  if c =? 98 then Some 8 else if c =? 102 then Some 12 else if c =? 110 then Some 10 else if c =? 114 then Some 13 else
  if c =? 116 then Some 9 else None.

(** The string whose opening quote has been read. *)
Fixpoint unquote (fuel : nat) (p : bytes) : option (bytes * bytes) :=
  match fuel with
  | O => None
  | S fuel =>
    let more out q := match unquote fuel q with Some (s, rest) => Some (out ++ s, rest) | None => None end in
    match p with
    | [] => None
    | c :: q =>
      if c =? 34 then Some ([], q) else
      if c <? 32 then None else
      if c =? 92 then
        match q with
        | [] => None
        | e :: q =>
          if e =? 117 then
            match u4 q with
            | None => None
            | Some (r, q) =>
              if surrogate r
              then match low_half r q with Some (r, q) => more (encode_rune r) q | None => more (encode_rune RuneError) q end
              else more (encode_rune r) q
            end
          else match unescape e with Some b => more [b] q | None => None end
        end
      else
      if c <? 0x80 then more [c] q else
      let '(r, n) := decode_rune p in
      if (r =? RuneError) && (n =? 1)%nat then more (encode_rune RuneError) q else more (take n p) (drop n p)
    end
  end.

(** ** Base64 (StdEncoding) *)

Definition b64_char (n : Z) : Z :=
  if n <? 26 then 65 + n else if n <? 52 then 71 + n else if n <? 62 then n - 4 else if n =? 62 then 43 else 47.
Definition b64_value (c : Z) : option Z :=
  if within_b 65 90 c then Some (c - 65) else if within_b 97 122 c then Some (c - 71) else
  if within_b 48 57 c then Some (c + 4) else if c =? 43 then Some 62 else if c =? 47 then Some 63 else None.
Fixpoint b64_encode (b : bytes) : bytes :=
  match b with
  | x :: y :: z :: b =>
    b64_char (x / 4) :: b64_char (x mod 4 * 16 + y / 16) :: b64_char (y mod 16 * 4 + z / 64) :: b64_char (z mod 64) :: b64_encode b
  | [x; y] => [b64_char (x / 4); b64_char (x mod 4 * 16 + y / 16); b64_char (y mod 16 * 4); 61]
  | [x] => [b64_char (x / 4); b64_char (x mod 4 * 16); 61; 61]
  | [] => []
  end.
(** Groups of four; padding only ends the last one. *)
Fixpoint b64_groups (p : bytes) : option bytes :=
  match p with
  | [] => Some []
  | a :: b :: c :: d :: p =>
    match b64_value a, b64_value b with
    | Some x, Some y =>
      let o1 := x * 4 + y / 16 in
      if c =? 61 then (if (d =? 61) && bool_decide (p = []) then Some [o1] else None) else
      match b64_value c with
      | None => None
      | Some z =>
        let o2 := y mod 16 * 16 + z / 4 in
        if d =? 61 then (if bool_decide (p = []) then Some [o1; o2] else None) else
        match b64_value d, b64_groups p with
        | Some w, Some out => Some (o1 :: o2 :: z mod 4 * 64 + w :: out)
        | _, _ => None
        end
      end
    | _, _ => None
    end
  | _ => None
  end.
(** Line ends are skipped. *)
Definition b64_decode (p : bytes) : option bytes := b64_groups (List.filter (fun c => negb ((c =? 10) || (c =? 13))) p).

(** ** Writing *)

(** [json.Marshal], without white space. *)
Fixpoint print (j : value) : bytes :=
  match j with
  | JNull => str "null"
  | JBool b => if b then str "true" else str "false"
  | JNum lit => lit
  | JStr s => quote s
  | JArr l =>
    [91] ++ (fix elements (l : list value) : bytes :=
               match l with
               | [] => []
               | [x] => print x
               | x :: l => print x ++ [44] ++ elements l
               end) l ++ [93]
  | JObj l =>
    [123] ++ (fix members (l : list (bytes * value)) : bytes :=
                match l with
                | [] => []
                | [(k, x)] => quote k ++ [58] ++ print x
                | (k, x) :: l => quote k ++ [58] ++ print x ++ [44] ++ members l
                end) l ++ [125]
  end.

(** ** Reading *)

Fixpoint skip_ws (p : bytes) : bytes :=
  match p with
  | c :: q => if (c =? 32) || (c =? 9) || (c =? 13) || (c =? 10) then skip_ws q else p
  | [] => []
  end.
Fixpoint digits (p : bytes) : bytes * bytes :=
  match p with
  | c :: q => if within_b 48 57 c then let '(d, r) := digits q in (c :: d, r) else ([], p)
  | [] => ([], [])
  end.
(** The grammar of numbers. *)
Definition number (p : bytes) : option (value * bytes) :=
  let '(sign, p) := match p with 45 :: q => ([45], q) | _ => ([], p) end in
  let whole := match p with 48 :: q => Some ([48], q) | _ => match digits p with ([], _) => None | w => Some w end end in
  match whole with
  | None => None
  | Some (w, p) =>
    let frac := match p with
                | 46 :: q => match digits q with ([], _) => None | (d, q) => Some (46 :: d, q) end
                | _ => Some ([], p)
                end in
    match frac with
    | None => None
    | Some (f, p) =>
      let exp := match p with
                 | e :: q =>
                   if (e =? 101) || (e =? 69) then
                     let '(s, q) := match q with c :: q' => if (c =? 43) || (c =? 45) then ([c], q') else ([], q) | [] => ([], q) end in
                     match digits q with ([], _) => None | (d, q) => Some (e :: s ++ d, q) end
                   else Some ([], p)
                 | [] => Some ([], p)
                 end in
      match exp with None => None | Some (x, p) => Some (JNum (sign ++ w ++ f ++ x), p) end
    end
  end.
Definition literal (word : bytes) (p : bytes) : option bytes :=
  if bool_decide (take (length word) p = word) then Some (drop (length word) p) else None.
(** Objects and lists are nested to at most this depth. *)
Definition maxNestingDepth : Z := 10000.

(** A value, the elements of a list after its bracket, the members of an object after its
    brace; each round reads at least one byte. *)
Fixpoint parse_value (fuel : nat) (depth : Z) (p : bytes) : option (value * bytes) :=
  match fuel with
  | O => None
  | S fuel =>
    match skip_ws p with
    | [] => None
    | c :: q =>
      if c =? 123 then
        if maxNestingDepth <=? depth then None else
        match skip_ws q with
        | 125 :: q => Some (JObj [], q)
        | _ => match parse_members fuel (depth + 1) q with Some (l, q) => Some (JObj l, q) | None => None end
        end
      else if c =? 91 then
        if maxNestingDepth <=? depth then None else
        match skip_ws q with
        | 93 :: q => Some (JArr [], q)
        | _ => match parse_elements fuel (depth + 1) q with Some (l, q) => Some (JArr l, q) | None => None end
        end
      else if c =? 34 then match unquote (S (length q)) q with Some (s, q) => Some (JStr s, q) | None => None end
      else if c =? 116 then match literal (str "true") (c :: q) with Some q => Some (JBool true, q) | None => None end
      else if c =? 102 then match literal (str "false") (c :: q) with Some q => Some (JBool false, q) | None => None end
      else if c =? 110 then match literal (str "null") (c :: q) with Some q => Some (JNull, q) | None => None end
      else number (c :: q)
    end
  end
with parse_elements (fuel : nat) (depth : Z) (p : bytes) : option (list value * bytes) :=
  match fuel with
  | O => None
  | S fuel =>
    match parse_value fuel depth p with
    | None => None
    | Some (x, p) =>
      match skip_ws p with
      | 93 :: q => Some ([x], q)
      | 44 :: q => match parse_elements fuel depth q with Some (l, q) => Some (x :: l, q) | None => None end
      | _ => None
      end
    end
  end
with parse_members (fuel : nat) (depth : Z) (p : bytes) : option (list (bytes * value) * bytes) :=
  match fuel with
  | O => None
  | S fuel =>
    match skip_ws p with
    | 34 :: p =>
      match unquote (S (length p)) p with
      | None => None
      | Some (k, p) =>
        match skip_ws p with
        | 58 :: p =>
          match parse_value fuel depth p with
          | None => None
          | Some (x, p) =>
            match skip_ws p with
            | 125 :: q => Some ([(k, x)], q)
            | 44 :: q => match parse_members fuel depth q with Some (l, q) => Some ((k, x) :: l, q) | None => None end
            | _ => None
            end
          end
        | _ => None
        end
      end
    | _ => None
    end
  end.
(** The first value of a stream; what follows it is not read. *)
Definition first_value (p : bytes) : option value :=
  match parse_value (S (length p)) 0 p with Some (j, _) => Some j | None => None end.

(** ** Structs

    A field is set from a value; [null] leaves a string or a struct as it is. *)
Definition setter (A : Type) : Type := A -> value -> option A.

Definition set_string : setter bytes := fun old j =>
  match j with JStr s => Some s | JNull => Some old | _ => None end.
Definition number_u8 (lit : bytes) : option Z :=
  match digits lit with
  | (_ :: _ as d, []) => let n := fold_left (fun a c => a * 10 + (c - 48)) d 0 in if n <? 256 then Some n else None
  | _ => None
  end.
(** In base64, or as a list of numbers; a [null] in such a list reads as 0. *)
Definition set_bytes : setter bytes := fun _ j =>
  match j with
  | JStr s => b64_decode s
  | JNull => Some []
  | JArr l => mapM (fun x => match x with JNum lit => number_u8 lit | JNull => Some 0 | _ => None end) l
  | _ => None
  end.
Definition set_strings : setter (list bytes) := fun _ j =>
  match j with
  | JNull => Some []
  | JArr l => mapM (set_string []) l
  | _ => None
  end.

(** Two names that differ in case only; the long s and the Kelvin sign fold into ASCII. *)
Definition fold_rune (r : Z) : Z :=
  if within_b 65 90 r then r + 32 else if r =? 0x17F then 115 else if r =? 0x212A then 107 else r.
Definition fold_name (s : bytes) : list Z := map fold_rune (runes s).

Definition field (A : Type) : Type := bytes * setter A.
Definition find_field {A} (fields : list (field A)) (name : bytes) : option (setter A) :=
  match List.find (fun f => bool_decide (f.1 = name)) fields with
  | Some f => Some f.2
  | None => snd <$> List.find (fun f => bool_decide (fold_name f.1 = fold_name name)) fields
  end.
Fixpoint set_members {A} (fields : list (field A)) (a : A) (l : list (bytes * value)) : option A :=
  match l with
  | [] => Some a
  | (name, j) :: l =>
    match find_field fields name with
    | None => None
    | Some set => match set a j with Some a => set_members fields a l | None => None end
    end
  end.
Definition set_struct {A} (fields : list (field A)) : setter A := fun a j =>
  match j with
  | JObj l => set_members fields a l
  | JNull => Some a
  | _ => None
  end.

(** A field left out when it is empty. *)
Definition omitempty (name : bytes) (b : bytes) (j : value) : list (bytes * value) :=
  match b with [] => [] | _ => [(name, j)] end.
Definition JBytes (b : bytes) : value := JStr (b64_encode b).

(** ** Strings are read back *)

(** The UTF-8 encoding of a list of runes. *)
Definition text (s : bytes) : Prop := exists rs, Forall (fun r => valid_rune r = true) rs /\ s = concat (map encode_rune rs).

Lemma text_nil : text [].
Proof. by exists []. Qed.
Lemma text_app a b : text a -> text b -> text (a ++ b).
Proof. intros (ra & Ha & ->) (rb & Hb & ->). exists (ra ++ rb). split; [by apply Forall_app_2|]. by rewrite map_app, concat_app. Qed.
Lemma text_ascii s : Forall (fun c => 0 <= c < 0x80) s -> text s.
Proof.
  intros Hs. exists s. split.
  - eapply Forall_impl; [exact Hs|]. intros c Hc. cbv beta in Hc. unfold valid_rune. by rewrite within_b_true by lia.
  - induction Hs as [|c s Hc Hs IH]; [done|]. cbn. rewrite <- IH. unfold encode_rune, valid_rune. rewrite within_b_true by lia. cbn [orb].
    by rewrite (proj2 (Z.leb_le _ _)) by lia.
Qed.

Lemma decode_encoded r q : valid_rune r = true -> decode_rune (encode_rune r ++ q) = (r, length (encode_rune r)).
Proof.
  intros Hr. destruct (decode_encode_rune r Hr) as [Hd Hne]. rewrite decode_rune_app; [done|].
  destruct (encode_rune r) as [|c p] eqn:E; [done|]. unfold full_rune. destruct (accept c) as [[[sz lo] hi]|] eqn:Ha; [|done].
  unfold decode_rune in Hd. destruct (accept_size _ _ _ _ Ha) as (? & ? & ? & ?). rewrite (proj2 (Z.ltb_ge c 0x80)), Ha in Hd by lia.
  destruct (length (c :: p) <? sz)%nat eqn:Hl; [|apply Nat.ltb_ge in Hl; by rewrite (proj2 (Nat.leb_le _ _) Hl)].
  injection Hd as Hr' Hlen. destruct p; [|done]. subst r. vm_compute in E. discriminate.
Qed.

Lemma json_rune_ascii r : valid_rune r = true -> r < 0x80 -> encode_rune r = [r] /\ 0 <= r.
Proof.
  intros Hv Hr. unfold encode_rune. rewrite Hv, (proj2 (Z.leb_le _ _)) by lia. split; [done|].
  unfold valid_rune, within_b in Hv. rewrite orb_true_iff, !andb_true_iff, !Z.leb_le in Hv. lia.
Qed.

(** Reading one escaped byte or rune takes one round. *)
Lemma unquote_ascii c f p : 0 <= c < 0x80 ->
  unquote (S f) (escape_ascii c ++ p) = match unquote f p with Some (s, rest) => Some (c :: s, rest) | None => None end.
Proof.
  intros Hc. assert (Hin : exists n, (n < 128)%nat /\ c = Z.of_nat n) by (exists (Z.to_nat c); lia). destruct Hin as (n & Hn & ->).
  do 128 (destruct n as [|n]; [reflexivity|]). lia.
Qed.
Lemma unquote_rune r f p : valid_rune r = true -> 0x80 <= r ->
  unquote (S f) (escape_rune r (length (encode_rune r)) (encode_rune r ++ p) ++ p) =
  match unquote f p with Some (s, rest) => Some (encode_rune r ++ s, rest) | None => None end.
Proof.
  intros Hv Hr. destruct (encode_rune r) as [|c q] eqn:E; [by destruct (decode_encode_rune r Hv)|].
  destruct (encode_rune_head r c q Hv Hr E) as [Hq Hc].
  assert (Hn : (length (c :: q) =? 1)%nat = false) by (destruct q; [done|done]).
  unfold escape_rune. rewrite Hn, andb_false_r, take_app_length. destruct ((r =? 0x2028) || (r =? 0x2029)) eqn:Hls.
  - apply orb_true_iff in Hls as [Hls|Hls]; apply Z.eqb_eq in Hls; subst r; vm_compute in E; injection E as <- <-; reflexivity.
  - pose proof (decode_encoded r p Hv) as Hd. rewrite E in Hd. cbn [app unquote]. rewrite (proj2 (Z.eqb_neq c 34)), (proj2 (Z.ltb_ge c 32)), (proj2 (Z.eqb_neq c 92)),
      (proj2 (Z.ltb_ge c 0x80)) by lia. cbn [app] in Hd. rewrite Hd, Hn, andb_false_r.
    rewrite (take_app_length (c :: q) p : take (length (c :: q)) (c :: q ++ p) = _), (drop_app_length (c :: q) p : drop (length (c :: q)) (c :: q ++ p) = _). done.
Qed.

Lemma unquote_escape rs : Forall (fun r => valid_rune r = true) rs ->
  let s := concat (map encode_rune rs) in
  forall m f rest, (length s <= m)%nat -> (length s < f)%nat -> unquote f (escape m s ++ 34 :: rest) = Some (s, rest).
Proof.
  induction 1 as [|r rs Hr Hrs IH]; cbn [map concat]; intros m f rest Hm Hf.
  - destruct f as [|f]; [cbn in Hf; lia|]. by destruct m.
  - rewrite length_app in Hm, Hf. destruct (decode_encode_rune r Hr) as [_ Hne].
    destruct m as [|m]; [destruct (encode_rune r); [done|cbn in Hm; lia]|]. destruct f as [|f]; [lia|].
    destruct (Z.lt_ge_cases r 0x80) as [Hlt|Hge].
    + destruct (json_rune_ascii r Hr Hlt) as [E Hpos]. rewrite E in Hm, Hf |- *. cbn [app escape]. rewrite (proj2 (Z.ltb_lt _ _)) by lia.
      rewrite <- app_assoc, unquote_ascii by lia. rewrite IH; [done|cbn in Hm; lia|cbn in Hf; lia].
    + destruct (encode_rune r) as [|c q] eqn:E; [done|]. destruct (encode_rune_head r c q Hr Hge E) as [Hq Hc].
      cbn [app escape]. rewrite (proj2 (Z.ltb_ge c 0x80)) by lia.
      pose proof (decode_encoded r (concat (map encode_rune rs)) Hr) as Hd. rewrite E in Hd. cbn [app] in Hd. rewrite Hd.
      rewrite (drop_app_length (c :: q) _ : drop (length (c :: q)) (c :: q ++ concat (map encode_rune rs)) = _).
      rewrite <- app_assoc. pose proof (unquote_rune r f (escape m (concat (map encode_rune rs)) ++ 34 :: rest) Hr Hge) as Hu. rewrite E in Hu.
      assert (Hesc : escape_rune r (length (c :: q)) (c :: q ++ concat (map encode_rune rs)) =
        escape_rune r (length (c :: q)) ((c :: q) ++ escape m (concat (map encode_rune rs)) ++ 34 :: rest)).
      { unfold escape_rune. by rewrite take_app_length, (take_app_length (c :: q) _ : take (length (c :: q)) (c :: q ++ concat (map encode_rune rs)) = _). }
      rewrite Hesc, Hu, IH; [done|cbn in Hm; lia|cbn in Hf; lia].
Qed.

Lemma escape_length m s : (length s <= m)%nat -> (length s <= length (escape m s))%nat.
Proof.
  revert s. induction m as [|m IH]; intros [|c s] Hm; cbn in Hm; try (cbn; lia). cbn [escape]. destruct (c <? 0x80).
  - rewrite length_app. specialize (IH s ltac:(lia)). assert (1 <= length (escape_ascii c))%nat by (unfold escape_ascii, u_escape; repeat case_match; cbn; lia).
    cbn. lia.
  - destruct (decode_rune_width (c :: s)) as [Hn Hl]; [done|]. destruct (decode_rune (c :: s)) as [r n]. cbn [snd] in Hn, Hl.
    rewrite length_app. specialize (IH (drop n (c :: s))). rewrite length_drop in IH.
    assert (n <= length (escape_rune r n (c :: s)))%nat by (unfold escape_rune, u_escape; repeat case_match; rewrite ?length_take; cbn in *; lia).
    cbn in *. lia.
Qed.
Lemma quote_read s rest : text s -> exists q, quote s ++ rest = 34 :: q /\ unquote (S (length q)) q = Some (s, rest).
Proof.
  intros (rs & Hrs & ->). unfold quote. cbn [app]. eexists. split; [reflexivity|]. rewrite <- app_assoc. cbn [app].
  apply unquote_escape; [done|done|]. rewrite length_app. cbn.
  pose proof (escape_length (length (concat (map encode_rune rs))) (concat (map encode_rune rs)) ltac:(lia)). lia.
Qed.

(** ** Base64 is read back *)

Lemma filter_all {A} (f : A -> bool) (l : list A) : Forall (fun x => f x = true) l -> List.filter f l = l.
Proof. induction 1 as [|x l Hx Hl IH]; cbn; [done|]. by rewrite Hx, IH. Qed.
Lemma triples_ind (P : bytes -> Prop) :
  P [] -> (forall x, P [x]) -> (forall x y, P [x; y]) -> (forall x y z l, P l -> P (x :: y :: z :: l)) -> forall l, P l.
Proof.
  intros H0 H1 H2 H3. assert (Hn : forall n l, (length l <= n)%nat -> P l); [|by intros l; apply (Hn (length l))].
  induction n as [|n IH]; intros [|x [|y [|z l]]] Hl; cbn in Hl; auto; try lia. apply H3, IH. lia.
Qed.
Lemma b64_char_value n : 0 <= n < 64 ->
  b64_value (b64_char n) = Some n /\ b64_char n <> 61 /\ b64_char n <> 10 /\ b64_char n <> 13 /\ 0 <= b64_char n < 0x80.
Proof.
  intros Hn. assert (Hin : exists k, (k < 64)%nat /\ n = Z.of_nat k) by (exists (Z.to_nat n); lia). destruct Hin as (k & Hk & ->).
  do 64 (destruct k as [|k]; [by vm_compute|]). lia.
Qed.
Ltac div_lia := Z.to_euclidean_division_equations; lia.

(** What a group of three bytes is written as. *)
Definition b64_ok (c : Z) : Prop := exists n, 0 <= n < 64 /\ c = b64_char n.
Lemma b64_digits b : bytes_ok b -> Forall (fun c => b64_ok c \/ c = 61) (b64_encode b).
Proof.
  assert (Hd : forall n, 0 <= n < 64 -> b64_ok (b64_char n) \/ b64_char n = 61) by (intros n Hn; left; by exists n).
  induction b as [|x|x y|x y z b IH] using triples_ind; cbn [b64_encode]; intros Hb; repeat (apply Forall_cons in Hb as [? Hb]; unfold is_u8 in *).
  - constructor.
  - repeat (apply Forall_cons; split; [first [by right|apply Hd; div_lia]|]). constructor.
  - repeat (apply Forall_cons; split; [first [by right|apply Hd; div_lia]|]). constructor.
  - repeat (apply Forall_cons; split; [apply Hd; div_lia|]). by apply IH.
Qed.
Lemma b64_text b : bytes_ok b -> text (b64_encode b).
Proof.
  intros Hb. apply text_ascii. eapply Forall_impl; [by apply b64_digits|]. intros c [(n & Hn & ->)| ->]; [|lia].
  by apply b64_char_value.
Qed.
Lemma b64_groups_encode b : bytes_ok b -> b64_groups (b64_encode b) = Some b.
Proof.
  induction b as [|x|x y|x y z b IH] using triples_ind; intros Hb; repeat (apply Forall_cons in Hb as [? Hb]; unfold is_u8 in *).
  - done.
  - cbn [b64_encode b64_groups]. destruct (b64_char_value (x / 4)) as [-> _]; [div_lia|].
    destruct (b64_char_value (x mod 4 * 16)) as [-> _]; [div_lia|]. cbn. do 2 f_equal. div_lia.
  - cbn [b64_encode b64_groups]. destruct (b64_char_value (x / 4)) as [-> _]; [div_lia|].
    destruct (b64_char_value (x mod 4 * 16 + y / 16)) as [-> _]; [div_lia|].
    destruct (b64_char_value (y mod 16 * 4)) as (-> & Hne & _); [div_lia|]. rewrite (proj2 (Z.eqb_neq _ 61) Hne). cbn.
    do 2 f_equal; [div_lia|]. f_equal. div_lia.
  - cbn [b64_encode b64_groups]. destruct (b64_char_value (x / 4)) as [-> _]; [div_lia|].
    destruct (b64_char_value (x mod 4 * 16 + y / 16)) as [-> _]; [div_lia|].
    destruct (b64_char_value (y mod 16 * 4 + z / 64)) as (-> & Hne & _); [div_lia|].
    destruct (b64_char_value (z mod 64)) as (-> & Hne' & _); [div_lia|]. rewrite (proj2 (Z.eqb_neq _ 61) Hne), (proj2 (Z.eqb_neq _ 61) Hne').
    rewrite IH by done. do 2 f_equal; [div_lia|]. f_equal; [div_lia|]. f_equal. div_lia.
Qed.
Lemma b64_roundtrip b : bytes_ok b -> b64_decode (b64_encode b) = Some b.
Proof.
  intros Hb. unfold b64_decode. rewrite (filter_all _ (b64_encode b)); [by apply b64_groups_encode|].
  eapply Forall_impl; [by apply b64_digits|]. intros c [(n & Hn & ->)| ->]; [|done].
  destruct (b64_char_value n Hn) as (_ & _ & H10 & H13 & _). by rewrite (proj2 (Z.eqb_neq _ _) H10), (proj2 (Z.eqb_neq _ _) H13).
Qed.

(** ** Values are read back *)

(** Values of strings, nested at most [n] deep. *)
Inductive printable : nat -> value -> Prop :=
| printable_null n : printable n JNull
| printable_bool n b : printable n (JBool b)
| printable_str n s : text s -> printable n (JStr s)
| printable_arr n l : Forall (printable n) l -> printable (S n) (JArr l)
| printable_obj n l : Forall (fun kx => text kx.1 /\ printable n kx.2) l -> printable (S n) (JObj l).

Fixpoint print_elements (l : list value) : bytes :=
  match l with
  | [] => []
  | [x] => print x
  | x :: l => print x ++ [44] ++ print_elements l
  end.
Fixpoint print_members (l : list (bytes * value)) : bytes :=
  match l with
  | [] => []
  | [(k, x)] => quote k ++ [58] ++ print x
  | (k, x) :: l => quote k ++ [58] ++ print x ++ [44] ++ print_members l
  end.
Lemma print_arr l : print (JArr l) = [91] ++ print_elements l ++ [93].
Proof. reflexivity. Qed.
Lemma print_obj l : print (JObj l) = [123] ++ print_members l ++ [125].
Proof. reflexivity. Qed.

Lemma skip_quote s rest : skip_ws (quote s ++ rest) = quote s ++ rest.
Proof. reflexivity. Qed.
(** A written value begins with none of the characters that end a list or an object. *)
Lemma print_head n j : printable n j -> exists c q, print j = c :: q /\ c <> 93 /\ c <> 125 /\ skip_ws (print j) = print j /\ forall r, skip_ws (print j ++ r) = print j ++ r.
Proof.
  destruct 1 as [n|n b|n s Hs|n l Hl|n l Hl].
  - by do 2 eexists.
  - destruct b; by do 2 eexists.
  - by do 2 eexists.
  - rewrite print_arr. by do 2 eexists.
  - rewrite print_obj. by do 2 eexists.
Qed.

Definition reads_back (n : nat) : Prop := forall j fuel d rest,
  printable n j -> (length (print j) < fuel)%nat -> 0 <= d -> d + Z.of_nat n <= maxNestingDepth -> parse_value fuel d (print j ++ rest) = Some (j, rest).

Lemma read_elements n : reads_back n -> forall l fuel d rest, l <> [] -> Forall (printable n) l -> (length (print_elements l) + 1 < fuel)%nat ->
  0 <= d -> d + Z.of_nat n <= maxNestingDepth -> parse_elements fuel d (print_elements l ++ 93 :: rest) = Some (l, rest).
Proof.
  intros Hn. induction l as [|x l IH]; intros fuel d rest Hne Hl Hf Hd Hdn; [done|]. apply Forall_cons in Hl as [Hx Hl].
  destruct fuel as [|fuel]; [lia|]. cbn [parse_elements]. destruct l as [|y l].
  - cbn [print_elements] in *. rewrite (Hn x fuel d _ Hx) by lia. reflexivity.
  - change (print_elements (x :: y :: l)) with (print x ++ [44] ++ print_elements (y :: l)) in Hf |- *. rewrite !length_app in Hf. cbn [length] in Hf.
    rewrite <- !app_assoc, (Hn x fuel d _ Hx) by lia. change (skip_ws ([44] ++ ?p)) with (44 :: p). cbv iota beta.
    rewrite IH; [done|done|done|lia|done|done].
Qed.
Lemma read_members n : reads_back n -> forall l fuel d rest, l <> [] -> Forall (fun kx => text kx.1 /\ printable n kx.2) l ->
  (length (print_members l) + 1 < fuel)%nat -> 0 <= d -> d + Z.of_nat n <= maxNestingDepth ->
  parse_members fuel d (print_members l ++ 125 :: rest) = Some (l, rest).
Proof.
  intros Hn. induction l as [|[k x] l IH]; intros fuel d rest Hne Hl Hf Hd Hdn; [done|]. apply Forall_cons in Hl as [[Hk Hx] Hl]. cbn [fst snd] in Hk, Hx.
  destruct fuel as [|fuel]; [lia|]. cbn [parse_members]. destruct l as [|y l].
  - cbn [print_members] in *. rewrite <- !app_assoc. rewrite !length_app in Hf. cbn [length] in Hf.
    rewrite skip_quote. destruct (quote_read k ([58] ++ print x ++ 125 :: rest) Hk) as (q & -> & ->).
    change (skip_ws ([58] ++ ?p)) with (58 :: p). cbv iota beta. rewrite (Hn x fuel d _ Hx) by lia. reflexivity.
  - change (print_members ((k, x) :: y :: l)) with (quote k ++ [58] ++ print x ++ [44] ++ print_members (y :: l)) in Hf |- *.
    rewrite !length_app in Hf. cbn [length] in Hf. rewrite <- !app_assoc, skip_quote.
    destruct (quote_read k ([58] ++ print x ++ [44] ++ print_members (y :: l) ++ 125 :: rest) Hk) as (q & -> & ->).
    change (skip_ws ([58] ++ ?p)) with (58 :: p). cbv iota beta. rewrite (Hn x fuel d _ Hx) by lia.
    change (skip_ws ([44] ++ ?p)) with (44 :: p). cbv iota beta. rewrite IH; [done|done|done|lia|done|done].
Qed.

Lemma parse_string fuel d q :
  parse_value (S fuel) d (34 :: q) = match unquote (S (length q)) q with Some (s, q) => Some (JStr s, q) | None => None end.
Proof. reflexivity. Qed.
Lemma parse_print n : reads_back n.
Proof.
  induction n as [|n IH]; intros j fuel d rest Hj Hf Hd Hdn; (destruct fuel as [|fuel]; [lia|]).
  all: inversion Hj as [? E1 E2|? b E1 E2|? s Hs E1 E2|? l Hl E1 E2|? l Hl E1 E2]; subst.
  all: try (reflexivity).
  all: try (destruct b; reflexivity).
  all: try (cbn [print]; destruct (quote_read s rest Hs) as (q & E & Hq); by rewrite E, parse_string, Hq).
  - rewrite print_arr in Hf |- *. rewrite !length_app in Hf. cbn [length] in Hf. cbn [parse_value]. cbn [app]. change (skip_ws (91 :: ?q)) with (91 :: q). cbv iota beta.
    rewrite (proj2 (Z.eqb_neq 91 123)), Z.eqb_refl, (proj2 (Z.leb_gt maxNestingDepth d)) by lia. cbv iota. rewrite <- app_assoc. cbn [app].
    destruct l as [|x l]; [reflexivity|]. pose proof Hl as Hl0. apply Forall_cons in Hl0 as [Hx _]. destruct (print_head n x Hx) as (c & q & Ec & H93 & _ & _ & Hsk).
    assert (Hs : exists r, skip_ws (print_elements (x :: l) ++ 93 :: rest) = c :: r).
    { destruct l as [|y l]; [cbn [print_elements]; rewrite Hsk, Ec; by eexists|].
      change (print_elements (x :: y :: l)) with (print x ++ [44] ++ print_elements (y :: l)). rewrite <- app_assoc, Hsk, Ec. by eexists. }
    destruct Hs as [r ->]. rewrite (read_elements n IH (x :: l) fuel (d + 1) rest); [|done|done|lia|lia|lia].
    assert (Hm : forall A (a b : A), match c with 93 => a | _ => b end = b) by (intros A a b; clear -H93; destruct c as [|p|p]; try done; do 7 (destruct p as [p|p|]; try done)).
    by rewrite Hm.
  - rewrite print_obj in Hf |- *. rewrite !length_app in Hf. cbn [length] in Hf. cbn [parse_value]. cbn [app]. change (skip_ws (123 :: ?q)) with (123 :: q). cbv iota beta.
    rewrite Z.eqb_refl, (proj2 (Z.leb_gt maxNestingDepth d)) by lia. cbv iota. rewrite <- app_assoc. cbn [app].
    destruct l as [|[k x] l]; [reflexivity|].
    assert (Hs : exists r, skip_ws (print_members ((k, x) :: l) ++ 125 :: rest) = 34 :: r).
    { destruct l as [|y l]; [cbn [print_members]; rewrite <- app_assoc, skip_quote; by eexists|].
      change (print_members ((k, x) :: y :: l)) with (quote k ++ [58] ++ print x ++ [44] ++ print_members (y :: l)). rewrite <- app_assoc, skip_quote. by eexists. }
    destruct Hs as [r ->]. rewrite (read_members n IH ((k, x) :: l) fuel (d + 1) rest); [done|done|done|lia|lia|lia].
Qed.

(** What [json.Marshal] writes, [Decode] reads. *)
Lemma first_value_print n j rest : printable n j -> Z.of_nat n <= maxNestingDepth -> first_value (print j ++ rest) = Some j.
Proof. intros Hj Hn. unfold first_value. rewrite (parse_print n j); [done|done|rewrite length_app; lia|lia|lia]. Qed.
End json.
