(* ===== verification/Pairing.v ===== *)
(** * The pairing protocol (internal/protocol/pairing/pairing.go)

    Frames of at most 64 KiB with a big-endian length, the transcript that both proofs
    cover, the keys, and the messages in JSON. *)

From stdpp Require Import list.
From S2P Require Import Prelude Utf8 GoStrings Sha256 Protocol Json.
Import json.

Module pairing.

Definition ProtocolName : bytes := str "plumtree-pair-v1".
Definition MaxFrameSize : Z := Z.shiftl 64 10.
Definition MaxSecretSize : Z := 4096.
Definition FrameServerHello : Z := 1.
Definition FrameClientHello : Z := 2.
Definition FrameServerProof : Z := 3.
Definition FrameClientProof : Z := 4.
Definition FrameComplete : Z := 5.
Definition FrameProblem : Z := 6.

Inductive PairErr := ErrInvalid | ErrProofMismatch | ErrFrameTooLarge | ErrIO (e : ProtoErr).

Definition PurposeNewAuthor : bytes := str "new-author".
Definition PurposeAddDevice : bytes := str "add-device".
Definition PurposeOfflineRecovery : bytes := str "offline-recovery".
Definition PurposeOperatorRecovery : bytes := str "operator-recovery".

(** ** Messages *)

Record Transcript := mkTranscript {
  SessionID : bytes; ServerID : bytes; HostKeyFingerprint : bytes; ClientNonce : bytes; ServerNonce : bytes; PublicKey : bytes;
  DeviceFingerprint : bytes; Purpose : bytes; Identifier : bytes }.
Record ServerHello := mkServerHello {
  sh_ServerID : bytes; sh_HostKeyAlgorithm : bytes; sh_HostKeyFingerprint : bytes; sh_ProductVersion : bytes; sh_Protocols : list bytes }.
Record ClientHello := mkClientHello { ch_Transcript : Transcript; ch_DeviceName : bytes; ch_RecoverySalt : bytes; ch_RecoveryVerifier : bytes }.
Record Proof_ := mkProof { pr_Salt : bytes; pr_ServerNonce : bytes; pr_MAC : bytes }.
Record Complete := mkComplete { co_ServerID : bytes; co_AuthorID : bytes; co_AuthorHandle : bytes; co_DeviceID : bytes }.
Record Problem := mkProblem { pb_Code : bytes; pb_Detail : bytes }.

Definition transcript_json (t : Transcript) : value :=
  JObj [(str "sessionID", JStr (SessionID t)); (str "serverID", JStr (ServerID t)); (str "hostKeyFingerprint", JStr (HostKeyFingerprint t));
        (str "clientNonce", JBytes (ClientNonce t)); (str "serverNonce", JBytes (ServerNonce t)); (str "publicKey", JStr (PublicKey t));
        (str "deviceFingerprint", JStr (DeviceFingerprint t)); (str "purpose", JStr (Purpose t)); (str "identifier", JStr (Identifier t))].
Definition server_hello_json (h : ServerHello) : value :=
  JObj [(str "serverID", JStr (sh_ServerID h)); (str "hostKeyAlgorithm", JStr (sh_HostKeyAlgorithm h));
        (str "hostKeyFingerprint", JStr (sh_HostKeyFingerprint h)); (str "productVersion", JStr (sh_ProductVersion h));
        (str "protocols", JArr (map JStr (sh_Protocols h)))].
Definition client_hello_json (h : ClientHello) : value :=
  JObj ((str "transcript", transcript_json (ch_Transcript h)) :: omitempty (str "deviceName") (ch_DeviceName h) (JStr (ch_DeviceName h)) ++
        omitempty (str "recoverySalt") (ch_RecoverySalt h) (JBytes (ch_RecoverySalt h)) ++
        omitempty (str "recoveryVerifier") (ch_RecoveryVerifier h) (JBytes (ch_RecoveryVerifier h))).
Definition proof_json (p : Proof_) : value :=
  JObj (omitempty (str "salt") (pr_Salt p) (JBytes (pr_Salt p)) ++ omitempty (str "serverNonce") (pr_ServerNonce p) (JBytes (pr_ServerNonce p)) ++
        [(str "mac", JBytes (pr_MAC p))]).
Definition complete_json (c : Complete) : value :=
  JObj [(str "serverID", JStr (co_ServerID c)); (str "authorID", JStr (co_AuthorID c)); (str "authorHandle", JStr (co_AuthorHandle c));
        (str "deviceID", JStr (co_DeviceID c))].
Definition problem_json (p : Problem) : value := JObj [(str "code", JStr (pb_Code p)); (str "detail", JStr (pb_Detail p))].

(** Setting the fields of a message from JSON. *)
Definition fld {A B} (name : bytes) (set : setter B) (get : A -> B) (put : A -> B -> A) : field A :=
  (name, fun a j => put a <$> set (get a) j).
Definition transcript_fields : list (field Transcript) :=
  [fld (str "sessionID") set_string SessionID (fun t x => mkTranscript x (ServerID t) (HostKeyFingerprint t) (ClientNonce t) (ServerNonce t) (PublicKey t) (DeviceFingerprint t) (Purpose t) (Identifier t));
   fld (str "serverID") set_string ServerID (fun t x => mkTranscript (SessionID t) x (HostKeyFingerprint t) (ClientNonce t) (ServerNonce t) (PublicKey t) (DeviceFingerprint t) (Purpose t) (Identifier t));
   fld (str "hostKeyFingerprint") set_string HostKeyFingerprint (fun t x => mkTranscript (SessionID t) (ServerID t) x (ClientNonce t) (ServerNonce t) (PublicKey t) (DeviceFingerprint t) (Purpose t) (Identifier t));
   fld (str "clientNonce") set_bytes ClientNonce (fun t x => mkTranscript (SessionID t) (ServerID t) (HostKeyFingerprint t) x (ServerNonce t) (PublicKey t) (DeviceFingerprint t) (Purpose t) (Identifier t));
   fld (str "serverNonce") set_bytes ServerNonce (fun t x => mkTranscript (SessionID t) (ServerID t) (HostKeyFingerprint t) (ClientNonce t) x (PublicKey t) (DeviceFingerprint t) (Purpose t) (Identifier t));
   fld (str "publicKey") set_string PublicKey (fun t x => mkTranscript (SessionID t) (ServerID t) (HostKeyFingerprint t) (ClientNonce t) (ServerNonce t) x (DeviceFingerprint t) (Purpose t) (Identifier t));
   fld (str "deviceFingerprint") set_string DeviceFingerprint (fun t x => mkTranscript (SessionID t) (ServerID t) (HostKeyFingerprint t) (ClientNonce t) (ServerNonce t) (PublicKey t) x (Purpose t) (Identifier t));
   fld (str "purpose") set_string Purpose (fun t x => mkTranscript (SessionID t) (ServerID t) (HostKeyFingerprint t) (ClientNonce t) (ServerNonce t) (PublicKey t) (DeviceFingerprint t) x (Identifier t));
   fld (str "identifier") set_string Identifier (fun t x => mkTranscript (SessionID t) (ServerID t) (HostKeyFingerprint t) (ClientNonce t) (ServerNonce t) (PublicKey t) (DeviceFingerprint t) (Purpose t) x)].
Definition server_hello_fields : list (field ServerHello) :=
  [fld (str "serverID") set_string sh_ServerID (fun h x => mkServerHello x (sh_HostKeyAlgorithm h) (sh_HostKeyFingerprint h) (sh_ProductVersion h) (sh_Protocols h));
   fld (str "hostKeyAlgorithm") set_string sh_HostKeyAlgorithm (fun h x => mkServerHello (sh_ServerID h) x (sh_HostKeyFingerprint h) (sh_ProductVersion h) (sh_Protocols h));
   fld (str "hostKeyFingerprint") set_string sh_HostKeyFingerprint (fun h x => mkServerHello (sh_ServerID h) (sh_HostKeyAlgorithm h) x (sh_ProductVersion h) (sh_Protocols h));
   fld (str "productVersion") set_string sh_ProductVersion (fun h x => mkServerHello (sh_ServerID h) (sh_HostKeyAlgorithm h) (sh_HostKeyFingerprint h) x (sh_Protocols h));
   fld (str "protocols") set_strings sh_Protocols (fun h x => mkServerHello (sh_ServerID h) (sh_HostKeyAlgorithm h) (sh_HostKeyFingerprint h) (sh_ProductVersion h) x)].
Definition client_hello_fields : list (field ClientHello) :=
  [fld (str "transcript") (set_struct transcript_fields) ch_Transcript (fun h x => mkClientHello x (ch_DeviceName h) (ch_RecoverySalt h) (ch_RecoveryVerifier h));
   fld (str "deviceName") set_string ch_DeviceName (fun h x => mkClientHello (ch_Transcript h) x (ch_RecoverySalt h) (ch_RecoveryVerifier h));
   fld (str "recoverySalt") set_bytes ch_RecoverySalt (fun h x => mkClientHello (ch_Transcript h) (ch_DeviceName h) x (ch_RecoveryVerifier h));
   fld (str "recoveryVerifier") set_bytes ch_RecoveryVerifier (fun h x => mkClientHello (ch_Transcript h) (ch_DeviceName h) (ch_RecoverySalt h) x)].
Definition proof_fields : list (field Proof_) :=
  [fld (str "salt") set_bytes pr_Salt (fun p x => mkProof x (pr_ServerNonce p) (pr_MAC p));
   fld (str "serverNonce") set_bytes pr_ServerNonce (fun p x => mkProof (pr_Salt p) x (pr_MAC p));
   fld (str "mac") set_bytes pr_MAC (fun p x => mkProof (pr_Salt p) (pr_ServerNonce p) x)].
Definition complete_fields : list (field Complete) :=
  [fld (str "serverID") set_string co_ServerID (fun c x => mkComplete x (co_AuthorID c) (co_AuthorHandle c) (co_DeviceID c));
   fld (str "authorID") set_string co_AuthorID (fun c x => mkComplete (co_ServerID c) x (co_AuthorHandle c) (co_DeviceID c));
   fld (str "authorHandle") set_string co_AuthorHandle (fun c x => mkComplete (co_ServerID c) (co_AuthorID c) x (co_DeviceID c));
   fld (str "deviceID") set_string co_DeviceID (fun c x => mkComplete (co_ServerID c) (co_AuthorID c) (co_AuthorHandle c) x)].
Definition problem_fields : list (field Problem) :=
  [fld (str "code") set_string pb_Code (fun p x => mkProblem x (pb_Detail p)); fld (str "detail") set_string pb_Detail (fun p x => mkProblem (pb_Code p) x)].

Definition no_transcript : Transcript := mkTranscript [] [] [] [] [] [] [] [] [].
Definition no_client_hello : ClientHello := mkClientHello no_transcript [] [] [].
Definition no_server_hello : ServerHello := mkServerHello [] [] [] [] [].
Definition no_proof : Proof_ := mkProof [] [] [].
Definition no_complete : Complete := mkComplete [] [] [] [].
Definition no_problem : Problem := mkProblem [] [].

(** [json.Decoder.Decode] of a payload, with unknown fields refused. *)
Definition decode {A} (fields : list (field A)) (zero : A) (payload : bytes) : option A :=
  match first_value (take (Z.to_nat MaxFrameSize) payload) with Some j => set_struct fields zero j | None => None end.

(** ** Proofs *)

Definition Validate (t : Transcript) : option PairErr :=
  let bad v := bool_decide (v = []) || (4096 <? len v) in
  let bad_nonce n := (len n <? 16) || (64 <? len n) in
  if bad (SessionID t) || bad (ServerID t) || bad (HostKeyFingerprint t) || bad (PublicKey t) || bad (DeviceFingerprint t) || bad (Identifier t)
  then Some ErrInvalid else
  if bad_nonce (ClientNonce t) || bad_nonce (ServerNonce t) then Some ErrInvalid else
  if bool_decide (Purpose t ∈ [PurposeNewAuthor; PurposeAddDevice; PurposeOfflineRecovery; PurposeOperatorRecovery]) then None else Some ErrInvalid.

Definition canonical (t : Transcript) : PairErr + bytes :=
  match Validate t with Some e => inl e | None => inr (print (transcript_json t)) end.
Definition secret_length (secret : bytes) : bool := (16 <=? len secret) && (len secret <=? MaxSecretSize).
Definition DeriveKey (secret : bytes) : PairErr + bytes :=
  if secret_length secret then inr (sha256 (ProtocolName ++ [0] ++ secret)) else inl ErrInvalid.
Definition DeriveVerifier (salt secret : bytes) : PairErr + bytes :=
  if bool_decide (salt = []) || (1024 <? len salt) || negb (secret_length secret) then inl ErrInvalid else inr (sha256 (salt ++ secret)).
Definition proof (secret : bytes) (t : Transcript) (label : bytes) : PairErr + bytes :=
  match DeriveKey secret with
  | inl e => inl e
  | inr key =>
    match canonical t with
    | inl e => inl e
    | inr transcript => inr (hmac_sha256 key (ProtocolName ++ [0] ++ label ++ [0] ++ transcript))
    end
  end.
Definition ServerProof (secret : bytes) (t : Transcript) : PairErr + bytes := proof secret t (str "server").
Definition ClientProof (secret : bytes) (t : Transcript) : PairErr + bytes := proof secret t (str "client").
(** [hmac.Equal] *)
Definition verify (expected : PairErr + bytes) (received : bytes) : option PairErr :=
  match expected with
  | inl e => Some e
  | inr mac => if bool_decide (mac = received) then None else Some ErrProofMismatch
  end.
Definition VerifyServerProof (secret : bytes) (t : Transcript) (received : bytes) : option PairErr := verify (ServerProof secret t) received.
Definition VerifyClientProof (secret : bytes) (t : Transcript) (received : bytes) : option PairErr := verify (ClientProof secret t) received.

(** ** Frames *)

Record Frame := mkFrame { Type_ : Z; Payload : bytes }.

Fixpoint writeFull_loop {T} `{Writer T} (fuel : nat) (w : T) (data : bytes) : T * res ProtoErr unit :=
  match fuel with
  | O => (w, Panic)
  | S fuel =>
    if negb (0 <? len data) then (w, Ok tt) else
    let '(w, n, e) := wr w data in
    if (e : bool) then (w, Err ErrWrite) else
    if n =? 0 then (w, Err ErrShortWrite) else
    match slice_from data n with
    | Ok data => writeFull_loop fuel w data
    | Err e => (w, Err e)
    | Panic => (w, Panic)
    end
  end.
Definition writeFull {T} `{Writer T} (w : T) (data : bytes) : T * res ProtoErr unit := writeFull_loop (S (length data)) w data.

Definition frame_header (f : Frame) : bytes := be_bytes 4 (u32 (len (Payload f) + 1)).
Definition lift_io (r : res ProtoErr unit) : res PairErr unit :=
  match r with Ok x => Ok x | Err e => Err (ErrIO e) | Panic => Panic end.
Definition WriteFrame {T} `{Writer T} (w : T) (f : Frame) : T * res PairErr unit :=
  if MaxFrameSize <? len (Payload f) + 1 then (w, Err ErrFrameTooLarge) else
  let '(w, r) := writeFull w (frame_header f) in
  match r with
  | Ok _ =>
    let '(w, r) := writeFull w [Type_ f] in
    match r with
    | Ok _ => let '(w, r) := writeFull w (Payload f) in (w, lift_io r)
    | r => (w, lift_io r)
    end
  | r => (w, lift_io r)
  end.

(** The bytes left of the stream, and the frame. *)
Definition ReadFrame (r : bytes) : bytes * (PairErr + Frame) :=
  let '(r, header, e) := ReadFull r (replicate 4 0) in
  match e with
  | Some e => (r, inl (ErrIO e))
  | None =>
    let size := be_val header in
    if (size <? 1) || (MaxFrameSize <? size) then (r, inl ErrFrameTooLarge) else
    let '(r, payload, e) := ReadFull r (replicate (Z.to_nat size) 0) in
    match e with
    | Some e => (r, inl (ErrIO e))
    | None => (r, inr (mkFrame (List.hd 0 payload) (List.tl payload)))
    end
  end.

(** ** Frames are read back *)

Definition frame_wire (f : Frame) : bytes := frame_header f ++ [Type_ f] ++ Payload f.
Definition frame_ok (f : Frame) : Prop := len (Payload f) + 1 <= MaxFrameSize.

Section Writing.
Context {T : Type} `{WriterLaws T}.

Lemma writeFull_spec (w : T) data w' r : writeFull w data = (w', r) ->
  r <> Panic /\ exists n, written w' = written w ++ take n data /\ (r = Ok tt -> written w' = written w ++ data).
Proof.
  unfold writeFull. assert (Hf : (length data < S (length data))%nat) by lia. revert Hf. generalize (S (length data)) as fuel. intros fuel. revert w data.
  induction fuel as [|fuel IH]; intros w data Hf; [lia|]. cbn [writeFull_loop].
  destruct (0 <? len data) eqn:Hd; cbn [negb].
  - destruct (wr w data) as [[w1 n] e] eqn:Hw. pose proof (wr_count w data w1 n e Hw) as Hn. pose proof (wr_prefix w data w1 n e Hw) as Hp.
    destruct e; [intros [= <- <-]; split; [done|]; exists (Z.to_nat n); done|].
    destruct (n =? 0) eqn:Hz; [intros [= <- <-]; split; [done|]; exists (Z.to_nat n); done|]. zbool.
    rewrite slice_from_ok by lia. intros Hr. destruct (IH w1 (drop (Z.to_nat n) data)) as (Hnp & k & Hk & Hall); [rewrite length_drop; unfold len in *; lia|done|].
    split; [done|]. exists (Z.to_nat n + k)%nat. rewrite Hk, Hp, <- app_assoc, take_take_drop. split; [done|]. intros ->.
    rewrite <- (take_drop (Z.to_nat n) data) at 2. rewrite app_assoc, <- Hp, <- Hall by done. by rewrite Hk, Hp, <- app_assoc, take_take_drop.
  - intros [= <- <-]. split; [done|]. exists 0%nat. rewrite app_nil_r. split; [done|]. intros _. zbool.
    destruct data; [by rewrite app_nil_r|]. rewrite len_cons in Hd. pose proof (len_nonneg data). lia.
Qed.

(** However the writer cuts it, a frame that was written reached the other side as its
    bytes; one that is too large is refused before anything is written. *)
Lemma WriteFrame_spec (w : T) f w' r : WriteFrame w f = (w', r) ->
  r <> Panic /\ (r = Ok tt -> frame_ok f /\ written w' = written w ++ frame_wire f) /\ (~ frame_ok f -> r = Err ErrFrameTooLarge /\ w' = w).
Proof.
  unfold WriteFrame, frame_ok. destruct (MaxFrameSize <? len (Payload f) + 1) eqn:Hs; zbool.
  { intros [= <- <-]. split; [done|]. split; [done|]. done. }
  destruct (writeFull w (frame_header f)) as [w1 r1] eqn:H1. destruct (writeFull_spec w _ w1 r1 H1) as (Hp1 & _ & _ & Ho1).
  destruct r1 as [[]|e|]; [|intros [= <- <-]; split; [done|]; split; [done|lia]|done].
  destruct (writeFull w1 [Type_ f]) as [w2 r2] eqn:H2. destruct (writeFull_spec w1 _ w2 r2 H2) as (Hp2 & _ & _ & Ho2).
  destruct r2 as [[]|e|]; [|intros [= <- <-]; split; [done|]; split; [done|lia]|done].
  destruct (writeFull w2 (Payload f)) as [w3 r3] eqn:H3. destruct (writeFull_spec w2 _ w3 r3 H3) as (Hp3 & _ & _ & Ho3).
  intros [= <- <-]. destruct r3 as [[]|e|]; cbn; (split; [done|]); [|split; [done|lia]|done]. split; [|lia]. intros _. split; [done|].
  rewrite Ho3, Ho2, Ho1 by done. unfold frame_wire. by rewrite <- !app_assoc.
Qed.
End Writing.

Lemma be_val_rev l : be_val (rev l) = le_val l.
Proof. unfold be_val. rewrite <- fold_left_rev_right, rev_involutive. induction l as [|x l IH]; cbn; [done|]. rewrite IH. lia. Qed.
Lemma be_val_bytes v : 0 <= v < 2 ^ 32 -> be_val (be_bytes 4 v) = v.
Proof. intros Hv. unfold be_bytes. rewrite be_val_rev, le_val_bytes. apply Z.mod_small. lia. Qed.
Lemma be_bytes_val b : bytes_ok b -> be_bytes (length b) (be_val b) = b.
Proof.
  intros Hb. rewrite <- (rev_involutive b) at 2. rewrite be_val_rev. unfold be_bytes. rewrite <- (length_rev b), le_bytes_val by (by apply Forall_rev).
  apply rev_involutive.
Qed.

Lemma ReadFrame_wire f rest : frame_ok f -> ReadFrame (frame_wire f ++ rest) = (rest, inr f).
Proof.
  intros Hf. unfold frame_ok in Hf. change MaxFrameSize with 65536 in Hf. pose proof (len_nonneg (Payload f)) as Hp. unfold ReadFrame, frame_wire. rewrite <- app_assoc.
  assert (Hh : length (frame_header f) = 4%nat) by (unfold frame_header, be_bytes; by rewrite length_rev).
  rewrite ReadFull_exact by (by rewrite Hh). cbv iota beta zeta. assert (Hv : be_val (frame_header f) = len (Payload f) + 1) by (unfold frame_header; rewrite u32_small by (unfold is_u32; lia); apply be_val_bytes; lia).
  rewrite Hv. rewrite (proj2 (Z.ltb_ge (len (Payload f) + 1) 1)), (proj2 (Z.ltb_ge MaxFrameSize (len (Payload f) + 1))) by (change MaxFrameSize with 65536; lia). cbv iota.
  rewrite (ReadFull_exact ([Type_ f] ++ Payload f)); [by destruct f|].
  rewrite length_replicate, length_app. change (length [Type_ f]) with 1%nat. unfold len. lia.
Qed.
Lemma ReadFrame_inv r r' f : bytes_ok r -> ReadFrame r = (r', inr f) -> frame_ok f /\ r = frame_wire f ++ r'.
Proof.
  intros Hb. unfold ReadFrame. destruct (ReadFull r (replicate 4 0)) as [[r1 h] e1] eqn:E1. destruct e1; [done|].
  apply ReadFull_none in E1 as [Hh Er]. cbn in Hh.
  destruct ((be_val h <? 1) || (MaxFrameSize <? be_val h)) eqn:Hs; [done|]. apply orb_false_iff in Hs as [Hs1 Hs2]. zbool.
  destruct (ReadFull r1 (replicate (Z.to_nat (be_val h)) 0)) as [[r2 p] e2] eqn:E2. destruct e2; [done|].
  apply ReadFull_none in E2 as [Hp Er2]. rewrite length_replicate in Hp. intros [= <- <-]. subst r r1.
  destruct p as [|t p]; [cbn in Hp; lia|]. cbn [List.hd List.tl]. unfold frame_ok, frame_wire, frame_header. cbn [Payload Type_].
  assert (Hl : len p + 1 = be_val h) by (unfold len; cbn in Hp; lia). rewrite Hl. split; [done|]. change MaxFrameSize with 65536 in Hs2.
  rewrite u32_small by (unfold is_u32; lia). apply Forall_app in Hb as [Hb _]. pose proof (be_bytes_val h Hb) as Hh'. rewrite Hh in Hh'. rewrite Hh'.
  by rewrite <- !app_assoc.
Qed.

(** (Pairing frames): a frame that was written, however the writer cuts it, is read back
    whatever follows; whatever is read is a frame within the bound, and exactly its bytes
    were taken; a larger one is refused on both sides, before anything is written or
    allocated. *)
Theorem pairing_frames {T} `{WriterLaws T} (w w' : T) f rest r r' f' :
  (WriteFrame w f = (w', Ok tt) -> exists b, written w' = written w ++ b /\ ReadFrame (b ++ rest) = (rest, inr f)) /\
  (MaxFrameSize < len (Payload f) + 1 -> WriteFrame w f = (w, Err ErrFrameTooLarge)) /\
  (bytes_ok r -> ReadFrame r = (r', inr f') -> r = frame_wire f' ++ r' /\ len (Payload f') + 1 <= MaxFrameSize).
Proof.
  split_and!.
  - intros Hw. destruct (WriteFrame_spec w f w' _ Hw) as (_ & Ho & _). destruct (Ho eq_refl) as [Hf Hb].
    exists (frame_wire f). split; [done|]. by apply ReadFrame_wire.
  - intros Hl. unfold WriteFrame. by rewrite (proj2 (Z.ltb_lt _ _)).
  - intros Hb Hr. by destruct (ReadFrame_inv r r' f' Hb Hr).
Qed.

(** ** Messages are read back *)

Lemma decode_print {A} (fields : list (field A)) zero n j :
  printable n j -> Z.of_nat n <= maxNestingDepth -> len (print j) <= MaxFrameSize -> decode fields zero (print j) = set_struct fields zero j.
Proof.
  intros Hj Hn Hl. unfold decode. rewrite take_ge by (unfold len in Hl; lia). rewrite <- (app_nil_r (print j)), (first_value_print n) by done. done.
Qed.

Definition transcript_text (t : Transcript) : Prop :=
  text (SessionID t) /\ text (ServerID t) /\ text (HostKeyFingerprint t) /\ text (PublicKey t) /\ text (DeviceFingerprint t) /\ text (Purpose t) /\
  text (Identifier t) /\ bytes_ok (ClientNonce t) /\ bytes_ok (ServerNonce t).
Definition client_hello_text (h : ClientHello) : Prop :=
  transcript_text (ch_Transcript h) /\ text (ch_DeviceName h) /\ bytes_ok (ch_RecoverySalt h) /\ bytes_ok (ch_RecoveryVerifier h).
Definition proof_text (p : Proof_) : Prop := bytes_ok (pr_Salt p) /\ bytes_ok (pr_ServerNonce p) /\ bytes_ok (pr_MAC p).
Definition complete_text (c : Complete) : Prop := text (co_ServerID c) /\ text (co_AuthorID c) /\ text (co_AuthorHandle c) /\ text (co_DeviceID c).
Definition problem_text (p : Problem) : Prop := text (pb_Code p) /\ text (pb_Detail p).

Lemma transcript_set t0 t : bytes_ok (ClientNonce t) -> bytes_ok (ServerNonce t) -> set_struct transcript_fields t0 (transcript_json t) = Some t.
Proof.
  intros Hc Hs. transitivity (match b64_decode (b64_encode (ClientNonce t)), b64_decode (b64_encode (ServerNonce t)) with
    | Some c, Some s => Some (mkTranscript (SessionID t) (ServerID t) (HostKeyFingerprint t) c s (PublicKey t) (DeviceFingerprint t) (Purpose t) (Identifier t))
    | _, _ => None
    end); [|by rewrite !b64_roundtrip by done; destruct t].
  lazy -[b64_decode b64_encode]. destruct (b64_decode _); [|done]. by destruct (b64_decode _).
Qed.
Lemma client_hello_set h : client_hello_text h -> set_struct client_hello_fields no_client_hello (client_hello_json h) = Some h.
Proof.
  intros ((_ & _ & _ & _ & _ & _ & _ & Hc & Hs) & _ & Hrs & Hrv).
  assert (Hm : forall l, set_struct client_hello_fields no_client_hello (JObj ((str "transcript", transcript_json (ch_Transcript h)) :: l)) =
    set_members client_hello_fields (mkClientHello (ch_Transcript h) [] [] []) l).
  { intros l. pose proof (transcript_set no_transcript (ch_Transcript h) Hc Hs) as Ht. cbn [set_struct set_members].
    change (find_field client_hello_fields (str "transcript")) with
      (Some (fun (a : ClientHello) j => (fun x => mkClientHello x (ch_DeviceName a) (ch_RecoverySalt a) (ch_RecoveryVerifier a)) <$> set_struct transcript_fields (ch_Transcript a) j)).
    cbv iota beta. change (ch_Transcript no_client_hello) with no_transcript. by rewrite Ht. }
  unfold client_hello_json. rewrite Hm. destruct h as [t n rs rv]. cbn [ch_Transcript ch_DeviceName ch_RecoverySalt ch_RecoveryVerifier] in *. clear Hm.
  transitivity (match b64_decode (b64_encode rs), b64_decode (b64_encode rv) with Some rs, Some rv => Some (mkClientHello t n rs rv) | _, _ => None end);
    [|by rewrite !b64_roundtrip].
  destruct n as [|c n], rs as [|a rs], rv as [|b rv]; unfold omitempty, JBytes;
    repeat match goal with |- context [b64_encode (?x :: ?y)] => let e := fresh "e" in set (e := b64_encode (x :: y)); clearbody e end;
    lazy -[b64_decode]; repeat (destruct (b64_decode _); [|done]); done.
Qed.
Lemma proof_set p : proof_text p -> set_struct proof_fields no_proof (proof_json p) = Some p.
Proof.
  intros (Hs & Hn & Hm). destruct p as [s n m]. cbn [pr_Salt pr_ServerNonce pr_MAC] in *.
  transitivity (match b64_decode (b64_encode s), b64_decode (b64_encode n), b64_decode (b64_encode m) with
    | Some s, Some n, Some m => Some (mkProof s n m) | _, _, _ => None end); [|by rewrite !b64_roundtrip].
  unfold proof_json. cbn [pr_Salt pr_ServerNonce pr_MAC]. destruct s as [|a s], n as [|b n]; unfold omitempty, JBytes;
    repeat match goal with |- context [b64_encode (?x :: ?y)] => let e := fresh "e" in set (e := b64_encode (x :: y)); clearbody e end;
    set (em := b64_encode m); clearbody em;
    lazy -[b64_decode]; repeat (destruct (b64_decode _); [|done]); done.
Qed.
Lemma complete_set c : set_struct complete_fields no_complete (complete_json c) = Some c.
Proof. destruct c. reflexivity. Qed.
Lemma problem_set p : set_struct problem_fields no_problem (problem_json p) = Some p.
Proof. destruct p. reflexivity. Qed.
Lemma server_hello_set h : set_struct server_hello_fields no_server_hello (server_hello_json h) = Some h.
Proof.
  destruct h as [a b c d l].
  assert (Hl : mapM (set_string []) (map JStr l) = Some l) by (induction l as [|x l IH]; cbn; [done|]; by rewrite IH).
  transitivity (mkServerHello a b c d <$> mapM (set_string []) (map JStr l)); [|by rewrite Hl]. lazy -[mapM set_string map]. by destruct (mapM _ _).
Qed.

(** Field names are ASCII. *)
Lemma ascii_text l : forallb (fun b => (0 <=? b) && (b <? 128)) l = true -> text l.
Proof. intros Hl. apply text_ascii. apply List.Forall_forall. intros b Hb. rewrite forallb_forall in Hl. specialize (Hl b Hb). apply andb_true_iff in Hl as [? ?]. zbool. lia. Qed.
Ltac names := first [assumption | by apply ascii_text | by apply b64_text].
Lemma transcript_printable t : transcript_text t -> printable 1 (transcript_json t).
Proof.
  intros (? & ? & ? & ? & ? & ? & ? & ? & ?). apply printable_obj. repeat (apply Forall_cons; split; [split; [cbn [fst]; names|apply printable_str; names]|]).
  apply List.Forall_nil.
Qed.
Lemma omitempty_printable n k b j : text k -> printable n j -> Forall (fun kx => text kx.1 /\ printable n kx.2) (omitempty k b j).
Proof. intros Hk Hj. destruct b; constructor; try done. Qed.
Lemma client_hello_printable h : client_hello_text h -> printable 2 (client_hello_json h).
Proof.
  intros (Ht & ? & ? & ?). apply printable_obj. apply Forall_cons. split.
  { split; [names|]. cbn [snd]. by apply transcript_printable. }
  apply Forall_app. split; [apply omitempty_printable; [names|apply printable_str; names]|].
  apply Forall_app. split; (apply omitempty_printable; [names|apply printable_str; names]).
Qed.
Lemma proof_printable p : proof_text p -> printable 1 (proof_json p).
Proof.
  intros (? & ? & ?). apply printable_obj. apply Forall_app. split; [apply omitempty_printable; [names|apply printable_str; names]|].
  apply Forall_app. split; [apply omitempty_printable; [names|apply printable_str; names]|]. apply Forall_cons. split; [|apply List.Forall_nil].
  split; [names|]. apply printable_str. names.
Qed.
Lemma complete_printable c : complete_text c -> printable 1 (complete_json c).
Proof.
  intros (? & ? & ? & ?). apply printable_obj. repeat (apply Forall_cons; split; [split; [cbn [fst]; names|apply printable_str; names]|]). apply List.Forall_nil.
Qed.
Lemma problem_printable p : problem_text p -> printable 1 (problem_json p).
Proof.
  intros (? & ?). apply printable_obj. repeat (apply Forall_cons; split; [split; [cbn [fst]; names|apply printable_str; names]|]). apply List.Forall_nil.
Qed.

Lemma server_hello_printable h :
  text (sh_ServerID h) -> text (sh_HostKeyAlgorithm h) -> text (sh_HostKeyFingerprint h) -> text (sh_ProductVersion h) -> Forall text (sh_Protocols h) ->
  printable 2 (server_hello_json h).
Proof.
  intros ? ? ? ? Hl. apply printable_obj. do 4 (apply Forall_cons; split; [split; [cbn [fst]; names|apply printable_str; names]|]).
  apply Forall_cons. split; [|apply List.Forall_nil]. split; [cbn [fst]; names|]. apply printable_arr, Forall_map. eapply Forall_impl; [exact Hl|]. intros x Hx. by apply printable_str.
Qed.
End pairing.
