(* ===== verification/KVStore.v ===== *)
(** * Per-app key/value stores (internal/runner/kv.go)

    [MemStore], the in-memory store with key-count and byte quotas, and
    [FileStore], the same store persisted to a file after every mutation.  Both
    are instances of the [Store] interface of the source, here a type class;
    what the interface promises its clients is stated against the abstract
    contents [view] of a store in [StoreLaws]. *)

From stdpp Require Import sorting.
From S2P Require Import Prelude Abi AbiCaps Sha256 Utf8 Keys.

Abbreviation kvmap := (gmap bytes bytes).

Inductive StoreErr := ErrQuota | ErrConflict | ErrListLimit | ErrIO | errRPC.

(** ** The Store interface

    A call may change the state of the implementation (a proxy's stream, a
    file); [Get] and [List] report a backing failure on the left. *)
Class Store (S : Type) := {
  kv_Get : S -> bytes -> S * (StoreErr + option bytes);
  kv_Set : S -> bytes -> bytes -> S * option StoreErr;
  kv_Delete : S -> bytes -> S * option StoreErr;
  kv_List : S -> bytes -> Z -> S * (StoreErr + list bytes);
  kv_CompareAndSwap : S -> bytes -> bytes -> bytes -> S * option StoreErr }.

(** ** Keys ([strings.HasPrefix]; their order is in Keys.v) *)

Definition has_prefix (k p : bytes) : bool := bool_decide (take (length p) k = p).

(** ** MemStore *)

Record MemStore := mkMemStore {
  m : kvmap; st_bytes : Z; maxKeys : Z; maxBytes : Z }.

Definition NewMemStore (maxKeys maxBytes : Z) : MemStore := mkMemStore ∅ 0 maxKeys maxBytes.

Definition DefaultMaxKeys : Z := 1000.
Definition DefaultMaxBytes : Z := 4 * 1024 * 1024.

Definition MemStore_Get (s : MemStore) (key : bytes) : option bytes := m s !! key.

(** The quota check and write shared, in the source by repetition, by [Set] and
    [compareAndSwapLocked]: [len(prev)] is 0 when the key is absent. *)
Definition MemStore_Set (s : MemStore) (key value : bytes) : MemStore * option StoreErr :=
  let prev := m s !! key in
  let existed := bool_decide (is_Some prev) in
  let newBytes := st_bytes s + len value - len (default [] prev) in
  let newBytes := if existed then newBytes else newBytes + len key in
  if negb existed && (0 <? maxKeys s) && (maxKeys s <? Z.of_nat (size (m s)) + 1)
  then (s, Some ErrQuota) else
  if (0 <? maxBytes s) && (maxBytes s <? newBytes) then (s, Some ErrQuota) else
  (mkMemStore (<[key := value]> (m s)) newBytes (maxKeys s) (maxBytes s), None).

Definition MemStore_Delete (s : MemStore) (key : bytes) : MemStore * option StoreErr :=
  match m s !! key with
  | Some v =>
    (mkMemStore (delete key (m s)) (st_bytes s - (len key + len v)) (maxKeys s) (maxBytes s), None)
  | None => (s, None)
  end.

(** The keys are collected in map iteration order, which Go leaves unspecified;
    [List_order_irrelevant] below shows that it does not matter. *)
Definition MemStore_List (s : MemStore) (prefix : bytes) (limit : Z) : StoreErr + list bytes :=
  if (limit <? 1) || (KVMaxList <? limit) then inl ErrListLimit else
  let keys := filter (fun k => has_prefix k prefix) (map fst (map_to_list (m s))) in
  let keys := sort_keys keys in
  let keys := if limit <? len keys then take (Z.to_nat limit) keys else keys in
  inr keys.

Definition zero_hash : bytes := replicate 32 0.

Definition compareAndSwapLocked (s : MemStore) (key expected value : bytes)
  : MemStore * option StoreErr :=
  let previous := m s !! key in
  let existed := bool_decide (is_Some previous) in
  let actual := match previous with Some v => sha256 v | None => zero_hash end in
  if negb (bool_decide (actual = expected)) then (s, Some ErrConflict) else
  let newBytes := st_bytes s + len value - len (default [] previous) in
  let newBytes := if existed then newBytes else newBytes + len key in
  if negb existed && (0 <? maxKeys s) && (maxKeys s <? Z.of_nat (size (m s)) + 1)
  then (s, Some ErrQuota) else
  if (0 <? maxBytes s) && (maxBytes s <? newBytes) then (s, Some ErrQuota) else
  (mkMemStore (<[key := value]> (m s)) newBytes (maxKeys s) (maxBytes s), None).

Definition MemStore_CompareAndSwap (s : MemStore) (key expected value : bytes)
  : MemStore * option StoreErr := compareAndSwapLocked s key expected value.

Definition snapshot (s : MemStore) : kvmap := m s.

#[export] Instance MemStore_Store : Store MemStore := {
  kv_Get s k := (s, inr (MemStore_Get s k));
  kv_Set := MemStore_Set;
  kv_Delete := MemStore_Delete;
  kv_List s p n := (s, MemStore_List s p n);
  kv_CompareAndSwap := MemStore_CompareAndSwap }.

(** ** FileStore

    A MemStore and the contents of the file at its path.  JSON is
    [encoding/json]: a parameter, of which only the documented round trip is
    used.  Each persist attempt meets one entry of [fs_io], the outcomes of the
    operating-system calls it makes; when the list is exhausted they succeed. *)

Record IO := mkIO { mkdir_ok : bool; write_ok : bool; rename_ok : bool }.

Record FileStore := mkFileStore { fs_mem : MemStore; fs_disk : option bytes; fs_io : list IO }.

(** What [os.ReadFile] finds when a store is opened. *)
Inductive ReadResult := Contents (data : bytes) | NotExist | ReadFailed.

(** Sum of [len(key)+len(value)] over the entries. *)
Definition total_size (mm : kvmap) : Z := map_fold (fun k v acc => acc + (len k + len v)) 0 mm.

Section FileStoreCode.
Context (marshal : kvmap -> option bytes) (unmarshal : bytes -> option kvmap).

Definition NewFileStore (file : ReadResult) (io : list IO) (maxKeys maxBytes : Z)
  : option FileStore :=
  let ms := NewMemStore maxKeys maxBytes in
  match file with
  | Contents data =>
    match unmarshal data with
    | None => None
    | Some raw =>
      Some (mkFileStore (mkMemStore raw (total_size raw) maxKeys maxBytes) (Some data) io)
    end
  | NotExist => Some (mkFileStore ms None io)
  | ReadFailed => None
  end.

(** [persistLocked]: marshal, make the directory, write a temporary file and
    rename it over the old one.  Only the rename touches the file itself. *)
Definition persistLocked (s : FileStore) : FileStore * option StoreErr :=
  let '(io, rest) := match fs_io s with
                     | [] => (mkIO true true true, [])
                     | io :: rest => (io, rest)
                     end in
  let s := mkFileStore (fs_mem s) (fs_disk s) rest in
  match marshal (m (fs_mem s)) with
  | None => (s, Some ErrIO)
  | Some data =>
    if negb (mkdir_ok io) then (s, Some ErrIO) else
    if negb (write_ok io) then (s, Some ErrIO) else
    if negb (rename_ok io) then (s, Some ErrIO) else
    (mkFileStore (fs_mem s) (Some data) rest, None)
  end.

Definition with_mem (s : FileStore) (ms : MemStore) : FileStore :=
  mkFileStore ms (fs_disk s) (fs_io s).

Definition set_contents (ms : MemStore) (mm : kvmap) (b : Z) : MemStore :=
  mkMemStore mm b (maxKeys ms) (maxBytes ms).

Definition FileStore_Set (s : FileStore) (key value : bytes) : FileStore * option StoreErr :=
  let ms := fs_mem s in
  let previous := m ms !! key in
  let existed := bool_decide (is_Some previous) in
  let previousBytes := st_bytes ms in
  let newBytes := st_bytes ms + len value - len (default [] previous) in
  let newBytes := if existed then newBytes else newBytes + len key in
  if negb existed && (0 <? maxKeys ms) && (maxKeys ms <? Z.of_nat (size (m ms)) + 1)
  then (s, Some ErrQuota) else
  if (0 <? maxBytes ms) && (maxBytes ms <? newBytes) then (s, Some ErrQuota) else
  let s := with_mem s (set_contents ms (<[key := value]> (m ms)) newBytes) in
  let '(s, err) := persistLocked s in
  match err with
  | Some e =>
    let restored := match previous with
                    | Some p => <[key := p]> (m (fs_mem s))
                    | None => delete key (m (fs_mem s))
                    end in
    (with_mem s (set_contents ms restored previousBytes), Some e)
  | None => (s, None)
  end.

Definition FileStore_Delete (s : FileStore) (key : bytes) : FileStore * option StoreErr :=
  let ms := fs_mem s in
  match m ms !! key with
  | None => (s, None)
  | Some previous =>
    let previousBytes := st_bytes ms in
    let s := with_mem s (set_contents ms (delete key (m ms))
                           (st_bytes ms - (len key + len previous))) in
    let '(s, err) := persistLocked s in
    match err with
    | Some e =>
      (with_mem s (set_contents ms (<[key := previous]> (m (fs_mem s))) previousBytes), Some e)
    | None => (s, None)
    end
  end.

Definition FileStore_CompareAndSwap (s : FileStore) (key expected value : bytes)
  : FileStore * option StoreErr :=
  let ms := fs_mem s in
  let previous := m ms !! key in
  let previousBytes := st_bytes ms in
  let '(ms', err) := compareAndSwapLocked ms key expected value in
  match err with
  | Some e => (with_mem s ms', Some e)
  | None =>
    let '(s, err) := persistLocked (with_mem s ms') in
    match err with
    | Some e =>
      let restored := match previous with
                      | Some p => <[key := p]> (m (fs_mem s))
                      | None => delete key (m (fs_mem s))
                      end in
      (with_mem s (set_contents ms restored previousBytes), Some e)
    | None => (s, None)
    end
  end.

(** [Get] and [List] are the embedded MemStore's. *)
Definition FileStore_Store : Store FileStore := {|
  kv_Get s k := (s, inr (MemStore_Get (fs_mem s) k));
  kv_Set := FileStore_Set;
  kv_Delete := FileStore_Delete;
  kv_List s p n := (s, MemStore_List (fs_mem s) p n);
  kv_CompareAndSwap := FileStore_CompareAndSwap |}.

End FileStoreCode.

(** ** What a store promises

    [view] is the abstract contents, [sinv] an implementation's invariant.
    Reads answer from the contents; a successful write is exactly the map
    update; a failed one leaves the contents alone.  As the interface's comment
    says, the host enforces the size caps before a store is reached, so clients
    promise keys and values within them. *)

Definition key_ok (k : bytes) : Prop := 1 <= len k <= KVMaxKey.
Definition val_ok (v : bytes) : Prop := len v <= KVMaxValue.

Definition digest (o : option bytes) : bytes :=
  match o with Some v => sha256 v | None => zero_hash end.

Definition list_keys (mm : kvmap) (prefix : bytes) (limit : Z) : list bytes :=
  take (Z.to_nat limit)
    (sort_keys (filter (fun k => has_prefix k prefix) (map fst (map_to_list mm)))).

Class StoreLaws (S : Type) `{Store S} := {
  view : S -> kvmap;
  sinv : S -> Prop;
  get_spec s k s' r :
    sinv s -> key_ok k -> kv_Get s k = (s', r) ->
    sinv s' /\ view s' = view s /\ (forall o, r = inr o -> o = view s !! k);
  set_spec s k v s' e :
    sinv s -> key_ok k -> val_ok v -> kv_Set s k v = (s', e) ->
    sinv s' /\ view s' = match e with None => <[k := v]> (view s) | Some _ => view s end;
  delete_spec s k s' e :
    sinv s -> key_ok k -> kv_Delete s k = (s', e) ->
    sinv s' /\ view s' = match e with None => delete k (view s) | Some _ => view s end;
  list_spec s p n s' r :
    sinv s -> len p <= KVMaxKey -> 1 <= n <= KVMaxList -> kv_List s p n = (s', r) ->
    sinv s' /\ view s' = view s /\ (forall ks, r = inr ks -> ks = list_keys (view s) p n);
  cas_spec s k x v s' e :
    sinv s -> key_ok k -> len x = KVHashSize -> val_ok v -> kv_CompareAndSwap s k x v = (s', e) ->
    sinv s' /\
    view s' = match e with None => <[k := v]> (view s) | Some _ => view s end /\
    (e = None -> digest (view s !! k) = x) /\
    (e = Some ErrConflict -> digest (view s !! k) <> x) }.

(** ** Sizes *)

Lemma total_size_delete mm k v :
  mm !! k = Some v -> total_size mm = total_size (delete k mm) + (len k + len v).
Proof.
  intros Hk. unfold total_size.
  rewrite (map_fold_delete_L (fun k v acc => acc + (len k + len v)) 0 k v mm); [done| |done].
  intros. lia.
Qed.

Lemma total_size_insert_new mm k v :
  mm !! k = None -> total_size (<[k := v]> mm) = total_size mm + (len k + len v).
Proof.
  intros Hk. rewrite (total_size_delete _ k v) by (by rewrite lookup_insert_eq).
  by rewrite delete_insert_id.
Qed.

Lemma total_size_insert mm k v :
  total_size (<[k := v]> mm) =
    total_size mm + len v - len (default [] (mm !! k))
    + (if bool_decide (is_Some (mm !! k)) then 0 else len k).
Proof.
  destruct (mm !! k) as [p|] eqn:Hk.
  - rewrite bool_decide_eq_true_2 by eauto. simpl default.
    rewrite <- (insert_delete_eq mm k v).
    rewrite total_size_insert_new by apply lookup_delete_eq.
    rewrite (total_size_delete mm k p) by done. lia.
  - rewrite bool_decide_eq_false_2 by (intros []; congruence). simpl default.
    rewrite total_size_insert_new by done. rewrite len_nil. lia.
Qed.

(** ** Keys in order *)

Definition matching (mm : kvmap) (prefix : bytes) : list bytes :=
  filter (fun k => has_prefix k prefix) (map fst (map_to_list mm)).

Lemma matching_spec mm p k :
  k ∈ matching mm p <-> is_Some (mm !! k) /\ has_prefix k p = true.
Proof.
  unfold matching. rewrite list_elem_of_filter, Is_true_true.
  rewrite list_elem_of_fmap. split.
  - intros [Hp [[k' v] [-> Hk]]]. apply elem_of_map_to_list in Hk. eauto.
  - intros [[v Hv] Hp]. split; [done|]. exists (k, v). by rewrite elem_of_map_to_list.
Qed.

Lemma matching_NoDup mm p : NoDup (matching mm p).
Proof. apply NoDup_filter, NoDup_fst_map_to_list. Qed.

Lemma MemStore_List_keys s p n :
  1 <= n <= KVMaxList -> MemStore_List s p n = inr (list_keys (m s) p n).
Proof.
  intros Hn. unfold MemStore_List, list_keys.
  rewrite !(proj2 (Z.ltb_ge _ _)) by lia. cbn [orb]. f_equal.
  destruct (n <? len _) eqn:Hl; [done|]. zbool. rewrite take_ge; [done|].
  unfold len in Hl. lia.
Qed.

(** ** MemStore: accounting and quotas *)

Definition counted (s : MemStore) : Prop := st_bytes s = total_size (m s).

(** The contents [mm] respect the quotas of [s] (non-positive: unlimited). *)
Definition within_quota (s : MemStore) (mm : kvmap) : Prop :=
  (0 < maxKeys s -> Z.of_nat (size mm) <= maxKeys s) /\
  (0 < maxBytes s -> total_size mm <= maxBytes s).

Definition same_quota (s s' : MemStore) : Prop :=
  maxKeys s' = maxKeys s /\ maxBytes s' = maxBytes s.

(** The write of [Set] and of [compareAndSwapLocked]: either the quota refuses
    it and nothing happens, or the entry and the count are updated. *)
Lemma MemStore_Set_cases s k v s' e :
  counted s -> MemStore_Set s k v = (s', e) ->
  (e = Some ErrQuota /\ s' = s /\
     (within_quota s (m s) -> ~ within_quota s (<[k := v]> (m s)))) \/
  (e = None /\ m s' = <[k := v]> (m s) /\ counted s' /\ same_quota s s' /\
     (within_quota s (m s) -> within_quota s (<[k := v]> (m s)))).
Proof.
  intros Hc H. unfold MemStore_Set in H. rewrite Hc in H.
  pose proof (total_size_insert (m s) k v) as Hsz. unfold within_quota.
  assert (Hsize : size (<[k := v]> (m s)) =
            (size (m s) + if bool_decide (is_Some (m s !! k)) then 0 else 1)%nat).
  { destruct (m s !! k) eqn:Hk; [rewrite map_size_insert_Some, bool_decide_eq_true_2 by eauto; lia|].
    rewrite map_size_insert_None, bool_decide_eq_false_2 by (eauto || intros []; congruence). lia. }
  rewrite Hsize. destruct (bool_decide (is_Some (m s !! k))); cbn [negb andb] in H.
  - replace (total_size (m s) + len v - len (default [] (m s !! k)))
      with (total_size (<[k := v]> (m s))) in H by lia.
    destruct (_ && _) eqn:Hb; injection H as <- <-; zbool; [left|right].
    + split_and!; try done. intros _ [_ Hq]. lia.
    + split_and!; try done. intros [Hk _]. split; [lia|].
      apply andb_false_iff in Hb as [Hb|Hb]; zbool; lia.
  - replace (total_size (m s) + len v - len (default [] (m s !! k)) + len k)
      with (total_size (<[k := v]> (m s))) in H by lia.
    destruct ((0 <? maxKeys s) && _) eqn:Hkq; [injection H as <- <-; zbool; left|].
    { split_and!; try done. intros _ [Hq _]. lia. }
    destruct ((0 <? maxBytes s) && _) eqn:Hb; injection H as <- <-; zbool; [left|right].
    + split_and!; try done. intros _ [_ Hq]. lia.
    + split_and!; try done. intros _. split.
      * apply andb_false_iff in Hkq as [Hkq|Hkq]; zbool; lia.
      * apply andb_false_iff in Hb as [Hb|Hb]; zbool; lia.
Qed.

(** A conditional write is a comparison followed by [Set]. *)
Lemma cas_is_set s k x v :
  compareAndSwapLocked s k x v =
    if bool_decide (digest (m s !! k) = x) then MemStore_Set s k v else (s, Some ErrConflict).
Proof.
  unfold compareAndSwapLocked, digest. by destruct (bool_decide _).
Qed.

Lemma MemStore_Delete_spec s k s' e :
  counted s -> MemStore_Delete s k = (s', e) ->
  e = None /\ m s' = delete k (m s) /\ counted s' /\ same_quota s s'.
Proof.
  intros Hc H. unfold MemStore_Delete in H. destruct (m s !! k) as [v|] eqn:Hk;
    injection H as <- <-.
  - split_and!; try done. unfold counted; cbn [m st_bytes]. rewrite Hc.
    rewrite (total_size_delete (m s) k v) by done. lia.
  - by rewrite delete_id.
Qed.

Lemma within_quota_delete s k : within_quota s (m s) -> within_quota s (delete k (m s)).
Proof.
  intros [Hk Hb]. destruct (m s !! k) as [v|] eqn:Hl; [|by rewrite delete_id].
  pose proof (total_size_delete (m s) k v Hl) as Ht.
  rewrite <- (insert_delete_id (m s) k v Hl), map_size_insert_None in Hk by apply lookup_delete_eq.
  len_pos. split; intros; [|lia]. specialize (Hk ltac:(done)). lia.
Qed.

Lemma within_quota_proper s s' mm : same_quota s s' -> within_quota s mm <-> within_quota s' mm.
Proof. intros [Hk Hb]. unfold within_quota. by rewrite Hk, Hb. Qed.

#[export] Instance MemStore_laws : StoreLaws MemStore.
Proof.
  refine {| view := m; sinv := counted |}.
  - intros s k s' r Hi _ H. injection H as <- <-. split_and!; [done|done|]. intros o [= <-]. done.
  - intros s k v s' e Hi _ _ H. cbn in H.
    destruct (MemStore_Set_cases _ _ _ _ _ Hi H) as [(-> & -> & _)|(-> & Hm & Hc & _)]; done.
  - intros s k s' e Hi _ H. cbn in H.
    destruct (MemStore_Delete_spec _ _ _ _ Hi H) as (-> & Hm & Hc & _). done.
  - intros s p n s' r Hi _ Hn H. cbn in H. injection H as <- <-. split_and!; [done|done|].
    rewrite MemStore_List_keys by done. by intros ks [= <-].
  - intros s k x v s' e Hi _ _ _ H. cbn in H. unfold MemStore_CompareAndSwap in H. rewrite cas_is_set in H.
    destruct (bool_decide _) eqn:Hd; [apply bool_decide_eq_true in Hd|apply bool_decide_eq_false in Hd].
    + destruct (MemStore_Set_cases _ _ _ _ _ Hi H) as [(-> & -> & _)|(-> & Hm & Hc & _)]; done.
    + by injection H as <- <-.
Defined.

(** ** FileStore *)

Section FileStoreProofs.
Context (marshal : kvmap -> option bytes) (unmarshal : bytes -> option kvmap).

Lemma persistLocked_cases s s' e :
  persistLocked marshal s = (s', e) ->
  fs_mem s' = fs_mem s /\
  ((e = Some ErrIO /\ fs_disk s' = fs_disk s) \/
   (e = None /\ exists d, marshal (m (fs_mem s)) = Some d /\ fs_disk s' = Some d)).
Proof.
  unfold persistLocked. intros H.
  destruct (match fs_io s with [] => _ | _ => _ end) as [io rest]. cbn [fs_mem fs_disk] in H.
  destruct (marshal _) as [d|]; [|injection H as <- <-; auto].
  destruct (mkdir_ok io), (write_ok io), (rename_ok io); cbn [negb] in H;
    injection H as <- <-; eauto 10.
Qed.

(** What a mutation of a FileStore may do: commit the MemStore outcome [ms'] to
    memory and disk, or report an error with memory and disk as they were. *)
Definition committed (s s' : FileStore) (ms' : MemStore) : Prop :=
  fs_mem s' = ms' /\
  ((m ms' = m (fs_mem s) /\ fs_disk s' = fs_disk s) \/
   exists d, marshal (m ms') = Some d /\ fs_disk s' = Some d).

Definition untouched (s s' : FileStore) : Prop :=
  fs_mem s' = fs_mem s /\ fs_disk s' = fs_disk s.

(** Restoring the previous entry after a failed persist restores the map. *)
Lemma restore_insert (mm : kvmap) k v :
  match mm !! k with
  | Some p => <[k := p]> (<[k := v]> mm)
  | None => delete k (<[k := v]> mm)
  end = mm.
Proof.
  destruct (mm !! k) eqn:Hk.
  - by rewrite insert_insert_eq, insert_id.
  - by rewrite delete_insert_id.
Qed.

Lemma set_contents_id s : set_contents s (m s) (st_bytes s) = s.
Proof. by destruct s. Qed.

Lemma FileStore_Set_cases s k v s' e :
  FileStore_Set marshal s k v = (s', e) ->
  (exists ms', MemStore_Set (fs_mem s) k v = (ms', None) /\
     ((e = None /\ committed s s' ms') \/ (e = Some ErrIO /\ untouched s s'))) \/
  (e = Some ErrQuota /\ s' = s /\ MemStore_Set (fs_mem s) k v = (fs_mem s, Some ErrQuota)).
Proof.
  intros H. unfold FileStore_Set in H. unfold MemStore_Set.
  destruct (negb _ && _ && _) eqn:Hk; [injection H as <- <-; auto|].
  destruct ((0 <? maxBytes _) && _) eqn:Hb; [injection H as <- <-; auto|].
  left. eexists. split; [reflexivity|]. fold (set_contents (fs_mem s)).
  destruct (persistLocked _ _) as [s1 e1] eqn:Hp.
  destruct (persistLocked_cases _ _ _ Hp) as [Hm [(-> & Hd)|(-> & d & Hj & Hd)]];
    cbn [fs_mem fs_disk with_mem] in *; injection H as <- <-.
  - right. split; [done|]. split; cbn [fs_mem fs_disk with_mem]; [|done].
    rewrite Hm. cbn [m set_contents]. rewrite restore_insert. apply set_contents_id.
  - left. split; [done|]. split; [done|]. right. eauto.
Qed.

Lemma FileStore_Delete_cases s k s' e :
  FileStore_Delete marshal s k = (s', e) ->
  (e = None /\ committed s s' (MemStore_Delete (fs_mem s) k).1) \/
  (e = Some ErrIO /\ untouched s s').
Proof.
  intros H. unfold FileStore_Delete in H. unfold MemStore_Delete.
  destruct (m (fs_mem s) !! k) as [p|] eqn:Hk;
    [|injection H as <- <-; left; split; [done|]; split; [done|]; by left].
  destruct (persistLocked _ _) as [s1 e1] eqn:Hp.
  destruct (persistLocked_cases _ _ _ Hp) as [Hm [(-> & Hd)|(-> & d & Hj & Hd)]];
    cbn [fs_mem fs_disk with_mem] in *; injection H as <- <-.
  - right. split; [done|]. split; cbn [fs_mem fs_disk with_mem]; [|done].
    rewrite Hm. cbn [m set_contents]. rewrite insert_delete_id by done. apply set_contents_id.
  - left. split; [done|]. split; [done|]. right. eauto.
Qed.

Lemma FileStore_CAS_cases s k x v s' e :
  FileStore_CompareAndSwap marshal s k x v = (s', e) ->
  (digest (m (fs_mem s) !! k) <> x /\ e = Some ErrConflict /\ s' = s) \/
  (digest (m (fs_mem s) !! k) = x /\ FileStore_Set marshal s k v = (s', e)).
Proof.
  intros H. unfold FileStore_CompareAndSwap in H. rewrite cas_is_set in H.
  assert (Hs : with_mem s (fs_mem s) = s) by (by destruct s).
  destruct (bool_decide _) eqn:Hd;
    [apply bool_decide_eq_true in Hd|apply bool_decide_eq_false in Hd].
  2: { injection H as <- <-. left. by rewrite Hs. }
  right. split; [done|]. unfold MemStore_Set in H. unfold FileStore_Set.
  destruct (negb _ && _ && _) eqn:?; [by rewrite Hs in H|].
  destruct ((0 <? maxBytes _) && _) eqn:?; [by rewrite Hs in H|]. done.
Qed.

(** The embedded accounting stays right. *)
Definition FileStore_laws : @StoreLaws FileStore (FileStore_Store marshal).
Proof.
  refine (@Build_StoreLaws FileStore (FileStore_Store marshal)
            (fun s => m (fs_mem s)) (fun s => counted (fs_mem s)) _ _ _ _ _); cbn beta.
  - intros s k s' r Hi _ H. injection H as <- <-. split_and!; [done|done|]. intros o [= <-]. done.
  - intros s k v s' e Hi _ _ H. cbn in H.
    destruct (FileStore_Set_cases _ _ _ _ _ H) as [(ms & Hs & [[-> [-> _]]|[-> [-> _]]])|(-> & -> & _)];
      [|done|done].
    destruct (MemStore_Set_cases _ _ _ _ _ Hi Hs) as [(? & _)|(_ & Hm & Hc & _)]; done.
  - intros s k s' e Hi _ H. cbn in H.
    destruct (FileStore_Delete_cases _ _ _ _ H) as [[-> [-> _]]|[-> [-> _]]]; [|done].
    destruct (MemStore_Delete (fs_mem s) k) as [ms e'] eqn:Hd.
    by destruct (MemStore_Delete_spec _ _ _ _ Hi Hd) as (-> & Hm & Hc & _).
  - intros s p n s' r Hi _ Hn H. cbn in H. injection H as <- <-. split_and!; [done|done|].
    rewrite MemStore_List_keys by done. by intros ks [= <-].
  - intros s k x v s' e Hi _ _ _ H. cbn in H.
    destruct (FileStore_CAS_cases _ _ _ _ _ _ H) as [(? & -> & ->)|(Hd & H2)]; [done|].
    destruct (FileStore_Set_cases _ _ _ _ _ H2) as [(ms & Hs & [[-> [-> _]]|[-> [-> _]]])|(-> & -> & _)];
      [|done|done].
    destruct (MemStore_Set_cases _ _ _ _ _ Hi Hs) as [(? & _)|(_ & Hm & Hc & _)]; done.
Defined.

(** *** Durability

    encoding/json's documentation: a map with valid UTF-8 keys survives
    [Marshal] and [Unmarshal] (other keys are coerced to valid UTF-8). *)
Definition keys_utf8 (mm : kvmap) : Prop := map_Forall (fun k _ => utf8_valid k = true) mm.

Context (json_roundtrip : forall mm d, keys_utf8 mm -> marshal mm = Some d -> unmarshal d = Some mm).

(** The file holds the contents in memory; no file, no contents. *)
Definition on_disk (s : FileStore) : Prop :=
  match fs_disk s with
  | Some d => unmarshal d = Some (m (fs_mem s))
  | None => m (fs_mem s) = ∅
  end.

Definition file_inv (s : FileStore) : Prop :=
  counted (fs_mem s) /\ keys_utf8 (m (fs_mem s)) /\ on_disk s.

Inductive KVOp := DoSet (k v : bytes) | DoDelete (k : bytes) | DoCAS (k x v : bytes).

Definition op_key (o : KVOp) : bytes :=
  match o with DoSet k _ => k | DoDelete k => k | DoCAS k _ _ => k end.

Definition file_op (s : FileStore) (o : KVOp) : FileStore * option StoreErr :=
  match o with
  | DoSet k v => FileStore_Set marshal s k v
  | DoDelete k => FileStore_Delete marshal s k
  | DoCAS k x v => FileStore_CompareAndSwap marshal s k x v
  end.

Definition file_run (s : FileStore) (os : list KVOp) : FileStore :=
  fold_left (fun s o => (file_op s o).1) os s.

Lemma committed_inv s s' ms' :
  file_inv s -> counted ms' -> keys_utf8 (m ms') -> committed s s' ms' -> file_inv s'.
Proof.
  intros (_ & _ & Hd) Hc Hk (He & Hcom). unfold file_inv, on_disk in *. rewrite He.
  split_and!; [done|done|].
  destruct Hcom as [[Hm ->]|(d & Hj & ->)]; [by rewrite Hm|by apply json_roundtrip].
Qed.

Lemma untouched_inv s s' : file_inv s -> untouched s s' -> file_inv s'.
Proof. intros (Hc & Hk & Hd) [Hm Hf]. unfold file_inv, on_disk. by rewrite Hm, Hf. Qed.

Lemma FileStore_Set_inv s k v s' e :
  utf8_valid k = true -> file_inv s -> FileStore_Set marshal s k v = (s', e) -> file_inv s'.
Proof.
  intros Hk Hi H.
  destruct (FileStore_Set_cases _ _ _ _ _ H) as [(ms & Hs & [[-> Hc]|[-> Hc]])|(-> & -> & _)];
    [|by eapply untouched_inv|done].
  destruct (MemStore_Set_cases _ _ _ _ _ (proj1 Hi) Hs) as [(? & _)|(_ & Hm & Hcnt & _)]; [done|].
  eapply committed_inv; [done|done| |done]. rewrite Hm.
  apply map_Forall_insert_2; [done|]. apply Hi.
Qed.

Lemma file_op_inv s o s' e :
  utf8_valid (op_key o) = true -> file_inv s -> file_op s o = (s', e) -> file_inv s'.
Proof.
  destruct o as [k v|k|k x v]; cbn [op_key file_op]; intros Hk Hi H.
  - by eapply FileStore_Set_inv.
  - destruct (FileStore_Delete_cases _ _ _ _ H) as [[-> Hc]|[-> Hc]]; [|by eapply untouched_inv].
    destruct (MemStore_Delete (fs_mem s) k) as [ms e'] eqn:Hd.
    destruct (MemStore_Delete_spec _ _ _ _ (proj1 Hi) Hd) as (_ & Hm & Hcnt & _).
    eapply committed_inv; [done|done| |done]. cbn [fst]. rewrite Hm. apply map_Forall_delete, Hi.
  - destruct (FileStore_CAS_cases _ _ _ _ _ _ H) as [(_ & _ & ->)|(_ & H2)]; [done|].
    by eapply FileStore_Set_inv.
Qed.

Lemma file_run_inv os s :
  Forall (fun o => utf8_valid (op_key o) = true) os -> file_inv s -> file_inv (file_run s os).
Proof.
  intros Ho. revert s. induction Ho as [|o os Hk _ IH]; intros s Hi; [done|].
  cbn [file_run fold_left]. apply IH. destruct (file_op s o) eqn:He. by eapply file_op_inv.
Qed.

(** A store opened on a file holding [mm] (or on no file) satisfies the invariant. *)
Lemma NewFileStore_inv file io mk mb s :
  (forall d raw, file = Contents d -> unmarshal d = Some raw -> keys_utf8 raw) ->
  NewFileStore unmarshal file io mk mb = Some s -> file_inv s.
Proof.
  intros Hf H. unfold NewFileStore in H. destruct file as [d| |]; [|injection H as <-|done].
  - destruct (unmarshal d) as [raw|] eqn:Hd; [|done]. injection H as <-.
    split_and!; [done| |done]. eapply Hf; eauto.
  - split_and!; [done|apply map_Forall_empty|done].
Qed.

Definition disk_file (s : FileStore) : ReadResult :=
  match fs_disk s with Some d => Contents d | None => NotExist end.

Lemma reopen s io :
  file_inv s ->
  exists s', NewFileStore unmarshal (disk_file s) io (maxKeys (fs_mem s)) (maxBytes (fs_mem s)) = Some s' /\
             fs_mem s' = fs_mem s.
Proof.
  intros (Hc & Hk & Hd). unfold NewFileStore, disk_file, on_disk in *.
  destruct (fs_disk s) as [d|].
  - rewrite Hd. eexists. split; [done|]. cbn [fs_mem]. rewrite <- Hc. by destruct (fs_mem s).
  - eexists. split; [done|]. unfold counted in Hc. rewrite Hd in Hc. cbn [fs_mem].
    destruct (fs_mem s); cbn in *. by subst.
Qed.

End FileStoreProofs.

(** ** Theorems *)

(** (quotas are exact): with the byte count right and the contents within
    quota, [Set] and a matching [CompareAndSwap] succeed exactly when the
    resulting contents are within the key and byte quotas; they then store the
    entry, keep the count right and stay within quota, and otherwise leave the
    store alone.  [Delete] always succeeds and stays within quota. *)
Theorem mem_quota_exact s k v :
  counted s -> within_quota s (m s) ->
  compareAndSwapLocked s k (digest (m s !! k)) v = MemStore_Set s k v /\
  (let '(s', e) := MemStore_Set s k v in
   (e = None <-> within_quota s (<[k := v]> (m s))) /\
   (e = None -> m s' = <[k := v]> (m s)) /\ (e <> None -> e = Some ErrQuota /\ s' = s) /\
   counted s' /\ same_quota s s' /\ within_quota s' (m s')) /\
  (let '(s', e) := MemStore_Delete s k in
   e = None /\ m s' = delete k (m s) /\ counted s' /\ same_quota s s' /\ within_quota s' (m s')).
Proof.
  intros Hc Hq. split; [by rewrite cas_is_set, bool_decide_eq_true_2|]. split.
  - destruct (MemStore_Set s k v) as [s' e] eqn:H.
    destruct (MemStore_Set_cases _ _ _ _ _ Hc H) as [(-> & -> & Hno)|(-> & Hm & Hc' & Hs & Hyes)].
    + by split_and!; [split; [done|intros ?; exfalso; by apply Hno]|..].
    + split_and!; try done; [by split; auto|]. rewrite Hm. apply (within_quota_proper s); auto.
  - destruct (MemStore_Delete s k) as [s' e] eqn:H.
    destruct (MemStore_Delete_spec _ _ _ _ Hc H) as (-> & Hm & Hc' & Hs). split_and!; try done.
    rewrite Hm. apply (within_quota_proper s); [done|]. by apply within_quota_delete.
Qed.

Lemma mem_quota_exact_witness :
  (MemStore_Set (NewMemStore 1 8) (str "k") (str "value")).2 = None.
Proof.
  pose proof (mem_quota_exact (NewMemStore 1 8) (str "k") (str "value")
    ltac:(reflexivity) ltac:(split; intros; vm_compute; discriminate)) as (_ & H & _).
  destruct (MemStore_Set _ _ _) as [s' e]. apply H. split; intros; vm_compute; discriminate.
Defined.

(** (listing): within the limits, [List] returns the first [n] keys with the
    prefix in byte order: keys of the store, strictly sorted, and a matching key
    is left out only when [n] keys, none of them greater, were returned.  The
    order in which the map is iterated cannot be observed; out-of-range limits
    are refused. *)
Theorem list_exact s p n :
  (~ (1 <= n <= KVMaxList) -> MemStore_List s p n = inl ErrListLimit) /\
  (1 <= n <= KVMaxList ->
   exists ks, MemStore_List s p n = inr ks /\
    (forall iteration, iteration ≡ₚ map fst (map_to_list (m s)) ->
       ks = take (Z.to_nat n) (sort_keys (filter (fun k => has_prefix k p) iteration))) /\
    len ks <= n /\ NoDup ks /\ StronglySorted key_le ks /\
    (forall k, k ∈ ks -> is_Some (m s !! k) /\ has_prefix k p = true) /\
    (forall k, is_Some (m s !! k) -> has_prefix k p = true -> ~ k ∈ ks ->
       len ks = n /\ forall k', k' ∈ ks -> key_le k' k)).
Proof.
  split.
  { intros Hn. unfold MemStore_List. destruct (n <? 1) eqn:?; [done|].
    destruct (KVMaxList <? n) eqn:?; [done|]. zbool. lia. }
  intros Hn. exists (list_keys (m s) p n). split; [by apply MemStore_List_keys|].
  unfold list_keys. fold (matching (m s) p). set (l := sort_keys (matching (m s) p)).
  assert (Hl : forall k, k ∈ l <-> is_Some (m s !! k) /\ has_prefix k p = true).
  { intros k. subst l. by rewrite sort_keys_perm, matching_spec. }
  assert (Hsplit : take (Z.to_nat n) l ++ drop (Z.to_nat n) l = l) by apply take_drop.
  pose proof (sort_keys_sorted (matching (m s) p)) as Hsort. fold l in Hsort.
  split_and!.
  - intros it Hit. subst l. unfold matching. f_equal. apply sort_keys_order. by rewrite Hit.
  - len_lia.
  - apply (sublist_NoDup _ l); [|apply sublist_take]. subst l.
    rewrite sort_keys_perm. apply matching_NoDup.
  - rewrite <- Hsplit in Hsort. by apply StronglySorted_app_1_l in Hsort.
  - intros k Hk. apply Hl. exact (subseteq_take _ _ _ Hk).
  - intros k Hk Hp Hno. assert (Hkl : k ∈ l) by (by apply Hl).
    rewrite <- Hsplit in Hkl. apply elem_of_app in Hkl as [?|Hd]; [done|]. split.
    + destruct (decide (Z.to_nat n < length l)%nat); [rewrite len_take; unfold len; lia|].
      rewrite drop_ge in Hd by lia. by apply not_elem_of_nil in Hd.
    + intros k' Hk'. rewrite <- Hsplit in Hsort. exact (StronglySorted_app_1_elem_of _ _ _ _ _ Hsort Hk' Hd).
Qed.

Lemma list_exact_witness : exists s,
  MemStore_List s (str "a") 2 = inr [str "a"; str "a1"] /\
  MemStore_List s (str "a") 0 = inl ErrListLimit.
Proof.
  set (s := mkMemStore {[ str "b" := []; str "a2" := []; str "a1" := []; str "a" := [] ]} 6 0 0).
  exists s. split; [vm_compute; reflexivity|]. apply (list_exact s (str "a") 0). lia.
Defined.

(** C4 (durable transactions): whatever fails underneath, after any sequence
    of writes with UTF-8 keys the file holds exactly the contents in memory: a
    write that reported an error changed neither, and opening the file again
    gives the same entries and byte count. *)
Theorem file_store_durable marshal unmarshal
    (json_roundtrip : forall mm d, keys_utf8 mm -> marshal mm = Some d -> unmarshal d = Some mm)
    io mk mb s os :
  NewFileStore unmarshal NotExist io mk mb = Some s ->
  Forall (fun o => utf8_valid (op_key o) = true) os ->
  let s1 := file_run marshal s os in
  (forall io', exists s2,
     NewFileStore unmarshal (disk_file s1) io' (maxKeys (fs_mem s1)) (maxBytes (fs_mem s1)) = Some s2 /\
     fs_mem s2 = fs_mem s1) /\
  (forall o s2 e, file_op marshal s1 o = (s2, Some e) -> untouched s1 s2).
Proof.
  intros Hn Ho s1. split.
  - intros io'. apply reopen. apply file_run_inv; [done..|].
    eapply NewFileStore_inv; [|exact Hn]. done.
  - intros o s2 e H. assert (Hu : untouched s1 s1) by done.
    assert (Hset : forall k v, FileStore_Set marshal s1 k v = (s2, Some e) -> untouched s1 s2).
    { intros k v Hs. destruct (FileStore_Set_cases _ _ _ _ _ _ Hs)
        as [(ms & _ & [[? _]|[_ ?]])|(_ & -> & _)]; done. }
    destruct o as [k v|k|k x v]; cbn [file_op] in H; [eauto| |].
    + destruct (FileStore_Delete_cases _ _ _ _ _ H) as [[? _]|[_ ?]]; done.
    + destruct (FileStore_CAS_cases _ _ _ _ _ _ _ H) as [(_ & _ & ->)|(_ & Hs)]; eauto.
Qed.

(** A codec of maps standing for JSON. *)
Definition map_marshal (mm : kvmap) : option bytes := Some [Z.pos (encode mm)].
Definition map_unmarshal (d : bytes) : option kvmap :=
  match d with [Z.pos p] => decode p | _ => None end.

Lemma file_store_durable_witness : exists s2,
  NewFileStore map_unmarshal
    (disk_file (file_run map_marshal
       (mkFileStore (NewMemStore 0 0) None [mkIO true true true; mkIO true true false])
       [DoSet (str "a") (str "1"); DoSet (str "a") (str "2")])) [] 0 0 = Some s2 /\
  m (fs_mem s2) = {[ str "a" := str "1" ]}.
Proof.
  destruct (file_store_durable map_marshal map_unmarshal
    ltac:(intros mm d _ [= <-]; apply decode_encode)
    [mkIO true true true; mkIO true true false] 0 0 _
    [DoSet (str "a") (str "1"); DoSet (str "a") (str "2")] eq_refl
    ltac:(repeat constructor)) as [H _].
  destruct (H []) as (s2 & Hs & Hm). exists s2. split; [exact Hs|]. rewrite Hm. reflexivity.
Defined.
