(* ===== verification/Bus.v ===== *)
(** * Pub/sub between the sessions of an app (internal/runner/bus.go)

    [MemBus] and its subscriptions.  A [*Subscription] is an address into the
    heap of subscriptions, since the registry and the session share it.  Each
    critical section of the source is one atomic step; [Subscribe], [Close] and
    [Publish] are written twice, as the sequence of their steps run without
    interruption, and as steps of a relation in which any number of sessions
    interleave. *)

From S2P Require Import Prelude Abi.

(** ** Interfaces

    What the host functions and the worker proxy need of a bus: [Publish]
    returns the number of subscriptions reached, [Subscribe] (on the session's
    own subscription) whether it was refused. *)
Class Bus (B : Type) := {
  bus_Publish : B -> bytes -> bytes -> B * Z;
  bus_Subscribe : B -> bytes -> B * bool }.       (* [true]: a non-nil error *)

(** ** State *)

Definition busInboxSize : Z := 64.
Definition busMaxTopicsPerSession : Z := 256.

Definition addr := nat.

Record Subscription := mkSubscription {
  events : list Event; topics : gset bytes; closed : bool }.

Record MemBus := mkMemBus {
  subs : gmap bytes (gset addr);      (* the registry *)
  heap : gmap addr Subscription }.

Definition NewMemBus : MemBus := mkMemBus ∅ ∅.

Definition with_sub (b : MemBus) (a : addr) (s : Subscription) : MemBus :=
  mkMemBus (subs b) (<[a := s]> (heap b)).

(** ** Operations *)

Definition Open (b : MemBus) : MemBus * addr :=
  let a := fresh (dom (heap b)) in
  (with_sub b a (mkSubscription [] ∅ false), a).

Definition register (b : MemBus) (topic : bytes) (a : addr) : MemBus :=
  let set := default ∅ (subs b !! topic) in
  mkMemBus (<[topic := {[a]} ∪ set]> (subs b)) (heap b).

Definition unregister (b : MemBus) (topic : bytes) (a : addr) : MemBus :=
  match subs b !! topic with
  | Some set =>
    let set := set ∖ {[a]} in
    if (size set =? 0)%nat then mkMemBus (delete topic (subs b)) (heap b)
    else mkMemBus (<[topic := set]> (subs b)) (heap b)
  | None => b
  end.

(** The part of [Subscribe] under [s.mu]: [SubRegister] when it goes on to
    [register]. *)
Inductive SubStep := SubDone | SubTooMany | SubRegister.

Definition subscribe_locked (s : Subscription) (topic : bytes) : Subscription * SubStep :=
  if closed s || bool_decide (topic ∈ topics s) then (s, SubDone) else
  if busMaxTopicsPerSession <=? Z.of_nat (size (topics s)) then (s, SubTooMany) else
  (mkSubscription (events s) ({[topic]} ∪ topics s) (closed s), SubRegister).

(** [true]: ErrTooManyBusTopics.  A dangling address cannot occur in Go. *)
Definition Subscribe (b : MemBus) (a : addr) (topic : bytes) : MemBus * bool :=
  match heap b !! a with
  | None => (b, false)
  | Some s =>
    let '(s, next) := subscribe_locked s topic in
    let b := with_sub b a s in
    match next with
    | SubDone => (b, false)
    | SubTooMany => (b, true)
    | SubRegister => (register b topic a, false)
    end
  end.

(** The part of [Close] under [s.mu]: the topics to unregister. *)
Definition close_locked (s : Subscription) : Subscription * list bytes :=
  if closed s then (s, []) else
  (mkSubscription (events s) (topics s) true, elements (topics s)).

Definition Close (b : MemBus) (a : addr) : MemBus :=
  match heap b !! a with
  | None => b
  | Some s =>
    let '(s, ts) := close_locked s in
    fold_left (fun b t => unregister b t a) ts (with_sub b a s)
  end.

(** A message event of a subscription's inbox. *)
Definition message (topic data : bytes) : Event :=
  mkEvent KindMessage 0 0 0 0 0 topic data 0 0 0 0 0.

(** A send on the buffered channel, or the [default] case. *)
Definition deliver (s : Subscription) (topic data : bytes) : Subscription * bool :=
  if len (events s) <? busInboxSize
  then (mkSubscription (events s ++ [message topic data]) (topics s) (closed s), true)
  else (s, false).

Definition deliver_at (b : MemBus) (topic data : bytes) (a : addr) : MemBus * bool :=
  match heap b !! a with
  | None => (b, false)
  | Some s => let '(s, ok) := deliver s topic data in (with_sub b a s, ok)
  end.

Definition targets (b : MemBus) (topic : bytes) : list addr :=
  elements (default ∅ (subs b !! topic)).

Fixpoint deliver_all (b : MemBus) (topic data : bytes) (ts : list addr) (n : Z) : MemBus * Z :=
  match ts with
  | [] => (b, n)
  | a :: ts =>
    let '(b, ok) := deliver_at b topic data a in
    deliver_all b topic data ts (if (ok : bool) then n + 1 else n)
  end.

Definition Publish (b : MemBus) (topic data : bytes) : MemBus * Z :=
  deliver_all b topic data (targets b topic) 0.

(** A session's handle: the bus and its own subscription. *)
Record BusSession := mkBusSession { bs_bus : MemBus; bs_sub : addr }.

#[export] Instance BusSession_Bus : Bus BusSession := {
  bus_Publish h t d := let '(b, n) := Publish (bs_bus h) t d in (mkBusSession b (bs_sub h), n);
  bus_Subscribe h t := let '(b, e) := Subscribe (bs_bus h) (bs_sub h) t in
                       (mkBusSession b (bs_sub h), e) }.

(** ** Interleaved sessions

    Threads between two critical sections: a [Subscribe] that still has to
    register, a [Close] with topics left to unregister, a [Publish] with
    targets left to deliver to. *)
Inductive Thread :=
| InSubscribe (a : addr) (topic : bytes)
| InClose (a : addr) (ts : list bytes)
| InPublish (topic data : bytes) (ts : list addr).

Record BusState := mkBusState { st_bus : MemBus; threads : list Thread }.

Inductive bus_step : BusState -> BusState -> Prop :=
| step_open b ths b' a :
    Open b = (b', a) -> bus_step (mkBusState b ths) (mkBusState b' ths)
| step_subscribe b ths a s s' topic :
    heap b !! a = Some s -> subscribe_locked s topic = (s', SubRegister) ->
    bus_step (mkBusState b ths) (mkBusState (with_sub b a s') (InSubscribe a topic :: ths))
| step_register b l r a topic :
    bus_step (mkBusState b (l ++ InSubscribe a topic :: r)) (mkBusState (register b topic a) (l ++ r))
| step_close b ths a s s' ts :
    heap b !! a = Some s -> close_locked s = (s', ts) ->
    bus_step (mkBusState b ths) (mkBusState (with_sub b a s') (InClose a ts :: ths))
| step_unregister b l r a t ts :
    bus_step (mkBusState b (l ++ InClose a (t :: ts) :: r))
             (mkBusState (unregister b t a) (l ++ InClose a ts :: r))
| step_publish b ths topic data :
    bus_step (mkBusState b ths) (mkBusState b (InPublish topic data (targets b topic) :: ths))
| step_deliver b b' ok l r topic data a ts :
    deliver_at b topic data a = (b', ok) ->
    bus_step (mkBusState b (l ++ InPublish topic data (a :: ts) :: r))
             (mkBusState b' (l ++ InPublish topic data ts :: r))
| step_receive b ths a s ev evs :
    heap b !! a = Some s -> events s = ev :: evs ->
    bus_step (mkBusState b ths)
             (mkBusState (with_sub b a (mkSubscription evs (topics s) (closed s))) ths).

Inductive bus_reachable : BusState -> Prop :=
| reach_init : bus_reachable (mkBusState NewMemBus [])
| reach_step st st' : bus_reachable st -> bus_step st st' -> bus_reachable st'.

(** ** What interleaving cannot break *)

(** [a] has, at some point, accepted [topic]. *)
Definition subscribed (b : MemBus) (a : addr) (topic : bytes) : Prop :=
  exists s, heap b !! a = Some s /\ topic ∈ topics s.

Definition sub_ok (s : Subscription) : Prop :=
  len (events s) <= busInboxSize /\ Z.of_nat (size (topics s)) <= busMaxTopicsPerSession /\
  Forall (fun e => exists t d, e = message t d /\ t ∈ topics s) (events s).

Definition thread_ok (b : MemBus) (t : Thread) : Prop :=
  match t with
  | InSubscribe a topic => subscribed b a topic
  | InClose _ _ => True
  | InPublish topic _ ts => Forall (fun a => subscribed b a topic) ts
  end.

Definition bus_inv (st : BusState) : Prop :=
  map_Forall (fun _ s => sub_ok s) (heap (st_bus st)) /\
  (forall t set a, subs (st_bus st) !! t = Some set -> a ∈ set -> subscribed (st_bus st) a t) /\
  Forall (thread_ok (st_bus st)) (threads st).

(** Topics only accumulate, so what was subscribed stays so. *)
Definition grows (b b' : MemBus) : Prop :=
  forall a s, heap b !! a = Some s -> exists s', heap b' !! a = Some s' /\ topics s ⊆ topics s'.

Lemma grows_subscribed b b' a t : grows b b' -> subscribed b a t -> subscribed b' a t.
Proof. intros Hg (s & Hs & Ht). destruct (Hg a s Hs) as (s' & Hs' & Hsub). exists s'. set_solver. Qed.

Lemma grows_refl b : grows b b.
Proof. intros a s Hs. eauto. Qed.

Lemma grows_with_sub b a s :
  (forall s0, heap b !! a = Some s0 -> topics s0 ⊆ topics s) -> grows b (with_sub b a s).
Proof.
  intros Hs a' s0 Ha'. unfold with_sub; cbn [heap]. destruct (decide (a = a')) as [<-|Hne].
  - rewrite lookup_insert_eq. exists s. split; [done|auto].
  - rewrite lookup_insert_ne by done. eauto.
Qed.

Lemma thread_ok_grows b b' t : grows b b' -> thread_ok b t -> thread_ok b' t.
Proof.
  intros Hg. destruct t; cbn [thread_ok]; [by apply grows_subscribed|done|].
  intros Ht. eapply Forall_impl; [exact Ht|]. intros x. by apply grows_subscribed.
Qed.

Lemma threads_grow b b' l : grows b b' -> Forall (thread_ok b) l -> Forall (thread_ok b') l.
Proof. intros Hg Hl. eapply Forall_impl; [exact Hl|]. intros t. by apply thread_ok_grows. Qed.

(** Replacing one subscription by a good one with at least its topics. *)
Lemma inv_with_sub b ths ths' a s :
  bus_inv (mkBusState b ths) ->
  (forall s0, heap b !! a = Some s0 -> topics s0 ⊆ topics s) -> sub_ok s ->
  Forall (thread_ok (with_sub b a s)) ths' ->
  bus_inv (mkBusState (with_sub b a s) ths').
Proof.
  intros (Hh & Hr & _) Hsub Hok Ht. split_and!; cbn [st_bus threads] in *.
  - by apply map_Forall_insert_2.
  - intros t set a' Hl Ha'. eapply grows_subscribed; [by apply grows_with_sub|]. by eapply Hr.
  - done.
Qed.

Lemma subscribe_locked_spec s topic s' n :
  subscribe_locked s topic = (s', n) -> sub_ok s ->
  topics s ⊆ topics s' /\ sub_ok s' /\ events s' = events s /\ closed s' = closed s /\
  (n = SubRegister -> topics s' = {[topic]} ∪ topics s /\ closed s = false /\ ~ topic ∈ topics s) /\
  (n <> SubRegister -> s' = s).
Proof.
  intros H (He & Ht & Hm). unfold subscribe_locked in H.
  destruct (closed s || _) eqn:Hc; [by injection H as <- <-|].
  apply orb_false_iff in Hc as [Hc Hn]. apply bool_decide_eq_false in Hn.
  destruct (busMaxTopicsPerSession <=? _) eqn:Hz; [by injection H as <- <-|]. zbool.
  injection H as <- <-. unfold sub_ok. cbn [topics events closed]. split_and!; try done; [set_solver| |].
  - rewrite size_union, size_singleton by set_solver. lia.
  - eapply Forall_impl; [exact Hm|]. intros e (t & d & -> & Hin). exists t, d. set_solver.
Qed.

Lemma deliver_spec s topic data s' ok :
  deliver s topic data = (s', ok) -> sub_ok s -> topic ∈ topics s ->
  topics s' = topics s /\ closed s' = closed s /\ sub_ok s'.
Proof.
  intros H (He & Ht & Hm) Hin. unfold deliver in H. destruct (_ <? _) eqn:Hl; injection H as <- <-;
    [|by repeat split]. zbool. unfold busInboxSize in *. unfold sub_ok. cbn [topics closed events].
  split_and!; [done|done|unfold busInboxSize; len_lia|done|].
  apply Forall_app_2; [done|]. constructor; [|constructor]. by exists topic, data.
Qed.

Lemma unregister_subset b t a t' set :
  subs (unregister b t a) !! t' = Some set ->
  exists set0, subs b !! t' = Some set0 /\ set ⊆ set0.
Proof.
  unfold unregister. destruct (subs b !! t) as [set0|] eqn:Ht; [|eauto].
  destruct (_ =? 0)%nat; cbn [subs]; intros Hs.
  - apply lookup_delete_Some in Hs as [_ Hs]. eauto.
  - destruct (decide (t = t')) as [<-|Hne].
    + rewrite lookup_insert_eq in Hs. injection Hs as <-. exists set0. split; [done|set_solver].
    + rewrite lookup_insert_ne in Hs by done. eauto.
Qed.

Lemma unregister_heap b t a : heap (unregister b t a) = heap b.
Proof. unfold unregister. repeat case_match; done. Qed.

(** The step keeps the topics of the subscription it replaces. *)
Ltac same_sub :=
  let H0 := fresh in intros ? H0; simplify_map_eq; set_solver.

Lemma inv_open b ths b' a :
  Open b = (b', a) -> bus_inv (mkBusState b ths) -> bus_inv (mkBusState b' ths).
Proof.
  intros [= <- _] Hi.
  assert (Hf : heap b !! fresh (dom (heap b)) = None) by (apply not_elem_of_dom, is_fresh).
  apply inv_with_sub with ths; [done|congruence|by repeat split|].
  eapply threads_grow; [|apply Hi]. apply grows_with_sub. congruence.
Qed.

Lemma inv_subscribe b ths a s s' topic :
  heap b !! a = Some s -> subscribe_locked s topic = (s', SubRegister) ->
  bus_inv (mkBusState b ths) -> bus_inv (mkBusState (with_sub b a s') (InSubscribe a topic :: ths)).
Proof.
  intros Ha Hs Hi. pose proof Hi as (Hh & _ & Ht).
  destruct (subscribe_locked_spec _ _ _ _ Hs (map_Forall_lookup_1 _ _ _ _ Hh Ha))
    as (Hsub & Hok & _ & _ & Hreg & _).
  destruct (Hreg eq_refl) as (Htop & _).
  apply inv_with_sub with ths; [done|same_sub|done|].
  constructor; [|eapply threads_grow; [apply grows_with_sub; same_sub|exact Ht]].
  exists s'. cbn [with_sub heap]. rewrite lookup_insert_eq. split; [done|set_solver].
Qed.

Lemma inv_register b l r a topic :
  bus_inv (mkBusState b (l ++ InSubscribe a topic :: r)) ->
  bus_inv (mkBusState (register b topic a) (l ++ r)).
Proof.
  intros (Hh & Hr & Ht). cbn [st_bus threads] in *.
  apply Forall_app in Ht as [Hl Hr']. apply Forall_cons in Hr' as [Ha Hr'].
  split_and!; cbn [st_bus threads register heap subs]; [done| |by apply Forall_app_2].
  intros t set a' Hl' Ha'. destruct (decide (topic = t)) as [<-|Hne].
  - rewrite lookup_insert_eq in Hl'. injection Hl' as <-.
    apply elem_of_union in Ha' as [Ha'|Ha']; [apply elem_of_singleton in Ha' as ->; exact Ha|].
    destruct (subs b !! topic) as [set0|] eqn:E; cbn in Ha'; [by eapply Hr|set_solver].
  - rewrite lookup_insert_ne in Hl' by done. by eapply Hr.
Qed.

Lemma inv_close b ths a s s' ts :
  heap b !! a = Some s -> close_locked s = (s', ts) ->
  bus_inv (mkBusState b ths) -> bus_inv (mkBusState (with_sub b a s') (InClose a ts :: ths)).
Proof.
  intros Ha Hs Hi. pose proof Hi as (Hh & _ & Ht).
  assert (Hs' : topics s' = topics s /\ events s' = events s).
  { unfold close_locked in Hs. destruct (closed s); by injection Hs as <- _. }
  destruct Hs' as [Htop Hev]. apply inv_with_sub with ths; [done|same_sub| |].
  - unfold sub_ok. rewrite Htop, Hev. by apply (map_Forall_lookup_1 _ _ _ _ Hh Ha).
  - constructor; [done|]. eapply threads_grow; [|exact Ht]. apply grows_with_sub. same_sub.
Qed.

Lemma inv_unregister b l r a t ts :
  bus_inv (mkBusState b (l ++ InClose a (t :: ts) :: r)) ->
  bus_inv (mkBusState (unregister b t a) (l ++ InClose a ts :: r)).
Proof.
  intros (Hh & Hr & Ht). cbn [st_bus threads] in *.
  assert (Hg : grows b (unregister b t a)) by (intros x y; rewrite unregister_heap; eauto).
  apply Forall_app in Ht as [Hl Hr']. apply Forall_cons in Hr' as [_ Hr'].
  split_and!; cbn [st_bus threads].
  - by rewrite unregister_heap.
  - intros t' set a' Hl' Ha'. destruct (unregister_subset _ _ _ _ _ Hl') as (set0 & H0 & Hsub).
    eapply grows_subscribed; [exact Hg|]. eapply Hr; [exact H0|set_solver].
  - apply Forall_app_2; [by eapply threads_grow|]. constructor; [done|by eapply threads_grow].
Qed.

Lemma targets_subscribed b ths topic :
  bus_inv (mkBusState b ths) -> Forall (fun a => subscribed b a topic) (targets b topic).
Proof.
  intros (_ & Hr & _). apply Forall_forall. intros a Ha. unfold targets in Ha.
  apply elem_of_elements in Ha. cbn [st_bus] in Hr.
  destruct (subs b !! topic) as [set|] eqn:E; cbn in Ha; [by eapply Hr|set_solver].
Qed.

Lemma inv_deliver b b' ok l r topic data a ts :
  deliver_at b topic data a = (b', ok) ->
  bus_inv (mkBusState b (l ++ InPublish topic data (a :: ts) :: r)) ->
  bus_inv (mkBusState b' (l ++ InPublish topic data ts :: r)).
Proof.
  intros Hd Hi. pose proof Hi as (Hh & _ & Ht). cbn [st_bus threads] in *.
  apply Forall_app in Ht as [Hl Hr']. apply Forall_cons in Hr' as [Hp Hr'].
  apply Forall_cons in Hp as [(s & Hs & Hin) Hts]. unfold deliver_at in Hd. rewrite Hs in Hd.
  destruct (deliver s topic data) as [s' k] eqn:E. injection Hd as <- <-.
  destruct (deliver_spec _ _ _ _ _ E (map_Forall_lookup_1 _ _ _ _ Hh Hs) Hin) as (Htop & _ & Hok).
  assert (Hg : grows b (with_sub b a s')) by (apply grows_with_sub; same_sub).
  eapply inv_with_sub; [exact Hi|same_sub|done|].
  apply Forall_app_2; [by eapply threads_grow|].
  constructor; [exact (thread_ok_grows _ _ (InPublish topic data ts) Hg Hts)|by eapply threads_grow].
Qed.

Lemma inv_receive b ths a s ev evs :
  heap b !! a = Some s -> events s = ev :: evs -> bus_inv (mkBusState b ths) ->
  bus_inv (mkBusState (with_sub b a (mkSubscription evs (topics s) (closed s))) ths).
Proof.
  intros Ha He Hi. pose proof Hi as (Hh & _ & Ht).
  destruct (map_Forall_lookup_1 _ _ _ _ Hh Ha) as (Hlen & Hsz & Hm). rewrite He in *.
  apply Forall_cons in Hm as [_ Hm]. eapply inv_with_sub; [exact Hi|same_sub| |].
  - split_and!; cbn [events topics]; [len_lia|done|done].
  - eapply threads_grow; [|exact Ht]. apply grows_with_sub. same_sub.
Qed.

Lemma bus_step_inv st st' : bus_step st st' -> bus_inv st -> bus_inv st'.
Proof.
  destruct 1; intros Hi.
  - by eapply inv_open.
  - by eapply inv_subscribe.
  - by apply inv_register.
  - by eapply inv_close.
  - by eapply inv_unregister.
  - pose proof Hi as (? & ? & ?). split_and!; [done|done|]. constructor; [|done].
    by eapply targets_subscribed.
  - by eapply inv_deliver.
  - by eapply inv_receive.
Qed.

Lemma bus_reachable_inv st : bus_reachable st -> bus_inv st.
Proof.
  induction 1 as [|st st' _ IH Hs]; [|by eapply bus_step_inv].
  split_and!; [apply map_Forall_empty| |constructor]. intros t set a Ht. cbn [st_bus subs NewMemBus] in Ht. by rewrite lookup_empty in Ht.
Qed.

(** ** Uninterrupted operations: the registry is exact *)

(** A topic's set holds exactly the open subscriptions to it, and no set is
    empty. *)
Definition registry_exact (b : MemBus) : Prop :=
  (forall t a, a ∈ default ∅ (subs b !! t) <->
     exists s, heap b !! a = Some s /\ closed s = false /\ t ∈ topics s) /\
  (forall t, subs b !! t <> Some ∅).

Definition seq_inv (b : MemBus) : Prop :=
  map_Forall (fun _ s => sub_ok s) (heap b) /\ registry_exact b.

Lemma register_lookup b t a t' :
  default ∅ (subs (register b t a) !! t') =
    (if decide (t = t') then {[a]} ∪ default ∅ (subs b !! t') else default ∅ (subs b !! t')).
Proof.
  unfold register; cbn [subs]. case_decide; simplify_map_eq; [done|]. done.
Qed.

Lemma unregister_lookup b t a t' :
  default ∅ (subs (unregister b t a) !! t') =
    (if decide (t = t') then default ∅ (subs b !! t') ∖ {[a]} else default ∅ (subs b !! t')).
Proof.
  unfold unregister. destruct (subs b !! t) as [set|] eqn:Ht.
  - destruct (_ =? 0)%nat eqn:Hz; cbn [subs]; case_decide; simplify_map_eq; try done.
    apply Nat.eqb_eq, size_empty_iff, leibniz_equiv in Hz. by rewrite Hz.
  - case_decide; [subst; rewrite Ht; set_solver|done].
Qed.

Lemma register_nonempty b t a :
  (forall t', subs b !! t' <> Some ∅) -> forall t', subs (register b t a) !! t' <> Some ∅.
Proof.
  intros Hn t'. unfold register; cbn [subs]. destruct (decide (t = t')) as [<-|Hne]; simplify_map_eq; [|done].
  intros [= He]. set_solver.
Qed.

Lemma unregister_nonempty b t a :
  (forall t', subs b !! t' <> Some ∅) -> forall t', subs (unregister b t a) !! t' <> Some ∅.
Proof.
  intros Hn t'. unfold unregister. destruct (subs b !! t) as [set|] eqn:Ht; [|done].
  destruct (_ =? 0)%nat eqn:Hz; cbn [subs]; (destruct (decide (t = t')) as [<-|Hne]; simplify_map_eq; try done).
  intros [= He]. rewrite He, size_empty in Hz. done.
Qed.

Lemma unregister_all_lookup ts b a t :
  heap (fold_left (fun b t => unregister b t a) ts b) = heap b /\
  ((forall t', subs b !! t' <> Some ∅) ->
   forall t', subs (fold_left (fun b t => unregister b t a) ts b) !! t' <> Some ∅) /\
  default ∅ (subs (fold_left (fun b t => unregister b t a) ts b) !! t) =
    (if decide (t ∈ ts) then default ∅ (subs b !! t) ∖ {[a]} else default ∅ (subs b !! t)).
Proof.
  revert b. induction ts as [|t0 ts IH]; intros b; cbn [fold_left].
  - split_and!; [done|auto|]. case_decide as H; [by apply not_elem_of_nil in H|done].
  - destruct (IH (unregister b t0 a)) as (-> & Hne & ->). split_and!.
    + apply unregister_heap.
    + intros Hn. apply Hne. by apply unregister_nonempty.
    + rewrite unregister_lookup. repeat case_decide; set_solver.
Qed.

(** A subscription changes while its open topics stay what the registry says. *)
Lemma exact_with_sub b a s s' :
  registry_exact b -> heap b !! a = Some s -> topics s' = topics s -> closed s' = closed s ->
  registry_exact (with_sub b a s').
Proof.
  intros [He Hn] Ha Ht Hc. split; [|exact Hn]. intros t a'. rewrite He. cbn [with_sub heap].
  destruct (decide (a = a')) as [<-|Hne]; [|by rewrite lookup_insert_ne].
  rewrite lookup_insert_eq, Ha. split; intros (x & [= <-] & Hx); [exists s'|exists s];
    split; congruence || (rewrite ?Ht, ?Hc in *; done).
Qed.

Lemma seq_open b b' a :
  seq_inv b -> Open b = (b', a) ->
  seq_inv b' /\ heap b !! a = None /\ heap b' = <[a := mkSubscription [] ∅ false]> (heap b).
Proof.
  intros [Hh [He Hn]] [= <- <-].
  assert (Hf : heap b !! fresh (dom (heap b)) = None) by (apply not_elem_of_dom, is_fresh).
  split_and!; [|done|done]. split; [by apply map_Forall_insert_2; [repeat split; done|]|].
  split; [|exact Hn]. intros t a'. rewrite He. cbn [with_sub heap].
  destruct (decide (fresh (dom (heap b)) = a')) as [<-|Hne]; [|by rewrite lookup_insert_ne].
  rewrite lookup_insert_eq, Hf. split; intros (x & [= <-] & _ & Hx). cbn in Hx. set_solver.
Qed.

(** [Subscribe]: exactly the three outcomes of its comment. *)
Lemma seq_subscribe b a s topic b' refused :
  seq_inv b -> heap b !! a = Some s -> Subscribe b a topic = (b', refused) ->
  seq_inv b' /\
  (refused = true <->
     closed s = false /\ ~ topic ∈ topics s /\ busMaxTopicsPerSession <= Z.of_nat (size (topics s))) /\
  heap b' = (if closed s || refused then heap b
             else <[a := mkSubscription (events s) ({[topic]} ∪ topics s) false]> (heap b)).
Proof.
  intros [Hh Hx] Ha H. unfold Subscribe in H. rewrite Ha in H.
  assert (Hid : with_sub b a s = b) by (destruct b; unfold with_sub; cbn in *; by rewrite insert_id).
  destruct (subscribe_locked s topic) as [s' n] eqn:Hs.
  destruct (subscribe_locked_spec _ _ _ _ Hs (map_Forall_lookup_1 _ _ _ _ Hh Ha))
    as (Hsub & Hok & Hev & Hcl & Hreg & Hno).
  unfold subscribe_locked in Hs. destruct (closed s) eqn:Hc; cbn [orb] in Hs.
  { injection Hs as <- <-. injection H as <- <-. rewrite Hid. split_and!; [done|split; [done|intros []; done]|done]. }
  destruct (bool_decide (topic ∈ topics s)) eqn:Hin.
  { apply bool_decide_eq_true in Hin. injection Hs as <- <-. injection H as <- <-. rewrite Hid.
    split_and!; [done|split; [done|intros (_ & ? & _); done]|]. cbn [orb].
    replace ({[topic]} ∪ topics s) with (topics s) by set_solver.
    rewrite insert_id; [done|]. rewrite Ha. destruct s; cbn in *; by subst. }
  apply bool_decide_eq_false in Hin.
  destruct (busMaxTopicsPerSession <=? _) eqn:Hz; injection Hs as <- <-; injection H as <- <-; zbool.
  { rewrite Hid. split_and!; [done|by split|done]. }
  split_and!; [|split; [done|intros (_ & _ & ?); lia]|done].
  destruct Hx as [He Hn]. split; [by apply map_Forall_insert_2|].
  split; [|by apply register_nonempty]. intros t a'. rewrite register_lookup. cbn [with_sub subs heap register].
  destruct (decide (a = a')) as [<-|Hne].
  - rewrite lookup_insert_eq. specialize (He t a). rewrite Ha in He. case_decide as Ht; [subst t|].
    + split; [intros _|set_solver]. eexists. split_and!; [done|done|]. cbn. set_solver.
    + rewrite He. split; intros (x & [= <-] & Hcl' & Hx); eexists; (split_and!; [done|done|]); cbn in *; set_solver.
  - rewrite lookup_insert_ne by done. rewrite <- He. case_decide; set_solver.
Qed.

Lemma seq_close b a s :
  seq_inv b -> heap b !! a = Some s ->
  seq_inv (Close b a) /\
  heap (Close b a) = <[a := mkSubscription (events s) (topics s) true]> (heap b) /\
  (forall t, ~ a ∈ default ∅ (subs (Close b a) !! t)).
Proof.
  intros [Hh [He Hn]] Ha. pose proof (map_Forall_lookup_1 _ _ _ _ Hh Ha) as Hok.
  unfold Close. rewrite Ha. unfold close_locked. destruct (closed s) eqn:Hc; cbn [fold_left].
  - assert (Hs : mkSubscription (events s) (topics s) true = s) by (destruct s; cbn in *; by subst).
    assert (Hid : with_sub b a s = b) by (destruct b; unfold with_sub; cbn in *; by rewrite insert_id).
    rewrite Hs, Hid, insert_id by done. split_and!; [done|done|].
    intros t Hin. apply He in Hin as (x & Hx & Hcl & _). congruence.
  - set (s' := mkSubscription (events s) (topics s) true).
    pose proof (unregister_all_lookup (elements (topics s)) (with_sub b a s') a) as Hu.
    assert (Hout : forall t, ~ a ∈ default ∅ (subs (fold_left (fun b t => unregister b t a)
                      (elements (topics s)) (with_sub b a s')) !! t)).
    { intros t. destruct (Hu t) as (_ & _ & ->). case_decide as Ht; [set_solver|].
      rewrite elem_of_elements in Ht. cbn [with_sub subs]. rewrite He. intros (x & Hx & _ & Hin). congruence. }
    destruct (Hu []) as (Hheap & Hne & _). split_and!; [|done|done]. split.
    { rewrite Hheap. by apply map_Forall_insert_2. }
    split; [|by apply Hne]. intros t a'. rewrite Hheap. cbn [with_sub heap].
    destruct (decide (a = a')) as [<-|Hna].
    + rewrite lookup_insert_eq. split; [by intros ?%Hout|]. intros (x & [= <-] & ? & _). done.
    + rewrite lookup_insert_ne, <- He by done. destruct (Hu t) as (_ & _ & ->).
      cbn [with_sub subs]. case_decide; set_solver.
Qed.

Definition has_room (s : Subscription) : bool := len (events s) <? busInboxSize.

(** Who is reached: the targets with room in their inbox. *)
Definition reached (b : MemBus) (ts : list addr) : list addr :=
  filter (fun a => match heap b !! a with Some s => has_room s | None => false end = true) ts.

Lemma deliver_all_spec ts b topic data n b' n' :
  NoDup ts -> deliver_all b topic data ts n = (b', n') ->
  subs b' = subs b /\
  (forall a, heap b' !! a = if decide (a ∈ ts) then (fun s => (deliver s topic data).1) <$> heap b !! a
                            else heap b !! a) /\
  n' = n + len (reached b ts).
Proof.
  intros Hnd. revert b n. induction Hnd as [|a ts Hni Hnd IH]; intros b n H; cbn [deliver_all] in H.
  - injection H as <- <-. split_and!; [done| |by rewrite Z.add_0_r].
    intros a. case_decide as Hin; [by apply not_elem_of_nil in Hin|done].
  - destruct (deliver_at b topic data a) as [b1 ok] eqn:Hd.
    assert (H1 : subs b1 = subs b /\
              (forall a', heap b1 !! a' = if decide (a = a') then (fun s => (deliver s topic data).1) <$> heap b !! a'
                                      else heap b !! a') /\
              ok = match heap b !! a with Some s => has_room s | None => false end).
    { unfold deliver_at in Hd. destruct (heap b !! a) as [s|] eqn:Ha.
      - destruct (deliver s topic data) as [s' k] eqn:E. injection Hd as <- <-. split_and!; [done| |].
        + intros a'. cbn [with_sub heap]. case_decide; simplify_map_eq; [by rewrite E|done].
        + unfold deliver in E. unfold has_room. by destruct (_ <? _); injection E as _ <-.
      - injection Hd as <- <-. split_and!; [done| |done]. intros a'. case_decide; [subst; by rewrite Ha|done]. }
    destruct H1 as (Hs1 & Hh1 & Hok). destruct (IH _ _ H) as (Hs & Hh & Hn).
    split_and!; [congruence| |].
    + intros a'. rewrite Hh, Hh1. repeat case_decide; set_solver.
    + rewrite Hn. unfold reached. rewrite filter_cons. rewrite <- Hok.
      assert (Hf : filter (fun a => match heap b1 !! a with Some s => has_room s | None => false end = true) ts
                 = filter (fun a => match heap b !! a with Some s => has_room s | None => false end = true) ts).
      { apply filter_iff_in. intros x Hx. rewrite Hh1. case_decide; [by subst|done]. }
      rewrite Hf. destruct ok; case_decide; try done; len_lia.
Qed.

Lemma seq_publish b topic data b' n :
  seq_inv b -> Publish b topic data = (b', n) ->
  seq_inv b' /\
  (forall a s, heap b !! a = Some s ->
     heap b' !! a = Some (if negb (closed s) && bool_decide (topic ∈ topics s) && has_room s
                          then mkSubscription (events s ++ [message topic data]) (topics s) (closed s)
                          else s)) /\
  n = len (reached b (targets b topic)).
Proof.
  intros [Hh [He Hn]] H.
  assert (Hnd : NoDup (targets b topic)) by apply NoDup_elements.
  destruct (deliver_all_spec _ _ _ _ _ _ _ Hnd H) as (Hs & Hheap & ->).
  assert (Hin : forall a, a ∈ targets b topic <->
            exists s, heap b !! a = Some s /\ closed s = false /\ topic ∈ topics s).
  { intros a. unfold targets. by rewrite elem_of_elements, He. }
  assert (Hpt : forall a s, heap b !! a = Some s -> exists s', heap b' !! a = Some s' /\
            topics s' = topics s /\ closed s' = closed s /\ sub_ok s').
  { intros a s Ha. pose proof (map_Forall_lookup_1 _ _ _ _ Hh Ha) as Hok. rewrite Hheap, Ha.
    case_decide as Hd; [|eauto]. apply Hin in Hd as (x & Hx & _ & Ht).
    assert (x = s) as -> by congruence. cbn [fmap option_fmap option_map].
    destruct (deliver s topic data) as [s' k] eqn:E.
    destruct (deliver_spec _ _ _ _ _ E Hok Ht) as (? & ? & ?). eauto. }
  assert (Hback : forall a s', heap b' !! a = Some s' -> exists s, heap b !! a = Some s).
  { intros a s' Ha. rewrite Hheap in Ha. case_decide; [|eauto].
    destruct (heap b !! a) eqn:E; [eauto|done]. }
  split_and!; [|intros a s Ha|done].
  - split; [|split].
    + intros a s' Ha. destruct (Hback _ _ Ha) as (s & Hs0).
      destruct (Hpt _ _ Hs0) as (x & Hx & _ & _ & Hok). congruence.
    + intros t a. rewrite Hs, He. split; intros (s & Ha & Hc & Ht).
      * destruct (Hpt _ _ Ha) as (x & Hx & Htx & Hcx & _). exists x. split_and!; congruence.
      * destruct (Hback _ _ Ha) as (s0 & Hs0). destruct (Hpt _ _ Hs0) as (x & Hx & Htx & Hcx & _).
        exists s0. assert (x = s) as -> by congruence. split_and!; congruence.
    + by rewrite Hs.
  - rewrite Hheap, Ha. cbn [fmap option_fmap option_map].
    case_decide as Hd; [apply Hin in Hd as (x & Hx & Hc & Ht); simplify_eq|].
    + rewrite Hc, bool_decide_eq_true_2 by done. cbn [negb andb]. unfold has_room, deliver.
      by destruct (_ <? _); rewrite ?Hc.
    + destruct (closed s) eqn:Hc; [done|]. destruct (decide (topic ∈ topics s)) as [Ht|Ht].
      * destruct Hd. apply Hin. eauto.
      * by rewrite bool_decide_eq_false_2.
Qed.

(** ** Theorems *)

(** (delivery): on a bus whose registry is exact, [Publish] appends the
    message to the inbox of every open subscription to the topic that has room,
    changes nothing else, and returns how many it reached; the registry stays
    exact, and a subscription that is closed, or never asked for the topic,
    gets nothing. *)
Theorem bus_publish_exact b topic data b' n :
  seq_inv b -> Publish b topic data = (b', n) ->
  seq_inv b' /\
  (forall a s, heap b !! a = Some s ->
     heap b' !! a = Some (if negb (closed s) && bool_decide (topic ∈ topics s) && has_room s
                          then mkSubscription (events s ++ [message topic data]) (topics s) (closed s)
                          else s)) /\
  n = len (reached b (targets b topic)).
Proof. apply seq_publish. Qed.

Lemma seq_inv_new : seq_inv NewMemBus.
Proof.
  split; [apply map_Forall_empty|]. split; cbn [subs heap NewMemBus].
  - intros t a. rewrite !lookup_empty. cbn. split; [set_solver|]. by intros (s & Hs & _).
  - intros t. by rewrite lookup_empty.
Qed.

(** One open subscription to a topic. *)
Definition one_listener : MemBus :=
  (Subscribe (Open NewMemBus).1 (Open NewMemBus).2 (str "chat")).1.

Lemma bus_publish_exact_witness :
  (Publish one_listener (str "chat") (str "hi")).2 = 1 /\
  seq_inv (Publish one_listener (str "chat") (str "hi")).1.
Proof.
  destruct (seq_open _ _ _ seq_inv_new eq_refl) as (H1 & _ & Hh).
  assert (Ha : heap (Open NewMemBus).1 !! (Open NewMemBus).2 = Some (mkSubscription [] ∅ false))
    by reflexivity.
  destruct (Subscribe (Open NewMemBus).1 (Open NewMemBus).2 (str "chat")) as [b e] eqn:Hs.
  destruct (seq_subscribe _ _ _ _ _ _ H1 Ha Hs) as (H2 & _).
  assert (Hb : one_listener = b) by (unfold one_listener; by rewrite Hs).
  split; [reflexivity|]. rewrite Hb.
  destruct (Publish b (str "chat") (str "hi")) as [b' n] eqn:Hp.
  apply (bus_publish_exact _ _ _ _ _ H2 Hp).
Defined.

(** (registration): opening, subscribing and closing keep the registry
    exact.  [Subscribe] is refused exactly when an open subscription asks for a
    new topic while holding [busMaxTopicsPerSession]; it is harmless on a topic
    already held and on a closed subscription.  After [Close] no topic reaches
    the subscription. *)
Theorem bus_registration b a s topic :
  seq_inv b -> heap b !! a = Some s ->
  (let '(b', a') := Open b in seq_inv b' /\ heap b !! a' = None) /\
  (let '(b', refused) := Subscribe b a topic in
   seq_inv b' /\
   (refused = true <->
      closed s = false /\ ~ topic ∈ topics s /\ busMaxTopicsPerSession <= Z.of_nat (size (topics s))) /\
   heap b' = (if closed s || refused then heap b
              else <[a := mkSubscription (events s) ({[topic]} ∪ topics s) false]> (heap b))) /\
  (seq_inv (Close b a) /\ forall t, ~ a ∈ targets (Close b a) t).
Proof.
  intros Hi Ha. split_and!.
  - destruct (Open b) as [b' a'] eqn:Ho. by destruct (seq_open _ _ _ Hi Ho) as (? & ? & _).
  - destruct (Subscribe b a topic) as [b' r] eqn:Hs. by apply (seq_subscribe _ _ _ _ _ _ Hi Ha Hs).
  - by apply (seq_close _ _ _ Hi Ha).
  - intros t. unfold targets. rewrite elem_of_elements. by apply (seq_close _ _ _ Hi Ha).
Qed.

Lemma bus_registration_witness : exists b, seq_inv b /\
  forall t, ~ (0%nat ∈ targets (Close b 0%nat) t).
Proof.
  exists (Open NewMemBus).1. destruct (seq_open _ _ _ seq_inv_new eq_refl) as (H1 & _ & _).
  split; [exact H1|].
  apply (bus_registration (Open NewMemBus).1 0%nat (mkSubscription [] ∅ false) (str "chat") H1 eq_refl).
Defined.

(** C39 (isolation under concurrency): however sessions interleave, every inbox
    stays within [busInboxSize], every subscription within
    [busMaxTopicsPerSession], and a session only ever holds messages of topics
    it subscribed to. *)
Theorem bus_interleaved_safe st a s e :
  bus_reachable st -> heap (st_bus st) !! a = Some s ->
  len (events s) <= busInboxSize /\ Z.of_nat (size (topics s)) <= busMaxTopicsPerSession /\
  (e ∈ events s -> exists t d, e = message t d /\ t ∈ topics s).
Proof.
  intros Hr Ha. destruct (bus_reachable_inv _ Hr) as (Hh & _).
  destruct (map_Forall_lookup_1 _ _ _ _ Hh Ha) as (H1 & H2 & H3). split_and!; [done|done|].
  intros He. by apply (proj1 (Forall_forall _ _) H3).
Qed.

(** The state between the two critical sections of a [Subscribe]. *)
Definition racing : BusState :=
  mkBusState (with_sub (Open NewMemBus).1 0%nat (mkSubscription [] {[str "chat"]} false))
    [InSubscribe 0%nat (str "chat")].

Lemma racing_reachable : bus_reachable racing.
Proof.
  eapply reach_step; [eapply reach_step; [apply reach_init|eapply (step_open NewMemBus []); reflexivity]|].
  apply (step_subscribe _ _ _ (mkSubscription [] ∅ false)); reflexivity.
Qed.

Lemma bus_interleaved_safe_witness : len (@nil Event) <= busInboxSize.
Proof.
  apply (bus_interleaved_safe racing 0%nat (mkSubscription [] {[str "chat"]} false) (message [] [])
           racing_reachable). reflexivity.
Defined.

(** A [Close] that runs between the critical sections of a [Subscribe] of the
    same subscription finishes before the registration: the registry then keeps
    a closed subscription for good, and messages to it are still queued. *)
Theorem subscribe_close_race : exists st s,
  bus_reachable st /\ threads st = [InClose 0%nat []] /\
  heap (st_bus st) !! 0%nat = Some s /\ closed s = true /\
  0%nat ∈ targets (st_bus st) (str "chat").
Proof.
  set (s1 := mkSubscription [] {[str "chat"]} false). set (s2 := mkSubscription [] {[str "chat"]} true).
  set (b1 := with_sub (st_bus racing) 0%nat s2).
  assert (R1 : bus_reachable (mkBusState b1 [InClose 0%nat [str "chat"]; InSubscribe 0%nat (str "chat")])).
  { eapply reach_step; [apply racing_reachable|].
    apply (step_close _ _ 0%nat s1 s2 [str "chat"]); reflexivity. }
  assert (R2 : bus_reachable (mkBusState (unregister b1 (str "chat") 0%nat)
                 [InClose 0%nat []; InSubscribe 0%nat (str "chat")])).
  { eapply reach_step; [exact R1|]. apply (step_unregister _ [] [InSubscribe 0%nat (str "chat")]). }
  exists (mkBusState (register (unregister b1 (str "chat") 0%nat) (str "chat") 0%nat) [InClose 0%nat []]), s2.
  split_and!; try reflexivity.
  - eapply reach_step; [exact R2|]. apply (step_register _ [InClose 0%nat []] []).
  - vm_compute. constructor.
Qed.
