(* ===== verification/Timer.v ===== *)
(** * Session timers (internal/runner/timer.go)

    [timerManager]: the timers a guest starts, one goroutine per timer, the
    queue of those that fired and the dispatcher that hands them to the session.
    Every critical section is an atomic operation on the state; the goroutines
    ([run], [enqueue] after its unlock, [dispatch]) are steps of a relation, so
    the theorems hold for every interleaving of them with the guest's calls. *)

From S2P Require Import Prelude Abi.

(** The service as the host functions see it. *)
Class timerService (T : Type) := {
  tm_Start : T -> Z -> bool -> T * Z;
  tm_Cancel : T -> Z -> T * bool }.

(** ** State *)

(** Where the dispatcher is: at the top of its loop, waiting for a signal,
    sending [id], just past the send, or returned. *)
Inductive Dispatcher := DTop | DWait | DHold (id : Z) | DSent (id : Z) | DDone.

(** A [*hostTimer] is an address; [runs] are the live [run] goroutines with
    their arguments, [stopped] the closed stop channels, [signalling] the
    enqueues between unlocking and signalling. *)
Record timerManager := mkTimers {
  next : Z; active : gmap Z nat; pending : list Z; queued : gset Z;
  runs : gmap nat (Z * bool); stopped : gset nat; fresh_timer : nat;
  signal : bool; signalling : nat; disp : Dispatcher; ctx_done : bool }.

Definition newTimerManager : timerManager :=
  mkTimers 0 ∅ [] ∅ ∅ ∅ 0 false 0 DTop false.

(** [uint32(^uint32(0)>>1)] *)
Definition maxTimerID : Z := Z.shiftr (2 ^ 32 - 1) 1.

(** ** Operations *)

(** The loop of [Start] that picks the next free id.  [None]: out of fuel. *)
Fixpoint pick_id (fuel : nat) (n : Z) (act : gmap Z nat) : option Z :=
  match fuel with
  | O => None
  | S fuel' =>
    let n := u32 (n + 1) in
    if negb (n =? 0) && (n <=? maxTimerID) && negb (bool_decide (is_Some (act !! n))) then Some n
    else pick_id fuel' (if maxTimerID <? n then 0 else n) act
  end.

(** At most one wrap and one round per active timer, see [pick_id_total]. *)
Definition start_fuel (act : gmap Z nat) : nat := 2 * size act + 2.

Definition Start (t : timerManager) (delay : Z) (recurring : bool) : timerManager * Z :=
  let minimum := if recurring then TimerMinEveryNanos else TimerMinDelayNanos in
  if (delay <? minimum) || (TimerMaxDelayNanos <? delay) then (t, TimerErrInvalid) else
  if TimerMaxActive <=? Z.of_nat (size (active t)) then (t, TimerErrLimit) else
  match pick_id (start_fuel (active t)) (next t) (active t) with
  | None => (t, TimerErrInternal)
  | Some id =>
    let p := fresh_timer t in
    (mkTimers id (<[id := p]> (active t)) (pending t) (queued t)
       (<[p := (id, recurring)]> (runs t)) (stopped t) (S p)
       (signal t) (signalling t) (disp t) (ctx_done t), i32 id)
  end.

(** [enqueue] up to its unlock. *)
Definition enqueue (t : timerManager) (id : Z) (recurring : bool) : timerManager :=
  match active t !! id with
  | None => t
  | Some _ =>
    let act := if recurring then active t else delete id (active t) in
    let '(pend, qd) := if bool_decide (id ∈ queued t) then (pending t, queued t)
                       else (pending t ++ [id], {[id]} ∪ queued t) in
    mkTimers (next t) act pend qd (runs t) (stopped t) (fresh_timer t)
      (signal t) (S (signalling t)) (disp t) (ctx_done t)
  end.

(** [append(t.pending[:i], t.pending[i+1:]...)] at the first [i] holding [id]. *)
Fixpoint remove_first (id : Z) (l : list Z) : list Z :=
  match l with
  | [] => []
  | x :: l' => if x =? id then l' else x :: remove_first id l'
  end.

Definition Cancel (t : timerManager) (id : Z) : timerManager * bool :=
  let '(act, stop, was) := match active t !! id with
                           | Some p => (delete id (active t), {[p]} ∪ stopped t, true)
                           | None => (active t, stopped t, false)
                           end in
  (mkTimers (next t) act (remove_first id (pending t)) (queued t ∖ {[id]}) (runs t) stop
     (fresh_timer t) (signal t) (signalling t) (disp t) (ctx_done t), was).

(** [Close]: the cancel, then its critical section. *)
Definition Close_cancel (t : timerManager) : timerManager :=
  mkTimers (next t) (active t) (pending t) (queued t) (runs t) (stopped t) (fresh_timer t)
    (signal t) (signalling t) (disp t) true.

Definition Close_locked (t : timerManager) : timerManager :=
  mkTimers (next t) ∅ [] ∅ (runs t) (list_to_set (map snd (map_to_list (active t))) ∪ stopped t)
    (fresh_timer t) (signal t) (signalling t) (disp t) (ctx_done t).

Definition with_disp (t : timerManager) (d : Dispatcher) : timerManager :=
  mkTimers (next t) (active t) (pending t) (queued t) (runs t) (stopped t) (fresh_timer t)
    (signal t) (signalling t) d (ctx_done t).

Definition with_signal (t : timerManager) (s : bool) (n : nat) : timerManager :=
  mkTimers (next t) (active t) (pending t) (queued t) (runs t) (stopped t) (fresh_timer t)
    s n (disp t) (ctx_done t).

Definition with_runs (t : timerManager) (r : gmap nat (Z * bool)) : timerManager :=
  mkTimers (next t) (active t) (pending t) (queued t) r (stopped t) (fresh_timer t)
    (signal t) (signalling t) (disp t) (ctx_done t).

(** The first critical section of [dispatch]: look at the head of the queue. *)
Definition dispatch_peek (t : timerManager) : timerManager :=
  match pending t with
  | [] => with_disp t DWait
  | id :: _ => with_disp t (if id =? 0 then DWait else DHold id)
  end.

(** The second one, after a successful send of [id]. *)
Definition dispatch_pop (t : timerManager) (id : Z) : timerManager :=
  let t := with_disp t DTop in
  match pending t with
  | x :: rest =>
    if x =? id
    then mkTimers (next t) (active t) rest (queued t ∖ {[id]}) (runs t) (stopped t) (fresh_timer t)
           (signal t) (signalling t) (disp t) (ctx_done t)
    else t
  | [] => t
  end.

#[export] Instance timerManager_service : timerService timerManager := {
  tm_Start := Start; tm_Cancel := Cancel }.

(** ** The system of goroutines *)

Inductive label := LStarted (code : Z) | LCancelled (id : Z) | LDelivered (id : Z) | LTau.

Inductive timer_step : timerManager -> label -> timerManager -> Prop :=
| ts_start t delay recurring t' code :
    Start t delay recurring = (t', code) -> timer_step t (LStarted code) t'
| ts_cancel t id t' was :
    Cancel t id = (t', was) -> timer_step t (LCancelled id) t'
| ts_fire t p id (recurring : bool) :         (* a clock fires; one-shot timers run once *)
    runs t !! p = Some (id, recurring) ->
    timer_step t LTau
      (enqueue (if recurring then t else with_runs t (delete p (runs t))) id recurring)
| ts_exit t p :                      (* <-timer.stop or <-ctx.Done() *)
    p ∈ stopped t \/ ctx_done t = true ->
    timer_step t LTau (with_runs t (delete p (runs t)))
| ts_signal t n :                    (* the non-blocking send on t.signal *)
    signalling t = S n -> timer_step t LTau (with_signal t true n)
| ts_peek t : disp t = DTop -> timer_step t LTau (dispatch_peek t)
| ts_wake t :
    disp t = DWait -> signal t = true ->
    timer_step t LTau (with_disp (with_signal t false (signalling t)) DTop)
| ts_send t id :                     (* the session receives the event *)
    disp t = DHold id -> timer_step t (LDelivered id) (with_disp t (DSent id))
| ts_pop t id : disp t = DSent id -> timer_step t LTau (dispatch_pop t id)
| ts_done t :
    ctx_done t = true -> disp t <> DTop ->
    (forall id, disp t <> DSent id) -> timer_step t LTau (with_disp t DDone)
| ts_close_cancel t : timer_step t LTau (Close_cancel t)
| ts_close_locked t : ctx_done t = true -> timer_step t LTau (Close_locked t).

Inductive timer_reachable : timerManager -> Prop :=
| tr_init : timer_reachable newTimerManager
| tr_step t l t' : timer_reachable t -> timer_step t l t' -> timer_reachable t'.

(** ** Picking an id *)

Definition valid_id (id : Z) : Prop := 1 <= id <= maxTimerID.

Lemma maxTimerID_val : maxTimerID = 2147483647.
Proof. reflexivity. Qed.

Lemma pick_id_spec fuel n act id :
  pick_id fuel n act = Some id -> valid_id id /\ act !! id = None.
Proof.
  revert n. induction fuel as [|fuel IH]; intros n H; [done|]. cbn [pick_id] in H.
  destruct (_ && _) eqn:Hc; [|by eapply IH]. injection H as <-. zbool.
  apply bool_decide_eq_false in H0. pose proof (Z.mod_pos_bound (n + 1) (2 ^ 32)).
  unfold valid_id, u32 in *. split; [lia|]. by apply eq_None_not_Some.
Qed.

(** Below the ceiling a round either picks [n + 1] or finds it active. *)
Lemma pick_id_round fuel n act :
  0 <= n < maxTimerID ->
  pick_id (S fuel) n act =
    if bool_decide (is_Some (act !! (n + 1))) then pick_id fuel (n + 1) act else Some (n + 1).
Proof.
  rewrite maxTimerID_val. intros Hn. cbn [pick_id]. rewrite maxTimerID_val, u32_small by (unfold is_u32; lia).
  rewrite (proj2 (Z.eqb_neq _ _)), (proj2 (Z.leb_le _ _)), (proj2 (Z.ltb_ge _ _)) by lia.
  cbn [negb andb]. by destruct (bool_decide _).
Qed.

Lemma pick_id_run k fuel n act :
  0 <= n -> n + Z.of_nat k <= maxTimerID ->
  (exists id, pick_id (k + fuel) n act = Some id) \/
  (pick_id (k + fuel) n act = pick_id fuel (n + Z.of_nat k) act /\
   forall i, n < i <= n + Z.of_nat k -> is_Some (act !! i)).
Proof.
  revert n. induction k as [|k IH]; intros n Hn Hk.
  - right. cbn [Nat.add]. rewrite Z.add_0_r. split; [done|lia].
  - cbn [Nat.add]. rewrite pick_id_round by lia.
    destruct (bool_decide _) eqn:Hb; [|eauto]. apply bool_decide_eq_true in Hb.
    destruct (IH (n + 1)) as [?|[He Hall]]; [lia|lia|auto|]. right. split.
    + rewrite He. f_equal. lia.
    + intros i Hi. destruct (decide (i = n + 1)) as [->|]; [done|]. apply Hall. lia.
Qed.

(** A run of active ids is no longer than the number of active timers. *)
Lemma active_run_bound (act : gmap Z nat) n k :
  (forall i, n < i <= n + Z.of_nat k -> is_Some (act !! i)) -> (k <= size act)%nat.
Proof.
  intros Hall. rewrite <- size_dom.
  replace k with (size (list_to_set (C := gset Z) (seqZ (n + 1) (Z.of_nat k)))).
  - apply subseteq_size. intros i. rewrite elem_of_list_to_set, elem_of_seqZ, elem_of_dom.
    intros Hi. apply Hall. lia.
  - rewrite size_list_to_set by apply NoDup_seqZ. rewrite length_seqZ. lia.
Qed.

Lemma pick_id_total act n :
  0 <= n <= maxTimerID -> Z.of_nat (size act) < 2 ^ 16 ->
  exists id, pick_id (start_fuel act) n act = Some id.
Proof.
  intros Hn Hs. unfold start_fuel. set (s := size act) in *.
  destruct (Z.le_gt_cases (n + Z.of_nat (S s)) maxTimerID) as [Hle|Hgt].
  - replace (2 * s + 2)%nat with (S s + S s)%nat by lia.
    destruct (pick_id_run (S s) (S s) n act) as [?|[_ Hall]]; [lia|done|done|].
    apply active_run_bound in Hall. lia.
  - rewrite maxTimerID_val in *.
    destruct (Z_of_nat_complete (2147483647 - n) ltac:(lia)) as [k Hk].
    replace (2 * s + 2)%nat with (k + S (S s + (s - k)))%nat by lia.
    destruct (pick_id_run k (S (S s + (s - k))) n act) as [?|[-> _]];
      [lia|rewrite maxTimerID_val; lia|done|].
    replace (n + Z.of_nat k) with 2147483647 by lia.
    replace (pick_id (S (S s + (s - k))) 2147483647 act) with (pick_id (S s + (s - k)) 0 act)
      by reflexivity.
    destruct (pick_id_run (S s) (s - k) 0 act) as [?|[_ Hall]];
      [lia|rewrite maxTimerID_val; lia|done|].
    apply active_run_bound in Hall. lia.
Qed.

(** ** Invariant *)

Record tm_inv (t : timerManager) : Prop := {
  inv_next : 0 <= next t <= maxTimerID;
  inv_active : map_Forall (fun id p => valid_id id /\ (p < fresh_timer t)%nat /\ ~ p ∈ stopped t) (active t);
  inv_inj : forall i j p, active t !! i = Some p -> active t !! j = Some p -> i = j;
  inv_size : Z.of_nat (size (active t)) <= TimerMaxActive;
  inv_nodup : NoDup (pending t);
  inv_queued : forall id, id ∈ queued t <-> id ∈ pending t;
  inv_pending : Forall valid_id (pending t);
  inv_stopped : forall p, p ∈ stopped t -> (p < fresh_timer t)%nat;
  (** no wakeup is lost: a waiting dispatcher with work has a signal on its way *)
  inv_wakeup : disp t = DWait -> pending t <> [] -> signal t = true \/ (0 < signalling t)%nat }.

Lemma remove_first_spec id l :
  NoDup l -> NoDup (remove_first id l) /\ forall x, x ∈ remove_first id l <-> x ∈ l /\ x <> id.
Proof.
  induction 1 as [|y l Hy Hnd IH]; cbn [remove_first].
  - split; [constructor|]. intros x. split; [by intros ?%not_elem_of_nil|by intros [?%not_elem_of_nil _]].
  - destruct IH as [IHn IHx]. destruct (y =? id) eqn:He; zbool.
    + subst y. split; [done|]. intros x. rewrite elem_of_cons. split; [|naive_solver].
      intros Hx. split; [auto|]. by intros ->.
    + split; [constructor; [by rewrite IHx; intros [? _]|done]|].
      intros x. rewrite !elem_of_cons, IHx. naive_solver.
Qed.

Lemma tm_inv_init : tm_inv newTimerManager.
Proof.
  split; cbn [newTimerManager next active pending queued stopped fresh_timer disp signal signalling].
  - rewrite maxTimerID_val. lia.
  - apply map_Forall_empty.
  - intros i j p Hi. by rewrite lookup_empty in Hi.
  - by rewrite map_size_empty.
  - constructor.
  - set_solver.
  - constructor.
  - set_solver.
  - done.
Qed.

(** [Start] on every branch. *)
Lemma Start_cases t delay recurring t' code :
  tm_inv t -> Start t delay recurring = (t', code) ->
  (t' = t /\ code = TimerErrInvalid /\
     (delay < (if recurring then TimerMinEveryNanos else TimerMinDelayNanos) \/ TimerMaxDelayNanos < delay)) \/
  (t' = t /\ code = TimerErrLimit /\ Z.of_nat (size (active t)) = TimerMaxActive) \/
  (valid_id code /\ active t !! code = None /\ Z.of_nat (size (active t)) < TimerMaxActive /\
   t' = mkTimers code (<[code := fresh_timer t]> (active t)) (pending t) (queued t)
          (<[fresh_timer t := (code, recurring)]> (runs t)) (stopped t) (S (fresh_timer t))
          (signal t) (signalling t) (disp t) (ctx_done t)).
Proof.
  intros Hi H. unfold Start in H. pose proof (inv_size _ Hi) as Hsz. unfold TimerMaxActive in *.
  destruct (_ || _) eqn:Hc.
  { left. injection H as <- <-. split_and!; [done|done|].
    apply orb_true_iff in Hc as [Hc|Hc]; zbool; auto. }
  right. destruct (64 <=? _) eqn:Hl; zbool; [left; injection H as <- <-; split_and!; try done; lia|right].
  destruct (pick_id_total (active t) (next t)) as [id Hid]; [apply Hi|lia|].
  rewrite Hid in H. injection H as <- <-. destruct (pick_id_spec _ _ _ _ Hid) as [Hv Hn].
  unfold valid_id in Hv. rewrite maxTimerID_val in Hv.
  rewrite i32_small by (unfold is_i32; lia). unfold valid_id. rewrite maxTimerID_val. split_and!; done || lia.
Qed.

(** Operations that leave the registry of timers alone only matter for the
    last clause. *)
Lemma tm_inv_frame t t' :
  tm_inv t -> next t' = next t -> active t' = active t -> pending t' = pending t ->
  queued t' = queued t -> stopped t' = stopped t -> fresh_timer t' = fresh_timer t ->
  (disp t' = DWait -> pending t' <> [] -> signal t' = true \/ (0 < signalling t')%nat) ->
  tm_inv t'.
Proof.
  intros [] Hn Ha Hp Hq Hs Hf Hw. split; rewrite ?Hn, ?Ha, ?Hp, ?Hq, ?Hs, ?Hf; try done.
  intros Hd Hne. apply Hw; [done|]. by rewrite Hp.
Qed.

Lemma Start_inv t delay recurring t' code :
  tm_inv t -> Start t delay recurring = (t', code) -> tm_inv t'.
Proof.
  intros Hi H. destruct (Start_cases _ _ _ _ _ Hi H) as [(-> & _)|[(-> & _)|(Hv & Hn & Hl & ->)]]; [done..|].
  destruct Hi as [Hnx Ha Hinj Hsz Hnd Hq Hp Hst Hw]. split; cbn [next active pending queued stopped fresh_timer disp signal signalling]; try done.
  - unfold valid_id in Hv. lia.
  - apply map_Forall_insert_2.
    + split_and!; [done|lia|]. intros Hin%Hst. lia.
    + eapply map_Forall_impl; [exact Ha|]. cbn. intros i p (? & ? & ?). split_and!; [done|lia|done].
  - intros i j p Hi Hj.
    assert (Hold : forall k, active t !! k = Some (fresh_timer t) -> False).
    { intros k Hk. destruct (Ha k _ Hk) as (_ & ? & _). lia. }
    destruct (decide (code = i)) as [<-|], (decide (code = j)) as [<-|]; simplify_map_eq; try done;
      [by exfalso; eapply Hold|by exfalso; eapply Hold|by eapply Hinj].
  - rewrite map_size_insert_None by done. lia.
  - intros p Hin%Hst. lia.
Qed.

Lemma enqueue_inv t id recurring : tm_inv t -> tm_inv (enqueue t id recurring).
Proof.
  intros Hi. unfold enqueue. destruct (active t !! id) as [p|] eqn:Hid; [|done].
  assert (Hv : valid_id id) by (by apply (inv_active _ Hi id p Hid)).
  destruct Hi as [Hnx Ha Hinj Hsz Hnd Hq Hp Hst Hw].
  assert (Hact : (if recurring then active t else delete id (active t)) ⊆ active t)
    by (destruct recurring; [done|apply delete_subseteq]).
  set (act := if recurring then _ else _) in *.
  destruct (if bool_decide _ then _ else _) as [pend qd] eqn:Hpq.
  assert (Hpend : NoDup pend /\ (forall x, x ∈ qd <-> x ∈ pend) /\ Forall valid_id pend).
  { destruct (bool_decide _) eqn:Hb; injection Hpq as <- <-; [done|].
    apply bool_decide_eq_false in Hb. rewrite Hq in Hb. split_and!.
    - apply NoDup_app. split_and!; [done| |apply NoDup_singleton]. set_solver.
    - intros x. rewrite elem_of_union, Hq, elem_of_app. set_solver.
    - apply Forall_app_2; [done|by apply Forall_singleton]. }
  destruct Hpend as (Hnd' & Hq' & Hp').
  split; cbn [next active pending queued stopped fresh_timer disp signal signalling]; try done.
  - intros i q Hq0. apply Ha. by eapply lookup_weaken.
  - intros i j q H1 H2. eapply Hinj; by eapply lookup_weaken.
  - pose proof (map_subseteq_size _ _ Hact). lia.
  - right. lia.
Qed.

Lemma Cancel_inv t id t' was : tm_inv t -> Cancel t id = (t', was) -> tm_inv t'.
Proof.
  intros [Hnx Ha Hinj Hsz Hnd Hq Hp Hst Hw] H. unfold Cancel in H.
  destruct (remove_first_spec id (pending t) Hnd) as [Hnd' Hx].
  destruct (active t !! id) as [p|] eqn:Hid; injection H as <- <-;
    split; cbn [next active pending queued stopped fresh_timer disp signal signalling]; try done;
    try (intros x; rewrite elem_of_difference, Hq, Hx; set_solver);
    try (apply Forall_forall; intros x [Hin _]%Hx; by apply (proj1 (Forall_forall _ _) Hp));
    try (intros Hd Hne; apply Hw; [done|intros E; rewrite E in Hne; done]).
  - intros i q Hi. apply lookup_delete_Some in Hi as [Hne Hi]. destruct (Ha i q Hi) as (? & ? & ?).
    split_and!; [done|done|]. apply not_elem_of_union. split; [|done].
    intros Hin%elem_of_singleton. subst q. apply Hne. by eapply Hinj.
  - intros i j q [_ Hi]%lookup_delete_Some [_ Hj]%lookup_delete_Some. by eapply Hinj.
  - pose proof (map_subseteq_size _ _ (delete_subseteq (active t) id)). lia.
  - intros q [->%elem_of_singleton|Hin]%elem_of_union; [|auto]. by destruct (Ha id p Hid) as (_ & ? & _).
Qed.

Lemma Close_locked_inv t : tm_inv t -> tm_inv (Close_locked t).
Proof.
  intros [Hnx Ha Hinj Hsz Hnd Hq Hp Hst Hw].
  split; cbn [Close_locked next active pending queued stopped fresh_timer disp signal signalling];
    try done; try first [apply map_Forall_empty | apply NoDup_nil_2 | apply Forall_nil_2]; [clear; set_solver|].
  intros p [Hin|Hin]%elem_of_union; [|auto].
    apply elem_of_list_to_set, list_elem_of_fmap in Hin as [[i q] [-> Hin]].
    apply elem_of_map_to_list in Hin. by destruct (Ha i q Hin) as (_ & ? & _).
Qed.

Lemma dispatch_pop_inv t id : tm_inv t -> tm_inv (dispatch_pop t id).
Proof.
  intros Hi. unfold dispatch_pop. cbn [with_disp pending].
  assert (Ht : tm_inv (with_disp t DTop)) by (by apply (tm_inv_frame t)).
  destruct (pending t) as [|x rest] eqn:Hp; [done|]. destruct (x =? id) eqn:Hx; [|done].
  zbool. subst x. destruct Ht as [Hnx Ha Hinj Hsz Hnd Hq Hpe Hst Hw].
  cbn [with_disp next active pending queued stopped fresh_timer disp signal signalling] in *.
  rewrite Hp in *. apply NoDup_cons in Hnd as [Hni Hnd]. apply Forall_cons in Hpe as [_ Hpe].
  split; cbn [with_disp next active pending queued stopped fresh_timer disp signal signalling]; try done.
  intros x. rewrite elem_of_difference, Hq, elem_of_cons. set_solver.
Qed.

Lemma timer_step_inv t l t' : timer_step t l t' -> tm_inv t -> tm_inv t'.
Proof.
  destruct 1 as [t d r t' c H|t id t' w H|t p id r H|t p H|t n H|t H|t H Hs|t id H|t id H|t Hc _ _|t|t Hc];
    intros Hi.
  - by eapply Start_inv.
  - by eapply Cancel_inv.
  - apply enqueue_inv. destruct r; [done|]. apply (tm_inv_frame t); try done. apply Hi.
  - apply (tm_inv_frame t); try done. apply Hi.
  - apply (tm_inv_frame t); try done. by left.
  - unfold dispatch_peek. destruct (pending t) as [|x rest] eqn:Hp.
    + apply (tm_inv_frame t); done.
    + pose proof (inv_pending _ Hi) as Hv. rewrite Hp in Hv. apply Forall_cons in Hv as [Hv _].
      unfold valid_id in Hv. rewrite (proj2 (Z.eqb_neq x 0)) by lia. by apply (tm_inv_frame t).
  - by apply (tm_inv_frame t).
  - by apply (tm_inv_frame t).
  - by apply dispatch_pop_inv.
  - by apply (tm_inv_frame t).
  - apply (tm_inv_frame t); try done. apply Hi.
  - by apply Close_locked_inv.
Qed.

Lemma timer_reachable_inv t : timer_reachable t -> tm_inv t.
Proof. induction 1; [apply tm_inv_init|by eapply timer_step_inv]. Qed.

(** ** Runs *)

Inductive timer_run : timerManager -> list label -> timerManager -> Prop :=
| run_nil t : timer_run t [] t
| run_cons t l t' ls t'' : timer_step t l t' -> timer_run t' ls t'' -> timer_run t (l :: ls) t''.

Lemma run_one t l t' : timer_step t l t' -> timer_run t [l] t'.
Proof. intros. eapply run_cons; [done|constructor]. Qed.

Lemma run_app t ls t' ls' t'' : timer_run t ls t' -> timer_run t' ls' t'' -> timer_run t (ls ++ ls') t''.
Proof. induction 1; [done|]. intros. eapply run_cons; eauto. Qed.

Lemma run_reachable t ls t' : timer_reachable t -> timer_run t ls t' -> timer_reachable t'.
Proof. intros Hr. induction 1; [done|]. apply IHtimer_run. by eapply tr_step. Qed.

(** From the top of its loop the dispatcher delivers the head of the queue. *)
Lemma deliver_from_top t id rest :
  disp t = DTop -> pending t = id :: rest -> id <> 0 -> exists t', timer_run t [LTau; LDelivered id] t'.
Proof.
  intros Hd Hp Hid. eexists. eapply run_cons; [by apply ts_peek|]. apply run_one. apply ts_send.
  unfold dispatch_peek. rewrite Hp, (proj2 (Z.eqb_neq _ _)) by done. done.
Qed.

Lemma deliver_from_wait t id rest :
  disp t = DWait -> signal t = true -> pending t = id :: rest -> id <> 0 ->
  exists ls t', timer_run t (ls ++ [LDelivered id]) t'.
Proof.
  intros Hd Hs Hp Hid.
  destruct (deliver_from_top (with_disp (with_signal t false (signalling t)) DTop) id rest) as [t' Ht]; [done..|].
  exists [LTau; LTau], t'. eapply run_cons; [by apply ts_wake|exact Ht].
Qed.

(** [id] is out of the manager's hands: not active, not queued, and not in the
    dispatcher's. *)
Definition gone (t : timerManager) (id : Z) : Prop :=
  active t !! id = None /\ ~ id ∈ pending t /\ disp t <> DHold id.

Lemma gone_enqueue t id id' recurring :
  gone t id -> gone (enqueue t id' recurring) id.
Proof.
  intros (Ha & Hp & Hd). unfold enqueue. destruct (active t !! id') as [p|] eqn:Hid; [|done].
  assert (id <> id') by (intros ->; congruence).
  destruct (bool_decide _); split_and!; cbn [active pending disp]; try done;
    try (by destruct recurring; [|rewrite lookup_delete_ne]).
  rewrite elem_of_app, list_elem_of_singleton. naive_solver.
Qed.

Lemma gone_step t l t' id :
  tm_inv t -> timer_step t l t' -> gone t id -> l <> LDelivered id /\ (l <> LStarted id -> gone t' id).
Proof.
  intros Hi H Hg. pose proof Hg as (Ha & Hp & Hd).
  destruct H as [t d r t' c H|t id' t' w H|t p id' r H|t p H|t n H|t H|t H Hs|t id' H|t id' H|t Hc _ _|t|t Hc];
    split; try done; try (intros _; done).
  - intros Hl. destruct (Start_cases _ _ _ _ _ Hi H) as [(-> & _)|[(-> & _)|(_ & _ & _ & ->)]]; [done..|].
    split_and!; cbn [active pending disp]; try done. rewrite lookup_insert_ne; [done|congruence].
  - intros _. unfold Cancel in H. destruct (remove_first_spec id' (pending t) (inv_nodup _ Hi)) as [_ Hx].
    destruct (active t !! id') as [p|]; injection H as <- <-; split_and!; cbn [active pending disp];
      try done; try (rewrite Hx; tauto). by apply lookup_delete_None; right.
  - intros _. apply gone_enqueue. by destruct r.
  - intros _. unfold dispatch_peek. destruct (pending t) as [|x rest] eqn:E; split_and!;
      cbn [with_disp active pending disp]; rewrite ?E; try done.
    destruct (x =? 0); [done|]. intros [= ->]. apply Hp. constructor.
  - congruence.
  - intros _. unfold dispatch_pop. cbn [with_disp pending].
    destruct (pending t) as [|x rest] eqn:E; [by split_and!; cbn [with_disp active pending disp]; rewrite ?E|].
    destruct (x =? id'); split_and!; cbn [with_disp active pending disp]; rewrite ?E; try done.
    intros Hin. apply Hp. by constructor.
  - intros _. split_and!; cbn [Close_locked active pending disp]; [done|apply not_elem_of_nil|done].
Qed.

(** ** Theorems *)

(** (bounded session timers): in every reachable state at most
    [TimerMaxActive] timers are active, with positive 31-bit ids; a timer that
    fired is queued at most once however often it fired, [queued] is exactly
    the queue, and no stop channel is closed twice (which would panic). *)
Theorem timers_bounded t id p :
  timer_reachable t ->
  Z.of_nat (size (active t)) <= TimerMaxActive /\
  NoDup (pending t) /\ (id ∈ queued t <-> id ∈ pending t) /\
  (active t !! id = Some p -> valid_id id /\ ~ p ∈ stopped t /\
     forall id', active t !! id' = Some p -> id' = id).
Proof.
  intros Hi%timer_reachable_inv. split_and!; [apply Hi|apply Hi|apply Hi|]. intros Hid.
  destruct (inv_active _ Hi id p Hid) as (Hv & _ & Hs). split_and!; [done|done|].
  intros id' Hid'. by apply (inv_inj _ Hi id' id p).
Qed.

Definition two_timers : timerManager :=
  (Start (Start newTimerManager 1000000 false).1 10000000 true).1.

Lemma two_timers_reachable : timer_reachable two_timers.
Proof.
  apply (tr_step (Start newTimerManager 1000000 false).1 (LStarted 2)).
  - apply (tr_step newTimerManager (LStarted 1)); [apply tr_init|].
    by apply (ts_start _ 1000000 false).
  - by apply (ts_start _ 10000000 true).
Qed.

Lemma timers_bounded_witness : active two_timers !! 2 = Some 1%nat /\ valid_id 2.
Proof.
  split; [reflexivity|]. apply (timers_bounded two_timers 2 1%nat two_timers_reachable). reflexivity.
Defined.

(** (starting a timer): the id loop of [Start] always ends, also after the
    32-bit counter wraps; a delay outside the bounds, or a session at its limit,
    is refused without a change, and otherwise the result is a positive int32
    that no active timer has, now active with its own goroutine. *)
Theorem timer_start_exact t delay recurring t' code :
  timer_reachable t -> Start t delay recurring = (t', code) ->
  let minimum := if recurring then TimerMinEveryNanos else TimerMinDelayNanos in
  (0 < code <-> minimum <= delay <= TimerMaxDelayNanos /\ Z.of_nat (size (active t)) < TimerMaxActive) /\
  (code <= 0 -> t' = t /\ (code = TimerErrInvalid \/ code = TimerErrLimit)) /\
  (0 < code -> is_i32 code /\ active t !! code = None /\
     active t' = <[code := fresh_timer t]> (active t) /\
     runs t' = <[fresh_timer t := (code, recurring)]> (runs t) /\ pending t' = pending t).
Proof.
  intros Hi%timer_reachable_inv H minimum. pose proof (inv_size _ Hi) as Hsz.
  destruct (Start_cases _ _ _ _ _ Hi H) as [(-> & -> & Hc)|[(-> & -> & Hc)|(Hv & Hn & Hl & ->)]].
  - fold minimum in Hc. unfold TimerErrInvalid. split_and!; [|auto|lia]. split; [lia|]. intros [? _]. lia.
  - unfold TimerErrLimit. split_and!; [|auto|lia]. split; [lia|]. intros [_ ?]. lia.
  - unfold valid_id in Hv. rewrite maxTimerID_val in Hv. unfold is_i32.
    split_and!; [|lia|intros _; split_and!; done || lia]. split; [intros _|lia].
    unfold Start in H. fold minimum in H. destruct (_ || _) eqn:Hc; zbool; [|lia].
    injection H as _ H. unfold TimerErrInvalid in H. lia.
Qed.

Lemma timer_start_exact_witness :
  (Start (mkTimers maxTimerID ∅ [] ∅ ∅ ∅ 0 false 0 DTop false) 1000000 false).2 = 1 /\
  is_i32 (Start two_timers 1000000 false).2.
Proof.
  split; [reflexivity|].
  destruct (Start two_timers 1000000 false) as [t' code] eqn:H.
  destruct (timer_start_exact two_timers 1000000 false t' code two_timers_reachable H) as (Hc & _ & Hp).
  apply Hp. apply Hc. vm_compute. repeat split; discriminate.
Defined.

(** C40 (no lost wakeup): while the session lives, whatever is at the head of
    the queue can be delivered: from every reachable state there is a run of
    the dispatcher (and of enqueues finishing their signal) that delivers it,
    unless it has just been delivered and is about to be popped. *)
Theorem timer_deliverable t id rest :
  timer_reachable t -> pending t = id :: rest -> disp t <> DDone -> disp t <> DSent id ->
  exists ls t', timer_run t (ls ++ [LDelivered id]) t'.
Proof.
  intros Hi%timer_reachable_inv Hp Hnd Hns.
  pose proof (inv_pending _ Hi) as Hv. rewrite Hp in Hv. apply Forall_cons in Hv as [Hv _].
  assert (Hid : id <> 0) by (unfold valid_id in Hv; lia).
  destruct (disp t) as [| |h|h|] eqn:Hd; [| | | |done].
  - destruct (deliver_from_top t id rest) as [t' Ht]; [done..|]. by exists [LTau], t'.
  - destruct (inv_wakeup _ Hi Hd) as [Hs|Hs]; [by rewrite Hp|by eapply deliver_from_wait|].
    destruct (signalling t) as [|n] eqn:Hn; [lia|].
    destruct (deliver_from_wait (with_signal t true n) id rest) as (ls & t' & Ht); [done..|].
    exists (LTau :: ls), t'. eapply run_cons; [by apply ts_signal|exact Ht].
  - destruct (decide (h = id)) as [->|Hne].
    + exists [], (with_disp t (DSent id)). by apply run_one, ts_send.
    + set (t2 := dispatch_pop (with_disp t (DSent h)) h).
      assert (Hp2 : pending t2 = id :: rest /\ disp t2 = DTop).
      { subst t2. unfold dispatch_pop. cbn [with_disp pending]. rewrite Hp.
        rewrite (proj2 (Z.eqb_neq id h)) by done. done. }
      destruct (deliver_from_top t2 id rest) as [t' Ht]; [by apply Hp2..|done|].
      exists [LDelivered h; LTau; LTau], t'. eapply run_cons; [by apply ts_send|].
      eapply run_cons; [by apply ts_pop|exact Ht].
  - set (t2 := dispatch_pop t h).
    assert (Hp2 : pending t2 = id :: rest /\ disp t2 = DTop).
    { subst t2. unfold dispatch_pop. cbn [with_disp pending]. rewrite Hp.
      rewrite (proj2 (Z.eqb_neq id h)) by congruence. done. }
    destruct (deliver_from_top t2 id rest) as [t' Ht]; [by apply Hp2..|done|].
    exists [LTau; LTau], t'. eapply run_cons; [by apply ts_pop|exact Ht].
Qed.

(** The first timer of [two_timers] has fired. *)
Definition fired : timerManager :=
  enqueue (with_runs two_timers (delete 0%nat (runs two_timers))) 1 false.

Lemma fired_reachable : timer_reachable fired.
Proof. eapply tr_step; [apply two_timers_reachable|]. by apply (ts_fire _ 0%nat 1 false). Qed.

Lemma timer_deliverable_witness : exists ls t', timer_run fired (ls ++ [LDelivered 1]) t'.
Proof. by apply (timer_deliverable fired 1 [] fired_reachable). Defined.

(** (cancellation is final): after [Cancel id] the timer is gone, unless
    the dispatcher already holds its event; and what is gone stays gone and is
    never delivered, along every run, until [Start] hands out the id again. *)
Theorem timer_cancel_final t id t1 was ls t2 :
  timer_reachable t -> Cancel t id = (t1, was) -> disp t <> DHold id ->
  timer_run t1 ls t2 -> ~ LStarted id ∈ ls -> gone t1 id /\ gone t2 id /\ ~ LDelivered id ∈ ls.
Proof.
  intros Hr H Hd Hrun Hs.
  assert (Hr1 : timer_reachable t1) by (eapply tr_step; [exact Hr|by eapply ts_cancel]).
  assert (Hg : gone t1 id).
  { unfold Cancel in H. destruct (remove_first_spec id (pending t) (inv_nodup _ (timer_reachable_inv _ Hr))) as [_ Hx].
    destruct (active t !! id) as [p|] eqn:Ha; injection H as <- <-; split_and!; cbn [active pending disp];
      try done; try (rewrite Hx; tauto). apply lookup_delete_eq. }
  split; [done|]. clear H Hd Hr. induction Hrun as [t'|t' l t'' ls t3 Hstep Hrun IH].
  - split; [done|apply not_elem_of_nil].
  - apply not_elem_of_cons in Hs as [Hl Hs].
    destruct (gone_step _ _ _ id (timer_reachable_inv _ Hr1) Hstep Hg) as [Hnd Hg'].
    destruct IH as [? ?]; [done|by eapply tr_step|by apply Hg'|]. split; [done|].
    apply not_elem_of_cons. split; [congruence|done].
Qed.

Lemma timer_cancel_final_witness : gone (Cancel fired 1).1 1.
Proof.
  destruct (Cancel fired 1) as [t1 was] eqn:H.
  apply (timer_cancel_final fired 1 t1 was [] t1 fired_reachable H); [done|constructor|apply not_elem_of_nil].
Defined.

(** An event the dispatcher holds is delivered even though its timer was
    cancelled before the session received it. *)
Theorem cancelled_timer_delivered : exists t t1 t2,
  timer_reachable t /\ Cancel t 1 = (t1, true) /\ timer_run t1 [LDelivered 1] t2.
Proof.
  set (t := dispatch_peek (enqueue (Start newTimerManager 10000000 true).1 1 true)).
  exists t, (Cancel t 1).1, (with_disp (Cancel t 1).1 (DSent 1)). split_and!.
  - eapply tr_step; [eapply tr_step; [eapply tr_step; [apply tr_init|]|]|].
    + by eapply (ts_start _ 10000000 true).
    + by apply (ts_fire _ 0%nat 1 true).
    + by apply ts_peek.
  - reflexivity.
  - by apply run_one, ts_send.
Qed.

(** Firing a one-shot timer frees its place among the active ones while its
    event stays queued, so the queue itself is not bounded by
    [TimerMaxActive]: a guest that starts timers without receiving can make it
    as long as there are ids. *)
Theorem timer_queue_grows n :
  Z.of_nat n <= maxTimerID ->
  exists t, timer_reachable t /\ active t = ∅ /\ length (pending t) = n.
Proof.
  intros Hn. enough (exists t, timer_reachable t /\ active t = ∅ /\ length (pending t) = n /\
    next t = Z.of_nat n /\ forall x, x ∈ pending t -> x <= Z.of_nat n) by naive_solver.
  induction n as [|n IH].
  { exists newTimerManager. split_and!; [apply tr_init|done|done|done|].
    intros x Hx. by apply not_elem_of_nil in Hx. }
  destruct IH as (t & Hr & Ha & Hl & Hx & Hb); [lia|].
  set (id := Z.of_nat n + 1). assert (Eid : id = Z.of_nat n + 1) by reflexivity.
  set (t1 := mkTimers id (<[id := fresh_timer t]> ∅) (pending t) (queued t)
               (<[fresh_timer t := (id, false)]> (runs t)) (stopped t) (S (fresh_timer t))
               (signal t) (signalling t) (disp t) (ctx_done t)).
  assert (Hs : Start t 1000000 false = (t1, id)).
  { unfold Start. cbn [orb]. rewrite Ha. change (_ || _) with false. cbv iota.
    change (TimerMaxActive <=? Z.of_nat (size ∅)) with false. cbv iota.
    unfold start_fuel. change (2 * size ∅ + 2)%nat with 2%nat.
    rewrite Hx, pick_id_round by lia. rewrite lookup_empty. cbn [bool_decide].
    rewrite bool_decide_eq_false_2 by (by intros []). rewrite maxTimerID_val in Hn.
    rewrite i32_small by (unfold is_i32; lia). done. }
  assert (Hr1 : timer_reachable t1) by (eapply tr_step; [exact Hr|by eapply ts_start]).
  exists (enqueue (with_runs t1 (delete (fresh_timer t) (runs t1))) id false). split_and!.
  - eapply tr_step; [exact Hr1|]. apply (ts_fire _ (fresh_timer t) id false).
    cbn [t1 runs]. by rewrite lookup_insert_eq.
  - unfold enqueue. cbn [with_runs active t1]. rewrite lookup_insert_eq.
    destruct (if bool_decide _ then _ else _). cbn [active]. by rewrite delete_insert_id.
  - unfold enqueue. cbn [with_runs active t1 queued pending]. rewrite lookup_insert_eq.
    rewrite bool_decide_eq_false_2; [cbn [pending]; rewrite length_app, Hl; simpl; lia|].
    rewrite (inv_queued _ (timer_reachable_inv _ Hr)). intros Hin%Hb. lia.
  - unfold enqueue. cbn [with_runs active t1]. rewrite lookup_insert_eq.
    destruct (if bool_decide _ then _ else _). cbn [next with_runs t1]. lia.
  - intros x. unfold enqueue. cbn [with_runs active t1 queued pending]. rewrite lookup_insert_eq.
    destruct (bool_decide _); cbn [pending]; [intros Hin%Hb; lia|].
    rewrite elem_of_app, list_elem_of_singleton. intros [Hin%Hb| ->]; lia.
Qed.
