(* ===== verification/Streams.v ===== *)
(** * Byte streams of a session (internal/runner: cli.go, exec.go, procrunner.go)

    The filter between a CLI guest's output and the viewer's terminal
    ([controlFilter]), the bounded buffers that capture logs and command output
    ([boundedBuffer], [execBuffer]) and the exit status of a session. *)

From S2P Require Import Prelude Utf8 GoStrings Protocol.

(** ** controlFilter *)

Definition dropRune (r : Z) : bool :=
  if r <? 0x20 then negb (r =? 9) && negb (r =? 10)
  else if r =? 0x7f then true
  else if (0x80 <=? r) && (r <=? 0x9f) then true
  else false.

(** The loop of [Write]: what goes out and what is carried over.  Every round
    drops at least one byte of [data]. *)
Fixpoint filter_loop (fuel : nat) (data out : bytes) : bytes * bytes :=
  match fuel, data with
  | S fuel', _ :: _ =>
    let '(r, size) := decode_rune data in
    if (r =? RuneError) && (size =? 1)%nat then
      if negb (full_rune data) then (out, data)
      else filter_loop fuel' (drop 1 data) out
    else
      let out := if negb (dropRune r) then out ++ take size data else out in
      filter_loop fuel' (drop size data) out
  | _, _ => (out, [])
  end.

Record controlFilter {T : Type} := mkControlFilter { cf_w : T; cf_buf : bytes }.
Arguments controlFilter : clear implicits.
Arguments mkControlFilter {T}.

(** The number of bytes reported taken, and whether an error was. *)
Definition controlFilter_Write {T} `{Writer T} (f : controlFilter T) (p : bytes)
  : controlFilter T * Z * bool :=
  let data := if 0 <? len (cf_buf f) then cf_buf f ++ p else p in
  let '(out, carry) := filter_loop (length data) data [] in
  if 0 <? len out then
    let '(w, _, e) := wr (cf_w f) out in
    if (e : bool) then (mkControlFilter w carry, 0, true) else (mkControlFilter w carry, len p, false)
  else (mkControlFilter (cf_w f) carry, len p, false).

(** ** Bounded buffers *)

Record boundedBuffer := mkBounded { bb_max : Z; bb_b : bytes }.

Definition boundedBuffer_Write (bb : boundedBuffer) (p : bytes) : boundedBuffer * Z :=
  let room := bb_max bb - len (bb_b bb) in
  (if 0 <? room then
     if room <? len p then mkBounded (bb_max bb) (bb_b bb ++ take (Z.to_nat room) p)
     else mkBounded (bb_max bb) (bb_b bb ++ p)
   else bb, len p).

(** [eb_cancelled] records the call of the cancel function. *)
Record execBuffer := mkExecBuffer {
  eb_max : Z; eb_b : bytes; overflow : bool; eb_cancelled : bool }.

Definition execBuffer_Write (b : execBuffer) (p : bytes) : execBuffer * Z :=
  let n := Z.min (Z.max (eb_max b - len (eb_b b)) 0) (len p) in
  let b1 := if 0 <? n then eb_b b ++ take (Z.to_nat n) p else eb_b b in
  let over := n <? len p in
  (mkExecBuffer (eb_max b) b1 (overflow b || over) (eb_cancelled b || over), len p).

(** ** ExitStatus *)

Definition exit_prefix : bytes := str "app exited with code ".

(** [strings.LastIndex(s, sub)], [None] for -1. *)
Fixpoint LastIndex (s sub : bytes) : option nat :=
  match s with
  | [] => if bool_decide (sub = []) then Some 0%nat else None
  | _ :: s' =>
    match LastIndex s' sub with
    | Some i => Some (S i)
    | None => if HasPrefix s sub then Some 0%nat else None
    end
  end.

(** [strconv.ParseUint(s, 10, 32)] *)
Fixpoint parse_digits (s : bytes) (acc : Z) : option Z :=
  match s with
  | [] => if acc <? 2 ^ 32 then Some acc else None
  | c :: s' => if within_b 48 57 c then parse_digits s' (acc * 10 + (c - 48)) else None
  end.

Definition ParseUint32 (s : bytes) : option Z :=
  if bool_decide (s = []) then None else parse_digits s 0.

(** The error a session ended with, by its message; [Canceled] is an error for
    which [errors.Is(err, context.Canceled)] holds. *)
Inductive SessionErr := NoErr | Canceled | Failed (message : bytes).

Definition ExitStatus (err : SessionErr) : Z :=
  match err with
  | NoErr | Canceled => 0
  | Failed message =>
    match LastIndex message exit_prefix with
    | Some i =>
      match ParseUint32 (TrimSpace (drop (i + length exit_prefix) message)) with
      | Some code => code
      | None => 1
      end
    | None => 1
    end
  end.

(** ** The filter as a function of the whole stream *)

Definition filtered (data : bytes) : bytes * bytes := filter_loop (length data) data [].

Lemma decode_full p :
  p <> [] -> full_rune p = false -> decode_rune p = (RuneError, 1%nat).
Proof.
  destruct p as [|b0 p]; [done|]. intros _. unfold full_rune, decode_rune.
  destruct (accept b0) as [[[sz lo] hi]|] eqn:Ha; [|done].
  destruct (accept_size _ _ _ _ Ha) as (Hs & _ & _ & Hb).
  rewrite (proj2 (Z.ltb_ge _ _)) by lia.
  destruct (sz <=? length (b0 :: p))%nat eqn:Hl; [done|]. apply Nat.leb_gt in Hl.
  by rewrite (proj2 (Nat.ltb_lt _ _)).
Qed.

(** What a whole rune at the head of [data] contributes. *)
Definition emit (data : bytes) : bytes :=
  let '(r, size) := decode_rune data in
  if (r =? RuneError) && (size =? 1)%nat then []
  else if dropRune r then [] else take size data.

Lemma filter_loop_out fuel data out :
  filter_loop fuel data out = ((out ++ (filter_loop fuel data []).1), (filter_loop fuel data []).2).
Proof.
  revert data out. induction fuel as [|fuel IH]; intros data out; cbn [filter_loop].
  - by rewrite app_nil_r.
  - destruct data as [|b data]; [by rewrite app_nil_r|].
    destruct (decode_rune (b :: data)) as [r size].
    destruct (_ && _).
    + destruct (negb _); cbn [fst snd]; [by rewrite app_nil_r|]. apply IH.
    + rewrite IH. rewrite (IH _ (if negb _ then [] ++ _ else [])). cbn [fst snd].
      by destruct (negb _); cbn [app]; rewrite ?app_assoc.
Qed.

Lemma filter_loop_fuel f1 f2 data :
  (length data <= f1)%nat -> (length data <= f2)%nat -> filter_loop f1 data [] = filter_loop f2 data [].
Proof.
  revert f2 data. induction f1 as [|f1 IH]; intros f2 data H1 H2.
  { destruct data; simpl in *; [by destruct f2|lia]. }
  destruct data as [|b data]; [by destruct f2|]. destruct f2 as [|f2]; [simpl in *; lia|].
  cbn [filter_loop]. pose proof (decode_rune_width (b :: data) ltac:(done)) as [Hw _].
  destruct (decode_rune (b :: data)) as [r size]. cbn [snd] in Hw.
  destruct (_ && _).
  - destruct (negb _); [done|]. apply IH; simpl in *; rewrite drop_0; lia.
  - rewrite (filter_loop_out f1), (filter_loop_out f2).
    rewrite (IH f2) by (rewrite length_drop; simpl in *; lia). done.
Qed.

(** The equations of the filter. *)
Lemma filtered_partial data : full_rune data = false -> filtered data = ([], data).
Proof.
  intros Hf. destruct data as [|b data]; [done|]. unfold filtered. cbn [length filter_loop].
  rewrite (decode_full (b :: data)) by done. by rewrite Hf.
Qed.

Lemma filtered_step data :
  full_rune data = true ->
  filtered data =
    (emit data ++ (filtered (drop (decode_rune data).2 data)).1,
     (filtered (drop (decode_rune data).2 data)).2).
Proof.
  intros Hf. destruct data as [|b data]; [done|]. unfold filtered at 1. cbn [length filter_loop].
  unfold emit. pose proof (decode_rune_width (b :: data) ltac:(done)) as [Hw _].
  destruct (decode_rune (b :: data)) as [r size]. cbn [snd fst] in *. rewrite Hf. cbn [negb].
  unfold filtered. rewrite (filter_loop_fuel (length (drop size (b :: data))) (length data))
    by (rewrite ?length_drop; simpl; lia).
  destruct ((r =? RuneError) && (size =? 1)%nat) eqn:Hc.
  - apply andb_true_iff in Hc as [_ Hc]. apply Nat.eqb_eq in Hc as ->. cbn [app].
    by destruct (filter_loop _ _ _).
  - rewrite filter_loop_out. by destruct (dropRune r); cbn [negb app].
Qed.

(** Splitting the stream anywhere does not matter. *)
Lemma filtered_app a b :
  filtered (a ++ b) =
    ((filtered a).1 ++ (filtered ((filtered a).2 ++ b)).1, (filtered ((filtered a).2 ++ b)).2).
Proof.
  remember (length a) as n eqn:Hn. assert (Hle : (length a <= n)%nat) by lia. clear Hn.
  revert a Hle. induction n as [|n IH]; intros a Hle.
  { destruct a; [|simpl in Hle; lia]. change (filtered []) with (@nil Z, @nil Z). cbn [fst snd app].
    by destruct (filtered b). }
  destruct (full_rune a) eqn:Hf.
  - destruct a as [|x a]; [done|].
    pose proof (decode_rune_width (x :: a) ltac:(done)) as [Hw Hw2].
    rewrite (filtered_step (x :: a)), (filtered_step ((x :: a) ++ b)) by (done || by apply full_rune_app).
    rewrite decode_rune_app by done.
    assert (He : emit ((x :: a) ++ b) = emit (x :: a)).
    { unfold emit. rewrite decode_rune_app by done. destruct (decode_rune (x :: a)) as [r size].
      destruct (_ && _); [done|]. destruct (dropRune r); [done|]. by rewrite take_app_le. }
    rewrite He, drop_app_le by done. cbn [fst snd].
    rewrite (IH (drop _ (x :: a))) by (rewrite length_drop; simpl in *; lia). cbn [fst snd].
    by rewrite app_assoc.
  - rewrite (filtered_partial a) by done. cbn [fst snd app]. by destruct (filtered (a ++ b)).
Qed.

(** ** Clean text: whole runes, none of them a control *)

Inductive clean_text : bytes -> Prop :=
| clean_nil : clean_text []
| clean_rune p r rest :
    p <> [] -> decode_rune p = (r, length p) -> (r =? RuneError) && (length p =? 1)%nat = false ->
    dropRune r = false -> clean_text rest -> clean_text (p ++ rest).

Lemma clean_text_app a b : clean_text a -> clean_text b -> clean_text (a ++ b).
Proof.
  induction 1 as [|p r rest Hp Hd He Hr _ IH]; intros Hb; [done|].
  rewrite <- app_assoc. econstructor; eauto.
Qed.

(** A rune that decoded is decoded the same on its own bytes. *)
Lemma decode_rune_take p r n :
  p <> [] -> decode_rune p = (r, n) -> (r =? RuneError) && (n =? 1)%nat = false ->
  decode_rune (take n p) = (r, length (take n p)) /\ length (take n p) = n /\
  Forall (fun b => (n = 1%nat /\ b = r /\ b < 0x80) \/ 0x80 <= b) (take n p).
Proof.
  destruct p as [|b0 p]; [done|]. intros _ H Hok. unfold decode_rune in H.
  destruct (b0 <? 0x80) eqn:Hb.
  { injection H as <- <-. change (take 1 _) with [b0]. unfold decode_rune. rewrite Hb. zbool.
    split_and!; [done|done|]. constructor; [left; split_and!; done || lia|constructor]. }
  destruct (accept b0) as [[[sz lo] hi]|] eqn:Ha; [|injection H as <- <-; done].
  destruct (accept_size _ _ _ _ Ha) as (Hs & Hlo & Hhi & Hb0).
  destruct (length (b0 :: p) <? sz)%nat eqn:Hl; [injection H as <- <-; done|]. apply Nat.ltb_ge in Hl.
  destruct p as [|b1 p]; [injection H as <- <-; done|].
  destruct (negb (within_b lo hi b1)) eqn:G1; [injection H as <- <-; done|].
  assert (0x80 <= b1) by (unfold within_b in G1; zbool; lia).
  destruct (sz <=? 2)%nat eqn:S2.
  { injection H as <- <-. change (take 2 _) with [b0; b1]. unfold decode_rune. rewrite Hb, Ha, G1, S2.
    apply Nat.leb_le in S2. rewrite (proj2 (Nat.ltb_ge _ _)) by (simpl; lia).
    split_and!; [done|done|]. repeat (apply Forall_cons_2; [right; lia|]). apply Forall_nil_2. }
  destruct p as [|b2 p]; [injection H as <- <-; done|].
  destruct (negb (cont b2)) eqn:G2; [injection H as <- <-; done|].
  assert (0x80 <= b2) by (unfold cont, within_b in G2; zbool; lia).
  destruct (sz <=? 3)%nat eqn:S3.
  { injection H as <- <-. change (take 3 _) with [b0; b1; b2]. unfold decode_rune. rewrite Hb, Ha, G1, S2, G2, S3.
    apply Nat.leb_le in S3. rewrite (proj2 (Nat.ltb_ge _ _)) by (simpl; lia).
    split_and!; [done|done|]. repeat (apply Forall_cons_2; [right; lia|]). apply Forall_nil_2. }
  destruct p as [|b3 p]; [injection H as <- <-; done|].
  destruct (negb (cont b3)) eqn:G3; [injection H as <- <-; done|].
  assert (0x80 <= b3) by (unfold cont, within_b in G3; zbool; lia).
  injection H as <- <-. change (take 4 _) with [b0; b1; b2; b3]. unfold decode_rune. rewrite Hb, Ha, G1, S2, G2, S3, G3.
  rewrite (proj2 (Nat.ltb_ge _ _)) by (simpl; lia).
  split_and!; [done|done|]. repeat (apply Forall_cons_2; [right; lia|]). apply Forall_nil_2.
Qed.

Lemma full_of_decode p r :
  p <> [] -> decode_rune p = (r, length p) -> (r =? RuneError) && (length p =? 1)%nat = false ->
  full_rune p = true.
Proof.
  intros Hp Hd He. destruct (full_rune p) eqn:Hf; [done|].
  rewrite (decode_full _ Hp Hf) in Hd. injection Hd as <- Hl. rewrite <- Hl in He. done.
Qed.

Lemma emit_clean data : clean_text (emit data).
Proof.
  unfold emit. destruct data as [|b data]; [constructor|].
  destruct (decode_rune (b :: data)) as [r n] eqn:Hd.
  destruct ((r =? RuneError) && _) eqn:He; [constructor|]. destruct (dropRune r) eqn:Hr; [constructor|].
  destruct (decode_rune_take (b :: data) r n ltac:(done) Hd He) as (Ht & Hl & _).
  rewrite <- (app_nil_r (take n (b :: data))). rewrite <- Hl in He.
  apply (clean_rune _ r); [|done|done|done|constructor].
  intros E. rewrite E in Hl. cbn in Hl. subst n.
  pose proof (decode_rune_width (b :: data) ltac:(done)) as [Hw _]. rewrite Hd in Hw. simpl in Hw. lia.
Qed.

Lemma filtered_clean data : clean_text (filtered data).1.
Proof.
  remember (length data) as n eqn:Hn. assert (Hle : (length data <= n)%nat) by lia. clear Hn.
  revert data Hle. induction n as [|n IH]; intros data Hle.
  { destruct data; [constructor|simpl in Hle; lia]. }
  destruct (full_rune data) eqn:Hf; [|rewrite filtered_partial by done; constructor].
  destruct data as [|b data]; [done|]. rewrite filtered_step by done. cbn [fst].
  pose proof (decode_rune_width (b :: data) ltac:(done)) as [Hw _].
  apply clean_text_app; [apply emit_clean|]. apply IH. rewrite length_drop. simpl in *; lia.
Qed.

(** Clean text is valid UTF-8 and holds no C0 control but tab and newline, and
    no DEL, even byte by byte. *)
Lemma clean_valid o : clean_text o -> utf8_valid o = true.
Proof.
  induction 1 as [|p r rest Hp Hd He Hr _ IH]; [done|]. unfold utf8_valid in *.
  pose proof (full_of_decode _ _ Hp Hd He) as Hf.
  destruct p as [|b p]; [done|]. cbn [app length valid_loop].
  change (b :: p ++ rest) with ((b :: p) ++ rest). rewrite decode_rune_app, Hd, He by done.
  rewrite drop_app_length. rewrite (valid_loop_fuel _ (length rest)); [done|rewrite length_app; lia|lia].
Qed.

Definition printable_byte (b : Z) : Prop := b = 9 \/ b = 10 \/ 0x20 <= b < 0x7f \/ 0x80 <= b.

Lemma clean_bytes o : clean_text o -> Forall printable_byte o.
Proof.
  induction 1 as [|p r rest Hp Hd He Hr _ IH]; [constructor|]. apply Forall_app_2; [|done].
  destruct (decode_rune_take p r (length p) Hp Hd He) as (_ & _ & Hb).
  rewrite take_ge in Hb by lia. eapply Forall_impl; [exact Hb|]. cbn beta. unfold printable_byte.
  intros b [(_ & -> & ?)|?]; [|auto]. unfold dropRune in Hr.
  destruct (r <? 0x20) eqn:?; [apply andb_false_iff in Hr as [Hr|Hr]; zbool; auto|].
  destruct (r =? 0x7f) eqn:?; [done|]. zbool. lia.
Qed.

(** Text that is already clean passes unchanged. *)
Lemma filtered_id o : clean_text o -> filtered o = (o, []).
Proof.
  induction 1 as [|p r rest Hp Hd He Hr _ IH]; [done|].
  pose proof (full_of_decode _ _ Hp Hd He) as Hf.
  rewrite filtered_step by (by apply full_rune_app). rewrite decode_rune_app, Hd by done. cbn [snd].
  rewrite drop_app_length, IH. cbn [fst snd]. unfold emit. rewrite decode_rune_app, Hd, He, Hr by done.
  by rewrite take_app_length.
Qed.

(** The carried bytes are a partial rune. *)
Lemma filtered_carry data : full_rune (filtered data).2 = false.
Proof.
  remember (length data) as n eqn:Hn. assert (Hle : (length data <= n)%nat) by lia. clear Hn.
  revert data Hle. induction n as [|n IH]; intros data Hle.
  { destruct data; [done|simpl in Hle; lia]. }
  destruct (full_rune data) eqn:Hf; [|by rewrite filtered_partial].
  destruct data as [|b data]; [done|]. rewrite filtered_step by done. cbn [snd].
  pose proof (decode_rune_width (b :: data) ltac:(done)) as [Hw _].
  apply IH. rewrite length_drop. simpl in *; lia.
Qed.

(** ** Decimal numbers *)

(** [fmt.Sprintf("%d", n)] for [0 <= n < 10 ^ fuel]. *)
Fixpoint dec_loop (fuel : nat) (n : Z) (acc : bytes) : bytes :=
  match fuel with
  | O => acc
  | S fuel' =>
    let acc := (48 + n mod 10) :: acc in
    if n <? 10 then acc else dec_loop fuel' (n / 10) acc
  end.

Definition decimal (n : Z) : bytes := dec_loop 20 n [].

(** [runCLI]'s error for a guest that exits with a non-zero code. *)
Definition exit_error (code : Z) : bytes := exit_prefix ++ decimal code.

Definition digit (c : Z) : Prop := 48 <= c <= 57.

Lemma dec_loop_spec fuel n acc :
  0 <= n < 10 ^ Z.of_nat fuel -> (0 < fuel)%nat -> Forall digit acc ->
  Forall digit (dec_loop fuel n acc) /\ dec_loop fuel n acc <> [] /\
  forall z, parse_digits (dec_loop fuel n acc) z = parse_digits acc (z * 10 ^ (len (dec_loop fuel n acc) - len acc) + n).
Proof.
  revert n acc. induction fuel as [|fuel IH]; intros n acc Hn Hf Ha; [lia|]. cbn [dec_loop].
  pose proof (Z.mod_pos_bound n 10 ltac:(lia)) as Hm.
  assert (Hd : digit (48 + n mod 10)) by (unfold digit; lia).
  assert (Hp : forall z, parse_digits ((48 + n mod 10) :: acc) z = parse_digits acc (z * 10 + n mod 10)).
  { intros z. cbn [parse_digits]. unfold within_b.
    rewrite !(proj2 (Z.leb_le _ _)) by (unfold digit in Hd; lia). cbn [andb]. f_equal. lia. }
  destruct (n <? 10) eqn:Hlt; zbool.
  - split_and!; [by constructor|done|]. intros z. rewrite Hp, len_cons.
    replace (1 + len acc - len acc) with 1 by lia. f_equal. rewrite Z.mod_small by lia. lia.
  - assert (Hdiv : 0 <= n / 10 < 10 ^ Z.of_nat fuel).
    { split; [apply Z.div_pos; lia|]. apply Z.div_lt_upper_bound; [lia|].
      rewrite Nat2Z.inj_succ, Z.pow_succ_r in Hn by lia. lia. }
    assert (Hf' : (0 < fuel)%nat) by (destruct fuel; [simpl in Hdiv; assert (0 < n / 10) by (apply Z.div_str_pos; lia); lia|lia]).
    destruct (IH (n / 10) ((48 + n mod 10) :: acc) Hdiv Hf') as (H1 & H2 & H3); [by constructor|].
    split_and!; [done|done|]. intros z. rewrite H3, Hp, len_cons. f_equal.
    pose proof (Z.div_mod n 10 ltac:(lia)).
    set (L := len (dec_loop fuel (n / 10) _)) in *.
    assert (Hlen : 0 <= L - (1 + len acc)).
    { subst L. clear. assert (forall f m a, len a <= len (dec_loop f m a)) as Hmono.
      { induction f as [|f IHf]; intros m a; [done|]. cbn [dec_loop]. destruct (m <? 10); [len_lia|].
        specialize (IHf (m / 10) ((48 + m mod 10) :: a)). len_lia. }
      specialize (Hmono fuel (n / 10) ((48 + n mod 10) :: acc)). len_lia. }
    replace (L - len acc) with (Z.succ (L - (1 + len acc))) by lia. rewrite Z.pow_succ_r by done. lia.
Qed.

Lemma decimal_spec n :
  0 <= n < 2 ^ 32 -> Forall digit (decimal n) /\ decimal n <> [] /\ ParseUint32 (decimal n) = Some n.
Proof.
  intros Hn. destruct (dec_loop_spec 20 n []) as (H1 & H2 & H3); [simpl; lia|lia|constructor|].
  split_and!; [done|done|]. unfold ParseUint32. rewrite bool_decide_eq_false_2 by done.
  fold (decimal n) in *. rewrite (H3 0). cbn [parse_digits]. rewrite (proj2 (Z.ltb_lt _ _)) by lia. f_equal.
Qed.

(** A number below [10 ^ k] has at most [k] digits. *)
Lemma dec_loop_length fuel k n acc :
  0 <= n < 10 ^ Z.of_nat k -> (0 < k)%nat -> len (dec_loop fuel n acc) <= Z.of_nat k + len acc.
Proof.
  revert k n acc. induction fuel as [|fuel IH]; intros k n acc Hn Hk; cbn [dec_loop]; [lia|].
  destruct (n <? 10) eqn:Hlt; zbool; [rewrite len_cons; lia|].
  destruct k as [|k]; [lia|]. destruct (decide (k = 0%nat)) as [->|Hne]; [simpl in Hn; lia|].
  rewrite Nat2Z.inj_succ, Z.pow_succ_r in Hn by lia.
  etransitivity; [apply (IH k)|rewrite len_cons; lia]; [|lia].
  split; [apply Z.div_pos; lia|apply Z.div_lt_upper_bound; lia].
Qed.

Lemma decimal_length k n : 0 <= n < 10 ^ Z.of_nat k -> (0 < k)%nat -> len (decimal n) <= Z.of_nat k.
Proof. intros Hn Hk. pose proof (dec_loop_length 20 k n [] Hn Hk) as H. by rewrite len_nil, Z.add_0_r in H. Qed.

(** [parse_digits] is the usual fold. *)
Lemma parse_digits_fold ds a v :
  parse_digits ds a = Some v -> fold_left (fun v b => v * 10 + (b - 48)) ds a = v.
Proof.
  revert a. induction ds as [|d ds IH]; intros a H; cbn in *; [by destruct (_ <? _); simplify_eq|].
  destruct (within_b 48 57 d); [|done]. by apply IH.
Qed.

(** ** Lemmas for [ExitStatus] *)

Lemma LastIndex_none s c sub : ~ c ∈ s -> LastIndex s (c :: sub) = None.
Proof.
  induction s as [|x s IH]; intros Hc; [done|]. cbn [LastIndex].
  apply not_elem_of_cons in Hc as [Hx Hs]. rewrite IH by done.
  destruct (HasPrefix (x :: s) (c :: sub)) eqn:Hp; [|done].
  apply HasPrefix_spec in Hp as [t [= -> _]]. done.
Qed.

Lemma trim_left_ascii c s fuel : 0 <= c < 0x80 -> is_space c = false -> trim_left fuel (c :: s) = c :: s.
Proof.
  intros Hc Hs. destruct fuel; [done|]. cbn [trim_left]. unfold decode_rune.
  rewrite (proj2 (Z.ltb_lt _ _)) by lia. by rewrite Hs.
Qed.

Lemma trim_right_ascii c s fuel :
  0 <= c < 0x80 -> is_space c = false -> trim_right fuel (s ++ [c]) = s ++ [c].
Proof.
  intros Hc Hs. destruct fuel; [done|]. cbn [trim_right].
  destruct (s ++ [c]) as [|x l] eqn:E; [by destruct s|]. unfold decode_last_rune. rewrite <- E.
  rewrite length_app. cbn [length]. rewrite Nat.add_1_r. cbn [Nat.eqb].
  replace (S (length s) - 1)%nat with (length s) by lia.
  rewrite app_nth2 by lia. rewrite Nat.sub_diag. cbn [nth].
  rewrite (proj2 (Z.ltb_lt _ _)) by lia. rewrite Hs. done.
Qed.

(** Digits have no space at either end. *)
Lemma TrimSpace_digits s : Forall digit s -> s <> [] -> TrimSpace s = s.
Proof.
  intros Hd Hs. assert (Hsp : forall c, digit c -> 0 <= c < 0x80 /\ is_space c = false).
  { intros c Hc. unfold digit in Hc. split; [lia|]. unfold is_space, within_b.
    repeat (apply orb_false_iff; split); try apply andb_false_iff; rewrite ?Z.eqb_neq, ?Z.leb_gt; lia. }
  unfold TrimSpace. destruct s as [|c s]; [done|]. apply Forall_cons in Hd as [Hc Hd].
  rewrite trim_left_ascii by (by apply Hsp).
  destruct (exists_last (l := c :: s)) as (s' & x & E); [done|]. rewrite E.
  assert (Hx : digit x). { assert (Hin : x ∈ c :: s) by (rewrite E; set_solver).
    apply elem_of_cons in Hin as [->|Hin]; [done|]. by apply (proj1 (Forall_forall _ _) Hd). }
  apply trim_right_ascii; by apply Hsp.
Qed.

(** ** Streams through the filter *)

Fixpoint filter_run {T} `{Writer T} (f : controlFilter T) (cs : list bytes) : option (controlFilter T) :=
  match cs with
  | [] => Some f
  | c :: cs' =>
    let '(f, _, e) := controlFilter_Write f c in
    if (e : bool) then None else filter_run f cs'
  end.

Lemma filter_run_spec {T} `{WriterLaws T} (f : controlFilter T) cs f' :
  (forall s p s' n, wr s p = (s', n, false) -> n = len p) ->
  full_rune (cf_buf f) = false -> filter_run f cs = Some f' ->
  written (cf_w f') = written (cf_w f) ++ (filtered (cf_buf f ++ concat cs)).1 /\
  cf_buf f' = (filtered (cf_buf f ++ concat cs)).2.
Proof.
  intros Hfull. revert f. induction cs as [|c cs IH]; intros f Hb Hr; cbn [filter_run] in Hr.
  - injection Hr as <-. cbn [concat]. rewrite app_nil_r, filtered_partial by done.
    by rewrite app_nil_r.
  - unfold controlFilter_Write in Hr.
    assert (Hdata : (if 0 <? len (cf_buf f) then cf_buf f ++ c else c) = cf_buf f ++ c).
    { destruct (0 <? len (cf_buf f)) eqn:Hz; [done|]. zbool.
      rewrite (len_0_nil (cf_buf f)) by len_lia. done. }
    rewrite Hdata in Hr. fold (filtered (cf_buf f ++ c)) in Hr.
    pose proof (filtered_carry (cf_buf f ++ c)) as Hc.
    cbn [concat]. rewrite app_assoc, (filtered_app (cf_buf f ++ c)).
    destruct (filtered (cf_buf f ++ c)) as [out carry]. cbn [fst snd] in *.
    destruct (0 <? len out) eqn:Hz; zbool.
    + destruct (wr (cf_w f) out) as [[w n] e] eqn:Hw. destruct e; [done|].
      apply IH in Hr as [Hr1 Hr2]; [|done]. cbn [cf_w cf_buf] in *. split; [|done].
      rewrite Hr1, (wr_prefix _ _ _ _ _ Hw), (Hfull _ _ _ _ Hw).
      rewrite take_ge by (unfold len; lia). by rewrite app_assoc.
    + apply IH in Hr as [Hr1 Hr2]; [|done]. cbn [cf_w cf_buf] in *.
      by rewrite (len_0_nil out) by len_lia.
Qed.

Definition bounded_run (bb : boundedBuffer) (cs : list bytes) : boundedBuffer :=
  fold_left (fun b c => (boundedBuffer_Write b c).1) cs bb.

Definition exec_run (b : execBuffer) (cs : list bytes) : execBuffer :=
  fold_left (fun b c => (execBuffer_Write b c).1) cs b.

Lemma take_app_room {A} (l1 l2 : list A) n :
  (length l1 <= n)%nat -> take n (l1 ++ l2) = l1 ++ take (n - length l1) l2.
Proof. intros. rewrite take_app. by rewrite take_ge by lia. Qed.

Lemma bounded_run_spec cs bb all :
  0 <= bb_max bb -> bb_b bb = take (Z.to_nat (bb_max bb)) all ->
  bb_b (bounded_run bb cs) = take (Z.to_nat (bb_max bb)) (all ++ concat cs).
Proof.
  revert bb all. induction cs as [|c cs IH]; intros bb all Hm Hb; cbn [bounded_run fold_left concat].
  { by rewrite app_nil_r. }
  rewrite app_assoc. set (bb1 := (boundedBuffer_Write bb c).1).
  assert (H1 : bb_max bb1 = bb_max bb /\ bb_b bb1 = take (Z.to_nat (bb_max bb)) (all ++ c)).
  { subst bb1. unfold boundedBuffer_Write. cbn [fst].
    assert (Hl : len (bb_b bb) = Z.min (bb_max bb) (len all)) by (rewrite Hb; len_lia).
    destruct (0 <? _) eqn:Hr; zbool.
    - assert (Hall : bb_b bb = all) by (rewrite Hb; apply take_ge; unfold len in *; lia).
      rewrite Hall in *. rewrite take_app_room by (unfold len in *; lia).
      destruct (_ <? len c) eqn:Hc; zbool; cbn [bb_max bb_b]; (split; [done|]); f_equal.
      + f_equal. unfold len. lia.
      + symmetry. apply take_ge. unfold len in *. lia.
    - split; [done|]. rewrite Hb. rewrite take_app_le; [done|]. unfold len in *. lia. }
  destruct H1 as [Hmax H1]. rewrite <- Hmax in H1. fold (bounded_run bb1 cs).
  rewrite (IH bb1 (all ++ c)); [by rewrite Hmax|lia|done].
Qed.

Lemma exec_run_spec cs b all :
  0 <= eb_max b -> eb_b b = take (Z.to_nat (eb_max b)) all ->
  overflow b = (eb_max b <? len all) -> eb_cancelled b = overflow b ->
  let b' := exec_run b cs in
  eb_b b' = take (Z.to_nat (eb_max b)) (all ++ concat cs) /\
  overflow b' = (eb_max b <? len (all ++ concat cs)) /\ eb_cancelled b' = overflow b'.
Proof.
  revert b all. induction cs as [|c cs IH]; intros b all Hm Hb Ho Hc; cbn [exec_run fold_left concat].
  { by rewrite app_nil_r. }
  rewrite app_assoc. set (b1 := (execBuffer_Write b c).1).
  assert (H1 : eb_max b1 = eb_max b /\ eb_b b1 = take (Z.to_nat (eb_max b)) (all ++ c) /\
            overflow b1 = (eb_max b <? len (all ++ c)) /\ eb_cancelled b1 = overflow b1).
  { subst b1. unfold execBuffer_Write. cbn [fst eb_max eb_b overflow eb_cancelled].
    assert (Hl : len (eb_b b) = Z.min (eb_max b) (len all)) by (rewrite Hb; len_lia).
    assert (Hor : overflow b || (Z.min (Z.max (eb_max b - len (eb_b b)) 0) (len c) <? len c)
                  = (eb_max b <? len (all ++ c))).
    { rewrite Ho, len_app. apply eq_true_iff_eq. rewrite orb_true_iff, !Z.ltb_lt. len_pos. lia. }
    rewrite Hc, Hor. split_and!; [done| |done|done].
    destruct (0 <? _) eqn:Hr; zbool.
    - assert (Hall : eb_b b = all) by (rewrite Hb; apply take_ge; unfold len in *; lia).
      rewrite Hall in *. rewrite take_app_room by (unfold len in *; lia). f_equal.
      destruct (Z.le_gt_cases (len c) (eb_max b - len all)).
      + rewrite !take_ge; [done|unfold len in *; lia|unfold len in *; lia].
      + f_equal. unfold len in *. lia.
    - rewrite Hb. destruct (Z.le_gt_cases (eb_max b) (len all)).
      + rewrite take_app_le; [done|]. unfold len in *. lia.
      + rewrite (len_0_nil c) by len_lia. by rewrite app_nil_r. }
  destruct H1 as (Hmax & Hb1 & Ho1 & Hc1). rewrite <- Hmax in *. fold (exec_run b1 cs).
  by apply IH.
Qed.

(** ** Theorems *)

(** (the terminal filter is chunk-independent): however a CLI guest's
    output is cut into writes, also inside a multi-byte rune, what reaches the
    terminal is the filter applied to the whole stream; at most three bytes, an
    unfinished rune, are held back. *)
Theorem control_filter_stream {T} `{WriterLaws T} (w : T) cs f :
  (forall s p s' n, wr s p = (s', n, false) -> n = len p) ->
  filter_run (mkControlFilter w []) cs = Some f ->
  written (cf_w f) = written w ++ (filtered (concat cs)).1 /\
  cf_buf f = (filtered (concat cs)).2 /\ (length (cf_buf f) <= 3)%nat.
Proof.
  intros Hw Hr. destruct (filter_run_spec (mkControlFilter w []) _ _ Hw eq_refl Hr) as [Hout Hbuf].
  cbn [cf_w cf_buf app] in *. split_and!; [done|done|].
  rewrite Hbuf. apply partial_rune_short, filtered_carry.
Qed.

(** A writer that takes everything. *)
Record sink := mkSink { sunk : bytes }.
#[export] Instance sink_writer : Writer sink := {
  wr s p := (mkSink (sunk s ++ p), len p, false); written := sunk }.
#[export] Instance sink_laws : WriterLaws sink.
Proof.
  split; intros s p s' n e [= <- <- <-]; [len_lia|]. cbn. f_equal. rewrite take_ge; [done|unfold len; lia].
Qed.

Lemma control_filter_stream_witness :
  filter_run (mkControlFilter (mkSink []) []) [str "h" ++ [27; 0xC3]; [0xA9; 0x9B; 10]]
    = Some (mkControlFilter (mkSink (str "h" ++ [0xC3; 0xA9; 10])) []) /\
  str "h" ++ [0xC3; 0xA9; 10] = (filtered (str "h" ++ [27; 0xC3; 0xA9; 0x9B; 10])).1.
Proof.
  split; [vm_compute; reflexivity|].
  refine (proj1 (control_filter_stream (mkSink []) [str "h" ++ [27; 0xC3]; [0xA9; 0x9B; 10]]
           (mkControlFilter (mkSink (str "h" ++ [0xC3; 0xA9; 10])) []) _ _)).
  - intros s p s' n [= _ <-]. done.
  - vm_compute. reflexivity.
Defined.

(** (no terminal control gets through): whatever the guest writes, the
    filter's output is valid UTF-8 made of whole runes none of which is a C0
    control (tab and newline aside), DEL or a C1 control, so no byte of it can
    introduce an escape sequence; text that is already so passes unchanged. *)
Theorem control_filter_safe data :
  clean_text (filtered data).1 /\
  utf8_valid (filtered data).1 = true /\ Forall printable_byte (filtered data).1 /\
  (forall o, clean_text o -> filtered o = (o, [])).
Proof.
  pose proof (filtered_clean data) as Hc.
  split_and!; [done|by apply clean_valid|by apply clean_bytes|apply filtered_id].
Qed.

(** (bounded capture): a log buffer holds exactly the first [max] bytes
    written to it and a command's output buffer too; the latter reports
    overflow, and cancels the command, exactly when more was written. *)
Theorem buffers_bounded max cs :
  0 <= max ->
  bb_b (bounded_run (mkBounded max []) cs) = take (Z.to_nat max) (concat cs) /\
  (let b := exec_run (mkExecBuffer max [] false false) cs in
   eb_b b = take (Z.to_nat max) (concat cs) /\
   (overflow b = true <-> max < len (concat cs)) /\ eb_cancelled b = overflow b).
Proof.
  intros Hm. split.
  - apply (bounded_run_spec cs (mkBounded max []) []); [done|]. by rewrite take_nil.
  - destruct (exec_run_spec cs (mkExecBuffer max [] false false) []) as (H1 & H2 & H3);
      cbn [eb_max eb_b overflow eb_cancelled]; [done|by rewrite take_nil| |done|].
    + rewrite len_nil. symmetry. by apply Z.ltb_ge.
    + cbn [app eb_max] in *. split_and!; [done| |done]. rewrite H2. apply Z.ltb_lt.
Qed.

Lemma buffers_bounded_witness :
  bb_b (bounded_run (mkBounded 3 []) [str "ab"; str "cd"; str "e"]) = str "abc".
Proof. apply (buffers_bounded 3 [str "ab"; str "cd"; str "e"]). lia. Defined.

(** (exit status): the error a non-zero CLI exit produces is mapped back to
    exactly that 32-bit code, a clean or cancelled session to 0, and an error
    whose message has no such code to 1. *)
Theorem exit_status_roundtrip code message :
  0 <= code < 2 ^ 32 ->
  ExitStatus (Failed (exit_error code)) = code /\ ExitStatus NoErr = 0 /\ ExitStatus Canceled = 0 /\
  (~ 97 ∈ message -> ExitStatus (Failed message) = 1).
Proof.
  intros Hc. destruct (decimal_spec code Hc) as (Hd & Hne & Hp). split_and!; [|done|done|].
  - unfold ExitStatus. assert (Hl : LastIndex (exit_error code) exit_prefix = Some 0%nat).
    { unfold exit_error. cbn [exit_prefix str app LastIndex].
      rewrite LastIndex_none.
      - assert (Hpre : HasPrefix (exit_error code) exit_prefix = true)
          by (apply HasPrefix_spec; by exists (decimal code)).
        unfold exit_error in Hpre. cbn [exit_prefix str app] in Hpre. by rewrite Hpre.
      - intros Hin. repeat (apply elem_of_cons in Hin as [Hin|Hin]; [by vm_compute in Hin|]).
        apply (proj1 (Forall_forall _ _) Hd) in Hin. destruct Hin as [_ Hin]. by vm_compute in Hin. }
    rewrite Hl. cbn [Nat.add]. unfold exit_error. rewrite drop_app_length.
    by rewrite TrimSpace_digits, Hp.
  - intros Hm. unfold ExitStatus. cbn [exit_prefix str]. by rewrite LastIndex_none.
Qed.

Lemma exit_status_roundtrip_witness : ExitStatus (Failed (str "app exited with code 42")) = 42.
Proof. apply (exit_status_roundtrip 42 []). lia. Defined.
