(* ===== verification/Exec.v ===== *)
(** * Host commands (internal/runner/exec.go)

    [LocalCommander]: which program an allowlisted request may run and what
    comes back.  The file system ([os.Stat], [filepath.EvalSymlinks]), the
    Unicode case tables and the process itself are parameters; the paths are
    Unix paths. *)

From S2P Require Import Prelude Abi AbiCaps Utf8 GoStrings Streams.

(** ** Errors and the Commander interface *)

(** [ErrExecOther]: any error that is none of the named ones (spawning, the
    context, an RPC). *)
Inductive ExecErr :=
| ErrExecTooLarge | ErrExecDenied | ErrExecTimedOut | ErrExecNotFound | ErrExecUnresolved | ErrExecOther.

Class Commander (C : Type) := cmd_Run : C -> ExecRequest -> C * (ExecErr + ExecResponse).

Definition execChildPATH : bytes := str "/usr/bin:/bin:/usr/sbin:/sbin".

Definition shellInterpreterNames : list bytes :=
  [str "sh"; str "bash"; str "zsh"; str "dash"; str "ksh"; str "csh";
   str "fish"; str "cmd"; str "powershell"; str "pwsh"].

Definition validExecRequest (req : ExecRequest) : bool :=
  if bool_decide (Name req = []) || (ExecMaxName <? len (Name req)) || (ExecMaxArgs <? len (Args req))
  then false
  else forallb (fun arg => negb (ExecMaxArg <? len arg)) (Args req).

Record FileInfo := mkFileInfo { fi_dir : bool; fi_perm : Z }.

(** Durations are nanoseconds; an empty [WorkDir] asks for a fresh directory. *)
Record LocalCommander := mkLocalCommander {
  Allowlist : list bytes; WorkDir : bytes; Timeout : Z }.

(** [0o111] *)
Definition execute_bits : Z := 73.

Definition DefaultExecTimeout : Z := 30 * 10 ^ 9.

(** How a command that was started ended: what it wrote to each stream, in the
    chunks the pipes delivered, whether either context had ended, and the result
    of [cmd.Run]. *)
Inductive RunResult := RunOk | RunExit (code : Z) | RunFailed.
Record Outcome := mkOutcome {
  out_chunks : list bytes; err_chunks : list bytes;
  ctx_err : bool; cmdctx_err : bool; run_result : RunResult }.

Section ExecCode.
Context (uni_lower : Z -> Z).
Context (stat : bytes -> option FileInfo) (evalSymlinks : bytes -> option bytes).
(** The process: path, arguments, directory, environment and timeout. *)
Context (spawn : bytes -> list bytes -> bytes -> list bytes -> Z -> Outcome).
Context (mkdirTemp : option bytes) (userHome : option bytes).

Definition isShellPath (path : bytes) : bool :=
  let base := ToLower uni_lower (Base path) in
  bool_decide (base ∈ shellInterpreterNames).

Definition refuseShells (path : bytes) : ExecErr + bytes :=
  if isShellPath path then inl ErrExecDenied else
  match evalSymlinks path with
  | None => inl ErrExecUnresolved
  | Some resolved => if isShellPath resolved then inl ErrExecDenied else inr path
  end.

(** The loop over the directories of the sandbox PATH. *)
Fixpoint lookup_dirs (dirs : list bytes) (name : bytes) : ExecErr + bytes :=
  match dirs with
  | [] => inl ErrExecNotFound
  | dir :: dirs' =>
    if bool_decide (dir = []) then lookup_dirs dirs' name else
    let candidate := JoinPath dir name in
    match stat candidate with
    | None => lookup_dirs dirs' name
    | Some info =>
      if fi_dir info then lookup_dirs dirs' name
      else if Z.land (fi_perm info) execute_bits =? 0 then lookup_dirs dirs' name
      else inr candidate
    end
  end.

(** [filepath.SplitList(execChildPATH)] *)
Definition sandbox_dirs : list bytes := Split colon execChildPATH.

Definition lookupInSandboxPath (name : bytes) : ExecErr + bytes :=
  lookup_dirs sandbox_dirs name.

(** The two allowlist loops of [authorize]. *)
Fixpoint authorize_abs (allow : list bytes) (cleaned : bytes) : ExecErr + bytes :=
  match allow with
  | [] => inl ErrExecDenied
  | entry :: allow' =>
    let entry := TrimSpace entry in
    if IsAbs entry && bool_decide (Clean entry = cleaned) then refuseShells cleaned
    else authorize_abs allow' cleaned
  end.

Fixpoint authorize_bare (allow : list bytes) (name : bytes) : ExecErr + bytes :=
  match allow with
  | [] => inl ErrExecDenied
  | entry :: allow' =>
    let entry := TrimSpace entry in
    if bool_decide (entry = name) && negb (contains_byte slash entry || contains_byte backslash entry)
       && negb (IsAbs entry)
    then match lookupInSandboxPath name with
         | inl e => inl e
         | inr path => refuseShells path
         end
    else authorize_bare allow' name
  end.

Definition authorize (c : LocalCommander) (name : bytes) : ExecErr + bytes :=
  if len (Allowlist c) =? 0 then inl ErrExecDenied else
  if contains_byte slash name || contains_byte backslash name then
    let cleaned := Clean name in
    if negb (IsAbs cleaned) then inl ErrExecDenied
    else authorize_abs (Allowlist c) cleaned
  else authorize_bare (Allowlist c) name.

Definition minimalExecEnvironment : list bytes :=
  let env := [str "PATH=" ++ execChildPATH] in
  match userHome with
  | Some home => if negb (bool_decide (home = [])) then env ++ [str "HOME=" ++ home] else env
  | None => env
  end.

Definition LocalCommander_Run (c : LocalCommander) (req : ExecRequest) : ExecErr + ExecResponse :=
  if negb (validExecRequest req) then inl ErrExecTooLarge else
  match authorize c (Name req) with
  | inl e => inl e
  | inr path =>
    let timeout := if Timeout c <=? 0 then DefaultExecTimeout else Timeout c in
    match (if bool_decide (WorkDir c = []) then mkdirTemp else Some (WorkDir c)) with
    | None => inl ErrExecOther
    | Some dir =>
      let o := spawn path (Args req) dir minimalExecEnvironment timeout in
      let stdout := exec_run (mkExecBuffer ExecMaxOutput [] false false) (out_chunks o) in
      let stderr := exec_run (mkExecBuffer ExecMaxOutput [] false false) (err_chunks o) in
      if overflow stdout || overflow stderr then inl ErrExecTooLarge else
      if ctx_err o then inl ErrExecOther else
      if cmdctx_err o then inl ErrExecTimedOut else
      match run_result o with
      | RunOk => inr (mkExecResponse 0 (eb_b stdout) (eb_b stderr))
      | RunExit code => inr (mkExecResponse code (eb_b stdout) (eb_b stderr))
      | RunFailed => inl ErrExecOther
      end
    end
  end.

#[export] Instance LocalCommander_Commander : Commander LocalCommander :=
  fun c req => (c, LocalCommander_Run c req).

(** ** Lemmas *)

(** A path that passed [refuseShells] is not a shell, nor does it resolve to one. *)
Definition not_a_shell (path : bytes) : Prop :=
  isShellPath path = false /\
  exists resolved, evalSymlinks path = Some resolved /\ isShellPath resolved = false.

Lemma refuseShells_spec path p :
  refuseShells path = inr p -> p = path /\ not_a_shell path.
Proof.
  unfold refuseShells, not_a_shell. destruct (isShellPath path); [done|].
  destruct (evalSymlinks path) as [r|]; [|done]. destruct (isShellPath r) eqn:Hr; [done|].
  intros [= <-]. eauto.
Qed.

Lemma authorize_abs_spec allow cleaned p :
  authorize_abs allow cleaned = inr p ->
  p = cleaned /\ not_a_shell cleaned /\
  exists entry, entry ∈ allow /\ IsAbs (TrimSpace entry) = true /\ Clean (TrimSpace entry) = cleaned.
Proof.
  induction allow as [|e allow IH]; cbn [authorize_abs]; [done|].
  destruct (_ && _) eqn:Hc; intros H.
  - zbool. apply bool_decide_eq_true in H1. apply refuseShells_spec in H as [-> ?].
    split_and!; [done|done|]. exists e. split_and!; [constructor|done|done].
  - destruct (IH H) as (? & ? & x & Hx & ?). split_and!; [done|done|]. exists x. split; [by constructor|done].
Qed.

(** The program found: an executable file of a sandbox directory. *)
Lemma lookup_dirs_spec dirs name p :
  lookup_dirs dirs name = inr p ->
  exists dir info, dir ∈ dirs /\ p = JoinPath dir name /\ stat p = Some info /\
    fi_dir info = false /\ Z.land (fi_perm info) execute_bits <> 0.
Proof.
  induction dirs as [|d dirs IH]; cbn [lookup_dirs]; [done|].
  assert (Hrec : lookup_dirs dirs name = inr p -> exists dir info, dir ∈ d :: dirs /\ p = JoinPath dir name /\
            stat p = Some info /\ fi_dir info = false /\ Z.land (fi_perm info) execute_bits <> 0).
  { intros H. destruct (IH H) as (dir & info & ? & ?). exists dir, info. split; [by constructor|done]. }
  destruct (bool_decide (d = [])); [done|].
  destruct (stat (JoinPath d name)) as [info|] eqn:Hs; [|done].
  destruct (fi_dir info) eqn:Hd; [done|]. destruct (_ =? 0) eqn:Hp; [done|]. zbool.
  intros [= <-]. exists d, info. split_and!; [constructor|done..].
Qed.

Lemma lookupInSandboxPath_dirs name : lookupInSandboxPath name = lookup_dirs sandbox_dirs name.
Proof. reflexivity. Qed.

Lemma authorize_bare_spec allow name p :
  authorize_bare allow name = inr p ->
  not_a_shell p /\ lookupInSandboxPath name = inr p /\
  exists entry, entry ∈ allow /\ TrimSpace entry = name /\ IsAbs (TrimSpace entry) = false.
Proof.
  induction allow as [|e allow IH]; cbn [authorize_bare]; [done|].
  destruct (_ && _ && _) eqn:Hc; intros H.
  - apply andb_true_iff in Hc as [Hc Ha]. apply andb_true_iff in Hc as [Hc _].
    apply bool_decide_eq_true in Hc. apply negb_true_iff in Ha.
    destruct (lookupInSandboxPath name) as [?|path]; [done|].
    apply refuseShells_spec in H as [-> ?]. split_and!; [done|done|].
    exists e. split_and!; [constructor|done|done].
  - destruct (IH H) as (? & ? & x & Hx & ?). split_and!; [done|done|]. exists x. split; [by constructor|done].
Qed.

(** ** Theorems *)

(** What the operator's allowlist says about running [path] for [name]. *)
Definition permitted (allow : list bytes) (name path : bytes) : Prop :=
  (exists entry, entry ∈ allow /\ IsAbs (TrimSpace entry) = true /\
     path = Clean name /\ path = Clean (TrimSpace entry)) \/
  (exists entry dir, entry ∈ allow /\ TrimSpace entry = name /\ IsAbs name = false /\
     ~ slash ∈ name /\ ~ backslash ∈ name /\
     dir ∈ sandbox_dirs /\ path = JoinPath dir name).

(** C34 (commands are authorised): a program runs only if the operator's
    allowlist admits exactly it: a path request only through an absolute entry
    that cleans to the same path, which then has no "." or ".." left; a bare name
    only through a bare entry of that name and only from the fixed sandbox PATH.
    Neither the program nor what its links resolve to is a shell, and an empty
    allowlist admits nothing. *)
Theorem exec_authorized c name path :
  authorize c name = inr path ->
  permitted (Allowlist c) name path /\ not_a_shell path /\ Allowlist c <> [] /\
  ((slash ∈ name \/ backslash ∈ name) ->
     exists es, path = slash :: Join slash es /\ Forall plain_elem es).
Proof.
  unfold authorize. destruct (len (Allowlist c) =? 0) eqn:Hl; [done|]. zbool.
  assert (Hne : Allowlist c <> []) by (intros E; rewrite E in Hl; done).
  destruct (_ || _) eqn:Hs.
  - destruct (negb (IsAbs (Clean name))) eqn:Ha; [done|]. zbool. intros H.
    destruct (authorize_abs_spec _ _ _ H) as (-> & Hsh & e & He & Hea & Hec).
    split_and!; [|done|done|].
    + left. exists e. by rewrite Hec.
    + intros _. rewrite <- Hec. by apply Clean_abs.
  - apply orb_false_iff in Hs as [H1 H2]. intros H.
    assert (Hs : ~ slash ∈ name) by (intros Hin%contains_byte_spec; congruence).
    assert (Hb : ~ backslash ∈ name) by (intros Hin%contains_byte_spec; congruence).
    destruct (authorize_bare_spec _ _ _ H) as (Hsh & Hlk & e & He & Het & Hea).
    rewrite lookupInSandboxPath_dirs in Hlk.
    destruct (lookup_dirs_spec _ _ _ Hlk) as (dir & info & Hd & Hp & _).
    split_and!; [|done|done|by intros [?|?]].
    right. exists e, dir. rewrite Het in Hea. by split_and!.
Qed.

(** (command output is whole): a response carries the command's complete
    standard output and error, within [ExecMaxOutput], of a request within its
    caps and a program the allowlist admits; more output than the cap is an
    error, never a truncated response. *)
Theorem exec_output_whole c req resp :
  LocalCommander_Run c req = inr resp ->
  validExecRequest req = true /\
  exists path dir timeout, authorize c (Name req) = inr path /\ 0 < timeout /\
    let o := spawn path (Args req) dir minimalExecEnvironment timeout in
    Stdout resp = concat (out_chunks o) /\ Stderr resp = concat (err_chunks o) /\
    len (Stdout resp) <= ExecMaxOutput /\ len (Stderr resp) <= ExecMaxOutput /\
    (run_result o = RunOk /\ ExitCode resp = 0 \/ run_result o = RunExit (ExitCode resp)).
Proof.
  unfold LocalCommander_Run. destruct (validExecRequest req) eqn:Hv; cbn [negb]; [|done].
  destruct (authorize c (Name req)) as [?|path] eqn:Ha; [done|].
  set (timeout := if Timeout c <=? 0 then _ else _).
  assert (Ht : 0 < timeout) by (subst timeout; destruct (Timeout c <=? 0) eqn:E; zbool; [done|lia]).
  destruct (if bool_decide _ then _ else _) as [dir|]; [|done].
  set (o := spawn _ _ _ _ _). intros H. split; [done|]. exists path, dir, timeout. split; [done|].
  split; [done|]. fold o.
  assert (HM : 0 <= ExecMaxOutput) by done. revert H HM. generalize ExecMaxOutput. intros M H HM.
  assert (Hbuf : forall cs, overflow (exec_run (mkExecBuffer M [] false false) cs) = false ->
            eb_b (exec_run (mkExecBuffer M [] false false) cs) = concat cs /\ len (concat cs) <= M).
  { intros cs Ho. destruct (exec_run_spec cs (mkExecBuffer M [] false false) []) as (Hb & Hov & _);
      cbn [eb_max eb_b overflow eb_cancelled]; [done|by rewrite take_nil| |done|].
    { rewrite len_nil. symmetry. by apply Z.ltb_ge. }
    cbn [app eb_max] in *. rewrite Hov in Ho. zbool. split; [|done].
    rewrite Hb. apply take_ge. unfold len in Ho. lia. }
  destruct (_ || _) eqn:Ho; [done|]. apply orb_false_iff in Ho as [H1 H2].
  destruct (Hbuf _ H1) as [E1 L1], (Hbuf _ H2) as [E2 L2].
  destruct (ctx_err o); [done|]. destruct (cmdctx_err o); [done|].
  destruct (run_result o) as [|code|] eqn:Hr; [| |done]; injection H as <-; cbn [Stdout Stderr ExitCode];
    rewrite E1, E2; split_and!; auto.
Qed.

End ExecCode.

(** A file system with [/usr/bin/git] and [/bin/sh]. *)
Definition sample_stat (p : bytes) : option FileInfo :=
  if bool_decide (p = str "/usr/bin/git") || bool_decide (p = str "/bin/sh")
  then Some (mkFileInfo false 493) else None.

Definition sample_commander : LocalCommander := mkLocalCommander [str " git "; str "/bin/sh"] [] 0.

Lemma exec_authorized_witness :
  authorize (fun r => r) sample_stat Some sample_commander (str "git") = inr (str "/usr/bin/git") /\
  authorize (fun r => r) sample_stat Some sample_commander (str "/bin/../bin/sh") = inl ErrExecDenied /\
  not_a_shell (fun r => r) Some (str "/usr/bin/git").
Proof.
  split; [vm_compute; reflexivity|]. split; [vm_compute; reflexivity|].
  apply (exec_authorized (fun r => r) sample_stat Some sample_commander (str "git")).
  vm_compute. reflexivity.
Defined.

Lemma exec_output_whole_witness :
  validExecRequest (mkExecRequest (str "git") [str "log"]) = true.
Proof.
  apply (exec_output_whole (fun r => r) sample_stat Some
           (fun _ _ _ _ _ => mkOutcome [str "a"; str "b"] [] false false (RunExit 3))
           (Some (str "/tmp/x")) None sample_commander (mkExecRequest (str "git") [str "log"])
           (mkExecResponse 3 (str "ab") [])).
  vm_compute. reflexivity.
Defined.
