(* ===== verification/Egress.v ===== *)
(** * Gated outbound HTTP (internal/runner/fetch.go)

    [AllowlistFetcher]: the host allowlist, the guard on the addresses dialled
    and on redirects, and the request itself.  [url.Parse], the construction of
    the request and the HTTP exchange are parameters; the parts of net and
    net/netip the guard depends on (splitting host and port, parsing an IP
    literal, the address classes) are modelled. *)

From S2P Require Import Prelude Abi AbiCaps Utf8 GoStrings.

Inductive FetchErr :=
| ErrEgressDenied | errTooManyRedirects | errBadRequest | errResponseTooLarge
| errEgressUnavailable | ErrFetchOther.

Class Fetcher (F : Type) := fetch_Fetch : F -> FetchRequest -> F * (FetchErr + FetchResponse).

Record AllowlistFetcher := mkFetcher { Allow : list bytes; AllowPrivateIPs : bool }.

(** ** The name allowlist *)

Definition isDNSLabelChar (r : Z) : bool :=
  within_b 97 122 r || within_b 65 90 r || within_b 48 57 r || (r =? hyphen).

Definition valid_label (label : bytes) : bool :=
  if bool_decide (label = []) || (63 <? len label) || (nth 0 label 0 =? hyphen)
     || (nth (length label - 1) label 0 =? hyphen)
  then false
  else forallb isDNSLabelChar (runes label).

Definition validAllowlistEntry (entry : bytes) : bool :=
  let body := if HasPrefix entry (str "*.") then TrimPrefix entry (str "*.")
              else TrimPrefix entry [dot] in
  if bool_decide (body = []) || (253 <? len body) then false
  else forallb valid_label (Split dot body).

(** Entries are quoted in the error of the source; here the offending ones. *)
Definition NewValidatedAllowlistFetcher (allow : list bytes) : list bytes + AllowlistFetcher :=
  let bad := filter (fun raw => validAllowlistEntry raw = false) allow in
  if 0 <? len bad then inl bad else inr (mkFetcher allow false).

Section Allowed.
Context (uni_lower : Z -> Z).

Definition entry_matches (host raw : bytes) : bool :=
  let entry := ToLower uni_lower (TrimSpace raw) in
  let wildcard := HasPrefix entry (str "*.") || HasPrefix entry [dot] in
  let body := TrimPrefix (TrimPrefix entry (str "*.")) [dot] in
  if negb (validAllowlistEntry entry) then false
  else if bool_decide (host = body) then true
  else wildcard && HasSuffix host (dot :: body).

Definition allowed (f : AllowlistFetcher) (host : bytes) : bool :=
  let host := ToLower uni_lower (TrimSuffix host [dot]) in
  existsb (entry_matches host) (Allow f).

End Allowed.

(** ** Addresses (net, net/netip) *)

(** [net.SplitHostPort], the host only; [None] is an error. *)
Fixpoint index_byte (c : Z) (s : bytes) : option nat :=
  match s with
  | [] => None
  | x :: s' => if x =? c then Some 0%nat else option_map S (index_byte c s')
  end.

Definition last_byte (c : Z) (s : bytes) : option nat :=
  match index_byte c (rev s) with
  | Some i => Some (length s - 1 - i)%nat
  | None => None
  end.

Definition lbracket : Z := 91.
Definition rbracket : Z := 93.

Definition SplitHostPort (hostport : bytes) : option bytes :=
  match last_byte colon hostport with
  | None => None
  | Some i =>
    let parts :=                           (* host, j, k *)
      if nth 0 hostport 0 =? lbracket then
        match index_byte rbracket hostport with
        | None => None
        | Some e =>
          if (e + 1 =? i)%nat then Some (take (e - 1) (drop 1 hostport), 1%nat, (e + 1)%nat) else None
        end
      else
        let host := take i hostport in
        if contains_byte colon host then None else Some (host, 0%nat, 0%nat) in
    match parts with
    | None => None
    | Some (host, j, k) =>
      if contains_byte lbracket (drop j hostport) then None
      else if contains_byte rbracket (drop k hostport) then None
      else Some host
    end
  end.

(** An address: 32 or 128 bits. *)
Inductive Addr := V4 (n : Z) | V6 (n : Z).

(** Dotted decimal: four fields, no leading zeros, each at most 255. *)
Fixpoint parse_octet (s : bytes) (acc : Z) (first : bool) : option Z :=
  match s with
  | [] => if first then None else Some acc
  | c :: s' =>
    if negb (within_b 48 57 c) then None
    else if negb first && (acc =? 0) then None
    else let acc := acc * 10 + (c - 48) in
         if 255 <? acc then None else parse_octet s' acc false
  end.

Definition parseIPv4 (s : bytes) : option Z :=
  match Split dot s with
  | [a; b; c; d] =>
    match parse_octet a 0 true, parse_octet b 0 true, parse_octet c 0 true, parse_octet d 0 true with
    | Some a, Some b, Some c, Some d => Some (((a * 256 + b) * 256 + c) * 256 + d)
    | _, _, _, _ => None
    end
  | _ => None
  end.

Definition hex_digit (c : Z) : option Z :=
  if within_b 48 57 c then Some (c - 48)
  else if within_b 97 102 c then Some (c - 97 + 10)
  else if within_b 65 70 c then Some (c - 65 + 10)
  else None.

(** One group: the value, the digits taken, the rest; at most 16 bits. *)
Fixpoint hex_group (s : bytes) (acc : Z) (n : nat) : option (Z * nat * bytes) :=
  match s with
  | [] => Some (acc, n, [])
  | c :: s' =>
    match hex_digit c with
    | None => Some (acc, n, s)
    | Some d =>
      if (4 <=? n)%nat then None
      else let acc := acc * 16 + d in
           if 0xFFFF <? acc then None else hex_group s' acc (S n)
    end
  end.

(** The groups before and after the ellipsis, as 16-bit values; [ell] says where
    it was seen.  [fuel] bounds the groups: each takes at least one character. *)
Fixpoint v6_loop (fuel : nat) (s : bytes) (gs : list Z) (ell : option nat)
  : option (list Z * option nat) :=
  match fuel with
  | O => None
  | S fuel' =>
    if (8 <=? length gs)%nat then (if bool_decide (s = []) then Some (gs, ell) else None) else
    match hex_group s 0 0 with
    | None => None
    | Some (v, n, rest) =>
      if (n =? 0)%nat then None else
      match rest with
      | [] => Some (gs ++ [v], ell)
      | c :: rest' =>
        if c =? dot then
          (* trailing dotted decimal, after at most six groups *)
          if bool_decide (ell = None) && negb (length gs =? 6)%nat then None
          else if (6 <? length gs)%nat then None
          else match parseIPv4 s with
               | Some q => Some (gs ++ [q / 65536; q mod 65536], ell)
               | None => None
               end
        else if negb (c =? colon) then None
        else match rest' with
             | [] => None
             | c2 :: rest'' =>
               if c2 =? colon then
                 match ell with
                 | Some _ => None
                 | None =>
                   let gs := gs ++ [v] in
                   if bool_decide (rest'' = []) then Some (gs, Some (length gs))
                   else v6_loop fuel' rest'' gs (Some (length gs))
                 end
               else v6_loop fuel' rest' (gs ++ [v]) ell
             end
      end
    end
  end.

Definition groups_val (gs : list Z) : Z := fold_left (fun acc g => acc * 65536 + g) gs 0.

Definition parseIPv6 (s : bytes) : option Z :=
  let '(s, ell, done) :=
    match s with
    | 58 :: 58 :: rest => (rest, Some 0%nat, bool_decide (rest = []))
    | _ => (s, None, false)
    end in
  if (done : bool) then Some 0 else
  match v6_loop (S (length s)) s [] ell with
  | None => None
  | Some (gs, ell) =>
    if (length gs <? 8)%nat then
      match ell with
      | None => None
      | Some e => Some (groups_val (take e gs ++ replicate (8 - length gs) 0 ++ drop e gs))
      end
    else match ell with
         | Some _ => None
         | None => Some (groups_val gs)
         end
  end.

(** [net.ParseIP]: a zone makes it fail. *)
Fixpoint ip_kind (s : bytes) : option bool :=           (* [Some true]: dotted decimal *)
  match s with
  | [] => None
  | c :: s' => if c =? dot then Some true else if c =? colon then Some false
               else if c =? 37 then None else ip_kind s'
  end.

Definition ParseIP (s : bytes) : option Addr :=
  match ip_kind s with
  | Some true => option_map V4 (parseIPv4 s)
  | Some false => if contains_byte 37 s then None else option_map V6 (parseIPv6 s)
  | None => None
  end.

(** [AddrFromSlice] of the 16-byte form that [net.IP] has, then [Unmap]. *)
Definition Unmap (a : Addr) : Addr :=
  match a with
  | V6 n => if Z.shiftr n 32 =? 0xFFFF then V4 (Z.land n (Z.ones 32)) else V6 n
  | V4 n => V4 n
  end.

(** [Prefix.Contains] for a prefix of [bits] bits of [net]. *)
Definition in4 (net bits n : Z) : bool := Z.shiftr n (32 - bits) =? Z.shiftr net (32 - bits).
Definition in6 (net bits n : Z) : bool := Z.shiftr n (128 - bits) =? Z.shiftr net (128 - bits).

Definition quad (a b c d : Z) : Z := ((a * 256 + b) * 256 + c) * 256 + d.

Definition IsLoopback (a : Addr) : bool :=
  match a with V4 n => Z.shiftr n 24 =? 127 | V6 n => n =? 1 end.
Definition IsMulticast (a : Addr) : bool :=
  match a with V4 n => Z.shiftr n 28 =? 0xe | V6 n => Z.shiftr n 120 =? 0xff end.
Definition IsLinkLocalUnicast (a : Addr) : bool :=
  match a with V4 n => Z.shiftr n 16 =? 169 * 256 + 254 | V6 n => Z.shiftr n 118 =? 0xfe80 / 64 end.
Definition IsUnspecified (a : Addr) : bool :=
  match a with V4 n => n =? 0 | V6 n => n =? 0 end.
Definition IsPrivate (a : Addr) : bool :=
  match a with
  | V4 n => (Z.shiftr n 24 =? 10) || (Z.shiftr n 20 =? 172 * 16 + 1) || (Z.shiftr n 16 =? 192 * 256 + 168)
  | V6 n => Z.shiftr n 121 =? 0xfc / 2
  end.
Definition IsGlobalUnicast (a : Addr) : bool :=
  match a with
  | V4 n => negb (n =? 0) && negb (n =? 2 ^ 32 - 1) &&
            negb (IsLoopback a) && negb (IsMulticast a) && negb (IsLinkLocalUnicast a)
  | V6 n => negb (n =? 0) && negb (IsLoopback a) && negb (IsMulticast a) && negb (IsLinkLocalUnicast a)
  end.

Definition nonPublicPrefixes4 : list (Z * Z) :=
  [(quad 0 0 0 0, 8); (quad 100 64 0 0, 10); (quad 192 0 0 0, 24); (quad 192 0 2 0, 24);
   (quad 192 88 99 0, 24); (quad 198 18 0 0, 15); (quad 198 51 100 0, 24); (quad 203 0 113 0, 24);
   (quad 240 0 0 0, 4)].

Definition hextets (gs : list Z) : Z := groups_val (gs ++ replicate (8 - length gs) 0).

Definition nonPublicPrefixes6 : list (Z * Z) :=
  [(hextets [0x64; 0xff9b], 96); (hextets [0x64; 0xff9b; 1], 48); (hextets [0x100], 64);
   (hextets [0x2001], 32); (hextets [0x2001; 2], 48); (hextets [0x2001; 0xdb8], 32);
   (hextets [0x2002], 16)].

(** The IPv4 and the IPv6 entries of [nonPublicPrefixes]; a prefix contains no
    address of the other family. *)
Definition prefix_contains (a : Addr) : bool :=
  match a with
  | V4 n => existsb (fun p => in4 p.1 p.2 n) nonPublicPrefixes4
  | V6 n => existsb (fun p => in6 p.1 p.2 n) nonPublicPrefixes6
  end.

Definition isNonPublicIP (ip : Addr) : bool :=
  let addr := Unmap ip in
  if negb (IsGlobalUnicast addr) || IsPrivate addr || IsLoopback addr || IsLinkLocalUnicast addr
     || IsMulticast addr || IsUnspecified addr
  then true
  else prefix_contains addr.

(** [None]: allowed. *)
Definition checkDialAddr (f : AllowlistFetcher) (address : bytes) : option FetchErr :=
  if AllowPrivateIPs f then None else
  let host := default address (SplitHostPort address) in
  match ParseIP host with
  | None => Some ErrEgressDenied
  | Some ip => if isNonPublicIP ip then Some ErrEgressDenied else None
  end.

(** [CheckRedirect]: [via] requests were made already. *)
Definition checkRedirect (u : Z -> Z) (f : AllowlistFetcher) (via : Z) (host : bytes) : option FetchErr :=
  if 5 <=? via then Some errTooManyRedirects
  else if negb (allowed u f host) then Some ErrEgressDenied
  else None.

(** ** Fetch *)

Inductive DoResult := DoErr (e : FetchErr) | DoResp (status : Z) (body : bytes) (read_err : bool).

Section FetchCode.
Context (uni_lower : Z -> Z).
(** [url.Parse]: scheme and [Hostname()]. *)
Context (urlParse : bytes -> option (bytes * bytes)).
Context (newRequest : bytes -> bytes -> bool) (client : bytes -> FetchRequest -> DoResult).

Definition AllowlistFetcher_Fetch (f : AllowlistFetcher) (req : FetchRequest) : FetchErr + FetchResponse :=
  if (FetchMaxMethod <? len (Method req)) || (FetchMaxURL <? len (URL req)) || (FetchMaxBody <? len (req_Body req))
  then inl errBadRequest else
  match urlParse (URL req) with
  | None => inl errBadRequest
  | Some (scheme, hostname) =>
    if negb (bool_decide (scheme = str "http")) && negb (bool_decide (scheme = str "https"))
    then inl errBadRequest else
    if negb (allowed uni_lower f hostname) then inl ErrEgressDenied else
    let method := if bool_decide (Method req = []) then str "GET" else Method req in
    if negb (newRequest method (URL req)) then inl errBadRequest else
    match client method req with
    | DoErr ErrEgressDenied => inl ErrEgressDenied
    | DoErr errTooManyRedirects => inl errTooManyRedirects
    | DoErr e => inl e
    | DoResp status body read_err =>
      let respBody := take (Z.to_nat (FetchMaxBody + 1)) body in
      if (read_err : bool) then inl ErrFetchOther
      else if FetchMaxBody <? len respBody then inl errResponseTooLarge
      else inr (mkFetchResponse status respBody)
    end
  end.

#[export] Instance AllowlistFetcher_Fetcher : Fetcher AllowlistFetcher :=
  fun f req => (f, AllowlistFetcher_Fetch f req).

End FetchCode.

(** Sanity checks against the documentation of net and netip. *)
Example parse_1 : ParseIP (str "::ffff:10.0.0.1") = Some (V6 (0xFFFF * 2 ^ 32 + quad 10 0 0 1)).
Proof. reflexivity. Qed.
Example parse_2 : ParseIP (str "2001:db8::1") = Some (V6 (hextets [0x2001; 0xdb8; 0; 0; 0; 0; 0; 1])).
Proof. reflexivity. Qed.
Example parse_3 : ParseIP (str "010.0.0.1") = None /\ ParseIP (str "1:2:3:4:5:6:7::8:9") = None.
Proof. split; reflexivity. Qed.
Example parse_4 : SplitHostPort (str "[fe80::1]:80") = Some (str "fe80::1") /\
                  SplitHostPort (str "10.1.2.3:443") = Some (str "10.1.2.3").
Proof. split; reflexivity. Qed.
Example parse_5 : ParseIP (str "::") = Some (V6 0) /\ ParseIP (str "1::") = Some (V6 (2 ^ 112)).
Proof. split; reflexivity. Qed.
Example dial_1 : checkDialAddr (mkFetcher [] false) (str "[::ffff:169.254.169.254]:80") = Some ErrEgressDenied.
Proof. reflexivity. Qed.
Example dial_2 : checkDialAddr (mkFetcher [] false) (str "93.184.216.34:443") = None.
Proof. reflexivity. Qed.

(** ** Names as label sequences *)

Abbreviation labels := (Split dot).

Lemma Split_app_sep sep a b : Split sep (a ++ sep :: b) = Split sep a ++ Split sep b.
Proof.
  induction a as [|c a IH]; cbn [app Split].
  - by rewrite Z.eqb_refl.
  - destruct (c =? sep); [by rewrite IH|]. rewrite IH.
    destruct (Split sep a) as [|p ps] eqn:E; [by apply Split_nonempty in E|]. done.
Qed.

Lemma Join_app sep l1 l2 : l1 <> [] -> l2 <> [] -> Join sep (l1 ++ l2) = Join sep l1 ++ sep :: Join sep l2.
Proof.
  intros H1 H2. induction l1 as [|p l1 IH]; [done|]. destruct l1 as [|q l1].
  - cbn [app Join]. by destruct l2.
  - cbn [app] in *. change (Join sep (p :: q :: l1 ++ l2)) with (p ++ sep :: Join sep (q :: l1 ++ l2)).
    change (Join sep (p :: q :: l1)) with (p ++ sep :: Join sep (q :: l1)).
    rewrite IH by done. by rewrite <- app_assoc.
Qed.

Lemma Split_inj sep a b : Split sep a = Split sep b <-> a = b.
Proof. split; [|by intros ->]. intros H. by rewrite <- (Join_Split sep a), H, Join_Split. Qed.

(** A dotted suffix is a proper suffix of the labels. *)
Lemma suffix_labels host body :
  HasSuffix host (dot :: body) = true <-> exists pre, pre <> [] /\ labels host = pre ++ labels body.
Proof.
  rewrite HasSuffix_spec. split.
  - intros [t ->]. exists (labels t). split; [apply Split_nonempty|apply Split_app_sep].
  - intros (pre & Hne & H). exists (Join dot pre).
    rewrite <- (Join_Split dot host), H, Join_app by (done || apply Split_nonempty).
    by rewrite Join_Split.
Qed.

(** ** Address ranges *)

(** A test of leading bits is a range test. *)
Lemma shiftr_range n k c :
  0 <= k -> (Z.shiftr n k =? c) = (c * 2 ^ k <=? n) && (n <? (c + 1) * 2 ^ k).
Proof.
  intros Hk. rewrite Z.shiftr_div_pow2 by done. apply eq_true_iff_eq.
  rewrite andb_true_iff, Z.eqb_eq, Z.leb_le, Z.ltb_lt.
  pose proof (Z.pow_pos_nonneg 2 k ltac:(lia) Hk) as Hp. split.
  - intros <-. pose proof (Z.div_mod n (2 ^ k) ltac:(lia)). pose proof (Z.mod_pos_bound n (2 ^ k) Hp). nia.
  - intros [? ?]. symmetry. apply (Z.div_unique _ _ _ (n - c * 2 ^ k)); lia.
Qed.

Definition in_range (r : Z * Z) (n : Z) : bool := (r.1 <=? n) && (n <? r.2).

(** The special-purpose IPv4 ranges, as [first, last + 1). *)
Definition special4 : list (Z * Z) :=
  [(quad 0 0 0 0, quad 1 0 0 0); (quad 10 0 0 0, quad 11 0 0 0); (quad 100 64 0 0, quad 100 128 0 0);
   (quad 127 0 0 0, quad 128 0 0 0); (quad 169 254 0 0, quad 169 255 0 0); (quad 172 16 0 0, quad 172 32 0 0);
   (quad 192 0 0 0, quad 192 0 1 0); (quad 192 0 2 0, quad 192 0 3 0); (quad 192 88 99 0, quad 192 88 100 0);
   (quad 192 168 0 0, quad 192 169 0 0); (quad 198 18 0 0, quad 198 20 0 0);
   (quad 198 51 100 0, quad 198 51 101 0); (quad 203 0 113 0, quad 203 0 114 0);
   (quad 224 0 0 0, quad 240 0 0 0); (quad 240 0 0 0, quad 256 0 0 0)].

(** The special-purpose IPv6 ranges the guard knows. *)
Definition special6 : list (Z * Z) :=
  [(0, 1); (1, 2);
   (hextets [0x64; 0xff9b], hextets [0x64; 0xff9b] + 2 ^ 32);
   (hextets [0x64; 0xff9b; 1], hextets [0x64; 0xff9b; 2]);
   (hextets [0x100], hextets [0x100; 0; 0; 1]);
   (hextets [0x2001], hextets [0x2001; 1]); (hextets [0x2001; 2], hextets [0x2001; 2; 1]);
   (hextets [0x2001; 0xdb8], hextets [0x2001; 0xdb9]); (hextets [0x2002], hextets [0x2003]);
   (hextets [0xfc00], hextets [0xfe00]); (hextets [0xfe80], hextets [0xfec0]);
   (hextets [0xff00], hextets [0x10000])].

(** Rewrite every leading-bits test as a range test with computed bounds. *)
Ltac ranges :=
  rewrite ?shiftr_range by lia;
  repeat match goal with
  | |- context [(?x <=? ?n)] => lazymatch x with
                                | Z0 => fail | Zpos _ => fail
                                | _ => let v := eval vm_compute in x in change (x <=? n) with (v <=? n) end
  | |- context [(?n <? ?x)] => lazymatch x with
                               | Z0 => fail | Zpos _ => fail
                               | _ => let v := eval vm_compute in x in change (n <? x) with (n <? v) end
  end.

Lemma unmap_plain4 n : Unmap (V4 n) = V4 n.
Proof. reflexivity. Qed.

Lemma unmap_mapped n : 0 <= n < 2 ^ 32 -> Unmap (V6 (0xFFFF * 2 ^ 32 + n)) = V4 n.
Proof.
  intros Hn. unfold Unmap. rewrite shiftr_range by lia.
  rewrite (proj2 (Z.leb_le _ _)), (proj2 (Z.ltb_lt _ _)) by lia. cbn [andb].
  rewrite Z.land_ones by lia. f_equal. rewrite Z.add_comm, Z.mod_add by lia. by apply Z.mod_small.
Qed.

(** Two disjunctions of the same range tests. *)
Ltac same_tests :=
  match goal with
  | |- context [if ?a then true else ?b] => change (if a then true else b) with (a || b)
  end;
  repeat match goal with
  | |- context [(?x <=? ?n) && (?n <? ?y)] => generalize ((x <=? n) && (n <? y)); intros ?
  end;
  rewrite ?negb_andb, ?negb_involutive;
  apply eq_true_iff_eq; rewrite !orb_true_iff; tauto.

Lemma nonpublic4 n :
  0 <= n < 2 ^ 32 -> isNonPublicIP (V4 n) = existsb (fun r => in_range r n) special4.
Proof.
  intros Hn. unfold isNonPublicIP. rewrite unmap_plain4.
  unfold IsGlobalUnicast, IsPrivate, IsLoopback, IsLinkLocalUnicast, IsMulticast, IsUnspecified,
    prefix_contains, in4, in_range. cbn [existsb nonPublicPrefixes4 special4 fst snd]. ranges.
  destruct (Z.eq_dec n 0) as [->|H0]; [reflexivity|].
  destruct (Z.eq_dec n (2 ^ 32 - 1)) as [->|H1]; [reflexivity|].
  rewrite (proj2 (Z.eqb_neq n 0)), (proj2 (Z.eqb_neq n (2 ^ 32 - 1))) by done. cbn [negb andb].
  same_tests.
Qed.

Lemma nonpublic6 n :
  0 <= n < 2 ^ 128 -> Z.shiftr n 32 <> 0xFFFF ->
  isNonPublicIP (V6 n) = existsb (fun r => in_range r n) special6.
Proof.
  intros Hn Hm. unfold isNonPublicIP, Unmap. rewrite (proj2 (Z.eqb_neq _ _)) by done.
  unfold IsGlobalUnicast, IsPrivate, IsLoopback, IsLinkLocalUnicast, IsMulticast, IsUnspecified,
    prefix_contains, in6, in_range. cbn [existsb nonPublicPrefixes6 special6 fst snd]. ranges.
  assert (E0 : (n =? 0) = (0 <=? n) && (n <? 1))
    by (apply eq_true_iff_eq; rewrite andb_true_iff, Z.eqb_eq, Z.leb_le, Z.ltb_lt; lia).
  assert (E1 : (n =? 1) = (1 <=? n) && (n <? 2))
    by (apply eq_true_iff_eq; rewrite andb_true_iff, Z.eqb_eq, Z.leb_le, Z.ltb_lt; lia).
  rewrite E0, E1. same_tests.
Qed.

(** ** Network activity under the guard

    What net/http documents of the guarded client: the dialer's [Control] runs
    before every connection, [CheckRedirect] before every redirect is followed,
    and either stops the request by returning an error. *)
Inductive NetEvent := Dialed (address : bytes) | Redirected (host : bytes).

Section Guard.
Context (uni_lower : Z -> Z) (f : AllowlistFetcher).

Inductive guarded : Z -> list NetEvent -> Prop :=
| g_nil via : guarded via []
| g_dial via a t : checkDialAddr f a = None -> guarded via t -> guarded via (Dialed a :: t)
| g_redirect via h t :
    checkRedirect uni_lower f via h = None -> guarded (via + 1) t -> guarded via (Redirected h :: t).

Definition redirects (t : list NetEvent) : list bytes :=
  omap (fun e => match e with Redirected h => Some h | Dialed _ => None end) t.

Lemma guarded_redirects via t :
  guarded via t -> 1 <= via ->
  len (redirects t) <= Z.max 0 (5 - via) /\ Forall (fun h => allowed uni_lower f h = true) (redirects t).
Proof.
  induction 1 as [via|via a t Hd _ IH|via h t Hr _ IH]; intros Hv.
  - split; [change (0 <= Z.max 0 (5 - via)); lia|constructor].
  - apply IH. done.
  - destruct IH as [IH1 IH2]; [lia|]. unfold checkRedirect in Hr.
    destruct (5 <=? via) eqn:E; [done|]. destruct (allowed uni_lower f h) eqn:Ha; [|done]. zbool.
    change (redirects (Redirected h :: t)) with (h :: redirects t).
    split; [len_lia|by constructor].
Qed.

End Guard.

(** The address a dial string names, if any. *)
Definition dial_ip (address : bytes) : option Addr := ParseIP (default address (SplitHostPort address)).

(** ** Theorems *)

(** (host allowlist): a host is admitted exactly when, with case folded and
    one final dot removed, its labels are those of some well-formed entry, or end
    with them for a wildcard entry.  So an entry never admits a host that merely
    shares characters with it, bare entries admit no subdomain, malformed ones
    nothing, and an empty list denies everything. *)
Theorem egress_name_policy u f host :
  allowed u f host = true <->
  exists raw : bytes, raw ∈ Allow f /\
    let entry := ToLower u (TrimSpace raw) in
    let body := TrimPrefix (TrimPrefix entry (str "*.")) [dot] in
    let name := ToLower u (TrimSuffix host [dot]) in
    validAllowlistEntry entry = true /\
    (labels name = labels body \/
     (HasPrefix entry (str "*.") || HasPrefix entry [dot] = true /\
      exists pre, pre <> [] /\ labels name = pre ++ labels body)).
Proof.
  unfold allowed. rewrite existsb_exists. apply exist_proper. intros raw.
  rewrite list_elem_of_In. cbn zeta. unfold entry_matches.
  set (entry := ToLower u (TrimSpace raw)). set (name := ToLower u (TrimSuffix host [dot])).
  set (body := TrimPrefix _ _). rewrite Split_inj, <- suffix_labels.
  apply and_iff_compat_l. destruct (validAllowlistEntry entry); cbn [negb]; [|naive_solver].
  destruct (bool_decide (name = body)) eqn:Hb.
  - apply bool_decide_eq_true in Hb. naive_solver.
  - apply bool_decide_eq_false in Hb. rewrite andb_true_iff. naive_solver.
Qed.

(** C33 (address guard): an IPv4 address is refused exactly when it lies in one
    of the special-purpose ranges of [special4] (loopback, private, link-local
    with the cloud metadata address, carrier-grade NAT, multicast and so on); its
    IPv4-mapped IPv6 form is treated the same; an IPv6 address is refused exactly
    when it lies in [special6].  A dial string that is not an IP literal is
    refused. *)
Theorem egress_address_policy n :
  0 <= n < 2 ^ 128 ->
  (n < 2 ^ 32 -> isNonPublicIP (V4 n) = existsb (fun r => in_range r n) special4) /\
  (n < 2 ^ 32 -> isNonPublicIP (V6 (0xFFFF * 2 ^ 32 + n)) = isNonPublicIP (V4 n)) /\
  (Z.shiftr n 32 <> 0xFFFF -> isNonPublicIP (V6 n) = existsb (fun r => in_range r n) special6) /\
  (forall allow address, dial_ip address = None ->
     checkDialAddr (mkFetcher allow false) address = Some ErrEgressDenied).
Proof.
  intros Hn. split_and!.
  - intros. apply nonpublic4. lia.
  - intros. unfold isNonPublicIP. by rewrite unmap_mapped by lia.
  - intros. by apply nonpublic6.
  - intros allow address H. unfold checkDialAddr. cbn [AllowPrivateIPs]. unfold dial_ip in H. by rewrite H.
Qed.

Lemma egress_address_policy_witness : isNonPublicIP (V4 (quad 169 254 169 254)) = true.
Proof.
  destruct (egress_address_policy (quad 169 254 169 254)) as (H & _); [vm_compute; split; congruence|].
  rewrite H by (vm_compute; reflexivity). reflexivity.
Defined.

(** C32 (no way round the guard): along any activity of the guarded client,
    however names resolve and servers redirect, every connection goes to an IP
    literal outside the special-purpose ranges, every redirect followed names an
    admitted host, and at most four are followed. *)
Theorem egress_guard u allow t :
  guarded u (mkFetcher allow false) 1 t ->
  (forall a, Dialed a ∈ t -> exists ip, dial_ip a = Some ip /\ isNonPublicIP ip = false) /\
  (forall h, Redirected h ∈ t -> allowed u (mkFetcher allow false) h = true) /\
  len (redirects t) <= 4.
Proof.
  intros H. destruct (guarded_redirects _ _ _ _ H) as [Hl Hr]; [lia|]. split_and!; [| |lia].
  - clear Hl Hr. induction H as [via|via a t Hd _ IH|via h t _ _ IH]; intros x Hx.
    + by apply not_elem_of_nil in Hx.
    + apply elem_of_cons in Hx as [[= ->]|Hx]; [|by apply IH].
      unfold checkDialAddr in Hd. cbn [AllowPrivateIPs] in Hd. unfold dial_ip.
      destruct (ParseIP _) as [ip|]; [|done]. exists ip. split; [done|]. by destruct (isNonPublicIP ip).
    + apply elem_of_cons in Hx as [?|Hx]; [done|by apply IH].
  - intros h Hh. apply (proj1 (Forall_forall _ _) Hr). apply list_elem_of_omap. eauto.
Qed.

Lemma egress_guard_witness :
  exists ip, dial_ip (str "93.184.216.34:443") = Some ip /\ isNonPublicIP ip = false.
Proof.
  apply (egress_guard (fun r => r) [str ".example.com"]
    [Dialed (str "93.184.216.34:443"); Redirected (str "www.Example.com"); Dialed (str "[2606:2800::1]:80")]).
  - repeat constructor; vm_compute; reflexivity.
  - constructor.
Defined.

(** (fetch): a response is produced only for an http or https URL whose host
    the allowlist admits, and carries the whole body, at most [FetchMaxBody]
    bytes; a longer body is an error, never cut.  Without an admitted host the
    HTTP client does not matter: nothing is sent. *)
Theorem fetch_exact u urlParse newRequest client f req resp :
  AllowlistFetcher_Fetch u urlParse newRequest client f req = inr resp ->
  exists scheme host body, urlParse (URL req) = Some (scheme, host) /\
    (scheme = str "http" \/ scheme = str "https") /\ allowed u f host = true /\
    client (if bool_decide (Method req = []) then str "GET" else Method req) req
      = DoResp (Status resp) body false /\
    resp_Body resp = body /\ len body <= FetchMaxBody.
Proof.
  unfold AllowlistFetcher_Fetch. destruct (_ || _ || _); [done|].
  destruct (urlParse (URL req)) as [[scheme host]|]; [|done].
  destruct (_ && _) eqn:Hs; [done|]. destruct (allowed u f host) eqn:Ha; cbn [negb]; [|done].
  destruct (negb (newRequest _ _)); [done|].
  destruct (client _ req) as [e|status body []] eqn:Hc; [by destruct e|done|].
  assert (HM : 0 <= FetchMaxBody) by done. revert HM. generalize FetchMaxBody. intros M HM.
  destruct (M <? _) eqn:Hb; [done|]. zbool.
  assert (Hl : len body <= M) by (rewrite len_take in Hb; len_lia).
  intros [= <-]. cbn [Status resp_Body]. exists scheme, host, body.
  rewrite take_ge by (unfold len in Hl; lia). split_and!; try done.
  apply andb_false_iff in Hs as [Hs|Hs]; apply negb_false_iff, bool_decide_eq_true in Hs; auto.
Qed.

Lemma fetch_exact_witness : exists scheme host body,
  Some (str "https", str "api.example.com") = Some (scheme, host) /\
  allowed (fun r => r) (mkFetcher [str "*.example.com"] false) host = true /\ body = str "ok".
Proof.
  destruct (fetch_exact (fun r => r) (fun _ => Some (str "https", str "api.example.com")) (fun _ _ => true)
    (fun _ _ => DoResp 200 (str "ok") false) (mkFetcher [str "*.example.com"] false)
    (mkFetchRequest [] (str "https://api.example.com/") []) (mkFetchResponse 200 (str "ok")))
    as (s & h & b & H1 & _ & H2 & _ & H3 & _); [vm_compute; reflexivity|].
  exists s, h, b. split; [exact H1|]. split; [exact H2|]. symmetry. exact H3.
Defined.
