(* ===== verification/HostFns.v ===== *)
(** * Host functions (internal/runner: kv.go, bus.go, auth.go, env.go, fetch.go,
      exec.go, timer.go, goodbye.go)

    The functions the host module exports to a guest.  Guest linear memory is
    wazero's: the type class [Memory] with the documented behaviour
    [MemoryLaws].  Each capability is used through its interface ([Store],
    [Bus], [Fetcher], ...), so the theorems hold for every implementation that
    keeps the interface's promises; a [nil] capability is [None]. *)

From S2P Require Import Prelude Abi AbiCaps Keys KVStore Bus Timer Exec Egress.

(** ** Guest memory (github.com/tetratelabs/wazero/api.Memory) *)

Class Memory (M : Type) := {
  mem_read : M -> Z -> Z -> option bytes;       (* offset, byteCount: uint32 *)
  mem_write : M -> Z -> bytes -> M * bool }.

(** Reads give exactly the bytes asked for; a write in range is read back and
    leaves the rest alone; a write out of range does nothing. *)
Class MemoryLaws (M : Type) `{Memory M} := {
  read_len m o n b : mem_read m o n = Some b -> len b = n;
  write_read m o v m' : mem_write m o v = (m', true) -> mem_read m' o (len v) = Some v;
  write_fail m o v m' : mem_write m o v = (m', false) -> m' = m;
  write_frame m o v m' o' n :
    mem_write m o v = (m', true) -> o' + n <= o \/ o + len v <= o' ->
    0 <= o' -> 0 <= n -> mem_read m' o' n = mem_read m o' n }.

(** The common end of the functions that return data: report the needed length
    if it does not fit, else write it.  [always]: also write an empty result. *)
Definition write_out {M} `{Memory M} (m : M) (outPtr outCap : Z) (v : bytes) (err : Z) (always : bool)
  : M * Z :=
  let n := i32 (len v) in
  if outCap <? n then (m, n) else
  if always || (0 <? n) then
    let '(m', ok) := mem_write m (u32 outPtr) v in
    if (ok : bool) then (m', n) else (m', err)
  else (m, n).

(** ** kv.go: registerKV *)

Section KV.
Context {M S : Type} `{Memory M} `{Store S}.

(** The key, or the code to return. *)
Definition readKey (m : M) (ptr length : Z) : bytes + Z :=
  if (length <=? 0) || (KVMaxKey <? length) then inr KVErrTooLarge else
  match mem_read m (u32 ptr) (u32 length) with
  | None => inr KVErrInternal
  | Some key => inl key
  end.

Definition kv_set (kv : option S) (m : M) (keyPtr keyLen valPtr valLen : Z) : option S * Z :=
  match kv with
  | None => (kv, KVErrInternal)
  | Some s =>
    match readKey m keyPtr keyLen with
    | inr code => (kv, code)
    | inl key =>
      if (valLen <? 0) || (KVMaxValue <? valLen) then (kv, KVErrTooLarge) else
      match mem_read m (u32 valPtr) (u32 valLen) with
      | None => (kv, KVErrInternal)
      | Some val =>
        let '(s, err) := kv_Set s key val in
        match err with
        | Some ErrQuota => (Some s, KVErrQuota)
        | Some _ => (Some s, KVErrInternal)
        | None => (Some s, KVOk)
        end
      end
    end
  end.

Definition kv_get (kv : option S) (m : M) (keyPtr keyLen outPtr outCap : Z) : option S * M * Z :=
  match kv with
  | None => (kv, m, KVErrInternal)
  | Some s =>
    match readKey m keyPtr keyLen with
    | inr code => (kv, m, code)
    | inl key =>
      let '(s, r) := kv_Get s key in
      match r with
      | inl _ => (Some s, m, KVErrInternal)
      | inr None => (Some s, m, KVErrNotFound)
      | inr (Some val) =>
        let '(m, n) := write_out m outPtr outCap val KVErrInternal false in (Some s, m, n)
      end
    end
  end.

Definition kv_delete (kv : option S) (m : M) (keyPtr keyLen : Z) : option S * Z :=
  match kv with
  | None => (kv, KVErrInternal)
  | Some s =>
    match readKey m keyPtr keyLen with
    | inr code => (kv, code)
    | inl key =>
      let '(s, err) := kv_Delete s key in
      match err with
      | Some _ => (Some s, KVErrInternal)
      | None => (Some s, KVOk)
      end
    end
  end.

Definition kv_list (kv : option S) (m : M) (prefixPtr prefixLen limit outPtr outCap : Z) : option S * M * Z :=
  match kv with
  | None => (kv, m, KVErrInternal)
  | Some s =>
    if (prefixLen <? 0) || (KVMaxKey <? prefixLen) || (limit <? 1) || (KVMaxList <? limit) || (outCap <? 0)
    then (kv, m, KVErrTooLarge) else
    match (if 0 <? prefixLen then mem_read m (u32 prefixPtr) (u32 prefixLen) else Some []) with
    | None => (kv, m, KVErrInternal)
    | Some prefix =>
      let '(s, r) := kv_List s prefix limit in
      match r with
      | inl _ => (Some s, m, KVErrInternal)
      | inr keys =>
        if (limit <? len keys) || (KVMaxList <? len keys) then (Some s, m, KVErrInternal) else
        let '(m, n) := write_out m outPtr outCap (EncodeKVList keys) KVErrInternal false in (Some s, m, n)
      end
    end
  end.

Definition kv_compare_and_swap (kv : option S) (m : M) (keyPtr keyLen expectedPtr valPtr valLen : Z)
  : option S * Z :=
  match kv with
  | None => (kv, KVErrInternal)
  | Some s =>
    match readKey m keyPtr keyLen with
    | inr code => (kv, code)
    | inl key =>
      if (valLen <? 0) || (KVMaxValue <? valLen) then (kv, KVErrTooLarge) else
      match mem_read m (u32 expectedPtr) KVHashSize with
      | None => (kv, KVErrInternal)
      | Some expected =>
        match mem_read m (u32 valPtr) (u32 valLen) with
        | None => (kv, KVErrInternal)
        | Some value =>
          let '(s, err) := kv_CompareAndSwap s key expected value in
          (Some s, match err with
                   | None => KVOk
                   | Some ErrConflict => KVErrConflict
                   | Some ErrQuota => KVErrQuota
                   | Some _ => KVErrInternal
                   end)
        end
      end
    end
  end.

End KV.

(** ** auth.go *)

(** runner.Identity; [OwnerID] never reaches the guest. *)
Record SessionIdentity := mkSessionIdentity {
  si_User : bytes; si_Authenticated : bool; si_Kind : bytes; si_OwnsApp : bool; si_OwnerID : bytes }.

Definition kindSSHKey : bytes := str "ssh-key".
Definition kindAnonymous : bytes := str "anonymous".

Definition identityKindToABI (kind : bytes) : Z :=
  if bool_decide (kind = kindSSHKey) then IdentitySSHKey
  else if bool_decide (kind = kindAnonymous) then IdentityAnonymous
  else IdentityUnknown.

Definition identityKindFromABI (kind : Z) : bytes :=
  if kind =? IdentitySSHKey then kindSSHKey
  else if kind =? IdentityAnonymous then kindAnonymous
  else [].

Class Auth (A : Type) := auth_Whoami : A -> A * SessionIdentity.

Record StaticAuth := mkStaticAuth { sa_Identity : SessionIdentity }.
#[export] Instance StaticAuth_Auth : Auth StaticAuth := fun a => (a, sa_Identity a).

Definition to_abi (id : SessionIdentity) : Identity :=
  mkIdentity (si_User id) (si_Authenticated id) (identityKindToABI (si_Kind id)) (si_OwnsApp id).

Definition auth_whoami {M A} `{Memory M} `{Auth A} (auth : option A) (m : M) (outPtr outCap : Z)
  : res AbiErr (option A * M * Z) :=
  match auth with
  | None => Ok (auth, m, AuthErrInternal)
  | Some a =>
    let '(a, id) := auth_Whoami a in
    let? enc := EncodeIdentity (to_abi id) in
    let '(m, n) := write_out m outPtr outCap enc AuthErrInternal true in
    Ok (Some a, m, n)
  end.

(** ** env.go *)

Class Env (E : Type) := env_Get : E -> bytes -> E * option bytes.

Definition MapEnv := gmap bytes bytes.
#[export] Instance MapEnv_Env : Env MapEnv := fun e k => (e, e !! k).

Definition env_get {M E} `{Memory M} `{Env E} (env : option E) (m : M) (keyPtr keyLen outPtr outCap : Z)
  : option E * M * Z :=
  match env with
  | None => (env, m, EnvErrInternal)
  | Some e =>
    if (keyLen <=? 0) || (EnvMaxKey <? keyLen) then (env, m, EnvErrTooLarge) else
    match mem_read m (u32 keyPtr) (u32 keyLen) with
    | None => (env, m, EnvErrInternal)
    | Some raw =>
      let '(e, r) := env_Get e raw in
      match r with
      | None => (Some e, m, EnvErrNotFound)
      | Some val => let '(m, n) := write_out m outPtr outCap val EnvErrInternal false in (Some e, m, n)
      end
    end
  end.

(** ** bus.go: registerBus *)

Section BusFns.
Context {M B : Type} `{Memory M} `{Bus B}.

Definition readTopic (m : M) (ptr length : Z) : bytes + Z :=
  if (length <=? 0) || (BusMaxTopic <? length) then inr BusErrTooLarge else
  match mem_read m (u32 ptr) (u32 length) with
  | None => inr BusErrInternal
  | Some raw => inl raw
  end.

Definition bus_sub (sub : option B) (m : M) (topicPtr topicLen : Z) : option B * Z :=
  match sub with
  | None => (sub, BusErrInternal)
  | Some b =>
    match readTopic m topicPtr topicLen with
    | inr code => (sub, code)
    | inl topic =>
      let '(b, refused) := bus_Subscribe b topic in
      (Some b, if (refused : bool) then BusErrInternal else BusOk)
    end
  end.

Definition bus_pub (bus : option B) (m : M) (topicPtr topicLen dataPtr dataLen : Z) : option B * Z :=
  match bus with
  | None => (bus, BusErrInternal)
  | Some b =>
    match readTopic m topicPtr topicLen with
    | inr code => (bus, code)
    | inl topic =>
      if (dataLen <? 0) || (BusMaxData <? dataLen) then (bus, BusErrTooLarge) else
      match mem_read m (u32 dataPtr) (u32 dataLen) with
      | None => (bus, BusErrInternal)
      | Some raw => let '(b, n) := bus_Publish b topic raw in (Some b, i32 n)
      end
    end
  end.

End BusFns.

(** ** fetch.go and exec.go *)

Definition maxEncodedFetch : Z := 2 + FetchMaxMethod + 2 + FetchMaxURL + 4 + FetchMaxBody.

Definition fetch {M F} `{Memory M} `{Fetcher F} (f : option F) (m : M) (reqPtr reqLen outPtr outCap : Z)
  : res AbiErr (option F * M * Z) :=
  match f with
  | None => Ok (f, m, FetchErrUnavail)
  | Some x =>
    if (reqLen <=? 0) || (maxEncodedFetch <? reqLen) then Ok (f, m, FetchErrInternal) else
    match mem_read m (u32 reqPtr) (u32 reqLen) with
    | None => Ok (f, m, FetchErrInternal)
    | Some raw =>
      match DecodeFetchRequest raw with
      | Panic => Panic
      | Err _ => Ok (f, m, FetchErrInternal)
      | Ok req =>
        if (FetchMaxMethod <? len (Method req)) || (FetchMaxURL <? len (URL req))
           || (FetchMaxBody <? len (req_Body req))
        then Ok (f, m, FetchErrTooLarge) else
        let '(x, r) := fetch_Fetch x req in
        match r with
        | inl ErrEgressDenied => Ok (Some x, m, FetchErrDenied)
        | inl errEgressUnavailable => Ok (Some x, m, FetchErrUnavail)
        | inl errResponseTooLarge => Ok (Some x, m, FetchErrTooLarge)
        | inl _ => Ok (Some x, m, FetchErrInternal)
        | inr resp =>
          let '(m, n) := write_out m outPtr outCap (EncodeFetchResponse resp) FetchErrInternal true in
          Ok (Some x, m, n)
        end
      end
    end
  end.

Definition exec {M C} `{Memory M} `{Commander C} (c : option C) (m : M) (reqPtr reqLen outPtr outCap : Z)
  : res AbiErr (option C * M * Z) :=
  match c with
  | None => Ok (c, m, ExecErrUnavailable)
  | Some x =>
    if (reqLen <=? 0) || (outCap <? 0) then Ok (c, m, ExecErrTooLarge) else
    match mem_read m (u32 reqPtr) (u32 reqLen) with
    | None => Ok (c, m, ExecErrFailed)
    | Some raw =>
      match DecodeExecRequest raw with
      | Panic => Panic
      | Err _ => Ok (c, m, ExecErrTooLarge)
      | Ok req =>
        if negb (validExecRequest req) then Ok (c, m, ExecErrTooLarge) else
        let '(x, r) := cmd_Run x req in
        match r with
        | inl ErrExecTooLarge => Ok (Some x, m, ExecErrTooLarge)
        | inl ErrExecDenied | inl ErrExecNotFound | inl ErrExecUnresolved =>
          Ok (Some x, m, ExecErrUnavailable)
        | inl _ => Ok (Some x, m, ExecErrFailed)
        | inr resp =>
          if (ExecMaxOutput <? len (Stdout resp)) || (ExecMaxOutput <? len (Stderr resp))
          then Ok (Some x, m, ExecErrTooLarge) else
          let '(m, n) := write_out m outPtr outCap (EncodeExecResponse resp) ExecErrFailed false in
          Ok (Some x, m, n)
        end
      end
    end
  end.

(** ** goodbye.go, timer.go *)

Definition goodbye_set {M} `{Memory M} (goodbye : option bytes) (m : M) (ptr length : Z) : option bytes :=
  match goodbye with
  | None => None
  | Some old =>
    if (length <=? 0) || (GoodbyeMaxLen <? length) then Some old else
    match mem_read m (u32 ptr) (u32 length) with
    | None => Some old
    | Some raw => Some raw
    end
  end.

Definition timer_start {T} `{timerService T} (timers : option T) (delayNanos recurring : Z) : option T * Z :=
  match timers with
  | None => (timers, TimerErrInternal)
  | Some t =>
    if negb (recurring =? 0) && negb (recurring =? 1) then (timers, TimerErrInternal) else
    let '(t, code) := tm_Start t delayNanos (recurring =? 1) in (Some t, code)
  end.

Definition timer_cancel {T} `{timerService T} (timers : option T) (id : Z) : option T * Z :=
  match timers with
  | None => (timers, 0)
  | Some t =>
    if id <=? 0 then (timers, 0) else
    let '(t, active) := tm_Cancel t (u32 id) in (Some t, if (active : bool) then 1 else 0)
  end.

(** ** A guest memory

    Linear memory as the list of its bytes, for the witnesses. *)
Record LinearMemory := mkLinear { lin : bytes }.

#[export] Instance LinearMemory_Memory : Memory LinearMemory := {
  mem_read m o n :=
    if (0 <=? o) && (0 <=? n) && (o + n <=? len (lin m))
    then Some (take (Z.to_nat n) (drop (Z.to_nat o) (lin m))) else None;
  mem_write m o v :=
    if (0 <=? o) && (o + len v <=? len (lin m))
    then (mkLinear (overwrite (lin m) (Z.to_nat o) v), true) else (m, false) }.

Lemma overwrite_length {A} (b src : list A) i :
  (i + length src <= length b)%nat -> length (overwrite b i src) = length b.
Proof. intros. unfold overwrite. rewrite !length_app, length_take, length_drop. lia. Qed.

Lemma overwrite_read {A} (b src : list A) i :
  (i + length src <= length b)%nat -> take (length src) (drop i (overwrite b i src)) = src.
Proof.
  intros Hl. unfold overwrite. rewrite drop_app_ge by (rewrite length_take; lia).
  rewrite length_take, Nat.min_l, Nat.sub_diag by lia. apply take_app_length.
Qed.

Lemma overwrite_frame {A} (b src : list A) i o n :
  (i + length src <= length b)%nat -> (o + n <= i)%nat \/ (i + length src <= o)%nat ->
  take n (drop o (overwrite b i src)) = take n (drop o b).
Proof.
  intros Hl Hd. unfold overwrite. destruct Hd as [Hd|Hd].
  - rewrite drop_app_le by (rewrite length_take; lia).
    rewrite take_app_le by (rewrite length_drop, length_take; lia).
    by rewrite !take_drop_commute, take_take, Nat.min_l by lia.
  - rewrite drop_app_ge by (rewrite length_take; lia). rewrite length_take, Nat.min_l by lia.
    rewrite drop_app_ge by lia. rewrite drop_drop. do 2 f_equal. lia.
Qed.

#[export] Instance LinearMemory_laws : MemoryLaws LinearMemory.
Proof.
  constructor; cbn [mem_read mem_write LinearMemory_Memory].
  - intros m o n b H. destruct (_ && _) eqn:Hc; [|done]. zbool. injection H as <-. len_lia.
  - intros m o v m' H. destruct (_ && _) eqn:Hc; [|done]. zbool. injection H as <-. cbn [lin].
    unfold len in *. rewrite overwrite_length by lia.
    rewrite !(proj2 (Z.leb_le _ _)) by lia. cbn [andb]. rewrite Nat2Z.id. f_equal. apply overwrite_read. lia.
  - intros m o v m' H. destruct (_ && _); by injection H as <-.
  - intros m o v m' o' n H Hd Ho Hn. destruct (_ && _) eqn:Hc; [|done]. zbool. injection H as <-. cbn [lin].
    unfold len in *. rewrite overwrite_length by lia. destruct (_ && _); [|done]. f_equal.
    apply overwrite_frame; lia.
Qed.

(** ** Lemmas *)

Section Lemmas.
Context {M : Type} `{MemoryLaws M}.

(** The three ways a function that returns data can end. *)
Definition returned (m m' : M) (outPtr outCap n : Z) (v : bytes) (err : Z) : Prop :=
  (n = len v /\ outCap < n /\ m' = m) \/
  (n = len v /\ n <= outCap /\ (mem_read m' (u32 outPtr) n = Some v \/ (v = [] /\ m' = m))) \/
  (n = err /\ m' = m).

Lemma write_out_spec (m : M) outPtr outCap v err always m' n :
  len v < 2 ^ 31 -> write_out m outPtr outCap v err always = (m', n) ->
  returned m m' outPtr outCap n v err.
Proof.
  intros Hl Hw. unfold write_out in Hw. len_pos. rewrite i32_small in Hw by (unfold is_i32; lia).
  unfold returned. destruct (outCap <? len v) eqn:Hc; zbool; [injection Hw as <- <-; auto|].
  destruct (always || _) eqn:Ha.
  - destruct (mem_write m (u32 outPtr) v) as [m1 []] eqn:E; injection Hw as <- <-.
    + right. left. split_and!; [done|done|]. left. by eapply write_read.
    + right. right. split; [done|]. by eapply write_fail.
  - injection Hw as <- <-. right. left. apply orb_false_iff in Ha as [_ Ha]. zbool.
    split_and!; [done|done|]. right. split; [|done]. apply len_0_nil. lia.
Qed.

Lemma readKey_spec (m : M) ptr length key :
  readKey m ptr length = inl key ->
  key_ok key /\ mem_read m (u32 ptr) length = Some key /\ len key = length.
Proof.
  unfold readKey, key_ok. destruct (_ || _) eqn:Hc; [done|]. zbool. unfold KVMaxKey in *.
  rewrite (u32_small length) by (unfold is_u32; lia).
  destruct (mem_read m (u32 ptr) length) as [k|] eqn:Hr; [|done]. intros [= <-].
  pose proof (read_len _ _ _ _ Hr) as Hl. split_and!; [lia|lia|done|done].
Qed.

Lemma readKey_code (m : M) ptr length code :
  readKey m ptr length = inr code -> code = KVErrTooLarge \/ code = KVErrInternal.
Proof. unfold readKey. repeat case_match; intros; simplify_eq; auto. Qed.

(** A value read within its cap. *)
Lemma read_val (m : M) ptr n v :
  (n <? 0) || (KVMaxValue <? n) = false -> mem_read m (u32 ptr) (u32 n) = Some v ->
  val_ok v /\ mem_read m (u32 ptr) n = Some v /\ len v = n.
Proof.
  intros Hc Hr. zbool. unfold val_ok, KVMaxValue in *. rewrite (u32_small n) in Hr by (unfold is_u32; lia).
  pose proof (read_len _ _ _ _ Hr). split_and!; [lia|done|done].
Qed.

End Lemmas.

(** ** Theorems *)

Section KVTheorems.
Context {M S : Type} `{MemoryLaws M} `{StoreLaws S}.

(** (guest writes): over any store that keeps its interface's promises, the
    guest's write calls change the contents exactly as their return code says:
    [KVOk] means that the key and value lying in guest memory, within the caps,
    were written (removed, swapped against the current digest); any other code
    is negative and means that the contents are unchanged; a conflict is
    reported only against a digest that is not the current one. *)
Theorem kv_writes_exact (s : S) (m : M) kp kl vp vl xp :
  sinv s ->
  (let '(kv, code) := kv_set (Some s) m kp kl vp vl in
   exists s', kv = Some s' /\ sinv s' /\ code <= 0 /\
   (code = KVOk -> exists k v, mem_read m (u32 kp) kl = Some k /\ mem_read m (u32 vp) vl = Some v /\
      key_ok k /\ val_ok v /\ view s' = <[k := v]> (view s)) /\
   (code <> KVOk -> view s' = view s)) /\
  (let '(kv, code) := kv_delete (Some s) m kp kl in
   exists s', kv = Some s' /\ sinv s' /\ code <= 0 /\
   (code = KVOk -> exists k, mem_read m (u32 kp) kl = Some k /\ key_ok k /\ view s' = delete k (view s)) /\
   (code <> KVOk -> view s' = view s)) /\
  (let '(kv, code) := kv_compare_and_swap (Some s) m kp kl xp vp vl in
   exists s', kv = Some s' /\ sinv s' /\ code <= 0 /\
   (code = KVOk -> exists k x v, mem_read m (u32 kp) kl = Some k /\ mem_read m (u32 xp) KVHashSize = Some x /\
      mem_read m (u32 vp) vl = Some v /\ digest (view s !! k) = x /\ view s' = <[k := v]> (view s)) /\
   (code = KVErrConflict -> exists k x, mem_read m (u32 kp) kl = Some k /\
      mem_read m (u32 xp) KVHashSize = Some x /\ digest (view s !! k) <> x) /\
   (code <> KVOk -> view s' = view s)).
Proof.
  intros Hi. unfold kv_set, kv_delete, kv_compare_and_swap.
  destruct (readKey m kp kl) as [k|code] eqn:Hk.
  2: { apply readKey_code in Hk as [-> | ->]; split_and!; exists s; by split_and!. }
  destruct (readKey_spec _ _ _ _ Hk) as (Hok & Hrk & _). split_and!.
  - destruct (_ || _) eqn:Hc; [exists s; by split_and!|].
    destruct (mem_read m (u32 vp) (u32 vl)) as [v|] eqn:Hv; [|exists s; by split_and!].
    destruct (read_val _ _ _ _ Hc Hv) as (Hvok & Hrv & _).
    destruct (kv_Set s k v) as [s' e] eqn:He.
    destruct (set_spec _ _ _ _ _ Hi Hok Hvok He) as (Hi' & Hview).
    destruct e as [[]|]; exists s'; split_and!; try done. by exists k, v.
  - destruct (kv_Delete s k) as [s' e] eqn:He.
    destruct (delete_spec _ _ _ _ Hi Hok He) as (Hi' & Hview).
    destruct e as [[]|]; exists s'; split_and!; try done. by exists k.
  - destruct (_ || _) eqn:Hc; [exists s; by split_and!|].
    destruct (mem_read m (u32 xp) KVHashSize) as [x|] eqn:Hx; [|exists s; by split_and!].
    destruct (mem_read m (u32 vp) (u32 vl)) as [v|] eqn:Hv; [|exists s; by split_and!].
    destruct (read_val _ _ _ _ Hc Hv) as (Hvok & Hrv & _).
    destruct (kv_CompareAndSwap s k x v) as [s' e] eqn:He.
    destruct (cas_spec _ _ _ _ _ _ Hi Hok (read_len _ _ _ _ Hx) Hvok He) as (Hi' & Hview & Hd & Hcf).
    destruct e as [[]|]; exists s'; split_and!; try done; [exists k, x; auto|].
    exists k, x, v. split_and!; auto.
Qed.

(** (guest reads never truncate): [kv_get] and [kv_list] leave the contents
    alone; a result that fits the guest's buffer is there in full (the value of
    the key, the encoded first keys with the prefix), one that does not is only
    measured, and on an error guest memory is untouched. *)
Theorem kv_reads_exact (s : S) (m : M) kp kl op oc limit :
  sinv s -> map_Forall (fun k v => key_ok k /\ val_ok v) (view s) ->
  (let '(kv, m', n) := kv_get (Some s) m kp kl op oc in
   exists s', kv = Some s' /\ sinv s' /\ view s' = view s /\
   ((n < 0 /\ m' = m) \/
    exists k v, mem_read m (u32 kp) kl = Some k /\ view s !! k = Some v /\
      returned m m' op oc n v KVErrInternal) /\
   (n = KVErrNotFound -> exists k, mem_read m (u32 kp) kl = Some k /\ view s !! k = None)) /\
  (let '(kv, m', n) := kv_list (Some s) m kp kl limit op oc in
   exists s', kv = Some s' /\ sinv s' /\ view s' = view s /\
   ((n < 0 /\ m' = m) \/
    exists p, (if 0 <? kl then mem_read m (u32 kp) kl else Some []) = Some p /\
      returned m m' op oc n (EncodeKVList (list_keys (view s) p limit)) KVErrInternal)).
Proof.
  intros Hi Hall. split.
  - unfold kv_get. destruct (readKey m kp kl) as [k|code] eqn:Hk.
    2: { apply readKey_code in Hk as [-> | ->]; exists s; split_and!; try done; by left. }
    destruct (readKey_spec _ _ _ _ Hk) as (Hok & Hrk & _).
    destruct (kv_Get s k) as [s' r] eqn:Hg.
    destruct (get_spec _ _ _ _ Hi Hok Hg) as (Hi' & Hview & Hr).
    destruct r as [e|[v|]]; [exists s'; split_and!; try done; by left| |].
    + specialize (Hr _ eq_refl). destruct (write_out m op oc v KVErrInternal false) as [m' n] eqn:Hw.
      assert (Hv : len v <= KVMaxValue) by (symmetry in Hr; apply (Hall k v Hr)).
      assert (Hv31 : len v < 2 ^ 31) by (unfold KVMaxValue in Hv; lia).
      pose proof (write_out_spec _ _ _ _ _ _ _ _ Hv31 Hw) as Hret.
      exists s'. split_and!; [done|done|done| |].
      * right. exists k, v. auto.
      * intros ->. len_pos. destruct Hret as [(E & _)|[(E & _)|(E & _)]]; unfold KVErrNotFound, KVErrInternal in E; lia.
    + specialize (Hr _ eq_refl). exists s'. split_and!; [done|done|done|left; done|]. intros _. eauto.
  - unfold kv_list. destruct (_ || _ || _ || _ || _) eqn:Hc; [exists s; split_and!; try done; by left|]. zbool.
    assert (Hp : (if 0 <? kl then mem_read m (u32 kp) (u32 kl) else Some []) =
                 (if 0 <? kl then mem_read m (u32 kp) kl else Some [])).
    { unfold KVMaxKey in *. destruct (0 <? kl) eqn:E; zbool; [|done]. by rewrite (u32_small kl) by (unfold is_u32; lia). }
    rewrite Hp. clear Hp. destruct (if 0 <? kl then _ else _) as [p|] eqn:Hp; [|exists s; split_and!; try done; by left].
    assert (Hpl : len p <= KVMaxKey).
    { destruct (0 <? kl) eqn:E; [apply read_len in Hp; lia|]. injection Hp as <-. unfold KVMaxKey; len_lia. }
    destruct (kv_List s p limit) as [s' r] eqn:Hl.
    assert (Hlim : 1 <= limit <= KVMaxList) by lia.
    destruct (list_spec _ _ _ _ _ Hi Hpl Hlim Hl) as (Hi' & Hview & Hr).
    destruct r as [e|ks]; [exists s'; split_and!; try done; by left|]. specialize (Hr _ eq_refl).
    destruct (_ || _) eqn:Hcap; [exists s'; split_and!; try done; by left|]. zbool.
    destruct (write_out m op oc (EncodeKVList ks) KVErrInternal false) as [m' n] eqn:Hw.
    exists s'. split_and!; [done|done|done|]. right. exists p. rewrite <- Hr. split; [done|].
    eapply write_out_spec; [|exact Hw].
    assert (Hks : Forall (fun k => 1 <= len k <= KVMaxKey) ks).
    { subst ks. apply Forall_forall. intros k Hk. unfold list_keys in Hk. fold (matching (view s) p) in Hk.
      apply (subseteq_take _ _) in Hk. rewrite sort_keys_perm, matching_spec in Hk.
      destruct Hk as [[v Hv] _]. apply (Hall k v Hv). }
    rewrite EncodeKVList_layout by done. unfold KVMaxKey, KVMaxList in *.
    assert (Hb : len (keys_wire ks) <= 258 * len ks).
    { clear -Hks. induction Hks as [|k ks Hk _ IH]; [done|]. unfold keys_wire in *; cbn [map concat].
      unfold field in *. len_lia. }
    lia.
Qed.

End KVTheorems.

(** Guest memory holding a key at 0, a value at 16 and room for results at 32. *)
Definition sample_memory : LinearMemory := mkLinear (str "room" ++ replicate 12 0 ++ str "hello" ++ replicate 64 0).

Definition sample_store : MemStore := (MemStore_Set (NewMemStore 0 0) (str "room") (str "hello")).1.

Lemma sample_store_ok : map_Forall (fun k v => key_ok k /\ val_ok v) (view sample_store).
Proof.
  change (view sample_store) with (<[str "room" := str "hello"]> (∅ : kvmap)).
  apply map_Forall_insert_2; [|apply map_Forall_empty].
  unfold key_ok, val_ok. vm_compute. repeat split; discriminate.
Qed.

Lemma kv_writes_exact_witness : exists kv,
  kv_set (Some (NewMemStore 0 0)) sample_memory 0 4 16 5 = (kv, KVOk) /\
  exists s', kv = Some s' /\ view s' = {[ str "room" := str "hello" ]}.
Proof.
  assert (Hi : sinv (NewMemStore 0 0)) by reflexivity.
  destruct (kv_writes_exact (NewMemStore 0 0) sample_memory 0 4 16 5 0 Hi) as [H _].
  destruct (kv_set _ _ _ _ _ _) as [kv code] eqn:E.
  destruct H as (s' & -> & _ & _ & Hok & _).
  assert (code = KVOk) as -> by (vm_compute in E; by injection E as _ <-).
  destruct (Hok eq_refl) as (k & v & Hk & Hv & _ & _ & Hview).
  exists (Some s'). split; [done|]. exists s'. split; [done|]. rewrite Hview.
  vm_compute in Hk, Hv. injection Hk as <-. injection Hv as <-. reflexivity.
Defined.

Lemma kv_reads_exact_witness : exists s' m',
  kv_get (Some sample_store) sample_memory 0 4 32 64 = (Some s', m', 5) /\ view s' = view sample_store.
Proof.
  assert (Hi : sinv sample_store) by reflexivity.
  destruct (kv_reads_exact sample_store sample_memory 0 4 32 64 1 Hi sample_store_ok) as [H _].
  destruct (kv_get _ _ _ _ _ _) as [[kv m'] n] eqn:E. destruct H as (s' & -> & _ & Hv & _).
  assert (n = 5) as -> by (vm_compute in E; by injection E as _ _ <-).
  exists s', m'. split; [reflexivity|exact Hv].
Defined.

Section Totality.
Context {M A F C : Type} `{MemoryLaws M} `{Auth A} `{Fetcher F} `{Commander C}.
(** (hostile guests cannot crash the host): whatever pointers, lengths and
    request bytes a guest passes, [auth_whoami], [fetch] and [exec] return: no
    decoder or encoder they run can index out of range.  What [auth_whoami]
    returns, when it fits, is exactly the encoding of the session identity,
    without the owner id. *)
Theorem host_calls_total (auth : option A) (f : option F) (c : option C) (m : M) rp rl op oc :
  (forall o n b, mem_read m o n = Some b -> bytes_ok b) ->
  no_panic (auth_whoami auth m op oc) /\ no_panic (fetch f m rp rl op oc) /\ no_panic (exec c m rp rl op oc) /\
  (forall a m' n, auth_whoami auth m op oc = Ok (a, m', n) -> auth <> None ->
     exists id enc, EncodeIdentity (to_abi id) = Ok enc /\
       DecodeIdentity enc = Ok (identity_sent (to_abi id)) /\ returned m m' op oc n enc AuthErrInternal).
Proof.
  intros mem_bytes. split_and!.
  - unfold auth_whoami. destruct auth as [a|]; [|exact I]. destruct (auth_Whoami a) as [a' id].
    rewrite EncodeIdentity_layout. cbn [rbind]. by destruct (write_out _ _ _ _ _ _).
  - unfold fetch. destruct f as [x|]; [|exact I]. destruct (_ || _); [exact I|].
    destruct (mem_read _ _ _) as [raw|] eqn:Hr; [|exact I].
    pose proof (dec_total (A:=FetchRequest) raw (mem_bytes _ _ _ Hr)) as Hd. cbn [dec FetchRequest_codec] in Hd.
    destruct (DecodeFetchRequest raw) as [req| |]; [|exact I|exact Hd]. destruct (_ || _ || _); [exact I|].
    destruct (fetch_Fetch x req) as [x' [[]|resp]]; try exact I. by destruct (write_out _ _ _ _ _ _).
  - unfold exec. destruct c as [x|]; [|exact I]. destruct (_ || _); [exact I|].
    destruct (mem_read _ _ _) as [raw|] eqn:Hr; [|exact I].
    pose proof (dec_total (A:=ExecRequest) raw (mem_bytes _ _ _ Hr)) as Hd. cbn [dec ExecRequest_codec] in Hd.
    destruct (DecodeExecRequest raw) as [req| |]; [|exact I|exact Hd]. destruct (negb _); [exact I|].
    destruct (cmd_Run x req) as [x' [[]|resp]]; try exact I. destruct (_ || _); [exact I|].
    by destruct (write_out _ _ _ _ _ _).
  - intros a m' n Hw Hne. unfold auth_whoami in Hw. destruct auth as [a0|]; [|done].
    destruct (auth_Whoami a0) as [a' id]. exists id.
    pose proof (EncodeIdentity_layout (to_abi id)) as He. rewrite He in *. cbn [rbind] in Hw.
    set (enc := _ :: _) in *. exists enc. destruct (write_out m op oc enc AuthErrInternal true) as [m1 n1] eqn:E.
    injection Hw as <- <- <-. split_and!; [done| |].
    + pose proof (DecodeIdentity_layout (identity_flags (to_abi id)) (User (identity_sent (to_abi id)))) as Hd.
      fold enc in Hd. rewrite Hd by (unfold identity_sent, AuthMaxUser; cbn [User]; autorewrite with len; lia).
      destruct (identity_flags_read (to_abi id)) as (-> & -> & ->). done.
    + eapply write_out_spec; [|exact E]. subst enc. unfold identity_sent, AuthMaxUser, field. cbn [User]. len_lia.
Qed.

End Totality.

Lemma sample_bytes o n b : mem_read sample_memory o n = Some b -> bytes_ok b.
Proof.
  cbn [mem_read LinearMemory_Memory]. destruct (_ && _); [|done]. intros [= <-].
  apply Forall_take, Forall_drop. by apply bytes_ok_eval.
Qed.

(** Capabilities that refuse everything. *)
#[export] Instance deny_fetcher : Fetcher unit := fun f _ => (f, inl ErrEgressDenied).
#[export] Instance deny_commander : Commander unit := fun c _ => (c, inl ErrExecDenied).

Lemma host_calls_total_witness :
  no_panic (fetch (Some tt) sample_memory (-5) 300 32 64) /\
  no_panic (exec (Some tt) sample_memory 0 9 32 64) /\
  no_panic (auth_whoami (Some (mkStaticAuth (mkSessionIdentity (str "SHA256:k") true kindSSHKey true (str "o"))))
              sample_memory 32 64).
Proof.
  set (a := Some (mkStaticAuth (mkSessionIdentity (str "SHA256:k") true kindSSHKey true (str "o")))).
  destruct (host_calls_total a (Some tt) (Some tt) sample_memory (-5) 300 32 64 sample_bytes) as (Ha & Hf & _).
  destruct (host_calls_total a (Some tt) (Some tt) sample_memory 0 9 32 64 sample_bytes) as (_ & _ & He & _).
  split; [exact Hf|]. split; [exact He|exact Ha].
Defined.
