(* ===== verification/Render.v ===== *)
(** * From frames to the terminal (internal/runner/render.go)

    [sanitizeRune] and [validFrame], the defence between a guest's cells and the
    viewer's terminal; the plain-text sink; suppression of repeated frames
    ([frameDedup]) and the output rate cap ([throttle]). *)

From S2P Require Import Prelude Abi Utf8 GoStrings Streams.

(** Where frames go.  [sink_Healthy] is [None] for a sink without that method. *)
Class Sink (K : Type) := {
  sink_Present : K -> Frame -> K;
  sink_Healthy : K -> option bool }.

Definition sanitizeRune (r : Z) : Z :=
  if r =? 0 then 32
  else if (r <? 0x20) || (r =? 0x7f) then 32
  else if (0x80 <=? r) && (r <=? 0x9f) then 32
  else if negb (valid_rune r) then 63
  else r.

Definition validFrame (f : Frame) : bool :=
  (1 <=? frame_W f) && (frame_W f <=? MaxFrameWidth) &&
  (1 <=? frame_H f) && (frame_H f <=? MaxFrameHeight) &&
  (len (Cells f) =? frame_W f * frame_H f).

(** ** TextSink *)

Definition box_h : bytes := [0xE2; 0x94; 0x80].    (* ─ *)
Definition box_tl : bytes := [0xE2; 0x94; 0x8C].   (* ┌ *)
Definition box_tr : bytes := [0xE2; 0x94; 0x90].   (* ┐ *)
Definition box_bl : bytes := [0xE2; 0x94; 0x94].   (* └ *)
Definition box_br : bytes := [0xE2; 0x94; 0x98].   (* ┘ *)
Definition box_v : bytes := [0xE2; 0x94; 0x82].    (* │ *)

(** The glyphs of row [y]: cells [x], [x+1], ..., [x+n-1]. *)
Fixpoint text_row {E} (f : Frame) (y x : Z) (n : nat) : res E bytes :=
  match n with
  | O => Ok []
  | S n' =>
    let? c := At f x y in
    let? rest := text_row f y (x + 1) n' in
    Ok (encode_rune (sanitizeRune (cell_Ch c)) ++ rest)
  end.

Fixpoint text_rows {E} (f : Frame) (y : Z) (n : nat) : res E bytes :=
  match n with
  | O => Ok []
  | S n' =>
    let? row := text_row f y 0 (Z.to_nat (frame_W f)) in
    let? rest := text_rows f (y + 1) n' in
    Ok (box_v ++ row ++ box_v ++ [10] ++ rest)
  end.

(** The text written for a frame; nothing for a malformed one. *)
Definition TextSink_Present {E} (f : Frame) : res E bytes :=
  if negb (validFrame f) then Ok [] else
  let bar := concat (replicate (Z.to_nat (frame_W f)) box_h) in
  let? rows := text_rows f 0 (Z.to_nat (frame_H f)) in
  Ok (box_tl ++ bar ++ box_tr ++ [10] ++ rows ++ box_bl ++ bar ++ box_br ++ [10]).

(** ** frameDedup *)

Record frameDedup := mkDedup { last_frame : bytes }.

Definition suppressed {K} `{Sink K} (d : frameDedup) (raw : bytes) (k : K) : bool :=
  if negb (len raw =? len (last_frame d)) || negb (bool_decide (raw = last_frame d)) then false
  else match sink_Healthy k with
       | None => false
       | Some h => h
       end.

Definition observe (d : frameDedup) (raw : bytes) : frameDedup := mkDedup raw.

(** ** throttle

    Instants are nanoseconds.  The zero [time.Time] lies centuries back, so
    [now.Sub(last)] saturates and is at least any [min]: [None]. *)
Record throttle := mkThrottle { thr_min : Z; thr_last : option Z }.

Definition second : Z := 10 ^ 9.

Definition newThrottle (maxFPS : Z) : throttle :=
  if maxFPS <=? 0 then mkThrottle 0 None else mkThrottle (second / maxFPS) None.

Definition elapsed_enough (t : throttle) (now : Z) : bool :=
  match thr_last t with None => true | Some l => thr_min t <=? now - l end.

Definition allow (t : throttle) (now : Z) : throttle * bool :=
  if (thr_min t =? 0) || elapsed_enough t now
  then (mkThrottle (thr_min t) (Some now), true) else (t, false).

Definition remaining (t : throttle) (now : Z) : Z :=
  if thr_min t =? 0 then 0 else
  match thr_last t with
  | None => 0
  | Some l => let r := thr_min t - (now - l) in if r <? 0 then 0 else r
  end.

(** ** Lemmas *)

Lemma sanitizeRune_safe r :
  valid_rune (sanitizeRune r) = true /\ dropRune (sanitizeRune r) = false /\ 0x20 <= sanitizeRune r.
Proof.
  unfold sanitizeRune. destruct (r =? 0) eqn:?; [done|].
  destruct (_ || _) eqn:H1; [done|]. apply orb_false_iff in H1 as [H1 H2].
  destruct (_ && _) eqn:H3; [done|]. destruct (valid_rune r) eqn:Hv; cbn [negb]; [|done].
  apply andb_false_iff in H3. unfold dropRune. rewrite H1, H2. zbool.
  destruct H3 as [H3|H3]; rewrite H3; rewrite ?andb_false_r; done.
Qed.

(** A rune that is already fit for the terminal is kept. *)
Lemma sanitizeRune_id r : valid_rune r = true -> dropRune r = false -> 0x20 <= r -> sanitizeRune r = r.
Proof.
  intros Hv Hd Hr. unfold sanitizeRune. rewrite Hv. unfold dropRune in Hd.
  rewrite (proj2 (Z.eqb_neq r 0)), (proj2 (Z.ltb_ge r 0x20)) in * by lia.
  destruct (r =? 0x7f); [done|]. by destruct (_ && _).
Qed.

Lemma clean_encoded r : valid_rune r = true -> dropRune r = false -> r <> RuneError -> clean_text (encode_rune r).
Proof.
  intros Hv Hd Hr. destruct (decode_encode_rune r Hv) as [He Hne].
  rewrite <- (app_nil_r (encode_rune r)). apply (clean_rune _ r); [done|done| |done|constructor].
  rewrite (proj2 (Z.eqb_neq _ _)) by done. done.
Qed.

(** U+FFFD itself is three bytes long, so it is not an error. *)
Lemma clean_sanitized r : clean_text (encode_rune (sanitizeRune r)).
Proof.
  destruct (sanitizeRune_safe r) as (Hv & Hd & _).
  destruct (Z.eq_dec (sanitizeRune r) RuneError) as [->|Hne]; [|by apply clean_encoded].
  change (encode_rune RuneError) with ([0xEF; 0xBF; 0xBD] ++ []).
  apply (clean_rune _ RuneError); [done|reflexivity|reflexivity|reflexivity|constructor].
Qed.

Lemma clean_piece p r :
  p <> [] -> decode_rune p = (r, length p) -> (r =? RuneError) && (length p =? 1)%nat = false ->
  dropRune r = false -> clean_text p.
Proof. intros. rewrite <- (app_nil_r p). by apply (clean_rune _ r); [..|constructor]. Qed.

Lemma clean_boxes : Forall clean_text [box_h; box_tl; box_tr; box_bl; box_br; box_v; [10]].
Proof. repeat apply Forall_cons_2; try apply Forall_nil_2; eapply clean_piece; reflexivity || done. Qed.

Lemma clean_bar n : clean_text (concat (replicate n box_h)).
Proof.
  induction n as [|n IH]; [constructor|]. cbn [replicate concat]. apply clean_text_app; [|done].
  by apply (proj1 (Forall_forall _ _) clean_boxes); constructor.
Qed.

Lemma text_row_clean {E} f y x n b : text_row (E:=E) f y x n = Ok b -> clean_text b.
Proof.
  revert x b. induction n as [|n IH]; intros x b H; cbn [text_row] in H; [by apply ok_inj in H as <-; constructor|].
  apply rbind_ok in H as (c & _ & H). apply rbind_ok in H as (rest & Hr & H). apply ok_inj in H as <-.
  apply clean_text_app; [apply clean_sanitized|by eapply IH].
Qed.

Lemma text_row_total {E} f y x n :
  0 <= x -> 0 <= y < frame_H f -> x + Z.of_nat n <= frame_W f -> len (Cells f) = frame_W f * frame_H f ->
  exists b, text_row (E:=E) f y x n = Ok b.
Proof.
  revert x. induction n as [|n IH]; intros x Hx Hy Hn Hl; cbn [text_row]; [eauto|].
  destruct (index_no_panic (E:=E) (Cells f) (y * frame_W f + x)) as (c & Hc & _); [nia|].
  unfold At. rewrite Hc. cbn [rbind]. destruct (IH (x + 1)) as [b ->]; [lia..|]. cbn [rbind]. eauto.
Qed.

Lemma clean_all l : Forall clean_text l -> clean_text (concat l).
Proof. induction 1; [constructor|]. by apply clean_text_app. Qed.

Lemma text_rows_spec {E} f y n :
  0 <= y -> y + Z.of_nat n <= frame_H f -> 0 <= frame_W f -> len (Cells f) = frame_W f * frame_H f ->
  exists b, text_rows (E:=E) f y n = Ok b /\ clean_text b.
Proof.
  revert y. induction n as [|n IH]; intros y Hy Hn Hw Hl; cbn [text_rows]; [eexists; split; [done|constructor]|].
  destruct (text_row_total (E:=E) f y 0 (Z.to_nat (frame_W f))) as [row Hrow]; [lia..|].
  rewrite Hrow. cbn [rbind]. destruct (IH (y + 1)) as (rest & -> & Hc); [lia..|]. cbn [rbind].
  eexists. split; [done|]. pose proof clean_boxes as Hb. repeat apply Forall_cons in Hb as [? Hb].
  repeat apply clean_text_app; try done. by eapply text_row_clean.
Qed.

Lemma validFrame_spec f :
  validFrame f = true <->
  1 <= frame_W f <= MaxFrameWidth /\ 1 <= frame_H f <= MaxFrameHeight /\ len (Cells f) = frame_W f * frame_H f.
Proof. unfold validFrame. rewrite !andb_true_iff, !Z.leb_le, Z.eqb_eq. tauto. Qed.

(** ** Theorems *)

(** (cells cannot drive the terminal): for every frame a guest can produce,
    with whatever rune values in its cells, the text shown has no control
    character: it is made of whole valid runes, none of them C0 (newlines between
    rows aside), DEL or C1; runes fit for display are kept.  Rendering never
    indexes outside the grid, and a malformed frame shows nothing. *)
Theorem text_sink_safe {E} f :
  (exists out, TextSink_Present (E:=E) f = Ok out /\ clean_text out /\ (validFrame f = false -> out = [])) /\
  (forall r, valid_rune r = true -> dropRune r = false -> 0x20 <= r -> sanitizeRune r = r).
Proof.
  split; [|apply sanitizeRune_id]. unfold TextSink_Present.
  destruct (validFrame f) eqn:Hv; cbn [negb]; [|exists []; split_and!; [done|constructor|done]].
  apply validFrame_spec in Hv as (Hw & Hh & Hl).
  destruct (text_rows_spec (E:=E) f 0 (Z.to_nat (frame_H f))) as (rows & -> & Hc); [lia..|].
  cbn [rbind]. eexists. split_and!; [done| |done].
  pose proof clean_boxes as Hb. repeat apply Forall_cons in Hb as [? Hb].
  pose proof (clean_bar (Z.to_nat (frame_W f))). by repeat apply clean_text_app.
Qed.

(** The instants at which frames are flushed when they are offered at [times]. *)
Fixpoint flushes (t : throttle) (times : list Z) : list Z :=
  match times with
  | [] => []
  | now :: times' =>
    let '(t', ok) := allow t now in
    if (ok : bool) then now :: flushes t' times' else flushes t' times'
  end.

Fixpoint spaced (gap : Z) (last : option Z) (l : list Z) : Prop :=
  match l with
  | [] => True
  | x :: l' => match last with None => True | Some y => gap <= x - y end /\ spaced gap (Some x) l'
  end.

Lemma flushes_spaced t times : thr_min t <> 0 -> spaced (thr_min t) (thr_last t) (flushes t times).
Proof.
  revert t. induction times as [|now times IH]; intros t Hm; cbn [flushes]; [done|].
  unfold allow. rewrite (proj2 (Z.eqb_neq _ _)) by done. cbn [orb].
  destruct (elapsed_enough t now) eqn:He; [|by apply IH]. cbn [spaced]. split.
  - unfold elapsed_enough in He. destruct (thr_last t); [zbool; done|done].
  - by apply (IH (mkThrottle (thr_min t) (Some now))).
Qed.

(** (frame rate cap): whatever the times at which frames are offered, two
    consecutive flushes are at least [1/maxFPS] seconds apart; and the delay
    reported to a held-back frame is exactly what is missing, so that flushing
    after it is allowed. *)
Theorem throttle_rate maxFPS times t now :
  0 < maxFPS <= second ->
  spaced (second / maxFPS) None (flushes (newThrottle maxFPS) times) /\
  (thr_min t = second / maxFPS -> 0 <= remaining t now /\ (allow t (now + remaining t now)).2 = true /\
     (remaining t now = 0 <-> (allow t now).2 = true)).
Proof.
  intros Hf. assert (Hm : 0 < second / maxFPS) by (apply Z.div_str_pos; lia). split.
  - unfold newThrottle. rewrite (proj2 (Z.leb_gt _ _)) by lia.
    apply (flushes_spaced (mkThrottle (second / maxFPS) None)). cbn [thr_min]. lia.
  - intros Ht. unfold remaining, allow, elapsed_enough. rewrite Ht.
    rewrite (proj2 (Z.eqb_neq _ _)) by lia. cbn [orb].
    destruct (thr_last t) as [l|]; [|done]. cbn zeta.
    destruct (_ <? 0) eqn:Hr; zbool; (split_and!; [lia| |]).
    + by rewrite (proj2 (Z.leb_le _ _)) by lia.
    + by rewrite (proj2 (Z.leb_le _ _)) by lia.
    + by rewrite (proj2 (Z.leb_le _ _)) by lia.
    + destruct (_ <=? _) eqn:E; zbool; cbn [snd]; split; (done || lia).
Qed.

Lemma throttle_rate_witness :
  flushes (newThrottle 50) [0; 5000000; 20000000; 39999999; 40000000] = [0; 20000000; 40000000] /\
  spaced (second / 50) None (flushes (newThrottle 50) [0; 5000000; 20000000; 39999999; 40000000]).
Proof.
  split; [vm_compute; reflexivity|].
  apply (throttle_rate 50 [0; 5000000; 20000000; 39999999; 40000000] (newThrottle 50) 0).
  vm_compute. split; congruence.
Defined.
