(* ===== verification/Screen.v ===== *)
(** * The diffing screen (internal/terminal/screen.go)

    [Screen] keeps the grid it last wrote to the terminal and the grid to show;
    [Flush] writes cursor moves, colours and glyphs for the cells that differ.
    What those bytes mean is given by a reference terminal ([Term], an ECMA-48
    interpreter of the sequences involved), so that "the terminal shows the
    frame" is a statement about the bytes written. *)

From S2P Require Import Prelude Abi Utf8 GoStrings Protocol Streams.

(** ** Colours *)

Definition csi : bytes := [27; 91].
Definition semicolon : Z := 59.

(** ["\x1b[48;2;25;23;29m"] and ["\x1b[38;2;200;200;200m"] *)
Definition DefaultBg : bytes := csi ++ str "48;2;25;23;29m".
Definition DefaultFg : bytes := csi ++ str "38;2;200;200;200m".

Definition MinWidth : Z := 1.
Definition MaxWidth : Z := MaxFrameWidth.
Definition MinHeight : Z := 1.
Definition MaxHeight : Z := MaxFrameHeight.
Definition MaxCells : Z := 150000.

Definition decorCodes : list (Z * Z) := [(DecorBold, 49); (DecorItalic, 51); (DecorUnderline, 52)].

Definition rgb0 : RGB := mkRGB 0 0 0.
#[export] Instance rgb_eq_dec : EqDecision RGB.
Proof. solve_decision. Defined.
#[export] Instance cell_eq_dec : EqDecision Cell.
Proof. solve_decision. Defined.

Definition appendColor (b : bytes) (c : RGB) (foreground : bool) : bytes :=
  if bool_decide (c = rgb0) then b ++ (if foreground then DefaultFg else DefaultBg) else
  let b := b ++ csi ++ (if foreground then str "38;2;" else str "48;2;") in
  b ++ decimal (rgb_R c) ++ [semicolon] ++ decimal (rgb_G c) ++ [semicolon] ++ decimal (rgb_B c) ++ str "m".

(** ** Screen *)

Record Screen {W : Type} := mkScr {
  sc_w : Z; sc_h : Z; sc_old : list (list Cell); sc_cur : list (list Cell); sc_out : W; sc_failed : bool }.
Arguments Screen : clear implicits.

Definition blank : Cell := mkCell 32 rgb0 rgb0 0.

Definition clamp_size (w h : Z) : Z * Z :=
  let w := if w <? MinWidth then MinWidth else w in
  let w := if MaxWidth <? w then MaxWidth else w in
  let h := if h <? MinHeight then MinHeight else h in
  let h := if MaxHeight <? h then MaxHeight else h in
  let w := if MaxCells / h <? w then MaxCells / h else w in
  (w, h).

Section Ops.
Context {W : Type} `{Writer W}.

Definition Resize (s : Screen W) (w h : Z) : Screen W :=
  let '(w, h) := clamp_size w h in
  mkScr W w h (replicate (Z.to_nat h) (replicate (Z.to_nat w) cell0))
    (replicate (Z.to_nat h) (replicate (Z.to_nat w) blank)) (sc_out s) (sc_failed s).

Definition NewScreenWithOutput (w h : Z) (out : W) : Screen W :=
  Resize (mkScr W 0 0 [] [] out false) w h.

Definition Set_cell (s : Screen W) (x y : Z) (c : Cell) : Screen W :=
  if (x <? 0) || (sc_w s <=? x) || (y <? 0) || (sc_h s <=? y) then s else
  mkScr W (sc_w s) (sc_h s) (sc_old s)
    (alter (fun row => <[Z.to_nat x := c]> row) (Z.to_nat y) (sc_cur s)) (sc_out s) (sc_failed s).

Definition SetRow (s : Screen W) (y : Z) (cells : list Cell) : Screen W :=
  if (y <? 0) || (sc_h s <=? y) || (len cells =? 0) then s else
  let cells := if sc_w s <? len cells then take (Z.to_nat (sc_w s)) cells else cells in
  mkScr W (sc_w s) (sc_h s) (sc_old s)
    (alter (fun row => overwrite row 0 (take (length row) cells)) (Z.to_nat y) (sc_cur s))
    (sc_out s) (sc_failed s).

Definition Healthy (s : Screen W) : bool := negb (sc_failed s).

(** *** Flush

    The locals of [Flush] that live across runs. *)
Record Pen := mkPen { pen_b : bytes; pen_last : Cell; pen_styled : bool; pen_x : Z; pen_y : Z }.

Definition printable (ch : Z) : bool := (32 <=? ch) && (ch <=? 126).

Definition same_style (c style : Cell) : bool :=
  bool_decide (Fg c = Fg style) && bool_decide (Bg c = Bg style) && (Decor c =? Decor style).

(** The length of the run that starts the row suffixes [cur] and [old]: cells that
    changed and share [style], up to and including the first that is not
    printable ASCII. *)
Fixpoint run_length (style : Cell) (cur old : list Cell) : nat :=
  match cur, old with
  | c :: cur', o :: old' =>
    if negb (bool_decide (c = o)) && same_style c style
    then S (if printable (cell_Ch c) then run_length style cur' old' else 0) else 0
  | _, _ => 0
  end.

Definition move_to (y x : Z) : bytes :=
  csi ++ decimal (y + 1) ++ [semicolon] ++ decimal (x + 1) ++ str "H".

Definition reset_decor (d : Z) : bytes :=
  csi ++ str "0"
  ++ concat (map (fun dc => if negb (Z.land d dc.1 =? 0) then [semicolon; dc.2] else []) decorCodes)
  ++ str "m".

(** The glyphs of a run: the bytes, and the cursor column afterwards. *)
Fixpoint put_cells (b : bytes) (cx : Z) (cells : list Cell) : bytes * Z :=
  match cells with
  | [] => (b, cx)
  | c :: cells' =>
    if printable (cell_Ch c) then put_cells (b ++ [cell_Ch c]) cx cells'
    else put_cells (b ++ encode_rune (cell_Ch c)) (-1) cells'
  end.

Definition emit_run (p : Pen) (style : Cell) (start y : Z) (cells : list Cell) : Pen :=
  let b := pen_b p in
  let b := if negb (pen_x p =? start) || negb (pen_y p =? y) then b ++ move_to y start else b in
  let reset := negb (pen_styled p) || negb (Decor (pen_last p) =? Decor style) in
  let b := if reset then b ++ reset_decor (Decor style) else b in
  let b := if reset || negb (bool_decide (Bg (pen_last p) = Bg style)) then appendColor b (Bg style) false else b in
  let b := if reset || negb (bool_decide (Fg (pen_last p) = Fg style)) then appendColor b (Fg style) true else b in
  let '(b, cx) := put_cells b (start + len cells) cells in
  mkPen b style true cx y.

(** The loop over one row, on the suffixes of the two rows from column [x].  Every
    round passes at least one cell. *)
Fixpoint flush_row (fuel : nat) (p : Pen) (y x : Z) (cur old : list Cell) : Pen :=
  match fuel with
  | O => p
  | S fuel' =>
    match cur, old with
    | c :: cur', o :: old' =>
      if bool_decide (c = o) then flush_row fuel' p y (x + 1) cur' old' else
      let n := run_length c cur old in
      flush_row fuel' (emit_run p c x y (take n cur)) y (x + Z.of_nat n) (drop n cur) (drop n old)
    | _, _ => p
    end
  end.

(** The loop over the rows.  [same y]: row [y] is equal to the old one as memory
    ([bytes.Equal] of [rowBytes]), which padding can only make false. *)
Fixpoint flush_rows (same : Z -> bool) (p : Pen) (y : Z) (cur old : list (list Cell)) : Pen * list Z :=
  match cur, old with
  | c :: cur', o :: old' =>
    if same y then flush_rows same p (y + 1) cur' old' else
    let p := flush_row (length c) p y 0 c o in
    let '(p, dirty) := flush_rows same p (y + 1) cur' old' in
    (p, y :: dirty)
  | _, _ => (p, [])
  end.

Definition pen0 : Pen := mkPen [] cell0 false (-1) (-1).

(** [copy(s.old[y], s.cur[y])] for the dirty rows. *)
Definition copy_rows (dirty : list Z) (old cur : list (list Cell)) : list (list Cell) :=
  fold_left (fun old y => match cur !! Z.to_nat y with
                          | Some row => <[Z.to_nat y := row]> old
                          | None => old
                          end) dirty old.

Definition Flush (same : Z -> bool) (s : Screen W) : Screen W :=
  let '(p, dirty) := flush_rows same pen0 0 (sc_cur s) (sc_old s) in
  let b := pen_b p in
  if 0 <? len b then
    let '(out, n, err) := wr (sc_out s) b in
    let failed := err || negb (n =? len b) in
    mkScr W (sc_w s) (sc_h s) (if failed then sc_old s else copy_rows dirty (sc_old s) (sc_cur s))
      (sc_cur s) out failed
  else s.

End Ops.

(** ** The reference terminal *)

Record Glyph := mkGlyph { g_ch : Z; g_fg : RGB; g_bg : RGB; g_bold : bool; g_italic : bool; g_underline : bool }.

(** The current rendition; a colour is [None] while it is the terminal's own. *)
Record Style := mkStyle {
  s_fg : option RGB; s_bg : option RGB; s_bold : bool; s_italic : bool; s_underline : bool }.

Inductive PState := Ground | InUtf8 (p : bytes) | InEsc | InCsi (ps : list Z) (cur : option Z).

(** [t_cursor] and [t_style] are [None] while unknown: at the start, and the
    cursor after a glyph whose width is the terminal's business.  [t_confused] is
    set by anything whose effect this terminal does not define: an unknown
    sequence, a control character, or a glyph printed with an unknown position or
    rendition or outside the screen. *)
Record Term := mkTerm {
  t_w : Z; t_h : Z; t_state : PState; t_grid : gmap (Z * Z) Glyph;
  t_cursor : option (Z * Z); t_style : option Style; t_confused : bool }.

Definition set_state t st := mkTerm (t_w t) (t_h t) st (t_grid t) (t_cursor t) (t_style t) (t_confused t).
Definition confuse t := mkTerm (t_w t) (t_h t) (t_state t) (t_grid t) (t_cursor t) (t_style t) true.

(** Print [ch]; [wide]: the column afterwards is unknown. *)
Definition print (t : Term) (ch : Z) (wide : bool) : Term :=
  match t_cursor t, t_style t with
  | Some (y, x), Some (mkStyle (Some fg) (Some bg) bo it ul) =>
    if (0 <=? y) && (y <? t_h t) && (0 <=? x) && (x <? t_w t) then
      mkTerm (t_w t) (t_h t) Ground (<[(y, x) := mkGlyph ch fg bg bo it ul]> (t_grid t))
        (if wide then None else Some (y, x + 1)) (t_style t) (t_confused t)
    else confuse t
  | _, _ => confuse t
  end.

Definition plain_style : Style := mkStyle None None false false false.

(** Select Graphic Rendition. *)
Fixpoint sgr (fuel : nat) (ps : list Z) (st : option Style) : option (option Style) :=
  match fuel with
  | O => None
  | S fuel' =>
    match ps with
    | [] => Some st
    | p :: ps' =>
      if p =? 0 then sgr fuel' ps' (Some plain_style)
      else if p =? 1 then sgr fuel' ps' (option_map (fun s => mkStyle (s_fg s) (s_bg s) true (s_italic s) (s_underline s)) st)
      else if p =? 3 then sgr fuel' ps' (option_map (fun s => mkStyle (s_fg s) (s_bg s) (s_bold s) true (s_underline s)) st)
      else if p =? 4 then sgr fuel' ps' (option_map (fun s => mkStyle (s_fg s) (s_bg s) (s_bold s) (s_italic s) true) st)
      else match ps' with
           | k :: r :: g :: b :: ps'' =>
             if k =? 2 then
               if p =? 38 then sgr fuel' ps'' (option_map (fun s => mkStyle (Some (mkRGB r g b)) (s_bg s) (s_bold s) (s_italic s) (s_underline s)) st)
               else if p =? 48 then sgr fuel' ps'' (option_map (fun s => mkStyle (s_fg s) (Some (mkRGB r g b)) (s_bold s) (s_italic s) (s_underline s)) st)
               else None
             else None
           | _ => None
           end
    end
  end.

Definition csi_done (t : Term) (final : Z) (ps : list Z) : Term :=
  let t := set_state t Ground in
  if final =? 72 then                                      (* H *)
    match ps with
    | [y; x] => mkTerm (t_w t) (t_h t) Ground (t_grid t) (Some (y - 1, x - 1)) (t_style t) (t_confused t)
    | _ => confuse t
    end
  else if final =? 109 then                                (* m *)
    match sgr (S (length ps)) ps (t_style t) with
    | Some st => mkTerm (t_w t) (t_h t) Ground (t_grid t) (t_cursor t) st (t_confused t)
    | None => confuse t
    end
  else confuse t.

(** One byte. *)
Definition feed (t : Term) (c : Z) : Term :=
  match t_state t with
  | Ground =>
    if c =? 27 then set_state t InEsc
    else if printable c then print t c false
    else if 0x80 <=? c then
      if full_rune [c] then confuse t else set_state t (InUtf8 [c])
    else confuse t
  | InUtf8 p =>
    let p := p ++ [c] in
    if full_rune p then
      if bool_decide ((decode_rune p).2 = length p) then print (set_state t Ground) (decode_rune p).1 true
      else confuse t
    else set_state t (InUtf8 p)
  | InEsc => if c =? 91 then set_state t (InCsi [] None) else confuse t
  | InCsi ps cur =>
    if within_b 48 57 c then set_state t (InCsi ps (Some (default 0 cur * 10 + (c - 48))))
    else if c =? semicolon then set_state t (InCsi (ps ++ [default 0 cur]) None)
    else if within_b 0x40 0x7e c then csi_done t c (ps ++ [default 0 cur])
    else confuse t
  end.

Definition show (t : Term) (b : bytes) : Term := fold_left feed b t.

(** ** Lemmas: what the bytes do *)

Lemma show_app t a b : show t (a ++ b) = show (show t a) b.
Proof. apply fold_left_app. Qed.

Lemma feed_digit t ps cur c :
  t_state t = InCsi ps cur -> digit c ->
  feed t c = set_state t (InCsi ps (Some (default 0 cur * 10 + (c - 48)))).
Proof.
  intros Hs Hc. unfold feed, within_b. rewrite Hs. unfold digit in Hc.
  by rewrite !(proj2 (Z.leb_le _ _)) by lia.
Qed.

Lemma show_digits ds t ps a v :
  Forall digit ds -> t_state t = InCsi ps (Some a) -> parse_digits ds a = Some v ->
  show t ds = set_state t (InCsi ps (Some v)).
Proof.
  intros Hd. revert t a. induction Hd as [|c ds Hc _ IH]; intros t a Hs Hp.
  - cbn in *. destruct (a <? 2 ^ 32); simplify_eq. destruct t; cbn in *; by subst.
  - cbn [show fold_left]. rewrite (feed_digit _ _ _ _ Hs Hc). cbn [parse_digits] in Hp.
    destruct (within_b 48 57 c); [|done]. cbn [default].
    change (fold_left feed ds ?u) with (show u ds). by erewrite IH; [|reflexivity|exact Hp].
Qed.

Lemma show_decimal t ps n :
  0 <= n < 2 ^ 32 -> t_state t = InCsi ps None -> show t (decimal n) = set_state t (InCsi ps (Some n)).
Proof.
  intros Hn Hs. destruct (decimal_spec n Hn) as (Hd & Hne & Hp).
  unfold ParseUint32 in Hp. rewrite bool_decide_eq_false_2 in Hp by done.
  destruct (decimal n) as [|c ds]; [done|]. inversion Hd as [|? ? Hc Hds]; subst.
  cbn [show fold_left]. rewrite (feed_digit _ _ _ _ Hs Hc). cbn [parse_digits] in Hp.
  destruct (within_b 48 57 c); [|done].
  change (fold_left feed ds ?u) with (show u ds). by erewrite show_digits; [|exact Hds|reflexivity|exact Hp].
Qed.

Definition at_ground (t : Term) : Prop := t_state t = Ground /\ t_confused t = false.

(** [csi] starts a control sequence. *)
Lemma show_csi t b : t_state t = Ground -> show t (csi ++ b) = show (set_state t (InCsi [] None)) b.
Proof. intros Hs. rewrite show_app. unfold show at 2. cbn. unfold feed at 2. by rewrite Hs. Qed.

(** A parameter followed by a separator or a final byte. *)
Lemma show_param t ps n rest :
  0 <= n < 2 ^ 32 -> t_state t = InCsi ps None ->
  show t (decimal n ++ [semicolon] ++ rest) = show (set_state t (InCsi (ps ++ [n]) None)) rest.
Proof. intros Hn Hs. rewrite show_app, (show_decimal _ _ _ Hn Hs). by rewrite show_app. Qed.

Lemma show_last t ps n final :
  0 <= n < 2 ^ 32 -> t_state t = InCsi ps None -> 0x40 <= final <= 0x7e ->
  show t (decimal n ++ [final]) = csi_done (set_state t (InCsi ps (Some n))) final (ps ++ [n]).
Proof.
  intros Hn Hs Hf. rewrite show_app, (show_decimal _ _ _ Hn Hs). unfold show. cbn [fold_left].
  unfold feed. cbn [t_state set_state default]. unfold within_b, semicolon.
  rewrite (proj2 (Z.leb_gt _ 57)), andb_false_r, (proj2 (Z.eqb_neq _ _)), !(proj2 (Z.leb_le _ _)) by lia.
  done.
Qed.

Definition move_cursor (t : Term) (y x : Z) : Term :=
  mkTerm (t_w t) (t_h t) Ground (t_grid t) (Some (y, x)) (t_style t) (t_confused t).

Lemma show_move_to t y x :
  t_state t = Ground -> 0 <= y < 2 ^ 31 -> 0 <= x < 2 ^ 31 -> show t (move_to y x) = move_cursor t y x.
Proof.
  intros Hs Hy Hx. unfold move_to. rewrite (show_csi _ _ Hs).
  rewrite (show_param _ []) by (done || lia). change (str "H") with [72].
  rewrite (show_last _ ([] ++ [y + 1])) by (done || lia). unfold csi_done, move_cursor. cbn.
  do 3 f_equal; lia.
Qed.

Definition set_style (t : Term) (s : Style) : Term :=
  mkTerm (t_w t) (t_h t) Ground (t_grid t) (t_cursor t) (Some s) (t_confused t).

Definition has_bit (d bit : Z) : bool := negb (Z.land d bit =? 0).

Lemma show_reset t d :
  t_state t = Ground ->
  show t (reset_decor d) =
    set_style t (mkStyle None None (has_bit d DecorBold) (has_bit d DecorItalic) (has_bit d DecorUnderline)).
Proof.
  intros Hs. unfold reset_decor, decorCodes, has_bit. cbn [map concat fst snd].
  rewrite (show_csi _ _ Hs).
  destruct (Z.land d DecorBold =? 0), (Z.land d DecorItalic =? 0), (Z.land d DecorUnderline =? 0); reflexivity.
Qed.

(** The colours a cell asks for; black stands for the default. *)
Definition fg_of (c : RGB) : RGB := if bool_decide (c = rgb0) then mkRGB 200 200 200 else c.
Definition bg_of (c : RGB) : RGB := if bool_decide (c = rgb0) then mkRGB 25 23 29 else c.

Definition with_color (s : Style) (c : RGB) (foreground : bool) : Style :=
  if foreground then mkStyle (Some (fg_of c)) (s_bg s) (s_bold s) (s_italic s) (s_underline s)
  else mkStyle (s_fg s) (Some (bg_of c)) (s_bold s) (s_italic s) (s_underline s).

Lemma show_color t s c foreground b :
  t_state (show t b) = Ground -> t_style (show t b) = Some s -> rgb_wf c ->
  show t (appendColor b c foreground) = set_style (show t b) (with_color s c foreground).
Proof.
  intros Hg Hs (Hr & Hgr & Hb). unfold is_u8 in *. unfold appendColor, with_color, fg_of, bg_of.
  case_bool_decide as Hc.
  - rewrite show_app. generalize dependent (show t b). intros u Hg Hs.
    destruct u; cbn in Hg, Hs; subst. by destruct foreground.
  - rewrite <- !app_assoc, show_app. generalize dependent (show t b). intros u Hg Hs.
    rewrite (show_csi _ _ Hg), show_app.
    assert (Hu : show (set_state u (InCsi [] None)) (if foreground then str "38;2;" else str "48;2;")
      = set_state u (InCsi [if foreground then 38 else 48; 2] None)) by (by destruct foreground).
    rewrite Hu, (show_param _ [if foreground then 38 else 48; 2]),
      (show_param _ ([if foreground then 38 else 48; 2] ++ [rgb_R c])) by (done || lia).
    change (str "m") with [109].
    rewrite (show_last _ (([if foreground then 38 else 48; 2] ++ [rgb_R c]) ++ [rgb_G c])) by (done || lia).
    unfold csi_done. cbn [set_state t_style]. rewrite Hs. destruct c as [r g bl]. cbn in *.
    by destruct foreground.
Qed.

(** *** Glyphs *)

(** A cell fit for the terminal: a rune that is no control, colours of one byte. *)
Definition good (c : Cell) : Prop :=
  valid_rune (cell_Ch c) = true /\ 0x20 <= cell_Ch c /\ ~ (0x7f <= cell_Ch c <= 0x9f) /\
  rgb_wf (Fg c) /\ rgb_wf (Bg c).

Definition style_of (c : Cell) : Style :=
  mkStyle (Some (fg_of (Fg c))) (Some (bg_of (Bg c)))
    (has_bit (Decor c) DecorBold) (has_bit (Decor c) DecorItalic) (has_bit (Decor c) DecorUnderline).

Definition glyph_of (c : Cell) : Glyph :=
  mkGlyph (cell_Ch c) (fg_of (Fg c)) (bg_of (Bg c))
    (has_bit (Decor c) DecorBold) (has_bit (Decor c) DecorItalic) (has_bit (Decor c) DecorUnderline).

Definition on_screen (t : Term) (y x : Z) : Prop := 0 <= y < t_h t /\ 0 <= x < t_w t.

Lemma print_spec t ch wide y x c :
  t_cursor t = Some (y, x) -> t_style t = Some (style_of c) -> on_screen t y x ->
  print t ch wide = mkTerm (t_w t) (t_h t) Ground
    (<[(y, x) := mkGlyph ch (fg_of (Fg c)) (bg_of (Bg c)) (has_bit (Decor c) DecorBold)
                   (has_bit (Decor c) DecorItalic) (has_bit (Decor c) DecorUnderline)]> (t_grid t))
    (if wide then None else Some (y, x + 1)) (t_style t) (t_confused t).
Proof.
  intros Hc Hs [Hy Hx]. unfold print. rewrite Hc, Hs. cbn [style_of].
  by rewrite !(proj2 (Z.leb_le _ _)), !(proj2 (Z.ltb_lt _ _)) by lia.
Qed.

(** A rune outside ASCII arrives byte by byte. *)
Lemma show_utf8 q t p r :
  q <> [] -> t_state t = InUtf8 p -> p <> [] ->
  decode_rune (p ++ q) = (r, length (p ++ q)) -> full_rune (p ++ q) = true ->
  show t q = print (set_state t Ground) r true.
Proof.
  revert t p. induction q as [|c q IH]; intros t p Hq Hs Hp Hd Hf; [done|].
  cbn [show fold_left]. change (fold_left feed q ?u) with (show u q).
  unfold feed. rewrite Hs. replace (p ++ c :: q) with ((p ++ [c]) ++ q) in * by by rewrite <- app_assoc.
  destruct q as [|c' q].
  - rewrite app_nil_r in *. rewrite Hf, Hd. cbn [fst snd]. by rewrite bool_decide_eq_true_2.
  - rewrite (prefix_not_full _ _ _ Hd) by done.
    rewrite (IH (set_state t (InUtf8 (p ++ [c]))) (p ++ [c])) by (done || by destruct p). done.
Qed.

Lemma show_rune t r :
  valid_rune r = true -> 0x80 <= r -> t_state t = Ground -> show t (encode_rune r) = print t r true.
Proof.
  intros Hv Hr Hs. destruct (decode_encode_rune r Hv) as [Hd _].
  destruct (encode_rune r) as [|c q] eqn:He; [by unfold encode_rune in He; repeat case_match|].
  destruct (encode_rune_head r c q Hv Hr He) as [Hq Hc].
  assert (Hf : full_rune ([c] ++ q) = true).
  { apply (full_of_decode _ r); [done|exact Hd|]. apply andb_false_iff. right.
    destruct q; [done|]. done. }
  assert (Hfirst : feed t c = set_state t (InUtf8 [c])).
  { unfold feed. rewrite Hs, (proj2 (Z.eqb_neq _ _)) by lia. unfold printable.
    rewrite (proj2 (Z.leb_gt c 126)), andb_false_r, (proj2 (Z.leb_le _ _)) by lia.
    by rewrite (prefix_not_full [c] q r). }
  cbn [show fold_left]. change (fold_left feed q ?u) with (show u q). rewrite Hfirst.
  rewrite (show_utf8 q _ [c] r) by done. f_equal. destruct t; cbn in *; by subst.
Qed.

Lemma show_ascii t ch : printable ch = true -> t_state t = Ground -> show t [ch] = print t ch false.
Proof.
  intros Hp Hs. unfold show. cbn [fold_left]. unfold feed. rewrite Hs, Hp.
  unfold printable in Hp. apply andb_true_iff in Hp as [Hl _]. zbool.
  by rewrite (proj2 (Z.eqb_neq _ _)) by lia.
Qed.

(** *** One run *)

(** Only the last cell of a run may be something else than printable ASCII. *)
Fixpoint run_ok (cells : list Cell) : Prop :=
  match cells with
  | [] => True
  | c :: cells' => (cells' = [] \/ printable (cell_Ch c) = true) /\ run_ok cells'
  end.

(** The grid [g'] is [g] with [cells] shown from [(y, x)] on. *)
Definition painted (g g' : gmap (Z * Z) Glyph) (y x : Z) (cells : list Cell) : Prop :=
  (forall i c, cells !! i = Some c -> g' !! (y, x + Z.of_nat i) = Some (glyph_of c)) /\
  (forall y' x', y' <> y \/ x' < x \/ x + len cells <= x' -> g' !! (y', x') = g !! (y', x')).

Lemma painted_nil g y x : painted g g y x [].
Proof. split; [intros i c H; by rewrite lookup_nil in H|done]. Qed.

Lemma painted_cons g g' y x c cells :
  painted (<[(y, x) := glyph_of c]> g) g' y (x + 1) cells -> painted g g' y x (c :: cells).
Proof.
  intros [Hin Hout]. split.
  - intros [|i] c' Hi; cbn in Hi.
    + injection Hi as <-. rewrite Hout by lia. replace (x + Z.of_nat 0) with x by lia. apply lookup_insert_eq.
    + apply Hin in Hi. by replace (x + Z.of_nat (S i)) with (x + 1 + Z.of_nat i) by lia.
  - intros y' x' Hc. rewrite len_cons in Hc. rewrite Hout by (len_lia).
    apply lookup_insert_ne. intros [= <- <-]. len_lia.
Qed.

Lemma painted_app g g1 g2 y x a b :
  painted g g1 y x a -> painted g1 g2 y (x + len a) b -> painted g g2 y x (a ++ b).
Proof.
  intros [Hin1 Hout1] [Hin2 Hout2]. len_pos. split.
  - intros i c Hi. apply lookup_app_Some in Hi as [Hi|[Hl Hi]].
    + rewrite Hout2; [by apply Hin1|]. apply lookup_lt_Some in Hi. unfold len. lia.
    + apply Hin2 in Hi. unfold len in Hi.
      by replace (x + Z.of_nat i) with (x + Z.of_nat (length a) + Z.of_nat (i - length a)) by lia.
  - intros y' x' Hc. rewrite len_app in Hc. rewrite Hout2, Hout1 by lia. done.
Qed.

Definition same_frame (t t' : Term) : Prop :=
  t_w t' = t_w t /\ t_h t' = t_h t /\ at_ground t'.

Lemma put_cells_spec cells b cx t0 style y x b' cx' :
  put_cells b cx cells = (b', cx') ->
  let t := show t0 b in
  at_ground t -> t_cursor t = Some (y, x) -> t_style t = Some (style_of style) ->
  0 <= y < t_h t -> 0 <= x -> x + len cells <= t_w t ->
  Forall good cells -> Forall (fun c => same_style c style = true) cells -> run_ok cells ->
  cx = x + len cells ->
  let t' := show t0 b' in
  same_frame t t' /\ t_style t' = t_style t /\ (cx' <> -1 -> t_cursor t' = Some (y, cx')) /\
  painted (t_grid t) (t_grid t') y x cells.
Proof.
  revert b x cx. induction cells as [|c cells IH]; intros b x cx Hp t Hg Hc Hs Hy Hx Hw Hgood Hst Hrun Hcx.
  { cbn in Hp. injection Hp as <- <-. intros t'. subst cx. fold t in t'. subst t'.
    split; [done|]. split; [done|]. split; [|apply painted_nil].
    intros _. rewrite Hc. do 2 f_equal. rewrite len_nil. lia. }
  inversion Hgood as [|? ? (Hv & Hlo & Hctl & _) Hgood']; subst.
  inversion Hst as [|? ? Hsame Hst']; subst. destruct Hrun as [Hlast Hrun]. rewrite len_cons in *. len_pos.
  assert (Hgl : glyph_of c = mkGlyph (cell_Ch c) (fg_of (Fg style)) (bg_of (Bg style))
    (has_bit (Decor style) DecorBold) (has_bit (Decor style) DecorItalic) (has_bit (Decor style) DecorUnderline)).
  { unfold same_style in Hsame. rewrite !andb_true_iff, !bool_decide_eq_true, Z.eqb_eq in Hsame.
    destruct Hsame as [[Hf Hb] Hd]. unfold glyph_of. by rewrite Hf, Hb, Hd. }
  assert (Hos : on_screen t y x) by (split; lia).
  cbn [put_cells] in Hp. destruct (printable (cell_Ch c)) eqn:Hpr.
  - destruct Hg as [Hg1 Hg2]. pose proof (show_ascii t _ Hpr Hg1) as Hshow.
    rewrite (print_spec t _ _ y x style Hc Hs Hos), <- Hgl in Hshow. cbn iota in Hshow.
    unfold t in Hshow. rewrite <- show_app in Hshow. fold t in Hshow.
    specialize (IH (b ++ [cell_Ch c]) (x + 1) (x + (1 + len cells)) Hp). cbv zeta in IH.
    rewrite Hshow in IH. cbn [t_state t_confused t_cursor t_style t_w t_h t_grid] in IH.
    destruct IH as ((Hw' & Hh' & Hg') & Hs' & Hc' & Hpaint); try done; try lia.
    intros t'. split; [done|]. split; [done|]. split; [done|]. by apply painted_cons.
  - destruct Hlast as [->|?]; [|done]. cbn [put_cells] in Hp. injection Hp as <- <-.
    assert (Hhi : 0x80 <= cell_Ch c) by (unfold printable in Hpr; apply andb_false_iff in Hpr as [?|?]; zbool; lia).
    destruct Hg as [Hg1 Hg2]. pose proof (show_rune t _ Hv Hhi Hg1) as Hshow.
    rewrite (print_spec t _ _ y x style Hc Hs Hos), <- Hgl in Hshow. cbn iota in Hshow.
    intros t'. subst t'. rewrite show_app. fold t. rewrite Hshow.
    split; [done|]. split; [done|]. split; [done|]. cbn [t_grid]. apply painted_cons, painted_nil.
Qed.

(** What the pen remembers is what the terminal is in. *)
Definition pen_ok (t0 : Term) (p : Pen) : Prop :=
  let t := show t0 (pen_b p) in
  same_frame t0 t /\
  (pen_styled p = true -> t_style t = Some (style_of (pen_last p))) /\
  (pen_x p <> -1 -> t_cursor t = Some (pen_y p, pen_x p)).

Lemma same_frame_trans t u v : same_frame t u -> same_frame u v -> same_frame t v.
Proof. intros (? & ? & _) (? & ? & Hg). repeat split; try congruence; apply Hg. Qed.

(** Moving and styling before the glyphs: the three parts of a run's prefix. *)
Definition move_part (p : Pen) (start y : Z) : bytes :=
  if negb (pen_x p =? start) || negb (pen_y p =? y) then pen_b p ++ move_to y start else pen_b p.
Definition needs_reset (p : Pen) (style : Cell) : bool :=
  negb (pen_styled p) || negb (Decor (pen_last p) =? Decor style).
Definition style_part (p : Pen) (style : Cell) (b : bytes) : bytes :=
  let reset := needs_reset p style in
  let b := if reset then b ++ reset_decor (Decor style) else b in
  let b := if reset || negb (bool_decide (Bg (pen_last p) = Bg style)) then appendColor b (Bg style) false else b in
  if reset || negb (bool_decide (Fg (pen_last p) = Fg style)) then appendColor b (Fg style) true else b.

Lemma emit_run_parts p style start y cells :
  emit_run p style start y cells =
    let '(b, cx) := put_cells (style_part p style (move_part p start y)) (start + len cells) cells in
    mkPen b style true cx y.
Proof. reflexivity. Qed.

Lemma move_part_spec t0 p start y :
  pen_ok t0 p -> 0 <= y < 2 ^ 31 -> 0 <= start < 2 ^ 31 ->
  let u := show t0 (move_part p start y) in
  same_frame t0 u /\ t_cursor u = Some (y, start) /\
  t_style u = t_style (show t0 (pen_b p)) /\ t_grid u = t_grid (show t0 (pen_b p)).
Proof.
  intros ((Hw & Hh & Hg & Hcf) & Hst & Hcur) Hy Hx. unfold move_part.
  destruct (negb (pen_x p =? start) || negb (pen_y p =? y)) eqn:Hm.
  - rewrite show_app, show_move_to by done. by repeat split.
  - apply orb_false_iff in Hm as [Hm1 Hm2]. apply negb_false_iff, Z.eqb_eq in Hm1, Hm2.
    cbv zeta. rewrite Hcur by lia. repeat split; congruence || done.
Qed.

Lemma set_style_same u s : t_state u = Ground -> t_style u = Some s -> set_style u s = u.
Proof. intros Hg Hs. unfold set_style. rewrite <- Hs, <- Hg. by destruct u. Qed.

Lemma reset_part_spec t0 b p style :
  let u := show t0 b in
  t_state u = Ground -> (pen_styled p = true -> t_style u = Some (style_of (pen_last p))) ->
  exists s, show t0 (if needs_reset p style then b ++ reset_decor (Decor style) else b) = set_style u s /\
    s_bold s = has_bit (Decor style) DecorBold /\ s_italic s = has_bit (Decor style) DecorItalic /\
    s_underline s = has_bit (Decor style) DecorUnderline /\
    (needs_reset p style = false -> s = style_of (pen_last p)).
Proof.
  intros u Hg Hst. destruct (needs_reset p style) eqn:Hr.
  - rewrite show_app, (show_reset _ _ Hg). eexists. by split_and!.
  - apply orb_false_iff in Hr as [Hr1 Hr2]. apply negb_false_iff in Hr1, Hr2. apply Z.eqb_eq in Hr2.
    exists (style_of (pen_last p)). rewrite (set_style_same _ _ Hg (Hst Hr1)). cbn. by rewrite Hr2.
Qed.

(** A colour that is written, or is already the terminal's. *)
Lemma color_part_spec t0 b u s (write : bool) c foreground :
  show t0 b = set_style u s -> rgb_wf c ->
  (write = false -> with_color s c foreground = s) ->
  show t0 (if write then appendColor b c foreground else b) = set_style u (with_color s c foreground).
Proof.
  intros Hu Hc Hk. destruct write; [|by rewrite Hk].
  rewrite (show_color t0 s) by (done || by rewrite Hu). by rewrite Hu.
Qed.

Lemma style_part_spec t0 b p style :
  let u := show t0 b in
  t_state u = Ground -> (pen_styled p = true -> t_style u = Some (style_of (pen_last p))) ->
  rgb_wf (Fg style) -> rgb_wf (Bg style) ->
  show t0 (style_part p style b) = set_style u (style_of style).
Proof.
  intros u Hg Hst Hfg Hbg.
  destruct (reset_part_spec t0 b p style Hg Hst) as (s & Hs & Hb1 & Hb2 & Hb3 & Hkeep). fold u in Hs.
  assert (Hfinal : style_of style = with_color (with_color s (Bg style) false) (Fg style) true)
    by (unfold style_of; cbn; by rewrite Hb1, Hb2, Hb3).
  rewrite Hfinal. unfold style_part. apply color_part_spec; [|done|].
  - apply color_part_spec; [done|done|]. intros Hw. apply orb_false_iff in Hw as [Hr Hw].
    apply negb_false_iff, bool_decide_eq_true in Hw. by rewrite (Hkeep Hr), <- Hw.
  - intros Hw. apply orb_false_iff in Hw as [Hr Hw]. apply negb_false_iff, bool_decide_eq_true in Hw.
    by rewrite (Hkeep Hr), <- Hw.
Qed.

Lemma emit_run_spec t0 p style start y cells :
  pen_ok t0 p -> 0 <= y < t_h t0 -> 0 <= start -> start + len cells <= t_w t0 ->
  t_h t0 < 2 ^ 31 -> t_w t0 < 2 ^ 31 -> cells <> [] ->
  Forall good cells -> Forall (fun c => same_style c style = true) cells -> run_ok cells -> good style ->
  let p' := emit_run p style start y cells in
  pen_ok t0 p' /\ painted (t_grid (show t0 (pen_b p))) (t_grid (show t0 (pen_b p'))) y start cells.
Proof.
  intros Hok Hy Hx Hw Hmh Hmw Hne Hgood Hst Hrun (_ & _ & _ & Hfg & Hbg).
  assert (Hlen : 0 < len cells) by (destruct cells; [done|len_lia]).
  destruct (move_part_spec t0 p start y Hok) as (Hf1 & Hc1 & Hs1 & Hg1); [lia|lia|].
  pose proof (style_part_spec t0 (move_part p start y) p style) as Hsp. cbv zeta in Hsp.
  rewrite Hs1 in Hsp. specialize (Hsp (proj1 (proj2 (proj2 Hf1))) (proj1 (proj2 Hok)) Hfg Hbg).
  rewrite emit_run_parts. destruct (put_cells _ _ _) as [b' cx'] eqn:Hp.
  destruct Hf1 as (Hfw & Hfh & Hfg1 & Hfc).
  pose proof (put_cells_spec _ _ _ t0 style y start _ _ Hp) as Hput. cbv zeta in Hput. rewrite Hsp in Hput.
  cbn [t_state t_confused t_cursor t_style t_w t_h t_grid set_style] in Hput.
  destruct Hput as (Hf2 & Hs2 & Hc2 & Hpt); try done; try congruence; try lia.
  cbv zeta. cbn [pen_b]. rewrite Hg1 in Hpt. split; [|done].
  split; [|split; cbn [pen_styled pen_last pen_x pen_y pen_b]; [by rewrite Hs2|done]].
  destruct Hf2 as (Hfw2 & Hfh2 & Hgr). cbn in Hfw2, Hfh2. split; [|split]; cbn [pen_b]; [congruence|congruence|done].
Qed.

(** *** Rows and the whole screen *)

Lemma run_length_spec style cur old :
  let n := run_length style cur old in
  (n <= length cur)%nat /\ (n <= length old)%nat /\
  Forall (fun c => same_style c style = true) (take n cur) /\ run_ok (take n cur).
Proof.
  revert old. induction cur as [|c cur IH]; intros [|o old]; cbn [run_length]; try (cbn; split_and!; lia || done || constructor).
  destruct (negb _ && same_style c style) eqn:Hc; [|cbn; split_and!; lia || done || constructor].
  apply andb_true_iff in Hc as [_ Hc]. destruct (printable (cell_Ch c)) eqn:Hp.
  - destruct (IH old) as (H1 & H2 & H3 & H4). cbn [take length]. split_and!; [lia|lia|by constructor|].
    split; [by right|done].
  - cbn [take length]. split_and!; [lia|lia|by repeat constructor|]. split; [by left|done].
Qed.

Lemma run_length_pos c cur o old : c <> o -> (0 < run_length c (c :: cur) (o :: old))%nat.
Proof.
  intros Hc. cbn [run_length]. rewrite bool_decide_eq_false_2 by done. unfold same_style.
  rewrite !bool_decide_eq_true_2, Z.eqb_refl by done. cbn. lia.
Qed.

(** The terminal shows the cells [old] from [(y, x)] on, where they are known. *)
Definition shows (g : gmap (Z * Z) Glyph) (y x : Z) (cells : list Cell) : Prop :=
  forall i c, cells !! i = Some c -> good c -> g !! (y, x + Z.of_nat i) = Some (glyph_of c).

Lemma flush_row_spec fuel t0 p y x cur old :
  pen_ok t0 p -> 0 <= y < t_h t0 -> 0 <= x -> x + len cur <= t_w t0 ->
  t_h t0 < 2 ^ 31 -> t_w t0 < 2 ^ 31 -> Forall good cur -> length old = length cur -> (length cur <= fuel)%nat ->
  shows (t_grid (show t0 (pen_b p))) y x old ->
  let p' := flush_row fuel p y x cur old in
  pen_ok t0 p' /\ painted (t_grid (show t0 (pen_b p))) (t_grid (show t0 (pen_b p'))) y x cur.
Proof.
  revert p x cur old. induction fuel as [|fuel IH]; intros p x cur old Hok Hy Hx Hw Hmh Hmw Hgood Hl Hf Hold.
  { destruct cur; [|simpl in Hf; lia]. cbn. split; [done|apply painted_nil]. }
  destruct cur as [|c cur]; [cbn; split; [done|apply painted_nil]|]. destruct old as [|o old]; [done|].
  rewrite len_cons in Hw. len_pos. cbn [flush_row]. inversion Hgood as [|? ? Hc Hgood']; subst.
  case_bool_decide as Heq.
  - subst o. destruct (IH p (x + 1) cur old) as [Hok' Hp]; try done; try lia; try (simpl in Hl, Hf; lia).
    { intros i c' Hi Hg. specialize (Hold (S i) c' Hi Hg). by replace (x + 1 + Z.of_nat i) with (x + Z.of_nat (S i)) by lia. }
    split; [done|]. apply painted_cons. rewrite insert_id; [done|].
    specialize (Hold O c eq_refl Hc). by replace (x + Z.of_nat 0) with x in Hold by lia.
  - pose proof (run_length_pos c cur o old Heq) as Hpos.
    destruct (run_length_spec c (c :: cur) (o :: old)) as (Hn1 & Hn2 & Hsame & Hrun).
    set (n := run_length c (c :: cur) (o :: old)) in *. clearbody n.
    assert (Hln : len (take n (c :: cur)) = Z.of_nat n) by (rewrite len_take; unfold len; lia).
    destruct (emit_run_spec t0 p c x y (take n (c :: cur))) as [Hok1 Hp1]; try done; try lia.
    { rewrite Hln. unfold len in *. cbn [length] in *. lia. }
    { destruct n; [lia|done]. }
    { by apply Forall_take. }
    destruct (IH (emit_run p c x y (take n (c :: cur))) (x + Z.of_nat n) (drop n (c :: cur)) (drop n (o :: old)))
      as [Hok2 Hp2]; try done; try lia.
    { rewrite len_drop. unfold len in *. cbn [length] in *. lia. }
    { by apply Forall_drop. }
    { rewrite !length_drop. by rewrite Hl. }
    { rewrite length_drop. cbn [length] in *. lia. }
    { intros i c' Hi Hg. rewrite lookup_drop in Hi. rewrite (proj2 Hp1) by lia.
      specialize (Hold (n + i)%nat c' Hi Hg). by replace (x + Z.of_nat n + Z.of_nat i) with (x + Z.of_nat (n + i)) by lia. }
    split; [done|].
    match goal with |- painted ?a ?b _ _ _ =>
      assert (Hp : painted a b y x (take n (c :: cur) ++ drop n (c :: cur)))
        by (eapply painted_app; [exact Hp1|by rewrite Hln]) end.
    by rewrite take_drop in Hp.
Qed.

(** The terminal shows the known cells of the rows [old] from row [y] on. *)
Definition shows_rows (g : gmap (Z * Z) Glyph) (y : Z) (old : list (list Cell)) : Prop :=
  forall i row, old !! i = Some row -> shows g (y + Z.of_nat i) 0 row.

Lemma shows_good g y x cells :
  (forall i c, cells !! i = Some c -> g !! (y, x + Z.of_nat i) = Some (glyph_of c)) -> shows g y x cells.
Proof. intros Hg i c Hi _. by apply Hg. Qed.

Lemma painted_other_row g g' y x cells y' x' row :
  painted g g' y x cells -> y' <> y -> shows g y' x' row -> shows g' y' x' row.
Proof. intros [_ Hout] Hy Hs i c Hi Hg. rewrite Hout by lia. by apply Hs. Qed.

(** The dirty rows are those that are not equal as memory. *)
Lemma flush_rows_dirty same cur p y old p' dirty :
  flush_rows same p y cur old = (p', dirty) -> length old = length cur ->
  Forall (fun d => y <= d) dirty /\
  forall i, (i < length cur)%nat -> (y + Z.of_nat i ∈ dirty <-> same (y + Z.of_nat i) = false).
Proof.
  revert p y old p' dirty. induction cur as [|c cur IH]; intros p y old p' dirty Hfl Hl.
  { cbn in Hfl. injection Hfl as <- <-. split; [constructor|]. intros i Hi. simpl in Hi. lia. }
  destruct old as [|o old]; [done|]. cbn [flush_rows] in Hfl. injection Hl as Hl.
  assert (Hz : y + Z.of_nat 0 = y) by lia.
  assert (Hshift : forall i, y + Z.of_nat (S i) = y + 1 + Z.of_nat i) by lia.
  destruct (same y) eqn:Hs.
  - destruct (IH _ _ _ _ _ Hfl Hl) as [Hall Hd]. split; [by eapply Forall_impl; [exact Hall|cbn; lia]|].
    intros [|i] Hi; [|rewrite Hshift; apply Hd; simpl in Hi; lia]. rewrite Hz, Hs. split; [|done].
    intros Hin. rewrite Forall_forall in Hall. apply Hall in Hin. lia.
  - destruct (flush_rows same _ (y + 1) cur old) as [p1 dirty1] eqn:Hfr. injection Hfl as <- <-.
    destruct (IH _ _ _ _ _ Hfr Hl) as [Hall Hd].
    split; [constructor; [lia|by eapply Forall_impl; [exact Hall|cbn; lia]]|].
    intros [|i] Hi; [rewrite Hz, Hs; split; [done|]; intros _; left|].
    rewrite Hshift, elem_of_cons, <- (Hd i) by (simpl in Hi; lia). split; [intros [?|?]; [lia|done]|by right].
Qed.

Lemma shows_rows_cons g y o old :
  shows_rows g y (o :: old) <-> shows g y 0 o /\ shows_rows g (y + 1) old.
Proof.
  split.
  - intros Hg. split.
    + specialize (Hg O o eq_refl). by replace (y + Z.of_nat 0) with y in Hg by lia.
    + intros i row Hi. specialize (Hg (S i) row Hi). by replace (y + 1 + Z.of_nat i) with (y + Z.of_nat (S i)) by lia.
  - intros [H0 Hs] [|i] row Hi; cbn in Hi.
    + injection Hi as <-. by replace (y + Z.of_nat 0) with y by lia.
    + specialize (Hs i row Hi). by replace (y + Z.of_nat (S i)) with (y + 1 + Z.of_nat i) by lia.
Qed.

Lemma flush_rows_spec same cur t0 p y old w :
  pen_ok t0 p -> 0 <= y -> y + len cur <= t_h t0 -> 0 <= w <= t_w t0 ->
  t_h t0 < 2 ^ 31 -> t_w t0 < 2 ^ 31 ->
  Forall (fun row => len row = w /\ Forall good row) cur -> Forall (fun row => len row = w) old ->
  length old = length cur ->
  (forall i c o, cur !! i = Some c -> old !! i = Some o -> same (y + Z.of_nat i) = true -> c = o) ->
  shows_rows (t_grid (show t0 (pen_b p))) y old ->
  let p' := (flush_rows same p y cur old).1 in
  pen_ok t0 p' /\ shows_rows (t_grid (show t0 (pen_b p'))) y cur /\
  (forall y' x' row, y' < y -> shows (t_grid (show t0 (pen_b p))) y' x' row -> shows (t_grid (show t0 (pen_b p'))) y' x' row).
Proof.
  revert p y old. induction cur as [|c cur IH]; intros p y old Hok Hy Hh Hw Hmh Hmw Hcur Hold Hl Hsame Hshow.
  { cbn. split_and!; [done| |done]. intros i row Hi. by rewrite lookup_nil in Hi. }
  destruct old as [|o old]; [done|]. rewrite len_cons in Hh. len_pos. injection Hl as Hl.
  inversion Hcur as [|? ? [Hcw Hcg] Hcur']; subst. inversion Hold as [|? ? How Hold']; subst.
  apply shows_rows_cons in Hshow as [Hrow0 Hnext].
  assert (Hsame' : forall i c' o', cur !! i = Some c' -> old !! i = Some o' -> same (y + 1 + Z.of_nat i) = true -> c' = o').
  { intros i c' o' Hi Ho Hs. apply (Hsame (S i) c' o' Hi Ho). by replace (y + Z.of_nat (S i)) with (y + 1 + Z.of_nat i) by lia. }
  (* the rest of the rows, from a pen that has row [y] shown *)
  assert (Hrest : forall q, pen_ok t0 q -> shows_rows (t_grid (show t0 (pen_b q))) (y + 1) old ->
    shows (t_grid (show t0 (pen_b q))) y 0 c ->
    let p' := (flush_rows same q (y + 1) cur old).1 in
    pen_ok t0 p' /\ shows_rows (t_grid (show t0 (pen_b p'))) y (c :: cur) /\
    (forall y' x' row, y' < y + 1 -> shows (t_grid (show t0 (pen_b q))) y' x' row -> shows (t_grid (show t0 (pen_b p'))) y' x' row)).
  { intros q Hqok Hqold Hqrow. destruct (IH q (y + 1) old Hqok) as (Hok1 & Hsh & Hkeep); try done; try lia.
    split_and!; [done| |done]. apply shows_rows_cons. split; [apply Hkeep; [lia|done]|done]. }
  cbn [flush_rows]. destruct (same y) eqn:Hs.
  - assert (c = o) as <- by (apply (Hsame O c o eq_refl eq_refl); by replace (y + Z.of_nat 0) with y by lia).
    destruct (Hrest p Hok Hnext Hrow0) as (Hok1 & Hsh & Hkeep).
    split_and!; [done|done|intros; apply Hkeep; [lia|done]].
  - destruct (flush_row_spec (length c) t0 p y 0 c o Hok) as [Hokr Hpaint]; try done; try lia.
    { unfold len in *; lia. }
    destruct (Hrest (flush_row (length c) p y 0 c o) Hokr) as (Hok1 & Hsh & Hkeep).
    { intros i row Hi. eapply painted_other_row; [exact Hpaint|lia|by apply Hnext]. }
    { apply shows_good, Hpaint. }
    destruct (flush_rows same _ (y + 1) cur old) as [p1 dirty1]. cbn [fst] in *.
    split_and!; [done|done|]. intros y' x' row Hy' Hr. apply Hkeep; [lia|].
    eapply painted_other_row; [exact Hpaint|lia|done].
Qed.

(** ** The screen and its terminal together *)

Section Sync.
Context {W : Type} `{Writer W, !WriterLaws W}.

(** Writes that always succeed in full. *)
Definition reliable : Prop := forall (o : W) b, exists o', wr o b = (o', len b, false).

(** The terminal that has seen everything written so far. *)
Definition terminal (t0 : Term) (s : Screen W) : Term := show t0 (written (sc_out s)).

Definition fits (w h : Z) (t : Term) : Prop :=
  0 <= w <= t_w t /\ 0 <= h <= t_h t /\ t_w t < 2 ^ 31 /\ t_h t < 2 ^ 31.

Definition grids_wf (s : Screen W) : Prop :=
  len (sc_cur s) = sc_h s /\ length (sc_old s) = length (sc_cur s) /\
  Forall (fun row => len row = sc_w s /\ Forall good row) (sc_cur s) /\
  Forall (fun row => len row = sc_w s) (sc_old s).

(** What ties the screen to its terminal: the grid taken for written is what
    the terminal shows, wherever it holds a displayable cell. *)
Record Sync (t0 : Term) (s : Screen W) : Prop := mkSync {
  sync_ground : at_ground (terminal t0 s);
  sync_wf : grids_wf s;
  sync_fits : fits (sc_w s) (sc_h s) (terminal t0 s);
  sync_shows : shows_rows (t_grid (terminal t0 s)) 0 (sc_old s) }.

(** [bytes.Equal(rowBytes(...))]: equal rows, unless their padding differs. *)
Definition mem_equal (padding : Z -> bool) (s : Screen W) (y : Z) : bool :=
  bool_decide (sc_cur s !! Z.to_nat y = sc_old s !! Z.to_nat y) && negb (padding y).

Lemma wr_reliable (o : W) b :
  reliable -> exists o', wr o b = (o', len b, false) /\ written o' = written o ++ b.
Proof.
  intros Hr. destruct (Hr o b) as [o' Ho]. exists o'. split; [done|].
  rewrite (wr_prefix _ _ _ _ _ Ho). unfold len. by rewrite Nat2Z.id, firstn_all.
Qed.

Lemma copy_rows_length dirty old cur : length (copy_rows dirty old cur) = length old.
Proof.
  revert old. induction dirty as [|y dirty IH]; intros old; [done|]. cbn [copy_rows fold_left] in *.
  unfold copy_rows in IH. rewrite IH. destruct (cur !! Z.to_nat y); [apply length_insert|done].
Qed.

Lemma copy_rows_lookup dirty old cur i :
  Forall (fun d => 0 <= d) dirty -> length old = length cur ->
  copy_rows dirty old cur !! i = if bool_decide (Z.of_nat i ∈ dirty) then cur !! i else old !! i.
Proof.
  intros Hd. revert old. induction Hd as [|y dirty Hy _ IH]; intros old Hl; [done|].
  change (copy_rows (y :: dirty) old cur) with
    (copy_rows dirty (match cur !! Z.to_nat y with Some row => <[Z.to_nat y := row]> old | None => old end) cur).
  rewrite IH by (destruct (cur !! Z.to_nat y); by rewrite ?length_insert).
  destruct (decide (Z.of_nat i = y)) as [<-|Hne].
  - rewrite (bool_decide_eq_true_2 (_ ∈ _ :: _)) by constructor. rewrite Nat2Z.id.
    case_bool_decide; [done|]. destruct (cur !! i) as [row|] eqn:Hc.
    + apply list_lookup_insert_eq. rewrite Hl. by eapply lookup_lt_Some.
    + apply lookup_ge_None in Hc. apply lookup_ge_None. lia.
  - assert (Hiff : Z.of_nat i ∈ y :: dirty <-> Z.of_nat i ∈ dirty) by (rewrite elem_of_cons; naive_solver).
    rewrite (bool_decide_ext _ _ Hiff). case_bool_decide; [done|].
    destruct (cur !! Z.to_nat y); [|done]. apply list_lookup_insert_ne. lia.
Qed.

(** After a flush that reached the terminal the two grids are the same. *)
Lemma copy_rows_all padding s p dirty :
  flush_rows (mem_equal padding s) pen0 0 (sc_cur s) (sc_old s) = (p, dirty) ->
  length (sc_old s) = length (sc_cur s) -> copy_rows dirty (sc_old s) (sc_cur s) = sc_cur s.
Proof.
  intros Hfl Hl. destruct (flush_rows_dirty _ _ _ _ _ _ _ Hfl Hl) as [Hall Hd].
  apply list_eq. intros i. rewrite copy_rows_lookup by done. case_bool_decide as Hin; [done|].
  destruct (decide (i < length (sc_cur s))%nat) as [Hi|Hi].
  - specialize (Hd i Hi). rewrite Z.add_0_l in Hd. destruct (mem_equal padding s (Z.of_nat i)) eqn:Hm; [|naive_solver].
    apply andb_true_iff in Hm as [Hm _]. apply bool_decide_eq_true in Hm. by rewrite Nat2Z.id in Hm.
  - rewrite !(proj2 (lookup_ge_None _ _)) by lia. done.
Qed.

(** A flush brings the terminal to the current grid. *)
Lemma Flush_Sync t0 padding s :
  reliable -> Sync t0 s ->
  let s' := Flush (mem_equal padding s) s in
  Sync t0 s' /\ sc_cur s' = sc_cur s /\ sc_w s' = sc_w s /\ sc_h s' = sc_h s /\
  t_w (terminal t0 s') = t_w (terminal t0 s) /\ t_h (terminal t0 s') = t_h (terminal t0 s) /\
  shows_rows (t_grid (terminal t0 s')) 0 (sc_cur s).
Proof.
  intros Hr [Hg (Hlen & Hl & Hcur & Hold) ((Hw0 & Hw) & (Hh0 & Hh) & Hmw & Hmh) Hshow].
  destruct (flush_rows_spec (mem_equal padding s) (sc_cur s) (terminal t0 s) pen0 0 (sc_old s) (sc_w s))
    as (Hok & Hnew & _); try done; try lia.
  { intros i c o Hc Ho Hm. apply andb_true_iff in Hm as [Hm _]. apply bool_decide_eq_true in Hm.
    rewrite Z.add_0_l, Nat2Z.id, Hc, Ho in Hm. by injection Hm. }
  unfold Flush. destruct (flush_rows _ pen0 0 _ _) as [p dirty] eqn:Hfl. cbn [fst] in Hok, Hnew.
  destruct Hok as ((Hfw & Hfh & Hgr) & _).
  destruct (0 <? len (pen_b p)) eqn:Hn.
  - destruct (wr_reliable (sc_out s) (pen_b p) Hr) as (o' & Ho & Hwr). rewrite Ho, Z.eqb_refl. cbn [orb negb].
    rewrite (copy_rows_all padding s p dirty Hfl Hl).
    assert (Ht : terminal t0 (mkScr W (sc_w s) (sc_h s) (sc_cur s) (sc_cur s) o' false) = show (terminal t0 s) (pen_b p))
      by (unfold terminal; cbn; by rewrite Hwr, show_app).
    split_and!; try done; rewrite ?Ht; try done.
    split; rewrite ?Ht; try done.
    + split_and!; try done. cbn. by eapply Forall_impl; [exact Hcur|intros ? []].
    + cbn. unfold fits. rewrite Hfw, Hfh. lia.
  - assert (Hb : pen_b p = []) by (zbool; destruct (pen_b p); [done|len_lia]). rewrite Hb in Hnew.
    by split_and!.
Qed.

Lemma copy_into_spec {A} (P : A -> Prop) (row cells : list A) :
  Forall P row -> Forall P cells ->
  let row' := overwrite row 0 (take (length row) cells) in length row' = length row /\ Forall P row'.
Proof.
  intros Hrow Hc row'. unfold row', overwrite. rewrite take_0, app_nil_l, Nat.add_0_l.
  split; [rewrite length_app, length_drop, !length_take; lia|].
  apply Forall_app. split; [by apply Forall_take|by apply Forall_drop].
Qed.

Lemma Sync_cur t0 s cur :
  Sync t0 s -> length cur = length (sc_cur s) -> Forall (fun row => len row = sc_w s /\ Forall good row) cur ->
  Sync t0 (mkScr W (sc_w s) (sc_h s) (sc_old s) cur (sc_out s) (sc_failed s)).
Proof.
  intros [Hg (Hlen & Hl & _ & Hold) Hf Hs] Hlc Hc. split; try done.
  split_and!; cbn; try done; [unfold len in *; congruence|congruence].
Qed.

Lemma SetRow_Sync t0 s y cells : Sync t0 s -> Forall good cells -> Sync t0 (SetRow s y cells).
Proof.
  intros HS Hc. unfold SetRow. destruct (_ || _) eqn:Hb; [done|].
  apply Sync_cur; [done|by rewrite length_alter|].
  pose proof (sync_wf _ _ HS) as (_ & _ & Hcur & _).
  apply Forall_alter; [done|]. intros row Hrow [Hw Hg].
  assert (Hc' : Forall good (if sc_w s <? len cells then take (Z.to_nat (sc_w s)) cells else cells))
    by (case_match; [by apply Forall_take|done]).
  destruct (copy_into_spec good row _ Hg Hc') as [H1 H2]. split; [|done]. unfold len in *. by rewrite H1.
Qed.

Lemma Set_cell_Sync t0 s x y c : Sync t0 s -> good c -> Sync t0 (Set_cell s x y c).
Proof.
  intros HS Hc. unfold Set_cell. destruct (_ || _ || _ || _); [done|].
  apply Sync_cur; [done|by rewrite length_alter|].
  pose proof (sync_wf _ _ HS) as (_ & _ & Hcur & _).
  apply Forall_alter; [done|]. intros row Hrow [Hw Hg]. unfold len in *. rewrite length_insert.
  split; [done|]. by apply Forall_insert.
Qed.

Lemma blank_good : good blank.
Proof. unfold good, rgb_wf, is_u8. cbn. by split_and!; lia || done. Qed.

Lemma cell0_not_good : ~ good cell0.
Proof. intros (_ & Hc & _). cbn in Hc. lia. Qed.

Lemma clamp_size_bounds w h :
  let '(w', h') := clamp_size w h in
  1 <= w' <= MaxWidth /\ 1 <= h' <= MaxHeight /\ w' * h' <= MaxCells /\
  (1 <= w <= MaxWidth -> w' = w) /\ (1 <= h <= MaxHeight -> h' = h).
Proof.
  unfold clamp_size, MinWidth, MinHeight, MaxWidth, MaxHeight, MaxCells, MaxFrameWidth, MaxFrameHeight.
  cbv zeta. set (h1 := if h <? 1 then 1 else h). set (h2 := if _ <? h1 then _ else h1).
  assert (Hh : 1 <= h2 <= 300) by (subst h1 h2; repeat case_match; zbool; lia).
  set (w1 := if w <? 1 then 1 else w). set (w2 := if _ <? w1 then _ else w1).
  assert (Hw : 1 <= w2 <= 500) by (subst w1 w2; repeat case_match; zbool; lia).
  assert (Hq : 500 <= 150000 / h2) by (apply Z.div_le_lower_bound; lia).
  rewrite (proj2 (Z.ltb_ge _ _)) by lia. split_and!; try lia; try nia;
    intros; subst h1 h2 w1 w2; repeat case_match; zbool; lia.
Qed.

Lemma Resize_Sync t0 s w h :
  let '(w', h') := clamp_size w h in
  at_ground (terminal t0 s) -> fits w' h' (terminal t0 s) -> Sync t0 (Resize s w h).
Proof.
  pose proof (clamp_size_bounds w h) as Hb. unfold Resize.
  destruct (clamp_size w h) as [w' h']. destruct Hb as (Hw & Hh & _). intros Hg Hf. split; try done.
  - split_and!; cbn.
    + unfold len. rewrite length_replicate. lia.
    + by rewrite !length_replicate.
    + apply Forall_replicate. split; [unfold len; rewrite length_replicate; lia|].
      apply Forall_replicate, blank_good.
    + apply Forall_replicate. unfold len; rewrite length_replicate; lia.
  - intros i row Hi j c Hj Hgood. cbn in Hi. apply lookup_replicate in Hi as [-> _].
    apply lookup_replicate in Hj as [-> _]. by destruct (cell0_not_good Hgood).
Qed.

End Sync.
