(* ===== verification/Tty.v ===== *)
(** * The terminal sink (TTYSink of internal/runner/render.go)

    Frames, sanitised cell by cell, go to the diffing screen at a capped rate; a
    frame that comes too early waits for a timer.  The mutex makes every operation
    and the timer's callback one step, so a history is a sequence of steps; the
    callback may come at any moment, late ones included ([time.Timer.Stop] does not
    wait for a callback that has already started). *)

From S2P Require Import Prelude Abi Utf8 GoStrings Protocol Streams Render Screen.

Record TTYSink {W : Type} := mkTty {
  tt_scr : Screen W; tt_w : Z; tt_h : Z; tt_thr : throttle; tt_dirty : bool;
  tt_timer : option Z }.                                   (* when it is due *)
Arguments TTYSink : clear implicits.

Section Ops.
Context {W : Type} `{Writer W}.
Abbreviation T := (TTYSink W).

Definition NewTTYSinkWriter (w h maxFPS : Z) (out : W) : T :=
  mkTty W (NewScreenWithOutput w h out) w h (newThrottle maxFPS) false None.

Definition TTYSink_Healthy (s : T) : bool := Healthy (tt_scr s).

Definition sanitize_cell (c : Cell) : Cell := mkCell (sanitizeRune (cell_Ch c)) (Fg c) (Bg c) (Decor c).

(** The rows [y .. y+n-1] of the frame, sanitised, into the screen. *)
Fixpoint set_rows {E} (f : Frame) (scr : Screen W) (y : Z) (n : nat) : res E (Screen W) :=
  match n with
  | O => Ok scr
  | S n' =>
    let? src := slice (Cells f) (y * frame_W f) (y * frame_W f + frame_W f) in
    set_rows f (SetRow scr y (map sanitize_cell src)) (y + 1) n'
  end.

(** [padding]: the rows whose padding bytes differ at this flush. *)
Definition flush (padding : Z -> bool) (scr : Screen W) : Screen W := Flush (mem_equal padding scr) scr.

Definition TTYSink_Present {E} (padding : Z -> bool) (now : Z) (s : T) (f : Frame) : res E T :=
  if negb (validFrame f) then Ok s else
  let '(scr, w, h) :=
    if negb (frame_W f =? tt_w s) || negb (frame_H f =? tt_h s)
    then (Resize (tt_scr s) (frame_W f) (frame_H f), frame_W f, frame_H f)
    else (tt_scr s, tt_w s, tt_h s) in
  let? scr := set_rows f scr 0 (Z.to_nat (frame_H f)) in
  let '(thr, ok) := allow (tt_thr s) now in
  if (ok : bool) then Ok (mkTty W (flush padding scr) w h thr false None)
  else Ok (mkTty W scr w h thr true
             (match tt_timer s with
              | None => Some (now + remaining thr now)
              | Some due => Some due
              end)).

(** The function given to [time.AfterFunc]. *)
Definition TTYSink_fire (padding : Z -> bool) (now : Z) (s : T) : T :=
  if negb (tt_dirty s) then mkTty W (tt_scr s) (tt_w s) (tt_h s) (tt_thr s) false None
  else mkTty W (flush padding (tt_scr s)) (tt_w s) (tt_h s) (allow (tt_thr s) now).1 false None.

Definition TTYSink_Close (padding : Z -> bool) (s : T) : T :=
  if tt_dirty s then mkTty W (flush padding (tt_scr s)) (tt_w s) (tt_h s) (tt_thr s) false None
  else mkTty W (tt_scr s) (tt_w s) (tt_h s) (tt_thr s) false None.

(** Histories. *)
Inductive TtyOp :=
| OPresent (padding : Z -> bool) (now : Z) (f : Frame)
| OFire (padding : Z -> bool) (now : Z)
| OClose (padding : Z -> bool).

Definition tty_op {E} (s : T) (o : TtyOp) : res E T :=
  match o with
  | OPresent padding now f => TTYSink_Present padding now s f
  | OFire padding now => Ok (TTYSink_fire padding now s)
  | OClose padding => Ok (TTYSink_Close padding s)
  end.

Fixpoint tty_run {E} (s : T) (ops : list TtyOp) : res E T :=
  match ops with
  | [] => Ok s
  | o :: ops' => let? s' := tty_op s o in tty_run s' ops'
  end.

End Ops.

(** The last well-formed frame of a history. *)
Fixpoint last_frame_of (ops : list TtyOp) (acc : option Frame) : option Frame :=
  match ops with
  | [] => acc
  | OPresent _ _ f :: ops' => last_frame_of ops' (if validFrame f then Some f else acc)
  | _ :: ops' => last_frame_of ops' acc
  end.

(** A frame as the ABI delivers it (fields within their widths), no larger than
    the terminal. *)
Definition op_ok (t0 : Term) (o : TtyOp) : Prop :=
  match o with
  | OPresent _ _ f => Forall cell_wf (Cells f) /\ frame_W f <= t_w t0 /\ frame_H f <= t_h t0
  | _ => True
  end.

(** ** Lemmas *)

Section Proofs.
Context {W : Type} `{Writer W, !WriterLaws W}.
Abbreviation T := (TTYSink W).

Lemma sanitize_good c : cell_wf c -> good (sanitize_cell c).
Proof.
  intros (_ & Hf & Hb & _). destruct (sanitizeRune_safe (cell_Ch c)) as (Hv & Hd & Hlo).
  split_and!; cbn; try done. intros Hc. unfold dropRune in Hd.
  apply not_true_iff_false in Hd. apply Hd. clear Hd.
  destruct (Z.eq_dec (sanitizeRune (cell_Ch c)) 0x7f) as [->|]; [done|].
  rewrite (proj2 (Z.leb_le 0x80 _)), (proj2 (Z.leb_le _ 0x9f)) by lia. by repeat case_match; zbool; try lia.
Qed.

(** The rows a frame asks for. *)
Definition frame_row (f : Frame) (y : nat) : list Cell :=
  map sanitize_cell (take (Z.to_nat (frame_W f)) (drop (y * Z.to_nat (frame_W f)) (Cells f))).

Definition frame_rows (f : Frame) : list (list Cell) := map (frame_row f) (seq 0 (Z.to_nat (frame_H f))).

Lemma frame_row_slice {E} f y :
  validFrame f = true -> (Z.of_nat y < frame_H f) ->
  slice (E:=E) (Cells f) (Z.of_nat y * frame_W f) (Z.of_nat y * frame_W f + frame_W f)
    = Ok (take (Z.to_nat (frame_W f)) (drop (y * Z.to_nat (frame_W f)) (Cells f))) /\
  len (frame_row f y) = frame_W f.
Proof.
  intros Hv Hy. apply validFrame_spec in Hv as (Hw & Hh & Hl). split.
  - rewrite slice_ok by nia. do 3 f_equal; nia.
  - unfold frame_row, len. rewrite length_map, length_take, length_drop. unfold len in Hl. nia.
Qed.

Lemma SetRow_full (s : Screen W) y cells :
  (y < length (sc_cur s))%nat -> len (sc_cur s) = sc_h s -> len cells = sc_w s -> 1 <= sc_w s ->
  (forall row, sc_cur s !! y = Some row -> len row = sc_w s) ->
  SetRow s (Z.of_nat y) cells =
    mkScr W (sc_w s) (sc_h s) (sc_old s) (<[y := cells]> (sc_cur s)) (sc_out s) (sc_failed s).
Proof.
  intros Hy Hh Hc Hw Hrow. unfold SetRow.
  rewrite (proj2 (Z.ltb_ge _ _)), (proj2 (Z.leb_gt _ _)), (proj2 (Z.eqb_neq _ _)) by (unfold len in *; lia).
  cbn [orb]. rewrite (proj2 (Z.ltb_ge _ _)), Nat2Z.id by lia. f_equal.
  destruct (lookup_lt_is_Some_2 _ _ Hy) as [row Hr]. apply list_eq. intros i.
  destruct (decide (i = y)) as [->|Hne].
  - rewrite list_lookup_alter_eq, list_lookup_insert_eq, Hr by done. cbn. f_equal.
    specialize (Hrow row Hr). unfold overwrite, len in *. rewrite take_0, app_nil_l, take_ge by lia.
    rewrite drop_ge by lia. apply app_nil_r.
  - by rewrite list_lookup_alter_ne, list_lookup_insert_ne by done.
Qed.

(** All rows set: the current grid is the frame's, the rest of the screen as it was. *)
Lemma set_rows_spec {E} f n (scr : Screen W) y :
  validFrame f = true -> len (sc_cur scr) = sc_h scr -> sc_w scr = frame_W f -> sc_h scr = frame_H f ->
  Forall (fun row => len row = sc_w scr) (sc_cur scr) -> (y + n)%nat = Z.to_nat (frame_H f) ->
  set_rows (E:=E) f scr (Z.of_nat y) n =
    Ok (mkScr W (sc_w scr) (sc_h scr) (sc_old scr)
          (take y (sc_cur scr) ++ map (frame_row f) (seq y n)) (sc_out scr) (sc_failed scr)).
Proof.
  intros Hv. pose proof (proj1 (validFrame_spec f) Hv) as (HW & HH & _).
  revert scr y. induction n as [|n IH]; intros scr y Hh Hsw Hsh Hrows Hn.
  { cbn. rewrite app_nil_r, take_ge by (unfold len in *; lia). by destruct scr. }
  cbn [set_rows]. destruct (frame_row_slice (E:=E) f y Hv) as [-> Hlen]; [lia|]. cbn [rbind].
  change (map sanitize_cell (take _ _)) with (frame_row f y).
  rewrite SetRow_full; [|unfold len in *; lia|done|congruence|lia|].
  2: { intros row Hr. by eapply Forall_lookup_1 in Hrows; [|exact Hr]. }
  replace (Z.of_nat y + 1) with (Z.of_nat (S y)) by lia.
  rewrite IH; cbn [sc_cur sc_w sc_h sc_old sc_out sc_failed]; try done; try lia.
  - do 2 f_equal. cbn [seq map]. rewrite (take_S_r _ _ (frame_row f y)).
    + rewrite take_insert_ge by lia. by rewrite <- app_assoc.
    + apply list_lookup_insert_eq. unfold len in *. lia.
  - unfold len in *. by rewrite length_insert.
  - apply Forall_insert; [done|congruence].
Qed.

Lemma frame_row_good f y : Forall cell_wf (Cells f) -> Forall good (frame_row f y).
Proof.
  intros Hc. unfold frame_row. apply Forall_map. eapply Forall_impl; [by apply Forall_take, Forall_drop|].
  intros c ?. by apply sanitize_good.
Qed.

Lemma frame_rows_wf f :
  validFrame f = true -> Forall cell_wf (Cells f) ->
  Forall (fun row => len row = frame_W f /\ Forall good row) (frame_rows f) /\ len (frame_rows f) = frame_H f.
Proof.
  intros Hv Hc. pose proof (proj1 (validFrame_spec f) Hv) as (_ & HH & _). split.
  - apply Forall_map, Forall_forall. intros y Hy%elem_of_seq.
    split; [apply (frame_row_slice (E:=unit) f y Hv); lia|by apply frame_row_good].
  - unfold frame_rows, len. rewrite length_map, length_seq. lia.
Qed.

(** The terminal shows the frame: every cell of it, sanitised. *)
Definition shows_frame (t : Term) (f : Frame) : Prop :=
  forall x y, 0 <= x < frame_W f -> 0 <= y < frame_H f ->
  exists c, At (E:=unit) f x y = Ok c /\ t_grid t !! (y, x) = Some (glyph_of (sanitize_cell c)).

Lemma shows_frame_rows t f :
  validFrame f = true -> Forall cell_wf (Cells f) -> shows_rows (t_grid t) 0 (frame_rows f) -> shows_frame t f.
Proof.
  intros Hv Hc Hs x y Hx Hy. pose proof (proj1 (validFrame_spec f) Hv) as (HW & HH & Hl).
  destruct (index_no_panic (E:=unit) (Cells f) (y * frame_W f + x)) as (c & Hi & Hc'); [nia|].
  exists c. split; [done|].
  assert (Hrow : frame_rows f !! Z.to_nat y = Some (frame_row f (Z.to_nat y))).
  { unfold frame_rows. rewrite list_lookup_fmap, lookup_seq_lt by lia. done. }
  assert (Hcell : frame_row f (Z.to_nat y) !! Z.to_nat x = Some (sanitize_cell c)).
  { unfold frame_row. rewrite list_lookup_fmap, lookup_take_lt, lookup_drop by lia.
    replace (Z.to_nat y * Z.to_nat (frame_W f) + Z.to_nat x)%nat with (Z.to_nat (y * frame_W f + x)) by nia.
    by rewrite Hc'. }
  assert (Hg : good (sanitize_cell c)).
  { apply sanitize_good. by eapply Forall_lookup_1. }
  specialize (Hs _ _ Hrow _ _ Hcell Hg). rewrite !Z.add_0_l, !Z2Nat.id in Hs by lia. done.
Qed.

(** ** The invariant *)

(** [last]: the last frame presented. *)
Record tty_inv (t0 : Term) (s : T) (last : option Frame) : Prop := mkInv {
  inv_sync : Sync t0 (tt_scr s);
  inv_dims : t_w (terminal t0 (tt_scr s)) = t_w t0 /\ t_h (terminal t0 (tt_scr s)) = t_h t0;
  inv_size : (sc_w (tt_scr s), sc_h (tt_scr s)) = clamp_size (tt_w s) (tt_h s);
  inv_timer : tt_dirty s = true -> tt_timer s <> None;
  inv_last : forall f, last = Some f ->
    validFrame f = true /\ Forall cell_wf (Cells f) /\ sc_cur (tt_scr s) = frame_rows f /\
    (tt_dirty s = false -> shows_rows (t_grid (terminal t0 (tt_scr s))) 0 (sc_cur (tt_scr s))) }.

Lemma flush_inv t0 padding (s : T) last thr :
  reliable (W:=W) -> tty_inv t0 s last ->
  tty_inv t0 (mkTty W (flush padding (tt_scr s)) (tt_w s) (tt_h s) thr false None) last.
Proof.
  intros Hr [HS [Hd1 Hd2] Hsz _ Hl].
  destruct (Flush_Sync t0 padding (tt_scr s) Hr HS) as (HS' & Hc & Hw & Hh & Htw & Hth & Hshow).
  split; cbn [tt_scr tt_w tt_h tt_dirty tt_timer]; unfold flush; try done.
  - split; congruence.
  - by rewrite Hw, Hh.
  - intros f Hf. destruct (Hl f Hf) as (Hv & Hwf & Hcur & _). rewrite Hc. by split_and!.
Qed.

Lemma idle_inv t0 (s : T) last thr :
  tt_dirty s = false -> tty_inv t0 s last ->
  tty_inv t0 (mkTty W (tt_scr s) (tt_w s) (tt_h s) thr false None) last.
Proof. intros Hd [HS Hdim Hsz _ Hl]. rewrite Hd in Hl. by split. Qed.

Lemma clamp_valid f : validFrame f = true -> clamp_size (frame_W f) (frame_H f) = (frame_W f, frame_H f).
Proof.
  intros (HW & HH & _)%validFrame_spec. pose proof (clamp_size_bounds (frame_W f) (frame_H f)) as Hb.
  destruct (clamp_size _ _). destruct Hb as (_ & _ & _ & H1 & H2). by rewrite H1, H2.
Qed.

(** The screen a frame is painted on has the frame's size. *)
Lemma resized_inv t0 (s : T) last f :
  tty_inv t0 s last -> validFrame f = true -> frame_W f <= t_w t0 -> frame_H f <= t_h t0 ->
  t_w t0 < 2 ^ 31 -> t_h t0 < 2 ^ 31 ->
  let '(scr, w, h) :=
    if negb (frame_W f =? tt_w s) || negb (frame_H f =? tt_h s)
    then (Resize (tt_scr s) (frame_W f) (frame_H f), frame_W f, frame_H f)
    else (tt_scr s, tt_w s, tt_h s) in
  Sync t0 scr /\ terminal t0 scr = terminal t0 (tt_scr s) /\
  sc_w scr = frame_W f /\ sc_h scr = frame_H f /\ w = frame_W f /\ h = frame_H f.
Proof.
  intros [HS [Hd1 Hd2] Hsz _ _] Hv Hw Hh Hmw Hmh. pose proof (clamp_valid f Hv) as Hcl.
  pose proof (proj1 (validFrame_spec f) Hv) as (HW & HH & _).
  destruct (_ || _) eqn:Hdiff.
  - pose proof (Resize_Sync t0 (tt_scr s) (frame_W f) (frame_H f)) as HR. rewrite Hcl in HR.
    split_and!; try done.
    + apply HR; [apply HS|]. unfold fits. rewrite Hd1, Hd2. lia.
    + unfold terminal, Resize. by rewrite Hcl.
    + unfold Resize. by rewrite Hcl.
  - apply orb_false_iff in Hdiff as [H1 H2]. apply negb_false_iff, Z.eqb_eq in H1, H2.
    rewrite <- H1, <- H2, Hcl in Hsz. injection Hsz as Hsz1 Hsz2. by split_and!.
Qed.

Lemma Present_inv {E} t0 padding now (s : T) last f :
  reliable (W:=W) -> t_w t0 < 2 ^ 31 -> t_h t0 < 2 ^ 31 ->
  tty_inv t0 s last -> op_ok t0 (OPresent padding now f) ->
  exists s', TTYSink_Present (E:=E) padding now s f = Ok s' /\
    tty_inv t0 s' (if validFrame f then Some f else last).
Proof.
  intros Hr Hmw Hmh Hinv (Hwf & Hw & Hh). unfold TTYSink_Present.
  destruct (validFrame f) eqn:Hv; cbn [negb]; [|by eauto].
  pose proof (resized_inv t0 s last f Hinv Hv Hw Hh Hmw Hmh) as Hrs.
  destruct (if negb _ || negb _ then _ else _) as [[scr w] h].
  destruct Hrs as (HS & Hterm & Hsw & Hsh & -> & ->).
  pose proof (proj1 (validFrame_spec f) Hv) as (HW & HH & _).
  destruct (sync_wf _ _ HS) as (Hlen & Hl & Hcur & Hold).
  change 0 with (Z.of_nat 0). rewrite set_rows_spec; try done; [|by eapply Forall_impl; [exact Hcur|intros ? []]].
  cbn [rbind take app]. change (map (frame_row f) (seq 0 _)) with (frame_rows f).
  destruct (frame_rows_wf f Hv Hwf) as [Hrows Hrl].
  assert (HS' : Sync t0 (mkScr W (sc_w scr) (sc_h scr) (sc_old scr) (frame_rows f) (sc_out scr) (sc_failed scr))).
  { apply Sync_cur; [done|unfold len in *; lia|by rewrite Hsw]. }
  destruct (allow (tt_thr s) now) as [thr ok].
  set (scr' := mkScr W _ _ _ _ _ _) in *.
  assert (Hwait : forall due, tty_inv t0 (mkTty W scr' (frame_W f) (frame_H f) thr true (Some due)) (Some f)).
  { intros due. split; cbn [tt_scr tt_w tt_h tt_dirty tt_timer]; try done.
    - change (terminal t0 scr') with (terminal t0 scr). rewrite Hterm. apply Hinv.
    - rewrite (clamp_valid f Hv). cbn. by rewrite Hsw, Hsh.
    - intros ? [= <-]. by split_and!. }
  destruct ok.
  - eexists. split; [done|]. apply (flush_inv t0 padding _ _ thr Hr (Hwait 0)).
  - eexists. split; [done|]. destruct (tt_timer s); apply Hwait.
Qed.

Lemma op_inv {E} t0 o (s : T) last :
  reliable (W:=W) -> t_w t0 < 2 ^ 31 -> t_h t0 < 2 ^ 31 -> tty_inv t0 s last -> op_ok t0 o ->
  exists s', tty_op (E:=E) s o = Ok s' /\ tty_inv t0 s' (last_frame_of [o] last).
Proof.
  intros Hr Hmw Hmh Hinv Ho. destruct o as [padding now f|padding now|padding]; cbn [tty_op last_frame_of].
  - by apply Present_inv.
  - eexists. split; [done|]. unfold TTYSink_fire.
    destruct (tt_dirty s) eqn:Hd; cbn [negb]; [by apply flush_inv|by apply idle_inv].
  - eexists. split; [done|]. unfold TTYSink_Close.
    destruct (tt_dirty s) eqn:Hd; [by apply flush_inv|by apply idle_inv].
Qed.

Lemma last_frame_app o ops last : last_frame_of (o :: ops) last = last_frame_of ops (last_frame_of [o] last).
Proof. by destruct o. Qed.

Lemma run_inv {E} t0 ops (s : T) last :
  reliable (W:=W) -> t_w t0 < 2 ^ 31 -> t_h t0 < 2 ^ 31 -> tty_inv t0 s last -> Forall (op_ok t0) ops ->
  exists s', tty_run (E:=E) s ops = Ok s' /\ tty_inv t0 s' (last_frame_of ops last).
Proof.
  intros Hr Hmw Hmh Hinv Hops. revert s last Hinv.
  induction Hops as [|o ops Ho _ IH]; intros s last Hinv; [by eexists|].
  cbn [tty_run]. destruct (op_inv (E:=E) t0 o s last Hr Hmw Hmh Hinv Ho) as (s1 & -> & Hinv1).
  cbn [rbind]. rewrite last_frame_app. by apply IH.
Qed.

Lemma new_inv t0 w h maxFPS (out : W) :
  written out = [] -> at_ground t0 -> (let '(w', h') := clamp_size w h in fits w' h' t0) ->
  tty_inv t0 (NewTTYSinkWriter w h maxFPS out) None.
Proof.
  intros Hout Hg Hf.
  assert (Ht : terminal t0 (NewScreenWithOutput w h out) = t0).
  { unfold terminal, NewScreenWithOutput, Resize. destruct (clamp_size w h). cbn. by rewrite Hout. }
  split; cbn [tt_scr NewTTYSinkWriter tt_w tt_h tt_dirty tt_timer]; try done.
  - pose proof (Resize_Sync t0 (mkScr W 0 0 [] [] out false) w h) as HR.
    destruct (clamp_size w h). unfold terminal in HR. cbn in HR. rewrite Hout in HR. by apply HR.
  - by rewrite Ht.
Qed.

(** Nothing is written once the sink is closed. *)
Lemma closed_quiet {E} (s : T) fires :
  tt_dirty s = false -> Forall (fun o => match o with OPresent _ _ _ => False | _ => True end) fires ->
  exists s', tty_run (E:=E) s fires = Ok s' /\ tt_scr s' = tt_scr s.
Proof.
  intros Hd Hf. revert s Hd. induction Hf as [|o fires Ho _ IH]; intros s Hd; [by eexists|].
  cbn [tty_run]. destruct o as [| |]; [done| |]; cbn [tty_op rbind];
    unfold TTYSink_fire, TTYSink_Close; rewrite Hd; cbn [negb]; by apply (IH (mkTty W _ _ _ _ _ _)).
Qed.

End Proofs.

(** ** Theorems *)

(** C3 (the terminal shows the last frame): for a terminal that starts in its ground
    state, receives all that is written through a writer that reports no error (after
    a failed write stale cells may stay, [failed_write_not_healed] below), is no
    smaller than any frame and takes each glyph as one cell: whatever such frames a
    guest presents (any runes, any number, at any times), however the repaints are
    throttled, and whenever the timer's callbacks
    run, early or late: no step panics; the bytes written are sequences the
    terminal understands, so nothing in a cell reaches it as a control; while
    a frame is held back a timer is armed to paint it; when none is held back the
    terminal shows every cell of the last well-formed frame with its glyph,
    colours and decoration; and [Close] always leaves that frame shown, after
    which a late callback writes nothing. *)
Theorem tty_shows_last {W E} `{WriterLaws W} t0 w h maxFPS (out : W) ops padding fires :
  reliable (W:=W) -> written out = [] -> at_ground t0 -> t_w t0 < 2 ^ 31 -> t_h t0 < 2 ^ 31 ->
  (let '(w', h') := clamp_size w h in fits w' h' t0) ->
  Forall (op_ok t0) ops ->
  Forall (fun o => match o with OPresent _ _ _ => False | _ => True end) fires ->
  exists s closed late,
    tty_run (E:=E) (NewTTYSinkWriter w h maxFPS out) ops = Ok s /\
    t_confused (terminal t0 (tt_scr s)) = false /\
    (tt_dirty s = true -> tt_timer s <> None) /\
    (forall f, last_frame_of ops None = Some f -> tt_dirty s = false -> shows_frame (terminal t0 (tt_scr s)) f) /\
    tty_run (E:=E) s [OClose padding] = Ok closed /\
    (forall f, last_frame_of ops None = Some f -> shows_frame (terminal t0 (tt_scr closed)) f) /\
    tty_run (E:=E) closed fires = Ok late /\ tt_scr late = tt_scr closed.
Proof.
  intros Hr Hout Hg Hmw Hmh Hf Hops Hfires.
  destruct (run_inv (E:=E) t0 ops _ None Hr Hmw Hmh (new_inv t0 w h maxFPS out Hout Hg Hf) Hops) as (s & Hs & Hinv).
  destruct (op_inv (E:=E) t0 (OClose padding) s _ Hr Hmw Hmh Hinv I) as (closed & Hcl & Hinv').
  assert (Hd : tt_dirty closed = false).
  { injection Hcl as <-. unfold TTYSink_Close. by destruct (tt_dirty s). }
  destruct (closed_quiet (E:=E) closed fires Hd Hfires) as (late & Hl & Hscr).
  exists s, closed, late. cbn [tty_run]. rewrite Hcl. cbn [last_frame_of] in Hinv'.
  destruct Hinv as [HS _ _ Ht Hlast], Hinv' as [_ _ _ _ Hlast'].
  split_and!; try done.
  - apply HS.
  - intros f Hlf Hdirty. destruct (Hlast f Hlf) as (Hv & Hwf & Hc & Hsh).
    apply shows_frame_rows; [done|done|]. rewrite <- Hc. by apply Hsh.
  - intros f Hlf. destruct (Hlast' f Hlf) as (Hv & Hwf & Hc & Hsh).
    apply shows_frame_rows; [done|done|]. rewrite <- Hc. by apply Hsh.
Qed.

(** A small terminal, and frames of two cells. *)
Definition small_term : Term := mkTerm 4 2 Ground ∅ None None false.
Definition two_cells (a b : Z) : Frame := mkFrame 2 1 false [mkCell a rgb0 rgb0 0; mkCell b (mkRGB 255 0 0) rgb0 1].
Definition no_padding : Z -> bool := fun _ => false.

(** Two frames within a 30 fps interval, the second with an escape character and a
    wide glyph; it is painted by the timer. *)
Definition sample_ops : list TtyOp :=
  [OPresent no_padding 0 (two_cells 65 66); OPresent no_padding 5 (two_cells 27 0x4E2D); OFire no_padding 33333333].

Lemma sample_ops_ok : Forall (op_ok small_term) sample_ops.
Proof.
  unfold sample_ops, op_ok, cell_wf, rgb_wf, is_i32, is_u8.
  repeat constructor; cbn; lia.
Qed.

Lemma tty_shows_last_witness :
  (exists s, tty_run (E:=unit) (NewTTYSinkWriter 2 1 30 (mkSink [])) sample_ops = Ok s /\
    t_grid (terminal small_term (tt_scr s)) !! (0, 0) = Some (mkGlyph 32 (mkRGB 200 200 200) (mkRGB 25 23 29) false false false) /\
    t_grid (terminal small_term (tt_scr s)) !! (0, 1) = Some (mkGlyph 0x4E2D (mkRGB 255 0 0) (mkRGB 25 23 29) true false false)) /\
  exists s closed late : TTYSink sink,
    tty_run (E:=unit) (NewTTYSinkWriter 2 1 30 (mkSink [])) sample_ops = Ok s /\
    tty_run (E:=unit) s [OClose no_padding] = Ok closed /\
    shows_frame (terminal small_term (tt_scr closed)) (two_cells 27 0x4E2D) /\
    tty_run (E:=unit) closed [OFire no_padding 40000000] = Ok late /\ tt_scr late = tt_scr closed.
Proof.
  split; [eexists; split_and!; vm_compute; reflexivity|].
  destruct (tty_shows_last (E:=unit) small_term 2 1 30 (mkSink []) sample_ops no_padding [OFire no_padding 40000000])
    as (s & closed & late & H1 & _ & _ & _ & H2 & H3 & H4 & H5).
  - intros o b. by eexists.
  - reflexivity.
  - by split.
  - reflexivity.
  - reflexivity.
  - by vm_compute.
  - apply sample_ops_ok.
  - by repeat constructor.
  - exists s, closed, late. split_and!; try done. by apply H3.
Defined.

(** A connection whose second write reports a failure after the bytes were
    delivered. *)
Record flaky := mkFlaky { fl_bytes : bytes; fl_writes : Z }.
#[export] Instance flaky_writer : Writer flaky := {
  wr s p := (mkFlaky (fl_bytes s ++ p) (fl_writes s + 1), len p, fl_writes s =? 1); written := fl_bytes }.
#[export] Instance flaky_laws : WriterLaws flaky.
Proof.
  split; intros s p s' n e [= <- <- <-]; [len_lia|]. cbn. f_equal. rewrite take_ge; [done|unfold len; lia].
Qed.

Definition flaky_ops : list TtyOp :=
  [OPresent no_padding 0 (two_cells 65 66); OPresent no_padding 0 (two_cells 67 66); OPresent no_padding 0 (two_cells 65 66)].

(** (a failed write is not always healed): the comments of [Screen.failed] and
    [Healthy] say that a failed write forces a repaint on the next flush.  Only
    cells that differ from the grid last written successfully are repainted: when
    a write that failed did reach the terminal (in part), and the next frame goes
    back to that grid, nothing is written, now or however often the frame is
    presented again; the terminal keeps showing the frame before it and the sink
    stays unhealthy. *)
Theorem failed_write_not_healed :
  exists s, tty_run (E:=unit) (NewTTYSinkWriter 2 1 0 (mkFlaky [] 0)) flaky_ops = Ok s /\
    last_frame_of flaky_ops None = Some (two_cells 65 66) /\
    TTYSink_Healthy s = false /\
    g_ch <$> t_grid (terminal small_term (tt_scr s)) !! (0, 0) = Some 67 /\
    forall n, tty_run (E:=unit) s (replicate n (OPresent no_padding 0 (two_cells 65 66))) = Ok s.
Proof.
  eexists. split; [vm_compute; reflexivity|]. split_and!; [vm_compute; reflexivity..|].
  intros n. induction n as [|n IH]; [done|]. cbn [replicate tty_run].
  match goal with |- rbind ?r _ = _ => assert (r = Ok _) as -> by (vm_compute; reflexivity) end. exact IH.
Qed.
