(* ===== verification/Keyboard.v ===== *)
(** * Keyboard input (internal/terminal/keyboard)

    The bytes a viewer's terminal sends, read in chunks, become key and mouse
    events.  A chunk that a sequence waits for may come too late
    ([continuationTimeout]); whether it does is part of the input. *)

From S2P Require Import Prelude Utf8 GoStrings Streams.

Module keyboard.

(** ** Data *)

Inductive EventType :=
| KeyRune | KeyEnter | KeyBackspace | KeyCtrlC | KeyTab | KeyEscape
| KeyArrowUp | KeyArrowDown | KeyArrowRight | KeyArrowLeft
| KeyHome | KeyEnd | KeyPageUp | KeyPageDown | KeyDelete
| KeyMouseWheelUp | KeyMouseWheelDown | KeyMouseLeftDown | KeyMouseLeftDrag | KeyMouseLeftUp
| KeyUnknown.

#[export] Instance EventType_eq_dec : EqDecision EventType.
Proof. solve_decision. Defined.

Record Event := mkEvent {
  Type_ : EventType; Ch : Z; Shift : bool; Ctrl : bool; Alt : bool; Cmd : bool;
  Mouse : bool; MouseX : Z; MouseY : Z }.

(** [Event{Type: t}] *)
Definition event (t : EventType) : Event := mkEvent t 0 false false false false false 0 0.

Definition unknown : Event := event KeyUnknown.
Definition rune_event (r : Z) : Event := mkEvent KeyRune r false false false false false 0 0.

(** One value of the [chunks] channel.  The reader forwards only reads of at least
    one byte.  [late]: it is not there when [continuationTimeout] is over. *)
Record Chunk := mkChunk { late : bool; c_head : Z; c_tail : bytes }.

(** The goroutine that forwards reads: empty reads are dropped. *)
Fixpoint forward (reads : list (bool * bytes)) : list Chunk :=
  match reads with
  | [] => []
  | (l, b :: p) :: reads' => mkChunk l b p :: forward reads'
  | (_, []) :: reads' => forward reads'
  end.

(** What is left of the input: the current chunk and the chunks to come, after
    which the channel is closed. *)
Record byteStream := mkStream { cur : bytes; chunks : list Chunk }.

(** ** Operations *)

Definition next (s : byteStream) : option (Z * byteStream) :=
  match cur s with
  | b :: p => Some (b, mkStream p (chunks s))
  | [] =>
    match chunks s with
    | [] => None
    | c :: cs => Some (c_head c, mkStream (c_tail c) cs)
    end
  end.

Definition continuation (s : byteStream) : option (Z * byteStream) :=
  match cur s with
  | b :: p => Some (b, mkStream p (chunks s))
  | [] =>
    match chunks s with
    | [] => None
    | c :: cs => if late c then None else Some (c_head c, mkStream (c_tail c) cs)
    end
  end.

(** [parseMouse]: the loop over the parameters. *)
Fixpoint mouse_values (params : bytes) (values : list Z) (index : nat) (digits : Z) : option (list Z * nat * Z) :=
  match params with
  | [] => Some (values, index, digits)
  | b :: params' =>
    if (b =? 59) && (0 <? digits) && (index <? 2)%nat then mouse_values params' values (S index) 0
    else if (b <? 48) || (57 <? b) || (6 <=? digits) then None
    else mouse_values params' (alter (fun v => v * 10 + (b - 48)) index values) index (digits + 1)
  end.

Definition has (button bit : Z) : bool := negb (Z.land button bit =? 0).

Definition mouse_type (button final : Z) : EventType :=
  if has button 64 then
    if negb (final =? 77) then KeyUnknown
    else if Z.land button 3 =? 0 then KeyMouseWheelUp
    else if Z.land button 3 =? 1 then KeyMouseWheelDown
    else KeyUnknown
  else if has button 3 then KeyUnknown
  else if final =? 109 then KeyMouseLeftUp
  else if has button 32 then KeyMouseLeftDrag
  else KeyMouseLeftDown.

Definition parseMouse (params : bytes) (final : Z) : Event :=
  if negb (final =? 77) && negb (final =? 109) then unknown else
  match mouse_values params [0; 0; 0] 0 0 with
  | Some ([button; x; y], index, digits) =>
    if negb (index =? 2)%nat || (digits =? 0) || (x <? 1) || (y <? 1) then unknown else
    match mouse_type button final with
    | KeyUnknown => unknown
    | t => mkEvent t 0 (has button 4) (has button 16) (has button 8) false true (x - 1) (y - 1)
    end
  | _ => unknown
  end.

Definition maxParams : nat := 64.

(** The event of a whole CSI sequence: the parameters kept and the final byte. *)
Definition csi_event (params : bytes) (b : Z) : Event :=
  if (length params =? maxParams)%nat then unknown else
  match params with
  | 60 :: mouse => parseMouse mouse b
  | [] =>
    if b =? 65 then event KeyArrowUp
    else if b =? 66 then event KeyArrowDown
    else if b =? 67 then event KeyArrowRight
    else if b =? 68 then event KeyArrowLeft
    else if b =? 72 then event KeyHome
    else if b =? 70 then event KeyEnd
    else unknown
  | [p] =>
    if b =? 126 then
      if p =? 51 then event KeyDelete
      else if p =? 53 then event KeyPageUp
      else if p =? 54 then event KeyPageDown
      else unknown
    else unknown
  | _ => unknown
  end.

Definition is_final (b : Z) : bool := (0x40 <=? b) && (b <=? 0x7e).

(** [readCSI(s.continuation)].  Every round takes a byte of the stream. *)
Fixpoint readCSI (fuel : nat) (params : bytes) (s : byteStream) : Event * byteStream :=
  match fuel with
  | O => (unknown, s)
  | S fuel' =>
    match continuation s with
    | None => (unknown, s)
    | Some (b, s') =>
      if is_final b then (csi_event params b, s')
      else readCSI fuel' (if (length params <? maxParams)%nat then params ++ [b] else params) s'
    end
  end.

Definition UTFMax : nat := 4.

(** The loop that completes a rune; [None] when the input pauses or ends. *)
Fixpoint complete_rune (k : nat) (raw : bytes) (s : byteStream) : option bytes * byteStream :=
  match k with
  | O => (Some raw, s)
  | S k' =>
    if full_rune raw then (Some raw, s) else
    match continuation s with
    | None => (None, s)
    | Some (b, s') => complete_rune k' (raw ++ [b]) s'
    end
  end.

Definition remaining (s : byteStream) : nat :=
  length (cur s) + sum_list (map (fun c => S (length (c_tail c))) (chunks s)).

Definition parse (s : byteStream) (b : Z) : Event * byteStream :=
  if b =? 3 then (mkEvent KeyCtrlC 0 false true false false false 0 0, s)
  else if b =? 9 then (event KeyTab, s)
  else if (b =? 10) || (b =? 13) then (event KeyEnter, s)
  else if b =? 127 then (event KeyBackspace, s)
  else if b =? 27 then
    match continuation s with
    | None => (event KeyEscape, s)
    | Some (b1, s') => if negb (b1 =? 91) then (unknown, s') else readCSI (S (remaining s')) [] s'
    end
  else if b <? 0x80 then (rune_event b, s)
  else
    match complete_rune (UTFMax - 1) [b] s with
    | (None, s') => (unknown, s')
    | (Some raw, s') =>
      let '(ch, size) := decode_rune raw in
      (rune_event ch, if (size <? length raw)%nat then mkStream (drop size raw ++ cur s') (chunks s') else s')
    end.

(** The loop of [ListenReader]: the events sent until the input ends. *)
Fixpoint listen (fuel : nat) (s : byteStream) : list Event :=
  match fuel with
  | O => []
  | S fuel' =>
    match next s with
    | None => []
    | Some (b, s') =>
      let '(e, s'') := parse s' b in
      match Type_ e with
      | KeyUnknown => listen fuel' s''
      | _ => e :: listen fuel' s''
      end
    end
  end.

Definition ListenReader (reads : list (bool * bytes)) : list Event :=
  let s := mkStream [] (forward reads) in listen (S (remaining s)) s.

(** ** What the parser can see of the input

    Within a sequence only the bytes that come before the next late chunk matter:
    two streams are equivalent when those and the chunks after them agree. *)

Fixpoint avail_chunks (cs : list Chunk) : bytes * list Chunk :=
  match cs with
  | [] => ([], [])
  | c :: cs' =>
    if late c then ([], cs)
    else let '(p, rest) := avail_chunks cs' in (c_head c :: c_tail c ++ p, rest)
  end.

Definition view (s : byteStream) : bytes * list Chunk :=
  let '(p, rest) := avail_chunks (chunks s) in (cur s ++ p, rest).

Definition stream_equiv (s t : byteStream) : Prop := view s = view t.
#[local] Infix "≈" := stream_equiv (at level 70).

#[export] Instance stream_equiv_equivalence : Equivalence stream_equiv.
Proof. split; unfold stream_equiv; [done|by intros ??|intros ???; congruence]. Qed.

Definition pull_equiv (x y : option (Z * byteStream)) : Prop :=
  match x, y with
  | None, None => True
  | Some (b, s), Some (c, t) => b = c /\ s ≈ t
  | _, _ => False
  end.

Lemma continuation_view s :
  match view s with
  | ([], _) => continuation s = None
  | (b :: p, rest) => exists s', continuation s = Some (b, s') /\ view s' = (p, rest)
  end.
Proof.
  destruct s as [[|b p] cs]; unfold view, continuation; cbn [cur chunks].
  - destruct cs as [|c cs]; [done|]. cbn [avail_chunks]. destruct (late c) eqn:Hl; [done|].
    destruct (avail_chunks cs) as [q rest] eqn:Hc. cbn. eexists. split; [done|]. cbn. by rewrite Hc.
  - destruct (avail_chunks cs) as [q rest] eqn:Hc. cbn. eexists. split; [done|]. cbn. by rewrite Hc.
Qed.

#[export] Instance continuation_proper : Proper (stream_equiv ==> pull_equiv) continuation.
Proof.
  intros s t Hst. pose proof (continuation_view s) as Hs. pose proof (continuation_view t) as Ht.
  rewrite <- Hst in Ht. destruct (view s) as [[|b p] rest].
  - by rewrite Hs, Ht.
  - destruct Hs as (s' & -> & Hs), Ht as (t' & -> & Ht). cbn. split; [done|]. unfold stream_equiv. congruence.
Qed.

Lemma view_chunks s : view s = ([], chunks s) -> cur s = [] .
Proof. unfold view. destruct (avail_chunks _). intros [= H _]. by apply app_nil in H as [-> _]. Qed.

(** [next] goes past a pause: it sees the whole input, pause or not. *)
#[export] Instance next_proper : Proper (stream_equiv ==> pull_equiv) next.
Proof.
  intros s t Hst. pose proof (continuation_proper s t Hst) as Hc.
  assert (Hn : forall u, continuation u <> None -> next u = continuation u).
  { intros [[|b p] cs]; [|done]. cbn. destruct cs as [|c cs]; [done|]. by destruct (late c). }
  destruct (continuation s) as [x|] eqn:Es.
  - destruct (continuation t) as [y|] eqn:Et; [|by destruct x].
    rewrite (Hn s), (Hn t) by congruence. by rewrite Es, Et.
  - destruct (continuation t) as [[? ?]|] eqn:Et; [done|].
    assert (Hnone : forall u, continuation u = None -> cur u = [] /\ view u = ([], chunks u)).
    { intros [[|b p] cs]; [|done]. cbn. intros Hu. split; [done|]. unfold view. cbn.
      destruct cs as [|c cs]; [done|]. cbn. by destruct (late c). }
    destruct (Hnone s Es) as [Hs1 Hs2], (Hnone t Et) as [Ht1 Ht2].
    assert (Heq : chunks s = chunks t) by (unfold stream_equiv in Hst; congruence).
    unfold next. rewrite Hs1, Ht1, Heq. destruct (chunks t); [done|]. cbn. by split.
Qed.

Lemma remaining_view s : remaining s = (length (view s).1 + sum_list (map (fun c => S (length (c_tail c))) (view s).2))%nat.
Proof.
  unfold remaining, view.
  assert (H : forall cs, sum_list (map (fun c => S (length (c_tail c))) cs)
    = (length (avail_chunks cs).1 + sum_list (map (fun c => S (length (c_tail c))) (avail_chunks cs).2))%nat).
  { induction cs as [|c cs IH]; [done|]. cbn [avail_chunks]. destruct (late c); [done|].
    destruct (avail_chunks cs) as [q rest]. cbn in *. rewrite IH, length_app. lia. }
  rewrite H. destruct (avail_chunks (chunks s)) as [q rest]. cbn. rewrite length_app. lia.
Qed.

#[export] Instance remaining_proper : Proper (stream_equiv ==> eq) remaining.
Proof. intros s t Hst. by rewrite !remaining_view, Hst. Qed.

Definition result_equiv {A} (x y : A * byteStream) : Prop := x.1 = y.1 /\ x.2 ≈ y.2.

(** Case analysis on equivalent pulls. *)
Ltac pull_cases s t Hst :=
  let H := fresh in pose proof (continuation_proper s t Hst) as H;
  destruct (continuation s) as [[? ?]|], (continuation t) as [[? ?]|]; cbn in H; try done;
  destruct H as [<- ?].

Lemma readCSI_equiv fuel params s t : s ≈ t -> result_equiv (readCSI fuel params s) (readCSI fuel params t).
Proof.
  revert params s t. induction fuel as [|fuel IH]; intros params s t Hst; [done|]. cbn [readCSI].
  pull_cases s t Hst. destruct (is_final _); [done|]. by apply IH.
Qed.

Lemma complete_rune_equiv k raw s t : s ≈ t -> result_equiv (complete_rune k raw s) (complete_rune k raw t).
Proof.
  revert raw s t. induction k as [|k IH]; intros raw s t Hst; [done|]. cbn [complete_rune].
  destruct (full_rune raw); [done|]. pull_cases s t Hst. by apply IH.
Qed.

Lemma push_equiv p s t : s ≈ t -> mkStream (p ++ cur s) (chunks s) ≈ mkStream (p ++ cur t) (chunks t).
Proof.
  unfold stream_equiv, view. cbn [cur chunks].
  destruct (avail_chunks (chunks s)), (avail_chunks (chunks t)). rewrite <- !app_assoc. by intros [= -> ->].
Qed.

Lemma parse_equiv s t b : s ≈ t -> result_equiv (parse s b) (parse t b).
Proof.
  intros Hst. unfold parse. repeat (case_match; [done|]).
  case_match.
  - pull_cases s t Hst. case_match; [done|]. match goal with H : _ ≈ ?t |- context [remaining ?t] => rewrite <- (remaining_proper _ _ H) end.
    by apply readCSI_equiv.
  - case_match; [done|].
    pose proof (complete_rune_equiv (UTFMax - 1) [b] s t Hst) as [He Hs].
    destruct (complete_rune _ _ s) as [[raw|] s'], (complete_rune _ _ t) as [[raw'|] t']; cbn in He, Hs; try done.
    injection He as <-. destruct (decode_rune raw) as [ch size]. split; [done|]. cbn [snd].
    case_match; [by apply push_equiv|done].
Qed.

Lemma listen_equiv fuel s t : s ≈ t -> listen fuel s = listen fuel t.
Proof.
  revert s t. induction fuel as [|fuel IH]; intros s t Hst; [done|]. cbn [listen].
  pose proof (next_proper s t Hst) as Hn.
  destruct (next s) as [[b s']|], (next t) as [[c t']|]; cbn in Hn; try done. destruct Hn as [<- Hn].
  pose proof (parse_equiv s' t' b Hn) as [He Hs].
  destruct (parse s' b) as [e s''], (parse t' b) as [e' t'']. cbn in He, Hs. subst e'.
  by rewrite (IH _ _ Hs).
Qed.

(** ** Fuel: every event consumes input *)

Lemma continuation_remaining s b s' : continuation s = Some (b, s') -> remaining s = S (remaining s').
Proof.
  destruct s as [[|c p] cs]; unfold remaining; cbn; [|by intros [= <- <-]].
  destruct cs as [|c cs]; [done|]. destruct (late c); [done|]. intros [= <- <-]. cbn. lia.
Qed.

Lemma next_remaining s b s' : next s = Some (b, s') -> remaining s = S (remaining s').
Proof.
  destruct s as [[|c p] cs]; unfold remaining; cbn; [|by intros [= <- <-]].
  destruct cs as [|c cs]; [done|]. intros [= <- <-]. cbn. lia.
Qed.

Lemma readCSI_remaining fuel params s : (remaining (readCSI fuel params s).2 <= remaining s)%nat.
Proof.
  revert params s. induction fuel as [|fuel IH]; intros params s; cbn [readCSI]; [done|].
  destruct (continuation s) as [[b s']|] eqn:Hc; [|done]. apply continuation_remaining in Hc.
  destruct (is_final b); cbn; [lia|]. etransitivity; [apply IH|lia].
Qed.

Lemma complete_rune_spec k raw s :
  match complete_rune k raw s with
  | (Some raw', s') => exists q, raw' = raw ++ q /\ (length q + remaining s' = remaining s)%nat
  | (None, s') => (remaining s' <= remaining s)%nat
  end.
Proof.
  revert raw s. induction k as [|k IH]; intros raw s; cbn [complete_rune];
    [by exists []; rewrite app_nil_r|].
  destruct (full_rune raw); [by exists []; rewrite app_nil_r|].
  destruct (continuation s) as [[b s']|] eqn:Hc; [|done]. apply continuation_remaining in Hc.
  specialize (IH (raw ++ [b]) s'). destruct (complete_rune k _ s') as [[raw'|] s'']; [|lia].
  destruct IH as (q & -> & Hq). exists (b :: q). rewrite <- app_assoc. split; [done|]. simpl. lia.
Qed.

Lemma parse_remaining s b : (remaining (parse s b).2 <= remaining s)%nat.
Proof.
  unfold parse. repeat (case_match; [done|]). case_match.
  - destruct (continuation s) as [[b1 s']|] eqn:Hc; [|done]. apply continuation_remaining in Hc.
    case_match; cbn [snd]; [lia|]. etransitivity; [apply readCSI_remaining|lia].
  - case_match; [done|].
    pose proof (complete_rune_spec (UTFMax - 1) [b] s) as Hr.
    destruct (complete_rune _ _ s) as [[raw|] s']; [|done]. destruct Hr as (q & -> & Hq).
    pose proof (decode_rune_width ([b] ++ q) ltac:(done)) as [Hw _].
    destruct (decode_rune _) as [ch size]. cbn [snd] in *. case_match; [|lia].
    unfold remaining in *. cbn [cur chunks]. rewrite length_app, length_drop. simpl. lia.
Qed.

(** Any fuel above the number of bytes left gives the same events. *)
Lemma listen_fuel f1 f2 s : (remaining s < f1)%nat -> (remaining s < f2)%nat -> listen f1 s = listen f2 s.
Proof.
  revert f2 s. induction f1 as [|f1 IH]; intros f2 s H1 H2; [lia|]. destruct f2 as [|f2]; [lia|].
  cbn [listen]. destruct (next s) as [[b s']|] eqn:Hn; [|done]. apply next_remaining in Hn.
  pose proof (parse_remaining s' b) as Hp. destruct (parse s' b) as [e s'']. cbn in Hp.
  by rewrite (IH f2 s'') by lia.
Qed.

(** ** Keystrokes *)

(** What a terminal sends. *)
Inductive Keystroke :=
| KText (r : Z) | KCtrlC | KTab | KEnter (cr : bool) | KBackspace
| KCsi (params : bytes) (final : Z).

Definition key_bytes (k : Keystroke) : bytes :=
  match k with
  | KText r => encode_rune r
  | KCtrlC => [3]
  | KTab => [9]
  | KEnter cr => [if cr then 13 else 10]
  | KBackspace => [127]
  | KCsi params final => [27; 91] ++ params ++ [final]
  end.

Definition key_event (k : Keystroke) : Event :=
  match k with
  | KText r => rune_event r
  | KCtrlC => mkEvent KeyCtrlC 0 false true false false false 0 0
  | KTab => event KeyTab
  | KEnter _ => event KeyEnter
  | KBackspace => event KeyBackspace
  | KCsi params final => csi_event (take maxParams params) final
  end.

Definition key_wf (k : Keystroke) : Prop :=
  match k with
  | KText r => valid_rune r = true /\ ~ r ∈ [3; 9; 10; 13; 27; 127]
  | KCsi params final => Forall (fun b => is_final b = false) params /\ is_final final = true
  | _ => True
  end.

(** An unsupported sequence is no event. *)
Definition sent (e : Event) : list Event := match Type_ e with KeyUnknown => [] | _ => [e] end.

Lemma readCSI_all fuel acc params final rest cs :
  Forall (fun b => is_final b = false) params -> is_final final = true ->
  (length params < fuel)%nat -> (length acc <= maxParams)%nat ->
  readCSI fuel acc (mkStream (params ++ final :: rest) cs)
    = (csi_event (take maxParams (acc ++ params)) final, mkStream rest cs).
Proof.
  intros Hp Hf. revert fuel acc. induction Hp as [|b params Hb Hp IH]; intros fuel acc Hl Ha;
    (destruct fuel as [|fuel]; [simpl in Hl; lia|]); cbn [readCSI continuation cur chunks app].
  - rewrite Hf, app_nil_r, take_ge by done. done.
  - rewrite Hb, IH; [|simpl in Hl; lia|destruct (Nat.ltb_spec (length acc) maxParams); rewrite ?length_app; simpl; lia].
    do 2 f_equal. destruct (length acc <? maxParams)%nat eqn:Hlt; [by rewrite <- app_assoc|].
    apply Nat.ltb_ge in Hlt. by rewrite !take_app_le, !take_ge by lia.
Qed.

Lemma complete_rune_all raw q r rest cs k :
  raw <> [] -> decode_rune (raw ++ q) = (r, length (raw ++ q)) -> full_rune (raw ++ q) = true ->
  (length q <= k)%nat ->
  complete_rune k raw (mkStream (q ++ rest) cs) = (Some (raw ++ q), mkStream rest cs).
Proof.
  revert raw k. induction q as [|b q IH]; intros raw k Hne Hd Hf Hk.
  - rewrite app_nil_r in *. destruct k; [done|]. cbn [complete_rune]. by rewrite Hf.
  - destruct k as [|k]; [simpl in Hk; lia|]. cbn [complete_rune app].
    rewrite (prefix_not_full raw (b :: q) r) by done. cbn [continuation cur chunks].
    replace (raw ++ b :: q) with ((raw ++ [b]) ++ q) in * by by rewrite <- app_assoc.
    apply IH; [by destruct raw|done|done|simpl in Hk; lia].
Qed.

Lemma parse_text b q r rest cs :
  0x80 <= b -> decode_rune (b :: q) = (r, length (b :: q)) -> full_rune (b :: q) = true ->
  parse (mkStream (q ++ rest) cs) b = (rune_event r, mkStream rest cs).
Proof.
  intros Hb Hd Hf. unfold parse.
  rewrite !(proj2 (Z.eqb_neq _ _)), (proj2 (Z.ltb_ge _ _)) by lia. cbn [orb].
  pose proof (decode_rune_width (b :: q) ltac:(done)) as [Hw _]. rewrite Hd in Hw. cbn in Hw.
  rewrite (complete_rune_all [b] q r) by (done || (unfold UTFMax; lia)).
  change ([b] ++ q) with (b :: q). rewrite Hd. by rewrite Nat.ltb_irrefl.
Qed.

(** A keystroke that is all there is one event, and nothing else is consumed. *)
Lemma parse_key k rest cs :
  key_wf k -> exists b p, key_bytes k = b :: p /\ parse (mkStream (p ++ rest) cs) b = (key_event k, mkStream rest cs).
Proof.
  destruct k as [r| | |cr| |params final]; cbn [key_wf key_bytes key_event].
  - intros [Hv Hs]. destruct (Z.lt_ge_cases r 0x80) as [Hlt|Hge].
    + assert (H0 : 0 <= r) by (unfold valid_rune, within_b in Hv; rewrite orb_true_iff, !andb_true_iff, !Z.leb_le in Hv; lia).
      exists r, []. unfold encode_rune. rewrite Hv, (proj2 (Z.leb_le _ _)) by lia. split; [done|].
      rewrite !not_elem_of_cons in Hs. destruct Hs as (?&?&?&?&?&?&_).
      unfold parse. by rewrite !(proj2 (Z.eqb_neq _ _)), (proj2 (Z.ltb_lt _ _)) by done.
    + destruct (decode_encode_rune r Hv) as [Hd _]. destruct (encode_rune r) as [|b q] eqn:He;
        [by unfold encode_rune in He; repeat case_match|].
      destruct (encode_rune_head r b q Hv Hge He) as [Hq Hb]. exists b, q. split; [done|].
      apply parse_text; [done|done|]. apply (full_of_decode _ r); [done|done|].
      apply andb_false_iff. right. by destruct q.
  - intros _. by exists 3, [].
  - intros _. by exists 9, [].
  - intros _. exists (if cr then 13 else 10), []. by destruct cr.
  - intros _. by exists 127, [].
  - intros [Hp Hf]. exists 27, (91 :: params ++ [final]). split; [done|].
    cbn [app]. rewrite <- app_assoc. cbn [app]. unfold parse. cbn [Z.eqb Pos.eqb orb continuation cur chunks negb].
    rewrite readCSI_all; [done|done|done| |simpl; lia].
    unfold remaining. cbn [cur chunks]. rewrite length_app. simpl. lia.
Qed.

Lemma listen_keys ks rest cs n :
  Forall key_wf ks ->
  listen (length ks + n) (mkStream (concat (map key_bytes ks) ++ rest) cs)
    = concat (map (fun k => sent (key_event k)) ks) ++ listen n (mkStream rest cs).
Proof.
  induction 1 as [|k ks Hk _ IH]; [done|]. cbn [length Nat.add map concat].
  destruct (parse_key k (concat (map key_bytes ks) ++ rest) cs Hk) as (b & p & Hb & Hp).
  rewrite <- app_assoc, Hb. cbn [app listen next cur chunks]. rewrite Hp, IH, <- app_assoc.
  match goal with |- context [sent _ ++ ?l] => generalize l end. intros l.
  unfold sent. by destruct (Type_ (key_event k)).
Qed.

(** ** Typing, with pauses

    A burst of keystrokes, possibly ended by the escape key, arrives in reads of
    any sizes; a pause longer than [continuationTimeout] comes before it. *)
Record Burst := mkBurst { b_keys : list Keystroke; b_escape : bool; b_reads : list bytes }.

Definition burst_bytes (b : Burst) : bytes :=
  concat (map key_bytes (b_keys b)) ++ (if b_escape b then [27] else []).

Definition burst_events (b : Burst) : list Event :=
  concat (map (fun k => sent (key_event k)) (b_keys b)) ++ (if b_escape b then [event KeyEscape] else []).

Definition burst_reads (b : Burst) : list (bool * bytes) :=
  match b_reads b with
  | [] => []
  | r :: rs => (true, r) :: map (pair false) rs
  end.

Definition burst_wf (b : Burst) : Prop :=
  Forall key_wf (b_keys b) /\ concat (b_reads b) = burst_bytes b /\
  match b_reads b with r :: _ => r <> [] | [] => False end.

Lemma forward_app r1 r2 : forward (r1 ++ r2) = forward r1 ++ forward r2.
Proof. induction r1 as [|[l [|b p]] r1 IH]; cbn; by rewrite ?IH. Qed.

(** Reads without pauses are one text, up to the next pause. *)
Lemma avail_prompt rs cs :
  avail_chunks cs = ([], cs) ->
  avail_chunks (forward (map (pair false) rs) ++ cs) = (concat rs, cs).
Proof.
  intros Hcs. induction rs as [|[|b p] rs IH]; cbn; [done|done|]. rewrite IH. done.
Qed.

Definition paused (cs : list Chunk) : Prop := match cs with [] => True | c :: _ => late c = true end.

Lemma paused_avail cs : paused cs -> avail_chunks cs = ([], cs).
Proof. destruct cs as [|c cs]; [done|]. cbn. by intros ->. Qed.

Lemma bursts_paused bs : Forall burst_wf bs -> paused (forward (concat (map burst_reads bs))).
Proof.
  destruct 1 as [|b bs (_ & _ & Hb) _]; [done|]. cbn. unfold burst_reads at 1.
  destruct (b_reads b) as [|[|c p] rs]; done.
Qed.

(** The first byte of a burst ends the pause; from there on it is all there. *)
Lemma burst_start b cs n :
  burst_wf b -> paused cs ->
  listen n (mkStream [] (forward (burst_reads b) ++ cs)) = listen n (mkStream (burst_bytes b) cs).
Proof.
  intros (_ & Hbytes & Hne) Hcs. unfold burst_reads. rewrite <- Hbytes.
  destruct (b_reads b) as [|[|c p] rs]; [done|done|]. cbn [map forward concat app].
  destruct n as [|n]; [done|]. cbn [listen next cur chunks c_head c_tail].
  set (s := mkStream p _). set (t := mkStream _ cs).
  assert (Hst : s ≈ t).
  { unfold stream_equiv, view, s, t. cbn [cur chunks].
    rewrite avail_prompt, paused_avail by (done || by apply paused_avail). by rewrite app_nil_r. }
  destruct (parse_equiv s t c Hst) as [He Hs].
  destruct (parse s c) as [e s'], (parse t c) as [e' t']. cbn in He, Hs. subst e'.
  by rewrite (listen_equiv n _ _ Hs).
Qed.

Lemma listen_escape cs n :
  paused cs -> listen (S n) (mkStream [27] cs) = event KeyEscape :: listen n (mkStream [] cs).
Proof. destruct cs as [|c cs]; [done|]. cbn. by intros ->. Qed.

Lemma key_bytes_pos k : (0 < length (key_bytes k))%nat.
Proof.
  destruct k as [r| | | | |]; cbn; try lia.
  unfold encode_rune. repeat case_match; simpl; lia.
Qed.

Lemma keys_length ks : (length ks <= length (concat (map key_bytes ks)))%nat.
Proof.
  induction ks as [|k ks IH]; [done|]. cbn. rewrite length_app. pose proof (key_bytes_pos k). simpl in *. lia.
Qed.

Lemma remaining_app p cs : remaining (mkStream p cs) = (length p + remaining (mkStream [] cs))%nat.
Proof. done. Qed.

Lemma remaining_forward rs cs :
  remaining (mkStream [] (forward rs ++ cs)) = (length (concat (map snd rs)) + remaining (mkStream [] cs))%nat.
Proof.
  unfold remaining. cbn [cur chunks length Nat.add]. rewrite map_app, sum_list_with_app.
  f_equal. induction rs as [|[l [|b p]] rs IH]; cbn; [done|done|]. rewrite IH, length_app. done.
Qed.

Lemma listen_bursts bs :
  Forall burst_wf bs ->
  forall n, (remaining (mkStream [] (forward (concat (map burst_reads bs)))) < n)%nat ->
  listen n (mkStream [] (forward (concat (map burst_reads bs)))) = concat (map burst_events bs).
Proof.
  induction 1 as [|b bs Hb Hbs IH]; intros n Hn; [by destruct n|].
  pose proof (bursts_paused bs Hbs) as Hp.
  cbn [map concat] in *. rewrite forward_app in *. rewrite burst_start by done.
  pose proof Hb as (Hk & Hbytes & Hne).
  set (cs := forward _) in *.
  assert (Hrem : remaining (mkStream [] (forward (burst_reads b) ++ cs)) = remaining (mkStream (burst_bytes b) cs)).
  { rewrite remaining_forward, remaining_app, <- Hbytes. f_equal. unfold burst_reads.
    destruct (b_reads b) as [|r rs]; [done|]. cbn. do 2 f_equal. by rewrite map_map, map_id. }
  rewrite Hrem in Hn.
  pose proof (keys_length (b_keys b)) as Hkl.
  unfold burst_bytes, burst_events in *. destruct (b_escape b); rewrite remaining_app, length_app in Hn; simpl in Hn.
  - replace n with (length (b_keys b) + S (n - length (b_keys b) - 1))%nat by lia.
    rewrite listen_keys, <- app_assoc by done. f_equal. rewrite listen_escape by done. cbn [app]. f_equal.
    apply IH. lia.
  - rewrite !app_nil_r in *. replace n with (length (b_keys b) + (n - length (b_keys b)))%nat by lia.
    rewrite <- (app_nil_r (concat (map key_bytes (b_keys b)))), listen_keys by done. f_equal. apply IH. lia.
Qed.

(** ** Mouse reports *)

Definition mouse_report (button x y : Z) : bytes :=
  60 :: decimal button ++ 59 :: decimal x ++ 59 :: decimal y.

Lemma mouse_digits ds rest values i d :
  Forall digit ds -> 0 <= d -> d + len ds <= 6 ->
  mouse_values (ds ++ rest) values i d
    = mouse_values rest (alter (fun v => fold_left (fun v b => v * 10 + (b - 48)) ds v) i values) i (d + len ds).
Proof.
  intros Hd. revert values d. induction Hd as [|b ds Hb _ IH]; intros values d H0 H6.
  - cbn. rewrite len_nil, Z.add_0_r. f_equal. symmetry. by apply list_alter_id.
  - rewrite len_cons in *. pose proof (len_nonneg ds). cbn [app mouse_values]. unfold digit in Hb.
    rewrite (proj2 (Z.eqb_neq b 59)), (proj2 (Z.ltb_ge b 48)), (proj2 (Z.ltb_ge 57 b)), (proj2 (Z.leb_gt 6 d)) by lia. cbn [andb orb].
    rewrite IH by lia. f_equal; [|lia].
    clear. revert i. induction values as [|v values IHv]; intros [|i]; cbn; try done. f_equal. apply IHv.
Qed.

Lemma mouse_number n rest values i :
  0 <= n < 10 ^ 6 -> values !! i = Some 0 ->
  mouse_values (decimal n ++ rest) values i 0 = mouse_values rest (<[i := n]> values) i (len (decimal n)) /\
  1 <= len (decimal n) <= 6.
Proof.
  intros Hn Hi. destruct (decimal_spec n) as (Hd & Hne & Hp); [lia|].
  pose proof (decimal_length 6 n Hn ltac:(lia)) as Hl.
  assert (H1 : 1 <= len (decimal n)) by (destruct (decimal n); [done|len_lia]).
  split; [|lia]. rewrite mouse_digits by (done || lia). rewrite Z.add_0_l. f_equal.
  unfold ParseUint32 in Hp. rewrite bool_decide_eq_false_2 in Hp by done. apply parse_digits_fold in Hp.
  apply list_eq. intros j. destruct (decide (j = i)) as [->|].
  - rewrite list_lookup_alter_eq, Hi, list_lookup_insert_eq by (by eapply lookup_lt_Some).
    exact (f_equal Some Hp).
  - by rewrite list_lookup_alter_ne, list_lookup_insert_ne.
Qed.

Lemma mouse_values_report button x y :
  0 <= button < 10 ^ 6 -> 0 <= x < 10 ^ 6 -> 0 <= y < 10 ^ 6 ->
  mouse_values (tail (mouse_report button x y)) [0; 0; 0] 0 0 = Some ([button; x; y], 2%nat, len (decimal y)) /\
  1 <= len (decimal y) /\ len (mouse_report button x y) <= 21.
Proof.
  intros Hb Hx Hy. unfold mouse_report. cbn [tail].
  destruct (mouse_number button (59 :: decimal x ++ 59 :: decimal y) [0; 0; 0] 0 Hb eq_refl) as [-> Hlb].
  cbn [list_insert insert mouse_values Z.eqb Pos.eqb Nat.ltb Nat.leb andb].
  rewrite (proj2 (Z.ltb_lt 0 _)) by lia. cbn [andb].
  destruct (mouse_number x (59 :: decimal y) [button; 0; 0] 1 Hx eq_refl) as [-> Hlx].
  cbn [list_insert insert mouse_values Z.eqb Pos.eqb Nat.ltb Nat.leb andb].
  rewrite (proj2 (Z.ltb_lt 0 _)) by lia. cbn [andb].
  destruct (mouse_number y [] [button; x; 0] 2 Hy eq_refl) as [Hv Hly]. rewrite app_nil_r in Hv.
  rewrite Hv. split_and!; [done|lia|]. rewrite !len_cons, len_app, !len_cons, len_app, !len_cons. lia.
Qed.

(** A report is the event of its button at its cell, counted from 0. *)
Lemma mouse_report_event button x y final :
  0 <= button < 10 ^ 6 -> 1 <= x < 10 ^ 6 -> 1 <= y < 10 ^ 6 -> final = 77 \/ final = 109 ->
  mouse_type button final <> KeyUnknown ->
  key_event (KCsi (mouse_report button x y) final) =
    mkEvent (mouse_type button final) 0 (has button 4) (has button 16) (has button 8) false true (x - 1) (y - 1).
Proof.
  intros Hb Hx Hy Hf Ht. destruct (mouse_values_report button x y) as (Hv & H1 & Hl); [lia..|].
  cbn [key_event]. rewrite take_ge by (unfold len in Hl; unfold maxParams; lia). unfold csi_event.
  rewrite (proj2 (Nat.eqb_neq _ _)) by (unfold len in Hl; unfold maxParams; lia).
  unfold mouse_report in *. cbn [tail] in Hv. unfold parseMouse. rewrite Hv.
  rewrite (proj2 (Z.eqb_neq _ 0)), !(proj2 (Z.ltb_ge _ 1)) by lia.
  destruct Hf as [-> | ->]; cbn [Z.eqb Pos.eqb negb andb orb Nat.eqb];
    destruct (mouse_type button _); done.
Qed.

Lemma mouse_report_wf button x y final :
  0 <= button < 10 ^ 6 -> 1 <= x < 10 ^ 6 -> 1 <= y < 10 ^ 6 -> final = 77 \/ final = 109 ->
  key_wf (KCsi (mouse_report button x y) final).
Proof.
  intros Hb Hx Hy Hf. split; [|destruct Hf as [-> | ->]; done].
  assert (Hd : forall n, 0 <= n < 10 ^ 6 -> Forall (fun b => is_final b = false) (decimal n)).
  { intros n Hn. destruct (decimal_spec n) as (Hd & _); [lia|]. eapply Forall_impl; [exact Hd|].
    intros b Hb'. unfold digit in Hb'. unfold is_final. by rewrite (proj2 (Z.leb_gt _ b)) by lia. }
  unfold mouse_report. repeat (constructor || apply Forall_app_2 || apply Hd); done || lia.
Qed.

End keyboard.

Import keyboard.

(** ** Theorems *)

(** (typing is read exactly): text in any script, editing keys, and whole
    control sequences (cursor keys, mouse reports, and sequences of any length that
    are not supported), typed in bursts, each possibly ended by the escape key, with
    pauses between bursts and cut into reads in any way within a burst, are
    read as exactly their events, in order; no byte of a sequence becomes a key. *)
Theorem typing_exact bs :
  Forall burst_wf bs -> ListenReader (concat (map burst_reads bs)) = concat (map burst_events bs).
Proof. intros Hb. unfold ListenReader. by apply listen_bursts; [|lia]. Qed.

(** "h", "é", cursor up, a click at column 10 and row 5, an unknown report, and the
    escape key; then "j" alone. *)
Definition sample_bursts : list Burst :=
  [mkBurst [KText 104; KText 0xE9; KCsi [] 65; KCsi (mouse_report 0 10 5) 77; KCsi [63; 49; 59; 50] 99] true
     [[104; 0xC3]; [0xA9; 27]; []; [91; 65; 27; 91; 60; 48; 59; 49; 48]; [59; 53; 77; 27; 91; 63; 49; 59; 50; 99; 27]];
   mkBurst [KText 106] false [[106]]].

Lemma typing_exact_witness :
  concat (map burst_events sample_bursts) =
    [rune_event 104; rune_event 0xE9; event KeyArrowUp;
     mkEvent KeyMouseLeftDown 0 false false false false true 9 4; event KeyEscape; rune_event 106] /\
  ListenReader (concat (map burst_reads sample_bursts)) = concat (map burst_events sample_bursts).
Proof.
  split; [vm_compute; reflexivity|]. apply (typing_exact sample_bursts).
  repeat constructor; try (vm_compute; congruence); try set_solver.
Defined.
