(* ===== verification/Input.v ===== *)
(** * Input sources (internal/runner/source.go, mergedSource of timer.go)

    Where a session's events come from: the live terminal ([TTYSource]), a script
    ([ScriptSource]), and the merge of either with the events the host generates.

    A [select] takes any of its ready cases; the cases it takes, in order, are an
    argument of the model. *)

From S2P Require Import Prelude Abi Utf8 GoStrings Streams Protocol Keyboard.

(** ** Keyboard events as ABI events *)

Definition mouseActions (t : keyboard.EventType) : Z :=
  match t with
  | keyboard.KeyMouseLeftDown => MouseDown
  | keyboard.KeyMouseLeftUp => MouseUp
  | keyboard.KeyMouseLeftDrag => MouseDrag
  | keyboard.KeyMouseWheelUp => MouseWheelUp
  | keyboard.KeyMouseWheelDown => MouseWheelDown
  | _ => 0
  end.

Definition keyMap (t : keyboard.EventType) : option Z :=
  match t with
  | keyboard.KeyEnter => Some KeyEnter
  | keyboard.KeyBackspace => Some KeyBackspace
  | keyboard.KeyTab => Some KeyTab
  | keyboard.KeyEscape => Some KeyEscape
  | keyboard.KeyCtrlC => Some KeyCtrlC
  | keyboard.KeyArrowUp => Some KeyArrowUp
  | keyboard.KeyArrowDown => Some KeyArrowDown
  | keyboard.KeyArrowLeft => Some KeyArrowLeft
  | keyboard.KeyArrowRight => Some KeyArrowRight
  | keyboard.KeyHome => Some KeyHome
  | keyboard.KeyEnd => Some KeyEnd
  | keyboard.KeyPageUp => Some KeyPageUp
  | keyboard.KeyPageDown => Some KeyPageDown
  | keyboard.KeyDelete => Some KeyDelete
  | _ => None
  end.

Definition left_button (t : keyboard.EventType) : bool :=
  match t with
  | keyboard.KeyMouseLeftDown | keyboard.KeyMouseLeftUp | keyboard.KeyMouseLeftDrag => true
  | _ => false
  end.

Definition key_event (key ch mods : Z) : Event := mkEvent KindKey key ch mods 0 0 [] [] 0 0 0 0 0.
Definition resize_event (w h : Z) : Event := mkEvent KindResize 0 0 0 w h [] [] 0 0 0 0 0.

Definition mapInput (ev : keyboard.Event) : option Event :=
  if keyboard.Mouse ev then
    let action := mouseActions (keyboard.Type_ ev) in
    if action =? 0 then None else
    let button := if left_button (keyboard.Type_ ev) then MouseButtonLeft else MouseButtonNone in
    Some (mkEvent KindMouse 0 0 0 0 0 [] [] (keyboard.MouseX ev) (keyboard.MouseY ev) button action 0)
  else
    let m := 0 in
    let m := if keyboard.Shift ev then Z.lor m ModShift else m in
    let m := if keyboard.Ctrl ev then Z.lor m ModCtrl else m in
    let m := if keyboard.Alt ev then Z.lor m ModAlt else m in
    let m := if keyboard.Cmd ev then Z.lor m ModCmd else m in
    match keyboard.Type_ ev with
    | keyboard.KeyRune => Some (key_event KeyRune (keyboard.Ch ev) m)
    | t => match keyMap t with
           | Some key => Some (key_event key 0 m)
           | None => None
           end
    end.

(** ** TTYSource *)

Record TTYSource := mkTTY { tty_Refresh : Z; tty_sentInitial : bool; tty_ticker : bool }.

(** A case of the [select] in [Next], with the value received. *)
Inductive Arm :=
| ADone
| ABus (e : Event)
| ATick
| AWinch (w h : Z)                           (* what [Size] then returns *)
| AKey (ev : option keyboard.Event).         (* [None]: the channel is closed *)

Definition stop (s : TTYSource) : TTYSource := mkTTY (tty_Refresh s) (tty_sentInitial s) false.

(** The [for] loop: [None] while it waits. *)
Fixpoint tty_select (s : TTYSource) (arms : list Arm) : option (TTYSource * option Event * list Arm) :=
  match arms with
  | [] => None
  | ADone :: arms' => Some (stop s, None, arms')
  | ABus ev :: arms' => Some (s, Some ev, arms')
  | ATick :: arms' =>
    if tty_ticker s then Some (s, Some (event0 KindNone), arms')
    else tty_select s arms'                                 (* a nil channel is never ready *)
  | AWinch w h :: arms' => Some (s, Some (resize_event w h), arms')
  | AKey None :: arms' => Some (stop s, None, arms')
  | AKey (Some ev) :: arms' =>
    match mapInput ev with
    | Some ae => Some (s, Some ae, arms')
    | None => tty_select s arms'
    end
  end.

(** [size]: what [Size] returns at the first call. *)
Definition TTYSource_Next (s : TTYSource) (size : Z * Z) (arms : list Arm) :
    option (TTYSource * option Event * list Arm) :=
  if tty_sentInitial s then tty_select s arms
  else Some (mkTTY (tty_Refresh s) true (0 <? tty_Refresh s), Some (resize_event size.1 size.2), arms).

(** A session calls [Next] until it says there is no more. *)
Fixpoint tty_drain (fuel : nat) (s : TTYSource) (size : Z * Z) (arms : list Arm) : list Event :=
  match fuel with
  | O => []
  | S fuel' =>
    match TTYSource_Next s size arms with
    | Some (s', Some e, arms') => e :: tty_drain fuel' s' size arms'
    | _ => []
    end
  end.

(** ** ScriptSource *)

Section Script.
Context (uni_lower : Z -> Z).

Definition tokenMap (tok : bytes) : option Event :=
  if bool_decide (tok = []) then Some (event0 KindNone)
  else if bool_decide (tok = str "none") then Some (event0 KindNone)
  else if bool_decide (tok = str "tick") then Some (event0 KindNone)
  else if bool_decide (tok = str "up") then Some (key_event KeyArrowUp 0 0)
  else if bool_decide (tok = str "down") then Some (key_event KeyArrowDown 0 0)
  else if bool_decide (tok = str "left") then Some (key_event KeyArrowLeft 0 0)
  else if bool_decide (tok = str "right") then Some (key_event KeyArrowRight 0 0)
  else if bool_decide (tok = str "enter") then Some (key_event KeyEnter 0 0)
  else if bool_decide (tok = str "tab") then Some (key_event KeyTab 0 0)
  else if bool_decide (tok = str "esc") then Some (key_event KeyEscape 0 0)
  else if bool_decide (tok = str "ctrl-c") then Some (key_event KeyCtrlC 0 ModCtrl)
  else None.

Definition ParseToken (tok : bytes) : option Event :=
  let tok := ToLower uni_lower (TrimSpace tok) in
  match tokenMap tok with
  | Some ev => Some ev
  | None =>
    match runes tok with
    | [r] => Some (key_event KeyRune r 0)
    | _ => None
    end
  end.

Record step := mkStep { label : bytes; ev : Event }.
Record ScriptSource {W : Type} := mkScript { Echo : option W; steps : list step; ss_i : Z }.
Arguments ScriptSource : clear implicits.

Fixpoint script_steps (tokens : list bytes) : list step :=
  match tokens with
  | [] => []
  | t :: tokens' =>
    match ParseToken t with
    | Some e => mkStep t e :: script_steps tokens'
    | None => script_steps tokens'
    end
  end.

Definition NewScriptSource {W} (w h : Z) (tokens : list bytes) : ScriptSource W :=
  mkScript W None (mkStep (str "(initial)") (resize_event w h) :: script_steps tokens) 0.

Definition dashes : bytes := [0xE2; 0x94; 0x80; 0xE2; 0x94; 0x80].     (* ── *)

Definition ScriptSource_Next {W} `{Writer W} (s : ScriptSource W) : res unit (ScriptSource W * option Event) :=
  if len (steps s) <=? ss_i s then Ok (s, None) else
  let? st := index (steps s) (ss_i s) in
  let echo := match Echo s with
              | None => None
              | Some w => Some (wr w ([10] ++ dashes ++ [32] ++ label st ++ [32] ++ dashes ++ [10])).1.1
              end in
  Ok (mkScript W echo (steps s) (ss_i s + 1), Some (ev st)).

Fixpoint script_drain {W} `{Writer W} (fuel : nat) (s : ScriptSource W) : res unit (list Event) :=
  match fuel with
  | O => Ok []
  | S fuel' =>
    let? ' (s', r) := ScriptSource_Next s in
    match r with
    | None => Ok []
    | Some e => let? es := script_drain fuel' s' in Ok (e :: es)
    end
  end.

End Script.
Arguments ScriptSource : clear implicits.

(** ** mergedSource

    The pump goroutine calls [base.Next] and hands the result over an unbuffered
    channel; [Next] takes a result or an extra event.  [mg_base]: what the calls of
    [base.Next] still to come return; [mg_hand]: the result the pump holds. *)

Record merged := mkMerged {
  mg_base : list (option Event); mg_hand : option (option Event); mg_pumping : bool;
  mg_extras : list Event; mg_closed : bool; mg_done : bool }.

Definition newMergedSource (base : list (option Event)) : merged := mkMerged base None true [] false false.

(** What a step shows: an event the host generates, or what [Next] returns. *)
Inductive act := Tau | Gen (e : Event) | Ret (r : option Event).

(** The steps of the pump, of the host (extra events until it closes the channel)
    and of the context, and those of [Next]. *)
Inductive merged_step : merged -> act -> merged -> Prop :=
| MPump r base xs c d :                      (* base.Next returns *)
    merged_step (mkMerged (r :: base) None true xs c d) Tau (mkMerged base (Some r) true xs c d)
| MCancel base h p xs c :                    (* ctx is done *)
    merged_step (mkMerged base h p xs c false) Tau (mkMerged base h p xs c true)
| MStop base r xs c :                        (* the pump sees ctx.Done *)
    merged_step (mkMerged base (Some r) true xs c true) Tau (mkMerged base None false xs c true)
| MExtra e base h p xs d :                   (* the host generates an event *)
    merged_step (mkMerged base h p xs false d) (Gen e) (mkMerged base h p (xs ++ [e]) false d)
| MClose base h p xs d :                     (* the host closes its channel *)
    merged_step (mkMerged base h p xs false d) Tau (mkMerged base h p xs true d)
| NextDone base h p xs c :                   (* Next: ctx.Done *)
    merged_step (mkMerged base h p xs c true) (Ret None) (mkMerged base h p xs c true)
| NextExtra e base h p xs c d :              (* Next: an extra event *)
    merged_step (mkMerged base h p (e :: xs) c d) (Ret (Some e)) (mkMerged base h p xs c d)
| NextExtraClosed base h p d :               (* Next: the extras are closed and empty *)
    merged_step (mkMerged base h p [] true d) (Ret None) (mkMerged base h p [] true d)
| NextBase r base p xs c d :                 (* Next: a result; the pump ends after a false one *)
    merged_step (mkMerged base (Some r) p xs c d) (Ret r)
      (mkMerged base None (p && match r with Some _ => true | None => false end) xs c d)
| NextClosed base xs c d :                   (* Next: the pump has closed its channel *)
    merged_step (mkMerged base None false xs c d) (Ret None) (mkMerged base None false xs c d).

(** A history, with what it shows. *)
Inductive merged_run (m : merged) : list act -> merged -> Prop :=
| run_nil : merged_run m [] m
| run_snoc tr m1 l m2 : merged_run m tr m1 -> merged_step m1 l m2 -> merged_run m (tr ++ [l]) m2.

Definition generated (tr : list act) : list Event := omap (fun l => match l with Gen e => Some e | _ => None end) tr.
Definition returned (tr : list act) : list Event := omap (fun l => match l with Ret (Some e) => Some e | _ => None end) tr.

(** ** Lemmas *)

Lemma mods_u8 (a b c d : bool) :
  let m := if a then Z.lor 0 ModShift else 0 in
  let m := if b then Z.lor m ModCtrl else m in
  let m := if c then Z.lor m ModAlt else m in
  is_u8 (if d then Z.lor m ModCmd else m).
Proof. by destruct a, b, c, d. Qed.

Ltac wf_event := unfold event_wf; cbn; split_and!; try done; apply Forall_nil_2.

(** Every input event has its place on the wire. *)
Lemma mapInput_wf k e :
  is_i32 (keyboard.Ch k) -> is_u16 (keyboard.MouseX k) -> is_u16 (keyboard.MouseY k) ->
  mapInput k = Some e -> event_wf e.
Proof.
  intros Hc Hx Hy. unfold mapInput. destruct (keyboard.Mouse k).
  - destruct (mouseActions _ =? 0) eqn:Ha; [done|]. intros [= <-].
    assert (Hb : is_u8 (if left_button (keyboard.Type_ k) then MouseButtonLeft else MouseButtonNone))
      by (by destruct (left_button _)).
    assert (Hm : is_u8 (mouseActions (keyboard.Type_ k))) by (by destruct (keyboard.Type_ k)).
    wf_event.
  - pose proof (mods_u8 (keyboard.Shift k) (keyboard.Ctrl k) (keyboard.Alt k) (keyboard.Cmd k)) as Hm.
    cbv zeta in Hm |- *. set (m := if keyboard.Cmd k then _ else _) in *. clearbody m.
    assert (Hk : forall key ch, is_u8 key -> is_i32 ch -> event_wf (key_event key ch m)).
    { intros key ch H1 H2. wf_event. }
    destruct (keyboard.Type_ k); cbn; intros He; simplify_eq; by apply Hk.
Qed.

Lemma resize_wf w h : is_u16 w -> is_u16 h -> event_wf (resize_event w h).
Proof. intros Hw Hh. wf_event. Qed.

(** Runes that were typed are runes; control sequences carry none. *)
Lemma csi_event_Ch params b : keyboard.Ch (keyboard.csi_event params b) = 0.
Proof.
  unfold keyboard.csi_event, keyboard.parseMouse. repeat case_match; done.
Qed.

Lemma typed_rune k : keyboard.key_wf k -> is_i32 (keyboard.Ch (keyboard.key_event k)).
Proof.
  destruct k; cbn; try done; [|by rewrite csi_event_Ch].
  intros [Hv _]. unfold valid_rune, within_b in Hv. rewrite orb_true_iff, !andb_true_iff, !Z.leb_le in Hv.
  unfold is_i32. lia.
Qed.

Lemma sent_id k e : e ∈ keyboard.sent k -> e = k.
Proof. unfold keyboard.sent. destruct (keyboard.Type_ k); set_solver. Qed.

Lemma burst_runes b : keyboard.burst_wf b -> Forall (fun e => is_i32 (keyboard.Ch e)) (keyboard.burst_events b).
Proof.
  intros (Hk & _). apply Forall_app. split; [|by destruct (keyboard.b_escape b); repeat constructor].
  apply Forall_concat, Forall_map. eapply Forall_impl; [exact Hk|]. intros k Hw. apply Forall_forall.
  intros e He%sent_id. subst. by apply typed_rune.
Qed.

(** What the cases of the [select] stand for. *)
Fixpoint arm_events (ticking : bool) (arms : list Arm) : list Event :=
  match arms with
  | [] | ADone :: _ | AKey None :: _ => []
  | ABus e :: arms' => e :: arm_events ticking arms'
  | ATick :: arms' => if ticking then event0 KindNone :: arm_events ticking arms' else arm_events ticking arms'
  | AWinch w h :: arms' => resize_event w h :: arm_events ticking arms'
  | AKey (Some k) :: arms' =>
    match mapInput k with
    | Some e => e :: arm_events ticking arms'
    | None => arm_events ticking arms'
    end
  end.

Lemma tty_select_spec s arms :
  match tty_select s arms with
  | Some (s', Some e, arms') =>
    s' = s /\ arm_events (tty_ticker s) arms = e :: arm_events (tty_ticker s) arms' /\ (length arms' < length arms)%nat
  | _ => arm_events (tty_ticker s) arms = []
  end.
Proof.
  induction arms as [|a arms IH]; [done|].
  destruct a as [|e| |w h|[k|]]; cbn [tty_select arm_events]; try done; try (split_and!; [done|done|simpl; lia]).
  - destruct (tty_ticker s) eqn:Ht; [split_and!; [done|done|simpl; lia]|].
    destruct (tty_select s arms) as [[[s' [e|]] arms']|]; try done. destruct IH as (? & ? & ?). split_and!; [done|done|simpl; lia].
  - destruct (mapInput k) as [e|]; [split_and!; [done|done|simpl; lia]|].
    destruct (tty_select s arms) as [[[s' [e|]] arms']|]; try done. destruct IH as (? & ? & ?). split_and!; [done|done|simpl; lia].
Qed.

Lemma tty_drain_spec fuel s size arms :
  tty_sentInitial s = true -> (length arms < fuel)%nat ->
  tty_drain fuel s size arms = arm_events (tty_ticker s) arms.
Proof.
  revert arms. induction fuel as [|fuel IH]; intros arms Hs Hf; [lia|]. cbn [tty_drain].
  unfold TTYSource_Next. rewrite Hs. pose proof (tty_select_spec s arms) as H.
  destruct (tty_select s arms) as [[[s' [e|]] arms']|]; try done.
  destruct H as (-> & -> & Hl). f_equal. apply IH; [done|lia].
Qed.

Lemma tty_source_events Refresh fuel size arms :
  (S (length arms) < fuel)%nat ->
  tty_drain fuel (mkTTY Refresh false false) size arms = resize_event size.1 size.2 :: arm_events (0 <? Refresh) arms.
Proof.
  intros Hf. destruct fuel as [|fuel]; [lia|]. cbn [tty_drain TTYSource_Next tty_sentInitial tty_Refresh]. f_equal.
  rewrite tty_drain_spec; [done|done|lia].
Qed.

Lemma arm_events_keys t ks :
  arm_events t (map (fun k => AKey (Some k)) ks ++ [AKey None]) = omap mapInput ks.
Proof. induction ks as [|k ks IH]; [done|]. cbn. rewrite IH. by destruct (mapInput k). Qed.

(** *** The merge *)

(** Shuffles: [l] is made of [a] and [b], each in its order. *)
Inductive interleaving {A} : list A -> list A -> list A -> Prop :=
| inter_nil : interleaving [] [] []
| inter_left x a b l : interleaving a b l -> interleaving (a ++ [x]) b (l ++ [x])
| inter_right x a b l : interleaving a b l -> interleaving a (b ++ [x]) (l ++ [x]).
#[local] Hint Constructors interleaving : core.

Definition events (l : list (option Event)) : list Event := omap id l.
Definition in_hand (m : merged) : list (option Event) := match mg_hand m with Some r => [r] | None => [] end.

(** Where every event is: [a] has come from the base source and [b] from the host. *)
Definition merged_inv (base : list (option Event)) (tr : list act) (m : merged) : Prop :=
  exists a b, interleaving a b (returned tr) /\ generated tr = b ++ mg_extras m /\
    (events base = a ++ events (in_hand m) ++ events (mg_base m) \/
     mg_done m = true /\ mg_hand m = None /\ mg_pumping m = false /\ a `prefix_of` events base).

Lemma omap_snoc {A B} (f : A -> option B) l x : omap f (l ++ [x]) = omap f l ++ match f x with Some y => [y] | None => [] end.
Proof. rewrite omap_app. cbn. by destruct (f x). Qed.

Lemma events_cons r l : events (r :: l) = events [r] ++ events l.
Proof. unfold events. cbn. by destruct r. Qed.

Lemma merged_step_inv base tr m l m' : merged_inv base tr m -> merged_step m l m' -> merged_inv base (tr ++ [l]) m'.
Proof.
  intros (a & b & Hi & Hg & Hb) Hs. unfold merged_inv, returned, generated in *.
  inversion Hs; subst; clear Hs; rewrite !omap_snoc, ?app_nil_r;
    unfold in_hand in *; cbn [mg_extras mg_hand mg_base mg_done mg_pumping] in *.
  - exists a, b. split_and!; [done|done|]. left. destruct Hb as [->|(_ & _ & ? & _)]; [|done].
    by rewrite (events_cons r).
  - exists a, b. split_and!; [done|done|]. destruct Hb as [?|(? & _)]; [by left|done].
  - exists a, b. split_and!; [done|done|]. right. destruct Hb as [->|(_ & ? & _)]; [|done].
    split_and!; [done|done|done|]. by apply prefix_app_r.
  - exists a, b. split_and!; [done|by rewrite Hg, app_assoc|done].
  - by exists a, b.
  - by exists a, b.
  - exists a, (b ++ [e]). split_and!; [by constructor|by rewrite Hg, <- app_assoc|done].
  - by exists a, b.
  - destruct Hb as [Hb|(_ & ? & _)]; [|done]. destruct r as [e|].
    + exists (a ++ [e]), b. split_and!; [by constructor|done|]. left. by rewrite Hb, <- app_assoc.
    + exists a, b. rewrite app_nil_r. split_and!; [done|done|]. by left.
  - by exists a, b.
Qed.

Lemma merged_run_inv base tr m : merged_run (newMergedSource base) tr m -> merged_inv base tr m.
Proof.
  induction 1 as [|tr m1 l m2 _ IH Hs]; [|by eapply merged_step_inv].
  exists [], []. split_and!; [constructor|done|by left].
Qed.

(** *** Scripts *)

Lemma script_steps_events u tokens : map ev (script_steps u tokens) = omap (ParseToken u) tokens.
Proof. induction tokens as [|t tokens IH]; [done|]. cbn. destruct (ParseToken u t); cbn; by rewrite IH. Qed.

Lemma script_drain_spec {W} `{Writer W} fuel (s : ScriptSource W) :
  0 <= ss_i s -> (length (steps s) < fuel + Z.to_nat (ss_i s))%nat ->
  script_drain fuel s = Ok (map ev (drop (Z.to_nat (ss_i s)) (steps s))).
Proof.
  revert s. induction fuel as [|fuel IH]; intros s Hi Hf; cbn [script_drain].
  { rewrite drop_ge by lia. done. }
  unfold ScriptSource_Next. destruct (len (steps s) <=? ss_i s) eqn:Hl; zbool.
  - cbn [rbind]. rewrite drop_ge by (unfold len in Hl; lia). done.
  - destruct (index_no_panic (E:=unit) (steps s) (ss_i s)) as (st & -> & Hst); [lia|]. cbn [rbind].
    rewrite IH by (cbn [ss_i steps]; lia). cbn [rbind ss_i steps].
    rewrite (drop_S _ _ _ Hst). replace (Z.to_nat (ss_i s + 1)) with (S (Z.to_nat (ss_i s))) by lia. done.
Qed.

(** ** Theorems *)

(** C28 (what is typed reaches the guest): the keys of a viewer's bursts go, in
    order and with nothing added, from the bytes of the terminal through the
    parser and the live source to the guest: the first event is the size of the
    terminal, the others are the supported keys and mouse reports, and each is
    decoded by the guest from its wire form as exactly itself. *)
Theorem typed_keys_reach_guest Refresh bs size :
  Forall keyboard.burst_wf bs -> is_u16 size.1 -> is_u16 size.2 ->
  Forall (fun e => is_u16 (keyboard.MouseX e) /\ is_u16 (keyboard.MouseY e)) (concat (map keyboard.burst_events bs)) ->
  let keys := keyboard.ListenReader (concat (map keyboard.burst_reads bs)) in
  let arms := map (fun k => AKey (Some k)) keys ++ [AKey None] in
  let delivered := tty_drain (2 + length arms) (mkTTY Refresh false false) size arms in
  delivered = resize_event size.1 size.2 :: omap mapInput (concat (map keyboard.burst_events bs)) /\
  Forall (fun e => forall dst, rbind (AppendEvent dst e) DecodeEvent = Ok e) delivered.
Proof.
  intros Hbs Hw Hh Hmouse keys arms delivered.
  assert (Hkeys : keys = concat (map keyboard.burst_events bs)) by (apply keyboard.listen_bursts; [done|lia]).
  assert (Hd : delivered = resize_event size.1 size.2 :: omap mapInput keys).
  { unfold delivered. rewrite tty_source_events by lia. unfold arms. by rewrite arm_events_keys. }
  split; [by rewrite Hd, Hkeys|]. rewrite Hd.
  assert (Hwire : forall e, event_wf e -> forall dst, rbind (AppendEvent dst e) DecodeEvent = Ok e).
  { intros e He dst. rewrite AppendEvent_wire. by apply DecodeEvent_wire. }
  constructor; [by apply Hwire, resize_wf|].
  apply Forall_forall. intros e He%list_elem_of_omap. destruct He as (k & Hk & Hm).
  apply Hwire. rewrite Hkeys in Hk. rewrite Forall_forall in Hmouse. destruct (Hmouse k Hk).
  eapply mapInput_wf; [|done|done|done].
  apply list_elem_of_In, in_concat in Hk as (l & Hl & Hk). apply in_map_iff in Hl as (b & <- & Hb).
  rewrite Forall_forall in Hbs. pose proof (burst_runes b (Hbs b ltac:(by apply list_elem_of_In))) as Hr.
  rewrite Forall_forall in Hr. by apply Hr, list_elem_of_In.
Qed.

Lemma typed_keys_reach_guest_witness :
  let keys := keyboard.ListenReader (concat (map keyboard.burst_reads sample_bursts)) in
  let arms := map (fun k => AKey (Some k)) keys ++ [AKey None] in
  tty_drain (2 + length arms) (mkTTY 0 false false) (80, 24) arms =
    [resize_event 80 24; key_event KeyRune 104 0; key_event KeyRune 0xE9 0; key_event KeyArrowUp 0 0;
     mkEvent KindMouse 0 0 0 0 0 [] [] 9 4 MouseButtonLeft MouseDown 0; key_event KeyEscape 0 0; key_event KeyRune 106 0] /\
  Forall (fun e => forall dst, rbind (AppendEvent dst e) DecodeEvent = Ok e)
    (tty_drain (2 + length arms) (mkTTY 0 false false) (80, 24) arms).
Proof.
  split; [vm_compute; reflexivity|].
  apply (typed_keys_reach_guest 0 sample_bursts (80, 24)).
  - repeat constructor; try (vm_compute; congruence); try set_solver.
  - by vm_compute.
  - by vm_compute.
  - repeat constructor; by vm_compute.
Defined.

(** (merging loses nothing): whatever the interleaving of the session, the
    pump, the host and a cancellation, the events a session receives are a
    shuffle of events of its source and of events the host generated, each in its
    order and once; generated events not received are still queued; and of the
    source none is missing but the one the pump holds, until the session is
    cancelled. *)
Theorem merge_keeps_order base tr m :
  merged_run (newMergedSource base) tr m ->
  exists a b, interleaving a b (returned tr) /\ generated tr = b ++ mg_extras m /\
    (events base = a ++ events (in_hand m) ++ events (mg_base m) \/
     mg_done m = true /\ mg_hand m = None /\ mg_pumping m = false /\ a `prefix_of` events base).
Proof. apply merged_run_inv. Qed.

Definition tick : Event := event0 KindTimer.
Definition sample_base : list (option Event) := [Some (key_event KeyEnter 0 0); Some (key_event KeyTab 0 0); None].

Lemma merge_keeps_order_witness :
  merged_run (newMergedSource sample_base) [Tau; Gen tick; Ret (Some tick); Ret (Some (key_event KeyEnter 0 0)); Tau]
    (mkMerged [None] (Some (Some (key_event KeyTab 0 0))) true [] false false) /\
  exists a b, interleaving a b [tick; key_event KeyEnter 0 0] /\ [tick] = b ++ [] /\
    (events sample_base = a ++ [key_event KeyTab 0 0] ++ [] \/ false = true).
Proof.
  assert (Hrun : merged_run (newMergedSource sample_base)
    [Tau; Gen tick; Ret (Some tick); Ret (Some (key_event KeyEnter 0 0)); Tau]
    (mkMerged [None] (Some (Some (key_event KeyTab 0 0))) true [] false false)).
  { change [Tau; Gen tick; Ret (Some tick); Ret (Some (key_event KeyEnter 0 0)); Tau]
      with ((((([] ++ [Tau]) ++ [Gen tick]) ++ [Ret (Some tick)]) ++ [Ret (Some (key_event KeyEnter 0 0))]) ++ [Tau]).
    eapply run_snoc; [eapply run_snoc; [eapply run_snoc; [eapply run_snoc; [eapply run_snoc; [apply run_nil|]|]|]|]|].
    - apply MPump.
    - apply MExtra.
    - apply NextExtra.
    - apply NextBase.
    - apply MPump. }
  split; [exact Hrun|].
  destruct (merge_keeps_order _ _ _ Hrun) as (a & b & H1 & H2 & H3). exists a, b.
  split; [exact H1|]. split; [exact H2|]. destruct H3 as [H3|[H3 _]]; [left; exact H3|right; exact H3].
Defined.

(** (scripts): a script source delivers the size and then its recognised tokens in
    order, without panicking, whatever is echoed. *)
Theorem script_exact {W} `{Writer W} u w h tokens echo :
  let s := NewScriptSource (W:=W) u w h tokens in
  script_drain (2 + length tokens) (mkScript W echo (steps s) (ss_i s))
    = Ok (resize_event w h :: omap (ParseToken u) tokens).
Proof.
  intros s. rewrite script_drain_spec; cbn [ss_i steps s NewScriptSource].
  - change (Ok (E:=unit) (resize_event w h :: map ev (script_steps u tokens)) = Ok (resize_event w h :: omap (ParseToken u) tokens)).
    by rewrite script_steps_events.
  - lia.
  - cbn [length Z.to_nat]. enough (length (script_steps u tokens) <= length tokens)%nat by lia.
    clear. induction tokens as [|t tokens IH]; [done|]. cbn. destruct (ParseToken u t); simpl; lia.
Qed.
