(* ===== verification/CliText.v ===== *)
(** * Text of the command-line package (sdk/cli/cli.go)

    The command-string lexer, the filter and bounds on what a command reads and
    writes, and the spelling suggestions. *)

From S2P Require Import Prelude Utf8 GoStrings Streams.

Definition MaxArgs : Z := 64.
Definition MaxArgument : Z := 256.
Definition MaxCommandName : Z := 32.
Definition MaxSummary : Z := 256.
Definition MaxDepth : Z := 8.
Definition MaxCommands : Z := 128.
Definition MaxFlags : Z := 32.
Definition MaxOutput : Z := 65536.
Definition MaxInput : Z := 1048576.
Definition MaxDescription : Z := 1024.

(** ** Lex *)

(** What follows ["cli: invalid command string: "] in the message. *)
Inductive LexErr :=
| command_too_large | control_byte | trailing_escape | shell_operator
| unterminated_quote | argument_too_large | too_many_arguments.

Definition appendLexWord (words : list bytes) (word : bytes) : res LexErr (list bytes) :=
  if MaxArgument <? len word then Err argument_too_large
  else if MaxArgs <=? len words then Err too_many_arguments
  else Ok (words ++ [word]).

Definition lex_control (ch : Z) : bool :=
  (ch =? 0) || (ch =? 0x7f) || ((ch <? 0x20) && negb (ch =? 32) && negb (ch =? 9)).

Definition is_quote (ch : Z) : bool := (ch =? 39) || (ch =? 34).
Definition is_blank (ch : Z) : bool := (ch =? 32) || (ch =? 9).
(** The bytes of "|;&><`". *)
Definition is_operator (ch : Z) : bool := existsb (Z.eqb ch) [124; 59; 38; 62; 60; 96].

(** The loop over the bytes; [quote] is 0 outside quotes. *)
Fixpoint lex_loop (command : bytes) (words : list bytes) (word : bytes) (inWord : bool) (quote : Z) :
    res LexErr (list bytes) :=
  match command with
  | [] =>
    if negb (quote =? 0) then Err unterminated_quote
    else if inWord then appendLexWord words word else Ok words
  | ch :: rest =>
    if lex_control ch then Err control_byte
    else if quote =? 0 then
      if is_quote ch then lex_loop rest words word true ch
      else if ch =? 92 then
        match rest with
        | [] => Err trailing_escape
        | c :: rest' => lex_loop rest' words (word ++ [c]) true quote
        end
      else if is_blank ch then
        if inWord then let? words := appendLexWord words word in lex_loop rest words [] false quote
        else lex_loop rest words word false quote
      else if is_operator ch then Err shell_operator
      else lex_loop rest words (word ++ [ch]) true quote
    else if ch =? quote then lex_loop rest words word inWord 0
    else if (quote =? 34) && (ch =? 92) then
      match rest with
      | [] => Err trailing_escape
      | c :: rest' => lex_loop rest' words (word ++ [c]) inWord quote
      end
    else lex_loop rest words (word ++ [ch]) inWord quote
  end.

Definition Lex (command : bytes) : res LexErr (list bytes) :=
  if MaxInput <? len command then Err command_too_large else lex_loop command [] [] false 0.

(** ** safeText *)

(** The loop of [strings.ToValidUTF8]; [invalid]: the last byte was part of an
    invalid run, already replaced.  Every round takes at least one byte. *)
Fixpoint to_valid (fuel : nat) (rep : bytes) (invalid : bool) (s : bytes) : bytes :=
  match fuel, s with
  | S fuel', b :: s' =>
    if b <? 0x80 then b :: to_valid fuel' rep false s'
    else let '(_, wid) := decode_rune s in
         if (wid =? 1)%nat then (if invalid then [] else rep) ++ to_valid fuel' rep true s'
         else take wid s ++ to_valid fuel' rep false (drop wid s)
  | _, _ => []
  end.

Definition ToValidUTF8 (s rep : bytes) : bytes := to_valid (length s) rep false s.

Definition replacement : bytes := [0xEF; 0xBF; 0xBD].

Definition safe_rune (r : Z) : bool :=
  (r =? 10) || (r =? 13) || (r =? 9) || ((0x20 <=? r) && negb (r =? 0x7f)).

Definition safeText (value : bytes) : bytes :=
  concat (map encode_rune (filter (fun r => safe_rune r = true) (runes (ToValidUTF8 value replacement)))).

(** ** Bounded streams *)

(** [io.Reader]: the new state, what was read into a target of the given length,
    and whether an error came with it. *)
Class ByteReader (R : Type) := rd : R -> Z -> R * bytes * bool.
Class ByteReaderLaws (R : Type) `{ByteReader R} := rd_bound r n r' p e : rd r n = (r', p, e) -> len p <= Z.max 0 n.

Inductive ReadErr := RNone | RLimit | ROther.

Record boundedReader (R : Type) := mkBR { br_reader : R; br_limit : Z; br_read : Z }.
Arguments mkBR {R}.
Arguments br_reader {R}.
Arguments br_limit {R}.
Arguments br_read {R}.

(** [Read] into a target of [n] bytes; the bytes the caller is told of. *)
Definition boundedReader_Read {R} `{ByteReader R} (r : boundedReader R) (n : Z) : boundedReader R * bytes * ReadErr :=
  if br_limit r <? br_read r then (r, [], RLimit) else
  let remaining := br_limit r - br_read r + 1 in
  let n := if remaining <? n then remaining else n in
  let '(u, p, e) := rd (br_reader r) n in
  let r' := mkBR u (br_limit r) (br_read r + len p) in
  if br_limit r <? br_read r' then (r', [], RLimit) else (r', p, if (e : bool) then ROther else RNone).

(** [bw_err]: the sticky [ErrLimit]. *)
Record boundedWriter := mkBW { bw_data : bytes; bw_limit : Z; bw_err : bool }.

(** The count returned is [len data], or 0 with [ErrLimit]. *)
Definition boundedWriter_Write (w : boundedWriter) (data : bytes) : boundedWriter * Z * bool :=
  if bw_err w then (w, 0, true) else
  let text := safeText data in
  if bw_limit w <? len (bw_data w) + len text then (mkBW (bw_data w) (bw_limit w) true, 0, true)
  else (mkBW (bw_data w ++ text) (bw_limit w) false, len data, false).

Definition bw_writes (w : boundedWriter) (writes : list bytes) : boundedWriter :=
  fold_left (fun w data => (boundedWriter_Write w data).1.1) writes w.

(** ** Suggestions *)

(** [for i, r := range s]: byte offsets and runes. *)
Fixpoint range_loop (fuel : nat) (s : bytes) (i : Z) : list (Z * Z) :=
  match fuel, s with
  | S fuel', _ :: _ => let '(r, n) := decode_rune s in (i, r) :: range_loop fuel' (drop n s) (i + Z.of_nat n)
  | _, _ => []
  end.
Definition range (s : bytes) : list (Z * Z) := range_loop (length s) s 0.

(** [l[i]] where the loops of [editDistance] keep [i] in range. *)
Definition at_ (l : list Z) (i : Z) : Z := default 0 (l !! Z.to_nat i).

Definition edit_cell (previous : list Z) (lr : Z) (current : list Z) (jr : Z * Z) : list Z :=
  let '(j, rr) := jr in
  let cost := if lr =? rr then 0 else 1 in
  <[Z.to_nat (j + 1) := Z.min (Z.min (at_ previous (j + 1) + 1) (at_ current j + 1)) (at_ previous j + cost)]> current.

Definition edit_row (b : bytes) (previous : list Z) (il : Z * Z) : list Z :=
  let '(i, lr) := il in
  let current := <[0%nat := i + 1]> (replicate (S (length b)) 0) in
  fold_left (edit_cell previous lr) (range b) current.

Definition editDistance (a b : bytes) : Z :=
  let previous := map Z.of_nat (seq 0 (S (length b))) in
  at_ (fold_left (edit_row b) (range a) previous) (len b).

Fixpoint TrimLeft_dash (s : bytes) : bytes :=
  match s with
  | c :: s' => if c =? 45 then TrimLeft_dash s' else s
  | [] => []
  end.

Definition suggest_step (name : bytes) (acc : bytes * Z) (candidate : bytes) : bytes * Z :=
  let '(best, distance) := acc in
  let current := editDistance name (TrimLeft_dash candidate) in
  if current <? distance then (candidate, current)
  else if current =? distance then ([], distance) else (best, distance).

Definition suggestion (name : bytes) (candidates : list bytes) : option bytes :=
  let best := (fold_left (suggest_step name) candidates ([], 3)).1 in
  if bool_decide (best = []) then None else Some best.

(** ** What Lex accepts *)

(** A piece of a word: a plain byte, an escaped byte, and quoted text, in which
    double quotes know escapes ([true]). *)
Inductive piece :=
| Bare (c : Z) | Esc (c : Z) | Single (t : bytes) | Double (t : list (bool * Z)).

Definition dq_text (x : bool * Z) : bytes := if x.1 then [92; x.2] else [x.2].

Definition piece_text (p : piece) : bytes :=
  match p with
  | Bare c => [c]
  | Esc c => [92; c]
  | Single t => 39 :: t ++ [39]
  | Double t => 34 :: concat (map dq_text t) ++ [34]
  end.

Definition piece_word (p : piece) : bytes :=
  match p with
  | Bare c | Esc c => [c]
  | Single t => t
  | Double t => map snd t
  end.

Definition piece_ok (p : piece) : Prop :=
  match p with
  | Bare c => lex_control c = false /\ is_quote c = false /\ c <> 92 /\ is_blank c = false /\ is_operator c = false
  | Esc _ => True
  | Single t => Forall (fun c => lex_control c = false /\ c <> 39) t
  | Double t => Forall (fun x => x.1 = false -> lex_control x.2 = false /\ x.2 <> 34 /\ x.2 <> 92) t
  end.

Definition word_end (rest : bytes) : Prop := match rest with [] => True | c :: _ => is_blank c = true end.

(** A command spells its words: words of one or more pieces, separated by blanks. *)
Inductive spells : bytes -> list bytes -> Prop :=
| spells_end blanks : Forall (fun c => is_blank c = true) blanks -> spells blanks []
| spells_word blanks ps rest ws :
    Forall (fun c => is_blank c = true) blanks -> ps <> [] -> Forall piece_ok ps -> word_end rest ->
    spells rest ws ->
    spells (blanks ++ concat (map piece_text ps) ++ rest) (concat (map piece_word ps) :: ws).

Lemma blank_spec c : is_blank c = true -> lex_control c = false /\ is_quote c = false /\ c <> 92.
Proof.
  unfold is_blank. rewrite orb_true_iff, !Z.eqb_eq. by intros [-> | ->].
Qed.

Lemma lex_blanks blanks rest words :
  Forall (fun c => is_blank c = true) blanks ->
  lex_loop (blanks ++ rest) words [] false 0 = lex_loop rest words [] false 0.
Proof.
  induction 1 as [|c blanks Hc _ IH]; [done|]. cbn [app lex_loop].
  destruct (blank_spec c Hc) as (-> & -> & Hne). by rewrite (proj2 (Z.eqb_neq c 92)), Hc.
Qed.

Lemma lex_single t rest words word inWord :
  Forall (fun c => lex_control c = false /\ c <> 39) t ->
  lex_loop (t ++ 39 :: rest) words word inWord 39 = lex_loop rest words (word ++ t) inWord 0.
Proof.
  intros Ht. revert word. induction Ht as [|c t [Hc Hq] _ IH]; intros word; [by rewrite app_nil_r|].
  cbn [app lex_loop]. rewrite Hc. cbn [Z.eqb Pos.eqb]. rewrite (proj2 (Z.eqb_neq c 39)) by done. cbn [andb].
  rewrite IH. by rewrite <- app_assoc.
Qed.

Lemma lex_double t rest words word inWord :
  Forall (fun x => x.1 = false -> lex_control x.2 = false /\ x.2 <> 34 /\ x.2 <> 92) t ->
  lex_loop (concat (map dq_text t) ++ 34 :: rest) words word inWord 34 = lex_loop rest words (word ++ map snd t) inWord 0.
Proof.
  intros Ht. revert word. induction Ht as [|[e c] t Hx _ IH]; intros word; [by rewrite app_nil_r|].
  cbn [map concat snd]. destruct e; cbn [dq_text fst snd app lex_loop].
  - cbn. rewrite IH. by rewrite <- app_assoc.
  - destruct (Hx eq_refl) as (Hc & H34 & H92). cbn [fst snd] in *. rewrite Hc.
    rewrite (proj2 (Z.eqb_neq c 34)), (proj2 (Z.eqb_neq c 92)) by done. cbn [Z.eqb Pos.eqb andb]. rewrite IH. by rewrite <- app_assoc.
Qed.

Lemma lex_piece p rest words word inWord :
  piece_ok p -> lex_loop (piece_text p ++ rest) words word inWord 0 = lex_loop rest words (word ++ piece_word p) true 0.
Proof.
  destruct p as [c|c|t|t]; cbn [piece_ok piece_text piece_word].
  - intros (H1 & H2 & H3 & H4 & H5). cbn [app lex_loop]. by rewrite H1, H2, (proj2 (Z.eqb_neq c 92)), H4, H5.
  - done.
  - intros Ht. cbn [app]. rewrite <- app_assoc. cbn [app].
    transitivity (lex_loop (t ++ 39 :: rest) words word true 39); [done|by apply lex_single].
  - intros Ht. cbn [app]. rewrite <- app_assoc. cbn [app].
    transitivity (lex_loop (concat (map dq_text t) ++ 34 :: rest) words word true 34); [done|by apply lex_double].
Qed.

Lemma lex_pieces ps rest words word inWord :
  Forall piece_ok ps -> ps <> [] ->
  lex_loop (concat (map piece_text ps) ++ rest) words word inWord 0 =
    lex_loop rest words (word ++ concat (map piece_word ps)) true 0.
Proof.
  intros Hps Hne. assert (Hg : forall word inWord, lex_loop (concat (map piece_text ps) ++ rest) words word inWord 0 =
    lex_loop rest words (word ++ concat (map piece_word ps)) (inWord || negb (bool_decide (ps = []))) 0).
  { clear Hne. induction Hps as [|p ps Hp _ IH]; intros w iw.
    - cbn. by rewrite app_nil_r, orb_false_r.
    - cbn [map concat]. rewrite <- app_assoc, lex_piece, IH, <- app_assoc by done.
      rewrite (bool_decide_eq_false_2 (p :: ps = [])) by done. by rewrite !orb_true_r. }
  rewrite Hg, bool_decide_eq_false_2 by done. by rewrite orb_true_r.
Qed.

Definition words_fit (words : list bytes) : Prop := len words <= MaxArgs /\ Forall (fun w => len w <= MaxArgument) words.

Lemma append_word words word :
  words_fit (words ++ [word]) -> appendLexWord words word = Ok (words ++ [word]).
Proof.
  intros [Hl Hw]. rewrite len_app in Hl. apply Forall_app in Hw as [_ Hw]. apply Forall_cons in Hw as [Hw _].
  unfold appendLexWord. rewrite (proj2 (Z.ltb_ge _ _)), (proj2 (Z.leb_gt _ _)) by len_lia. done.
Qed.

Lemma append_word_inv words word ws :
  appendLexWord words word = Ok ws -> ws = words ++ [word] /\ len word <= MaxArgument /\ len words < MaxArgs.
Proof. unfold appendLexWord. repeat (case_match; [done|]). intros [= <-]. zbool. by split_and!; [|lia|lia]. Qed.

(** The word ends at a blank or at the end of the command. *)
Lemma lex_word_end rest words word :
  word_end rest -> words_fit (words ++ [word]) ->
  lex_loop rest words word true 0 = lex_loop rest (words ++ [word]) [] false 0.
Proof.
  intros Hr Hw. destruct rest as [|c rest]; cbn [lex_loop Z.eqb negb].
  - by apply append_word.
  - cbn in Hr. destruct (blank_spec c Hr) as (-> & -> & Hne). rewrite (proj2 (Z.eqb_neq c 92)), Hr by done.
    by rewrite append_word.
Qed.

Lemma spells_lex command ws :
  spells command ws -> forall words, words_fit (words ++ ws) -> lex_loop command words [] false 0 = Ok (words ++ ws).
Proof.
  induction 1 as [blanks Hb|blanks ps rest ws Hb Hne Hps Hend Hsp IH]; intros words Hw.
  - rewrite <- (app_nil_r blanks), lex_blanks by done. cbn. by rewrite app_nil_r.
  - rewrite lex_blanks, lex_pieces by done. cbn [app].
    replace (words ++ concat (map piece_word ps) :: ws) with ((words ++ [concat (map piece_word ps)]) ++ ws) in *
      by by rewrite <- app_assoc.
    rewrite lex_word_end; [by apply IH|done|].
    destruct Hw as [Hl Hf]. apply Forall_app in Hf as [Hf _]. split; [|done]. rewrite len_app in Hl. len_pos. lia.
Qed.

(** Conversely, what is accepted is spelled. *)
Lemma lex_single_inv command words word inWord r :
  lex_loop command words word inWord 39 = Ok r ->
  exists t rest, command = t ++ 39 :: rest /\ Forall (fun c => lex_control c = false /\ c <> 39) t /\
    lex_loop rest words (word ++ t) inWord 0 = Ok r.
Proof.
  revert word. induction command as [|c command IH]; intros word; cbn [lex_loop Z.eqb Pos.eqb negb andb]; [done|].
  destruct (lex_control c) eqn:Hc; [done|]. destruct (c =? 39) eqn:Hq; zbool.
  - intros H. exists [], command. rewrite Hq, app_nil_r. by split_and!.
  - intros H. apply IH in H as (t & rest & -> & Ht & H). exists (c :: t), rest.
    rewrite <- app_assoc in H. split_and!; [done|by constructor|done].
Qed.

Lemma lex_double_inv n command words word inWord r :
  (length command <= n)%nat -> lex_loop command words word inWord 34 = Ok r ->
  exists t rest, command = concat (map dq_text t) ++ 34 :: rest /\
    Forall (fun x => x.1 = false -> lex_control x.2 = false /\ x.2 <> 34 /\ x.2 <> 92) t /\
    lex_loop rest words (word ++ map snd t) inWord 0 = Ok r.
Proof.
  revert command word. induction n as [|n IH]; intros [|c command] word Hl; try done; [simpl in Hl; lia|].
  cbn [lex_loop]. change (34 =? 0) with false. change (34 =? 34) with true. cbn [andb].
  destruct (lex_control c) eqn:Hc; [done|]. destruct (c =? 34) eqn:Hq; zbool.
  { intros H. exists [], command. cbn. rewrite Hq, app_nil_r. by split_and!. }
  destruct (c =? 92) eqn:He; zbool.
  - destruct command as [|d command]; [done|]. intros H. apply IH in H as (t & rest & -> & Ht & H); [|simpl in *; lia].
    exists ((true, d) :: t), rest. rewrite <- app_assoc in H. subst c. split_and!; [done|by constructor|done].
  - intros H. apply IH in H as (t & rest & -> & Ht & H); [|simpl in *; lia].
    exists ((false, c) :: t), rest. rewrite <- app_assoc in H. split_and!; [done|by constructor|done].
Qed.

(** Within a word the command goes on with a piece. *)
Lemma lex_piece_inv c command words word inWord r :
  is_blank c = false -> lex_loop (c :: command) words word inWord 0 = Ok r ->
  exists p rest, c :: command = piece_text p ++ rest /\ piece_ok p /\ (length rest <= length command)%nat /\
    lex_loop rest words (word ++ piece_word p) true 0 = Ok r.
Proof.
  intros Hb. cbn [lex_loop Z.eqb]. destruct (lex_control c) eqn:Hc; [done|].
  destruct (is_quote c) eqn:Hq.
  - unfold is_quote in Hq. apply orb_true_iff in Hq as [Hq|Hq]; apply Z.eqb_eq in Hq as ->; intros H.
    + apply lex_single_inv in H as (t & rest & -> & Ht & H). exists (Single t), rest.
      split_and!; [cbn; by rewrite <- app_assoc|done|rewrite length_app; simpl; lia|done].
    + eapply lex_double_inv in H as (t & rest & -> & Ht & H); [|done]. exists (Double t), rest.
      split_and!; [cbn; by rewrite <- app_assoc|done|rewrite length_app; simpl; lia|done].
  - destruct (c =? 92) eqn:He; zbool.
    + destruct command as [|d command]; [done|]. intros H. exists (Esc d), command. subst c.
      split_and!; [done|done|simpl; lia|done].
    + rewrite Hb. destruct (is_operator c) eqn:Ho; [done|]. intros H. exists (Bare c), command. by split_and!.
Qed.

Lemma spells_blank c rest ws : is_blank c = true -> spells rest ws -> spells (c :: rest) ws.
Proof.
  intros Hc. destruct 1 as [blanks Hb|blanks ps rest ws Hb Hne Hps Hend Hsp].
  - constructor. by constructor.
  - apply (spells_word (c :: blanks)); by try constructor.
Qed.

Lemma lex_spells n command :
  (length command <= n)%nat ->
  (forall words r, lex_loop command words [] false 0 = Ok r -> exists ws,
     r = words ++ ws /\ spells command ws /\ Forall (fun w => len w <= MaxArgument) ws /\ (ws <> [] -> len r <= MaxArgs)) /\
  (forall words word r, lex_loop command words word true 0 = Ok r -> exists ps rest ws,
     command = concat (map piece_text ps) ++ rest /\ Forall piece_ok ps /\ word_end rest /\ spells rest ws /\
     r = words ++ (word ++ concat (map piece_word ps)) :: ws /\
     Forall (fun w => len w <= MaxArgument) ((word ++ concat (map piece_word ps)) :: ws) /\ len r <= MaxArgs).
Proof.
  revert command. induction n as [|n IH]; intros [|c command] Hl; try (simpl in Hl; lia).
  1, 2: split.
  1, 3: intros words r [= <-]; exists []; rewrite app_nil_r; split_and!; [done|by apply spells_end|done|done].
  1, 2: intros words word r H; cbn in H; apply append_word_inv in H as (-> & H1 & H2);
    exists [], [], []; cbn [map concat]; rewrite (app_nil_r word);
    split_and!; [done|done|done|by apply spells_end|done|by repeat constructor|len_lia].
  destruct (is_blank c) eqn:Hb.
  - (* a blank: the word, if any, ends here *)
    destruct (blank_spec c Hb) as (Hc & Hq & He). destruct (IH command) as [IH1 _]; [simpl in Hl; lia|].
    assert (Hstep : forall words, lex_loop (c :: command) words [] false 0 = lex_loop command words [] false 0).
    { intros words. cbn [lex_loop Z.eqb]. by rewrite Hc, Hq, (proj2 (Z.eqb_neq c 92)), Hb. }
    assert (Hend : forall words r, lex_loop (c :: command) words [] false 0 = Ok r -> exists ws,
      r = words ++ ws /\ spells (c :: command) ws /\ Forall (fun w => len w <= MaxArgument) ws /\ (ws <> [] -> len r <= MaxArgs)).
    { intros words r H. rewrite Hstep in H. apply IH1 in H as (ws & -> & Hs & Hf & Hm). exists ws.
      split_and!; [done|by apply spells_blank|done|done]. }
    split; [exact Hend|]. intros words word r. cbn [lex_loop Z.eqb].
    rewrite Hc, Hq, (proj2 (Z.eqb_neq c 92)), Hb by done. intros H. apply rbind_ok in H as (words' & Ha & H).
    apply append_word_inv in Ha as (-> & H1 & H2). rewrite <- Hstep in H. apply Hend in H as (ws & -> & Hs & Hf & Hm).
    exists [], (c :: command), ws. cbn [map concat app]. rewrite (app_nil_r word), <- app_assoc.
    split_and!; [done|done|done|done|done|by constructor|].
    destruct ws as [|w ws]; [len_lia|]. rewrite <- app_assoc in Hm. by apply Hm.
  - (* a piece *)
    assert (Hstep : forall words word inWord r, lex_loop (c :: command) words word inWord 0 = Ok r ->
      exists ps rest ws, ps <> [] /\ c :: command = concat (map piece_text ps) ++ rest /\ Forall piece_ok ps /\ word_end rest /\
        spells rest ws /\ r = words ++ (word ++ concat (map piece_word ps)) :: ws /\
        Forall (fun w => len w <= MaxArgument) ((word ++ concat (map piece_word ps)) :: ws) /\ len r <= MaxArgs).
    { intros words word inWord r H. apply lex_piece_inv in H as (p & rest & Heq & Hp & Hlr & H); [|done].
      apply (proj2 (IH rest ltac:(simpl in Hl; lia))) in H as (ps & rest' & ws & -> & Hps & Hend & Hs & -> & Hf & Hm).
      rewrite <- app_assoc in *. exists (p :: ps), rest', ws. cbn [map concat]. rewrite <- app_assoc.
      split_and!; try done. by constructor. }
    split.
    + intros words r H. apply Hstep in H as (ps & rest & ws & Hne & Heq & Hps & Hend & Hs & -> & Hf & Hm).
      exists (concat (map piece_word ps) :: ws). split_and!; try done.
      rewrite Heq. by apply (spells_word [] ps rest ws).
    + intros words word r H. apply Hstep in H as (ps & rest & ws & _ & H). by exists ps, rest, ws.
Qed.

(** Quoting: any words without control bytes can be passed. *)
Definition quote_word (w : bytes) : piece := Double (map (fun c => ((c =? 34) || (c =? 92), c)) w).

Fixpoint quote_command (words : list bytes) : bytes :=
  match words with
  | [] => []
  | w :: words' => piece_text (quote_word w) ++ match words' with [] => [] | _ => 32 :: quote_command words' end
  end.

Lemma quote_word_ok w : Forall (fun c => lex_control c = false) w -> piece_ok (quote_word w) /\ piece_word (quote_word w) = w.
Proof.
  intros Hw. split; cbn.
  - apply Forall_map. eapply Forall_impl; [exact Hw|]. intros c Hc Hq. cbn in *.
    apply orb_false_iff in Hq as [H1 H2]. zbool. by split_and!.
  - rewrite map_map. apply map_id.
Qed.

Lemma quote_command_spells words :
  Forall (Forall (fun c => lex_control c = false)) words -> spells (quote_command words) words.
Proof.
  induction 1 as [|w words Hw _ IH]; [by apply spells_end|].
  destruct (quote_word_ok w Hw) as [Hok Hword].
  pose proof (spells_word [] [quote_word w] (match words with [] => [] | _ => 32 :: quote_command words end) words) as H.
  cbn [map concat app] in H. rewrite !app_nil_r, Hword in H. apply H; try done.
  - by constructor.
  - by destruct words.
  - destruct words as [|w' words]; [done|]. by apply spells_blank.
Qed.

(** ** Edit distance *)

(** [a] becomes [b] in [n] insertions, deletions and substitutions. *)
Inductive edits : Z -> list Z -> list Z -> Prop :=
| edits_nil : edits 0 [] []
| edits_keep n x a b : edits n a b -> edits n (x :: a) (x :: b)
| edits_subst n x y a b : edits n a b -> edits (n + 1) (x :: a) (y :: b)
| edits_insert n y a b : edits n a b -> edits (n + 1) a (y :: b)
| edits_delete n x a b : edits n a b -> edits (n + 1) (x :: a) b.
#[local] Hint Constructors edits : core.

Fixpoint lev (a : list Z) : list Z -> Z :=
  fix levb (b : list Z) : Z :=
    match a, b with
    | [], _ => len b
    | _, [] => len a
    | x :: a', y :: b' => Z.min (Z.min (lev a' b + 1) (levb b' + 1)) (lev a' b' + (if x =? y then 0 else 1))
    end.

Lemma lev_nil_l b : lev [] b = len b.
Proof. by destruct b. Qed.
Lemma lev_nil_r a : lev a [] = len a.
Proof. by destruct a. Qed.
Lemma lev_cons x a y b :
  lev (x :: a) (y :: b) = Z.min (Z.min (lev a (y :: b) + 1) (lev (x :: a) b + 1)) (lev a b + (if x =? y then 0 else 1)).
Proof. reflexivity. Qed.

Lemma edits_inserts b : edits (len b) [] b.
Proof. induction b as [|y b IH]; [done|]. rewrite len_cons, Z.add_comm. by constructor. Qed.
Lemma edits_deletes a : edits (len a) a [].
Proof. induction a as [|x a IH]; [done|]. rewrite len_cons, Z.add_comm. by constructor. Qed.

Lemma lev_edits a b : edits (lev a b) a b.
Proof.
  revert b. induction a as [|x a IHa]; intros b; [rewrite lev_nil_l; apply edits_inserts|].
  induction b as [|y b IHb]; [rewrite lev_nil_r; apply edits_deletes|]. rewrite lev_cons.
  destruct (Z.min_spec (Z.min (lev a (y :: b) + 1) (lev (x :: a) b + 1)) (lev a b + (if x =? y then 0 else 1))) as [[_ ->]|[_ ->]].
  - destruct (Z.min_spec (lev a (y :: b) + 1) (lev (x :: a) b + 1)) as [[_ ->]|[_ ->]]; auto.
  - destruct (x =? y) eqn:Hxy; zbool; [subst; rewrite Z.add_0_r|]; auto.
Qed.

Lemma lev_insert a y b : lev a (y :: b) <= lev a b + 1.
Proof. destruct a as [|x a]; [rewrite !lev_nil_l, len_cons; lia|]. rewrite lev_cons. lia. Qed.
Lemma lev_delete x a b : lev (x :: a) b <= lev a b + 1.
Proof. destruct b as [|y b]; [rewrite !lev_nil_r, len_cons; lia|]. rewrite lev_cons. lia. Qed.

Lemma lev_minimal n a b : edits n a b -> lev a b <= n.
Proof.
  induction 1 as [|n x a b _ IH|n x y a b _ IH|n y a b _ IH|n x a b _ IH]; [done| | | |].
  - rewrite lev_cons, Z.eqb_refl. lia.
  - rewrite lev_cons. destruct (x =? y); lia.
  - pose proof (lev_insert a y b). lia.
  - pose proof (lev_delete x a b). lia.
Qed.

Lemma edits_snoc n a b x y :
  edits n a b -> edits n (a ++ [x]) (b ++ [x]) /\ edits (n + 1) (a ++ [x]) (b ++ [y]) /\
  edits (n + 1) a (b ++ [y]) /\ edits (n + 1) (a ++ [x]) b.
Proof. induction 1 as [|n z a b _ IH|n z w a b _ IH|n z a b _ IH|n z a b _ IH]; destruct_and?; cbn; split_and!; auto. Qed.

Lemma edits_rev n a b : edits n a b -> edits n (rev a) (rev b).
Proof.
  induction 1 as [|n x a b _ IH|n x y a b _ IH|n y a b _ IH|n x a b _ IH]; [done| | | |]; cbn;
    first [apply (edits_snoc _ _ _ x y IH) | apply (edits_snoc _ _ _ x x IH) | apply (edits_snoc _ _ _ y y IH)].
Qed.

(** The table: entry [j] of the row of [i] is the distance between prefixes. *)
Definition dist (a b : list Z) : Z := lev (rev a) (rev b).

Lemma dist_snoc a x b y :
  dist (a ++ [x]) (b ++ [y]) =
    Z.min (Z.min (dist a (b ++ [y]) + 1) (dist (a ++ [x]) b + 1)) (dist a b + (if x =? y then 0 else 1)).
Proof. unfold dist. rewrite !rev_unit. apply lev_cons. Qed.

Lemma range_ascii s : is_ascii s = true -> Forall (fun c => 0 <= c) s ->
  range s = imap (fun i c => (Z.of_nat i, c)) s.
Proof.
  intros Ha Hp. unfold range.
  enough (H : forall k n, (length s <= n)%nat -> range_loop n s (Z.of_nat k) = imap (fun i c => (Z.of_nat (k + i), c)) s)
    by (by rewrite (H 0%nat)).
  induction Hp as [|c s Hc _ IH]; intros k n Hn; [by destruct n|]. destruct n as [|n]; [simpl in Hn; lia|].
  cbn [is_ascii forallb] in Ha. apply andb_true_iff in Ha as [Hc' Ha]. cbn [range_loop].
  unfold decode_rune. rewrite Hc'. cbn [drop]. replace (Z.of_nat k + Z.of_nat 1) with (Z.of_nat (S k)) by lia.
  rewrite (IH Ha (S k)) by (simpl in Hn; lia). cbn [imap]. rewrite Nat.add_0_r. f_equal.
  apply imap_ext. intros i x _. cbn. do 2 f_equal. lia.
Qed.

(** [row a b p]: the first [len p + 1] entries, for the prefix [p] of [b]. *)
Definition row_upto (a b : list Z) (n : nat) (l : list Z) : Prop :=
  length l = S (length b) /\ forall j, (j <= n)%nat -> l !! j = Some (dist a (take j b)).

Lemma edit_row_spec b a x previous :
  is_ascii b = true -> Forall (fun c => 0 <= c) b ->
  row_upto a b (length b) previous -> row_upto (a ++ [x]) b (length b) (edit_row b previous (len a, x)).
Proof.
  intros Ha Hp [Hl Hprev]. unfold edit_row. rewrite range_ascii by done.
  enough (H : forall s n current, (n + length s = length b)%nat -> drop n b = s -> row_upto (a ++ [x]) b n current ->
    row_upto (a ++ [x]) b (length b)
      (fold_left (edit_cell previous x) (imap (fun i c => (Z.of_nat (n + i), c)) s) current)).
  { apply (H b 0%nat); [done|done|]. split; [by rewrite length_insert, length_replicate|].
    intros j Hj. assert (j = 0%nat) as -> by lia. rewrite list_lookup_insert_eq by (rewrite length_replicate; lia).
    cbn. f_equal. unfold dist. rewrite lev_nil_r. unfold len. rewrite length_rev, length_app. simpl. lia. }
  induction s as [|y s IH]; intros n current Hn Hdrop [Hcl Hcur].
  { cbn in *. replace (length b) with n by lia. done. }
  assert (Hy : b !! n = Some y) by (rewrite <- (Nat.add_0_r n), <- lookup_drop, Hdrop; done).
  cbn [imap fold_left]. rewrite Nat.add_0_r.
  replace (imap ((fun i c => (Z.of_nat (n + i), c)) ∘ S) s) with (imap (fun i c => (Z.of_nat (S n + i), c)) s)
    by (apply imap_ext; intros i z _; cbn; do 2 f_equal; lia).
  apply IH; [simpl in Hn; lia|by rewrite <- Nat.add_1_r, <- drop_drop, Hdrop|].
  unfold edit_cell. replace (Z.to_nat (Z.of_nat n + 1)) with (S n) by lia.
  split; [by rewrite length_insert|]. intros j Hj.
  destruct (decide (j = S n)) as [->|Hne].
  - rewrite list_lookup_insert_eq by (simpl in Hn; lia). f_equal.
    rewrite (take_S_r _ _ _ Hy), dist_snoc. unfold at_. replace (Z.to_nat (Z.of_nat n + 1)) with (S n) by lia.
    rewrite Nat2Z.id, (Hprev (S n)), (Hprev n), (Hcur n) by (simpl in Hn; lia). cbn.
    by rewrite (take_S_r _ _ _ Hy).
  - rewrite list_lookup_insert_ne by done. apply Hcur. lia.
Qed.

Lemma editDistance_dist a b :
  is_ascii a = true -> is_ascii b = true -> Forall (fun c => 0 <= c) a -> Forall (fun c => 0 <= c) b ->
  editDistance a b = dist a b.
Proof.
  intros Ha Hb Hpa Hpb. unfold editDistance. rewrite (range_ascii a) by done.
  enough (H : forall s done previous, row_upto done b (length b) previous ->
    row_upto (done ++ s) b (length b)
      (fold_left (edit_row b) (imap (fun i c => (Z.of_nat (length done + i), c)) s) previous)).
  { destruct (H a [] (map Z.of_nat (seq 0 (S (length b))))) as [_ Hr].
    - split; [by rewrite length_map, length_seq|]. intros j Hj. rewrite list_lookup_fmap, lookup_seq_lt by lia. cbn.
      f_equal. unfold dist. cbn. rewrite lev_nil_l. unfold len. rewrite length_rev, length_take. lia.
    - cbn [length Nat.add app] in Hr. unfold at_, len. rewrite Nat2Z.id, Hr by done. cbn. by rewrite firstn_all. }
  induction s as [|x s IH]; intros dn previous Hrow; [by rewrite app_nil_r|]. cbn [imap fold_left].
  rewrite Nat.add_0_r. change (dn ++ x :: s) with (dn ++ [x] ++ s). rewrite app_assoc.
  replace (imap ((fun i c => (Z.of_nat (length dn + i), c)) ∘ S) s)
    with (imap (fun i c => (Z.of_nat (length (dn ++ [x]) + i), c)) s)
    by (apply imap_ext; intros i z _; cbn; rewrite length_app; simpl; do 2 f_equal; lia).
  apply IH. by apply (edit_row_spec b dn x previous).
Qed.

(** ** Suggestions *)

Section Suggest.
Context (name : bytes).
Let f (c : bytes) : Z := editDistance name (TrimLeft_dash c).

Lemma suggest_distance cs acc :
  (fold_left (suggest_step name) cs acc).2 <= acc.2 /\
  ((fold_left (suggest_step name) cs acc).2 = acc.2 \/ exists c, c ∈ cs /\ (fold_left (suggest_step name) cs acc).2 = f c).
Proof.
  revert acc. induction cs as [|c cs IH]; intros [best d]; [by split; [|left]|]. cbn [fold_left].
  destruct (IH (suggest_step name (best, d) c)) as [H1 H2].
  assert (Hs : (suggest_step name (best, d) c).2 = Z.min (f c) d).
  { unfold suggest_step. fold (f c). repeat case_match; zbool; cbn; lia. }
  rewrite Hs in *. cbn [snd]. split; [lia|]. destruct H2 as [->|(c' & Hc & ->)].
  - destruct (Z.min_spec (f c) d) as [[_ ->]|[_ ->]]; [right; exists c; split; [left|done]|by left].
  - right. exists c'. split; [by right|done].
Qed.

Lemma suggest_keep cs c d : Forall (fun x => d < f x) cs -> fold_left (suggest_step name) cs (c, d) = (c, d).
Proof.
  induction 1 as [|x cs Hx _ IH]; [done|]. cbn [fold_left].
  assert (Hstep : suggest_step name (c, d) x = (c, d)); [|by rewrite Hstep].
  unfold suggest_step. fold (f x). by rewrite (proj2 (Z.ltb_ge (f x) d)), (proj2 (Z.eqb_neq (f x) d)) by lia.
Qed.

(** A closest candidate within two edits, if no other is as close. *)
Definition closest (c : bytes) (candidates : list bytes) : Prop :=
  c <> [] /\ f c < 3 /\
  exists pre post, candidates = pre ++ c :: post /\ Forall (fun x => f c < f x) pre /\ Forall (fun x => f c < f x) post.

Lemma suggest_found c candidates : closest c candidates -> suggestion name candidates = Some c.
Proof.
  intros (Hne & Hd & pre & post & -> & Hpre & Hpost). unfold suggestion. rewrite fold_left_app. cbn [fold_left].
  destruct (suggest_distance pre ([], 3)) as [_ Hp].
  destruct (fold_left (suggest_step name) pre ([], 3)) as [best d]. cbn [snd] in Hp.
  assert (f c < d).
  { rewrite Forall_forall in Hpre. destruct Hp as [->|(x & Hx & ->)]; [done|by apply Hpre]. }
  assert (Hstep : suggest_step name (best, d) c = (c, f c)).
  { unfold suggest_step. fold (f c). by rewrite (proj2 (Z.ltb_lt (f c) d)). }
  rewrite Hstep.
  rewrite suggest_keep by done. cbn. by rewrite bool_decide_eq_false_2.
Qed.

Lemma suggest_inv cs :
  let '(best, d) := fold_left (suggest_step name) cs ([], 3) in
  Forall (fun x => d <= f x \/ 3 <= f x) cs /\ d <= 3 /\ (best <> [] -> closest best cs /\ f best = d).
Proof.
  induction cs as [|c cs IH] using rev_ind; [by cbn|]. rewrite fold_left_app. cbn [fold_left].
  destruct (fold_left (suggest_step name) cs ([], 3)) as [best d]. destruct IH as (Hall & Hd & Hb).
  unfold suggest_step. fold (f c). destruct (f c <? d) eqn:Hlt; [|destruct (f c =? d) eqn:Heq]; zbool.
  - split_and!; [|lia|].
    + apply Forall_app. split; [eapply Forall_impl; [exact Hall|cbn; lia]|repeat constructor; lia].
    + intros Hc. split; [|done]. split_and!; [done|lia|]. exists cs, []. split_and!; [done| |done].
      eapply Forall_impl; [exact Hall|]. cbn. lia.
  - split_and!; [|lia|done]. apply Forall_app. split; [done|repeat constructor; lia].
  - split_and!; [apply Forall_app; split; [done|repeat constructor; lia]|lia|].
    intros Hne. destruct (Hb Hne) as [(_ & Hlt3 & pre & post & -> & Hpre & Hpost) Hf]. split; [|done].
    split_and!; [done|done|]. exists pre, (post ++ [c]). rewrite <- app_assoc. split_and!; [done|done|].
    apply Forall_app. split; [done|repeat constructor; lia].
Qed.

Lemma suggestion_spec c candidates : suggestion name candidates = Some c <-> closest c candidates.
Proof.
  split; [|apply suggest_found]. unfold suggestion. pose proof (suggest_inv candidates) as H.
  destruct (fold_left (suggest_step name) candidates ([], 3)) as [best d]. destruct H as (_ & _ & H).
  cbn. case_bool_decide; [done|]. intros [= <-]. by apply H.
Qed.

End Suggest.

(** ** Bounded streams *)

Lemma encode_rune_ascii r : 0 <= r < 0x80 -> encode_rune r = [r].
Proof.
  intros Hr. unfold encode_rune, valid_rune. rewrite within_b_true by lia. cbn [orb].
  by rewrite (proj2 (Z.leb_le _ _)) by lia.
Qed.

Lemma encode_rune_wide r :
  valid_rune r = true -> 0x80 <= r ->
  exists b q, encode_rune r = b :: q /\ 0x80 <= b /\ q <> [].
Proof.
  intros Hv Hr. destruct (decode_encode_rune r Hv) as [_ Hne]. destruct (encode_rune r) as [|b q] eqn:He; [done|].
  destruct (encode_rune_head r b q Hv Hr He). by exists b, q.
Qed.

Lemma valid_rune_nonneg r : valid_rune r = true -> 0 <= r.
Proof. unfold valid_rune, within_b. rewrite orb_true_iff, !andb_true_iff, !Z.leb_le. lia. Qed.

(** The first rune of a text is read whatever follows it. *)
Lemma decode_first r s : valid_rune r = true -> decode_rune (encode_rune r ++ s) = (r, length (encode_rune r)).
Proof.
  intros Hv. destruct (decode_encode_rune r Hv) as [Hd Hne]. destruct (Z.lt_ge_cases r 0x80) as [Hlt|Hge].
  - pose proof (valid_rune_nonneg r Hv). rewrite encode_rune_ascii by lia. cbn [app decode_rune].
    by rewrite (proj2 (Z.ltb_lt _ _)) by lia.
  - destruct (encode_rune_wide r Hv Hge) as (b & q & He & Hb & Hq).
    rewrite decode_rune_app; [done|]. apply (full_of_decode _ r); [done|done|]. apply andb_false_iff. right.
    rewrite He. by destruct q.
Qed.

Lemma to_valid_clean l fuel rep inv :
  Forall (fun r => valid_rune r = true) l -> (length (concat (map encode_rune l)) <= fuel)%nat ->
  to_valid fuel rep inv (concat (map encode_rune l)) = concat (map encode_rune l).
Proof.
  intros Hl. revert fuel inv. induction Hl as [|r l Hr _ IH]; intros fuel inv Hf; [by destruct fuel|].
  cbn [map concat] in *. rewrite length_app in Hf. pose proof (valid_rune_nonneg r Hr).
  pose proof (decode_first r (concat (map encode_rune l)) Hr) as Hd.
  destruct (Z.lt_ge_cases r 0x80) as [Hlt|Hge].
  - rewrite encode_rune_ascii in * by lia. destruct fuel as [|fuel]; [simpl in Hf; lia|]. cbn [app to_valid].
    rewrite (proj2 (Z.ltb_lt _ _)), IH by (simpl in Hf; lia). done.
  - destruct (encode_rune_wide r Hr Hge) as (b & q & He & Hb & Hq). rewrite He in *.
    destruct fuel as [|fuel]; [simpl in Hf; lia|]. cbn [app to_valid] in *.
    rewrite (proj2 (Z.ltb_ge _ _)), Hd by lia. destruct q as [|c q]; [done|]. cbn [length Nat.eqb].
    change (b :: (c :: q) ++ concat (map encode_rune l)) with ((b :: c :: q) ++ concat (map encode_rune l)).
    rewrite (take_app_length' (b :: c :: q)), (drop_app_length' (b :: c :: q)) by done.
    rewrite IH by (simpl in *; lia). done.
Qed.

Lemma runes_loop_clean l fuel :
  Forall (fun r => valid_rune r = true) l -> (length (concat (map encode_rune l)) <= fuel)%nat ->
  runes_loop fuel (concat (map encode_rune l)) = l.
Proof.
  intros Hl. revert fuel. induction Hl as [|r l Hr _ IH]; intros fuel Hf; [by destruct fuel|].
  cbn [map concat] in *. rewrite length_app in Hf.
  pose proof (decode_first r (concat (map encode_rune l)) Hr) as Hd.
  destruct (decode_encode_rune r Hr) as [_ Hne]. destruct (encode_rune r) as [|b q] eqn:He; [done|].
  destruct fuel as [|fuel]; [simpl in Hf; lia|]. cbn [app runes_loop] in *. rewrite Hd.
  change (b :: q ++ concat (map encode_rune l)) with ((b :: q) ++ concat (map encode_rune l)).
  rewrite (drop_app_length' (b :: q)) by done. f_equal. apply IH. simpl in Hf. lia.
Qed.

Lemma runes_clean l : Forall (fun r => valid_rune r = true) l -> runes (concat (map encode_rune l)) = l.
Proof. intros Hl. by apply runes_loop_clean. Qed.

Lemma safeText_clean l :
  Forall (fun r => valid_rune r = true /\ safe_rune r = true) l ->
  safeText (concat (map encode_rune l)) = concat (map encode_rune l).
Proof.
  intros Hl. assert (Hv : Forall (fun r => valid_rune r = true) l) by (eapply Forall_impl; [exact Hl|by intros ? []]).
  unfold safeText, ToValidUTF8. rewrite to_valid_clean, runes_clean by done. do 2 f_equal.
  clear Hv. induction Hl as [|r l [_ Hs] _ IH]; [done|]. by rewrite filter_cons_True, IH.
Qed.

Lemma safeText_safe v : exists l, safeText v = concat (map encode_rune l) /\ Forall (fun r => safe_rune r = true) l.
Proof.
  eexists. split; [reflexivity|]. apply Forall_forall. intros r Hr. by apply list_elem_of_filter in Hr as [? _].
Qed.

Section Reader.
Context {R : Type} `{ByteReaderLaws R}.

(** A sequence of reads, and all the bytes they give. *)
Fixpoint br_run (r : boundedReader R) (ns : list Z) : boundedReader R * bytes * ReadErr :=
  match ns with
  | [] => (r, [], RNone)
  | n :: ns' =>
    let '(r', p, e) := boundedReader_Read r n in
    match e with
    | RNone => let '(r'', q, e') := br_run r' ns' in (r'', p ++ q, e')
    | _ => (r', p, e)
    end
  end.

Lemma br_run_bound r ns r' p e :
  0 <= br_limit r -> br_read r <= br_limit r -> br_run r ns = (r', p, e) ->
  len p + br_read r <= br_limit r /\ (e = RLimit -> forall n, boundedReader_Read r' n = (r', [], RLimit)).
Proof.
  revert r p. induction ns as [|n ns IH]; intros r p Hl Hr Hrun; cbn [br_run] in Hrun.
  { injection Hrun as <- <- <-. split; [rewrite len_nil; lia|done]. }
  unfold boundedReader_Read in Hrun. rewrite (proj2 (Z.ltb_ge _ _)) in Hrun by done.
  destruct (rd (br_reader r) _) as [[u q] err] eqn:Hrd. cbn [br_read] in Hrun.
  destruct (br_limit r <? br_read r + len q) eqn:Hover; zbool.
  - injection Hrun as <- <- <-. split; [rewrite len_nil; lia|]. intros _ k. unfold boundedReader_Read. cbn.
    by rewrite (proj2 (Z.ltb_lt _ _)) by lia.
  - destruct err; [injection Hrun as <- <- <-; by split; [lia|]|].
    destruct (br_run _ ns) as [[r1 p1] e1] eqn:Hr1. injection Hrun as <- <- <-.
    apply IH in Hr1; cbn [br_limit br_read] in *; [|lia|lia]. rewrite len_app. split; [lia|apply Hr1].
Qed.

End Reader.

Lemma bw_writes_spec w writes :
  len (bw_data w) <= bw_limit w -> bw_err w = false ->
  let w' := bw_writes w writes in
  bw_limit w' = bw_limit w /\ len (bw_data w') <= bw_limit w /\ bw_data w `prefix_of` bw_data w' /\
  (bw_err w' = false -> bw_data w' = bw_data w ++ concat (map safeText writes)) /\
  (bw_err w' = true <-> bw_limit w < len (bw_data w ++ concat (map safeText writes))).
Proof.
  revert w. induction writes as [|d writes IH]; intros w Hl He.
  { cbn [bw_writes fold_left map concat]. rewrite app_nil_r, He. split_and!; [done|done|done|done|]. split; [done|lia]. }
  assert (Hd : (boundedWriter_Write w d).1.1 =
    if bw_limit w <? len (bw_data w) + len (safeText d) then mkBW (bw_data w) (bw_limit w) true
    else mkBW (bw_data w ++ safeText d) (bw_limit w) false)
    by (unfold boundedWriter_Write; rewrite He; by case_match).
  unfold bw_writes. cbn [fold_left map concat]. rewrite Hd.
  destruct (bw_limit w <? _) eqn:Hover; zbool.
  - set (w1 := mkBW (bw_data w) (bw_limit w) true).
    assert (Hstuck : fold_left (fun w data => (boundedWriter_Write w data).1.1) writes w1 = w1)
      by (clear; induction writes; [done|]; done).
    cbv zeta. rewrite Hstuck. unfold w1. cbn [bw_data bw_limit bw_err]. split_and!; [done|done|done|done|].
    split; [|done]. intros _. rewrite !len_app. len_pos. lia.
  - specialize (IH (mkBW (bw_data w ++ safeText d) (bw_limit w) false)). cbn [bw_data bw_limit bw_err] in IH.
    rewrite len_app in IH. destruct IH as (H1 & H2 & H3 & H4 & H5); [lia|done|].
    unfold bw_writes in *. cbv zeta. rewrite <- app_assoc in *.
    split_and!; try done. by etransitivity; [|exact H3]; apply prefix_app_r.
Qed.

(** ** Theorems *)

(** (the lexer accepts exactly its language): a command string gives the words
    [ws] exactly when it spells them: words of plain bytes, escaped bytes and
    quoted text, separated by blanks, with no shell operator or control byte outside
    escapes, at most 64 words of at most 256 bytes.  In particular every list of
    words without control bytes within the limits can be quoted and comes back as
    itself. *)
Theorem lex_exact command ws :
  len command <= MaxInput ->
  (Lex command = Ok ws <-> spells command ws /\ words_fit ws) /\
  (Forall (Forall (fun c => lex_control c = false)) ws -> words_fit ws -> len (quote_command ws) <= MaxInput ->
   Lex (quote_command ws) = Ok ws).
Proof.
  intros Hl. assert (Hq : forall c, spells c ws -> words_fit ws -> len c <= MaxInput -> Lex c = Ok ws).
  { intros c Hs Hw Hc. unfold Lex. rewrite (proj2 (Z.ltb_ge _ _)) by done. by apply (spells_lex c ws Hs []). }
  split; [|intros Hc Hw Hm; apply Hq; [by apply quote_command_spells|done|done]].
  split; [|intros [Hs Hw]; by apply Hq]. unfold Lex. rewrite (proj2 (Z.ltb_ge _ _)) by done. intros H.
  apply (proj1 (lex_spells (length command) command ltac:(done))) in H as (ws' & -> & Hs & Hf & Hm).
  split; [done|]. split; [|done]. destruct ws' as [|w ws']; [done|by apply Hm].
Qed.

Lemma lex_exact_witness :
  Lex (quote_command [str "kv"; str "it's"; []; str "a b"]) = Ok [str "kv"; str "it's"; []; str "a b"] /\
  len (quote_command [str "kv"; str "it's"; []; str "a b"]) = 20.
Proof.
  split; [|vm_compute; reflexivity].
  apply (lex_exact [] [str "kv"; str "it's"; []; str "a b"]).
  - vm_compute. congruence.
  - repeat constructor.
  - split; [vm_compute; congruence|repeat constructor; vm_compute; congruence].
  - vm_compute. congruence.
Defined.

(** (suggestions are right): for ASCII names the distance computed row by row is
    the least number of insertions, deletions and substitutions between them; and
    a name is suggested exactly when it is within two of them and strictly closer
    than every other candidate. *)
Theorem suggestion_exact a b name c candidates :
  is_ascii a = true -> is_ascii b = true -> Forall (fun x => 0 <= x) a -> Forall (fun x => 0 <= x) b ->
  (edits (editDistance a b) a b /\ forall n, edits n a b -> editDistance a b <= n) /\
  (suggestion name candidates = Some c <-> closest name c candidates).
Proof.
  intros Ha Hb Hpa Hpb. split; [|apply suggestion_spec]. rewrite editDistance_dist by done. unfold dist. split.
  - pose proof (edits_rev _ _ _ (lev_edits (rev a) (rev b))) as H. by rewrite !rev_involutive in H.
  - intros n Hn. by apply lev_minimal, edits_rev.
Qed.

Lemma suggestion_exact_witness :
  suggestion (str "delpoy") [str "delete"; str "deploy"] = Some (str "deploy") /\
  edits 2 (str "delpoy") (str "deploy") /\ closest (str "delpoy") (str "deploy") [str "delete"; str "deploy"].
Proof.
  split; [vm_compute; reflexivity|].
  destruct (suggestion_exact (str "delpoy") (str "deploy") (str "delpoy") (str "deploy") [str "delete"; str "deploy"])
    as [[H _] [Hs _]]; [reflexivity|reflexivity|repeat constructor; lia|repeat constructor; lia|].
  split; [exact H|]. apply Hs. vm_compute. reflexivity.
Defined.

(** (bounded streams): however a command reads, it is given at most [limit] bytes
    of its input, and after [ErrLimit] nothing more; what it writes is kept, filtered,
    exactly while it fits and never beyond [limit]; and the filter lets nothing
    through but whole runes that are no C0 control (line ends and tabs aside) and no
    DEL, and leaves such text as it is. *)
Theorem command_io_bounded {R} `{ByteReaderLaws R} (r : R) limit ns r' p e writes :
  0 <= limit -> br_run (mkBR r limit 0) ns = (r', p, e) ->
  len p <= limit /\ (e = RLimit -> forall n, boundedReader_Read r' n = (r', [], RLimit)) /\
  let w := bw_writes (mkBW [] limit false) writes in
  len (bw_data w) <= limit /\
  (bw_err w = false -> bw_data w = concat (map safeText writes)) /\
  (bw_err w = true <-> limit < len (concat (map safeText writes))) /\
  (forall v, exists l, safeText v = concat (map encode_rune l) /\ Forall (fun r => safe_rune r = true) l) /\
  (forall l, Forall (fun r => valid_rune r = true /\ safe_rune r = true) l ->
     safeText (concat (map encode_rune l)) = concat (map encode_rune l)).
Proof.
  intros Hl Hrun. apply br_run_bound in Hrun as [H1 H2]; [|done|done]. cbn in H1.
  destruct (bw_writes_spec (mkBW [] limit false) writes Hl eq_refl) as (_ & H3 & _ & H4 & H5).
  split; [lia|]. split; [done|]. split; [done|]. split; [done|]. split; [done|].
  split; [apply safeText_safe|apply safeText_clean].
Qed.

(** A reader over a fixed input. *)
#[export] Instance slice_reader : ByteReader bytes := fun s n => (drop (Z.to_nat n) s, take (Z.to_nat n) s, bool_decide (s = [])).
#[export] Instance slice_reader_laws : ByteReaderLaws bytes.
Proof. intros s n s' p e [= <- <- <-]. rewrite len_take. lia. Qed.

Lemma command_io_bounded_witness :
  br_run (mkBR (str "abcdefgh") 5 0) [3; 2; 4] = (mkBR (str "gh") 5 6, str "abcde", RLimit) /\
  len (str "abcde") <= 5 /\
  bw_writes (mkBW [] 5 false) [str "ab" ++ [27]; str "cd"] = mkBW (str "abcd") 5 false /\
  len (bw_data (bw_writes (mkBW [] 5 false) [str "ab" ++ [27]; str "cd"])) <= 5.
Proof.
  split; [vm_compute; reflexivity|].
  destruct (command_io_bounded (str "abcdefgh") 5 [3; 2; 4] (mkBR (str "gh") 5 6) (str "abcde") RLimit [str "ab" ++ [27]; str "cd"])
    as (H1 & _ & H2 & _).
  - lia.
  - vm_compute. reflexivity.
  - split; [exact H1|]. split; [vm_compute; reflexivity|exact H2].
Defined.

(** (an escape hides a control byte): the byte after a backslash is not checked, so
    a command string with control bytes is accepted and they reach the arguments. *)
Theorem lex_escaped_control : Lex (str "say " ++ [92; 27; 92; 10]) = Ok [str "say"; [27; 10]].
Proof. vm_compute. reflexivity. Qed.
