(* ===== verification/Transport.v ===== *)
(** * Discovery, host identity and the control transport

    internal/transport (transport.go, the checks of control.go), internal/protocol/control
    and internal/protocol/exec: finding a server, pinning its identity on first use, signed
    principals, who may open what, and the checks on both ends of a control request. The
    probe, the HTTP round trip and Ed25519 are parameters. *)

From stdpp Require Import list.
From S2P Require Import Prelude Utf8 GoStrings Sha256 CliText Json Pairing.
Import json.

(** ** protocol/control *)

Module control.
Definition ProtocolName : bytes := str "plumtree-control-v1".
Definition APIPrefix : bytes := str "/api/v1".
Definition VersionHeader : bytes := str "Plumtree-Version".
Definition MaxBodyBytes : Z := Z.shiftl 32 20.

Inductive Err := ErrInvalid | ErrVersionMismatch | ErrIdentityHeader | ErrBodyTooLarge.

Definition identityHeaders : list bytes := [str "X-Plumtree-Principal"; str "X-Plumtree-Author-ID"; str "X-Plumtree-Device-ID"].

(** [http.Header]: lists of values by canonical name. *)
Definition Header := list (bytes * list bytes).
Definition token_byte (c : Z) : bool :=
  within_b 48 57 c || within_b 65 90 c || within_b 97 122 c || bool_decide (c ∈ [33; 35; 36; 37; 38; 39; 42; 43; 45; 46; 94; 95; 96; 124; 126]).
Definition ascii_upper (c : Z) : Z := if within_b 97 122 c then c - 32 else c.
Fixpoint canonical_from (upper : bool) (s : bytes) : bytes :=
  match s with
  | [] => []
  | c :: s => (if upper then ascii_upper c else ascii_lower c) :: canonical_from (c =? 45) s
  end.
(** [textproto.CanonicalMIMEHeaderKey] *)
Definition CanonicalHeaderKey (s : bytes) : bytes := if forallb token_byte s then canonical_from true s else s.
Fixpoint values_of (h : Header) (key : bytes) : list bytes :=
  match h with
  | [] => []
  | (k, vs) :: h => if bool_decide (k = key) then vs else values_of h key
  end.
Definition Get (h : Header) (name : bytes) : bytes := match values_of h (CanonicalHeaderKey name) with v :: _ => v | [] => [] end.
Definition SetHeader (h : Header) (name value : bytes) : Header :=
  (CanonicalHeaderKey name, [value]) :: List.filter (fun kv => negb (bool_decide (kv.1 = CanonicalHeaderKey name))) h.

Definition ValidateVersion (actual expected : bytes) : option Err :=
  if bool_decide (expected = []) || negb (bool_decide (actual = expected)) then Some ErrVersionMismatch else None.

(** The parts of an [http.Request] that are looked at. *)
Record Request := mkRequest { rq_Path : bytes; rq_Header : Header; rq_HasBody : bool; rq_ContentLength : Z }.

Definition ValidateRequest (r : Request) : option Err :=
  if negb (HasPrefix (rq_Path r) APIPrefix) || (negb (bool_decide (rq_Path r = APIPrefix)) && negb (HasPrefix (rq_Path r) (APIPrefix ++ str "/")))
  then Some ErrInvalid else
  if existsb (fun name => negb (bool_decide (Get (rq_Header r) name = []))) identityHeaders then Some ErrIdentityHeader else
  if rq_HasBody r && (MaxBodyBytes <? rq_ContentLength r) then Some ErrBodyTooLarge else None.

Definition ValidateResponse (h : Header) (expectedVersion : bytes) : option Err := ValidateVersion (Get h VersionHeader) expectedVersion.

(** [strings.EqualFold]: no letter of these names has a folding outside ASCII. *)
Definition IsIdentityHeader (name : bytes) : bool := existsb (fun f => bool_decide (map ascii_lower name = map ascii_lower f)) identityHeaders.
End control.

(** ** protocol/exec *)

Module execprotocol.
Definition maxCommand : Z := 64 * 1024.
Inductive ExecErr := TooLong | Lexical (e : LexErr).
Definition ParseExecCommand (command : bytes) : res ExecErr (list bytes) :=
  if len command =? 0 then Ok [] else
  if maxCommand <? len command then Err TooLong else
  match Lex command with Ok args => Ok args | Err e => Err (Lexical e) | Panic => Panic end.
End execprotocol.

(** [crypto/ed25519]: what the code relies on. *)
Class Ed25519 := {
  ed_public : bytes -> bytes;
  ed_sign : bytes -> bytes -> bytes;
  ed_verify : bytes -> bytes -> bytes -> bool }.
Class Ed25519Laws `{Ed25519} := {
  ed_public_len sk : len sk = 64 -> len (ed_public sk) = 32;
  ed_sign_len sk m : len sk = 64 -> len (ed_sign sk m) = 64;
  ed_signed sk m : len sk = 64 -> ed_verify (ed_public sk) m (ed_sign sk m) = true }.

Module transport.

(** ** Discovery *)

Record Endpoint := mkEndpoint { Host : bytes; Port : Z }.
#[export] Instance Endpoint_eq_dec : EqDecision Endpoint.
Proof. solve_decision. Defined.
Record ServerInfo := mkServerInfo { StableID : bytes; HostKeyAlgorithm : bytes; HostKeyFingerprint : bytes; ProductVersion : bytes; Protocols : list bytes }.

Inductive TErr :=
| ErrNoServer | ErrNoServerProbe (e : bytes) | ErrNoServerWrong | ErrAmbiguous | ErrWrongService | ErrHostKeyChanged | ErrServerIDChanged
| ErrVersionMismatch | ErrConfirmationRequired | ErrNotAuthorized | ErrLeafDenied | ErrSpoofedIdentity | ErrInvalidPrincipal.

Definition Supports (s : ServerInfo) (protocol : bytes) : bool := bool_decide (protocol ∈ Protocols s).
Definition both_protocols (s : ServerInfo) : bool := Supports s pairing.ProtocolName && Supports s control.ProtocolName.
Definition valid_port (p : Z) : bool := (1 <=? p) && (p <=? 65535).

(** [Probe]: the text of an error, or what the endpoint says of itself. *)
Definition Probe := Endpoint -> bytes + ServerInfo.
Inductive last_error := NoErr | ProbeErr (e : bytes) | WrongErr.

Fixpoint discover_ports (host : bytes) (probe : Probe) (ports : list Z) (found : list (Endpoint * ServerInfo)) (last : last_error) :
  list (Endpoint * ServerInfo) * last_error :=
  match ports with
  | [] => (found, last)
  | port :: ports =>
    if negb (valid_port port) then discover_ports host probe ports found last else
    let endpoint := mkEndpoint host port in
    match probe endpoint with
    | inl e => discover_ports host probe ports found (ProbeErr e)
    | inr info =>
      if bool_decide (StableID info = []) || bool_decide (HostKeyFingerprint info = []) || negb (both_protocols info)
      then discover_ports host probe ports found WrongErr
      else discover_ports host probe ports (found ++ [(endpoint, info)]) last
    end
  end.

Definition bad_host (host : bytes) : bool := bool_decide (TrimSpace host = []) || existsb (fun c => (c =? 47) || (c =? 92)) host.
Definition discovery_ports (explicitPort : Z) : list Z := if explicitPort =? 0 then [2222; 22] else [explicitPort].

Definition Discover (host : bytes) (explicitPort : Z) (probe : Probe) : TErr + (Endpoint * ServerInfo) :=
  if bad_host host then inl ErrNoServer else
  match discover_ports host probe (discovery_ports explicitPort) [] NoErr with
  | ([], NoErr) => inl ErrNoServer
  | ([], ProbeErr e) => inl (ErrNoServerProbe e)
  | ([], WrongErr) => inl ErrNoServerWrong
  | (f1 :: f2 :: _, _) =>
    if negb (bool_decide (StableID f1.2 = StableID f2.2)) || negb (bool_decide (HostKeyFingerprint f1.2 = HostKeyFingerprint f2.2))
    then inl ErrAmbiguous else inr f1
  | ([f1], _) => inr f1
  end.

(** ** Pins *)

Record HostPin := mkPin { pin_Endpoint : Endpoint; pin_StableID : bytes; pin_Algorithm : bytes; pin_Fingerprint : bytes; pin_ProductVersion : bytes }.

Definition FirstUsePin (endpoint : Endpoint) (info : ServerInfo) (confirmed : bool) : TErr + HostPin :=
  if negb confirmed then inl ErrConfirmationRequired else
  if bool_decide (Host endpoint = []) || negb (valid_port (Port endpoint)) || bool_decide (StableID info = []) || bool_decide (HostKeyAlgorithm info = [])
     || bool_decide (HostKeyFingerprint info = []) || bool_decide (ProductVersion info = []) || negb (both_protocols info)
  then inl ErrNoServer else
  inr (mkPin endpoint (StableID info) (HostKeyAlgorithm info) (HostKeyFingerprint info) (ProductVersion info)).

Definition Verify (p : HostPin) (endpoint : Endpoint) (info : ServerInfo) : option TErr :=
  if negb (bool_decide (pin_Endpoint p = endpoint)) || negb (bool_decide (pin_Fingerprint p = HostKeyFingerprint info))
     || negb (bool_decide (pin_Algorithm p = HostKeyAlgorithm info)) then Some ErrHostKeyChanged else
  if negb (bool_decide (pin_StableID p = StableID info)) then Some ErrServerIDChanged else
  if negb (bool_decide (pin_ProductVersion p = ProductVersion info)) then Some ErrVersionMismatch else None.

Definition RequireProtocols (info : ServerInfo) (expectedProduct : bytes) : option TErr :=
  match control.ValidateVersion (ProductVersion info) expectedProduct with
  | Some _ => Some ErrVersionMismatch
  | None => if negb (both_protocols info) then Some ErrWrongService else None
  end.

(** ** Signed principals *)

Record DevicePrincipal := mkPrincipal { dp_ServerID : bytes; dp_AuthorID : bytes; dp_DeviceID : bytes; dp_Fingerprint : bytes }.
Definition principal_invalid (p : DevicePrincipal) : bool :=
  bool_decide (dp_ServerID p = []) || bool_decide (dp_AuthorID p = []) || bool_decide (dp_DeviceID p = []) || bool_decide (dp_Fingerprint p = []).
Record PrincipalEnvelope := mkEnvelope {
  en_Protocol : bytes; en_ServerID : bytes; en_Principal : DevicePrincipal; en_Nonce : bytes; en_Signature : bytes }.

Definition principal_json (p : DevicePrincipal) : value :=
  JObj [(str "serverID", JStr (dp_ServerID p)); (str "authorID", JStr (dp_AuthorID p)); (str "deviceID", JStr (dp_DeviceID p));
        (str "fingerprint", JStr (dp_Fingerprint p))].
(** The signature is nil, which is written as null. *)
Definition unsigned_json (e : PrincipalEnvelope) : value :=
  JObj [(str "protocol", JStr (en_Protocol e)); (str "serverID", JStr (en_ServerID e)); (str "principal", principal_json (en_Principal e));
        (str "nonce", JBytes (en_Nonce e)); (str "signature", JNull)].

Definition bad_nonce (n : bytes) : bool := (len n <? 16) || (64 <? len n).
Definition signingBytes (e : PrincipalEnvelope) : TErr + bytes :=
  if negb (bool_decide (en_Protocol e = control.ProtocolName)) || bool_decide (en_ServerID e = [])
     || negb (bool_decide (en_ServerID e = dp_ServerID (en_Principal e))) || bad_nonce (en_Nonce e) || principal_invalid (en_Principal e)
  then inl ErrInvalidPrincipal else inr (print (unsigned_json e)).

Section Principals.
Context `{Ed25519}.
Definition SignPrincipal (privateKey : bytes) (principal : DevicePrincipal) (nonce : bytes) : TErr + PrincipalEnvelope :=
  if negb (len privateKey =? 64) || bad_nonce nonce || principal_invalid principal then inl ErrInvalidPrincipal else
  let e := mkEnvelope control.ProtocolName (dp_ServerID principal) principal nonce [] in
  match signingBytes e with
  | inl err => inl err
  | inr data => inr (mkEnvelope control.ProtocolName (dp_ServerID principal) principal nonce (ed_sign privateKey data))
  end.
Definition VerifyPrincipal (publicKey : bytes) (envelope : PrincipalEnvelope) : TErr + DevicePrincipal :=
  if negb (len publicKey =? 32) || negb (len (en_Signature envelope) =? 64) then inl ErrInvalidPrincipal else
  match signingBytes envelope with
  | inl _ => inl ErrSpoofedIdentity
  | inr data => if ed_verify publicKey data (en_Signature envelope) then inr (en_Principal envelope) else inl ErrSpoofedIdentity
  end.
End Principals.

(** ** Who may do what *)

Inductive PrincipalKind := PrincipalCandidate | PrincipalDevice | PrincipalVisitor | PrincipalAnonymous.
#[export] Instance PrincipalKind_eq_dec : EqDecision PrincipalKind.
Proof. solve_decision. Defined.
Record Principal := mkPrincipalOf { pr_Kind : PrincipalKind; pr_ServerID : bytes; pr_AuthorID : bytes; pr_DeviceID : bytes; pr_Fingerprint : bytes; pr_Active : bool }.
Inductive PairingMode := PairNewAuthor | PairAddDevice | PairRecovery | PairOther (mode : bytes).

Definition AuthorizeSubsystem (p : Principal) (subsystem : bytes) : option TErr :=
  if bool_decide (subsystem = pairing.ProtocolName) then (if bool_decide (pr_Kind p = PrincipalCandidate) then None else Some ErrNotAuthorized) else
  if bool_decide (subsystem = control.ProtocolName) then
    (if negb (bool_decide (pr_Kind p = PrincipalDevice)) || negb (pr_Active p) then Some ErrNotAuthorized else None)
  else Some ErrNotAuthorized.
Definition AuthorizePairing (p : Principal) (mode : PairingMode) (allowNewAuthors allowNewDevices : bool) : option TErr :=
  if negb (bool_decide (pr_Kind p = PrincipalCandidate)) then Some ErrNotAuthorized else
  match mode with
  | PairNewAuthor => if allowNewAuthors then None else Some ErrNotAuthorized
  | PairAddDevice | PairRecovery => if allowNewDevices then None else Some ErrNotAuthorized
  | PairOther _ => Some ErrNotAuthorized
  end.
Definition AuthorizeControl (p : Principal) (serverID : bytes) : option TErr :=
  match AuthorizeSubsystem p control.ProtocolName with
  | Some e => Some e
  | None => if bool_decide (serverID = []) || negb (bool_decide (pr_ServerID p = serverID)) then Some ErrSpoofedIdentity else None
  end.
Definition AuthorizeForwarding (p : Principal) : option TErr := Some ErrNotAuthorized.
Definition AuthorizeShell (p : Principal) : option TErr := Some ErrNotAuthorized.
Definition AuthorizeLeafExec (p : Principal) (command : bytes) : res (TErr + execprotocol.ExecErr) (list bytes) :=
  if negb (bool_decide (pr_Kind p = PrincipalVisitor)) && negb (bool_decide (pr_Kind p = PrincipalDevice)) then Err (inl ErrNotAuthorized) else
  if bool_decide (TrimSpace command = []) then Err (inl ErrNotAuthorized) else
  match execprotocol.ParseExecCommand command with Ok args => Ok args | Err e => Err (inr e) | Panic => Panic end.

Inductive LeafAccess := LeafPublic | LeafRestricted | LeafOther (access : bytes).
Record LeafPrincipal := mkLeaf { lf_Fingerprint : bytes; lf_Authenticated : bool }.
Definition AuthorizeLeaf (access : LeafAccess) (fingerprint : bytes) (keyProved : bool) (allowlist : bytes -> bool) : TErr + LeafPrincipal :=
  match access with
  | LeafPublic =>
    if negb keyProved then inr (mkLeaf [] false) else
    if bool_decide (fingerprint = []) then inl ErrLeafDenied else inr (mkLeaf fingerprint true)
  | LeafRestricted =>
    if negb keyProved || bool_decide (fingerprint = []) || negb (allowlist fingerprint) then inl ErrLeafDenied else inr (mkLeaf fingerprint true)
  | LeafOther _ => inl ErrLeafDenied
  end.

Record RoleInfo := mkRole { rl_Name : bytes; rl_ProductVersion : bytes; rl_Protocols : list bytes }.
Definition contains (values : list bytes) (wanted : bytes) : bool := existsb (fun v => bool_decide (v = wanted)) values.
Inductive RoleErr := RoleVersion | RoleProtocol.
Definition CheckRoleParity (a b : RoleInfo) (expectedProduct : bytes) : option RoleErr :=
  match control.ValidateVersion (rl_ProductVersion a) expectedProduct with
  | Some _ => Some RoleVersion
  | None =>
    match control.ValidateVersion (rl_ProductVersion b) expectedProduct with
    | Some _ => Some RoleVersion
    | None =>
      if existsb (fun p => negb (contains (rl_Protocols a) p) || negb (contains (rl_Protocols b) p)) [pairing.ProtocolName; control.ProtocolName]
      then Some RoleProtocol else None
    end
  end.

(** ** Control requests *)

Definition RejectIdentityHeaders (h : control.Header) : option TErr :=
  if existsb (fun nv => control.IsIdentityHeader nv.1 && match nv.2 with v :: _ => negb (bool_decide (v = [])) | [] => false end) h
  then Some ErrSpoofedIdentity else None.

(** [versionedHandler.ServeHTTP]: the status of a refusal, or the request that is handed on,
    whose body is bounded, and the headers of the answer so far. *)
Definition ServeHTTP (productVersion : bytes) (r : control.Request) : control.Err + (control.Request * control.Header) :=
  match control.ValidateRequest r with
  | Some e => inl e
  | None => inr (r, control.SetHeader [] control.VersionHeader productVersion)
  end.

Inductive TripErr := TripControl (e : control.Err) | TripSpoofed | TripBase.
(** [checkedRoundTripper.RoundTrip] over a transport. *)
Definition RoundTrip (base : control.Request -> option control.Header) (expectedVersion : bytes) (r : control.Request) : TripErr + control.Header :=
  match control.ValidateRequest r with
  | Some e => inl (TripControl e)
  | None =>
    match RejectIdentityHeaders (control.rq_Header r) with
    | Some _ => inl TripSpoofed
    | None =>
      let supplied := control.Get (control.rq_Header r) control.VersionHeader in
      let go request :=
        match base request with
        | None => inl TripBase
        | Some response => match control.ValidateResponse response expectedVersion with Some e => inl (TripControl e) | None => inr response end
        end in
      if bool_decide (supplied = []) then
        go (control.mkRequest (control.rq_Path r) (control.SetHeader (control.rq_Header r) control.VersionHeader expectedVersion)
              (control.rq_HasBody r) (control.rq_ContentLength r))
      else match control.ValidateVersion supplied expectedVersion with Some e => inl (TripControl e) | None => go r end
    end
  end.

(** [base64.RawStdEncoding] *)
Definition raw_std (b : bytes) : bytes := List.filter (fun c => negb (c =? 61)) (b64_encode b).
Definition FingerprintPublicKey (publicKey : bytes) : bytes := str "SHA256:" ++ raw_std (sha256 publicKey).
(** [subtle.ConstantTimeCompare] *)
Definition EqualFingerprint (a b : bytes) : bool := (len a =? len b) && bool_decide (a = b).

(** ** Discovery finds a server *)

(** A Plumtree service that answers at a port. *)
Definition service_at (host : bytes) (probe : Probe) (port : Z) : option (Endpoint * ServerInfo) :=
  if valid_port port then
    match probe (mkEndpoint host port) with
    | inr info => if bool_decide (StableID info = []) || bool_decide (HostKeyFingerprint info = []) || negb (both_protocols info) then None
                  else Some (mkEndpoint host port, info)
    | inl _ => None
    end
  else None.
Definition same_server (f g : Endpoint * ServerInfo) : Prop := StableID f.2 = StableID g.2 /\ HostKeyFingerprint f.2 = HostKeyFingerprint g.2.

Lemma discover_ports_found host probe ports found last :
  (discover_ports host probe ports found last).1 = found ++ omap (service_at host probe) ports.
Proof.
  revert found last. induction ports as [|p ports IH]; intros found last; cbn [discover_ports omap list_omap]; [by rewrite app_nil_r|].
  unfold service_at at 1. destruct (valid_port p); cbn [negb]; [|apply IH]. destruct (probe (mkEndpoint host p)) as [e|info]; [apply IH|].
  destruct (_ || _); [apply IH|]. rewrite IH. by rewrite <- app_assoc.
Qed.
Lemma ports_short host probe port : (length (omap (service_at host probe) (discovery_ports port)) <= 2)%nat.
Proof. unfold discovery_ports. destruct (port =? 0); cbn; repeat case_match; cbn; lia. Qed.

(** C18 (Discovery): the server found is the first of the ports tried (2222 before 22, or the
    one asked for) at which a Plumtree service with both protocols answers, and one is found
    exactly when there is such a port and all of them answer for the same server. The pin
    made of it on first use, which needs confirmation, accepts from then on exactly the same
    endpoint, host key, server and version. *)
Theorem discover_exact host port probe f :
  (Discover host port probe = inr f <->
   bad_host host = false /\ head (omap (service_at host probe) (discovery_ports port)) = Some f /\
   Forall (same_server f) (omap (service_at host probe) (discovery_ports port))) /\
  (forall pin endpoint info, FirstUsePin f.1 f.2 true = inr pin ->
     (Verify pin endpoint info = None <->
      endpoint = f.1 /\ StableID info = StableID f.2 /\ HostKeyAlgorithm info = HostKeyAlgorithm f.2 /\ HostKeyFingerprint info = HostKeyFingerprint f.2 /\
      ProductVersion info = ProductVersion f.2)) /\
  FirstUsePin f.1 f.2 false = inl ErrConfirmationRequired.
Proof.
  split; [|split; [|done]].
  - unfold Discover. destruct (bad_host host); [by split; [|intros (? & _)]|].
    pose proof (discover_ports_found host probe (discovery_ports port) [] NoErr) as Hf. cbn [app] in Hf. rewrite <- Hf. pose proof (ports_short host probe port) as Hl. rewrite <- Hf in Hl.
    destruct (discover_ports _ _ _ _ _) as [[|f1 [|f2 [|f3 l]]] last]; cbn [fst length head] in *; [..|lia].
    + destruct last; by split; [|intros (_ & ? & _)].
    + split; [intros [= ->]|by intros (_ & [= ->] & _)]. split; [done|]. split; [done|]. by repeat constructor.
    + unfold same_server. destruct (negb _ || negb _) eqn:He.
      * split; [done|]. intros (_ & [= ->] & Hall). apply Forall_cons in Hall as [_ Hall]. apply Forall_cons in Hall as [[Ha Hb] _].
        rewrite !bool_decide_eq_true_2 in He by done. done.
      * apply orb_false_iff in He as [Ha%negb_false_iff Hb%negb_false_iff]. apply bool_decide_eq_true_1 in Ha, Hb.
        split; [intros [= ->]|by intros (_ & [= ->] & _)]. split; [done|]. split; [done|]. by repeat constructor.
  - intros pin endpoint info. unfold FirstUsePin. cbn [negb]. destruct (_ || _); [done|]. intros [= <-]. unfold Verify. cbn [pin_Endpoint pin_Fingerprint pin_Algorithm pin_StableID pin_ProductVersion].
    repeat match goal with |- context [bool_decide (?a = ?b)] => destruct (decide (a = b)) as [?|?]; [rewrite (bool_decide_eq_true_2 (a = b)) by done|rewrite (bool_decide_eq_false_2 (a = b)) by done] end;
      cbn [negb orb]; try (split; [done|intros (? & ? & ? & ? & ?); congruence]).
Qed.

(** ** Principals *)

Definition principal_text (p : DevicePrincipal) : Prop := text (dp_ServerID p) /\ text (dp_AuthorID p) /\ text (dp_DeviceID p) /\ text (dp_Fingerprint p).
Definition envelope_text (e : PrincipalEnvelope) : Prop := text (en_Protocol e) /\ text (en_ServerID e) /\ principal_text (en_Principal e) /\ bytes_ok (en_Nonce e).

Lemma unsigned_printable e : envelope_text e -> printable 2 (unsigned_json e).
Proof.
  intros (? & ? & (? & ? & ? & ?) & ?). apply printable_obj.
  repeat (apply Forall_cons; split; [split; [cbn [fst]; pairing.names|first [apply printable_str; pairing.names|apply printable_null|apply printable_obj]]|]); [|apply List.Forall_nil].
  repeat (apply Forall_cons; split; [split; [cbn [fst]; pairing.names|apply printable_str; pairing.names]|]). apply List.Forall_nil.
Qed.
(** What is signed determines what is said. *)
Lemma unsigned_inj e e' : envelope_text e -> envelope_text e' -> print (unsigned_json e) = print (unsigned_json e') ->
  en_Protocol e = en_Protocol e' /\ en_ServerID e = en_ServerID e' /\ en_Principal e = en_Principal e' /\ en_Nonce e = en_Nonce e'.
Proof.
  intros He He' Hp. pose proof (first_value_print 2 (unsigned_json e) [] (unsigned_printable _ He) ltac:(done)) as H1.
  pose proof (first_value_print 2 (unsigned_json e') [] (unsigned_printable _ He') ltac:(done)) as H2. rewrite Hp in H1. rewrite H1 in H2.
  unfold unsigned_json, principal_json, JBytes in H2. destruct e as [p s [a b c d] n g], e' as [p' s' [a' b' c' d'] n' g']. cbn [en_Protocol en_ServerID en_Principal en_Nonce dp_ServerID dp_AuthorID dp_DeviceID dp_Fingerprint] in *.
  destruct He as (_ & _ & _ & Hn), He' as (_ & _ & _ & Hn').
  assert (Hb : b64_encode n = b64_encode n') by congruence. apply (f_equal b64_decode) in Hb. rewrite !b64_roundtrip in Hb by done. split_and!; congruence.
Qed.

Section Principal_laws.
Context `{Ed25519Laws}.

(** (Signed principals): a principal that was signed is accepted under the public key and
    comes back as it was; one that is accepted was signed for its server, within the bounds,
    and its signature fits no other principal, server or nonce. *)
Theorem principal_bound sk nonce p e pk q :
  (SignPrincipal sk p nonce = inr e -> VerifyPrincipal (ed_public sk) e = inr p) /\
  (VerifyPrincipal pk e = inr q -> q = en_Principal e /\ en_ServerID e = dp_ServerID q /\ principal_invalid q = false /\ 16 <= len (en_Nonce e) <= 64 /\
     ed_verify pk (print (unsigned_json e)) (en_Signature e) = true /\
     forall e', envelope_text e -> envelope_text e' -> signingBytes e' = signingBytes e -> en_Principal e' = q /\ en_ServerID e' = en_ServerID e /\ en_Nonce e' = en_Nonce e).
Proof.
  split.
  - unfold SignPrincipal. destruct (_ || _) eqn:Hg; [done|]. apply orb_false_iff in Hg as [Hg Hpi]. apply orb_false_iff in Hg as [Hk Hn]. apply negb_false_iff, Z.eqb_eq in Hk.
    destruct (signingBytes _) as [err|data] eqn:Hs; [done|]. intros [= <-]. unfold VerifyPrincipal. cbn [en_Signature]. rewrite ed_public_len, ed_sign_len by done. cbn [Z.eqb negb orb].
    change (signingBytes (mkEnvelope control.ProtocolName (dp_ServerID p) p nonce (ed_sign sk data))) with (signingBytes (mkEnvelope control.ProtocolName (dp_ServerID p) p nonce [])).
    by rewrite Hs, ed_signed.
  - unfold VerifyPrincipal. destruct (_ || _); [done|]. destruct (signingBytes e) as [err|data] eqn:Hs; [done|]. destruct (ed_verify pk data (en_Signature e)) eqn:Hv; [|done]. intros [= <-].
    split; [done|]. assert (Hs' := Hs). unfold signingBytes in Hs. destruct (_ || _) eqn:Hg; [done|]. apply (inj inr) in Hs as <-.
    apply orb_false_iff in Hg as [Hg Hpi]. apply orb_false_iff in Hg as [Hg Hn]. apply orb_false_iff in Hg as [Hg Hsv]. apply negb_false_iff, bool_decide_eq_true_1 in Hsv.
    unfold bad_nonce in Hn. apply orb_false_iff in Hn as [Hn1 Hn2]. zbool. split; [done|]. split; [done|]. split; [lia|]. split; [done|].
    intros e' He He' Heq. unfold signingBytes in Heq. destruct (_ || _) in Heq; [done|]. apply (inj inr) in Heq.
    destruct (unsigned_inj e' e He' He Heq) as (_ & ? & ? & ?). done.
Qed.
End Principal_laws.

(** ** Requests *)

Lemma no_identity r : control.ValidateRequest r = None -> Forall (fun name => control.Get (control.rq_Header r) name = []) control.identityHeaders.
Proof.
  unfold control.ValidateRequest. destruct (_ || _); [done|]. destruct (existsb _ _) eqn:He; [done|]. intros _. apply List.Forall_forall. intros n Hn.
  destruct (decide (control.Get (control.rq_Header r) n = [])) as [|Hne]; [done|]. assert (Hx : existsb (fun name => negb (bool_decide (control.Get (control.rq_Header r) name = []))) control.identityHeaders = true).
  { apply existsb_exists. exists n. split; [done|]. by rewrite bool_decide_eq_false_2. }
  congruence.
Qed.
Lemma values_of_set h k v k' : control.values_of (control.SetHeader h k v) k' =
  if bool_decide (control.CanonicalHeaderKey k = k') then [v] else control.values_of h k'.
Proof.
  unfold control.SetHeader. cbn [control.values_of]. destruct (decide (control.CanonicalHeaderKey k = k')) as [Hk|Hk]; [by rewrite bool_decide_eq_true_2|].
  rewrite bool_decide_eq_false_2 by done. induction h as [|[k0 vs] h IH]; cbn [List.filter control.values_of fst]; [done|].
  destruct (bool_decide (k0 = control.CanonicalHeaderKey k)) eqn:H0; cbn [negb].
  - apply bool_decide_eq_true_1 in H0 as ->. by rewrite (bool_decide_eq_false_2 (control.CanonicalHeaderKey k = k')).
  - cbn [control.values_of]. by rewrite IH.
Qed.

(** The answer of a server of that version, before its handler writes. *)
Definition answered_by (server : bytes) (q : control.Request) : option control.Header :=
  match ServeHTTP server q with inr (_, h) => Some h | inl _ => None end.

(** (Control requests): over a client that checks and a server that checks, a request is
    answered exactly when its path is under the prefix, it carries no identity, its body is
    within the bound, its version header is absent or the pinned one, and both ends are of
    the same version; what the handler is given names the pinned version and no identity. *)
Theorem control_checked server expected r h :
  (RoundTrip (answered_by server) expected r = inr h ->
   control.ValidateRequest r = None /\ RejectIdentityHeaders (control.rq_Header r) = None /\ server = expected /\ expected <> [] /\
   (control.Get (control.rq_Header r) control.VersionHeader = [] \/ control.Get (control.rq_Header r) control.VersionHeader = expected)) /\
  (forall q q' h', ServeHTTP server q = inr (q', h') -> q' = q /\ Forall (fun name => control.Get (control.rq_Header q) name = []) control.identityHeaders /\
     (control.rq_HasBody q = true -> control.rq_ContentLength q <= control.MaxBodyBytes)).
Proof.
  split.
  - unfold RoundTrip, answered_by. destruct (control.ValidateRequest r) eqn:Hv; [done|]. destruct (RejectIdentityHeaders _) eqn:Hr; [done|]. intros Hgo. split; [done|]. split; [done|].
    assert (Hresp : forall q, match match ServeHTTP server q with inr (_, h) => Some h | inl _ => None end with
        | None => inl TripBase
        | Some response => match control.ValidateResponse response expected with Some e => inl (TripControl e) | None => inr response end end = inr h ->
        server = expected /\ expected <> []).
    { intros q. unfold ServeHTTP. destruct (control.ValidateRequest q); [done|]. unfold control.ValidateResponse. change (control.Get (control.SetHeader [] control.VersionHeader server) control.VersionHeader) with server.
      unfold control.ValidateVersion. destruct (_ || _) eqn:He; [done|]. intros _. apply orb_false_iff in He as [He1 He2]. apply bool_decide_eq_false_1 in He1. apply negb_false_iff, bool_decide_eq_true_1 in He2. done. }
    destruct (bool_decide (control.Get (control.rq_Header r) control.VersionHeader = [])) eqn:Hs.
    + apply bool_decide_eq_true_1 in Hs. destruct (Hresp _ Hgo) as [? ?]. auto.
    + unfold control.ValidateVersion in Hgo at 1. destruct (_ || _) eqn:He in Hgo; [done|]. apply orb_false_iff in He as [_ He]. apply negb_false_iff, bool_decide_eq_true_1 in He.
      destruct (Hresp _ Hgo) as [? ?]. auto.
  - intros q q' h'. unfold ServeHTTP. destruct (control.ValidateRequest q) eqn:Hv; [done|]. intros [= <- _]. split; [done|]. split; [by apply no_identity|].
    intros Hb. unfold control.ValidateRequest in Hv. destruct (_ || _); [done|]. destruct (existsb _ _); [done|]. rewrite Hb in Hv. cbn [andb] in Hv.
    destruct (control.MaxBodyBytes <? control.rq_ContentLength q) eqn:Hl; [done|]. zbool. done.
Qed.

(** ** Policies *)

(** Nobody may open both subsystems, and only a candidate or an active device one of them. *)
Lemma subsystems_apart p s : AuthorizeSubsystem p s = None ->
  (s = pairing.ProtocolName /\ pr_Kind p = PrincipalCandidate) \/ (s = control.ProtocolName /\ pr_Kind p = PrincipalDevice /\ pr_Active p = true).
Proof.
  unfold AuthorizeSubsystem. case_bool_decide as Hs; [case_bool_decide; [by left|done]|]. case_bool_decide as Hc; [|done].
  case_bool_decide; cbn; [|done]. destruct (pr_Active p); cbn; [|done]. by right.
Qed.

(** ** Examples *)

Definition home : ServerInfo := mkServerInfo (str "server_1") (str "ssh-ed25519") (str "SHA256:host") (str "1.0") [pairing.ProtocolName; control.ProtocolName].
(** Nothing at 2222, the server at 22. *)
Definition home_probe : Probe := fun e => if Port e =? 22 then inr home else inl (str "refused").
Definition home_at : Endpoint * ServerInfo := (mkEndpoint (str "example.org") 22, home).
Definition home_pin : HostPin := mkPin (mkEndpoint (str "example.org") 22) (str "server_1") (str "ssh-ed25519") (str "SHA256:host") (str "1.0").

Lemma discover_exact_witness :
  Discover (str "example.org") 0 home_probe = inr home_at /\
  (Verify home_pin (mkEndpoint (str "example.org") 22) home = None) /\
  Verify home_pin (mkEndpoint (str "example.org") 22) (mkServerInfo (str "server_1") (str "ssh-ed25519") (str "SHA256:other") (str "1.0") []) <> None.
Proof.
  split; [|split].
  - apply (discover_exact (str "example.org") 0 home_probe home_at). split; [reflexivity|]. split; [reflexivity|]. repeat constructor.
  - apply (discover_exact (str "example.org") 0 home_probe home_at); [reflexivity|]. repeat split.
  - intros Hv. apply (discover_exact (str "example.org") 0 home_probe home_at) in Hv; [|reflexivity]. destruct Hv as (_ & _ & _ & Hf & _). discriminate Hf.
Defined.

Definition status_request : control.Request := control.mkRequest (str "/api/v1/status") [(str "Accept", [str "application/json"])] false 0.
Lemma control_checked_witness :
  RoundTrip (answered_by (str "1.0")) (str "1.0") status_request = inr [(control.VersionHeader, [str "1.0"])] /\
  str "1.0" = str "1.0" /\ Forall (fun name => control.Get (control.rq_Header status_request) name = []) control.identityHeaders.
Proof.
  assert (Hr : RoundTrip (answered_by (str "1.0")) (str "1.0") status_request = inr [(control.VersionHeader, [str "1.0"])]) by (vm_compute; reflexivity).
  split; [exact Hr|]. split.
  - exact (proj1 (proj2 (proj2 (proj1 (control_checked (str "1.0") (str "1.0") status_request [(control.VersionHeader, [str "1.0"])]) Hr)))).
  - exact (proj1 (proj2 (proj2 (control_checked (str "1.0") (str "1.0") status_request []) status_request status_request _ eq_refl))).
Defined.
End transport.
