(* ===== verification/Paired.v ===== *)
(** * The servers a device is paired with (internal/cli/paired: store.go, keys.go, manager.go)

    The store of server records with its file, the file of the device key of a server, and
    the operations of the manager: pairing, recovery, switching, renaming, unpairing and
    forgetting. encoding/json, key generation and the exchange with the server are
    parameters; every call of the file system may fail. *)

From stdpp Require Import list gmap.
From S2P Require Import Prelude Utf8 GoStrings CliText Json Pairing Transport.
Import transport.

Module paired.

Inductive PairedErr :=
| ErrInvalidStore | ErrServerNotFound | ErrDuplicateServer | ErrCurrentServer | ErrInvalidTarget | ErrRemoteRevokeFailed
| ErrInvalidKey | ErrKeyExists | ErrCredentialStore | ErrPairing | ErrTransport (e : TErr) | ErrExchange | ErrOS.

(** ** store.go *)

Record ServerRecord := mkServerRecord {
  sr_Name : bytes; sr_ServerID : bytes; sr_Host : bytes; sr_Port : Z; sr_HostKeyAlgorithm : bytes; sr_HostKeyFingerprint : bytes;
  sr_HostKeyPublicKey : bytes; sr_ProductVersion : bytes; sr_AuthorID : bytes; sr_AuthorHandle : bytes; sr_DeviceID : bytes;
  sr_DeviceName : bytes; sr_KeyRef : bytes }.

Definition record_Endpoint (r : ServerRecord) : Endpoint := mkEndpoint (sr_Host r) (sr_Port r).

Definition blank (s : bytes) : bool := bool_decide (TrimSpace s = []).
Definition contains_any (s chars : bytes) : bool := existsb (fun c => bool_decide (c ∈ chars)) s.

Definition validName (name : bytes) : bool :=
  let trimmed := TrimSpace name in
  if negb (bool_decide (name = trimmed)) || bool_decide (name = []) || (64 <? len name) || bool_decide (name = str ".") || bool_decide (name = str "..")
  then false else negb (contains_any name [47; 92; 0; 9; 13; 10]).

(** A reference that leaves the directory of keys. *)
Definition bad_ref (ref : bytes) : bool :=
  IsAbs ref || negb (bool_decide (Clean ref = ref)) || HasPrefix ref (str "../") || bool_decide (ref = str "..").

Definition validate_record (r : ServerRecord) : option PairedErr :=
  if negb (validName (sr_Name r)) || blank (sr_ServerID r) || blank (sr_Host r) || contains_any (sr_Host r) [47; 92]
     || (sr_Port r <? 1) || (65535 <? sr_Port r) || blank (sr_HostKeyAlgorithm r) || blank (sr_HostKeyFingerprint r) || blank (sr_ProductVersion r)
     || blank (sr_KeyRef r) then Some ErrInvalidStore else
  if bad_ref (sr_KeyRef r) then Some ErrInvalidStore else None.

Definition StoreVersion : Z := 1.
Record Store := mkStore { st_Version : Z; st_Current : bytes; st_Servers : list ServerRecord }.
Definition NewStore : Store := mkStore StoreVersion [] [].

Fixpoint validate_servers (seen : list bytes) (l : list ServerRecord) : list bytes + PairedErr :=
  match l with
  | [] => inl seen
  | r :: l =>
    match validate_record r with
    | Some e => inr e
    | None => if bool_decide (sr_Name r ∈ seen) then inr ErrDuplicateServer else validate_servers (sr_Name r :: seen) l
    end
  end.
Definition validate_store (s : Store) : option PairedErr :=
  if negb (st_Version s =? StoreVersion) then Some ErrInvalidStore else
  match validate_servers [] (st_Servers s) with
  | inr e => Some e
  | inl seen => if negb (bool_decide (st_Current s = [])) && negb (bool_decide (st_Current s ∈ seen)) then Some ErrServerNotFound else None
  end.

Definition with_current (s : Store) (c : bytes) : Store := mkStore (st_Version s) c (st_Servers s).
Definition with_servers (s : Store) (l : list ServerRecord) : Store := mkStore (st_Version s) (st_Current s) l.

Definition Add (s : Store) (r : ServerRecord) : PairedErr + Store :=
  match validate_record r with
  | Some e => inl e
  | None =>
    if existsb (fun old => bool_decide (sr_Name old = sr_Name r) || bool_decide (sr_ServerID old = sr_ServerID r)) (st_Servers s)
    then inl ErrDuplicateServer else
    let s := with_servers s (st_Servers s ++ [r]) in
    inr (if bool_decide (st_Current s = []) then with_current s (sr_Name r) else s)
  end.

Definition named (name : bytes) (r : ServerRecord) : bool := bool_decide (sr_Name r = name).
Definition Get (s : Store) (name : bytes) : PairedErr + ServerRecord :=
  match List.find (named name) (st_Servers s) with Some r => inr r | None => inl ErrServerNotFound end.
Definition CurrentRecord (s : Store) : PairedErr + ServerRecord :=
  if bool_decide (st_Current s = []) then inl ErrCurrentServer else Get s (st_Current s).
Definition Select (s : Store) (name : bytes) : PairedErr + Store :=
  match Get s name with inl e => inl e | inr _ => inr (with_current s name) end.

Definition with_name (name : bytes) (r : ServerRecord) : ServerRecord :=
  mkServerRecord name (sr_ServerID r) (sr_Host r) (sr_Port r) (sr_HostKeyAlgorithm r) (sr_HostKeyFingerprint r) (sr_HostKeyPublicKey r)
    (sr_ProductVersion r) (sr_AuthorID r) (sr_AuthorHandle r) (sr_DeviceID r) (sr_DeviceName r) (sr_KeyRef r).
(** The first record of the name. *)
Fixpoint rename_first (oldName newName : bytes) (l : list ServerRecord) : option (list ServerRecord) :=
  match l with
  | [] => None
  | r :: l => if named oldName r then Some (with_name newName r :: l) else (fun l => r :: l) <$> rename_first oldName newName l
  end.
Definition RenameServer (s : Store) (oldName newName : bytes) : PairedErr + Store :=
  if negb (validName newName) then inl ErrInvalidTarget else
  if existsb (named newName) (st_Servers s) then inl ErrDuplicateServer else
  match rename_first oldName newName (st_Servers s) with
  | Some l => inr (mkStore (st_Version s) (if bool_decide (st_Current s = oldName) then newName else st_Current s) l)
  | None => inl ErrServerNotFound
  end.

Fixpoint remove_first (name : bytes) (l : list ServerRecord) : option (ServerRecord * list ServerRecord) :=
  match l with
  | [] => None
  | r :: l => if named name r then Some (r, l) else (fun x => (x.1, r :: x.2)) <$> remove_first name l
  end.
Definition Remove (s : Store) (name : bytes) : PairedErr + (ServerRecord * Store) :=
  match remove_first name (st_Servers s) with
  | None => inl ErrServerNotFound
  | Some (r, l) =>
    let current := if bool_decide (st_Current s = name) then match l with r0 :: _ => sr_Name r0 | [] => [] end else st_Current s in
    inr (r, mkStore (st_Version s) current l)
  end.

Record Target := mkTarget { tg_Name : bytes; tg_Endpoint : Endpoint; tg_ServerID : bytes }.
Definition ResolveTarget (s : Store) (name : bytes) (override : option Endpoint) : PairedErr + Target :=
  let resolve name :=
    match Get s name with
    | inl e => inl e
    | inr r =>
      match override with
      | None => inr (mkTarget (sr_Name r) (record_Endpoint r) (sr_ServerID r))
      | Some o => if bool_decide (Host o = []) || negb (valid_port (Port o)) then inl ErrInvalidTarget
                  else inr (mkTarget (sr_Name r) o (sr_ServerID r))
      end
    end in
  if bool_decide (name = []) then match CurrentRecord s with inl e => inl e | inr r => resolve (sr_Name r) end else resolve name.

Record RedactedRecord := mkRedacted {
  rd_Name : bytes; rd_ServerID : bytes; rd_Host : bytes; rd_Port : Z; rd_HostKeyAlgorithm : bytes; rd_HostKeyFingerprint : bytes;
  rd_ProductVersion : bytes; rd_AuthorID : bytes; rd_AuthorHandle : bytes; rd_DeviceID : bytes; rd_DeviceName : bytes }.
Definition Redacted (r : ServerRecord) : RedactedRecord :=
  mkRedacted (sr_Name r) (sr_ServerID r) (sr_Host r) (sr_Port r) (sr_HostKeyAlgorithm r) (sr_HostKeyFingerprint r) (sr_ProductVersion r)
    (sr_AuthorID r) (sr_AuthorHandle r) (sr_DeviceID r) (sr_DeviceName r).

(** ** Files *)

Record File := mkFile { fl_regular : bool; fl_perm : Z; fl_data : bytes }.
Definition privateFileMode : Z := 0x180. (* 0600 *)
Definition maxStoreBytes : Z := Z.shiftl 1 20.
Definition private (f : File) : bool := fl_regular f && (fl_perm f =? privateFileMode).

(** The file of the store, the directory of keys, which of the next calls of the operating
    system fail, and which of the next calls of [os.Remove] do. *)
Record Disk := mkDisk { d_store : option File; d_keys : gmap bytes File; d_faults : list bool; d_removals : list bool }.
Definition set_store (f : option File) (d : Disk) : Disk := mkDisk f (d_keys d) (d_faults d) (d_removals d).
Definition set_keys (k : gmap bytes File) (d : Disk) : Disk := mkDisk (d_store d) k (d_faults d) (d_removals d).
(** [n] calls, the first of which that fails ends them. *)
Fixpoint os_calls (n : nat) (d : Disk) : Disk * bool :=
  match n with
  | O => (d, true)
  | S n =>
    match d_faults d with
    | [] => (d, true)
    | bad :: fs => let d := mkDisk (d_store d) (d_keys d) fs (d_removals d) in if (bad : bool) then (d, false) else os_calls n d
    end
  end.

Section Manager.
(** [json.MarshalIndent], and the decoding of one value and nothing else. *)
Context (marshal : Store -> bytes) (unmarshal : bytes -> option Store).

(** Lstat and Open may fail. *)
Definition Load (d : Disk) : Disk * (PairedErr + Store) :=
  let '(d, ok) := os_calls 1 d in
  if negb ok then (d, inl ErrOS) else
  match d_store d with
  | None => (d, inr NewStore)
  | Some f =>
    if negb (private f) then (d, inl ErrInvalidStore) else
    if maxStoreBytes <? len (fl_data f) then (d, inl ErrInvalidStore) else
    let '(d, ok) := os_calls 1 d in
    if negb ok then (d, inl ErrOS) else
    match unmarshal (fl_data f) with
    | None => (d, inl ErrInvalidStore)
    | Some s => match validate_store s with Some e => (d, inl e) | None => (d, inr s) end
    end
  end.

(** Eight calls of the operating system: the directory is made and its mode set, a temporary
    file is created, its mode set, it is written, synced and closed, and renamed. Only the
    last one touches the store. *)
Definition Save (path : bytes) (s : Store) (d : Disk) : Disk * option PairedErr :=
  match validate_store s with
  | Some e => (d, Some e)
  | None =>
    if bool_decide (Base path = str ".") || bool_decide (Base path = str "/") || blank path then (d, Some ErrInvalidStore) else
    let '(d, ok) := os_calls 8 d in
    if negb ok then (d, Some ErrOS) else (set_store (Some (mkFile true privateFileMode (marshal s ++ [10]))) d, None)
  end.

(** ** keys.go *)

Definition keyPath (dir serverID : bytes) : PairedErr + bytes :=
  if bool_decide (dir = []) || negb (validName serverID) then inl ErrInvalidKey else inr (serverID ++ str ".ed25519").
Definition set_key (name : bytes) (f : File) (d : Disk) : Disk := set_keys (<[name := f]> (d_keys d)) d.
(** [os.Remove] *)
Inductive removal := Removed | NotThere | NotRemoved.
Definition remove_key (name : bytes) (d : Disk) : Disk * removal :=
  let bad := match d_removals d with bad :: _ => bad | [] => false end in
  let d := mkDisk (d_store d) (d_keys d) (d_faults d) (tail (d_removals d)) in
  if (bad : bool) then (d, NotRemoved) else
  match d_keys d !! name with None => (d, NotThere) | Some _ => (set_keys (delete name (d_keys d)) d, Removed) end.

(** [fresh] is the key that is generated; a file that was begun is removed again. *)
Definition Generate (dir serverID : bytes) (fresh : option bytes) (d : Disk) : Disk * (PairedErr + bytes * bytes) :=
  match keyPath dir serverID with
  | inl e => (d, inl e)
  | inr name =>
    let '(d, ok) := os_calls 3 d in
    if negb ok then (d, inl ErrOS) else
    match d_keys d !! name with
    | Some f => (d, inl (if private f then ErrKeyExists else ErrInvalidKey))
    | None =>
      match fresh with
      | None => (d, inl ErrOS)
      | Some key =>
        let '(d, ok) := os_calls 1 d in
        if negb ok then (d, inl ErrOS) else
        let d := set_key name (mkFile true privateFileMode key) d in
        let '(d, ok) := os_calls 4 d in
        if negb ok then (fst (remove_key name d), inl ErrOS) else (d, inr (name, key))
      end
    end
  end.

(** ** manager.go *)

Record PairInput := mkPairInput {
  pi_Host : bytes; pi_Port : Z; pi_Name : bytes; pi_DeviceName : bytes; pi_ConfirmHostKey : bool; pi_Purpose : bytes; pi_Identifier : bytes;
  pi_Secret : bytes; pi_RecoverySecret : bytes }.
Record Manager := mkManager { m_StorePath : bytes; m_KeysDir : bytes }.

(** What the exchange does to the server, and its answer. *)
Context {W : Type} (exchange : HostPin -> bytes -> PairInput -> W -> W * option pairing.Complete).

Definition load (m : Manager) (d : Disk) : Disk * (PairedErr + Store) := if bool_decide (m_StorePath m = []) then (d, inl ErrInvalidStore) else Load d.
Definition save (m : Manager) (s : Store) (d : Disk) : Disk * option PairedErr := Save (m_StorePath m) s d.

Definition new_record (endpoint : Endpoint) (pin : HostPin) (i : PairInput) (r : pairing.Complete) (keyRef : bytes) : ServerRecord :=
  mkServerRecord (if bool_decide (pi_Name i = []) then pi_Host i else pi_Name i) (pin_StableID pin) (Host endpoint) (Port endpoint) (pin_Algorithm pin)
    (pin_Fingerprint pin) [] (pin_ProductVersion pin) (pairing.co_AuthorID r) (pairing.co_AuthorHandle r) (pairing.co_DeviceID r) (pi_DeviceName i) keyRef.

Definition with_purpose (p : bytes) (i : PairInput) : PairInput :=
  mkPairInput (pi_Host i) (pi_Port i) (pi_Name i) (pi_DeviceName i) (pi_ConfirmHostKey i) p (pi_Identifier i) (pi_Secret i) (pi_RecoverySecret i).
Definition needs_recovery (purpose : bytes) : bool :=
  bool_decide (purpose ∈ [pairing.PurposeNewAuthor; pairing.PurposeOfflineRecovery; pairing.PurposeOperatorRecovery]).

(** The record is added and the store saved. *)
Definition commit_record (m : Manager) (r : ServerRecord) (d : Disk) : Disk * (PairedErr + ServerRecord) :=
  let '(d, res) := load m d in
  match res with
  | inl e => (d, inl e)
  | inr store =>
    match Add store r with
    | inl e => (d, inl e)
    | inr store => let '(d, e) := save m store d in (d, match e with Some e => inl e | None => inr r end)
    end
  end.

(** After the exchange. *)
Definition after_exchange (m : Manager) (endpoint : Endpoint) (pin : HostPin) (i : PairInput) (keyRef : bytes) (r : option pairing.Complete) (d : Disk) :
  Disk * (PairedErr + ServerRecord) :=
  match r with
  | None => (d, inl ErrExchange)
  | Some r =>
    if negb (bool_decide (pairing.co_ServerID r = pin_StableID pin)) then (d, inl (ErrTransport ErrServerIDChanged)) else
    if bool_decide (pairing.co_DeviceID r = []) then (d, inl ErrPairing) else
    commit_record m (new_record endpoint pin i r keyRef) d
  end.

Definition Pair (m : Manager) (i : PairInput) (probe : Probe) (fresh : option bytes) (d : Disk) (w : W) : Disk * W * (PairedErr + ServerRecord) :=
  let i := if bool_decide (pi_Purpose i = []) then with_purpose pairing.PurposeNewAuthor i else i in
  if len (pi_Secret i) <? 16 then (d, w, inl ErrPairing) else
  if needs_recovery (pi_Purpose i) && (len (pi_RecoverySecret i) <? 16) then (d, w, inl ErrPairing) else
  match Discover (pi_Host i) (pi_Port i) probe with
  | inl e => (d, w, inl (ErrTransport e))
  | inr (endpoint, info) =>
    match FirstUsePin endpoint info (pi_ConfirmHostKey i) with
    | inl e => (d, w, inl (ErrTransport e))
    | inr pin =>
      let '(d, res) := Generate (m_KeysDir m) (StableID info) fresh d in
      match res with
      | inl e => (d, w, inl e)
      | inr (keyRef, signer) =>
        let '(w, r) := exchange pin signer i w in
        let '(d, res) := after_exchange m endpoint pin i keyRef r d in
        match res with
        | inl e => (fst (remove_key keyRef d), w, inl e)
        | inr record => (d, w, inr record)
        end
      end
    end
  end.
Definition Recover (m : Manager) (i : PairInput) (probe : Probe) (fresh : option bytes) (d : Disk) (w : W) :=
  Pair m (with_purpose pairing.PurposeOfflineRecovery i) probe fresh d w.

Definition on_store (m : Manager) (f : Store -> PairedErr + Store) (d : Disk) : Disk * option PairedErr :=
  let '(d, res) := load m d in
  match res with
  | inl e => (d, Some e)
  | inr store => match f store with inl e => (d, Some e) | inr store => save m store d end
  end.
Definition Switch (m : Manager) (name : bytes) : Disk -> Disk * option PairedErr := on_store m (fun s => Select s name).
Definition Rename (m : Manager) (oldName newName : bytes) : Disk -> Disk * option PairedErr := on_store m (fun s => RenameServer s oldName newName).

(** [Unpair]; [revoke] tells the server, and whether it agreed. *)
Context (revoke : ServerRecord -> W -> W * bool).
Definition UnpairStore (s : Store) (name : bytes) (forget : bool) (w : W) : W * (PairedErr + Store) :=
  match Get s name with
  | inl e => (w, inl e)
  | inr r =>
    let '(w, ok) := if forget then (w, true) else revoke r w in
    if negb ok then (w, inl ErrRemoteRevokeFailed) else
    (w, match Remove s name with inl e => inl e | inr (_, s) => inr s end)
  end.
Definition Unpair (m : Manager) (name : bytes) (d : Disk) (w : W) : Disk * W * option PairedErr :=
  let '(d, res) := load m d in
  match res with
  | inl e => (d, w, Some e)
  | inr store =>
    match Get store name with
    | inl e => (d, w, Some e)
    | inr record =>
      let '(w, res) := UnpairStore store name false w in
      match res with
      | inl e => (d, w, Some e)
      | inr store =>
        let '(d, e) := save m store d in
        match e with
        | Some e => (d, w, Some e)
        | None => let '(d, removed) := remove_key (sr_KeyRef record) d in (d, w, match removed with Removed => None | _ => Some ErrOS end)
        end
      end
    end
  end.
(** A key that is not there any more is no error. *)
Definition Forget (m : Manager) (name : bytes) (d : Disk) : Disk * option PairedErr :=
  let '(d, res) := load m d in
  match res with
  | inl e => (d, Some e)
  | inr store =>
    match Remove store name with
    | inl e => (d, Some e)
    | inr (record, store) =>
      let '(d, e) := save m store d in
      match e with
      | Some e => (d, Some e)
      | None =>
        let '(d, removed) := remove_key (sr_KeyRef record) d in (d, match removed with NotRemoved => Some ErrOS | _ => None end)
      end
    end
  end.
Definition Current (m : Manager) (d : Disk) : Disk * (PairedErr + ServerRecord) :=
  let '(d, res) := load m d in (d, match res with inl e => inl e | inr s => CurrentRecord s end).
End Manager.

(** ** The store as a map *)

Definition valid (s : Store) : Prop := validate_store s = None.
Definition view (s : Store) : gmap bytes ServerRecord := list_to_map (map (fun r => (sr_Name r, r)) (st_Servers s)).
Definition names (l : list ServerRecord) : list bytes := map sr_Name l.

Lemma validate_servers_ok seen l seen' : NoDup seen ->
  validate_servers seen l = inl seen' <-> Forall (fun r => validate_record r = None) l /\ NoDup (names l) /\ Forall (fun r => ~ sr_Name r ∈ seen) l /\ seen' = rev (names l) ++ seen.
Proof.
  intros Hnd. revert seen Hnd. induction l as [|r l IH]; intros seen Hnd; cbn [validate_servers names map rev].
  { split; [intros [= <-]|by intros (_ & _ & _ & ->)]. repeat split; constructor. }
  destruct (validate_record r) as [e|] eqn:Hv.
  { split; [done|]. intros (Ha & _). apply Forall_cons in Ha as [Ha _]. congruence. }
  case_bool_decide as Hs.
  { split; [done|]. intros (_ & _ & Hb & _). by apply Forall_cons in Hb as [Hb _]. }
  rewrite IH by (by constructor). fold (names l). split.
  - intros (Ha & Hb & Hc & ->). split; [by constructor|]. split.
    + constructor; [|done]. intros Hin. apply list_elem_of_fmap in Hin as (x & Hx & Hin). rewrite Forall_forall in Hc. apply (Hc x Hin). rewrite <- Hx. by left.
    + split; [|by rewrite <- app_assoc]. constructor; [done|]. eapply Forall_impl; [exact Hc|]. intros x Hx Hin. apply Hx. by right.
  - intros (Ha & Hb & Hc & ->). apply Forall_cons in Ha as [_ Ha]. apply NoDup_cons in Hb as [Hn Hb]. apply Forall_cons in Hc as [_ Hc].
    split; [done|]. split; [done|]. split; [|by rewrite <- app_assoc]. rewrite Forall_forall in Hc |- *. intros x Hx Hin. apply elem_of_cons in Hin as [He|Hin]; [|by apply (Hc x)].
    apply Hn. rewrite <- He. by apply list_elem_of_fmap_2.
Qed.
(** A store is valid when its records are, their names differ, and the current one is there. *)
Lemma valid_spec s : valid s <-> st_Version s = StoreVersion /\ Forall (fun r => validate_record r = None) (st_Servers s) /\ NoDup (names (st_Servers s)) /\
  (st_Current s = [] \/ st_Current s ∈ names (st_Servers s)).
Proof.
  unfold valid, validate_store. destruct (st_Version s =? StoreVersion) eqn:Hv; cbn [negb]; zbool; [|by split; [|intros (? & _)]].
  destruct (validate_servers [] (st_Servers s)) as [seen|e] eqn:Hs.
  - apply validate_servers_ok in Hs as (Ha & Hb & _ & ->); [|constructor]. rewrite app_nil_r. 
    destruct (decide (st_Current s = [])) as [Hc|Hc]; [rewrite (bool_decide_eq_true_2 (st_Current s = [])) by done|rewrite (bool_decide_eq_false_2 (st_Current s = [])) by done]; cbn [negb andb].
    + split; [|done]. intros _. auto.
    + case_bool_decide as Hin; cbn; rewrite list_elem_of_In, <- in_rev, <- list_elem_of_In in Hin.
      * split; [|done]. auto.
      * split; [done|]. by intros (_ & _ & _ & [?|?]).
  - split; [done|]. intros (_ & Ha & Hb & _). assert (Hok : validate_servers [] (st_Servers s) = inl (rev (names (st_Servers s)) ++ [])).
    { apply validate_servers_ok; [constructor|]. split; [done|]. split; [done|]. split; [|done]. apply Forall_forall. intros x _ Hx. by apply elem_of_nil in Hx. }
    congruence.
Qed.

Lemma view_lookup s name r : NoDup (names (st_Servers s)) -> view s !! name = Some r <-> r ∈ st_Servers s /\ sr_Name r = name.
Proof.
  intros Hnd. unfold view. rewrite <- elem_of_list_to_map.
  - rewrite list_elem_of_fmap. split; [by intros (x & [= -> ->] & ?)|intros [? <-]; by exists r].
  - rewrite <- list_fmap_compose. done.
Qed.
Lemma view_none s name : view s !! name = None <-> ~ name ∈ names (st_Servers s).
Proof. unfold view. rewrite <- not_elem_of_list_to_map. by rewrite <- list_fmap_compose. Qed.

Lemma find_named l name r : List.find (named name) l = Some r -> r ∈ l /\ sr_Name r = name.
Proof. intros Hf. apply find_some in Hf as [Hin Hn]. apply bool_decide_eq_true_1 in Hn. split; [by apply list_elem_of_In|done]. Qed.
Lemma Get_view s name : valid s -> Get s name = match view s !! name with Some r => inr r | None => inl ErrServerNotFound end.
Proof.
  intros Hv. apply valid_spec in Hv as (_ & _ & Hnd & _). unfold Get. destruct (List.find _ _) as [r|] eqn:Hf.
  - apply find_named in Hf. by rewrite (proj2 (view_lookup s name r Hnd)).
  - destruct (view s !! name) as [r|] eqn:Hl; [|done]. apply view_lookup in Hl as [Hin Hn]; [|done].
    pose proof (find_none _ _ Hf r) as Hno. rewrite <- list_elem_of_In in Hno. specialize (Hno Hin). unfold named in Hno. by rewrite bool_decide_eq_true_2 in Hno.
Qed.

(** The first record of a name splits the list. *)
Lemma remove_first_split name l r l' : remove_first name l = Some (r, l') ->
  exists l1 l2, l = l1 ++ r :: l2 /\ l' = l1 ++ l2 /\ sr_Name r = name /\ ~ name ∈ names l1.
Proof.
  revert l'. induction l as [|x l IH]; intros l'; cbn [remove_first]; [done|]. unfold named. case_bool_decide as Hx.
  - intros [= -> ->]. exists [], l'. repeat split; try done. intros Hin. by apply elem_of_nil in Hin.
  - destruct (remove_first name l) as [[r0 l0]|]; [|done]. cbn. intros [= <- <-]. destruct (IH l0 eq_refl) as (l1 & l2 & -> & -> & Hn & Hf).
    exists (x :: l1), l2. repeat split; try done. intros Hin. cbn in Hin. by apply elem_of_cons in Hin as [?|?].
Qed.
Lemma rename_first_split o n l l' : rename_first o n l = Some l' ->
  exists l1 r l2, l = l1 ++ r :: l2 /\ l' = l1 ++ with_name n r :: l2 /\ sr_Name r = o.
Proof.
  revert l'. induction l as [|x l IH]; intros l'; cbn [rename_first]; [done|]. unfold named. case_bool_decide as Hx.
  - intros [= <-]. by exists [], x, l.
  - destruct (rename_first o n l) as [l0|]; [|done]. cbn. intros [= <-]. destruct (IH l0 eq_refl) as (l1 & r & l2 & -> & -> & Hn). by exists (x :: l1), r, l2.
Qed.
Lemma existsb_named name l : existsb (named name) l = false <-> ~ name ∈ names l.
Proof.
  split.
  - intros He Hin. apply list_elem_of_fmap in Hin as (r & -> & Hin). assert (Hx : existsb (named (sr_Name r)) l = true); [|congruence].
    apply existsb_exists. exists r. split; [by apply list_elem_of_In|]. unfold named. by rewrite bool_decide_eq_true_2.
  - intros Hn. destruct (existsb _ l) eqn:He; [|done]. destruct Hn. apply existsb_exists in He as (r & Hin & Hr). apply bool_decide_eq_true_1 in Hr as <-.
    by apply list_elem_of_fmap_2, list_elem_of_In.
Qed.
Lemma names_split l1 r l2 : names (l1 ++ r :: l2) = names l1 ++ sr_Name r :: names l2.
Proof. unfold names. by rewrite map_app. Qed.

Lemma valid_record_name r : validate_record r = None -> sr_Name r <> [] /\ validName (sr_Name r) = true.
Proof.
  unfold validate_record. destruct (_ || _) eqn:Hg; [done|]. intros _. repeat (apply orb_false_iff in Hg as [Hg _]). apply negb_false_iff in Hg. split; [|done].
  intros He. rewrite He in Hg. vm_compute in Hg. done.
Qed.
Lemma with_name_valid n r : validName n = true -> validate_record r = None -> validate_record (with_name n r) = None.
Proof.
  intros Hn Hr. destruct (valid_record_name r Hr) as [_ Ho]. unfold validate_record, with_name in *. cbn [sr_Name sr_ServerID sr_Host sr_Port sr_HostKeyAlgorithm sr_HostKeyFingerprint sr_ProductVersion sr_KeyRef].
  rewrite Hn. rewrite Ho in Hr. done.
Qed.

Lemma view_ext (s : Store) (m : gmap bytes ServerRecord) : NoDup (names (st_Servers s)) ->
  (forall name r, m !! name = Some r <-> r ∈ st_Servers s /\ sr_Name r = name) -> view s = m.
Proof. intros Hnd Hm. apply map_eq. intros name. apply option_eq. intros r. rewrite Hm. by apply view_lookup. Qed.

Lemma Add_spec s r s' : valid s -> Add s r = inr s' ->
  valid s' /\ view s !! sr_Name r = None /\ view s' = <[sr_Name r := r]> (view s) /\
  st_Current s' = (if bool_decide (st_Current s = []) then sr_Name r else st_Current s) /\ st_Servers s' = st_Servers s ++ [r].
Proof.
  intros Hv Ha. apply valid_spec in Hv as (Hver & Hall & Hnd & Hcur). unfold Add in Ha. destruct (validate_record r) eqn:Hr; [done|].
  destruct (existsb _ _) eqn:He; [done|]. apply (inj inr) in Ha as <-.
  assert (Hn : ~ sr_Name r ∈ names (st_Servers s)).
  { apply existsb_named. destruct (existsb (named (sr_Name r)) (st_Servers s)) eqn:Hx; [|done]. apply existsb_exists in Hx as (x & Hin & Hx).
    assert (Hy : existsb (fun old => bool_decide (sr_Name old = sr_Name r) || bool_decide (sr_ServerID old = sr_ServerID r)) (st_Servers s) = true); [|congruence].
    apply existsb_exists. exists x. split; [done|]. unfold named in Hx. by rewrite Hx. }
  set (s1 := if bool_decide (st_Current (with_servers s (st_Servers s ++ [r])) = []) then _ else _).
  assert (Hs1 : st_Servers s1 = st_Servers s ++ [r] /\ st_Version s1 = st_Version s /\ st_Current s1 = (if bool_decide (st_Current s = []) then sr_Name r else st_Current s)).
  { unfold s1. cbn [with_servers st_Current]. by case_bool_decide. }
  destruct Hs1 as (Hs & Hsv & Hsc). assert (Hnd1 : NoDup (names (st_Servers s1))).
  { rewrite Hs. unfold names. rewrite map_app. apply NoDup_app. split; [done|]. split; [|apply NoDup_singleton]. intros x Hx Hin. apply list_elem_of_singleton in Hin as ->. done. }
  split; [|split; [by apply view_none|split; [|done]]].
  - apply valid_spec. rewrite Hs, Hsv, Hsc. split; [done|]. split; [apply Forall_app; split; [done|by constructor]|]. rewrite <- Hs. split; [done|]. rewrite Hs. unfold names. rewrite map_app.
    right. case_bool_decide; apply elem_of_app; [right; by apply list_elem_of_singleton|left]. by destruct Hcur.
  - apply view_ext; [done|]. intros name x. rewrite Hs, elem_of_app, list_elem_of_singleton, lookup_insert_Some, (view_lookup s) by done. split.
    + intros [[<- <-]|(Hne & Hin & Hx)]; auto.
    + intros [[Hin| ->] <-]; [right|by left]. split; [|done]. intros Hx. apply Hn. rewrite Hx. by apply list_elem_of_fmap_2.
Qed.

Lemma Select_spec s name s' : valid s -> Select s name = inr s' -> valid s' /\ is_Some (view s !! name) /\ view s' = view s /\ st_Current s' = name.
Proof.
  intros Hv Hs. unfold Select in Hs. rewrite Get_view in Hs by done. destruct (view s !! name) as [r|] eqn:Hl; [|done]. apply (inj inr) in Hs as <-.
  apply valid_spec in Hv as (Hver & Hall & Hnd & _). split; [|by eauto]. apply valid_spec. split; [done|]. split; [done|]. split; [done|]. right. cbn.
  apply view_lookup in Hl as [Hin <-]; [|done]. by apply list_elem_of_fmap_2.
Qed.

Lemma Rename_spec s o n s' : valid s -> RenameServer s o n = inr s' ->
  valid s' /\ exists r, view s !! o = Some r /\ view s !! n = None /\ view s' = <[n := with_name n r]> (delete o (view s)) /\
  st_Current s' = (if bool_decide (st_Current s = o) then n else st_Current s).
Proof.
  intros Hv Hr. apply valid_spec in Hv as (Hver & Hall & Hnd & Hcur). unfold RenameServer in Hr. destruct (validName n) eqn:Hn; [|done]. cbn [negb] in Hr.
  destruct (existsb _ _) eqn:He; [done|]. apply existsb_named in He. destruct (rename_first o n (st_Servers s)) as [l|] eqn:Hl; [|done]. apply (inj inr) in Hr as <-.
  destruct (rename_first_split _ _ _ _ Hl) as (l1 & r & l2 & Hs & -> & Hro). rewrite Hs in *. rewrite names_split in *. rewrite Hro in *.
  set (s' := mkStore _ _ _). assert (Hs' : st_Servers s' = l1 ++ with_name n r :: l2) by done.
  assert (Hnd' : NoDup (names (st_Servers s'))).
  { rewrite Hs', names_split. cbn [with_name sr_Name]. apply NoDup_app in Hnd as (H1 & H2 & H3). apply NoDup_cons in H3 as [H3 H4]. apply NoDup_app. split; [done|]. split.
    - intros x Hx Hin. apply elem_of_cons in Hin as [->|Hin]; [apply He; apply elem_of_app; by left|]. apply (H2 x Hx). by right.
    - constructor; [|done]. intros Hin. apply He. apply elem_of_app. right. by right. }
  assert (Hot : forall x, x ∈ l1 \/ x ∈ l2 -> sr_Name x <> o).
  { intros x Hx Hxo. apply NoDup_app in Hnd as (_ & H2 & H3). apply NoDup_cons in H3 as [H3 _]. destruct Hx as [Hx|Hx].
    - apply (H2 o); [|by left]. rewrite <- Hxo. by apply list_elem_of_fmap_2.
    - apply H3. rewrite <- Hxo. by apply list_elem_of_fmap_2. }
  assert (Hnn : forall x, x ∈ l1 \/ x ∈ l2 -> sr_Name x <> n).
  { intros x Hx Hxn. apply He. apply elem_of_app. destruct Hx as [Hx|Hx]; [left|right; right]; rewrite <- Hxn; by apply list_elem_of_fmap_2. }
  split.
  - apply valid_spec. split; [done|]. split; [|split; [done|]].
    + rewrite Hs'. apply Forall_app in Hall as [Ha1 Ha2]. apply Forall_cons in Ha2 as [Ha2 Ha3]. apply Forall_app. split; [done|]. constructor; [by apply with_name_valid|done].
    + rewrite Hs', names_split. cbn [with_name sr_Name s' st_Current]. case_bool_decide as Hc; [right; apply elem_of_app; right; by left|].
      destruct Hcur as [?|Hcur]; [by left|]. right. apply elem_of_app in Hcur as [?|Hcur]; apply elem_of_app; [by left|]. apply elem_of_cons in Hcur as [?|?]; [done|]. right. by right.
  - exists r. assert (Hnd0 : NoDup (names (st_Servers s))) by (rewrite Hs, names_split, Hro; done). split; [apply view_lookup; [done|]; rewrite Hs; split; [apply elem_of_app; right; by left|done]|].
    split; [apply view_none; rewrite Hs, names_split, Hro; done|]. split; [|done].
    apply view_ext; [done|]. intros name x. rewrite Hs', elem_of_app, elem_of_cons, lookup_insert_Some, lookup_delete_Some, (view_lookup s), Hs, elem_of_app, elem_of_cons by done. split.
    + intros [[<- <-]|(Hne & Hno & [Hx|[->|Hx]] & Hxn)]; [auto|split; [by left|done]|congruence|split; [by right; right|done]].
    + intros [[Hx|[->|Hx]] <-]; [right|by left|right]; (split; [intros Hq; by apply (Hnn x); auto|]); (split; [intros Hq; by apply (Hot x); auto|]); auto.
Qed.

Lemma Remove_spec s n r s' : valid s -> Remove s n = inr (r, s') ->
  valid s' /\ view s !! n = Some r /\ view s' = delete n (view s) /\ (st_Current s <> n -> st_Current s' = st_Current s) /\
  (st_Current s = n -> st_Current s' = [] <-> st_Servers s' = []).
Proof.
  intros Hv Hr. apply valid_spec in Hv as (Hver & Hall & Hnd & Hcur). unfold Remove in Hr. destruct (remove_first n (st_Servers s)) as [[r0 l]|] eqn:Hl; [|done].
  apply (inj inr) in Hr. injection Hr as -> <-. destruct (remove_first_split _ _ _ _ Hl) as (l1 & l2 & Hs & -> & Hrn & _).
  assert (Hnd0 := Hnd). rewrite Hs in Hall, Hnd, Hcur. rewrite names_split, Hrn in Hnd, Hcur. apply Forall_app in Hall as [Ha1 Ha2]. apply Forall_cons in Ha2 as [Ha2 Ha3].
  apply NoDup_app in Hnd as (H1 & H2 & H3). apply NoDup_cons in H3 as [H3 H4]. set (s' := mkStore _ _ _). assert (Hs' : st_Servers s' = l1 ++ l2) by done.
  assert (Hnd' : NoDup (names (st_Servers s'))).
  { rewrite Hs'. unfold names. rewrite map_app. apply NoDup_app. split; [done|]. split; [|done]. intros x Hx Hin. apply (H2 x Hx). by right. }
  assert (Hot : forall x, x ∈ l1 ++ l2 -> sr_Name x <> n).
  { intros x Hx Hxn. apply elem_of_app in Hx as [Hx|Hx]; [apply (H2 n); [|by left]|apply H3]; rewrite <- Hxn; by apply list_elem_of_fmap_2. }
  assert (Hval : Forall (fun r => validate_record r = None) (l1 ++ l2)) by (by apply Forall_app).
  split; [|split; [|split; [|split]]].
  - apply valid_spec. split; [done|]. split; [done|]. split; [done|]. rewrite Hs'. cbn [s' st_Current]. case_bool_decide as Hc.
    + destruct (l1 ++ l2) as [|y l]; [by left|]. right. by left.
    + destruct Hcur as [?|Hcur]; [by left|]. right. unfold names. rewrite map_app. apply elem_of_app in Hcur as [?|Hcur]; apply elem_of_app; [by left|]. apply elem_of_cons in Hcur as [?|?]; [done|by right].
  - apply view_lookup; [done|]. rewrite Hs. split; [apply elem_of_app; right; by left|done].
  - apply view_ext; [done|]. intros name x. rewrite lookup_delete_Some, (view_lookup s), Hs', Hs, !elem_of_app, elem_of_cons by done. split.
    + intros (Hne & [Hx|[->|Hx]] & Hxn); [auto|congruence|auto].
    + intros [Hx <-]. split; [intros Hq; apply (Hot x); [by apply elem_of_app|done]|]. destruct Hx; auto.
  - intros Hc. cbn. by rewrite bool_decide_eq_false_2.
  - intros Hc. cbn. rewrite bool_decide_eq_true_2 by done. destruct (l1 ++ l2) as [|y l]; [done|]. split; [|done]. intros Hy.
    apply Forall_cons in Hval as [Hy' _]. by apply valid_record_name in Hy' as [? _].
Qed.

(** C16 (The store of servers): on a valid store, every operation that succeeds leaves a valid
    one and does to it what it would do to a map from names to records: adding inserts a new
    name, renaming moves the record, removing deletes it, selecting changes nothing but the
    current server, which is always one of the store. *)
Theorem store_is_map s : valid s ->
  (forall name, Get s name = match view s !! name with Some r => inr r | None => inl ErrServerNotFound end) /\
  (forall r s', Add s r = inr s' -> valid s' /\ view s !! sr_Name r = None /\ view s' = <[sr_Name r := r]> (view s)) /\
  (forall name s', Select s name = inr s' -> valid s' /\ view s' = view s /\ st_Current s' = name) /\
  (forall o n s', RenameServer s o n = inr s' -> valid s' /\ exists r, view s !! o = Some r /\ view s !! n = None /\ view s' = <[n := with_name n r]> (delete o (view s))) /\
  (forall n r s', Remove s n = inr (r, s') -> valid s' /\ view s !! n = Some r /\ view s' = delete n (view s)) /\
  (st_Current s = [] \/ is_Some (view s !! st_Current s)).
Proof.
  intros Hv. split_and!.
  - intros name. by apply Get_view.
  - intros r s' Ha. destruct (Add_spec s r s' Hv Ha) as (? & ? & ? & _). done.
  - intros n s' Hs. destruct (Select_spec s n s' Hv Hs) as (? & _ & ? & ?). done.
  - intros o n s' Hr. destruct (Rename_spec s o n s' Hv Hr) as (? & r & ? & ? & ? & _). split; [done|]. by exists r.
  - intros n r s' Hr. destruct (Remove_spec s n r s' Hv Hr) as (? & ? & ? & _). done.
  - apply valid_spec in Hv as (_ & _ & Hnd & [?|Hc]); [by left|right]. apply list_elem_of_fmap in Hc as (r & Hc & Hin). exists r. by apply view_lookup.
Qed.

(** ** Pairing is all or nothing on the disk *)

Definition same_disk (d d' : Disk) : Prop := d_store d' = d_store d /\ d_keys d' = d_keys d /\ d_removals d' = d_removals d.
Lemma same_refl d : same_disk d d.
Proof. done. Qed.
Lemma same_trans d1 d2 d3 : same_disk d1 d2 -> same_disk d2 d3 -> same_disk d1 d3.
Proof. intros (? & ? & ?) (? & ? & ?). split_and!; congruence. Qed.
#[local] Hint Resolve same_refl : core.

Lemma os_calls_same n d d' ok : os_calls n d = (d', ok) -> same_disk d d'.
Proof.
  revert d. induction n as [|n IH]; intros d; cbn [os_calls]; [by intros [= <- <-]|]. destruct (d_faults d) as [|b fs] eqn:Hf; [by intros [= <- <-]|].
  destruct b; [by intros [= <- <-]|]. intros Ho. exact (IH _ Ho).
Qed.
(** A call of [os.Remove] leaves no file of that name, unless it is the call that fails. *)
Lemma remove_key_cases name d d' r : remove_key name d = (d', r) ->
  d_store d' = d_store d /\ (d_keys d' = delete name (d_keys d) \/ d_keys d' = d_keys d /\ r = NotRemoved /\ d_removals d = true :: d_removals d').
Proof.
  unfold remove_key. destruct (d_removals d) as [|[] rs]; cbn; [|intros [= <- <-]; by split; [|right]|];
    (destruct (d_keys d !! name) as [f|] eqn:Hl; intros [= <- <-]; (split; [done|]); left; cbn; [done|by rewrite delete_id]).
Qed.

Section Transaction.
Context (marshal : Store -> bytes) (unmarshal : bytes -> option Store).
(** What [encoding/json] writes of a store whose strings are text is read back. *)
Context (storable : Store -> Prop) (codec : forall s, storable s -> unmarshal (marshal s ++ [10]) = Some s).
Context {W : Type} (exchange : HostPin -> bytes -> PairInput -> W -> W * option pairing.Complete).

(** The store that a disk holds. *)
Definition stored (d : Disk) (s : Store) : Prop :=
  (d_store d = None /\ s = NewStore) \/
  exists f, d_store d = Some f /\ private f = true /\ len (fl_data f) <= maxStoreBytes /\ unmarshal (fl_data f) = Some s /\ valid s.

Lemma stored_valid d s : stored d s -> valid s.
Proof. intros [[_ ->]|(f & _ & _ & _ & _ & Hv)]; [|done]. vm_compute. done. Qed.
Lemma Load_cases d d' res : Load unmarshal d = (d', res) -> same_disk d d' /\ forall s, res = inr s -> stored d s.
Proof.
  unfold Load. destruct (os_calls 1 d) as [d1 ok] eqn:Ho. destruct (os_calls_same _ _ _ _ Ho) as (Hs & Hk & Hf). destruct ok; cbn [negb]; [|by intros [= <- <-]].
  assert (Hd1 : same_disk d d1) by done. rewrite Hs. clear Hs. destruct (d_store d) as [f|] eqn:Hst; [|intros [= <- <-]; split; [done|]; intros s [= <-]; by left].
  destruct (private f) eqn:Hp; cbn [negb]; [|by intros [= <- <-]]. destruct (maxStoreBytes <? len (fl_data f)) eqn:Hl; [by intros [= <- <-]|]. zbool.
  destruct (os_calls 1 d1) as [d2 ok] eqn:Ho2. pose proof (os_calls_same _ _ _ _ Ho2) as Hsame.
  assert (Hd : same_disk d d2) by (by eapply same_trans).
  destruct ok; cbn [negb]; [|by intros [= <- <-]].
  destruct (unmarshal (fl_data f)) as [s|] eqn:Hu; [|by intros [= <- <-]]. destruct (validate_store s) eqn:Hv; intros [= <- <-]; (split; [done|]); [done|].
  intros s' [= <-]. right. by exists f.
Qed.
Lemma Load_stored d s : d_faults d = [] -> stored d s -> (Load unmarshal d).2 = inr s.
Proof.
  intros Hf Hs. unfold Load. cbn [os_calls]. rewrite Hf. cbn [negb]. destruct Hs as [[-> ->]|(f & -> & -> & Hl & -> & Hv)]; [done|]. cbn [negb].
  rewrite (proj2 (Z.ltb_ge _ _)) by done. cbn [os_calls]. rewrite Hf. cbn [negb]. unfold valid in Hv. by rewrite Hv.
Qed.
Lemma Save_cases path s d d' e : Save marshal path s d = (d', e) ->
  d_keys d' = d_keys d /\ d_removals d' = d_removals d /\
  ((e <> None /\ d_store d' = d_store d) \/ (e = None /\ valid s /\ d_store d' = Some (mkFile true privateFileMode (marshal s ++ [10])))).
Proof.
  unfold Save. destruct (validate_store s) eqn:Hv; [intros [= <- <-]; split; [done|]; split; [done|]; by left|].
  destruct (_ || _); [intros [= <- <-]; split; [done|]; split; [done|]; by left|].
  destruct (os_calls 8 d) as [d1 ok] eqn:Ho. destruct (os_calls_same _ _ _ _ Ho) as (Hs & Hk & Hf).
  destruct ok; cbn [negb]; intros [= <- <-]; cbn; (split; [done|]); (split; [done|]); [by right|by left].
Qed.

(** A key that was not there is left behind by [d'], and the one call of [os.Remove] that was
    made on the way from [d] failed. *)
Definition key_stuck (d d' : Disk) : Prop :=
  d_removals d = true :: d_removals d' /\ exists ref f, d_keys d !! ref = None /\ d_keys d' = <[ref := f]> (d_keys d).
(** The cleanup of a key that was made since [d]. *)
Lemma cleanup_cases name f d d1 : d_keys d !! name = None -> d_keys d1 = <[name := f]> (d_keys d) -> d_removals d1 = d_removals d ->
  d_keys (fst (remove_key name d1)) = d_keys d \/ key_stuck d (fst (remove_key name d1)).
Proof.
  intros Hn Hk Hr. destruct (remove_key name d1) as [d2 r] eqn:Hrm. cbn [fst]. destruct (remove_key_cases _ _ _ _ Hrm) as [_ [->|(Hk2 & _ & Hr2)]].
  - left. by rewrite Hk, delete_insert_id.
  - right. split; [congruence|]. exists name, f. by rewrite Hk2, Hk.
Qed.
Lemma remove_key_store name d : d_store (fst (remove_key name d)) = d_store d.
Proof. destruct (remove_key name d) as [d' r] eqn:Hr. by destruct (remove_key_cases _ _ _ _ Hr). Qed.

Lemma Generate_cases dir id fresh d d' res : Generate dir id fresh d = (d', res) ->
  d_store d' = d_store d /\
  match res with
  | inl _ => d_keys d' = d_keys d \/ key_stuck d d'
  | inr (ref, key) => d_removals d' = d_removals d /\ fresh = Some key /\ d_keys d !! ref = None /\ d_keys d' = <[ref := mkFile true privateFileMode key]> (d_keys d)
  end.
Proof.
  unfold Generate. destruct (keyPath dir id) as [e|name]; [intros [= <- <-]; by auto|].
  destruct (os_calls 3 d) as [d1 ok] eqn:Ho. destruct (os_calls_same _ _ _ _ Ho) as (Hs & Hk & Hr). destruct ok; cbn [negb]; [|intros [= <- <-]; by auto].
  destruct (d_keys d1 !! name) as [f|] eqn:Hl; [intros [= <- <-]; by auto|]. rewrite Hk in Hl.
  destruct fresh as [key|]; [|intros [= <- <-]; by auto].
  destruct (os_calls 1 d1) as [d2 ok] eqn:Ho2. destruct (same_trans d d1 d2 ltac:(done) (os_calls_same _ _ _ _ Ho2)) as (Hs2 & Hk2 & Hr2).
  destruct ok; cbn [negb]; [|intros [= <- <-]; by auto].
  destruct (os_calls 4 _) as [d3 ok] eqn:Ho3. destruct (os_calls_same _ _ _ _ Ho3) as (Hs3 & Hk3 & Hr3). cbn in Hs3, Hk3, Hr3. rewrite Hk2 in Hk3.
  destruct ok; cbn [negb].
  - intros [= <- <-]. split; [congruence|]. by split; [congruence|].
  - intros [= <- <-]. rewrite remove_key_store. split; [congruence|]. eapply cleanup_cases; [done|exact Hk3|congruence].
Qed.

(** A record that was committed. *)
Definition committed (d : Disk) (r : ServerRecord) (d' : Disk) : Prop :=
  exists s s', stored d s /\ Add s r = inr s' /\ valid s' /\ d_store d' = Some (mkFile true privateFileMode (marshal s' ++ [10])).
Lemma commit_cases m r d d' res : commit_record marshal unmarshal m r d = (d', res) ->
  d_keys d' = d_keys d /\ d_removals d' = d_removals d /\
  match res with inl _ => d_store d' = d_store d | inr x => x = r /\ committed d r d' end.
Proof.
  unfold commit_record, load. case_bool_decide; [intros [= <- <-]; by split_and!|].
  destruct (Load unmarshal d) as [d1 res1] eqn:Hl. destruct (Load_cases _ _ _ Hl) as [(Hs & Hk & Hf) Hst]. destruct res1 as [e|s]; [intros [= <- <-]; by split_and!|].
  specialize (Hst s eq_refl). destruct (Add s r) as [e|s'] eqn:Ha; [intros [= <- <-]; by split_and!|].
  destruct (save marshal m s' d1) as [d2 e] eqn:Hsv. destruct (Save_cases _ _ _ _ _ Hsv) as (Hk2 & Hf2 & Hc). intros [= <- <-].
  split; [congruence|]. split; [congruence|]. destruct Hc as [[He Hs2]|(-> & Hv & Hs2)].
  - destruct e as [e|]; [congruence|done].
  - split; [done|]. by exists s, s'.
Qed.
Lemma after_cases m endpoint pin i ref answer d d' res : after_exchange marshal unmarshal m endpoint pin i ref answer d = (d', res) ->
  d_keys d' = d_keys d /\ d_removals d' = d_removals d /\
  match res with
  | inl _ => d_store d' = d_store d
  | inr r => exists a, answer = Some a /\ pairing.co_ServerID a = pin_StableID pin /\ pairing.co_DeviceID a <> [] /\ r = new_record endpoint pin i a ref /\ committed d r d'
  end.
Proof.
  unfold after_exchange. destruct answer as [a|]; [|intros [= <- <-]; by split_and!]. case_bool_decide as Hid; cbn [negb]; [|intros [= <- <-]; by split_and!].
  case_bool_decide as Hd; [intros [= <- <-]; by split_and!|]. intros Hc. destruct (commit_cases _ _ _ _ _ Hc) as (? & ? & Hr).
  split; [done|]. split; [done|]. destruct res as [e|r]; [done|]. destruct Hr as [-> Hr]. by exists a.
Qed.

(** The purpose that is asked for by default. *)
Definition effective (i : PairInput) : PairInput := if bool_decide (pi_Purpose i = []) then with_purpose pairing.PurposeNewAuthor i else i.

(** C15 (Pairing is a transaction): whatever calls of the operating system fail, when pairing
    reports an error the file of servers is as it was, and so are the keys; a key is left
    behind only when the one call of [os.Remove] that pairing made to clean it up failed.
    When it succeeds, the server was found, its identity confirmed and pinned, one exchange
    made with a fresh key, answered by that server; the key is stored for the owner only under
    a new name, the file holds the old servers and the new record, and is read back like that. *)
Theorem pair_transaction m i probe fresh d w d' w' res :
  Pair marshal unmarshal exchange m i probe fresh d w = (d', w', res) ->
  match res with
  | inl _ => d_store d' = d_store d /\ (d_keys d' = d_keys d \/ key_stuck d d')
  | inr r =>
    exists endpoint info pin key a s s',
      Discover (pi_Host i) (pi_Port i) probe = inr (endpoint, info) /\ FirstUsePin endpoint info (pi_ConfirmHostKey i) = inr pin /\ pi_ConfirmHostKey i = true /\
      fresh = Some key /\ exchange pin key (effective i) w = (w', Some a) /\ pairing.co_ServerID a = StableID info /\
      r = new_record endpoint pin (effective i) a (sr_KeyRef r) /\
      d_keys d !! sr_KeyRef r = None /\ d_keys d' = <[sr_KeyRef r := mkFile true privateFileMode key]> (d_keys d) /\
      stored d s /\ Add s r = inr s' /\ d_store d' = Some (mkFile true privateFileMode (marshal s' ++ [10])) /\
      (storable s' -> len (marshal s') < maxStoreBytes -> stored d' s')
  end.
Proof using codec.
  unfold Pair. fold (effective i). assert (Hh : pi_Host (effective i) = pi_Host i /\ pi_Port (effective i) = pi_Port i /\ pi_ConfirmHostKey (effective i) = pi_ConfirmHostKey i) by (unfold effective; by case_bool_decide).
  destruct Hh as (-> & -> & ->). destruct (len (pi_Secret (effective i)) <? 16); [intros [= <- <- <-]; by split_and!; auto|].
  destruct (_ && _); [intros [= <- <- <-]; by split_and!; auto|].
  destruct (Discover _ _ probe) as [e|[endpoint info]] eqn:Hdis; [intros [= <- <- <-]; by split_and!; auto|].
  destruct (FirstUsePin _ _ _) as [e|pin] eqn:Hpin; [intros [= <- <- <-]; by split_and!; auto|].
  destruct (Generate _ _ fresh d) as [d1 g] eqn:Hg. destruct (Generate_cases _ _ _ _ _ _ Hg) as (Hs1 & Hg1).
  destruct g as [e|[ref key]]; [intros [= <- <- <-]; by split_and!|]. destruct Hg1 as (Hr1 & -> & Hnone & Hk1).
  destruct (exchange pin key (effective i) w) as [w1 answer] eqn:Hex. destruct (after_exchange _ _ _ _ _ _ _ _ _) as [d2 res2] eqn:Haf.
  destruct (after_cases _ _ _ _ _ _ _ _ _ Haf) as (Hk2 & Hf2 & Hr2). destruct res2 as [e|r].
  - intros [= <- <- <-]. rewrite remove_key_store. split; [congruence|]. eapply cleanup_cases; [done|by rewrite Hk2|congruence].
  - intros [= <- <- <-]. destruct Hr2 as (a & -> & Hid & Hdev & Hr & (s & s' & Hst & Ha & Hv & Hs2)).
    assert (Hc : pi_ConfirmHostKey i = true) by (unfold FirstUsePin in Hpin; by destruct (pi_ConfirmHostKey i)).
    assert (Hpid : pin_StableID pin = StableID info) by (unfold FirstUsePin in Hpin; destruct (negb _); [done|]; destruct (_ || _); [done|]; by injection Hpin as <-).
    assert (Href : sr_KeyRef r = ref) by (by rewrite Hr).
    exists endpoint, info, pin, key, a, s, s'. rewrite Href. split_and!; try done; [congruence|congruence|..].
    + destruct Hst as [[Hno ->]|(f & Hf & Hrest)]; [left; split; [congruence|done]|right; exists f; split; [congruence|done]].
    + intros Hsto Hlen. right. eexists. split; [exact Hs2|]. cbn [fl_data]. split; [done|]. split; [rewrite len_app; change (len [10]) with 1; lia|]. split; [by apply codec|done].
Qed.
End Transaction.

(** ** Examples *)

Section Examples.
(** A codec, for the examples: the store as a number. *)
Definition tuple_of (r : ServerRecord) :=
  (sr_Name r, sr_ServerID r, sr_Host r, sr_Port r, sr_HostKeyAlgorithm r, sr_HostKeyFingerprint r, sr_HostKeyPublicKey r, sr_ProductVersion r,
   (sr_AuthorID r, sr_AuthorHandle r, sr_DeviceID r, sr_DeviceName r, sr_KeyRef r)).
Definition record_of (t : bytes * bytes * bytes * Z * bytes * bytes * bytes * bytes * (bytes * bytes * bytes * bytes * bytes)) : ServerRecord :=
  let '(a, b, c, d, e, f, g, h, (i, j, k, l, m)) := t in mkServerRecord a b c d e f g h i j k l m.
Definition number_marshal (s : Store) : bytes := [Zpos (encode (st_Version s, st_Current s, map tuple_of (st_Servers s)))].
Definition number_unmarshal (b : bytes) : option Store :=
  match b with
  | [Zpos p; 10] => '(v, c, l) ← decode p; Some (mkStore v c (map record_of l))
  | _ => None
  end.
Lemma number_codec s : True -> number_unmarshal (number_marshal s ++ [10]) = Some s.
Proof.
  intros _. unfold number_marshal, number_unmarshal. cbn [app]. rewrite decode_encode. cbn. rewrite map_map. destruct s as [v c l]. cbn. f_equal. f_equal.
  rewrite <- (map_id l) at 2. apply map_ext. by intros [].
Qed.

Definition answer_home : pairing.Complete := pairing.mkComplete (str "server_1") (str "author_1") (str "ann") (str "device_2").
(** The server counts the devices it has added. *)
Definition count_exchange (_ : HostPin) (_ : bytes) (_ : PairInput) (n : nat) : nat * option pairing.Complete := (S n, Some answer_home).
Definition laptop : Manager := mkManager (str "/home/ann/servers.json") (str "/home/ann/keys").
Definition pair_home : PairInput :=
  mkPairInput (str "example.org") 0 (str "home") (str "laptop") true pairing.PurposeAddDevice (str "enroll_1") (str "correct horse battery") [].
Definition fresh_disk : Disk := mkDisk None ∅ [] [].
Definition home_run := Pair number_marshal number_unmarshal count_exchange laptop pair_home home_probe (Some [42]) fresh_disk 0%nat.
Definition home_record : ServerRecord :=
  mkServerRecord (str "home") (str "server_1") (str "example.org") 22 (str "ssh-ed25519") (str "SHA256:host") [] (str "1.0") (str "author_1") (str "ann") (str "device_2")
    (str "laptop") (str "server_1.ed25519").

Lemma pair_transaction_witness : home_run.2 = inr home_record /\ stored number_unmarshal home_run.1.1 (mkStore 1 (str "home") [home_record]).
Proof.
  assert (Hr : home_run.2 = inr home_record) by (vm_compute; reflexivity). split; [exact Hr|].
  assert (He : home_run = (home_run.1.1, home_run.1.2, inr home_record)) by (rewrite <- Hr; destruct home_run as [[? ?] ?]; reflexivity). unfold home_run in He at 1.
  destruct (pair_transaction number_marshal number_unmarshal (fun _ => True) number_codec count_exchange laptop pair_home home_probe (Some [42]) fresh_disk 0%nat _ _ _ He)
    as (endpoint & info & pin & key & a & s & s' & _ & _ & _ & _ & _ & _ & _ & _ & _ & Hs & Ha & _ & Hl).
  assert (Hnew : s = NewStore) by (destruct Hs as [[_ Hs]|(f & Hf & _)]; [exact Hs|discriminate Hf]). subst s.
  assert (Hs' : s' = mkStore 1 (str "home") [home_record]) by (vm_compute in Ha; injection Ha as <-; vm_compute; reflexivity). subst s'.
  apply Hl; [exact I|vm_compute; reflexivity].
Defined.

Definition home_store : Store := mkStore 1 (str "home") [home_record].
Lemma store_is_map_witness : valid home_store /\ Get home_store (str "home") = inr home_record.
Proof.
  assert (Hv : valid home_store) by (vm_compute; reflexivity). split; [exact Hv|].
  rewrite (proj1 (store_is_map home_store Hv) (str "home")). vm_compute. reflexivity.
Defined.

(** The name is checked only after the server has added the device: the error leaves a device
    on the server whose key is gone. *)
Definition other_home : ServerRecord := with_name (str "home") (mkServerRecord [] (str "server_9") (str "example.net") 22 (str "ssh-ed25519") (str "SHA256:x") [] (str "1.0") [] [] [] [] (str "k")).
Definition taken_disk : Disk := mkDisk (Some (mkFile true privateFileMode (number_marshal (mkStore 1 (str "home") [other_home]) ++ [10]))) ∅ [] [].
Example duplicate_name_loses_device :
  let '(d, n, res) := Pair number_marshal number_unmarshal count_exchange laptop pair_home home_probe (Some [42]) taken_disk 0%nat in
  res = inl ErrDuplicateServer /\ n = 1%nat /\ d_keys d = ∅.
Proof. vm_compute. repeat split; reflexivity. Qed.
(** A server that does not answer: the key is removed, unless that very call fails. *)
Definition no_exchange (_ : HostPin) (_ : bytes) (_ : PairInput) (n : nat) : nat * option pairing.Complete := (n, None).
Example refused_pairing : let run removals := Pair number_marshal number_unmarshal no_exchange laptop pair_home home_probe (Some [42]) (mkDisk None ∅ [] removals) 0%nat in
  (run [false]).2 = inl ErrExchange /\ d_keys (run [false]).1.1 = ∅ /\ dom (d_keys (run [true]).1.1) = {[str "server_1.ed25519"]}.
Proof. vm_compute. repeat split; reflexivity. Qed.
(** The write of the key fails, then that of nothing else. *)
Example failed_write_cleans : let run removals := Generate (str "/home/ann/keys") (str "server_1") (Some [42]) (mkDisk None ∅ [false; false; false; false; true] removals) in
  (run []).2 = inl ErrOS /\ d_keys (run []).1 = ∅ /\ dom (d_keys (run [true]).1) = {[str "server_1.ed25519"]}.
Proof. vm_compute. repeat split; reflexivity. Qed.
End Examples.
End paired.
