(* ===== verification/Cli.v ===== *)
(** * Finite commands (sdk/cli/cli.go)

    Command trees, their validation, the parsing of arguments into typed values,
    and the execution of one invocation.

    A handler is any function of its context and arguments; it may fail or panic.
    encoding/json, [strconv.Quote], [time.ParseDuration] and the formatting of
    values by fmt are parameters. *)

From S2P Require Import Prelude Utf8 GoStrings Streams CliText.

(** ** Errors *)

Inductive sentinel :=
| ErrUsage | ErrUnknown | ErrMissing | ErrInvalid | ErrLimit | ErrUnavailable | ErrInternal | ErrLexer | ErrCanceled
| ctxCanceled | ctxDeadlineExceeded.
#[export] Instance sentinel_eq_dec : EqDecision sentinel.
Proof. solve_decision. Defined.

(** [Error] *)
Record Failure := mkFailure { f_Code : bytes; f_Message : bytes; f_ExitCode : Z; f_ShowUsage : bool }.

(** A Go error: its text, the sentinels it wraps ([errors.Is]) and the [Error] or
    [*Error] in its chain ([errors.As]; [true]: a pointer). *)
Record GoErr := mkErr { e_text : bytes; e_is : list sentinel; e_as : option (bool * Failure) }.

Definition sentinel_text (s : sentinel) : bytes :=
  match s with
  | ErrUsage => str "cli: usage error"
  | ErrUnknown => str "cli: unknown command or flag"
  | ErrMissing => str "cli: missing value"
  | ErrInvalid => str "cli: invalid value"
  | ErrLimit => str "cli: invocation limit exceeded"
  | ErrUnavailable => str "cli: runtime unavailable"
  | ErrInternal => str "cli: internal error"
  | ErrLexer => str "cli: invalid command string"
  | ErrCanceled => str "cli: invocation canceled"
  | ctxCanceled => str "context canceled"
  | ctxDeadlineExceeded => str "context deadline exceeded"
  end.

Definition err (s : sentinel) : GoErr := mkErr (sentinel_text s) [s] None.
(** [fmt.Errorf("%w: ...", s, ...)] *)
Definition wrap (s : sentinel) (text : bytes) : GoErr := mkErr (sentinel_text s ++ str ": " ++ text) [s] None.
Definition errors_Is (e : GoErr) (s : sentinel) : bool := bool_decide (s ∈ e_is e).

(** A decimal, possibly negative. *)
Definition itoa (n : Z) : bytes := if n <? 0 then 45 :: decimal (- n) else decimal n.

(** ** Descriptors *)

Definition StringValue : Z := 0.
Definition BoolValue : Z := 1.
Definition IntValue : Z := 2.
Definition DurationValue : Z := 3.
Definition StringsValue : Z := 4.

Record ArgsRule := mkRule { r_Min : Z; r_Max : Z }.
Definition NoArgs : ArgsRule := mkRule 0 0.
Definition AnyArgs : ArgsRule := mkRule 0 MaxArgs.
Definition ExactArgs (n : Z) : ArgsRule := mkRule n n.
Definition AtLeastArgs (n : Z) : ArgsRule := mkRule n MaxArgs.
Definition AtMostArgs (n : Z) : ArgsRule := mkRule 0 n.
Definition RangeArgs (minimum maximum : Z) : ArgsRule := mkRule minimum maximum.

Record Flag := mkFlag {
  fl_Name : bytes; fl_Short : Z; fl_Help : bytes; fl_Kind : Z; fl_Default : bytes;
  fl_Required : bool; fl_Repeated : bool; fl_Validate : option (bytes -> option GoErr) }.

Definition new_flag (name help : bytes) (kind : Z) (repeated : bool) : Flag :=
  mkFlag name 0 help kind [] false repeated None.
Definition StringFlag (name help : bytes) : Flag := new_flag name help StringValue false.
Definition BoolFlag (name help : bytes) : Flag := new_flag name help BoolValue false.
Definition IntFlag (name help : bytes) : Flag := new_flag name help IntValue false.
Definition DurationFlag (name help : bytes) : Flag := new_flag name help DurationValue false.
Definition StringsFlag (name help : bytes) : Flag := new_flag name help StringsValue true.

Definition WithShort (f : Flag) (short : Z) : Flag :=
  mkFlag (fl_Name f) short (fl_Help f) (fl_Kind f) (fl_Default f) (fl_Required f) (fl_Repeated f) (fl_Validate f).
Definition WithDefault (f : Flag) (value : bytes) : Flag :=          (* of the formatted value *)
  mkFlag (fl_Name f) (fl_Short f) (fl_Help f) (fl_Kind f) value (fl_Required f) (fl_Repeated f) (fl_Validate f).
Definition RequiredValue (f : Flag) : Flag :=
  mkFlag (fl_Name f) (fl_Short f) (fl_Help f) (fl_Kind f) (fl_Default f) true (fl_Repeated f) (fl_Validate f).
Definition RepeatedValue (f : Flag) : Flag :=
  mkFlag (fl_Name f) (fl_Short f) (fl_Help f) (fl_Kind f) (fl_Default f) (fl_Required f) true (fl_Validate f).
Definition WithValidator (f : Flag) (v : bytes -> option GoErr) : Flag :=
  mkFlag (fl_Name f) (fl_Short f) (fl_Help f) (fl_Kind f) (fl_Default f) (fl_Required f) (fl_Repeated f) (Some v).

Record Argument := mkArgument { a_Name : bytes; a_Help : bytes; a_Kind : Z }.

(** ** Values and the invocation context *)

Inductive value :=
| VString (s : bytes) | VBool (b : bool) | VInt (n : Z) | VDuration (d : Z) | VStrings (l : list bytes).

Record Context := mkContext {
  c_Stdin : boundedReader bytes; c_values : gmap bytes value; c_args : gmap bytes value;
  c_jsonMode : bool; c_path : bytes }.

Definition context_value (c : Context) (name : bytes) : GoErr + value :=
  match c_values c !! name with
  | Some v => inr v
  | None => inl (wrap ErrMissing (str "flag " ++ name))
  end.
Definition context_argument (c : Context) (name : bytes) : GoErr + value :=
  match c_args c !! name with
  | Some v => inr v
  | None => inl (wrap ErrMissing (str "argument " ++ name))
  end.

Definition bind {A B} (x : GoErr + A) (k : A -> GoErr + B) : GoErr + B :=
  match x with inl e => inl e | inr a => k a end.

Definition Context_String c name := bind (context_value c name) (fun v =>
  match v with VString s => inr s | _ => inl (wrap ErrInvalid (name ++ str " is not a string")) end).
Definition Context_Bool c name := bind (context_value c name) (fun v =>
  match v with VBool b => inr b | _ => inl (wrap ErrInvalid (name ++ str " is not a bool")) end).
Definition Context_Int c name := bind (context_value c name) (fun v =>
  match v with VInt n => inr n | _ => inl (wrap ErrInvalid (name ++ str " is not an int")) end).
Definition Context_Duration c name := bind (context_value c name) (fun v =>
  match v with VDuration d => inr d | _ => inl (wrap ErrInvalid (name ++ str " is not a duration")) end).
Definition Context_Strings c name := bind (context_value c name) (fun v =>
  match v with VStrings l => inr l | _ => inl (wrap ErrInvalid (name ++ str " is not repeated strings")) end).

Definition not_argument (name : bytes) : GoErr := wrap ErrInvalid (str "argument " ++ name).
Definition ArgString c name := bind (context_argument c name) (fun v =>
  match v with VString s => inr s | _ => inl (not_argument name) end).
Definition ArgBool c name := bind (context_argument c name) (fun v =>
  match v with VBool b => inr b | _ => inl (not_argument name) end).
Definition ArgInt c name := bind (context_argument c name) (fun v =>
  match v with VInt n => inr n | _ => inl (not_argument name) end).
Definition ArgDuration c name := bind (context_argument c name) (fun v =>
  match v with VDuration d => inr d | _ => inl (not_argument name) end).
Definition ArgStrings c name := bind (context_argument c name) (fun v =>
  match v with VStrings l => inr l | _ => inl (not_argument name) end).

(** ** Commands *)

Section Cli.
(** The values handlers present. *)
Context {V : Type}.

(** What a renderer does: writes, and possibly a panic after them. *)
Record Rendering := mkRendering { rn_writes : list bytes; rn_panic : bool }.

Record Output := mkOutput { o_value : option V; o_render : option (option V -> Rendering); o_empty : bool }.
Definition Present (v : V) (render : option (option V -> Rendering)) : Output := mkOutput (Some v) render false.
Definition Value (v : option V) : Output := mkOutput v None false.
Definition Empty : Output := mkOutput None None true.

Inductive Returned := HPanic | HReturn (o : Output) (e : option GoErr).
(** What a handler writes to stderr, and how it ends. *)
Record Handled := mkHandled { h_stderr : list bytes; h_ret : Returned }.
Definition Handler := Context -> list bytes -> Handled.

Inductive Command := mkCommand {
  Name : bytes; Summary : bytes; Args : ArgsRule; Arguments : list Argument; Flags : list Flag;
  Subcommands : list Command; Handle : option Handler }.

Definition Root (summary : bytes) (children : list Command) : Command :=
  mkCommand [] summary NoArgs [] [] children None.
Definition New (name summary : bytes) : Command := mkCommand name summary NoArgs [] [] [] None.
Definition WithArgs (c : Command) (rule : ArgsRule) : Command :=
  mkCommand (Name c) (Summary c) rule (Arguments c) (Flags c) (Subcommands c) (Handle c).
Definition WithArgument (c : Command) (a : Argument) : Command :=
  mkCommand (Name c) (Summary c) (Args c) (Arguments c ++ [a]) (Flags c) (Subcommands c) (Handle c).
Definition WithFlag (c : Command) (f : Flag) : Command :=
  mkCommand (Name c) (Summary c) (Args c) (Arguments c) (Flags c ++ [f]) (Subcommands c) (Handle c).
Definition WithCommand (c child : Command) : Command :=
  mkCommand (Name c) (Summary c) (Args c) (Arguments c) (Flags c) (Subcommands c ++ [child]) (Handle c).
Definition WithHandler (c : Command) (h : Handler) : Command :=
  mkCommand (Name c) (Summary c) (Args c) (Arguments c) (Flags c) (Subcommands c) (Some h).

Context (quote : bytes -> bytes) (ParseDuration : bytes -> bytes + Z).

(** ** Validate *)

Definition lower (c : Z) : bool := within_b 97 122 c.
(** [^[a-z][a-z0-9_-]{0,31}$] *)
Definition matches_name (s : bytes) : bool :=
  match s with
  | c :: s' => lower c && forallb (fun c => lower c || within_b 48 57 c || (c =? 95) || (c =? 45)) s' && (len s' <=? 31)
  | [] => false
  end.

Definition has_control (s : bytes) : bool := existsb (fun r => (r <? 0x20) || (r =? 0x7f)) (runes s).

(** The loop over the flags of a command. *)
Fixpoint validate_flags (flags : list Flag) (seenFlags : gset bytes) (seenShort : gset Z) : option GoErr :=
  match flags with
  | [] => None
  | f :: flags' =>
    if negb (matches_name (fl_Name f)) || bool_decide (fl_Name f ∈ seenFlags)
    then Some (wrap ErrUsage (str "duplicate or reserved flag " ++ quote (fl_Name f)))
    else if StringsValue <? fl_Kind f
    then Some (wrap ErrUsage (str "invalid value kind for flag " ++ quote (fl_Name f)))
    else if (MaxDescription <? len (fl_Help f)) || has_control (fl_Help f)
    then Some (wrap ErrUsage (str "invalid help for flag " ++ quote (fl_Name f)))
    else if negb (fl_Short f =? 0) &&
            ((fl_Short f =? 45) || (fl_Short f =? 104) || (fl_Short f =? 106) || negb (valid_rune (fl_Short f))
             || bool_decide (fl_Short f ∈ seenShort))
    then Some (wrap ErrUsage (str "invalid short flag for " ++ quote (fl_Name f)))
    else validate_flags flags' ({[fl_Name f]} ∪ seenFlags)
           (if fl_Short f =? 0 then seenShort else {[fl_Short f]} ∪ seenShort)
  end.

Fixpoint validate_arguments (arguments : list Argument) (seen : gset bytes) : option GoErr :=
  match arguments with
  | [] => None
  | a :: arguments' =>
    if negb (matches_name (a_Name a)) || bool_decide (a_Name a ∈ seen)
    then Some (wrap ErrUsage (str "duplicate argument " ++ quote (a_Name a)))
    else if StringsValue <? a_Kind a
    then Some (wrap ErrUsage (str "invalid value kind for argument " ++ quote (a_Name a)))
    else validate_arguments arguments' ({[a_Name a]} ∪ seen)
  end.

(** The checks of one command before its subcommands. *)
Definition validate_head (c : Command) (depth count : Z) : option GoErr :=
  if MaxDepth <? depth then Some (wrap ErrLimit (str "command tree exceeds depth " ++ itoa MaxDepth))
  else if MaxCommands <? count
  then Some (wrap ErrLimit (str "command tree exceeds " ++ itoa MaxCommands ++ str " commands"))
  else if negb (bool_decide (Name c = [])) && (negb (matches_name (Name c)) || (MaxCommandName <? len (Name c)))
  then Some (wrap ErrUsage (str "invalid command name " ++ quote (Name c)))
  else if has_control (Summary c) || (MaxSummary <? len (Summary c))
  then Some (wrap ErrUsage (str "invalid summary for " ++ quote (Name c)))
  else if (r_Min (Args c) <? 0) || (r_Max (Args c) <? 0) || (r_Max (Args c) <? r_Min (Args c)) || (MaxArgs <? r_Max (Args c))
  then Some (wrap ErrUsage (str "invalid argument rule for " ++ quote (Name c)))
  else if (MaxFlags <? len (Flags c)) || (MaxArgs <? len (Arguments c))
  then Some (wrap ErrLimit (str "command " ++ quote (Name c) ++ str " has too many descriptors"))
  else match validate_flags (Flags c) {[str "help"; str "json"]} ∅ with
  | Some e => Some e
  | None =>
    if r_Max (Args c) <? len (Arguments c)
    then Some (wrap ErrUsage (str "command " ++ quote (Name c) ++ str " declares " ++ itoa (len (Arguments c))
                              ++ str " arguments but accepts at most " ++ itoa (r_Max (Args c))))
    else validate_arguments (Arguments c) ∅
  end.

(** [validateCommand]; the count so far is threaded through the tree. *)
Fixpoint validateCommand (c : Command) (depth count : Z) {struct c} : GoErr + Z :=
  let count := count + 1 in
  match validate_head c depth count with
  | Some e => inl e
  | None =>
    match
      (fix children (l : list Command) (seen : gset bytes) (count : Z) {struct l} : GoErr + Z :=
         match l with
         | [] => inr count
         | child :: l' =>
           if bool_decide (Name child = []) || bool_decide (Name child ∈ seen)
           then inl (wrap ErrUsage (str "duplicate or empty subcommand"))
           else match validateCommand child (depth + 1) count with
                | inl e => inl e
                | inr count => children l' ({[Name child]} ∪ seen) count
                end
         end) (Subcommands c) ∅ count
    with
    | inl e => inl e
    | inr count =>
      if negb (bool_decide (Name c = [])) && bool_decide (length (Subcommands c) = 0%nat) &&
         match Handle c with None => true | Some _ => false end
      then inl (wrap ErrUsage (str "command " ++ quote (Name c) ++ str " has no handler"))
      else inr count
    end
  end.

Definition Validate (c : Command) : option GoErr :=
  match validateCommand c 0 0 with inl e => Some e | inr _ => None end.

(** ** parseValue *)

(** The error of [strconv]: [strconv.Fn: parsing "raw": invalid syntax]. *)
Definition num_error (fn raw msg : bytes) : GoErr :=
  mkErr (str "strconv." ++ fn ++ str ": parsing " ++ quote raw ++ str ": " ++ msg) [] None.

Definition is_true (s : bytes) : bool :=
  existsb (fun t => bool_decide (s = t)) [str "1"; str "t"; str "T"; str "true"; str "TRUE"; str "True"].
Definition is_false (s : bytes) : bool :=
  existsb (fun t => bool_decide (s = t)) [str "0"; str "f"; str "F"; str "false"; str "FALSE"; str "False"].

Definition ParseBool (s : bytes) : GoErr + bool :=
  if is_true s then inr true else if is_false s then inr false
  else inl (num_error (str "ParseBool") s (str "invalid syntax")).

Definition digits_value (s : bytes) : Z := fold_left (fun v b => v * 10 + (b - 48)) s 0.

Definition Atoi (s : bytes) : GoErr + Z :=
  let '(negative, ds) := match s with
                         | 45 :: ds => (true, ds)
                         | 43 :: ds => (false, ds)
                         | _ => (false, s)
                         end in
  if bool_decide (ds = []) || negb (forallb (within_b 48 57) ds)
  then inl (num_error (str "Atoi") s (str "invalid syntax"))
  else let v := if negative then - digits_value ds else digits_value ds in
       if (v <? - 2 ^ 63) || (2 ^ 63 <=? v) then inl (num_error (str "Atoi") s (str "value out of range"))
       else inr v.

Definition parseValue (kind : Z) (raw : bytes) (emptyBool : bool) : GoErr + value :=
  if kind =? StringValue then
    if MaxArgument <? len raw then inl (err ErrLimit) else inr (VString raw)
  else if kind =? BoolValue then
    if emptyBool then inr (VBool false) else bind (ParseBool raw) (fun b => inr (VBool b))
  else if kind =? IntValue then bind (Atoi raw) (fun n => inr (VInt n))
  else if kind =? DurationValue then
    match ParseDuration raw with inl text => inl (mkErr text [] None) | inr d => inr (VDuration d) end
  else inl (err ErrInvalid).

(** ** Failures of parsing *)

Definition usage_failure (code message : bytes) : Failure := mkFailure code message 2 true.

Definition flagFailure (f : Flag) (e : GoErr) : Failure :=
  usage_failure (if errors_Is e ErrMissing then str "missing_value" else str "invalid_value")
    (str "--" ++ fl_Name f ++ str ": " ++ e_text e).

Definition unknownFailure (kind name : bytes) (candidates : list bytes) (usage : bool) : Failure :=
  let message := str "unknown " ++ kind ++ str ": " ++ name in
  let message := match suggestion name candidates with
                 | Some s => message ++ str "; did you mean " ++ s ++ str "?"
                 | None => message
                 end in
  mkFailure (str "unknown_" ++ kind) message 2 usage.

Definition ruleText (rule : ArgsRule) : bytes :=
  if r_Min rule =? r_Max rule then itoa (r_Min rule)
  else if r_Max rule =? MaxArgs then str "at least " ++ itoa (r_Min rule)
  else itoa (r_Min rule) ++ str ".." ++ itoa (r_Max rule).

Definition validateArgs (c : Command) (args : list bytes) : option Failure :=
  let rule := Args c in
  if (r_Max rule =? 0) && (r_Min rule =? 0) && (len args =? 0) then None
  else if (len args <? r_Min rule) || ((0 <=? r_Max rule) && (r_Max rule <? len args))
  then Some (usage_failure (str "invalid_arguments")
               (str "want " ++ ruleText rule ++ str " arguments, got " ++ itoa (len args)))
  else None.

Definition findFlag (flags : list Flag) (name : bytes) : option Flag :=
  snd <$> list_find (fun f => fl_Name f = name) flags.
Definition findShortFlag (flags : list Flag) (short : Z) : option Flag :=
  snd <$> list_find (fun f => fl_Short f = short) flags.
Definition findCommand (commands : list Command) (name : bytes) : option Command :=
  snd <$> list_find (fun c => Name c = name) commands.
Definition flagNames (flags : list Flag) : list bytes := map (fun f => str "--" ++ fl_Name f) flags.
Definition shortNames (flags : list Flag) : list bytes :=
  omap (fun f => if fl_Short f =? 0 then None else Some (45 :: encode_rune (fl_Short f))) flags.
Definition commandNames (commands : list Command) : list bytes := map Name commands.

(** ** parse *)

(** [raw[:i]], [raw[i+1:]] at the first '='. *)
Fixpoint splitLongFlag (raw : bytes) : bytes * option bytes :=
  match raw with
  | [] => ([], None)
  | c :: raw' =>
    if c =? 61 then ([], Some raw')
    else let '(name, v) := splitLongFlag raw' in (c :: name, v)
  end.

(** The number of following arguments taken as the value. *)
Definition consumeFlag (f : Flag) (v : option bytes) (rest : list bytes) : GoErr + Z :=
  if fl_Kind f =? BoolValue then
    match v with
    | Some v => bind (parseValue (fl_Kind f) v false) (fun _ => inr 0)
    | None => inr 0
    end
  else match v with
  | None => match rest with [] => inl (err ErrMissing) | _ => inr 1 end
  | Some _ => inr 0
  end.

Definition setFlag (values : gmap bytes value) (f : Flag) (v : option bytes) : GoErr + gmap bytes value :=
  match (match v with
         | Some v => Some v
         | None => if fl_Kind f =? BoolValue then Some (str "true") else None
         end) with
  | None => inl (err ErrMissing)
  | Some v =>
    match match fl_Validate f with None => None | Some check => check v end with
    | Some e => inl e
    | None =>
      if fl_Repeated f then
        bind (parseValue StringValue v false) (fun _ =>
          let current := match values !! fl_Name f with Some (VStrings l) => l | _ => [] end in
          inr (<[fl_Name f := VStrings (current ++ [v])]> values))
      else bind (parseValue (fl_Kind f) v false) (fun p => inr (<[fl_Name f := p]> values))
    end
  end.

(** The values, the arguments consumed and the failure. *)
Fixpoint parseShortFlags (flags : list Flag) (raw : bytes) (rest : list bytes) (values : gmap bytes value) :
    gmap bytes value * Z * option Failure :=
  match raw with
  | [] => (values, 0, None)
  | c :: raw' =>
    match findShortFlag flags c with
    | None => (values, 0, Some (unknownFailure (str "flag") (45 :: encode_rune c) (shortNames flags) true))
    | Some f =>
      if fl_Kind f =? BoolValue then parseShortFlags flags raw' rest (<[fl_Name f := VBool true]> values)
      else
        match (match raw' with
               | [] => match rest with [] => None | v :: _ => Some (v, 1) end
               | _ => Some (raw', 0)
               end) with
        | None => (values, 0, Some (usage_failure (str "missing_value")
                                      (str "flag -" ++ encode_rune (fl_Short f) ++ str " requires a value")))
        | Some (v, consumed) =>
          match setFlag values f (Some v) with
          | inl e => (values, consumed, Some (flagFailure f e))
          | inr values => (values, consumed, None)
          end
        end
    end
  end.

(** The state of the loop in [parse]. *)
Record pstate := mkPS {
  ps_command : Command; ps_path : list bytes; ps_values : gmap bytes value; ps_positionals : list bytes;
  ps_stopFlags : bool; ps_json : bool; ps_help : bool }.

Definition with_values (s : pstate) (values : gmap bytes value) : pstate :=
  mkPS (ps_command s) (ps_path s) values (ps_positionals s) (ps_stopFlags s) (ps_json s) (ps_help s).

(** A token that is no flag and names no subcommand to enter. *)
Definition parse_positional (s : pstate) (token : bytes) : pstate * bool * option Failure :=
  let c := ps_command s in
  if negb (ps_stopFlags s) && (0 <? len (Subcommands c)) && (r_Max (Args c) =? 0)
  then (s, false, Some (unknownFailure (str "command") token (commandNames (Subcommands c)) true))
  else
    let positionals := ps_positionals s ++ [token] in
    let s' := mkPS c (ps_path s) (ps_values s) positionals (ps_stopFlags s) (ps_json s) (ps_help s) in
    if MaxArgs <? len positionals
    then (s', false, Some (usage_failure (str "argument_limit") (str "too many arguments")))
    else (s', false, None).

(** One token: the state, whether the next token was consumed too, the failure. *)
Definition parse_token (s : pstate) (token : bytes) (rest : list bytes) : pstate * bool * option Failure :=
  let flags := Flags (ps_command s) in
  let live := negb (ps_stopFlags s) in
  if MaxArgument <? len token
  then (s, false, Some (usage_failure (str "argument_limit") (str "argument exceeds the maximum length")))
  else if live && bool_decide (token = str "--")
  then (mkPS (ps_command s) (ps_path s) (ps_values s) (ps_positionals s) true (ps_json s) (ps_help s), false, None)
  else if live && bool_decide (token = str "--help")
  then (mkPS (ps_command s) (ps_path s) (ps_values s) (ps_positionals s) (ps_stopFlags s) (ps_json s) true, false, None)
  else if live && bool_decide (token = str "--json")
  then (mkPS (ps_command s) (ps_path s) (ps_values s) (ps_positionals s) (ps_stopFlags s) true (ps_help s), false, None)
  else if live && HasPrefix token (str "--") then
    let '(name, v) := splitLongFlag (drop 2 token) in
    match findFlag flags name with
    | None => (s, false, Some (unknownFailure (str "flag") name (flagNames flags) true))
    | Some f =>
      match consumeFlag f v rest with
      | inl e => (s, false, Some (flagFailure f e))
      | inr consumed =>
        let v := match v with
                 | None => if fl_Kind f =? BoolValue then None else head rest
                 | Some v => Some v
                 end in
        match setFlag (ps_values s) f v with
        | inl e => (s, false, Some (flagFailure f e))
        | inr values => (with_values s values, 0 <? consumed, None)
        end
      end
    end
  else if live && HasPrefix token (str "-") && negb (bool_decide (token = str "-")) then
    let '(values, consumed, failure) := parseShortFlags flags (drop 1 token) rest (ps_values s) in
    (with_values s values, 0 <? consumed, failure)
  else
    match (if live then findCommand (Subcommands (ps_command s)) token else None) with
    | Some child =>
      if len (ps_positionals s) =? 0
      then (mkPS child (ps_path s ++ [Name child]) (ps_values s) [] false (ps_json s) (ps_help s), false, None)
      else parse_positional s token
    | None => parse_positional s token
    end.

(** The loop over the arguments; [cancelled i]: [ctx.Err] is set when argument [i] is
    looked at. *)
Fixpoint parse_loop (cancelled : Z -> bool) (index : Z) (s : pstate) (raw : list bytes) : pstate * option Failure :=
  match raw with
  | [] => (s, None)
  | token :: rest =>
    if cancelled index then (s, Some (mkFailure (str "canceled") (sentinel_text ErrCanceled) 1 false)) else
    match parse_token s token rest with
    | (s, _, Some failure) => (s, Some failure)
    | (s, true, None) =>
      match rest with
      | [] => (s, None)
      | _ :: rest' => parse_loop cancelled (index + 2) s rest'
      end
    | (s, false, None) => parse_loop cancelled (index + 1) s rest
    end
  end.

(** The typed positional arguments; [drop]: the positionals from this one on. *)
Fixpoint parse_arguments (arguments : list Argument) (positionals : list bytes) (args : gmap bytes value) :
    gmap bytes value * option Failure :=
  match arguments, positionals with
  | a :: arguments', p :: positionals' =>
    if a_Kind a =? StringsValue then (<[a_Name a := VStrings positionals]> args, None)
    else match parseValue (a_Kind a) p false with
         | inl e => (args, Some (usage_failure (str "invalid_argument") (a_Name a ++ str ": " ++ e_text e)))
         | inr v => parse_arguments arguments' positionals' (<[a_Name a := v]> args)
         end
  | _, _ => (args, None)
  end.

(** Defaults for the flags that were not given. *)
Fixpoint parse_defaults (flags : list Flag) (values : gmap bytes value) : gmap bytes value * option Failure :=
  match flags with
  | [] => (values, None)
  | f :: flags' =>
    if bool_decide (is_Some (values !! fl_Name f)) then parse_defaults flags' values
    else if fl_Required f && bool_decide (fl_Default f = [])
    then (values, Some (usage_failure (str "missing_flag") (str "required flag --" ++ fl_Name f ++ str " is missing")))
    else if negb (bool_decide (fl_Default f = [])) || (fl_Kind f =? BoolValue) then
      if fl_Repeated f
      then parse_defaults flags'
             (<[fl_Name f := VStrings (if bool_decide (fl_Default f = []) then [] else Split 44 (fl_Default f))]> values)
      else match parseValue (fl_Kind f) (fl_Default f)
                   ((fl_Kind f =? BoolValue) && bool_decide (fl_Default f = [])) with
           | inl e => (values, Some (flagFailure f e))
           | inr v => parse_defaults flags' (<[fl_Name f := v]> values)
           end
    else parse_defaults flags' values
  end.

Record invocation := mkInvocation {
  i_command : Command; i_values : gmap bytes value; i_args : gmap bytes value; i_positionals : list bytes;
  i_path : bytes; i_json : bool; i_help : bool }.

Definition invocation_of (s : pstate) (args : gmap bytes value) (positionals : list bytes) : invocation :=
  mkInvocation (ps_command s) (ps_values s) args positionals (Join 32 (ps_path s)) (ps_json s) (ps_help s).

Definition parse (cancelled : Z -> bool) (root : Command) (raw : list bytes) : invocation * option Failure :=
  let s := mkPS root (if bool_decide (Name root = []) then [] else [Name root]) ∅ [] false false false in
  let '(s, failure) := parse_loop cancelled 0 s raw in
  match failure with
  | Some f => (invocation_of s ∅ [], Some f)
  | None =>
    match validateArgs (ps_command s) (ps_positionals s) with
    | Some f => (invocation_of s ∅ [], Some f)
    | None =>
      let '(args, failure) := parse_arguments (Arguments (ps_command s)) (ps_positionals s) ∅ in
      match failure with
      | Some f => (invocation_of s args [], Some f)
      | None =>
        let '(values, failure) := parse_defaults (Flags (ps_command s)) (ps_values s) in
        (invocation_of (with_values s values) args (ps_positionals s), failure)
      end
    end
  end.

(** ** Schema and help *)

Record FlagSchema := mkFlagSchema {
  fs_Name : bytes; fs_Short : bytes; fs_Help : bytes; fs_Kind : Z; fs_Default : bytes; fs_Required : bool; fs_Repeated : bool }.

Inductive Schema := mkSchema {
  s_Name : bytes; s_Summary : bytes; s_Args : ArgsRule; s_Arguments : list Argument;
  s_Flags : list FlagSchema; s_Subcommands : list Schema }.

Definition flag_schema (f : Flag) : FlagSchema :=
  mkFlagSchema (fl_Name f) (if fl_Short f =? 0 then [] else encode_rune (fl_Short f)) (fl_Help f) (fl_Kind f)
    (fl_Default f) (fl_Required f) (fl_Repeated f).

Fixpoint schemaValue (c : Command) : Schema :=
  mkSchema (Name c) (Summary c) (Args c) (Arguments c) (map flag_schema (Flags c)) (map schemaValue (Subcommands c)).

Definition Command_Schema (c : Command) : GoErr + Schema :=
  match Validate c with Some e => inl e | None => inr (schemaValue c) end.

Definition nl : bytes := [10].
Definition tab : bytes := [9].

Definition helpText (c : Command) (path : bytes) : bytes :=
  let usage := TrimSpace path in
  let usage := if bool_decide (usage = []) then str "<command>" else usage in
  str "Usage: " ++ usage
  ++ (if 0 <? len (Subcommands c) then str " <command>" else [])
  ++ (if 0 <? len (Flags c) then str " [flags]" else [])
  ++ (if 0 <? r_Max (Args c) then str " [args]" else []) ++ nl
  ++ (if bool_decide (Summary c = []) then [] else nl ++ Summary c ++ nl)
  ++ (if 0 <? len (Subcommands c)
      then nl ++ str "Commands:" ++ nl
           ++ concat (map (fun d => str "  " ++ Name d ++ tab ++ Summary d ++ nl) (Subcommands c))
      else [])
  ++ (if 0 <? len (Flags c)
      then nl ++ str "Flags:" ++ nl ++ str "  --help" ++ tab ++ str "show help" ++ nl
           ++ str "  --json" ++ tab ++ str "write one JSON result" ++ nl
           ++ concat (map (fun f => str "  --" ++ fl_Name f
                                    ++ (if fl_Short f =? 0 then [] else str ", -" ++ encode_rune (fl_Short f))
                                    ++ tab ++ fl_Help f ++ nl) (Flags c))
      else []).

Definition Help (c : Command) : GoErr + bytes :=
  match Validate c with Some e => inl e | None => inr (helpText c (Name c)) end.

(** ** Execute *)

Definition sanitizeFailure (f : Failure) : Failure :=
  let f := if matches_name (f_Code f) then f
           else mkFailure (str "internal") (str "internal error") 1 (f_ShowUsage f) in
  let m := safeText (f_Message f) in
  mkFailure (f_Code f) (if MaxDescription <? len m then take (Z.to_nat MaxDescription) m else m) (f_ExitCode f) (f_ShowUsage f).

Definition normalizeFailure (e : GoErr) (usage : bool) : Failure :=
  match e_as e with
  | Some (false, f) =>
    sanitizeFailure (mkFailure (if bool_decide (f_Code f = []) then str "internal" else f_Code f)
      (if bool_decide (f_Message f = []) then str "command failed" else f_Message f)
      (if f_ExitCode f =? 0 then 1 else f_ExitCode f) (f_ShowUsage f))
  | Some (true, f) => sanitizeFailure f
  | None =>
    let f := (str "internal", str "internal error", 1) in
    let f := if existsb (errors_Is e) [ErrUsage; ErrUnknown; ErrMissing; ErrInvalid; ErrLexer]
             then (str "usage", e_text e, 2) else f in
    let f := if existsb (errors_Is e) [ctxCanceled; ctxDeadlineExceeded; ErrCanceled]
             then (str "canceled", str "invocation canceled", 1) else f in
    let f := if errors_Is e ErrLimit then (str "limit", str "invocation limit exceeded", 1) else f in
    let f := if usage then (str "invalid_definition", e_text e, 2) else f in
    let '(code, message, exit) := f in
    sanitizeFailure (mkFailure code message exit usage)
  end.

(** What is given to encoding/json. *)
Inductive jsonValue :=
| JSchema (s : Schema)
| JError (f : Failure)                       (* errorBody, OK false *)
| JResult (v : option V).                    (* resultBody, OK true *)

Context (marshal : jsonValue -> GoErr + bytes) (Fprintln : V -> bytes).

(** Where the bytes go; a nil writer discards. *)
Inductive stream := Stdout | Stderr.
Definition writes := list (stream * bytes).
Definition writeBytes (s : stream) (b : bytes) : writes := if bool_decide (b = []) then [] else [(s, b)].

Definition writeJSON (v : jsonValue) : writes :=
  match marshal v with
  | inr encoded => if len encoded + 1 <=? MaxOutput then writeBytes Stdout (encoded ++ nl) else []
  | inl _ => []
  end.

Definition writeFailure (c : Command) (f : Failure) (jsonMode : bool) (path : bytes) : writes :=
  if jsonMode then writeJSON (JError f)
  else
    let message := if bool_decide (path = []) then f_Message f else path ++ str ": " ++ f_Message f in
    let message := if f_ShowUsage f then message ++ nl ++ helpText c path else message in
    writeBytes Stderr (message ++ nl).

Record Execution := mkExecution { x_ExitCode : Z; x_Err : option GoErr; x_Path : bytes }.

(** A failure as the error value [Execute] returns. *)
Definition failure_error (f : Failure) : GoErr := mkErr (f_Message f) [] (Some (true, f)).

Definition fail_with (i : invocation) (e : option GoErr) (reason : GoErr) (jsonMode : bool) (before : bytes) : Execution * writes :=
  let f := normalizeFailure reason false in
  (mkExecution (f_ExitCode f) e (i_path i), writeBytes Stderr before ++ writeFailure (i_command i) f jsonMode (i_path i)).

(** Presenting what the handler returned. *)
Definition finish (i : invocation) (stderr : boundedWriter) (o : Output) : Execution * writes :=
  let success (w : writes) := (mkExecution 0 None (i_path i), w ++ writeBytes Stderr (bw_data stderr)) in
  if i_json i then
    match marshal (JResult (if o_empty o then None else o_value o)) with
    | inl e => fail_with i (Some e) (err ErrInternal) true (bw_data stderr)
    | inr encoded =>
      if MaxOutput <? len encoded + 1 then fail_with i None (err ErrInternal) true (bw_data stderr)
      else success (writeBytes Stdout (encoded ++ nl))
    end
  else if o_empty o then success []
  else
    let stdout := mkBW [] MaxOutput false in
    let '(stdout, panicked) :=
      match o_render o with
      | Some render => let r := render (o_value o) in (bw_writes stdout (rn_writes r), rn_panic r)
      | None => match o_value o with
                | Some v => (bw_writes stdout [Fprintln v], false)
                | None => (stdout, false)
                end
      end in
    if panicked then fail_with i (Some (err ErrInternal)) (err ErrInternal) false (bw_data stderr)
    else if bw_err stdout then fail_with i (Some (err ErrLimit)) (err ErrLimit) false (bw_data stderr)
    else success (writeBytes Stdout (bw_data stdout)).

(** [ctx]: when it is done ([cancelled]), with which error ([Some] if it is done when
    the handler is about to be called). *)
Record Ctx := mkCtx { cancelled : Z -> bool; ctx_Err : option sentinel }.

(** The invocation that reaches its handler, or what is done without it. *)
Definition prepare (ctx : Ctx) (root : Command) (args : list bytes) : Execution * writes + invocation * Handler :=
  match Validate root with
  | Some e =>
    let f := normalizeFailure e true in
    inl (mkExecution (f_ExitCode f) (Some e) [], writeFailure root f false [])
  | None =>
    match parse (cancelled ctx) root args with
    | (i, Some f) =>
      inl (mkExecution (f_ExitCode f) (Some (failure_error f)) (i_path i), writeFailure (i_command i) f (i_json i) (i_path i))
    | (i, None) =>
      let help := (mkExecution 0 None (i_path i),
                   if i_json i then writeJSON (JSchema (schemaValue (i_command i)))
                   else writeBytes Stdout (helpText (i_command i) (i_path i))) in
      if i_help i then inl help else
      match Handle (i_command i) with
      | None => inl help
      | Some h =>
        match ctx_Err ctx with
        | Some e => inl (fail_with i (Some (err e)) (err e) (i_json i) [])
        | None => inr (i, h)
        end
      end
    end
  end.

Definition Execute (ctx : Ctx) (root : Command) (args : list bytes) (stdin : bytes) : Execution * writes :=
  match prepare ctx root args with
  | inl r => r
  | inr (i, h) =>
    let call := mkContext (mkBR stdin MaxInput 0) (i_values i) (i_args i) (i_json i) (i_path i) in
    let r := h call (i_positionals i) in
    let stderr := bw_writes (mkBW [] MaxOutput false) (h_stderr r) in
    let '(o, handlerErr) := match h_ret r with
                            | HPanic => (mkOutput None None false, Some (err ErrInternal))
                            | HReturn o e => (o, e)
                            end in
    let handlerErr := if bw_err stderr then Some (err ErrLimit) else handlerErr in
    match handlerErr with
    | Some e => fail_with i (Some e) e (i_json i) (bw_data stderr)
    | None => finish i stderr o
    end
  end.

End Cli.
