(* ===== verification/CliLaws.v ===== *)
(** * Finite commands: the theorems

    What [Validate] accepts, the types of what [parse] binds, and the outcome of
    [Execute] (Cli.v). *)

From S2P Require Import Prelude Utf8 GoStrings Streams CliText Cli.

Section Laws.
Context {V : Type} (quote : bytes -> bytes) (ParseDuration : bytes -> bytes + Z).
Abbreviation Command := (@Command V).

(** ** Induction on command trees *)

Lemma Command_ind' (P : Command -> Prop) :
  (forall c, Forall P (Subcommands c) -> P c) -> forall c, P c.
Proof.
  intros H. fix IH 1. intros [n s a args flags subs h]. apply H. cbn [Subcommands].
  induction subs as [|c subs IHs]; constructor; [apply IH|exact IHs].
Qed.

Fixpoint size (c : Command) : Z := 1 + fold_right Z.add 0 (map size (Subcommands c)).

Lemma size_pos c : 1 <= size c.
Proof.
  induction c as [c IH] using Command_ind'. destruct c as [n s a args flags subs h]. cbn [size Subcommands] in *.
  enough (0 <= fold_right Z.add 0 (map size subs)) by lia.
  induction IH as [|c subs Hc _ IHs]; cbn; [done|lia].
Qed.

(** ** What a valid command is *)

Definition flag_ok (f : Flag) : Prop :=
  matches_name (fl_Name f) = true /\ fl_Kind f <= StringsValue /\
  len (fl_Help f) <= MaxDescription /\ has_control (fl_Help f) = false /\
  (fl_Short f = 0 \/ (fl_Short f <> 45 /\ fl_Short f <> 104 /\ fl_Short f <> 106 /\ valid_rune (fl_Short f) = true)).

Definition shorts (flags : list Flag) : list Z := filter (fun s => s <> 0) (map fl_Short flags).

Definition argument_ok (a : Argument) : Prop := matches_name (a_Name a) = true /\ a_Kind a <= StringsValue.

Definition head_ok (c : Command) : Prop :=
  (Name c = [] \/ (matches_name (Name c) = true /\ len (Name c) <= MaxCommandName)) /\
  has_control (Summary c) = false /\ len (Summary c) <= MaxSummary /\
  (0 <= r_Min (Args c) <= r_Max (Args c) /\ r_Max (Args c) <= MaxArgs) /\
  len (Flags c) <= MaxFlags /\ len (Arguments c) <= r_Max (Args c) /\
  Forall flag_ok (Flags c) /\ NoDup (str "help" :: str "json" :: map fl_Name (Flags c)) /\ NoDup (shorts (Flags c)) /\
  Forall argument_ok (Arguments c) /\ NoDup (map a_Name (Arguments c)).

(** A tree no deeper than [MaxDepth] below [depth], every command of it
    well-formed, with distinct non-empty names among siblings and a handler at every
    named leaf. *)
Inductive tree_ok : Z -> Command -> Prop :=
| tree_ok_intro depth c :
    depth <= MaxDepth -> head_ok c -> NoDup ([] :: map Name (Subcommands c)) ->
    Forall (tree_ok (depth + 1)) (Subcommands c) ->
    (Name c = [] \/ Subcommands c <> [] \/ Handle c <> None) -> tree_ok depth c.

(** ** Validate *)

(** A set of names seen so far, and one more. *)
Lemma not_seen_cons {A} `{Countable A} (x : A) l (seen : gset A) :
  Forall (fun n => n ∉ ({[x]} ∪ seen)) l <-> (x ∉ l) /\ Forall (fun n => n ∉ seen) l.
Proof.
  rewrite !Forall_forall. setoid_rewrite not_elem_of_union. setoid_rewrite not_elem_of_singleton.
  split; [intros Hs; split|intros [Hx Hs] y Hy; split].
  - intros Hx. by destruct (Hs x Hx).
  - intros y Hy. by apply Hs.
  - by intros ->.
  - by apply Hs.
Qed.

Lemma not_seen_none {A} `{Countable A} (l : list A) : Forall (fun n => n ∉ (∅ : gset A)) l.
Proof. apply Forall_forall. intros x _. apply not_elem_of_empty. Qed.

Lemma validate_flags_spec flags seenF seenS :
  validate_flags quote flags seenF seenS = None <->
    Forall flag_ok flags /\ (NoDup (map fl_Name flags) /\ Forall (fun n => n ∉ seenF) (map fl_Name flags)) /\
    (NoDup (shorts flags) /\ Forall (fun s => s ∉ seenS) (shorts flags)).
Proof.
  revert seenF seenS. induction flags as [|f flags IH]; intros seenF seenS.
  { cbn. split; [|done]. intros _. split_and!; try done; constructor. }
  cbn [validate_flags map]. unfold shorts in *. cbn [map]. rewrite filter_cons, Forall_cons, NoDup_cons, Forall_cons.
  destruct (matches_name (fl_Name f)) eqn:Hm; cbn [negb orb];
    [|split; [done|intros ((? & _) & _); unfold flag_ok in *; destruct_and?; congruence]].
  case_bool_decide as Hseen; [split; [done|intros (_ & (_ & Hn & _) & _); done]|].
  destruct (StringsValue <? fl_Kind f) eqn:Hk; zbool;
    [split; [done|intros ((Hf & _) & _); unfold flag_ok in Hf; lia]|].
  destruct (MaxDescription <? len (fl_Help f)) eqn:Hd; zbool; cbn [orb];
    [split; [done|intros ((Hf & _) & _); unfold flag_ok in Hf; lia]|].
  destruct (has_control (fl_Help f)) eqn:Hc; [split; [done|intros ((Hf & _) & _); unfold flag_ok in Hf; destruct_and?; congruence]|].
  assert (Hfl : flag_ok f <-> (fl_Short f = 0 \/ (fl_Short f <> 45 /\ fl_Short f <> 104 /\ fl_Short f <> 106 /\ valid_rune (fl_Short f) = true)))
    by (unfold flag_ok; tauto).
  destruct (fl_Short f =? 0) eqn:Hs; zbool; cbn [negb andb].
  - rewrite decide_False by lia. rewrite IH, not_seen_cons, Hfl. tauto.
  - rewrite decide_True by done. rewrite NoDup_cons, Forall_cons, Hfl.
    destruct (fl_Short f =? 45) eqn:H1; zbool; [split; [done|intros (([?|(?&_)] & _) & _); done]|].
    destruct (fl_Short f =? 104) eqn:H2; zbool; [split; [done|intros (([?|(_&?&_)] & _) & _); done]|].
    destruct (fl_Short f =? 106) eqn:H3; zbool; [split; [done|intros (([?|(_&_&?&_)] & _) & _); done]|].
    cbn [orb]. destruct (valid_rune (fl_Short f)) eqn:H4; cbn [negb orb];
      [|split; [done|intros (([?|(_&_&_&?)] & _) & _); done]].
    case_bool_decide; [split; [done|intros (_ & _ & _ & ? & _); done]|].
    rewrite IH, !not_seen_cons. tauto.
Qed.

Lemma validate_arguments_spec arguments seen :
  validate_arguments quote arguments seen = None <->
    Forall argument_ok arguments /\ NoDup (map a_Name arguments) /\ Forall (fun n => n ∉ seen) (map a_Name arguments).
Proof.
  revert seen. induction arguments as [|a arguments IH]; intros seen.
  { cbn. split; [|done]. intros _. split_and!; constructor. }
  cbn [validate_arguments map]. rewrite Forall_cons, NoDup_cons, Forall_cons. unfold argument_ok at 1.
  destruct (matches_name (a_Name a)) eqn:Hm; cbn [negb orb]; [|split; [done|by intros (([? _] & _) & _)]].
  case_bool_decide; [split; [done|by intros (_ & _ & ? & _)]|].
  destruct (StringsValue <? a_Kind a) eqn:Hk; zbool; [split; [done|intros (([_ ?] & _) & _); lia]|].
  rewrite IH, not_seen_cons. tauto.
Qed.

Lemma validate_head_spec c depth count :
  validate_head quote c depth count = None <-> depth <= MaxDepth /\ count <= MaxCommands /\ head_ok c.
Proof.
  unfold validate_head, head_ok.
  destruct (MaxDepth <? depth) eqn:H1; zbool; [split; [done|lia]|].
  destruct (MaxCommands <? count) eqn:H2; zbool; [split; [done|lia]|].
  assert (Hname : (negb (bool_decide (Name c = [])) && (negb (matches_name (Name c)) || (MaxCommandName <? len (Name c)))) = false
    <-> (Name c = [] \/ (matches_name (Name c) = true /\ len (Name c) <= MaxCommandName))).
  { rewrite andb_false_iff, orb_false_iff, !negb_false_iff, bool_decide_eq_true, Z.ltb_ge. tauto. }
  destruct (negb _ && _) eqn:H3; [split; [done|intros (_ & _ & Hn & _); apply Hname in Hn; congruence]|].
  pose proof (proj1 Hname eq_refl) as Hcn. clear Hname H3.
  destruct (has_control (Summary c)) eqn:H4; cbn [orb]; [split; [done|intros (_ & _ & _ & ? & _); done]|].
  destruct (MaxSummary <? len (Summary c)) eqn:H5; zbool; [split; [done|intros; destruct_and?; lia]|].
  destruct (_ || _ || _ || _) eqn:H6; [split; [done|intros; destruct_and?; rewrite !orb_true_iff, !Z.ltb_lt in H6; lia]|].
  rewrite !orb_false_iff, !Z.ltb_ge in H6.
  destruct (MaxFlags <? len (Flags c)) eqn:H7; zbool; [split; [done|intros; destruct_and?; lia]|].
  destruct (MaxArgs <? len (Arguments c)) eqn:H8; zbool; cbn [orb]; [split; [done|intros; destruct_and?; lia]|].
  pose proof (validate_flags_spec (Flags c) {[str "help"; str "json"]} ∅) as Hflags.
  assert (Hdup : NoDup (str "help" :: str "json" :: map fl_Name (Flags c)) <->
    NoDup (map fl_Name (Flags c)) /\ Forall (fun n => n ∉ ({[str "help"; str "json"]} : gset bytes)) (map fl_Name (Flags c))).
  { rewrite !NoDup_cons, Forall_forall, not_elem_of_cons. setoid_rewrite not_elem_of_union.
    setoid_rewrite not_elem_of_singleton. split.
    - intros ((_ & Hhelp) & Hjson & Hd). split; [done|]. intros x Hx. split; intros ->; done.
    - intros [Hd Hin]. split_and!; [done|intros Hx|intros Hx|done]; by destruct (Hin _ Hx). }
  destruct (validate_flags quote (Flags c) _ _) as [e|].
  - split; [done|]. intros (_ & _ & _ & _ & _ & _ & _ & _ & Hf & Hn & Hs & _). exfalso.
    assert (Some e = None); [|done]. apply Hflags. split_and!; [done|by apply Hdup|by apply Hdup|done|].
    apply not_seen_none.
  - destruct Hflags as [(Hf & Hn & Hs & _) _]; [done|].
    destruct (r_Max (Args c) <? len (Arguments c)) eqn:H9; zbool; [split; [done|intros; destruct_and?; lia]|].
    rewrite validate_arguments_spec, Hdup.
    pose proof (not_seen_none (map a_Name (Arguments c))).
    split; [|tauto]. intros (Ha & Hd & _). split_and!; try done; try lia; tauto.
Qed.

(** The loop over the subcommands, as a definition of its own. *)
Definition validate_children (depth : Z) : list Command -> gset bytes -> Z -> GoErr + Z :=
  fix children l seen count :=
    match l with
    | [] => inr count
    | child :: l' =>
      if bool_decide (Name child = []) || bool_decide (Name child ∈ seen)
      then inl (wrap ErrUsage (str "duplicate or empty subcommand"))
      else match validateCommand quote child (depth + 1) count with
           | inl e => inl e
           | inr count => children l' ({[Name child]} ∪ seen) count
           end
    end.

Lemma validateCommand_eq c depth count :
  validateCommand quote c depth count =
    match validate_head quote c depth (count + 1) with
    | Some e => inl e
    | None =>
      match validate_children depth (Subcommands c) ∅ (count + 1) with
      | inl e => inl e
      | inr count =>
        if negb (bool_decide (Name c = [])) && bool_decide (length (Subcommands c) = 0%nat) &&
           match Handle c with None => true | Some _ => false end
        then inl (wrap ErrUsage (str "command " ++ quote (Name c) ++ str " has no handler"))
        else inr count
      end
    end.
Proof. by destruct c. Qed.

Lemma validate_children_spec depth l seen count n :
  Forall (fun c => forall depth count n,
    validateCommand quote c depth count = inr n <-> n = count + size c /\ n <= MaxCommands /\ tree_ok depth c) l ->
  validate_children depth l seen count = inr n <->
    n = count + fold_right Z.add 0 (map size l) /\ (l <> [] -> n <= MaxCommands) /\
    Forall (tree_ok (depth + 1)) l /\ NoDup (map Name l) /\ Forall (fun x => x <> [] /\ x ∉ seen) (map Name l).
Proof.
  intros Hl. revert seen count. induction Hl as [|c l Hc _ IH]; intros seen count.
  { cbn. split; [intros [= <-]; split_and!; try lia; try done; constructor|]. intros (-> & _). f_equal. lia. }
  cbn [validate_children map fold_right]. rewrite Forall_cons, NoDup_cons, Forall_cons.
  case_bool_decide as H1; cbn [orb]; [split; [done|intros (_&_&_&_&(?&_)&_); done]|].
  case_bool_decide as H2; [split; [done|intros (_&_&_&_&(_&?)&_); done]|].
  assert (Hset : Forall (fun x => x <> [] /\ x ∉ ({[Name c]} ∪ seen)) (map Name l) <->
    (Name c ∉ map Name l) /\ Forall (fun x => x <> [] /\ x ∉ seen) (map Name l))
    by (rewrite !Forall_and, not_seen_cons; tauto).
  assert (Hsize : 0 <= fold_right Z.add 0 (map size l)).
  { clear. induction l as [|c l IHl]; cbn; [done|]. pose proof (size_pos c). lia. }
  destruct (validateCommand quote c (depth + 1) count) as [e|m] eqn:Hv.
  - split; [done|]. intros (-> & Hn & (Ht & _) & _). exfalso.
    assert (validateCommand quote c (depth + 1) count = inr (count + size c)); [|congruence].
    apply Hc. split_and!; [done| |done]. specialize (Hn ltac:(done)). lia.
  - apply Hc in Hv as (-> & Hm & Ht). fold (validate_children depth). rewrite IH, Hset.
    split; [intros (-> & Hn & ? & ? & ? & ?)|intros (-> & Hn & (_ & ?) & (? & ?) & _ & ?)].
    + split_and!; try done; [lia|]. intros _. destruct l; [cbn; lia|by apply Hn].
    + split_and!; try done; [lia|]. intros _. by apply Hn.
Qed.

Lemma validateCommand_spec c : forall depth count n,
  validateCommand quote c depth count = inr n <-> n = count + size c /\ n <= MaxCommands /\ tree_ok depth c.
Proof.
  induction c as [c IH] using Command_ind'. intros depth count n. rewrite validateCommand_eq.
  pose proof (validate_head_spec c depth (count + 1)) as Hh.
  pose proof (fun m => validate_children_spec depth (Subcommands c) ∅ (count + 1) m IH) as Hc.
  assert (Hsz : size c = 1 + fold_right Z.add 0 (map size (Subcommands c))) by (by destruct c).
  assert (Hsum : 0 <= fold_right Z.add 0 (map size (Subcommands c))) by (pose proof (size_pos c); lia).
  assert (Hnames : NoDup ([] :: map Name (Subcommands c)) <->
    NoDup (map Name (Subcommands c)) /\ Forall (fun x => x <> [] /\ x ∉ (∅ : gset bytes)) (map Name (Subcommands c))).
  { rewrite NoDup_cons, Forall_and, Forall_forall. pose proof (not_seen_none (map Name (Subcommands c))).
    split; [intros [H1 H2]|intros (H1 & H2 & _)]; split_and!; try done; [by intros x Hx ->|].
    intros Hin. by apply (H2 _ Hin). }
  destruct (validate_head quote c depth (count + 1)) as [e|].
  { split; [done|]. intros (-> & Hn & Ht). exfalso. inversion Ht; subst. assert (Some e = None); [|done]. apply Hh. split_and!; [done|lia|done]. }
  destruct Hh as [(Hd & Hcnt & Hok) _]; [done|].
  destruct (validate_children depth (Subcommands c) ∅ (count + 1)) as [e|m].
  { split; [done|]. intros (-> & Hn & Ht). exfalso. inversion Ht; subst.
    assert (inl e = inr (count + size c)); [|done]. apply Hc. split_and!; [lia|done|done|by apply Hnames|by apply Hnames]. }
  destruct (Hc m) as [(-> & Hm & Hf & Hn1 & Hn2) _]; [done|].
  assert (Hleaf : (negb (bool_decide (Name c = [])) && bool_decide (length (Subcommands c) = 0%nat) &&
    match Handle c with None => true | Some _ => false end) = false <->
    (Name c = [] \/ Subcommands c <> [] \/ Handle c <> None)).
  { rewrite !andb_false_iff, negb_false_iff, bool_decide_eq_true, bool_decide_eq_false.
    rewrite length_zero_iff_nil. destruct (Handle c); [split; [by right; right|by right]|].
    split; [intros [[?|?]|?]; [by left|by right; left|done]|intros [?|[?|?]]; [by left; left|by left; right|done]]. }
  destruct (negb _ && _ && _) eqn:Hx.
  - split; [done|]. intros (_ & _ & Ht). exfalso. inversion Ht; subst. apply Hleaf in H3. congruence.
  - pose proof (proj1 Hleaf eq_refl) as Hx'. split.
    + intros [= <-]. split_and!; [lia| |constructor; [done|done|by apply Hnames|done|done]].
      destruct (Subcommands c); [cbn; lia|by apply Hm].
    + intros (-> & _). f_equal. lia.
Qed.

(** ** What parse binds *)

(** [d] is reached from the root by names of subcommands; [fs] are the flags of
    the commands on the way. *)
Inductive reached (root : Command) : Command -> list Flag -> Prop :=
| reached_root : reached root root (Flags root)
| reached_child c child fs :
    reached root c fs -> child ∈ Subcommands c -> reached root child (fs ++ Flags child).

(** A value of the type the flag asks for: strings when it may be repeated, else the
    type of its kind. *)
Definition value_for (f : Flag) (v : value) : Prop :=
  match v with
  | VStrings _ => fl_Repeated f = true
  | VString _ => fl_Kind f = StringValue /\ fl_Repeated f = false
  | VBool _ => fl_Kind f = BoolValue
  | VInt _ => fl_Kind f = IntValue /\ fl_Repeated f = false
  | VDuration _ => fl_Kind f = DurationValue /\ fl_Repeated f = false
  end.

Definition values_typed (fs : list Flag) (values : gmap bytes value) : Prop :=
  forall n v, values !! n = Some v -> exists f, f ∈ fs /\ fl_Name f = n /\ value_for f v.

(** No flag of that name has another type. *)
Definition same_type_on (fs : list Flag) (f : Flag) : Prop :=
  forall g, g ∈ fs -> fl_Name g = fl_Name f -> fl_Kind g = fl_Kind f /\ fl_Repeated g = fl_Repeated f.
Lemma values_typed_own fs values f v : values_typed fs values -> same_type_on fs f -> values !! fl_Name f = Some v -> value_for f v.
Proof.
  intros Ht Hs Hv. destruct (Ht _ _ Hv) as (g & Hg & Hn & Hgv). destruct (Hs g Hg Hn) as [Hk Hr].
  unfold value_for in *. by rewrite <- Hk, <- Hr.
Qed.

Lemma list_find_fmap {A} (P : A -> Prop) `{forall x, Decision (P x)} (l : list A) x :
  snd <$> list_find P l = Some x -> x ∈ l /\ P x.
Proof.
  destruct (list_find P l) as [[i y]|] eqn:E; [|done]. intros [= <-].
  apply list_find_Some in E as (Hl & Hp & _). split; [by eapply list_elem_of_lookup_2|done].
Qed.

Lemma values_typed_insert fs values f v :
  values_typed fs values -> f ∈ fs -> value_for f v -> values_typed fs (<[fl_Name f := v]> values).
Proof.
  intros Ht Hf Hv n w. rewrite lookup_insert_Some. intros [[<- <-]|[_ Hw]]; [by exists f|by apply Ht].
Qed.

Lemma parseValue_kind kind raw emptyBool v :
  parseValue quote ParseDuration kind raw emptyBool = inr v ->
  match v with
  | VString s => kind = StringValue /\ s = raw
  | VBool _ => kind = BoolValue
  | VInt n => kind = IntValue /\ - 2 ^ 63 <= n < 2 ^ 63
  | VDuration _ => kind = DurationValue
  | VStrings _ => False
  end.
Proof.
  unfold parseValue. destruct (kind =? StringValue) eqn:H1; zbool; [case_match; [done|]; by intros [= <-]|].
  destruct (kind =? BoolValue) eqn:H2; zbool.
  { destruct emptyBool; [by intros [= <-]|]. unfold bind, ParseBool. repeat case_match; intros [= <-]; done. }
  destruct (kind =? IntValue) eqn:H3; zbool.
  { unfold bind, Atoi. destruct (match raw with 45 :: ds => _ | _ => _ end) as [neg ds].
    case_match eqn:Hc; [done|]. destruct (_ || _) eqn:Ha in Hc; [done|]. cbv zeta in Hc.
    destruct ((_ <? - 2 ^ 63) || _) eqn:Hr in Hc; [done|]. injection Hc as <-. intros [= <-].
    apply orb_false_iff in Hr as [Hr1 Hr2]. zbool. split; [done|lia]. }
  destruct (kind =? DurationValue) eqn:H4; zbool; [|done].
  destruct (ParseDuration raw); [done|]. by intros [= <-].
Qed.

Lemma parseValue_for f raw emptyBool v :
  fl_Repeated f = false -> parseValue quote ParseDuration (fl_Kind f) raw emptyBool = inr v -> value_for f v.
Proof. intros Hr Hp. apply parseValue_kind in Hp. destruct v; destruct_and?; done. Qed.

Lemma setFlag_typed fs values f v values' :
  values_typed fs values -> f ∈ fs -> setFlag quote ParseDuration values f v = inr values' ->
  values_typed fs values' /\ is_Some (values' !! fl_Name f).
Proof.
  intros Ht Hf. unfold setFlag. destruct (match v with Some _ => _ | None => _ end) as [raw|]; [|done].
  destruct (match fl_Validate f with None => _ | Some _ => _ end); [done|].
  destruct (fl_Repeated f) eqn:Hr; unfold bind.
  - case_match; [done|]. intros [= <-]. rewrite lookup_insert_eq. split; [by apply values_typed_insert|done].
  - case_match eqn:Hp; [done|]. intros [= <-]. rewrite lookup_insert_eq.
    split; [|done]. apply values_typed_insert; [done|done|by eapply parseValue_for].
Qed.

Lemma parseShortFlags_typed fs flags raw rest values :
  values_typed fs values -> (forall f, f ∈ flags -> f ∈ fs) ->
  values_typed fs (parseShortFlags quote ParseDuration flags raw rest values).1.1.
Proof.
  intros Ht Hsub. revert values Ht. induction raw as [|c raw IH]; intros values Ht; [done|]. cbn [parseShortFlags].
  destruct (findShortFlag flags c) as [f|] eqn:Hf; [|done]. apply list_find_fmap in Hf as [Hin _].
  destruct (fl_Kind f =? BoolValue) eqn:Hb; zbool.
  - apply IH, values_typed_insert; [done|by apply Hsub|done].
  - destruct (match raw with [] => _ | _ => _ end) as [[v n]|]; [|done].
    destruct (setFlag _ _ _ _ _) as [e|values'] eqn:Hs; [done|]. cbn.
    by eapply setFlag_typed in Hs as [? _]; [|done|by apply Hsub].
Qed.

(** What holds of the state of the parser. *)
Definition ps_ok (root : Command) (s : pstate) : Prop :=
  exists fs, reached root (ps_command s) fs /\ values_typed fs (ps_values s) /\ len (ps_positionals s) <= MaxArgs.

Lemma reached_flags root c fs : reached root c fs -> forall f, f ∈ Flags c -> f ∈ fs.
Proof. destruct 1; intros f Hf; [done|]. apply elem_of_app. by right. Qed.

Lemma parse_positional_ok root s token s' consumed :
  ps_ok root s -> parse_positional s token = (s', consumed, None) -> ps_ok root s'.
Proof.
  intros (fs & Hr & Ht & Hl). unfold parse_positional. case_match; [done|]. case_match eqn:Hm; [done|].
  intros [= <- <-]. exists fs. zbool. by split_and!.
Qed.

Lemma parse_token_ok root s token rest s' consumed :
  ps_ok root s -> parse_token quote ParseDuration s token rest = (s', consumed, None) -> ps_ok root s'.
Proof.
  intros Hok. pose proof Hok as (fs & Hr & Ht & Hl). unfold parse_token. cbv zeta.
  destruct (MaxArgument <? len token); [done|].
  destruct (negb _ && bool_decide (token = str "--")); [intros [= <- <-]; by exists fs|].
  destruct (negb _ && bool_decide (token = str "--help")); [intros [= <- <-]; by exists fs|].
  destruct (negb _ && bool_decide (token = str "--json")); [intros [= <- <-]; by exists fs|].
  destruct (negb _ && HasPrefix token (str "--")).
  { destruct (splitLongFlag _) as [name v]. destruct (findFlag _ name) as [f|] eqn:Hf; [|done].
    destruct (consumeFlag _ _ _ _) as [e|n]; [done|].
    destruct (setFlag _ _ _ _ _) as [e|values] eqn:Hs; [done|]. intros [= <- <-]. exists fs.
    apply list_find_fmap in Hf as [Hin _].
    split_and!; [done| |done]. eapply setFlag_typed; [exact Ht| |exact Hs]. by eapply reached_flags. }
  destruct (negb _ && HasPrefix token (str "-") && _).
  { pose proof (parseShortFlags_typed fs (Flags (ps_command s)) (drop 1 token) rest (ps_values s) Ht
      (reached_flags _ _ _ Hr)) as Hp.
    destruct (parseShortFlags _ _ _ _ _ _) as [[values n] failure]. intros [= <- <- ->]. exists fs. by split_and!. }
  destruct (if negb (ps_stopFlags s) then _ else _) as [child|] eqn:Hc; [|by apply parse_positional_ok].
  destruct (len (ps_positionals s) =? 0); [|by apply parse_positional_ok].
  destruct (negb (ps_stopFlags s)); [|done]. apply list_find_fmap in Hc as [Hin _].
  intros [= <- <-]. exists (fs ++ Flags child). split_and!; [by econstructor| |done].
  intros n v Hv. destruct (Ht n v Hv) as (f & Hf & ?). exists f. split; [|done]. apply elem_of_app. by left.
Qed.

Lemma parse_loop_ok root cancelled raw : forall index s s',
  ps_ok root s -> parse_loop quote ParseDuration cancelled index s raw = (s', None) -> ps_ok root s'.
Proof.
  induction raw as [raw IH] using (induction_ltof1 _ (@length bytes)). unfold ltof in IH. intros index s s' Hok.
  destruct raw as [|token rest]; cbn [parse_loop]; [by intros [= <-]|]. destruct (cancelled index); [done|].
  destruct (parse_token _ _ s token rest) as [[s1 c] [f|]] eqn:Ht; [by destruct c|].
  apply (parse_token_ok root) in Ht; [|done].
  destruct c; [|by apply IH; [simpl; lia|]].
  destruct rest as [|v rest]; [by intros [= <-]|]. by apply IH; [simpl; lia|].
Qed.

Lemma parse_defaults_typed fs flags values values' :
  values_typed fs values -> (forall f, f ∈ flags -> f ∈ fs) ->
  parse_defaults quote ParseDuration flags values = (values', None) ->
  values_typed fs values' /\ (forall n, is_Some (values !! n) -> is_Some (values' !! n)) /\
  (forall f, f ∈ flags -> is_Some (values' !! fl_Name f) \/
     (fl_Required f = false /\ fl_Default f = [] /\ fl_Kind f <> BoolValue)).
Proof.
  revert values. induction flags as [|f flags IH]; intros values Ht Hsub; cbn [parse_defaults].
  { intros [= <-]. split_and!; [done|done|]. intros f Hf. by apply not_elem_of_nil in Hf. }
  assert (Hsub' : forall g, g ∈ flags -> g ∈ fs) by (intros g Hg; apply Hsub; by right).
  (* after binding [f] to a value of its type *)
  assert (Hbind : forall v, value_for f v ->
    parse_defaults quote ParseDuration flags (<[fl_Name f := v]> values) = (values', None) ->
    values_typed fs values' /\ (forall n, is_Some (values !! n) -> is_Some (values' !! n)) /\
    (forall g, g ∈ f :: flags -> is_Some (values' !! fl_Name g) \/
       (fl_Required g = false /\ fl_Default g = [] /\ fl_Kind g <> BoolValue))).
  { intros v Hv Hp. destruct (IH (<[fl_Name f := v]> values)) as (H1 & H2 & H3); [|done|done|].
    { apply values_typed_insert; [done|apply Hsub; left|done]. }
    split_and!; [done| |].
    - intros n Hn. apply H2. rewrite lookup_insert_is_Some. destruct (decide (fl_Name f = n)); [by left|by right].
    - intros g [->|Hg]%elem_of_cons; [left|by apply H3]. apply H2. by rewrite lookup_insert_eq. }
  case_bool_decide as Hsome.
  { intros Hp. destruct (IH values Ht Hsub' Hp) as (H1 & H2 & H3). split_and!; [done|done|].
    intros g [->|Hg]%elem_of_cons; [left; by apply H2|by apply H3]. }
  destruct (fl_Required f && _) eqn:Hreq; [done|].
  destruct (negb _ || (fl_Kind f =? BoolValue)) eqn:Hd.
  - destruct (fl_Repeated f) eqn:Hrep; [by apply Hbind|].
    destruct (parseValue _ _ _ _ _) as [e|v] eqn:Hp; [done|]. apply Hbind. by eapply parseValue_for.
  - intros Hp. destruct (IH values Ht Hsub' Hp) as (H1 & H2 & H3). split_and!; [done|done|].
    apply orb_false_iff in Hd as [Hd Hk]. apply negb_false_iff in Hd. rewrite Hd, andb_true_r in Hreq.
    apply bool_decide_eq_true in Hd. zbool.
    intros g [->|Hg]%elem_of_cons; [right; by split_and!|by apply H3].
Qed.

(** The value of a positional argument has the type of its kind. *)
Definition argument_for (a : Argument) (v : value) : Prop :=
  match v with
  | VStrings _ => a_Kind a = StringsValue
  | VString _ => a_Kind a = StringValue
  | VBool _ => a_Kind a = BoolValue
  | VInt _ => a_Kind a = IntValue
  | VDuration _ => a_Kind a = DurationValue
  end.

Lemma parse_arguments_typed (all arguments : list Argument) positionals args args' :
  (forall a, a ∈ arguments -> a ∈ all) ->
  (forall n v, args !! n = Some v -> exists a, a ∈ all /\ a_Name a = n /\ argument_for a v) ->
  parse_arguments quote ParseDuration arguments positionals args = (args', None) ->
  forall n v, args' !! n = Some v -> exists a, a ∈ all /\ a_Name a = n /\ argument_for a v.
Proof.
  revert positionals args. induction arguments as [|a arguments IH]; intros positionals args Hsub Ha; cbn [parse_arguments].
  { by intros [= <-]. }
  assert (Hsub' : forall b, b ∈ arguments -> b ∈ all) by (intros b Hb; apply Hsub; by right).
  assert (Hins : forall w, argument_for a w -> forall n v, <[a_Name a := w]> args !! n = Some v ->
    exists b, b ∈ all /\ a_Name b = n /\ argument_for b v).
  { intros w Hw n v. rewrite lookup_insert_Some. intros [[<- <-]|[_ Hv]]; [|by apply Ha].
    exists a. split_and!; [apply Hsub; left|done|done]. }
  destruct positionals as [|p positionals]; [by intros [= <-]|].
  destruct (a_Kind a =? StringsValue) eqn:Hk; zbool; [intros [= <-]; by apply Hins|].
  destruct (parseValue _ _ _ _ _) as [e|v] eqn:Hp; [done|]. apply parseValue_kind in Hp.
  apply IH; [done|]. apply Hins. destruct v; destruct_and?; done.
Qed.

Lemma parse_spec cancelled root raw i :
  parse quote ParseDuration cancelled root raw = (i, None) ->
  exists fs, reached root (i_command i) fs /\ values_typed fs (i_values i) /\
    (forall f, f ∈ Flags (i_command i) -> is_Some (i_values i !! fl_Name f) \/
       (fl_Required f = false /\ fl_Default f = [] /\ fl_Kind f <> BoolValue)) /\
    (forall n v, i_args i !! n = Some v -> exists a, a ∈ Arguments (i_command i) /\ a_Name a = n /\ argument_for a v) /\
    validateArgs (i_command i) (i_positionals i) = None /\ len (i_positionals i) <= MaxArgs.
Proof.
  unfold parse. set (s0 := mkPS _ _ _ _ _ _ _).
  assert (H0 : ps_ok root s0).
  { exists (Flags root). split_and!; [constructor|by intros n v|done]. }
  destruct (parse_loop _ _ _ _ s0 raw) as [s [f|]] eqn:Hl; [done|].
  apply (parse_loop_ok root) in Hl as (fs & Hr & Ht & Hp); [|done].
  destruct (validateArgs _ _) eqn:Hv; [done|].
  destruct (parse_arguments _ _ _ _ _) as [args [f|]] eqn:Ha; [done|].
  destruct (parse_defaults _ _ _ _) as [values failure] eqn:Hd. intros [= <- ->].
  destruct (parse_defaults_typed fs _ _ _ Ht (reached_flags _ _ _ Hr) Hd) as (H1 & _ & H3).
  exists fs. cbn [invocation_of with_values i_command i_values i_args i_positionals ps_command ps_values ps_positionals].
  split_and!; try done.
  eapply parse_arguments_typed; [| |exact Ha]; [done|]. intros n v Hn. by rewrite lookup_empty in Hn.
Qed.

(** After ["--"] everything is positional, whatever it looks like. *)
Lemma parse_loop_verbatim raw : forall index (s : @pstate V),
  ps_stopFlags s = true -> Forall (fun t => len t <= MaxArgument) raw -> len (ps_positionals s) + len raw <= MaxArgs ->
  parse_loop quote ParseDuration (fun _ => false) index s raw =
    (mkPS (ps_command s) (ps_path s) (ps_values s) (ps_positionals s ++ raw) true (ps_json s) (ps_help s), None).
Proof.
  induction raw as [|t raw IH]; intros index s Hs Hf Hl; cbn [parse_loop].
  { rewrite app_nil_r. destruct s; cbn in *. by subst. }
  apply Forall_cons in Hf as [Ht Hf]. rewrite len_cons in Hl. len_pos.
  assert (Htok : parse_token quote ParseDuration s t raw =
    (mkPS (ps_command s) (ps_path s) (ps_values s) (ps_positionals s ++ [t]) true (ps_json s) (ps_help s), false, None)).
  { unfold parse_token. rewrite Hs. cbn [negb andb]. rewrite (proj2 (Z.ltb_ge _ _)) by done.
    unfold parse_positional. rewrite Hs. cbn [negb andb]. rewrite (proj2 (Z.ltb_ge _ _)) by len_lia. done. }
  rewrite Htok, IH; cbn [ps_stopFlags ps_positionals ps_command ps_path ps_values ps_json ps_help];
    [by rewrite <- app_assoc|done|done|rewrite len_app; len_lia].
Qed.

(** ** Failures and exit codes *)

Lemma sanitize_zero f : f_ExitCode (sanitizeFailure f) = 0 <-> matches_name (f_Code f) = true /\ f_ExitCode f = 0.
Proof. unfold sanitizeFailure. destruct (matches_name (f_Code f)) eqn:H; cbn; [tauto|]. split; [done|by intros [? _]]. Qed.

(** A [*Error] whose exit code was left at 0: the default 1 is only given to an
    [Error] that is no pointer. *)
Definition silent (e : GoErr) : Prop :=
  exists f, e_as e = Some (true, f) /\ matches_name (f_Code f) = true /\ f_ExitCode f = 0.

Lemma normalize_zero e usage : f_ExitCode (normalizeFailure e usage) = 0 <-> silent e.
Proof.
  unfold normalizeFailure, silent. destruct (e_as e) as [[[|] f]|].
  - rewrite sanitize_zero. naive_solver.
  - rewrite sanitize_zero. cbn. destruct (f_ExitCode f =? 0) eqn:H; zbool; naive_solver.
  - split; [|naive_solver]. intros H. exfalso. revert H.
    unfold sanitizeFailure. repeat case_match; simplify_eq; cbn -[safeText]; try done.
Qed.

Lemma err_not_silent s : ~ silent (err s).
Proof. intros (f & Hf & _). done. Qed.

(** The exit code of an error. An [Error] in its chain gives its own code, with 1 for 0 unless
    it is a pointer, and 1 when its [Code] is malformed (a missing one is not, unless it is a
    pointer). Other errors give 1, but 2 when they are errors of usage that are neither a
    cancellation nor a limit. *)
Definition error_exit (e : GoErr) : Z :=
  match e_as e with
  | Some (pointer, f) =>
    let named := matches_name (f_Code f) || (negb pointer && bool_decide (f_Code f = [])) in
    if negb named || (negb pointer && (f_ExitCode f =? 0)) then 1 else f_ExitCode f
  | None =>
    let wraps l := existsb (errors_Is e) l in
    if wraps [ErrUsage; ErrUnknown; ErrMissing; ErrInvalid; ErrLexer] && negb (wraps [ctxCanceled; ctxDeadlineExceeded; ErrCanceled; ErrLimit]) then 2 else 1
  end.
Lemma sanitize_exit f : f_ExitCode (sanitizeFailure f) = if matches_name (f_Code f) then f_ExitCode f else 1.
Proof. unfold sanitizeFailure. by destruct (matches_name (f_Code f)). Qed.
Lemma normalize_exit e : f_ExitCode (normalizeFailure e false) = error_exit e.
Proof.
  unfold normalizeFailure, error_exit. destruct (e_as e) as [[[|] f]|].
  - rewrite sanitize_exit. cbn. rewrite orb_false_r. by destruct (matches_name (f_Code f)).
  - rewrite sanitize_exit. cbn. case_bool_decide as Hc.
    + rewrite Hc, orb_true_r. cbn. by destruct (f_ExitCode f =? 0).
    + rewrite orb_false_r. destruct (matches_name (f_Code f)); cbn; [by destruct (f_ExitCode f =? 0)|done].
  - cbn [existsb]. repeat destruct (errors_Is e _); cbn beta iota delta [orb]; rewrite sanitize_exit; reflexivity.
Qed.
Lemma err_exit s : s ∈ [ErrInternal; ErrLimit; ctxCanceled; ctxDeadlineExceeded] -> error_exit (err s) = 1.
Proof. intros Hs. repeat (apply elem_of_cons in Hs as [->|Hs]; [reflexivity|]). by apply elem_of_nil in Hs. Qed.

(** The errors of [Validate] wrap no [Error]. *)
Lemma validate_flags_plain flags seenF seenS e : validate_flags quote flags seenF seenS = Some e -> e_as e = None.
Proof.
  revert seenF seenS. induction flags as [|f flags IH]; intros seenF seenS; cbn [validate_flags]; [done|].
  repeat (case_match; [by intros [= <-]|]). apply IH.
Qed.

Lemma validate_arguments_plain arguments seen e : validate_arguments quote arguments seen = Some e -> e_as e = None.
Proof.
  revert seen. induction arguments as [|a arguments IH]; intros seen; cbn [validate_arguments]; [done|].
  repeat (case_match; [by intros [= <-]|]). apply IH.
Qed.

Lemma validate_head_plain (c : Command) depth count e : validate_head quote c depth count = Some e -> e_as e = None.
Proof.
  unfold validate_head. do 6 (case_match; [by intros [= <-]|]).
  destruct (validate_flags quote (Flags c) _ _) as [e'|] eqn:Hf; [intros [= <-]; by eapply validate_flags_plain|].
  case_match; [by intros [= <-]|]. apply validate_arguments_plain.
Qed.

Lemma validateCommand_plain (c : Command) : forall depth count e, validateCommand quote c depth count = inl e -> e_as e = None.
Proof.
  induction c as [c IH] using Command_ind'. intros depth count e. rewrite validateCommand_eq.
  destruct (validate_head quote c depth (count + 1)) as [e'|] eqn:Hh; [intros [= <-]; by eapply validate_head_plain|].
  assert (Hc : forall l seen count e, Forall (fun c => forall depth count e, validateCommand quote c depth count = inl e -> e_as e = None) l ->
    validate_children depth l seen count = inl e -> e_as e = None).
  { clear. induction l as [|c l IHl]; intros seen count e Hl; [done|]. apply Forall_cons in Hl as [Hc Hl].
    cbn [validate_children]. case_match; [by intros [= <-]|].
    destruct (validateCommand quote c (depth + 1) count) as [e'|m] eqn:Hv; [intros [= <-]; by eapply Hc|]. by apply IHl. }
  destruct (validate_children depth _ _ _) as [e'|m] eqn:Hv; [intros [= <-]; by eapply Hc|].
  case_match; [by intros [= <-]|done].
Qed.

Lemma invalid_exit (root : Command) e : Validate quote root = Some e -> f_ExitCode (normalizeFailure e true) = 2.
Proof.
  unfold Validate. destruct (validateCommand quote root 0 0) as [e'|] eqn:Hv; [|done]. intros [= <-].
  apply validateCommand_plain in Hv. unfold normalizeFailure. rewrite Hv.
  repeat case_match; done.
Qed.

(** Failures of parsing are usage failures, cancellation aside. *)
Definition usage_like (f : Failure) : Prop :=
  (f_ExitCode f = 2 /\ f_ShowUsage f = true) \/ (f_ExitCode f = 1 /\ f_Code f = str "canceled").

Lemma parseShortFlags_usage flags raw rest values f :
  (parseShortFlags quote ParseDuration flags raw rest values).2 = Some f -> usage_like f.
Proof.
  revert values. induction raw as [|c raw IH]; intros values; cbn [parseShortFlags]; [done|].
  destruct (findShortFlag flags c); [|by intros [= <-]; left]. destruct (_ =? BoolValue); [apply IH|].
  destruct (match raw with [] => _ | _ => _ end) as [[v n]|]; [|by intros [= <-]; left].
  destruct (setFlag _ _ _ _ _); cbn; [by intros [= <-]; left|done].
Qed.

Lemma parse_token_usage (s s' : @pstate V) token rest c f :
  parse_token quote ParseDuration s token rest = (s', c, Some f) -> usage_like f.
Proof.
  assert (Hpos : parse_positional s token = (s', c, Some f) -> usage_like f).
  { unfold parse_positional. case_match; [intros [= <- <- <-]; by left|]. case_match; [intros [= <- <- <-]; by left|done]. }
  unfold parse_token. cbv zeta.
  case_match; [intros [= <- <- <-]; by left|]. do 3 (case_match; [done|]).
  destruct (negb _ && HasPrefix token (str "--")).
  { destruct (splitLongFlag _) as [name v]. destruct (findFlag _ name); [|intros [= <- <- <-]; by left].
    destruct (consumeFlag _ _ _ _); [intros [= <- <- <-]; by left|].
    destruct (setFlag _ _ _ _ _); [intros [= <- <- <-]; by left|done]. }
  destruct (negb _ && HasPrefix token (str "-") && _).
  { pose proof (parseShortFlags_usage (Flags (ps_command s)) (drop 1 token) rest (ps_values s)) as Hp.
    destruct (parseShortFlags _ _ _ _ _ _) as [[values n] failure]. intros [= <- <- ->]. by apply Hp. }
  destruct (if negb (ps_stopFlags s) then _ else _); [|apply Hpos].
  destruct (len (ps_positionals s) =? 0); [done|apply Hpos].
Qed.

Lemma parse_loop_usage cancelled raw : forall index (s s' : @pstate V) f,
  parse_loop quote ParseDuration cancelled index s raw = (s', Some f) -> usage_like f.
Proof.
  induction raw as [raw IH] using (induction_ltof1 _ (@length bytes)). unfold ltof in IH. intros index s s' f.
  destruct raw as [|token rest]; cbn [parse_loop]; [done|]. destruct (cancelled index); [intros [= <- <-]; by right|].
  destruct (parse_token _ _ s token rest) as [[s1 c] [g|]] eqn:Ht.
  { apply parse_token_usage in Ht. destruct c; by intros [= <- <-]. }
  destruct c; [|apply IH; simpl; lia]. destruct rest as [|v rest]; [done|]. apply IH. simpl; lia.
Qed.

Lemma parse_usage cancelled (root : Command) raw i f :
  parse quote ParseDuration cancelled root raw = (i, Some f) -> usage_like f.
Proof.
  unfold parse. destruct (parse_loop _ _ _ _ _ raw) as [s [g|]] eqn:Hl.
  { intros [= <- <-]. by eapply parse_loop_usage. }
  destruct (validateArgs _ _) eqn:Hv.
  { intros [= <- <-]. revert Hv. unfold validateArgs. destruct (_ && _); [done|]. destruct (_ || _); [|done].
    intros [= <-]. by left. }
  destruct (parse_arguments _ _ _ _ _) as [args [g|]] eqn:Ha.
  { intros [= <- <-]. revert Ha. generalize (∅ : gmap bytes value). generalize (Arguments (ps_command s)), (ps_positionals s).
    clear. intros l. induction l as [|a l IH]; intros ps m; [done|]. destruct ps as [|p ps]; [done|]. cbn [parse_arguments].
    case_match; [done|]. case_match; [intros [= <- <-]; by left|]. apply IH. }
  destruct (parse_defaults _ _ _ _) as [values failure] eqn:Hd. intros [= <- ->]. revert Hd.
  generalize (ps_values s), (Flags (ps_command s)). clear. intros m l. revert m.
  induction l as [|g l IH]; intros m; [done|]. cbn [parse_defaults]. case_match; [apply IH|].
  case_match; [intros [= <- <-]; by left|]. case_match; [|apply IH]. case_match; [apply IH|].
  case_match; [intros [= <- <-]; by left|apply IH].
Qed.

(** ** Execute *)

Context (marshal : @jsonValue V -> GoErr + bytes) (Fprintln : V -> bytes).

(** What a handler presents goes to standard output: as JSON it is encoded and fits,
    as text its renderer does not panic and what it writes, filtered, fits. *)
Definition presentable (i : @invocation V) (o : @Output V) : Prop :=
  if i_json i then
    exists encoded, marshal (JResult (if o_empty o then None else o_value o)) = inr encoded /\ len encoded + 1 <= MaxOutput
  else if o_empty o then True
  else match o_render o, o_value o with
       | Some render, v => rn_panic (render v) = false /\ len (concat (map safeText (rn_writes (render v)))) <= MaxOutput
       | None, Some v => len (safeText (Fprintln v)) <= MaxOutput
       | None, None => True
       end.

(** The handler returned, within the bounds, and either without an error and with
    something presentable, or with an [*Error] of exit code 0. *)
Definition succeeds (i : @invocation V) (r : @Handled V) : Prop :=
  len (concat (map safeText (h_stderr r))) <= MaxOutput /\
  ((exists o, h_ret r = HReturn o None /\ presentable i o) \/ (exists o e, h_ret r = HReturn o (Some e) /\ silent e)).

(** The exit code of an invocation whose handler ran: 1 when it wrote too much to standard
    error, panicked or returned something that cannot be presented, the code of the error it
    returned, or 0. *)
Definition exits (i : @invocation V) (r : @Handled V) (n : Z) : Prop :=
  if MaxOutput <? len (concat (map safeText (h_stderr r))) then n = 1 else
  match h_ret r with
  | HPanic => n = 1
  | HReturn _ (Some e) => n = error_exit e
  | HReturn o None => (presentable i o /\ n = 0) \/ (~ presentable i o /\ n = 1)
  end.
Definition call_of (i : @invocation V) (stdin : bytes) : Context :=
  mkContext (mkBR stdin MaxInput 0) (i_values i) (i_args i) (i_json i) (i_path i).

Definition stdout_of (w : writes) : list bytes := omap (fun '(s, b) => match s with Stdout => Some b | Stderr => None end) w.

Lemma stdout_app w w' : stdout_of (w ++ w') = stdout_of w ++ stdout_of w'.
Proof. apply omap_app. Qed.

Lemma stdout_stderr b : stdout_of (writeBytes Stderr b) = [].
Proof. unfold writeBytes. by case_bool_decide. Qed.

(** At most one write, of at most [MaxOutput] bytes. *)
Definition one_document (w : writes) : Prop :=
  (length (stdout_of w) <= 1)%nat /\ Forall (fun b => len b <= MaxOutput) (stdout_of w).

Lemma one_document_stdout b w : len b <= MaxOutput -> stdout_of w = [] -> one_document (writeBytes Stdout b ++ w).
Proof.
  intros Hb Hw. unfold one_document. rewrite stdout_app, Hw, app_nil_r. unfold writeBytes. case_bool_decide; cbn; [by split; [lia|]|].
  split; [lia|by constructor].
Qed.

Lemma writeJSON_document v : one_document (writeJSON marshal v).
Proof.
  assert (H0 : one_document []) by by split; [cbn; lia|].
  unfold writeJSON. destruct (marshal v) as [|encoded]; [done|]. destruct (_ <=? _) eqn:H; zbool; [|done].
  rewrite <- (app_nil_r (writeBytes _ _)). apply one_document_stdout; [rewrite len_app; change (len nl) with 1; lia|done].
Qed.

Lemma one_document_before b w : one_document w -> one_document (writeBytes Stderr b ++ w).
Proof. unfold one_document. by rewrite stdout_app, stdout_stderr. Qed.

Lemma writeFailure_document (c : Command) f j path : one_document (writeFailure marshal c f j path).
Proof.
  unfold writeFailure. destruct j; [apply writeJSON_document|].
  unfold one_document. rewrite stdout_stderr. split; [cbn; lia|done].
Qed.

Lemma fail_with_document (i : @invocation V) e reason j before : one_document (fail_with marshal i e reason j before).2.
Proof. apply one_document_before, writeFailure_document. Qed.

Lemma fail_with_exit (i : @invocation V) e reason j before : x_ExitCode (fail_with marshal i e reason j before).1 = error_exit reason.
Proof. apply normalize_exit. Qed.

Lemma bw_fits ws :
  let w := bw_writes (mkBW [] MaxOutput false) ws in
  len (bw_data w) <= MaxOutput /\ (bw_err w = false <-> len (concat (map safeText ws)) <= MaxOutput).
Proof.
  destruct (bw_writes_spec (mkBW [] MaxOutput false) ws) as (_ & H2 & _ & _ & H5); [done|done|]. cbv zeta. split; [done|].
  cbn [bw_limit bw_data app] in H5. rewrite <- not_true_iff_false, H5. lia.
Qed.

Lemma finish_spec (i : @invocation V) stderr o :
  let r := finish marshal Fprintln i stderr o in
  ((presentable i o /\ x_ExitCode r.1 = 0) \/ (~ presentable i o /\ x_ExitCode r.1 = 1)) /\ one_document r.2.
Proof.
  assert (Hfail : forall e s j b (P : Prop), s ∈ [ErrInternal; ErrLimit] -> ~ P ->
    let r := fail_with marshal i e (err s) j b in ((P /\ x_ExitCode r.1 = 0) \/ (~ P /\ x_ExitCode r.1 = 1)) /\ one_document r.2).
  { intros e s j b P Hs HP r. split; [|apply fail_with_document]. right. split; [done|]. unfold r. rewrite fail_with_exit. apply err_exit. set_solver. }
  unfold finish, presentable. destruct (i_json i).
  { destruct (marshal _) as [|encoded] eqn:Hm; [apply Hfail; [set_solver|]; by intros (? & ? & _)|].
    destruct (MaxOutput <? _) eqn:Hl; zbool; [apply Hfail; [set_solver|]; intros (? & [= <-] & ?); lia|].
    split; [left; split; [by eexists|done]|]. apply one_document_stdout; [rewrite len_app; change (len nl) with 1; lia|apply stdout_stderr]. }
  destruct (o_empty o).
  { split; [by left|]. unfold one_document. cbn [snd app]. rewrite stdout_stderr. by split; [cbn; lia|]. }
  destruct (o_render o) as [render|].
  - pose proof (bw_fits (rn_writes (render (o_value o)))) as [H1 H2]. cbv zeta in *.
    destruct (rn_panic (render (o_value o))); [apply Hfail; [set_solver|]; by intros [? _]|].
    destruct (bw_err _) eqn:He; [apply Hfail; [set_solver|]; intros [_ H]; by apply H2 in H|].
    split; [left; split; [|done]; split; [done|by apply H2]|]. apply one_document_stdout; [done|apply stdout_stderr].
  - destruct (o_value o) as [v|].
    + pose proof (bw_fits [Fprintln v]) as [H1 H2]. cbn [map concat] in H2. rewrite app_nil_r in H2.
      destruct (bw_err _) eqn:He; [apply Hfail; [set_solver|]; intros H; by apply H2 in H|].
      split; [left; split; [by apply H2|done]|]. apply one_document_stdout; [done|apply stdout_stderr].
    + cbn [bw_err bw_data]. split; [by left|]. apply one_document_stdout; [cbn; done|apply stdout_stderr].
Qed.

(** ** The theorems *)

(** (what [Validate] accepts): a command tree is accepted exactly when it has at
    most [MaxCommands] commands, none deeper than [MaxDepth], and every one of them is
    well-formed: a valid name (or none), a summary and helps without control
    characters and within their lengths, a satisfiable argument rule that leaves room
    for every declared argument, flags and arguments with valid, pairwise distinct
    names ("help" and "json" are taken) and known kinds, valid and distinct short
    flags; siblings have distinct, non-empty names, and a named leaf has a handler. *)
Theorem validate_exact (c : Command) : Validate quote c = None <-> size c <= MaxCommands /\ tree_ok 0 c.
Proof.
  unfold Validate. pose proof (validateCommand_spec c 0 0) as Hs. split.
  - destruct (validateCommand quote c 0 0) as [e|n] eqn:Hv; [done|]. intros _.
    destruct (proj1 (Hs n) eq_refl) as (-> & Hn & Hok). by split; [lia|].
  - intros [Hn Hok]. by rewrite (proj2 (Hs (0 + size c))) by by split_and!.
Qed.

(** C30 (typed invocations): when [parse] succeeds, the command it selects is reached
    from the root through subcommands, and every flag value fits a flag of its name that
    is declared on the way there: a string, a bool, a 64-bit int, a duration, or a list of
    strings when that flag is repeated. So a flag of the selected command has a value of its
    own type unless a command above declares a flag of that name of another type, which may
    then have supplied the value ([parent_flag_shadows] below: [Validate] does not refuse
    that). Every argument has the type of the argument of that name; every flag of the
    command has a value unless it is optional, has no default and is no bool; and the number
    of positional arguments satisfies the command's rule and [MaxArgs]. *)
Theorem parse_typed cancelled (root : Command) raw i :
  parse quote ParseDuration cancelled root raw = (i, None) ->
  exists fs, reached root (i_command i) fs /\ values_typed fs (i_values i) /\
    (forall f, f ∈ Flags (i_command i) -> same_type_on fs f -> forall v, i_values i !! fl_Name f = Some v -> value_for f v) /\
    (forall f, f ∈ Flags (i_command i) -> is_Some (i_values i !! fl_Name f) \/
       (fl_Required f = false /\ fl_Default f = [] /\ fl_Kind f <> BoolValue)) /\
    (forall n v, i_args i !! n = Some v -> exists a, a ∈ Arguments (i_command i) /\ a_Name a = n /\ argument_for a v) /\
    r_Min (Args (i_command i)) <= len (i_positionals i) /\
    (0 <= r_Max (Args (i_command i)) -> len (i_positionals i) <= r_Max (Args (i_command i))) /\
    len (i_positionals i) <= MaxArgs.
Proof.
  intros H. apply parse_spec in H as (fs & Hr & Ht & Hd & Ha & Hv & Hm). exists fs.
  assert (r_Min (Args (i_command i)) <= len (i_positionals i) /\
    (0 <= r_Max (Args (i_command i)) -> len (i_positionals i) <= r_Max (Args (i_command i)))) as [Hmin Hmax];
    [|split_and!; try done; intros f _ Hf v Hval; by apply (values_typed_own fs (i_values i))].
  revert Hv. unfold validateArgs. destruct (_ && _) eqn:Hz; [intros _; rewrite !andb_true_iff, !Z.eqb_eq in Hz; lia|].
  destruct (_ || _) eqn:Hor; [done|intros _]. rewrite orb_false_iff, andb_false_iff, Z.leb_gt, !Z.ltb_ge in Hor. lia.
Qed.

(** (after "--"): what follows is positional, whatever it looks like. *)
Theorem parse_verbatim (root : Command) raw i :
  Forall (fun t => len t <= MaxArgument) raw -> len raw <= MaxArgs ->
  parse quote ParseDuration (fun _ => false) root (str "--" :: raw) = (i, None) ->
  i_command i = root /\ i_positionals i = raw.
Proof.
  intros Hf Hl. unfold parse. cbn [parse_loop].
  assert (Htok : forall s : @pstate V, ps_stopFlags s = false -> parse_token quote ParseDuration s (str "--") raw =
    (mkPS (ps_command s) (ps_path s) (ps_values s) (ps_positionals s) true (ps_json s) (ps_help s), false, None)).
  { intros s Hs. unfold parse_token. by rewrite Hs. }
  rewrite Htok by done. cbn [ps_command ps_path ps_values ps_positionals ps_json ps_help].
  rewrite parse_loop_verbatim by done. cbn [ps_positionals ps_command app].
  destruct (validateArgs _ _); [done|]. destruct (parse_arguments _ _ _ _ _) as [args [g|]]; [done|].
  destruct (parse_defaults _ _ _ _) as [values g]. by intros [= <- _].
Qed.

Lemma prepare_spec ctx (root : Command) args :
  match prepare quote ParseDuration marshal ctx root args with
  | inl (x, w) =>
      (Validate quote root <> None /\ x_ExitCode x = 2 /\ one_document w) \/
      (Validate quote root = None /\ exists i f, parse quote ParseDuration (cancelled ctx) root args = (i, Some f) /\
         x_ExitCode x = f_ExitCode f /\ usage_like f /\ one_document w) \/
      (Validate quote root = None /\ exists i, parse quote ParseDuration (cancelled ctx) root args = (i, None) /\
         (i_help i = true \/ Handle (i_command i) = None) /\ x_ExitCode x = 0 /\ (length (stdout_of w) <= 1)%nat) \/
      (Validate quote root = None /\ exists i, parse quote ParseDuration (cancelled ctx) root args = (i, None) /\
         i_help i = false /\ Handle (i_command i) <> None /\ (exists s, ctx_Err ctx = Some s /\ x_ExitCode x = error_exit (err s)) /\ one_document w)
  | inr (i, h) =>
      Validate quote root = None /\ parse quote ParseDuration (cancelled ctx) root args = (i, None) /\
      i_help i = false /\ Handle (i_command i) = Some h /\ ctx_Err ctx = None
  end.
Proof.
  unfold prepare. destruct (Validate quote root) as [e|] eqn:Hv.
  { left. split; [done|]. split; [by eapply invalid_exit|apply writeFailure_document]. }
  destruct (parse _ _ _ root args) as [i [f|]] eqn:Hp.
  { right; left. split; [done|]. exists i, f. split_and!; try done; [by eapply parse_usage|apply writeFailure_document]. }
  cbv zeta. set (help := (mkExecution _ _ _, _)).
  assert (Hhelp : x_ExitCode help.1 = 0 /\ (length (stdout_of help.2) <= 1)%nat).
  { split; [done|]. unfold help. cbn [snd]. destruct (i_json i); [apply writeJSON_document|].
    unfold writeBytes. case_bool_decide; cbn; lia. }
  clearbody help. destruct help as [x w]. cbn [fst snd] in Hhelp. destruct_and?.
  destruct (i_help i) eqn:Hh; [right; right; left; split; [done|]; exists i; split_and!; try done; by left|].
  destruct (Handle (i_command i)) as [h|] eqn:Hh'; [|right; right; left; split; [done|]; exists i; split_and!; try done; by right].
  destruct (ctx_Err ctx) as [s|] eqn:Hs; [|done]. right; right; right. split; [done|].
  exists i. rewrite Hh'. split_and!; try done; [|by apply writeFailure_document].
  exists s. split; [done|]. apply normalize_exit.
Qed.

Lemma exits_zero i r n : exits i r n -> n = 0 <-> succeeds i r.
Proof.
  unfold exits, succeeds. destruct (MaxOutput <? _) eqn:Hm; zbool; [intros ->; split; [done|intros [? _]; lia]|].
  destruct (h_ret r) as [|o [e|]].
  - intros ->. split; [done|]. intros (_ & [(? & ? & _)|(? & ? & ? & _)]); done.
  - intros ->. rewrite <- normalize_exit, normalize_zero. split; [intros Hs; split; [done|]; right; by eexists _, _|].
    intros (_ & [(? & [= _ ?] & _)|(? & ? & [= _ <-] & ?)]); done.
  - intros [[Hp ->]|[Hp ->]].
    + split; [intros _; split; [done|]; left; by eexists|done].
    + split; [done|]. intros (_ & [(? & [= <-] & ?)|(? & ? & ? & _)]); done.
Qed.
Lemma handled_exits i (h : @Handler V) stdin x w (r := h (call_of i stdin) (i_positionals i)) :
  (let stderr := bw_writes (mkBW [] MaxOutput false) (h_stderr r) in
   let '(o, handlerErr) := match h_ret r with HPanic => (mkOutput None None false, Some (err ErrInternal)) | HReturn o e => (o, e) end in
   match (if bw_err stderr then Some (err ErrLimit) else handlerErr) with
   | Some e => fail_with marshal i (Some e) e (i_json i) (bw_data stderr)
   | None => finish marshal Fprintln i stderr o
   end) = (x, w) -> exits i r (x_ExitCode x) /\ one_document w.
Proof.
  cbv zeta. pose proof (bw_fits (h_stderr r)) as [_ Hfit]. cbv zeta in Hfit. unfold exits.
  assert (Hfail : forall e reason j b, fail_with marshal i e reason j b = (x, w) -> x_ExitCode x = error_exit reason /\ one_document w).
  { intros e reason j b Hf. pose proof (fail_with_exit i e reason j b) as H1. pose proof (fail_with_document i e reason j b) as H2. by rewrite Hf in H1, H2. }
  destruct (bw_err (bw_writes _ (h_stderr r))) eqn:He.
  { rewrite (proj2 (Z.ltb_lt _ _)) by (destruct (Z.lt_ge_cases MaxOutput (len (concat (map safeText (h_stderr r))))) as [|H]; [done|]; by apply Hfit in H).
    destruct (h_ret r); apply Hfail. }
  rewrite (proj2 (Z.ltb_ge _ _)) by by apply Hfit. destruct (h_ret r) as [|o [e|]]; [apply Hfail..|]. intros Hx.
  destruct (finish_spec i (bw_writes (mkBW [] MaxOutput false) (h_stderr r)) o) as [Hf Hd]. by rewrite Hx in Hf, Hd.
Qed.

End Laws.

(** ** A command *)

(** A tree with one command, [deploy]: a required flag with a short, a repeated one and
    an argument. *)
Definition sample_deploy (h : Handler) : @Command bytes :=
  WithHandler (WithArgument (WithArgs
    (WithFlag (WithFlag (WithFlag (New (str "deploy") (str "send a build"))
       (RequiredValue (WithShort (IntFlag (str "port") []) 112)))
       (StringsFlag (str "tag") []))
       (WithShort (BoolFlag (str "quiet") []) 113))
    (ExactArgs 1)) (mkArgument (str "app") [] StringValue)) h.

Definition sample_handler : @Handler bytes := fun c _ =>
  match Context_Int c (str "port") with
  | inr n => mkHandled [str "sent"] (HReturn (Value (Some (itoa n))) None)
  | inl e => mkHandled [] (HReturn Empty (Some e))
  end.
Definition idle_handler : @Handler bytes := fun _ _ => mkHandled [] (HReturn Empty None).
Definition sample_root (h : Handler) : @Command bytes := Root (str "tools") [sample_deploy h].
Definition sample_marshal (v : @jsonValue bytes) : GoErr + bytes :=
  match v with JResult (Some v) => inr v | _ => inl (mkErr (str "json") [] None) end.
Definition sample_duration (raw : bytes) : bytes + Z := inl raw.
Definition sample_ctx : Ctx := mkCtx (fun _ => false) None.
Definition sample_args : list bytes := map str ["deploy"; "-qp"; "80"; "--tag=a"; "--tag"; "b"; "site"].
Definition sample_invocation : @invocation bytes :=
  mkInvocation (sample_deploy idle_handler)
    (<[str "tag" := VStrings [str "a"; str "b"]]> (<[str "port" := VInt 80]> (<[str "quiet" := VBool true]> ∅)))
    (<[str "app" := VString (str "site")]> ∅) [str "site"] (str "deploy") false false.

Lemma parse_typed_witness :
  parse (fun s => s) sample_duration (fun _ => false) (sample_root idle_handler) sample_args = (sample_invocation, None) /\
  exists fs, reached (sample_root idle_handler) (sample_deploy idle_handler) fs /\ values_typed fs (i_values sample_invocation).
Proof.
  assert (H : parse (fun s => s) sample_duration (fun _ => false) (sample_root idle_handler) sample_args = (sample_invocation, None))
    by (vm_compute; reflexivity).
  split; [exact H|]. destruct (parse_typed (fun s => s) sample_duration (fun _ => false) _ _ _ H) as (fs & Hr & Ht & _).
  exists fs. split; [exact Hr|exact Ht].
Defined.


(** (a failing command that exits with 0): an [*Error] whose exit code was not set is a
    failure with exit code 0, although an [Error] without one exits with 1. *)
Theorem pointer_error_exits_zero :
  f_ExitCode (normalizeFailure (mkErr [] [] (Some (true, mkFailure (str "denied") (str "no") 0 false))) false) = 0 /\
  f_ExitCode (normalizeFailure (mkErr [] [] (Some (false, mkFailure (str "denied") (str "no") 0 false))) false) = 1.
Proof. split; vm_compute; reflexivity. Qed.

(** (a result too large for JSON): the exit code is 1 and [Err] is nil. *)
Theorem json_overflow_no_error (v : bytes) (marshal : @jsonValue bytes -> GoErr + bytes) encoded i stderr :
  i_json i = true -> marshal (JResult (Some v)) = inr encoded -> MaxOutput < len encoded + 1 ->
  let x := (finish marshal (fun v => v) i stderr (Value (Some v))).1 in
  x_ExitCode x = 1 /\ x_Err x = None.
Proof.
  intros Hj Hm Hl. unfold finish. rewrite Hj. cbn [o_empty o_value Value]. rewrite Hm, (proj2 (Z.ltb_lt _ _)) by done.
  by split.
Qed.

(** (a parent's flag shadows its subcommand's): the two declare [--n], as a string and
    as an int; given before the subcommand, the string is what its handler finds, and
    the default of its own flag is not used. *)
Theorem parent_flag_shadows :
  let child : @Command bytes := WithHandler (WithFlag (New (str "run") []) (WithDefault (IntFlag (str "n") []) (str "5"))) idle_handler in
  let root := WithFlag (Root [] [child]) (StringFlag (str "n") []) in
  Validate (fun s => s) root = None /\
  exists i, parse (fun s => s) sample_duration (fun _ => false) root (map str ["--n"; "x"; "run"]) = (i, None) /\
    Name (i_command i) = str "run" /\ i_values i !! str "n" = Some (VString (str "x")).
Proof. split; [vm_compute; reflexivity|]. eexists. split; [vm_compute; reflexivity|]. split; vm_compute; reflexivity. Qed.

(** (a short flag that is no ASCII character): [Validate] accepts it; the group of
    short flags is matched byte by byte, so it is never found. *)
Theorem short_flag_bytes :
  let c : @Command bytes := WithHandler (WithFlag (New (str "run") []) (WithShort (BoolFlag (str "eta") []) 0x3b7)) idle_handler in
  let root := Root [] [c] in
  Validate (fun s => s) root = None /\
  exists i f, parse (fun s => s) sample_duration (fun _ => false) root [str "run"; 45 :: encode_rune 0x3b7] = (i, Some f) /\
    f_Code f = str "unknown_flag".
Proof. split; [vm_compute; reflexivity|]. do 2 eexists. split; vm_compute; reflexivity. Qed.
