(* ===== verification/Ui.v ===== *)
(** * The declarative interface tree and its rendering (sdk/ui)

    Nodes, the layout of containers, text, borders and canvases, and the frame they are
    drawn on.  Sizes and positions are Go ints; the wrap-around is written out wherever
    a node's own numbers (gaps, padding, canvas coordinates, measured sizes) enter the
    arithmetic.

    A frame's rows are windows of one buffer, as in the code: cell [(x, y)] is element
    [y * width + x].  The drawing callback of a canvas is the list of operations it
    performs on its surface, given the surface's size. *)

From S2P Require Import Prelude Utf8 GoStrings.

Module ui.

(** Go int arithmetic. *)
#[local] Notation "a +! b" := (i64 (a + b)) (at level 50, left associativity).
#[local] Notation "a -! b" := (i64 (a - b)) (at level 50, left associativity).
#[local] Notation "a *! b" := (i64 (a * b)) (at level 40, left associativity).

(** ** Styles (node.go) *)

Record Color := mkColor { col_R : Z; col_G : Z; col_B : Z }.
Definition RGB (r g b : Z) : Color := mkColor r g b.

Definition Bold : Z := Z.shiftl 1 0.
Definition Dim : Z := Z.shiftl 1 1.
Definition Underline : Z := Z.shiftl 1 2.

Definition Default : bytes := str "default".
Definition Accent : bytes := str "accent".
Definition Muted : bytes := str "muted".
Definition Error : bytes := str "error".
Definition Success : bytes := str "success".
Definition Selected : bytes := str "selected".

Record Style := mkStyle {
  st_Role : bytes; Foreground : Color; Background : Color; Decorations : Z; HasForeground : bool; HasBackground : bool }.
Definition style0 : Style := mkStyle [] (RGB 0 0 0) (RGB 0 0 0) 0 false false.

Definition Theme := gmap bytes Style.

Definition DefaultTheme : Theme :=
  let fg c d := mkStyle [] c (RGB 0 0 0) d true false in
  <[Default := style0]> (<[Accent := fg (RGB 120 200 255) Bold]> (<[Muted := fg (RGB 140 150 165) Dim]>
  (<[Error := fg (RGB 255 120 120) Bold]> (<[Success := fg (RGB 120 235 150) 0]>
  (<[Selected := mkStyle [] (RGB 255 255 255) (RGB 53 54 75) 0 true true]> ∅))))).

Definition resolveStyle (style : Style) (theme : Theme) : Style :=
  let role := match theme !! st_Role style with
              | Some role => role
              | None => default style0 (theme !! Default)
              end in
  let '(fg, hasFg) := if negb (HasForeground style) && HasForeground role then (Foreground role, true)
                      else (Foreground style, HasForeground style) in
  let '(bg, hasBg) := if negb (HasBackground style) && HasBackground role then (Background role, true)
                      else (Background style, HasBackground style) in
  mkStyle (st_Role style) fg bg (Z.lor (Decorations style) (Decorations role)) hasFg hasBg.

(** ** Nodes *)

Inductive nodeKind := kindContainer | kindText | kindButton | kindCanvas.
#[export] Instance nodeKind_eq_dec : EqDecision nodeKind.
Proof. solve_decision. Defined.
Inductive Direction := ColumnLayout | RowLayout.
#[export] Instance Direction_eq_dec : EqDecision Direction.
Proof. solve_decision. Defined.
Inductive Alignment := Start | Center | End_ | Stretch.
Inductive BorderStyle := NoBorder | Single | Rounded.
#[export] Instance BorderStyle_eq_dec : EqDecision BorderStyle.
Proof. solve_decision. Defined.
Record Padding := mkPadding { Top : Z; Right : Z; Bottom : Z; Left : Z }.
Definition All (size : Z) : Padding := mkPadding size size size size.

(** What a canvas callback does. *)
Inductive canvas_op :=
| DoSet (x y value : Z) (style : Style)
| DoSetText (x y : Z) (text : bytes) (style : Style)
| DoFill (x y width height value : Z) (style : Style).

Section Ui.
(** The events buttons carry. *)
Context {E : Type}.

Record nodeBase := mkBase {
  kind : nodeKind; text : bytes; event : option E; key : bytes; style : Style; direction : Direction;
  fill : bool; gap : Z; align : Alignment; justify : Alignment; padding : Padding; border : BorderStyle;
  draw : option (Z -> Z -> list canvas_op); cv_width : Z; cv_height : Z }.

(** [None] among the children: a nil [Node]. *)
Inductive Node := mkNode { nodeData : nodeBase; children : list (option Node) }.

Definition base0 (k : nodeKind) : nodeBase :=
  mkBase k [] None [] style0 ColumnLayout false 0 Start Start (All 0) NoBorder None 0 0.
Definition set_layout (b : nodeBase) (d : Direction) (f : bool) (g : Z) (a j : Alignment) (p : Padding) (bd : BorderStyle) : nodeBase :=
  mkBase (kind b) (text b) (event b) (key b) (style b) d f g a j p bd (draw b) (cv_width b) (cv_height b).
Definition set_content (b : nodeBase) (t : bytes) (e : option E) (k : bytes) (s : Style) : nodeBase :=
  mkBase (kind b) t e k s (direction b) (fill b) (gap b) (align b) (justify b) (padding b) (border b) (draw b) (cv_width b) (cv_height b).

Definition Column (cs : list (option Node)) : Node :=
  mkNode (set_layout (base0 kindContainer) ColumnLayout false 0 Stretch Start (All 0) NoBorder) cs.
Definition Row (cs : list (option Node)) : Node :=
  mkNode (set_layout (base0 kindContainer) RowLayout false 0 Stretch Start (All 0) NoBorder) cs.
Definition Text (value : bytes) : Node := mkNode (set_content (base0 kindText) value None [] style0) [].
Definition Button (label : bytes) (e : option E) : Node := mkNode (set_content (base0 kindButton) label e [] style0) [].
Definition Canvas (width height : Z) (d : option (Z -> Z -> list canvas_op)) : Node :=
  let width := if width <? 0 then 0 else width in
  let height := if height <? 0 then 0 else height in
  mkNode (mkBase kindCanvas [] None [] style0 ColumnLayout false 0 Start Start (All 0) NoBorder d width height) [].

Definition clampPadding (p : Padding) : Padding :=
  mkPadding (Z.max 0 (Top p)) (Z.max 0 (Right p)) (Z.max 0 (Bottom p)) (Z.max 0 (Left p)).

Definition on_layout (n : Node) (f : nodeBase -> nodeBase) : Node := mkNode (f (nodeData n)) (children n).
Definition Fill (n : Node) := on_layout n (fun b => set_layout b (direction b) true (gap b) (align b) (justify b) (padding b) (border b)).
Definition Gap (n : Node) (size : Z) := on_layout n (fun b => set_layout b (direction b) (fill b) (Z.max 0 size) (align b) (justify b) (padding b) (border b)).
Definition Align (n : Node) (a : Alignment) := on_layout n (fun b => set_layout b (direction b) (fill b) (gap b) a (justify b) (padding b) (border b)).
Definition Justify (n : Node) (j : Alignment) := on_layout n (fun b => set_layout b (direction b) (fill b) (gap b) (align b) j (padding b) (border b)).
Definition WithPadding (n : Node) (p : Padding) := on_layout n (fun b => set_layout b (direction b) (fill b) (gap b) (align b) (justify b) (clampPadding p) (border b)).
Definition Border (n : Node) (bd : BorderStyle) := on_layout n (fun b => set_layout b (direction b) (fill b) (gap b) (align b) (justify b) (padding b) bd).

Definition on_style (n : Node) (f : Style -> Style) : Node :=
  on_layout n (fun b => set_content b (text b) (event b) (key b) (f (style b))).
Definition Role (n : Node) (r : bytes) := on_style n (fun s => mkStyle r (Foreground s) (Background s) (Decorations s) (HasForeground s) (HasBackground s)).
Definition SetForeground (n : Node) (c : Color) := on_style n (fun s => mkStyle (st_Role s) c (Background s) (Decorations s) true (HasBackground s)).
Definition SetBackground (n : Node) (c : Color) := on_style n (fun s => mkStyle (st_Role s) (Foreground s) c (Decorations s) (HasForeground s) true).
Definition Decorate (d : Z) (n : Node) := on_style n (fun s => mkStyle (st_Role s) (Foreground s) (Background s) (Z.lor (Decorations s) d) (HasForeground s) (HasBackground s)).
Definition SetBold : Node -> Node := Decorate Bold.
Definition SetDim : Node -> Node := Decorate Dim.
Definition SetUnderline : Node -> Node := Decorate Underline.
Definition Key (n : Node) (k : bytes) := on_layout n (fun b => set_content b (text b) (event b) k (style b)).

(** ** Frames (render.go) *)

Record Cell := mkCell { c_Rune : Z; c_Style : Style }.
Definition cell0 : Cell := mkCell 0 style0.
Definition blank : Cell := mkCell 32 style0.

Record hitRegion := mkHit { h_x : Z; h_y : Z; h_w : Z; h_h : Z; h_node : Node }.

Record Frame := mkFrame { width : Z; height : Z; root : option Node; cells : list Cell; hits : list hitRegion }.

(** [frame.cells[y][x] = c] *)
Definition set_at (f : Frame) (x y : Z) (c : Cell) : res unit Frame :=
  if (0 <=? x) && (x <? width f) && (0 <=? y) && (y <? height f)
  then let? cs := put (cells f) (y * width f + x) c in Ok (mkFrame (width f) (height f) (root f) cs (hits f))
  else Panic.

Definition add_hit (f : Frame) (h : hitRegion) : Frame :=
  mkFrame (width f) (height f) (root f) (cells f) (hits f ++ [h]).

(** [Frame.Cell] *)
Definition Frame_Cell (f : Frame) (x y : Z) : option Cell :=
  if (y <? 0) || (height f <=? y) || (x <? 0) || (width f <=? x) then None
  else cells f !! Z.to_nat (y * width f + x).

(** [Frame.Text] *)
Definition row_text (row : list Cell) : bytes :=
  concat (map (fun c => encode_rune (if c_Rune c =? 0 then 32 else c_Rune c)) row).
Definition Frame_Text (f : Frame) : bytes :=
  Join 10 (map (fun y => row_text (take (Z.to_nat (width f)) (drop (Z.to_nat (y * width f)) (cells f)))) (seqZ 0 (height f))).

(** ** Text *)

Definition safeRune (v : Z) : bool := (0x20 <=? v) && negb (v =? 0x7f) && negb ((0x80 <=? v) && (v <=? 0x9f)).

(** The lines the loops over the text visit: no line after a final line end. *)
Fixpoint lines (t : bytes) : list bytes :=
  match t with
  | [] => []
  | c :: t' => if c =? 10 then [] :: lines t'
               else match lines t' with
                    | l :: ls => (c :: l) :: ls
                    | [] => [[c]]
                    end
  end.

Definition longestLine (value : bytes) : Z := fold_left (fun r l => Z.max r (len (runes l))) (lines value) 0.

(** The runes of a line, from [offset] on; [row]: the frame row. *)
Fixpoint draw_runes (f : Frame) (x row width_ offset : Z) (rs : list Z) (st : Style) : res unit Frame :=
  match rs with
  | [] => Ok f
  | v :: rs' =>
    if width_ <=? offset then Ok f
    else if (x +! offset <? 0) || (width f <=? x +! offset) then draw_runes f x row width_ (offset + 1) rs' st
    else let v := if safeRune v then v else 0xfffd in
         let? f := set_at f (x +! offset) row (mkCell v st) in
         draw_runes f x row width_ (offset + 1) rs' st
  end.

Fixpoint draw_lines (f : Frame) (x y width_ height_ lineIndex : Z) (ls : list bytes) (st : Style) : res unit Frame :=
  match ls with
  | [] => Ok f
  | l :: ls' =>
    if height_ <=? lineIndex then Ok f
    else if (y +! lineIndex <? 0) || (height f <=? y +! lineIndex) then draw_lines f x y width_ height_ (lineIndex + 1) ls' st
    else let? f := draw_runes f x (y +! lineIndex) width_ 0 (runes l) st in
         draw_lines f x y width_ height_ (lineIndex + 1) ls' st
  end.

Definition drawText (f : Frame) (x y width_ height_ : Z) (t : bytes) (st : Style) : res unit Frame :=
  draw_lines f x y width_ height_ 0 (lines t) st.

(** ** Borders *)

(** [f] on every one of the integers of a list, in order. *)
Fixpoint each (l : list Z) (step : Z -> Frame -> res unit Frame) (f : Frame) : res unit Frame :=
  match l with
  | [] => Ok f
  | i :: l' => let? f := step i f in each l' step f
  end.

Definition drawBorder (f : Frame) (x y width_ height_ : Z) (b : BorderStyle) (st : Style) : res unit Frame :=
  if (width_ <? 2) || (height_ <? 2) then Ok f else
  let '(tl, tr, bl, br) := if bool_decide (b = Rounded) then (0x256d, 0x256e, 0x2570, 0x256f) else (43, 43, 43, 43) in
  let right := x +! width_ -! 1 in
  let bottom := y +! height_ -! 1 in
  let? f := set_at f x y (mkCell tl st) in
  let? f := set_at f right y (mkCell tr st) in
  let? f := set_at f x bottom (mkCell bl st) in
  let? f := set_at f right bottom (mkCell br st) in
  let? f := each (seqZ 1 (width_ - 2)) (fun o f =>
    let? f := set_at f (x +! o) y (mkCell 0x2500 st) in set_at f (x +! o) bottom (mkCell 0x2500 st)) f in
  each (seqZ 1 (height_ - 2)) (fun o f =>
    let? f := set_at f x (y +! o) (mkCell 0x2502 st) in set_at f right (y +! o) (mkCell 0x2502 st)) f.

(** ** Canvases (canvas.go) *)

Record CanvasSurface := mkSurface { s_x : Z; s_y : Z; s_width : Z; s_height : Z }.

Definition Surface_Set (s : CanvasSurface) (f : Frame) (x y value : Z) (st : Style) : res unit (Frame * bool) :=
  if (x <? 0) || (y <? 0) || (s_width s <=? x) || (s_height s <=? y) then Ok (f, false)
  else if negb (safeRune value) then Ok (f, false)
  else let? f := set_at f (s_x s +! x) (s_y s +! y) (mkCell value st) in Ok (f, true).

(** The loop over the runes, with the count. *)
Fixpoint set_runes (s : CanvasSurface) (f : Frame) (x y : Z) (rs : list Z) (st : Style) (count : Z) : res unit (Frame * Z) :=
  match rs with
  | [] => Ok (f, count)
  | v :: rs' =>
    if s_width s <=? x then Ok (f, count)
    else let? ' (f, b) := Surface_Set s f x y v st in
         set_runes s f (x +! 1) y rs' st (if b then count + 1 else count)
  end.

Definition SetText (s : CanvasSurface) (f : Frame) (x y : Z) (t : bytes) (st : Style) : res unit (Frame * Z) :=
  if (y <? 0) || (s_height s <=? y) || (s_width s <=? x) then Ok (f, 0) else
  let values := runes t in
  if x <? 0 then
    if x <=? - len values then Ok (f, 0)
    else let start := Z.min (len values) (i64 (- x)) in
         let? rest := slice_from values start in
         set_runes s f 0 y rest st 0
  else set_runes s f x y values st 0.

Definition SurfaceFill (s : CanvasSurface) (f : Frame) (x y width_ height_ value : Z) (st : Style) : res unit (Frame * Z) :=
  if (width_ <=? 0) || (height_ <=? 0) then Ok (f, 0) else
  let left_ := Z.max 0 x in
  let top := Z.max 0 y in
  let right_ := Z.min (s_width s) (x +! width_) in
  let bottom := Z.min (s_height s) (y +! height_) in
  let row_of (r : Z) (acc : res unit (Frame * Z)) :=
    fold_left (fun acc c =>
      let? ' (f, count) := acc in
      let? ' (f, b) := Surface_Set s f c r value st in
      Ok (f, if b then count + 1 else count)) (seqZ left_ (right_ - left_)) acc in
  fold_left (fun acc r => row_of r acc) (seqZ top (bottom - top)) (Ok (f, 0)).

Definition run_op (s : CanvasSurface) (f : Frame) (o : canvas_op) : res unit Frame :=
  match o with
  | DoSet x y v st => let? ' (f, _) := Surface_Set s f x y v st in Ok f
  | DoSetText x y t st => let? ' (f, _) := SetText s f x y t st in Ok f
  | DoFill x y w h v st => let? ' (f, _) := SurfaceFill s f x y w h v st in Ok f
  end.

Fixpoint run_ops (s : CanvasSurface) (f : Frame) (os : list canvas_op) : res unit Frame :=
  match os with
  | [] => Ok f
  | o :: os' => let? f := run_op s f o in run_ops s f os'
  end.

Definition drawCanvas (f : Frame) (b : nodeBase) (x y width_ height_ : Z) : res unit Frame :=
  let s := mkSurface x y (Z.min width_ (cv_width b)) (Z.min height_ (cv_height b)) in
  match draw b with
  | Some d => run_ops s f (d (s_width s) (s_height s))
  | None => Ok f
  end.

(** ** Layout *)

Definition intrinsicMain (n : Node) (d : Direction) : Z :=
  let b := nodeData n in
  match d with
  | ColumnLayout =>
    match kind b with
    | kindText | kindButton => Z.max 1 (len (List.filter (fun c => c =? 10) (text b)) + 1)
    | kindCanvas => Z.max 1 (cv_height b)
    | kindContainer => 1
    end
  | RowLayout =>
    match kind b with
    | kindText => Z.max 1 (longestLine (text b))
    | kindButton => Z.max 3 (len (text b) + 4)
    | kindCanvas => Z.max 1 (cv_width b)
    | kindContainer => 1
    end
  end.

Definition other (d : Direction) : Direction := match d with ColumnLayout => RowLayout | RowLayout => ColumnLayout end.
Definition intrinsicCross (n : Node) (d : Direction) : Z := intrinsicMain n (other d).

Definition is_fill (n : Node) : bool := fill (nodeData n).

(** The size left for children that fill. *)
Definition remaining_size (cs : list Node) (d : Direction) (start : Z) : Z :=
  fold_left (fun r c => if is_fill c then r else r -! intrinsicMain c d) cs start.

Definition content_size (cs : list Node) (d : Direction) (fillSize gaps : Z) : Z :=
  fold_left (fun t c => let m := intrinsicMain c d in
                        let t := t +! m in if is_fill c then t +! (fillSize -! m) else t) cs gaps.

(** The positions and sizes of the children on the main axis; [index] counts them. *)
Fixpoint place (cs : list Node) (d : Direction) (fillSize mainSize gap_ count index position : Z) : list (Z * Z) :=
  match cs with
  | [] => []
  | c :: cs' =>
    let index := index + 1 in
    let size := if is_fill c
                then if index =? count then Z.max 0 (mainSize -! position) else fillSize
                else intrinsicMain c d in
    let size := Z.min size (Z.max 0 (mainSize -! position)) in
    (position, size) :: place cs' d fillSize mainSize gap_ count index (position +! (size +! gap_))
  end.

Definition main_layout (b : nodeBase) (cs : list Node) (mainSize : Z) : list (Z * Z) :=
  let d := direction b in
  let count := len cs in
  let gaps := Z.max 0 (count - 1) *! gap b in
  let remaining := remaining_size cs d (Z.max 0 (mainSize -! gaps)) in
  let fillCount := len (List.filter is_fill cs) in
  let fillSize := if 0 <? fillCount then Z.quot (Z.max 0 remaining) fillCount else 0 in
  let free := Z.max 0 (mainSize -! content_size cs d fillSize gaps) in
  let position := match justify b with Center => Z.quot free 2 | End_ => free | _ => 0 end in
  place cs d fillSize mainSize (gap b) count 0 position.

(** The position and size on the cross axis. *)
Definition cross_layout (b : nodeBase) (c : Node) (crossLimit : Z) : Z * Z :=
  let crossSize := Z.min (intrinsicCross c (direction b)) crossLimit in
  match align b with
  | Start => (0, crossSize)
  | Stretch => (0, crossLimit)
  | Center => (Z.quot (Z.max 0 (crossLimit - crossSize)) 2, crossSize)
  | End_ => (Z.max 0 (crossLimit - crossSize), crossSize)
  end.

Record Rect := mkRect { r_x : Z; r_y : Z; r_w : Z; r_h : Z }.

Definition child_rect (b : nodeBase) (x y crossLimit : Z) (c : Node) (m : Z * Z) : Rect :=
  let '(position, size) := m in
  let '(crossPosition, crossSize) := cross_layout b c crossLimit in
  match direction b with
  | ColumnLayout => mkRect (x +! crossPosition) (y +! position) crossSize size
  | RowLayout => mkRect (x +! position) (y +! crossPosition) size crossSize
  end.

(** The areas given to the children that are there, in a content area. *)
Definition child_rects (b : nodeBase) (cs : list Node) (x y width_ height_ : Z) : list Rect :=
  let '(mainSize, crossLimit) := match direction b with
                                 | ColumnLayout => (height_, width_)
                                 | RowLayout => (width_, height_)
                                 end in
  zip_with (child_rect b x y crossLimit) cs (main_layout b cs mainSize).

(** ** renderNode *)

Fixpoint renderNode (theme : Theme) (n : Node) (f : Frame) (x y width_ height_ : Z) {struct n} : res unit Frame :=
  if (width_ <=? 0) || (height_ <=? 0) then Ok f else
  let b := nodeData n in
  let st := resolveStyle (style b) theme in
  let f := if bool_decide (kind b = kindButton) then add_hit f (mkHit x y width_ height_ n) else f in
  let? f := if bool_decide (border b = NoBorder) then Ok f else drawBorder f x y width_ height_ (border b) st in
  let '(x, y, width_, height_) := if bool_decide (border b = NoBorder) then (x, y, width_, height_)
                                  else (x + 1, y + 1, width_ - 2, height_ - 2) in
  if (width_ <=? 0) || (height_ <=? 0) then Ok f else
  let p := padding b in
  let x := x +! Left p in
  let y := y +! Top p in
  let width_ := width_ -! (Left p +! Right p) in
  let height_ := height_ -! (Top p +! Bottom p) in
  if (width_ <=? 0) || (height_ <=? 0) then Ok f else
  match kind b with
  | kindText => drawText f x y width_ height_ (text b) st
  | kindButton => drawText f x y width_ height_ (str "[ " ++ text b ++ str " ]") st
  | kindCanvas => drawCanvas f b x y width_ height_
  | kindContainer =>
    (fix render_list (l : list (option Node)) (rs : list Rect) (f : Frame) {struct l} : res unit Frame :=
       match l with
       | [] => Ok f
       | None :: l' => render_list l' rs f
       | Some c :: l' =>
         match rs with
         | [] => Ok f
         | r :: rs' => let? f := renderNode theme c f (r_x r) (r_y r) (r_w r) (r_h r) in render_list l' rs' f
         end
       end) (children n) (child_rects b (omap id (children n)) x y width_ height_) f
  end.

(** ** Renderer (renderer.go) *)

(** The buffer, with its spare capacity. *)
Record Renderer := mkRenderer { rd_cells : list Cell }.
Definition renderer0 : Renderer := mkRenderer [].

Definition RenderWithTheme (r : Renderer) (n : option Node) (w h : Z) (theme : Theme) : res unit (Renderer * Frame) :=
  let w := Z.max 0 w in
  let h := Z.max 0 h in
  let size := w *! h in
  if negb (size =? w * h) then Panic else                  (* an overflow: the rows exceed the buffer *)
  let buf := if len (rd_cells r) <? size then replicate (Z.to_nat size) cell0
             else replicate (Z.to_nat size) cell0 ++ drop (Z.to_nat size) (rd_cells r) in
  let buf := map (fun c => mkCell 32 (c_Style c)) (take (Z.to_nat size) buf) ++ drop (Z.to_nat size) buf in
  let f := mkFrame w h n (take (Z.to_nat size) buf) [] in
  let? f := match n with
            | Some node => if (0 <? w) && (0 <? h) then renderNode theme node f 0 0 w h else Ok f
            | None => Ok f
            end in
  Ok (mkRenderer (cells f ++ drop (Z.to_nat size) buf), f).

Definition Renderer_Render (r : Renderer) (n : option Node) (w h : Z) : res unit (Renderer * Frame) :=
  RenderWithTheme r n w h DefaultTheme.

Definition Render (n : option Node) (w h : Z) : res unit Frame :=
  let? ' (_, f) := Renderer_Render renderer0 n w h in Ok f.

End Ui.
End ui.
