(* ===== verification/UiLaws.v ===== *)
(** * The interface tree: what rendering does

    A render never leaves the frame: every write is in range, a node draws only inside
    the area it is given, siblings get areas that do not overlap, and no cell holds
    a control character (Ui.v). *)

From S2P Require Import Prelude Utf8 GoStrings Ui.
Import ui.

(** ** Arithmetic that does not wrap *)

Ltac unwrap_i64 :=
  repeat match goal with
  | |- context [i64 ?e] =>
    lazymatch e with
    | context [i64 _] => fail
    | _ => rewrite (i64_small e) by (unfold is_i64; lia)
    end
  end.

(** Screens, gaps, paddings and measures of a size that leaves the sums of the layout
    far from the bounds of int. *)
Definition sane (n : Z) : Prop := 0 <= n <= 2 ^ 31.
Definition max_children : Z := 2 ^ 20.

Section Laws.
Context {E : Type}.
Abbreviation Node := (@Node E).
Abbreviation Frame := (@Frame E).
Abbreviation nodeBase := (@nodeBase E).

(** The numbers of an operation are ints, and its text fits in memory. *)
Definition op_ok (o : canvas_op) : Prop :=
  match o with
  | DoSet _ _ _ _ | DoFill _ _ _ _ _ _ => True
  | DoSetText x _ t _ => is_i64 x /\ len (runes t) <= 2 ^ 62
  end.

Definition base_sane (b : nodeBase) : Prop :=
  sane (gap b) /\ sane (Top (padding b)) /\ sane (Right (padding b)) /\ sane (Bottom (padding b)) /\ sane (Left (padding b)) /\
  sane (cv_width b) /\ sane (cv_height b) /\ sane (len (text b) + 4) /\
  (forall d w h, draw b = Some d -> Forall op_ok (d w h)).

Inductive sane_tree : Node -> Prop :=
| sane_intro n : base_sane (nodeData n) -> len (children n) <= max_children ->
    (forall c, Some c ∈ children n -> sane_tree c) -> sane_tree n.

Lemma Node_ind' (P : Node -> Prop) :
  (forall n, (forall c, Some c ∈ children n -> P c) -> P n) -> forall n, P n.
Proof.
  intros H. fix IH 1. intros [b cs].
  assert (Hcs : Forall (fun o => match o with Some c => P c | None => True end) cs).
  { induction cs as [|[c|] cs IHcs]; constructor; [apply IH|exact IHcs|exact I|exact IHcs]. }
  apply H. cbn [children]. intros c Hc. rewrite Forall_forall in Hcs. exact (Hcs (Some c) Hc).
Qed.

(** ** Areas *)

Definition inside (r : Rect) (x y : Z) : Prop := r_x r <= x < r_x r + r_w r /\ r_y r <= y < r_y r + r_h r.
Definition within (r s : Rect) : Prop := forall x y, inside r x y -> inside s x y.
Definition apart (r s : Rect) : Prop := forall x y, inside r x y -> inside s x y -> False.
Definition frame_rect (f : Frame) : Rect := mkRect 0 0 (width f) (height f).
Definition hit_rect (h : @hitRegion E) : Rect := mkRect (h_x h) (h_y h) (h_w h) (h_h h).

Record frame_ok (f : Frame) : Prop := {
  fo_w : sane (width f);
  fo_h : sane (height f);
  fo_cells : len (cells f) = width f * height f }.

(** [f'] is [f] after drawing in [r], with the hit regions [hs] added. *)
Record draws (r : Rect) (hs : list hitRegion) (f f' : Frame) : Prop := {
  dr_w : width f' = width f;
  dr_h : height f' = height f;
  dr_root : root f' = root f;
  dr_len : len (cells f') = len (cells f);
  dr_hits : hits f' = hits f ++ hs;
  dr_out : forall x y, ~ inside r x y -> Frame_Cell f' x y = Frame_Cell f x y;
  dr_safe : Forall (fun c => safeRune (c_Rune c) = true) (cells f) -> Forall (fun c => safeRune (c_Rune c) = true) (cells f') }.

Lemma draws_refl r f : draws r [] f f.
Proof. split; try done. by rewrite app_nil_r. Qed.

Lemma draws_trans r hs1 hs2 f1 f2 f3 : draws r hs1 f1 f2 -> draws r hs2 f2 f3 -> draws r (hs1 ++ hs2) f1 f3.
Proof.
  intros [] []. split; try congruence.
  - by rewrite app_assoc, <- dr_hits0.
  - intros x y Hxy. rewrite dr_out1 by done. by apply dr_out0.
  - auto.
Qed.

Lemma draws_mono r s hs f f' : within r s -> draws r hs f f' -> draws s hs f f'.
Proof. intros Hrs []. split; try done. intros x y Hxy. apply dr_out0. intros Hr. by apply Hxy, Hrs. Qed.

Lemma draws_ok r hs f f' : draws r hs f f' -> frame_ok f -> frame_ok f'.
Proof. intros [] []. split; congruence. Qed.

Lemma draws_frame r hs f f' : draws r hs f f' -> frame_rect f' = frame_rect f.
Proof. intros []. unfold frame_rect. congruence. Qed.

(** A computation that succeeds and draws. *)
Definition paints (r : Rect) (hs : list hitRegion) (f : Frame) (c : res unit Frame) : Prop :=
  exists f', c = Ok f' /\ draws r hs f f'.

Lemma paints_ok r f : paints r [] f (Ok f).
Proof. eexists. split; [done|apply draws_refl]. Qed.

Lemma paints_bind r hs1 hs2 f c k :
  paints r hs1 f c -> (forall f', draws r hs1 f f' -> paints r hs2 f' (k f')) -> paints r (hs1 ++ hs2) f (rbind c k).
Proof.
  intros (f1 & -> & H1) Hk. cbn [rbind]. destruct (Hk f1 H1) as (f2 & -> & H2).
  eexists. split; [done|]. by eapply draws_trans.
Qed.

Lemma paints_mono r s hs f c : within r s -> paints r hs f c -> paints s hs f c.
Proof. intros Hrs (f' & -> & Hd). eexists. split; [done|]. by eapply draws_mono. Qed.

Lemma inside_frame f x y : inside (frame_rect f) x y <-> 0 <= x < width f /\ 0 <= y < height f.
Proof. unfold inside, frame_rect. cbn. lia. Qed.

(** ** One cell *)

Lemma overwrite_insert {A} (l : list A) i v : (i < length l)%nat -> overwrite l i [v] = <[i := v]> l.
Proof. intros Hi. unfold overwrite. cbn. rewrite insert_take_drop by done. by rewrite Nat.add_1_r. Qed.

Lemma cell_pos x y w h : 0 <= x < w -> 0 <= y < h -> 0 <= y * w + x < w * h.
Proof. intros Hx Hy. assert ((y + 1) * w <= h * w) by (apply Z.mul_le_mono_nonneg_r; lia). split; [|lia]. nia. Qed.

Lemma cell_pos_inj x y x' y' w : 0 <= x < w -> 0 <= x' < w -> y * w + x = y' * w + x' -> x = x' /\ y = y'.
Proof.
  intros Hx Hx' Heq. assert (y = y') as ->; [|lia].
  rewrite (Z.div_unique (y * w + x) w y x), (Z.div_unique (y' * w + x') w y' x'); [by rewrite Heq|lia..].
Qed.

Lemma set_at_paints f x y c :
  frame_ok f -> inside (frame_rect f) x y -> safeRune (c_Rune c) = true ->
  paints (mkRect x y 1 1) [] f (set_at f x y c).
Proof.
  intros Hf Hin Hc. destruct Hf as [Hw Hh Hl]. unfold set_at. apply (proj1 (inside_frame f x y)) in Hin.
  pose proof (cell_pos x y (width f) (height f) (proj1 Hin) (proj2 Hin)) as Hb.
  assert (H0 : (0 <=? x) && (x <? width f) && (0 <=? y) && (y <? height f) = true)
    by (rewrite !andb_true_iff, !Z.leb_le, !Z.ltb_lt; lia).
  rewrite H0. unfold put. rewrite (proj2 (Z.leb_le _ _)), (proj2 (Z.ltb_lt _ _)) by lia. cbn [andb rbind].
  assert (Hn : (Z.to_nat (y * width f + x) < length (cells f))%nat) by (unfold len in Hl; lia).
  rewrite overwrite_insert by done.
  eexists. split; [done|]. split; cbn [width height root cells hits]; try done.
  - unfold len. by rewrite length_insert.
  - by rewrite app_nil_r.
  - intros x' y' Hout. unfold Frame_Cell. cbn [width height cells]. des_if; [done|]. zbool.
    apply list_lookup_insert_ne. intros Heq.
    pose proof (cell_pos x' y' (width f) (height f)). destruct (cell_pos_inj x y x' y' (width f)); [lia..|].
    apply Hout. unfold inside. cbn. lia.
  - intros Hs. by apply Forall_insert.
Qed.

(** ** Text, borders and canvases stay in their area *)

(** An area that lies in the frame. *)
Definition placed (f : Frame) (r : Rect) : Prop :=
  frame_ok f /\ 0 <= r_x r /\ 0 <= r_y r /\ 0 <= r_w r /\ 0 <= r_h r /\ r_x r + r_w r <= width f /\ r_y r + r_h r <= height f.

Lemma draws_placed r hs f f' s : draws r hs f f' -> placed f s -> placed f' s.
Proof. intros Hd (Hf & ?). split; [by eapply draws_ok|]. destruct Hd. lia. Qed.

Ltac placed_tac :=
  first [assumption | match goal with H : draws _ _ _ ?g |- placed ?g _ => apply (draws_placed _ _ _ _ _ H); placed_tac end].

Lemma within_sub r s : r_x s <= r_x r -> r_y s <= r_y r -> r_x r + r_w r <= r_x s + r_w s -> r_y r + r_h r <= r_y s + r_h s -> within r s.
Proof. intros ???? x y. unfold inside. lia. Qed.

Lemma set_at_in f r x y c :
  placed f r -> inside r x y -> safeRune (c_Rune c) = true -> paints r [] f (set_at f x y c).
Proof.
  intros (Hf & Hr) Hin Hc. eapply paints_mono; [|apply set_at_paints; [done| |done]].
  - intros x' y'. unfold inside in *. cbn. intros. replace x' with x by lia. by replace y' with y by lia.
  - apply (proj2 (inside_frame f x y)). unfold inside in Hin. lia.
Qed.

(** Steps that add no hits. *)
Lemma paints_seq r f c k :
  paints r [] f c -> (forall f', draws r [] f f' -> paints r [] f' (k f')) -> paints r [] f (rbind c k).
Proof. intros Hc Hk. by apply (paints_bind r [] []). Qed.

Lemma draw_runes_in x row w rs st : forall offset f,
  placed f (mkRect x row w 1) -> 0 <= offset -> paints (mkRect x row w 1) [] f (draw_runes f x row w offset rs st).
Proof.
  induction rs as [|v rs IH]; intros offset f Hp Ho; cbn [draw_runes]; [apply paints_ok|].
  destruct (w <=? offset) eqn:Hw; zbool; [apply paints_ok|].
  pose proof Hp as ([Hfw Hfh Hfl] & Hr). cbn in Hr. unfold sane in *. unwrap_i64.
  destruct (_ || _) eqn:Hout; [apply IH; [done|lia]|]. zbool.
  apply paints_seq.
  - apply set_at_in; [done|unfold inside; cbn; lia|]. cbn. by destruct (safeRune v) eqn:Hv.
  - intros f' Hd. apply IH; [by eapply draws_placed|lia].
Qed.

Lemma draw_lines_in x y w h ls st : forall i f,
  placed f (mkRect x y w h) -> 0 <= i -> paints (mkRect x y w h) [] f (draw_lines f x y w h i ls st).
Proof.
  induction ls as [|l ls IH]; intros i f Hp Hi; cbn [draw_lines]; [apply paints_ok|].
  destruct (h <=? i) eqn:Hh; zbool; [apply paints_ok|].
  pose proof Hp as ([Hfw Hfh Hfl] & Hr). cbn in Hr. unfold sane in *. unwrap_i64.
  destruct (_ || _) eqn:Hout; [apply IH; [done|lia]|]. zbool.
  apply paints_seq.
  - eapply paints_mono; [|apply draw_runes_in; [|lia]].
    + apply within_sub; cbn; lia.
    + split; [done|]. cbn. lia.
  - intros f' Hd. apply IH; [by eapply draws_placed|lia].
Qed.

Lemma each_in r step l : forall f,
  placed f r -> (forall f i, placed f r -> i ∈ l -> paints r [] f (step i f)) -> paints r [] f (each l step f).
Proof.
  induction l as [|i l IH]; intros f Hp Hstep; cbn [each]; [apply paints_ok|].
  apply paints_seq; [apply Hstep; [done|by left]|].
  intros f' Hd. apply IH; [by eapply draws_placed|]. intros g j Hg Hj. apply Hstep; [done|by right].
Qed.

Lemma drawBorder_in x y w h b st f :
  placed f (mkRect x y w h) -> paints (mkRect x y w h) [] f (drawBorder f x y w h b st).
Proof.
  intros Hp. unfold drawBorder. destruct (_ || _) eqn:Hs; [apply paints_ok|]. zbool.
  pose proof Hp as ([Hfw Hfh Hfl] & Hr). cbn in Hr. unfold sane in *.
  assert (Hset : forall f x' y' v, placed f (mkRect x y w h) -> x <= x' < x + w -> y <= y' < y + h -> safeRune v = true ->
    paints (mkRect x y w h) [] f (set_at f x' y' (mkCell v st))).
  { intros g x' y' v Hg Hx Hy Hv. by apply set_at_in. }
  assert (Hcorners : forall tl tr bl br, safeRune tl = true -> safeRune tr = true -> safeRune bl = true -> safeRune br = true ->
    paints (mkRect x y w h) [] f
      (let right := i64 (i64 (x + w) - 1) in let bottom := i64 (i64 (y + h) - 1) in
       let? f := set_at f x y (mkCell tl st) in let? f := set_at f right y (mkCell tr st) in
       let? f := set_at f x bottom (mkCell bl st) in let? f := set_at f right bottom (mkCell br st) in
       let? f := each (seqZ 1 (w - 2)) (fun o f =>
         let? f := set_at f (i64 (x + o)) y (mkCell 0x2500 st) in set_at f (i64 (x + o)) bottom (mkCell 0x2500 st)) f in
       each (seqZ 1 (h - 2)) (fun o f =>
         let? f := set_at f x (i64 (y + o)) (mkCell 0x2502 st) in set_at f right (i64 (y + o)) (mkCell 0x2502 st)) f)).
  { intros tl tr bl br Htl Htr Hbl Hbr. cbv zeta. unwrap_i64.
    do 4 (apply paints_seq; [apply Hset; [placed_tac|lia|lia|done]|intros ? ?]).
    apply paints_seq; [|intros ? ?]; (apply each_in; [placed_tac|]); intros g o Hg Ho; apply elem_of_seqZ in Ho; unwrap_i64;
      (apply paints_seq; [|intros ? ?]; (apply Hset; [placed_tac|lia|lia|done])). }
  case_bool_decide; by apply Hcorners.
Qed.

(** *** Canvases *)

Definition surface_rect (s : CanvasSurface) : Rect := mkRect (s_x s) (s_y s) (s_width s) (s_height s).

(** A computation with a result beside the frame. *)
Definition paints_with {A} (r : Rect) (f : Frame) (c : res unit (Frame * A)) : Prop :=
  exists f' a, c = Ok (f', a) /\ draws r [] f f'.

Lemma paints_with_ok {A} r f (a : A) : paints_with r f (Ok (f, a)).
Proof. do 2 eexists. split; [done|apply draws_refl]. Qed.

Lemma paints_with_bind {A B} r f (c : res unit (Frame * A)) (k : Frame * A -> res unit (Frame * B)) :
  paints_with r f c -> (forall f' a, draws r [] f f' -> paints_with r f' (k (f', a))) -> paints_with r f (rbind c k).
Proof.
  intros (f1 & a & -> & H1) Hk. cbn [rbind]. destruct (Hk f1 a H1) as (f2 & b & -> & H2).
  do 2 eexists. split; [done|]. exact (draws_trans _ [] [] _ _ _ H1 H2).
Qed.

Lemma Surface_Set_in s f x y v st :
  placed f (surface_rect s) -> paints_with (surface_rect s) f (Surface_Set s f x y v st).
Proof.
  intros Hp. unfold Surface_Set. destruct (_ || _ || _ || _) eqn:Hb; [apply paints_with_ok|]. zbool.
  destruct (safeRune v) eqn:Hv; cbn [negb]; [|apply paints_with_ok].
  pose proof Hp as ([Hfw Hfh Hfl] & Hr). cbn in Hr. unfold sane in *. unwrap_i64.
  destruct (set_at_in f (surface_rect s) (s_x s + x) (s_y s + y) (mkCell v st)) as (f' & -> & Hd); [done|unfold inside; cbn; lia|done|].
  do 2 eexists. by split.
Qed.

Lemma set_runes_in s y rs st : forall x count f,
  placed f (surface_rect s) -> 0 <= x -> paints_with (surface_rect s) f (set_runes s f x y rs st count).
Proof.
  induction rs as [|v rs IH]; intros x count f Hp Hx; cbn [set_runes]; [apply paints_with_ok|].
  destruct (s_width s <=? x) eqn:Hw; zbool; [apply paints_with_ok|].
  apply paints_with_bind; [by apply Surface_Set_in|]. intros f' b Hd.
  pose proof Hp as ([Hfw Hfh Hfl] & Hr). cbn in Hr. unfold sane in *. unwrap_i64.
  apply IH; [by eapply draws_placed|lia].
Qed.

Lemma SetText_in s f x y t st :
  placed f (surface_rect s) -> is_i64 x -> len (runes t) <= 2 ^ 62 -> paints_with (surface_rect s) f (SetText s f x y t st).
Proof.
  intros Hp Hx Ht. unfold SetText. destruct (_ || _ || _); [exact (paints_with_ok _ f 0)|].
  destruct (x <? 0) eqn:Hneg; zbool; [|by apply set_runes_in].
  destruct (x <=? - len (runes t)) eqn:Hfar; zbool; [exact (paints_with_ok _ f 0)|].
  rewrite i64_small by (unfold is_i64 in *; lia). rewrite Z.min_r by lia.
  rewrite slice_from_ok by lia. cbn [rbind]. by apply set_runes_in.
Qed.

Lemma paints_with_fold {A B} r f (step : res unit (Frame * B) -> A -> res unit (Frame * B)) :
  (forall a c, paints_with r f c -> paints_with r f (step c a)) ->
  forall l c, paints_with r f c -> paints_with r f (fold_left step l c).
Proof. intros Hs. induction l as [|a l IH]; intros c Hc; [done|]. cbn [fold_left]. by apply IH, Hs. Qed.

Lemma SurfaceFill_in s f x y w h v st :
  placed f (surface_rect s) -> paints_with (surface_rect s) f (SurfaceFill s f x y w h v st).
Proof.
  intros Hp. unfold SurfaceFill. destruct (_ || _); [exact (paints_with_ok _ f 0)|].
  apply paints_with_fold; [|exact (paints_with_ok _ f 0)]. intros row c. apply paints_with_fold. intros col c' Hc.
  apply paints_with_bind; [done|]. intros f' n Hd.
  apply paints_with_bind; [apply Surface_Set_in; placed_tac|]. intros g b _. apply paints_with_ok.
Qed.

Lemma paints_drop {A} r f (c : res unit (Frame * A)) : paints_with r f c -> paints r [] f (let? ' (f, _) := c in Ok f).
Proof. intros (f' & a & -> & Hd). eexists. by split. Qed.

Lemma run_ops_in s os : forall f,
  placed f (surface_rect s) -> Forall op_ok os -> paints (surface_rect s) [] f (run_ops s f os).
Proof.
  induction os as [|o os IH]; intros f Hp Ho; cbn [run_ops]; [apply paints_ok|]. apply Forall_cons in Ho as [Ho Hos].
  apply paints_seq; [|intros f' Hd; apply IH; [placed_tac|done]].
  destruct o; cbn [run_op]; apply paints_drop; [by apply Surface_Set_in|apply SetText_in; [done|apply Ho..]|by apply SurfaceFill_in].
Qed.

Lemma drawCanvas_in f b x y w h :
  base_sane b -> placed f (mkRect x y w h) -> paints (mkRect x y w h) [] f (drawCanvas f b x y w h).
Proof.
  intros (_ & _ & _ & _ & _ & Hcw & Hch & _ & Hd) Hp. unfold drawCanvas. destruct (draw b) as [d|] eqn:Hdr; [|apply paints_ok].
  unfold sane in *. eapply paints_mono; [|apply run_ops_in; [|by apply Hd]].
  - apply within_sub; cbn; lia.
  - destruct Hp as (Hf & Hr). split; [done|]. cbn in *. lia.
Qed.

(** ** Layout *)

Lemma runes_length s : len (runes s) <= len s.
Proof.
  assert (H : forall n s, (length (runes_loop n s) <= n)%nat).
  { induction n as [|n IH]; intros [|b t]; cbn [runes_loop length]; [lia..|].
    destruct (decode_rune (b :: t)) as [r k]. cbn [length]. specialize (IH (drop k (b :: t))). lia. }
  unfold runes, len. specialize (H (length s) s). lia.
Qed.

Lemma lines_length t l : l ∈ lines t -> len l <= len t.
Proof.
  revert l. induction t as [|c t IH]; intros l; cbn [lines]; [by intros ?%not_elem_of_nil|].
  rewrite len_cons. destruct (c =? 10).
  - intros [->|Hl]%elem_of_cons; [len_lia|]. apply IH in Hl. lia.
  - destruct (lines t) as [|k ks].
    + intros ->%list_elem_of_singleton. len_lia.
    + intros [->|Hl]%elem_of_cons.
      * rewrite len_cons. assert (len k <= len t) by (apply IH; left). lia.
      * assert (len l <= len t) by (apply IH; by right). lia.
Qed.

Lemma longestLine_bound t : 0 <= longestLine t <= len t.
Proof.
  unfold longestLine. assert (Hf : Forall (fun l => len (runes l) <= len t) (lines t)).
  { apply Forall_forall. intros l Hl%lines_length. pose proof (runes_length l). lia. }
  assert (Hg : forall r, 0 <= r <= len t -> 0 <= fold_left (fun r l => Z.max r (len (runes l))) (lines t) r <= len t).
  { induction Hf as [|l ls Hl _ IH]; intros r Hr; [done|]. cbn [fold_left]. apply IH. len_pos. lia. }
  apply Hg. len_pos. lia.
Qed.

Lemma intrinsicMain_bound n d : base_sane (nodeData n) -> 1 <= intrinsicMain n d <= 2 ^ 31.
Proof.
  intros (_ & _ & _ & _ & _ & Hw & Hh & Ht & _). unfold sane in *. unfold intrinsicMain.
  pose proof (longestLine_bound (text (nodeData n))).
  assert (len (List.filter (fun c => c =? 10) (text (nodeData n))) <= len (text (nodeData n))).
  { unfold len. pose proof (List.filter_length_le (fun c => c =? 10) (text (nodeData n))). lia. }
  destruct d, (kind (nodeData n)); len_pos; lia.
Qed.

Section Layout.
Context (b : nodeBase) (Hb : base_sane b) (cs : list Node) (Hcs : Forall (fun c => base_sane (nodeData c)) cs).
Context (Hcount : len cs <= max_children).

Lemma remaining_size_bound d l start :
  Forall (fun c => base_sane (nodeData c)) l -> - 2 ^ 60 + 2 ^ 31 * len l <= start <= 2 ^ 60 ->
  start - 2 ^ 31 * len l <= remaining_size l d start <= start.
Proof.
  intros Hl. revert start. unfold remaining_size. induction Hl as [|c l Hc _ IH]; intros start Hs; cbn [fold_left]; [len_lia|].
  rewrite len_cons in *. len_pos. destruct (is_fill c).
  - specialize (IH start). lia.
  - apply (fun H => intrinsicMain_bound c d H) in Hc. unwrap_i64. specialize (IH (start - intrinsicMain c d)). lia.
Qed.

Lemma content_size_bound d fillSize l start :
  Forall (fun c => base_sane (nodeData c)) l -> 0 <= fillSize <= 2 ^ 31 -> - 2 ^ 31 <= start <= 2 ^ 60 - 2 ^ 33 * len l ->
  start <= content_size l d fillSize start <= start + 2 ^ 33 * len l.
Proof.
  intros Hl Hf. revert start. unfold content_size. induction Hl as [|c l Hc _ IH]; intros start Hs; cbn [fold_left]; [len_lia|].
  rewrite len_cons in *. len_pos. apply (fun H => intrinsicMain_bound c d H) in Hc. unwrap_i64. destruct (is_fill c).
  - unwrap_i64. specialize (IH (start + intrinsicMain c d + (fillSize - intrinsicMain c d))). lia.
  - specialize (IH (start + intrinsicMain c d)). lia.
Qed.

(** Positions and sizes in order, [gap] apart, and inside the main size where there
    is something to draw. *)
Fixpoint in_order (mainSize gap_ lo : Z) (l : list (Z * Z)) : Prop :=
  match l with
  | [] => True
  | (p, s) :: l' => lo <= p <= 2 ^ 60 /\ 0 <= s /\ (0 < s -> p + s <= mainSize) /\ in_order mainSize gap_ (p + s + gap_) l'
  end.

Lemma place_in_order d fillSize mainSize count l :
  Forall (fun c => base_sane (nodeData c)) l -> 0 <= fillSize -> sane mainSize ->
  forall index position, 0 <= position <= 2 ^ 60 - 2 ^ 33 * len l ->
    in_order mainSize (gap b) position (place l d fillSize mainSize (gap b) count index position).
Proof.
  intros Hl Hf Hm. assert (Hg : sane (gap b)) by apply Hb. unfold sane in *.
  induction Hl as [|c l Hc _ IH]; intros index position Hp; cbn [place in_order]; [done|].
  rewrite len_cons in *. len_pos. apply (fun H => intrinsicMain_bound c d H) in Hc. unwrap_i64.
  set (size := Z.min _ _).
  assert (Hs : 0 <= size <= Z.max 0 (mainSize - position)) by (subst size; destruct (is_fill c); [destruct (_ =? _)|]; lia).
  split; [lia|]. split; [lia|]. split; [lia|]. unwrap_i64. replace (position + size + gap b) with (position + (size + gap b)) by lia.
  apply IH. lia.
Qed.

Lemma place_length d fillSize mainSize gap_ count (l : list Node) : forall index position,
  length (place l d fillSize mainSize gap_ count index position) = length l.
Proof. induction l as [|c l IH]; intros index position; cbn [place length]; [done|]. by rewrite IH. Qed.

Lemma main_layout_in_order mainSize : sane mainSize -> in_order mainSize (gap b) 0 (main_layout b cs mainSize).
Proof.
  intros Hm. unfold main_layout. assert (Hg : sane (gap b)) by apply Hb. unfold max_children, sane in *. len_pos.
  assert (Hgaps : 0 <= Z.max 0 (len cs - 1) * gap b <= 2 ^ 51) by nia.
  rewrite (i64_small (Z.max 0 (len cs - 1) * gap b)) by (unfold is_i64; lia).
  set (gaps := Z.max 0 (len cs - 1) * gap b) in *. rewrite (i64_small (mainSize - gaps)) by (unfold is_i64; lia).
  set (rem := remaining_size _ _ _).
  assert (Hrem : rem <= 2 ^ 31).
  { subst rem. pose proof (remaining_size_bound (direction b) cs (Z.max 0 (mainSize - gaps)) Hcs). lia. }
  set (fillSize := if 0 <? len (List.filter is_fill cs) then _ else 0).
  assert (Hfs : 0 <= fillSize <= 2 ^ 31).
  { subst fillSize. destruct (0 <? _) eqn:Hfc; zbool; [|lia]. split; [apply Z.quot_pos; lia|].
    transitivity (Z.max 0 rem); [|lia]. apply Z.quot_le_upper_bound; nia. }
  pose proof (content_size_bound (direction b) fillSize cs gaps Hcs Hfs) as Hcontent.
  set (content := content_size _ _ _ _) in *.
  set (free := Z.max 0 (i64 (mainSize - content))).
  assert (Hfree : 0 <= free <= 2 ^ 31) by (subst free; rewrite (i64_small (mainSize - content)) by (unfold is_i64; lia); lia).
  set (position := match justify b with Center => _ | _ => _ end).
  assert (Hpos : 0 <= position <= 2 ^ 31).
  { subst position. destruct (justify b); [lia| |lia|lia]. split; [apply Z.quot_pos; lia|].
    transitivity free; [|lia]. apply Z.quot_le_upper_bound; lia. }
  clearbody position content rem. pose proof (place_in_order (direction b) fillSize mainSize (len cs) cs Hcs) as Hplace.
  specialize (Hplace (proj1 Hfs) Hm 0 position). revert Hplace.
  generalize (place cs (direction b) fillSize mainSize (gap b) (len cs) 0 position). intros l Hl.
  assert (Hin : in_order mainSize (gap b) position l) by (apply Hl; lia). clear -Hin Hpos.
  destruct l as [|[p s] l]; [done|]. cbn [in_order] in *. destruct_and?. split_and!; try done; lia.
Qed.

Lemma cross_layout_in c crossLimit :
  base_sane (nodeData c) -> 0 < crossLimit ->
  let '(p, s) := cross_layout b c crossLimit in 0 <= p /\ 0 <= s /\ p + s <= crossLimit.
Proof.
  intros Hc Hl. unfold cross_layout, intrinsicCross.
  pose proof (intrinsicMain_bound c (other (direction b)) Hc). set (s := Z.min _ _).
  assert (0 <= s <= crossLimit) by lia. destruct (align b); try lia.
  assert (0 <= Z.quot (Z.max 0 (crossLimit - s)) 2 <= crossLimit - s); [|lia].
  split; [apply Z.quot_pos; lia|]. transitivity (Z.max 0 (crossLimit - s)); [apply Z.quot_le_upper_bound; lia|lia].
Qed.

(** An area with something to draw lies in [r]. *)
Definition fits (r s : Rect) : Prop :=
  0 < r_w s -> 0 < r_h s -> r_x r <= r_x s /\ r_y r <= r_y s /\ r_x s + r_w s <= r_x r + r_w r /\ r_y s + r_h s <= r_y r + r_h r.

Lemma child_rects_spec x y w h :
  sane x -> sane y -> sane w -> sane h -> 0 < w -> 0 < h ->
  Forall (fits (mkRect x y w h)) (child_rects b cs x y w h) /\ ForallOrdPairs apart (child_rects b cs x y w h).
Proof.
  intros Hx Hy Hw Hh Hw0 Hh0. unfold child_rects.
  assert (Hg : sane (gap b)) by apply Hb. unfold sane in *.
  set (start r := match direction b with ColumnLayout => r_y r - y | RowLayout => r_x r - x end).
  assert (Hind : forall mainSize crossLimit l k lo, Forall (fun c => base_sane (nodeData c)) k ->
    match direction b with ColumnLayout => mainSize = h /\ crossLimit = w | RowLayout => mainSize = w /\ crossLimit = h end ->
    in_order mainSize (gap b) lo l -> 0 <= lo ->
    let rs := zip_with (child_rect b x y crossLimit) k l in
    Forall (fits (mkRect x y w h)) rs /\ ForallOrdPairs apart rs /\ Forall (fun r => lo <= start r) rs).
  { intros ms cl l. induction l as [|[p s] l IH]; intros k lo Hk Hd Ho Hlo; destruct Hk as [|c k Hc Hk]; cbn [zip_with];
      try (split_and!; solve [constructor]).
    cbn [in_order] in Ho. destruct Ho as (Hp & Hs & Hfit & Ho).
    destruct (IH k (p + s + gap b) Hk Hd Ho) as (IH1 & IH2 & IH3); [lia|]. clear IH.
    set (rs := zip_with _ k l) in *. clearbody rs. set (r := child_rect b x y cl c (p, s)).
    assert (Hr : fits (mkRect x y w h) r /\ lo <= start r /\ forall r', p + s + gap b <= start r' -> apart r r').
    { pose proof (cross_layout_in c cl Hc) as Hcross. unfold start, r, child_rect, fits, apart, inside.
      destruct (cross_layout b c cl) as [cp csz]. assert (0 < cl) by (destruct (direction b); lia). specialize (Hcross ltac:(done)).
      destruct (direction b); destruct Hd as [-> ->]; unwrap_i64; cbn [r_x r_y r_w r_h];
        (split; [intros; lia|split; [lia|intros; lia]]). }
    destruct Hr as (Hr1 & Hr2 & Hr3). clearbody r. cbv zeta. split; [|split]; constructor; try done.
    - eapply Forall_impl; [exact IH3|]. exact Hr3.
    - eapply Forall_impl; [exact IH3|]. cbn. lia. }
  destruct (direction b) eqn:Hdir.
  - destruct (Hind h w (main_layout b cs h) cs 0 Hcs) as (H1 & H2 & _); [done|by apply main_layout_in_order|done|by split].
  - destruct (Hind w h (main_layout b cs w) cs 0 Hcs) as (H1 & H2 & _); [done|by apply main_layout_in_order|done|by split].
Qed.
End Layout.

(** ** renderNode *)

Definition render_list (theme : Theme) : list (option Node) -> list Rect -> Frame -> res unit Frame :=
  fix render_list (l : list (option Node)) (rs : list Rect) (f : Frame) {struct l} : res unit Frame :=
    match l with
    | [] => Ok f
    | None :: l' => render_list l' rs f
    | Some c :: l' =>
      match rs with
      | [] => Ok f
      | r :: rs' => let? f := renderNode theme c f (r_x r) (r_y r) (r_w r) (r_h r) in render_list l' rs' f
      end
    end.

(** What is drawn in the content area. *)
Definition render_content (theme : Theme) (n : Node) (f : Frame) (x y w h : Z) : res unit Frame :=
  let b := nodeData n in
  let st := resolveStyle (style b) theme in
  if (w <=? 0) || (h <=? 0) then Ok f else
  match kind b with
  | kindText => drawText f x y w h (text b) st
  | kindButton => drawText f x y w h (str "[ " ++ text b ++ str " ]") st
  | kindCanvas => drawCanvas f b x y w h
  | kindContainer => render_list theme (children n) (child_rects b (omap id (children n)) x y w h) f
  end.

Definition render_padded (theme : Theme) (n : Node) (f : Frame) (x y w h : Z) : res unit Frame :=
  if (w <=? 0) || (h <=? 0) then Ok f else
  let p := padding (nodeData n) in
  render_content theme n f (i64 (x + Left p)) (i64 (y + Top p)) (i64 (w - i64 (Left p + Right p))) (i64 (h - i64 (Top p + Bottom p))).

Lemma renderNode_eq theme n f x y w h :
  renderNode theme n f x y w h =
    if (w <=? 0) || (h <=? 0) then Ok f else
    let b := nodeData n in
    let f := if bool_decide (kind b = kindButton) then add_hit f (mkHit x y w h n) else f in
    let? f := if bool_decide (border b = NoBorder) then Ok f else drawBorder f x y w h (border b) (resolveStyle (style b) theme) in
    if bool_decide (border b = NoBorder) then render_padded theme n f x y w h
    else render_padded theme n f (x + 1) (y + 1) (w - 2) (h - 2).
Proof.
  destruct n as [b cs]. cbn [renderNode nodeData]. destruct (_ || _); [done|]. cbv zeta.
  assert (Hext : forall (c : res unit Frame) (k1 k2 : Frame -> res unit Frame), (forall f, k1 f = k2 f) -> rbind c k1 = rbind c k2).
  { intros [] k1 k2 Hk; cbn; [apply Hk|done|done]. }
  apply Hext. intros f'. by case_bool_decide.
Qed.

(** A node of the tree. *)
Inductive subnode : Node -> Node -> Prop :=
| sub_refl n : subnode n n
| sub_child n c m : Some c ∈ children n -> subnode m c -> subnode m n.

(** The regions registered for the buttons of [n], drawn in [r]. *)
Definition hits_ok (n : Node) (r : Rect) (hs : list hitRegion) : Prop :=
  Forall (fun h => 0 < h_w h /\ 0 < h_h h /\ fits r (hit_rect h) /\ kind (nodeData (h_node h)) = kindButton /\ subnode (h_node h) n) hs /\
  ForallOrdPairs (fun h k => apart (hit_rect h) (hit_rect k)) hs.

Definition renders (n : Node) (r : Rect) (f : Frame) (c : res unit Frame) : Prop :=
  exists hs, paints r hs f c /\ hits_ok n r hs.

Lemma hits_ok_nil n r : hits_ok n r [].
Proof. split; constructor. Qed.

Lemma renders_ok n r f : renders n r f (Ok f).
Proof. exists []. split; [apply paints_ok|apply hits_ok_nil]. Qed.

Lemma renders_plain n r f c : paints r [] f c -> renders n r f c.
Proof. intros Hp. exists []. split; [done|apply hits_ok_nil]. Qed.

Lemma fits_within r s : 0 < r_w s -> 0 < r_h s -> fits r s -> within s r.
Proof. intros Hw Hh Hf. specialize (Hf Hw Hh). apply within_sub; lia. Qed.

Lemma renders_mono n r s f c : fits s r -> (0 < r_w r /\ 0 < r_h r) -> renders n r f c -> renders n s f c.
Proof.
  intros Hrs [Hw Hh] (hs & Hp & Hf & Hd). exists hs. split; [eapply paints_mono; [by apply fits_within|done]|].
  split; [|done]. eapply Forall_impl; [exact Hf|]. cbn. intros k (? & ? & Hk & ? & ?). split_and!; try done.
  intros ??. specialize (Hk ltac:(done) ltac:(done)). specialize (Hrs Hw Hh). lia.
Qed.

Lemma render_list_renders theme n b x y w h :
  sane x -> sane y -> sane w -> sane h -> 0 < w -> 0 < h ->
  forall l rs f,
  (forall c, Some c ∈ l -> Some c ∈ children n) ->
  (forall c, Some c ∈ l -> forall f r, frame_ok f -> (0 < r_w r -> 0 < r_h r -> placed f r) ->
     renders c r f (renderNode theme c f (r_x r) (r_y r) (r_w r) (r_h r))) ->
  placed f (mkRect x y w h) -> Forall (fits (mkRect x y w h)) rs -> ForallOrdPairs apart rs ->
  b = nodeData n ->
  exists hs, paints (mkRect x y w h) hs f (render_list theme l rs f) /\ hits_ok n (mkRect x y w h) hs /\
    forall r, Forall (apart r) rs -> Forall (fun k => apart r (hit_rect k)) hs.
Proof.
  intros Hx Hy Hw Hh Hw0 Hh0. set (R := mkRect x y w h). induction l as [|[c|] l IH]; intros rs f Hl Hr Hp Hfits Hap Hb.
  { exists []. cbn [render_list]. split; [apply paints_ok|split; [apply hits_ok_nil|intros; constructor]]. }
  2: { cbn [render_list]. apply IH; try done; intros d Hd; [apply Hl|apply Hr]; by right. }
  cbn [render_list]. destruct Hfits as [|r rs Hfit Hfits].
  { exists []. split; [apply paints_ok|split; [apply hits_ok_nil|intros; constructor]]. }
  inversion Hap as [|? ? Hr1 Hap']; subst. pose proof Hp as (Hf & Hpr). cbn in Hpr.
  destruct (Hr c) with (f := f) (r := r) as (hs1 & Hp1 & Hh1 & Ha1); [left|done| |].
  { intros Hrw Hrh. specialize (Hfit Hrw Hrh). split; [done|]. cbn in Hfit. lia. }
  assert (Hin1 : Forall (fun k => within (hit_rect k) r) hs1).
  { eapply Forall_impl; [exact Hh1|]. cbn. intros k (? & ? & Hk & _). by apply fits_within. }
  destruct (bool_decide (0 < r_w r /\ 0 < r_h r)) eqn:Hpos.
  2: { apply bool_decide_eq_false in Hpos. rewrite renderNode_eq.
    assert (Hz : (r_w r <=? 0) || (r_h r <=? 0) = true) by (rewrite orb_true_iff, !Z.leb_le; lia). rewrite Hz. cbn [rbind].
    destruct (IH rs f) as (hs & Hps & Hok & Hout); try done; [intros d Hd; apply Hl; by right|intros d Hd; apply Hr; by right|].
    exists hs. split; [done|split; [done|]]. intros r0 Hr0. apply Forall_cons in Hr0 as [_ Hr0]. by apply Hout. }
  apply bool_decide_eq_true in Hpos as [Hrw Hrh].
  destruct Hp1 as (f1 & Hren & Hd1). rewrite Hren. cbn [rbind].
  assert (Hd1' : draws R hs1 f f1) by (eapply draws_mono; [by apply fits_within|done]).
  destruct (IH rs f1) as (hs2 & (f2 & Hren2 & Hd2) & (Hh2 & Ha2) & Hout2); try done;
    [intros d Hd; apply Hl; by right|intros d Hd; apply Hr; by right|placed_tac|].
  exists (hs1 ++ hs2). split; [|split].
  - exists f2. split; [done|]. by eapply draws_trans.
  - split.
    + apply Forall_app. split; [|done]. eapply Forall_impl; [exact Hh1|]. cbn. intros k (? & ? & Hk & ? & Hsub).
      split_and!; try done; [|eapply sub_child; [apply Hl; left|done]].
      intros _ _. specialize (Hk ltac:(done) ltac:(done)). specialize (Hfit Hrw Hrh). cbn in *. lia.
    + specialize (Hout2 r Hr1). clear -Ha1 Ha2 Hin1 Hout2. induction Ha1 as [|k hs1 Hk _ IH]; [done|]. cbn [app].
      apply Forall_cons in Hin1 as [Hin Hin1]. constructor; [|by apply IH].
      apply Forall_app. split; [done|]. eapply Forall_impl; [exact Hout2|]. cbn. intros j Hj x y H1 H2. by apply (Hj x y); [apply Hin|].
  - intros r0 Hr0. apply Forall_cons in Hr0 as [Hr0 Hr0s]. apply Forall_app. split; [|by apply Hout2].
    eapply Forall_impl; [exact Hin1|]. cbn. intros j Hj x' y' H1 H2. apply (Hr0 x' y'); [done|by apply Hj].
Qed.

Lemma omap_id_elem (l : list (option Node)) c : c ∈ omap id l <-> Some c ∈ l.
Proof. rewrite list_elem_of_omap. split; [|intros Hc; by exists (Some c)]. intros (o & Ho & Heq). cbv in Heq. by subst. Qed.

Lemma render_leaf theme n x y w h f :
  base_sane (nodeData n) -> kind (nodeData n) <> kindContainer ->
  (0 < w -> 0 < h -> placed f (mkRect x y w h)) -> paints (mkRect x y w h) [] f (render_content theme n f x y w h).
Proof.
  intros Hb Hk Hp. unfold render_content. destruct (_ || _) eqn:Hz; [apply paints_ok|]. zbool. specialize (Hp ltac:(lia) ltac:(lia)).
  destruct (kind (nodeData n)); [done|apply draw_lines_in; [done|lia]..|by apply drawCanvas_in].
Qed.

Lemma render_content_renders theme n x y w h f :
  sane_tree n ->
  (forall c, Some c ∈ children n -> forall f r, frame_ok f -> (0 < r_w r -> 0 < r_h r -> placed f r) ->
     renders c r f (renderNode theme c f (r_x r) (r_y r) (r_w r) (r_h r))) ->
  (0 < w -> 0 < h -> placed f (mkRect x y w h)) -> renders n (mkRect x y w h) f (render_content theme n f x y w h).
Proof.
  intros Hn IH Hp. unfold render_content. destruct (_ || _) eqn:Hz; [apply renders_ok|]. zbool. specialize (Hp ltac:(lia) ltac:(lia)).
  inversion Hn as [? Hb Hlen Hcs]; subst. destruct (decide (kind (nodeData n) = kindContainer)) as [Hk|Hk].
  - rewrite Hk. pose proof Hp as ([Hfw Hfh _] & Hr). cbn in Hr. unfold sane in *.
    assert (Hall : Forall (fun c => base_sane (nodeData c)) (omap id (children n))).
    { apply Forall_forall. intros c Hc%omap_id_elem. apply Hcs in Hc. by inversion Hc. }
    assert (Hcount : len (omap id (children n)) <= max_children).
    { etransitivity; [|exact Hlen]. unfold len. apply inj_le. generalize (children n). clear. intros l.
      induction l as [|[c|] l IHl]; cbn; lia. }
    destruct (child_rects_spec (nodeData n) Hb _ Hall Hcount x y w h) as [Hfits Hap]; try (unfold sane; lia).
    destruct (render_list_renders theme n (nodeData n) x y w h) with (l := children n)
      (rs := child_rects (nodeData n) (omap id (children n)) x y w h) (f := f) as (hs & Hps & Hok & _); try done; try (unfold sane; lia).
    by exists hs.
  - pose proof (render_leaf theme n x y w h f Hb Hk) as Hleaf. unfold render_content in Hleaf.
    destruct (_ || _) eqn:Hz in Hleaf; [zbool; rewrite orb_true_iff, !Z.leb_le in Hz; lia|]. by apply renders_plain, Hleaf.
Qed.

(** Inside the padding. *)
Lemma padded_rect n x y w h f :
  base_sane (nodeData n) -> placed f (mkRect x y w h) ->
  let p := padding (nodeData n) in
  let r := mkRect (i64 (x + Left p)) (i64 (y + Top p)) (i64 (w - i64 (Left p + Right p))) (i64 (h - i64 (Top p + Bottom p))) in
  (0 < r_w r -> 0 < r_h r -> placed f r) /\ fits (mkRect x y w h) r.
Proof.
  intros (_ & Ht & Hr & Hb & Hl & _) ([Hfw Hfh Hfl] & Hp). cbn in Hp. unfold sane in *. cbv zeta. unwrap_i64. unfold fits. cbn.
  split; [intros; split; [by split|cbn; lia]|lia].
Qed.

(** Rendering of the children of [n]. *)
Definition children_render (theme : Theme) (n : Node) : Prop :=
  forall c, Some c ∈ children n -> forall f r, frame_ok f -> (0 < r_w r -> 0 < r_h r -> placed f r) ->
    renders c r f (renderNode theme c f (r_x r) (r_y r) (r_w r) (r_h r)).

(** [c] renders [n] in [r], and adds no hits unless [n] is a container. *)
Definition renders_body (n : Node) (r : Rect) (f : Frame) (c : res unit Frame) : Prop :=
  renders n r f c /\ (kind (nodeData n) <> kindContainer -> paints r [] f c).

Lemma renders_body_ok n r f : renders_body n r f (Ok f).
Proof. split; [apply renders_ok|intros; apply paints_ok]. Qed.

Lemma render_padded_renders theme n r f x y w h :
  sane_tree n -> children_render theme n -> placed f r -> fits r (mkRect x y w h) ->
  renders_body n r f (render_padded theme n f x y w h).
Proof.
  intros Hn IH Hg Hfit. inversion Hn as [? Hb Hlen Hcs]; subst.
  unfold render_padded. destruct (_ || _) eqn:Hz'; [apply renders_body_ok|]. zbool.
  specialize (Hfit ltac:(done) ltac:(done)). cbn in Hfit.
  assert (Hg' : placed f (mkRect x y w h)) by (destruct Hg as (? & Hr); split; [done|cbn; lia]).
  destruct (padded_rect n x y w h f Hb Hg') as [Hpl Hpf]. cbv zeta in *.
  set (r2 := mkRect (i64 _) _ _ _) in Hpl, Hpf. set (c := render_content _ _ _ _ _ _ _).
  assert (Hc : c = render_content theme n f (r_x r2) (r_y r2) (r_w r2) (r_h r2)) by done. clearbody r2 c. subst c.
  destruct r2 as [x2 y2 w2 h2]. cbn [r_x r_y r_w r_h] in *.
  destruct (bool_decide (0 < w2 /\ 0 < h2)) eqn:Hpos.
  2: { apply bool_decide_eq_false in Hpos. unfold render_content.
    assert (Hz2 : (w2 <=? 0) || (h2 <=? 0) = true) by (rewrite orb_true_iff, !Z.leb_le; lia). rewrite Hz2. apply renders_body_ok. }
  apply bool_decide_eq_true in Hpos as [Hw2 Hh2]. unfold fits in Hpf. cbn in Hpf. specialize (Hpf Hw2 Hh2).
  assert (Hfits : fits r (mkRect x2 y2 w2 h2)) by (intros _ _; cbn; lia). split.
  - eapply renders_mono; [exact Hfits|by split|]. by apply render_content_renders.
  - intros Hk. eapply (paints_mono (mkRect x2 y2 w2 h2)); [by apply fits_within|]. by apply render_leaf.
Qed.

Lemma render_bordered_renders theme n x y w h f :
  sane_tree n -> children_render theme n -> placed f (mkRect x y w h) ->
  renders_body n (mkRect x y w h) f
    (let? f := if bool_decide (border (nodeData n) = NoBorder) then Ok f
               else drawBorder f x y w h (border (nodeData n)) (resolveStyle (style (nodeData n)) theme) in
     if bool_decide (border (nodeData n) = NoBorder) then render_padded theme n f x y w h
     else render_padded theme n f (x + 1) (y + 1) (w - 2) (h - 2)).
Proof.
  intros Hn IH Hg. case_bool_decide; cbn [rbind].
  - apply render_padded_renders; [done..|intros _ _; cbn; lia].
  - destruct (drawBorder_in x y w h (border (nodeData n)) (resolveStyle (style (nodeData n)) theme) f Hg) as (g & -> & Hd).
    cbn [rbind]. destruct (render_padded_renders theme n (mkRect x y w h) g (x + 1) (y + 1) (w - 2) (h - 2)) as [Hr Hl];
      [done|done|placed_tac|intros _ _; cbn; lia|]. split.
    + destruct Hr as (hs & (g2 & -> & Hd2) & Hok). exists hs. split; [|done]. exists g2. split; [done|]. by apply (draws_trans _ [] hs _ g).
    + intros Hk. destruct (Hl Hk) as (g2 & -> & Hd2). exists g2. split; [done|]. by apply (draws_trans _ [] [] _ g).
Qed.

Lemma renderNode_renders theme n : sane_tree n -> forall f r, frame_ok f -> (0 < r_w r -> 0 < r_h r -> placed f r) ->
  renders n r f (renderNode theme n f (r_x r) (r_y r) (r_w r) (r_h r)).
Proof.
  induction n as [n IH] using Node_ind'. intros Hn f [x y w h] Hf Hp. cbn [r_x r_y r_w r_h] in *. rewrite renderNode_eq.
  destruct (_ || _) eqn:Hz; [apply renders_ok|]. zbool. specialize (Hp ltac:(done) ltac:(done)). cbv zeta.
  assert (IH' : children_render theme n) by (intros c Hc; apply IH; [done|]; inversion Hn; eauto).
  destruct (decide (kind (nodeData n) = kindButton)) as [Hk|Hk].
  2: { rewrite (bool_decide_eq_false_2 _ Hk). by apply render_bordered_renders. }
  rewrite (bool_decide_eq_true_2 _ Hk). set (hit := mkHit x y w h n).
  assert (Hd : draws (mkRect x y w h) [hit] f (add_hit f hit)) by by split.
  destruct (render_bordered_renders theme n x y w h (add_hit f hit)) as [_ Hl]; [done|done|placed_tac|].
  destruct Hl as (f2 & Heq & Hd2); [congruence|]. exists [hit]. split.
  - exists f2. split; [done|]. by apply (draws_trans _ [hit] [] _ (add_hit f hit)).
  - split; [|constructor; constructor]. constructor; [|constructor]. do 2 (split; [done|]). split; [intros _ _; cbn; lia|]. split; [done|apply sub_refl].
Qed.

(** ** Render *)

Lemma fresh_cells (r : @Renderer) size :
  take size (map (fun c => mkCell 32 (c_Style c))
    (take size (if len (rd_cells r) <? Z.of_nat size then replicate size cell0 else replicate size cell0 ++ drop size (rd_cells r))) ++
    drop size (if len (rd_cells r) <? Z.of_nat size then replicate size cell0 else replicate size cell0 ++ drop size (rd_cells r)))
  = replicate size blank.
Proof.
  assert (Htake : take size (if len (rd_cells r) <? Z.of_nat size then replicate size cell0
                             else replicate size cell0 ++ drop size (rd_cells r)) = replicate size cell0).
  { destruct (_ <? _); [rewrite firstn_all2; [done|by rewrite length_replicate]|]. by rewrite take_app_length' by by rewrite length_replicate. }
  rewrite Htake, take_app_length' by by rewrite length_map, length_replicate.
  clear. induction size as [|n IH]; [done|]. cbn. by rewrite IH.
Qed.

(** The frame a render starts from. *)
Definition blank_frame (n : option Node) (w h : Z) : Frame :=
  mkFrame w h n (replicate (Z.to_nat (w * h)) blank) [].

(** What is rendered does not depend on what the renderer rendered before. *)
Lemma RenderWithTheme_frame r n w h theme :
  Z.max 0 w * Z.max 0 h < 2 ^ 63 ->
  let f0 := blank_frame n (Z.max 0 w) (Z.max 0 h) in
  exists rest, RenderWithTheme r n w h theme =
    let? f := match n with
              | Some node => if (0 <? Z.max 0 w) && (0 <? Z.max 0 h) then renderNode theme node f0 0 0 (Z.max 0 w) (Z.max 0 h) else Ok f0
              | None => Ok f0
              end in
    Ok (mkRenderer (cells f ++ rest), f).
Proof.
  intros Hs. cbv zeta. unfold RenderWithTheme. set (W := Z.max 0 w) in *. set (H := Z.max 0 h) in *. cbv zeta.
  assert (0 <= W * H) by (apply Z.mul_nonneg_nonneg; lia).
  rewrite (i64_small (W * H)) by (unfold is_i64; lia). rewrite Z.eqb_refl. cbn [negb].
  pose proof (fresh_cells r (Z.to_nat (W * H))) as Hfresh. rewrite Z2Nat.id in Hfresh by done. rewrite Hfresh.
  eexists. reflexivity.
Qed.

Lemma blank_frame_ok n w h : sane w -> sane h -> frame_ok (blank_frame n w h).
Proof. unfold sane. intros Hw Hh. split; cbn; [done..|]. rewrite len_replicate. nia. Qed.

(** ** Text, cell by cell *)

Lemma set_at_cell f f' x y c x' y' :
  frame_ok f -> set_at f x y c = Ok f' ->
  Frame_Cell f' x' y' = if (x' =? x) && (y' =? y) then Some c else Frame_Cell f x' y'.
Proof.
  intros Hf. unfold set_at. destruct (_ && _ && _ && _) eqn:Hin; [|done]. zbool.
  pose proof (cell_pos x y (width f) (height f)) as Hpos. specialize (Hpos ltac:(lia) ltac:(lia)). destruct Hf as [_ _ Hl].
  unfold put. rewrite (proj2 (Z.leb_le _ _)), (proj2 (Z.ltb_lt _ _)) by lia. cbn [andb rbind]. intros [= <-].
  assert (Hn : (Z.to_nat (y * width f + x) < length (cells f))%nat) by (unfold len in Hl; lia).
  rewrite overwrite_insert by done. unfold Frame_Cell. cbn [width height cells].
  destruct ((x' =? x) && (y' =? y)) eqn:Heq.
  - zbool. subst. assert (Hno : (y <? 0) || (height f <=? y) || (x <? 0) || (width f <=? x) = false)
      by (rewrite !orb_false_iff, !Z.ltb_ge, !Z.leb_gt; lia). rewrite Hno. by apply list_lookup_insert_eq.
  - destruct (_ || _ || _ || _) eqn:Hout; [done|]. zbool. apply list_lookup_insert_ne. intros Hi.
    pose proof (cell_pos x' y' (width f) (height f)) as Hpos'. specialize (Hpos' ltac:(lia) ltac:(lia)).
    destruct (cell_pos_inj x y x' y' (width f)) as [-> ->]; [lia..|]. by rewrite !Z.eqb_refl in Heq.
Qed.

(** What a text cell shows for a rune. *)
Definition shown (v : Z) (st : Style) : Cell := mkCell (if safeRune v then v else 0xfffd) st.

Lemma draw_runes_cells x row w st rs : forall offset f f',
  placed f (mkRect x row w 1) -> 0 <= offset -> draw_runes f x row w offset rs st = Ok f' -> forall j i,
  0 <= j < w -> Frame_Cell f' (x + j) i =
    if i =? row then match (if offset <=? j then rs !! Z.to_nat (j - offset) else None) with
                     | Some v => Some (shown v st)
                     | None => Frame_Cell f (x + j) i
                     end
    else Frame_Cell f (x + j) i.
Proof.
  induction rs as [|v rs IH]; intros offset f f' Hp Ho; cbn [draw_runes].
  { intros [= <-] j i Hj. destruct (i =? row), (offset <=? j); done. }
  destruct (w <=? offset) eqn:Hw; zbool.
  { intros [= <-] j i Hj. rewrite (proj2 (Z.leb_gt offset j)) by lia. by destruct (i =? row). }
  pose proof Hp as (Hf & Hr). cbn in Hr. pose proof (fo_w _ Hf) as Hfw. unfold sane in *. unwrap_i64.
  rewrite (proj2 (Z.ltb_ge (x + offset) 0)), (proj2 (Z.leb_gt (width f) (x + offset))) by lia. cbn [orb].
  destruct (set_at_in f (mkRect x row w 1) (x + offset) row (shown v st)) as (f1 & Hset & Hd1);
    [done|unfold inside; cbn; lia|cbn; by destruct (safeRune v) eqn:?|].
  unfold shown in Hset. rewrite Hset. cbn [rbind]. intros Hrest j i Hj.
  erewrite (IH (offset + 1) f1 f'); [|placed_tac|lia|done|done]. fold (shown v st) in Hset.
  rewrite (set_at_cell _ _ _ _ _ (x + j) i Hf Hset). destruct (i =? row) eqn:Hi; zbool; [|by rewrite andb_false_r].
  destruct (offset + 1 <=? j) eqn:Hj1; zbool.
  - rewrite (proj2 (Z.leb_le offset j)) by lia. replace (Z.to_nat (j - offset)) with (S (Z.to_nat (j - (offset + 1)))) by lia.
    cbn [lookup list_lookup]. rewrite (proj2 (Z.eqb_neq (x + j) (x + offset))) by lia. done.
  - destruct (offset <=? j) eqn:Hj0; zbool.
    + replace j with offset by lia. rewrite Z.sub_diag, Z.eqb_refl. done.
    + rewrite (proj2 (Z.eqb_neq (x + j) (x + offset))) by lia. done.
Qed.

Lemma draw_lines_cells x y w h st ls : forall k f f',
  placed f (mkRect x y w h) -> 0 <= k -> draw_lines f x y w h k ls st = Ok f' -> forall j i,
  0 <= j < w -> 0 <= i < h -> Frame_Cell f' (x + j) (y + i) =
    match (if k <=? i then ls !! Z.to_nat (i - k) else None) ≫= (fun l => runes l !! Z.to_nat j) with
    | Some v => Some (shown v st)
    | None => Frame_Cell f (x + j) (y + i)
    end.
Proof.
  induction ls as [|l ls IH]; intros k f f' Hp Hk; cbn [draw_lines].
  { intros [= <-] j i Hj Hi. by destruct (k <=? i). }
  destruct (h <=? k) eqn:Hh; zbool.
  { intros [= <-] j i Hj Hi. by rewrite (proj2 (Z.leb_gt k i)) by lia. }
  pose proof Hp as (Hf & Hr). cbn in Hr. pose proof (fo_h _ Hf) as Hfh. unfold sane in *. unwrap_i64.
  rewrite (proj2 (Z.ltb_ge (y + k) 0)), (proj2 (Z.leb_gt (height f) (y + k))) by lia. cbn [orb].
  assert (Hrow : placed f (mkRect x (y + k) w 1)) by (split; [done|cbn; lia]).
  destruct (draw_runes_in x (y + k) w (runes l) st 0 f Hrow) as (f1 & Hd & Hd1); [lia|].
  rewrite Hd. cbn [rbind]. intros Hrest j i Hj Hi.
  erewrite (IH (k + 1) f1 f'); [|placed_tac|lia|done|done|done].
  rewrite (draw_runes_cells x (y + k) w st (runes l) 0 f f1 Hrow ltac:(lia) Hd j (y + i) Hj).
  rewrite (proj2 (Z.leb_le 0 j)), Z.sub_0_r by lia. destruct (k + 1 <=? i) eqn:Hi1; zbool.
  - rewrite (proj2 (Z.leb_le k i)) by lia. replace (Z.to_nat (i - k)) with (S (Z.to_nat (i - (k + 1)))) by lia.
    cbn [lookup list_lookup]. by rewrite (proj2 (Z.eqb_neq (y + i) (y + k))) by lia.
  - destruct (k <=? i) eqn:Hi0; zbool.
    + replace i with k by lia. rewrite Z.sub_diag, Z.eqb_refl. done.
    + by rewrite (proj2 (Z.eqb_neq (y + i) (y + k))) by lia.
Qed.

Lemma blank_cell n w h x y : 0 <= x < w -> 0 <= y < h -> Frame_Cell (blank_frame n w h) x y = Some blank.
Proof.
  intros Hx Hy. unfold Frame_Cell, blank_frame. cbn [width height cells].
  assert (Hno : (y <? 0) || (h <=? y) || (x <? 0) || (w <=? x) = false) by (rewrite !orb_false_iff, !Z.ltb_ge, !Z.leb_gt; lia).
  rewrite Hno. apply lookup_replicate_2. pose proof (cell_pos x y w h Hx Hy). lia.
Qed.

(** A render of any renderer is one drawing on the blank frame. *)
Lemma render_draws (n : Node) w h theme :
  sane_tree n -> w <= 2 ^ 31 -> h <= 2 ^ 31 ->
  let f0 := blank_frame (Some n) (Z.max 0 w) (Z.max 0 h) in
  exists f hs, (forall r, exists r', RenderWithTheme r (Some n) w h theme = Ok (r', f)) /\
    frame_ok f0 /\ draws (frame_rect f0) hs f0 f /\ hits_ok n (frame_rect f0) hs.
Proof.
  intros Hn Hw Hh f0. assert (Hf0 : frame_ok f0) by (apply blank_frame_ok; unfold sane; lia).
  assert (Hren : renders n (frame_rect f0) f0 (if (0 <? Z.max 0 w) && (0 <? Z.max 0 h)
                   then renderNode theme n f0 0 0 (Z.max 0 w) (Z.max 0 h) else Ok f0)).
  { destruct (_ && _); [|apply renders_ok]. apply (renderNode_renders theme n Hn f0 (frame_rect f0)); [done|].
    intros _ _. split; [done|]. unfold frame_rect, f0. cbn. lia. }
  destruct Hren as (hs & (f & Hok & Hd) & Hhits). exists f, hs. split; [|done].
  intros r. destruct (RenderWithTheme_frame r (Some n) w h theme) as [rest ->]; [nia|]. fold f0. rewrite Hok. cbn [rbind]. by eexists.
Qed.

(** The regions of a rendered frame. *)
Lemma render_hits (n : Node) w h theme r r' f :
  sane_tree n -> w <= 2 ^ 31 -> h <= 2 ^ 31 -> RenderWithTheme r (Some n) w h theme = Ok (r', f) ->
  root f = Some n /\ hits_ok n (frame_rect f) (hits f).
Proof.
  intros Hn Hw Hh Hren. destruct (render_draws n w h theme Hn Hw Hh) as (g & hs & Hall & _ & Hd & Hhits).
  destruct (Hall r) as [r0 Hr]. rewrite Hr in Hren. injection Hren as _ <-.
  pose proof (draws_frame _ _ _ _ Hd) as Hrect. destruct Hd. split; [done|]. by rewrite dr_hits0, Hrect.
Qed.

(** ** The theorems *)

(** C27 (rendering is safe): whatever tree a guest builds (with gaps, paddings and sizes
    below 2^31) and whatever its canvases draw, rendering it at any size up to 2^31
    never indexes out of range; the frame has the size asked for, no cell holds
    a control character, every region registered for the mouse belongs to a button of
    the tree, is not empty and lies in the frame, no two of them overlap, and the result
    does not depend on what the renderer rendered before. *)
Theorem render_safe (r : Renderer) (n : Node) w h theme :
  sane_tree n -> w <= 2 ^ 31 -> h <= 2 ^ 31 ->
  exists r' f, RenderWithTheme r (Some n) w h theme = Ok (r', f) /\
    width f = Z.max 0 w /\ height f = Z.max 0 h /\ root f = Some n /\ len (cells f) = width f * height f /\
    Forall (fun c => safeRune (c_Rune c) = true) (cells f) /\ hits_ok n (frame_rect f) (hits f) /\
    forall r0, exists r0', RenderWithTheme r0 (Some n) w h theme = Ok (r0', f).
Proof.
  intros Hn Hw Hh. destruct (render_draws n w h theme Hn Hw Hh) as (f & hs & Hall & Hf0 & Hd & Hhits).
  destruct (Hall r) as [r' Hr]. exists r', f. split; [done|].
  destruct (draws_ok _ _ _ _ Hd Hf0) as [_ _ Hlen]. destruct (render_hits n w h theme r r' f Hn Hw Hh Hr) as [Hroot Hhits']. destruct Hd.
  do 4 (split; [done|]). split; [|done]. apply dr_safe0. by apply Forall_replicate.
Qed.

(** (text is shown as it is): in a frame rendered from a text node, the cell in
    column [j] of row [i] shows rune [j] of line [i], in the node's resolved style, with
    the replacement character for a control character; everywhere else the frame is
    blank. *)
Theorem text_exact (r : Renderer) t st w h theme f r' :
  let n : Node := mkNode (set_content (base0 kindText) t None [] st) [] in
  sane (len t + 4) -> 0 <= w <= 2 ^ 31 -> 0 <= h <= 2 ^ 31 -> RenderWithTheme r (Some n) w h theme = Ok (r', f) ->
  forall i j, 0 <= j < w -> 0 <= i < h ->
    Frame_Cell f j i = Some (match lines t !! Z.to_nat i ≫= (fun l => runes l !! Z.to_nat j) with
                             | Some v => shown v (resolveStyle st theme)
                             | None => blank
                             end).
Proof.
  intros n Ht Hw Hh Hren i j Hj Hi. revert Hren.
  destruct (RenderWithTheme_frame r (Some n) w h theme) as [rest ->]; [nia|]. rewrite (Z.max_r 0 w), (Z.max_r 0 h) by lia.
  rewrite (proj2 (Z.ltb_lt 0 w)), (proj2 (Z.ltb_lt 0 h)) by lia. cbn [andb].
  assert (Heq : renderNode theme n (blank_frame (Some n) w h) 0 0 w h =
    (if (w <=? 0) || (h <=? 0) then Ok (blank_frame (Some n) w h)
     else drawText (blank_frame (Some n) w h) 0 0 w h t (resolveStyle st theme))).
  { rewrite renderNode_eq. cbn -[blank_frame Z.mul Z.add Z.sub render_padded]. unfold render_padded, render_content. cbv zeta.
    cbn -[blank_frame i64 drawText Z.mul Z.add Z.sub]. destruct (_ || _) eqn:Hz; [done|]. assert (Hpos : 0 < w /\ 0 < h) by (zbool; lia).
    change (i64 (0 + 0)) with 0. rewrite !Z.sub_0_r, !i64_small by (unfold is_i64; lia). by rewrite Hz. }
  rewrite Heq. destruct (_ || _) eqn:Hz; [rewrite orb_true_iff, !Z.leb_le in Hz; lia|]. unfold drawText.
  destruct (draw_lines _ _ _ _ _ _ _ _) as [f1| |] eqn:Hd; [|done..]. cbn [rbind]. intros [= _ <-].
  assert (Hp : placed (blank_frame (Some n) w h) (mkRect 0 0 w h)).
  { split; [apply blank_frame_ok; unfold sane; lia|]. cbn. lia. }
  pose proof (draw_lines_cells 0 0 w h _ (lines t) 0 _ f1 Hp ltac:(lia) Hd j i Hj Hi) as Hcell. rewrite !Z.add_0_l in Hcell.
  rewrite (proj2 (Z.leb_le 0 i)), Z.sub_0_r, blank_cell in Hcell by lia. rewrite Hcell. by destruct (_ ≫= _).
Qed.
End Laws.

(** ** Examples *)

Definition sample_ui : @Node bytes :=
  WithPadding (Border (Gap (Column [Some (Text (str "Hi" ++ [27])); None;
    Some (Row [Some (Key (Button (str "ok") (Some (str "yes"))) (str "a")); Some (Fill (Key (Button (str "no") None) (str "b")))]);
    Some (Canvas 4 2 (Some (fun w h => [DoFill (-1) (-1) 9 9 46 style0; DoSetText (-2) 0 (str "abcd") style0; DoSet 7 7 88 style0])))]) 1) Single) (All 1).

Lemma sane_node {E} (n : @Node E) :
  base_sane (nodeData n) -> len (children n) <= max_children ->
  Forall (fun o => match o with Some c => sane_tree c | None => True end) (children n) -> sane_tree n.
Proof. intros H1 H2 H3. constructor; [done|done|]. intros c Hc. rewrite Forall_forall in H3. by apply (H3 (Some c)). Qed.

Lemma sample_ui_sane : sane_tree sample_ui.
Proof.
  repeat first [apply sane_node | apply Forall_cons_2 | apply Forall_nil_2 | exact I];
    try (split_and!; try (split; vm_compute; discriminate); try (intros d w h [=]; subst; repeat constructor; vm_compute; discriminate)).
  all: try (vm_compute; discriminate).
Qed.

Lemma render_safe_witness :
  exists r' f, RenderWithTheme renderer0 (Some sample_ui) 16 11 DefaultTheme = Ok (r', f) /\
    Forall (fun c => safeRune (c_Rune c) = true) (cells f) /\ hits_ok sample_ui (frame_rect f) (hits f).
Proof.
  destruct (render_safe renderer0 sample_ui 16 11 DefaultTheme sample_ui_sane) as (r' & f & H1 & _ & _ & _ & _ & H2 & H3 & _);
    [lia|lia|]. exists r', f. split; [exact H1|split; [exact H2|exact H3]].
Defined.

(** Its buttons, side by side; the picture is checked too. *)
Example sample_ui_hits :
  rbind (Render (Some sample_ui) 16 11) (fun f => Ok (map hit_rect (hits f))) = Ok [mkRect 2 4 6 1; mkRect 8 4 6 1].
Proof. vm_compute. reflexivity. Qed.
Example sample_ui_row :
  rbind (Render (Some sample_ui) 16 11) (fun f => Ok (map (fun x => c_Rune <$> Frame_Cell f x 6) (seqZ 0 7)))
    = Ok (map Some [0x2502; 32; 99; 100; 46; 46; 32]).
Proof. vm_compute. reflexivity. Qed.

Lemma text_exact_witness :
  exists r' f, RenderWithTheme renderer0 (Some (@Text bytes (str "Hi" ++ [10; 27]))) 3 2 DefaultTheme = Ok (r', f) /\
    Frame_Cell f 1 0 = Some (shown 105 style0) /\ Frame_Cell f 0 1 = Some (shown 27 style0) /\ Frame_Cell f 1 1 = Some blank.
Proof.
  destruct (RenderWithTheme renderer0 (Some (@Text bytes (str "Hi" ++ [10; 27]))) 3 2 DefaultTheme) as [[r' f]| |] eqn:H;
    [|vm_compute in H; discriminate H..].
  exists r', f. split; [reflexivity|].
  pose proof (text_exact renderer0 (str "Hi" ++ [10; 27]) style0 3 2 DefaultTheme f r') as Ht. cbv zeta in Ht.
  specialize (Ht ltac:(split; vm_compute; discriminate) ltac:(lia) ltac:(lia) H).
  split; [|split]; (rewrite Ht by lia); vm_compute; reflexivity.
Defined.
