(* ===== verification/UiInput.v ===== *)
(** * Input to the interface tree (sdk/ui/input.go)

    Focus, keyboard and mouse routing to buttons. *)

From S2P Require Import Prelude Utf8 GoStrings Ui UiLaws.
Import ui.

Module uiinput.

Definition NoInput : Z := 0.
Definition KeyInputKind : Z := 1.
Definition MouseInputKind : Z := 2.
Definition PasteInputKind : Z := 3.

Definition KeyEnter : Z := -1.
Definition KeyEscape : Z := -2.
Definition KeyTab : Z := -3.
Definition KeySpace : Z := -4.

Record Input := mkInput {
  in_Kind : Z; in_Key : Z; in_Shift : bool; in_Ctrl : bool; in_Alt : bool; in_X : Z; in_Y : Z;
  in_Button : Z; in_Action : Z; in_Text : bytes }.
Definition input0 : Input := mkInput 0 0 false false false 0 0 0 0 [].

(** [*Focus]; [None]: a nil pointer. *)
Definition Focus := option bytes.
Definition NewFocus : Focus := Some [].
Definition Focus_Key (f : Focus) : bytes := default [] f.
Definition SetKey (f : Focus) (k : bytes) : Focus := match f with Some _ => Some k | None => None end.

Section Input.
Context {E : Type}.
Abbreviation Node := (@Node E).

(** The nodes of a tree, parents first. *)
Fixpoint walk (n : Node) : list Node :=
  n :: (fix all (l : list (option Node)) : list Node :=
          match l with
          | [] => []
          | None :: l' => all l'
          | Some c :: l' => walk c ++ all l'
          end) (children n).

Definition is_button (n : Node) : bool := bool_decide (kind (nodeData n) = kindButton).
Definition node_key (n : Node) : bytes := key (nodeData n).

(** [focusable] *)
Definition focusable (root : option Node) : list Node :=
  match root with
  | None => []
  | Some n => List.filter (fun b => is_button b && negb (bool_decide (node_key b = []))) (walk n)
  end.

Definition ReconcileFocus (root : option Node) (focus : Focus) : Focus :=
  match focus with
  | None => None
  | Some k =>
    let buttons := focusable root in
    if negb (bool_decide (k = [])) && existsb (fun b => bool_decide (node_key b = k)) buttons then Some k
    else match buttons with
         | b :: _ => Some (node_key b)
         | [] => Some []
         end
  end.

(** The last region that contains the point. *)
Definition hit_contains (x y : Z) (h : @hitRegion E) : bool :=
  negb ((x <? h_x h) || (y <? h_y h) || (h_x h + h_w h <=? x) || (h_y h + h_h h <=? y)).

(** The focus, and what is returned: the event and whether the input was handled. *)
Definition handleHits (root : option Node) (hits : list hitRegion) (i : Input) (focus : Focus) : Focus * (option E * bool) :=
  match root with
  | None => (focus, (None, false))
  | Some _ =>
    if in_Kind i =? KeyInputKind then
      let buttons := focusable root in
      if in_Key i =? KeyTab then
        match buttons with
        | [] => (focus, (None, false))
        | b0 :: _ =>
          match focus with
          | None => (None, (None, true))
          | Some k =>
            let index := match list_find (fun b => node_key b = k) buttons with Some (j, _) => Z.of_nat j | None => -1 end in
            let next := Z.to_nat (Z.rem (index + 1) (len buttons)) in
            (Some (node_key (default b0 (buttons !! next))), (None, true))
          end
        end
      else
        match focus with
        | None => (None, (None, false))
        | Some k =>
          match list_find (fun b => node_key b = k) buttons with
          | Some (_, b) =>
            if (in_Key i =? KeyEnter) || (in_Key i =? KeySpace) || ((in_Key i =? 32) && (0 <=? in_Key i))
            then (focus, (event (nodeData b), true)) else (focus, (None, false))
          | None => (focus, (None, false))
          end
        end
    else if in_Kind i =? MouseInputKind then
      (* the loop goes on past a region whose button the action does not press *)
      if (in_Button i =? 1) && ((in_Action i =? 1) || (in_Action i =? 2)) then
        match list_find (fun h => hit_contains (in_X i) (in_Y i) h = true) (rev hits) with
        | Some (_, h) => (SetKey focus (node_key (h_node h)), (event (nodeData (h_node h)), true))
        | None => (focus, (None, false))
        end
      else (focus, (None, false))
    else (focus, (None, false))
  end.

Definition HandleFrame (f : @Frame E) (i : Input) (focus : Focus) : Focus * (option E * bool) :=
  handleHits (root f) (hits f) i focus.

(** Regions without a layout, for [Handle]; mouse input is refused there. *)
Definition collectHits (n : option Node) : list hitRegion :=
  match n with
  | None => []
  | Some n => omap (fun b => if is_button b then Some (mkHit 0 0 (Z.max 1 (len (runes (text (nodeData b))) + 4)) 1 b) else None) (walk n)
  end.

Definition Handle (root : option Node) (i : Input) (focus : Focus) : Focus * (option E * bool) :=
  if in_Kind i =? MouseInputKind then (focus, (None, false)) else handleHits root (collectHits root) i focus.

(** [ButtonEvent] *)
Definition ButtonEvent (root : option Node) (label : bytes) : option E * bool :=
  match list_find (fun b => is_button b = true /\ text (nodeData b) = label) (match root with Some n => walk n | None => [] end) with
  | Some (_, b) => (event (nodeData b), true)
  | None => (None, false)
  end.

(** ** The tree *)

Definition walk_list (l : list (option Node)) : list Node := concat (map walk (omap id l)).

Lemma walk_eq n : walk n = n :: walk_list (children n).
Proof.
  destruct n as [b cs]. cbn [walk children]. f_equal. induction cs as [|[c|] cs IH]; [done| |exact IH].
  unfold walk_list. cbn. f_equal. exact IH.
Qed.

(** The nodes visited are the nodes of the tree. *)
Lemma walk_subnode (m n : Node) : m ∈ walk n <-> subnode m n.
Proof.
  revert m. induction n as [n IH] using Node_ind'. intros m. rewrite walk_eq, elem_of_cons. unfold walk_list. split.
  - intros [->|Hm]; [apply sub_refl|]. apply list_elem_of_In, in_concat in Hm as (l & Hl & Hm).
    apply in_map_iff in Hl as (c & <- & Hc). apply list_elem_of_In, omap_id_elem in Hc.
    eapply sub_child; [exact Hc|]. apply (IH c Hc), list_elem_of_In, Hm.
  - intros Hs. inversion Hs as [|? c ? Hc Hm]; subst; [by left|right].
    apply list_elem_of_In, in_concat. exists (walk c). split; [|by apply list_elem_of_In, (IH c Hc)].
    apply in_map_iff. exists c. split; [done|]. by apply list_elem_of_In, omap_id_elem.
Qed.

(** The keyed buttons of a tree. *)
Definition keyed_button (root : option Node) (b : Node) : Prop :=
  match root with
  | None => False
  | Some n => subnode b n /\ kind (nodeData b) = kindButton /\ node_key b <> []
  end.

Lemma focusable_spec root b : b ∈ focusable root <-> keyed_button root b.
Proof.
  unfold focusable, keyed_button. destruct root as [n|]; [|by rewrite elem_of_nil].
  rewrite list_elem_of_In, filter_In, <- list_elem_of_In, walk_subnode. unfold is_button.
  rewrite andb_true_iff, negb_true_iff, bool_decide_eq_true, bool_decide_eq_false. tauto.
Qed.

(** A focus that stands for a button of the tree, if it has one. *)
Definition focus_valid (root : option Node) (k : bytes) : Prop :=
  (exists b, keyed_button root b /\ node_key b = k) \/ (k = [] /\ forall b, ~ keyed_button root b).

Lemma ReconcileFocus_valid root k :
  exists k', ReconcileFocus root (Some k) = Some k' /\ focus_valid root k' /\ (focus_valid root k -> k' = k).
Proof.
  unfold ReconcileFocus, focus_valid. destruct (negb _ && _) eqn:Hk.
  - exists k. split; [done|]. split; [|done]. zbool. left. apply existsb_exists in H0 as (b & Hb & Hk).
    apply bool_decide_eq_true in Hk. exists b. split; [by apply focusable_spec, list_elem_of_In|done].
  - destruct (focusable root) as [|b bs] eqn:Hf.
    + assert (Hno : forall b, ~ keyed_button root b) by (intros b Hb%focusable_spec; rewrite Hf in Hb; by apply elem_of_nil in Hb).
      exists []. split; [done|]. split; [right; done|]. intros [(b & Hb & _)|[-> _]]; [by apply Hno in Hb|done].
    + assert (Hb : keyed_button root b) by (apply focusable_spec; rewrite Hf; left).
      exists (node_key b). split; [done|]. split; [left; by exists b|]. intros [(c & Hc & <-)|[_ Hno]]; [|by apply Hno in Hb].
      exfalso. assert (Hkey : node_key c <> []) by (destruct root; [apply Hc|done]).
      rewrite andb_false_iff, negb_false_iff, bool_decide_eq_true in Hk. destruct Hk as [Hk|Hk]; [done|].
      apply focusable_spec in Hc. rewrite Hf in Hc. rewrite <- not_true_iff_false, existsb_exists in Hk. apply Hk.
      exists c. split; [by apply list_elem_of_In|]. by apply bool_decide_eq_true.
Qed.

(** ** The keyboard *)

Definition key_input (k : Z) : Input := mkInput KeyInputKind k false false false 0 0 0 0 [].

(** With distinct keys a button is found by its key. *)
Lemma find_key (l : list Node) i b :
  NoDup (map node_key l) -> l !! i = Some b -> list_find (fun c => node_key c = node_key b) l = Some (i, b).
Proof.
  intros Hd Hi. apply list_find_Some. split; [done|]. split; [done|]. intros j c Hj Hlt Heq.
  assert (i = j); [|lia]. eapply (NoDup_lookup (map node_key l)); [done|..];
    rewrite list_lookup_fmap; [by rewrite Hi|rewrite Hj; cbn; by rewrite Heq].
Qed.

Lemma tab_step (f : Frame) i b :
  NoDup (map node_key (focusable (root f))) -> focusable (root f) !! i = Some b ->
  exists c, focusable (root f) !! (S i mod length (focusable (root f)))%nat = Some c /\
    HandleFrame f (key_input KeyTab) (Some (node_key b)) = (Some (node_key c), (None, true)).
Proof.
  intros Hd Hi. unfold HandleFrame, handleHits. destruct (root f) as [n|]; [|done].
  change (in_Kind (key_input KeyTab) =? KeyInputKind) with true. change (in_Key (key_input KeyTab) =? KeyTab) with true. cbv iota zeta.
  destruct (focusable (Some n)) as [|b0 bs] eqn:Hf; [done|]. rewrite <- Hf in *.
  rewrite (find_key _ i b Hd Hi). pose proof (lookup_lt_Some _ _ _ Hi) as Hlt.
  assert (Hrem : Z.to_nat (Z.rem (Z.of_nat i + 1) (len (focusable (Some n)))) = (S i mod length (focusable (Some n)))%nat).
  { unfold len. rewrite Z.rem_mod_nonneg by lia. replace (Z.of_nat i + 1) with (Z.of_nat (S i)) by lia.
    rewrite <- Nat2Z.inj_mod. lia. }
  rewrite Hrem. destruct (lookup_lt_is_Some_2 (focusable (Some n)) (S i mod length (focusable (Some n)))%nat) as [c Hc].
  { apply Nat.mod_upper_bound. lia. }
  exists c. split; [done|]. by rewrite Hc.
Qed.

(** (keyboard focus): in a frame whose buttons have distinct keys, pressing Tab [k]
    times from the [i]-th keyed button moves the focus to the one [k] further on,
    in reading order and round the end, without an event; there Enter and Space emit
    exactly that button's event and leave the focus; any other key is left to the
    application; and reconciling the focus with a tree keeps a focus that stands for
    one of its buttons, and otherwise takes its first keyed button. *)
Theorem focus_exact (f : @Frame E) i b k :
  NoDup (map node_key (focusable (root f))) -> focusable (root f) !! i = Some b ->
  exists c, focusable (root f) !! ((i + k) mod length (focusable (root f)))%nat = Some c /\
    Nat.iter k (fun s => (HandleFrame f (key_input KeyTab) s.1)) (Some (node_key b), (None, true)) = (Some (node_key c), (None, true)) /\
    (forall v, v ∈ [KeyEnter; KeySpace; 32] ->
       HandleFrame f (key_input v) (Some (node_key c)) = (Some (node_key c), (event (nodeData c), true))) /\
    (forall v, v ∉ [KeyEnter; KeySpace; 32; KeyTab] ->
       HandleFrame f (key_input v) (Some (node_key c)) = (Some (node_key c), (None, false))) /\
    ReconcileFocus (root f) (Some (node_key c)) = Some (node_key c) /\
    (forall k0, ~ focus_valid (root f) k0 -> ReconcileFocus (root f) (Some k0) = (node_key <$> head (focusable (root f)))).
Proof.
  intros Hd Hi.
  assert (Hiter : exists c, focusable (root f) !! ((i + k) mod length (focusable (root f)))%nat = Some c /\
    Nat.iter k (fun s => (HandleFrame f (key_input KeyTab) s.1)) (Some (node_key b), (None, true)) = (Some (node_key c), (None, true))).
  { pose proof (lookup_lt_Some _ _ _ Hi). induction k as [|k IH].
    - exists b. rewrite Nat.add_0_r, Nat.mod_small by done. done.
    - destruct IH as (c & Hc & IH). destruct (tab_step f _ c Hd Hc) as (d & Hdk & Hstep). exists d. split.
      + rewrite <- Hdk. f_equal. rewrite Nat.add_succ_r. rewrite <- (Nat.Div0.add_mod_idemp_r 1). done.
      + rewrite Nat.iter_succ, IH. exact Hstep. }
  destruct Hiter as (c & Hc & Hiter). exists c. split; [done|]. split; [done|].
  assert (Hkb : keyed_button (root f) c) by (apply focusable_spec, list_elem_of_lookup; by eexists).
  assert (Hkey : forall v, v <> KeyTab -> HandleFrame f (key_input v) (Some (node_key c)) =
    if (v =? KeyEnter) || (v =? KeySpace) || ((v =? 32) && (0 <=? v))
    then (Some (node_key c), (event (nodeData c), true)) else (Some (node_key c), (None, false))).
  { intros v Hv. unfold HandleFrame, handleHits. destruct (root f) as [n|]; [|done].
    change (in_Kind (key_input v) =? KeyInputKind) with true. change (in_Key (key_input v)) with v. cbv iota zeta.
    rewrite (proj2 (Z.eqb_neq v KeyTab)) by done. by rewrite (find_key _ _ c Hd Hc). }
  split_and!.
  - intros v Hv. rewrite Hkey; [|by intros ->; rewrite !elem_of_cons in Hv; destruct Hv as [?|[?|[?|?%elem_of_nil]]]].
    repeat (apply elem_of_cons in Hv as [->|Hv]; [done|]). by apply not_elem_of_nil in Hv.
  - intros v Hv. rewrite !not_elem_of_cons in Hv. destruct Hv as (H1 & H2 & H3 & H4 & _). rewrite Hkey by done.
    by rewrite (proj2 (Z.eqb_neq v KeyEnter)), (proj2 (Z.eqb_neq v KeySpace)), (proj2 (Z.eqb_neq v 32)).
  - destruct (ReconcileFocus_valid (root f) (node_key c)) as (k' & -> & _ & Hk'). f_equal. apply Hk'. left. by exists c.
  - intros k0 Hk0. unfold ReconcileFocus. destruct (negb _ && _) eqn:Hex.
    + exfalso. apply Hk0. left. zbool. apply existsb_exists in H0 as (d & Hdk & Heq). apply bool_decide_eq_true in Heq.
      exists d. split; [by apply focusable_spec, list_elem_of_In|done].
    + destruct (focusable (root f)) as [|d ds]; [|done]. by rewrite lookup_nil in Hi.
Qed.

(** ** The mouse *)

Definition mouse_input (x y button action : Z) : Input := mkInput MouseInputKind 0 false false false x y button action [].

Lemma hit_contains_inside x y (h : @hitRegion E) : hit_contains x y h = true <-> inside (hit_rect h) x y.
Proof.
  unfold hit_contains, inside, hit_rect. cbn. rewrite negb_true_iff, !orb_false_iff, !Z.ltb_ge, !Z.leb_gt. lia.
Qed.

(** (clicks): in a rendered frame a press or release of the left button at a cell is
    handled exactly when the cell lies in the area of a button of the tree: then there is
    one such button only, its event is what is returned, and its key gets the focus.
    Any other mouse input is left to the application. *)
Theorem click_exact (n : Node) (f : @Frame E) x y action k :
  root f = Some n -> hits_ok n (frame_rect f) (hits f) -> (action = 1 \/ action = 2) ->
  let r := HandleFrame f (mouse_input x y 1 action) (Some k) in
  (r.2.2 = true <-> exists h, h ∈ hits f /\ inside (hit_rect h) x y) /\
  (forall h, h ∈ hits f -> inside (hit_rect h) x y ->
     kind (nodeData (h_node h)) = kindButton /\ subnode (h_node h) n /\
     r = (Some (node_key (h_node h)), (event (nodeData (h_node h)), true))) /\
  (r.2.2 = false -> r = (Some k, (None, false))) /\
  (forall b a, ~ (b = 1 /\ (a = 1 \/ a = 2)) -> HandleFrame f (mouse_input x y b a) (Some k) = (Some k, (None, false))).
Proof.
  intros Hroot [Hall Hap] Ha. cbv zeta. unfold HandleFrame. rewrite Hroot. unfold handleHits.
  change (in_Kind (mouse_input x y 1 action) =? KeyInputKind) with false.
  change (in_Kind (mouse_input x y 1 action) =? MouseInputKind) with true. cbn [in_Button in_Action in_X in_Y mouse_input]. cbv iota.
  rewrite Z.eqb_refl. assert (Hact : (action =? 1) || (action =? 2) = true) by (rewrite orb_true_iff, !Z.eqb_eq; done).
  rewrite Hact. cbn [andb].
  assert (Huniq : forall h g, h ∈ hits f -> g ∈ hits f -> inside (hit_rect h) x y -> inside (hit_rect g) x y -> h = g).
  { intros h g Hh Hg Hin Hin'. destruct (ForallOrdPairs_In Hap h g) as [?|[Hd|Hd]]; try (by apply list_elem_of_In); [done|..].
    - exfalso. by apply (Hd x y).
    - exfalso. by apply (Hd x y). }
  split; [|split; [|split]].
  - destruct (list_find _ (rev (hits f))) as [[j h]|] eqn:Hf; cbn [snd].
    + split; [intros _|done]. apply list_find_Some in Hf as (Hj & Hc & _). exists h. split; [|by apply hit_contains_inside].
      apply list_elem_of_In, in_rev, list_elem_of_In, list_elem_of_lookup. by exists j.
    + split; [done|]. intros (h & Hh & Hin). exfalso. rewrite list_find_None, Forall_forall in Hf. apply (Hf h); [|by apply hit_contains_inside].
      apply list_elem_of_In. rewrite <- in_rev. by apply list_elem_of_In.
  - intros h Hh Hin. rewrite Forall_forall in Hall. destruct (Hall h Hh) as (_ & _ & _ & Hk & Hs). split; [done|]. split; [done|].
    destruct (list_find _ (rev (hits f))) as [[j g]|] eqn:Hf.
    + apply list_find_Some in Hf as (Hj & Hc & _). rewrite (Huniq h g); [done|done| |done|by apply hit_contains_inside].
      apply list_elem_of_In, in_rev, list_elem_of_In, list_elem_of_lookup. by exists j.
    + exfalso. rewrite list_find_None, Forall_forall in Hf. apply (Hf h); [|by apply hit_contains_inside].
      apply list_elem_of_In. rewrite <- in_rev. by apply list_elem_of_In.
  - by destruct (list_find _ (rev (hits f))) as [[j g]|].
  - intros b a Hba. change (in_Kind (mouse_input x y b a) =? KeyInputKind) with false.
    change (in_Kind (mouse_input x y b a) =? MouseInputKind) with true. cbn [in_Button in_Action mouse_input]. cbv iota.
    destruct ((b =? 1) && _) eqn:Hc; [|done]. exfalso. apply Hba. rewrite andb_true_iff, orb_true_iff, !Z.eqb_eq in Hc. done.
Qed.
End Input.

(** ** Examples *)

Definition sample_ui_frame : @Frame bytes :=
  match Render (Some sample_ui) 16 11 with Ok f => f | _ => blank_frame None 0 0 end.

Lemma focus_exact_witness :
  exists c, focusable (root sample_ui_frame) !! 1%nat = Some c /\ node_key c = str "b" /\
    Nat.iter 3 (fun s => (HandleFrame sample_ui_frame (key_input KeyTab) s.1)) (Some (str "a"), (None, true)) = (Some (node_key c), (None, true)).
Proof.
  destruct (focusable (root sample_ui_frame) !! 0%nat) as [b|] eqn:Hb; [|vm_compute in Hb; discriminate Hb].
  assert (Hd : NoDup (map node_key (focusable (root sample_ui_frame)))) by (apply (bool_decide_unpack _); vm_compute; exact I).
  assert (Hkey : node_key b = str "a") by (vm_compute in Hb; injection Hb as <-; reflexivity).
  destruct (focus_exact sample_ui_frame 0%nat b 3%nat Hd Hb) as (c & Hc & Hiter & _). exists c. rewrite Hkey in Hiter.
  split; [exact Hc|]. split; [|exact Hiter]. vm_compute in Hc. injection Hc as <-. reflexivity.
Defined.

Lemma click_exact_witness :
  HandleFrame sample_ui_frame (mouse_input 3 4 1 1) (Some []) = (Some (str "a"), (Some (str "yes"), true)) /\
  exists h, h ∈ hits sample_ui_frame /\ inside (hit_rect h) 3 4.
Proof.
  assert (Hren : exists r, RenderWithTheme renderer0 (Some sample_ui) 16 11 DefaultTheme = Ok (r, sample_ui_frame)).
  { unfold sample_ui_frame, Render, Renderer_Render.
    destruct (RenderWithTheme renderer0 (Some sample_ui) 16 11 DefaultTheme) as [[r f]| |] eqn:H; [|vm_compute in H; discriminate H..].
    exists r. reflexivity. }
  destruct Hren as [r Hren]. destruct (render_hits sample_ui 16 11 DefaultTheme renderer0 r sample_ui_frame sample_ui_sane ltac:(lia) ltac:(lia) Hren) as [Hroot Hhits].
  assert (Hev : HandleFrame sample_ui_frame (mouse_input 3 4 1 1) (Some []) = (Some (str "a"), (Some (str "yes"), true)))
    by (vm_compute; reflexivity).
  split; [exact Hev|]. apply (proj1 (click_exact sample_ui sample_ui_frame 3 4 1 [] Hroot Hhits (or_introl eq_refl))).
  rewrite Hev. reflexivity.
Defined.

(** (a click is two activations): the press and the release of one click each return the
    button's event. *)
Theorem click_activates_twice :
  map (fun a => (HandleFrame sample_ui_frame (mouse_input 3 4 1 a) (Some [])).2) [1; 2]
    = [(Some (str "yes"), true); (Some (str "yes"), true)].
Proof. vm_compute. reflexivity. Qed.

(** (a label outside ASCII): the width of a button is measured in bytes, its area
    for [Handle] in runes. *)
Theorem button_width_bytes :
  let b : @Node bytes := Button (encode_rune 0xe9) None in
  intrinsicMain b RowLayout = 6 /\ map h_w (collectHits (Some b)) = [5].
Proof. split; vm_compute; reflexivity. Qed.
End uiinput.
