(* ===== verification/AppRuntime.v ===== *)
(** * The application runtime (sdk/app)

    The event loop of an interactive application: events routed through the interface
    tree, updates of the model, the commands they return, the subscriptions it declares
    and the frame it is rendered to.

    A model is a state with its operations; what a command's operation returns is part
    of the command.  Calls hold the runtime's mutex; what other goroutines do while it is
    released around a command's operation is not modelled. *)

From S2P Require Import Prelude Utf8 GoStrings Keys Ui UiLaws UiInput.
Import ui.

Module app.

(** ** Events (event.go) *)

Definition KeyUp : Z := -1.
Definition KeyDown : Z := -2.
Definition KeyLeft : Z := -3.
Definition KeyRight : Z := -4.
Definition KeyEnter : Z := -5.
Definition KeyEscape : Z := -6.
Definition KeyTab : Z := -7.
Definition KeyBackspace : Z := -8.
Definition KeyDelete : Z := -9.
Definition KeyHome : Z := -10.
Definition KeyEnd : Z := -11.
Definition KeyPageUp : Z := -12.
Definition KeyPageDown : Z := -13.
Definition KeySpace : Z := -14.
Definition KeyCtrlC : Z := -15.

Section App.
(** The application's own events, and the errors its operations return. *)
Context {D Error : Type}.

Inductive Event :=
| KeyEvent (key : Z) (shift ctrl alt cmd : bool)
| MouseEvent (x y button action : Z)
| PasteEvent (text : bytes)
| ResizeEvent (width height : Z)
| MessageEvent (topic data : bytes)
| TimerEvent (id : Z)
| Domain (d : D).

(** An [Event] is an interface value and may be nil. *)
Abbreviation any := (option Event).
Abbreviation Node := (@Node Event).

Definition KeyEvent_Rune (e : Event) : Z := match e with KeyEvent k _ _ _ _ => if 0 <=? k then k else 0 | _ => 0 end.

(** ** Commands (command.go) *)

Inductive AppErr := ErrInvalidModel | ErrRuntimeStopped | ErrEmptyKey | ErrDuplicateKey (k : bytes) | ErrInterval (k : bytes) | ErrTask (e : Error).

(** What an operation returns. *)
Definition outcome := (any * option Error)%type.

Inductive Command := mkCommand { cmd_run : option outcome; cmd_children : list Command; cmd_quit : bool; cmd_goodbye : bytes }.

Definition Noop : Command := mkCommand None [] false [].
Definition Task (run : option outcome) : Command :=
  match run with None => Noop | Some r => mkCommand (Some r) [] false [] end.
Definition Quit (goodbye : bytes) : Command := mkCommand None [] true goodbye.

Definition cmd_empty (c : Command) : bool :=
  match cmd_run c with None => true | Some _ => false end && bool_decide (length (cmd_children c) = 0%nat) && negb (cmd_quit c).

Definition Batch (commands : list Command) : Command :=
  match List.filter (fun c => negb (cmd_empty c)) commands with
  | [] => Noop
  | filtered => mkCommand None filtered false []
  end.

Definition runResult (c : Command) : outcome := default (None, None) (cmd_run c).

(** ** Subscriptions (subscription.go) *)

(** [sub_Start]: there is a start callback. *)
Record SubscriptionSpec := mkSpec {
  sub_Key : bytes; sub_Definition : bytes; sub_Timer : option (Z * any); sub_Start : bool; sub_Filter : option (any -> option any) }.

Definition Every (itoa : Z -> bytes) (key : bytes) (interval : Z) (event : any) : list SubscriptionSpec :=
  [mkSpec key (str "every:" ++ itoa interval) (Some (interval, event)) false None].
Definition Source (key definition : bytes) (start : bool) : list SubscriptionSpec :=
  [mkSpec key definition None start None].
Definition Merge (subscriptions : list (list SubscriptionSpec)) : list SubscriptionSpec := concat subscriptions.

(** ** The model *)

Record Model (M : Type) := mkModel {
  m_Init : option (M -> M * Command);                     (* Initializer *)
  m_Update : M -> any -> M * Command;
  m_View : M -> option Node;
  m_Subscriptions : option (M -> list SubscriptionSpec) }.  (* Subscriber *)
Arguments m_Init {M}.
Arguments m_Update {M}.
Arguments m_View {M}.
Arguments m_Subscriptions {M}.

Context {M : Type} (ops : Model M).

(** ** Runtime (app.go)

    [r_cancel], [r_live]: the source context kept for a key, and the contexts that are
    not cancelled; [r_next] is the next one.  [r_order] gives the order in which a map
    is ranged over. *)
Record Runtime := mkRuntime {
  r_model : option M; r_width : Z; r_height : Z; r_frame : @Frame Event; r_renderer : Renderer; r_focus : bytes;
  r_initialized : bool; r_stopped : bool; r_quit : bool; r_goodbye : bytes; r_lastErr : option AppErr;
  r_queue : list any; r_commands : list Command; r_subs : gmap bytes SubscriptionSpec;
  r_cancel : gmap bytes nat; r_live : gset nat; r_next : nat; r_elapsed : Z; r_realTime : bool }.

Context (order : gmap bytes SubscriptionSpec -> list SubscriptionSpec).

Definition NewRuntime (model : option M) (width_ height_ : Z) : Runtime :=
  let w := if width_ <=? 0 then 80 else width_ in
  let h := if height_ <=? 0 then 24 else height_ in
  mkRuntime model w h (mkFrame 0 0 None [] []) renderer0 [] false false false [] None [] [] ∅ ∅ ∅ 0 0 false.

Definition set_model (r : Runtime) m := mkRuntime (Some m) (r_width r) (r_height r) (r_frame r) (r_renderer r) (r_focus r)
  (r_initialized r) (r_stopped r) (r_quit r) (r_goodbye r) (r_lastErr r) (r_queue r) (r_commands r) (r_subs r) (r_cancel r) (r_live r) (r_next r) (r_elapsed r) (r_realTime r).
Definition set_size (r : Runtime) w h := mkRuntime (r_model r) w h (r_frame r) (r_renderer r) (r_focus r)
  (r_initialized r) (r_stopped r) (r_quit r) (r_goodbye r) (r_lastErr r) (r_queue r) (r_commands r) (r_subs r) (r_cancel r) (r_live r) (r_next r) (r_elapsed r) (r_realTime r).
Definition set_frame (r : Runtime) rd f k := mkRuntime (r_model r) (r_width r) (r_height r) f rd k
  (r_initialized r) (r_stopped r) (r_quit r) (r_goodbye r) (r_lastErr r) (r_queue r) (r_commands r) (r_subs r) (r_cancel r) (r_live r) (r_next r) (r_elapsed r) (r_realTime r).
Definition set_initialized (r : Runtime) := mkRuntime (r_model r) (r_width r) (r_height r) (r_frame r) (r_renderer r) (r_focus r)
  true (r_stopped r) (r_quit r) (r_goodbye r) (r_lastErr r) (r_queue r) (r_commands r) (r_subs r) (r_cancel r) (r_live r) (r_next r) (r_elapsed r) (r_realTime r).
Definition set_end (r : Runtime) stopped quit goodbye lastErr live := mkRuntime (r_model r) (r_width r) (r_height r) (r_frame r) (r_renderer r) (r_focus r)
  (r_initialized r) stopped quit goodbye lastErr (r_queue r) (r_commands r) (r_subs r) (r_cancel r) live (r_next r) (r_elapsed r) (r_realTime r).
Definition set_work (r : Runtime) queue commands := mkRuntime (r_model r) (r_width r) (r_height r) (r_frame r) (r_renderer r) (r_focus r)
  (r_initialized r) (r_stopped r) (r_quit r) (r_goodbye r) (r_lastErr r) queue commands (r_subs r) (r_cancel r) (r_live r) (r_next r) (r_elapsed r) (r_realTime r).
Definition set_subs (r : Runtime) subs cancel live next := mkRuntime (r_model r) (r_width r) (r_height r) (r_frame r) (r_renderer r) (r_focus r)
  (r_initialized r) (r_stopped r) (r_quit r) (r_goodbye r) (r_lastErr r) (r_queue r) (r_commands r) subs cancel live next (r_elapsed r) (r_realTime r).
Definition set_clock (r : Runtime) elapsed realTime := mkRuntime (r_model r) (r_width r) (r_height r) (r_frame r) (r_renderer r) (r_focus r)
  (r_initialized r) (r_stopped r) (r_quit r) (r_goodbye r) (r_lastErr r) (r_queue r) (r_commands r) (r_subs r) (r_cancel r) (r_live r) (r_next r) elapsed realTime.

Definition enableRealTime (r : Runtime) : Runtime := set_clock r (r_elapsed r) true.

(** [stopLocked]: cancelling the lifetime context cancels every source. *)
Definition stopLocked (r : Runtime) : Runtime :=
  if r_stopped r then r else set_end r true (r_quit r) (r_goodbye r) (r_lastErr r) ∅.

Definition failLocked (r : Runtime) (e : AppErr) : Runtime :=
  stopLocked (match r_lastErr r with
              | None => set_end r (r_stopped r) (r_quit r) (r_goodbye r) (Some e) (r_live r)
              | Some _ => r
              end).

(** *** Commands *)

Definition enqueue (r : Runtime) (e : any) : Runtime := set_work r (r_queue r ++ [e]) (r_commands r).
Definition enqueue_event (r : Runtime) (e : any) : Runtime := match e with None => r | Some _ => enqueue r e end.

(** The results of a batch, in the order of its children. *)
Fixpoint batch_results (r : Runtime) (results : list outcome) : Runtime :=
  match results with
  | [] => r
  | (e, err) :: results' =>
    match err with
    | Some x => failLocked r (ErrTask x)
    | None => batch_results (enqueue_event r e) results'
    end
  end.

Definition runCommandLocked (r : Runtime) (c : Command) : Runtime :=
  if cmd_quit c then stopLocked (set_end r (r_stopped r) true (cmd_goodbye c) (r_lastErr r) (r_live r))
  else match cmd_children c with
  | [] => batch_results r [runResult c]
  | children => batch_results r (map runResult children)
  end.

Fixpoint runCommands (cs : list Command) (r : Runtime) : Runtime :=
  match cs with
  | [] => set_work r (r_queue r) []
  | c :: cs' => if r_stopped r then set_work r (r_queue r) cs
                else runCommands cs' (runCommandLocked (set_work r (r_queue r) cs') c)
  end.
Definition runCommandsLocked (r : Runtime) : Runtime := runCommands (r_commands r) r.

(** *** Subscriptions *)

(** The checks of the declared specs. *)
Fixpoint check_specs (specs : list SubscriptionSpec) (declared : gmap bytes SubscriptionSpec) : AppErr + gmap bytes SubscriptionSpec :=
  match specs with
  | [] => inr declared
  | s :: specs' =>
    if bool_decide (sub_Key s = []) then inl ErrEmptyKey
    else if bool_decide (is_Some (declared !! sub_Key s)) then inl (ErrDuplicateKey (sub_Key s))
    else if match sub_Timer s with Some (i, _) => i <=? 0 | None => false end then inl (ErrInterval (sub_Key s))
    else check_specs specs' (<[sub_Key s := s]> declared)
  end.

Definition cancel_key (r : Runtime) (k : bytes) : gset nat :=
  match r_cancel r !! k with Some id => r_live r ∖ {[id]} | None => r_live r end.

(** A key that is no longer declared. *)
Definition drop_key (r : Runtime) (k : bytes) : Runtime :=
  set_subs r (delete k (r_subs r)) (delete k (r_cancel r)) (cancel_key r k) (r_next r).

Definition drop_undeclared (r : Runtime) (declared : gmap bytes SubscriptionSpec) : Runtime :=
  fold_left (fun r s => if bool_decide (is_Some (declared !! sub_Key s)) then r else drop_key r (sub_Key s)) (order (r_subs r)) r.

(** A declared spec: kept, replaced or new; a source starts under a context of its own. *)
Definition declare (r : Runtime) (s : SubscriptionSpec) : Runtime :=
  let k := sub_Key s in
  if match r_subs r !! k with Some previous => bool_decide (sub_Definition previous = sub_Definition s) | None => false end then r
  else
    let r := set_subs r (<[k := s]> (r_subs r)) (r_cancel r) (cancel_key r k) (r_next r) in
    if sub_Start s || (r_realTime r && match sub_Timer s with Some _ => true | None => false end)
    then set_subs r (r_subs r) (<[k := r_next r]> (r_cancel r)) ({[r_next r]} ∪ r_live r) (S (r_next r))
    else r.

Definition reconcileLocked (r : Runtime) : Runtime :=
  if r_stopped r then r else
  let specs := match r_model r, m_Subscriptions ops with
               | Some m, Some subscriptions => subscriptions m
               | _, _ => []
               end in
  match check_specs specs ∅ with
  | inl e => failLocked r e
  | inr declared => fold_left declare specs (drop_undeclared r declared)
  end.

(** *** Rendering and the queue *)

Definition renderLocked (r : Runtime) : res unit Runtime :=
  match r_model r with
  | None => Ok r
  | Some m =>
    match m_View ops m with
    | None => Ok (failLocked r ErrInvalidModel)
    | Some node =>
      let? ' (rd, f) := Renderer_Render (r_renderer r) (Some node) (r_width r) (r_height r) in
      Ok (set_frame r rd f (default [] (uiinput.ReconcileFocus (root f) (Some (r_focus r)))))
    end
  end.

(** One event of the queue. *)
Definition process_event (r : Runtime) (m : M) (e : any) (queue : list any) : res unit Runtime :=
  let '(m, c) := m_Update ops m e in
  let r := set_work (set_model r m) queue (r_commands r ++ [c]) in
  renderLocked (reconcileLocked (runCommandsLocked r)).

(** [processQueueLocked], with the events given to [Update]; [None]: out of fuel. *)
Fixpoint processQueue (fuel : nat) (r : Runtime) : option (res unit (Runtime * list any)) :=
  match r_queue r, r_stopped r, r_model r with
  | e :: queue, false, Some m =>
    match fuel with
    | O => None
    | S fuel' =>
      match process_event r m e queue with
      | Ok r' =>
        match processQueue fuel' r' with
        | Some (Ok (r'', log)) => Some (Ok (r'', e :: log))
        | other => other
        end
      | Err e => Some (Err e)
      | Panic => Some Panic
      end
    end
  | _, _, _ => Some (Ok (r, []))
  end.

(** *** Entry points *)

Definition initLocked (fuel : nat) (r : Runtime) : option (res unit (Runtime * list any)) :=
  if r_initialized r then Some (Ok (r, [])) else
  match r_model r with
  | None => Some (Ok (failLocked r ErrInvalidModel, []))
  | Some m =>
    let r := set_initialized r in
    let r := match m_Init ops with
             | Some init => let '(m, c) := init m in set_work (set_model r m) (r_queue r) (r_commands r ++ [c])
             | None => r
             end in
    match processQueue fuel (runCommandsLocked r) with
    | Some (Ok (r, log)) => Some (let? r := renderLocked (reconcileLocked r) in Ok (r, log))
    | other => other
    end
  end.

Definition Init := initLocked.

Definition toUIInput (e : any) : uiinput.Input :=
  match e with
  | Some (KeyEvent k s c a _) =>
    let key := if k =? KeyEnter then Some uiinput.KeyEnter else if k =? KeyEscape then Some uiinput.KeyEscape
               else if k =? KeyTab then Some uiinput.KeyTab else if k =? KeySpace then Some uiinput.KeySpace
               else if k <? 0 then None else Some k in
    match key with
    | None => uiinput.input0
    | Some key => uiinput.mkInput uiinput.KeyInputKind key s c a 0 0 0 0 []
    end
  | Some (MouseEvent x y b a) => uiinput.mkInput uiinput.MouseInputKind 0 false false false x y (u8 b) (u8 a) []
  | Some (PasteEvent t) => uiinput.mkInput uiinput.PasteInputKind 0 false false false 0 0 0 0 t
  | _ => uiinput.input0
  end.

(** The events the filters make of a message. *)
Definition filtered (r : Runtime) (e : any) : list any :=
  omap (fun s => match sub_Filter s with Some filter => filter e | None => None end) (order (r_subs r)).

(** How an event enters the queue. *)
Definition route (r : Runtime) (e : any) : Runtime :=
  match e with
  | Some (MessageEvent _ _) => set_work r (r_queue r ++ filtered r e) (r_commands r)
  | _ =>
    let '(focus, (semantic, handled)) := uiinput.HandleFrame (r_frame r) (toUIInput e) (Some (r_focus r)) in
    let r := set_frame r (r_renderer r) (r_frame r) (default [] focus) in
    if handled then enqueue_event r semantic else enqueue r e
  end.

Definition resized (r : Runtime) (e : any) : Runtime :=
  match e with
  | Some (ResizeEvent w h) => set_size r (if 0 <? w then w else r_width r) (if 0 <? h then h else r_height r)
  | _ => r
  end.

(** The runtime, the events given to [Update] and the error returned. *)
Definition Dispatch (fuel : nat) (r : Runtime) (e : any) : option (res unit (Runtime * list any * option AppErr)) :=
  match initLocked fuel r with
  | Some (Ok (r0, log0)) =>
    if negb (r_initialized r) && match r_lastErr r0 with Some _ => true | None => false end
    then Some (Ok (r0, log0, r_lastErr r0))
    else if r_stopped r0 then Some (Ok (r0, log0, Some ErrRuntimeStopped))
    else
      match processQueue fuel (route (resized r0 e) e) with
      | Some (Ok (r1, log)) => Some (Ok (r1, log0 ++ log, r_lastErr r1))
      | Some (Err x) => Some (Err x)
      | Some Panic => Some Panic
      | None => None
      end
  | Some (Err x) => Some (Err x)
  | Some Panic => Some Panic
  | None => None
  end.

Definition Stop (r : Runtime) : Runtime := stopLocked r.

(** A source under context [id] emits an event. *)
Definition emit (fuel : nat) (r : Runtime) (id : nat) (e : any) : option (res unit (Runtime * list any)) :=
  if bool_decide (id ∈ r_live r) && negb (r_stopped r) then processQueue fuel (enqueue r e) else Some (Ok (r, [])).

(** [timeState.advance]: the ticks of every timer, in the order of the keys. *)
Definition ticks (before after : Z) (s : SubscriptionSpec) : list any :=
  match sub_Timer s with
  | Some (interval, e) =>
    if interval <=? 0 then []
    else replicate (Z.to_nat (Z.quot after interval - Z.quot before interval)) e
  | None => []
  end.

Definition advance (r : Runtime) (duration : Z) : Runtime :=
  if duration <=? 0 then r else
  let after := i64 (r_elapsed r + duration) in
  let r := set_clock r after (r_realTime r) in
  let specs := omap (fun k => r_subs r !! k) (sort_keys (map sub_Key (order (r_subs r)))) in
  set_work r (r_queue r ++ concat (map (ticks (i64 (after - duration)) after) specs)) (r_commands r).

Definition Advance (fuel : nat) (r : Runtime) (duration : Z) : option (res unit (Runtime * list any * option AppErr)) :=
  if r_stopped r then Some (Ok (r, [], Some ErrRuntimeStopped)) else
  match processQueue fuel (advance r duration) with
  | Some (Ok (r, log)) => Some (Ok (r, log, r_lastErr r))
  | Some (Err x) => Some (Err x)
  | Some Panic => Some Panic
  | None => None
  end.

End App.
End app.
