(* ===== verification/AppLaws.v ===== *)
(** * The application runtime: its laws

    The runtime refines a plain event loop, keeps the frame and the sources in step with
    the model, and delivers every input once (AppRuntime.v). *)

From S2P Require Import Prelude Utf8 GoStrings Keys Ui UiLaws UiInput AppRuntime.
Import ui app.

Section Laws.
Context {D Error M : Type} (ops : @Model D Error M).
Context (order : gmap bytes (@SubscriptionSpec D) -> list (@SubscriptionSpec D)).
Abbreviation any := (option (@Event D)).
Abbreviation Command := (@Command D Error).
Abbreviation Runtime := (@Runtime D Error M).
Abbreviation Spec := (@SubscriptionSpec D).
Abbreviation outcome := (@outcome D Error).

(** ** The plain event loop *)

(** What a command adds to the queue, and whether it ends the session. *)
Fixpoint effect_of (results : list outcome) : list any * bool :=
  match results with
  | [] => ([], false)
  | (e, err) :: results' =>
    match err with
    | Some _ => ([], true)
    | None => let '(es, stop) := effect_of results' in (match e with None => es | Some _ => e :: es end, stop)
    end
  end.

Definition effect (c : Command) : list any * bool :=
  if cmd_quit c then ([], true)
  else effect_of (match cmd_children c with [] => [runResult c] | children => map runResult children end).

(** The model after the events of a queue, the events it was given, those left, and
    whether the session ended. *)
Fixpoint loop (fuel : nat) (m : M) (queue : list any) : option (M * list any * list any * bool) :=
  match queue with
  | [] => Some (m, [], [], false)
  | e :: queue =>
    match fuel with
    | O => None
    | S fuel' =>
      let '(m, c) := m_Update _ ops m e in
      let '(es, stop) := effect c in
      if stop then Some (m, [e], queue ++ es, true)
      else match loop fuel' m (queue ++ es) with
           | Some (m, log, left_, b) => Some (m, e :: log, left_, b)
           | None => None
           end
    end
  end.

(** ** What a step leaves alone *)

(** Everything but the work, the ending and the subscriptions. *)
Definition keeps (r r' : Runtime) : Prop :=
  r_model r' = r_model r /\ r_width r' = r_width r /\ r_height r' = r_height r /\ r_frame r' = r_frame r /\
  r_renderer r' = r_renderer r /\ r_focus r' = r_focus r /\ r_initialized r' = r_initialized r /\
  r_elapsed r' = r_elapsed r /\ r_realTime r' = r_realTime r.

#[local] Instance keeps_preorder : PreOrder keeps.
Proof. split; [by intros r|]. intros r1 r2 r3. unfold keeps. intuition congruence. Qed.

(** The subscriptions and their sources. *)
Definition keeps_subs (r r' : Runtime) : Prop :=
  r_subs r' = r_subs r /\ r_cancel r' = r_cancel r /\ r_next r' = r_next r /\ r_live r' = (if r_stopped r' then ∅ else r_live r).

Lemma batch_results_spec results : forall r : Runtime, r_stopped r = false ->
  let r' := batch_results r results in
  keeps r r' /\ keeps_subs r r' /\ r_commands r' = r_commands r /\
  r_queue r' = r_queue r ++ (effect_of results).1 /\ r_stopped r' = (effect_of results).2.
Proof.
  induction results as [|[e [x|]] results IH]; intros r Hr; cbn [batch_results effect_of].
  - cbn. rewrite app_nil_r. unfold keeps_subs. by rewrite Hr.
  - unfold failLocked, stopLocked. destruct (r_lastErr r); cbn; rewrite Hr; cbn; rewrite ?app_nil_r; by split_and!.
  - destruct (IH (enqueue_event r e)) as (H1 & H2 & H3 & H4 & H5); [by destruct e|].
    destruct (effect_of results) as [es stop]. cbn [fst snd] in *. cbv zeta. rewrite H4, H5.
    destruct e as [e|]; [|done]. split; [exact H1|]. split; [exact H2|]. split; [exact H3|].
    cbn. by rewrite <- app_assoc.
Qed.

Lemma runCommandLocked_spec (r : Runtime) c : r_stopped r = false ->
  let r' := runCommandLocked r c in
  keeps r r' /\ keeps_subs r r' /\ r_commands r' = r_commands r /\
  r_queue r' = r_queue r ++ (effect c).1 /\ r_stopped r' = (effect c).2.
Proof.
  intros Hr. unfold runCommandLocked, effect. destruct (cmd_quit c).
  - unfold stopLocked. cbn. rewrite Hr. cbn. rewrite app_nil_r. by split_and!.
  - destruct (cmd_children c); by apply batch_results_spec.
Qed.

(** The commands waiting when one update's command has been added: just that one. *)
Lemma runCommandsLocked_one (r : Runtime) c : r_stopped r = false -> r_commands r = [c] ->
  let r' := runCommandsLocked r in
  keeps r r' /\ keeps_subs r r' /\ r_commands r' = [] /\
  r_queue r' = r_queue r ++ (effect c).1 /\ r_stopped r' = (effect c).2.
Proof.
  intros Hr Hc. unfold runCommandsLocked. rewrite Hc. cbn [runCommands]. rewrite Hr.
  destruct (runCommandLocked_spec (set_work r (r_queue r) []) c) as (H1 & H2 & H3 & H4 & H5); [done|]. cbv zeta.
  split; [exact H1|]. split; [exact H2|]. split; [done|]. by split.
Qed.

(** ** Subscriptions *)

Definition declared_by (m : M) : list Spec := match m_Subscriptions _ ops with Some f => f m | None => [] end.

Definition spec_ok (s : Spec) : Prop := sub_Key s <> [] /\ match sub_Timer s with Some (i, _) => 0 < i | None => True end.

(** What a declaration may be. *)
Definition specs_ok (specs : list Spec) : Prop := Forall spec_ok specs /\ NoDup (map sub_Key specs).

Lemma fresh_insert (specs : list Spec) (s : Spec) (declared : gmap bytes Spec) :
  Forall (fun t => (<[sub_Key s := s]> declared) !! sub_Key t = None) specs <->
  ~ (sub_Key s ∈ map sub_Key specs) /\ Forall (fun t => declared !! sub_Key t = None) specs.
Proof.
  rewrite !Forall_forall. setoid_rewrite lookup_insert_None. split.
  - intros Hs. split; [|intros t Ht; by apply Hs]. intros (t & Hk & Ht)%list_elem_of_fmap. by apply (proj2 (Hs t Ht)).
  - intros [Hs Hd] t Ht. split; [by apply Hd|]. intros Heq. apply Hs. rewrite Heq. by apply list_elem_of_fmap_2.
Qed.

(** The keys that are declared so far. *)
Lemma check_specs_spec (specs : list Spec) : forall declared : gmap bytes Spec,
  match check_specs (Error:=Error) specs declared with
  | inr d => (Forall spec_ok specs /\ NoDup (map sub_Key specs) /\ Forall (fun s => declared !! sub_Key s = None) specs) /\
             forall k, is_Some (d !! k) <-> is_Some (declared !! k) \/ k ∈ map sub_Key specs
  | inl _ => ~ (Forall spec_ok specs /\ NoDup (map sub_Key specs) /\ Forall (fun s => declared !! sub_Key s = None) specs)
  end.
Proof.
  induction specs as [|s specs IH]; intros declared; cbn [check_specs map].
  { split; [split_and!; constructor|]. intros k. rewrite elem_of_nil. tauto. }
  assert (Hcons : Forall spec_ok (s :: specs) /\ NoDup (sub_Key s :: map sub_Key specs) /\ Forall (fun t => declared !! sub_Key t = None) (s :: specs) <->
    spec_ok s /\ declared !! sub_Key s = None /\
    Forall spec_ok specs /\ NoDup (map sub_Key specs) /\ ~ (sub_Key s ∈ map sub_Key specs) /\ Forall (fun t => declared !! sub_Key t = None) specs).
  { rewrite !Forall_cons, NoDup_cons. tauto. }
  case_bool_decide as Hk; [rewrite Hcons; by intros ([? _] & _)|].
  case_bool_decide as Hd; [rewrite Hcons; intros (_ & Hn & _); rewrite Hn in Hd; by destruct Hd|].
  rewrite <- eq_None_not_Some in Hd.
  assert (Ht : (match sub_Timer s with Some (i, _) => i <=? 0 | None => false end) = false <->
               match sub_Timer s with Some (i, _) => 0 < i | None => True end)
    by (destruct (sub_Timer s) as [[i e]|]; [apply Z.leb_gt|done]).
  assert (Hs : spec_ok s <-> match sub_Timer s with Some (i, _) => 0 < i | None => True end) by (unfold spec_ok; tauto).
  destruct (match sub_Timer s with Some _ => _ | None => _ end) eqn:Hi.
  { rewrite Hcons, Hs. intros (Hok & _). by apply Ht in Hok. }
  specialize (IH (<[sub_Key s := s]> declared)). destruct (check_specs specs _) as [e|d]; rewrite fresh_insert in IH; rewrite Hcons, Hs, <- Ht; [tauto|].
  destruct IH as [IH Hdom]. split; [tauto|]. intros k. rewrite Hdom, elem_of_cons.
  destruct (decide (k = sub_Key s)) as [->|Hne].
  - rewrite lookup_insert_eq. split; [by right; left|]. intros _. left. by eexists.
  - rewrite lookup_insert_ne by done. tauto.
Qed.

(** ** Sources *)

(** The live source of a key. *)
Definition source_at (r : Runtime) (k : bytes) : option nat :=
  match r_cancel r !! k with
  | Some id => if bool_decide (id ∈ r_live r) then Some id else None
  | None => None
  end.

(** Contexts are never used twice, and every live one is kept for one key, of
    a subscription. *)
Record sources_ok (r : Runtime) : Prop := {
  so_next : forall k id, r_cancel r !! k = Some id -> (id < r_next r)%nat;
  so_inj : forall k k' id, r_cancel r !! k = Some id -> r_cancel r !! k' = Some id -> k = k';
  so_live : forall id, id ∈ r_live r -> exists k, r_cancel r !! k = Some id;
  so_subs : forall k id, r_cancel r !! k = Some id -> is_Some (r_subs r !! k) }.

Lemma cancel_key_elem (r : Runtime) k id : id ∈ cancel_key r k <-> id ∈ r_live r /\ r_cancel r !! k <> Some id.
Proof. unfold cancel_key. destruct (r_cancel r !! k) as [j|]; [set_solver|]. naive_solver. Qed.

Lemma drop_key_spec (r : Runtime) k : sources_ok r ->
  sources_ok (drop_key r k) /\ forall k',
    r_subs (drop_key r k) !! k' = (if bool_decide (k' = k) then None else r_subs r !! k') /\
    source_at (drop_key r k) k' = (if bool_decide (k' = k) then None else source_at r k').
Proof.
  intros [Hn Hi Hl Hs]. split; [split|]; cbn [drop_key set_subs r_cancel r_live r_next r_subs].
  - intros k' id [_ Hk]%lookup_delete_Some. by eapply Hn.
  - intros k1 k2 id [_ H1]%lookup_delete_Some [_ H2]%lookup_delete_Some. by eapply Hi.
  - intros id [Hin Hc]%cancel_key_elem. destruct (Hl id Hin) as [k' Hk']. exists k'. apply lookup_delete_Some. split; [by intros ->|done].
  - intros k' id [Hne Hk]%lookup_delete_Some. rewrite lookup_delete_ne by done. by eapply Hs.
  - intros k'. unfold source_at. cbn [drop_key set_subs r_cancel r_live r_subs].
    case_bool_decide as Heq; [subst; by rewrite !lookup_delete_eq|]. rewrite !lookup_delete_ne by done. split; [done|].
    destruct (r_cancel r !! k') as [id|] eqn:Hc; [|done].
    assert (Hiff : id ∈ cancel_key r k <-> id ∈ r_live r).
    { rewrite cancel_key_elem. split; [by intros [? _]|]. intros Hin. split; [done|]. intros Hk. apply Heq. by eapply Hi. }
    by rewrite (bool_decide_ext _ _ Hiff).
Qed.

(** Does a spec run a source? *)
Definition needs (r : Runtime) (s : Spec) : bool :=
  sub_Start s || (r_realTime r && match sub_Timer s with Some _ => true | None => false end).

Definition same_definition (o : option Spec) (s : Spec) : bool :=
  match o with Some p => bool_decide (sub_Definition p = sub_Definition s) | None => false end.

Lemma declare_spec (r : Runtime) s : sources_ok r ->
  sources_ok (declare r s) /\ (r_next r <= r_next (declare r s))%nat /\ forall k',
    r_subs (declare r s) !! k' =
      (if bool_decide (k' = sub_Key s) && negb (same_definition (r_subs r !! k') s) then Some s else r_subs r !! k') /\
    source_at (declare r s) k' =
      (if bool_decide (k' = sub_Key s) && negb (same_definition (r_subs r !! k') s)
       then if needs r s then Some (r_next r) else None else source_at r k').
Proof.
  intros Hok. pose proof Hok as [Hn Hi Hl Hs]. unfold declare. cbv zeta. fold (same_definition (r_subs r !! sub_Key s) s).
  destruct (same_definition (r_subs r !! sub_Key s) s) eqn:Hsame.
  { split; [done|]. split; [done|]. intros k'. case_bool_decide as Heq; [subst; by rewrite Hsame|done]. }
  cbn [set_subs r_realTime r_subs r_cancel r_live r_next]. fold (needs r s).
  assert (Hother : forall k' id, k' <> sub_Key s -> r_cancel r !! k' = Some id -> id ∈ cancel_key r (sub_Key s) <-> id ∈ r_live r).
  { intros k' id Hne Hc. rewrite cancel_key_elem. split; [by intros [? _]|]. intros Hin. split; [done|]. intros Hk. apply Hne. by eapply Hi. }
  assert (Hsubs : forall k', <[sub_Key s := s]> (r_subs r) !! k' =
    (if bool_decide (k' = sub_Key s) && negb (same_definition (r_subs r !! k') s) then Some s else r_subs r !! k')).
  { intros k'. case_bool_decide as Heq; [subst; rewrite Hsame; apply lookup_insert_eq|by apply lookup_insert_ne]. }
  destruct (needs r s) eqn:Hneeds; cbn [set_subs r_subs r_cancel r_live r_next].
  - split; [split|split; [lia|]]; cbn [set_subs r_subs r_cancel r_live r_next].
    + intros k id [[<- <-]|[_ Hc]]%lookup_insert_Some; [lia|]. apply Hn in Hc. lia.
    + intros k1 k2 id [[<- <-]|[_ H1]]%lookup_insert_Some [[<- Heq]|[_ H2]]%lookup_insert_Some; [done| | |by eapply Hi].
      * apply Hn in H2. lia.
      * subst. apply Hn in H1. lia.
    + intros id [->%elem_of_singleton|[Hin Hc]%cancel_key_elem]%elem_of_union.
      * exists (sub_Key s). apply lookup_insert_eq.
      * destruct (Hl id Hin) as [k' Hk']. exists k'. rewrite lookup_insert_ne; [done|]. by intros <-.
    + intros k id [[<- <-]|[Hne Hc]]%lookup_insert_Some; [rewrite lookup_insert_eq; by eexists|].
      rewrite lookup_insert_ne by done. by eapply Hs.
    + intros k'. split; [apply Hsubs|]. unfold source_at. cbn [set_subs r_cancel r_live].
      case_bool_decide as Heq; cbn [andb].
      * subst. rewrite Hsame, lookup_insert_eq. cbn [negb]. rewrite bool_decide_eq_true_2; [done|set_solver].
      * rewrite lookup_insert_ne by done. destruct (r_cancel r !! k') as [id|] eqn:Hc; [|done].
        assert (Hiff : id ∈ {[r_next r]} ∪ cancel_key r (sub_Key s) <-> id ∈ r_live r).
        { rewrite elem_of_union, elem_of_singleton, (Hother k' id Heq Hc). apply Hn in Hc. split; [intros [?|?]; [lia|done]|by right]. }
        by rewrite (bool_decide_ext _ _ Hiff).
  - split; [split|split; [done|]]; cbn [set_subs r_subs r_cancel r_live r_next]; [done|done| | |].
    + intros id [Hin Hc]%cancel_key_elem. by apply Hl.
    + intros k id Hc. destruct (decide (sub_Key s = k)) as [->|Hne]; [rewrite lookup_insert_eq; by eexists|].
      rewrite lookup_insert_ne by done. by eapply Hs.
    + intros k'. split; [apply Hsubs|]. unfold source_at. cbn [set_subs r_cancel r_live].
      case_bool_decide as Heq; cbn [andb].
      * subst. rewrite Hsame. cbn [negb]. destruct (r_cancel r !! sub_Key s) as [id|] eqn:Hc; [|done].
        rewrite bool_decide_eq_false_2; [done|]. rewrite cancel_key_elem. by intros [_ ?].
      * destruct (r_cancel r !! k') as [id|] eqn:Hc; [|done]. by rewrite (bool_decide_ext _ _ (Hother k' id Heq Hc)).
Qed.

(** The specs are kept under their keys. *)
Definition keyed (r : Runtime) : Prop := forall k s, r_subs r !! k = Some s -> sub_Key s = k.

Context (Horder : forall m, order m ≡ₚ map snd (map_to_list m)).

Lemma order_keys (r : Runtime) : keyed r -> forall k, k ∈ map sub_Key (order (r_subs r)) <-> is_Some (r_subs r !! k).
Proof.
  intros Hk k. rewrite Horder, list_elem_of_fmap. split.
  - intros (s & -> & Hs). apply list_elem_of_fmap in Hs as ([k' s'] & -> & Hin%elem_of_map_to_list). cbn. exists s'. by rewrite (Hk _ _ Hin).
  - intros [s Hs]. exists s. split; [symmetry; by apply Hk|]. apply list_elem_of_fmap. exists (k, s). split; [done|]. by apply elem_of_map_to_list.
Qed.

Lemma drop_fold_spec (declared : gmap bytes Spec) (l : list Spec) : forall r : Runtime, sources_ok r ->
  let r' := fold_left (fun r s => if bool_decide (is_Some (declared !! sub_Key s)) then r else drop_key r (sub_Key s)) l r in
  sources_ok r' /\ keeps r r' /\ r_stopped r' = r_stopped r /\ r_next r' = r_next r /\ r_queue r' = r_queue r /\ r_commands r' = r_commands r /\
  forall k, let gone := bool_decide (k ∈ map sub_Key l) && negb (bool_decide (is_Some (declared !! k))) in
    r_subs r' !! k = (if gone then None else r_subs r !! k) /\ source_at r' k = (if gone then None else source_at r k).
Proof.
  induction l as [|s l IH]; intros r Hr; cbn [fold_left map]; [by split_and!|].
  case_bool_decide as Hd.
  - destruct (IH r Hr) as (H1 & H2 & H3 & H4 & H5 & H6 & H7). split_and!; try done. intros k. destruct (H7 k) as [-> ->]. cbv zeta.
    destruct (decide (k = sub_Key s)) as [->|Hne].
    + rewrite !(bool_decide_eq_true_2 (is_Some _)) by done. cbn [negb]. by rewrite !andb_false_r.
    + assert (Hiff : k ∈ sub_Key s :: map sub_Key l <-> k ∈ map sub_Key l) by (rewrite elem_of_cons; tauto).
      by rewrite (bool_decide_ext _ _ Hiff).
  - destruct (drop_key_spec r (sub_Key s) Hr) as [Hr1 Hk1].
    destruct (IH _ Hr1) as (H1 & H2 & H3 & H4 & H5 & H6 & H7). split_and!; try done. intros k. destruct (H7 k) as [-> ->]. cbv zeta.
    destruct (Hk1 k) as [-> ->]. destruct (decide (k = sub_Key s)) as [->|Hne].
    + rewrite (bool_decide_eq_false_2 _ Hd), !(bool_decide_eq_true_2 (sub_Key s = sub_Key s)) by done.
      rewrite (bool_decide_eq_true_2 (sub_Key s ∈ _ :: _)) by left. cbn [negb andb]. by destruct (_ && _).
    + rewrite !(bool_decide_eq_false_2 (k = sub_Key s)) by done.
      assert (Hiff : k ∈ sub_Key s :: map sub_Key l <-> k ∈ map sub_Key l) by (rewrite elem_of_cons; tauto).
      by rewrite (bool_decide_ext _ _ Hiff).
Qed.

(** What a declaration makes of a key. *)
Definition declared_at (r r' : Runtime) (s : Spec) : Prop :=
  if same_definition (r_subs r !! sub_Key s) s
  then r_subs r' !! sub_Key s = r_subs r !! sub_Key s /\ source_at r' (sub_Key s) = source_at r (sub_Key s)
  else r_subs r' !! sub_Key s = Some s /\
       if needs r s then exists id, source_at r' (sub_Key s) = Some id /\ (r_next r <= id)%nat else source_at r' (sub_Key s) = None.

Lemma declare_keeps (r : Runtime) s :
  keeps r (declare r s) /\ r_stopped (declare r s) = r_stopped r /\ r_queue (declare r s) = r_queue r /\ r_commands (declare r s) = r_commands r.
Proof. unfold declare. cbv zeta. destruct (match r_subs r !! _ with Some _ => _ | None => _ end); [done|]. by destruct (_ || _). Qed.

Lemma declare_fold_spec (specs : list Spec) : forall r : Runtime, sources_ok r -> NoDup (map sub_Key specs) ->
  let r' := fold_left declare specs r in
  sources_ok r' /\ keeps r r' /\ r_stopped r' = r_stopped r /\ r_queue r' = r_queue r /\ r_commands r' = r_commands r /\
  Forall (declared_at r r') specs /\
  forall k, ~ (k ∈ map sub_Key specs) -> r_subs r' !! k = r_subs r !! k /\ source_at r' k = source_at r k.
Proof.
  induction specs as [|s specs IH]; intros r Hr Hd; cbn [fold_left map]; [by split_and!|].
  apply NoDup_cons in Hd as [Hs Hd]. destruct (declare_spec r s Hr) as (Hr1 & Hn1 & Hk1).
  destruct (declare_keeps r s) as (Hkeep & Hst & Hq & Hc).
  destruct (IH _ Hr1 Hd) as (H1 & H2 & H3 & H4 & H5 & H6 & H7). split_and!; try congruence.
  - by transitivity (declare r s).
  - constructor.
    + unfold declared_at. destruct (H7 _ Hs) as [-> ->]. destruct (Hk1 (sub_Key s)) as [-> ->].
      rewrite bool_decide_eq_true_2 by done. destruct (same_definition _ s); [done|]. cbn [negb andb]. split; [done|].
      destruct (needs r s); [by exists (r_next r)|done].
    + apply Forall_forall. intros t Ht. rewrite Forall_forall in H6. specialize (H6 t Ht). revert H6. unfold declared_at. destruct (Hk1 (sub_Key t)) as [-> ->].
      rewrite bool_decide_eq_false_2 by (intros Heq; apply Hs; rewrite <- Heq; by apply list_elem_of_fmap_2). cbn [andb].
      assert (Hneed : needs (declare r s) t = needs r t) by (unfold needs; destruct Hkeep as (_ & _ & _ & _ & _ & _ & _ & _ & ->); done).
      rewrite Hneed. destruct (same_definition _ t); [done|]. intros [? Hsrc]. split; [done|]. destruct (needs r t); [|done].
      destruct Hsrc as (id & ? & ?). exists id. split; [done|lia].
  - intros k [Hk Hks]%not_elem_of_cons. destruct (H7 k Hks) as [-> ->]. destruct (Hk1 k) as [-> ->].
    by rewrite bool_decide_eq_false_2.
Qed.

Lemma failLocked_spec (r : Runtime) e : r_stopped r = false ->
  let r' := failLocked r e in
  keeps r r' /\ r_queue r' = r_queue r /\ r_subs r' = r_subs r /\ r_cancel r' = r_cancel r /\ r_next r' = r_next r /\
  r_commands r' = r_commands r /\ r_live r' = ∅ /\ r_stopped r' = true /\ r_lastErr r' <> None.
Proof.
  intros Hr. unfold failLocked, stopLocked. destruct (r_lastErr r) as [x|] eqn:He; cbn [set_end r_stopped r_lastErr]; rewrite Hr;
    split_and!; try done; by rewrite ?He.
Qed.

Lemma reconcile_spec (r : Runtime) m :
  r_stopped r = false -> r_model r = Some m -> sources_ok r -> keyed r ->
  let r' := reconcileLocked ops order r in
  keeps r r' /\ r_queue r' = r_queue r /\ r_commands r' = r_commands r /\ sources_ok r' /\ keyed r' /\
  (specs_ok (declared_by m) -> r_stopped r' = false /\ Forall (declared_at r r') (declared_by m) /\
     forall k, ~ (k ∈ map sub_Key (declared_by m)) -> r_subs r' !! k = None /\ source_at r' k = None) /\
  (~ specs_ok (declared_by m) -> r_stopped r' = true /\ r_live r' = ∅ /\ r_lastErr r' <> None).
Proof.
  intros Hst Hm Hok Hkey. unfold reconcileLocked. rewrite Hst, Hm.
  assert (Hspecs : (match m_Subscriptions _ ops with Some subscriptions => subscriptions m | None => [] end) = declared_by m) by done.
  rewrite Hspecs. cbv zeta. pose proof (check_specs_spec (declared_by m) ∅) as Hcheck.
  assert (Hnone : Forall (fun s : Spec => (∅ : gmap bytes Spec) !! sub_Key s = None) (declared_by m)) by (apply Forall_forall; intros; apply lookup_empty).
  destruct (check_specs (declared_by m) ∅) as [e|declared].
  { assert (Hbad : ~ specs_ok (declared_by m)) by (unfold specs_ok; tauto).
    destruct (failLocked_spec r e Hst) as (H1 & H2 & H3 & H4 & H5 & H6 & H7 & H8 & H9). destruct Hok as [Hn Hi Hl Hs].
    split; [done|]. split; [done|]. split; [done|]. split; [|split; [|split; [by intros ?%Hbad|by intros _]]].
    - split; rewrite ?H3, ?H4, ?H5, ?H7; [done|done| |done]. intros id Hid. by apply not_elem_of_empty in Hid.
    - unfold keyed. by rewrite H3. }
  destruct Hcheck as [(Hsok & Hnd & _) Hdom].
  assert (Hdecl : forall k, is_Some (declared !! k) <-> k ∈ map sub_Key (declared_by m))
    by (intros k; rewrite Hdom, lookup_empty, <- not_eq_None_Some; tauto).
  destruct (drop_fold_spec declared (order (r_subs r)) r Hok) as (H1 & H2 & H3 & H4 & H5 & H6 & H7).
  fold (drop_undeclared order r declared) in *. set (r1 := drop_undeclared order r declared) in *.
  destruct (declare_fold_spec (declared_by m) r1 H1 Hnd) as (G1 & G2 & G3 & G4 & G5 & G6 & G7). set (r2 := fold_left declare (declared_by m) r1) in *.
  assert (Hin : forall k, k ∈ map sub_Key (declared_by m) -> r_subs r1 !! k = r_subs r !! k /\ source_at r1 k = source_at r k).
  { intros k Hk. destruct (H7 k) as [-> ->]. apply Hdecl in Hk. rewrite (bool_decide_eq_true_2 (is_Some _)) by done. cbn [negb].
    by rewrite andb_false_r. }
  assert (Hout : forall k, ~ (k ∈ map sub_Key (declared_by m)) -> r_subs r2 !! k = None /\ source_at r2 k = None).
  { intros k Hk. destruct (G7 k Hk) as [-> ->]. destruct (H7 k) as [-> ->]. rewrite <- Hdecl in Hk. rewrite (bool_decide_eq_false_2 (is_Some _)) by done.
    cbn [negb]. rewrite andb_true_r. case_bool_decide as Hord; [done|]. rewrite (order_keys r Hkey), <- eq_None_not_Some in Hord.
    split; [done|]. unfold source_at. destruct (r_cancel r !! k) as [id|] eqn:Hc; [|done].
    apply (so_subs r Hok) in Hc. rewrite Hord in Hc. by destruct Hc. }
  assert (Hat : Forall (declared_at r r2) (declared_by m)).
  { apply Forall_forall. intros s Hs. rewrite Forall_forall in G6. specialize (G6 s Hs). revert G6. unfold declared_at.
    destruct (Hin (sub_Key s)) as [-> ->]; [by apply list_elem_of_fmap_2|].
    assert (Hneed : needs r1 s = needs r s) by (unfold needs; destruct H2 as (_ & _ & _ & _ & _ & _ & _ & _ & ->); done). by rewrite Hneed, H4. }
  split; [by transitivity r1|]. split; [congruence|]. split; [congruence|]. split; [done|]. split.
  - intros k s Hs. destruct (decide (k ∈ map sub_Key (declared_by m))) as [Hk|Hk].
    + apply list_elem_of_fmap in Hk as (t & -> & Ht). rewrite Forall_forall in Hat. specialize (Hat t Ht). unfold declared_at in Hat.
      destruct (same_definition _ t); destruct Hat as [Heq _]; rewrite Heq in Hs; [by apply Hkey in Hs|by injection Hs as <-].
    + destruct (Hout k Hk) as [Heq _]. by rewrite Heq in Hs.
  - split; [|intros Hbad; exfalso; by apply Hbad]. intros _. split; [congruence|]. by split.
Qed.

(** ** One event *)

(** The source of every subscription runs exactly if its spec has one to run. *)
Definition running (r : Runtime) : Prop :=
  forall k s, r_subs r !! k = Some s -> is_Some (source_at r k) <-> needs r s = true.

(** The subscriptions are those the model declares, and nothing else runs. *)
Definition subscribed (r : Runtime) (m : M) : Prop :=
  (forall k, is_Some (r_subs r !! k) <-> k ∈ map sub_Key (declared_by m)) /\
  Forall (fun s => exists p, r_subs r !! sub_Key s = Some p /\ sub_Definition p = sub_Definition s) (declared_by m) /\
  running r /\ (forall id, id ∈ r_live r -> exists k, k ∈ map sub_Key (declared_by m) /\ source_at r k = Some id).

Lemma reconcile_subscribed (r : Runtime) m :
  r_stopped r = false -> r_model r = Some m -> sources_ok r -> keyed r -> running r -> specs_ok (declared_by m) ->
  subscribed (reconcileLocked ops order r) m.
Proof.
  intros Hst Hm Hok Hkey Hrun Hspecs. destruct (reconcile_spec r m Hst Hm Hok Hkey) as (Hkeep & _ & _ & Hok' & _ & Hgood & _).
  destruct (Hgood Hspecs) as (_ & Hat & Hout). set (r' := reconcileLocked ops order r) in *. rewrite Forall_forall in Hat.
  assert (Hneed : forall s, needs r' s = needs r s) by (intros s; unfold needs; destruct Hkeep as (_ & _ & _ & _ & _ & _ & _ & _ & ->); done).
  assert (Hdom : forall k, is_Some (r_subs r' !! k) <-> k ∈ map sub_Key (declared_by m)).
  { intros k. split.
    - intros Hk. destruct (decide (k ∈ map sub_Key (declared_by m))) as [|Hno]; [done|]. destruct (Hout k Hno) as [Heq _]. rewrite Heq in Hk. by destruct Hk.
    - intros (s & -> & Hs)%list_elem_of_fmap. specialize (Hat s Hs). unfold declared_at in Hat.
      destruct (same_definition _ s) eqn:Hsame; destruct Hat as [-> _]; [|by eexists]. unfold same_definition in Hsame.
      destruct (r_subs r !! sub_Key s); [by eexists|done]. }
  split; [done|]. split; [|split].
  - apply Forall_forall. intros s Hs. specialize (Hat s Hs). unfold declared_at in Hat.
    destruct (same_definition _ s) eqn:Hsame; destruct Hat as [-> _]; [|by exists s]. unfold same_definition in Hsame.
    destruct (r_subs r !! sub_Key s) as [p|]; [|done]. apply bool_decide_eq_true in Hsame. by exists p.
  - intros k p Hp. assert (Hk : k ∈ map sub_Key (declared_by m)) by (apply Hdom; by eexists).
    apply list_elem_of_fmap in Hk as (s & -> & Hs). specialize (Hat s Hs). unfold declared_at in Hat. rewrite Hneed.
    destruct (same_definition _ s); destruct Hat as [Hsub Hsrc].
    + rewrite Hsub in Hp. rewrite Hsrc. by apply Hrun.
    + rewrite Hsub in Hp. injection Hp as <-. destruct (needs r s); [destruct Hsrc as (id & -> & _); split; [done|by eexists]|].
      rewrite Hsrc. split; [by intros []|done].
  - intros id Hid. destruct (so_live r' Hok' id Hid) as [k Hk]. exists k. split; [apply Hdom; by eapply so_subs|].
    unfold source_at. rewrite Hk. by rewrite bool_decide_eq_true_2.
Qed.

(** The frame is the model's view. *)
Definition shows (r : Runtime) (m : M) : Prop :=
  exists node, m_View _ ops m = Some node /\
    (forall rd, exists rd', Renderer_Render rd (Some node) (r_width r) (r_height r) = Ok (rd', r_frame r)) /\
    hits_ok node (frame_rect (r_frame r)) (hits (r_frame r)) /\ root (r_frame r) = Some node.

(** The focus is one of its buttons, if it has any with a key. *)
Definition focused (r : Runtime) : Prop := uiinput.focus_valid (root (r_frame r)) (r_focus r).

(** A size that [Render] can allocate. *)
Definition sized (r : Runtime) : Prop := r_width r <= 2 ^ 31 /\ r_height r <= 2 ^ 31.

Definition viewable (m : M) : Prop := exists node, m_View _ ops m = Some node /\ sane_tree node.

Lemma render_spec (r : Runtime) m :
  r_model r = Some m -> viewable m -> sized r ->
  exists r', renderLocked ops r = Ok r' /\ r_model r' = r_model r /\ r_width r' = r_width r /\ r_height r' = r_height r /\
    r_queue r' = r_queue r /\ r_commands r' = r_commands r /\ r_stopped r' = r_stopped r /\ r_subs r' = r_subs r /\
    r_cancel r' = r_cancel r /\ r_live r' = r_live r /\ r_next r' = r_next r /\ r_realTime r' = r_realTime r /\
    r_initialized r' = r_initialized r /\ r_lastErr r' = r_lastErr r /\ (shows r' m /\ focused r').
Proof.
  intros Hm (node & Hv & Hsane) [Hw Hh]. unfold renderLocked. rewrite Hm, Hv.
  destruct (render_draws node (r_width r) (r_height r) DefaultTheme Hsane Hw Hh) as (f & hs & Hall & _).
  destruct (Hall (r_renderer r)) as [rd Hrd]. unfold Renderer_Render. rewrite Hrd. cbn [rbind].
  destruct (render_hits node _ _ _ _ _ _ Hsane Hw Hh Hrd) as [Hroot Hhits].
  destruct (uiinput.ReconcileFocus_valid (root f) (r_focus r)) as (k & Hk & Hvalid & _).
  eexists. split; [reflexivity|]. cbn [set_frame r_model r_width r_height r_queue r_commands r_stopped r_subs r_cancel r_live r_next r_realTime r_initialized r_lastErr].
  do 13 (split; [done|]). split; [|unfold focused; cbn [set_frame r_frame r_focus]; by rewrite Hk].
  exists node. cbn [set_frame r_width r_height r_frame r_focus]. by split_and!.
Qed.

(** What an event needs. *)
Definition ready (r : Runtime) (m : M) : Prop :=
  r_model r = Some m /\ r_commands r = [] /\ sources_ok r /\ keyed r /\ sized r /\
  (if r_stopped r then r_live r = ∅ else running r).

(** What holds between events. *)
Definition steady (r : Runtime) (m : M) : Prop :=
  ready r m /\ shows r m /\ (r_stopped r = false -> subscribed r m).

Lemma sources_ok_same (r r' : Runtime) :
  r_subs r' = r_subs r -> r_cancel r' = r_cancel r -> r_next r' = r_next r -> (r_live r' = ∅ \/ r_live r' = r_live r) ->
  sources_ok r -> sources_ok r'.
Proof.
  intros H1 H2 H3 H4 []. split; rewrite ?H1, ?H2, ?H3; try done. destruct H4 as [->| ->]; [|done].
  intros id Hid. by apply not_elem_of_empty in Hid.
Qed.

Lemma subscribed_same (r r' : Runtime) m :
  r_subs r' = r_subs r -> r_cancel r' = r_cancel r -> r_live r' = r_live r -> r_realTime r' = r_realTime r ->
  subscribed r m -> subscribed r' m.
Proof.
  intros H1 H2 H3 H4. unfold subscribed, running, source_at, needs. by rewrite H1, H2, H3, H4.
Qed.

Context (Hviews : forall m, viewable m) (Hspecs : forall m, specs_ok (declared_by m)).

(** Reconciling and rendering make a runtime steady. *)
Lemma refresh_spec (r : Runtime) m : ready r m ->
  exists r', renderLocked ops (reconcileLocked ops order r) = Ok r' /\ (steady r' m /\ focused r') /\
    r_queue r' = r_queue r /\ r_stopped r' = r_stopped r /\ r_initialized r' = r_initialized r.
Proof.
  intros (Hm & Hc & Hok & Hkey & Hsz & Hrun). destruct (r_stopped r) eqn:Hst.
  - unfold reconcileLocked. rewrite Hst.
    destruct (render_spec r m Hm (Hviews m) Hsz) as (r2 & -> & R1 & R2 & R3 & R4 & R5 & R6 & R7 & R8 & R9 & R10 & R11 & R12 & _ & Hshow & Hfocus).
    exists r2. split; [done|]. split; [|split_and!; congruence]. split; [|done].
    split; [|split; [done|congruence]]. split; [congruence|]. split; [congruence|].
    split; [apply (sources_ok_same r r2); [done..|by right|done]|]. split; [by unfold keyed; rewrite R7|].
    split; [unfold sized; by rewrite R2, R3|]. by rewrite R6, Hst, R9.
  - destruct (reconcile_spec r m Hst Hm Hok Hkey) as (K2 & Q2 & C2 & Hok2 & Hkey2 & Hgood & _).
    pose proof (reconcile_subscribed r m Hst Hm Hok Hkey Hrun (Hspecs m)) as Hsub.
    set (r2 := reconcileLocked ops order r) in *. destruct (Hgood (Hspecs m)) as (T2 & _).
    destruct K2 as (KM & KW & KH & _ & _ & _ & KI & _ & KR).
    destruct (render_spec r2 m) as (r3 & -> & R1 & R2 & R3 & R4 & R5 & R6 & R7 & R8 & R9 & R10 & R11 & R12 & _ & Hshow & Hfocus);
      [congruence|done|unfold sized; by rewrite KW, KH|].
    exists r3. split; [done|]. split; [|split_and!; congruence]. split; [|done].
    assert (Hsub3 : subscribed r3 m) by by apply (subscribed_same r2 r3).
    split; [|split; done]. split; [congruence|]. split; [congruence|].
    split; [apply (sources_ok_same r2 r3); [done..|by right|done]|]. split; [by unfold keyed; rewrite R7|].
    split; [unfold sized; by rewrite R2, R3, KW, KH|]. rewrite R6, T2. apply Hsub3.
Qed.

(** The one command of a start or an update. *)
Lemma run_one_ready (r : Runtime) m c :
  r_stopped r = false -> r_model r = Some m -> r_commands r = [c] -> sources_ok r -> keyed r -> running r -> sized r ->
  ready (runCommandsLocked r) m /\ r_queue (runCommandsLocked r) = r_queue r ++ (effect c).1 /\
  r_stopped (runCommandsLocked r) = (effect c).2 /\ r_initialized (runCommandsLocked r) = r_initialized r.
Proof.
  intros Hst Hm Hc Hok Hkey Hrun Hsz. destruct (runCommandsLocked_one r c Hst Hc) as (K1 & (S1 & S2 & S3 & S4) & C1 & Q1 & T1).
  set (r1 := runCommandsLocked r) in *. destruct K1 as (KM & KW & KH & _ & _ & _ & KI & _ & KR).
  split; [|split_and!; congruence]. split; [congruence|]. split; [done|].
  split; [apply (sources_ok_same r r1); [done..| |done]; rewrite S4; destruct (r_stopped r1); [by left|by right]|].
  split; [by unfold keyed; rewrite S1|]. split; [unfold sized; by rewrite KW, KH|]. rewrite T1 in *. destruct (effect c).2; [done|].
  intros k s. unfold source_at, needs. rewrite S1, S2, S4, KR. apply Hrun.
Qed.

Lemma process_event_spec (r : Runtime) m e queue :
  r_stopped r = false -> r_commands r = [] -> sources_ok r -> keyed r -> running r -> sized r ->
  let '(m', c) := m_Update _ ops m e in
  exists r', process_event ops order r m e queue = Ok r' /\ (steady r' m' /\ focused r') /\
    r_queue r' = queue ++ (effect c).1 /\ r_stopped r' = (effect c).2 /\ r_initialized r' = r_initialized r.
Proof.
  intros Hst Hc Hok Hkey Hrun Hsz. unfold process_event. destruct (m_Update _ ops m e) as [m' c]. rewrite Hc. cbn [app].
  set (r0 := set_work (set_model r m') queue [c]).
  destruct (run_one_ready r0 m' c) as (Hr1 & Hq1 & Hst1 & Hi1); [done|done|done|by destruct Hok|done|done|done|].
  destruct (refresh_spec _ m' Hr1) as (r' & -> & Hsteady & Hq & Hs & Hi). exists r'. split; [done|]. split; [done|].
  change (r_queue r0) with queue in Hq1. change (r_initialized r0) with (r_initialized r) in Hi1. split_and!; congruence.
Qed.

(** The queue of the runtime is processed as the plain loop processes it. *)
Lemma processQueue_loop fuel : forall (r : Runtime) m,
  r_stopped r = false -> ready r m ->
  match loop fuel m (r_queue r) with
  | None => processQueue ops order fuel r = None
  | Some (m', log, left_, b) =>
    exists r', processQueue ops order fuel r = Some (Ok (r', log)) /\ ready r' m' /\ r_initialized r' = r_initialized r /\
      r_queue r' = left_ /\ r_stopped r' = b /\ (log = [] -> r' = r /\ m' = m) /\ (log <> [] -> steady r' m' /\ focused r')
  end.
Proof.
  induction fuel as [|fuel IH]; intros r m Hst Hready; pose proof Hready as (Hm & Hc & Hok & Hkey & Hsz & Hrun);
    rewrite Hst in Hrun; cbn [processQueue]; rewrite Hm, Hst; destruct (r_queue r) as [|e queue] eqn:Hq; cbn [loop]; try done;
    try (exists r; by split_and!).
  pose proof (process_event_spec r m e queue Hst Hc Hok Hkey Hrun Hsz) as Hev.
  destruct (m_Update _ ops m e) as [m' c]. destruct Hev as (r1 & -> & [Hsteady1 Hfocus1] & Hq1 & Hst1 & Hi1).
  destruct (effect c) as [es stop]. cbn [fst snd] in *. destruct stop.
  - assert (Hdone : processQueue ops order fuel r1 = Some (Ok (r1, []))).
    { destruct fuel; cbn [processQueue]; rewrite Hst1; destruct (r_queue r1); done. }
    rewrite Hdone. exists r1. split; [done|]. split; [apply Hsteady1|]. by split_and!.
  - specialize (IH r1 m' Hst1 (proj1 Hsteady1)). rewrite Hq1 in IH. destruct (loop fuel m' (queue ++ es)) as [[[[m2 log] left_] b]|].
    + destruct IH as (r2 & -> & H1 & H2 & H3 & H4 & H5 & H6). exists r2. split; [done|]. split; [done|]. split; [congruence|].
      split; [done|]. split; [done|]. split; [done|]. intros _. destruct log as [|x log]; [|by apply H6].
      by destruct (H5 eq_refl) as [-> ->].
    + by rewrite IH.
Qed.

(** More fuel changes nothing, and no event changes the size. *)
Lemma processQueue_more fuel : forall fuel' (r : Runtime) x, (fuel <= fuel')%nat ->
  processQueue ops order fuel r = Some x -> processQueue ops order fuel' r = Some x.
Proof.
  induction fuel as [|fuel IH]; intros [|fuel'] r x Hle; cbn [processQueue]; try done.
  - by destruct (r_queue r), (r_stopped r), (r_model r).
  - lia.
  - destruct (r_queue r), (r_stopped r), (r_model r); try done. destruct (process_event _ _ _ _ _ _) as [r'| |]; try done.
    destruct (processQueue ops order fuel r') as [y|] eqn:Hy; [|done]. by rewrite (IH fuel' r' y ltac:(lia) Hy).
Qed.

Definition same_size (r r' : Runtime) : Prop := r_width r' = r_width r /\ r_height r' = r_height r /\ r_initialized r' = r_initialized r.
#[local] Instance same_size_preorder : PreOrder same_size.
Proof. split; [by intros r|]. intros r1 r2 r3. unfold same_size. intuition congruence. Qed.

Lemma failLocked_size (r : Runtime) e : same_size r (failLocked r e).
Proof. unfold failLocked, stopLocked. by destruct (r_lastErr r), (r_stopped r). Qed.
Lemma runCommandsLocked_size (r : Runtime) : same_size r (runCommandsLocked r).
Proof.
  assert (Hbatch : forall results (r : Runtime), same_size r (batch_results r results)).
  { induction results as [|[e [x|]] results IH]; intros r'; cbn [batch_results]; [done|apply failLocked_size|].
    etransitivity; [|apply IH]. by destruct e. }
  assert (Hone : forall (r : Runtime) c, same_size r (runCommandLocked r c)).
  { intros r' c. unfold runCommandLocked, stopLocked. destruct (cmd_quit c); [by destruct (r_stopped _)|].
    destruct (cmd_children c); apply Hbatch. }
  unfold runCommandsLocked. generalize (r_commands r) at 1. intros cs. revert r.
  induction cs as [|c cs IH]; intros r; cbn [runCommands]; [done|]. destruct (r_stopped r); [done|].
  etransitivity; [|apply IH]. exact (Hone (set_work r (r_queue r) cs) c).
Qed.
Lemma reconcileLocked_size (r : Runtime) : same_size r (reconcileLocked ops order r).
Proof.
  assert (Hfold : forall {A} (f : Runtime -> A -> Runtime) l (r : Runtime),
    (forall r a, same_size r (f r a)) -> same_size r (fold_left f l r)).
  { intros A f l. induction l as [|a l IH]; intros r' Hf; cbn; [done|]. etransitivity; [apply Hf|by apply IH]. }
  unfold reconcileLocked. destruct (r_stopped r); [done|]. destruct (check_specs _ _) as [e|declared]; [apply failLocked_size|].
  etransitivity; [|apply Hfold].
  - unfold drop_undeclared. apply Hfold. intros r' s. by case_bool_decide.
  - intros r' s. destruct (declare_keeps r' s) as [(_ & H1 & H2 & _ & _ & _ & H3 & _) _]. by split_and!.
Qed.
Lemma renderLocked_size (r r' : Runtime) : renderLocked ops r = Ok r' -> same_size r r'.
Proof.
  unfold renderLocked. destruct (r_model r) as [m|]; [|by intros [= <-]]. destruct (m_View _ ops m) as [n|].
  - destruct (Renderer_Render _ _ _ _) as [[rd f]| |]; [|done..]. by intros [= <-].
  - intros [= <-]. apply failLocked_size.
Qed.
Lemma processQueue_size fuel : forall (r r' : Runtime) log,
  processQueue ops order fuel r = Some (Ok (r', log)) -> same_size r r'.
Proof.
  induction fuel as [|fuel IH]; intros r r' log; cbn [processQueue];
    (destruct (r_queue r) as [|e q]; [by intros [= <- <-]|]); (destruct (r_stopped r); [by intros [= <- <-]|]);
    (destruct (r_model r) as [m|]; [|by intros [= <- <-]]); [done|].
  unfold process_event. destruct (m_Update _ ops m e) as [m' c].
  destruct (renderLocked ops _) as [r1| |] eqn:H1; [|done..].
  destruct (processQueue ops order fuel r1) as [[[r2 log2]| |]|] eqn:H2; [|done..]. intros [= <- <-].
  etransitivity; [|by eapply IH]. etransitivity; [|by apply renderLocked_size].
  etransitivity; [|apply reconcileLocked_size]. etransitivity; [|apply runCommandsLocked_size]. done.
Qed.

(** A session has ended exactly when there was an error or a [Quit]. *)
Definition well (r : Runtime) : Prop := r_stopped r = bool_decide (is_Some (r_lastErr r)) || r_quit r.

Lemma failLocked_well (r : Runtime) e : well (failLocked r e).
Proof. unfold failLocked, stopLocked, well. by destruct (r_lastErr r) eqn:He; cbn; destruct (r_stopped r) eqn:H; cbn; rewrite ?H, ?He. Qed.
Lemma runCommandsLocked_well (r : Runtime) : well r -> well (runCommandsLocked r).
Proof.
  assert (Hbatch : forall results (r : Runtime), well r -> well (batch_results r results)).
  { induction results as [|[e [x|]] results IH]; intros r' Hr; cbn [batch_results]; [done|apply failLocked_well|].
    apply IH. by destruct e. }
  assert (Hone : forall (r : Runtime) c, well r -> well (runCommandLocked r c)).
  { intros r' c Hr. unfold runCommandLocked, stopLocked. destruct (cmd_quit c); [cbn; unfold well; by destruct (r_stopped r') eqn:H; cbn; rewrite ?H, orb_true_r|].
    destruct (cmd_children c); by apply Hbatch. }
  unfold runCommandsLocked. generalize (r_commands r) at 1. intros cs. revert r.
  induction cs as [|c cs IH]; intros r Hr; cbn [runCommands]; [exact Hr|]. destruct (r_stopped r); [exact Hr|].
  apply IH, Hone, Hr.
Qed.
Lemma reconcileLocked_well (r : Runtime) : well r -> well (reconcileLocked ops order r).
Proof.
  intros Hr. assert (Hfold : forall {A} (f : Runtime -> A -> Runtime) l (r : Runtime),
    (forall r a, well r -> well (f r a)) -> well r -> well (fold_left f l r)).
  { intros A f l. induction l as [|a l IH]; intros r' Hf H; cbn; [done|]. apply IH, Hf; auto. }
  unfold reconcileLocked. destruct (r_stopped r); [done|]. destruct (check_specs _ _) as [e|declared]; [apply failLocked_well|].
  apply Hfold; [|apply Hfold; [|done]].
  - intros r' s H. unfold declare. cbv zeta. destruct (match r_subs r' !! _ with Some _ => _ | None => _ end); [done|]. by destruct (_ || _).
  - intros r' s H. by case_bool_decide.
Qed.
Lemma renderLocked_well (r r' : Runtime) : well r -> renderLocked ops r = Ok r' -> well r'.
Proof.
  intros Hr. unfold renderLocked. destruct (r_model r) as [m|]; [|by intros [= <-]]. destruct (m_View _ ops m) as [n|].
  - destruct (Renderer_Render _ _ _ _) as [[rd f]| |]; [|done..]. by intros [= <-].
  - intros [= <-]. apply failLocked_well.
Qed.
Lemma processQueue_well fuel : forall (r r' : Runtime) log,
  well r -> processQueue ops order fuel r = Some (Ok (r', log)) -> well r'.
Proof.
  induction fuel as [|fuel IH]; intros r r' log Hr; cbn [processQueue];
    (destruct (r_queue r) as [|e q]; [by intros [= <- <-]|]); (destruct (r_stopped r) eqn:Hs; [by intros [= <- <-]|]);
    (destruct (r_model r) as [m|]; [|by intros [= <- <-]]); [done|].
  unfold process_event. destruct (m_Update _ ops m e) as [m' c].
  destruct (renderLocked ops _) as [r1| |] eqn:H1; [|done..].
  destruct (processQueue ops order fuel r1) as [[[r2 log2]| |]|] eqn:H2; [|done..]. intros [= <- <-].
  eapply IH; [|exact H2]. eapply renderLocked_well; [|exact H1]. by apply reconcileLocked_well, runCommandsLocked_well.
Qed.

(** ** The entry points *)

(** What of an event enters the queue: the events the filters make of a message; what
    the interface makes of an input it handles; any other event itself. *)
Definition entering (r : Runtime) (e : any) : list any :=
  match e with
  | Some (MessageEvent _ _) => filtered order r e
  | _ =>
    let '(_, (semantic, handled)) := uiinput.HandleFrame (r_frame r) (toUIInput e) (Some (r_focus r)) in
    if handled then match semantic with Some s => [Some s] | None => [] end else [e]
  end.

Definition event_sized (e : any) : Prop :=
  match e with Some (ResizeEvent w h) => w <= 2 ^ 31 /\ h <= 2 ^ 31 | _ => True end.

Lemma resized_spec (r : Runtime) m e : event_sized e -> ready r m ->
  ready (resized r e) m /\ r_queue (resized r e) = r_queue r /\ r_stopped (resized r e) = r_stopped r /\
  r_frame (resized r e) = r_frame r /\ r_focus (resized r e) = r_focus r /\ r_initialized (resized r e) = r_initialized r /\
  filtered order (resized r e) e = filtered order r e /\ (resized r e = r \/ entering r e = [e]).
Proof.
  intros He (Hm & Hc & Hok & Hkey & Hsz & Hrun). unfold resized. destruct e as [[| | |w h| | |]|];
    try (by (split; [by split_and!|]; split_and!; try done; left)).
  split; [|split_and!; try done].
  - split_and!; try done. destruct Hok. by split.
    unfold sized in *. cbn [set_size r_width r_height]. cbn in He. destruct (0 <? w), (0 <? h); lia.
  - right. unfold entering, toUIInput, uiinput.HandleFrame, uiinput.handleHits. by destruct (root (r_frame r)).
Qed.

Lemma route_spec (r : Runtime) m e : ready r m -> r_queue r = [] ->
  ready (route order r e) m /\ r_queue (route order r e) = entering r e /\ r_stopped (route order r e) = r_stopped r /\
  r_frame (route order r e) = r_frame r /\ r_initialized (route order r e) = r_initialized r /\
  r_width (route order r e) = r_width r /\ r_height (route order r e) = r_height r /\
  (subscribed r m -> subscribed (route order r e) m).
Proof.
  intros Hr Hq. assert (Hsame : forall rd f k q, ready (set_work (set_frame r rd f k) q (r_commands r)) m).
  { intros rd f k q. destruct Hr as (Hm & Hc & Hok & Hkey & Hsz & Hrun). split_and!; try done. destruct Hok. by split. }
  unfold route, entering. assert (Hplain : match e with Some (MessageEvent _ _) => False | _ => True end ->
    let '(focus, (semantic, handled)) := uiinput.HandleFrame (r_frame r) (toUIInput e) (Some (r_focus r)) in
    let r1 := set_frame r (r_renderer r) (r_frame r) (default [] focus) in
    let r' := if handled then enqueue_event r1 semantic else enqueue r1 e in
    ready r' m /\ r_queue r' = (if handled then match semantic with Some s => [Some s] | None => [] end else [e]) /\
    r_stopped r' = r_stopped r /\ r_frame r' = r_frame r /\ r_initialized r' = r_initialized r /\
    r_width r' = r_width r /\ r_height r' = r_height r /\ (subscribed r m -> subscribed r' m)).
  { intros _. destruct (uiinput.HandleFrame _ _ _) as [focus [semantic handled]]. cbv zeta.
    set (r1 := set_frame _ _ _ _). specialize (Hsame (r_renderer r) (r_frame r) (default [] focus)).
    destruct handled; [destruct semantic as [s|]|]; (split; [first [apply Hsame | exact (Hsame (r_queue r))]|]); cbn; rewrite ?Hq; by split_and!. }
  destruct e as [[| | | |topic data| |]|]; try (specialize (Hplain I); destruct (uiinput.HandleFrame _ _ _) as [focus [semantic handled]]; exact Hplain).
  split; [exact (Hsame (r_renderer r) (r_frame r) (r_focus r) _)|]. cbn. rewrite Hq. by split_and!.
Qed.

(** A dispatch is a run of the loop. *)
Lemma dispatch_loop fuel (r : Runtime) m e :
  r_initialized r = true -> r_stopped r = false -> r_queue r = [] -> steady r m -> event_sized e ->
  match loop fuel m (entering r e) with
  | None => Dispatch ops order fuel r e = None
  | Some (m', log, left_, ended) =>
    exists r', Dispatch ops order fuel r e = Some (Ok (r', log, r_lastErr r')) /\ r_initialized r' = true /\
      r_stopped r' = ended /\ r_queue r' = left_ /\ steady r' m' /\ (log <> [] -> focused r') /\ (ended = false -> left_ = [])
  end.
Proof.
  intros Hinit Hst Hq (Hready & Hshow & Hsub) He. unfold Dispatch, initLocked. rewrite Hinit. cbn [negb andb]. rewrite Hst.
  destruct (resized_spec r m e He Hready) as (Hr1 & Hq1 & Hst1 & Hf1 & Hk1 & Hi1 & Hfil & Hsame).
  assert (Hent : entering (resized r e) e = entering r e) by (unfold entering; by rewrite Hf1, Hk1, Hfil).
  destruct (route_spec (resized r e) m e Hr1) as (Hr2 & Hq2 & Hst2 & Hf2 & Hi2 & Hw2 & Hh2 & Hsub2); [congruence|].
  set (r2 := route order (resized r e) e) in *. rewrite Hent in Hq2.
  pose proof (processQueue_loop fuel r2 m ltac:(congruence) Hr2) as Hloop. rewrite Hq2 in Hloop.
  assert (Hleft : forall fuel m q m' log left_, loop fuel m q = Some (m', log, left_, false) -> left_ = []).
  { clear. induction fuel as [|fuel IH]; intros m [|e q] m' log left_; cbn [loop]; [by intros [= <- <- <-]|done|by intros [= <- <- <-]|].
    destruct (m_Update _ ops m e) as [m1 c]. destruct (effect c) as [es []]; [done|].
    destruct (loop fuel m1 _) as [[[[m2 log'] l] b]|] eqn:Hl; [|done]. intros [= <- <- <- ->]. by eapply IH. }
  specialize (Hleft fuel m (entering r e)).
  destruct (loop fuel m (entering r e)) as [[[[m' log] left_] b]|] eqn:Hres; [|by rewrite Hloop].
  destruct Hloop as (r' & -> & Hr' & Hi' & Hq' & Hst' & Hnil & Hcons). exists r'. split; [done|]. split; [congruence|].
  split; [done|]. split; [done|]. split; [|split; [by intros Hlog; apply Hcons|by intros ->; eapply Hleft]].
  destruct log as [|x log]; [|by apply Hcons]. destruct (Hnil eq_refl) as [-> ->]. destruct Hsame as [Hsame|Hsame].
  - rewrite Hsame in *. split; [done|]. split; [|intros _; by apply Hsub2, Hsub].
    destruct Hshow as (node & H1 & H2 & H3 & H4). exists node. rewrite Hf2, Hw2, Hh2. by split_and!.
  - exfalso. rewrite Hsame in Hres. destruct fuel; cbn [loop] in Hres; [done|].
    destruct (m_Update _ ops m e) as [m1 c]. destruct (effect c) as [es []]; [done|]. by destruct (loop fuel m1 _) as [[[[? ?] ?] ?]|].
Qed.

(** C26 (the runtime is an event loop): a running application whose views exist and whose
    declarations are well-formed takes an event exactly as the plain loop does that
    knows neither interface, frame nor subscriptions: a message enters it as what the
    filters make of it, an input that a button takes as the button's event or not at
    all and never as a raw event too, any other event as itself; [Update] is then
    given each event of the queue in order, followed by the events of the commands it
    returns, until the queue is empty or the session ends.  Afterwards the frame is
    the view of the model at the current size, the focus stands for one of its buttons,
    and exactly the declared subscriptions exist, with a source running for exactly
    those that have one. *)
Theorem dispatch_refines_loop fuel (r : Runtime) m e :
  r_initialized r = true -> r_stopped r = false -> r_queue r = [] -> steady r m -> event_sized e ->
  match loop fuel m (entering r e) with
  | None => Dispatch ops order fuel r e = None
  | Some (m', log, left_, ended) =>
    exists r', Dispatch ops order fuel r e = Some (Ok (r', log, r_lastErr r')) /\ r_initialized r' = true /\
      r_stopped r' = ended /\ r_queue r' = left_ /\ steady r' m' /\ (log <> [] -> focused r') /\ (ended = false -> left_ = [])
  end.
Proof. intros. by apply dispatch_loop. Qed.

(** What [Init] runs before the first events. *)
Definition startup (m : M) : M * Command := match m_Init _ ops with Some f => f m | None => (m, Noop) end.

Lemma new_ready m w h q : w <= 2 ^ 31 -> h <= 2 ^ 31 ->
  ready (set_work (set_model (set_initialized (NewRuntime (Error:=Error) (Some m) w h)) m) q []) m.
Proof.
  intros Hw Hh. split; [done|]. split; [done|]. split; [split|]; cbn.
  - intros k id Hk. by rewrite lookup_empty in Hk.
  - intros k k' id Hk. by rewrite lookup_empty in Hk.
  - intros id Hid. by apply not_elem_of_empty in Hid.
  - intros k id Hk. by rewrite lookup_empty in Hk.
  - split; [intros k s Hk; cbn in Hk; by rewrite lookup_empty in Hk|]. split; [|intros k s Hk; cbn in Hk; by rewrite lookup_empty in Hk].
    unfold sized. cbn. destruct (w <=? 0), (h <=? 0); lia.
Qed.

(** What a dispatch leaves as it was. *)
Lemma Dispatch_rest fuel (r r' : Runtime) e log err :
  r_initialized r = true -> r_stopped r = false -> Dispatch ops order fuel r e = Some (Ok (r', log, err)) ->
  r_width r' = r_width (resized r e) /\ r_height r' = r_height (resized r e) /\ r_initialized r' = true /\ (well r -> well r').
Proof.
  intros Hi Hs. unfold Dispatch, initLocked. rewrite Hi. cbn [negb andb].
  assert (Hres : r_stopped (resized r e) = r_stopped r /\ r_initialized (resized r e) = r_initialized r /\ (well r -> well (resized r e)))
    by (by destruct e as [[]|]). destruct Hres as (_ & Hi1 & Hw1).
  rewrite Hs.
  assert (Hroute : same_size (resized r e) (route order (resized r e) e) /\ (well (resized r e) -> well (route order (resized r e) e))).
  { unfold route. destruct e as [[]|]; try (by split); destruct (uiinput.HandleFrame _ _ _) as [f [[s|] []]]; by split. }
  destruct Hroute as [Hroute Hw2].
  destruct (processQueue ops order fuel (route order (resized r e) e)) as [[[r1 log1]| |]|] eqn:H; [|done..].
  intros [= <- <- <-]. pose proof (processQueue_size _ _ _ _ H) as (S1 & S2 & S3). destruct Hroute as (S4 & S5 & S6).
  split; [congruence|]. split; [congruence|]. split; [congruence|]. intros Hw. eapply processQueue_well; [|exact H]. auto.
Qed.

Lemma Dispatch_more fuel fuel' (r : Runtime) e x : r_initialized r = true -> (fuel <= fuel')%nat ->
  Dispatch ops order fuel r e = Some x -> Dispatch ops order fuel' r e = Some x.
Proof.
  intros Hi Hle. unfold Dispatch, initLocked. rewrite Hi. cbn [negb andb]. destruct (r_stopped r); [done|].
  destruct (processQueue ops order fuel _) as [y|] eqn:Hy; [|done]. by rewrite (processQueue_more _ _ _ _ Hle Hy).
Qed.

(** From the end of the first command to the first frame. *)
Lemma start_spec fuel m c (r : Runtime) :
  ready r m -> r_queue r = (effect c).1 -> r_stopped r = (effect c).2 -> r_initialized r = true ->
  match (if (effect c).2 then Some (m, [], (effect c).1, true) else loop fuel m (effect c).1) with
  | None => processQueue ops order fuel r = None
  | Some (m', log, left_, ended) =>
    exists r1 r', processQueue ops order fuel r = Some (Ok (r1, log)) /\ renderLocked ops (reconcileLocked ops order r1) = Ok r' /\
      r_initialized r' = true /\ r_stopped r' = ended /\ r_queue r' = left_ /\ steady r' m' /\ focused r'
  end.
Proof.
  intros Hr Hq Hs Hi. destruct (effect c) as [es []]; cbn [fst snd] in *.
  - destruct (refresh_spec r m Hr) as (r' & Hr' & [Hsteady Hfocus] & Hq' & Hs' & Hi'). exists r, r'.
    assert (Hdone : processQueue ops order fuel r = Some (Ok (r, []))).
    { destruct fuel; cbn [processQueue]; rewrite Hs; by destruct (r_queue r). }
    split; [done|]. split; [done|]. split; [congruence|]. split; [congruence|]. split; [congruence|]. by split.
  - pose proof (processQueue_loop fuel r m Hs Hr) as Hloop. rewrite Hq in Hloop.
    destruct (loop fuel m es) as [[[[m' log] left_] b]|]; [|done].
    destruct Hloop as (r1 & H1 & Hr1 & Hi1 & Hq1 & Hs1 & _).
    destruct (refresh_spec r1 m' Hr1) as (r' & Hr' & [Hsteady Hfocus] & Hq' & Hs' & Hi'). exists r1, r'.
    split; [done|]. split; [done|]. split; [congruence|]. split; [congruence|]. split; [congruence|]. by split.
Qed.

(** (start): [Init] of a new runtime runs the model's [Init], if it has one, its
    command and the events that follow; the runtime is then as after any event, and
    a second [Init] does nothing. *)
Theorem init_exact fuel m w h :
  w <= 2 ^ 31 -> h <= 2 ^ 31 ->
  let r := NewRuntime (Some m) w h in
  let '(m1, c) := startup m in
  let start := if (effect c).2 then Some (m1, [], (effect c).1, true) else loop fuel m1 (effect c).1 in
  match start with
  | None => Init ops order fuel r = None
  | Some (m', log, left_, ended) =>
    exists r', Init ops order fuel r = Some (Ok (r', log)) /\ r_initialized r' = true /\ r_stopped r' = ended /\ r_queue r' = left_ /\
      steady r' m' /\ focused r' /\ Init ops order fuel r' = Some (Ok (r', []))
  end.
Proof.
  intros Hw Hh r. unfold Init, initLocked. cbn [NewRuntime r r_initialized r_model set_initialized].
  set (r0 := set_initialized r). unfold startup. destruct (m_Init _ ops) as [f|].
  - destruct (f m) as [m1 c] eqn:Hf. set (r1 := set_work (set_model r0 m1) (r_queue r0) (r_commands r0 ++ [c])).
    pose proof (new_ready m1 w h [] Hw Hh) as (_ & _ & Hok & Hkey & Hsz & Hrun).
    destruct (run_one_ready r1 m1 c) as (Hr & Hq & Hs & Hi); [done|done|done|by destruct Hok|exact Hkey|exact Hrun|exact Hsz|].
    pose proof (start_spec fuel m1 c _ Hr Hq Hs Hi) as Hstart. cbv zeta.
    destruct (if (effect c).2 then _ else _) as [[[[m' log] left_] b]|]; [|by rewrite Hstart].
    destruct Hstart as (r2 & r' & -> & Hr' & H1 & H2 & H3 & H4 & H5). exists r'. cbn [rbind]. rewrite Hr'. cbn [rbind].
    split; [done|]. split_and!; try done. by rewrite H1.
  - pose proof (new_ready m w h [] Hw Hh) as Hr.
    pose proof (start_spec fuel m Noop (runCommandsLocked r0) Hr eq_refl eq_refl eq_refl) as Hstart. cbv zeta.
    destruct (if (effect Noop).2 then _ else _) as [[[[m' log] left_] b]|]; [|by rewrite Hstart].
    destruct Hstart as (r2 & r' & -> & Hr' & H1 & H2 & H3 & H4 & H5). exists r'. cbn [rbind]. rewrite Hr'. cbn [rbind].
    split; [done|]. split_and!; try done. by rewrite H1.
Qed.

(** (the end is final): after the session has ended, by [Quit], a failed command,
    [Stop] or an invalid declaration or view, nothing reaches the model any more:
    events and the clock are refused with [ErrRuntimeStopped], sources are silent. *)
Theorem stopped_is_final fuel (r : Runtime) e d id :
  r_initialized r = true -> r_stopped r = true ->
  Dispatch ops order fuel r e = Some (Ok (r, [], Some ErrRuntimeStopped)) /\
  Advance ops order fuel r d = Some (Ok (r, [], Some ErrRuntimeStopped)) /\
  emit ops order fuel r id e = Some (Ok (r, [])) /\ Stop r = r /\ Init ops order fuel r = Some (Ok (r, [])).
Proof.
  intros Hi Hs. unfold Dispatch, Advance, emit, Stop, stopLocked, Init, initLocked. rewrite Hi, Hs. cbn [negb andb].
  rewrite andb_false_r. by split_and!.
Qed.

(** (subscriptions are reconciled): a declaration keeps the source of every key
    whose definition has not changed, without a restart, gives a new source to every
    new or changed key that has one, and ends the source of every other key; no two
    keys share a source. A declaration with an empty or repeated key or a timer without
    a positive interval ends the session, and every source with it. *)
Theorem reconcile_exact (r : Runtime) m :
  r_stopped r = false -> ready r m ->
  let r' := reconcileLocked ops order r in
  (specs_ok (declared_by m) ->
     r_stopped r' = false /\ Forall (declared_at r r') (declared_by m) /\
     (forall k, ~ (k ∈ map sub_Key (declared_by m)) -> r_subs r' !! k = None /\ source_at r' k = None) /\
     (forall k k' id, source_at r' k = Some id -> source_at r' k' = Some id -> k = k') /\
     (forall id, id ∈ r_live r' -> exists k, k ∈ map sub_Key (declared_by m) /\ source_at r' k = Some id)) /\
  (~ specs_ok (declared_by m) -> r_stopped r' = true /\ r_live r' = ∅ /\ r_lastErr r' <> None).
Proof.
  intros Hst (Hm & Hc & Hok & Hkey & Hsz & Hrun). rewrite Hst in Hrun.
  destruct (reconcile_spec r m Hst Hm Hok Hkey) as (_ & _ & _ & Hok' & _ & Hgood & Hbad). cbv zeta. split; [|done].
  intros Hs. destruct (Hgood Hs) as (H1 & H2 & H3). split; [done|]. split; [done|]. split; [done|]. split.
  - intros k k' id. unfold source_at. intros Hk Hk'. 
    destruct (r_cancel _ !! k) as [i|] eqn:Hi; [|done]. destruct (r_cancel _ !! k') as [j|] eqn:Hj; [|done].
    destruct (bool_decide (i ∈ _)); [|done]. destruct (bool_decide (j ∈ _)); [|done]. injection Hk as ->. injection Hk' as ->.
    by eapply so_inj.
  - destruct (reconcile_subscribed r m Hst Hm Hok Hkey Hrun Hs) as (_ & _ & _ & H). exact H.
Qed.
End Laws.


(** ** The virtual clock *)

Section Clock.
Context {D Error M : Type} (order : gmap bytes (@SubscriptionSpec D) -> list (@SubscriptionSpec D)).

Lemma quot_mono i a b : 0 < i -> 0 <= a <= b -> Z.quot a i <= Z.quot b i.
Proof. intros Hi Hab. apply Z.quot_le_mono; lia. Qed.

(** The ticks up to one moment and those from there on. *)
Lemma ticks_split (s : @SubscriptionSpec D) a b c : 0 <= a <= b -> b <= c -> ticks a c s = ticks a b s ++ ticks b c s.
Proof.
  intros Hab Hbc. unfold ticks. destruct (sub_Timer s) as [[i e]|]; [|done]. destruct (i <=? 0) eqn:Hi; [done|].
  rewrite Z.leb_gt in Hi. pose proof (quot_mono i a b Hi Hab). pose proof (quot_mono i b c Hi ltac:(lia)).
  rewrite <- replicate_add. f_equal. lia.
Qed.

Lemma concat_app_perm {A B} (f g : A -> list B) l :
  concat (map (fun x => f x ++ g x) l) ≡ₚ concat (map f l) ++ concat (map g l).
Proof.
  induction l as [|x l IH]; [done|]. cbn. rewrite IH, <- !app_assoc. apply Permutation_app_head.
  rewrite !app_assoc. apply Permutation_app_tail, Permutation_app_comm.
Qed.

(** (virtual time): advancing the clock in two steps queues the events that one
    step over the same time queues, none twice and none lost, and leaves the clock
    at the same time. *)
Theorem advance_split (r : @Runtime D Error M) d1 d2 :
  0 <= r_elapsed r -> 0 < d1 -> 0 < d2 -> r_elapsed r + d1 + d2 < 2 ^ 63 ->
  let r2 := advance order (advance order r d1) d2 in
  let r' := advance order r (d1 + d2) in
  r_queue r2 ≡ₚ r_queue r' /\ r_elapsed r2 = r_elapsed r' /\ r_elapsed r' = r_elapsed r + d1 + d2.
Proof.
  intros He H1 H2 Hmax. unfold advance. rewrite !(proj2 (Z.leb_gt _ 0)) by lia. cbv zeta. cbn [r_queue r_elapsed r_subs set_clock set_work].
  set (t := r_elapsed r) in *. replace (t + (d1 + d2)) with (t + d1 + d2) by lia.
  rewrite !(i64_small (t + d1)) by (unfold is_i64; lia). rewrite !(i64_small (t + d1 + d2)) by (unfold is_i64; lia).
  replace (t + d1 - d1) with t by lia. replace (t + d1 + d2 - d2) with (t + d1) by lia. replace (t + d1 + d2 - (d1 + d2)) with t by lia.
  rewrite !(i64_small t), !(i64_small (t + d1)) by (unfold is_i64; lia).
  split; [|by split]. rewrite <- app_assoc. apply Permutation_app_head. rewrite <- concat_app_perm.
  apply Permutation_refl'. f_equal. apply map_ext. intros s. symmetry. apply ticks_split; lia.
Qed.
End Clock.

(** ** An application *)

(** The model counts: a press of its button adds one and runs a task, whose event adds
    ten; a key event ends the session. Below 20 it has a timer. *)
Definition sample_app : @Model unit unit Z := mkModel Z
  None
  (fun m e => match e with
     | Some (Domain _) => (m + 1, Batch [Noop; Task (Some (Some (TimerEvent 7), None))])
     | Some (TimerEvent 7) => (m + 10, Noop)
     | Some (KeyEvent _ _ _ _ _) => (m, Quit (str "bye"))
     | _ => (m, Noop)
     end)
  (fun m => Some (Column [Some (Text (if m <? 10 then str "few" else str "many")); Some (Key (Button (str "add") (Some (Domain tt))) (str "add"))]))
  (Some (fun m => if m <? 20 then Every (fun _ => str "100") (str "tick") 100 (Some (TimerEvent 1)) else [])).

Definition any_order (m : gmap bytes (@SubscriptionSpec unit)) : list (@SubscriptionSpec unit) := map snd (map_to_list m).

Definition sample_ready : @Runtime unit unit Z := set_initialized (NewRuntime (Some 0) 20 5).

(** After the start. *)
Definition sample_running : @Runtime unit unit Z :=
  match renderLocked sample_app (reconcileLocked sample_app any_order sample_ready) with Ok r => r | _ => sample_ready end.

Lemma sample_viewable m : viewable sample_app m.
Proof.
  eexists. split; [reflexivity|].
  repeat first [apply sane_node | apply Forall_cons_2 | apply Forall_nil_2 | exact I];
    try (split_and!; try (destruct (m <? 10); split; vm_compute; discriminate); done);
    vm_compute; discriminate.
Qed.

Lemma sample_specs m : specs_ok (declared_by sample_app m).
Proof.
  unfold declared_by, specs_ok. cbn. destruct (m <? 20); cbn; split; repeat constructor; try done.
  by intros ?%elem_of_nil.
Qed.

Lemma sample_sources_ready : ready (M:=Z) sample_ready 0.
Proof. exact (new_ready 0 20 5 [] ltac:(lia) ltac:(lia)). Qed.

Lemma sample_steady : steady sample_app sample_running 0.
Proof.
  destruct (refresh_spec sample_app any_order (fun _ => Permutation_refl _) sample_viewable sample_specs sample_ready 0 sample_sources_ready)
    as (r & Hr & [Hs _] & _). unfold sample_running. by rewrite Hr.
Qed.

(** Enter with the focus on the button: two updates, and no raw key event. *)
Lemma dispatch_refines_loop_witness :
  exists r', Dispatch sample_app any_order 5 sample_running (Some (KeyEvent KeyEnter false false false false))
    = Some (Ok (r', [Some (Domain tt); Some (TimerEvent 7)], r_lastErr r')) /\ r_model r' = Some 11 /\ r_stopped r' = false.
Proof.
  pose proof (dispatch_refines_loop sample_app any_order (fun _ => Permutation_refl _) sample_viewable sample_specs 5 sample_running 0
    (Some (KeyEvent KeyEnter false false false false)) ltac:(vm_compute; reflexivity) ltac:(vm_compute; reflexivity)
    ltac:(vm_compute; reflexivity) sample_steady I) as H.
  assert (Hin : entering any_order sample_running (Some (KeyEvent KeyEnter false false false false)) = [Some (Domain tt)]) by (vm_compute; reflexivity).
  rewrite Hin in H. change (loop sample_app 5 0 [Some (Domain tt)]) with (Some (11, [@Some (@Event unit) (Domain tt); Some (TimerEvent 7)], @nil (option (@Event unit)), false)) in H.
  destruct H as (r' & H1 & _ & H2 & _ & H3 & _). exists r'. split; [exact H1|]. split; [exact (proj1 (proj1 H3))|exact H2].
Defined.

Lemma init_exact_witness :
  exists r', Init sample_app any_order 5 (NewRuntime (Some 0) 20 5) = Some (Ok (r', [])) /\ r_stopped r' = false /\ shows sample_app r' 0.
Proof.
  pose proof (init_exact sample_app any_order (fun _ => Permutation_refl _) sample_viewable sample_specs 5 0 20 5 ltac:(lia) ltac:(lia)) as H.
  cbn [startup m_Init sample_app] in H. destruct H as (r' & H1 & _ & H2 & _ & H3 & _).
  exists r'. split; [exact H1|]. split; [exact H2|]. exact (proj1 (proj2 H3)).
Defined.

Lemma stopped_is_final_witness :
  Dispatch sample_app any_order 5 (Stop sample_running) (Some (Domain tt)) = Some (Ok (Stop sample_running, [], Some ErrRuntimeStopped)).
Proof.
  apply (stopped_is_final sample_app any_order 5 (Stop sample_running) (Some (Domain tt)) 1 0%nat);
    vm_compute; reflexivity.
Defined.

Lemma reconcile_exact_witness :
  Forall (declared_at sample_ready (reconcileLocked sample_app any_order sample_ready)) (declared_by sample_app 0) /\
  declared_by sample_app 0 <> [].
Proof.
  split; [|discriminate].
  apply (proj1 (reconcile_exact sample_app any_order (fun _ => Permutation_refl _) sample_ready 0 eq_refl sample_sources_ready)), sample_specs.
Defined.

Lemma advance_split_witness :
  r_queue (advance any_order (advance any_order sample_running 150) 160) ≡ₚ [Some (TimerEvent 1); Some (TimerEvent 1); Some (TimerEvent 1)].
Proof.
  destruct (advance_split any_order sample_running 150 160) as [H _]; [vm_compute; discriminate|lia|lia|vm_compute; reflexivity|].
  eapply perm_trans; [exact H|]. vm_compute. reflexivity.
Defined.

(** ** What modelling showed *)

(** (commands in a batch): a batch runs neither the end of the session nor the batches
    among its commands: its children are only ever run as tasks. *)
Theorem batch_drops_quit goodbye (c1 c2 : outcome (D:=unit) (Error:=unit)) :
  let inner := Batch [Task (Some c1); Task (Some c2)] in
  runCommandLocked sample_running (Batch [Quit goodbye; inner]) = sample_running.
Proof. reflexivity. Qed.

(** (a timer's event): the definition of a timer is its interval alone, so that a new event
    under the same key and interval is not taken over. *)
Theorem timer_event_kept itoa k i (e1 e2 : option (@Event unit)) (r : @Runtime unit unit Z) :
  r_subs r !! k = head (Every itoa k i e1) -> fold_left declare (Every itoa k i e2) r = r.
Proof. intros Hk. cbn in *. unfold declare. cbn. rewrite Hk. cbn. by rewrite bool_decide_true. Qed.

(** (the first tick): timers tick at the multiples of their interval since the start, not
    since they were declared. *)
Theorem timer_ticks_early :
  let r := set_clock sample_ready 90 false in
  r_subs r !! str "tick" = None /\
  r_queue (advance any_order (reconcileLocked sample_app any_order r) 10) = [Some (TimerEvent 1)].
Proof. vm_compute. by split. Qed.
