(* ===== verification/AppHost.v ===== *)
(** * An application in its sandbox (sdk/app wasip1.go, frame.go)

    The loop that connects an application's runtime to the host: received bytes become
    application events, the frame becomes bytes.  Composed with the codecs of the
    ABI, the keyboard and the host's decoder: what is typed reaches the model, and what
    the model shows reaches the host.

    The answers of the host's functions and the order in which a map is ranged over are
    arguments. *)

From S2P Require Import Prelude Abi AbiCaps Utf8 GoStrings Keyboard Input Ui UiLaws UiInput AppRuntime AppLaws.

Module apphost.

(** ** Events from the host (wasip1.go) *)

Definition cleanKeys : gmap Z Z := list_to_map [
  (KeyArrowUp, app.KeyUp); (KeyArrowDown, app.KeyDown); (KeyArrowLeft, app.KeyLeft); (KeyArrowRight, app.KeyRight);
  (KeyEnter, app.KeyEnter); (KeyEscape, app.KeyEscape); (KeyTab, app.KeyTab); (KeyBackspace, app.KeyBackspace);
  (KeyDelete, app.KeyDelete); (KeyHome, app.KeyHome); (KeyEnd, app.KeyEnd); (KeyPageUp, app.KeyPageUp);
  (KeyPageDown, app.KeyPageDown); (KeyCtrlC, app.KeyCtrlC)].

Definition cleanKey (key : Z) : option Z := cleanKeys !! key.

Definition has_mod (e : Abi.Event) (m : Z) : bool := negb (Z.land (Mods e) m =? 0).

Definition cleanEvent {D} (e : Abi.Event) : option (@app.Event D) :=
  if Kind e =? KindResize then Some (app.ResizeEvent (ev_W e) (ev_H e))
  else if Kind e =? KindMessage then Some (app.MessageEvent (Topic e) (Data e))
  else if Kind e =? KindMouse then Some (app.MouseEvent (MouseX e) (MouseY e) (Button e) (Action e))
  else if Kind e =? KindTimer then Some (app.TimerEvent (CommandID e))
  else if Kind e =? KindKey then
    match (if Key e =? KeyRune then Some (Ch e) else cleanKey (Key e)) with
    | Some key => Some (app.KeyEvent key (has_mod e ModShift) (has_mod e ModCtrl) (has_mod e ModAlt) (has_mod e ModCmd))
    | None => None
    end
  else None.

(** ** Frames for the host (frame.go) *)

Definition abi_color (c : ui.Color) : RGB := mkRGB (ui.col_R c) (ui.col_G c) (ui.col_B c).

Definition has_decor (s : ui.Style) (d : Z) : bool := negb (Z.land (ui.Decorations s) d =? 0).

(** One cell of the grid. *)
Definition convert_cell (cell : ui.Cell) : Cell :=
  let s := ui.c_Style cell in
  let fg := if ui.HasForeground s then ui.Foreground s else ui.RGB 200 200 200 in
  let bg := if ui.HasBackground s then ui.Background s else ui.RGB 25 23 29 in
  let decor := 0 in
  let decor := if has_decor s ui.Bold then Z.lor decor DecorBold else decor in
  let decor := if has_decor s ui.Underline then Z.lor decor DecorUnderline else decor in
  mkCell (ui.c_Rune cell) (abi_color fg) (abi_color bg) decor.

Section Frames.
Context {E : Type}.

(** The loops over the grid; [i] counts the cells [y*w+x]. *)
Fixpoint convert_cells (f : @ui.Frame E) (w : Z) (grid : list Z) (dst : list Cell) : res unit (list Cell) :=
  match grid with
  | [] => Ok dst
  | i :: grid' =>
    let y := i / w in
    let x := i mod w in
    let? dst := match ui.Frame_Cell f x y with
                | Some cell => put dst (y * w + x) (convert_cell cell)
                | None => Ok dst
                end in
    convert_cells f w grid' dst
  end.

(** [converter.frame]; [buf]: the buffer up to its capacity. *)
Definition convert_frame (buf : list Cell) (f : @ui.Frame E) (quit : bool) : res unit (list Cell * Frame) :=
  let w := ui.width f in
  let h := ui.height f in
  let n := w * h in
  let buf := if len buf <? n then replicate (Z.to_nat n) cell0 else buf in
  let? dst := slice buf 0 n in
  let? dst := convert_cells f w (seqZ 0 n) dst in
  Ok (dst ++ drop (Z.to_nat n) buf, mkFrame w h quit dst).
End Frames.

(** ** The loop (runPlatform) *)

(** What the guest calls the host with. *)
Inductive hostcall := CTimerStart (delay : Z) | CTimerCancel (id : Z) | CPresent (b : bytes) | CGoodbye (b : bytes).

Section Guest.
Context {D Error M : Type} (ops : @app.Model D Error M).
Context (order : gmap bytes (@app.SubscriptionSpec D) -> list (@app.SubscriptionSpec D)).
Abbreviation any := (option (@app.Event D)).
Abbreviation Runtime := (@app.Runtime D Error M).
Abbreviation AppErr := (@app.AppErr Error).

Definition HostedTimers (r : Runtime) : list (Z * any) := omap app.sub_Timer (order (app.r_subs r)).

(** The identifiers the host gives to the timers, in the order they are started. *)
Fixpoint start_timers (timers : list (Z * any)) (answers : list Z) (ids : gmap Z any) : gmap Z any :=
  match timers, answers with
  | (_, e) :: timers', id :: answers' =>
    start_timers timers' answers' (if 0 <? id then <[u32 id := e]> ids else ids)
  | _, _ => ids
  end.

Record guest := mkGuest { g_rt : Runtime; g_conv : list Cell; g_encoded : bytes; g_ids : gmap Z any }.

Definition emitGoodbye (r : Runtime) : list hostcall :=
  let message := app.r_goodbye r in
  if (len message =? 0) || (GoodbyeMaxLen <? len message) then [] else [CGoodbye message].

(** What a received buffer comes to. *)
Inductive incoming := Nothing | Unknown_timer | Deliver (e : any).

Definition received (ids : gmap Z any) (b : bytes) : res unit incoming :=
  if len b =? 0 then Ok Nothing else
  match DecodeEvent b with
  | Ok e =>
    match cleanEvent e with
    | Some (app.TimerEvent id) => match ids !! id with Some (Some e) => Ok (Deliver (Some e)) | _ => Ok Unknown_timer end
    | Some e => Ok (Deliver (Some e))
    | None => Ok Nothing
    end
  | Err _ => Ok Nothing
  | Panic => Panic
  end.

(** The frame is encoded into the spare capacity and presented. *)
Definition present (g : guest) : res unit (guest * hostcall) :=
  let? ' (conv, frame) := convert_frame (g_conv g) (app.r_frame (g_rt g)) (app.r_quit (g_rt g)) in
  match AppendFrame (g_encoded g) frame with
  | Ok b => Ok (mkGuest (g_rt g) conv (b ++ drop (length b) (g_encoded g)) (g_ids g), CPresent b)
  | _ => Panic
  end.

(** The end of one turn: [Some err] once the loop returns. *)
Definition shown (g : guest) : res unit (guest * list hostcall * option (option AppErr)) :=
  let? ' (g, c) := present g in
  if app.r_quit (g_rt g) then Ok (g, c :: emitGoodbye (g_rt g), Some (app.r_lastErr (g_rt g)))
  else Ok (g, [c], None).

(** One turn with the received bytes; [None]: out of fuel. *)
Definition turn (fuel : nat) (g : guest) (b : bytes) : option (res unit (guest * list hostcall * option (option AppErr))) :=
  match received (g_ids g) b with
  | Ok Nothing => Some (shown g)
  | Ok Unknown_timer => Some (Ok (g, [], None))
  | Ok (Deliver e) =>
    match app.Dispatch ops order fuel (g_rt g) e with
    | Some (Ok (r, _, err)) =>
      let g := mkGuest r (g_conv g) (g_encoded g) (g_ids g) in
      match err with
      | Some _ => Some (Ok (g, [], Some err))
      | None => Some (shown g)
      end
    | Some (Err x) => Some (Err x)
    | Some Panic => Some Panic
    | None => None
    end
  | Err x => Some (Err x)
  | Panic => Some Panic
  end.

(** The turns, until the host has no more input ([hostRecv] is negative). *)
Fixpoint turns (fuel : nat) (g : guest) (input : list bytes) : option (res unit (guest * list hostcall * option AppErr)) :=
  match input with
  | [] => Some (Ok (g, [], app.r_lastErr (g_rt g)))
  | b :: input' =>
    match turn fuel g b with
    | Some (Ok (g, calls, Some err)) => Some (Ok (g, calls, err))
    | Some (Ok (g, calls, None)) =>
      match turns fuel g input' with
      | Some (Ok (g, calls', err)) => Some (Ok (g, calls ++ calls', err))
      | other => other
      end
    | Some (Err x) => Some (Err x)
    | Some Panic => Some Panic
    | None => None
    end
  end.

(** [ids_order]: the order in which the deferred function ranges over [ids]. *)
Definition runPlatform (ids_order : gmap Z any -> list Z) (fuel : nat) (rt : Runtime) (answers : list Z) (input : list bytes) :
    option (res unit (Runtime * list hostcall * option AppErr)) :=
  let timers := HostedTimers rt in
  let ids := start_timers timers answers ∅ in
  let before := map (fun t => CTimerStart (fst t)) timers in
  let after := map CTimerCancel (ids_order ids) in
  if app.r_quit rt then Some (Ok (app.Stop rt, before ++ emitGoodbye rt ++ after, app.r_lastErr rt)) else
  match turns fuel (mkGuest rt [] [] ids) input with
  | Some (Ok (g, calls, err)) => Some (Ok (app.Stop (g_rt g), before ++ calls ++ after, err))
  | Some (Err x) => Some (Err x)
  | Some Panic => Some Panic
  | None => None
  end.
End Guest.
End apphost.
