(* ===== verification/AppHostLaws.v ===== *)
(** * An application in its sandbox: its laws

    What is typed reaches the model, what the model shows reaches the host (AppHost.v). *)

From S2P Require Import Prelude Abi AbiCaps Utf8 GoStrings Keyboard Input Ui UiLaws UiInput AppRuntime AppLaws AppHost.
Import apphost.

(** ** Rendering keeps to the types of cells *)

Definition color_typed (c : ui.Color) : Prop := is_u8 (ui.col_R c) /\ is_u8 (ui.col_G c) /\ is_u8 (ui.col_B c).
Definition style_typed (s : ui.Style) : Prop := color_typed (ui.Foreground s) /\ color_typed (ui.Background s).
Definition cell_typed (c : ui.Cell) : Prop := is_i32 (ui.c_Rune c) /\ style_typed (ui.c_Style c).
Definition theme_typed (t : ui.Theme) : Prop := forall k s, t !! k = Some s -> style_typed s.

Definition op_typed (o : ui.canvas_op) : Prop :=
  match o with
  | ui.DoSet _ _ v s | ui.DoFill _ _ _ _ v s => is_i32 v /\ style_typed s
  | ui.DoSetText _ _ t s => bytes_ok t /\ style_typed s
  end.

Inductive tree_typed {E} : @ui.Node E -> Prop :=
| typed_intro n : bytes_ok (ui.text (ui.nodeData n)) -> style_typed (ui.style (ui.nodeData n)) ->
    (forall d w h, ui.draw (ui.nodeData n) = Some d -> Forall op_typed (d w h)) ->
    (forall c, Some c ∈ ui.children n -> tree_typed c) -> tree_typed n.

Lemma style0_typed : style_typed ui.style0.
Proof. by vm_compute. Qed.

Lemma default_theme_typed : theme_typed ui.DefaultTheme.
Proof.
  change (map_Forall (fun _ s => style_typed s) ui.DefaultTheme). unfold ui.DefaultTheme. cbv zeta.
  repeat (apply map_Forall_insert_2; [by vm_compute|]). apply map_Forall_empty.
Qed.

Lemma resolve_typed s theme : style_typed s -> theme_typed theme -> style_typed (ui.resolveStyle s theme).
Proof.
  intros [Hf Hb] Ht. unfold ui.resolveStyle.
  set (role := match theme !! _ with Some role => role | None => _ end).
  assert (Hrole : style_typed role).
  { unfold role. destruct (theme !! ui.st_Role s) eqn:H1; [by eapply Ht|].
    destruct (theme !! ui.Default) eqn:H2; [by eapply Ht|apply style0_typed]. }
  destruct Hrole. destruct (negb (ui.HasForeground s) && ui.HasForeground role), (negb (ui.HasBackground s) && ui.HasBackground role); by split.
Qed.

Lemma land_bound a k : 0 <= k -> 0 <= Z.land a (Z.ones k) < 2 ^ k.
Proof. intros Hk. rewrite Z.land_ones by done. apply Z.mod_pos_bound. lia. Qed.

Lemma lor_bound a b k : 0 <= k -> 0 <= a < 2 ^ k -> 0 <= b < 2 ^ k -> 0 <= Z.lor a b < 2 ^ k.
Proof.
  intros Hk Ha Hb. assert (H0 : 0 <= Z.lor a b) by (apply Z.lor_nonneg; lia). split; [done|].
  destruct (Z.eq_dec (Z.lor a b) 0) as [->|Hne]; [lia|]. apply Z.log2_lt_pow2; [lia|].
  rewrite Z.log2_lor by lia. apply Z.max_lub_lt.
  - destruct (Z.eq_dec a 0) as [->|]; [|apply Z.log2_lt_pow2; lia].
    destruct (Z.eq_dec k 0) as [->|]; [|cbn; lia]. cbn in *. assert (b = 0) as -> by lia. done.
  - destruct (Z.eq_dec b 0) as [->|]; [|apply Z.log2_lt_pow2; lia].
    destruct (Z.eq_dec k 0) as [->|]; [|cbn; lia]. cbn in *. assert (a = 0) as -> by lia. done.
Qed.

Lemma decode_rune_typed p : bytes_ok p -> is_i32 (decode_rune p).1.
Proof.
  intros Hp. assert (Hshift : forall b m k n, m + n <= k -> 0 <= m -> 0 <= n -> 0 <= Z.shiftl (Z.land b (Z.ones m)) n < 2 ^ k).
  { intros b m k n Hk Hm Hn. rewrite Z.shiftl_mul_pow2 by done. pose proof (land_bound b m Hm) as Hb.
    assert (2 ^ m * 2 ^ n <= 2 ^ k) by (rewrite <- Z.pow_add_r by lia; apply Z.pow_le_mono_r; lia).
    pose proof (Z.pow_pos_nonneg 2 n ltac:(lia) Hn). nia. }
  assert (H31 : forall z, 0 <= z < 2 ^ 21 -> is_i32 z) by (unfold is_i32; intros; lia).
  assert (H6 : forall b, 0 <= low6 b < 2 ^ 21).
  { intros b. unfold low6. change 63 with (Z.ones 6). pose proof (land_bound b 6). lia. }
  assert (Herr : is_i32 RuneError) by (unfold is_i32, RuneError; lia).
  unfold decode_rune. destruct p as [|b0 p]; [done|]. apply Forall_cons in Hp as [H0 _].
  utf8_cases; cbn [fst]; first [exact Herr
    | apply H31; repeat (apply lor_bound; [lia| |]); try apply H6; unfold low6;
      change 31 with (Z.ones 5); change 15 with (Z.ones 4); change 7 with (Z.ones 3); change 63 with (Z.ones 6); apply Hshift; lia
    | unfold is_u8, is_i32 in *; lia].
Qed.

Lemma runes_typed t : bytes_ok t -> Forall is_i32 (runes t).
Proof.
  unfold runes. generalize (length t). intros fuel. revert t. induction fuel as [|fuel IH]; intros [|b t] Ht; cbn [runes_loop]; try constructor.
  pose proof (decode_rune_typed _ Ht) as Hr. destruct (decode_rune (b :: t)) as [r n]. constructor; [done|].
  apply IH. by apply Forall_drop.
Qed.

Lemma lines_typed t : bytes_ok t -> Forall bytes_ok (ui.lines t).
Proof.
  induction 1 as [|c t Hc _ IH]; cbn [ui.lines]; [constructor|]. destruct (c =? 10); [constructor; [constructor|done]|].
  destruct (ui.lines t); [constructor; [constructor; [done|constructor]|constructor]|].
  apply Forall_cons in IH as [? ?]. constructor; [by constructor|done].
Qed.

Section Typed.
Context {E : Type}.
Abbreviation UIFrame := (@ui.Frame E).

(** A computation that leaves the cells of a frame typed. *)
Definition typed (f : UIFrame) : Prop := Forall cell_typed (ui.cells f).
Definition typed_res (c : res unit UIFrame) : Prop := match c with Ok f => typed f | _ => True end.
Definition typed_pair {A} (c : res unit (UIFrame * A)) : Prop := match c with Ok (f, _) => typed f | _ => True end.

Lemma typed_bind c k : typed_res c -> (forall f, typed f -> typed_res (k f)) -> typed_res (rbind c k).
Proof. destruct c; cbn; auto. Qed.
Lemma typed_pair_bind {A B} (c : res unit (UIFrame * A)) (k : UIFrame * A -> res unit (UIFrame * B)) :
  typed_pair c -> (forall f a, typed f -> typed_pair (k (f, a))) -> typed_pair (rbind c k).
Proof. destruct c as [[f a]| |]; cbn; auto. Qed.

Lemma set_at_typed f x y c : typed f -> cell_typed c -> typed_res (ui.set_at f x y c).
Proof.
  intros Hf Hc. unfold ui.set_at, put. destruct (_ && _); [|done]. destruct (_ && _); [|done]. cbn [rbind]. unfold typed. cbn.
  unfold overwrite. apply Forall_app. split; [by apply Forall_take|]. apply Forall_app. split; [by constructor|by apply Forall_drop].
Qed.

Lemma draw_runes_typed x row w rs st : Forall is_i32 rs -> style_typed st ->
  forall offset f, typed f -> typed_res (ui.draw_runes f x row w offset rs st).
Proof.
  intros Hrs Hst. induction Hrs as [|v rs Hv _ IH]; intros offset f Hf; cbn [ui.draw_runes]; [done|].
  destruct (_ <=? _); [done|]. destruct (_ || _); [by apply IH|]. apply typed_bind; [|intros f' Hf'; by apply IH].
  apply set_at_typed; [done|]. split; [|done]. cbn. destruct (ui.safeRune v); [done|unfold is_i32; lia].
Qed.

Lemma drawText_typed f x y w h t st : typed f -> bytes_ok t -> style_typed st -> typed_res (ui.drawText f x y w h t st).
Proof.
  intros Hf Ht Hst. unfold ui.drawText. generalize 0 as i. revert f Hf.
  induction (lines_typed t Ht) as [|l ls Hl _ IH]; intros f Hf i; cbn [ui.draw_lines]; [done|].
  destruct (_ <=? _); [done|]. destruct (_ || _); [by apply IH|]. apply typed_bind; [|intros f' Hf'; by apply IH].
  apply draw_runes_typed; [by apply runes_typed|done|done].
Qed.

Lemma each_typed l step : (forall i f, typed f -> typed_res (step i f)) -> forall f, typed f -> typed_res (ui.each l step f).
Proof.
  intros Hstep. induction l as [|i l IH]; intros f Hf; cbn [ui.each]; [done|]. apply typed_bind; [by apply Hstep|exact IH].
Qed.

Lemma drawBorder_typed f x y w h b st : typed f -> style_typed st -> typed_res (ui.drawBorder f x y w h b st).
Proof.
  intros Hf Hst. unfold ui.drawBorder. destruct (_ || _); [done|].
  assert (Hset : forall f x y v, typed f -> is_i32 v -> typed_res (ui.set_at f x y (ui.mkCell v st))) by (intros; by apply set_at_typed).
  case_bool_decide; cbv zeta;
    repeat (intros; first [assumption | apply Hset; [assumption|by vm_compute] | apply each_typed | apply typed_bind]).
Qed.

Lemma Surface_Set_typed s f x y v st : typed f -> is_i32 v -> style_typed st -> typed_pair (ui.Surface_Set s f x y v st).
Proof.
  intros Hf Hv Hst. unfold ui.Surface_Set. destruct (_ || _); [done|]. destruct (negb _); [done|].
  pose proof (set_at_typed f (i64 (ui.s_x s + x)) (i64 (ui.s_y s + y)) (ui.mkCell v st) Hf) as H.
  destruct (ui.set_at _ _ _ _); cbn; [apply H; by split|done..].
Qed.

Lemma run_op_typed s f o : typed f -> op_typed o -> typed_res (ui.run_op s f o).
Proof.
  intros Hf Ho.
  assert (Hout : forall {A} (c : res unit (UIFrame * A)), typed_pair c -> typed_res (let? ' (f, _) := c in Ok f)) by (by intros A [[]| |]).
  destruct o as [x y v st|x y t st|x y w h v st]; destruct Ho as [Hv Hst]; cbn [ui.run_op]; apply Hout.
  - by apply Surface_Set_typed.
  - assert (Hset : forall rs f x count, Forall is_i32 rs -> typed f -> typed_pair (ui.set_runes s f x y rs st count)).
    { clear f Hf x. intros rs. induction rs as [|r rs IH]; intros f x count Hrs Hf; cbn [ui.set_runes]; [done|].
      apply Forall_cons in Hrs as [Hr Hrs]. destruct (_ <=? _); [done|].
      apply typed_pair_bind; [by apply Surface_Set_typed|]. intros. by apply IH. }
    unfold ui.SetText. pose proof (runes_typed t Hv) as Hrs. destruct (_ || _); [done|]. destruct (_ <? _); [|by apply Hset].
    destruct (_ <=? _); [done|]. unfold slice_from, slice. destruct (_ && _); cbn [rbind]; [|done].
    apply Hset; [|done]. by apply Forall_take, Forall_drop.
  - unfold ui.SurfaceFill. destruct (_ || _); [done|]. cbv zeta.
    assert (Hfold : forall (l : list Z) (step : res unit (UIFrame * Z) -> Z -> res unit (UIFrame * Z)) acc,
      (forall acc i, typed_pair acc -> typed_pair (step acc i)) -> typed_pair acc -> typed_pair (fold_left step l acc)).
    { clear. intros l step. induction l as [|i l IH]; intros acc Hs Hacc; cbn; [done|]. by apply IH, Hs. }
    apply Hfold; [|done]. intros acc r Hacc. apply Hfold; [|done]. intros acc' c Hacc'.
    apply typed_pair_bind; [done|]. intros f' a Hf'. apply typed_pair_bind; [by apply Surface_Set_typed|by intros].
Qed.

Lemma run_ops_typed s ops : Forall op_typed ops -> forall f, typed f -> typed_res (ui.run_ops s f ops).
Proof.
  induction 1 as [|o ops Ho _ IH]; intros f Hf; cbn [ui.run_ops]; [done|]. apply typed_bind; [by apply run_op_typed|exact IH].
Qed.

Lemma renderNode_typed theme n : theme_typed theme -> tree_typed n ->
  forall f x y w h, typed f -> typed_res (ui.renderNode theme n f x y w h).
Proof.
  intros Ht. induction n as [n IH] using (Node_ind' (E:=E)). intros Hn. destruct Hn as [n Htext Hstyle Hdraw Hkids].
  pose proof (resolve_typed _ theme Hstyle Ht) as Hres.
  assert (Hlist : forall l rs f, (forall c, Some c ∈ l -> Some c ∈ ui.children n) -> typed f -> typed_res (render_list theme l rs f)).
  { induction l as [|[c|] l IHl]; intros rs f Hl Hf; cbn [render_list]; [done| |].
    - destruct rs as [|r rs]; [done|]. apply typed_bind.
      + assert (Hc : Some c ∈ ui.children n) by (apply Hl; by left). apply IH; [done|by apply Hkids|done].
      + intros f' Hf'. apply IHl; [|done]. intros c' Hc'. apply Hl. by right.
    - apply IHl; [|done]. intros c' Hc'. apply Hl. by right. }
  assert (Hpad : forall f x y w h, typed f -> typed_res (render_padded theme n f x y w h)).
  { intros f x y w h Hf. unfold render_padded, render_content. destruct (_ || _); [done|]. cbv zeta. destruct (_ || _); [done|].
    destruct (ui.kind (ui.nodeData n)).
    - by apply Hlist.
    - by apply drawText_typed.
    - apply drawText_typed; [done| |done]. apply Forall_app. split; [by apply bytes_ok_eval|]. apply Forall_app. split; [done|by apply bytes_ok_eval].
    - unfold ui.drawCanvas. cbv zeta. destruct (ui.draw (ui.nodeData n)) as [d|]; [|done]. apply run_ops_typed; [by apply (Hdraw d)|done]. }
  intros f x y w h Hf. rewrite renderNode_eq. destruct (_ || _); [done|]. cbv zeta. apply typed_bind.
  - assert (Hadd : forall b : bool, typed (if b then ui.add_hit f (ui.mkHit x y w h n) else f)) by (by intros []).
    destruct (bool_decide (ui.border _ = _)); [apply Hadd|]. apply drawBorder_typed; [apply Hadd|done].
  - intros f' Hf'. destruct (bool_decide _); by apply Hpad.
Qed.

Lemma render_typed (r : ui.Renderer) n w h r' f :
  tree_typed n -> w <= 2 ^ 31 -> h <= 2 ^ 31 -> ui.Renderer_Render r (Some n) w h = Ok (r', f) -> typed f.
Proof.
  intros Hn Hw Hh. unfold ui.Renderer_Render.
  destruct (RenderWithTheme_frame r (Some n) w h ui.DefaultTheme) as [rest ->]; [nia|].
  set (f0 := blank_frame _ _ _). assert (H0 : typed f0) by (apply Forall_replicate; split; [by vm_compute|apply style0_typed]).
  assert (Hren : typed_res (if (0 <? Z.max 0 w) && (0 <? Z.max 0 h) then ui.renderNode ui.DefaultTheme n f0 0 0 (Z.max 0 w) (Z.max 0 h) else Ok f0)).
  { destruct (_ && _); [|done]. apply renderNode_typed; [apply default_theme_typed|done|done]. }
  destruct (if (0 <? Z.max 0 w) && _ then ui.renderNode _ _ _ _ _ _ _ else _) as [g| |]; cbn [rbind]; [|done..]. by intros [= _ <-].
Qed.
End Typed.

(** ** The frame on the wire *)

Section Wire.
Context {E : Type}.

Lemma convert_cell_wf c : cell_typed c -> cell_wf (convert_cell c).
Proof.
  intros (Hr & (Hf & Hb)). unfold convert_cell. split; [exact Hr|]. cbn. split_and!.
  - destruct (ui.HasForeground _); [exact Hf|by vm_compute].
  - destruct (ui.HasBackground _); [exact Hb|by vm_compute].
  - by destruct (has_decor _ ui.Bold), (has_decor _ ui.Underline).
Qed.

(** The loops fill the grid from the left. *)
Lemma convert_cells_spec (f : @ui.Frame E) : 0 < ui.width f -> len (ui.cells f) = ui.width f * ui.height f ->
  forall k i dst, Z.of_nat k = len (ui.cells f) - i -> 0 <= i -> len dst = len (ui.cells f) ->
  take (Z.to_nat i) dst = map convert_cell (take (Z.to_nat i) (ui.cells f)) ->
  convert_cells f (ui.width f) (seqZ i (Z.of_nat k)) dst = Ok (map convert_cell (ui.cells f)).
Proof.
  intros Hw Hlen. induction k as [|k IH]; intros i dst Hk Hi Hdst Hpre.
  - cbn. f_equal. unfold len in *. rewrite !firstn_all2 in Hpre by lia. exact Hpre.
  - rewrite seqZ_cons by lia. cbn [convert_cells].
    pose proof (Z.mod_pos_bound i (ui.width f) Hw) as Hmod. pose proof (Z.div_mod i (ui.width f) ltac:(lia)) as Hdm.
    set (y := i / ui.width f) in *. set (x := i mod ui.width f) in *.
    assert (Hy : 0 <= y < ui.height f) by nia.
    replace (y * ui.width f + x) with i by lia.
    destruct (lookup_lt_is_Some_2 (ui.cells f) (Z.to_nat i)) as [c Hc]; [unfold len in *; lia|].
    assert (Hcell : ui.Frame_Cell f x y = Some c).
    { unfold ui.Frame_Cell. des_if; [zbool; lia|]. by replace (y * ui.width f + x) with i by lia. }
    rewrite Hcell. unfold put. rewrite (proj2 (Z.leb_le 0 i)), (proj2 (Z.ltb_lt i (len dst))) by lia. cbn [andb rbind].
    rewrite overwrite_insert by (unfold len in *; lia).
    replace (Z.pred (Z.of_nat (S k))) with (Z.of_nat k) by lia. replace (Z.succ i) with (i + 1) by lia. apply IH; [lia|lia|unfold len in *; by rewrite length_insert|].
    replace (Z.to_nat (i + 1)) with (S (Z.to_nat i)) by lia.
    rewrite (take_S_r _ _ c Hc), map_app, <- Hpre.
    rewrite (take_S_r _ _ (convert_cell c)) by (apply list_lookup_insert_eq; unfold len in *; lia).
    by rewrite take_insert_ge by lia.
Qed.

Lemma convert_frame_spec buf (f : @ui.Frame E) quit :
  0 < ui.width f -> 0 <= ui.height f -> len (ui.cells f) = ui.width f * ui.height f ->
  exists buf', convert_frame buf f quit = Ok (buf', mkFrame (ui.width f) (ui.height f) quit (map convert_cell (ui.cells f))).
Proof.
  intros Hw Hh Hlen. unfold convert_frame. rewrite <- Hlen. set (n := len (ui.cells f)).
  set (buf1 := if len buf <? n then _ else _). assert (Hb : n <= len buf1).
  { unfold buf1. destruct (len buf <? n) eqn:Hb; zbool; [|done]. unfold len. rewrite length_replicate. lia. }
  assert (Hn : 0 <= n) by apply len_nonneg.
  unfold slice. rewrite (proj2 (Z.leb_le 0 0)), (proj2 (Z.leb_le 0 n)), (proj2 (Z.leb_le n (len buf1))) by lia. cbn [andb rbind].
  rewrite Z.sub_0_r.
  pose proof (convert_cells_spec f Hw Hlen (Z.to_nat n) 0 (take (Z.to_nat n) buf1)) as Hgrid. rewrite Z2Nat.id in Hgrid by done.
  change (drop (Z.to_nat 0) buf1) with buf1. rewrite Hgrid; [cbn [rbind]; by eexists|unfold n; lia|lia| |done].
  unfold n, len in *. rewrite length_take. lia.
Qed.
End Wire.

(** ** Keys *)

(** What a key of the keyboard is to an application. *)
Definition key_name (t : keyboard.EventType) (ch : Z) : option Z :=
  match t with
  | keyboard.KeyRune => Some ch
  | keyboard.KeyEnter => Some app.KeyEnter
  | keyboard.KeyBackspace => Some app.KeyBackspace
  | keyboard.KeyCtrlC => Some app.KeyCtrlC
  | keyboard.KeyTab => Some app.KeyTab
  | keyboard.KeyEscape => Some app.KeyEscape
  | keyboard.KeyArrowUp => Some app.KeyUp
  | keyboard.KeyArrowDown => Some app.KeyDown
  | keyboard.KeyArrowRight => Some app.KeyRight
  | keyboard.KeyArrowLeft => Some app.KeyLeft
  | keyboard.KeyHome => Some app.KeyHome
  | keyboard.KeyEnd => Some app.KeyEnd
  | keyboard.KeyPageUp => Some app.KeyPageUp
  | keyboard.KeyPageDown => Some app.KeyPageDown
  | keyboard.KeyDelete => Some app.KeyDelete
  | _ => None
  end.

Definition key_meaning {D} (k : keyboard.Event) : option (@app.Event D) :=
  if keyboard.Mouse k then
    let action := mouseActions (keyboard.Type_ k) in
    if action =? 0 then None
    else Some (app.MouseEvent (keyboard.MouseX k) (keyboard.MouseY k) (if left_button (keyboard.Type_ k) then MouseButtonLeft else MouseButtonNone) action)
  else (fun key => app.KeyEvent key (keyboard.Shift k) (keyboard.Ctrl k) (keyboard.Alt k) (keyboard.Cmd k)) <$>
         key_name (keyboard.Type_ k) (keyboard.Ch k).

(** What the application is given of a key, by way of the host's encoder and the guest's
    decoder. *)
Definition through_host {D} (dst : bytes) (k : keyboard.Event) : option (@app.Event D) :=
  match mapInput k with
  | Some e => match rbind (AppendEvent dst e) DecodeEvent with Ok e => cleanEvent e | _ => None end
  | None => None
  end.

(** (a key keeps its meaning): whatever the keyboard parser makes of a viewer's
    typing arrives in the guest's application as the same key, character or mouse
    action with the same modifiers and position, whatever the buffer held; what
    has no meaning there is not sent. *)
Theorem typed_key_meaning {D} dst (k : keyboard.Event) :
  is_i32 (keyboard.Ch k) -> is_u16 (keyboard.MouseX k) -> is_u16 (keyboard.MouseY k) ->
  @through_host D dst k = key_meaning k.
Proof.
  intros Hc Hx Hy. unfold through_host, key_meaning. pose proof (mapInput_wf k) as Hwf.
  destruct (mapInput k) as [e|] eqn:He.
  - specialize (Hwf e Hc Hx Hy eq_refl). rewrite AppendEvent_wire. cbn [rbind]. rewrite DecodeEvent_wire by done.
    unfold mapInput in He. destruct (keyboard.Mouse k).
    + destruct (mouseActions _ =? 0); [done|]. by injection He as <-.
    + destruct k as [[] ch [] [] [] [] mouse x y]; cbn in He |- *; try done; by injection He as <-.
  - unfold mapInput in He. destruct (keyboard.Mouse k); [by destruct (mouseActions _ =? 0)|].
    by destruct (keyboard.Type_ k).
Qed.

Lemma typed_key_meaning_witness :
  @through_host unit [1; 2; 3] (keyboard.mkEvent keyboard.KeyArrowUp 0 true false true false false 0 0)
    = Some (app.KeyEvent app.KeyUp true false true false).
Proof. apply (@typed_key_meaning unit [1; 2; 3]); by vm_compute. Defined.

(** ** A session *)

Section Session.
Context {D Error M : Type} (ops : @app.Model D Error M).
Context (order : gmap bytes (@app.SubscriptionSpec D) -> list (@app.SubscriptionSpec D)).
Context (Horder : forall m, order m ≡ₚ map snd (map_to_list m)).
Context (Hviews : forall m, viewable ops m) (Hspecs : forall m, specs_ok (declared_by ops m)).
(** The views are of their Go types, and every chain of commands and events ends. *)
Context (Htyped : forall m node, app.m_View _ ops m = Some node -> tree_typed node).
Context (Hquiet : forall m q, exists fuel, loop ops fuel m q <> None).
Abbreviation any := (option (@app.Event D)).
Abbreviation Runtime := (@app.Runtime D Error M).
Abbreviation guest := (@guest D Error M).

(** A screen the host can show. *)
Definition screen_ok (w h : Z) : Prop := 1 <= w <= MaxFrameWidth /\ 1 <= h <= MaxFrameHeight.

(** The host sends whole bytes, and the sizes of screens it can show. *)
Definition input_ok (b : bytes) : Prop :=
  bytes_ok b /\ forall e, DecodeEvent b = Ok e -> Kind e = KindResize -> ev_W e <= MaxFrameWidth /\ ev_H e <= MaxFrameHeight.

(** [b] is a picture of [m]: the host decodes it, into any buffer, to the rendered view. *)
Definition pictured (m : M) (b : bytes) : Prop :=
  exists node rd rd' f quit, app.m_View _ ops m = Some node /\
    ui.Renderer_Render rd (Some node) (ui.width f) (ui.height f) = Ok (rd', f) /\ screen_ok (ui.width f) (ui.height f) /\
    len b <= MaxFrameBytes /\
    forall dst, exists cells, AppendDecodeFrame dst b = Ok (mkFrame (ui.width f) (ui.height f) quit (map convert_cell (ui.cells f)), cells).

Definition pictures (calls : list hostcall) : list bytes := omap (fun c => match c with CPresent b => Some b | _ => None end) calls.
Definition other_calls (calls : list hostcall) : list bytes := omap (fun c => match c with CGoodbye b => Some b | _ => None end) calls.

Lemma render_size (n : @ui.Node (@app.Event D)) w h r r' f :
  sane_tree n -> 0 <= w <= 2 ^ 31 -> 0 <= h <= 2 ^ 31 -> ui.Renderer_Render r (Some n) w h = Ok (r', f) ->
  ui.width f = w /\ ui.height f = h /\ len (ui.cells f) = w * h.
Proof.
  intros Hn Hw Hh Hren. destruct (render_draws n w h ui.DefaultTheme Hn ltac:(lia) ltac:(lia)) as (g & hs & Hall & Hok & Hd & _).
  destruct (Hall r) as [r0 Hr]. unfold ui.Renderer_Render in Hren. rewrite Hr in Hren. injection Hren as _ <-.
  destruct (draws_ok _ _ _ _ Hd Hok) as [_ _ Hl]. destruct Hd. rewrite Hl, dr_w, dr_h. cbn. split_and!; lia.
Qed.

(** Between two turns. *)
Record serving (g : guest) (m : M) : Prop := {
  sv_steady : steady ops (g_rt g) m;
  sv_well : well (g_rt g);
  sv_init : app.r_initialized (g_rt g) = true;
  sv_queue : app.r_stopped (g_rt g) = false -> app.r_queue (g_rt g) = [];
  sv_screen : screen_ok (app.r_width (g_rt g)) (app.r_height (g_rt g)) }.

Lemma serving_rt (g g' : guest) m : g_rt g' = g_rt g -> serving g m -> serving g' m.
Proof. intros H []. split; by rewrite H. Qed.

Lemma present_spec (g : guest) m : serving g m ->
  exists g' b, present g = Ok (g', CPresent b) /\ g_rt g' = g_rt g /\ g_ids g' = g_ids g /\ pictured m b.
Proof.
  intros [(Hready & Hshow & _) _ _ _ [Hsw Hsh]]. destruct Hready as (_ & _ & _ & _ & [Hw Hh] & _).
  destruct Hshow as (node & Hnode & Hren & _ & _). destruct (Hren ui.renderer0) as [rd Hrd].
  destruct (Hviews m) as (n' & Hn' & Hsane). rewrite Hnode in Hn'. injection Hn' as <-.
  destruct (render_size _ _ _ _ _ _ Hsane (conj (Z.le_trans 0 1 _ ltac:(lia) (proj1 Hsw)) Hw) (conj (Z.le_trans 0 1 _ ltac:(lia) (proj1 Hsh)) Hh) Hrd)
    as (Hfw & Hfh & Hlen).
  pose proof (render_typed _ _ _ _ _ _ (Htyped m node Hnode) Hw Hh Hrd) as Hcells.
  set (f := app.r_frame (g_rt g)) in *. unfold present.
  destruct (convert_frame_spec (g_conv g) f (app.r_quit (g_rt g))) as [buf' Hconv]; [lia|lia|by rewrite Hfw, Hfh|].
  fold f. rewrite Hconv. cbn [rbind].
  set (F := mkFrame _ _ _ _). assert (HF : frame_wf F).
  { split; [rewrite <- Hfw in Hsw; exact Hsw|]. split; [rewrite <- Hfh in Hsh; exact Hsh|]. cbn. split.
    - unfold len in *. rewrite length_map. congruence.
    - rewrite Forall_map. eapply Forall_impl; [exact Hcells|]. intros c. apply convert_cell_wf. }
  destruct (frame_roundtrip (g_encoded g) [] F HF) as (b & Hb & Hmax & _). rewrite Hb.
  do 2 eexists. split; [done|]. split; [done|]. split; [done|].
  exists node, ui.renderer0, rd, f, (app.r_quit (g_rt g)). rewrite Hfw, Hfh. split; [done|]. split; [exact Hrd|]. split; [done|]. split; [done|].
  intros dst. destruct (frame_roundtrip (g_encoded g) dst F HF) as (b' & Hb' & _ & Hdec). rewrite Hb in Hb'. injection Hb' as <-.
  eexists. subst F. rewrite Hfw, Hfh in Hdec. exact Hdec.
Qed.

(** What a list of calls shows and says. *)
Definition shows_only (m : M) (calls : list hostcall) : Prop :=
  Forall (pictured m) (pictures calls) /\ Forall (fun b => 0 < len b <= GoodbyeMaxLen) (other_calls calls).

Lemma shown_spec (g : guest) m : serving g m ->
  exists g' calls ret, shown g = Ok (g', calls, ret) /\ g_rt g' = g_rt g /\ g_ids g' = g_ids g /\
    length (pictures calls) = 1%nat /\ shows_only m calls /\ ret = (if app.r_quit (g_rt g) then Some (app.r_lastErr (g_rt g)) else None).
Proof.
  intros Hg. destruct (present_spec g m Hg) as (g' & b & Hp & Hrt & Hids & Hpic). unfold shown. rewrite Hp. cbn [rbind]. rewrite Hrt.
  destruct (app.r_quit (g_rt g)); do 3 eexists; (split; [done|]); (split; [done|]); (split; [done|]).
  - unfold emitGoodbye. destruct (_ || _) eqn:Hl; (split; [done|]); (split; [split; [by repeat constructor|]|done]); [constructor|].
    zbool. constructor; [|constructor]. pose proof (len_nonneg (app.r_goodbye (g_rt g))). lia.
  - split; [done|]. split; [split; [by repeat constructor|constructor]|done].
Qed.

Definition presenting (ids : gmap Z any) (b : bytes) : bool := match received ids b with Ok Unknown_timer => false | _ => true end.

Lemma received_ok ids b : input_ok b -> exists i, received (D:=D) ids b = Ok i /\
  forall w h, i = Deliver (Some (app.ResizeEvent w h)) ->
    (w <= MaxFrameWidth /\ h <= MaxFrameHeight) \/ exists id, ids !! id = Some (Some (app.ResizeEvent w h)).
Proof.
  intros [Hb Hin]. unfold received. destruct (_ =? 0); [by eexists|]. pose proof (DecodeEvent_total b Hb) as Hno.
  destruct (DecodeEvent b) as [e| |] eqn:He; [|by eexists|done]. specialize (Hin e eq_refl). unfold cleanEvent.
  destruct (Kind e =? KindResize) eqn:Hk; [eexists; split; [done|]; intros w h [= <- <-]; left; apply Hin; by apply Z.eqb_eq|].
  destruct (Kind e =? KindMessage); [by eexists|]. destruct (Kind e =? KindMouse); [by eexists|].
  destruct (Kind e =? KindTimer).
  { destruct (ids !! CommandID e) as [[e'|]|] eqn:Hid; eexists; (split; [done|]); try done. intros w h [= ->]. right. by exists (CommandID e). }
  destruct (Kind e =? KindKey); [|by eexists]. destruct (if Key e =? KeyRune then _ else _); by eexists.
Qed.

(** No timer carries a resize event to a screen the host cannot show. *)
Definition ids_ok (ids : gmap Z any) : Prop :=
  forall id w h, ids !! id = Some (Some (app.ResizeEvent w h)) -> w <= MaxFrameWidth /\ h <= MaxFrameHeight.

Lemma Dispatch_serving (g : guest) m e : serving g m -> app.r_stopped (g_rt g) = false ->
  (forall w h, e = Some (app.ResizeEvent w h) -> w <= MaxFrameWidth /\ h <= MaxFrameHeight) ->
  exists fuel r log m', app.Dispatch ops order fuel (g_rt g) e = Some (Ok (r, log, app.r_lastErr r)) /\
    forall g', g_rt g' = r -> serving g' m'.
Proof.
  intros [Hst Hw Hi Hq Hscr] Hs Hsize. specialize (Hq Hs). destruct (Hquiet m (entering order (g_rt g) e)) as [fuel Hf].
  assert (Hev : event_sized e).
  { destruct e as [[]|]; try done. destruct (Hsize _ _ eq_refl). cbn. unfold MaxFrameWidth, MaxFrameHeight in *. lia. }
  pose proof (dispatch_loop ops order Horder Hviews Hspecs fuel (g_rt g) m e Hi Hs Hq Hst Hev) as H.
  destruct (loop ops fuel m (entering order (g_rt g) e)) as [[[[m' log] left_] ended]|]; [|done].
  destruct H as (r & Hd & Hi' & Hs' & Hq' & Hst' & _ & Hleft). exists fuel, r, log, m'. split; [done|].
  destruct (Dispatch_rest ops order _ _ _ _ _ _ Hi Hs Hd) as (Hw' & Hh' & _ & Hwell).
  intros g' Hg'. split; rewrite Hg'; [done|by apply Hwell|done| |].
  - intros Hr. rewrite Hq'. apply Hleft. congruence.
  - rewrite Hw', Hh'. unfold app.resized. destruct e as [[| | |w h| | |]|]; try exact Hscr.
    destruct (Hsize w h eq_refl). destruct Hscr. cbn. unfold screen_ok. destruct (0 <? w) eqn:?, (0 <? h) eqn:?; zbool; split; lia.
Qed.

Lemma turn_spec (g : guest) m b : serving g m -> app.r_stopped (g_rt g) = false -> ids_ok (g_ids g) -> input_ok b ->
  exists fuel0 g' calls ret m',
    (forall fuel, (fuel0 <= fuel)%nat -> turn ops order fuel g b = Some (Ok (g', calls, ret))) /\
    serving g' m' /\ g_ids g' = g_ids g /\ shows_only m' calls /\
    app.r_stopped (g_rt g') = bool_decide (is_Some ret) /\ (forall err, ret = Some err -> err = app.r_lastErr (g_rt g')) /\
    (match ret with Some (Some _) => True | _ => length (pictures calls) = (if presenting (g_ids g) b then 1%nat else 0%nat) /\
                                               (presenting (g_ids g) b = false -> m' = m) end).
Proof.
  intros Hg Hs Hids Hb. destruct (received_ok (g_ids g) b Hb) as (i & Hi & Hsize). unfold turn, presenting. rewrite Hi.
  assert (Hshown : forall g1 m1, serving g1 m1 -> g_ids g1 = g_ids g -> app.r_lastErr (g_rt g1) = None -> exists g' calls ret,
    shown g1 = Ok (g', calls, ret) /\ serving g' m1 /\ g_ids g' = g_ids g /\ shows_only m1 calls /\
    app.r_stopped (g_rt g') = bool_decide (is_Some ret) /\ (forall err, ret = Some err -> err = app.r_lastErr (g_rt g')) /\
    (match ret with Some (Some _) => True | _ => length (pictures calls) = 1%nat /\ (true = false -> m1 = m) end)).
  { intros g1 m1 Hg1 Hi1 Herr. destruct (shown_spec g1 m1 Hg1) as (g' & calls & ret & -> & Hrt & Hid & Hone & Hsh & Hret).
    exists g', calls, ret. split; [done|]. split; [by eapply serving_rt|]. split; [congruence|]. split; [done|].
    pose proof (sv_well _ _ Hg1) as Hw. unfold well in Hw. rewrite Herr in Hw. cbn in Hw. rewrite Hrt, Hw.
    subst ret. destruct (app.r_quit (g_rt g1)); [|by split_and!]. split; [done|]. split; [by intros err [= <-]|]. by rewrite Herr. }
  destruct i as [| |e].
  - assert (Herr : app.r_lastErr (g_rt g) = None).
    { pose proof (sv_well _ _ Hg) as Hw. unfold well in Hw. rewrite Hs in Hw. by destruct (app.r_lastErr (g_rt g)). }
    destruct (Hshown g m Hg eq_refl Herr) as (g' & calls & ret & Hsh & H). exists 0%nat, g', calls, ret, m.
    split; [by rewrite Hsh|exact H].
  - exists 0%nat, g, [], None, m. split; [done|]. split; [done|]. split; [done|]. split; [by repeat constructor|by split].
  - destruct (Dispatch_serving g m e Hg Hs) as (fuel & r & log & m' & Hd & Hg').
    { intros w h ->. destruct (Hsize w h eq_refl) as [?|[id Hid]]; [done|]. by eapply Hids. }
    set (g1 := mkGuest r (g_conv g) (g_encoded g) (g_ids g)). specialize (Hg' g1 eq_refl). exists fuel.
    assert (Hmore : forall fuel', (fuel <= fuel')%nat -> app.Dispatch ops order fuel' (g_rt g) e = Some (Ok (r, log, app.r_lastErr r))).
    { intros fuel' Hle. apply (Dispatch_more ops order fuel); [apply Hg|done|done]. }
    destruct (app.r_lastErr r) as [x|] eqn:Herr.
    + exists g1, [], (Some (Some x)), m'. split; [intros fuel' Hle; by rewrite (Hmore fuel' Hle)|].
      split; [done|]. split; [done|]. split; [by repeat constructor|]. split; [|split; [by intros err [= <-]|done]].
      pose proof (sv_well _ _ Hg') as Hw. unfold well in Hw. cbn [g1 g_rt] in Hw |- *. by rewrite Hw, Herr.
    + destruct (Hshown g1 m' Hg' eq_refl Herr) as (g' & calls & ret & Hsh & H). exists g', calls, ret, m'.
      split; [intros fuel' Hle; rewrite (Hmore fuel' Hle); exact (f_equal Some Hsh)|exact H].
Qed.

(** Turn after turn: [ms] are the models that are shown. *)
Lemma turns_spec input : forall (g : guest) m, serving g m -> app.r_stopped (g_rt g) = false -> ids_ok (g_ids g) -> Forall input_ok input ->
  exists fuel0 g' calls err m' ms,
    (forall fuel, (fuel0 <= fuel)%nat -> turns ops order fuel g input = Some (Ok (g', calls, err))) /\
    serving g' m' /\ Forall2 pictured ms (pictures calls) /\ Forall (fun b => 0 < len b <= GoodbyeMaxLen) (other_calls calls) /\
    (err = None -> last (m :: ms) = Some m') /\ err = app.r_lastErr (g_rt g') /\
    (app.r_stopped (g_rt g') = false -> length ms = length (List.filter (presenting (g_ids g)) input)).
Proof.
  induction input as [|b input IH]; intros g m Hg Hs Hids Hin.
  - exists 0%nat, g, [], (app.r_lastErr (g_rt g)), m, []. split; [done|]. split; [done|]. split; [constructor|].
    by split; [constructor|].
  - apply Forall_cons in Hin as [Hb Hin].
    destruct (turn_spec g m b Hg Hs Hids Hb) as (f1 & g1 & calls1 & ret & m1 & Hturn & Hg1 & Hid1 & [Hpic1 Hsay1] & Hstop & Hwhy & Hcount).
    set (k := length (pictures calls1)) in *. assert (Hms : Forall2 pictured (replicate k m1) (pictures calls1)).
    { unfold k. clear -Hpic1. induction Hpic1; cbn; constructor; done. }
    assert (Hlast1 : match ret with Some (Some _) => True | _ => last (m :: replicate k m1) = Some m1 end).
    { destruct ret as [[]|]; [done|..]; destruct Hcount as [-> Hm]; destruct (presenting _ _); cbn; try done; by rewrite Hm. }
    destruct ret as [err|].
    + exists f1, g1, calls1, err, m1, (replicate k m1). rewrite Hstop.
      split; [intros fuel Hle; cbn [turns]; by rewrite (Hturn fuel Hle)|]. split_and!; try done; [by intros ->|by apply Hwhy].
    + destruct Hcount as [Hcount _].
      destruct (IH g1 m1 Hg1 Hstop) as (f2 & g2 & calls2 & err & m2 & ms & Hturns & Hg2 & Hp2 & Hsay2 & Hlast & Herr & Hfin); [by rewrite Hid1|done|].
      exists (f1 `max` f2)%nat, g2, (calls1 ++ calls2), err, m2, (replicate k m1 ++ ms).
      unfold pictures, other_calls in *. rewrite !omap_app.
      split; [intros fuel Hle; cbn [turns]; rewrite (Hturn fuel), (Hturns fuel) by lia; done|].
      split; [done|]. split; [by apply Forall2_app|]. split; [by apply Forall_app|]. split.
      * intros He. specialize (Hlast He). rewrite last_cons in Hlast. rewrite app_comm_cons, last_app, Hlast1. by destruct (last ms).
      * split; [done|]. intros H2. pose proof (Hfin H2) as Hl. rewrite Hid1 in Hl. rewrite length_app, length_replicate, Hl, Hcount. cbn [List.filter].
        by destruct (presenting (g_ids g) b).
Qed.

(** C25 (a session in the sandbox): for an application whose own chains of commands and
    events end ([Hquiet]), that has a view of every model (sizes below 2^31) and declares
    subscriptions that are valid and differ in their keys: once it is started, and whatever bytes the host sends, resize
    events only to sizes the host can show ([input_ok]), the guest's loop neither crashes nor
    hangs. The host decodes every picture, into any buffer, to the rendered view of the model
    of that moment, and without an error the last one shows the final model; when the
    application does not quit and no error ends the loop before, every input is answered by
    exactly one picture, an event of an unknown timer by none. A goodbye is within its bound;
    at the end every timer that was started is cancelled and every source has ended. *)
Theorem hosted_session (ids_order : gmap Z any -> list Z) (rt : Runtime) m answers input :
  steady ops rt m -> well rt -> app.r_initialized rt = true -> app.r_stopped rt = false -> app.r_queue rt = [] ->
  screen_ok (app.r_width rt) (app.r_height rt) ->
  let timers := HostedTimers order rt in
  let ids := start_timers timers answers ∅ in
  ids_ok ids -> Forall input_ok input ->
  exists fuel0 rt' calls err ms m',
    (forall fuel, (fuel0 <= fuel)%nat -> runPlatform ops order ids_order fuel rt answers input
       = Some (Ok (rt', map (fun t => CTimerStart t.1) timers ++ calls ++ map CTimerCancel (ids_order ids), err))) /\
    Forall2 pictured ms (pictures calls) /\ Forall (fun b => 0 < len b <= GoodbyeMaxLen) (other_calls calls) /\
    app.r_model rt' = Some m' /\ (err = None -> last (m :: ms) = Some m') /\
    app.r_stopped rt' = true /\ app.r_live rt' = ∅ /\
    (app.r_quit rt' = false -> err = None -> length ms = length (List.filter (presenting ids) input)).
Proof.
  intros Hst Hw Hi Hs Hq Hscr timers ids Hids Hin. set (g := mkGuest rt [] [] ids).
  assert (Hg : serving g m) by by split.
  destruct (turns_spec input g m Hg Hs Hids Hin) as (fuel0 & g' & calls & err & m' & ms & Hturns & Hg' & Hpic & Hsay & Hlast & Herr & Hfin).
  exists fuel0, (app.Stop (g_rt g')), calls, err, ms, m'. assert (Hquit : app.r_quit rt = false).
  { unfold well in Hw. rewrite Hs in Hw. by destruct (app.r_quit rt); [rewrite orb_true_r in Hw|]. }
  split; [intros fuel Hle; unfold runPlatform; rewrite Hquit; fold timers ids g; by rewrite (Hturns fuel Hle)|].
  split; [done|]. split; [done|]. destruct Hg' as [(Hr' & _) Hw' _ _ _]. destruct Hr' as (Hm' & _ & _ & _ & _ & Hlive).
  unfold app.Stop, app.stopLocked. destruct (app.r_stopped (g_rt g')) eqn:Hs'.
  - split; [done|]. split; [done|]. split; [done|]. split; [done|]. intros Hq' He. exfalso. unfold well in Hw'. rewrite Hs' in Hw'.
    cbn in Hq'. by rewrite Hq', <- Herr, He in Hw'.
  - split; [done|]. split; [done|]. split; [done|]. split; [done|]. intros _ _. by apply Hfin.
Qed.
End Session.

(** ** An application in its sandbox *)

Lemma sample_typed m node : app.m_View _ sample_app m = Some node -> tree_typed node.
Proof.
  intros [= <-]. constructor; [constructor|apply style0_typed|done|]. cbn [ui.children ui.Column].
  intros c [[= ->]|[[= ->]|Hc%elem_of_nil]%elem_of_cons]%elem_of_cons; [| |done].
  - constructor; [destruct (m <? 10); by apply bytes_ok_eval|apply style0_typed|done|by intros c ?%elem_of_nil].
  - constructor; [by apply bytes_ok_eval|apply style0_typed|done|by intros c ?%elem_of_nil].
Qed.

(** A press of the button is worth two events, any other event one. *)
Definition weight (q : list (option (@app.Event unit))) : nat :=
  sum_list (map (fun e => match e with Some (app.Domain _) => 2 | _ => 1 end)%nat q).

Lemma sample_quiet m q : exists fuel, loop sample_app fuel m q <> None.
Proof.
  remember (weight q) as n eqn:Hn. revert m q Hn. induction (lt_wf n) as [n _ IH]. intros m [|e q] Hn.
  { by exists 0%nat. }
  assert (Hnext : forall m' es stop, effect (app.m_Update _ sample_app m e).2 = (es, stop) -> (app.m_Update _ sample_app m e).1 = m' ->
    (weight (q ++ es) < n)%nat -> exists fuel, loop sample_app fuel m (e :: q) <> None).
  { intros m' es stop He Hm Hlt. destruct (IH _ Hlt m' (q ++ es) eq_refl) as [fuel Hf]. exists (S fuel). cbn [loop].
    destruct (app.m_Update _ sample_app m e) as [m1 c]. cbn in He, Hm. subst m1. rewrite He. destruct stop; [done|].
    by destruct (loop sample_app fuel m' (q ++ es)) as [[[[]]]|]. }
  assert (Hw : forall es, weight (q ++ es) = (weight q + weight es)%nat).
  { intros es. unfold weight. rewrite map_app. clear. induction (map _ q) as [|x l IHl]; cbn; [done|]. rewrite IHl. lia. }
  unfold weight in Hn. cbn [map sum_list] in Hn. fold (weight q) in Hn.
  destruct (effect (app.m_Update _ sample_app m e).2) as [es stop] eqn:He. eapply Hnext; [done|done|]. rewrite Hw.
  assert (Hes : (weight es < match e with Some (app.Domain _) => 2 | _ => 1 end)%nat).
  { destruct e as [[| | | | |id|]|]; cbn in He; try (injection He as <- <-; cbn; lia).
    repeat (match type of He with context [match ?x with _ => _ end] => destruct x end); injection He as <- <-; cbn; lia. }
  unfold sum_list in Hn. cbn in Hn. unfold weight in *. unfold sum_list in *. lia.
Qed.

Definition sample_input : list bytes :=
  omap (fun e => match AppendEvent [] e with Ok b => Some b | _ => None end)
    [mkEvent KindKey KeyEnter 0 0 0 0 [] [] 0 0 0 0 0; mkEvent KindTimer 0 0 0 0 0 [] [] 0 0 0 0 7; mkEvent KindTimer 0 0 0 0 0 [] [] 0 0 0 0 9;
     mkEvent KindResize 0 0 0 30 6 [] [] 0 0 0 0 0].

Lemma sample_input_ok : Forall input_ok sample_input.
Proof.
  unfold sample_input. repeat (constructor; [split; [by apply bytes_ok_eval|vm_compute; intros e [= <-]; try done; by vm_compute]|]). constructor.
Qed.

Lemma hosted_session_witness :
  exists fuel0 rt' calls err ms,
    runPlatform sample_app any_order (fun m => map fst (map_to_list m)) fuel0 sample_running [7] sample_input
      = Some (Ok (rt', [CTimerStart 100] ++ calls ++ [CTimerCancel 7], err)) /\
    Forall2 (pictured sample_app) ms (pictures calls) /\ app.r_live rt' = ∅.
Proof.
  destruct (hosted_session sample_app any_order (fun _ => Permutation_refl _) sample_viewable sample_specs sample_typed sample_quiet
    (fun m => map fst (map_to_list m)) sample_running 0 [7] sample_input) as (fuel0 & rt' & calls & err & ms & m' & Hrun & Hpic & _ & _ & _ & _ & Hlive & _);
    [exact sample_steady|by vm_compute|by vm_compute|by vm_compute|by vm_compute|by vm_compute| |exact sample_input_ok|].
  - intros id w h. cbv zeta. replace (start_timers _ _ _) with ({[7 := Some (app.TimerEvent (D:=unit) 1)]} : gmap Z (option (@app.Event unit))) by (by vm_compute).
    by intros [_ [=]]%lookup_singleton_Some.
  - exists fuel0, rt', calls, err, ms. split; [|split; [exact Hpic|exact Hlive]]. exact (Hrun fuel0 (le_n fuel0)).
Defined.

(** The same session, evaluated: a picture for each input but the unknown timer's. *)
Example sample_session :
  match runPlatform sample_app any_order (fun m => map fst (map_to_list m)) 5 sample_running [7] sample_input with
  | Some (Ok (rt, calls, err)) => Some (app.r_model rt, length (pictures calls), err)
  | _ => None
  end = Some (Some 11, 3%nat, None).
Proof. vm_compute. reflexivity. Qed.

(** (timers twice): an application that runs in real time already has a source for each of
    its timers; hosted, a timer of the host is started for it too. *)
Theorem hosted_timer_two_sources :
  match app.Init sample_app any_order 5 (app.enableRealTime (app.NewRuntime (Some 0) 20 5)) with
  | Some (Ok (r, _)) => (source_at r (str "tick"), map fst (HostedTimers any_order r)) = (Some 0%nat, [100])
  | _ => False
  end.
Proof. vm_compute. reflexivity. Qed.
