(* ===== verification/SqlRepo.v ===== *)
(** * The SQLite repository: transactions and validation (internal/sqlite/repository.go)

    What every operation of the repository shares: the checks of its inputs, the
    mapping of errors, and [mutate], which runs a function of guarded statements in one
    transaction.

    A database is a value of any type [DB]; a statement is a function on it. Any
    statement, begin or commit may fail, in the driver or by an injected fault: which
    ones do is a list of answers, used from the front, and beyond its end nothing
    fails. A failed transaction is rolled back. The clock gives a list of instants. *)

From S2P Require Import Prelude Utf8 GoStrings.

Module sqlite.

(** [ErrUnique], [ErrCheck]: what the engine reports for a violated constraint, before
    the repository maps it; [ErrStorage]: any other failure of the engine. *)
Inductive error :=
| ErrInvalid | ErrNotFound | ErrConflict | ErrQuota | ErrSuspended
| ErrUnique | ErrCheck | ErrStorage | ErrListener.
#[export] Instance error_eq_dec : EqDecision error.
Proof. solve_decision. Defined.

Definition storageError (e : error) : error :=
  match e with
  | ErrUnique | ErrCheck => ErrStorage
  | e => e
  end.

Definition mapConstraint (e : error) : error :=
  match e with
  | ErrUnique => ErrConflict
  | e => storageError e
  end.

Definition mapRepositoryError (e : error) : error :=
  match e with
  | ErrInvalid | ErrNotFound | ErrConflict | ErrQuota | ErrSuspended => e
  | e => mapConstraint e
  end.

(** ** Identifiers *)

Definition control_rune (r : Z) : bool := (r <? 0x20) || (r =? 0x7f).

Definition validateID (value : bytes) : option error :=
  let value := TrimSpace value in
  if bool_decide (value = []) || (128 <? len value) || existsb control_rune (runes value) then Some ErrInvalid else None.

Definition validateHandle (uni_lower : Z -> Z) (value : bytes) : option error :=
  match validateID value with
  | Some e => Some e
  | None =>
    if negb (bool_decide (ToLower uni_lower value = value)) || existsb (fun c => (c =? 32) || (c =? 47) || (c =? 92)) value
    then Some ErrInvalid else None
  end.

(** ** Transactions *)

Record CommitEvent := mkCommitEvent { ce_Operation : bytes; ce_Kind : bytes; ce_ID : bytes }.
Definition noEvent : CommitEvent := mkCommitEvent [] [] [].

Section Tx.
Context {DB : Type}.

(** A function run inside a transaction: the database as it is there and the answers
    left, or an error. *)
Definition Tx (A : Type) : Type := DB -> list bool -> (error + (A * DB)) * list bool.

Definition tx_ret {A} (a : A) : Tx A := fun db fs => (inr (a, db), fs).
Definition tx_err {A} (e : error) : Tx A := fun _ fs => (inl e, fs).
Definition tx_bind {A B} (c : Tx A) (k : A -> Tx B) : Tx B := fun db fs =>
  match c db fs with
  | (inl e, fs) => (inl e, fs)
  | (inr (a, db), fs) => k a db fs
  end.

(** One statement of the database. *)
Definition statement {A} (f : DB -> error + (A * DB)) : Tx A := fun db fs =>
  match fs with
  | true :: fs => (inl ErrStorage, fs)
  | false :: fs => (f db, fs)
  | [] => (f db, [])
  end.
Definition QueryRow {A} (f : DB -> A) : Tx A := statement (fun db => inr (f db, db)).
Definition Exec (f : DB -> error + DB) : Tx unit :=
  statement (fun db => match f db with inl e => inl e | inr db => inr (tt, db) end).

Record Repository := mkRepository { r_db : DB; r_fail : list bool; r_clock : list Z; r_listeners : list (CommitEvent -> bool) }.

Definition with_db (r : Repository) (db : DB) (fs : list bool) : Repository := mkRepository db fs (r_clock r) (r_listeners r).

(** [r.now()] *)
Definition now (r : Repository) : Repository * Z :=
  match r_clock r with
  | [] => (r, 0)
  | t :: ts => (mkRepository (r_db r) (r_fail r) ts (r_listeners r), t)
  end.

(** [notify]: a listener answers [true] for an error. *)
Definition notify (r : Repository) (event : CommitEvent) : option error :=
  if existsb (fun l => l event) (r_listeners r) then Some ErrListener else None.

(** The next answer: does the engine fail? *)
Definition pop (fs : list bool) : bool * list bool := match fs with [] => (false, []) | b :: fs => (b, fs) end.

Definition mutate {A} (r : Repository) (event : CommitEvent) (fn : Tx A) : Repository * (error + A) :=
  let '(begin_fails, fs) := pop (r_fail r) in
  if begin_fails then (with_db r (r_db r) fs, inl ErrStorage) else
  match fn (r_db r) fs with
  | (inl e, fs) => (with_db r (r_db r) fs, inl (mapRepositoryError e))
  | (inr (a, db), fs) =>
    let '(commit_fails, fs) := pop fs in
    if commit_fails then (with_db r (r_db r) fs, inl ErrStorage) else
    let r := with_db r db fs in
    if bool_decide (ce_Kind event = []) then (r, inr a) else
    match notify r event with
    | Some e => (r, inl e)
    | None => (r, inr a)
    end
  end.

(** A query outside a transaction. *)
Definition query {A} (r : Repository) (f : DB -> A) : Repository * (error + A) :=
  let '(fails, fs) := pop (r_fail r) in
  (with_db r (r_db r) fs, if fails then inl ErrStorage else inr (f (r_db r))).

(** A query whose row is read with [Scan] and whose error is not looked at: no row and a
    failing engine are the same. [hook] is the check of [MutationTx] before a query, whose
    failure is returned. *)
Definition hook : Tx unit := statement (fun db => inr (tt, db)).
Definition TryRow {A} (f : DB -> option A) : Tx (option A) := fun db fs =>
  match fs with
  | true :: fs => (inr (None, db), fs)
  | false :: fs => (inr (f db, db), fs)
  | [] => (inr (f db, db), [])
  end.

(** ** What a transaction does *)

(** A function of statements ends with the answer it gives when nothing fails, or with the
    failure of a statement. *)
Definition regular {A} (c : Tx A) : Prop :=
  forall db, (c db []).2 = [] /\ forall fs, (c db fs).1 = inl ErrStorage \/ (c db fs).1 = (c db []).1.

Lemma regular_ret {A} (a : A) : regular (tx_ret a).
Proof. intros db. split; [done|]. intros fs. by right. Qed.
Lemma regular_err {A} e : regular (tx_err (A:=A) e).
Proof. intros db. split; [done|]. intros fs. by right. Qed.
Lemma regular_statement {A} (f : DB -> error + (A * DB)) : regular (statement f).
Proof. intros db. split; [done|]. intros [|[] fs]; [by right|by left|by right]. Qed.
Lemma regular_bind {A B} (c : Tx A) (k : A -> Tx B) : regular c -> (forall a, regular (k a)) -> regular (tx_bind c k).
Proof.
  intros Hc Hk db. destruct (Hc db) as [Hnil Hfs]. unfold tx_bind. split.
  - destruct (c db []) as [[e|[a db']] fs]; [done|]. cbn in Hnil. subst fs. apply Hk.
  - intros fs. specialize (Hfs fs). destruct (c db []) as [r0 fs0]. cbn in Hnil, Hfs. subst fs0.
    destruct (c db fs) as [r1 fs1]. cbn in Hfs. destruct Hfs as [->| ->]; [by left|].
    destruct r0 as [e|[a db']]; [by right|]. destruct (Hk a db') as [_ Hk']. apply Hk'.
Qed.

(** The outcome of a transaction of statements: nothing, or all of them. *)
Lemma mutate_cases {A} (r : Repository) event (fn : Tx A) r' res :
  regular fn -> mutate r event fn = (r', res) ->
  r_listeners r' = r_listeners r /\ r_clock r' = r_clock r /\
  ((exists e, res = inl e /\ r_db r' = r_db r /\ (e = ErrStorage \/ exists e0, (fn (r_db r) []).1 = inl e0 /\ e = mapRepositoryError e0)) \/
   (exists a, (fn (r_db r) []).1 = inr (a, r_db r') /\ (res = inr a \/ (res = inl ErrListener /\ notify r event <> None)))).
Proof.
  intros Hreg. unfold mutate. destruct (pop (r_fail r)) as [[] fs].
  { intros [= <- <-]. split; [done|]. split; [done|]. left. exists ErrStorage. by split_and!; [..|left]. }
  destruct (Hreg (r_db r)) as [_ Hfs]. specialize (Hfs fs).
  destruct (fn (r_db r) fs) as [[e|[a db]] fs'] eqn:Hfn; cbn [fst] in Hfs.
  { intros [= <- <-]. split; [done|]. split; [done|]. left. eexists. split; [done|]. split; [done|].
    destruct Hfs as [[= ->]|Hfs]; [by left|right]. exists e. by rewrite <- Hfs. }
  destruct Hfs as [?|Hfs]; [done|]. destruct (pop fs') as [[] fs2].
  { intros [= <- <-]. split; [done|]. split; [done|]. left. exists ErrStorage. by split_and!; [..|left]. }
  change (notify (with_db r db fs2) event) with (notify r event).
  case_bool_decide; [|destruct (notify r event) as [e|] eqn:He]; intros [= <- <-]; (split; [done|]); (split; [done|]); right; exists a;
    rewrite <- Hfs; (split; [done|]); [by left| |by left].
  right. split; [|done]. unfold notify in He. destruct (existsb _ _); [by injection He as <-|done].
Qed.

(** Listeners that never report an error. *)
Definition silent (l : list (CommitEvent -> bool)) : Prop := Forall (fun f => forall e, f e = false) l.
Lemma silent_notify (r : Repository) e : silent (r_listeners r) -> notify r e = None.
Proof. unfold notify. intros Hs. induction Hs as [|f l Hf _ IH]; cbn; [done|]. by rewrite Hf. Qed.

(** Without failures. *)
Lemma mutate_runs {A} (r : Repository) event (fn : Tx A) :
  (fn (r_db r) []).2 = [] -> r_fail r = [] -> silent (r_listeners r) ->
  mutate r event fn = match (fn (r_db r) []).1 with
                      | inl e => (with_db r (r_db r) [], inl (mapRepositoryError e))
                      | inr (a, db) => (with_db r db [], inr a)
                      end.
Proof.
  intros Hnil Hf Hl. unfold mutate. rewrite Hf. cbn [pop].
  destruct (fn (r_db r) []) as [[e|[a db]] fs]; cbn in Hnil |- *; subst fs; [done|].
  cbn [pop]. rewrite (silent_notify (with_db r db [])) by done. by case_bool_decide.
Qed.
Lemma mutate_ok {A} (r : Repository) event (fn : Tx A) :
  regular fn -> r_fail r = [] -> silent (r_listeners r) ->
  mutate r event fn = match (fn (r_db r) []).1 with
                      | inl e => (with_db r (r_db r) [], inl (mapRepositoryError e))
                      | inr (a, db) => (with_db r db [], inr a)
                      end.
Proof. intros Hreg. apply mutate_runs, Hreg. Qed.

(** A function that looks over one failure: it ends as when nothing fails, with the failure
    of a statement, or as [c'] does when nothing fails. *)
Definition regular_or_at {A} (db : DB) (c c' : Tx A) : Prop := (c db []).2 = [] /\ (c' db []).2 = [] /\
  forall fs, (c db fs).1 = inl ErrStorage \/ (c db fs).1 = (c db []).1 \/ (c db fs).1 = (c' db []).1.
Definition regular_or {A} (c c' : Tx A) : Prop := forall db, regular_or_at db c c'.
(** Statements that only read come before it. *)
Lemma regular_or_query {A B} db (f : DB -> A) (k : A -> Tx B) c' : regular_or_at db (k (f db)) c' -> regular_or_at db (tx_bind (QueryRow f) k) c'.
Proof. intros (Hn & Hn' & Hf). split; [exact Hn|]. split; [exact Hn'|]. intros [|[] fs]; [exact (Hf [])|by left|exact (Hf fs)]. Qed.
Lemma regular_or_hook {B} db (c c' : Tx B) : regular_or_at db c c' -> regular_or_at db (tx_bind hook (fun _ => c)) c'.
Proof. intros (Hn & Hn' & Hf). split; [exact Hn|]. split; [exact Hn'|]. intros [|[] fs]; [exact (Hf [])|by left|exact (Hf fs)]. Qed.
(** A row that cannot be read is no row. *)
Lemma regular_or_try {A B} db (f : DB -> option A) (k : option A -> Tx B) : (forall o, regular (k o)) -> regular_or_at db (tx_bind (TryRow f) k) (k None).
Proof.
  intros Hk. split; [apply Hk|]. split; [apply Hk|]. destruct (Hk None db) as [_ H0], (Hk (f db) db) as [_ H1].
  intros [|[] fs]; [by right; left|destruct (H0 fs); auto|destruct (H1 fs); auto].
Qed.
Lemma regular_regular_or {A} (c : Tx A) : regular c -> regular_or c c.
Proof. intros Hc db. destruct (Hc db) as [Hn Hf]. split_and!; [done|done|]. intros fs. destruct (Hf fs); auto. Qed.
Lemma regular_or_bind {A B} (c c' : Tx A) (k k' : A -> Tx B) :
  (regular c /\ c' = c /\ forall a, regular_or (k a) (k' a)) \/ (regular_or c c' /\ k' = k /\ forall a, regular (k a)) ->
  regular_or (tx_bind c k) (tx_bind c' k').
Proof.
  intros Hck db. unfold regular_or_at, tx_bind. destruct Hck as [(Hc & -> & Hk)|(Hc & -> & Hk)].
  - destruct (Hc db) as [Hn Hf]. destruct (c db []) as [[e|[a d]] fs0]; cbn in Hn, Hf; subst fs0.
    + split_and!; [done|done|]. intros fs. specialize (Hf fs). destruct (c db fs) as [x fs1]. cbn in Hf. destruct Hf as [->| ->]; auto.
    + destruct (Hk a d) as (Hn1 & Hn2 & Hf'). split_and!; [done|done|]. intros fs. specialize (Hf fs). destruct (c db fs) as [x fs1].
      cbn in Hf. destruct Hf as [->| ->]; [by left|apply Hf'].
  - destruct (Hc db) as (Hn & Hn' & Hf). destruct (c db []) as [x0 fs0], (c' db []) as [x0' fs0']. cbn in Hn, Hn', Hf. subst fs0 fs0'.
    assert (Hnil : forall x : error + (A * DB), (match x with inl e => (inl e, []) | inr (a, d) => k a d [] end).2 = []) by (intros [e|[a d]]; [done|apply Hk]).
    assert (Hsub : forall (x : error + (A * DB)) fs, (match x with inl e => (inl e, fs) | inr (a, d) => k a d fs end).1 = inl ErrStorage \/
      (match x with inl e => (inl e, fs) | inr (a, d) => k a d fs end).1 = (match x with inl e => (inl e, []) | inr (a, d) => k a d [] end).1)
      by (intros [e|[a d]] fs; [by right|apply Hk]).
    split; [by destruct x0 as [e|[a d]]; [|apply Hk]|]. split; [by destruct x0' as [e|[a d]]; [|apply Hk]|].
    intros fs. specialize (Hf fs). destruct (c db fs) as [x fs1]. cbn in Hf. destruct Hf as [->|[->| ->]]; [by left|..].
    + destruct (Hsub x0 fs1) as [E|E]; destruct x0 as [e|[a d]]; auto.
    + destruct (Hsub x0' fs1) as [E|E]; destruct x0' as [e|[a d]]; auto.
Qed.

(** ** What a transaction keeps

    [triple P c Q]: run where [P] holds, and whatever fails, [c] ends with an error or with
    an answer and a database of which [Q] holds. *)
Definition triple {A} (P : DB -> Prop) (c : Tx A) (Q : A -> DB -> Prop) : Prop :=
  forall db fs, P db -> match (c db fs).1 with inr (a, db') => Q a db' | inl _ => True end.

Lemma triple_ret {A} (a : A) (P : DB -> Prop) (Q : A -> DB -> Prop) : (forall db, P db -> Q a db) -> triple P (tx_ret a) Q.
Proof. intros HQ db fs HP. by apply HQ. Qed.
Lemma triple_err {A} e P (Q : A -> DB -> Prop) : triple P (tx_err e) Q.
Proof. done. Qed.
Lemma triple_bind {A B} P (c : Tx A) (k : A -> Tx B) (R : A -> DB -> Prop) (Q : B -> DB -> Prop) :
  triple P c R -> (forall a, triple (R a) (k a) Q) -> triple P (tx_bind c k) Q.
Proof.
  intros Hc Hk db fs HP. specialize (Hc db fs HP). unfold tx_bind.
  destruct (c db fs) as [[e|[a db']] fs']; cbn in *; [done|]. by apply Hk.
Qed.
Lemma triple_statement {A} P (f : DB -> error + (A * DB)) (Q : A -> DB -> Prop) :
  (forall db a db', P db -> f db = inr (a, db') -> Q a db') -> triple P (statement f) Q.
Proof.
  intros HQ db fs HP. unfold statement. destruct fs as [|[] fs]; cbn; [|done|]; destruct (f db) as [e|[a db']] eqn:Hf; eauto.
Qed.
Lemma triple_query {A} P (f : DB -> A) : triple P (QueryRow f) (fun a db => P db /\ a = f db).
Proof. apply triple_statement. by intros db a db' HP [= <- <-]. Qed.
Lemma triple_exec P (f : DB -> error + DB) (Q : DB -> Prop) :
  (forall db db', P db -> f db = inr db' -> Q db') -> triple P (Exec f) (fun _ => Q).
Proof.
  intros HQ. apply triple_statement. intros db [] db' HP Hf. destruct (f db) as [e|db1] eqn:Hdb; [done|]. injection Hf as <-. eauto.
Qed.
Lemma triple_conseq {A} (P P' : DB -> Prop) (c : Tx A) (Q Q' : A -> DB -> Prop) :
  triple P c Q -> (forall db, P' db -> P db) -> (forall a db, Q a db -> Q' a db) -> triple P' c Q'.
Proof.
  intros Hc HP HQ db fs HP'. specialize (Hc db fs (HP _ HP')). destruct (c db fs) as [[e|[a db']] fs']; cbn in *; [done|]. by apply HQ.
Qed.

(** The outcome of [mutate], of which listeners and the clock are no part. *)
Lemma mutate_triple {A} (P : DB -> Prop) (r : Repository) ev (c : Tx A) (Q : A -> DB -> Prop) r' res :
  P (r_db r) -> triple P c Q -> mutate r ev c = (r', res) ->
  r_listeners r' = r_listeners r /\ r_clock r' = r_clock r /\
  ((exists e, res = inl e /\ r_db r' = r_db r) \/ (exists a, Q a (r_db r') /\ (res = inr a \/ res = inl ErrListener))).
Proof.
  intros HP Hc. unfold mutate. destruct (pop (r_fail r)) as [[] fs].
  { intros [= <- <-]. by split_and!; [..|left; eexists]. }
  specialize (Hc (r_db r) fs HP). destruct (c (r_db r) fs) as [[e|[a db]] fs']; cbn [fst] in Hc.
  { intros [= <- <-]. by split_and!; [..|left; eexists]. }
  destruct (pop fs') as [[] fs2].
  { intros [= <- <-]. by split_and!; [..|left; eexists]. }
  case_bool_decide; [|destruct (notify _ ev) as [e|] eqn:He]; intros [= <- <-]; (split; [done|]); (split; [done|]); right; exists a.
  - by split; [|left].
  - split; [done|]. right. unfold notify in He. destruct (existsb _ _); [by injection He as <-|done].
  - by split; [|left].
Qed.
(** [keeps I c]: the transaction keeps an invariant. *)
Definition keeps {A} (I : DB -> Prop) (c : Tx A) : Prop := triple I c (fun _ => I).
Lemma keeps_ret {A} I (a : A) : keeps I (tx_ret a).
Proof. by apply triple_ret. Qed.
Lemma keeps_err {A} I e : keeps I (tx_err (A:=A) e).
Proof. apply triple_err. Qed.
Lemma keeps_bind {A B} I (c : Tx A) (k : A -> Tx B) : keeps I c -> (forall a, keeps I (k a)) -> keeps I (tx_bind c k).
Proof. apply triple_bind. Qed.
Lemma keeps_query {A} I (f : DB -> A) : keeps I (QueryRow f).
Proof. eapply triple_conseq; [apply triple_query|done|]. by intros a db [? _]. Qed.
Lemma keeps_try {A} I (f : DB -> option A) : keeps I (TryRow f).
Proof. by intros db [|[] fs] HI. Qed.
Lemma keeps_exec I (f : DB -> error + DB) : (forall db db', f db = inr db' -> I db -> I db') -> keeps I (Exec f).
Proof. intros HI. apply triple_exec. eauto. Qed.
Lemma keeps_statement {A} I (f : DB -> error + (A * DB)) : (forall db a db', f db = inr (a, db') -> I db -> I db') -> keeps I (statement f).
Proof. intros HI. apply triple_statement. eauto. Qed.

Lemma mutate_keeps {A} I (r : Repository) ev (c : Tx A) r' res : keeps I c -> mutate r ev c = (r', res) -> I (r_db r) -> I (r_db r').
Proof.
  intros Hc Hm HI. destruct (mutate_triple I r ev c _ r' res HI Hc Hm) as (_ & _ & [(e & _ & ->)|(a & HQ & _)]); done.
Qed.
(** ** Atomic operations

    [calm r]: the same repository where nothing fails and nobody listens. An atomic
    operation changes nothing and reports an error, or does and answers what it does there;
    a listener that fails afterwards only changes the answer. *)
Definition calm (r : Repository) : Repository := mkRepository (r_db r) [] (r_clock r) [].
Definition atomic {A} (F : Repository -> Repository * (error + A)) : Prop := forall r,
  ((exists e, (F r).2 = inl e) /\ r_db (F r).1 = r_db r) \/
  (r_db (F r).1 = r_db (F (calm r)).1 /\ ((F r).2 = (F (calm r)).2 \/ (F r).2 = inl ErrListener)).

(** The same with a second effect that a call may have instead of its own. *)
Definition atomic_or {A} (F G : Repository -> Repository * (error + A)) : Prop := forall r,
  ((exists e, (F r).2 = inl e) /\ r_db (F r).1 = r_db r) \/
  (r_db (F r).1 = r_db (F (calm r)).1 /\ ((F r).2 = (F (calm r)).2 \/ (F r).2 = inl ErrListener)) \/
  (r_db (F r).1 = r_db (G (calm r)).1 /\ ((F r).2 = (G (calm r)).2 \/ (F r).2 = inl ErrListener)).
Lemma atomic_atomic_or {A} (F : Repository -> Repository * (error + A)) : atomic F -> atomic_or F F.
Proof. intros HF r. destruct (HF r) as [?|?]; auto. Qed.

Lemma atomic_or_mutate {A} ev (c c' : Tx A) : regular_or c c' -> atomic_or (fun r => mutate r ev c) (fun r => mutate r ev c').
Proof.
  intros Hor r. destruct (Hor (r_db r)) as (Hn & Hn' & Hf). rewrite !(mutate_runs (calm r)) by (done || apply List.Forall_nil).
  change (r_db (calm r)) with (r_db r). unfold mutate. destruct (pop (r_fail r)) as [[] fs]; [left; split; [by eexists|done]|].
  specialize (Hf fs). destruct (c (r_db r) fs) as [[e|[a d]] fs1]; cbn [fst] in Hf; [left; split; [by eexists|done]|].
  destruct (pop fs1) as [[] fs2]; [left; split; [by eexists|done]|].
  assert (Hres : r_db (with_db r d fs2) = d) by done.
  assert (Hend : exists r' res, (if bool_decide (ce_Kind ev = []) then (with_db r d fs2, inr a) else
    match notify (with_db r d fs2) ev with Some e => (with_db r d fs2, inl e) | None => (with_db r d fs2, inr a) end) = (r', res) /\
    r_db r' = d /\ (res = inr a \/ res = inl ErrListener)).
  { case_bool_decide; [by eexists _, _; split_and!; [..|left]|]. unfold notify. destruct (existsb _ _); eexists _, _; split_and!; auto. }
  destruct Hend as (r' & res & -> & Hd & Hr). right. destruct Hf as [?|[E|E]]; [done|left|right]; rewrite <- E; cbn; by split.
Qed.
Lemma atomic_or_error {A} e : atomic_or (A:=A) (fun r => (r, inl e)) (fun r => (r, inl e)).
Proof. intros r. left. split; [by exists e|done]. Qed.
Lemma atomic_or_now {A} (F G : Repository -> Z -> Repository * (error + A)) :
  (forall n, atomic_or (fun r => F r n) (fun r => G r n)) -> atomic_or (fun r => let '(r, n) := now r in F r n) (fun r => let '(r, n) := now r in G r n).
Proof.
  intros HF r. unfold now. destruct r as [d f [|n c] ls]; cbn.
  - exact (HF 0 (mkRepository d f [] ls)).
  - exact (HF n (mkRepository d f c ls)).
Qed.
Lemma atomic_error {A} e : atomic (A:=A) (fun r => (r, inl e)).
Proof. intros r. left. split; [by exists e|done]. Qed.
Lemma atomic_now {A} (F : Repository -> Z -> Repository * (error + A)) :
  (forall n, atomic (fun r => F r n)) -> atomic (fun r => let '(r, n) := now r in F r n).
Proof.
  intros HF r. unfold now. destruct r as [d f [|n c] ls]; cbn.
  - exact (HF 0 (mkRepository d f [] ls)).
  - exact (HF n (mkRepository d f c ls)).
Qed.
Lemma atomic_mutate {A B} ev (c : Tx A) (g : A -> error + B) :
  regular c -> atomic (fun r => let '(r, res) := mutate r ev c in (r, match res with inl e => inl e | inr a => g a end)).
Proof.
  intros Hreg r. rewrite (mutate_ok (calm r)) by (done || apply List.Forall_nil). change (r_db (calm r)) with (r_db r).
  destruct (mutate r ev c) as [r' res] eqn:Hm.
  destruct (mutate_cases r ev c r' res Hreg Hm) as (_ & _ & [(e & -> & Hd & _)|(a & -> & Hres)]).
  - left. split; [by exists e|done].
  - right. split; [done|]. destruct Hres as [->|[-> _]]; [by left|by right].
Qed.
Lemma atomic_mutate_id {A} ev (c : Tx A) : regular c -> atomic (fun r => mutate r ev c).
Proof.
  intros Hreg r. pose proof (atomic_mutate ev c inr Hreg r) as Hm. cbv beta in Hm.
  destruct (mutate r ev c) as [r1 [e1|a1]], (mutate (calm r) ev c) as [r2 [e2|a2]]; exact Hm.
Qed.
End Tx.
#[global] Arguments Tx : clear implicits.
#[global] Arguments Repository : clear implicits.

Declare Scope tx_scope.
Delimit Scope tx_scope with tx.
Notation "'let!' x ':=' c 'in' k" := (tx_bind c (fun x => k))
  (at level 10, x name, c at level 200, k at level 200) : tx_scope.

Create HintDb tx.
#[export] Hint Resolve regular_ret regular_err regular_statement : tx.
(** Functions of statements are regular. *)
Ltac regular_tac :=
  repeat first [ solve [eauto with tx nocore] | apply regular_bind; [|intros ?] | progress cbv zeta
               | match goal with |- regular (match ?x with _ => _ end) => destruct x end
               | match goal with |- regular (let '(_, _) := ?x in _) => destruct x end ].

Create HintDb keeps.
Lemma keeps_hook {DB} (I : DB -> Prop) : keeps I hook.
Proof. apply keeps_statement. by intros db [] db' [= <-]. Qed.
#[export] Hint Resolve keeps_ret keeps_err keeps_query keeps_try keeps_hook : keeps.
(** A transaction keeps an invariant when its statements do. *)
Ltac keeps_tac :=
  repeat first [ solve [eauto 3 with keeps nocore] | apply keeps_bind; [|intros ?] | progress cbv zeta
               | apply keeps_exec; solve [eauto 3 with keeps nocore]
               | match goal with |- keeps _ (match ?x with _ => _ end) => destruct x end
               | match goal with |- keeps _ (let '(_, _) := ?x in _) => destruct x end ].

End sqlite.
