(* ===== verification/SqlKV.v ===== *)
(** * The storage of applications in SQLite (internal/sqlite/repository_kv.go, internal/gateway/kvstore.go)

    The key/value tables of the repository, and the store a hosted session is given: an
    instance of the interface of the runner (KVStore.v), so that what is proved of the
    host functions and of isolated sessions over any store holds of it.

    A table with the primary key (app_id, key) is a map from applications to their rows.
    Each statement is what its SQL says; a CHECK that does not hold is an error. *)

From S2P Require Import Prelude Abi AbiCaps Sha256 Utf8 GoStrings Keys KVStore SqlRepo.
Import sqlite.

Module sqlkv.
Open Scope tx_scope.

(** ** Tables (schema.go) *)

Record KVRow := mkRow { kv_value : bytes; kv_revision : Z; kv_updated_at : Z }.

Record Tables := mkTables {
  apps : gset bytes;                            (* the ids in apps *)
  kv_entries : gmap bytes (gmap bytes KVRow);
  kv_usage : gmap bytes (Z * Z) }.

Abbreviation TxKV := (Tx Tables).
Abbreviation Repo := (Repository Tables).

(** The limits, which the options set. *)
Record Limits := mkLimits { kvMaxKeys : Z; kvMaxBytes : Z }.

Definition DefaultKVMaxKeys : Z := 1000.
Definition DefaultKVMaxBytes : Z := 4 * 1024 * 1024.
Definition kvMaxKeyLen : Z := 256.

Definition WithKVLimits (maxKeys maxBytes : Z) : Limits := mkLimits maxKeys maxBytes.

(** ** Statements *)

(** SELECT COUNT( * ) FROM apps WHERE id=? *)
Definition count_app (appID : bytes) (t : Tables) : Z := if bool_decide (appID ∈ apps t) then 1 else 0.

Definition app_rows (t : Tables) (appID : bytes) : gmap bytes KVRow := default ∅ (kv_entries t !! appID).

(** SELECT value,revision FROM kv_entries WHERE app_id=? AND key=? *)
Definition select_entry (appID key : bytes) (t : Tables) : option (bytes * Z) :=
  (fun row => (kv_value row, kv_revision row)) <$> app_rows t appID !! key.

(** SELECT keys,bytes FROM kv_usage WHERE app_id=? *)
Definition select_usage (appID : bytes) (t : Tables) : option (Z * Z) := kv_usage t !! appID.

(** INSERT INTO kv_entries ... ON CONFLICT(app_id,key) DO UPDATE *)
Definition upsert_entry (appID key value : bytes) (revision now_ : Z) (t : Tables) : error + Tables :=
  if revision <? 1 then inl ErrCheck
  else inr (mkTables (apps t) (<[appID := <[key := mkRow value revision now_]> (app_rows t appID)]> (kv_entries t)) (kv_usage t)).

(** INSERT INTO kv_usage ... ON CONFLICT(app_id) DO UPDATE *)
Definition upsert_usage (appID : bytes) (keys bytes_ : Z) (t : Tables) : error + Tables :=
  if (keys <? 0) || (bytes_ <? 0) then inl ErrCheck
  else inr (mkTables (apps t) (kv_entries t) (<[appID := (keys, bytes_)]> (kv_usage t))).

(** DELETE FROM kv_entries WHERE app_id=? AND key=? *)
Definition delete_entry (appID key : bytes) (t : Tables) : error + Tables :=
  inr (mkTables (apps t) (<[appID := delete key (app_rows t appID)]> (kv_entries t)) (kv_usage t)).

(** UPDATE kv_usage SET keys=keys-1,bytes=bytes-? WHERE app_id=? AND keys>0 AND bytes>=? *)
Definition decrement_usage (appID : bytes) (size_ : Z) (t : Tables) : error + Tables :=
  match kv_usage t !! appID with
  | Some (keys, bytes_) =>
    if (0 <? keys) && (size_ <=? bytes_)
    then inr (mkTables (apps t) (kv_entries t) (<[appID := (keys - 1, bytes_ - size_)]> (kv_usage t)))
    else inr t
  | None => inr t
  end.

(** SELECT key FROM kv_entries WHERE app_id=? AND substr(key,1,length(?))=? ORDER BY key LIMIT ? *)
Definition select_keys (appID prefix : bytes) (limit : Z) (t : Tables) : list bytes :=
  take (Z.to_nat limit) (sort_keys (filter (fun k => has_prefix k prefix) (map fst (map_to_list (app_rows t appID))))).

(** ** The repository *)

Definition validateKVKey (key : bytes) : option error :=
  if bool_decide (key = []) || (kvMaxKeyLen <? len key) then Some ErrInvalid else None.

Definition valid_entry (appID key : bytes) : option error :=
  match validateID appID with Some e => Some e | None => validateKVKey key end.

Definition KVGet (r : Repo) (appID key : bytes) : Repo * (error + option bytes) :=
  match valid_entry appID key with
  | Some e => (r, inl e)
  | None =>
    let '(r, row) := query r (select_entry appID key) in
    (r, match row with inl e => inl (storageError e) | inr o => inr (fst <$> o) end)
  end.

Definition appExists (appID : bytes) : TxKV unit :=
  let! n := QueryRow (count_app appID) in if n =? 0 then tx_err ErrNotFound else tx_ret tt.

(** The function [kvWrite] runs in its transaction. *)
Definition kvWrite_tx (l : Limits) (appID key : bytes) (expected : option bytes) (value : bytes) (now_ : Z) : TxKV unit :=
  let! _ := appExists appID in
  let! row := QueryRow (select_entry appID key) in
  let existed := match row with Some _ => true | None => false end in
  let '(previous, revision) := match row with Some (v, n) => (v, n + 1) | None => ([], 1) end in
  let stale := match expected with
               | Some x => negb (bool_decide ((if existed then sha256 previous else zero_hash) = x))
               | None => false
               end in
  if stale then tx_err ErrConflict else
  let! usage := QueryRow (select_usage appID) in
  let '(usedKeys, usedBytes) := default (0, 0) usage in
  let newBytes := usedBytes + len value - len previous in
  let '(newKeys, newBytes) := if existed then (usedKeys, newBytes) else (usedKeys + 1, newBytes + len key) in
  if negb existed && (0 <? kvMaxKeys l) && (kvMaxKeys l <? newKeys) then tx_err ErrQuota else
  if (0 <? kvMaxBytes l) && (kvMaxBytes l <? newBytes) then tx_err ErrQuota else
  let! _ := Exec (upsert_entry appID key value revision now_) in
  Exec (upsert_usage appID newKeys newBytes).

Definition app_event (operation appID : bytes) : CommitEvent := mkCommitEvent operation (str "app") appID.

Definition kvWrite (l : Limits) (r : Repo) (appID key : bytes) (expected : option bytes) (value : bytes) : Repo * option error :=
  match valid_entry appID key with
  | Some e => (r, Some e)
  | None =>
    let '(r, now_) := now r in
    let '(r, res) := mutate r (app_event (str "kv-write") appID) (kvWrite_tx l appID key expected value now_) in
    (r, match res with inl e => Some e | inr _ => None end)
  end.

Definition KVSet (l : Limits) (r : Repo) (appID key value : bytes) := kvWrite l r appID key None value.
Definition KVCompareAndSwap (l : Limits) (r : Repo) (appID key expected value : bytes) := kvWrite l r appID key (Some expected) value.

Definition KVDelete_tx (appID key : bytes) : TxKV unit :=
  let! row := QueryRow (select_entry appID key) in
  match row with
  | None => tx_ret tt
  | Some (value, _) =>
    let! _ := Exec (delete_entry appID key) in
    Exec (decrement_usage appID (len key + len value))
  end.

Definition KVDelete (r : Repo) (appID key : bytes) : Repo * option error :=
  match valid_entry appID key with
  | Some e => (r, Some e)
  | None =>
    let '(r, res) := mutate r (app_event (str "kv-delete") appID) (KVDelete_tx appID key) in
    (r, match res with inl e => Some e | inr _ => None end)
  end.

Definition KVList (r : Repo) (appID prefix : bytes) (limit : Z) : Repo * (error + list bytes) :=
  match validateID appID with
  | Some e => (r, inl e)
  | None =>
    if (limit <? 1) || (256 <? limit) || (kvMaxKeyLen <? len prefix) then (r, inl ErrInvalid) else
    let '(r, res) := query r (select_keys appID prefix limit) in
    (r, match res with inl e => inl (storageError e) | inr ks => inr ks end)
  end.

Definition KVUsage (r : Repo) (appID : bytes) : Repo * (error + (Z * Z)) :=
  match validateID appID with
  | Some e => (r, inl e)
  | None =>
    let '(r, res) := query r (select_usage appID) in
    (r, match res with inl e => inl (storageError e) | inr o => inr (default (0, 0) o) end)
  end.

(** ** The store of a session (gateway/kvstore.go) *)

Record sqliteKVStore := mkStore { repo : Repo; limits : Limits; appID : bytes }.

Definition with_repo (s : sqliteKVStore) (r : Repo) : sqliteKVStore := mkStore r (limits s) (appID s).

(** [Set], [CompareAndSwap]: the errors the runner knows; any other is passed on. *)
Definition set_error (e : error) : StoreErr := match e with ErrQuota => KVStore.ErrQuota | _ => ErrIO end.
Definition cas_error (e : error) : StoreErr :=
  match e with ErrQuota => KVStore.ErrQuota | ErrConflict => KVStore.ErrConflict | _ => ErrIO end.

Definition lift_err {A} (f : error -> StoreErr) (r : error + A) : StoreErr + A := match r with inl e => inl (f e) | inr a => inr a end.

#[export] Instance sqliteKVStore_Store : Store sqliteKVStore := {
  kv_Get s k := let '(r, x) := KVGet (repo s) (appID s) k in (with_repo s r, lift_err (fun _ => ErrIO) x);
  kv_Set s k v := let '(r, e) := KVSet (limits s) (repo s) (appID s) k v in (with_repo s r, set_error <$> e);
  kv_Delete s k := let '(r, e) := KVDelete (repo s) (appID s) k in (with_repo s r, (fun _ => ErrIO) <$> e);
  kv_List s p n := let '(r, x) := KVList (repo s) (appID s) p n in (with_repo s r, lift_err (fun _ => ErrIO) x);
  kv_CompareAndSwap s k x v :=
    let '(r, e) := KVCompareAndSwap (limits s) (repo s) (appID s) k x v in (with_repo s r, cas_error <$> e) }.

(** ** Regular transactions *)

Lemma appExists_regular a : regular (appExists a).
Proof. unfold appExists, QueryRow. regular_tac. Qed.
#[local] Hint Resolve appExists_regular : tx.
Lemma kvWrite_regular l a k x v n : regular (kvWrite_tx l a k x v n).
Proof. unfold kvWrite_tx, QueryRow, Exec. regular_tac. Qed.
Lemma KVDelete_regular a k : regular (KVDelete_tx a k).
Proof. unfold KVDelete_tx, QueryRow, Exec. regular_tac. Qed.

(** ** The tables of one application *)

Definition contents (t : Tables) (a : bytes) : kvmap := kv_value <$> app_rows t a.

(** The usage is what is used, and revisions count from one. *)
Record usage_ok (t : Tables) (a : bytes) : Prop := {
  uo_usage : default (0, 0) (kv_usage t !! a) = (Z.of_nat (size (contents t a)), total_size (contents t a));
  uo_rows : map_Forall (fun _ row => 1 <= kv_revision row) (app_rows t a) }.

(** The same contents held by a store in memory. *)
Definition mem_of (l : Limits) (t : Tables) (a : bytes) : MemStore :=
  mkMemStore (contents t a) (total_size (contents t a)) (kvMaxKeys l) (kvMaxBytes l).

(** Nothing but the rows and the usage of [a] differ. *)
Definition only_app (a : bytes) (t t' : Tables) : Prop :=
  apps t' = apps t /\ forall b, b <> a -> app_rows t' b = app_rows t b /\ kv_usage t' !! b = kv_usage t !! b.

Lemma size_nonneg mm : 0 <= total_size mm.
Proof.
  induction mm as [|k v mm Hk IH] using map_ind; [done|]. rewrite total_size_insert_new by done. len_pos. lia.
Qed.

Lemma rows_insert t a rows u : app_rows (mkTables (apps t) (<[a := rows]> (kv_entries t)) u) a = rows.
Proof. unfold app_rows. cbn. by rewrite lookup_insert_eq. Qed.
Lemma rows_insert_ne t a b rows u : b <> a -> app_rows (mkTables (apps t) (<[a := rows]> (kv_entries t)) u) b = app_rows t b.
Proof. intros Hb. unfold app_rows. cbn. by rewrite lookup_insert_ne. Qed.

(** ** Writing *)

(** The two statements of a write. *)
Lemma upserts_spec l t a k v rev n :
  usage_ok t a -> 1 <= rev ->
  let mm := <[k := v]> (contents t a) in
  exists t', tx_bind (Exec (upsert_entry a k v rev n)) (fun _ => Exec (upsert_usage a (Z.of_nat (size mm)) (total_size mm))) t [] = (inr (tt, t'), []) /\
    contents t' a = mm /\ usage_ok t' a /\ only_app a t t' /\ mem_of l t' a = mkMemStore mm (total_size mm) (kvMaxKeys l) (kvMaxBytes l).
Proof.
  intros [Hu Hr] Hrev mm. unfold tx_bind, Exec, statement, upsert_entry, upsert_usage. rewrite (proj2 (Z.ltb_ge _ _)) by lia.
  pose proof (size_nonneg mm). rewrite !(proj2 (Z.ltb_ge _ 0)) by lia. cbn [orb apps kv_entries kv_usage]. eexists. split; [done|].
  set (t' := mkTables _ _ _). assert (Hrows : app_rows t' a = <[k := mkRow v rev n]> (app_rows t a)) by apply rows_insert.
  assert (Hc : contents t' a = mm) by (unfold contents; by rewrite Hrows, fmap_insert).
  split; [done|]. split; [split|split].
  - cbn. by rewrite lookup_insert_eq, Hc.
  - rewrite Hrows. by apply map_Forall_insert_2.
  - split; [done|]. intros b Hb. split; [by apply rows_insert_ne|]. cbn. by rewrite lookup_insert_ne.
  - unfold mem_of. by rewrite Hc.
Qed.

Definition mem_write (ms : MemStore) (k : bytes) (x : option bytes) (v : bytes) : MemStore * option StoreErr :=
  match x with None => MemStore_Set ms k v | Some x => MemStore_CompareAndSwap ms k x v end.

(** What a write does when nothing fails. *)
Lemma kvWrite_run l a k x v n t :
  (kvWrite_tx l a k x v n t []).1 =
  if bool_decide (a ∈ apps t) then
    let '(usedKeys, usedBytes) := default (0, 0) (kv_usage t !! a) in
    let mm := contents t a in
    let existed := bool_decide (is_Some (mm !! k)) in
    if match x with Some x => negb (bool_decide (digest (mm !! k) = x)) | None => false end then inl ErrConflict else
    let newKeys := if existed then usedKeys else usedKeys + 1 in
    let newBytes := usedBytes + len v - len (default [] (mm !! k)) + (if existed then 0 else len k) in
    if negb existed && (0 <? kvMaxKeys l) && (kvMaxKeys l <? newKeys) then inl ErrQuota else
    if (0 <? kvMaxBytes l) && (kvMaxBytes l <? newBytes) then inl ErrQuota else
    (tx_bind (Exec (upsert_entry a k v (match app_rows t a !! k with Some row => kv_revision row + 1 | None => 1 end) n))
       (fun _ => Exec (upsert_usage a newKeys newBytes)) t []).1
  else inl ErrNotFound.
Proof.
  unfold kvWrite_tx, appExists, QueryRow, count_app, select_entry, select_usage, contents.
  unfold tx_bind at 1 2. unfold statement at 1. destruct (bool_decide (a ∈ apps t)); [|done]. cbn [Z.eqb tx_ret].
  unfold tx_bind at 1. unfold statement at 1. rewrite lookup_fmap.
  destruct (app_rows t a !! k) as [row|]; cbn [fmap option_fmap option_map default];
    [rewrite (bool_decide_eq_true_2 (is_Some (Some _))) by eauto|rewrite (bool_decide_eq_false_2 (is_Some None)) by (by intros [])];
    cbn [digest]; (destruct (match x with Some x => _ | None => _ end); [by destruct (default _ _)|]);
    unfold tx_bind at 1; unfold statement at 1; destruct (default _ _) as [uk ub]; cbn [negb andb];
    rewrite ?Z.add_0_r, ?len_nil, ?Z.sub_0_r; repeat (destruct (_ && _); [done|]); done.
Qed.

(** The quota checks in memory, in the same form. *)
Lemma mem_write_run l t a k x v :
  mem_write (mem_of l t a) k x v =
  let mm := contents t a in
  let existed := bool_decide (is_Some (mm !! k)) in
  if match x with Some x => negb (bool_decide (digest (mm !! k) = x)) | None => false end then (mem_of l t a, Some KVStore.ErrConflict) else
  let newKeys := if existed then Z.of_nat (size mm) else Z.of_nat (size mm) + 1 in
  let newBytes := total_size mm + len v - len (default [] (mm !! k)) + (if existed then 0 else len k) in
  if negb existed && (0 <? kvMaxKeys l) && (kvMaxKeys l <? newKeys) then (mem_of l t a, Some KVStore.ErrQuota) else
  if (0 <? kvMaxBytes l) && (kvMaxBytes l <? newBytes) then (mem_of l t a, Some KVStore.ErrQuota) else
  (mkMemStore (<[k := v]> mm) newBytes (kvMaxKeys l) (kvMaxBytes l), None).
Proof.
  cbv zeta. set (mm := contents t a).
  assert (Hset : MemStore_Set (mem_of l t a) k v =
    if negb (bool_decide (is_Some (mm !! k))) && (0 <? kvMaxKeys l) && (kvMaxKeys l <? (if bool_decide (is_Some (mm !! k)) then Z.of_nat (size mm) else Z.of_nat (size mm) + 1))
    then (mem_of l t a, Some KVStore.ErrQuota) else
    if (0 <? kvMaxBytes l) && (kvMaxBytes l <? total_size mm + len v - len (default [] (mm !! k)) + (if bool_decide (is_Some (mm !! k)) then 0 else len k))
    then (mem_of l t a, Some KVStore.ErrQuota) else
    (mkMemStore (<[k := v]> mm) (total_size mm + len v - len (default [] (mm !! k)) + (if bool_decide (is_Some (mm !! k)) then 0 else len k)) (kvMaxKeys l) (kvMaxBytes l), None)).
  { unfold MemStore_Set. cbn [m st_bytes KVStore.maxKeys KVStore.maxBytes mem_of]. fold mm.
    by destruct (bool_decide (is_Some (mm !! k))); rewrite ?Z.add_0_r. }
  destruct x as [x|]; cbn [mem_write]; [|exact Hset]. unfold MemStore_CompareAndSwap. rewrite cas_is_set, Hset.
  cbn [m mem_of]. fold mm. by destruct (bool_decide (digest (mm !! k) = x)).
Qed.

(** A write in SQLite is the write in memory. *)
Lemma write_is_mem l t a k x v n :
  usage_ok t a ->
  match (kvWrite_tx l a k x v n t []).1 with
  | inl e => (e = ErrNotFound /\ a ∉ apps t) \/
             (e = ErrConflict /\ a ∈ apps t /\ mem_write (mem_of l t a) k x v = (mem_of l t a, Some KVStore.ErrConflict)) \/
             (e = ErrQuota /\ a ∈ apps t /\ mem_write (mem_of l t a) k x v = (mem_of l t a, Some KVStore.ErrQuota))
  | inr (_, t') => a ∈ apps t /\ mem_write (mem_of l t a) k x v = (mem_of l t' a, None) /\ usage_ok t' a /\ only_app a t t' /\
                   contents t' a = <[k := v]> (contents t a)
  end.
Proof.
  intros Ht. rewrite kvWrite_run, mem_write_run. case_bool_decide as Ha; [|by left]. pose proof Ht as [Hu Hr]. rewrite Hu. cbv zeta.
  assert (Hkeys : Z.of_nat (size (<[k := v]> (contents t a))) =
    if bool_decide (is_Some (contents t a !! k)) then Z.of_nat (size (contents t a)) else Z.of_nat (size (contents t a)) + 1).
  { destruct (contents t a !! k) eqn:Hk; [rewrite map_size_insert_Some, bool_decide_eq_true_2 by eauto; lia|].
    rewrite map_size_insert_None, bool_decide_eq_false_2 by (eauto || intros []; congruence). lia. }
  rewrite <- Hkeys, <- total_size_insert.
  destruct (match x with Some x => _ | None => _ end); [by right; left|].
  destruct (_ && (kvMaxKeys l <? _)); [by right; right|]. destruct ((0 <? kvMaxBytes l) && _); [by right; right|].
  set (rev := match app_rows t a !! k with Some row => _ | None => _ end).
  assert (Hrev : 1 <= rev).
  { unfold rev. destruct (app_rows t a !! k) as [row|] eqn:Hk; [|lia]. specialize (Hr _ _ Hk). cbn in Hr. lia. }
  destruct (upserts_spec l t a k v rev n Ht Hrev) as (t' & -> & Hc & Hok & Hother & Hmem). cbn [fst]. rewrite <- Hmem. by split_and!.
Qed.

(** ** Deleting *)

Lemma delete_is_mem l t a k :
  usage_ok t a ->
  exists t', (KVDelete_tx a k t []).1 = inr (tt, t') /\ MemStore_Delete (mem_of l t a) k = (mem_of l t' a, None) /\
    usage_ok t' a /\ only_app a t t' /\ contents t' a = delete k (contents t a).
Proof.
  intros Ht. pose proof Ht as [Hu Hr]. unfold KVDelete_tx, QueryRow, select_entry. unfold tx_bind at 1, statement at 1.
  assert (Hrow : contents t a !! k = kv_value <$> (app_rows t a !! k)) by (unfold contents; apply lookup_fmap).
  unfold MemStore_Delete. cbn [m st_bytes mem_of KVStore.maxKeys KVStore.maxBytes]. rewrite Hrow.
  destruct (app_rows t a !! k) as [row|] eqn:Hk; cbn [fmap option_fmap option_map].
  - unfold tx_bind, Exec, statement, delete_entry, decrement_usage. cbn [kv_usage].
    pose proof (total_size_delete (contents t a) k (kv_value row) Hrow) as Hsz. pose proof (size_nonneg (delete k (contents t a))).
    assert (Hsize : size (contents t a) = S (size (delete k (contents t a)))).
    { rewrite <- (insert_delete_id (contents t a) k (kv_value row) Hrow) at 1. rewrite map_size_insert_None by apply lookup_delete_eq. lia. }
    destruct (kv_usage t !! a) as [[uk ub]|] eqn:Hua; cbn [default] in Hu; injection Hu as Huk Hub; [|lia].
    rewrite (proj2 (Z.ltb_lt 0 uk)), (proj2 (Z.leb_le _ ub)) by lia. cbn [andb fst apps kv_entries kv_usage]. eexists. split; [done|].
    set (t' := mkTables _ _ _). assert (Hrows : app_rows t' a = delete k (app_rows t a)) by apply rows_insert.
    assert (Hc : contents t' a = delete k (contents t a)) by (unfold contents; by rewrite Hrows, fmap_delete).
    split; [unfold mem_of; rewrite Hc; repeat f_equal; lia|]. split; [split|split; [split; [done|]|done]].
    + rewrite Hc. cbn. rewrite lookup_insert_eq. cbn. f_equal; lia.
    + rewrite Hrows. intros j row' Hj. apply lookup_delete_Some in Hj as [_ Hj]. by apply (Hr j).
    + intros b Hb. split; [by apply rows_insert_ne|]. cbn. by rewrite lookup_insert_ne.
  - exists t. split; [done|]. split; [done|]. split; [done|]. split; [done|]. by rewrite delete_id.
Qed.

(** ** Any failure *)

Lemma only_app_refl a t : only_app a t t.
Proof. by split. Qed.

Lemma mem_write_cas ms k x v ms' e : MemStore_CompareAndSwap ms k x v = (ms', e) ->
  (e = None -> digest (m ms !! k) = x) /\ (e = Some KVStore.ErrConflict -> digest (m ms !! k) <> x).
Proof.
  unfold MemStore_CompareAndSwap. rewrite cas_is_set. case_bool_decide as Hx.
  - intros Hset. split; [done|]. intros ->. exfalso. unfold MemStore_Set in Hset. repeat (destruct (_ && _) in Hset; [done|]). done.
  - intros [= <- <-]. split; [done|by intros _].
Qed.

(** What a write of the repository leaves, whatever fails. *)
Lemma kvWrite_cases l (r : Repo) a k x v r' e :
  usage_ok (r_db r) a -> silent (r_listeners r) -> kvWrite l r a k x v = (r', e) ->
  usage_ok (r_db r') a /\ silent (r_listeners r') /\ only_app a (r_db r) (r_db r') /\
  contents (r_db r') a = (match e with None => <[k := v]> (contents (r_db r) a) | Some _ => contents (r_db r) a end) /\
  (forall h, x = Some h -> (e = None -> digest (contents (r_db r) a !! k) = h) /\ (e = Some ErrConflict -> digest (contents (r_db r) a !! k) <> h)).
Proof.
  intros Hok Hl. unfold kvWrite. destruct (valid_entry a k) as [e0|] eqn:Hv.
  { intros [= <- <-]. split; [done|]. split; [done|]. split; [apply only_app_refl|]. split; [done|]. intros h _. split; [done|].
    intros [= ->]. exfalso. unfold valid_entry, validateID, validateKVKey in Hv. by repeat destruct (_ || _) in Hv. }
  assert (Hnow : r_db (now r).1 = r_db r /\ r_listeners (now r).1 = r_listeners r) by (unfold now; by destruct (r_clock r)).
  destruct (now r) as [r0 n]. destruct Hnow as [Hdb0 Hl0]. cbn [fst] in *.
  destruct (mutate r0 _ _) as [r1 res] eqn:Hm. intros [= <- <-].
  destruct (mutate_cases _ _ _ _ _ (kvWrite_regular _ _ _ _ _ _) Hm) as (Hl1 & _ & Hcase). rewrite Hdb0 in Hcase.
  pose proof (write_is_mem l (r_db r) a k x v n Hok) as Hmem.
  destruct Hcase as [(e & -> & Hdb & He)|([] & Hrun & Hres)].
  - rewrite Hdb. split; [done|]. split; [congruence|]. split; [apply only_app_refl|]. split; [done|]. intros h Hx. split; [done|].
    intros [= ->]. destruct He as [?|(e0 & Hrun & He0)]; [done|]. rewrite Hrun in Hmem. subst x.
    destruct Hmem as [[-> _]|[(_ & _ & Hw)|[-> _]]]; [done| |done]. by apply (mem_write_cas _ _ _ _ _ _ Hw).
  - rewrite Hrun in Hmem. destruct Hmem as (_ & Hw & Hok' & Hother & Hc). split; [done|]. split; [congruence|]. split; [done|].
    destruct Hres as [->|[_ Hn]]; [|exfalso; apply Hn, silent_notify; by rewrite Hl0].
    split; [done|]. intros h ->. split; [|done]. intros _. by apply (mem_write_cas _ _ _ _ _ _ Hw).
Qed.

Lemma KVDelete_cases (r : Repo) a k r' e :
  usage_ok (r_db r) a -> silent (r_listeners r) -> KVDelete r a k = (r', e) ->
  usage_ok (r_db r') a /\ silent (r_listeners r') /\ only_app a (r_db r) (r_db r') /\
  contents (r_db r') a = (match e with None => delete k (contents (r_db r) a) | Some _ => contents (r_db r) a end).
Proof.
  intros Hok Hl. unfold KVDelete. destruct (valid_entry a k) as [e0|] eqn:Hv.
  { intros [= <- <-]. by split_and!. }
  destruct (mutate r _ _) as [r1 res] eqn:Hm. intros [= <- <-].
  destruct (mutate_cases _ _ _ _ _ (KVDelete_regular _ _) Hm) as (Hl1 & _ & Hcase).
  destruct (delete_is_mem (mkLimits 0 0) (r_db r) a k Hok) as (t' & Hrun & _ & Hok' & Hother & Hc).
  destruct Hcase as [(e & -> & Hdb & He)|([] & Hrun' & Hres)].
  - rewrite Hdb. split; [done|]. split; [congruence|]. by split.
  - rewrite Hrun in Hrun'. injection Hrun' as Ht'. rewrite <- Ht'. split; [done|]. split; [congruence|]. split; [done|].
    destruct Hres as [->|[_ Hn]]; [done|]. exfalso. by apply Hn, silent_notify.
Qed.

Lemma query_spec {A} (r : Repo) (f : Tables -> A) r' res : query r f = (r', res) ->
  r_db r' = r_db r /\ r_listeners r' = r_listeners r /\ (res = inl ErrStorage \/ res = inr (f (r_db r))).
Proof. unfold query. destruct (pop (r_fail r)) as [[] fs]; intros [= <- <-]; auto. Qed.

Lemma KVGet_cases (r : Repo) a k r' res : KVGet r a k = (r', res) ->
  r_db r' = r_db r /\ r_listeners r' = r_listeners r /\ (forall o, res = inr o -> o = contents (r_db r) a !! k).
Proof.
  unfold KVGet. destruct (valid_entry a k); [by intros [= <- <-]|]. destruct (query r _) as [r1 row] eqn:Hq. intros [= <- <-].
  destruct (query_spec _ _ _ _ Hq) as (H1 & H2 & H3). split; [done|]. split; [done|]. intros o Ho.
  destruct H3 as [->| ->]; [done|]. injection Ho as <-. unfold select_entry, contents. rewrite lookup_fmap. by destruct (app_rows _ _ !! k).
Qed.

Lemma select_keys_spec a p n t : select_keys a p n t = list_keys (contents t a) p n.
Proof.
  unfold select_keys, list_keys, contents. do 2 f_equal. rewrite map_to_list_fmap. f_equal.
  rewrite <- list_fmap_compose. apply list_fmap_ext. by intros ? [].
Qed.

Lemma KVList_cases (r : Repo) a p n r' res : KVList r a p n = (r', res) ->
  r_db r' = r_db r /\ r_listeners r' = r_listeners r /\ (forall ks, res = inr ks -> ks = list_keys (contents (r_db r) a) p n).
Proof.
  unfold KVList. destruct (validateID a); [by intros [= <- <-]|]. destruct (_ || _); [by intros [= <- <-]|].
  destruct (query r _) as [r1 row] eqn:Hq. intros [= <- <-]. destruct (query_spec _ _ _ _ Hq) as (H1 & H2 & H3).
  split; [done|]. split; [done|]. intros ks Hks. destruct H3 as [->| ->]; [done|]. injection Hks as <-. apply select_keys_spec.
Qed.

(** ** The promises of a store *)

Definition store_contents (s : sqliteKVStore) : kvmap := contents (r_db (repo s)) (appID s).
Definition store_ok (s : sqliteKVStore) : Prop := usage_ok (r_db (repo s)) (appID s) /\ silent (r_listeners (repo s)).

#[export] Instance sqliteKVStore_laws : StoreLaws sqliteKVStore.
Proof.
  refine {| view := store_contents; sinv := store_ok |}; unfold store_contents, store_ok.
  - intros s k s' res [Hok Hl] _. cbn [kv_Get sqliteKVStore_Store]. destruct (KVGet _ _ _) as [r x] eqn:H. intros [= <- <-].
    destruct (KVGet_cases _ _ _ _ _ H) as (H1 & H2 & H3). cbn [repo with_repo appID]. rewrite H1, H2. split; [done|]. split; [done|].
    intros o Ho. destruct x; [done|]. injection Ho as <-. by apply H3.
  - intros s k v s' e [Hok Hl] _ _. cbn [kv_Set sqliteKVStore_Store]. destruct (KVSet _ _ _ _ _) as [r x] eqn:H. intros [= <- <-].
    destruct (kvWrite_cases _ _ _ _ _ _ _ _ Hok Hl H) as (H1 & H2 & _ & H3 & _). cbn [repo with_repo appID]. split; [done|]. rewrite H3. by destruct x.
  - intros s k s' e [Hok Hl] _. cbn [kv_Delete sqliteKVStore_Store]. destruct (KVDelete _ _ _) as [r x] eqn:H. intros [= <- <-].
    destruct (KVDelete_cases _ _ _ _ _ Hok Hl H) as (H1 & H2 & _ & H3). cbn [repo with_repo appID]. split; [done|]. rewrite H3. by destruct x.
  - intros s p n s' res [Hok Hl] _ _. cbn [kv_List sqliteKVStore_Store]. destruct (KVList _ _ _ _) as [r x] eqn:H. intros [= <- <-].
    destruct (KVList_cases _ _ _ _ _ _ H) as (H1 & H2 & H3). cbn [repo with_repo appID]. rewrite H1, H2. split; [done|]. split; [done|].
    intros ks Hks. destruct x; [done|]. injection Hks as <-. by apply H3.
  - intros s k x v s' e [Hok Hl] _ _ _. cbn [kv_CompareAndSwap sqliteKVStore_Store]. destruct (KVCompareAndSwap _ _ _ _ _ _) as [r y] eqn:H.
    intros [= <- <-]. destruct (kvWrite_cases _ _ _ _ _ _ _ _ Hok Hl H) as (H1 & H2 & _ & H3 & H4). cbn [repo with_repo appID].
    split; [done|]. split; [rewrite H3; by destruct y|]. destruct (H4 x eq_refl) as [H5 H6]. split.
    + intros He. apply H5. by destruct y.
    + intros He. apply H6. destruct y as [[]|]; try done.
Defined.

(** ** Sequences of calls, over any store *)

Inductive kvop := OpGet (k : bytes) | OpSet (k v : bytes) | OpDelete (k : bytes) | OpList (p : bytes) (n : Z) | OpCAS (k x v : bytes).
Inductive kvanswer := AGet (r : StoreErr + option bytes) | AWrite (e : option StoreErr) | AList (r : StoreErr + list bytes).

Definition kv_step {S} `{Store S} (s : S) (o : kvop) : S * kvanswer :=
  match o with
  | OpGet k => let '(s, r) := kv_Get s k in (s, AGet r)
  | OpSet k v => let '(s, e) := kv_Set s k v in (s, AWrite e)
  | OpDelete k => let '(s, e) := kv_Delete s k in (s, AWrite e)
  | OpList p n => let '(s, r) := kv_List s p n in (s, AList r)
  | OpCAS k x v => let '(s, e) := kv_CompareAndSwap s k x v in (s, AWrite e)
  end.

Fixpoint kv_run {S} `{Store S} (s : S) (os : list kvop) : S * list kvanswer :=
  match os with
  | [] => (s, [])
  | o :: os => let '(s, a) := kv_step s o in let '(s, ans) := kv_run s os in (s, a :: ans)
  end.

(** What the host checks before a store is reached. *)
Definition op_ok (o : kvop) : Prop :=
  match o with
  | OpGet k | OpSet k _ | OpDelete k | OpCAS k _ _ => key_ok k
  | OpList p n => len p <= KVMaxKey /\ 1 <= n <= KVMaxList
  end.

Definition in_memory (s : sqliteKVStore) : MemStore := mem_of (limits s) (r_db (repo s)) (appID s).

(** Nothing fails and the application exists. *)
Record sound (s : sqliteKVStore) : Prop := {
  so_fail : r_fail (repo s) = [];
  so_ok : store_ok s;
  so_id : validateID (appID s) = None;
  so_app : appID s ∈ apps (r_db (repo s)) }.

Lemma valid_entry_ok s k : sound s -> key_ok k -> valid_entry (appID s) k = None.
Proof.
  intros [_ _ Hid _] [H1 H2]. unfold valid_entry, validateKVKey, kvMaxKeyLen, KVMaxKey in *. rewrite Hid.
  rewrite bool_decide_eq_false_2 by (intros ->; rewrite len_nil in H1; lia). cbn [orb]. by rewrite (proj2 (Z.ltb_ge _ _)) by lia.
Qed.

Lemma now_same (r : Repo) : r_db (now r).1 = r_db r /\ r_listeners (now r).1 = r_listeners r /\ r_fail (now r).1 = r_fail r.
Proof. unfold now. by destruct (r_clock r). Qed.

Lemma sound_write s k x v : sound s -> key_ok k ->
  exists r' e, kvWrite (limits s) (repo s) (appID s) k x v = (r', e) /\ sound (with_repo s r') /\
    mem_write (in_memory s) k x v = (in_memory (with_repo s r'), cas_error <$> e) /\ (x = None -> e <> Some ErrConflict).
Proof.
  intros Hs Hk. pose proof Hs as [Hf [Hok Hl] Hid Happ]. unfold kvWrite. rewrite (valid_entry_ok s k Hs Hk).
  destruct (now_same (repo s)) as (Hdb & Hl' & Hf'). destruct (now (repo s)) as [r n]. cbn [fst] in *.
  rewrite mutate_ok by (apply kvWrite_regular || congruence || by rewrite Hl'). rewrite Hdb.
  pose proof (write_is_mem (limits s) (r_db (repo s)) (appID s) k x v n Hok) as Hmem.
  destruct (kvWrite_tx _ _ _ _ _ _ _ _).1 as [e|[[] t']].
  - destruct Hmem as [[_ Hn]|Hmem]; [done|]. 
    assert (He : e = ErrConflict \/ e = ErrQuota) by (destruct Hmem as [[-> _]|[-> _]]; auto).
    do 2 eexists. split; [done|]. split; [split; [done|split; [done|cbn; by rewrite Hl']|done|done]|].
    destruct Hmem as [(-> & _ & Hw)|(-> & _ & Hw)]; (split; [exact Hw|]); [|done].
    intros ->. exfalso. cbn [mem_write] in Hw. unfold MemStore_Set in Hw. by repeat (destruct (_ && _) in Hw).
  - destruct Hmem as (_ & Hw & Hok' & [Happs _] & _). do 2 eexists. split; [done|].
    split; [split; [done|split; [exact Hok'|cbn; by rewrite Hl']|done|by cbn; rewrite Happs]|]. by split.
Qed.

Lemma sound_delete s k : sound s -> key_ok k ->
  exists r', KVDelete (repo s) (appID s) k = (r', None) /\ sound (with_repo s r') /\
    MemStore_Delete (in_memory s) k = (in_memory (with_repo s r'), None).
Proof.
  intros Hs Hk. pose proof Hs as [Hf [Hok Hl] Hid Happ]. unfold KVDelete. rewrite (valid_entry_ok s k Hs Hk).
  rewrite mutate_ok by (apply KVDelete_regular || done).
  destruct (delete_is_mem (limits s) (r_db (repo s)) (appID s) k Hok) as (t' & -> & Hd & Hok' & [Happs _] & _).
  eexists. split; [done|]. split; [|exact Hd]. split; [done|split; [exact Hok'|done]|done|by cbn; rewrite Happs].
Qed.

Lemma sound_query {A} s (f : Tables -> A) : sound s ->
  exists r', query (repo s) f = (r', inr (f (r_db (repo s)))) /\ sound (with_repo s r') /\ in_memory (with_repo s r') = in_memory s.
Proof.
  intros [Hf [Hok Hl] Hid Happ]. unfold query. rewrite Hf. cbn [pop]. eexists. split; [done|]. split; [|done].
  by split.
Qed.

(** One call answers as the store in memory does. *)
Lemma step_is_mem s o : sound s -> op_ok o ->
  sound (kv_step s o).1 /\ kv_step (in_memory s) o = (in_memory (kv_step s o).1, (kv_step s o).2).
Proof.
  intros Hs Ho. destruct o as [k|k v|k|p n|k x v]; cbn [kv_step op_ok kv_Get kv_Set kv_Delete kv_List kv_CompareAndSwap sqliteKVStore_Store MemStore_Store] in *.
  - unfold KVGet. rewrite (valid_entry_ok s k Hs Ho). destruct (sound_query s (select_entry (appID s) k) Hs) as (r & -> & Hr & Hmem).
    cbn [fst snd]. split; [done|]. rewrite Hmem. do 3 f_equal. unfold MemStore_Get, in_memory, mem_of, select_entry, contents.
    cbn [m lift_err]. rewrite lookup_fmap. by destruct (app_rows _ _ !! k).
  - unfold KVSet. destruct (sound_write s k None v Hs Ho) as (r & e & -> & Hr & Hw & Hne). cbn [fst snd]. split; [done|].
    cbn [mem_write] in Hw. rewrite Hw. do 2 f_equal. destruct e as [[]|]; try done. by specialize (Hne eq_refl).
  - destruct (sound_delete s k Hs Ho) as (r & -> & Hr & Hd). cbn [fst snd]. split; [done|]. by rewrite Hd.
  - destruct Ho as [Hp Hn]. unfold KVList. rewrite (so_id s Hs). unfold kvMaxKeyLen, KVMaxKey, KVMaxList in *.
    rewrite (proj2 (Z.ltb_ge n 1)), (proj2 (Z.ltb_ge 256 n)), (proj2 (Z.ltb_ge 256 (len p))) by lia. cbn [orb].
    destruct (sound_query s (select_keys (appID s) p n) Hs) as (r & -> & Hr & Hmem). cbn [fst snd]. split; [done|]. rewrite Hmem. do 3 f_equal.
    rewrite select_keys_spec, MemStore_List_keys by (unfold KVMaxList; lia). done.
  - unfold KVCompareAndSwap. destruct (sound_write s k (Some x) v Hs Ho) as (r & e & -> & Hr & Hw & _). cbn [fst snd]. split; [done|].
    cbn [mem_write] in Hw. by rewrite Hw.
Qed.

(** ** Theorems *)

(** C5 (hosted storage is the store in memory): as long as no statement or commit fails and
    the listeners of commits report no error, as that of the gateway never does, the store of
    an application that exists, tables and transactions of SQLite, gives a session the
    answer of an in-memory store of the same contents and quotas to every call of
    any sequence of calls within the limits of the host functions, refusals over a quota and
    lost comparisons included, and holds its contents afterwards. *)
Theorem sqlite_store_is_memory (s : sqliteKVStore) os :
  sound s -> Forall op_ok os ->
  (kv_run s os).2 = (kv_run (in_memory s) os).2 /\ in_memory (kv_run s os).1 = (kv_run (in_memory s) os).1.
Proof.
  intros Hs Hos. revert s Hs. induction Hos as [|o os Ho _ IH]; intros s Hs; cbn [kv_run]; [done|].
  destruct (step_is_mem s o Hs Ho) as [Hs' Hstep]. rewrite Hstep. destruct (kv_step s o) as [s1 a]. cbn [fst snd] in *.
  destruct (IH s1 Hs') as [H1 H2]. destruct (kv_run s1 os) as [s2 ans], (kv_run (in_memory s1) os) as [ms ans']. cbn [fst snd] in *.
  by rewrite H1, H2.
Qed.

(** The calls of the repository that write these tables. *)
Inductive kv_call := CKVSet (app key value : bytes) | CKVCompareAndSwap (app key expected value : bytes) | CKVDelete (app key : bytes).
Definition as_result (x : Repo * option error) : Repo * (error + unit) := (x.1, match x.2 with Some e => inl e | None => inr tt end).
Definition run_kv (l : Limits) (o : kv_call) (r : Repo) : Repo * (error + unit) :=
  match o with
  | CKVSet a k v => as_result (KVSet l r a k v)
  | CKVCompareAndSwap a k x v => as_result (KVCompareAndSwap l r a k x v)
  | CKVDelete a k => as_result (KVDelete r a k)
  end.
Lemma atomic_as_result ev (c : TxKV unit) : regular c ->
  atomic (fun r => as_result (let '(r, res) := mutate r ev c in (r, match res with inl e => Some e | inr _ => None end))).
Proof.
  intros Hc r. pose proof (atomic_mutate_id ev c Hc r) as Hm. cbv beta in Hm. unfold as_result.
  destruct (mutate r ev c) as [r1 [e1|[]]], (mutate (calm r) ev c) as [r2 [e2|[]]]; cbn in *; exact Hm.
Qed.
Lemma kv_atomic l o : atomic (run_kv l o).
Proof.
  assert (Hw : forall a k x v, atomic (fun r => as_result (kvWrite l r a k x v))).
  { intros a k x v. unfold kvWrite. destruct (valid_entry a k) as [e|]; [apply (atomic_error e)|].
    intros r0. pose proof (atomic_now (fun r n => as_result (let '(r, res) := mutate r (app_event (str "kv-write") a) (kvWrite_tx l a k x v n) in (r, match res with inl e => Some e | inr _ => None end)))
      (fun n => atomic_as_result _ _ (kvWrite_regular _ _ _ _ _ _)) r0) as Hn. cbv beta in Hn. destruct (now r0), (now (calm r0)). exact Hn. }
  destruct o as [a k v|a k x v|a k]; [exact (Hw a k None v)|exact (Hw a k (Some x) v)|]. change (atomic (fun r => as_result (KVDelete r a k))). unfold KVDelete.
  destruct (valid_entry a k) as [e|]; [apply (atomic_error e)|]. apply atomic_as_result, KVDelete_regular.
Qed.

(** What an answered call makes of the contents. *)
Definition effect_on (mm : kvmap) (o : kvop) (a : kvanswer) : kvmap :=
  match o, a with
  | (OpSet k v | OpCAS k _ v), AWrite None => <[k := v]> mm
  | OpDelete k, AWrite None => delete k mm
  | _, _ => mm
  end.

(** (hosted storage is atomic and isolated): whatever statement, transaction or commit
    fails, a call either does all that it says or reports an error and changes nothing;
    the usage that the quotas are checked against stays exact; and no call touches the
    rows or the usage of another application. *)
Theorem sqlite_store_atomic (s : sqliteKVStore) o :
  store_ok s ->
  let '(s', a) := kv_step s o in
  store_ok s' /\ store_contents s' = effect_on (store_contents s) o a /\
  only_app (appID s) (r_db (repo s)) (r_db (repo s')) /\ appID s' = appID s.
Proof.
  intros [Hok Hl]. unfold store_ok, store_contents. 
  assert (Hread : forall r', r_db r' = r_db (repo s) -> r_listeners r' = r_listeners (repo s) ->
    (usage_ok (r_db r') (appID s) /\ silent (r_listeners r')) /\ contents (r_db r') (appID s) = contents (r_db (repo s)) (appID s) /\
    only_app (appID s) (r_db (repo s)) (r_db r') /\ appID s = appID s).
  { intros r' -> ->. split_and!; try done. }
  destruct o as [k|k v|k|p n|k x v]; cbn [kv_step kv_Get kv_Set kv_Delete kv_List kv_CompareAndSwap sqliteKVStore_Store].
  - destruct (KVGet _ _ _) as [r x] eqn:H. destruct (KVGet_cases _ _ _ _ _ H) as (H1 & H2 & _). cbn. by apply Hread.
  - destruct (KVSet _ _ _ _ _) as [r x] eqn:H. destruct (kvWrite_cases _ _ _ _ _ _ _ _ Hok Hl H) as (H1 & H2 & H3 & H4 & _).
    cbn [repo with_repo appID]. rewrite H4. by destruct x.
  - destruct (KVDelete _ _ _) as [r x] eqn:H. destruct (KVDelete_cases _ _ _ _ _ Hok Hl H) as (H1 & H2 & H3 & H4).
    cbn [repo with_repo appID]. rewrite H4. by destruct x.
  - destruct (KVList _ _ _ _) as [r x] eqn:H. destruct (KVList_cases _ _ _ _ _ _ H) as (H1 & H2 & _). cbn. by apply Hread.
  - destruct (KVCompareAndSwap _ _ _ _ _ _) as [r y] eqn:H. destruct (kvWrite_cases _ _ _ _ _ _ _ _ Hok Hl H) as (H1 & H2 & H3 & H4 & _).
    cbn [repo with_repo appID]. rewrite H4. by destruct y.
Qed.

(** ** Examples *)

Definition sample_store : sqliteKVStore :=
  mkStore (mkRepository (mkTables {[str "app"]} ∅ ∅) [] [100; 200; 300] [fun _ => false]) (WithKVLimits 2 12) (str "app").

Lemma empty_usage a b : usage_ok (mkTables {[b]} ∅ ∅) a.
Proof.
  assert (Hrows : app_rows (mkTables {[b]} ∅ ∅) a = ∅) by (unfold app_rows; cbn; by rewrite lookup_empty).
  split; [unfold contents; rewrite Hrows; cbn; by rewrite lookup_empty, fmap_empty|rewrite Hrows; apply map_Forall_empty].
Qed.

Lemma sample_store_sound : sound sample_store.
Proof. split; [done|split; [apply empty_usage|by repeat constructor]|by vm_compute|set_solver]. Qed.

Definition sample_ops : list kvop :=
  [OpSet (str "a") (str "1234"); OpCAS (str "b") zero_hash (str "56"); OpSet (str "c") []; OpCAS (str "a") zero_hash (str "x");
   OpSet (str "a") (str "123456789"); OpDelete (str "b"); OpGet (str "a"); OpList [] 10].

Lemma sqlite_store_is_memory_witness :
  (kv_run sample_store sample_ops).2 =
    [AWrite None; AWrite None; AWrite (Some KVStore.ErrQuota); AWrite (Some KVStore.ErrConflict); AWrite (Some KVStore.ErrQuota); AWrite None;
     AGet (inr (Some (str "1234"))); AList (inr [str "a"])].
Proof.
  destruct (sqlite_store_is_memory sample_store sample_ops sample_store_sound) as [H _].
  { repeat constructor; vm_compute; discriminate. }
  rewrite H. vm_compute. reflexivity.
Defined.

(** A write whose commit fails. *)
Lemma sqlite_store_atomic_witness :
  let s := mkStore (mkRepository (mkTables {[str "app"]} ∅ ∅) [false; false; false; false; false; false; true] [] []) (WithKVLimits 0 0) (str "app") in
  store_contents (kv_step s (OpSet (str "a") (str "b"))).1 = ∅ /\ (kv_step s (OpSet (str "a") (str "b"))).2 = AWrite (Some ErrIO).
Proof.
  cbv zeta. set (s := mkStore _ _ _).
  pose proof (sqlite_store_atomic s (OpSet (str "a") (str "b")) (conj (empty_usage _ _) (List.Forall_nil _))) as H.
  assert (Ha : (kv_step s (OpSet (str "a") (str "b"))).2 = AWrite (Some ErrIO)) by (vm_compute; reflexivity).
  destruct (kv_step s (OpSet (str "a") (str "b"))) as [s' a]. cbn [fst snd] in *. subst a.
  destruct H as (_ & H & _). split; [|reflexivity]. rewrite H. reflexivity.
Defined.

End sqlkv.
