(* ===== verification/SqlDB.v ===== *)
(** * The tables of the control plane (internal/sqlite/schema.go)

    A table is a map from its primary key to its rows; the whole database is a record of
    tables, in three groups. A statement is a function on the database: it refuses what a
    UNIQUE constraint refuses ([ErrUnique]) and what a CHECK, a foreign key or a trigger
    refuses ([ErrCheck]), and deletes what ON DELETE CASCADE deletes. *)

From stdpp Require Import sorting.
From S2P Require Import Prelude Utf8 GoStrings Keys SqlRepo.
Import sqlite.

Module db.

(** ** Instants: nanoseconds since the Unix epoch *)

Abbreviation Time := Z.
(** [time.Time{}]: the first instant of the year one. *)
Definition zero_time : Time := -62135596800 * 10 ^ 9.
(** [UnixNano] wraps where the count does not fit. *)
Definition UnixNano (t : Time) : Z := i64 t.
Definition IsZero (t : Time) : bool := t =? zero_time.
Definition day : Z := 24 * 3600 * 10 ^ 9.

(** ** Rows *)

Record ServerRow := mkServer { sv_id : bytes; sv_algorithm : bytes; sv_fingerprint : bytes; sv_created : Z }.
Record AuthorRow := mkAuthor { au_handle : bytes; au_suspended : bool; au_created : Z; au_updated : Z }.
Record TombRow := mkTomb { tb_author : bytes; tb_reason : bytes; tb_reserved : Z; tb_available : Z }.
Record RecoveryRow := mkRecovery { rc_salt : bytes; rc_verifier : bytes; rc_generation : Z; rc_created : Z; rc_rotated : Z }.
(** [revoked_at_ns], [revoked_by_kind] and [revoked_by_id]; a CHECK ties the first two. *)
Record DeviceRow := mkDevice {
  dv_author : bytes; dv_name : bytes; dv_public_key : bytes; dv_fingerprint : bytes; dv_created : Z;
  dv_revoked : option (Z * bytes * option bytes) }.
Record TokenRow := mkToken {
  tk_author : bytes; tk_purpose : bytes; tk_issued_by_kind : bytes; tk_issued_by_device : option bytes; tk_name : bytes;
  tk_salt : bytes; tk_verifier : bytes; tk_failed : Z; tk_created : Z; tk_expires : Z; tk_consumed : option Z }.
Record BootstrapRow := mkBootstrap {
  bs_handle : bytes; bs_name : bytes; bs_salt : bytes; bs_verifier : bytes; bs_failed : Z;
  bs_created : Z; bs_expires : Z; bs_consumed : option Z }.
Record QuotaRow := mkQuota { qt_apps : Z; qt_deployments : Z; qt_secrets : Z; qt_sessions : Z }.

Record AppRow := mkApp {
  ap_author : bytes; ap_name : bytes; ap_kind : bytes; ap_access : bytes; ap_suspended : bool; ap_created : Z; ap_updated : Z }.
Record BlobRow := mkBlob { bl_size : Z; bl_wasm : bytes }.
Record ArtifactRow := mkArtifact { ar_digest : bytes; ar_size : Z; ar_abi : Z; ar_created : Z }.
Record KeyRow := mkKey {
  ak_app : bytes; ak_name : bytes; ak_public_key : bytes; ak_fingerprint : bytes; ak_device : bytes; ak_created : Z }.
Record DeploymentRow := mkDeployment { dp_app : bytes; dp_artifact : bytes; dp_device : bytes; dp_created : Z }.

Record SecretRow := mkSecret { sc_version : Z; sc_created : Z; sc_updated : Z }.
Record SessionRow := mkSession {
  ss_app : bytes; ss_deployment : bytes; ss_digest : bytes; ss_started : Z; ss_ended : option Z;
  ss_log : bytes; ss_truncated : bool; ss_identity : bytes }.
Record AuditRow := mkAudit {
  ev_scope : bytes; ev_occurred : Z; ev_actor_kind : bytes; ev_actor_author : bytes; ev_actor_device : bytes;
  ev_action : bytes; ev_target_kind : bytes; ev_target : bytes; ev_actor_snapshot : bytes; ev_target_snapshot : bytes;
  ev_details : bytes }.

(** ** Tables *)

Record Identity := mkIdentity {
  t_authors : gmap bytes AuthorRow;                       (* authors *)
  t_tombstones : gmap bytes TombRow;                      (* author_handle_tombstones *)
  t_recovery : gmap bytes RecoveryRow;                    (* author_recovery *)
  t_devices : gmap bytes DeviceRow;                       (* devices *)
  t_tokens : gmap bytes TokenRow;                         (* device_enrollment_tokens *)
  t_bootstraps : gmap bytes BootstrapRow;                 (* bootstrap_pairing_authorities *)
  t_quotas : gmap bytes QuotaRow }.                       (* author_quotas *)

Record Catalog := mkCatalog {
  t_apps : gmap bytes AppRow;                             (* apps *)
  t_blobs : gmap bytes BlobRow;                           (* artifact_blobs *)
  t_artifacts : gmap bytes ArtifactRow;                   (* artifacts *)
  t_build : gmap (bytes * bytes) bytes;                   (* artifact_build_metadata *)
  t_keys : gmap bytes KeyRow;                             (* app_access_keys *)
  t_deployments : gmap bytes DeploymentRow;               (* app_deployments *)
  t_active : gmap bytes bytes;                            (* app_active_deployments *)
  t_suspended : gset bytes }.                             (* suspended_deployments *)

Record Settings := mkSettings {
  t_config : gmap (bytes * bytes * bytes) bytes;          (* app_capability_config *)
  t_values : gmap (bytes * bytes * bytes) (bytes * Z);    (* app_capability_values *)
  t_secrets : gmap (bytes * bytes) SecretRow;             (* secrets *)
  t_secret_values : gmap (bytes * bytes) bytes;           (* secret_values *)
  t_egress : gset (bytes * bytes);                        (* app_egress_allow *)
  t_sessions : gmap bytes SessionRow }.                   (* sessions *)

Record DB := mkDB {
  d_identity : Identity; d_catalog : Catalog; d_settings : Settings;
  server_identity : option ServerRow; audit_events : gmap bytes AuditRow }.

Definition authors (d : DB) := t_authors (d_identity d).
Definition tombstones (d : DB) := t_tombstones (d_identity d).
Definition recovery (d : DB) := t_recovery (d_identity d).
Definition devices (d : DB) := t_devices (d_identity d).
Definition tokens (d : DB) := t_tokens (d_identity d).
Definition bootstraps (d : DB) := t_bootstraps (d_identity d).
Definition quotas (d : DB) := t_quotas (d_identity d).
Definition apps (d : DB) := t_apps (d_catalog d).
Definition blobs (d : DB) := t_blobs (d_catalog d).
Definition artifacts (d : DB) := t_artifacts (d_catalog d).
Definition build_metadata (d : DB) := t_build (d_catalog d).
Definition access_keys (d : DB) := t_keys (d_catalog d).
Definition deployments (d : DB) := t_deployments (d_catalog d).
Definition active (d : DB) := t_active (d_catalog d).
Definition suspended (d : DB) := t_suspended (d_catalog d).
Definition cap_config (d : DB) := t_config (d_settings d).
Definition cap_values (d : DB) := t_values (d_settings d).
Definition secrets (d : DB) := t_secrets (d_settings d).
Definition secret_values (d : DB) := t_secret_values (d_settings d).
Definition egress (d : DB) := t_egress (d_settings d).
Definition sessions (d : DB) := t_sessions (d_settings d).

Definition empty_db : DB := mkDB (mkIdentity ∅ ∅ ∅ ∅ ∅ ∅ ∅) (mkCatalog ∅ ∅ ∅ ∅ ∅ ∅ ∅ ∅) (mkSettings ∅ ∅ ∅ ∅ ∅ ∅) None ∅.

(** Replacing one table. *)
Definition on_identity (f : Identity -> Identity) (d : DB) : DB :=
  mkDB (f (d_identity d)) (d_catalog d) (d_settings d) (server_identity d) (audit_events d).
Definition on_catalog (f : Catalog -> Catalog) (d : DB) : DB :=
  mkDB (d_identity d) (f (d_catalog d)) (d_settings d) (server_identity d) (audit_events d).
Definition on_settings (f : Settings -> Settings) (d : DB) : DB :=
  mkDB (d_identity d) (d_catalog d) (f (d_settings d)) (server_identity d) (audit_events d).
Definition set_audit (m : gmap bytes AuditRow) (d : DB) : DB :=
  mkDB (d_identity d) (d_catalog d) (d_settings d) (server_identity d) m.
Definition set_server (s : ServerRow) (d : DB) : DB :=
  mkDB (d_identity d) (d_catalog d) (d_settings d) (Some s) (audit_events d).

Definition set_authors m := on_identity (fun i => mkIdentity m (t_tombstones i) (t_recovery i) (t_devices i) (t_tokens i) (t_bootstraps i) (t_quotas i)).
Definition set_tombstones m := on_identity (fun i => mkIdentity (t_authors i) m (t_recovery i) (t_devices i) (t_tokens i) (t_bootstraps i) (t_quotas i)).
Definition set_recovery m := on_identity (fun i => mkIdentity (t_authors i) (t_tombstones i) m (t_devices i) (t_tokens i) (t_bootstraps i) (t_quotas i)).
Definition set_devices m := on_identity (fun i => mkIdentity (t_authors i) (t_tombstones i) (t_recovery i) m (t_tokens i) (t_bootstraps i) (t_quotas i)).
Definition set_tokens m := on_identity (fun i => mkIdentity (t_authors i) (t_tombstones i) (t_recovery i) (t_devices i) m (t_bootstraps i) (t_quotas i)).
Definition set_bootstraps m := on_identity (fun i => mkIdentity (t_authors i) (t_tombstones i) (t_recovery i) (t_devices i) (t_tokens i) m (t_quotas i)).
Definition set_quotas m := on_identity (fun i => mkIdentity (t_authors i) (t_tombstones i) (t_recovery i) (t_devices i) (t_tokens i) (t_bootstraps i) m).
Definition set_apps m := on_catalog (fun c => mkCatalog m (t_blobs c) (t_artifacts c) (t_build c) (t_keys c) (t_deployments c) (t_active c) (t_suspended c)).
Definition set_blobs m := on_catalog (fun c => mkCatalog (t_apps c) m (t_artifacts c) (t_build c) (t_keys c) (t_deployments c) (t_active c) (t_suspended c)).
Definition set_artifacts m := on_catalog (fun c => mkCatalog (t_apps c) (t_blobs c) m (t_build c) (t_keys c) (t_deployments c) (t_active c) (t_suspended c)).
Definition set_build m := on_catalog (fun c => mkCatalog (t_apps c) (t_blobs c) (t_artifacts c) m (t_keys c) (t_deployments c) (t_active c) (t_suspended c)).
Definition set_keys m := on_catalog (fun c => mkCatalog (t_apps c) (t_blobs c) (t_artifacts c) (t_build c) m (t_deployments c) (t_active c) (t_suspended c)).
Definition set_deployments m := on_catalog (fun c => mkCatalog (t_apps c) (t_blobs c) (t_artifacts c) (t_build c) (t_keys c) m (t_active c) (t_suspended c)).
Definition set_active m := on_catalog (fun c => mkCatalog (t_apps c) (t_blobs c) (t_artifacts c) (t_build c) (t_keys c) (t_deployments c) m (t_suspended c)).
Definition set_suspended m := on_catalog (fun c => mkCatalog (t_apps c) (t_blobs c) (t_artifacts c) (t_build c) (t_keys c) (t_deployments c) (t_active c) m).
Definition set_config m := on_settings (fun s => mkSettings m (t_values s) (t_secrets s) (t_secret_values s) (t_egress s) (t_sessions s)).
Definition set_values m := on_settings (fun s => mkSettings (t_config s) m (t_secrets s) (t_secret_values s) (t_egress s) (t_sessions s)).
Definition set_secrets m := on_settings (fun s => mkSettings (t_config s) (t_values s) m (t_secret_values s) (t_egress s) (t_sessions s)).
Definition set_secret_values m := on_settings (fun s => mkSettings (t_config s) (t_values s) (t_secrets s) m (t_egress s) (t_sessions s)).
Definition set_egress m := on_settings (fun s => mkSettings (t_config s) (t_values s) (t_secrets s) (t_secret_values s) m (t_sessions s)).
Definition set_sessions m := on_settings (fun s => mkSettings (t_config s) (t_values s) (t_secrets s) (t_secret_values s) (t_egress s) m).

(** ** Statements *)

Abbreviation TxDB := (Tx DB).
Abbreviation Repo := (Repository DB).

Section Tables.
Context {K V : Type} `{Countable K}.
Implicit Types m : gmap K V.

(** INSERT: the primary key is UNIQUE. *)
Definition insert_row (k : K) (v : V) m : error + gmap K V :=
  match m !! k with Some _ => inl ErrUnique | None => inr (<[k := v]> m) end.

(** UPDATE ... WHERE, DELETE ... WHERE, SELECT COUNT( * ) ... WHERE. *)
Definition update_where (P : K -> V -> bool) (f : V -> V) m : gmap K V := map_imap (fun k v => Some (if P k v then f v else v)) m.
Definition delete_where (P : K -> V -> bool) m : gmap K V := filter (fun kv => P kv.1 kv.2 = false) m.
Definition rows_where (P : K -> V -> bool) m : list (K * V) := filter (fun kv => P kv.1 kv.2 = true) (map_to_list m).
Definition count_where (P : K -> V -> bool) m : Z := len (rows_where P m).

(** A row with a property, where a UNIQUE constraint allows at most one. *)
Definition select_where (P : K -> V -> bool) m : option (K * V) := head (rows_where P m).
Definition exists_where (P : K -> V -> bool) m : bool := negb (bool_decide (rows_where P m = [])).
End Tables.

Definition eqb (a b : bytes) : bool := bool_decide (a = b).
Definition is_None_b {A} (o : option A) : bool := match o with None => true | Some _ => false end.
Definition has {V} (m : gmap bytes V) (k : bytes) : bool := negb (is_None_b (m !! k)).

(** ORDER BY over rows, by any of the orders that leaves equal rows in some order. *)
Definition order_by {A} (R : A -> A -> Prop) `{!forall x y, Decision (R x y)} (l : list A) : list A := merge_sort R l.

Definition then_ {A B E} (c : E + A) (k : A -> E + B) : E + B := match c with inl e => inl e | inr a => k a end.
Definition check {A} (b : bool) (k : error + A) : error + A := if b then k else inl ErrCheck.
Definition unique {A} (b : bool) (k : error + A) : error + A := if b then inl ErrUnique else k.

(** *** Identity *)

(** INSERT INTO server_identity ... ON CONFLICT(singleton) DO UPDATE, which keeps the instant. *)
Definition upsert_server (row : ServerRow) (d : DB) : error + DB :=
  inr (set_server (match server_identity d with
                   | Some old => mkServer (sv_id row) (sv_algorithm row) (sv_fingerprint row) (sv_created old)
                   | None => row
                   end) d).

Definition insert_author (id : bytes) (row : AuthorRow) (d : DB) : error + DB :=
  unique (exists_where (fun _ r => eqb (au_handle r) (au_handle row)) (authors d))
  (then_ (insert_row id row (authors d)) (fun m => inr (set_authors m d))).

(** UPDATE authors SET handle=?,updated_at_ns=? WHERE id=? *)
Definition update_handle (id handle : bytes) (now_ : Z) (d : DB) : error + DB :=
  unique (exists_where (fun k r => negb (eqb k id) && eqb (au_handle r) handle) (authors d) && has (authors d) id)
  (inr (set_authors (update_where (fun k _ => eqb k id) (fun r => mkAuthor handle (au_suspended r) (au_created r) now_) (authors d)) d)).

Definition insert_tombstone (handle : bytes) (row : TombRow) (d : DB) : error + DB :=
  check (tb_reserved row <=? tb_available row)
  (then_ (insert_row handle row (tombstones d)) (fun m => inr (set_tombstones m d))).
Definition delete_tombstone (handle : bytes) (d : DB) : error + DB := inr (set_tombstones (delete handle (tombstones d)) d).
(** DELETE FROM author_handle_tombstones WHERE available_after_ns <= ? *)
Definition delete_expired_tombstones (now_ : Z) (d : DB) : error + DB :=
  inr (set_tombstones (delete_where (fun _ r => tb_available r <=? now_) (tombstones d)) d).

Definition insert_recovery (author : bytes) (row : RecoveryRow) (d : DB) : error + DB :=
  check (1 <=? rc_generation row)
  (then_ (insert_row author row (recovery d)) (fun m => check (has (authors d) author) (inr (set_recovery m d)))).
(** UPDATE author_recovery SET salt=?,verifier=?,generation=?,rotated_at_ns=? WHERE author_id=? *)
Definition update_recovery (author salt verifier : bytes) (generation now_ : Z) (d : DB) : error + DB :=
  check (1 <=? generation)
  (inr (set_recovery (update_where (fun k _ => eqb k author) (fun r => mkRecovery salt verifier generation (rc_created r) now_) (recovery d)) d)).

Definition insert_device (id : bytes) (row : DeviceRow) (d : DB) : error + DB :=
  unique (exists_where (fun _ r => eqb (dv_fingerprint r) (dv_fingerprint row)
                                   || (eqb (dv_author r) (dv_author row) && eqb (dv_name r) (dv_name row))) (devices d))
  (then_ (insert_row id row (devices d)) (fun m => check (has (authors d) (dv_author row)) (inr (set_devices m d)))).

Definition device_active (r : DeviceRow) : bool := is_None_b (dv_revoked r).
Definition revoke (now_ : Z) (kind : bytes) (by_ : option bytes) (r : DeviceRow) : DeviceRow :=
  mkDevice (dv_author r) (dv_name r) (dv_public_key r) (dv_fingerprint r) (dv_created r) (Some (now_, kind, by_)).
(** UPDATE devices SET revoked_at_ns=?,revoked_by_kind=?,revoked_by_id=? WHERE ... AND revoked_at_ns IS NULL *)
Definition revoke_devices (P : bytes -> DeviceRow -> bool) (now_ : Z) (kind : bytes) (by_ : option bytes) (d : DB) : error + DB :=
  check (bool_decide (kind ∈ [str "device"; str "recovery"; str "operator"]))
  (inr (set_devices (update_where (fun k r => P k r && device_active r) (revoke now_ kind by_) (devices d)) d)).

Definition attempts_ok (n : Z) : bool := (0 <=? n) && (n <=? 5).

Definition insert_token (id : bytes) (row : TokenRow) (d : DB) : error + DB :=
  check (attempts_ok (tk_failed row) && (tk_created row <? tk_expires row)
         && bool_decide (tk_purpose row ∈ [str "add_device"; str "operator_recovery"])
         && ((eqb (tk_issued_by_kind row) (str "device") && negb (is_None_b (tk_issued_by_device row)))
             || (eqb (tk_issued_by_kind row) (str "operator") && is_None_b (tk_issued_by_device row))))
  (then_ (insert_row id row (tokens d)) (fun m => check (has (authors d) (tk_author row)) (inr (set_tokens m d)))).
Definition with_failed (n : Z) (r : TokenRow) : TokenRow :=
  mkToken (tk_author r) (tk_purpose r) (tk_issued_by_kind r) (tk_issued_by_device r) (tk_name r) (tk_salt r) (tk_verifier r) n
    (tk_created r) (tk_expires r) (tk_consumed r).
Definition consumed_at (now_ : Z) (r : TokenRow) : TokenRow :=
  mkToken (tk_author r) (tk_purpose r) (tk_issued_by_kind r) (tk_issued_by_device r) (tk_name r) (tk_salt r) (tk_verifier r) (tk_failed r)
    (tk_created r) (tk_expires r) (Some now_).
(** UPDATE device_enrollment_tokens SET failed_attempts=? WHERE id=? *)
Definition update_token_failed (id : bytes) (n : Z) (d : DB) : error + DB :=
  check (attempts_ok n) (inr (set_tokens (update_where (fun k _ => eqb k id) (with_failed n) (tokens d)) d)).
(** UPDATE device_enrollment_tokens SET consumed_at_ns=? WHERE ... *)
Definition consume_tokens (P : bytes -> TokenRow -> bool) (now_ : Z) (d : DB) : error + DB :=
  inr (set_tokens (update_where P (consumed_at now_) (tokens d)) d).

Definition insert_bootstrap (id : bytes) (row : BootstrapRow) (d : DB) : error + DB :=
  check (attempts_ok (bs_failed row) && (bs_created row <? bs_expires row))
  (then_ (insert_row id row (bootstraps d)) (fun m => inr (set_bootstraps m d))).
Definition update_bootstrap (id : bytes) (failed : Z) (consumed : option Z) (r : BootstrapRow) : BootstrapRow :=
  mkBootstrap (bs_handle r) (bs_name r) (bs_salt r) (bs_verifier r) failed (bs_created r) (bs_expires r) consumed.
(** UPDATE bootstrap_pairing_authorities SET failed_attempts=? WHERE id=? *)
Definition update_bootstrap_failed (id : bytes) (n : Z) (d : DB) : error + DB :=
  check (attempts_ok n)
  (inr (set_bootstraps (update_where (fun k _ => eqb k id) (fun r => update_bootstrap id n (bs_consumed r) r) (bootstraps d)) d)).
(** UPDATE bootstrap_pairing_authorities SET consumed_at_ns=? WHERE id=? *)
Definition consume_bootstrap (id : bytes) (now_ : Z) (d : DB) : error + DB :=
  inr (set_bootstraps (update_where (fun k _ => eqb k id) (fun r => update_bootstrap id (bs_failed r) (Some now_) r) (bootstraps d)) d).

Definition insert_quota (author : bytes) (row : QuotaRow) (d : DB) : error + DB :=
  then_ (insert_row author row (quotas d)) (fun m => check (has (authors d) author) (inr (set_quotas m d))).
(** INSERT INTO author_quotas ... ON CONFLICT(author_id) DO UPDATE *)
Definition upsert_quota (author : bytes) (row : QuotaRow) (d : DB) : error + DB :=
  check (has (authors d) author) (inr (set_quotas (<[author := row]> (quotas d)) d)).

Definition insert_audit (id : bytes) (row : AuditRow) (d : DB) : error + DB :=
  check (bool_decide (ev_actor_kind row ∈ [str "public_registration"; str "device"; str "recovery"; str "operator"; str "system"]))
  (then_ (insert_row id row (audit_events d)) (fun m => inr (set_audit m d))).

(** *** Applications *)

Definition valid_kind (k : bytes) : bool := bool_decide (k ∈ [str "tui"; str "cli"; str "vm"]).
Definition valid_access (k : bytes) : bool := bool_decide (k ∈ [str "public"; str "restricted"]).

Definition insert_app (id : bytes) (row : AppRow) (d : DB) : error + DB :=
  check (valid_kind (ap_kind row) && valid_access (ap_access row))
  (unique (exists_where (fun _ r => eqb (ap_author r) (ap_author row) && eqb (ap_name r) (ap_name row)) (apps d))
  (then_ (insert_row id row (apps d)) (fun m => check (has (authors d) (ap_author row)) (inr (set_apps m d))))).
(** UPDATE apps SET kind=?,access_mode=?,updated_at_ns=? WHERE id=? *)
Definition update_app (id kind access : bytes) (now_ : Z) (d : DB) : error + DB :=
  check (valid_kind kind && valid_access access)
  (inr (set_apps (update_where (fun k _ => eqb k id) (fun r => mkApp (ap_author r) (ap_name r) kind access (ap_suspended r) (ap_created r) now_) (apps d)) d)).

(** [digest_ok]: "sha256:" and 64 lower-case hexadecimal digits. *)
Definition is_hex (c : Z) : bool := within_b 48 57 c || within_b 97 102 c.
Definition digest_ok (s : bytes) : bool :=
  (len s =? 71) && bool_decide (take 7 s = str "sha256:") && forallb is_hex (drop 7 s).

(** The triggers keep the sizes of a blob and of the artifacts of its digest the same. *)
Definition insert_blob (digest : bytes) (row : BlobRow) (d : DB) : error + DB :=
  check ((bl_size row =? len (bl_wasm row)) && digest_ok digest
         && negb (exists_where (fun _ a => eqb (ar_digest a) digest && negb (ar_size a =? bl_size row)) (artifacts d)))
  (then_ (insert_row digest row (blobs d)) (fun m => inr (set_blobs m d))).
Definition insert_artifact (id : bytes) (row : ArtifactRow) (d : DB) : error + DB :=
  check ((0 <=? ar_size row) && within_b 0 255 (ar_abi row) && digest_ok (ar_digest row)
         && match blobs d !! ar_digest row with Some b => bl_size b =? ar_size row | None => true end)
  (then_ (insert_row id row (artifacts d)) (fun m => inr (set_artifacts m d))).
Definition insert_build (artifact key value : bytes) (d : DB) : error + DB :=
  then_ (insert_row (artifact, key) value (build_metadata d)) (fun m => check (has (artifacts d) artifact) (inr (set_build m d))).

Definition insert_key (id : bytes) (row : KeyRow) (d : DB) : error + DB :=
  unique (exists_where (fun _ r => eqb (ak_app r) (ak_app row) && (eqb (ak_name r) (ak_name row) || eqb (ak_fingerprint r) (ak_fingerprint row))) (access_keys d))
  (then_ (insert_row id row (access_keys d)) (fun m =>
   check (has (apps d) (ak_app row) && has (devices d) (ak_device row)) (inr (set_keys m d)))).
(** DELETE FROM app_access_keys WHERE id=? AND app_id=? *)
Definition delete_key (id app : bytes) (d : DB) : error + DB :=
  inr (set_keys (delete_where (fun k r => eqb k id && eqb (ak_app r) app) (access_keys d)) d).

Definition insert_deployment (id : bytes) (row : DeploymentRow) (d : DB) : error + DB :=
  then_ (insert_row id row (deployments d)) (fun m =>
  check (has (apps d) (dp_app row) && has (artifacts d) (dp_artifact row) && has (devices d) (dp_device row)) (inr (set_deployments m d))).
(** INSERT INTO app_active_deployments ... ON CONFLICT(app_id) DO UPDATE *)
Definition upsert_active (app deployment : bytes) (d : DB) : error + DB :=
  unique (exists_where (fun a x => negb (eqb a app) && eqb x deployment) (active d))
  (check (match deployments d !! deployment with Some r => eqb (dp_app r) app | None => false end && has (apps d) app)
  (inr (set_active (<[app := deployment]> (active d)) d))).
(** INSERT OR IGNORE INTO suspended_deployments, DELETE FROM suspended_deployments *)
Definition insert_suspended (deployment : bytes) (d : DB) : error + DB :=
  check (has (deployments d) deployment) (inr (set_suspended ({[deployment]} ∪ suspended d) d)).
Definition delete_suspended (deployment : bytes) (d : DB) : error + DB := inr (set_suspended (suspended d ∖ {[deployment]}) d).

(** DELETE FROM app_deployments WHERE id=?: the active deployment of an application is
    referenced, and cannot go. *)
Definition delete_deployment (id : bytes) (d : DB) : error + DB :=
  check (negb (exists_where (fun _ x => eqb x id) (active d)) || negb (has (deployments d) id))
  (inr (set_suspended (suspended d ∖ {[id]}) (set_deployments (delete id (deployments d)) d))).
Definition artifact_used (id : bytes) (d : DB) : bool := exists_where (fun _ r => eqb (dp_artifact r) id) (deployments d).
(** DELETE FROM artifacts WHERE ... AND NOT EXISTS(SELECT 1 FROM app_deployments WHERE artifact_id=id) *)
Definition delete_artifacts (P : bytes -> ArtifactRow -> bool) (d : DB) : error + DB :=
  let m := delete_where (fun k r => P k r && negb (artifact_used k d)) (artifacts d) in
  inr (set_build (delete_where (fun k _ => negb (has m k.1)) (build_metadata d)) (set_artifacts m d)).
(** DELETE FROM artifact_blobs WHERE ... AND NOT EXISTS(SELECT 1 FROM artifacts WHERE digest=...) *)
Definition blob_used (digest : bytes) (d : DB) : bool := exists_where (fun _ r => eqb (ar_digest r) digest) (artifacts d).
Definition delete_blobs (P : bytes -> bool) (d : DB) : error + DB :=
  inr (set_blobs (delete_where (fun k _ => P k && negb (blob_used k d)) (blobs d)) d).

(** *** Settings and sessions *)

(** INSERT ... ON CONFLICT(app_id,capability,key) DO UPDATE *)
Definition upsert_config (app capability key value : bytes) (d : DB) : error + DB :=
  check (has (apps d) app) (inr (set_config (<[(app, capability, key) := value]> (cap_config d)) d)).
Definition upsert_value (app capability key value : bytes) (now_ : Z) (d : DB) : error + DB :=
  check (has (apps d) app) (inr (set_values (<[(app, capability, key) := (value, now_)]> (cap_values d)) d)).
(** ON CONFLICT(app_id,key) DO UPDATE SET version, updated_at_ns: the creation stays. *)
Definition upsert_secret (app key : bytes) (row : SecretRow) (d : DB) : error + DB :=
  check ((1 <=? sc_version row) && has (apps d) app)
  (inr (set_secrets (<[(app, key) := mkSecret (sc_version row)
                                       (match secrets d !! (app, key) with Some r => sc_created r | None => sc_created row end)
                                       (sc_updated row)]> (secrets d)) d)).
Definition upsert_secret_value (app key value : bytes) (d : DB) : error + DB :=
  check (negb (is_None_b (secrets d !! (app, key)))) (inr (set_secret_values (<[(app, key) := value]> (secret_values d)) d)).
Definition delete_secret (app key : bytes) (d : DB) : error + DB :=
  inr (set_secret_values (delete (app, key) (secret_values d)) (set_secrets (delete (app, key) (secrets d)) d)).
Definition insert_egress (app host : bytes) (d : DB) : error + DB :=
  check (has (apps d) app) (inr (set_egress ({[(app, host)]} ∪ egress d) d)).
Definition delete_egress (app host : bytes) (d : DB) : error + DB := inr (set_egress (egress d ∖ {[(app, host)]}) d).

Definition insert_session (id : bytes) (row : SessionRow) (d : DB) : error + DB :=
  then_ (insert_row id row (sessions d)) (fun m => inr (set_sessions m d)).
Definition session_open (r : SessionRow) : bool := is_None_b (ss_ended r).
Definition update_session (id : bytes) (f : SessionRow -> SessionRow) (d : DB) : error + DB :=
  inr (set_sessions (update_where (fun k r => eqb k id && session_open r) f (sessions d)) d).
(** DELETE FROM sessions WHERE ended_at_ns IS NOT NULL AND ended_at_ns < ? *)
Definition delete_sessions (cutoff : Z) (d : DB) : error + DB :=
  inr (set_sessions (delete_where (fun _ r => match ss_ended r with Some t => t <? cutoff | None => false end) (sessions d)) d).
(** DELETE FROM audit_events WHERE occurred_at_ns < ? *)
Definition delete_audit (cutoff : Z) (d : DB) : error + DB :=
  inr (set_audit (delete_where (fun _ r => ev_occurred r <? cutoff) (audit_events d)) d).

(** *** DELETE FROM authors WHERE id=?

    Cascades to everything the author owns; a key or a deployment of another author that
    names a device that goes would be a dangling reference. *)
Definition delete_author (id : bytes) (d : DB) : error + DB :=
  let devices' := delete_where (fun _ r => eqb (dv_author r) id) (devices d) in
  let apps' := delete_where (fun _ r => eqb (ap_author r) id) (apps d) in
  let of_gone app := negb (has apps' app) in
  let keys' := delete_where (fun _ r => of_gone (ak_app r)) (access_keys d) in
  let deployments' := delete_where (fun _ r => of_gone (dp_app r)) (deployments d) in
  check (negb (exists_where (fun _ r => negb (has devices' (ak_device r))) keys')
         && negb (exists_where (fun _ r => negb (has devices' (dp_device r))) deployments'))
  (inr (mkDB
    (mkIdentity (delete id (authors d)) (tombstones d) (delete id (recovery d)) devices'
       (delete_where (fun _ r => eqb (tk_author r) id) (tokens d)) (bootstraps d) (delete id (quotas d)))
    (mkCatalog apps' (blobs d) (artifacts d) (build_metadata d) keys' deployments'
       (delete_where (fun app _ => of_gone app) (active d)) (filter (fun x => has deployments' x = true) (suspended d)))
    (mkSettings (delete_where (fun k _ => of_gone k.1.1) (cap_config d)) (delete_where (fun k _ => of_gone k.1.1) (cap_values d))
       (delete_where (fun k _ => of_gone k.1) (secrets d)) (delete_where (fun k _ => of_gone k.1) (secret_values d))
       (filter (fun x => has apps' x.1 = true) (egress d)) (sessions d))
    (server_identity d) (audit_events d))).

(** ** Lemmas on tables *)

Section TableLaws.
Context {K V : Type} `{Countable K}.
Implicit Types m : gmap K V.

Lemma lookup_update_where P f m k : update_where P f m !! k = (fun v => if P k v then f v else v) <$> m !! k.
Proof. unfold update_where. rewrite map_lookup_imap. by destruct (m !! k). Qed.
Lemma update_where_none P f m : (forall k v, m !! k = Some v -> P k v = false) -> update_where P f m = m.
Proof. intros HP. apply map_eq. intros k. rewrite lookup_update_where. destruct (m !! k) eqn:Hk; cbn; [by rewrite HP|done]. Qed.
Lemma lookup_delete_where P m k v : delete_where P m !! k = Some v <-> m !! k = Some v /\ P k v = false.
Proof. unfold delete_where. by rewrite map_lookup_filter_Some. Qed.
Lemma lookup_delete_where_None P m k : delete_where P m !! k = None <-> forall v, m !! k = Some v -> P k v = true.
Proof.
  destruct (delete_where P m !! k) as [v|] eqn:Hk.
  - apply lookup_delete_where in Hk as [Hm HP]. split; [done|]. intros Ha. specialize (Ha _ Hm). congruence.
  - split; [|done]. intros _ v Hv. destruct (P k v) eqn:HP; [done|].
    assert (delete_where P m !! k = Some v) by (by apply lookup_delete_where). congruence.
Qed.
Lemma elem_of_rows P m k v : (k, v) ∈ rows_where P m <-> m !! k = Some v /\ P k v = true.
Proof. unfold rows_where. rewrite list_elem_of_filter, elem_of_map_to_list. cbn. tauto. Qed.
Lemma exists_where_true P m : exists_where P m = true <-> exists k v, m !! k = Some v /\ P k v = true.
Proof.
  unfold exists_where. split.
  - intros Hb. case_bool_decide as Hn; [done|]. destruct (rows_where P m) as [|[k v] l] eqn:Hr; [done|].
    exists k, v. apply elem_of_rows. rewrite Hr. by left.
  - intros (k & v & Hkv). apply elem_of_rows in Hkv. case_bool_decide as Hn; [|done]. rewrite Hn in Hkv. by apply not_elem_of_nil in Hkv.
Qed.
Lemma exists_where_false P m : exists_where P m = false <-> forall k v, m !! k = Some v -> P k v = false.
Proof.
  rewrite <- not_true_iff_false, exists_where_true. split.
  - intros Hn k v Hk. apply not_true_iff_false. intros HP. apply Hn. eauto.
  - intros Ha (k & v & Hk & HP). rewrite Ha in HP by done. done.
Qed.
Lemma select_where_Some P m k v : select_where P m = Some (k, v) -> m !! k = Some v /\ P k v = true.
Proof. unfold select_where. intros Hh. apply head_Some_elem_of in Hh. by apply elem_of_rows. Qed.
Lemma select_where_None P m : select_where P m = None <-> forall k v, m !! k = Some v -> P k v = false.
Proof.
  unfold select_where. split.
  - intros Hh k v Hk. destruct (P k v) eqn:HP; [|done]. apply head_None in Hh.
    assert (Hin : (k, v) ∈ rows_where P m) by (by apply elem_of_rows). rewrite Hh in Hin. by apply not_elem_of_nil in Hin.
  - intros Ha. apply head_None. destruct (rows_where P m) as [|[k v] l] eqn:Hr; [done|].
    assert (Hin : (k, v) ∈ rows_where P m) by (rewrite Hr; by left). apply elem_of_rows in Hin as [Hk HP]. rewrite Ha in HP; done.
Qed.
(** Where at most one row has the property, that row is selected. *)
Lemma select_where_unique P m k v :
  m !! k = Some v -> P k v = true -> (forall k' v', m !! k' = Some v' -> P k' v' = true -> k' = k) -> select_where P m = Some (k, v).
Proof.
  intros Hk HP Hu. destruct (select_where P m) as [[k' v']|] eqn:Hs.
  - apply select_where_Some in Hs as [Hk' HP']. assert (k' = k) as -> by eauto. congruence.
  - rewrite select_where_None in Hs. rewrite Hs in HP by done. done.
Qed.
Lemma insert_row_ok k v m m' : insert_row k v m = inr m' <-> m !! k = None /\ m' = <[k := v]> m.
Proof. unfold insert_row. destruct (m !! k); [|intuition congruence]. split; [done|]. by intros [? _]. Qed.

Lemma count_where_zero P m : (count_where P m =? 0) = negb (exists_where P m).
Proof.
  unfold count_where, exists_where. destruct (rows_where P m) as [|x l]; cbn; [done|]. rewrite len_cons. len_pos.
  rewrite (proj2 (Z.eqb_neq _ 0)) by lia. done.
Qed.
Lemma count_where_insert P m k v : m !! k = None -> count_where P (<[k := v]> m) = count_where P m + (if P k v then 1 else 0).
Proof.
  intros Hk. unfold count_where, rows_where. assert (Hp : map_to_list (<[k := v]> m) ≡ₚ (k, v) :: map_to_list m) by (by apply map_to_list_insert).
  unfold len. erewrite Permutation_length by (by apply filter_Permutation, Hp). rewrite filter_cons. cbn.
  destruct (P k v); [rewrite decide_True by done|rewrite decide_False by done]; cbn; lia.
Qed.
Lemma count_where_nonneg P m : 0 <= count_where P m.
Proof. unfold count_where. apply len_nonneg. Qed.
End TableLaws.

Lemma eqb_true a b : eqb a b = true <-> a = b.
Proof. apply bool_decide_eq_true. Qed.
Lemma eqb_false a b : eqb a b = false <-> a <> b.
Proof. apply bool_decide_eq_false. Qed.
Lemma eqb_refl a : eqb a a = true.
Proof. by apply eqb_true. Qed.
Lemma has_true {V} (m : gmap bytes V) k : has m k = true <-> is_Some (m !! k).
Proof. unfold has. destruct (m !! k); cbn; split; intros Hx; [eauto|done|done|by destruct Hx]. Qed.
Lemma has_false {V} (m : gmap bytes V) k : has m k = false <-> m !! k = None.
Proof. unfold has. by destruct (m !! k). Qed.

(** Selecting, updating and counting by the primary key. *)
Lemma exists_where_key {V} (P : V -> bool) (m : gmap bytes V) id :
  exists_where (fun k r => eqb k id && P r) m = match m !! id with Some r => P r | None => false end.
Proof.
  destruct (exists_where _ m) eqn:He; symmetry.
  - apply exists_where_true in He as (k & v & Hk & [->%eqb_true HP]%andb_true_iff). by rewrite Hk.
  - rewrite exists_where_false in He. destruct (m !! id) as [v|] eqn:Hid; [|done]. specialize (He _ _ Hid). by rewrite eqb_refl in He.
Qed.
Lemma update_where_key {V} (f : V -> V) (m : gmap bytes V) id r :
  m !! id = Some r -> update_where (fun k _ => eqb k id) f m = <[id := f r]> m.
Proof.
  intros Hr. apply map_eq. intros k. rewrite lookup_update_where. destruct (decide (k = id)) as [->|Hne].
  - by rewrite Hr, lookup_insert_eq, eqb_refl.
  - rewrite lookup_insert_ne by done. destruct (m !! k); cbn; [by rewrite (proj2 (eqb_false k id) Hne)|done].
Qed.

(** A refused statement. *)
Lemma check_inr {A} b (k : error + A) a : check b k = inr a <-> b = true /\ k = inr a.
Proof. destruct b; cbn; intuition congruence. Qed.
Lemma unique_inr {A} b (k : error + A) a : unique b k = inr a <-> b = false /\ k = inr a.
Proof. destruct b; cbn; intuition congruence. Qed.
Lemma then_inr {A B E} (c : E + A) (k : A -> E + B) b : then_ c k = inr b <-> exists a, c = inr a /\ k a = inr b.
Proof. destruct c as [e|a]; cbn; split; [done|by intros (? & ? & ?)|eauto|by intros (? & [= ->] & ?)]. Qed.
End db.
