(* ===== verification/SqlIdentity.v ===== *)
(** * Authors, devices and credentials (internal/sqlite: repository.go, repository_operations.go, pairing.go)

    Registration, renaming and retiring of authors, enrolment and revocation of devices,
    bootstrap authorities, enrolment tokens and recovery material, each operation with its
    checks, the statements of its transaction and the audit record it leaves.

    An instant that an operation reads inside its transaction is taken from the clock before
    the transaction begins, in the same order. *)

From S2P Require Import Prelude Utf8 GoStrings Keys Streams SqlRepo SqlDB.
Import sqlite db.

(** What the operations use of other packages: [unicode.ToLower] above ASCII and [json.Valid]. *)
Class Platform := {
  uni_lower : Z -> Z;
  json_Valid : bytes -> bool;
  json_Valid_object : json_Valid (str "{}") = true }.

Module identity.
Open Scope tx_scope.

Section Operations.
Context `{Platform}.

(** [fmt.Sprint] of an integer. *)
Definition Sprint (n : Z) : bytes := if n <? 0 then 45 :: decimal (- n) else decimal n.

(** [for _, value := range values { if err := validateID(value); err != nil { return err } }] *)
Fixpoint validate_ids (values : list bytes) : option error :=
  match values with
  | [] => None
  | v :: vs => match validateID v with Some e => Some e | None => validate_ids vs end
  end.

Definition handle_error (h : bytes) : option error := validateHandle uni_lower h.

(** An operation: the first failing check, or a transaction. *)
Definition guarded {A} (r : Repo) (checks : list (option error)) (op : Repo * (error + A)) : Repo * (error + A) :=
  match head (omap id checks) with
  | Some e => (r, inl e)
  | None => op
  end.
Definition reject (b : bool) : option error := if b then Some ErrInvalid else None.

Definition event (operation kind id : bytes) : CommitEvent := mkCommitEvent operation kind id.

(** Comparing secrets without an early exit. *)
Fixpoint xor_all (a b : bytes) : Z :=
  match a, b with
  | x :: a, y :: b => Z.lor (Z.lxor x y) (xor_all a b)
  | _, _ => 0
  end.
Definition bytesEqual (a b : bytes) : bool := (len a =? len b) && (xor_all a b =? 0).

(** ** Audit *)

Record AuditInput := mkAuditInput {
  ai_ID : bytes; ai_ScopeAuthorID : bytes; ai_ActorKind : bytes; ai_ActorAuthorID : bytes; ai_ActorDeviceID : bytes;
  ai_Action : bytes; ai_TargetKind : bytes; ai_TargetID : bytes; ai_ActorSnapshot : bytes; ai_TargetSnapshot : bytes;
  ai_DetailsJSON : bytes }.

Definition audit (input : AuditInput) (now_ : Time) : TxDB unit :=
  match validateID (ai_ID input) with
  | Some e => tx_err e
  | None =>
    if eqb (ai_ActorKind input) [] || eqb (ai_Action input) [] || eqb (ai_TargetKind input) [] || eqb (ai_TargetID input) []
    then tx_err ErrInvalid else
    if (2048 <? len (ai_ActorSnapshot input)) || (2048 <? len (ai_TargetSnapshot input)) || (8192 <? len (ai_DetailsJSON input))
    then tx_err ErrInvalid else
    let details := if eqb (ai_DetailsJSON input) [] then str "{}" else ai_DetailsJSON input in
    if negb (json_Valid details) then tx_err ErrInvalid else
    Exec (insert_audit (ai_ID input) (mkAudit (ai_ScopeAuthorID input) (UnixNano now_) (ai_ActorKind input) (ai_ActorAuthorID input)
      (ai_ActorDeviceID input) (ai_Action input) (ai_TargetKind input) (ai_TargetID input) (ai_ActorSnapshot input)
      (ai_TargetSnapshot input) details))
  end.

(** ** The server *)

Definition SetServerIdentity (r : Repo) (id algorithm fingerprint : bytes) (createdAt : Time) : Repo * (error + unit) :=
  guarded r [validateID id; reject (eqb algorithm [] || eqb fingerprint [])]
  (let ns := UnixNano createdAt in
   let '(r, ns) := if ns =? 0 then let '(r, t) := now r in (r, UnixNano t) else (r, ns) in
   mutate r (event (str "server-identity") (str "server") id) (Exec (upsert_server (mkServer id algorithm fingerprint ns)))).

(** A query for one row: [sql.ErrNoRows] is [ErrNotFound]. *)
Definition query_row {A} (r : Repo) (f : DB -> option A) : Repo * (error + A) :=
  let '(r, res) := query r f in
  (r, match res with inl e => inl (storageError e) | inr None => inl ErrNotFound | inr (Some a) => inr a end).

Definition ServerIdentity (r : Repo) : Repo * (error + ServerRow) := query_row r server_identity.

(** ** Reading credentials *)

Definition RecoverySalt (r : Repo) (authorID : bytes) : Repo * (error + bytes) :=
  guarded r [validateID authorID] (query_row r (fun d => rc_salt <$> recovery d !! authorID)).
Definition EnrollmentSalt (r : Repo) (tokenID : bytes) : Repo * (error + bytes) :=
  guarded r [validateID tokenID] (query_row r (fun d => tk_salt <$> tokens d !! tokenID)).

Record PairingCredential := mkCredential {
  pc_AuthorID : bytes; pc_Handle : bytes; pc_DeviceName : bytes; pc_Salt : bytes; pc_Verifier : bytes; pc_Generation : Z }.

Definition consumed_b {A} (o : option A) : bool := negb (is_None_b o).

Definition EnrollmentCredential (r : Repo) (tokenID : bytes) : Repo * (error + PairingCredential) :=
  guarded r [validateID tokenID]
  (let '(r, res) := query_row r (fun d => tokens d !! tokenID) in
   match res with
   | inl e => (r, inl e)
   | inr t =>
     if negb (eqb (tk_purpose t) (str "add_device")) || consumed_b (tk_consumed t) then (r, inl ErrConflict) else
     let '(r, now_) := now r in
     if (tk_expires t <=? UnixNano now_) || (5 <=? tk_failed t) then (r, inl ErrConflict) else
     (r, inr (mkCredential (tk_author t) [] (tk_name t) (tk_salt t) (tk_verifier t) 0))
   end).

(** SELECT ... FROM authors a JOIN author_recovery r ON r.author_id=a.id WHERE a.handle=? AND a.suspended=0 *)
Definition select_recovery (handle : bytes) (d : DB) : option PairingCredential :=
  match select_where (fun id a => eqb (au_handle a) handle && negb (au_suspended a) && has (recovery d) id) (authors d) with
  | Some (id, a) => (fun rc => mkCredential id (au_handle a) [] (rc_salt rc) (rc_verifier rc) (rc_generation rc)) <$> recovery d !! id
  | None => None
  end.
Definition RecoveryCredential (r : Repo) (handle : bytes) : Repo * (error + PairingCredential) :=
  guarded r [handle_error handle] (query_row r (select_recovery handle)).

Record BootstrapAuthority := mkAuthority { ba_ID : bytes; ba_row : BootstrapRow }.

Definition BootstrapAuthorityCredential (r : Repo) (id : bytes) : Repo * (error + BootstrapAuthority) :=
  guarded r [validateID id]
  (let '(r, res) := query_row r (fun d => bootstraps d !! id) in
   match res with
   | inl e => (r, inl e)
   | inr b =>
     if consumed_b (bs_consumed b) then (r, inl ErrConflict) else
     let '(r, now_) := now r in
     if (bs_expires b <=? now_) || (5 <=? bs_failed b) then (r, inl ErrConflict) else (r, inr (mkAuthority id b))
   end).

(** ** Registration *)

Record Quota := mkQuotaInput { q_AuthorID : bytes; q_row : QuotaRow }.
Definition quota_negative (q : QuotaRow) : bool := (qt_apps q <? 0) || (qt_deployments q <? 0) || (qt_secrets q <? 0) || (qt_sessions q <? 0).

Record RegistrationInput := mkRegistration {
  ri_AuthorID : bytes; ri_Handle : bytes; ri_DeviceID : bytes; ri_DeviceName : bytes; ri_PublicKey : bytes; ri_Fingerprint : bytes;
  ri_RecoverySalt : bytes; ri_RecoveryVerifier : bytes; ri_CreatedAt : Time; ri_Quota : option Quota }.

Record Author := mkAuthorOut { a_ID : bytes; a_row : AuthorRow }.
Record Device := mkDeviceOut { d_ID : bytes; d_row : DeviceRow }.

Definition ensureHandleAvailable (handle : bytes) (nowNS : Z) : TxDB unit :=
  let! id := QueryRow (fun d => select_where (fun _ a => eqb (au_handle a) handle) (authors d)) in
  match id with
  | Some _ => tx_err ErrConflict
  | None =>
    let! available := QueryRow (fun d => tb_available <$> tombstones d !! handle) in
    match available with
    | Some t => if nowNS <? t then tx_err ErrConflict else Exec (delete_tombstone handle)
    | None => if 0 <=? nowNS then Exec (delete_tombstone handle) else tx_ret tt
    end
  end.

(** The rows every registration inserts. *)
Definition new_device (id author name publicKey fingerprint : bytes) (ns : Z) : Device :=
  mkDeviceOut id (mkDevice author name publicKey fingerprint ns None).

Definition insert_quota_input (author : bytes) (strict : bool) (q : option Quota) : TxDB unit :=
  match q with
  | None => tx_ret tt
  | Some q =>
    if negb (eqb (q_AuthorID q) []) && negb (eqb (q_AuthorID q) author) then tx_err ErrInvalid else
    if strict && quota_negative (q_row q) then tx_err ErrInvalid else
    Exec (insert_quota author (q_row q))
  end.

Definition RegisterAuthor_tx (input : RegistrationInput) (ns : Z) (audit_now : Time) : TxDB unit :=
  let! _ := ensureHandleAvailable (ri_Handle input) ns in
  let! _ := Exec (insert_author (ri_AuthorID input) (mkAuthor (ri_Handle input) false ns ns)) in
  let! _ := Exec (insert_recovery (ri_AuthorID input) (mkRecovery (ri_RecoverySalt input) (ri_RecoveryVerifier input) 1 ns ns)) in
  let! _ := Exec (insert_device (ri_DeviceID input) (d_row (new_device (ri_DeviceID input) (ri_AuthorID input) (ri_DeviceName input) (ri_PublicKey input) (ri_Fingerprint input) ns))) in
  let! _ := insert_quota_input (ri_AuthorID input) true (ri_Quota input) in
  audit (mkAuditInput (str "audit_" ++ ri_AuthorID input) (ri_AuthorID input) (str "public_registration") (ri_AuthorID input) []
           (str "author.register") (str "author") (ri_AuthorID input) (ri_AuthorID input) (ri_Handle input) []) audit_now.

Definition RegisterAuthor (r : Repo) (input : RegistrationInput) : Repo * (error + (Author * Device)) :=
  guarded r [validateID (ri_AuthorID input); handle_error (ri_Handle input);
             reject ((len (ri_RecoverySalt input) =? 0) || (1024 <? len (ri_RecoverySalt input)));
             reject ((len (ri_RecoveryVerifier input) =? 0) || (1024 <? len (ri_RecoveryVerifier input)));
             validate_ids [ri_DeviceID input; ri_DeviceName input; ri_PublicKey input; ri_Fingerprint input]]
  (let ns := UnixNano (ri_CreatedAt input) in
   let '(r, ns) := if ns =? 0 then let '(r, t) := now r in (r, UnixNano t) else (r, ns) in
   let '(r, audit_now) := now r in
   let '(r, res) := mutate r (event (str "public-registration") (str "author") (ri_AuthorID input)) (RegisterAuthor_tx input ns audit_now) in
   (r, match res with
       | inl e => inl e
       | inr _ => inr (mkAuthorOut (ri_AuthorID input) (mkAuthor (ri_Handle input) false ns ns),
                       new_device (ri_DeviceID input) (ri_AuthorID input) (ri_DeviceName input) (ri_PublicKey input) (ri_Fingerprint input) ns)
       end)).

(** ** Bootstrap authorities *)

Definition CreateBootstrapAuthority (r : Repo) (id handle deviceName salt verifier : bytes) (expiresAt : Time) : Repo * (error + BootstrapAuthority) :=
  guarded r [validateID id; handle_error handle; validateID deviceName;
             reject ((len salt =? 0) || (len verifier =? 0) || (1024 <? len salt) || (1024 <? len verifier))]
  (let '(r, now_) := now r in
   if expiresAt <=? now_ then (r, inl ErrInvalid) else
   let row := mkBootstrap handle deviceName salt verifier 0 (UnixNano now_) (UnixNano expiresAt) None in
   let '(r, res) := mutate r noEvent (Exec (insert_bootstrap id row)) in
   (r, match res with inl e => inl e | inr _ => inr (mkAuthority id row) end)).

(** [None]: the proof did not match, which is committed. *)
Definition CompleteBootstrapRegistration_tx (authorityID verifier : bytes) (input : RegistrationInput) (now_ audit_now : Time) : TxDB (option unit) :=
  let ns := UnixNano now_ in
  let! row := QueryRow (fun d => bootstraps d !! authorityID) in
  match row with
  | None => tx_err ErrNotFound
  | Some b =>
    if consumed_b (bs_consumed b) || (bs_expires b <=? ns) || (5 <=? bs_failed b) || negb (eqb (bs_handle b) (ri_Handle input))
       || negb (eqb (bs_name b) (ri_DeviceName input)) then tx_err ErrConflict else
    if negb (bytesEqual (bs_verifier b) verifier) then
      let! _ := Exec (update_bootstrap_failed authorityID (bs_failed b + 1)) in tx_ret None
    else
    let! _ := ensureHandleAvailable (ri_Handle input) ns in
    let! _ := Exec (insert_author (ri_AuthorID input) (mkAuthor (ri_Handle input) false ns ns)) in
    let! _ := Exec (insert_recovery (ri_AuthorID input) (mkRecovery (ri_RecoverySalt input) (ri_RecoveryVerifier input) 1 ns ns)) in
    let! _ := Exec (insert_device (ri_DeviceID input) (d_row (new_device (ri_DeviceID input) (ri_AuthorID input) (ri_DeviceName input) (ri_PublicKey input) (ri_Fingerprint input) ns))) in
    let! _ := insert_quota_input (ri_AuthorID input) false (ri_Quota input) in
    let! _ := Exec (consume_bootstrap authorityID ns) in
    let! _ := audit (mkAuditInput (str "audit_" ++ ri_AuthorID input) (ri_AuthorID input) (str "operator") (ri_AuthorID input) []
                       (str "author.register") (str "author") (ri_AuthorID input) [] [] []) audit_now in
    tx_ret (Some tt)
  end.

Definition CompleteBootstrapRegistration (r : Repo) (authorityID verifier : bytes) (input : RegistrationInput) : Repo * (error + (Author * Device)) :=
  guarded r [validateID authorityID; validateID (ri_AuthorID input); handle_error (ri_Handle input);
             validate_ids [ri_DeviceID input; ri_DeviceName input; ri_PublicKey input; ri_Fingerprint input];
             reject ((len verifier =? 0) || (len (ri_RecoverySalt input) =? 0) || (len (ri_RecoveryVerifier input) =? 0))]
  (let '(r, now_) := now r in
   let '(r, audit_now) := now r in
   let '(r, res) := mutate r (event (str "bootstrap-registration") (str "author") (ri_AuthorID input))
                      (CompleteBootstrapRegistration_tx authorityID verifier input now_ audit_now) in
   (r, match res with
       | inl e => inl e
       | inr None => inl ErrConflict
       | inr (Some _) => inr (mkAuthorOut (ri_AuthorID input) (mkAuthor (ri_Handle input) false (UnixNano now_) (UnixNano now_)),
                              new_device (ri_DeviceID input) (ri_AuthorID input) (ri_DeviceName input) (ri_PublicKey input) (ri_Fingerprint input) (UnixNano now_))
       end)).

(** ** Renaming and retiring *)

Definition reserve (reserveUntil : Time) (now_ : Z) : Z :=
  let available := UnixNano reserveUntil in if available <=? now_ then i64 (now_ + day) else available.

Definition RenameAuthor_tx (authorID newHandle : bytes) (reserveUntil : Time) (now_ audit_now : Time) : TxDB unit :=
  let! row := QueryRow (fun d => authors d !! authorID) in
  match row with
  | None => tx_err ErrNotFound
  | Some a =>
    if eqb (au_handle a) newHandle then tx_ret tt else
    let ns := UnixNano now_ in
    let! _ := ensureHandleAvailable newHandle ns in
    let! _ := Exec (insert_tombstone (au_handle a) (mkTomb authorID (str "renamed") ns (reserve reserveUntil ns))) in
    let! _ := Exec (update_handle authorID newHandle ns) in
    audit (mkAuditInput (str "audit_" ++ authorID ++ str "_rename_" ++ Sprint ns) authorID (str "recovery") authorID []
             (str "author.rename") (str "author") authorID (str "recovery") newHandle []) audit_now
  end.

Definition RenameAuthor (r : Repo) (authorID newHandle : bytes) (reserveUntil : Time) : Repo * (error + unit) :=
  guarded r [validateID authorID; handle_error newHandle]
  (let '(r, now_) := now r in
   let '(r, audit_now) := now r in
   mutate r (event (str "author-rename") (str "author") authorID) (RenameAuthor_tx authorID newHandle reserveUntil now_ audit_now)).

(** [verifier] is [None] for the operator. *)
Definition RetireAuthor_tx (authorID verifier : bytes) (reserveUntil : Time) (now_ audit_now : Time) : TxDB unit :=
  let! row := QueryRow (fun d => authors d !! authorID) in
  match row with
  | None => tx_err ErrNotFound
  | Some a =>
    let! _ := if 0 <? len verifier then
                let! row := QueryRow (fun d => recovery d !! authorID) in
                match row with
                | None => tx_err ErrNotFound
                | Some rc => if bytesEqual (rc_verifier rc) verifier then tx_ret tt else tx_err ErrConflict
                end
              else tx_ret tt in
    let ns := UnixNano now_ in
    let available := if UnixNano reserveUntil <=? ns then UnixNano (now_ + day) else UnixNano reserveUntil in
    let! _ := Exec (insert_tombstone (au_handle a) (mkTomb authorID (str "removed") ns available)) in
    let actor := if 0 <? len verifier then str "recovery" else str "operator" in
    let! _ := audit (mkAuditInput (str "audit_" ++ authorID ++ str "_retire") authorID actor authorID []
                       (str "author.retire") (str "author") authorID actor (au_handle a) []) audit_now in
    Exec (delete_author authorID)
  end.

Definition RetireAuthor (r : Repo) (authorID verifier : bytes) (reserveUntil : Time) : Repo * (error + unit) :=
  guarded r [validateID authorID]
  (let '(r, now_) := now r in
   let '(r, audit_now) := now r in
   mutate r (event (str "author-retire") (str "author") authorID) (RetireAuthor_tx authorID verifier reserveUntil now_ audit_now)).

(** ** Devices *)

Definition get_author (r : Repo) (authorID : bytes) : Repo * (error + Author) :=
  guarded r [validateID authorID] (query_row r (fun d => mkAuthorOut authorID <$> authors d !! authorID)).
Definition get_device (r : Repo) (deviceID : bytes) : Repo * (error + Device) :=
  guarded r [validateID deviceID] (query_row r (fun d => mkDeviceOut deviceID <$> devices d !! deviceID)).

(** SELECT ... FROM devices WHERE fingerprint=? AND revoked_at_ns IS NULL *)
Definition select_fingerprint (fingerprint : bytes) (d : DB) : option Device :=
  (fun kr => mkDeviceOut kr.1 kr.2) <$> select_where (fun _ r => eqb (dv_fingerprint r) fingerprint && device_active r) (devices d).
Definition DeviceByFingerprint (r : Repo) (fingerprint : bytes) : Repo * (error + Device) :=
  guarded r [reject (eqb (TrimSpace fingerprint) [])] (query_row r (select_fingerprint fingerprint)).

(** ORDER BY created_at_ns,id *)
Definition before (t : Z * bytes) (u : Z * bytes) : Prop := (t.1 < u.1)%Z \/ (t.1 = u.1 /\ bytes_leb t.2 u.2 = true).
#[local] Instance before_dec t u : Decision (before t u) := _.
Definition device_order (x y : Device) : Prop := before (dv_created (d_row x), d_ID x) (dv_created (d_row y), d_ID y).
#[local] Instance device_order_dec x y : Decision (device_order x y) := before_dec _ _.
Definition ListDevices (r : Repo) (authorID : bytes) : Repo * (error + list Device) :=
  guarded r [validateID authorID]
  (query r (fun d => order_by device_order (map (fun kr => mkDeviceOut kr.1 kr.2) (rows_where (fun _ x => eqb (dv_author x) authorID) (devices d))))).

(** SELECT COUNT( * ) FROM devices WHERE id=? AND author_id=? AND revoked_at_ns IS NULL *)
Definition active_device (id author : bytes) (d : DB) : Z :=
  count_where (fun k r => eqb k id && (eqb (dv_author r) author && device_active r)) (devices d).
(** SELECT COUNT( * ) FROM devices WHERE author_id=? AND revoked_at_ns IS NULL *)
Definition active_devices (author : bytes) (d : DB) : Z :=
  count_where (fun _ r => eqb (dv_author r) author && device_active r) (devices d).
Definition require (f : DB -> Z) : TxDB unit := let! n := QueryRow f in if n =? 0 then tx_err ErrNotFound else tx_ret tt.

Definition nullableID (value : bytes) : option bytes := if eqb value [] then None else Some value.

Definition RevokeDevice_tx (deviceID byKind byID : bytes) (ns : Z) (audit_now : Time) : TxDB unit :=
  let! n := statement (fun d => match revoke_devices (fun k _ => eqb k deviceID) ns byKind (nullableID byID) d with
                                | inl e => inl e
                                | inr d' => inr (count_where (fun k r => eqb k deviceID && device_active r) (devices d), d')
                                end) in
  if n =? 0 then tx_err ErrNotFound else
  let! author := QueryRow (fun d => dv_author <$> devices d !! deviceID) in
  match author with
  | None => tx_err ErrStorage
  | Some authorID =>
    audit (mkAuditInput (str "audit_" ++ deviceID ++ str "_revoke_" ++ Sprint ns) authorID byKind authorID byID
             (str "device.revoke") (str "device") deviceID byID deviceID []) audit_now
  end.

Definition RevokeDevice (r : Repo) (deviceID byKind byID : bytes) : Repo * (error + unit) :=
  guarded r [validateID deviceID; reject (negb (bool_decide (byKind ∈ [str "device"; str "recovery"; str "operator"])));
             if eqb byKind (str "operator") then None else validateID byID]
  (let '(r, now_) := now r in
   let '(r, audit_now) := now r in
   mutate r (event (str "device-revoke") (str "device") deviceID) (RevokeDevice_tx deviceID byKind byID (UnixNano now_) audit_now)).

(** What the two guarded forms share: the target is active, and not the last one. *)
Definition revoke_guarded (authorID target kind by_ : bytes) (ns : Z) (input : AuditInput) (audit_now : Time) : TxDB unit :=
  let! _ := require (active_device target authorID) in
  let! n := QueryRow (active_devices authorID) in
  if n <=? 1 then tx_err ErrConflict else
  let! _ := Exec (revoke_devices (fun k _ => eqb k target) ns kind (Some by_)) in
  audit input audit_now.

Definition RevokeDeviceAuthorized_tx (authorID actor target : bytes) (ns : Z) (audit_now : Time) : TxDB unit :=
  let! _ := require (active_device actor authorID) in
  revoke_guarded authorID target (str "device") actor ns
    (mkAuditInput (str "audit_" ++ target ++ str "_revoke_" ++ Sprint ns) authorID (str "device") authorID actor
       (str "device.revoke") (str "device") target actor target []) audit_now.

Definition RevokeDeviceAuthorized (r : Repo) (authorID actor target : bytes) : Repo * (error + unit) :=
  guarded r [validate_ids [authorID; actor; target]]
  (let '(r, now_) := now r in
   let '(r, audit_now) := now r in
   mutate r (event (str "device-revoke") (str "device") target) (RevokeDeviceAuthorized_tx authorID actor target (UnixNano now_) audit_now)).

Definition check_recovery (authorID verifier : bytes) : TxDB RecoveryRow :=
  let! row := QueryRow (fun d => recovery d !! authorID) in
  match row with
  | None => tx_err ErrNotFound
  | Some rc => if bytesEqual (rc_verifier rc) verifier then tx_ret rc else tx_err ErrConflict
  end.

Definition RevokeDeviceWithRecovery_tx (authorID verifier target : bytes) (ns : Z) (audit_now : Time) : TxDB unit :=
  let! _ := check_recovery authorID verifier in
  revoke_guarded authorID target (str "recovery") authorID ns
    (mkAuditInput (str "audit_" ++ target ++ str "_revoke_recovery_" ++ Sprint ns) authorID (str "recovery") authorID []
       (str "device.revoke") (str "device") target (str "recovery") target []) audit_now.

Definition RevokeDeviceWithRecovery (r : Repo) (authorID verifier target : bytes) : Repo * (error + unit) :=
  guarded r [validate_ids [authorID; target]; reject (len verifier =? 0)]
  (let '(r, now_) := now r in
   let '(r, audit_now) := now r in
   mutate r (event (str "device-revoke") (str "device") target) (RevokeDeviceWithRecovery_tx authorID verifier target (UnixNano now_) audit_now)).

(** ** Enrolment tokens *)

Record EnrollmentToken := mkTokenOut { t_ID : bytes; t_row : TokenRow }.
Record EnrollmentTokenInput := mkTokenInput {
  ti_ID : bytes; ti_AuthorID : bytes; ti_Purpose : bytes; ti_IssuedByKind : bytes; ti_IssuedByDeviceID : bytes;
  ti_IntendedDeviceName : bytes; ti_Salt : bytes; ti_Verifier : bytes; ti_ExpiresAt : Time }.

Definition token_row (i : EnrollmentTokenInput) (now_ : Time) : TokenRow :=
  mkToken (ti_AuthorID i) (ti_Purpose i) (ti_IssuedByKind i) (nullableID (ti_IssuedByDeviceID i)) (ti_IntendedDeviceName i)
    (ti_Salt i) (ti_Verifier i) 0 (UnixNano now_) (UnixNano (ti_ExpiresAt i)) None.

Definition author_exists (id : bytes) (d : DB) : Z := if has (authors d) id then 1 else 0.

Definition CreateEnrollmentToken_tx (i : EnrollmentTokenInput) (now_ : Time) : TxDB unit :=
  let! _ := require (author_exists (ti_AuthorID i)) in
  let! _ := if eqb (ti_IssuedByKind i) (str "device") then require (active_device (ti_IssuedByDeviceID i) (ti_AuthorID i)) else tx_ret tt in
  Exec (insert_token (ti_ID i) (token_row i now_)).

Definition CreateEnrollmentToken (r : Repo) (i : EnrollmentTokenInput) : Repo * (error + EnrollmentToken) :=
  guarded r [validate_ids [ti_ID i; ti_AuthorID i; ti_IntendedDeviceName i];
             reject (negb (bool_decide (ti_Purpose i ∈ [str "add_device"; str "operator_recovery"])));
             reject (negb (bool_decide (ti_IssuedByKind i ∈ [str "device"; str "operator"])));
             if eqb (ti_IssuedByKind i) (str "device") then validateID (ti_IssuedByDeviceID i)
             else reject (negb (eqb (ti_IssuedByDeviceID i) []));
             reject ((len (ti_Salt i) =? 0) || (1024 <? len (ti_Salt i)) || (len (ti_Verifier i) =? 0) || (1024 <? len (ti_Verifier i)))]
  (let '(r, now_) := now r in
   if IsZero (ti_ExpiresAt i) || (ti_ExpiresAt i <=? now_) then (r, inl ErrInvalid) else
   let '(r, res) := mutate r (event (str "enrollment-token-create") (str "token") (ti_ID i)) (CreateEnrollmentToken_tx i now_) in
   (r, match res with inl e => inl e | inr _ => inr (mkTokenOut (ti_ID i) (token_row i now_)) end)).

(** A wrong proof is counted and committed. *)
Definition wrong_proof {A} (tokenID : bytes) (t : TokenRow) : TxDB (option A) :=
  let! _ := Exec (update_token_failed tokenID (tk_failed t + 1)) in tx_ret None.

Definition VerifyEnrollmentToken_tx (tokenID verifier : bytes) (ns : Z) : TxDB (option TokenRow) :=
  let! row := QueryRow (fun d => tokens d !! tokenID) in
  match row with
  | None => tx_err ErrNotFound
  | Some t =>
    if consumed_b (tk_consumed t) || (tk_expires t <=? ns) || (5 <=? tk_failed t) then tx_err ErrConflict else
    if negb (bytesEqual (tk_verifier t) verifier) then wrong_proof tokenID t else
    let! _ := Exec (consume_tokens (fun k _ => eqb k tokenID) ns) in
    tx_ret (Some (consumed_at ns t))
  end.

Definition VerifyEnrollmentToken (r : Repo) (tokenID verifier : bytes) : Repo * (error + EnrollmentToken) :=
  guarded r [validateID tokenID]
  (let '(r, now_) := now r in
   let '(r, res) := mutate r noEvent (VerifyEnrollmentToken_tx tokenID verifier (UnixNano now_)) in
   (r, match res with inl e => inl e | inr None => inl ErrConflict | inr (Some t) => inr (mkTokenOut tokenID t) end)).

Record DeviceEnrollmentInput := mkEnrollment { de_TokenID : bytes; de_DeviceID : bytes; de_PublicKey : bytes; de_Fingerprint : bytes; de_Verifier : bytes }.

Definition CompleteDeviceEnrollment_tx (i : DeviceEnrollmentInput) (now_ audit_now : Time) : TxDB (option Device) :=
  let ns := UnixNano now_ in
  let! row := QueryRow (fun d => tokens d !! de_TokenID i) in
  match row with
  | None => tx_err ErrNotFound
  | Some t =>
    if negb (eqb (tk_purpose t) (str "add_device")) || consumed_b (tk_consumed t) || (tk_expires t <=? ns) || (5 <=? tk_failed t)
    then tx_err ErrConflict else
    if negb (bytesEqual (tk_verifier t) (de_Verifier i)) then wrong_proof (de_TokenID i) t else
    let device := new_device (de_DeviceID i) (tk_author t) (tk_name t) (de_PublicKey i) (de_Fingerprint i) ns in
    let issued := default [] (tk_issued_by_device t) in
    let! _ := Exec (insert_device (de_DeviceID i) (d_row device)) in
    let! _ := Exec (consume_tokens (fun k _ => eqb k (de_TokenID i)) ns) in
    let! _ := audit (mkAuditInput (str "audit_" ++ de_DeviceID i) (tk_author t) (tk_issued_by_kind t) (tk_author t) issued
                       (str "device.add") (str "device") (de_DeviceID i) issued (tk_name t) []) audit_now in
    tx_ret (Some device)
  end.

Definition CompleteDeviceEnrollment (r : Repo) (i : DeviceEnrollmentInput) : Repo * (error + Device) :=
  guarded r [validate_ids [de_TokenID i; de_DeviceID i; de_PublicKey i; de_Fingerprint i];
             reject ((len (de_Verifier i) =? 0) || (1024 <? len (de_Verifier i)))]
  (let '(r, now_) := now r in
   let '(r, audit_now) := now r in
   let '(r, res) := mutate r noEvent (CompleteDeviceEnrollment_tx i now_ audit_now) in
   (r, match res with inl e => inl e | inr None => inl ErrConflict | inr (Some d) => inr d end)).

(** ** Recovery *)

Record RecoveryInput := mkRecoveryInput {
  re_AuthorID : bytes; re_DeviceID : bytes; re_DeviceName : bytes; re_PublicKey : bytes; re_Fingerprint : bytes;
  re_CurrentVerifier : bytes; re_NextSalt : bytes; re_NextVerifier : bytes; re_RevokeOldDevices : bool }.

Definition CompleteRecovery_tx (i : RecoveryInput) (now_ audit_now : Time) : TxDB unit :=
  let ns := UnixNano now_ in
  let! row := QueryRow (fun d => match authors d !! re_AuthorID i with
                                 | Some a => if au_suspended a then None else recovery d !! re_AuthorID i
                                 | None => None
                                 end) in
  match row with
  | None => tx_err ErrNotFound
  | Some rc =>
    if negb (bytesEqual (rc_verifier rc) (re_CurrentVerifier i)) then tx_err ErrConflict else
    let! _ := Exec (insert_device (re_DeviceID i) (d_row (new_device (re_DeviceID i) (re_AuthorID i) (re_DeviceName i) (re_PublicKey i) (re_Fingerprint i) ns))) in
    let! _ := Exec (update_recovery (re_AuthorID i) (re_NextSalt i) (re_NextVerifier i) (rc_generation rc + 1) ns) in
    let! _ := Exec (consume_tokens (fun _ t => eqb (tk_author t) (re_AuthorID i) && is_None_b (tk_consumed t)) ns) in
    let! _ := if re_RevokeOldDevices i
              then Exec (revoke_devices (fun k x => eqb (dv_author x) (re_AuthorID i) && negb (eqb k (re_DeviceID i))) ns (str "recovery") (Some (re_AuthorID i)))
              else tx_ret tt in
    audit (mkAuditInput (str "audit_recovery_" ++ re_DeviceID i) (re_AuthorID i) (str "recovery") (re_AuthorID i) []
             (str "author.recover") (str "device") (re_DeviceID i) [] [] []) audit_now
  end.

Definition CompleteRecovery (r : Repo) (i : RecoveryInput) : Repo * (error + Device) :=
  guarded r [validate_ids [re_AuthorID i; re_DeviceID i; re_DeviceName i; re_PublicKey i; re_Fingerprint i];
             reject ((len (re_CurrentVerifier i) =? 0) || (len (re_NextSalt i) =? 0) || (len (re_NextVerifier i) =? 0))]
  (let '(r, now_) := now r in
   let '(r, audit_now) := now r in
   let '(r, res) := mutate r (event (str "author-recovery") (str "author") (re_AuthorID i)) (CompleteRecovery_tx i now_ audit_now) in
   (r, match res with
       | inl e => inl e
       | inr _ => inr (new_device (re_DeviceID i) (re_AuthorID i) (re_DeviceName i) (re_PublicKey i) (re_Fingerprint i) (UnixNano now_))
       end)).

Definition RotateRecovery_tx (authorID currentVerifier newSalt newVerifier : bytes) (ns : Z) (audit_now : Time) : TxDB unit :=
  let! rc := check_recovery authorID currentVerifier in
  let! _ := Exec (update_recovery authorID newSalt newVerifier (rc_generation rc + 1) ns) in
  audit (mkAuditInput (str "audit_recovery_" ++ authorID ++ str "_" ++ Sprint (rc_generation rc + 1)) authorID (str "recovery") authorID []
           (str "author.recovery.rotate") (str "author") authorID (str "recovery") authorID []) audit_now.

Definition RotateRecovery (r : Repo) (authorID currentVerifier newSalt newVerifier : bytes) : Repo * (error + unit) :=
  guarded r [validateID authorID;
             reject ((len currentVerifier =? 0) || (len newSalt =? 0) || (len newVerifier =? 0) || (1024 <? len newSalt) || (1024 <? len newVerifier))]
  (let '(r, now_) := now r in
   let '(r, audit_now) := now r in
   mutate r (event (str "recovery-rotate") (str "author") authorID)
     (RotateRecovery_tx authorID currentVerifier newSalt newVerifier (UnixNano now_) audit_now)).

(** ** Quotas and the audit log *)

Definition SetQuota_tx (author : bytes) (q : QuotaRow) : TxDB unit :=
  let! _ := require (author_exists author) in Exec (upsert_quota author q).
Definition SetQuota (r : Repo) (q : Quota) : Repo * (error + unit) :=
  guarded r [validateID (q_AuthorID q); reject (quota_negative (q_row q))]
  (mutate r (event (str "quota-set") (str "author") (q_AuthorID q)) (SetQuota_tx (q_AuthorID q) (q_row q))).

Record AuditEvent := mkAuditEvent { e_ID : bytes; e_row : AuditRow }.
Definition newest (x y : AuditEvent) : Prop := (ev_occurred (e_row y) <= ev_occurred (e_row x))%Z.
#[local] Instance newest_dec x y : Decision (newest x y) := Z_le_dec _ _.
Definition list_limit (limit : Z) : Z := if (limit <=? 0) || (1000 <? limit) then 1000 else limit.
Definition select_audit (P : AuditRow -> bool) (limit : Z) (d : DB) : list AuditEvent :=
  take (Z.to_nat (list_limit limit)) (order_by newest (map (fun kr => mkAuditEvent kr.1 kr.2) (rows_where (fun _ r => P r) (audit_events d)))).

Definition ListAudit (r : Repo) (scope : bytes) (limit : Z) : Repo * (error + list AuditEvent) :=
  query r (select_audit (fun e => eqb (ev_scope e) scope) limit).

Record AuditFilter := mkFilter { f_ScopeAuthorID : bytes; f_Action : bytes; f_TargetKind : bytes; f_Before : Time; f_Limit : Z }.
Definition filter_match (f : AuditFilter) (e : AuditRow) : bool :=
  (eqb (f_ScopeAuthorID f) [] || eqb (ev_scope e) (f_ScopeAuthorID f)) && (eqb (f_Action f) [] || eqb (ev_action e) (f_Action f))
  && (eqb (f_TargetKind f) [] || eqb (ev_target_kind e) (f_TargetKind f)) && (IsZero (f_Before f) || (ev_occurred e <? UnixNano (f_Before f))).
Definition optional_id (v : bytes) : option error := if eqb v [] then None else validateID v.
Definition ListAuditFiltered (r : Repo) (f : AuditFilter) : Repo * (error + list AuditEvent) :=
  guarded r [optional_id (f_ScopeAuthorID f); optional_id (f_Action f); optional_id (f_TargetKind f)]
  (query r (select_audit (filter_match f) (f_Limit f))).

Definition PruneAudit_tx (before : Z) : TxDB Z :=
  statement (fun d => match delete_audit before d with
                      | inl e => inl e
                      | inr d' => inr (count_where (fun _ e => ev_occurred e <? before) (audit_events d), d')
                      end).
Definition PruneAudit (r : Repo) (before : Time) : Repo * (error + Z) :=
  mutate r (event (str "audit-prune") (str "audit") (str "repository")) (PruneAudit_tx (UnixNano before)).
End Operations.
End identity.
