(* ===== verification/SqlIdentityLaws.v ===== *)
(** * What the identity operations keep

    The invariant of the identity tables, kept by every operation whatever fails; the single
    use of tokens and authorities; recovery, revocation and the reservation of handles. *)

From S2P Require Import Prelude Utf8 GoStrings Keys Streams SqlRepo SqlDB SqlIdentity.
Import sqlite db identity.

Module identitylaws.
Open Scope tx_scope.

(** ** The invariant *)

Definition handles_unique (d : DB) : Prop :=
  forall i j a b, authors d !! i = Some a -> authors d !! j = Some b -> au_handle a = au_handle b -> i = j.
(** A handle in use is not reserved. *)
Definition handles_free (d : DB) : Prop := forall i a, authors d !! i = Some a -> tombstones d !! au_handle a = None.
Definition recovery_ok (d : DB) : Prop :=
  (forall i, is_Some (recovery d !! i) <-> is_Some (authors d !! i)) /\ map_Forall (fun _ r => 1 <= rc_generation r) (recovery d).
(** A fingerprint is that of one device; the devices of an author have distinct names. *)
Definition devices_ok (d : DB) : Prop :=
  map_Forall (fun _ r => is_Some (authors d !! dv_author r)) (devices d) /\
  forall i j x y, devices d !! i = Some x -> devices d !! j = Some y ->
    dv_fingerprint x = dv_fingerprint y \/ (dv_author x = dv_author y /\ dv_name x = dv_name y) -> i = j.
Definition tokens_ok (d : DB) : Prop :=
  map_Forall (fun _ t => is_Some (authors d !! tk_author t) /\ 0 <= tk_failed t <= 5 /\ tk_created t < tk_expires t) (tokens d).
Definition bootstraps_ok (d : DB) : Prop :=
  map_Forall (fun _ b => 0 <= bs_failed b <= 5 /\ bs_created b < bs_expires b) (bootstraps d).
Definition quotas_ok (d : DB) : Prop := forall i, is_Some (quotas d !! i) -> is_Some (authors d !! i).

(** All but what ties authors to tombstones and to recovery rows. *)
Record base_ok (d : DB) : Prop := {
  ok_handles : handles_unique d; ok_devices : devices_ok d; ok_tokens : tokens_ok d;
  ok_bootstraps : bootstraps_ok d; ok_quotas : quotas_ok d }.
Record identity_ok (d : DB) : Prop := { ok_base : base_ok d; ok_free : handles_free d; ok_recovery : recovery_ok d }.

(** ** Statements *)

(** Inverting a statement that was not refused. *)
Ltac stmt_inv :=
  repeat match goal with
  | H : check _ _ = inr _ |- _ => apply check_inr in H as [? H]
  | H : unique _ _ = inr _ |- _ => apply unique_inr in H as [? H]
  | H : then_ _ _ = inr _ |- _ => apply then_inr in H as (? & ? & H)
  | H : insert_row _ _ _ = inr _ |- _ => apply insert_row_ok in H as [? ->]
  | H : inr _ = inr _ |- _ => injection H as <-
  | H : (_ && _) = true |- _ => apply andb_true_iff in H as [? ?]
  | H : has _ _ = true |- _ => apply has_true in H
  | H : has _ _ = false |- _ => apply has_false in H
  end.

(** A statement on other tables than those a property is about keeps it. *)
Ltac frame_stmt :=
  match goal with H : _ = inr ?d' |- _ =>
    unfold upsert_server, insert_author, update_handle, insert_tombstone, delete_tombstone, delete_expired_tombstones, insert_recovery,
      update_recovery, insert_device, revoke_devices, insert_token, update_token_failed, consume_tokens, insert_bootstrap,
      update_bootstrap_failed, consume_bootstrap, insert_quota, upsert_quota, insert_audit, delete_audit in H;
    stmt_inv; assumption
  end.

Lemma empty_ok : identity_ok empty_db.
Proof.
  assert (Hno : forall A i (x : A), (∅ : gmap bytes A) !! i = Some x -> False) by (intros A i x; by rewrite lookup_empty).
  split; [split|..].
  - intros i j a b Ha. by apply Hno in Ha.
  - split; [apply map_Forall_empty|]. intros i j a b Ha. by apply Hno in Ha.
  - apply map_Forall_empty.
  - apply map_Forall_empty.
  - intros i [x Hx]. by apply Hno in Hx.
  - intros i a Ha. by apply Hno in Ha.
  - split; [|apply map_Forall_empty]. intros i. split; intros [x Hx]; by apply Hno in Hx.
Qed.

Lemma insert_author_base id row d d' :
  insert_author id row d = inr d' -> base_ok d ->
  base_ok d' /\ authors d' = <[id := row]> (authors d) /\ authors d !! id = None /\ d' = set_authors (authors d') d.
Proof.
  unfold insert_author. intros Hi [Hh Hd Ht Hb Hq]. stmt_inv. split; [|done].
  match goal with H : exists_where _ _ = false |- _ => rewrite exists_where_false in H; rename H into Hn end.
  assert (Hgrow : forall k, is_Some (authors d !! k) -> is_Some (<[id := row]> (authors d) !! k)) by (intros k; rewrite lookup_insert_is_Some'; tauto).
  split.
  - intros i j a b. cbn. rewrite !lookup_insert_Some. intros [[<- <-]|[? Ha]] [[<- <-]|[? Hj]] He; try done.
    + specialize (Hn _ _ Hj). cbn in Hn. rewrite He, eqb_refl in Hn. done.
    + specialize (Hn _ _ Ha). cbn in Hn. rewrite He, eqb_refl in Hn. done.
    + by eapply Hh.
  - destruct Hd as [Hd1 Hd2]. split; [|done]. intros k r Hk. by apply Hgrow, (Hd1 k).
  - intros k t Hk. destruct (Ht _ _ Hk) as [? ?]. split; [by apply Hgrow|done].
  - done.
  - intros k Hk. by apply Hgrow, Hq.
Qed.

(** Statements on one table keep what the others say. *)
Lemma insert_recovery_base id row d d' :
  insert_recovery id row d = inr d' -> base_ok d ->
  base_ok d' /\ d' = set_recovery (<[id := row]> (recovery d)) d /\ 1 <= rc_generation row.
Proof. unfold insert_recovery. intros Hi [? ? ? ? ?]. stmt_inv. split; [by split|]. split; [done|lia]. Qed.

Lemma update_recovery_ok id s v g n d d' : update_recovery id s v g n d = inr d' -> identity_ok d -> identity_ok d'.
Proof.
  unfold update_recovery. intros Hi [[? ? ? ? ?] ? [Hr1 Hr2]]. stmt_inv. split; [by split|done|]. split.
  - intros i. cbn. rewrite lookup_update_where, <- Hr1. by rewrite fmap_is_Some.
  - intros k r. cbn. rewrite lookup_update_where. destruct (recovery d !! k) as [r0|] eqn:Hk; [|done]. cbn. intros [= <-].
    specialize (Hr2 _ _ Hk). cbn in Hr2. destruct (eqb k id); cbn; lia.
Qed.

Lemma insert_device_base id row d d' :
  insert_device id row d = inr d' -> base_ok d ->
  base_ok d' /\ d' = set_devices (<[id := row]> (devices d)) d /\ devices d !! id = None /\ is_Some (authors d !! dv_author row) /\
  (forall k r, devices d !! k = Some r -> dv_fingerprint r <> dv_fingerprint row /\ (dv_author r <> dv_author row \/ dv_name r <> dv_name row)).
Proof.
  unfold insert_device. intros Hi [Hh [Hd1 Hd2] Ht Hb Hq]. stmt_inv.
  match goal with H : exists_where _ _ = false |- _ => rewrite exists_where_false in H; rename H into Hn end.
  assert (Hnew : forall k r, devices d !! k = Some r -> dv_fingerprint r <> dv_fingerprint row /\ (dv_author r <> dv_author row \/ dv_name r <> dv_name row)).
  { intros k r Hk. specialize (Hn _ _ Hk). cbn in Hn. apply orb_false_iff in Hn as [Hfp%eqb_false Hnm]. split; [done|].
    apply andb_false_iff in Hnm as [?%eqb_false|?%eqb_false]; tauto. }
  split; [|done]. split; [done| |done..]. split.
  - cbn. by apply map_Forall_insert_2.
  - intros i j x y. cbn. rewrite !lookup_insert_Some. intros [[<- <-]|[? Hx]] [[<- <-]|[? Hy]] He; [done|..|by eapply Hd2];
      [destruct (Hnew _ _ Hy) as [? ?]|destruct (Hnew _ _ Hx) as [? ?]]; destruct He as [?|[? ?]]; intuition congruence.
Qed.

(** Devices change without changing hands, names or keys. *)
Lemma revoke_devices_ok P n k b d d' : revoke_devices P n k b d = inr d' -> identity_ok d -> identity_ok d'.
Proof.
  unfold revoke_devices. intros Hi [[Hh [Hd1 Hd2] Ht Hb Hq] ? ?]. stmt_inv. split; [|done..]. split; [done| |done..].
  assert (Hsame : forall i x, devices (set_devices (update_where (fun k r => P k r && device_active r) (revoke n k b) (devices d)) d) !! i = Some x ->
    exists x0, devices d !! i = Some x0 /\ dv_author x = dv_author x0 /\ dv_name x = dv_name x0 /\ dv_fingerprint x = dv_fingerprint x0).
  { intros i x. cbn. rewrite lookup_update_where. destruct (devices d !! i) as [x0|]; [|done]. cbn. intros [= <-]. exists x0.
    by destruct (P i x0 && device_active x0). }
  split.
  - intros i x Hx. destruct (Hsame _ _ Hx) as (x0 & Hx0 & -> & _). by apply (Hd1 i).
  - intros i j x y Hx Hy He. destruct (Hsame _ _ Hx) as (x0 & Hx0 & Ha & Hn & Hf), (Hsame _ _ Hy) as (y0 & Hy0 & Ha' & Hn' & Hf').
    eapply Hd2; [done..|]. intuition congruence.
Qed.

Lemma tokens_update (P : bytes -> TokenRow -> bool) f d :
  (forall t, tk_author (f t) = tk_author t /\ tk_created (f t) = tk_created t /\ tk_expires (f t) = tk_expires t /\
             (0 <= tk_failed t <= 5 -> 0 <= tk_failed (f t) <= 5)) ->
  identity_ok d -> identity_ok (set_tokens (update_where P f (tokens d)) d).
Proof.
  intros Hf [[Hh Hd Ht Hb Hq] ? ?]. split; [|done..]. split; [done..| |done|done].
  intros i t. cbn. rewrite lookup_update_where. destruct (tokens d !! i) as [t0|] eqn:Ht0; [|done]. cbn. intros [= <-].
  destruct (Ht _ _ Ht0) as (? & ? & ?). destruct (Hf t0) as (Ha & Hc & He & Hfl). destruct (P i t0); [|done].
  rewrite Ha, Hc, He. auto.
Qed.
Lemma consume_tokens_ok P n d d' : consume_tokens P n d = inr d' -> identity_ok d -> identity_ok d'.
Proof. intros [= <-]. by apply tokens_update. Qed.
Lemma update_token_failed_ok id n d d' : update_token_failed id n d = inr d' -> identity_ok d -> identity_ok d'.
Proof.
  unfold update_token_failed, attempts_ok. intros Hi. stmt_inv. apply tokens_update. intros t. cbn. split_and!; try done. intros _. lia.
Qed.
Lemma insert_token_ok id row d d' : insert_token id row d = inr d' -> identity_ok d -> identity_ok d'.
Proof.
  unfold insert_token, attempts_ok. intros Hi [[Hh Hd Ht Hb Hq] ? ?]. stmt_inv. split; [|done..]. split; [done..| |done|done].
  apply map_Forall_insert_2; [|done]. split; [done|lia].
Qed.

Lemma bootstraps_update (P : bytes -> BootstrapRow -> bool) f d :
  (forall b, bs_created (f b) = bs_created b /\ bs_expires (f b) = bs_expires b /\ (0 <= bs_failed b <= 5 -> 0 <= bs_failed (f b) <= 5)) ->
  identity_ok d -> identity_ok (set_bootstraps (update_where P f (bootstraps d)) d).
Proof.
  intros Hf [[Hh Hd Ht Hb Hq] ? ?]. split; [|done..]. split; [done..| |done].
  intros i t. cbn. rewrite lookup_update_where. destruct (bootstraps d !! i) as [t0|] eqn:Ht0; [|done]. cbn. intros [= <-].
  destruct (Hb _ _ Ht0) as (? & ?). destruct (Hf t0) as (Hc & He & Hfl). destruct (P i t0); [|done]. rewrite Hc, He. auto.
Qed.
Lemma consume_bootstrap_ok id n d d' : consume_bootstrap id n d = inr d' -> identity_ok d -> identity_ok d'.
Proof. intros [= <-]. by apply bootstraps_update. Qed.
Lemma update_bootstrap_failed_ok id n d d' : update_bootstrap_failed id n d = inr d' -> identity_ok d -> identity_ok d'.
Proof.
  unfold update_bootstrap_failed, attempts_ok. intros Hi. stmt_inv. apply bootstraps_update. intros t. cbn. split_and!; try done. intros _. lia.
Qed.
Lemma insert_bootstrap_ok id row d d' : insert_bootstrap id row d = inr d' -> identity_ok d -> identity_ok d'.
Proof.
  unfold insert_bootstrap, attempts_ok. intros Hi [[Hh Hd Ht Hb Hq] ? ?]. stmt_inv. split; [|done..]. split; [done..| |done].
  apply map_Forall_insert_2; [|done]. lia.
Qed.

Lemma insert_quota_ok id row d d' : insert_quota id row d = inr d' -> identity_ok d -> identity_ok d'.
Proof.
  unfold insert_quota. intros Hi [[Hh Hd Ht Hb Hq] ? ?]. stmt_inv. split; [|done..]. split; [done..|].
  intros i. cbn. rewrite lookup_insert_is_Some'. by intros [<-|?]; [|apply Hq].
Qed.
Lemma upsert_quota_ok id row d d' : upsert_quota id row d = inr d' -> identity_ok d -> identity_ok d'.
Proof.
  unfold upsert_quota. intros Hi [[Hh Hd Ht Hb Hq] ? ?]. stmt_inv. split; [|done..]. split; [done..|].
  intros i. cbn. rewrite lookup_insert_is_Some'. by intros [<-|?]; [|apply Hq].
Qed.
Lemma insert_audit_ok id row d d' : insert_audit id row d = inr d' -> identity_ok d -> identity_ok d'.
Proof. unfold insert_audit. intros Hi [[? ? ? ? ?] ? ?]. stmt_inv. by split. Qed.
Lemma delete_audit_ok n d d' : delete_audit n d = inr d' -> identity_ok d -> identity_ok d'.
Proof. intros [= <-] [[? ? ? ? ?] ? ?]. by split. Qed.
Lemma upsert_server_ok row d d' : upsert_server row d = inr d' -> identity_ok d -> identity_ok d'.
Proof. intros [= <-] [[? ? ? ? ?] ? ?]. by split. Qed.
Lemma tombstones_shrink m d : (forall h, tombstones d !! h = None -> m !! h = None) -> identity_ok d -> identity_ok (set_tombstones m d).
Proof. intros Hm [[? ? ? ? ?] Hf ?]. split; [done| |done]. intros i a Ha. apply Hm. by eapply Hf. Qed.
Lemma delete_tombstone_ok h d d' : delete_tombstone h d = inr d' -> identity_ok d -> identity_ok d'.
Proof. intros [= <-]. apply tombstones_shrink. intros h' Hh. rewrite lookup_delete_None. by right. Qed.
Lemma delete_expired_tombstones_ok n d d' : delete_expired_tombstones n d = inr d' -> identity_ok d -> identity_ok d'.
Proof. intros [= <-]. apply tombstones_shrink. intros h' Hh. rewrite lookup_delete_where_None, Hh. done. Qed.

#[local] Hint Resolve update_recovery_ok revoke_devices_ok consume_tokens_ok update_token_failed_ok insert_token_ok consume_bootstrap_ok
  update_bootstrap_failed_ok insert_bootstrap_ok insert_quota_ok upsert_quota_ok insert_audit_ok delete_audit_ok upsert_server_ok
  delete_tombstone_ok delete_expired_tombstones_ok : keeps.

Lemma insert_device_ok id row d d' : insert_device id row d = inr d' -> identity_ok d -> identity_ok d'.
Proof.
  intros Hi [Hb Hf Hr]. destruct (insert_device_base _ _ _ _ Hi Hb) as (Hb' & -> & _). by split.
Qed.
#[local] Hint Resolve insert_device_ok : keeps.

(** ** Transactions *)

Section Transactions.
Context `{Platform}.

Lemma audit_keeps i n : keeps identity_ok (audit i n).
Proof. unfold audit. keeps_tac. Qed.
Lemma insert_quota_input_keeps a b q : keeps identity_ok (insert_quota_input a b q).
Proof. unfold insert_quota_input. keeps_tac. Qed.
Lemma require_keeps f : keeps identity_ok (require f).
Proof. unfold require. keeps_tac. Qed.
Lemma wrong_proof_keeps {A} id t : keeps identity_ok (wrong_proof (A:=A) id t).
Proof. unfold wrong_proof. keeps_tac. Qed.
#[local] Hint Resolve audit_keeps insert_quota_input_keeps require_keeps wrong_proof_keeps : keeps.

(** A handle that is available is neither in use nor reserved. *)
Definition available (h : bytes) (d : DB) : Prop :=
  (forall i a, authors d !! i = Some a -> au_handle a <> h) /\ tombstones d !! h = None.

Lemma ensure_available h ns : triple identity_ok (ensureHandleAvailable h ns) (fun _ d => identity_ok d /\ available h d).
Proof.
  unfold ensureHandleAvailable. eapply triple_bind; [apply triple_query|]. intros o. cbv beta.
  destruct o as [[i a]|]; [apply triple_err|]. eapply triple_bind; [apply triple_query|]. intros t. cbv beta.
  assert (Hin : forall d, None = select_where (fun _ a => eqb (au_handle a) h) (authors d) -> forall i a, authors d !! i = Some a -> au_handle a <> h).
  { intros d Hs i a Ha. symmetry in Hs. rewrite select_where_None in Hs. specialize (Hs _ _ Ha). by apply eqb_false in Hs. }
  assert (Hdel : triple (fun d => (identity_ok d /\ None = select_where (fun _ a => eqb (au_handle a) h) (authors d)) /\ t = tb_available <$> tombstones d !! h)
    (Exec (delete_tombstone h)) (fun _ d => identity_ok d /\ available h d)).
  { apply triple_exec. intros d d' [[Hok Hs] _] Hd. split; [by eapply delete_tombstone_ok|]. injection Hd as <-. split; [by eapply Hin|].
    cbn. apply lookup_delete_eq. }
  destruct t as [t|]; case_match; try apply triple_err; [done..|]. apply triple_ret.
  intros d [[Hok Hs] Ht]. split; [done|]. split; [by eapply Hin|]. by destruct (tombstones d !! h).
Qed.

(** The rows of a new author. *)
Lemma new_author_keeps {A} id a rc (k : unit -> TxDB A) :
  keeps identity_ok (k tt) ->
  triple (fun d => identity_ok d /\ available (au_handle a) d)
    (let! _ := Exec (insert_author id a) in let! u := Exec (insert_recovery id rc) in k u) (fun _ => identity_ok).
Proof.
  intros Hk. eapply triple_bind.
  - apply (triple_exec _ _ (fun d => base_ok d /\ handles_free d /\ map_Forall (fun _ r => 1 <= rc_generation r) (recovery d) /\
      recovery d !! id = None /\ forall i, is_Some (authors d !! i) <-> i = id \/ is_Some (recovery d !! i))).
    intros d d' [[Hb Hf [Hr1 Hr2]] [Hh Ht]] Hi. destruct (insert_author_base _ _ _ _ Hi Hb) as (Hb' & Ha & Hid & Hd'). split; [done|].
    rewrite Hd'. cbn. rewrite Ha. split.
    + intros i x. cbn. rewrite lookup_insert_Some. intros [[<- <-]|[_ Hx]]; [done|by eapply Hf].
    + split; [done|]. split.
      * destruct (recovery d !! id) eqn:Hrec; [|done]. assert (is_Some (authors d !! id)) as [? ?] by (apply Hr1; eauto). congruence.
      * intros i. cbn. rewrite lookup_insert_is_Some', Hr1. intuition congruence.
  - intros []. apply (triple_bind _ _ _ (fun _ => identity_ok)); [|intros []; exact Hk]. apply triple_exec. intros d d' (Hb & Hf & Hg & Hid & Hdom) Hi.
    destruct (insert_recovery_base _ _ _ _ Hi Hb) as (Hb' & -> & Hgen). split; [done..|]. split.
    + intros i. cbn. rewrite lookup_insert_is_Some', Hdom. intuition congruence.
    + cbn. by apply map_Forall_insert_2.
Qed.

Lemma RegisterAuthor_keeps i ns n : keeps identity_ok (RegisterAuthor_tx i ns n).
Proof.
  unfold RegisterAuthor_tx. eapply triple_bind; [apply ensure_available|]. intros [].
  apply (new_author_keeps _ (mkAuthor (ri_Handle i) false ns ns)). cbv beta. keeps_tac.
Qed.

Lemma CompleteBootstrap_keeps id v i n m : keeps identity_ok (CompleteBootstrapRegistration_tx id v i n m).
Proof.
  unfold CompleteBootstrapRegistration_tx. cbv zeta. apply keeps_bind; [keeps_tac|]. intros [b|]; [|keeps_tac].
  case_match; [keeps_tac|]. case_match; [keeps_tac|]. eapply triple_bind; [apply ensure_available|]. intros [].
  apply (new_author_keeps _ (mkAuthor (ri_Handle i) false _ _)). cbv beta. keeps_tac.
Qed.

(** A handle is reserved before the author gives it up. *)
Definition between (id : bytes) (a : AuthorRow) (d : DB) : Prop :=
  base_ok d /\ recovery_ok d /\ authors d !! id = Some a /\
  forall i x, i <> id -> authors d !! i = Some x -> tombstones d !! au_handle x = None.

Lemma insert_tombstone_between id a row d d' :
  identity_ok d -> authors d !! id = Some a -> insert_tombstone (au_handle a) row d = inr d' ->
  between id a d' /\ d' = set_tombstones (<[au_handle a := row]> (tombstones d)) d.
Proof.
  unfold insert_tombstone. intros [Hb Hf Hr] Ha Hi. stmt_inv. split; [|done]. split; [by destruct Hb|]. split; [done|]. split; [done|].
  intros i x Hne Hx. cbn. rewrite lookup_insert_ne; [by eapply Hf|]. intros He. apply Hne. by eapply (ok_handles _ Hb).
Qed.

Lemma RenameAuthor_keeps id h u n m : keeps identity_ok (RenameAuthor_tx id h u n m).
Proof.
  unfold RenameAuthor_tx. eapply triple_bind; [apply triple_query|]. intros [a|]; [|apply triple_err]. cbv beta zeta.
  destruct (eqb (au_handle a) h) eqn:Hne; [apply triple_ret; tauto|]. apply eqb_false in Hne.
  eapply (triple_bind _ _ _ (fun _ d => identity_ok d /\ available h d /\ authors d !! id = Some a)).
  { intros d fs [Hok Ha]. pose proof (ensure_available h (UnixNano n) d fs Hok) as He.
    assert (Hsame : match (ensureHandleAvailable h (UnixNano n) d fs).1 with inr (_, d') => authors d' = authors d | inl _ => True end).
    { clear He. revert d fs Hok Ha. intros d fs _ _.
      assert (Ht : triple (fun d0 => authors d0 = authors d) (ensureHandleAvailable h (UnixNano n)) (fun _ d0 => authors d0 = authors d)).
      { change (keeps (fun d0 => authors d0 = authors d) (ensureHandleAvailable h (UnixNano n))). unfold ensureHandleAvailable.
        assert (forall db db', delete_tombstone h db = inr db' -> authors db = authors d -> authors db' = authors d) by (by intros db db' [= <-]).
        keeps_tac. }
      by apply Ht. }
    destruct (ensureHandleAvailable h (UnixNano n) d fs) as [[e|[[] d']] fs']; [done|]. cbn in *. destruct He as [? ?]. by rewrite Hsame. }
  intros []. eapply triple_bind.
  { apply (triple_exec _ _ (fun d => between id a d /\ tombstones d !! h = None)). intros d d' (Hok & [_ Hh] & Ha) Hi.
    destruct (insert_tombstone_between _ _ _ _ _ Hok Ha Hi) as [Hbt ->]. split; [done|]. cbn. by rewrite lookup_insert_ne. }
  intros []. apply (triple_bind _ _ _ (fun _ => identity_ok)); [|intros []; apply audit_keeps]. apply triple_exec.
  intros d d' [(Hb & Hr & Ha & Hf) Hh] Hi. unfold update_handle in Hi. stmt_inv.
  match goal with E : (exists_where _ _ && has _ _) = false |- _ => rename E into Hu end.
  rewrite (proj2 (has_true _ _)) in Hu by eauto. rewrite andb_true_r, exists_where_false in Hu.
  rewrite (update_where_key _ _ _ _ Ha). destruct Hb as [Hbh [Hd1 Hd2] Ht Hbs Hq].
  assert (Hdom : forall i, is_Some (<[id := mkAuthor h (au_suspended a) (au_created a) (UnixNano n)]> (authors d) !! i) <-> is_Some (authors d !! i)).
  { intros i. rewrite lookup_insert_is_Some'. split; [intros [<-|?]; eauto|tauto]. }
  split; [split|..].
  - intros i j x y. cbn. rewrite !lookup_insert_Some.
    assert (Hother : forall k z, id <> k -> authors d !! k = Some z -> au_handle z <> h).
    { intros k z Hk Hz. specialize (Hu _ _ Hz). cbn in Hu. rewrite (proj2 (eqb_false k id)) in Hu by done. by apply eqb_false in Hu. }
    intros [[<- <-]|[? Hx]] [[<- <-]|[? Hy]] He; [done|exfalso; by eapply Hother|exfalso; by eapply Hother|by eapply Hbh].
  - split; [|done]. intros k x Hk. apply Hdom, (Hd1 k x Hk).
  - intros k t Hk. destruct (Ht _ _ Hk) as [? ?]. split; [by apply Hdom|done].
  - done.
  - intros k Hk. by apply Hdom, Hq.
  - intros i x. cbn. rewrite lookup_insert_Some. intros [[<- <-]|[? Hx]]; [done|by eapply Hf].
  - destruct Hr as [Hr1 Hr2]. split; [|done]. intros i. cbn. rewrite Hdom. apply Hr1.
Qed.

Lemma audit_between id a i n : keeps (between id a) (audit i n).
Proof.
  assert (forall k row db db', insert_audit k row db = inr db' -> between id a db -> between id a db').
  { unfold insert_audit. intros k row db db' Hi ([? ? ? ? ?] & ? & ? & ?). stmt_inv. by split; [split|]. }
  unfold audit. keeps_tac.
Qed.

(** What is left without an author. *)
Lemma delete_author_ok id a d d' : delete_author id d = inr d' -> between id a d -> identity_ok d'.
Proof.
  unfold delete_author. intros Hi ([Hh [Hd1 Hd2] Ht Hb Hq] & [Hr1 Hr2] & Ha & Hf). stmt_inv.
  assert (Hdom : forall i, is_Some (delete id (authors d) !! i) <-> i <> id /\ is_Some (authors d !! i)) by (intros i; rewrite lookup_delete_is_Some; intuition congruence).
  split; [split|..].
  - intros i j x y. cbn. rewrite !lookup_delete_Some. intros [_ Hx] [_ Hy]. by eapply Hh.
  - split.
    + intros k x. cbn. rewrite lookup_delete_where, Hdom. intros [Hx Hne%eqb_false]. split; [done|by apply (Hd1 k)].
    + intros i j x y. cbn. rewrite !lookup_delete_where. intros [Hx _] [Hy _]. by eapply Hd2.
  - intros k t. cbn. rewrite lookup_delete_where. intros [Hx Hne%eqb_false]. destruct (Ht _ _ Hx) as [? ?]. split; [by apply Hdom|done].
  - done.
  - intros k. cbn. rewrite Hdom, lookup_delete_is_Some. intros [? Hk]. split; [congruence|by apply Hq].
  - intros i x. cbn. rewrite lookup_delete_Some. intros [Hne Hx]. by eapply Hf.
  - split.
    + intros i. cbn. rewrite Hdom, lookup_delete_is_Some, Hr1. intuition congruence.
    + cbn. by apply map_Forall_delete.
Qed.

Lemma RetireAuthor_keeps id v u n m : keeps identity_ok (RetireAuthor_tx id v u n m).
Proof.
  unfold RetireAuthor_tx. eapply triple_bind; [apply triple_query|]. intros [a|]; [|apply triple_err]. cbv beta zeta.
  apply (triple_bind _ _ _ (fun _ d => identity_ok d /\ Some a = authors d !! id)).
  { case_match; [|by apply triple_ret]. eapply triple_bind; [apply triple_query|]. intros [rc|]; [|apply triple_err]. cbv beta.
    case_match; [|apply triple_err]. apply triple_ret. tauto. }
  intros []. apply (triple_bind _ _ _ (fun _ => between id a)).
  { apply triple_exec. intros d d' [Hok Ha] Hi. by eapply insert_tombstone_between. }
  intros []. apply (triple_bind _ _ _ (fun _ => between id a)); [apply audit_between|]. intros [].
  apply triple_exec. intros d d' Hbt Hi. by eapply delete_author_ok.
Qed.

Lemma revoke_guarded_keeps a t k b n i m : keeps identity_ok (revoke_guarded a t k b n i m).
Proof. unfold revoke_guarded. keeps_tac. Qed.
Lemma check_recovery_keeps a v : keeps identity_ok (check_recovery a v).
Proof. unfold check_recovery. keeps_tac. Qed.
#[local] Hint Resolve revoke_guarded_keeps check_recovery_keeps : keeps.

Lemma RevokeDevice_keeps i k b n m : keeps identity_ok (RevokeDevice_tx i k b n m).
Proof.
  unfold RevokeDevice_tx. apply keeps_bind; [|intros c; keeps_tac]. apply keeps_statement. intros d c d' Hi.
  destruct (revoke_devices _ _ _ _ d) as [e|d1] eqn:Hr; [done|]. injection Hi as _ <-. by eapply revoke_devices_ok.
Qed.
Lemma RevokeDeviceAuthorized_keeps a b t n m : keeps identity_ok (RevokeDeviceAuthorized_tx a b t n m).
Proof. unfold RevokeDeviceAuthorized_tx. keeps_tac. Qed.
Lemma RevokeDeviceWithRecovery_keeps a v t n m : keeps identity_ok (RevokeDeviceWithRecovery_tx a v t n m).
Proof. unfold RevokeDeviceWithRecovery_tx. keeps_tac. Qed.
Lemma CreateEnrollmentToken_keeps i n : keeps identity_ok (CreateEnrollmentToken_tx i n).
Proof. unfold CreateEnrollmentToken_tx. keeps_tac. Qed.
Lemma VerifyEnrollmentToken_keeps i v n : keeps identity_ok (VerifyEnrollmentToken_tx i v n).
Proof. unfold VerifyEnrollmentToken_tx. keeps_tac. Qed.
Lemma CompleteDeviceEnrollment_keeps i n m : keeps identity_ok (CompleteDeviceEnrollment_tx i n m).
Proof. unfold CompleteDeviceEnrollment_tx. keeps_tac. Qed.
Lemma CompleteRecovery_keeps i n m : keeps identity_ok (CompleteRecovery_tx i n m).
Proof. unfold CompleteRecovery_tx. keeps_tac. Qed.
Lemma RotateRecovery_keeps a c s v n m : keeps identity_ok (RotateRecovery_tx a c s v n m).
Proof. unfold RotateRecovery_tx. keeps_tac. Qed.
Lemma SetQuota_keeps a q : keeps identity_ok (SetQuota_tx a q).
Proof. unfold SetQuota_tx. keeps_tac. Qed.

Lemma PruneAudit_keeps n : keeps identity_ok (PruneAudit_tx n).
Proof.
  apply keeps_statement. intros d c d' Hi. destruct (delete_audit n d) as [e|d1] eqn:Hd; [done|]. injection Hi as _ <-. by eapply delete_audit_ok.
Qed.

(** ** Every call

    The calls that write, with the transaction each of them runs at the instants it reads.
    A transaction that answers [false] has committed the count of a wrong proof. *)
Inductive call :=
| CSetServerIdentity (id algorithm fingerprint : bytes) (createdAt : Time)
| CRegisterAuthor (i : RegistrationInput)
| CCreateBootstrapAuthority (id handle deviceName salt verifier : bytes) (expiresAt : Time)
| CCompleteBootstrapRegistration (authorityID verifier : bytes) (i : RegistrationInput)
| CRenameAuthor (authorID newHandle : bytes) (reserveUntil : Time)
| CRetireAuthor (authorID verifier : bytes) (reserveUntil : Time)
| CRevokeDevice (deviceID byKind byID : bytes)
| CRevokeDeviceAuthorized (authorID actor target : bytes)
| CRevokeDeviceWithRecovery (authorID verifier target : bytes)
| CCreateEnrollmentToken (i : EnrollmentTokenInput)
| CVerifyEnrollmentToken (tokenID verifier : bytes)
| CCompleteDeviceEnrollment (i : DeviceEnrollmentInput)
| CCompleteRecovery (i : RecoveryInput)
| CRotateRecovery (authorID currentVerifier newSalt newVerifier : bytes)
| CSetQuota (q : Quota)
| CPruneAudit (before : Time).

Definition forget {A} (x : Repo * (error + A)) : Repo * (error + unit) :=
  (x.1, match x.2 with inl e => inl e | inr _ => inr tt end).

Definition run_call (o : call) (r : Repo) : Repo * (error + unit) :=
  match o with
  | CSetServerIdentity a b c t => forget (SetServerIdentity r a b c t)
  | CRegisterAuthor i => forget (RegisterAuthor r i)
  | CCreateBootstrapAuthority a b c s v t => forget (CreateBootstrapAuthority r a b c s v t)
  | CCompleteBootstrapRegistration a v i => forget (CompleteBootstrapRegistration r a v i)
  | CRenameAuthor a h t => forget (RenameAuthor r a h t)
  | CRetireAuthor a v t => forget (RetireAuthor r a v t)
  | CRevokeDevice a k b => forget (RevokeDevice r a k b)
  | CRevokeDeviceAuthorized a b t => forget (RevokeDeviceAuthorized r a b t)
  | CRevokeDeviceWithRecovery a v t => forget (RevokeDeviceWithRecovery r a v t)
  | CCreateEnrollmentToken i => forget (CreateEnrollmentToken r i)
  | CVerifyEnrollmentToken i v => forget (VerifyEnrollmentToken r i v)
  | CCompleteDeviceEnrollment i => forget (CompleteDeviceEnrollment r i)
  | CCompleteRecovery i => forget (CompleteRecovery r i)
  | CRotateRecovery a c s v => forget (RotateRecovery r a c s v)
  | CSetQuota q => forget (SetQuota r q)
  | CPruneAudit t => forget (PruneAudit r t)
  end.
Definition run_calls (l : list call) (r : Repo) : Repo := fold_left (fun r o => (run_call o r).1) l r.

Definition answering {A} (f : A -> bool) (c : TxDB A) : TxDB bool := let! a := c in tx_ret (f a).
Definition always {A} (c : TxDB A) : TxDB bool := answering (fun _ => true) c.
Definition given_or_now (t n : Time) : Z := if UnixNano t =? 0 then UnixNano n else UnixNano t.

Definition effect (o : call) (n m : Time) : TxDB bool :=
  match o with
  | CSetServerIdentity a b c t => always (Exec (upsert_server (mkServer a b c (given_or_now t n))))
  | CRegisterAuthor i => always (RegisterAuthor_tx i (given_or_now (ri_CreatedAt i) n) m)
  | CCreateBootstrapAuthority a b c s v t => always (Exec (insert_bootstrap a (mkBootstrap b c s v 0 (UnixNano n) (UnixNano t) None)))
  | CCompleteBootstrapRegistration a v i => answering consumed_b (CompleteBootstrapRegistration_tx a v i n m)
  | CRenameAuthor a h t => always (RenameAuthor_tx a h t n m)
  | CRetireAuthor a v t => always (RetireAuthor_tx a v t n m)
  | CRevokeDevice a k b => always (RevokeDevice_tx a k b (UnixNano n) m)
  | CRevokeDeviceAuthorized a b t => always (RevokeDeviceAuthorized_tx a b t (UnixNano n) m)
  | CRevokeDeviceWithRecovery a v t => always (RevokeDeviceWithRecovery_tx a v t (UnixNano n) m)
  | CCreateEnrollmentToken i => always (CreateEnrollmentToken_tx i n)
  | CVerifyEnrollmentToken i v => answering consumed_b (VerifyEnrollmentToken_tx i v (UnixNano n))
  | CCompleteDeviceEnrollment i => answering consumed_b (CompleteDeviceEnrollment_tx i n m)
  | CCompleteRecovery i => always (CompleteRecovery_tx i n m)
  | CRotateRecovery a c s v => always (RotateRecovery_tx a c s v (UnixNano n) m)
  | CSetQuota q => always (SetQuota_tx (q_AuthorID q) (q_row q))
  | CPruneAudit t => always (PruneAudit_tx (UnixNano t))
  end.

(** ** Regularity *)

Lemma audit_regular i n : regular (audit i n).
Proof. unfold audit, Exec. regular_tac. Qed.
Lemma ensure_regular h n : regular (ensureHandleAvailable h n).
Proof. unfold ensureHandleAvailable, QueryRow, Exec. regular_tac. Qed.
Lemma quota_input_regular a b q : regular (insert_quota_input a b q).
Proof. unfold insert_quota_input, Exec. regular_tac. Qed.
Lemma require_regular f : regular (require f).
Proof. unfold require, QueryRow. regular_tac. Qed.
Lemma wrong_proof_regular {A} id t : regular (wrong_proof (A:=A) id t).
Proof. unfold wrong_proof, Exec. regular_tac. Qed.
Lemma revoke_guarded_regular a t k b n i m : regular (revoke_guarded a t k b n i m).
Proof.
  pose proof audit_regular. pose proof require_regular. unfold revoke_guarded, QueryRow, Exec. regular_tac.
Qed.
Lemma check_recovery_regular a v : regular (check_recovery a v).
Proof. unfold check_recovery, QueryRow. regular_tac. Qed.
#[local] Hint Resolve audit_regular ensure_regular quota_input_regular require_regular wrong_proof_regular revoke_guarded_regular check_recovery_regular : tx.

Ltac tx_regular :=
  unfold effect, always, answering, RegisterAuthor_tx, CompleteBootstrapRegistration_tx, RenameAuthor_tx, RetireAuthor_tx, RevokeDevice_tx,
    RevokeDeviceAuthorized_tx, RevokeDeviceWithRecovery_tx, CreateEnrollmentToken_tx, VerifyEnrollmentToken_tx, CompleteDeviceEnrollment_tx,
    CompleteRecovery_tx, RotateRecovery_tx, SetQuota_tx, PruneAudit_tx, QueryRow, Exec; regular_tac.

Lemma effect_keeps o n m : keeps identity_ok (effect o n m).
Proof.
  unfold effect, always, answering. destruct o; (apply keeps_bind; [|intros; apply keeps_ret]);
    eauto using RegisterAuthor_keeps, CompleteBootstrap_keeps, RenameAuthor_keeps, RetireAuthor_keeps, RevokeDevice_keeps,
      RevokeDeviceAuthorized_keeps, RevokeDeviceWithRecovery_keeps, CreateEnrollmentToken_keeps, VerifyEnrollmentToken_keeps,
      CompleteDeviceEnrollment_keeps, CompleteRecovery_keeps, RotateRecovery_keeps, SetQuota_keeps, PruneAudit_keeps; keeps_tac.
Qed.

(** The whole effect of the transaction of a call at some instants of [clk], run where
    nothing fails. *)
Definition applied (o : call) (clk : list Time) (d d' : DB) (res : error + unit) : Prop :=
  exists n m b, n ∈ clk /\ m ∈ clk /\ (effect o n m d []).1 = inr (b, d') /\
    (if (b : bool) then res = inr tt \/ res = inl ErrListener else exists e, res = inl e).

Lemma guarded_cases {A} (r : Repo) cs (op : Repo * (error + A)) : guarded r cs op = op \/ exists e, guarded r cs op = (r, inl e).
Proof. unfold guarded. destruct (head _); eauto. Qed.
(** The clock of [r] is within [clk]; beyond its end it reads zero. *)
Definition within (clk : list Time) (r : Repo) : Prop := 0 ∈ clk /\ forall t, t ∈ r_clock r -> t ∈ clk.
Lemma now_spec clk (r : Repo) : within clk r -> r_db (now r).1 = r_db r /\ within clk (now r).1 /\ (now r).2 ∈ clk.
Proof.
  unfold now, within. intros [H0 Hc]. destruct (r_clock r) as [|t ts] eqn:Ht; cbn.
  - rewrite Ht. split; [done|]. split; [|done]. split; [done|]. intros t Hin. by apply not_elem_of_nil in Hin.
  - split; [done|]. split; [|apply Hc; by left]. split; [done|]. intros u Hu. apply Hc. by right.
Qed.

Lemma mutate_effect {A} (r : Repo) ev (c : TxDB A) (f : A -> bool) (g : A -> error + unit) :
  regular c -> (forall a, if f a then g a = inr tt else exists e, g a = inl e) ->
  let '(r', res) := mutate r ev c in
  let res := match res with inl e => inl e | inr a => g a end in
  ((exists e, res = inl e) /\ r_db r' = r_db r) \/
  exists b, (answering f c (r_db r) []).1 = inr (b, r_db r') /\ (if (b : bool) then res = inr tt \/ res = inl ErrListener else exists e, res = inl e).
Proof.
  intros Hreg Hg. destruct (mutate r ev c) as [r' res] eqn:Hm.
  destruct (mutate_cases r ev c r' res Hreg Hm) as (_ & _ & [(e & -> & -> & _)|(a & Ha & Hres)]); [by left; eauto|]. right. exists (f a).
  split.
  - unfold answering, tx_bind. destruct (c (r_db r) []) as [[e|[a' d']] fs]; cbn in *; [done|]. by injection Ha as -> ->.
  - specialize (Hg a). destruct Hres as [->|[-> _]]; destruct (f a); eauto.
Qed.

(** What a call may do. *)
Definition outcome (o : call) (clk : list Time) (d d' : DB) (res : error + unit) : Prop :=
  ((exists e, res = inl e) /\ d' = d) \/ applied o clk d d' res.
Definition outcome_of (o : call) (clk : list Time) (d : DB) (x : Repo * (error + unit)) : Prop :=
  within clk x.1 /\ outcome o clk d (r_db x.1) x.2.
Definition at_db (clk : list Time) (d : DB) (r : Repo) : Prop := within clk r /\ d = r_db r.

Lemma outcome_error {A} o clk d (r : Repo) e : at_db clk d r -> outcome_of o clk d (forget (A:=A) (r, inl e)).
Proof. intros [Hw ->]. split; [done|]. left. split; [by exists e|done]. Qed.
Lemma outcome_guarded {A} o clk d (r : Repo) cs (op : Repo * (error + A)) :
  at_db clk d r -> outcome_of o clk d (forget op) -> outcome_of o clk d (forget (guarded r cs op)).
Proof. intros Hr Hop. destruct (guarded_cases r cs op) as [-> | [e ->]]; [done|]. by apply outcome_error. Qed.
Lemma outcome_now {A} o clk d (r : Repo) (op : Repo -> Time -> Repo * (error + A)) :
  at_db clk d r -> (forall r n, at_db clk d r -> n ∈ clk -> outcome_of o clk d (forget (op r n))) ->
  outcome_of o clk d (forget (let '(r, n) := now r in op r n)).
Proof. intros [Hw ->] Hop. destruct (now_spec clk r Hw) as (E & Hw' & Hn). destruct (now r) as [r1 n]. by apply Hop. Qed.
Lemma outcome_mutate {A B} o clk d (r : Repo) ev (c : TxDB A) (f : A -> bool) (g : A -> error + B) n m :
  at_db clk d r -> regular c -> effect o n m = answering f c -> n ∈ clk -> m ∈ clk ->
  (forall a, if f a then exists b, g a = inr b else exists e, g a = inl e) ->
  outcome_of o clk d (forget (let '(r, res) := mutate r ev c in (r, match res with inl e => inl e | inr a => g a end))).
Proof.
  intros [Hw ->] Hreg Heff Hn Hm' Hg.
  pose proof (mutate_effect r ev c f (fun a => match g a with inl e => inl e | inr _ => inr tt end) Hreg) as Hm.
  destruct (mutate r ev c) as [r' res] eqn:Hr. destruct (mutate_cases _ _ _ _ _ Hreg Hr) as (_ & Hclk & _).
  unfold outcome_of, forget. cbn. split; [unfold within in *; by rewrite Hclk|].
  destruct Hm as [[[e He] Hd]|(b & Hb & Hres)].
  - intros a. specialize (Hg a). destruct (f a), Hg as [x ->]; eauto.
  - left. split; [|done]. destruct res as [e'|a]; [eauto|]. destruct (g a); [eauto|done].
  - right. exists n, m, b. rewrite Heff. split; [done|]. split; [done|]. split; [done|]. by destruct res.
Qed.
Lemma outcome_mutate_id {A} o clk d (r : Repo) ev (c : TxDB A) n m :
  at_db clk d r -> regular c -> effect o n m = always c -> n ∈ clk -> m ∈ clk -> outcome_of o clk d (forget (mutate r ev c)).
Proof.
  intros Hr Hreg Heff Hn Hm'. pose proof (outcome_mutate (B:=A) o clk _ r ev c (fun _ => true) inr n m Hr Hreg Heff Hn Hm') as Hm.
  destruct (mutate r ev c) as [r' [e|a]]; apply Hm; eauto.
Qed.
Lemma outcome_if {A} o clk d (b : bool) (r : Repo) e (op : Repo * (error + A)) :
  at_db clk d r -> outcome_of o clk d (forget op) -> outcome_of o clk d (forget (if b then (r, inl e) else op)).
Proof. intros Hr Hop. destruct b; [|done]. by apply outcome_error. Qed.
Lemma outcome_given {A} o clk d (r : Repo) t (op : Repo -> Z -> Repo * (error + A)) :
  at_db clk d r -> (forall r n, at_db clk d r -> n ∈ clk -> outcome_of o clk d (forget (op r (given_or_now t n)))) ->
  outcome_of o clk d (forget (let '(r, ns) := if UnixNano t =? 0 then let '(r, t) := now r in (r, UnixNano t) else (r, UnixNano t) in op r ns)).
Proof.
  intros Hr Hop. unfold given_or_now in Hop. destruct (UnixNano t =? 0).
  - destruct Hr as [Hw ->]. destruct (now_spec clk r Hw) as (E & Hw' & Hn). destruct (now r) as [r1 n]. by apply (Hop r1 n).
  - apply (Hop r 0); [done|]. by destruct Hr as [[? _] _].
Qed.

(** Every call that writes changes nothing and reports an error, or has the whole effect of
    its transaction; a committed wrong proof is an error. *)
Lemma run_call_outcome o clk r r' res :
  within clk r -> run_call o r = (r', res) -> within clk r' /\ outcome o clk (r_db r) (r_db r') res.
Proof.
  intros Hw Hrun. change (outcome_of o clk (r_db r) (r', res)). rewrite <- Hrun. clear Hrun.
  assert (Hat : at_db clk (r_db r) r) by (by split). revert Hat. generalize (r_db r) as d. intros d Hat.
  assert (H0 : 0 ∈ clk) by (by destruct Hw).
  destruct o; cbn [run_call];
    unfold SetServerIdentity, RegisterAuthor, CreateBootstrapAuthority, CompleteBootstrapRegistration, RenameAuthor, RetireAuthor, RevokeDevice,
      RevokeDeviceAuthorized, RevokeDeviceWithRecovery, CreateEnrollmentToken, VerifyEnrollmentToken, CompleteDeviceEnrollment, CompleteRecovery,
      RotateRecovery, SetQuota, PruneAudit;
    repeat first [ progress cbv zeta | apply outcome_guarded; [by eauto|] | apply outcome_given; [by eauto|intros ? ? ? ?]
                 | apply outcome_now; [by eauto|intros ? ? ? ?] | apply outcome_if; [by eauto|] ].
  all: try (eapply outcome_mutate_id; [done|tx_regular|cbn [effect]; reflexivity|eassumption|eassumption]).
  all: try (eapply outcome_mutate; [done|tx_regular|cbn [effect]; reflexivity|eassumption|eassumption|]; intros []; cbn; by eauto).
Qed.
(** At the instants of its own clock. *)
Lemma within_own (r : Repo) : within (0 :: r_clock r) r.
Proof. split; [by left|]. intros t Ht. by right. Qed.

Lemma success_effect_at o clk r r' : within clk r -> run_call o r = (r', inr tt) ->
  within clk r' /\ exists n m, n ∈ clk /\ (effect o n m (r_db r) []).1 = inr (true, r_db r').
Proof.
  intros Hw Hr. destruct (run_call_outcome o clk r r' _ Hw Hr) as [Hw' [[[e ?] _]|(n & m & [] & Hn & _ & He & Hb)]]; [done|by eauto|].
  by destruct Hb.
Qed.
Lemma success_effect o r r' : run_call o r = (r', inr tt) -> exists n m, (effect o n m (r_db r) []).1 = inr (true, r_db r').
Proof. intros Hr. destruct (success_effect_at o _ r r' (within_own r) Hr) as (_ & n & m & _ & He). eauto. Qed.
(** What the transaction of a call ensures holds after its success. *)
Lemma success_triple o r r' (Q : DB -> Prop) :
  (forall n m, triple (fun d => d = r_db r) (effect o n m) (fun b d => b = true -> Q d)) -> run_call o r = (r', inr tt) -> Q (r_db r').
Proof.
  intros Ht Hr. destruct (success_effect o r r' Hr) as (n & m & He). specialize (Ht n m (r_db r) [] eq_refl). rewrite He in Ht. by apply Ht.
Qed.
Lemma triple_answering {A} (f : A -> bool) (P Q : DB -> Prop) (c : TxDB A) :
  triple P c (fun a d => f a = true -> Q d) -> triple P (answering f c) (fun b d => b = true -> Q d).
Proof. intros Hc. eapply triple_bind; [exact Hc|]. intros a. by apply triple_ret. Qed.
Lemma triple_always {A} (P Q : DB -> Prop) (c : TxDB A) : triple P c (fun _ => Q) -> triple P (always c) (fun b d => b = true -> Q d).
Proof. intros Hc. apply triple_answering. eapply triple_conseq; [exact Hc|done|]. by intros a d HQ _. Qed.

Lemma require_triple d0 (f : DB -> Z) : triple (fun d => d = d0) (require f) (fun _ d => d = d0 /\ f d0 <> 0).
Proof.
  unfold require. eapply triple_bind; [apply triple_query|]. intros n. cbv beta. case_match eqn:Hn; [apply triple_err|].
  apply Z.eqb_neq in Hn. apply triple_ret. by intros d [-> ->].
Qed.
Lemma active_device_spec id author d :
  active_device id author d <> 0 <-> exists x, devices d !! id = Some x /\ dv_author x = author /\ device_active x = true.
Proof.
  unfold active_device. rewrite <- Z.eqb_neq, count_where_zero, negb_false_iff, exists_where_key. destruct (devices d !! id) as [x|].
  - rewrite andb_true_iff, eqb_true. split; [intros [? ?]; eauto|by intros (? & [= <-] & ?)].
  - split; [done|]. by intros (? & ? & _).
Qed.

Lemma require_any (P : DB -> Prop) (f : DB -> Z) : triple P (require f) (fun _ d => P d /\ f d <> 0).
Proof.
  intros d fs HP. pose proof (require_triple d f d fs eq_refl) as Ht. destruct (require f d fs) as [[e|[[] d']] fs']; [done|]. cbn in *.
  by destruct Ht as [-> ?].
Qed.

Lemma xor_all_zero a b : length a = length b -> xor_all a b = 0 <-> a = b.
Proof.
  revert b. induction a as [|x a IH]; intros [|y b] Hl; try done. injection Hl as Hl. cbn. rewrite Z.lor_eq_0_iff, Z.lxor_eq_0_iff, (IH b Hl).
  split; [by intros [-> ->]|by intros [= -> ->]].
Qed.
Lemma bytesEqual_spec a b : bytesEqual a b = true <-> a = b.
Proof.
  unfold bytesEqual. rewrite andb_true_iff, !Z.eqb_eq. split.
  - intros [Hl Hx]. apply xor_all_zero; [|done]. unfold len in Hl. lia.
  - intros ->. split; [done|by apply xor_all_zero].
Qed.

Lemma atomic_guarded {A} cs (F : Repo -> Repo * (error + A)) : atomic F -> atomic (fun r => guarded r cs (F r)).
Proof. intros HF. unfold guarded. destruct (head _); [apply atomic_error|done]. Qed.
Lemma atomic_if {A} (b : bool) e (F : Repo -> Repo * (error + A)) : atomic F -> atomic (fun r => if b then (r, inl e) else F r).
Proof. intros HF. destruct b; [apply atomic_error|done]. Qed.
Lemma atomic_given {A} t (F : Repo -> Z -> Repo * (error + A)) :
  (forall n, atomic (fun r => F r n)) ->
  atomic (fun r => let '(r, ns) := if UnixNano t =? 0 then let '(r, t) := now r in (r, UnixNano t) else (r, UnixNano t) in F r ns).
Proof.
  intros HF. destruct (UnixNano t =? 0); [|apply HF]. intros r. pose proof (atomic_now (fun r n => F r (UnixNano n)) (fun n => HF _) r) as Hn.
  cbv beta in Hn. unfold now in *. destruct r as [d f [|n c] ls]; exact Hn.
Qed.
Lemma atomic_forget {A} (F : Repo -> Repo * (error + A)) : atomic F -> atomic (fun r => forget (F r)).
Proof.
  intros HF r. unfold forget. cbn. destruct (HF r) as [[[e He] Hd]|[Hd [Hr|Hr]]].
  - left. rewrite He. split; [by exists e|done].
  - right. split; [done|left]. by rewrite Hr.
  - right. split; [done|right]. by rewrite Hr.
Qed.

(** Identity calls are atomic: whatever statement, transaction, commit or listener
    fails, every call of the identity interface that writes changes nothing and reports an
    error, or leaves the database exactly as it does when nothing fails, with the same
    answer unless a listener failed after the commit. *)
Theorem identity_atomic o : atomic (run_call o).
Proof.
  destruct o; cbn [run_call]; apply atomic_forget;
    unfold SetServerIdentity, RegisterAuthor, CreateBootstrapAuthority, CompleteBootstrapRegistration, RenameAuthor, RetireAuthor, RevokeDevice,
      RevokeDeviceAuthorized, RevokeDeviceWithRecovery, CreateEnrollmentToken, VerifyEnrollmentToken, CompleteDeviceEnrollment, CompleteRecovery,
      RotateRecovery, SetQuota, PruneAudit; cbv zeta;
    repeat first [ apply atomic_guarded | apply atomic_given; intros ? | apply atomic_now; intros ? | apply atomic_if
                 | apply atomic_mutate_id; tx_regular
                 | refine (atomic_mutate _ _ (fun a => _) _); tx_regular
                 | refine (atomic_mutate _ _ (fun a => match a with None => _ | Some x => _ end) _); tx_regular ].
Qed.

Lemma run_calls_ok l r : identity_ok (r_db r) -> identity_ok (r_db (run_calls l r)).
Proof.
  unfold run_calls. revert r. induction l as [|o l IH]; intros r Hok; cbn; [done|]. apply IH.
  destruct (run_call o r) as [r' res] eqn:Hr. cbn. destruct (run_call_outcome o _ r r' res (within_own r) Hr) as [_ [[_ Hd]|(n & m & b & _ & _ & He & _)]]; [by rewrite Hd|].
  pose proof (effect_keeps o n m (r_db r) [] Hok) as Hk. by rewrite He in Hk.
Qed.

(** The identity tables stay consistent: starting from an empty database and after
    any calls, with any failures, handles and fingerprints are unique, a handle in use is
    not reserved, every author has recovery material of a positive generation, devices,
    tokens and quotas belong to authors, the devices of an author have distinct names, and
    at most five wrong proofs are on record. *)
Theorem identity_invariant l r : r_db r = empty_db -> identity_ok (r_db (run_calls l r)).
Proof. intros Hr. apply run_calls_ok. rewrite Hr. apply empty_ok. Qed.
End Transactions.
End identitylaws.
