(* ===== verification/SqlCredentials.v ===== *)
(** * What credentials are good for

    Enrolment tokens and bootstrap authorities are used once, and not after five wrong
    proofs; recovery replaces every device and credential of an author; the guarded forms
    of revocation leave a device; a handle given up stays reserved. *)

From S2P Require Import Prelude Utf8 GoStrings Keys Streams SqlRepo SqlDB SqlIdentity SqlIdentityLaws.
Import sqlite db identity identitylaws.

Module credentials.
Open Scope tx_scope.

(** ** Single use *)

Inductive credential := CToken (id : bytes) | CBootstrap (id : bytes).

(** Used, locked by five wrong proofs, or gone. *)
Definition spent (c : credential) (d : DB) : Prop :=
  match c with
  | CToken id => forall t, tokens d !! id = Some t -> consumed_b (tk_consumed t) = true \/ 5 <= tk_failed t
  | CBootstrap id => exists b, bootstraps d !! id = Some b /\ (consumed_b (bs_consumed b) = true \/ 5 <= bs_failed b)
  end.

Definition uses (c : credential) (o : call) : Prop :=
  match c, o with
  | CToken id, CVerifyEnrollmentToken t _ => t = id
  | CToken id, CCompleteDeviceEnrollment i => de_TokenID i = id
  | CBootstrap id, CCompleteBootstrapRegistration a _ _ => a = id
  | _, _ => False
  end.
(** An identifier in use cannot be issued again; that of a token is free again after its
    author has gone. *)
Definition reissues (c : credential) (o : call) : Prop :=
  match c, o with
  | CToken id, CCreateEnrollmentToken i => ti_ID i = id
  | _, _ => False
  end.

Section Spent.
Context `{Platform}.
Context (c : credential).

Lemma consume_tokens_spent P n d d' : consume_tokens P n d = inr d' -> spent c d -> spent c d'.
Proof.
  intros [= <-]. destruct c as [id|id]; [|done]. cbn. intros Hs t. rewrite lookup_update_where.
  destruct (tokens d !! id) as [t0|]; [|done]. cbn. intros [= <-]. specialize (Hs _ eq_refl). destruct (P id t0); [by left|done].
Qed.
Lemma consume_bootstrap_spent i n d d' : consume_bootstrap i n d = inr d' -> spent c d -> spent c d'.
Proof.
  intros [= <-]. destruct c as [id|id]; [done|]. cbn. intros (b & Hb & Hs). rewrite lookup_update_where, Hb. cbn.
  eexists. split; [done|]. destruct (eqb id i); cbn; tauto.
Qed.
Lemma insert_bootstrap_spent i w d d' : insert_bootstrap i w d = inr d' -> spent c d -> spent c d'.
Proof.
  unfold insert_bootstrap. intros Hi. stmt_inv. destruct c as [id|id]; [done|]. cbn. intros (b & Hb & Hs). exists b. split; [|done].
  rewrite lookup_insert_ne; [done|]. intros ->. congruence.
Qed.
Lemma insert_token_spent i w d d' : c <> CToken i -> insert_token i w d = inr d' -> spent c d -> spent c d'.
Proof.
  unfold insert_token. intros Hc Hi. stmt_inv. destruct c as [id|id]; [|done]. cbn. intros Hs t. rewrite lookup_insert_ne; [apply Hs|].
  intros ->. by apply Hc.
Qed.
Lemma delete_author_spent i d d' : delete_author i d = inr d' -> spent c d -> spent c d'.
Proof.
  unfold delete_author. intros Hi. stmt_inv. destruct c as [id|id]; [|done]. cbn. intros Hs t. rewrite lookup_delete_where. intros [Ht _].
  by apply Hs.
Qed.
#[local] Hint Resolve consume_tokens_spent consume_bootstrap_spent insert_bootstrap_spent delete_author_spent : keeps.
(** The other statements. *)
#[local] Hint Extern 3 (spent _ _) => frame_stmt : keeps.

Lemma audit_spent i n : keeps (spent c) (audit i n).
Proof. unfold audit. keeps_tac. Qed.
Lemma ensure_spent h n : keeps (spent c) (ensureHandleAvailable h n).
Proof. unfold ensureHandleAvailable. keeps_tac. Qed.
Lemma quota_input_spent a b q : keeps (spent c) (insert_quota_input a b q).
Proof. unfold insert_quota_input. keeps_tac. Qed.
Lemma require_spent f : keeps (spent c) (require f).
Proof. unfold require. keeps_tac. Qed.
Lemma check_recovery_spent a v : keeps (spent c) (check_recovery a v).
Proof. unfold check_recovery. keeps_tac. Qed.
#[local] Hint Resolve audit_spent ensure_spent quota_input_spent require_spent check_recovery_spent : keeps.
Lemma revoke_guarded_spent a t k b n i m : keeps (spent c) (revoke_guarded a t k b n i m).
Proof. unfold revoke_guarded. keeps_tac. Qed.
#[local] Hint Resolve revoke_guarded_spent : keeps.

(** Counting a wrong proof of another credential. *)
Lemma update_token_failed_spent id n d d' : c <> CToken id -> update_token_failed id n d = inr d' -> spent c d -> spent c d'.
Proof.
  intros Hc. unfold update_token_failed. intros Hi. stmt_inv. destruct c as [id'|id']; [|done]. cbn. intros Hs t'. rewrite lookup_update_where.
  destruct (tokens d !! id') as [t0|]; [|done]. cbn. rewrite (proj2 (eqb_false id' id)) by congruence. intros [= <-]. by apply Hs.
Qed.
Lemma update_bootstrap_failed_spent id n d d' :
  c <> CBootstrap id -> update_bootstrap_failed id n d = inr d' -> spent c d -> spent c d'.
Proof.
  intros Hc. unfold update_bootstrap_failed. intros Hi. stmt_inv. destruct c as [id'|id']; [done|]. cbn. intros (b & Hb & Hs).
  rewrite lookup_update_where, Hb. cbn. rewrite (proj2 (eqb_false id' id)) by congruence. eauto.
Qed.

(** A use of a spent credential is refused. *)
Lemma spent_refused o n m d : spent c d -> uses c o -> forall b d', (effect o n m d []).1 <> inr (b, d').
Proof.
  intros Hs Hu b d'. destruct c as [id|id], o; try done; cbn in Hu; try subst id;
    cbn [effect]; unfold answering, CompleteBootstrapRegistration_tx, VerifyEnrollmentToken_tx, CompleteDeviceEnrollment_tx, tx_bind, QueryRow, statement;
    cbv beta zeta iota.
  - destruct (tokens d !! tokenID) as [t|] eqn:Ht; [|done]. destruct (Hs _ Ht) as [->|Hf]; [done|].
    rewrite (proj2 (Z.leb_le _ _) Hf), orb_true_r. done.
  - destruct (tokens d !! de_TokenID i) as [t|] eqn:Ht; [|done]. destruct (Hs _ Ht) as [->|Hf]; [by rewrite orb_true_r|].
    rewrite (proj2 (Z.leb_le _ _) Hf), orb_true_r. done.
  - destruct Hs as (b0 & Hb & Hs). rewrite Hb. destruct Hs as [->|Hf]; [done|].
    rewrite (proj2 (Z.leb_le _ _) Hf), !orb_true_r. done.
Qed.

Lemma spent_stable o n m d b d' : spent c d -> ~ reissues c o -> (effect o n m d []).1 = inr (b, d') -> spent c d'.
Proof.
  intros Hs Hr He. assert (Hu : ~ uses c o) by (intros Hu; by eapply spent_refused).
  assert (Hk : keeps (spent c) (effect o n m)).
  { destruct o; cbn [effect]; unfold always, answering; (apply keeps_bind; [|intros; apply keeps_ret]);
      unfold RegisterAuthor_tx, CompleteBootstrapRegistration_tx, RenameAuthor_tx, RetireAuthor_tx, RevokeDevice_tx,
        RevokeDeviceAuthorized_tx, RevokeDeviceWithRecovery_tx, CreateEnrollmentToken_tx, VerifyEnrollmentToken_tx, CompleteDeviceEnrollment_tx,
        CompleteRecovery_tx, RotateRecovery_tx, SetQuota_tx, PruneAudit_tx; keeps_tac;
      try (apply keeps_exec; intros ? ?; first [apply update_bootstrap_failed_spent|apply update_token_failed_spent|apply insert_token_spent]; intros Hc; first [apply Hu; by rewrite Hc|apply Hr; by rewrite Hc]);
      apply keeps_statement; intros d0 a d1.
    - destruct (revoke_devices _ _ _ _ d0) as [e|d2] eqn:Hd; [done|]. intros [= _ <-] Hsp. frame_stmt.
    - destruct (delete_audit _ d0) as [e|d2] eqn:Hd; [done|]. intros [= _ <-] Hsp. frame_stmt. }
  specialize (Hk d [] Hs). by rewrite He in Hk.
Qed.

End Spent.

Section Use.
Context `{Platform}.

(** A successful use spends the credential. *)
Lemma consume_token_triple (P : DB -> Prop) id n : triple P (Exec (consume_tokens (fun k _ => eqb k id) n)) (fun _ => spent (CToken id)).
Proof.
  apply triple_exec. intros d d' _ [= <-] t. cbn. rewrite lookup_update_where. destruct (tokens d !! id); [|done]. cbn. rewrite eqb_refl.
  intros [= <-]. by left.
Qed.
Lemma any_exec (P : DB -> Prop) f : triple P (Exec f) (fun _ _ => True).
Proof. by apply triple_exec. Qed.
Lemma any_triple {A} (P : DB -> Prop) (c : TxDB A) : triple P c (fun _ _ => True).
Proof. intros d fs _. by destruct (c d fs) as [[e|[a d']] fs']. Qed.

Lemma verify_spends id v n : triple (fun _ => True) (VerifyEnrollmentToken_tx id v n) (fun o d => consumed_b o = true -> spent (CToken id) d).
Proof.
  unfold VerifyEnrollmentToken_tx. eapply triple_bind; [apply any_triple|]. intros [t|]; [|apply triple_err]. cbv beta.
  case_match; [apply triple_err|]. case_match.
  - eapply triple_bind; [apply any_triple|]. intros []. by apply triple_ret.
  - eapply triple_bind; [apply consume_token_triple|]. intros []. by apply triple_ret.
Qed.
Lemma enrollment_spends i n m :
  triple (fun _ => True) (CompleteDeviceEnrollment_tx i n m) (fun o d => consumed_b o = true -> spent (CToken (de_TokenID i)) d).
Proof.
  unfold CompleteDeviceEnrollment_tx. eapply triple_bind; [apply any_triple|]. intros [t|]; [|apply triple_err]. cbv beta zeta.
  case_match; [apply triple_err|]. case_match.
  - eapply triple_bind; [apply any_triple|]. intros []. by apply triple_ret.
  - eapply triple_bind; [apply any_triple|]. intros []. eapply triple_bind; [apply consume_token_triple|]. intros [].
    eapply triple_bind; [apply audit_spent|]. intros []. by apply triple_ret.
Qed.
Lemma bootstrap_spends id v i n m :
  triple (fun _ => True) (CompleteBootstrapRegistration_tx id v i n m) (fun o d => consumed_b o = true -> spent (CBootstrap id) d).
Proof.
  unfold CompleteBootstrapRegistration_tx. cbv zeta.
  eapply (triple_bind _ _ _ (fun o d => o = bootstraps d !! id)).
  { eapply triple_conseq; [apply (triple_query (fun _ => True))|done|]. by intros a d [_ ->]. }
  intros [b|]; [|apply triple_err]. cbv beta.
  case_match; [apply triple_err|]. case_match.
  { eapply triple_bind; [apply any_triple|]. intros []. by apply triple_ret. }
  set (I := fun d => is_Some (bootstraps d !! id)).
  assert (Hsame : forall f : DB -> error + DB, (forall d d', f d = inr d' -> bootstraps d' = bootstraps d) -> keeps I (Exec f)).
  { intros f Hf. apply keeps_exec. intros d d' Hd. unfold I. by rewrite (Hf _ _ Hd). }
  eapply (triple_bind _ _ _ (fun _ => I)).
  { apply (triple_conseq I _ _ (fun _ => I)); [|intros d Hd; unfold I; rewrite <- Hd; by eauto|done].
    change (keeps I (ensureHandleAvailable (ri_Handle i) (UnixNano n))). unfold ensureHandleAvailable.
    keeps_tac; apply Hsame; by intros ? ? [= <-]. }
  intros []. eapply (triple_bind _ _ _ (fun _ => I)).
  { apply Hsame. unfold insert_author. intros d d' Hi. by stmt_inv. }
  intros []. eapply (triple_bind _ _ _ (fun _ => I)).
  { apply Hsame. unfold insert_recovery. intros d d' Hi. by stmt_inv. }
  intros []. eapply (triple_bind _ _ _ (fun _ => I)).
  { apply Hsame. unfold insert_device. intros d d' Hi. by stmt_inv. }
  intros []. eapply (triple_bind _ _ _ (fun _ => I)).
  { change (keeps I (insert_quota_input (ri_AuthorID i) false (ri_Quota i))). unfold insert_quota_input. keeps_tac. apply Hsame. unfold insert_quota. intros d d' Hi. by stmt_inv. }
  intros []. eapply (triple_bind _ _ _ (fun _ => spent (CBootstrap id))).
  { apply triple_exec. intros d d' [b0 Hb] [= <-]. cbn. rewrite lookup_update_where, Hb. cbn. rewrite eqb_refl. eexists. split; [done|]. by left. }
  intros []. eapply triple_bind; [apply audit_spent|]. intros []. by apply triple_ret.
Qed.

Lemma success_spends c o n m d d' : uses c o -> (effect o n m d []).1 = inr (true, d') -> spent c d'.
Proof.
  intros Hu. assert (Ha : forall A (f : A -> bool) (t : TxDB A), triple (fun _ => True) t (fun a d => f a = true -> spent c d) ->
    (answering f t d []).1 = inr (true, d') -> spent c d').
  { intros A f t Ht. specialize (Ht d [] I). unfold answering, tx_bind. destruct (t d []) as [[e|[a d1]] fs]; cbn in *; [done|].
    intros [= Hf <-]. by apply Ht. }
  destruct c as [id|id], o; try done; cbn [uses] in Hu; subst; cbn [effect]; apply Ha;
    [apply verify_spends|apply enrollment_spends|apply bootstrap_spends].
Qed.

Lemma spent_run c l r : Forall (fun o => ~ reissues c o) l -> spent c (r_db r) -> spent c (r_db (run_calls l r)).
Proof.
  unfold run_calls. intros Hl. revert r. induction Hl as [|o l Ho Hl IH]; intros r Hs; cbn; [done|]. apply IH.
  destruct (run_call o r) as [r' res] eqn:Hr. cbn. destruct (run_call_outcome o _ r r' res (within_own r) Hr) as [_ [[_ ->]|(n & m & b & _ & _ & He & _)]]; [done|].
  by eapply spent_stable.
Qed.

(** C22 (Single use): once an enrolment token or a bootstrap authority has been used, every
    later use of it is refused and changes nothing, whatever calls come in between and
    whatever fails; also once five wrong proofs are on record. A token's identifier must not
    be issued again, which is only possible after its author is gone. *)
Theorem credential_single_use c l o r r1 r2 res :
  (exists o1, uses c o1 /\ run_call o1 r = (r1, inr tt)) \/ spent c (r_db r1) ->
  Forall (fun o => ~ reissues c o) l -> uses c o -> run_call o (run_calls l r1) = (r2, res) ->
  (exists e, res = inl e) /\ r_db r2 = r_db (run_calls l r1).
Proof.
  intros Hfirst Hl Hu Hrun. assert (Hs : spent c (r_db r1)).
  { destruct Hfirst as [(o1 & Hu1 & Hr1)|?]; [|done]. destruct (success_effect o1 r r1 Hr1) as (n & m & He).
    by apply (success_spends c o1 n m (r_db r)). }
  apply (spent_run c l) in Hs; [|done].
  destruct (run_call_outcome o _ _ r2 res (within_own _) Hrun) as [_ [?|(n & m & b & _ & _ & He & _)]]; [done|]. exfalso. by apply (spent_refused c o n m _ Hs Hu b (r_db r2)).
Qed.

(** ** Recovery *)

(** Only the audit log differs. *)
Lemma audit_triple d0 i n : triple (fun d => d = d0) (audit i n) (fun _ d => exists m, d = set_audit m d0).
Proof.
  unfold audit. repeat case_match; try apply triple_err; apply triple_exec; unfold insert_audit; intros d d' -> Hi; stmt_inv; eauto.
Qed.

Lemma recovery_row d0 a v :
  triple (fun d => d = d0) (check_recovery a v) (fun rc d => d = d0 /\ recovery d0 !! a = Some rc /\ rc_verifier rc = v).
Proof.
  unfold check_recovery. eapply triple_bind; [apply triple_query|]. intros [rc|]; [|apply triple_err]. cbv beta.
  case_match eqn:Hv; [|apply triple_err]. apply bytesEqual_spec in Hv. apply triple_ret. by intros d [-> ->].
Qed.

(** What a recovery leaves of the devices, tokens and recovery rows of [d]. *)
Record recovered (i : RecoveryInput) (d d' : DB) : Prop := {
  rv_row : exists rc n, recovery d !! re_AuthorID i = Some rc /\ rc_verifier rc = re_CurrentVerifier i /\
    recovery d' !! re_AuthorID i = Some (mkRecovery (re_NextSalt i) (re_NextVerifier i) (rc_generation rc + 1) (rc_created rc) n);
  rv_device : exists x, devices d' !! re_DeviceID i = Some x /\ dv_author x = re_AuthorID i /\ device_active x = true /\
    dv_fingerprint x = re_Fingerprint i /\ dv_public_key x = re_PublicKey i;
  rv_devices : forall k x, devices d' !! k = Some x -> dv_author x = re_AuthorID i -> device_active x = true -> k = re_DeviceID i;
  rv_tokens : forall k t, tokens d' !! k = Some t -> tk_author t = re_AuthorID i -> consumed_b (tk_consumed t) = true;
  rv_others : forall k x, dv_author x <> re_AuthorID i -> devices d !! k = Some x <-> devices d' !! k = Some x }.

Lemma recovery_triple i n m d0 :
  re_RevokeOldDevices i = true -> triple (fun d => d = d0) (CompleteRecovery_tx i n m) (fun _ d => recovered i d0 d).
Proof.
  intros Hrev. unfold CompleteRecovery_tx. cbv zeta. eapply triple_bind; [apply triple_query|]. intros [rc|]; [|apply triple_err]. cbv beta.
  case_match eqn:Hv; [apply triple_err|]. apply negb_false_iff, bytesEqual_spec in Hv. rewrite Hrev.
  set (ns := UnixNano n). set (a := re_AuthorID i).
  set (new := mkDevice a (re_DeviceName i) (re_PublicKey i) (re_Fingerprint i) ns None).
  set (d1 := set_devices (<[re_DeviceID i := new]> (devices d0)) d0).
  set (d2 := set_recovery (update_where (fun k _ => eqb k a) (fun r => mkRecovery (re_NextSalt i) (re_NextVerifier i) (rc_generation rc + 1) (rc_created r) ns) (recovery d0)) d1).
  set (d3 := set_tokens (update_where (fun _ t => eqb (tk_author t) a && is_None_b (tk_consumed t)) (consumed_at ns) (tokens d0)) d2).
  set (d4 := set_devices (update_where (fun k x => (eqb (dv_author x) a && negb (eqb k (re_DeviceID i))) && device_active x)
    (revoke ns (str "recovery") (Some a)) (devices d1)) d3).
  eapply (triple_bind _ _ _ (fun _ d => d = d1 /\ devices d0 !! re_DeviceID i = None /\ recovery d0 !! a = Some rc)).
  { apply triple_exec. intros d d' [-> Hrow] Hi. unfold insert_device in Hi. stmt_inv. split; [done|]. split; [done|].
    fold a in Hrow. destruct (authors d0 !! a) as [au|]; [|done]. by destruct (au_suspended au). }
  intros []. eapply (triple_bind _ _ _ (fun _ d => d = d2 /\ devices d0 !! re_DeviceID i = None /\ recovery d0 !! a = Some rc)).
  { apply triple_exec. intros d d' (-> & Hd & Hr) Hi. unfold update_recovery in Hi. by stmt_inv. }
  intros []. eapply (triple_bind _ _ _ (fun _ d => d = d3 /\ devices d0 !! re_DeviceID i = None /\ recovery d0 !! a = Some rc)).
  { apply triple_exec. intros d d' (-> & Hd & Hr) Hi. unfold consume_tokens in Hi. by stmt_inv. }
  intros []. eapply (triple_bind _ _ _ (fun _ d => d = d4 /\ devices d0 !! re_DeviceID i = None /\ recovery d0 !! a = Some rc)).
  { apply triple_exec. intros d d' (-> & Hd & Hr) Hi. unfold revoke_devices in Hi. by stmt_inv. }
  intros []. intros d fs (-> & Hd & Hr). pose proof (audit_triple d4 (mkAuditInput (str "audit_recovery_" ++ re_DeviceID i) a (str "recovery") a []
    (str "author.recover") (str "device") (re_DeviceID i) [] [] []) m d4 fs eq_refl) as Ha.
  destruct (audit _ m d4 fs) as [[e|[[] d']] fs']; cbn [fst] in *; [done|]. destruct Ha as [mm ->].
  assert (Hdev : forall k, devices d4 !! k = (fun x => if (eqb (dv_author x) a && negb (eqb k (re_DeviceID i))) && device_active x
    then revoke ns (str "recovery") (Some a) x else x) <$> (<[re_DeviceID i := new]> (devices d0) !! k)) by (intros k; cbn; apply lookup_update_where).
  split.
  - exists rc, ns. split; [done|]. split; [done|]. change (re_AuthorID i) with a. cbn. by rewrite lookup_update_where, Hr, eqb_refl.
  - exists new. change (devices (set_audit _ d4)) with (devices d4). rewrite Hdev, lookup_insert_eq. cbn. by rewrite !eqb_refl.
  - intros k x. change (devices (set_audit _ d4)) with (devices d4). rewrite Hdev. fold a.
    destruct (decide (k = re_DeviceID i)) as [->|Hk]; [done|]. rewrite lookup_insert_ne by done. destruct (devices d0 !! k) as [y|]; [|done].
    cbn. rewrite (proj2 (eqb_false _ _) Hk), andb_true_r. destruct (eqb (dv_author y) a) eqn:Hy; cbn; [|intros [= ->] Hx; by apply eqb_false in Hy].
    destruct (device_active y) eqn:Hact; intros [= <-] _ Hx; [done|congruence].
  - intros k t. cbn. rewrite lookup_update_where. destruct (tokens d0 !! k) as [t0|]; [|done]. cbn. intros [= <-]. change (re_AuthorID i) with a.
    destruct (eqb (tk_author t0) a) eqn:Ht; cbn; [|intros Hx; by apply eqb_false in Ht].
    intros _. destruct (tk_consumed t0) eqn:Hc; cbn; [by rewrite Hc|done].
  - intros k x Hx. change (devices (set_audit _ d4)) with (devices d4). rewrite Hdev. fold a in Hx.
    destruct (decide (k = re_DeviceID i)) as [->|Hk].
    + rewrite Hd, lookup_insert_eq. cbn. rewrite !eqb_refl. cbn. split; [done|]. intros [= <-]. done.
    + rewrite lookup_insert_ne by done. destruct (devices d0 !! k) as [y|]; [|done]. cbn.
      destruct (eqb (dv_author y) a) eqn:Hy; cbn; [|done]. apply eqb_true in Hy. split; [intros [= ->]; done|].
      destruct (_ && _); intros [= <-]; done.
Qed.

(** (Recovery takes the account over): a recovery that revokes the old devices succeeds
    only with the current verifier. It replaces the recovery material by the next one of the
    next generation; the new device is then the only active one of the author, every
    pending enrolment token of the author is void, and the devices of other authors are
    untouched. *)
Theorem recovery_takeover i r r' :
  re_RevokeOldDevices i = true -> run_call (CCompleteRecovery i) r = (r', inr tt) -> recovered i (r_db r) (r_db r').
Proof.
  intros Hrev Hr. revert Hr. apply success_triple. intros n m. apply triple_always. by apply recovery_triple.
Qed.

(** ** Revocation *)

Lemma count_above_one {V} (P : bytes -> V -> bool) (m : gmap bytes V) t :
  1 < count_where P m -> exists k v, k <> t /\ m !! k = Some v /\ P k v = true.
Proof.
  unfold count_where, len. intros Hc.
  assert (Hnd : NoDup (rows_where P m).*1).
  { unfold rows_where. apply (sublist_NoDup _ (map_to_list m).*1); [apply NoDup_fst_map_to_list|]. apply fmap_sublist, sublist_filter. }
  assert (Hin : forall k v, (k, v) ∈ rows_where P m -> m !! k = Some v /\ P k v = true) by (intros k v; apply elem_of_rows).
  destruct (rows_where P m) as [|[k1 v1] [|[k2 v2] l]]; cbn in Hc; try lia.
  apply NoDup_cons in Hnd as [Hk _]. destruct (decide (k1 = t)) as [->|Hne].
  - exists k2, v2. destruct (Hin k2 v2) as [? ?]; [by right; left|]. split; [|done]. intros ->. apply Hk. by left.
  - exists k1, v1. destruct (Hin k1 v1) as [? ?]; [by left|done].
Qed.

(** A guarded revocation: the target was active, is revoked, and another device remains. *)
Record revoked_guarded (author target by_ kind : bytes) (d d' : DB) : Prop := {
  rg_target : exists x y n, devices d !! target = Some x /\ dv_author x = author /\ device_active x = true /\
    devices d' !! target = Some y /\ dv_revoked y = Some (n, kind, Some by_);
  rg_left : exists k x, k <> target /\ devices d' !! k = Some x /\ dv_author x = author /\ device_active x = true;
  rg_others : forall k, k <> target -> devices d' !! k = devices d !! k }.

Lemma revoke_guarded_triple author target kind by_ n input m d0 :
  triple (fun d => d = d0) (revoke_guarded author target kind by_ n input m) (fun _ d => revoked_guarded author target by_ kind d0 d).
Proof.
  unfold revoke_guarded. eapply triple_bind; [apply require_triple|]. intros []. cbv beta.
  eapply triple_bind; [apply triple_query|]. intros c. cbv beta. case_match eqn:Hc; [apply triple_err|]. apply Z.leb_gt in Hc.
  set (d1 := set_devices (update_where (fun k r => eqb k target && device_active r) (revoke n kind (Some by_)) (devices d0)) d0).
  eapply (triple_bind _ _ _ (fun _ d => d = d1 /\ active_device target author d0 <> 0 /\ 1 < active_devices author d0)).
  { apply triple_exec. intros d d' [[-> Ht] Hc0] Hi. unfold revoke_devices in Hi. stmt_inv. split; [done|]. split; [done|by rewrite <- Hc0]. }
  intros []. intros d fs (-> & Ht & Hc0). pose proof (audit_triple d1 input m d1 fs eq_refl) as Hau.
  destruct (audit input m d1 fs) as [[e|[[] d']] fs']; cbn [fst] in *; [done|]. destruct Hau as [mm ->].
  assert (Hdev : forall k, devices (set_audit mm d1) !! k = (fun x => if eqb k target && device_active x then revoke n kind (Some by_) x else x) <$> devices d0 !! k)
    by (intros k; apply lookup_update_where).
  apply active_device_spec in Ht as (x & Hx & Hxa & Hact). apply (count_above_one _ _ target) in Hc0 as (k & y & Hk & Hy & [Hya Hyact]%andb_true_iff).
  split.
  - exists x, (revoke n kind (Some by_) x), n. rewrite Hdev, Hx. cbn. by rewrite eqb_refl, Hact.
  - exists k, y. rewrite Hdev, Hy. cbn. rewrite (proj2 (eqb_false _ _) Hk). cbn. apply eqb_true in Hya. done.
  - intros k' Hk'. rewrite Hdev. rewrite (proj2 (eqb_false _ _) Hk'). cbn. by destruct (devices d0 !! k').
Qed.

(** (A device is left): a device revoked by another device, or with the recovery
    material, was an active device of the author, as is the one that revokes it; the author
    keeps at least one active device, and no other device changes. *)
Theorem revocation_guarded o r r' author target by_ kind :
  (o = CRevokeDeviceAuthorized author by_ target /\ kind = str "device") \/
  (exists v, o = CRevokeDeviceWithRecovery author v target /\ by_ = author /\ kind = str "recovery") ->
  run_call o r = (r', inr tt) ->
  revoked_guarded author target by_ kind (r_db r) (r_db r') /\
  match o with
  | CRevokeDeviceAuthorized _ _ _ => exists x, devices (r_db r) !! by_ = Some x /\ dv_author x = author /\ device_active x = true
  | CRevokeDeviceWithRecovery _ v _ => exists rc, recovery (r_db r) !! author = Some rc /\ rc_verifier rc = v
  | _ => True
  end.
Proof.
  intros Ho. apply (success_triple o r r' (fun d' => revoked_guarded author target by_ kind (r_db r) d' /\ _)). intros n m.
  destruct Ho as [[-> ->]|(v & -> & -> & ->)]; apply triple_always.
  - unfold RevokeDeviceAuthorized_tx. eapply triple_bind; [apply require_triple|]. intros []. intros d fs [-> Ha]. apply active_device_spec in Ha.
    pose proof (revoke_guarded_triple author target (str "device") by_ (UnixNano n) (mkAuditInput (str "audit_" ++ target ++ str "_revoke_" ++ Sprint (UnixNano n))
      author (str "device") author by_ (str "device.revoke") (str "device") target by_ target []) m (r_db r) (r_db r) fs eq_refl) as Ht.
    destruct (revoke_guarded _ _ _ _ _ _ _ _ _) as [[e|[[] d']] fs']; cbn [fst] in *; [done|]. done.
  - unfold RevokeDeviceWithRecovery_tx. eapply triple_bind; [apply recovery_row|]. intros rc. intros d fs (-> & Hr & Hv).
    pose proof (revoke_guarded_triple author target (str "recovery") author (UnixNano n) (mkAuditInput (str "audit_" ++ target ++ str "_revoke_recovery_" ++ Sprint (UnixNano n))
      author (str "recovery") author [] (str "device.revoke") (str "device") target (str "recovery") target []) m (r_db r) (r_db r) fs eq_refl) as Ht.
    destruct (revoke_guarded _ _ _ _ _ _ _ _ _) as [[e|[[] d']] fs']; cbn [fst] in *; [done|]. eauto.
Qed.

(** ** Reserved handles *)

Definition reserved (h : bytes) (until : Z) (d : DB) : Prop := exists t, tombstones d !! h = Some t /\ tb_available t = until.

Section Reserved.
Context (h : bytes) (until : Z).

Lemma insert_tombstone_reserved k w d d' : insert_tombstone k w d = inr d' -> reserved h until d -> reserved h until d'.
Proof.
  unfold insert_tombstone. intros Hi (t & Ht & Hu). stmt_inv. exists t. split; [|done]. cbn. rewrite lookup_insert_ne; [done|]. intros ->. congruence.
Qed.
Lemma delete_author_reserved i d d' : delete_author i d = inr d' -> reserved h until d -> reserved h until d'.
Proof. unfold delete_author. intros Hi Hr. stmt_inv. exact Hr. Qed.
#[local] Hint Resolve insert_tombstone_reserved delete_author_reserved : keeps.
#[local] Hint Extern 3 (reserved _ _ _) => frame_stmt : keeps.

Lemma audit_reserved i n : keeps (reserved h until) (audit i n).
Proof. unfold audit. keeps_tac. Qed.
Lemma quota_input_reserved a b q : keeps (reserved h until) (insert_quota_input a b q).
Proof. unfold insert_quota_input. keeps_tac. Qed.
Lemma require_reserved f : keeps (reserved h until) (require f).
Proof. unfold require. keeps_tac. Qed.
Lemma check_recovery_reserved a v : keeps (reserved h until) (check_recovery a v).
Proof. unfold check_recovery. keeps_tac. Qed.
#[local] Hint Resolve audit_reserved quota_input_reserved require_reserved check_recovery_reserved : keeps.
Lemma revoke_guarded_reserved a t k b n i m : keeps (reserved h until) (revoke_guarded a t k b n i m).
Proof. unfold revoke_guarded. keeps_tac. Qed.
#[local] Hint Resolve revoke_guarded_reserved : keeps.

(** Before its time a reserved handle is not available, and its reservation stays. *)
Lemma ensure_reserved h' n : n < until -> keeps (reserved h until) (ensureHandleAvailable h' n).
Proof.
  intros Hn. unfold ensureHandleAvailable. apply keeps_bind; [apply keeps_query|]. intros [x|]; [apply keeps_err|].
  eapply triple_bind; [apply triple_query|]. intros t. cbv beta.
  destruct (decide (h' = h)) as [->|Hne].
  - destruct t as [t|].
    + case_match eqn:Ht; [apply triple_err|]. apply triple_exec. intros d d' [(w & Hw & Hu) Hd] Hi. rewrite Hw in Hd. cbn in Hd. injection Hd as ->. lia.
    + intros d fs [(w & Hw & Hu) Hd]. by rewrite Hw in Hd.
  - assert (Hdel : forall P : DB -> Prop, (forall d, P d -> reserved h until d) -> triple P (Exec (delete_tombstone h')) (fun _ => reserved h until)).
    { intros P HP. apply triple_exec. intros d d' Hd [= <-]. destruct (HP _ Hd) as (w & Hw & Hu). exists w. split; [|done]. cbn.
      by rewrite lookup_delete_ne. }
    destruct t as [t|]; case_match; try apply triple_err; try (apply Hdel; by intros d [? _]). apply triple_ret. by intros d [? _].
Qed.

(** A call at instants before [until] keeps the reservation. *)
Definition dated_before (o : call) : Prop := match o with CRegisterAuthor i => UnixNano (ri_CreatedAt i) < until | _ => True end.
Lemma effect_reserved o n m : dated_before o -> UnixNano n < until -> keeps (reserved h until) (effect o n m).
Proof.
  intros Ho Hn. assert (He : forall h', keeps (reserved h until) (ensureHandleAvailable h' (UnixNano n))) by (intros h'; by apply ensure_reserved).
  assert (Hg : forall i, o = CRegisterAuthor i -> keeps (reserved h until) (ensureHandleAvailable (ri_Handle i) (given_or_now (ri_CreatedAt i) n))).
  { intros i ->. apply ensure_reserved. unfold given_or_now. cbn in Ho. destruct (UnixNano (ri_CreatedAt i) =? 0); lia. }
  destruct o; cbn [effect]; unfold always, answering; (apply keeps_bind; [|intros; apply keeps_ret]);
    unfold RegisterAuthor_tx, CompleteBootstrapRegistration_tx, RenameAuthor_tx, RetireAuthor_tx, RevokeDevice_tx,
      RevokeDeviceAuthorized_tx, RevokeDeviceWithRecovery_tx, CreateEnrollmentToken_tx, VerifyEnrollmentToken_tx, CompleteDeviceEnrollment_tx,
      CompleteRecovery_tx, RotateRecovery_tx, SetQuota_tx, PruneAudit_tx;
    try (apply keeps_bind; [by apply Hg|intros ?]); keeps_tac; try apply He;
    apply keeps_statement; intros d0 a d1.
  - destruct (revoke_devices _ _ _ _ d0) as [e|d2] eqn:Hd; [done|]. intros [= _ <-] Hsp. frame_stmt.
  - destruct (delete_audit _ d0) as [e|d2] eqn:Hd; [done|]. intros [= _ <-] Hsp. frame_stmt.
Qed.

Lemma run_reserved clk l r :
  Forall (fun n => UnixNano n < until) clk -> within clk r -> Forall dated_before l ->
  reserved h until (r_db r) -> reserved h until (r_db (run_calls l r)).
Proof.
  unfold run_calls. intros Hclk Hw Hl. revert r Hw. induction Hl as [|o l Ho Hl IH]; intros r Hw Hr; cbn; [done|].
  destruct (run_call o r) as [r' res] eqn:Hrun. cbn. destruct (run_call_outcome o clk r r' res Hw Hrun) as [Hw' Hout].
  apply IH; [done|]. destruct Hout as [[_ ->]|(n & m & b & Hn & _ & He & _)]; [done|].
  rewrite Forall_forall in Hclk. pose proof (effect_reserved o n m Ho (Hclk _ Hn) (r_db r) [] Hr) as Hk. by rewrite He in Hk.
Qed.

Lemma rename_reserves id h' u n m d0 a :
  identity_ok d0 -> authors d0 !! id = Some a -> au_handle a = h -> h' <> h -> UnixNano u = until -> UnixNano n < until ->
  triple (fun d => d = d0) (RenameAuthor_tx id h' u n m) (fun _ => reserved h until).
Proof.
  intros Hok Ha Hh Hne Hu Hn. unfold RenameAuthor_tx. eapply triple_bind; [apply triple_query|]. intros [a'|]; [|apply triple_err]. cbv beta zeta.
  intros d fs [-> Ha']. rewrite Ha in Ha'. injection Ha' as ->. rewrite Hh, (proj2 (eqb_false h h')) by done. revert fs.
  cut (triple (fun _ => True) (let! _ := ensureHandleAvailable h' (UnixNano n) in
    let! _ := Exec (insert_tombstone h (mkTomb id (str "renamed") (UnixNano n) (reserve u (UnixNano n)))) in
    let! _ := Exec (update_handle id h' (UnixNano n)) in
    audit (mkAuditInput (str "audit_" ++ id ++ str "_rename_" ++ Sprint (UnixNano n)) id (str "recovery") id []
             (str "author.rename") (str "author") id (str "recovery") h' []) m) (fun _ => reserved h until)).
  { intros Ht fs. by apply Ht. }
  eapply triple_bind; [apply any_triple|]. intros []. eapply (triple_bind _ _ _ (fun _ => reserved h until)).
  { apply triple_exec. unfold insert_tombstone. intros d1 d2 _ Hi. stmt_inv. eexists. split; [apply lookup_insert_eq|]. cbn. unfold reserve.
    rewrite (proj2 (Z.leb_gt _ _)) by lia. done. }
  intros []. eapply (triple_bind _ _ _ (fun _ => reserved h until)); [|intros []; apply audit_reserved].
  apply triple_exec. intros d1 d2 Hr Hi. frame_stmt.
Qed.
Lemma retire_reserves id v u n m d0 a :
  authors d0 !! id = Some a -> au_handle a = h -> UnixNano u = until -> UnixNano n < until ->
  triple (fun d => d = d0) (RetireAuthor_tx id v u n m) (fun _ => reserved h until).
Proof.
  intros Ha Hh Hu Hn. unfold RetireAuthor_tx. eapply triple_bind; [apply triple_query|]. intros [a'|]; [|apply triple_err]. cbv beta zeta.
  intros d fs [-> Ha']. rewrite Ha in Ha'. injection Ha' as ->. rewrite Hh. revert fs.
  rewrite (proj2 (Z.leb_gt (UnixNano u) _)) by lia. intros fs.
  match goal with |- match (?c d0 fs).1 with _ => _ end => cut (triple (fun _ => True) c (fun _ => reserved h until)); [intros Ht; by apply Ht|] end.
  eapply triple_bind; [apply any_triple|]. intros []. eapply (triple_bind _ _ _ (fun _ => reserved h until)).
  { apply triple_exec. unfold insert_tombstone. intros d1 d2 _ Hi. stmt_inv. eexists. split; [apply lookup_insert_eq|]. done. }
  intros []. eapply (triple_bind _ _ _ (fun _ => reserved h until)); [apply audit_reserved|]. intros [].
  apply triple_exec. intros d1 d2 Hr Hi. by eapply delete_author_reserved.
Qed.
End Reserved.

(** A handle given up stays reserved: after an author has been renamed or retired,
    nobody holds the old handle before the end of its reservation, whatever calls follow
    and whatever fails. *)
Theorem handle_reserved o clk l r r1 author a u :
  identity_ok (r_db r) -> authors (r_db r) !! author = Some a ->
  (exists h', o = CRenameAuthor author h' u /\ h' <> au_handle a) \/ (exists v, o = CRetireAuthor author v u) ->
  within clk r -> Forall (fun n => UnixNano n < UnixNano u) clk -> Forall (dated_before (UnixNano u)) l ->
  run_call o r = (r1, inr tt) ->
  forall i x, authors (r_db (run_calls l r1)) !! i = Some x -> au_handle x <> au_handle a.
Proof.
  intros Hok Ha Ho Hw Hclk Hl Hr i x Hx He. destruct (success_effect_at o clk r r1 Hw Hr) as (Hw1 & n & m & Hn & Heff).
  assert (Hnu : UnixNano n < UnixNano u) by (rewrite Forall_forall in Hclk; by apply Hclk).
  assert (Hres : reserved (au_handle a) (UnixNano u) (r_db r1)).
  { destruct Ho as [(h' & -> & Hne)|(v & ->)]; cbn [effect] in Heff.
    - pose proof (triple_always _ _ _ (rename_reserves (au_handle a) (UnixNano u) author h' u n m (r_db r) a Hok Ha eq_refl Hne eq_refl Hnu) (r_db r) [] eq_refl) as Ht.
      rewrite Heff in Ht. by apply Ht.
    - pose proof (triple_always _ _ _ (retire_reserves (au_handle a) (UnixNano u) author v u n m (r_db r) a Ha eq_refl eq_refl Hnu) (r_db r) [] eq_refl) as Ht.
      rewrite Heff in Ht. by apply Ht. }
  destruct (run_reserved _ _ clk l r1 Hclk Hw1 Hl Hres) as (t & Ht & _).
  assert (Hok1 : identity_ok (r_db (run_calls l r1))).
  { assert (Hok' : identity_ok (r_db r1)).
    { pose proof (effect_keeps o n m (r_db r) [] Hok) as Hk. by rewrite Heff in Hk. }
    by apply run_calls_ok. }
  pose proof (ok_free _ Hok1 _ _ Hx) as Hfree. rewrite He in Hfree. congruence.
Qed.
End Use.

(** ** Examples *)

Definition plain_platform : Platform := Build_Platform (fun r => r) (fun j => eqb j (str "{}")) eq_refl.

Section Examples.
#[local] Existing Instance plain_platform.

Definition at_start : Repo := mkRepository empty_db [] [] [].
Definition ann : RegistrationInput :=
  mkRegistration (str "author_1") (str "ann") (str "device_1") (str "laptop") (str "key1") (str "fp1") [1] [2] 7 None.
Definition registered : Repo := (run_call (CRegisterAuthor ann) at_start).1.
Definition ann_token : EnrollmentTokenInput :=
  mkTokenInput (str "enroll_1") (str "author_1") (str "add_device") (str "device") (str "device_1") (str "phone") [3] [4] 1000.
Definition invited : Repo := (run_call (CCreateEnrollmentToken ann_token) registered).1.
Definition phone : DeviceEnrollmentInput := mkEnrollment (str "enroll_1") (str "device_2") (str "key2") (str "fp2") [4].
Definition enrolled : Repo := (run_call (CCompleteDeviceEnrollment phone) invited).1.
Definition ann_recovery : RecoveryInput :=
  mkRecoveryInput (str "author_1") (str "device_3") (str "new") (str "key3") (str "fp3") [2] [5] [6] true.

Lemma identity_invariant_witness : r_db at_start = empty_db /\
  identity_ok (r_db (run_calls [CRegisterAuthor ann; CCreateEnrollmentToken ann_token; CCompleteDeviceEnrollment phone] at_start)).
Proof. split; [reflexivity|]. apply identity_invariant. reflexivity. Defined.

Lemma credential_single_use_witness :
  run_call (CCompleteDeviceEnrollment phone) invited = (enrolled, inr tt) /\
  (exists e, (run_call (CVerifyEnrollmentToken (str "enroll_1") [4]) enrolled).2 = inl e).
Proof.
  split; [vm_compute; reflexivity|].
  destruct (run_call (CVerifyEnrollmentToken (str "enroll_1") [4]) enrolled) as [r2 res] eqn:Hr.
  refine (proj1 (credential_single_use (CToken (str "enroll_1")) [] (CVerifyEnrollmentToken (str "enroll_1") [4]) invited enrolled r2 res _ _ _ Hr)).
  - left. exists (CCompleteDeviceEnrollment phone). split; [reflexivity|vm_compute; reflexivity].
  - constructor.
  - reflexivity.
Defined.

Lemma recovery_takeover_witness : recovered ann_recovery (r_db enrolled) (r_db (run_call (CCompleteRecovery ann_recovery) enrolled).1).
Proof. apply recovery_takeover; [reflexivity|vm_compute; reflexivity]. Defined.

Lemma revocation_guarded_witness :
  revoked_guarded (str "author_1") (str "device_1") (str "device_2") (str "device") (r_db enrolled)
    (r_db (run_call (CRevokeDeviceAuthorized (str "author_1") (str "device_2") (str "device_1")) enrolled).1).
Proof.
  refine (proj1 (revocation_guarded (CRevokeDeviceAuthorized (str "author_1") (str "device_2") (str "device_1")) enrolled _ _ _ _ _ _ _)).
  - left. split; reflexivity.
  - vm_compute. reflexivity.
Defined.

Definition renamed : Repo := (run_call (CRenameAuthor (str "author_1") (str "anna") 5000) registered).1.
Lemma handle_reserved_witness : authors (r_db registered) !! str "author_1" = Some (mkAuthor (str "ann") false 7 7) /\
  (forall i x, authors (r_db (run_calls [CRegisterAuthor ann] renamed)) !! i = Some x -> au_handle x <> str "ann").
Proof.
  split; [vm_compute; reflexivity|].
  apply (handle_reserved (CRenameAuthor (str "author_1") (str "anna") 5000) [0] [CRegisterAuthor ann] registered renamed
    (str "author_1") (mkAuthor (str "ann") false 7 7) 5000).
  - apply (run_calls_ok [CRegisterAuthor ann] at_start). apply empty_ok.
  - vm_compute. reflexivity.
  - left. exists (str "anna"). split; [reflexivity|]. discriminate.
  - split; [apply list_elem_of_here|]. intros t Ht. vm_compute in Ht. inversion Ht.
  - constructor; [vm_compute; reflexivity|constructor].
  - constructor; [vm_compute; reflexivity|constructor].
  - vm_compute. reflexivity.
Defined.
End Examples.
End credentials.
