(* ===== verification/SqlApps.v ===== *)
(** * Applications, artifacts, deployments and sessions (internal/sqlite: repository.go,
      repository_operations.go, deployment_api.go)

    What an author runs: applications with their access keys, content-addressed artifacts,
    deployments, configuration, secrets and egress hosts, and the sessions of the leaf
    gateway, with the access decision made before a session starts.

    Build metadata is given in the order in which the loop over the Go map meets it, as is
    the order of the four sweeps of [GarbageCollect]. *)

From stdpp Require Import sorting.
From S2P Require Import Prelude Utf8 GoStrings Keys Sha256 Streams SqlRepo SqlDB SqlIdentity.
Import sqlite db identity.

Module catalog.
Open Scope tx_scope.

Section Operations.
Context `{Platform}.

(** ** Applications *)

Record AppInput := mkAppInput {
  in_ID : bytes; in_AuthorID : bytes; in_Name : bytes; in_Kind : bytes; in_AccessMode : bytes; in_CreatedByDeviceID : bytes;
  in_CreatedAt : Time }.
Record App := mkAppOut { app_ID : bytes; app_row : AppRow }.

(** SELECT COALESCE((SELECT ... FROM author_quotas WHERE author_id=?),0) *)
Definition author_quota (f : QuotaRow -> Z) (author : bytes) (d : DB) : Z := default 0 (f <$> quotas d !! author).
Definition app_quota (f : QuotaRow -> Z) (app : bytes) (d : DB) : Z :=
  match apps d !! app with Some a => author_quota f (ap_author a) d | None => 0 end.

(** A quota of zero is no limit. *)
Definition check_quota (limit : DB -> Z) (count : DB -> Z) : TxDB unit :=
  let! max := QueryRow limit in
  if 0 <? max then
    let! n := QueryRow count in if max <=? n then tx_err ErrQuota else tx_ret tt
  else tx_ret tt.

Definition CreateApp_tx (i : AppInput) (ns : Z) (audit_now : Time) : TxDB unit :=
  let! author := QueryRow (fun d => authors d !! in_AuthorID i) in
  match author with
  | None => tx_err ErrNotFound
  | Some _ =>
    let! _ := if negb (eqb (in_CreatedByDeviceID i) []) then require (active_device (in_CreatedByDeviceID i) (in_AuthorID i)) else tx_ret tt in
    let! _ := check_quota (author_quota qt_apps (in_AuthorID i)) (fun d => count_where (fun _ a => eqb (ap_author a) (in_AuthorID i)) (apps d)) in
    let! _ := Exec (insert_app (in_ID i) (mkApp (in_AuthorID i) (in_Name i) (in_Kind i) (in_AccessMode i) false ns ns)) in
    audit (mkAuditInput (str "audit_" ++ in_ID i) (in_AuthorID i) (str "device") (in_AuthorID i) [] (str "app.create") (str "app") (in_ID i)
             (in_AuthorID i) (in_Name i) []) audit_now
  end.

Definition CreateApp (r : Repo) (i : AppInput) : Repo * (error + App) :=
  guarded r [validateID (in_ID i); validateID (in_AuthorID i); validateID (in_Name i);
             reject (negb (valid_kind (in_Kind i))); reject (negb (valid_access (in_AccessMode i)))]
  (let ns := UnixNano (in_CreatedAt i) in
   let '(r, ns) := if ns =? 0 then let '(r, t) := now r in (r, UnixNano t) else (r, ns) in
   let '(r, audit_now) := now r in
   let '(r, res) := mutate r (event (str "app-create") (str "app") (in_ID i)) (CreateApp_tx i ns audit_now) in
   (r, match res with
       | inl e => inl e
       | inr _ => inr (mkAppOut (in_ID i) (mkApp (in_AuthorID i) (in_Name i) (in_Kind i) (in_AccessMode i) false ns ns))
       end)).

(** ORDER BY name *)
Definition app_order (x y : App) : Prop := bytes_leb (ap_name (app_row x)) (ap_name (app_row y)) = true.
#[local] Instance app_order_dec x y : Decision (app_order x y) := bool_eq_dec _ _.
Definition ListApps (r : Repo) (authorID : bytes) : Repo * (error + list App) :=
  guarded r [validateID authorID]
  (query r (fun d => order_by app_order (map (fun kr => mkAppOut kr.1 kr.2) (rows_where (fun _ a => eqb (ap_author a) authorID) (apps d))))).
Definition get_app (r : Repo) (appID : bytes) : Repo * (error + App) :=
  guarded r [validateID appID] (query_row r (fun d => mkAppOut appID <$> apps d !! appID)).

Definition app_count (app : bytes) (d : DB) : Z := if has (apps d) app then 1 else 0.
Definition appExists (app : bytes) : TxDB unit := require (app_count app).

(** ** Access keys *)

Record AccessKey := mkAccessKey { k_ID : bytes; k_row : KeyRow }.
Record AccessKeyInput := mkKeyInput {
  ki_ID : bytes; ki_AppID : bytes; ki_Name : bytes; ki_PublicKey : bytes; ki_Fingerprint : bytes; ki_AddedByDeviceID : bytes;
  ki_CreatedAt : Time }.

(** SELECT COUNT( * ) FROM apps a JOIN devices d ON d.author_id=a.author_id WHERE a.id=? AND d.id=? AND d.revoked_at_ns IS NULL *)
Definition app_device (app device : bytes) (d : DB) : Z :=
  match apps d !! app with Some a => active_device device (ap_author a) d | None => 0 end.

Definition AddAccessKey_tx (i : AccessKeyInput) (ns : Z) (audit_now : Time) : TxDB unit :=
  let! _ := require (app_device (ki_AppID i) (ki_AddedByDeviceID i)) in
  let! _ := Exec (insert_key (ki_ID i) (mkKey (ki_AppID i) (ki_Name i) (ki_PublicKey i) (ki_Fingerprint i) (ki_AddedByDeviceID i) ns)) in
  let! author := QueryRow (fun d => ap_author <$> apps d !! ki_AppID i) in
  match author with
  | None => tx_err ErrStorage
  | Some authorID =>
    audit (mkAuditInput (str "audit_" ++ ki_ID i) authorID (str "device") authorID (ki_AddedByDeviceID i) (str "app.access.add")
             (str "access_key") (ki_ID i) (ki_AddedByDeviceID i) (ki_AppID i) []) audit_now
  end.

Definition AddAccessKey (r : Repo) (i : AccessKeyInput) : Repo * (error + AccessKey) :=
  guarded r [validate_ids [ki_ID i; ki_AppID i; ki_Name i; ki_PublicKey i; ki_Fingerprint i; ki_AddedByDeviceID i]]
  (let ns := UnixNano (ki_CreatedAt i) in
   let '(r, ns) := if ns =? 0 then let '(r, t) := now r in (r, UnixNano t) else (r, ns) in
   let '(r, audit_now) := now r in
   let '(r, res) := mutate r (event (str "access-key-add") (str "access-key") (ki_ID i)) (AddAccessKey_tx i ns audit_now) in
   (r, match res with
       | inl e => inl e
       | inr _ => inr (mkAccessKey (ki_ID i) (mkKey (ki_AppID i) (ki_Name i) (ki_PublicKey i) (ki_Fingerprint i) (ki_AddedByDeviceID i) ns))
       end)).

Definition key_order (x y : AccessKey) : Prop := before (ak_created (k_row x), k_ID x) (ak_created (k_row y), k_ID y).
#[local] Instance key_order_dec x y : Decision (key_order x y) := _.
Definition app_of (app author : bytes) (d : DB) : bool := match apps d !! app with Some a => eqb (ap_author a) author | None => false end.
Definition ListAccessKeys (r : Repo) (authorID appID : bytes) : Repo * (error + list AccessKey) :=
  guarded r [validate_ids [authorID; appID]]
  (query r (fun d => order_by key_order (map (fun kr => mkAccessKey kr.1 kr.2)
     (rows_where (fun _ k => eqb (ak_app k) appID && app_of appID authorID d) (access_keys d))))).

(** The rows of the join of [RemoveAccessKey]. *)
Definition removable (author app key actor : bytes) (d : DB) : Z :=
  match access_keys d !! key with
  | Some k => if eqb (ak_app k) app && app_of app author d then active_device actor author d else 0
  | None => 0
  end.
Definition RemoveAccessKey_tx (author app key actor : bytes) (audit_now : Time) : TxDB unit :=
  let! _ := require (removable author app key actor) in
  let! _ := Exec (delete_key key app) in
  audit (mkAuditInput (str "audit_" ++ key ++ str "_remove") author (str "device") author actor (str "app.access.remove") (str "access_key") key
           actor app []) audit_now.
Definition RemoveAccessKey (r : Repo) (author app key actor : bytes) : Repo * (error + unit) :=
  guarded r [validate_ids [author; app; key; actor]]
  (let '(r, audit_now) := now r in
   mutate r (event (str "access-key-remove") (str "access-key") key) (RemoveAccessKey_tx author app key actor audit_now)).

(** ** Artifacts *)

Definition hex_char (n : Z) : Z := if n <? 10 then 48 + n else 87 + n.
Definition hex (b : bytes) : bytes := flat_map (fun c => [hex_char (c / 16); hex_char (c mod 16)]) b.
Definition digest_of (wasm : bytes) : bytes := str "sha256:" ++ hex (sha256 wasm).
#[global] Arguments digest_of _ : simpl never.
Definition VerifyDigestBytes (digest wasm : bytes) : bool := eqb digest (digest_of wasm).

Record ArtifactInput := mkArtifactInput {
  ai_ID_ : bytes; ai_Digest : bytes; ai_WASM : bytes; ai_ABIVersion : Z; ai_CreatedAt : Time; ai_BuildMetadata : list (bytes * bytes) }.
Record ArtifactMetadata := mkMetadata { am_ID : bytes; am_row : ArtifactRow }.

(** [created] is [time.Now()], not the clock of the repository. *)
Definition validateArtifact (i : ArtifactInput) (created : Time) : error + ArtifactMetadata :=
  if negb (is_None_b (validateID (ai_ID_ i))) || (64 * 2 ^ 20 <? len (ai_WASM i)) then inl ErrInvalid else
  if negb (eqb (ai_Digest i) (digest_of (ai_WASM i))) || (ai_ABIVersion i <? 0) || (255 <? ai_ABIVersion i) then inl ErrInvalid else
  inr (mkMetadata (ai_ID_ i) (mkArtifact (ai_Digest i) (len (ai_WASM i)) (ai_ABIVersion i)
         (UnixNano (if IsZero (ai_CreatedAt i) then created else ai_CreatedAt i)))).

Fixpoint insert_metadata (artifact : bytes) (l : list (bytes * bytes)) : TxDB unit :=
  match l with
  | [] => tx_ret tt
  | (k, v) :: l =>
    if negb (is_None_b (validateID k)) || (2048 <? len v) then tx_err ErrInvalid else
    let! _ := Exec (insert_build artifact k v) in insert_metadata artifact l
  end.

(** The blob, compared when its digest is known, and the artifact with its metadata. *)
Definition store_artifact (m : ArtifactMetadata) (i : ArtifactInput) : TxDB unit :=
  let row := am_row m in
  let! stored := QueryRow (fun d => blobs d !! ar_digest row) in
  let! _ := match stored with
            | Some b => if negb (bl_size b =? ar_size row) || negb (eqb (bl_wasm b) (ai_WASM i)) then tx_err ErrConflict else tx_ret tt
            | None => Exec (insert_blob (ar_digest row) (mkBlob (ar_size row) (ai_WASM i)))
            end in
  let! _ := Exec (insert_artifact (am_ID m) row) in
  insert_metadata (am_ID m) (ai_BuildMetadata i).

Definition PutArtifact_tx (m : ArtifactMetadata) (i : ArtifactInput) (audit_now : Time) : TxDB unit :=
  let! _ := store_artifact m i in
  audit (mkAuditInput (str "audit_" ++ am_ID m) [] (str "system") [] [] (str "artifact.put") (str "artifact") (am_ID m)
           (str "system") (ar_digest (am_row m)) []) audit_now.

Definition PutArtifact (r : Repo) (i : ArtifactInput) (created : Time) : Repo * (error + ArtifactMetadata) :=
  match validateArtifact i created with
  | inl e => (r, inl e)
  | inr m =>
    let '(r, audit_now) := now r in
    let '(r, res) := mutate r (event (str "artifact-put") (str "artifact") (am_ID m)) (PutArtifact_tx m i audit_now) in
    (r, match res with inl e => inl e | inr _ => inr m end)
  end.

Definition newest_artifact (x y : ArtifactMetadata) : Prop := (ar_created (am_row y) <= ar_created (am_row x))%Z.
#[local] Instance newest_artifact_dec x y : Decision (newest_artifact x y) := Z_le_dec _ _.
Definition ListArtifactMetadata (r : Repo) (limit : Z) : Repo * (error + list ArtifactMetadata) :=
  query r (fun d => take (Z.to_nat (list_limit limit)) (order_by newest_artifact (map (fun kr => mkMetadata kr.1 kr.2) (map_to_list (artifacts d))))).

(** ** Deployments *)

Record Deployment := mkDeploymentOut { de_ID : bytes; de_row : DeploymentRow }.
Record DeploymentInput := mkDeploymentInput { di_ID : bytes; di_AppID : bytes; di_ArtifactID : bytes; di_DeviceID : bytes; di_CreatedAt : Time }.

Definition deployable (i : DeploymentInput) (d : DB) : Z := if has (artifacts d) (di_ArtifactID i) then app_device (di_AppID i) (di_DeviceID i) d else 0.

Definition CreateDeployment_tx (i : DeploymentInput) (ns : Z) : TxDB unit :=
  let! _ := require (deployable i) in
  let! _ := check_quota (app_quota qt_deployments (di_AppID i)) (fun d => count_where (fun _ x => eqb (dp_app x) (di_AppID i)) (deployments d)) in
  Exec (insert_deployment (di_ID i) (mkDeployment (di_AppID i) (di_ArtifactID i) (di_DeviceID i) ns)).

Definition CreateDeployment (r : Repo) (i : DeploymentInput) : Repo * (error + Deployment) :=
  guarded r [validate_ids [di_ID i; di_AppID i; di_ArtifactID i; di_DeviceID i]]
  (let ns := UnixNano (di_CreatedAt i) in
   let '(r, ns) := if ns =? 0 then let '(r, t) := now r in (r, UnixNano t) else (r, ns) in
   let '(r, res) := mutate r (event (str "deployment-create") (str "deployment") (di_ID i)) (CreateDeployment_tx i ns) in
   (r, match res with
       | inl e => inl e
       | inr _ => inr (mkDeploymentOut (di_ID i) (mkDeployment (di_AppID i) (di_ArtifactID i) (di_DeviceID i) ns))
       end)).

Definition deployment_of (deployment app : bytes) (d : DB) : Z :=
  match deployments d !! deployment with Some x => if eqb (dp_app x) app then 1 else 0 | None => 0 end.
Definition ActivateDeployment_tx (app deployment : bytes) : TxDB unit :=
  let! _ := require (deployment_of deployment app) in Exec (upsert_active app deployment).
Definition ActivateDeployment (r : Repo) (app deployment : bytes) : Repo * (error + unit) :=
  guarded r [validateID app; validateID deployment]
  (mutate r (event (str "deployment-activate") (str "deployment") deployment) (ActivateDeployment_tx app deployment)).

Definition SetDeploymentSuspended_tx (deployment : bytes) (suspend : bool) : TxDB unit :=
  let! _ := require (fun d => if has (deployments d) deployment then 1 else 0) in
  Exec (if suspend then insert_suspended deployment else delete_suspended deployment).
Definition SetDeploymentSuspended (r : Repo) (deployment : bytes) (suspend : bool) : Repo * (error + unit) :=
  guarded r [validateID deployment]
  (mutate r (event (str "deployment-suspension") (str "deployment") deployment) (SetDeploymentSuspended_tx deployment suspend)).

Definition get_deployment (r : Repo) (id : bytes) : Repo * (error + (Deployment * App)) :=
  guarded r [validateID id]
  (query_row r (fun d => match deployments d !! id with
                         | Some x => (fun a => (mkDeploymentOut id x, mkAppOut (dp_app x) a)) <$> apps d !! dp_app x
                         | None => None
                         end)).
Definition CurrentDeployment (r : Repo) (appID : bytes) : Repo * (error + (Deployment * ArtifactMetadata)) :=
  guarded r [validateID appID]
  (query_row r (fun d => match active d !! appID with
                         | Some id => match deployments d !! id with
                                      | Some x => (fun a => (mkDeploymentOut id x, mkMetadata (dp_artifact x) a)) <$> artifacts d !! dp_artifact x
                                      | None => None
                                      end
                         | None => None
                         end)).

(** *** Replacing the deployment of an application *)

Record ApplicationDeploymentInput := mkDeployInput {
  ad_AuthorID : bytes; ad_DeviceID : bytes; ad_AppName : bytes; ad_Kind : bytes; ad_AccessMode : bytes; ad_SourceDigest : bytes;
  ad_PreviousDeploymentID : bytes; ad_Artifact : ArtifactInput }.
Record ApplicationDeployment := mkDeployOut { out_App : App; out_Deployment : Deployment; out_Artifact : ArtifactMetadata }.

(** The instants read inside the transaction, and the identifiers drawn. *)
Record Draws := mkDraws { dr_app_now : Time; dr_update_now : Time; dr_now : Time; dr_audit_now : Time; dr_app : bytes; dr_deployment : bytes }.

Definition select_app (author name : bytes) (d : DB) : option App :=
  (fun kr => mkAppOut kr.1 kr.2) <$> select_where (fun _ a => eqb (ap_author a) author && eqb (ap_name a) name) (apps d).
Definition app_of_deployment (deployment : bytes) (d : DB) : option App :=
  match deployments d !! deployment with Some x => mkAppOut (dp_app x) <$> apps d !! dp_app x | None => None end.

(** The application that is deployed: that of the previous deployment, that of the name, or
    a new one. *)
Definition deploy_app (i : ApplicationDeploymentInput) (w : Draws) : TxDB App :=
  if negb (eqb (ad_PreviousDeploymentID i) []) then
    let! app := QueryRow (app_of_deployment (ad_PreviousDeploymentID i)) in
    match app with
    | None => tx_err ErrNotFound
    | Some app =>
      if negb (eqb (ap_author (app_row app)) (ad_AuthorID i)) || negb (eqb (ap_name (app_row app)) (ad_AppName i)) then tx_err ErrNotFound else tx_ret app
    end
  else
    let! app := QueryRow (select_app (ad_AuthorID i) (ad_AppName i)) in
    match app with
    | Some app => tx_ret app
    | None =>
      let ns := UnixNano (dr_app_now w) in
      let row := mkApp (ad_AuthorID i) (ad_AppName i) (ad_Kind i) (ad_AccessMode i) false ns ns in
      let! _ := Exec (insert_app (str "app_" ++ dr_app w) row) in
      tx_ret (mkAppOut (str "app_" ++ dr_app w) row)
    end.

Definition reconcile_app (i : ApplicationDeploymentInput) (w : Draws) (app : App) : TxDB App :=
  let row := app_row app in
  if negb (eqb (app_ID app) []) && (negb (eqb (ap_kind row) (ad_Kind i)) || negb (eqb (ap_access row) (ad_AccessMode i))) then
    let ns := UnixNano (dr_update_now w) in
    let! _ := Exec (update_app (app_ID app) (ad_Kind i) (ad_AccessMode i) ns) in
    tx_ret (mkAppOut (app_ID app) (mkApp (ap_author row) (ap_name row) (ad_Kind i) (ad_AccessMode i) (ap_suspended row) (ap_created row) ns))
  else tx_ret app.

Definition open_sessions (deployment : bytes) (d : DB) : Z :=
  count_where (fun _ s => eqb (ss_deployment s) deployment && session_open s) (sessions d).

(** The replaced deployment goes at once unless a session uses it, and its artifact and
    blob with it when nothing else needs them. It stays when reading its row fails: that
    error is not looked at. *)
Definition collect_old (old : bytes) : TxDB unit :=
  let! open := QueryRow (open_sessions old) in
  if negb (open =? 0) then tx_ret tt else
  let! _ := hook in
  let! artifact := TryRow (fun d => dp_artifact <$> deployments d !! old) in
  match artifact with
  | None => tx_ret tt
  | Some a =>
    let! digest := QueryRow (fun d => ar_digest <$> artifacts d !! a) in
    match digest with
    | None => tx_err ErrStorage
    | Some digest =>
      let! _ := Exec (delete_deployment old) in
      let! _ := Exec (delete_artifacts (fun k _ => eqb k a)) in
      Exec (delete_blobs (fun k => eqb k digest))
    end
  end.

(** [collect] is what becomes of the deployment that is replaced. *)
Definition deploy_with (collect : bytes -> TxDB unit) (i : ApplicationDeploymentInput) (m : ArtifactMetadata) (w : Draws) : TxDB ApplicationDeployment :=
  let! _ := require (active_device (ad_DeviceID i) (ad_AuthorID i)) in
  let! app := deploy_app i w in
  let! app := reconcile_app i w app in
  let! old := QueryRow (fun d => active d !! app_ID app) in
  let! _ := store_artifact m (ad_Artifact i) in
  let id := str "dep_" ++ dr_deployment w in
  let row := mkDeployment (app_ID app) (am_ID m) (ad_DeviceID i) (UnixNano (dr_now w)) in
  let! _ := Exec (insert_deployment id row) in
  let! _ := Exec (upsert_active (app_ID app) id) in
  let! _ := match old with
            | Some old => if negb (eqb old []) && negb (eqb old id) then collect old else tx_ret tt
            | None => tx_ret tt
            end in
  let! _ := audit (mkAuditInput (str "audit_" ++ id) (ad_AuthorID i) (str "device") (ad_AuthorID i) (ad_DeviceID i) (str "deployment.replace")
                     (str "deployment") id (ad_DeviceID i) (ap_name (app_row app)) []) (dr_audit_now w) in
  tx_ret (mkDeployOut app (mkDeploymentOut id row) m).
Definition DeployApplication_tx : ApplicationDeploymentInput -> ArtifactMetadata -> Draws -> TxDB ApplicationDeployment := deploy_with collect_old.

(** The checks, the instants and the transaction [tx] of a deployment. *)
Definition deploy_call (tx : ApplicationDeploymentInput -> ArtifactMetadata -> Draws -> TxDB ApplicationDeployment)
  (r : Repo) (i : ApplicationDeploymentInput) (created : Time) (app_rand deployment_rand : bytes) : Repo * (error + ApplicationDeployment) :=
  guarded r [validateID (ad_AuthorID i); validateID (ad_DeviceID i); validateID (ad_AppName i); reject (eqb (ad_AppName i) []);
             reject (negb (valid_kind (ad_Kind i))); reject (negb (valid_access (ad_AccessMode i))); reject (eqb (ad_SourceDigest i) [])]
  match validateArtifact (ad_Artifact i) created with
  | inl e => (r, inl e)
  | inr m =>
    let '(r, t1) := now r in
    let '(r, t2) := now r in
    let '(r, t3) := now r in
    let '(r, t4) := now r in
    mutate r (event (str "application-deploy") (str "deployment") []) (tx i m (mkDraws t1 t2 t3 t4 app_rand deployment_rand))
  end.
Definition DeployApplication : Repo -> ApplicationDeploymentInput -> Time -> bytes -> bytes -> Repo * (error + ApplicationDeployment) :=
  deploy_call DeployApplication_tx.

(** ** Resolving what a session runs *)

Record Runnable := mkRunnable { rn_App : App; rn_DeploymentID : bytes; rn_Artifact : ArtifactMetadata; rn_WASM : bytes }.

(** The join of [ResolveRunnable], with the suspension of the deployment. *)
Definition select_runnable (author name : bytes) (d : DB) : option (App * bytes * ArtifactMetadata * bool) :=
  match select_app author name d with
  | None => None
  | Some app =>
    match active d !! app_ID app with
    | None => None
    | Some dep =>
      match deployments d !! dep with
      | None => None
      | Some x =>
        if negb (eqb (dp_app x) (app_ID app)) then None else
        (fun a => (app, dep, mkMetadata (dp_artifact x) a, bool_decide (dep ∈ suspended d))) <$> artifacts d !! dp_artifact x
      end
    end
  end.

Definition ResolveRunnable (r : Repo) (author name : bytes) : Repo * (error + Runnable) :=
  guarded r [validateID author]
  (let '(r, row) := query_row r (select_runnable author name) in
   match row with
   | inl e => (r, inl e)
   | inr (app, dep, m, dep_suspended) =>
     if ap_suspended (app_row app) || dep_suspended then (r, inl ErrSuspended) else
     let '(r, wasm) := query_row r (fun d => bl_wasm <$> blobs d !! ar_digest (am_row m)) in
     match wasm with
     | inl e => (r, inl e)
     | inr wasm =>
       if negb (len wasm =? ar_size (am_row m)) || negb (VerifyDigestBytes (ar_digest (am_row m)) wasm) then (r, inl ErrStorage)
       else (r, inr (mkRunnable app dep m wasm))
     end
   end).

Definition query_count (r : Repo) (f : DB -> bool) : Repo * (error + bool) :=
  let '(r, res) := query r f in (r, match res with inl e => inl (storageError e) | inr b => inr b end).
Definition key_allowed (app fingerprint : bytes) (d : DB) : bool :=
  exists_where (fun _ k => eqb (ak_app k) app && eqb (ak_fingerprint k) fingerprint) (access_keys d).
Definition device_allowed (author fingerprint : bytes) (d : DB) : bool :=
  exists_where (fun _ x => eqb (dv_fingerprint x) fingerprint && eqb (dv_author x) author && device_active x) (devices d).

Definition ResolveLeafRunnable (r : Repo) (authorHandle appName fingerprint identityAuthorID : bytes) : Repo * (error + Runnable) :=
  guarded r [handle_error authorHandle;
             match validateID appName with Some _ => Some ErrInvalid | None => reject (eqb appName []) end]
  (let '(r, row) := query_row r (fun d => select_where (fun _ a => eqb (au_handle a) authorHandle) (authors d)) in
   match row with
   | inl e => (r, inl e)
   | inr (authorID, a) =>
     if au_suspended a then (r, inl ErrSuspended) else
     let '(r, res) := ResolveRunnable r authorID appName in
     match res with
     | inl e => (r, inl e)
     | inr run =>
       let app := rn_App run in
       if eqb (ap_access (app_row app)) (str "public") || eqb identityAuthorID authorID then (r, inr run) else
       if eqb (TrimSpace fingerprint) [] then (r, inl ErrNotFound) else
       let '(r, allowed) := query_count r (key_allowed (app_ID app) fingerprint) in
       match allowed with
       | inl e => (r, inl e)
       | inr true => (r, inr run)
       | inr false =>
         let '(r, allowed) := query_count r (device_allowed (ap_author (app_row app)) fingerprint) in
         match allowed with
         | inl e => (r, inl e)
         | inr true => (r, inr run)
         | inr false => (r, inl ErrNotFound)
         end
       end
     end
   end).

(** ** Configuration, secrets, egress *)

Definition SetCapabilityConfig_tx (app capability key value : bytes) : TxDB unit :=
  let! _ := appExists app in Exec (upsert_config app capability key value).
Definition SetCapabilityConfig (r : Repo) (app capability key value : bytes) : Repo * (error + unit) :=
  guarded r [validate_ids [app; capability; key]; reject (8192 <? len value)]
  (mutate r (event (str "capability-config") (str "app") app) (SetCapabilityConfig_tx app capability key value)).

Definition SetCapabilityValue_tx (app capability key value : bytes) (ns : Z) : TxDB unit :=
  let! _ := appExists app in Exec (upsert_value app capability key value ns).
Definition SetCapabilityValue (r : Repo) (app capability key value : bytes) : Repo * (error + unit) :=
  guarded r [validate_ids [app; capability; key]; reject (2 ^ 20 <? len value)]
  (let '(r, now_) := now r in
   mutate r (event (str "capability-value") (str "app") app) (SetCapabilityValue_tx app capability key value (UnixNano now_))).

(** A row of either table; the configuration has no instant. *)
Record CapabilityEntry := mkEntry { ce_Capability : bytes; ce_Key : bytes; ce_Value : bytes; ce_UpdatedAt : option Z }.
Definition entry_order (x y : CapabilityEntry) : Prop :=
  bytes_leb (ce_Capability x) (ce_Capability y) = true /\ (ce_Capability x = ce_Capability y -> bytes_leb (ce_Key x) (ce_Key y) = true).
#[local] Instance entry_order_dec x y : Decision (entry_order x y) := _.
Definition CapabilityConfig (r : Repo) (app : bytes) : Repo * (error + list CapabilityEntry) :=
  guarded r [validateID app]
  (query r (fun d => order_by entry_order (map (fun kr => mkEntry kr.1.1.2 kr.1.2 kr.2 None) (rows_where (fun k _ => eqb k.1.1 app) (cap_config d))))).
Definition CapabilityValues (r : Repo) (app : bytes) : Repo * (error + list CapabilityEntry) :=
  guarded r [validateID app]
  (query r (fun d => order_by entry_order (map (fun kr => mkEntry kr.1.1.2 kr.1.2 kr.2.1 (Some kr.2.2)) (rows_where (fun k _ => eqb k.1.1 app) (cap_values d))))).

Record SecretMetadata := mkSecretOut { sm_AppID : bytes; sm_Key : bytes; sm_row : SecretRow }.

Definition SetSecret_tx (app key value : bytes) (ns : Z) : TxDB SecretMetadata :=
  let! _ := appExists app in
  let! max := QueryRow (app_quota qt_secrets app) in
  let! _ := if 0 <? max then
              let! n := QueryRow (fun d => count_where (fun k _ => eqb k.1 app) (secrets d)) in
              if max <=? n then
                let! existing := QueryRow (fun d => secrets d !! (app, key)) in
                match existing with None => tx_err ErrQuota | Some _ => tx_ret tt end
              else tx_ret tt
            else tx_ret tt in
  let! row := QueryRow (fun d => secrets d !! (app, key)) in
  let! created := match row with
                  | None => tx_ret ns
                  | Some s => let! c := QueryRow (fun d => sc_created <$> secrets d !! (app, key)) in
                              match c with Some c => tx_ret c | None => tx_err ErrStorage end
                  end in
  let version := match row with None => 1 | Some s => sc_version s + 1 end in
  let! _ := Exec (upsert_secret app key (mkSecret version ns ns)) in
  let! _ := Exec (upsert_secret_value app key value) in
  tx_ret (mkSecretOut app key (mkSecret version created ns)).

Definition SetSecret (r : Repo) (app key value : bytes) : Repo * (error + SecretMetadata) :=
  guarded r [validateID app; validateID key; reject (2 ^ 20 <? len value)]
  (let '(r, now_) := now r in
   mutate r (event (str "secret-set") (str "secret") (app ++ str ":" ++ key)) (SetSecret_tx app key value (UnixNano now_))).

Definition Secret (r : Repo) (app key : bytes) : Repo * (error + (SecretMetadata * bytes)) :=
  query_row r (fun d => match secrets d !! (app, key), secret_values d !! (app, key) with
                        | Some s, Some v => Some (mkSecretOut app key s, v)
                        | _, _ => None
                        end).
Definition secret_order (x y : SecretMetadata) : Prop := bytes_leb (sm_Key x) (sm_Key y) = true.
#[local] Instance secret_order_dec x y : Decision (secret_order x y) := bool_eq_dec _ _.
Definition ListSecrets (r : Repo) (app : bytes) : Repo * (error + list SecretMetadata) :=
  guarded r [validateID app]
  (query r (fun d => order_by secret_order (map (fun kr => mkSecretOut app kr.1.2 kr.2) (rows_where (fun k _ => eqb k.1 app) (secrets d))))).
Definition SetSecretDelete_tx (app key : bytes) : TxDB unit :=
  let! n := statement (fun d => match delete_secret app key d with
                                | inl e => inl e
                                | inr d' => inr (if is_None_b (secrets d !! (app, key)) then 0 else 1, d')
                                end) in
  if n =? 0 then tx_err ErrNotFound else tx_ret tt.
Definition SetSecretDelete (r : Repo) (app key : bytes) : Repo * (error + unit) :=
  guarded r [validateID app; validateID key]
  (mutate r (event (str "secret-delete") (str "secret") app) (SetSecretDelete_tx app key)).

Definition SetEgressHost_tx (app host : bytes) (allow : bool) : TxDB unit :=
  let! _ := appExists app in Exec (if allow then insert_egress app host else delete_egress app host).
Definition SetEgressHost (r : Repo) (app host : bytes) (allow : bool) : Repo * (error + unit) :=
  guarded r [validateID app; reject (eqb (TrimSpace host) [] || (255 <? len host))]
  (mutate r (event (str "egress-set") (str "app") app) (SetEgressHost_tx app host allow)).
Definition ListEgressHosts (r : Repo) (app : bytes) : Repo * (error + list bytes) :=
  guarded r [validateID app]
  (query r (fun d => sort_keys (map snd (filter (fun p => p.1 = app) (elements (egress d)))))).

(** ** Sessions *)

Record Session := mkSessionInput {
  s_ID : bytes; s_AppID : bytes; s_DeploymentID : bytes; s_ArtifactDigest : bytes; s_Log : bytes; s_Identity : bytes; s_StartedAt : Time; s_LogTruncated : bool }.

(** The join of [StartSession]: the author, whether it is suspended, and the digest. *)
Definition startable (app dep : bytes) (d : DB) : option (bytes * bool * bytes) :=
  match apps d !! app, deployments d !! dep with
  | Some a, Some x =>
    if negb (eqb (dp_app x) app) || negb (match active d !! app with Some y => eqb y dep | None => false end) then None else
    (fun ar => (ap_author a, ap_suspended a || bool_decide (dep ∈ suspended d), ar_digest ar)) <$> artifacts d !! dp_artifact x
  | _, _ => None
  end.

Definition StartSession_tx (s : Session) (ns : Z) : TxDB unit :=
  let! row := QueryRow (startable (s_AppID s) (s_DeploymentID s)) in
  match row with
  | None => tx_err ErrNotFound
  | Some (author, susp, digest) =>
    if susp then tx_err ErrSuspended else
    if negb (eqb digest (s_ArtifactDigest s)) then tx_err ErrNotFound else
    let! _ := check_quota (author_quota qt_sessions author)
                (fun d => count_where (fun _ x => eqb (ss_app x) (s_AppID s) && session_open x) (sessions d)) in
    Exec (insert_session (s_ID s) (mkSession (s_AppID s) (s_DeploymentID s) (s_ArtifactDigest s) ns None (s_Log s) (s_LogTruncated s) (s_Identity s)))
  end.
Definition StartSession (r : Repo) (s : Session) : Repo * (error + unit) :=
  guarded r [validateID (s_ID s); validate_ids [s_AppID s; s_DeploymentID s; s_ArtifactDigest s]; reject (2048 <? len (s_Identity s))]
  (let ns := UnixNano (s_StartedAt s) in
   let '(r, ns) := if ns =? 0 then let '(r, t) := now r in (r, UnixNano t) else (r, ns) in
   mutate r (event (str "session-start") (str "session") (s_ID s)) (StartSession_tx s ns)).

(** UPDATE sessions SET ... WHERE id=? AND ended_at_ns IS NULL, with the number of rows. *)
Definition update_open (id : bytes) (f : SessionRow -> SessionRow) : TxDB unit :=
  let! n := statement (fun d => match update_session id f d with
                                | inl e => inl e
                                | inr d' => inr (count_where (fun k s => eqb k id && session_open s) (sessions d), d')
                                end) in
  if n =? 0 then tx_err ErrNotFound else tx_ret tt.
Definition with_log (log : bytes) (truncated : bool) (s : SessionRow) : SessionRow :=
  mkSession (ss_app s) (ss_deployment s) (ss_digest s) (ss_started s) (ss_ended s) log truncated (ss_identity s).
Definition ended (ns : Z) (s : SessionRow) : SessionRow :=
  mkSession (ss_app s) (ss_deployment s) (ss_digest s) (ss_started s) (Some ns) (ss_log s) (ss_truncated s) (ss_identity s).

Definition RecordSessionLog (r : Repo) (id log : bytes) (truncated : bool) : Repo * (error + unit) :=
  guarded r [validateID id; reject (4 * 2 ^ 20 <? len log)]
  (mutate r (event (str "session-log") (str "session") id) (update_open id (with_log log truncated))).

(** The instant at which the session ended, of a first or of a repeated call. *)
Definition EndSession_tx (id : bytes) (now_ : Time) : TxDB Time :=
  let! row := QueryRow (fun d => sessions d !! id) in
  match row with
  | None => tx_err ErrNotFound
  | Some s =>
    match ss_ended s with
    | Some t => tx_ret t
    | None => let! _ := update_open id (ended (UnixNano now_)) in tx_ret now_
    end
  end.
Definition EndSession (r : Repo) (id : bytes) : Repo * (error + Time) :=
  guarded r [validateID id]
  (let '(r, now_) := now r in mutate r (event (str "session-end") (str "session") id) (EndSession_tx id now_)).

Record SessionOut := mkSessionOut { so_ID : bytes; so_row : SessionRow }.
Definition newest_session (x y : SessionOut) : Prop := (ss_started (so_row y) <= ss_started (so_row x))%Z.
#[local] Instance newest_session_dec x y : Decision (newest_session x y) := Z_le_dec _ _.
Definition ListSessions (r : Repo) (app : bytes) (limit : Z) : Repo * (error + list SessionOut) :=
  guarded r [validateID app]
  (query r (fun d => take (Z.to_nat (list_limit limit))
     (order_by newest_session (map (fun kr => mkSessionOut kr.1 kr.2) (rows_where (fun _ s => eqb (ss_app s) app) (sessions d)))))).

(** ** Garbage collection *)

Record GCResult := mkGCResult { gc_AuditEvents : Z; gc_Sessions : Z; gc_Artifacts : Z; gc_Blobs : Z }.
Inductive sweep := SweepAudit | SweepSessions | SweepArtifacts | SweepBlobs.

(** One of the four deletions, and the number of rows that go. *)
Definition sweep_statement (cutoff : Z) (s : sweep) (d : DB) : error + DB :=
  match s with
  | SweepAudit => delete_audit cutoff d
  | SweepSessions => delete_sessions cutoff d
  | SweepArtifacts => delete_artifacts (fun _ a => ar_created a <? cutoff) d
  | SweepBlobs => delete_blobs (fun _ => true) d
  end.
Definition table_size (s : sweep) (d : DB) : Z :=
  match s with
  | SweepAudit => Z.of_nat (size (audit_events d))
  | SweepSessions => Z.of_nat (size (sessions d))
  | SweepArtifacts => Z.of_nat (size (artifacts d))
  | SweepBlobs => Z.of_nat (size (blobs d))
  end.
Definition counted (s : sweep) (n : Z) (g : GCResult) : GCResult :=
  match s with
  | SweepAudit => mkGCResult n (gc_Sessions g) (gc_Artifacts g) (gc_Blobs g)
  | SweepSessions => mkGCResult (gc_AuditEvents g) n (gc_Artifacts g) (gc_Blobs g)
  | SweepArtifacts => mkGCResult (gc_AuditEvents g) (gc_Sessions g) n (gc_Blobs g)
  | SweepBlobs => mkGCResult (gc_AuditEvents g) (gc_Sessions g) (gc_Artifacts g) n
  end.
Fixpoint run_sweeps (cutoff : Z) (order : list sweep) (g : GCResult) : TxDB GCResult :=
  match order with
  | [] => tx_ret g
  | s :: order =>
    let! n := statement (fun d => match sweep_statement cutoff s d with
                                  | inl e => inl e
                                  | inr d' => inr (table_size s d - table_size s d', d')
                                  end) in
    run_sweeps cutoff order (counted s n g)
  end.
Definition GarbageCollect_tx (cutoff : Z) (order : list sweep) (now_ : Time) : TxDB GCResult :=
  let! g := run_sweeps cutoff order (mkGCResult 0 0 0 0) in
  let! _ := Exec (delete_expired_tombstones (UnixNano now_)) in
  tx_ret g.
(** [order]: how the iteration over the map of queries happens to go. *)
Definition GarbageCollect (r : Repo) (before : Time) (order : list sweep) : Repo * (error + GCResult) :=
  let '(r, now_) := now r in
  mutate r (event (str "garbage-collect") (str "gc") (str "repository")) (GarbageCollect_tx (UnixNano before) order now_).
End Operations.
End catalog.
