(* ===== verification/SqlAppsLaws.v ===== *)
(** * What the catalogue keeps

    The invariant of applications, artifacts and deployments, kept by every operation of
    both groups whatever fails. *)

From S2P Require Import Prelude Utf8 GoStrings Keys Sha256 Streams SqlRepo SqlDB SqlIdentity SqlIdentityLaws SqlApps.
Import sqlite db identity identitylaws catalog.

Module cataloglaws.
Open Scope tx_scope.

(** ** The invariant *)

Definition author_of_device (d : DB) (device : bytes) : option bytes := dv_author <$> devices d !! device.
Definition author_of_app (d : DB) (app : bytes) : option bytes := ap_author <$> apps d !! app.

Definition apps_ok (d : DB) : Prop :=
  map_Forall (fun _ a => is_Some (authors d !! ap_author a)) (apps d) /\
  forall i j a b, apps d !! i = Some a -> apps d !! j = Some b -> ap_author a = ap_author b -> ap_name a = ap_name b -> i = j.
(** Keys and deployments are those of an application, by a device of its author. *)
Definition keys_ok (d : DB) : Prop :=
  map_Forall (fun _ k => exists u, author_of_app d (ak_app k) = Some u /\ author_of_device d (ak_device k) = Some u) (access_keys d).
Definition deployments_ok (d : DB) : Prop :=
  map_Forall (fun _ x => is_Some (artifacts d !! dp_artifact x) /\
    exists u, author_of_app d (dp_app x) = Some u /\ author_of_device d (dp_device x) = Some u) (deployments d).
Definition active_ok (d : DB) : Prop := forall app dep, active d !! app = Some dep -> exists x, deployments d !! dep = Some x /\ dp_app x = app.
Definition suspended_ok (d : DB) : Prop := forall dep, dep ∈ suspended d -> is_Some (deployments d !! dep).
(** A blob is stored under the digest of its bytes; every artifact has its blob. *)
Definition blobs_ok (d : DB) : Prop := map_Forall (fun k b => k = digest_of (bl_wasm b) /\ bl_size b = len (bl_wasm b)) (blobs d).
Definition artifacts_ok (d : DB) : Prop :=
  map_Forall (fun _ a => exists b, blobs d !! ar_digest a = Some b /\ bl_size b = ar_size a) (artifacts d).

Record catalog_ok (d : DB) : Prop := {
  ok_apps : apps_ok d; ok_keys : keys_ok d; ok_deployments : deployments_ok d; ok_active : active_ok d; ok_suspended : suspended_ok d;
  ok_blobs : blobs_ok d; ok_artifacts : artifacts_ok d }.

(** ** Statements of the identity tables *)

(** The catalogue depends on which authors there are and on whose the devices are. *)
Definition grows (d d' : DB) : Prop :=
  (forall i, is_Some (authors d !! i) -> is_Some (authors d' !! i)) /\
  (forall i u, author_of_device d i = Some u -> author_of_device d' i = Some u) /\ d_catalog d' = d_catalog d.
Lemma grows_ok d d' : grows d d' -> catalog_ok d -> catalog_ok d'.
Proof.
  intros (Ha & Hd & Hc) [[Hap1 Hap2] Hk Hdep Hact Hs Hb Har].
  assert (Ht : apps d' = apps d /\ blobs d' = blobs d /\ artifacts d' = artifacts d /\ access_keys d' = access_keys d /\
    deployments d' = deployments d /\ active d' = active d /\ suspended d' = suspended d)
    by (unfold apps, blobs, artifacts, access_keys, deployments, active, suspended; by rewrite Hc).
  destruct Ht as (E1 & E2 & E3 & E4 & E5 & E6 & E7).
  split; unfold apps_ok, keys_ok, deployments_ok, active_ok, suspended_ok, blobs_ok, artifacts_ok, author_of_app; rewrite ?E1, ?E2, ?E3, ?E4, ?E5, ?E6, ?E7; try done.
  - split; [|done]. intros i a Hi. apply Ha, (Hap1 i a Hi).
  - intros i k Hi. destruct (Hk _ _ Hi) as (u & ? & ?). eauto.
  - intros i k Hi. destruct (Hdep _ _ Hi) as (? & u & ? & ?). eauto.
Qed.
Lemma same_ok d d' : authors d' = authors d -> devices d' = devices d -> d_catalog d' = d_catalog d -> catalog_ok d -> catalog_ok d'.
Proof. intros Ha Hd Hc. apply grows_ok. unfold grows, author_of_device. by rewrite Ha, Hd. Qed.

(** A statement on none of those tables. *)
Ltac frame_catalog :=
  match goal with H : _ = inr ?d' |- catalog_ok ?d' =>
    unfold upsert_server, insert_tombstone, delete_tombstone, delete_expired_tombstones, insert_recovery,
      update_recovery, insert_token, update_token_failed, consume_tokens, insert_bootstrap,
      update_bootstrap_failed, consume_bootstrap, insert_quota, upsert_quota, insert_audit, delete_audit,
      upsert_config, upsert_value, upsert_secret, upsert_secret_value, delete_secret, insert_egress, delete_egress,
      insert_session, update_session, delete_sessions in H;
    stmt_inv; match goal with Hok : catalog_ok ?d |- _ => apply (same_ok d); [reflexivity|reflexivity|reflexivity|exact Hok] end
  end.

Lemma insert_author_catalog i w d d' : insert_author i w d = inr d' -> catalog_ok d -> catalog_ok d'.
Proof.
  unfold insert_author. intros Hi. stmt_inv. apply grows_ok. split; [|done]. intros k Hk. cbn. rewrite lookup_insert_is_Some'. by right.
Qed.
Lemma update_handle_catalog i h n d d' : update_handle i h n d = inr d' -> catalog_ok d -> catalog_ok d'.
Proof.
  unfold update_handle. intros Hi. stmt_inv. apply grows_ok. split; [|done]. intros k Hk. cbn. by rewrite lookup_update_where, fmap_is_Some.
Qed.
Lemma insert_device_catalog i w d d' : insert_device i w d = inr d' -> catalog_ok d -> catalog_ok d'.
Proof.
  unfold insert_device. intros Hi. stmt_inv. apply grows_ok. split; [done|]. split; [|done]. unfold author_of_device. intros k u Hk. cbn.
  rewrite lookup_insert_ne; [done|]. intros ->. destruct (devices d !! k) eqn:Hd; [done|]. by cbn in Hk.
Qed.
Lemma revoke_devices_catalog P n k b d d' : revoke_devices P n k b d = inr d' -> catalog_ok d -> catalog_ok d'.
Proof.
  unfold revoke_devices. intros Hi. stmt_inv. apply grows_ok. split; [done|]. split; [|done]. unfold author_of_device. intros i u. cbn.
  rewrite lookup_update_where. destruct (devices d !! i) as [x|]; [|done]. cbn. intros [= <-]. by destruct (_ && _).
Qed.

Lemma delete_author_catalog i d d' : delete_author i d = inr d' -> catalog_ok d -> catalog_ok d'.
Proof.
  unfold delete_author. intros Hi [[Hap1 Hap2] Hk Hdep Hact Hs Hb Har]. stmt_inv.
  set (apps' := delete_where _ (apps d)). set (devices' := delete_where _ (devices d)).
  assert (Hgone : forall a, negb (has apps' a) = false <-> exists x, apps d !! a = Some x /\ ap_author x <> i).
  { intros a. rewrite negb_false_iff, has_true. unfold apps'. split.
    - intros [x Hx]. apply lookup_delete_where in Hx as [Hx Hne%eqb_false]. eauto.
    - intros (x & Hx & Hne). exists x. apply lookup_delete_where. split; [done|]. by apply eqb_false. }
  assert (Hleft : forall app device u, author_of_app d app = Some u -> author_of_device d device = Some u -> negb (has apps' app) = false ->
    ap_author <$> apps' !! app = Some u /\ dv_author <$> devices' !! device = Some u).
  { unfold author_of_app, author_of_device. intros app device u Ha Hd (x & Hx & Hne)%Hgone. rewrite Hx in Ha. injection Ha as <-.
    destruct (devices d !! device) as [y|] eqn:Hy; [|done]. injection Hd as Hu. split.
    - assert (apps' !! app = Some x) as -> by (apply lookup_delete_where; split; [done|by apply eqb_false]). done.
    - assert (devices' !! device = Some y) as -> by (apply lookup_delete_where; split; [done|apply eqb_false; congruence]). cbn. by f_equal. }
  split.
  - split.
    + intros a x. cbn. unfold apps'. rewrite lookup_delete_where. intros [Hx Hne%eqb_false]. rewrite lookup_delete_ne by done. by apply (Hap1 a).
    + intros a b x y. cbn. unfold apps'. rewrite !lookup_delete_where. intros [? _] [? _]. by eapply Hap2.
  - intros k w. cbn. rewrite lookup_delete_where. intros [Hw Hg]. destruct (Hk _ _ Hw) as (u & Ha & Hd). exists u. by apply Hleft.
  - intros k w. cbn. rewrite lookup_delete_where. intros [Hw Hg]. destruct (Hdep _ _ Hw) as (? & u & Ha & Hd). split; [done|]. exists u.
    by apply Hleft.
  - intros app dep. cbn. rewrite lookup_delete_where. intros [Hd Hg]. destruct (Hact _ _ Hd) as (x & Hx & <-). exists x. split; [|done].
    by apply lookup_delete_where.
  - intros dep. cbn. rewrite elem_of_filter, has_true. tauto.
  - done.
  - done.
Qed.

(** ** Statements of the catalogue *)

(** Adding rows. *)
Lemma insert_app_catalog i w d d' : insert_app i w d = inr d' -> catalog_ok d ->
  catalog_ok d' /\ d' = set_apps (<[i := w]> (apps d)) d /\ apps d !! i = None.
Proof.
  unfold insert_app. intros Hi [[Hap1 Hap2] Hk Hdep Hact Hs Hb Har]. stmt_inv.
  match goal with H : exists_where _ _ = false |- _ => rewrite exists_where_false in H; rename H into Hn end.
  split; [|done]. assert (Hau : forall a u, author_of_app d a = Some u -> author_of_app (set_apps (<[i := w]> (apps d)) d) a = Some u).
  { unfold author_of_app. intros a u Ha. cbn. rewrite lookup_insert_ne; [done|]. intros ->. destruct (apps d !! a); [congruence|done]. }
  assert (Hfresh : forall j b, apps d !! j = Some b -> ap_author b = ap_author w -> ap_name b = ap_name w -> False).
  { intros j b Hj E1 E2. specialize (Hn _ _ Hj). cbn in Hn. by rewrite E1, E2, !eqb_refl in Hn. }
  split; try done.
  - split; [by apply map_Forall_insert_2|]. intros a b x y. cbn. rewrite !lookup_insert_Some.
    intros [[<- <-]|[? Hx]] [[<- <-]|[? Hy]] E1 E2; [done|exfalso; eapply Hfresh; by eauto|exfalso; eapply Hfresh; by eauto|by eapply Hap2].
  - intros k x Hx. destruct (Hk _ _ Hx) as (u & ? & ?). eauto.
  - intros k x Hx. destruct (Hdep _ _ Hx) as (? & u & ? & ?). eauto.
Qed.
Lemma update_app_catalog i kd ac n d d' : update_app i kd ac n d = inr d' -> catalog_ok d -> catalog_ok d'.
Proof.
  unfold update_app. intros Hi [[Hap1 Hap2] Hk Hdep Hact Hs Hb Har]. stmt_inv.
  match goal with |- catalog_ok ?x => set (d' := x) end.
  assert (Hrow : forall a x, apps d' !! a = Some x -> exists y, apps d !! a = Some y /\ ap_author x = ap_author y /\ ap_name x = ap_name y).
  { intros a x. cbn. rewrite lookup_update_where. destruct (apps d !! a) as [y|]; [|done]. cbn. intros [= <-]. exists y. by destruct (eqb a i). }
  assert (Hau : forall a, author_of_app d' a = author_of_app d a).
  { intros a. unfold author_of_app. cbn. rewrite lookup_update_where. destruct (apps d !! a) as [y|]; [|done]. cbn. by destruct (eqb a i). }
  split; try done.
  - split.
    + intros a x Hx. destruct (Hrow _ _ Hx) as (y & Hy & -> & _). by apply (Hap1 a y).
    + intros a b x y Hx Hy E1 E2. destruct (Hrow _ _ Hx) as (x0 & Hx0 & Ex & Nx), (Hrow _ _ Hy) as (y0 & Hy0 & Ey & Ny).
      eapply Hap2; [done..| |]; congruence.
  - intros k x Hx. destruct (Hk _ _ Hx) as (u & ? & ?). exists u. by rewrite Hau.
  - intros k x Hx. destruct (Hdep _ _ Hx) as (? & u & ? & ?). split; [done|]. exists u. by rewrite Hau.
Qed.

Lemma insert_key_catalog i w u d d' : author_of_app d (ak_app w) = Some u -> author_of_device d (ak_device w) = Some u ->
  insert_key i w d = inr d' -> catalog_ok d -> catalog_ok d'.
Proof.
  unfold insert_key. intros Ha Hd Hi [? Hk ? ? ? ? ?]. stmt_inv. split; try done. apply map_Forall_insert_2; [by eauto|done].
Qed.
Lemma delete_key_catalog i a d d' : delete_key i a d = inr d' -> catalog_ok d -> catalog_ok d'.
Proof.
  intros [= <-] [? Hk ? ? ? ? ?]. split; try done. intros k x. cbn. rewrite lookup_delete_where. intros [Hx _]. by apply (Hk k).
Qed.

Lemma insert_blob_catalog w wasm d d' : insert_blob (digest_of wasm) w d = inr d' -> bl_wasm w = wasm -> catalog_ok d -> catalog_ok d'.
Proof.
  unfold insert_blob. intros Hi Hw [? ? ? ? ? Hb Har]. stmt_inv. split; try done.
  - apply map_Forall_insert_2; [|done]. rewrite Hw. split; [done|]. subst. lia.
  - intros k a Ha. destruct (Har _ _ Ha) as (b & Hbl & Hsz). exists b. split; [|done]. cbn. rewrite lookup_insert_ne; [done|]. intros E. congruence.
Qed.
Lemma insert_artifact_catalog i w d d' : is_Some (blobs d !! ar_digest w) -> insert_artifact i w d = inr d' -> catalog_ok d ->
  catalog_ok d' /\ d' = set_artifacts (<[i := w]> (artifacts d)) d /\ artifacts d !! i = None.
Proof.
  unfold insert_artifact. intros [b Hbl] Hi [? ? Hdep ? ? Hb Har]. rewrite Hbl in Hi. stmt_inv. split; [|done]. split; try done.
  - intros k x Hx. destruct (Hdep _ _ Hx) as (Hd & ?). split; [|done]. cbn. rewrite lookup_insert_is_Some'. by right.
  - apply map_Forall_insert_2; [|done]. exists b. split; [done|lia].
Qed.
Lemma insert_build_catalog a k v d d' : insert_build a k v d = inr d' -> catalog_ok d -> catalog_ok d'.
Proof. unfold insert_build. intros Hi [? ? ? ? ? ? ?]. stmt_inv. by split. Qed.

Lemma insert_deployment_catalog i w u d d' : author_of_app d (dp_app w) = Some u -> author_of_device d (dp_device w) = Some u ->
  insert_deployment i w d = inr d' -> catalog_ok d -> catalog_ok d' /\ d' = set_deployments (<[i := w]> (deployments d)) d /\ deployments d !! i = None.
Proof.
  unfold insert_deployment. intros Ha Hd Hi [? ? Hdep Hact Hs ? ?]. stmt_inv. split; [|done]. split; try done.
  - apply map_Forall_insert_2; [by eauto|done].
  - intros app dep Hx. destruct (Hact _ _ Hx) as (x & Hdx & ?). exists x. split; [|done]. cbn. rewrite lookup_insert_ne; [done|]. intros ->. congruence.
  - intros dep Hx. cbn. rewrite lookup_insert_is_Some'. right. by apply Hs.
Qed.
Lemma upsert_active_catalog app dep d d' : upsert_active app dep d = inr d' -> catalog_ok d -> catalog_ok d'.
Proof.
  unfold upsert_active. intros Hi [? ? ? Hact ? ? ?]. stmt_inv. split; try done. intros a x. cbn. rewrite lookup_insert_Some.
  intros [[<- <-]|[_ Hx]]; [|by apply Hact]. destruct (deployments d !! dep) as [y|] eqn:Hy; [|done]. exists y. split; [exact Hy|]. by apply eqb_true.
Qed.
Lemma insert_suspended_catalog dep d d' : insert_suspended dep d = inr d' -> catalog_ok d -> catalog_ok d'.
Proof.
  unfold insert_suspended. intros Hi [? ? ? ? Hs ? ?]. stmt_inv. split; try done. intros x. cbn. rewrite elem_of_union, elem_of_singleton.
  intros [->|Hx]; [done|by apply Hs].
Qed.
Lemma delete_suspended_catalog dep d d' : delete_suspended dep d = inr d' -> catalog_ok d -> catalog_ok d'.
Proof. intros [= <-] [? ? ? ? Hs ? ?]. split; try done. intros x. cbn. rewrite elem_of_difference. intros [Hx _]. by apply Hs. Qed.

(** Removing rows. *)
Lemma delete_deployment_catalog i d d' : delete_deployment i d = inr d' -> catalog_ok d -> catalog_ok d'.
Proof.
  unfold delete_deployment. intros Hi [? ? Hdep Hact Hs ? ?]. stmt_inv.
  match goal with H : _ || _ = true |- _ => rename H into Hu end.
  split; try done.
  - apply map_Forall_delete. exact Hdep.
  - intros app dep Hx. destruct (Hact _ _ Hx) as (x & Hdx & ?). exists x. split; [|done]. cbn. rewrite lookup_delete_ne; [done|]. intros ->.
    apply orb_true_iff in Hu as [Hu%negb_true_iff|Hu%negb_true_iff].
    + rewrite exists_where_false in Hu. specialize (Hu _ _ Hx). by rewrite eqb_refl in Hu.
    + rewrite has_false in Hu. congruence.
  - intros dep. cbn. rewrite elem_of_difference, not_elem_of_singleton. intros [Hx Hne]. rewrite lookup_delete_ne by done. by apply Hs.
Qed.
Lemma artifact_used_true i d : artifact_used i d = true <-> exists k x, deployments d !! k = Some x /\ dp_artifact x = i.
Proof. unfold artifact_used. rewrite exists_where_true. split; intros (k & x & ? & E); exists k, x; (split; [done|]); by apply eqb_true. Qed.
Lemma blob_used_true g d : blob_used g d = true <-> exists k a, artifacts d !! k = Some a /\ ar_digest a = g.
Proof. unfold blob_used. rewrite exists_where_true. split; intros (k & x & ? & E); exists k, x; (split; [done|]); by apply eqb_true. Qed.
Lemma delete_artifacts_catalog P d d' : delete_artifacts P d = inr d' -> catalog_ok d -> catalog_ok d'.
Proof.
  unfold delete_artifacts. intros [= <-] [? ? Hdep ? ? ? Har]. split; try done.
  - intros k x Hx. destruct (Hdep _ _ Hx) as ([a Ha] & Hu). split; [|done]. cbn. exists a. apply lookup_delete_where. split; [done|].
    rewrite (proj2 (artifact_used_true _ _)); [apply andb_false_r|]. eauto.
  - intros k a. cbn. rewrite lookup_delete_where. intros [Ha _]. by apply (Har k).
Qed.
Lemma delete_blobs_catalog P d d' : delete_blobs P d = inr d' -> catalog_ok d -> catalog_ok d'.
Proof.
  unfold delete_blobs. intros [= <-] [? ? ? ? ? Hb Har]. split; try done.
  - intros k b. cbn. rewrite lookup_delete_where. intros [Hx _]. by apply (Hb k).
  - intros k a Ha. destruct (Har _ _ Ha) as (b & Hbl & Hsz). exists b. split; [|done]. cbn. apply lookup_delete_where. split; [done|].
    rewrite (proj2 (blob_used_true _ _)); [apply andb_false_r|]. eauto.
Qed.
#[local] Hint Resolve insert_author_catalog update_handle_catalog insert_device_catalog revoke_devices_catalog delete_author_catalog
  update_app_catalog delete_key_catalog insert_build_catalog upsert_active_catalog insert_suspended_catalog delete_suspended_catalog
  delete_deployment_catalog delete_artifacts_catalog delete_blobs_catalog : keeps.
#[local] Hint Extern 3 (catalog_ok _) => frame_catalog : keeps.

(** ** Transactions of the identity operations *)

Section Transactions.
Context `{Platform}.

Lemma insert_app_ok i w d d' : insert_app i w d = inr d' -> catalog_ok d -> catalog_ok d'.
Proof. intros Hi Hok. by destruct (insert_app_catalog _ _ _ _ Hi Hok). Qed.
#[local] Hint Resolve insert_app_ok : keeps.

Lemma audit_catalog i n : keeps catalog_ok (audit i n).
Proof. unfold audit. keeps_tac. Qed.
Lemma ensure_catalog h n : keeps catalog_ok (ensureHandleAvailable h n).
Proof. unfold ensureHandleAvailable. keeps_tac. Qed.
Lemma quota_input_catalog a b q : keeps catalog_ok (insert_quota_input a b q).
Proof. unfold insert_quota_input. keeps_tac. Qed.
Lemma require_keeps_any (P : DB -> Prop) f : keeps P (require f).
Proof. unfold require. keeps_tac. Qed.
Lemma check_recovery_catalog a v : keeps catalog_ok (check_recovery a v).
Proof. unfold check_recovery. keeps_tac. Qed.
Lemma check_quota_keeps (P : DB -> Prop) f g : keeps P (check_quota f g).
Proof. unfold check_quota. keeps_tac. Qed.
#[local] Hint Resolve audit_catalog ensure_catalog quota_input_catalog require_keeps_any check_recovery_catalog check_quota_keeps : keeps.
Lemma revoke_guarded_catalog a t k b n i m : keeps catalog_ok (revoke_guarded a t k b n i m).
Proof. unfold revoke_guarded. keeps_tac. Qed.
#[local] Hint Resolve revoke_guarded_catalog : keeps.

Lemma identity_effect_catalog o n m : keeps catalog_ok (effect o n m).
Proof.
  destruct o; cbn [effect]; unfold always, answering; (apply keeps_bind; [|intros; apply keeps_ret]);
    unfold RegisterAuthor_tx, CompleteBootstrapRegistration_tx, RenameAuthor_tx, RetireAuthor_tx, RevokeDevice_tx,
      RevokeDeviceAuthorized_tx, RevokeDeviceWithRecovery_tx, CreateEnrollmentToken_tx, VerifyEnrollmentToken_tx, CompleteDeviceEnrollment_tx,
      CompleteRecovery_tx, RotateRecovery_tx, SetQuota_tx, PruneAudit_tx; keeps_tac;
    apply keeps_statement; intros d0 a d1.
  - destruct (revoke_devices _ _ _ _ d0) as [e|d2] eqn:Hd; [done|]. intros [= _ <-]. by eapply revoke_devices_catalog.
  - destruct (delete_audit _ d0) as [e|d2] eqn:Hd; [done|]. intros [= _ <-] Hok. frame_catalog.
Qed.

(** ** Transactions of the catalogue *)

Ltac as_keeps := cbv beta; match goal with |- triple ?P ?c _ => change (keeps P c) end.

Lemma app_device_spec app dev d :
  app_device app dev d <> 0 <-> exists a x, apps d !! app = Some a /\ devices d !! dev = Some x /\ dv_author x = ap_author a /\ device_active x = true.
Proof.
  unfold app_device. destruct (apps d !! app) as [a|] eqn:Ha.
  - rewrite active_device_spec. split; [intros (x & ? & ? & ?); by exists a, x|]. intros (a' & x & [= <-] & ? & ? & ?). by exists x.
  - split; [done|]. by intros (? & ? & ? & _).
Qed.
Lemma app_device_author app dev d : app_device app dev d <> 0 -> exists u, author_of_app d app = Some u /\ author_of_device d dev = Some u.
Proof.
  intros (a & x & Ha & Hx & Hu & _)%app_device_spec. exists (ap_author a). unfold author_of_app, author_of_device. rewrite Ha, Hx. cbn. by rewrite Hu.
Qed.

Lemma CreateApp_keeps i ns n : keeps catalog_ok (CreateApp_tx i ns n).
Proof. unfold CreateApp_tx. keeps_tac. Qed.
Lemma AddAccessKey_keeps i ns n : keeps catalog_ok (AddAccessKey_tx i ns n).
Proof.
  unfold AddAccessKey_tx. eapply triple_bind; [apply require_any|]. intros [].
  eapply (triple_bind _ _ _ (fun _ => catalog_ok)); [|intros []; as_keeps; keeps_tac].
  apply triple_exec. intros d d' [Hok (u & Ha & Hd)%app_device_author] Hi. exact (insert_key_catalog _ (mkKey _ _ _ _ _ _) u _ _ Ha Hd Hi Hok).
Qed.
Lemma RemoveAccessKey_keeps a b k c n : keeps catalog_ok (RemoveAccessKey_tx a b k c n).
Proof. unfold RemoveAccessKey_tx. keeps_tac. Qed.

(** An artifact that [validateArtifact] has accepted. *)
Definition artifact_valid (m : ArtifactMetadata) (i : ArtifactInput) : Prop :=
  ar_digest (am_row m) = digest_of (ai_WASM i) /\ ar_size (am_row m) = len (ai_WASM i).
Lemma validateArtifact_ok i t m : validateArtifact i t = inr m -> artifact_valid m i.
Proof.
  unfold validateArtifact. destruct (_ || _); [done|]. destruct (negb _ || _ || _) eqn:Hb; [done|]. intros [= <-].
  rewrite !orb_false_iff, negb_false_iff, eqb_true in Hb. destruct Hb as [[? _] _]. done.
Qed.

(** What storing an artifact changes. *)
Record stored (m : ArtifactMetadata) (i : ArtifactInput) (d0 d : DB) : Prop := {
  st_identity : d_identity d = d_identity d0; st_settings : d_settings d = d_settings d0; st_apps : apps d = apps d0;
  st_keys : access_keys d = access_keys d0; st_deployments : deployments d = deployments d0; st_active : active d = active d0;
  st_suspended : suspended d = suspended d0;
  st_artifacts : artifacts d = <[am_ID m := am_row m]> (artifacts d0);
  st_fresh : artifacts d0 !! am_ID m = None;
  st_blob : exists b, blobs d !! ar_digest (am_row m) = Some b /\ bl_wasm b = ai_WASM i;
  st_blobs : forall k b, blobs d0 !! k = Some b -> blobs d !! k = Some b }.

Lemma insert_metadata_triple (P : DB -> Prop) a l :
  (forall d m, P d -> P (set_build m d)) -> keeps P (insert_metadata a l).
Proof.
  intros HP. induction l as [|[k v] l IH]; cbn; [apply keeps_ret|]. case_match; [apply keeps_err|]. apply keeps_bind; [|done].
  apply keeps_exec. unfold insert_build. intros d d' Hi Hd. stmt_inv. by apply HP.
Qed.
Lemma store_triple m i d0 :
  artifact_valid m i -> catalog_ok d0 -> triple (fun d => d = d0) (store_artifact m i) (fun _ d => catalog_ok d /\ stored m i d0 d).
Proof.
  intros [Hdig Hsz] Hok. unfold store_artifact. cbv zeta. eapply triple_bind; [apply triple_query|]. intros b. cbv beta.
  set (mid := fun d => catalog_ok d /\ (exists x, blobs d !! ar_digest (am_row m) = Some x /\ bl_wasm x = ai_WASM i) /\
    (forall k x, blobs d0 !! k = Some x -> blobs d !! k = Some x) /\ exists mm, d = set_blobs mm d0).
  eapply (triple_bind _ _ _ (fun _ => mid)).
  { destruct b as [b|].
    - case_match eqn:Hc; [apply triple_err|]. apply triple_ret. apply orb_false_iff in Hc as [_ Hw%negb_false_iff%eqb_true].
      intros d [-> Hb]. split; [done|]. split; [by exists b|]. split; [done|]. exists (blobs d0). by destruct d0 as [? [] ? ? ?].
    - apply triple_exec. intros d d' [-> Hb] Hi. rewrite Hdig in Hi. assert (Hok' : catalog_ok d') by (by eapply insert_blob_catalog).
      unfold insert_blob in Hi. stmt_inv. split; [done|]. split; [|split; [|by eexists]].
      + eexists. cbn. rewrite Hdig, lookup_insert_eq. done.
      + intros k x Hx. cbn. rewrite lookup_insert_ne; [done|]. intros <-. congruence. }
  intros []. eapply (triple_bind _ _ _ (fun _ d => catalog_ok d /\ stored m i d0 d)).
  - apply triple_exec. intros d d' (Hokd & (x & Hx & Hw) & Hbl & mm & Hd) Hi.
    destruct (insert_artifact_catalog (am_ID m) (am_row m) d d' ltac:(by eauto) Hi Hokd) as (Hok' & -> & Hf). split; [done|]. subst d.
    split; try done. by exists x.
  - intros []. apply (insert_metadata_triple (fun d => catalog_ok d /\ stored m i d0 d)).
    intros d mm [[? ? ? ? ? ? ?] [? ? ? ? ? ? ? ? ? ? ?]]. by split; split.
Qed.
Lemma store_keeps m i : artifact_valid m i -> keeps catalog_ok (store_artifact m i).
Proof.
  intros Hv d fs Hok. pose proof (store_triple m i d Hv Hok d fs eq_refl) as Ht. destruct (store_artifact m i d fs) as [[e|[[] d']] fs']; [done|].
  by destruct Ht.
Qed.
Lemma PutArtifact_keeps m i n : artifact_valid m i -> keeps catalog_ok (PutArtifact_tx m i n).
Proof. intros Hv. unfold PutArtifact_tx. apply keeps_bind; [by apply store_keeps|]. intros []. keeps_tac. Qed.

Lemma CreateDeployment_keeps i ns : keeps catalog_ok (CreateDeployment_tx i ns).
Proof.
  unfold CreateDeployment_tx. eapply triple_bind; [apply require_any|]. intros []. eapply triple_bind; [apply check_quota_keeps|]. intros [].
  apply triple_exec. unfold deployable. intros d d' [Hok Hd] Hi. destruct (has (artifacts d) (di_ArtifactID i)); [|done].
  destruct (app_device_author _ _ _ Hd) as (u & Ha & Hu). exact (proj1 (insert_deployment_catalog _ (mkDeployment _ _ _ _) u _ _ Ha Hu Hi Hok)).
Qed.
Lemma ActivateDeployment_keeps a x : keeps catalog_ok (ActivateDeployment_tx a x).
Proof. unfold ActivateDeployment_tx. keeps_tac. Qed.
Lemma SetDeploymentSuspended_keeps x b : keeps catalog_ok (SetDeploymentSuspended_tx x b).
Proof. unfold SetDeploymentSuspended_tx. destruct b; keeps_tac. Qed.

Lemma collect_old_keeps x : keeps catalog_ok (collect_old x).
Proof. unfold collect_old. keeps_tac. Qed.

(** The application a deployment is for, with its author. *)
Definition ready (i : ApplicationDeploymentInput) (app : App) (d : DB) : Prop :=
  author_of_device d (ad_DeviceID i) = Some (ad_AuthorID i) /\ author_of_app d (app_ID app) = Some (ad_AuthorID i).
Lemma deploy_app_triple i w :
  triple (fun d => catalog_ok d /\ active_device (ad_DeviceID i) (ad_AuthorID i) d <> 0) (deploy_app i w) (fun app d => catalog_ok d /\ ready i app d).
Proof.
  assert (Hdev : forall d, active_device (ad_DeviceID i) (ad_AuthorID i) d <> 0 -> author_of_device d (ad_DeviceID i) = Some (ad_AuthorID i)).
  { intros d (x & Hx & Hu & _)%active_device_spec. unfold author_of_device. rewrite Hx. cbn. by rewrite Hu. }
  unfold deploy_app. case_match; (eapply triple_bind; [apply triple_query|]); intros o; cbv beta zeta.
  - destruct o as [app|]; [|apply triple_err]. case_match eqn:Hc; [apply triple_err|]. apply triple_ret. intros d [[Hok Hd] Ho].
    apply orb_false_iff in Hc as [Ha%negb_false_iff%eqb_true _]. split; [done|]. split; [by apply Hdev|].
    unfold app_of_deployment in Ho. destruct (deployments d !! _) as [x|]; [|done]. unfold author_of_app.
    destruct (apps d !! dp_app x) as [a|] eqn:Hx; [|done]. injection Ho as ->. cbn in *. rewrite Hx. cbn. by rewrite Ha.
  - destruct o as [app|].
    + apply triple_ret. intros d [[Hok Hd] Ho]. split; [done|]. split; [by apply Hdev|]. unfold select_app in Ho.
      destruct (select_where _ (apps d)) as [[k a]|] eqn:Hs; [|done]. injection Ho as ->. apply select_where_Some in Hs as [Hk Hp].
      apply andb_true_iff in Hp as [Hu%eqb_true _]. unfold author_of_app. cbn. rewrite Hk. cbn. by rewrite Hu.
    + eapply (triple_bind _ _ _ (fun _ d => catalog_ok d /\ author_of_device d (ad_DeviceID i) = Some (ad_AuthorID i) /\
        author_of_app d (str "app_" ++ dr_app w) = Some (ad_AuthorID i))).
      * apply triple_exec. intros d d' [[Hok Hd] _] Hi. destruct (insert_app_catalog _ _ _ _ Hi Hok) as (Hok' & -> & _). split; [done|].
        split; [by apply Hdev|]. unfold author_of_app. cbn. by rewrite lookup_insert_eq.
      * intros []. by apply triple_ret.
Qed.
Lemma reconcile_triple i w app :
  triple (fun d => catalog_ok d /\ ready i app d) (reconcile_app i w app) (fun app' d => catalog_ok d /\ ready i app' d /\ app_ID app' = app_ID app).
Proof.
  unfold reconcile_app. cbv zeta. case_match; [|apply triple_ret; by intros d [? ?]].
  eapply (triple_bind _ _ _ (fun _ d => catalog_ok d /\ ready i app d)); [|intros []; apply triple_ret; by intros d [? ?]].
  apply triple_exec. intros d d' [Hok [Hd Ha]] Hi. split; [by eapply update_app_catalog|]. unfold update_app in Hi. stmt_inv. split; [done|].
  revert Ha. unfold author_of_app. cbn. rewrite lookup_update_where. destruct (apps d !! app_ID app) as [a|]; [|done]. cbn. rewrite eqb_refl. cbn. done.
Qed.

Lemma DeployApplication_keeps i m w : artifact_valid m (ad_Artifact i) -> keeps catalog_ok (DeployApplication_tx i m w).
Proof.
  intros Hv. unfold DeployApplication_tx. eapply triple_bind; [apply require_any|]. intros [].
  eapply triple_bind; [apply deploy_app_triple|]. intros app0. eapply triple_bind; [apply reconcile_triple|]. intros app. cbv beta.
  eapply (triple_bind _ _ _ (fun _ d => catalog_ok d /\ ready i app d)).
  { eapply triple_conseq; [apply triple_query|exact (fun d H => conj (proj1 H) (proj1 (proj2 H)))|]. by intros o d [? _]. }
  intros old. eapply (triple_bind _ _ _ (fun _ d => catalog_ok d /\ ready i app d)).
  { intros d fs [Hok Hr]. pose proof (store_triple m (ad_Artifact i) d Hv Hok d fs eq_refl) as Ht.
    destruct (store_artifact m (ad_Artifact i) d fs) as [[e|[[] d']] fs']; [done|]. cbn in *. destruct Ht as [? Hst]. split; [done|].
    destruct Hr as [Hd Ha]. split; [unfold author_of_device, devices in *; by rewrite (st_identity _ _ _ _ Hst)|].
    unfold author_of_app in *. by rewrite (st_apps _ _ _ _ Hst). }
  intros []. cbv zeta. eapply (triple_bind _ _ _ (fun _ => catalog_ok)).
  { apply triple_exec. intros d d' [Hok [Hd Ha]] Hi. exact (proj1 (insert_deployment_catalog _ (mkDeployment _ _ _ _) _ _ _ Ha Hd Hi Hok)). }
  intros []. pose proof collect_old_keeps. as_keeps. keeps_tac.
Qed.

Lemma SetCapabilityConfig_keeps a c k v : keeps catalog_ok (SetCapabilityConfig_tx a c k v).
Proof. unfold SetCapabilityConfig_tx, appExists. keeps_tac. Qed.
Lemma SetCapabilityValue_keeps a c k v n : keeps catalog_ok (SetCapabilityValue_tx a c k v n).
Proof. unfold SetCapabilityValue_tx, appExists. keeps_tac. Qed.
Lemma SetSecret_keeps a k v n : keeps catalog_ok (SetSecret_tx a k v n).
Proof. unfold SetSecret_tx, appExists. keeps_tac. Qed.
Lemma SetEgressHost_keeps a h b : keeps catalog_ok (SetEgressHost_tx a h b).
Proof. unfold SetEgressHost_tx, appExists. destruct b; keeps_tac. Qed.
Lemma StartSession_keeps s n : keeps catalog_ok (StartSession_tx s n).
Proof. unfold StartSession_tx. keeps_tac. Qed.
(** Statements that also answer a number of rows. *)
Lemma counting_keeps {A} (f : DB -> error + DB) (g : DB -> DB -> A) :
  (forall d d', f d = inr d' -> catalog_ok d -> catalog_ok d') ->
  keeps catalog_ok (statement (fun d => match f d with inl e => inl e | inr d' => inr (g d d', d') end)).
Proof. intros Hf. apply keeps_statement. intros d a d' Hi. destruct (f d) as [e|d1] eqn:Hd; [done|]. injection Hi as _ <-. by eapply Hf. Qed.
Lemma SetSecretDelete_keeps a k : keeps catalog_ok (SetSecretDelete_tx a k).
Proof. unfold SetSecretDelete_tx. keeps_tac. apply (counting_keeps _ (fun d _ => _)). intros d d' Hi Hok. frame_catalog. Qed.
Lemma update_open_keeps i f : keeps catalog_ok (update_open i f).
Proof. unfold update_open. keeps_tac. apply (counting_keeps _ (fun d _ => _)). intros d d' Hi Hok. frame_catalog. Qed.
Lemma EndSession_keeps i n : keeps catalog_ok (EndSession_tx i n).
Proof. unfold EndSession_tx. pose proof update_open_keeps. keeps_tac. Qed.
Lemma run_sweeps_keeps c order g : keeps catalog_ok (run_sweeps c order g).
Proof.
  revert g. induction order as [|s order IH]; intros g; cbn; [apply keeps_ret|]. apply keeps_bind; [|intros n; apply IH].
  apply counting_keeps. intros d d' Hi Hok. destruct s; cbn in Hi; [frame_catalog|frame_catalog|by eapply delete_artifacts_catalog|by eapply delete_blobs_catalog].
Qed.
Lemma GarbageCollect_keeps c order n : keeps catalog_ok (GarbageCollect_tx c order n).
Proof. unfold GarbageCollect_tx. pose proof run_sweeps_keeps. keeps_tac. Qed.
End Transactions.
End cataloglaws.
