(* ===== verification/SqlCatalog.v ===== *)
(** * The calls of the catalogue

    Every call that writes, of both groups of the repository: each is atomic, and together
    they keep the identity tables and the catalogue consistent. *)

From S2P Require Import Prelude Utf8 GoStrings Keys Sha256 Streams SqlRepo SqlKV SqlDB SqlIdentity SqlIdentityLaws SqlApps SqlAppsLaws.
Import sqlite db identity identitylaws catalog cataloglaws.

Module catalogcalls.
Open Scope tx_scope.

Section Calls.
Context `{Platform}.

(** The calls that write. Build metadata, the random identifiers and the order of the
    sweeps are arguments. *)
Inductive app_call :=
| CCreateApp (i : AppInput)
| CAddAccessKey (i : AccessKeyInput)
| CRemoveAccessKey (author app key actor : bytes)
| CPutArtifact (i : ArtifactInput) (created : Time)
| CCreateDeployment (i : DeploymentInput)
| CActivateDeployment (app deployment : bytes)
| CSetDeploymentSuspended (deployment : bytes) (suspend : bool)
| CDeployApplication (i : ApplicationDeploymentInput) (created : Time) (app_rand deployment_rand : bytes)
| CSetCapabilityConfig (app capability key value : bytes)
| CSetCapabilityValue (app capability key value : bytes)
| CSetSecret (app key value : bytes)
| CSetSecretDelete (app key : bytes)
| CSetEgressHost (app host : bytes) (allow : bool)
| CStartSession (s : Session)
| CRecordSessionLog (id log : bytes) (truncated : bool)
| CEndSession (id : bytes)
| CGarbageCollect (before : Time) (order : list sweep).

Definition run_app_call (o : app_call) (r : Repo) : Repo * (error + unit) :=
  match o with
  | CCreateApp i => forget (CreateApp r i)
  | CAddAccessKey i => forget (AddAccessKey r i)
  | CRemoveAccessKey a b k c => forget (RemoveAccessKey r a b k c)
  | CPutArtifact i t => forget (PutArtifact r i t)
  | CCreateDeployment i => forget (CreateDeployment r i)
  | CActivateDeployment a x => forget (ActivateDeployment r a x)
  | CSetDeploymentSuspended x b => forget (SetDeploymentSuspended r x b)
  | CDeployApplication i t a x => forget (DeployApplication r i t a x)
  | CSetCapabilityConfig a c k v => forget (SetCapabilityConfig r a c k v)
  | CSetCapabilityValue a c k v => forget (SetCapabilityValue r a c k v)
  | CSetSecret a k v => forget (SetSecret r a k v)
  | CSetSecretDelete a k => forget (SetSecretDelete r a k)
  | CSetEgressHost a h b => forget (SetEgressHost r a h b)
  | CStartSession s => forget (StartSession r s)
  | CRecordSessionLog i l b => forget (RecordSessionLog r i l b)
  | CEndSession i => forget (EndSession r i)
  | CGarbageCollect t order => forget (GarbageCollect r t order)
  end.

(** ** Regularity *)

Lemma check_quota_regular f g : regular (check_quota f g).
Proof. unfold check_quota, QueryRow. regular_tac. Qed.
Lemma insert_metadata_regular a l : regular (insert_metadata a l).
Proof.
  induction l as [|[k v] l IH]; cbn; [apply regular_ret|]. destruct (_ || _); [apply regular_err|]. apply regular_bind; [|intros []; exact IH].
  apply regular_statement.
Qed.
#[local] Hint Resolve check_quota_regular insert_metadata_regular audit_regular require_regular : tx.
Lemma store_artifact_regular m i : regular (store_artifact m i).
Proof. unfold store_artifact, QueryRow, Exec. regular_tac. Qed.
(** The replaced deployment is collected as when nothing fails, or kept when its row cannot
    be read. *)
Definition keep_old (old : bytes) : TxDB unit := tx_ret tt.
Lemma collect_old_regular x : regular_or (collect_old x) (keep_old x).
Proof.
  intros d. unfold collect_old. apply regular_or_query. destruct (negb _); [apply regular_regular_or, regular_ret|]. apply regular_or_hook.
  refine (regular_or_try d _ (fun artifact => _) _). intros [a|]; unfold QueryRow, Exec; regular_tac.
Qed.
Lemma deploy_app_regular i w : regular (deploy_app i w).
Proof. unfold deploy_app, QueryRow, Exec. regular_tac. Qed.
Lemma reconcile_app_regular i w a : regular (reconcile_app i w a).
Proof. unfold reconcile_app, Exec. regular_tac. Qed.
Lemma update_open_regular i f : regular (update_open i f).
Proof. unfold update_open. regular_tac. Qed.
Lemma run_sweeps_regular c order g : regular (run_sweeps c order g).
Proof.
  revert g. induction order as [|s order IH]; intros g; cbn; [apply regular_ret|]. apply regular_bind; [apply regular_statement|intros n; apply IH].
Qed.
#[local] Hint Resolve store_artifact_regular deploy_app_regular reconcile_app_regular update_open_regular run_sweeps_regular : tx.
Lemma deploy_regular i m w : regular_or (DeployApplication_tx i m w) (deploy_with keep_old i m w).
Proof.
  unfold DeployApplication_tx, deploy_with.
  repeat (apply regular_or_bind; left; split; [unfold QueryRow, Exec; solve [regular_tac]|]; split; [done|]; intros ?; cbv zeta).
  apply regular_or_bind. right. split; [|split; [done|intros []; regular_tac]].
  match goal with |- regular_or (match ?o with _ => _ end) _ => destruct o as [old|]; [|apply regular_regular_or, regular_ret] end.
  destruct (_ && _); [apply collect_old_regular|apply regular_regular_or, regular_ret].
Qed.
Ltac app_regular :=
  unfold CreateApp_tx, AddAccessKey_tx, RemoveAccessKey_tx, PutArtifact_tx, CreateDeployment_tx, ActivateDeployment_tx, SetDeploymentSuspended_tx,
    SetCapabilityConfig_tx, SetCapabilityValue_tx, SetSecret_tx, SetSecretDelete_tx, SetEgressHost_tx, StartSession_tx,
    EndSession_tx, GarbageCollect_tx, appExists, QueryRow, Exec; regular_tac.

(** The effect a call may have instead of its own: a deployment may leave what it replaced. *)
Definition run_app_call_or (o : app_call) (r : Repo) : Repo * (error + unit) :=
  match o with
  | CDeployApplication i t a x => forget (deploy_call (deploy_with keep_old) r i t a x)
  | _ => run_app_call o r
  end.
Lemma atomic_or_guarded {A} cs (F G : Repo -> Repo * (error + A)) : atomic_or F G -> atomic_or (fun r => guarded r cs (F r)) (fun r => guarded r cs (G r)).
Proof. intros HF. unfold guarded. destruct (head _); [apply atomic_or_error|done]. Qed.
Lemma atomic_or_forget {A} (F G : Repo -> Repo * (error + A)) : atomic_or F G -> atomic_or (fun r => forget (F r)) (fun r => forget (G r)).
Proof.
  intros HF r. specialize (HF r). unfold forget. destruct (F r) as [r1 res1], (F (calm r)) as [r2 res2], (G (calm r)) as [r3 res3]. cbn in *.
  destruct HF as [[[e ->] Hd]|[[Hd [->| ->]]|[Hd [->| ->]]]]; [left; by split; [eexists|]|..]; right; [left|left|right|right]; (split; [done|]); auto.
Qed.
Lemma deploy_atomic i t a x : atomic_or (fun r => DeployApplication r i t a x) (fun r => deploy_call (deploy_with keep_old) r i t a x).
Proof.
  unfold DeployApplication, deploy_call. apply atomic_or_guarded. destruct (validateArtifact _ _) as [e|m]; [apply atomic_or_error|].
  do 4 (refine (atomic_or_now (fun r n => _) (fun r n => _) _); intros ?). apply atomic_or_mutate, deploy_regular.
Qed.

(** Catalogue calls are atomic: whatever statement, transaction, commit or listener
    fails, every call that writes applications, artifacts, deployments, configuration,
    secrets or sessions changes nothing and reports an error, or leaves the database exactly
    as it does when nothing fails; so does the replacement of a deployment with all its
    steps, but for the collection of what it replaced, and a collection of garbage. *)
Theorem catalog_atomic o : atomic_or (run_app_call o) (run_app_call_or o).
Proof.
  destruct o; cbn [run_app_call run_app_call_or]; try (apply atomic_or_forget, deploy_atomic); apply atomic_atomic_or, atomic_forget;
    unfold CreateApp, AddAccessKey, RemoveAccessKey, PutArtifact, CreateDeployment, ActivateDeployment, SetDeploymentSuspended,
      SetCapabilityConfig, SetCapabilityValue, SetSecret, SetSecretDelete, SetEgressHost, StartSession, RecordSessionLog, EndSession, GarbageCollect;
    try (destruct (validateArtifact _ _) as [e|m]); cbv zeta;
    repeat first [ apply atomic_guarded | apply atomic_given; intros ? | apply atomic_now; intros ? | apply atomic_error
                 | apply atomic_mutate_id; app_regular
                 | refine (atomic_mutate _ _ (fun a => _) _); app_regular ].
Qed.

(** ** Invariants *)

(** A call keeps a property of the database. *)
Definition op_keeps {A} (I : DB -> Prop) (F : Repo -> Repo * (error + A)) : Prop := forall r, I (r_db r) -> I (r_db (F r).1).

Section Keeps.
Context (I : DB -> Prop).
Lemma op_error {A} e : op_keeps (A:=A) I (fun r => (r, inl e)).
Proof. by intros r. Qed.
Lemma op_guarded {A} cs (F : Repo -> Repo * (error + A)) : op_keeps I F -> op_keeps I (fun r => guarded r cs (F r)).
Proof. intros HF. unfold guarded. destruct (head _); [apply op_error|done]. Qed.
Lemma op_now {A} (F : Repo -> Time -> Repo * (error + A)) :
  (forall n, op_keeps I (fun r => F r n)) -> op_keeps I (fun r => let '(r, n) := now r in F r n).
Proof. intros HF r Hr. pose proof (now_spec (0 :: r_clock r) r (within_own r)) as (E & _ & _). destruct (now r) as [r1 n]. apply HF. cbn in E. by rewrite E. Qed.
Lemma op_given {A} t (F : Repo -> Z -> Repo * (error + A)) :
  (forall n, op_keeps I (fun r => F r n)) ->
  op_keeps I (fun r => let '(r, ns) := if UnixNano t =? 0 then let '(r, t) := now r in (r, UnixNano t) else (r, UnixNano t) in F r ns).
Proof.
  intros HF. destruct (UnixNano t =? 0); [|apply HF]. intros r Hr. pose proof (now_spec (0 :: r_clock r) r (within_own r)) as (E & _ & _).
  destruct (now r) as [r1 n]. apply HF. cbn in E. by rewrite E.
Qed.
Lemma op_mutate {A B} ev (c : TxDB A) (g : A -> error + B) :
  keeps I c -> op_keeps I (fun r => let '(r, res) := mutate r ev c in (r, match res with inl e => inl e | inr a => g a end)).
Proof. intros Hc r Hr. destruct (mutate r ev c) as [r' res] eqn:Hm. by eapply mutate_keeps. Qed.
Lemma op_mutate_id {A} ev (c : TxDB A) : keeps I c -> op_keeps I (fun r => mutate r ev c).
Proof. intros Hc r Hr. destruct (mutate r ev c) as [r' res] eqn:Hm. by eapply mutate_keeps. Qed.
Lemma op_forget {A} (F : Repo -> Repo * (error + A)) : op_keeps I F -> op_keeps I (fun r => forget (F r)).
Proof. by intros HF. Qed.
End Keeps.

(** A call keeps what its transaction keeps; artifacts have been validated. *)
Ltac op_tac :=
  unfold CreateApp, AddAccessKey, RemoveAccessKey, PutArtifact, CreateDeployment, ActivateDeployment, SetDeploymentSuspended, DeployApplication, deploy_call,
    SetCapabilityConfig, SetCapabilityValue, SetSecret, SetSecretDelete, SetEgressHost, StartSession, RecordSessionLog, EndSession, GarbageCollect;
  try (destruct (validateArtifact _ _) as [e|m] eqn:Hv); cbv zeta;
  repeat first [ apply op_guarded | apply op_given; intros ? | apply op_now; intros ? | apply op_error | apply op_mutate_id
               | refine (op_mutate _ _ _ (fun a => _) _) ].

Lemma run_app_call_catalog o : op_keeps catalog_ok (run_app_call o).
Proof.
  destruct o; cbn [run_app_call]; apply op_forget; op_tac;
    eauto using CreateApp_keeps, AddAccessKey_keeps, RemoveAccessKey_keeps, PutArtifact_keeps, CreateDeployment_keeps, ActivateDeployment_keeps,
      SetDeploymentSuspended_keeps, DeployApplication_keeps, SetCapabilityConfig_keeps, SetCapabilityValue_keeps, SetSecret_keeps,
      SetSecretDelete_keeps, SetEgressHost_keeps, StartSession_keeps, update_open_keeps, EndSession_keeps, GarbageCollect_keeps, validateArtifact_ok.
Qed.
(** *** The identity tables *)

Lemma identity_frame d d' : d_identity d' = d_identity d -> identity_ok d -> identity_ok d'.
Proof. destruct d, d'. cbn. intros ->. by intros [[? ? ? ? ?] ? ?]; split; [split|..]. Qed.
Ltac frame_identity :=
  match goal with Hi : _ = inr ?d', Hok : identity_ok ?d |- identity_ok ?d' =>
    unfold insert_app, update_app, insert_key, delete_key, insert_blob, insert_artifact, insert_build, insert_deployment, upsert_active,
      insert_suspended, delete_suspended, delete_deployment, delete_artifacts, delete_blobs, upsert_config, upsert_value, upsert_secret,
      upsert_secret_value, delete_secret, insert_egress, delete_egress, insert_session, update_session, delete_sessions in Hi;
    stmt_inv; apply (identity_frame d); [reflexivity|exact Hok]
  end.
#[local] Hint Extern 3 (identity_ok _) => frame_identity : keeps.
#[local] Hint Resolve audit_keeps require_keeps delete_audit_ok delete_expired_tombstones_ok check_quota_keeps : keeps.

Lemma insert_metadata_identity a l : keeps identity_ok (insert_metadata a l).
Proof. induction l as [|[k v] l IH]; cbn; [apply keeps_ret|]. keeps_tac. Qed.
#[local] Hint Resolve insert_metadata_identity : keeps.
Lemma store_artifact_identity m i : keeps identity_ok (store_artifact m i).
Proof. unfold store_artifact. keeps_tac. Qed.
Lemma collect_old_identity x : keeps identity_ok (collect_old x).
Proof. unfold collect_old. keeps_tac. Qed.
Lemma deploy_app_identity i w : keeps identity_ok (deploy_app i w).
Proof. unfold deploy_app. keeps_tac. Qed.
Lemma reconcile_app_identity i w a : keeps identity_ok (reconcile_app i w a).
Proof. unfold reconcile_app. keeps_tac. Qed.
(** A statement that also answers a number of rows. *)
Lemma counting_identity {A} (f : DB -> error + DB) (g : DB -> DB -> A) :
  (forall d d', f d = inr d' -> identity_ok d -> identity_ok d') ->
  keeps identity_ok (statement (fun d => match f d with inl e => inl e | inr d' => inr (g d d', d') end)).
Proof. intros Hf. apply keeps_statement. intros d a d' Hi. destruct (f d) as [e|d1] eqn:Hd; [done|]. injection Hi as _ <-. by eapply Hf. Qed.
Lemma update_open_identity i f : keeps identity_ok (update_open i f).
Proof. unfold update_open. keeps_tac. apply (counting_identity _ (fun d _ => _)). intros d d' Hi Hok. frame_identity. Qed.
Lemma run_sweeps_identity c order g : keeps identity_ok (run_sweeps c order g).
Proof.
  revert g. induction order as [|s order IH]; intros g; cbn; [apply keeps_ret|]. apply keeps_bind; [|intros n; apply IH].
  apply counting_identity. intros d d' Hi Hok. destruct s; cbn in Hi; [by eapply delete_audit_ok|frame_identity..].
Qed.
#[local] Hint Resolve store_artifact_identity collect_old_identity deploy_app_identity reconcile_app_identity update_open_identity
  run_sweeps_identity : keeps.

Lemma run_app_call_identity o : op_keeps identity_ok (run_app_call o).
Proof.
  destruct o; cbn [run_app_call]; apply op_forget; op_tac;
    unfold CreateApp_tx, AddAccessKey_tx, RemoveAccessKey_tx, PutArtifact_tx, CreateDeployment_tx, ActivateDeployment_tx, SetDeploymentSuspended_tx,
      DeployApplication_tx, deploy_with, SetCapabilityConfig_tx, SetCapabilityValue_tx, SetSecret_tx, SetSecretDelete_tx, SetEgressHost_tx, StartSession_tx,
      EndSession_tx, GarbageCollect_tx, appExists;
    repeat match goal with b : bool |- _ => destruct b end; keeps_tac.
  apply (counting_identity _ (fun d _ => _)). intros d d' Hi Hok. frame_identity.
Qed.

(** Calls of both groups. *)
Inductive any_call := Identity (o : call) | Catalogue (o : app_call).
Definition run_any (o : any_call) (r : Repo) : Repo * (error + unit) :=
  match o with Identity o => run_call o r | Catalogue o => run_app_call o r end.
Definition run_all (l : list any_call) (r : Repo) : Repo := fold_left (fun r o => (run_any o r).1) l r.

Definition run_any_or (o : any_call) (r : Repo) : Repo * (error + unit) :=
  match o with Identity o => run_call o r | Catalogue o => run_app_call_or o r end.

(** C11 (Calls are atomic): whatever statement, transaction, commit or listener fails, every
    call of the repository that writes, the storage of applications included, changes nothing
    and reports an error, or leaves the database exactly as it does when nothing fails, with
    the same answer unless a listener failed after the commit. Only a deployment has another
    outcome besides: all it does when nothing fails but the collection of the deployment it
    replaced, when the row of that one cannot be read. *)
Theorem calls_atomic : (forall o, atomic_or (run_any o) (run_any_or o)) /\ forall l o, atomic (sqlkv.run_kv l o).
Proof.
  split; [|apply sqlkv.kv_atomic]. intros [o|o]; [apply atomic_atomic_or, identity_atomic|apply catalog_atomic].
Qed.

Lemma run_any_ok o r : identity_ok (r_db r) /\ catalog_ok (r_db r) -> identity_ok (r_db (run_any o r).1) /\ catalog_ok (r_db (run_any o r).1).
Proof.
  intros [Hi Hc]. destruct o as [o|o]; cbn [run_any].
  - split; [by apply (run_calls_ok [o])|]. destruct (run_call o r) as [r' res] eqn:Hr.
    destruct (run_call_outcome o _ r r' res (within_own r) Hr) as [_ [[_ Hd]|(n & m & b & _ & _ & He & _)]]; cbn; [by rewrite Hd|].
    pose proof (identity_effect_catalog o n m (r_db r) [] Hc) as Hk. by rewrite He in Hk.
  - split; [by apply run_app_call_identity|by apply run_app_call_catalog].
Qed.
Lemma run_all_ok l r : identity_ok (r_db r) /\ catalog_ok (r_db r) -> identity_ok (r_db (run_all l r)) /\ catalog_ok (r_db (run_all l r)).
Proof. unfold run_all. revert r. induction l as [|o l IH]; intros r Hr; cbn; [done|]. by apply IH, run_any_ok. Qed.
Lemma empty_catalog : catalog_ok empty_db.
Proof. by split; [split; [apply map_Forall_empty|]|apply map_Forall_empty|apply map_Forall_empty| | |apply map_Forall_empty|apply map_Forall_empty]. Qed.

(** C12 (The database stays consistent): starting from an empty database and after any calls
    of either group, with any failures and instants, the identity tables and the catalogue
    are consistent: applications belong to authors and are named once per author, access
    keys and deployments are of an application and by a device of its author, the active
    deployment of an application is one of its own, every deployment has its artifact and
    every artifact its blob of that size, and a blob is stored under the digest of its
    bytes. *)
Theorem database_invariant l r : r_db r = empty_db -> identity_ok (r_db (run_all l r)) /\ catalog_ok (r_db (run_all l r)).
Proof. intros Hr. apply run_all_ok. rewrite Hr. split; [apply empty_ok|apply empty_catalog]. Qed.
End Calls.
End catalogcalls.
