(* ===== verification/SqlRun.v ===== *)
(** * What sessions run

    Who may run an application, and what bytes: exactly the active deployment of a name, for
    those its access mode admits. Garbage collection and the deployments of other
    applications leave that alone; a deployment replaces it. *)

From S2P Require Import Prelude Utf8 GoStrings Keys Sha256 Streams SqlRepo SqlDB SqlIdentity SqlIdentityLaws SqlCredentials SqlApps SqlAppsLaws SqlCatalog.
Import sqlite db identity identitylaws credentials catalog cataloglaws catalogcalls.

Module running.
Open Scope tx_scope.

Section Resolve.
Context `{Platform}.

(** ** Specification

    The rows behind a runnable: an application of the author by that name, not suspended,
    with its active deployment, not suspended, of an artifact whose blob has the bytes. *)
Record runs (d : DB) (author name : bytes) (run : Runnable) : Prop := {
  ru_app : apps d !! app_ID (rn_App run) = Some (app_row (rn_App run));
  ru_author : ap_author (app_row (rn_App run)) = author;
  ru_name : ap_name (app_row (rn_App run)) = name;
  ru_live : ap_suspended (app_row (rn_App run)) = false;
  ru_active : active d !! app_ID (rn_App run) = Some (rn_DeploymentID run);
  ru_open : rn_DeploymentID run ∉ suspended d;
  ru_deployment : exists x, deployments d !! rn_DeploymentID run = Some x /\ dp_artifact x = am_ID (rn_Artifact run);
  ru_artifact : artifacts d !! am_ID (rn_Artifact run) = Some (am_row (rn_Artifact run));
  ru_blob : exists b, blobs d !! ar_digest (am_row (rn_Artifact run)) = Some b /\ bl_wasm b = rn_WASM run }.

(** A public application is for everybody; a restricted one for its author, for the holder of
    one of its access keys, and for the active devices of its author. *)
Inductive admitted (d : DB) (author : bytes) (app : App) (fingerprint who : bytes) : Prop :=
| admitted_public : ap_access (app_row app) = str "public" -> admitted d author app fingerprint who
| admitted_author : who = author -> admitted d author app fingerprint who
| admitted_key k key : TrimSpace fingerprint <> [] -> access_keys d !! k = Some key -> ak_app key = app_ID app ->
    ak_fingerprint key = fingerprint -> admitted d author app fingerprint who
| admitted_device k x : TrimSpace fingerprint <> [] -> devices d !! k = Some x -> dv_fingerprint x = fingerprint ->
    dv_author x = ap_author (app_row app) -> device_active x = true -> admitted d author app fingerprint who.

Record may_run (d : DB) (handle name fingerprint who : bytes) (run : Runnable) : Prop := {
  mr_author : exists u a, authors d !! u = Some a /\ au_handle a = handle /\ au_suspended a = false /\ runs d u name run /\
    admitted d u (rn_App run) fingerprint who }.

(** ** Names and handles name one row *)

Lemma select_app_spec d u n app : apps_ok d ->
  select_app u n d = Some app <-> apps d !! app_ID app = Some (app_row app) /\ ap_author (app_row app) = u /\ ap_name (app_row app) = n.
Proof.
  intros [_ Hu]. unfold select_app. split.
  - destruct (select_where _ (apps d)) as [[k a]|] eqn:Hs; [|done]. cbn. intros [= <-]. cbn. apply select_where_Some in Hs as [Hk HP].
    by apply andb_true_iff in HP as [->%eqb_true ->%eqb_true].
  - destruct app as [k a]. cbn. intros (Hk & <- & <-). rewrite (select_where_unique _ _ k a); [done|done|by rewrite !eqb_refl|].
    intros k' a' Hk' [Ha%eqb_true Hn%eqb_true]%andb_true_iff. by eapply Hu.
Qed.
Lemma select_author_spec d h u a : handles_unique d ->
  select_where (fun _ a => eqb (au_handle a) h) (authors d) = Some (u, a) <-> authors d !! u = Some a /\ au_handle a = h.
Proof.
  intros Hu. split.
  - intros Hs. apply select_where_Some in Hs as [Hk HP]. by apply eqb_true in HP.
  - intros [Hk <-]. apply select_where_unique; [done|by rewrite eqb_refl|]. intros k' a' Hk' Ha%eqb_true. by eapply Hu.
Qed.

Lemma select_runnable_spec d u n app dep m s : catalog_ok d ->
  select_runnable u n d = Some (app, dep, m, s) <->
  apps d !! app_ID app = Some (app_row app) /\ ap_author (app_row app) = u /\ ap_name (app_row app) = n /\
  active d !! app_ID app = Some dep /\ (exists x, deployments d !! dep = Some x /\ dp_artifact x = am_ID m) /\
  artifacts d !! am_ID m = Some (am_row m) /\ s = bool_decide (dep ∈ suspended d).
Proof.
  intros Hok. unfold select_runnable. split.
  - destruct (select_app u n d) as [app'|] eqn:Ha; [|done]. apply select_app_spec in Ha as (? & ? & ?); [|apply Hok].
    destruct (active d !! app_ID app') as [dep'|] eqn:Hact; [|done]. destruct (deployments d !! dep') as [x|] eqn:Hx; [|done].
    destruct (eqb (dp_app x) (app_ID app')); [|done]. cbn. destruct (artifacts d !! dp_artifact x) as [a|] eqn:Har; [|done]. cbn.
    intros [= <- <- <- <-]. split_and!; try done. by exists x.
  - intros (Ha & Hu & Hn & Hact & (x & Hx & Hm) & Har & ->).
    rewrite (proj2 (select_app_spec d u n app (ok_apps _ Hok))) by done. rewrite Hact, Hx.
    destruct (ok_active _ Hok _ _ Hact) as (x' & Hx' & <-). assert (x' = x) as -> by congruence. rewrite eqb_refl. cbn. rewrite Hm, Har. cbn.
    by destruct m.
Qed.

(** ** What resolving answers *)

Definition VerifyDigest_ok (run : Runnable) : Prop := digest_of (rn_WASM run) = ar_digest (am_row (rn_Artifact run)).

Lemma query_row_cases {A} (r : Repo) (f : DB -> option A) :
  r_db (query_row r f).1 = r_db r /\
  ((query_row r f).2 = inl ErrStorage \/ (query_row r f).2 = match f (r_db r) with Some a => inr a | None => inl ErrNotFound end).
Proof. unfold query_row, query. destruct (pop (r_fail r)) as [[] fs]; cbn; split; try done; [by left|right]. by destruct (f (r_db r)). Qed.
Lemma query_row_calm {A} (r : Repo) (f : DB -> option A) : r_fail r = [] ->
  query_row r f = (with_db r (r_db r) [], match f (r_db r) with Some a => inr a | None => inl ErrNotFound end).
Proof. intros Hf. unfold query_row, query. rewrite Hf. cbn. by destruct (f (r_db r)). Qed.
Lemma query_count_cases (r : Repo) (f : DB -> bool) :
  r_db (query_count r f).1 = r_db r /\ ((query_count r f).2 = inl ErrStorage \/ (query_count r f).2 = inr (f (r_db r))).
Proof. unfold query_count, query. destruct (pop (r_fail r)) as [[] fs]; cbn; split; try done; [by left|by right]. Qed.
Lemma query_count_calm (r : Repo) (f : DB -> bool) : r_fail r = [] -> query_count r f = (with_db r (r_db r) [], inr (f (r_db r))).
Proof. intros Hf. unfold query_count, query. by rewrite Hf. Qed.

Lemma resolve_sound (r : Repo) u n : catalog_ok (r_db r) ->
  r_db (ResolveRunnable r u n).1 = r_db r /\ forall run, (ResolveRunnable r u n).2 = inr run -> runs (r_db r) u n run /\ VerifyDigest_ok run.
Proof.
  intros Hok. unfold ResolveRunnable, guarded. destruct (head _); [by split|].
  destruct (query_row_cases r (select_runnable u n)) as [Hd1 Hq]. destruct (query_row r (select_runnable u n)) as [r1 row]. cbn in Hd1, Hq.
  destruct Hq as [->|Hrow]; [by rewrite <- Hd1|]. destruct (select_runnable u n (r_db r)) as [[[[app dep] m] s]|] eqn:Hs; [|by rewrite Hrow, <- Hd1].
  rewrite Hrow. apply select_runnable_spec in Hs as (? & ? & ? & ? & ? & ? & Hsus); [|done].
  destruct (ap_suspended (app_row app) || s) eqn:Hlive; [done|]. apply orb_false_iff in Hlive as [? ->].
  destruct (query_row_cases r1 (fun d => bl_wasm <$> blobs d !! ar_digest (am_row m))) as [Hd2 Hq].
  destruct (query_row r1 (fun d => bl_wasm <$> blobs d !! ar_digest (am_row m))) as [r2 w]. cbn in Hd2, Hq. rewrite Hd1 in Hd2, Hq.
  destruct Hq as [->|Hw]; [done|]. rewrite Hw. destruct (blobs (r_db r) !! ar_digest (am_row m)) as [b|] eqn:Hb; [|done]. cbn [fmap option_fmap option_map].
  destruct (_ || _) eqn:Hv; [done|]. split; [done|]. cbn. intros run [= <-].
  apply orb_false_iff in Hv as [_ Hv%negb_false_iff]. unfold VerifyDigestBytes in Hv. apply eqb_true in Hv.
  split; [|done]. split; cbn; try done; [by symmetry in Hsus; apply bool_decide_eq_false in Hsus|by exists b].
Qed.

Lemma resolve_complete (r : Repo) u n run :
  catalog_ok (r_db r) -> r_fail r = [] -> validateID u = None -> runs (r_db r) u n run ->
  ResolveRunnable r u n = (with_db r (r_db r) [], inr run).
Proof.
  intros Hok Hf Hid [Ha Hu Hn Hl Hact Ho Hx Hm (b & Hb & Hw)]. unfold ResolveRunnable, guarded. rewrite Hid. cbn [head omap list_omap id].
  rewrite query_row_calm by done.
  rewrite (proj2 (select_runnable_spec (r_db r) u n (rn_App run) (rn_DeploymentID run) (rn_Artifact run) false Hok))
    by (split_and!; try done; symmetry; by apply bool_decide_eq_false).
  rewrite Hl. cbn [orb]. rewrite query_row_calm by done. cbn [r_db with_db]. rewrite Hb. cbn [fmap option_fmap option_map]. rewrite Hw.
  destruct (ok_blobs _ Hok _ _ Hb) as [Hdig Hlen]. rewrite Hw in Hdig, Hlen.
  destruct (ok_artifacts _ Hok _ _ Hm) as (b' & Hb' & Hsz). assert (b' = b) as -> by congruence.
  rewrite <- Hsz, Hlen, Z.eqb_refl. unfold VerifyDigestBytes. rewrite Hdig, eqb_refl. cbn. by destruct run.
Qed.

Lemma key_allowed_spec app fp d : key_allowed app fp d = true <-> exists k key, access_keys d !! k = Some key /\ ak_app key = app /\ ak_fingerprint key = fp.
Proof.
  unfold key_allowed. rewrite exists_where_true. split; intros (k & key & Hk & Hp); exists k, key; (split; [done|]).
  - apply andb_true_iff in Hp as [?%eqb_true ?%eqb_true]. done.
  - destruct Hp as [-> ->]. by rewrite !eqb_refl.
Qed.
Lemma device_allowed_spec u fp d : device_allowed u fp d = true <->
  exists k x, devices d !! k = Some x /\ dv_fingerprint x = fp /\ dv_author x = u /\ device_active x = true.
Proof.
  unfold device_allowed. rewrite exists_where_true. split; intros (k & x & Hk & Hp); exists k, x; (split; [done|]).
  - apply andb_true_iff in Hp as [[?%eqb_true ?%eqb_true]%andb_true_iff ?]. done.
  - destruct Hp as (-> & -> & ->). by rewrite !eqb_refl.
Qed.

Lemma leaf_sound (r : Repo) handle name fp who run :
  identity_ok (r_db r) -> catalog_ok (r_db r) -> (ResolveLeafRunnable r handle name fp who).2 = inr run ->
  may_run (r_db r) handle name fp who run /\ VerifyDigest_ok run.
Proof.
  intros Hid Hok. unfold ResolveLeafRunnable, guarded. destruct (head _); [done|].
  set (sel := fun d => select_where (fun _ a => eqb (au_handle a) handle) (authors d)).
  destruct (query_row_cases r sel) as [Hd1 Hq]. destruct (query_row r sel) as [r1 row]. cbn in Hd1, Hq.
  destruct Hq as [->|Hrow]; [done|]. destruct (sel (r_db r)) as [[u a]|] eqn:Hs; [|by rewrite Hrow]. rewrite Hrow.
  apply select_author_spec in Hs as [Hu Hh]; [|apply Hid].
  destruct (au_suspended a) eqn:Hsus; [done|]. assert (Hok1 : catalog_ok (r_db r1)) by (by rewrite Hd1).
  destruct (resolve_sound r1 u name Hok1) as [Hd2 Hr]. destruct (ResolveRunnable r1 u name) as [r2 [e|run']]; [done|]. cbn in Hd2, Hr.
  destruct (Hr _ eq_refl) as [Hruns Hv]. rewrite Hd1 in Hruns, Hd2. clear Hr Hrow.
  assert (Hfin : admitted (r_db r) u (rn_App run') fp who -> run' = run -> may_run (r_db r) handle name fp who run /\ VerifyDigest_ok run).
  { intros Hadm <-. split; [|done]. split. by exists u, a. }
  cbv zeta. destruct (eqb (ap_access (app_row (rn_App run'))) (str "public") || eqb who u) eqn:Hpub.
  { intros [= E]. apply Hfin; [|done]. apply orb_true_iff in Hpub as [?%eqb_true|?%eqb_true]; [by apply admitted_public|by apply admitted_author]. }
  destruct (eqb (TrimSpace fp) []) eqn:Hfp; [done|]. apply eqb_false in Hfp.
  destruct (query_count_cases r2 (key_allowed (app_ID (rn_App run')) fp)) as [Hd3 Hq].
  destruct (query_count r2 (key_allowed (app_ID (rn_App run')) fp)) as [r3 allowed]. cbn in Hd3, Hq. rewrite Hd2 in Hd3, Hq.
  destruct Hq as [->|Hk]; [done|]. rewrite Hk. destruct (key_allowed _ _ _) eqn:Hkey.
  { intros [= E]. apply Hfin; [|done]. apply key_allowed_spec in Hkey as (k & key & ? & ? & ?). by eapply admitted_key. }
  destruct (query_count_cases r3 (device_allowed (ap_author (app_row (rn_App run'))) fp)) as [Hd4 Hq].
  destruct (query_count r3 (device_allowed (ap_author (app_row (rn_App run'))) fp)) as [r4 allowed']. cbn in Hd4, Hq. rewrite Hd3 in Hq.
  destruct Hq as [->|Hd]; [done|]. rewrite Hd. destruct (device_allowed _ _ _) eqn:Hdev; [|done].
  intros [= E]. apply Hfin; [|done]. apply device_allowed_spec in Hdev as (k & x & ? & ? & ? & ?). by eapply admitted_device.
Qed.

Lemma leaf_complete (r : Repo) handle name fp who run :
  identity_ok (r_db r) -> catalog_ok (r_db r) -> r_fail r = [] ->
  handle_error handle = None -> validateID name = None -> name <> [] -> (forall u, is_Some (authors (r_db r) !! u) -> validateID u = None) ->
  may_run (r_db r) handle name fp who run -> (ResolveLeafRunnable r handle name fp who).2 = inr run.
Proof.
  intros Hid Hok Hf Hhe Hne Hn Hids [(u & a & Hu & Hh & Hs & Hruns & Hadm)]. unfold ResolveLeafRunnable, guarded. rewrite Hhe, Hne.
  unfold reject. rewrite (proj2 (eqb_false name [])) by done. cbn [head omap list_omap id].
  rewrite query_row_calm by done. rewrite (proj2 (select_author_spec (r_db r) handle u a (ok_handles _ (ok_base _ Hid)))) by done. rewrite Hs.
  rewrite (resolve_complete (with_db r (r_db r) []) u name run Hok eq_refl (Hids u (ex_intro _ _ Hu)) Hruns). cbv zeta.
  destruct (eqb (ap_access (app_row (rn_App run))) (str "public") || eqb who u) eqn:Hpub; [done|].
  apply orb_false_iff in Hpub as [Hpub%eqb_false Hwho%eqb_false].
  assert (Hkd : TrimSpace fp <> [] /\ (key_allowed (app_ID (rn_App run)) fp (r_db r) = true \/
    device_allowed (ap_author (app_row (rn_App run))) fp (r_db r) = true)).
  { destruct Hadm as [?|?|k key ? ? ? ?|k x ? ? ? ? ?]; [done|done|..]; (split; [done|]).
    - left. apply key_allowed_spec. eauto.
    - right. apply device_allowed_spec. eauto 6. }
  destruct Hkd as [Hfp Hkd]. rewrite (proj2 (eqb_false _ _) Hfp). rewrite query_count_calm by done. cbn [r_db with_db].
  destruct (key_allowed _ _ _) eqn:Hk; [done|]. destruct Hkd as [?|Hd]; [done|]. rewrite query_count_calm by done. cbn [r_db with_db]. by rewrite Hd.
Qed.

(** C19 (Who may run what): the leaf gateway is given an application to run only when the
    handle is that of an author who is not suspended, the name that of an application with
    an active deployment, neither of them suspended, and the caller is admitted: the
    application is public, the caller is its author, or presents the fingerprint of one of
    its access keys or of an active device of the author. The bytes are those of the
    artifact, and hash to its digest. When the engine does not fail, every such request is
    served. *)
Theorem leaf_access_exact (r : Repo) handle name fp who run :
  identity_ok (r_db r) -> catalog_ok (r_db r) ->
  ((ResolveLeafRunnable r handle name fp who).2 = inr run -> may_run (r_db r) handle name fp who run /\ VerifyDigest_ok run) /\
  (r_fail r = [] -> handle_error handle = None -> validateID name = None -> name <> [] ->
   (forall u, is_Some (authors (r_db r) !! u) -> validateID u = None) ->
   may_run (r_db r) handle name fp who run -> (ResolveLeafRunnable r handle name fp who).2 = inr run).
Proof. intros Hid Hok. split; [by apply leaf_sound|]. intros. by apply leaf_complete. Qed.

(** The answers of an engine that does not fail. *)
Definition resolve_answer (d : DB) (u n : bytes) : error + Runnable :=
  match select_runnable u n d with
  | None => inl ErrNotFound
  | Some (app, dep, m, s) =>
    if ap_suspended (app_row app) || s then inl ErrSuspended else
    match blobs d !! ar_digest (am_row m) with
    | None => inl ErrNotFound
    | Some b =>
      if negb (len (bl_wasm b) =? ar_size (am_row m)) || negb (VerifyDigestBytes (ar_digest (am_row m)) (bl_wasm b)) then inl ErrStorage
      else inr (mkRunnable app dep m (bl_wasm b))
    end
  end.
Definition leaf_answer (d : DB) (handle name fp who : bytes) : error + Runnable :=
  match select_where (fun _ a => eqb (au_handle a) handle) (authors d) with
  | None => inl ErrNotFound
  | Some (u, a) =>
    if au_suspended a then inl ErrSuspended else
    match (match validateID u with Some e => inl e | None => resolve_answer d u name end) with
    | inl e => inl e
    | inr run =>
      if (eqb (ap_access (app_row (rn_App run))) (str "public") || eqb who u) ||
         (negb (eqb (TrimSpace fp) []) && (key_allowed (app_ID (rn_App run)) fp d || device_allowed (ap_author (app_row (rn_App run))) fp d))
      then inr run else inl ErrNotFound
    end
  end.
Lemma with_db_calm (r : Repo) : r_fail r = [] -> with_db r (r_db r) [] = r.
Proof. destruct r as [d f c ls]. cbn. by intros ->. Qed.
Lemma resolve_calm (r : Repo) u n : r_fail r = [] ->
  ResolveRunnable r u n = (r, match validateID u with Some e => inl e | None => resolve_answer (r_db r) u n end).
Proof.
  intros Hf. unfold ResolveRunnable, guarded, resolve_answer. destruct (validateID u) as [e|]; [done|]. cbn [head omap list_omap id].
  rewrite query_row_calm, with_db_calm by done. destruct (select_runnable u n (r_db r)) as [[[[app dep] m] s]|]; [|done].
  destruct (_ || s); [done|]. rewrite query_row_calm, with_db_calm by done. destruct (blobs (r_db r) !! _) as [b|]; [|done]. cbn. by destruct (_ || _).
Qed.
Lemma leaf_calm (r : Repo) handle name fp who : r_fail r = [] ->
  ResolveLeafRunnable r handle name fp who =
  (r, match head (omap id [handle_error handle; match validateID name with Some _ => Some ErrInvalid | None => reject (eqb name []) end]) with
      | Some e => inl e
      | None => leaf_answer (r_db r) handle name fp who
      end).
Proof.
  intros Hf. unfold ResolveLeafRunnable, guarded. destruct (head _); [done|]. unfold leaf_answer. rewrite query_row_calm, with_db_calm by done.
  destruct (select_where _ _) as [[u a]|]; [|done]. destruct (au_suspended a); [done|]. rewrite resolve_calm by done.
  destruct (match validateID u with Some e => _ | None => _ end) as [e|run]; [done|]. cbv zeta.
  destruct (eqb _ (str "public") || eqb who u); [done|]. destruct (eqb (TrimSpace fp) []); [done|].
  rewrite query_count_calm, with_db_calm by done. destruct (key_allowed _ _ _); [done|].
  rewrite query_count_calm, with_db_calm by done. cbn. by destruct (device_allowed _ _ _).
Qed.

(** ** What leaves a name alone *)

(** Two databases answer the same for a name of an author. *)
Definition same_run (u n : bytes) (d d' : DB) : Prop :=
  select_runnable u n d' = select_runnable u n d /\
  forall app dep m s, select_runnable u n d = Some (app, dep, m, s) -> blobs d' !! ar_digest (am_row m) = blobs d !! ar_digest (am_row m).
#[global] Instance same_run_preorder u n : PreOrder (same_run u n).
Proof.
  split; [by intros d|]. intros d1 d2 d3 [E1 B1] [E2 B2]. split; [congruence|]. intros app dep m s Hs. rewrite (B2 app dep m s) by congruence. by eapply B1.
Qed.
Lemma same_run_resolve u n d d' : same_run u n d d' -> resolve_answer d' u n = resolve_answer d u n.
Proof.
  intros [E B]. unfold resolve_answer. rewrite E. destruct (select_runnable u n d) as [[[[app dep] m] s]|] eqn:Hs; [|done]. by rewrite (B _ _ _ _ eq_refl).
Qed.
(** What [select_runnable] reads. *)
Lemma same_run_intro u n d d' :
  apps d' = apps d ->
  (forall app dep, active d !! app = Some dep -> is_Some (deployments d !! dep) -> active d' !! app = Some dep /\ deployments d' !! dep = deployments d !! dep /\
     (dep ∈ suspended d' <-> dep ∈ suspended d)) ->
  (forall app dep, active d' !! app = Some dep -> is_Some (deployments d' !! dep) -> active d !! app = Some dep /\ is_Some (deployments d !! dep)) ->
  (forall dep x, deployments d !! dep = Some x -> artifacts d' !! dp_artifact x = artifacts d !! dp_artifact x) ->
  (forall dep x a, deployments d !! dep = Some x -> artifacts d !! dp_artifact x = Some a -> blobs d' !! ar_digest a = blobs d !! ar_digest a) ->
  same_run u n d d'.
Proof.
  intros Happs Hact Hact' Hart Hblob. split.
  - unfold select_runnable, select_app. rewrite Happs. destruct (select_where _ (apps d)) as [[k ap]|]; [|done]. cbn.
    destruct (active d !! k) as [dep|] eqn:Ha.
    + destruct (deployments d !! dep) as [x|] eqn:Hx.
      * destruct (Hact _ _ Ha) as (Ha' & Hd' & Hs'); [by eauto|]. rewrite Ha', Hd', Hx, (Hart _ _ Hx). by rewrite (bool_decide_ext _ _ Hs').
      * destruct (active d' !! k) as [dep'|] eqn:Ha'; [|done]. destruct (deployments d' !! dep') as [x'|] eqn:Hx'; [|done].
        destruct (Hact' _ _ Ha') as [E [y Hy]]; [by eauto|]. congruence.
    + destruct (active d' !! k) as [dep'|] eqn:Ha'; [|done]. destruct (deployments d' !! dep') as [x'|] eqn:Hx'; [|done].
      destruct (Hact' _ _ Ha') as [E _]; [by eauto|]. congruence.
  - unfold select_runnable. intros app dep m s. destruct (select_app u n d) as [app'|]; [|done]. destruct (active d !! app_ID app') as [dep'|]; [|done].
    destruct (deployments d !! dep') as [x|] eqn:Hx; [|done]. destruct (negb _); [done|]. cbn.
    destruct (artifacts d !! dp_artifact x) as [a|] eqn:Ha; [|done]. intros [= _ _ <- _]. by eapply Hblob.
Qed.
(** Statements on other tables. *)
Lemma same_run_frame u n d d' : d_catalog d' = d_catalog d -> same_run u n d d'.
Proof.
  intros E. assert (Hc : apps d' = apps d /\ blobs d' = blobs d /\ artifacts d' = artifacts d /\ deployments d' = deployments d /\
    active d' = active d /\ suspended d' = suspended d) by (unfold apps, blobs, artifacts, deployments, active, suspended; by rewrite E).
  destruct Hc as (E1 & E2 & E3 & E4 & E5 & E6). apply same_run_intro; rewrite ?E1, ?E2, ?E3, ?E4, ?E5, ?E6; try done.
Qed.
Lemma delete_artifacts_same u n P d d' : delete_artifacts P d = inr d' -> same_run u n d d'.
Proof.
  intros [= <-]. apply same_run_intro; try done. intros dep x Hx. cbn. destruct (artifacts d !! dp_artifact x) as [a|] eqn:Ha.
  - apply lookup_delete_where. split; [done|]. rewrite (proj2 (artifact_used_true _ _)); [apply andb_false_r|]. eauto.
  - apply lookup_delete_where_None. intros a Ha'. congruence.
Qed.
Lemma delete_blobs_same u n P d d' : delete_blobs P d = inr d' -> same_run u n d d'.
Proof.
  intros [= <-]. apply same_run_intro; try done. intros dep x a Hx Ha. cbn. destruct (blobs d !! ar_digest a) as [b|] eqn:Hb.
  - apply lookup_delete_where. split; [done|]. rewrite (proj2 (blob_used_true _ _)); [apply andb_false_r|]. eauto.
  - apply lookup_delete_where_None. intros b Hb'. congruence.
Qed.
Lemma delete_deployment_same u n i d d' : delete_deployment i d = inr d' -> same_run u n d d'.
Proof.
  unfold delete_deployment. intros Hi. stmt_inv. match goal with H : _ || _ = true |- _ => rename H into Hu end.
  assert (Hne : forall app dep, active d !! app = Some dep -> is_Some (deployments d !! dep) -> dep <> i).
  { intros app dep Ha Hx ->. apply orb_true_iff in Hu as [Hu%negb_true_iff|Hu%negb_true_iff].
    - rewrite exists_where_false in Hu. specialize (Hu _ _ Ha). by rewrite eqb_refl in Hu.
    - rewrite has_false in Hu. rewrite Hu in Hx. by destruct Hx. }
  apply same_run_intro; try done.
  - intros app dep Ha Hx. pose proof (Hne _ _ Ha Hx). cbn. rewrite lookup_delete_ne by done. split; [done|]. split; [done|].
    change (suspended (set_suspended (suspended d ∖ {[i]}) (set_deployments (delete i (deployments d)) d))) with (suspended d ∖ {[i]}). set_solver.
  - intros app dep. cbn. rewrite lookup_delete_is_Some. intros Ha [_ Hx]. done.
Qed.

(** ** Garbage collection *)

(** Sessions that are open stay. *)
Definition keeps_open (d d' : DB) : Prop := forall k s, sessions d !! k = Some s -> session_open s = true -> sessions d' !! k = Some s.
(** What a collection leaves alone. *)
Record untouched (d d' : DB) : Prop := {
  ut_runs : forall u n, same_run u n d d'; ut_authors : authors d' = authors d; ut_devices : devices d' = devices d;
  ut_keys : access_keys d' = access_keys d; ut_sessions : keeps_open d d' }.
#[global] Instance untouched_preorder : PreOrder untouched.
Proof.
  split; [intros d; split; [intros u n; reflexivity|done..|by intros k s]|]. intros d1 d2 d3 [R1 A1 D1 K1 S1] [R2 A2 D2 K2 S2]. split; [|congruence..|].
  - intros u n. by transitivity d2.
  - intros k s Hk Hs. by apply S2, Hs; apply S1.
Qed.
Lemma sweep_untouched c s d d' : sweep_statement c s d = inr d' -> untouched d d'.
Proof.
  destruct s; cbn; intros Hi.
  - injection Hi as <-. split; [intros; by apply same_run_frame|done..|by intros k s].
  - injection Hi as <-. split; [intros; by apply same_run_frame|done..|]. intros k s Hk Hs. cbn. apply lookup_delete_where. split; [done|].
    unfold session_open in Hs. by destruct (ss_ended s).
  - split; [intros; by eapply delete_artifacts_same|injection Hi as <-; first [done|by intros k s]..].
  - split; [intros; by eapply delete_blobs_same|injection Hi as <-; first [done|by intros k s]..].
Qed.
Lemma run_sweeps_untouched d0 c order g : triple (untouched d0) (run_sweeps c order g) (fun _ => untouched d0).
Proof.
  revert g. induction order as [|s order IH]; intros g; cbn; [by apply triple_ret|]. eapply triple_bind; [|intros x; apply IH].
  apply triple_statement. intros d n d' Hd. destruct (sweep_statement c s d) as [e|d1] eqn:Hs; [done|]. intros [= _ <-].
  etrans; [exact Hd|]. by eapply sweep_untouched.
Qed.
Lemma untouched_leaf d d' handle name fp who : untouched d d' -> leaf_answer d' handle name fp who = leaf_answer d handle name fp who.
Proof.
  intros [Hr Ha Hd Hk _]. unfold leaf_answer, key_allowed, device_allowed. rewrite Ha, Hd, Hk. destruct (select_where _ (authors d)) as [[u a]|]; [|done].
  by rewrite (same_run_resolve _ _ _ _ (Hr u name)).
Qed.
Lemma collect_untouched (r : Repo) before order : untouched (r_db r) (r_db (GarbageCollect r before order).1).
Proof.
  unfold GarbageCollect. refine (op_now (untouched (r_db r)) _ _ r _); [|done]. intros n. apply op_mutate_id. unfold GarbageCollect_tx.
  eapply triple_bind; [apply run_sweeps_untouched|]. intros g. eapply (triple_bind _ _ _ (fun _ => untouched (r_db r))); [|by intros []; apply triple_ret].
  apply triple_exec. intros d d' Hd [= <-]. etrans; [exact Hd|]. split; [intros; by apply same_run_frame|done..|by intros k s].
Qed.

(** C21 (Collection is safe): whatever instants, order of the sweeps and failures, a garbage
    collection does not change what the leaf gateway is given for any request, nor any open
    session. *)
Theorem collection_safe (r : Repo) before order :
  (forall handle name fp who, (ResolveLeafRunnable (calm (GarbageCollect r before order).1) handle name fp who).2 =
     (ResolveLeafRunnable (calm r) handle name fp who).2) /\
  (forall k s, sessions (r_db r) !! k = Some s -> session_open s = true -> sessions (r_db (GarbageCollect r before order).1) !! k = Some s).
Proof.
  pose proof (collect_untouched r before order) as Hu. split; [|apply Hu].
  intros. rewrite !leaf_calm by done. cbn [snd calm r_db]. destruct (head _); [done|]. by apply untouched_leaf.
Qed.

(** ** Deploying *)

(** Every other name of every author answers the same. *)
Definition others_same (author name : bytes) (d d' : DB) : Prop := forall u n, (u, n) <> (author, name) -> same_run u n d d'.
Lemma others_same_trans author name d1 d2 d3 : others_same author name d1 d2 -> others_same author name d2 d3 -> others_same author name d1 d3.
Proof. intros H1 H2 u n Hn. transitivity d2; [by apply H1|by apply H2]. Qed.
Lemma others_same_all author name d1 d2 d3 : others_same author name d1 d2 -> (forall u n, same_run u n d2 d3) -> others_same author name d1 d3.
Proof. intros H1 H2 u n Hn. transitivity d2; [by apply H1|apply H2]. Qed.

(** A change of applications that leaves those of other names alone. *)
Lemma apps_others author name m d :
  apps_ok d -> apps_ok (set_apps m d) ->
  (forall k a, (ap_author a, ap_name a) <> (author, name) -> m !! k = Some a <-> apps d !! k = Some a) -> others_same author name d (set_apps m d).
Proof.
  intros Hd Hd' Hm u n Hne. assert (E : select_app u n (set_apps m d) = select_app u n d).
  { apply option_eq. intros app. rewrite !select_app_spec by done. cbn. split; intros (Ha & Hu & Hn); (split; [|done]); subst; by apply Hm. }
  split; [unfold select_runnable; by rewrite E|done].
Qed.

(** The application of the name, as it is to be run. *)
Definition staged (i : ApplicationDeploymentInput) (d0 : DB) (app : App) (d : DB) : Prop :=
  catalog_ok d /\ select_app (ad_AuthorID i) (ad_AppName i) d = Some app /\ others_same (ad_AuthorID i) (ad_AppName i) d0 d.

Lemma deploy_app_staged i w d0 : catalog_ok d0 -> triple (fun d => d = d0) (deploy_app i w) (staged i d0).
Proof.
  intros Hok. unfold deploy_app. case_match; (eapply triple_bind; [apply triple_query|]); intros o; cbv beta zeta.
  - destruct o as [app|]; [|apply triple_err]. case_match eqn:Hc; [apply triple_err|]. apply triple_ret. intros d [-> Ho].
    apply orb_false_iff in Hc as [Hu%negb_false_iff%eqb_true Hn%negb_false_iff%eqb_true]. split; [done|]. split; [|intros ? ? _; reflexivity].
    unfold app_of_deployment in Ho. destruct (deployments d0 !! _) as [x|]; [|done]. destruct (apps d0 !! dp_app x) as [a|] eqn:Ha; [|done].
    injection Ho as ->. by apply select_app_spec; [apply Hok|].
  - destruct o as [app|].
    + apply triple_ret. intros d [-> Ho]. split; [done|]. split; [done|intros ? ? _; reflexivity].
    + set (row := mkApp (ad_AuthorID i) (ad_AppName i) (ad_Kind i) (ad_AccessMode i) false (UnixNano (dr_app_now w)) (UnixNano (dr_app_now w))).
      eapply (triple_bind _ _ _ (fun _ => staged i d0 (mkAppOut (str "app_" ++ dr_app w) row))); [|intros []; by apply triple_ret].
      apply triple_exec. intros d d' [-> Ho] Hi. destruct (insert_app_catalog _ _ _ _ Hi Hok) as (Hok' & -> & Hnew). split; [done|]. split.
      * apply select_app_spec; [apply Hok'|]. cbn. by rewrite lookup_insert_eq.
      * apply apps_others; [apply Hok|apply Hok'|]. intros k a Hne. rewrite lookup_insert_Some. split; [intros [[<- <-]|[_ ?]]; done|].
        intros Ha. right. split; [|done]. intros <-. congruence.
Qed.
Lemma reconcile_staged i w app d0 :
  triple (staged i d0 app) (reconcile_app i w app) (fun app' d => staged i d0 app' d /\ app_ID app' = app_ID app /\
    (app_ID app <> [] -> ap_kind (app_row app') = ad_Kind i /\ ap_access (app_row app') = ad_AccessMode i) /\
    ap_suspended (app_row app') = ap_suspended (app_row app)).
Proof.
  unfold reconcile_app. cbv zeta. case_match eqn:Hc.
  - set (app' := mkAppOut (app_ID app) (mkApp (ap_author (app_row app)) (ap_name (app_row app)) (ad_Kind i) (ad_AccessMode i)
      (ap_suspended (app_row app)) (ap_created (app_row app)) (UnixNano (dr_update_now w)))).
    eapply (triple_bind _ _ _ (fun _ => staged i d0 app')); [|intros []; apply triple_ret; by intros d Hd].
    apply triple_exec. intros d d' (Hok & Hs & Ho) Hi. pose proof (update_app_catalog _ _ _ _ _ _ Hi Hok) as Hok'.
    unfold update_app in Hi. stmt_inv. apply select_app_spec in Hs as (Ha & Hu & Hn); [|apply Hok].
    split; [done|]. split.
    + apply select_app_spec; [apply Hok'|]. cbn. rewrite lookup_update_where, Ha. cbn. by rewrite eqb_refl.
    + eapply others_same_trans; [exact Ho|]. apply apps_others; [apply Hok|apply Hok'|]. intros k a Hne. rewrite lookup_update_where.
      destruct (decide (k = app_ID app)) as [->|Hk].
      * rewrite Ha. cbn. rewrite eqb_refl. split; intros [= <-]; cbn in Hne; by rewrite Hu, Hn in Hne.
      * rewrite (proj2 (eqb_false _ _) Hk). by destruct (apps d !! k).
  - apply triple_ret. intros d Hd. split; [done|]. split; [done|]. split; [|done]. intros Hne. apply andb_false_iff in Hc as [Hc|Hc].
    + by apply negb_false_iff, eqb_true in Hc.
    + by apply orb_false_iff in Hc as [?%negb_false_iff%eqb_true ?%negb_false_iff%eqb_true].
Qed.

(** Storing an artifact changes no answer. *)
Lemma storing_same m i d d' u n : catalog_ok d -> stored m i d d' -> same_run u n d d'.
Proof.
  intros Hok [_ _ Ha _ Hd Hact Hs Har Hf _ Hbl]. apply same_run_intro; rewrite ?Ha, ?Hd, ?Hact, ?Hs; try done.
  - intros dep x Hx. rewrite Har, lookup_insert_ne; [done|]. intros E. destruct (ok_deployments _ Hok _ _ Hx) as [[a Hx'] _]. congruence.
  - intros dep x a Hx Hx'. destruct (ok_artifacts _ Hok _ _ Hx') as (b & Hb & _). rewrite Hb. by apply Hbl.
Qed.

(** The new deployment is in place, unless it is not active yet. *)
Definition placed (i : ApplicationDeploymentInput) (d0 : DB) (m : ArtifactMetadata) (app : App) (id : bytes) (d : DB) : Prop :=
  staged i d0 app d /\ (exists x, deployments d !! id = Some x /\ dp_artifact x = am_ID m) /\ (id ∉ suspended d) /\
  artifacts d !! am_ID m = Some (am_row m) /\ exists b, blobs d !! ar_digest (am_row m) = Some b /\ bl_wasm b = ai_WASM (ad_Artifact i).
Record deployed (i : ApplicationDeploymentInput) (d0 : DB) (m : ArtifactMetadata) (app : App) (id : bytes) (d : DB) : Prop := {
  dy_run : select_runnable (ad_AuthorID i) (ad_AppName i) d = Some (app, id, m, false);
  dy_bytes : exists b, blobs d !! ar_digest (am_row m) = Some b /\ bl_wasm b = ai_WASM (ad_Artifact i);
  dy_others : others_same (ad_AuthorID i) (ad_AppName i) d0 d }.
Lemma deployed_same i d0 m app id d d' : deployed i d0 m app id d -> (forall u n, same_run u n d d') -> deployed i d0 m app id d'.
Proof.
  intros [Hr Hb Ho] Hs. destruct (Hs (ad_AuthorID i) (ad_AppName i)) as [E B]. split; [by rewrite E| |by eapply others_same_all].
  by rewrite (B _ _ _ _ Hr).
Qed.
Lemma audit_same a n d0 : triple (fun d => d = d0) (audit a n) (fun _ d => forall u m, same_run u m d0 d).
Proof. eapply triple_conseq; [apply (audit_triple d0)|done|]. intros [] d [mm ->] u m. by apply same_run_frame. Qed.
Lemma collect_old_same old d0 : triple (fun d => forall u n, same_run u n d0 d) (collect_old old) (fun _ d => forall u n, same_run u n d0 d).
Proof.
  unfold collect_old. apply keeps_bind; [apply keeps_query|]. intros op. case_match; [apply keeps_ret|].
  apply keeps_bind; [apply keeps_hook|]. intros []. apply keeps_bind; [apply keeps_try|]. intros [a|]; [|apply keeps_ret].
  apply keeps_bind; [apply keeps_query|]. intros [g|]; [|apply keeps_err].
  apply keeps_bind; [|intros []; apply keeps_bind; [|intros []]]; apply keeps_exec; intros d d' Hi Hs u n; transitivity d; try apply Hs;
    [by eapply delete_deployment_same|by eapply delete_artifacts_same|by eapply delete_blobs_same].
Qed.

Lemma store_placed i m d0 app : artifact_valid m (ad_Artifact i) ->
  triple (fun d => staged i d0 app d /\ author_of_device d (ad_DeviceID i) = Some (ad_AuthorID i)) (store_artifact m (ad_Artifact i))
    (fun _ d => (staged i d0 app d /\ author_of_device d (ad_DeviceID i) = Some (ad_AuthorID i)) /\ artifacts d !! am_ID m = Some (am_row m) /\
      exists b, blobs d !! ar_digest (am_row m) = Some b /\ bl_wasm b = ai_WASM (ad_Artifact i)).
Proof.
  intros Hv d fs [(Hok & Hs & Ho) Hd]. pose proof (store_triple m (ad_Artifact i) d Hv Hok d fs eq_refl) as Ht.
  destruct (store_artifact m (ad_Artifact i) d fs) as [[e|[[] d']] fs']; [done|]. cbn in *. destruct Ht as [Hok' Hst].
  assert (Hdev : author_of_device d' (ad_DeviceID i) = Some (ad_AuthorID i)) by (unfold author_of_device, devices in *; by rewrite (st_identity _ _ _ _ Hst)).
  split; [split; [split; [done|]|done]|].
  - split; [unfold select_app in *; by rewrite (st_apps _ _ _ _ Hst)|]. eapply others_same_all; [exact Ho|]. intros u n. by eapply storing_same.
  - rewrite (st_artifacts _ _ _ _ Hst), lookup_insert_eq. split; [done|apply Hst].
Qed.

Lemma insert_placed i d0 m app id ns d d' :
  insert_deployment id (mkDeployment (app_ID app) (am_ID m) (ad_DeviceID i) ns) d = inr d' ->
  staged i d0 app d -> author_of_device d (ad_DeviceID i) = Some (ad_AuthorID i) -> artifacts d !! am_ID m = Some (am_row m) ->
  (exists b, blobs d !! ar_digest (am_row m) = Some b /\ bl_wasm b = ai_WASM (ad_Artifact i)) -> placed i d0 m app id d'.
Proof.
  intros Hi (Hok & Hs & Ho) Hdev Har Hb. pose proof Hs as Hs0. apply select_app_spec in Hs0 as (Ha & Hu & Hn); [|apply Hok].
  assert (Hau : author_of_app d (app_ID app) = Some (ad_AuthorID i)) by (unfold author_of_app; rewrite Ha; cbn; by rewrite Hu).
  destruct (insert_deployment_catalog id (mkDeployment (app_ID app) (am_ID m) (ad_DeviceID i) ns) _ d d' Hau Hdev Hi Hok) as (Hok' & -> & Hnew).
  assert (Hsame : forall u n, same_run u n d (set_deployments (<[id := mkDeployment (app_ID app) (am_ID m) (ad_DeviceID i) ns]> (deployments d)) d)).
  { intros u n. apply same_run_intro; try done.
    - intros a dep Hact [x Hx]. cbn. rewrite lookup_insert_ne; [done|]. intros <-. congruence.
    - intros a dep Hact _. split; [done|]. destruct (ok_active _ Hok _ _ Hact) as (x & Hx & _). by exists x. }
  split; [split; [done|]; split; [done|by eapply others_same_all]|]. split; [eexists; cbn; by rewrite lookup_insert_eq|]. split; [|done].
  intros Hsus. destruct (ok_suspended _ Hok _ Hsus) as [x Hx]. congruence.
Qed.

Lemma activate_placed i d0 m app id d d' : upsert_active (app_ID app) id d = inr d' -> placed i d0 m app id d -> deployed i d0 m app id d'.
Proof.
  intros Hi ((Hok & Hs & Ho) & (x & Hx & Hxm) & Hsus & Har & Hb). pose proof (upsert_active_catalog _ _ _ _ Hi Hok) as Hok'.
  unfold upsert_active in Hi. stmt_inv. apply select_app_spec in Hs as (Ha & Hu & Hn); [|apply Hok]. split.
  - apply select_runnable_spec; [done|]. cbn. rewrite lookup_insert_eq. split_and!; try done; [by exists x|]. symmetry. by apply bool_decide_eq_false.
  - done.
  - eapply others_same_trans; [exact Ho|]. intros u n Hne. split; [|done]. unfold select_runnable. cbn.
    change (select_app u n (set_active (<[app_ID app := id]> (active d)) d)) with (select_app u n d).
    destruct (select_app u n d) as [app'|] eqn:Ha'; [|done]. apply select_app_spec in Ha' as (Ha' & Hu' & Hn'); [|apply Hok].
    rewrite lookup_insert_ne; [done|]. intros E. rewrite E in Ha. assert (app_row app = app_row app') as Er by congruence. rewrite Er in Hu, Hn. congruence.
Qed.

Lemma deploy_triple i m w d0 : artifact_valid m (ad_Artifact i) -> catalog_ok d0 ->
  triple (fun d => d = d0) (DeployApplication_tx i m w)
    (fun out d => out_Artifact out = m /\ deployed i d0 m (out_App out) (de_ID (out_Deployment out)) d).
Proof.
  intros Hv Hok. unfold DeployApplication_tx. set (dev := fun d => author_of_device d (ad_DeviceID i) = Some (ad_AuthorID i)).
  assert (Hdevk : forall A (c : TxDB A) (P : DB -> Prop) (Q : A -> DB -> Prop), (forall d1, keeps (fun d => devices d = d1) c) -> triple P c Q ->
    triple (fun d => P d /\ dev d) c (fun a d => Q a d /\ dev d)).
  { intros A c P Q Hk Ht d fs [HP Hd]. specialize (Hk (devices d) d fs eq_refl). specialize (Ht d fs HP). destruct (c d fs) as [[e|[a d']] fs']; [done|].
    cbn in *. split; [done|]. unfold dev, author_of_device in *. by rewrite Hk. }
  eapply (triple_bind _ _ _ (fun _ d => d = d0 /\ dev d)).
  { eapply triple_conseq; [apply (require_triple d0)|done|]. intros [] d [-> Hact]. split; [done|]. apply active_device_spec in Hact as (x & Hx & Hu & _).
    unfold dev, author_of_device. rewrite Hx. cbn. by rewrite Hu. }
  intros []. eapply triple_bind.
  { apply Hdevk; [|by apply deploy_app_staged]. intros d1. unfold deploy_app. keeps_tac; apply keeps_exec; unfold insert_app; intros d d' Hi Hd; by stmt_inv. }
  intros app0. eapply triple_bind.
  { apply Hdevk; [|apply reconcile_staged]. intros d1. unfold reconcile_app. keeps_tac; apply keeps_exec; unfold update_app; intros d d' Hi Hd; by stmt_inv. }
  intros app. cbv beta. eapply (triple_bind _ _ _ (fun _ d => staged i d0 app d /\ dev d)).
  { eapply triple_conseq; [apply triple_query|exact (fun d H => conj (proj1 (proj1 H)) (proj2 H))|]. by intros o d [? _]. }
  intros old. eapply triple_bind; [by apply store_placed|]. intros []. cbv beta zeta.
  set (id := str "dep_" ++ dr_deployment w). eapply (triple_bind _ _ _ (fun _ => placed i d0 m app id)).
  { apply triple_exec. intros d d' [[Hst Hd] [Har Hb]] Hi. by eapply insert_placed. }
  intros []. eapply (triple_bind _ _ _ (fun _ => deployed i d0 m app id)).
  { apply triple_exec. intros d d' Hp Hi. by eapply activate_placed. }
  intros []. eapply (triple_bind _ _ _ (fun _ => deployed i d0 m app id)).
  { destruct old as [old|]; [|by apply triple_ret]. case_match; [|by apply triple_ret]. intros d fs Hd.
    pose proof (collect_old_same old d d fs (fun u n => reflexivity d)) as Ht. destruct (collect_old old d fs) as [[e|[[] d']] fs']; [done|]. cbn in *.
    by eapply deployed_same. }
  intros []. eapply (triple_bind _ _ _ (fun _ => deployed i d0 m app id)); [|intros []; by apply triple_ret].
  intros d fs Hd. match goal with |- match (audit ?a ?n d fs).1 with _ => _ end => pose proof (audit_same a n d d fs eq_refl) as Ht;
    destruct (audit a n d fs) as [[e|[[] d']] fs'] end; [done|]. cbn in *. by eapply deployed_same.
Qed.

(** C20 (A deployment replaces what runs): when an application is deployed, its name
    resolves to the new deployment and to the bytes that were sent, unless it is suspended,
    and every other name of every author resolves to what it did, whatever was collected of
    the deployment that is replaced. *)
Theorem deploy_replaces (r r' : Repo) i created app_rand deployment_rand out :
  catalog_ok (r_db r) -> DeployApplication r i created app_rand deployment_rand = (r', inr out) ->
  resolve_answer (r_db r') (ad_AuthorID i) (ad_AppName i) =
    (if ap_suspended (app_row (out_App out)) then inl ErrSuspended
     else inr (mkRunnable (out_App out) (de_ID (out_Deployment out)) (out_Artifact out) (ai_WASM (ad_Artifact i)))) /\
  forall u n, (u, n) <> (ad_AuthorID i, ad_AppName i) -> resolve_answer (r_db r') u n = resolve_answer (r_db r) u n.
Proof.
  intros Hok. unfold DeployApplication, deploy_call, guarded. destruct (head _); [done|]. destruct (validateArtifact _ _) as [e|m] eqn:Hv; [done|].
  apply validateArtifact_ok in Hv.
  destruct (now_spec (0 :: r_clock r) r (within_own r)) as (E1 & _ & _). destruct (now r) as [r1 t1]. cbn in E1.
  destruct (now_spec (0 :: r_clock r1) r1 (within_own r1)) as (E2 & _ & _). destruct (now r1) as [r2 t2]. cbn in E2.
  destruct (now_spec (0 :: r_clock r2) r2 (within_own r2)) as (E3 & _ & _). destruct (now r2) as [r3 t3]. cbn in E3.
  destruct (now_spec (0 :: r_clock r3) r3 (within_own r3)) as (E4 & _ & _). destruct (now r3) as [r4 t4]. cbn in E4.
  intros Hm. assert (Ed : r_db r4 = r_db r) by congruence. rewrite <- Ed in Hok |- *. clear E1 E2 E3 E4 Ed.
  pose proof (deploy_triple i m (mkDraws t1 t2 t3 t4 app_rand deployment_rand) (r_db r4) Hv Hok) as Ht.
  destruct (mutate_triple _ r4 _ _ _ _ _ eq_refl Ht Hm) as (_ & _ & [(e & ? & _)|(a & [Ha Hd] & [[= ->]|?])]); [done| |done].
  destruct Hd as [Hr (b & Hb & Hw) Ho]. split.
  - unfold resolve_answer. rewrite Hr, orb_false_r. destruct (ap_suspended _); [done|]. rewrite Ha, Hb, Hw. destruct Hv as [-> ->].
    unfold VerifyDigestBytes. by rewrite Z.eqb_refl, eqb_refl.
  - intros u n Hne. apply same_run_resolve. by apply Ho.
Qed.

(** ** Sessions *)

Definition open_of (app : bytes) (d : DB) : Z := count_where (fun _ x => eqb (ss_app x) app && session_open x) (sessions d).

Lemma check_quota_triple d0 f g : triple (fun d => d = d0) (check_quota f g) (fun _ d => d = d0 /\ (0 < f d0 -> g d0 < f d0)).
Proof.
  unfold check_quota. eapply triple_bind; [apply triple_query|]. intros max. cbv beta. case_match eqn:Hm.
  - eapply triple_bind; [apply triple_query|]. intros n. cbv beta. case_match eqn:Hn; [apply triple_err|]. apply triple_ret.
    intros d [[-> ->] ->]. split; [done|]. lia.
  - apply triple_ret. intros d [-> ->]. split; [done|]. lia.
Qed.

(** A session that has been started, and ends. *)
Record started (s : Session) (d d' : DB) : Prop := {
  sd_row : exists ns, d' = set_sessions (<[s_ID s := mkSession (s_AppID s) (s_DeploymentID s) (s_ArtifactDigest s) ns None (s_Log s) (s_LogTruncated s) (s_Identity s)]> (sessions d)) d;
  sd_new : sessions d !! s_ID s = None;
  sd_run : exists a x ar, apps d !! s_AppID s = Some a /\ ap_suspended a = false /\ active d !! s_AppID s = Some (s_DeploymentID s) /\
    (s_DeploymentID s ∉ suspended d) /\ deployments d !! s_DeploymentID s = Some x /\ artifacts d !! dp_artifact x = Some ar /\
    ar_digest ar = s_ArtifactDigest s /\
    (0 < author_quota qt_sessions (ap_author a) d -> open_of (s_AppID s) d' <= author_quota qt_sessions (ap_author a) d) }.

Lemma startable_spec app dep d u s g : startable app dep d = Some (u, s, g) ->
  exists a x ar, apps d !! app = Some a /\ ap_author a = u /\ s = ap_suspended a || bool_decide (dep ∈ suspended d) /\
    active d !! app = Some dep /\ deployments d !! dep = Some x /\ artifacts d !! dp_artifact x = Some ar /\ ar_digest ar = g.
Proof.
  unfold startable. destruct (apps d !! app) as [a|]; [|done]. destruct (deployments d !! dep) as [x|]; [|done].
  destruct (_ || _) eqn:Hc; [done|]. apply orb_false_iff in Hc as [_ Hact%negb_false_iff]. destruct (artifacts d !! dp_artifact x) as [ar|] eqn:Har; [|done].
  cbn. intros [= <- <- <-]. destruct (active d !! app) as [y|]; [|done]. apply eqb_true in Hact as ->. exists a, x, ar. split_and!; done.
Qed.

Lemma start_triple s ns d0 : triple (fun d => d = d0) (StartSession_tx s ns) (fun _ d => started s d0 d).
Proof.
  unfold StartSession_tx. eapply triple_bind; [apply triple_query|]. intros [[[u susp] g]|]; [|apply triple_err]. cbv beta.
  case_match eqn:Hs; [apply triple_err|]. case_match eqn:Hg; [apply triple_err|]. apply negb_false_iff, eqb_true in Hg.
  intros d fs [-> Hrow]. symmetry in Hrow. apply startable_spec in Hrow as (a & x & ar & Ha & Hu & Hsus & Hact & Hx & Har & Hgd). subst susp.
  symmetry in Hsus. apply orb_false_iff in Hsus as [Hap Hdep%bool_decide_eq_false].
  match goal with |- match (?c d0 fs).1 with _ => _ end => cut (triple (fun d => d = d0) c (fun _ d => started s d0 d)); [intros Ht; by apply Ht|] end.
  eapply triple_bind; [apply check_quota_triple|]. intros []. cbv beta. apply triple_exec. intros d d' [-> Hq] Hi. unfold insert_session in Hi. stmt_inv.
  split; [by eexists|done|]. exists a, x, ar. split_and!; try done; [congruence|]. intros Hpos. rewrite Hu in *. specialize (Hq Hpos).
  unfold open_of. cbn. rewrite count_where_insert by done. cbn. rewrite eqb_refl. cbn. lia.
Qed.

(** Ending a session is done once; the instant of the first time is the answer of every
    later one. *)
Lemma end_triple id n d0 : triple (fun d => d = d0) (EndSession_tx id n) (fun t d => exists s,
  sessions d0 !! id = Some s /\ (ss_ended s = Some t -> d = d0) /\
  (ss_ended s = None -> t = n /\ d = set_sessions (<[id := ended (UnixNano n) s]> (sessions d0)) d0) /\ (is_Some (ss_ended s) -> ss_ended s = Some t)).
Proof.
  unfold EndSession_tx. eapply triple_bind; [apply triple_query|]. intros [s|]; [|apply triple_err]. cbv beta. destruct (ss_ended s) as [t|] eqn:He.
  - apply triple_ret. intros d [-> Hs]. exists s. by rewrite He.
  - unfold update_open. eapply (triple_bind _ _ _ (fun _ d => Some s = sessions d0 !! id /\ d = set_sessions (<[id := ended (UnixNano n) s]> (sessions d0)) d0)).
    + eapply (triple_bind _ _ _ (fun _ d => Some s = sessions d0 !! id /\ d = set_sessions (<[id := ended (UnixNano n) s]> (sessions d0)) d0));
        [|intros k; case_match; [apply triple_err|by apply triple_ret]].
      apply triple_statement. intros d k d' [-> Hs]. unfold update_session. intros [= _ <-]. split; [done|]. f_equal. apply map_eq. intros j.
      rewrite lookup_update_where. destruct (decide (j = id)) as [->|Hne].
      * rewrite <- Hs, lookup_insert_eq. cbn. unfold session_open. by rewrite eqb_refl, He.
      * rewrite lookup_insert_ne by done. destruct (sessions d0 !! j); cbn; [by rewrite (proj2 (eqb_false j id) Hne)|done].
    + intros []. apply triple_ret. intros d [Hs ->]. exists s. rewrite He. split; [done|]. split; [done|]. split; [done|]. by intros [? ?].
Qed.

(** (Sessions are admitted): a session is recorded only for the active deployment of its
    application, when neither is suspended, with the digest of the artifact that runs, under
    an identifier that is new, and when the application then has no more open sessions than
    the quota of its author allows. Nothing else changes. *)
Theorem session_admission (r r' : Repo) s : StartSession r s = (r', inr tt) -> started s (r_db r) (r_db r').
Proof.
  unfold StartSession, guarded. destruct (head _); [done|]. cbv zeta.
  assert (Hgo : forall (r1 : Repo) ns, r_db r1 = r_db r ->
    mutate r1 (event (str "session-start") (str "session") (s_ID s)) (StartSession_tx s ns) = (r', inr tt) -> started s (r_db r) (r_db r')).
  { intros r1 ns <- Hm. destruct (mutate_triple _ r1 _ _ _ _ _ eq_refl (start_triple s ns (r_db r1)) Hm) as (_ & _ & [(e & ? & _)|(a & Hst & _)]); done. }
  destruct (UnixNano (s_StartedAt s) =? 0); [|by apply Hgo]. destruct (now_spec (0 :: r_clock r) r (within_own r)) as (E & _ & _).
  destruct (now r) as [r1 t]. by apply Hgo.
Qed.
End Resolve.

(** ** Examples *)

Section Examples.
#[local] Existing Instance plain_platform.

Definition hello_bytes : bytes := [0; 97; 115; 109; 1; 0; 0; 0].
Definition hello_artifact (id : bytes) : ArtifactInput := mkArtifactInput id (digest_of hello_bytes) hello_bytes 1 7 [(str "source", str "main.go")].
Definition hello (artifact : bytes) : ApplicationDeploymentInput :=
  mkDeployInput (str "author_1") (str "device_1") (str "hello") (str "tui") (str "restricted") (str "sha256:src") [] (hello_artifact artifact).
Definition hello_call : any_call := Catalogue (CDeployApplication (hello (str "artifact_1")) 7 (str "r1") (str "d1")).
Definition serving : Repo := run_all [Identity (CRegisterAuthor ann); hello_call] at_start.
Definition answer : Repo * (error + Runnable) := ResolveLeafRunnable serving (str "ann") (str "hello") (str "fp1") [].
Definition hello_run : Runnable :=
  mkRunnable (mkAppOut (str "app_r1") (mkApp (str "author_1") (str "hello") (str "tui") (str "restricted") false 0 0)) (str "dep_d1")
    (mkMetadata (str "artifact_1") (mkArtifact (digest_of hello_bytes) 8 1 7)) hello_bytes.

Lemma database_invariant_witness : r_db at_start = empty_db /\ identity_ok (r_db serving) /\ catalog_ok (r_db serving).
Proof. split; [reflexivity|]. unfold serving. apply database_invariant. reflexivity. Defined.
Lemma serving_ok : identity_ok (r_db serving) /\ catalog_ok (r_db serving).
Proof. unfold serving. apply run_all_ok. split; [apply empty_ok|apply empty_catalog]. Qed.

Lemma leaf_access_exact_witness : answer.2 = inr hello_run /\
  may_run (r_db serving) (str "ann") (str "hello") (str "fp1") [] hello_run /\ VerifyDigest_ok hello_run.
Proof.
  split; [vm_compute; reflexivity|].
  apply (proj1 (leaf_access_exact serving (str "ann") (str "hello") (str "fp1") [] hello_run (proj1 serving_ok) (proj2 serving_ok))).
  vm_compute. reflexivity.
Defined.

(** The same name deployed again, from another artifact. *)
Definition hello2 : ApplicationDeploymentInput := hello (str "artifact_2").
Lemma deploy_replaces_witness :
  let res := DeployApplication serving hello2 7 (str "r2") (str "d2") in
  exists out, res.2 = inr out /\ ap_suspended (app_row (out_App out)) = false /\ de_ID (out_Deployment out) = str "dep_d2" /\
  resolve_answer (r_db res.1) (ad_AuthorID hello2) (ad_AppName hello2) =
    (if ap_suspended (app_row (out_App out)) then inl ErrSuspended
     else inr (mkRunnable (out_App out) (de_ID (out_Deployment out)) (out_Artifact out) (ai_WASM (ad_Artifact hello2)))).
Proof.
  intros res. assert (He : exists out, res.2 = inr out /\ ap_suspended (app_row (out_App out)) = false /\ de_ID (out_Deployment out) = str "dep_d2").
  { vm_compute. eexists. split; [reflexivity|]. split; reflexivity. }
  destruct He as (out & Hout & Hs & Hd). exists out. split; [exact Hout|]. split; [exact Hs|]. split; [exact Hd|].
  refine (proj1 (deploy_replaces serving res.1 hello2 7 (str "r2") (str "d2") out (proj2 serving_ok) _)).
  rewrite <- Hout. apply surjective_pairing.
Defined.

Definition visit : Session := mkSessionInput (str "session_1") (str "app_r1") (str "dep_d1") (digest_of hello_bytes) [] (str "ann") 7 false.
Lemma session_admission_witness : started visit (r_db serving) (r_db (StartSession serving visit).1).
Proof.
  apply session_admission. assert (He : (StartSession serving visit).2 = inr tt) by (vm_compute; reflexivity). rewrite <- He. apply surjective_pairing.
Defined.
End Examples.
End running.
