(* ===== verification/Tenants.v ===== *)
(** * What the transactions of one author leave alone

    A database seen from the authors other than one: their devices, tokens, applications,
    keys, deployments with the artifacts and blobs behind them, secrets and egress hosts. Every
    transaction that the control API runs for an author keeps all of it. *)

From S2P Require Import Prelude Utf8 GoStrings Keys Sha256 Streams SqlRepo SqlDB SqlIdentity SqlIdentityLaws SqlCredentials SqlApps SqlAppsLaws.
Import sqlite db identity identitylaws credentials catalog cataloglaws.

Module tenants.
Open Scope tx_scope.

(** ** Rows of others *)

(** The rows with a property are the same. *)
Definition same_rows {K V} `{Countable K} (P : V -> Prop) (m0 m : gmap K V) : Prop := forall k r, P r -> m0 !! k = Some r <-> m !! k = Some r.

Section Rows.
Context {K V : Type} `{Countable K} (P : V -> Prop).
Implicit Types m : gmap K V.

Lemma rows_refl m : same_rows P m m.
Proof. done. Qed.
Lemma rows_trans m0 m1 m2 : same_rows P m0 m1 -> same_rows P m1 m2 -> same_rows P m0 m2.
Proof. intros E1 E2 k r HP. rewrite (E1 k r HP). by apply E2. Qed.
Lemma same_rows_insert m0 m k v : ~ P v -> m !! k = None -> same_rows P m0 m -> same_rows P m0 (<[k := v]> m).
Proof.
  intros Hv Hk Hs i r HP. rewrite (Hs i r HP), lookup_insert_Some. split; [|by intros [[_ ->]|[_ ?]]].
  intros Hi. right. split; [|done]. intros ->. congruence.
Qed.
Lemma rows_update m0 m (Q : K -> V -> bool) f :
  (forall k r, m !! k = Some r -> Q k r = true -> ~ P r /\ ~ P (f r)) -> same_rows P m0 m -> same_rows P m0 (update_where Q f m).
Proof.
  intros HQ Hs i r HP. rewrite (Hs i r HP), lookup_update_where. destruct (m !! i) as [x|] eqn:Hx; [|done]. cbn.
  destruct (Q i x) eqn:HQx; [|done]. destruct (HQ _ _ Hx HQx). split; intros [= E]; by subst r.
Qed.
Lemma rows_delete_where m0 m (Q : K -> V -> bool) :
  (forall k r, m !! k = Some r -> P r -> Q k r = false) -> same_rows P m0 m -> same_rows P m0 (delete_where Q m).
Proof. intros HQ Hs i r HP. rewrite (Hs i r HP), lookup_delete_where. split; [|by intros [? _]]. eauto. Qed.
Lemma rows_delete m0 m k : (forall r, m !! k = Some r -> ~ P r) -> same_rows P m0 m -> same_rows P m0 (delete k m).
Proof.
  intros Hk Hs i r HP. rewrite (Hs i r HP), lookup_delete_Some. split; [|by intros [_ ?]]. intros Hi. split; [|done]. intros ->. by apply (Hk r).
Qed.
End Rows.

(** ** The view of the others *)

(** An application of another author than [a]. *)
Definition foreign (a : bytes) (d : DB) (app : bytes) : Prop := exists r, apps d !! app = Some r /\ ap_author r <> a.

(** The artifact of a deployment, its metadata and its bytes. *)
Definition same_artifact (id : bytes) (d0 d : DB) : Prop :=
  (forall r, artifacts d0 !! id = Some r -> artifacts d !! id = Some r) /\
  (forall key, build_metadata d !! (id, key) = build_metadata d0 !! (id, key)) /\
  (forall r b, artifacts d0 !! id = Some r -> blobs d0 !! ar_digest r = Some b -> blobs d !! ar_digest r = Some b).

Record others_keep (a : bytes) (d0 d : DB) : Prop := {
  os_server : server_identity d = server_identity d0; os_authors : authors d = authors d0; os_tombstones : tombstones d = tombstones d0;
  os_recovery : recovery d = recovery d0; os_bootstraps : bootstraps d = bootstraps d0; os_quotas : quotas d = quotas d0;
  os_devices : same_rows (fun r => dv_author r <> a) (devices d0) (devices d);
  os_tokens : same_rows (fun r => tk_author r <> a) (tokens d0) (tokens d);
  os_apps : same_rows (fun r => ap_author r <> a) (apps d0) (apps d);
  os_keys : same_rows (fun r => foreign a d0 (ak_app r)) (access_keys d0) (access_keys d);
  os_deployments : same_rows (fun r => foreign a d0 (dp_app r)) (deployments d0) (deployments d);
  os_active : forall app, foreign a d0 app -> active d !! app = active d0 !! app;
  os_suspended : forall dep x, deployments d0 !! dep = Some x -> foreign a d0 (dp_app x) -> dep ∈ suspended d <-> dep ∈ suspended d0;
  os_artifacts : forall dep x, deployments d0 !! dep = Some x -> foreign a d0 (dp_app x) -> same_artifact (dp_artifact x) d0 d;
  os_config : cap_config d = cap_config d0; os_values : cap_values d = cap_values d0; os_sessions : sessions d = sessions d0;
  os_secrets : forall app key, foreign a d0 app -> secrets d !! (app, key) = secrets d0 !! (app, key);
  os_secret_values : forall app key, foreign a d0 app -> secret_values d !! (app, key) = secret_values d0 !! (app, key);
  os_egress : forall app host, foreign a d0 app -> (app, host) ∈ egress d <-> (app, host) ∈ egress d0;
  os_audit : audit_events d0 ⊆ audit_events d }.

Lemma others_refl a d : others_keep a d d.
Proof. by split. Qed.

Section Statements.
Context (a : bytes) (d0 : DB).
Abbreviation same := (others_keep a d0).
Abbreviation theirs := (foreign a d0).

(** Applications stay with their authors. *)
Lemma foreign_author d app : same d -> theirs app -> exists u, author_of_app d app = Some u /\ u <> a.
Proof.
  intros Hs (r & Hr & Hu). exists (ap_author r). split; [|done]. apply (os_apps _ _ _ Hs) in Hr; [|done]. unfold author_of_app. by rewrite Hr.
Qed.
Lemma own_app d app : same d -> author_of_app d app = Some a -> ~ theirs app.
Proof. intros Hs Ha Hf. destruct (foreign_author _ _ Hs Hf) as (u & Hu & Hne). congruence. Qed.

(** A deployment that is not that of another author. *)
Definition own_deployment (dep : bytes) : Prop := forall x, deployments d0 !! dep = Some x -> ~ theirs (dp_app x).
Lemma own_deployment_of d dep x : same d -> deployments d !! dep = Some x -> ~ theirs (dp_app x) -> own_deployment dep.
Proof. intros Hs Hx Hn y Hy Hf. apply (os_deployments _ _ _ Hs dep y Hf) in Hy. congruence. Qed.
(** An artifact that no deployment of another author has. *)
Definition own_artifact (id : bytes) : Prop := forall dep x, deployments d0 !! dep = Some x -> theirs (dp_app x) -> dp_artifact x <> id.

(** *** Statements *)

Lemma insert_audit_keep i w d d' : insert_audit i w d = inr d' -> same d -> same d'.
Proof.
  unfold insert_audit. intros Hi []. stmt_inv. split; try done; cbn. etrans; [done|]. by apply insert_subseteq.
Qed.
Lemma insert_token_keep i w d d' : insert_token i w d = inr d' -> tk_author w = a -> same d -> same d'.
Proof. unfold insert_token. intros Hi Hw []. stmt_inv. split; try done; cbn. apply same_rows_insert; [|done..]. congruence. Qed.
Lemma revoke_devices_keep t n k b d d' :
  active_device t a d <> 0 -> revoke_devices (fun i _ => eqb i t) n k b d = inr d' -> same d -> same d'.
Proof.
  unfold revoke_devices. intros (x & Hx & Hu & _)%active_device_spec Hi []. stmt_inv. split; try done; cbn. apply rows_update; [|done].
  intros i r Hr [->%eqb_true _]%andb_true_iff. assert (r = x) as -> by congruence. cbn. split; congruence.
Qed.
Lemma insert_app_keep i w d d' : insert_app i w d = inr d' -> ap_author w = a -> same d -> same d'.
Proof. unfold insert_app. intros Hi Hw []. stmt_inv. split; try done; cbn. apply same_rows_insert; [|done..]. congruence. Qed.
Lemma update_app_keep i kd ac n d d' : author_of_app d i = Some a -> update_app i kd ac n d = inr d' -> same d -> same d'.
Proof.
  unfold update_app, author_of_app. intros Ha Hi []. stmt_inv. split; try done; cbn. apply rows_update; [|done].
  intros k r Hr ->%eqb_true. rewrite Hr in Ha. injection Ha as Ha. cbn. split; congruence.
Qed.
Lemma insert_key_keep i w d d' : insert_key i w d = inr d' -> ~ theirs (ak_app w) -> same d -> same d'.
Proof. unfold insert_key. intros Hi Hw []. stmt_inv. split; try done; cbn. by apply same_rows_insert. Qed.
Lemma delete_key_keep i app d d' : delete_key i app d = inr d' -> ~ theirs app -> same d -> same d'.
Proof.
  intros [= <-] Hn []. split; try done; cbn. apply rows_delete_where; [|done]. intros k r _ Hf. apply andb_false_iff. right. apply eqb_false.
  intros E. by rewrite E in Hf.
Qed.
Lemma insert_deployment_keep i w d d' : insert_deployment i w d = inr d' -> ~ theirs (dp_app w) -> same d -> same d'.
Proof. unfold insert_deployment. intros Hi Hw []. stmt_inv. split; try done; cbn. by apply same_rows_insert. Qed.
Lemma upsert_active_keep app dep d d' : upsert_active app dep d = inr d' -> ~ theirs app -> same d -> same d'.
Proof.
  unfold upsert_active. intros Hi Hn []. stmt_inv. split; try done; cbn. intros x Hx. rewrite lookup_insert_ne; [eauto|]. by intros ->.
Qed.
Lemma upsert_secret_keep app key w d d' : upsert_secret app key w d = inr d' -> ~ theirs app -> same d -> same d'.
Proof.
  unfold upsert_secret. intros Hi Hn []. stmt_inv. split; try done; cbn. intros x k Hx. rewrite lookup_insert_ne; [eauto|]. by intros [= -> _].
Qed.
Lemma upsert_secret_value_keep app key v d d' : upsert_secret_value app key v d = inr d' -> ~ theirs app -> same d -> same d'.
Proof.
  unfold upsert_secret_value. intros Hi Hn []. stmt_inv. split; try done; cbn. intros x k Hx. rewrite lookup_insert_ne; [eauto|].
  by intros [= -> _].
Qed.
Lemma delete_secret_keep app key d d' : delete_secret app key d = inr d' -> ~ theirs app -> same d -> same d'.
Proof.
  intros [= <-] Hn []. split; try done; cbn; intros x k Hx; rewrite lookup_delete_ne; eauto; by intros [= -> _].
Qed.
Lemma insert_egress_keep app host d d' : insert_egress app host d = inr d' -> ~ theirs app -> same d -> same d'.
Proof.
  unfold insert_egress. intros Hi Hn []. stmt_inv. split; try done; cbn. intros x h Hx. rewrite elem_of_union, elem_of_singleton.
  rewrite os_egress0 by done. split; [|by right]. by intros [[= -> _]|?].
Qed.
Lemma delete_egress_keep app host d d' : delete_egress app host d = inr d' -> ~ theirs app -> same d -> same d'.
Proof.
  intros [= <-] Hn []. split; try done; cbn. intros x h Hx. rewrite elem_of_difference, not_elem_of_singleton, os_egress0 by done.
  split; [by intros [? _]|]. intros Hin. split; [done|]. by intros [= -> _].
Qed.

(** *** Artifacts *)

Lemma artifacts_map (f : DB -> DB) d :
  (forall dep x, deployments d0 !! dep = Some x -> theirs (dp_app x) -> same_artifact (dp_artifact x) d0 d -> same_artifact (dp_artifact x) d0 (f d)) ->
  (server_identity (f d) = server_identity d /\ d_identity (f d) = d_identity d /\ d_settings (f d) = d_settings d /\
   audit_events (f d) = audit_events d /\ apps (f d) = apps d /\ access_keys (f d) = access_keys d /\ deployments (f d) = deployments d /\
   active (f d) = active d /\ suspended (f d) = suspended d) -> same d -> same (f d).
Proof.
  unfold authors, tombstones, recovery, bootstraps, quotas, devices, tokens, cap_config, cap_values, sessions, secrets, secret_values, egress.
  intros Hf (E1 & E2 & E3 & E4 & E5 & E6 & E7 & E8 & E9) []. split;
    unfold authors, tombstones, recovery, bootstraps, quotas, devices, tokens, cap_config, cap_values, sessions, secrets, secret_values, egress;
    rewrite ?E1, ?E2, ?E3, ?E4, ?E5, ?E6, ?E7, ?E8, ?E9; try done. eauto.
Qed.
Lemma insert_blob_keep i w d d' : insert_blob i w d = inr d' -> same d -> same d'.
Proof.
  unfold insert_blob. intros Hi. stmt_inv. apply (artifacts_map (set_blobs (<[i := w]> (blobs d)))); [|done].
  intros dep x Hx Hf (Hrow & Hbuild & Hblob). split_and!; try done; cbn. intros r b Hr Hb. rewrite lookup_insert_ne; [by eapply Hblob|]. intros ->.
  rewrite (Hblob _ _ Hr Hb) in *. done.
Qed.
Lemma insert_artifact_keep i w d d' : insert_artifact i w d = inr d' -> same d -> same d'.
Proof.
  unfold insert_artifact. intros Hi. stmt_inv. apply (artifacts_map (set_artifacts (<[i := w]> (artifacts d)))); [|done].
  intros dep x Hx Hf (Hrow & Hbuild & Hblob). split_and!; try done; cbn. intros r Hr. rewrite lookup_insert_ne; [by eapply Hrow|]. intros ->.
  rewrite (Hrow _ Hr) in *. done.
Qed.
Lemma insert_build_keep i k v d d' : insert_build i k v d = inr d' -> own_artifact i -> same d -> same d'.
Proof.
  unfold insert_build. intros Hi Ho. stmt_inv. apply (artifacts_map (set_build (<[(i, k) := v]> (build_metadata d)))); [|done].
  intros dep x Hx Hf (Hrow & Hbuild & Hblob). split_and!; try done; cbn. intros key. rewrite lookup_insert_ne; [done|]. intros [= E _]. symmetry in E. by eapply Ho.
Qed.
Lemma delete_deployment_keep i d d' : delete_deployment i d = inr d' -> own_deployment i -> same d -> same d'.
Proof.
  unfold delete_deployment. intros Hi Ho Hs. stmt_inv. assert (Hn : forall x, deployments d !! i = Some x -> ~ theirs (dp_app x)).
  { intros x Hx Hf. apply (os_deployments _ _ _ Hs i x Hf) in Hx. by eapply Ho. }
  destruct Hs. split; try done; cbn.
  - by apply rows_delete.
  - intros dep x Hx Hf. rewrite elem_of_difference, not_elem_of_singleton, (os_suspended0 dep x Hx Hf). split; [by intros [? _]|].
    intros Hin. split; [done|]. intros ->. by eapply Ho.
Qed.
Lemma delete_artifacts_keep P d d' : catalog_ok d0 -> delete_artifacts P d = inr d' -> same d -> same d'.
Proof.
  intros Hok. unfold delete_artifacts. intros [= <-] Hs. set (m := delete_where _ (artifacts d)).
  apply (artifacts_map (fun d => set_build (delete_where (fun k _ => negb (has m k.1)) (build_metadata d)) (set_artifacts m d))); [|done..].
  intros dep x Hx Hf (Hrow & Hbuild & Hblob). assert (Hm : forall r, artifacts d0 !! dp_artifact x = Some r -> m !! dp_artifact x = Some r).
  { intros r Hr. unfold m. apply lookup_delete_where. split; [by apply Hrow|]. apply (os_deployments _ _ _ Hs dep x Hf) in Hx.
    rewrite (proj2 (artifact_used_true _ _)); [apply andb_false_r|]. eauto. }
  split_and!; try done; cbn. intros key. rewrite <- Hbuild. destruct (build_metadata d !! (dp_artifact x, key)) as [v|] eqn:Hv.
  - apply lookup_delete_where. split; [done|]. cbn. apply negb_false_iff, has_true.
    destruct (ok_deployments _ Hok _ _ Hx) as [[r Hr] _]. eauto.
  - apply lookup_delete_where_None. intros v. by rewrite Hv.
Qed.
Lemma delete_blobs_keep P d d' : delete_blobs P d = inr d' -> same d -> same d'.
Proof.
  unfold delete_blobs. intros [= <-] Hs. set (m := delete_where _ (blobs d)).
  apply (artifacts_map (set_blobs m)); [|done..]. intros dep x Hx Hf (Hrow & Hbuild & Hblob). split_and!; try done; cbn. intros r b Hr Hb.
  unfold m. apply lookup_delete_where. split; [by eapply Hblob|]. rewrite (proj2 (blob_used_true _ _)); [apply andb_false_r|]. eauto.
Qed.
End Statements.
#[export] Hint Resolve insert_audit_keep insert_token_keep insert_app_keep insert_key_keep delete_key_keep
  insert_deployment_keep upsert_active_keep upsert_secret_keep upsert_secret_value_keep delete_secret_keep insert_egress_keep delete_egress_keep
  insert_blob_keep insert_artifact_keep insert_build_keep delete_deployment_keep delete_artifacts_keep delete_blobs_keep : keeps.

(** ** Transactions *)

Lemma triple_and {DB A} (P : DB -> Prop) (c : Tx DB A) (Q R : A -> DB -> Prop) : triple P c Q -> triple P c R -> triple P c (fun a d => Q a d /\ R a d).
Proof. intros HQ HR d fs HP. specialize (HQ d fs HP). specialize (HR d fs HP). by destruct (c d fs) as [[e|[a d']] fs']. Qed.
(** What does not depend on the database may be assumed. *)
Lemma triple_pure {DB A} (I : DB -> Prop) (P : DB -> Prop) (F : Prop) (c : Tx DB A) (Q : A -> DB -> Prop) :
  (forall d, P d -> I d /\ F) -> (F -> triple I c Q) -> triple P c Q.
Proof. intros HP Hc d fs Hd. destruct (HP d Hd) as [HI HF]. by apply (Hc HF). Qed.

Section Transactions.
Context `{Platform} (a : bytes) (d0 : DB) (Hstart : catalog_ok d0).
Abbreviation same := (others_keep a d0).
Abbreviation theirs := (foreign a d0).

(** The catalogue is in order, and others have what they had. *)
Definition held (d : DB) : Prop := catalog_ok d /\ same d.
Lemma held_keeps {A} (c : TxDB A) : keeps catalog_ok c -> triple held c (fun _ => same) -> keeps held c.
Proof. intros Hc Hs. apply triple_and; [|done]. eapply triple_conseq; [exact Hc| |done]. by intros d [? _]. Qed.
Lemma held_keep {A} (c : TxDB A) : keeps catalog_ok c -> keeps same c -> keeps held c.
Proof. intros Hc Hs. apply held_keeps; [done|]. eapply triple_conseq; [exact Hs| |done]. by intros d [_ ?]. Qed.

Lemma audit_keep i n : keeps same (audit i n).
Proof. unfold audit. keeps_tac. Qed.
#[local] Hint Resolve audit_keep require_keeps_any check_quota_keeps : keeps.
#[local] Hint Extern 2 (_ = a) => solve [cbn; assumption] : keeps.
#[local] Hint Extern 2 (~ foreign _ _ _) => solve [cbn; assumption] : keeps.

Lemma app_of_author d app : app_of app a d = true -> author_of_app d app = Some a.
Proof. unfold app_of, author_of_app. destruct (apps d !! app) as [r|]; [|done]. intros Hr%eqb_true. cbn. by rewrite Hr. Qed.
Lemma removable_author app key actor d : removable a app key actor d <> 0 -> author_of_app d app = Some a.
Proof.
  unfold removable. destruct (access_keys d !! key) as [k|]; [|done]. destruct (_ && _) eqn:Hb; [|done]. intros _.
  apply andb_true_iff in Hb as [_ Hb]. by apply app_of_author.
Qed.

(** A transaction that a call of the identity interface runs. *)
Lemma always_inv {A} (I : DB -> Prop) (c : TxDB A) : keeps I (always c) -> keeps I c.
Proof.
  intros Hk d fs Hd. specialize (Hk d fs Hd). unfold always, answering, tx_bind in Hk. by destruct (c d fs) as [[e|[x d']] fs'].
Qed.

Lemma CreateEnrollmentToken_held i n : ti_AuthorID i = a -> keeps held (CreateEnrollmentToken_tx i n).
Proof.
  intros Ha. apply held_keep; [exact (always_inv _ _ (identity_effect_catalog (CCreateEnrollmentToken i) n n))|].
  unfold CreateEnrollmentToken_tx. keeps_tac.
Qed.
(** [require f] holds of the database it leaves. *)
Lemma require_then {A} (I : DB -> Prop) f (c : TxDB A) Q : triple (fun d => I d /\ f d <> 0) c Q -> triple I (let! _ := require f in c) Q.
Proof. intros Hc. eapply triple_bind; [apply require_any|]. by intros []. Qed.

Lemma RevokeDeviceAuthorized_held actor target ns n : keeps held (RevokeDeviceAuthorized_tx a actor target ns n).
Proof.
  apply held_keeps; [unfold RevokeDeviceAuthorized_tx; pose proof revoke_guarded_catalog; keeps_tac|].
  unfold RevokeDeviceAuthorized_tx, revoke_guarded. apply require_then, require_then.
  eapply triple_bind; [apply triple_query|]. intros k. cbv beta. case_match; [apply triple_err|].
  eapply (triple_bind _ _ _ (fun _ => same)); [|intros []; apply audit_keep].
  apply triple_exec. intros d d' [[[[_ Hs] _] Ht] _] Hi. by eapply revoke_devices_keep.
Qed.
Lemma CreateApp_held i ns n : in_AuthorID i = a -> keeps held (CreateApp_tx i ns n).
Proof. intros Ha. apply held_keep; [apply CreateApp_keeps|]. unfold CreateApp_tx. keeps_tac. Qed.
Lemma AddAccessKey_held i ns n : ~ theirs (ki_AppID i) -> keeps held (AddAccessKey_tx i ns n).
Proof. intros Ha. apply held_keep; [apply AddAccessKey_keeps|]. unfold AddAccessKey_tx. keeps_tac. Qed.
Lemma RemoveAccessKey_held app key actor n : keeps held (RemoveAccessKey_tx a app key actor n).
Proof.
  apply held_keeps; [apply RemoveAccessKey_keeps|]. unfold RemoveAccessKey_tx. apply require_then.
  apply (triple_pure same _ (~ theirs app)).
  { intros d [[Hok Hs] Hr%removable_author]. split; [done|]. by apply (own_app _ _ d). }
  intros Hn. change (keeps same (let! _ := Exec (delete_key key app) in
    audit (mkAuditInput (str "audit_" ++ key ++ str "_remove") a (str "device") a actor (str "app.access.remove") (str "access_key") key actor app []) n)).
  keeps_tac.
Qed.
Lemma SetSecret_held app key v n : ~ theirs app -> keeps held (SetSecret_tx app key v n).
Proof. intros Ha. apply held_keep; [apply SetSecret_keeps|]. unfold SetSecret_tx, appExists. keeps_tac. Qed.
Lemma SetSecretDelete_held app key : ~ theirs app -> keeps held (SetSecretDelete_tx app key).
Proof.
  intros Ha. apply held_keep; [apply SetSecretDelete_keeps|]. unfold SetSecretDelete_tx. keeps_tac.
  apply keeps_statement. intros d n d' Hi Hs. destruct (delete_secret app key d) as [e|d1] eqn:Hd; [done|]. injection Hi as _ <-. by eapply delete_secret_keep.
Qed.
Lemma SetEgressHost_held app host b : ~ theirs app -> keeps held (SetEgressHost_tx app host b).
Proof. intros Ha. apply held_keep; [apply SetEgressHost_keeps|]. unfold SetEgressHost_tx, appExists. destruct b; keeps_tac. Qed.

(** *** Deploying *)

Lemma fresh_artifact d id : same d -> artifacts d !! id = None -> own_artifact a d0 id.
Proof.
  intros Hs Hn dep x Hx Hf <-. destruct (ok_deployments _ Hstart _ _ Hx) as [[r Hr] _].
  destruct (os_artifacts _ _ _ Hs dep x Hx Hf) as (Hrow & _). specialize (Hrow _ Hr). congruence.
Qed.
Lemma insert_metadata_keep id l : own_artifact a d0 id -> keeps same (insert_metadata id l).
Proof. intros Ho. induction l as [|[k v] l IH]; cbn; keeps_tac. Qed.
Lemma store_keep m i : keeps same (store_artifact m i).
Proof.
  unfold store_artifact. cbv zeta. apply keeps_bind; [keeps_tac|]. intros stored. apply keeps_bind; [keeps_tac|]. intros [].
  eapply (triple_bind _ _ _ (fun _ d => same d /\ own_artifact a d0 (am_ID m))).
  - apply triple_exec. intros d d' Hs Hi. split; [by eapply insert_artifact_keep|]. apply (fresh_artifact d); [done|].
    unfold insert_artifact in Hi. by stmt_inv.
  - intros []. apply (triple_pure same _ (own_artifact a d0 (am_ID m))); [done|]. apply insert_metadata_keep.
Qed.
Lemma collect_old_keep old : own_deployment a d0 old -> keeps same (collect_old old).
Proof. intros Ho. unfold collect_old. keeps_tac. Qed.

Lemma deploy_app_held i w : ad_AuthorID i = a ->
  triple (fun d => held d /\ active_device (ad_DeviceID i) (ad_AuthorID i) d <> 0) (deploy_app i w) (fun app d => (catalog_ok d /\ ready i app d) /\ same d).
Proof.
  intros Ha. apply triple_and; [eapply triple_conseq; [apply deploy_app_triple| |done]; by intros d [[? _] ?]|].
  apply (triple_conseq same _ _ (fun _ => same)); [|by intros d [[_ ?] _]|done].
  change (keeps same (deploy_app i w)). unfold deploy_app. keeps_tac.
Qed.
Lemma reconcile_held i w app : ad_AuthorID i = a ->
  triple (fun d => (catalog_ok d /\ ready i app d) /\ same d) (reconcile_app i w app) (fun app' d => (catalog_ok d /\ ready i app' d /\ app_ID app' = app_ID app) /\ same d).
Proof.
  intros Ha. apply triple_and; [eapply triple_conseq; [apply reconcile_triple| |done]; by intros d [? _]|].
  unfold reconcile_app. cbv zeta. case_match; [|apply triple_ret; by intros d [_ ?]].
  eapply (triple_bind _ _ _ (fun _ => same)); [|intros []; by apply triple_ret].
  apply triple_exec. intros d d' [[_ [_ Happ]] Hs] Hi. rewrite Ha in Happ. by eapply update_app_keep.
Qed.

Lemma DeployApplication_held i m w : ad_AuthorID i = a -> artifact_valid m (ad_Artifact i) -> keeps held (DeployApplication_tx i m w).
Proof.
  intros Ha Hv. apply held_keeps; [by apply DeployApplication_keeps|]. unfold DeployApplication_tx. apply require_then.
  eapply triple_bind; [by apply deploy_app_held|]. intros app0. eapply triple_bind; [by apply reconcile_held|]. intros app. cbv beta.
  eapply triple_bind; [apply triple_query|]. intros old. cbv beta.
  apply (triple_pure same _ (~ theirs (app_ID app) /\ forall x, old = Some x -> own_deployment a d0 x)).
  { intros d [[(Hok & [_ Happ] & _) Hs] ->]. rewrite Ha in Happ. pose proof (own_app _ _ _ _ Hs Happ) as Hn. split; [done|]. split; [done|].
    intros x Hx. destruct (ok_active _ Hok _ _ Hx) as (y & Hy & E). rewrite <- E in Hn. by eapply own_deployment_of. }
  intros [Hn Hold]. pose proof (store_keep m (ad_Artifact i)). assert (Hc : forall x, old = Some x -> keeps same (collect_old x)) by eauto using collect_old_keep.
  cbv zeta. match goal with |- triple _ ?c _ => change (keeps same c) end.
  destruct old as [x|]; [specialize (Hc x eq_refl)|]; keeps_tac.
Qed.
(** It is an application of the author. *)
Lemma DeployApplication_own i m w : ad_AuthorID i = a -> triple held (DeployApplication_tx i m w) (fun out _ => ~ theirs (app_ID (out_App out))).
Proof.
  intros Ha. unfold DeployApplication_tx. apply require_then.
  eapply triple_bind; [by apply deploy_app_held|]. intros app0. eapply triple_bind; [by apply reconcile_held|]. intros app. cbv beta.
  apply (triple_pure (fun _ => True) _ (~ theirs (app_ID app))).
  { intros d [(_ & [_ Happ] & _) Hs]. rewrite Ha in Happ. split; [done|]. by apply (own_app _ _ d). }
  intros Hn. repeat (eapply (triple_bind _ _ _ (fun _ _ => True)); [by intros d fs _; repeat case_match|intros ?; cbv beta zeta]). by apply triple_ret.
Qed.
End Transactions.
End tenants.
