(* ===== verification/Service.v ===== *)
(** * The identity service (internal/server/identity/service.go)

    Between the servers and the repository: configuration gates, secrets that are turned
    into salted digests before anything is stored, fresh identifiers and salts, and the two
    ends of adding a device. Time and randomness are streams of answers; the options that
    replace the clock and the identifier factory are not modelled. *)

From S2P Require Import Prelude Utf8 GoStrings Keys Streams Sha256 Json SqlRepo SqlDB SqlIdentity SqlIdentityLaws SqlCredentials SqlApps.
Import sqlite db identity identitylaws credentials catalog.

Module service.

Inductive SvcErr := ErrSQL (e : error) | ErrGateDisabled | ErrSecret | ErrRandom.

(** The part of the configuration that the service reads. *)
Record Config := mkConfig {
  HTTP_Enabled : bool; SSH_Enabled : bool; Gateway_Enabled : bool; MaxApps : Z; MaxDeployments : Z; MaxSessions : Z }.

(** [s_clock] answers [s.now] and [s_rand] answers [rand.Read], [None] for an error. *)
Record Service := mkService { s_repo : Repo; s_cfg : Config; s_clock : list Time; s_rand : list (option bytes) }.

Definition Svc (A : Type) : Type := Service -> Service * (SvcErr + A).
Definition svc_ret {A} (a : A) : Svc A := fun s => (s, inr a).
Definition svc_err {A} (e : SvcErr) : Svc A := fun s => (s, inl e).
Definition svc_bind {A B} (c : Svc A) (k : A -> Svc B) : Svc B :=
  fun s => let '(s, r) := c s in match r with inl e => (s, inl e) | inr a => k a s end.

Declare Scope svc_scope.
Delimit Scope svc_scope with svc.
Notation "'let*' x ':=' c 'in' k" := (svc_bind c (fun x => k))
  (at level 10, x binder, c at level 100, k at level 200, right associativity) : svc_scope.
Open Scope svc_scope.

(** A call of the repository. *)
Definition with_repo {A} (f : Repo -> Repo * (error + A)) : Svc A :=
  fun s => let '(r, res) := f (s_repo s) in
           (mkService r (s_cfg s) (s_clock s) (s_rand s), match res with inl e => inl (ErrSQL e) | inr a => inr a end).
Definition s_now : Svc Time :=
  fun s => match s_clock s with
           | [] => (s, inr 0)
           | t :: ts => (mkService (s_repo s) (s_cfg s) ts (s_rand s), inr t)
           end.
(** [rand.Read] fills the buffer. *)
Definition read_random (size : nat) (l : list (option bytes)) : list (option bytes) * option bytes :=
  match l with
  | [] => ([], None)
  | b :: bs => (bs, (fun b => take size (b ++ replicate size 0)) <$> b)
  end.
Definition draw (size : nat) (s : Service) : Service * option bytes :=
  let '(bs, b) := read_random size (s_rand s) in (mkService (s_repo s) (s_cfg s) (s_clock s) bs, b).
Definition randomBytes (size : nat) : Svc bytes :=
  fun s => let '(s, b) := draw size s in (s, match b with Some b => inr b | None => inl ErrRandom end).

(** [%x] of a number *)
Fixpoint hex_digits (fuel : nat) (n : Z) (acc : bytes) : bytes :=
  match fuel with
  | O => acc
  | S fuel => if n <? 16 then hex_char n :: acc else hex_digits fuel (n / 16) (hex_char (n mod 16) :: acc)
  end.
Definition hex_number (n : Z) : bytes := if n <? 0 then 45 :: hex_digits 16 (- n) [] else hex_digits 16 n [].

Definition randomID (prefix : bytes) : Svc bytes :=
  fun s => let '(s, r) := randomBytes 16 s in
           match r with
           | inl _ => (let* t := s_now in svc_ret (prefix ++ str "_" ++ hex_number (UnixNano t))) s
           | inr b => (s, inr (prefix ++ str "_" ++ hex b))
           end.

Inductive Gate := GateHTTP | GateSSH | GateGateway.
Definition enabled (c : Config) (g : Gate) : bool :=
  match g with GateHTTP => HTTP_Enabled c | GateSSH => SSH_Enabled c | GateGateway => Gateway_Enabled c end.
Definition requireGate (g : Gate) : Svc unit := fun s => (s, if enabled (s_cfg s) g then inr tt else inl ErrGateDisabled).

Definition validateSecret (secret : bytes) : Svc unit := if (len secret <? 16) || (4096 <? len secret) then svc_err ErrSecret else svc_ret tt.
Definition deriveVerifier (salt secret : bytes) : bytes := sha256 (salt ++ secret).

(** [base64.RawURLEncoding] *)
Definition raw_url (b : bytes) : bytes :=
  map (fun c => if c =? 43 then 45 else if c =? 47 then 95 else c) (List.filter (fun c => negb (c =? 61)) (json.b64_encode b)).

(** The instants of a challenge. *)
Definition minute : Z := 60 * 1000000000.

Section Operations.
Context `{Platform}.

Record RegisterInput := mkRegister { rg_Handle : bytes; rg_DeviceName : bytes; rg_PublicKey : bytes; rg_Fingerprint : bytes; rg_RecoverySecret : bytes }.
Record EnrollmentChallenge := mkChallenge { ec_ID : bytes; ec_AuthorID : bytes; ec_DeviceName : bytes; ec_Secret : bytes; ec_ExpiresAt : Time }.

Definition CreateBootstrapAuthorityLocal (id handle deviceName salt verifier : bytes) (expiresAt : Time) : Svc BootstrapAuthority :=
  with_repo (fun r => CreateBootstrapAuthority r id handle deviceName salt verifier expiresAt).
Definition BootstrapCredential (id : bytes) : Svc BootstrapAuthority := with_repo (fun r => BootstrapAuthorityCredential r id).
Definition EnrollmentCredential (id : bytes) : Svc PairingCredential := with_repo (fun r => identity.EnrollmentCredential r id).
Definition RecoveryCredential (handle : bytes) : Svc PairingCredential := with_repo (fun r => identity.RecoveryCredential r handle).
Definition CompleteBootstrapRegistration (authorityID verifier : bytes) (i : RegistrationInput) : Svc (Author * Device) :=
  with_repo (fun r => identity.CompleteBootstrapRegistration r authorityID verifier i).
Definition CompleteDeviceAdditionVerifier (i : DeviceEnrollmentInput) : Svc Device := with_repo (fun r => CompleteDeviceEnrollment r i).
Definition CompleteRecovery (i : RecoveryInput) : Svc Device := with_repo (fun r => identity.CompleteRecovery r i).
Definition author (id : bytes) : Svc Author := with_repo (fun r => get_author r id).

Definition registerAuthor (i : RegisterInput) : Svc (Author * Device) :=
  let* _ := validateSecret (rg_RecoverySecret i) in
  let* authorID := randomID (str "author") in
  let* deviceID := randomID (str "device") in
  let* salt := randomBytes 16 in
  let* created := s_now in
  fun s =>
  let quota := mkQuotaInput authorID (mkQuota (MaxApps (s_cfg s)) (MaxDeployments (s_cfg s)) 0 (MaxSessions (s_cfg s))) in
  with_repo (fun r => RegisterAuthor r (mkRegistration authorID (rg_Handle i) deviceID (rg_DeviceName i) (rg_PublicKey i) (rg_Fingerprint i)
    salt (deriveVerifier salt (rg_RecoverySecret i)) created (Some quota))) s.
Definition RegisterAuthor (i : RegisterInput) : Svc (Author * Device) := let* _ := requireGate GateHTTP in registerAuthor i.
Definition RegisterAuthorLocal (i : RegisterInput) : Svc (Author * Device) := registerAuthor i.

Definition beginDeviceAddition (authorID issuingDeviceID deviceName : bytes) : Svc EnrollmentChallenge :=
  let* rawSecret := randomBytes 32 in
  let secret := raw_url rawSecret in
  let* salt := randomBytes 16 in
  let* t := s_now in
  let expires := t + 15 * minute in
  let* id := randomID (str "enroll") in
  let* token := with_repo (fun r => CreateEnrollmentToken r (mkTokenInput id authorID (str "add_device") (str "device") issuingDeviceID deviceName
                                     salt (deriveVerifier salt secret) expires)) in
  svc_ret (mkChallenge (t_ID token) (tk_author (t_row token)) (tk_name (t_row token)) secret expires).
Definition BeginDeviceAddition (authorID issuingDeviceID deviceName : bytes) : Svc EnrollmentChallenge :=
  let* _ := requireGate GateSSH in beginDeviceAddition authorID issuingDeviceID deviceName.

Definition CompleteDeviceAddition (tokenID secret publicKey fingerprint : bytes) : Svc Device :=
  let* _ := requireGate GateSSH in
  let* _ := validateSecret secret in
  let* salt := with_repo (fun r => EnrollmentSalt r tokenID) in
  let* id := randomID (str "device") in
  with_repo (fun r => CompleteDeviceEnrollment r (mkEnrollment tokenID id publicKey fingerprint (deriveVerifier salt secret))).

Definition RotateRecovery (authorID currentSecret nextSecret : bytes) : Svc unit :=
  let* _ := validateSecret currentSecret in
  let* _ := validateSecret nextSecret in
  let* currentSalt := with_repo (fun r => RecoverySalt r authorID) in
  let* salt := randomBytes 16 in
  with_repo (fun r => identity.RotateRecovery r authorID (deriveVerifier currentSalt currentSecret) salt (deriveVerifier salt nextSecret)).

Definition RenameAuthor (authorID newHandle : bytes) (reserveUntil : Time) : Svc unit :=
  with_repo (fun r => identity.RenameAuthor r authorID newHandle reserveUntil).
Definition RetireAuthor (authorID recoverySecret : bytes) (reserveUntil : Time) : Svc unit :=
  let* _ := validateSecret recoverySecret in
  let* salt := with_repo (fun r => RecoverySalt r authorID) in
  with_repo (fun r => identity.RetireAuthor r authorID (deriveVerifier salt recoverySecret) reserveUntil).
Definition RetireAuthorLocal (authorID : bytes) (reserveUntil : Time) : Svc unit :=
  with_repo (fun r => identity.RetireAuthor r authorID [] reserveUntil).

Definition RevokeDevice (authorID actorDeviceID targetDeviceID : bytes) : Svc unit :=
  let* _ := requireGate GateSSH in with_repo (fun r => RevokeDeviceAuthorized r authorID actorDeviceID targetDeviceID).
Definition RevokeDeviceByRecovery (authorID recoverySecret targetDeviceID : bytes) : Svc unit :=
  let* _ := validateSecret recoverySecret in
  let* salt := with_repo (fun r => RecoverySalt r authorID) in
  with_repo (fun r => RevokeDeviceWithRecovery r authorID (deriveVerifier salt recoverySecret) targetDeviceID).

Definition CreateApp (authorID actorDeviceID appID name kind accessMode : bytes) : Svc App :=
  let* _ := requireGate GateGateway in
  let* created := s_now in
  with_repo (fun r => catalog.CreateApp r (mkAppInput appID authorID name kind accessMode actorDeviceID created)).
Definition AddAccessKey (i : AccessKeyInput) : Svc AccessKey :=
  let* _ := requireGate GateGateway in with_repo (fun r => catalog.AddAccessKey r i).
Definition ListAccessKeys (authorID appID : bytes) : Svc (list AccessKey) :=
  let* _ := requireGate GateGateway in with_repo (fun r => catalog.ListAccessKeys r authorID appID).
Definition RemoveAccessKey (authorID appID keyID actorDeviceID : bytes) : Svc unit :=
  let* _ := requireGate GateGateway in with_repo (fun r => catalog.RemoveAccessKey r authorID appID keyID actorDeviceID).

Definition Deploy (i : DeploymentInput) : Svc Deployment :=
  let* _ := requireGate GateGateway in
  let* deployment := with_repo (fun r => CreateDeployment r i) in
  let* _ := with_repo (fun r => ActivateDeployment r (di_AppID i) (de_ID deployment)) in
  svc_ret deployment.

Definition ListAudit (f : AuditFilter) : Svc (list AuditEvent) := with_repo (fun r => ListAuditFiltered r f).
Definition PruneAudit (before : Time) : Svc Z := with_repo (fun r => identity.PruneAudit r before).
Definition Devices (authorID : bytes) : Svc (list Device) := with_repo (fun r => ListDevices r authorID).
End Operations.
End service.
