(* ===== verification/PairServer.v ===== *)
(** * Pairing: the server's handler and the client's exchange

    internal/server/pairing/handler.go and internal/cli/paired/pairing.go, as programs that
    send and receive frames, draw randomness and call the identity service. Their runs are
    taken against any peer and any other use of the repository, and one against the other. *)

From S2P Require Import Prelude Utf8 GoStrings Keys Streams Sha256 Protocol Json Pairing SqlRepo SqlDB SqlIdentity SqlIdentityLaws SqlCredentials SqlApps Service.
Import json pairing sqlite db identity identitylaws credentials catalog.

Module pairserver.

(** ** Programs *)

(** The calls of the identity service. *)
Inductive idcall :=
| IBootstrapCredential (id : bytes)
| IEnrollmentCredential (id : bytes)
| IRecoveryCredential (handle : bytes)
| ICompleteBootstrap (authorityID verifier : bytes) (i : RegistrationInput)
| ICompleteAddition (i : DeviceEnrollmentInput)
| ICompleteRecovery (i : RecoveryInput)
| IAuthor (id : bytes).
Definition answer (c : idcall) : Type :=
  match c with
  | IBootstrapCredential _ => BootstrapAuthority
  | IEnrollmentCredential _ | IRecoveryCredential _ => PairingCredential
  | ICompleteBootstrap _ _ _ => Author * Device
  | ICompleteAddition _ | ICompleteRecovery _ => Device
  | IAuthor _ => Author
  end.

(** A frame is written or an error returned; a frame or an error is read; [rand.Read] fills
    a buffer or fails. *)
Inductive prog (A : Type) :=
| Ret (a : A)
| Send (f : Frame) (k : option PairErr -> prog A)
| Recv (k : PairErr + Frame -> prog A)
| Rand (size : nat) (k : option bytes -> prog A)
| Call (c : idcall) (k : service.SvcErr + answer c -> prog A).
Arguments Ret {A}.
Arguments Send {A}.
Arguments Recv {A}.
Arguments Rand {A}.
Arguments Call {A}.

Fixpoint bind {A B} (p : prog A) (k : A -> prog B) : prog B :=
  match p with
  | Ret a => k a
  | Send f q => Send f (fun r => bind (q r) k)
  | Recv q => Recv (fun r => bind (q r) k)
  | Rand n q => Rand n (fun r => bind (q r) k)
  | Call c q => Call c (fun r => bind (q r) k)
  end.

Section Handler.
Context `{Platform}.

(** ** handler.go *)

Record Handler := mkHandler {
  h_ServerID : bytes; h_HostKeyAlgorithm : bytes; h_HostKeyFingerprint : bytes; h_ProductVersion : bytes; h_SessionID : bytes;
  h_CandidatePublicKey : bytes; h_CandidateFingerprint : bytes }.

Inductive ServeErr := EIncomplete | EPair (e : PairErr) | ERandom.

(** The text of the error of a transcript names one of the fields that differ: which one
    depends on the order in which a map is visited. *)
Context (mismatch : Handler -> Transcript -> bytes).

Definition problem (code detail : bytes) : prog (option ServeErr) :=
  Send (mkFrame FrameProblem (print (problem_json (mkProblem code detail)))) (fun r => Ret (EPair <$> r)).

Definition problemCode (e : service.SvcErr) : bytes :=
  match e with
  | service.ErrSQL ErrNotFound => str "pairing_not_found"
  | service.ErrSQL ErrConflict => str "pairing_conflict"
  | service.ErrSQL ErrSuspended => str "pairing_suspended"
  | _ => str "pairing_rejected"
  end.

Definition zero_bytes (b : bytes) : bool := bool_decide (b = replicate (length b) 0).
Definition validateTranscript (h : Handler) (t : Transcript) : bool :=
  match Validate t with
  | Some _ => false
  | None =>
    eqb (SessionID t) (h_SessionID h) && eqb (ServerID t) (h_ServerID h) && eqb (HostKeyFingerprint t) (h_HostKeyFingerprint h) &&
    eqb (PublicKey t) (h_CandidatePublicKey h) && eqb (DeviceFingerprint t) (h_CandidateFingerprint h) && zero_bytes (ServerNonce t)
  end.

(** A credential with the handle and the device name that go with it. *)
Definition Authority : Type := PairingCredential * bytes * bytes.
Definition invalid {A} : prog (service.SvcErr + A) := Ret (inl (service.ErrSQL ErrInvalid)).
Definition no_recovery (hello : ClientHello) : bool := bool_decide (ch_RecoverySalt hello = []) || bool_decide (ch_RecoveryVerifier hello = []).

Definition credential (hello : ClientHello) : prog (service.SvcErr + Authority) :=
  let t := ch_Transcript hello in
  if eqb (Purpose t) PurposeNewAuthor then
    Call (IBootstrapCredential (Identifier t)) (fun r =>
      match r with
      | inl e => Ret (inl e)
      | inr a => if no_recovery hello then invalid else
                 Ret (inr (mkCredential [] [] [] (bs_salt (ba_row a)) (bs_verifier (ba_row a)) 0, bs_handle (ba_row a), bs_name (ba_row a)))
      end)
  else if eqb (Purpose t) PurposeAddDevice then
    Call (IEnrollmentCredential (Identifier t)) (fun r => Ret match r with inl e => inl e | inr c => inr (c, [], pc_DeviceName c) end)
  else if eqb (Purpose t) PurposeOfflineRecovery then
    if eqb (TrimSpace (ch_DeviceName hello)) [] || no_recovery hello then invalid else
    Call (IRecoveryCredential (Identifier t)) (fun r => Ret match r with inl e => inl e | inr c => inr (c, pc_Handle c, ch_DeviceName hello) end)
  else invalid.

Definition randomID (prefix : bytes) : prog (service.SvcErr + bytes) :=
  Rand 16 (fun b => Ret match b with None => inl service.ErrRandom | Some b => inr (prefix ++ str "_" ++ hex b) end).
Definition ebind {E A B} (p : prog (E + A)) (k : A -> prog (E + B)) : prog (E + B) :=
  bind p (fun r => match r with inl e => Ret (inl e) | inr a => k a end).

Definition complete (h : Handler) (hello : ClientHello) (a : Authority) : prog (service.SvcErr + Complete) :=
  let '(credential, handle, deviceName) := a in
  let t := ch_Transcript hello in
  ebind (randomID (str "device")) (fun deviceID =>
  if eqb (Purpose t) PurposeNewAuthor then
    ebind (randomID (str "author")) (fun authorID =>
    Call (ICompleteBootstrap (Identifier t) (pc_Verifier credential)
            (mkRegistration authorID handle deviceID deviceName (PublicKey t) (DeviceFingerprint t) (ch_RecoverySalt hello)
               (ch_RecoveryVerifier hello) 0 None)) (fun r =>
      Ret match r with inl e => inl e | inr (author, device) => inr (mkComplete (h_ServerID h) (a_ID author) (au_handle (a_row author)) (d_ID device)) end))
  else if eqb (Purpose t) PurposeAddDevice then
    Call (ICompleteAddition (mkEnrollment (Identifier t) deviceID (PublicKey t) (DeviceFingerprint t) (pc_Verifier credential))) (fun r =>
      match r with
      | inl e => Ret (inl e)
      | inr device =>
        Call (IAuthor (dv_author (d_row device))) (fun r =>
          Ret match r with inl e => inl e | inr author => inr (mkComplete (h_ServerID h) (a_ID author) (au_handle (a_row author)) (d_ID device)) end)
      end)
  else if eqb (Purpose t) PurposeOfflineRecovery then
    Call (ICompleteRecovery (mkRecoveryInput (pc_AuthorID credential) deviceID deviceName (PublicKey t) (DeviceFingerprint t)
            (pc_Verifier credential) (ch_RecoverySalt hello) (ch_RecoveryVerifier hello) true)) (fun r =>
      Ret match r with inl e => inl e | inr device => inr (mkComplete (h_ServerID h) (pc_AuthorID credential) handle (d_ID device)) end)
  else invalid).

Definition with_nonce (t : Transcript) (nonce : bytes) : Transcript :=
  mkTranscript (SessionID t) (ServerID t) (HostKeyFingerprint t) (ClientNonce t) nonce (PublicKey t) (DeviceFingerprint t) (Purpose t) (Identifier t).

Definition hello_frame (h : Handler) : Frame :=
  mkFrame FrameServerHello (print (server_hello_json (mkServerHello (h_ServerID h) (h_HostKeyAlgorithm h) (h_HostKeyFingerprint h)
    (h_ProductVersion h) [ProtocolName; str "plumtree-control-v1"]))).

(** After the proof of the client. *)
Definition finish (h : Handler) (hello : ClientHello) (a : Authority) : prog (option ServeErr) :=
  bind (complete h hello a) (fun r =>
  match r with
  | inl e => problem (problemCode e) (str "pairing could not be completed")
  | inr c => Send (mkFrame FrameComplete (print (complete_json c))) (fun r => Ret (EPair <$> r))
  end).
Definition prove (h : Handler) (hello : ClientHello) (a : Authority) : prog (option ServeErr) :=
  let credential := a.1.1 in
  Rand 32 (fun nonce =>
  match nonce with
  | None => Ret (Some ERandom)
  | Some nonce =>
    let transcript := with_nonce (ch_Transcript hello) nonce in
    match ServerProof (pc_Verifier credential) transcript with
    | inl _ => problem (str "invalid_request") (str "pairing transcript is invalid")
    | inr mac =>
      Send (mkFrame FrameServerProof (print (proof_json (mkProof (pc_Salt credential) nonce mac)))) (fun r =>
      match r with
      | Some e => Ret (Some (EPair e))
      | None =>
        Recv (fun r =>
        match r with
        | inl e => Ret (Some (EPair e))
        | inr frame =>
          if negb (Type_ frame =? FrameClientProof) then problem (str "invalid_frame") (str "expected client proof") else
          match decode proof_fields no_proof (Payload frame) with
          | None => problem (str "proof_mismatch") (str "pairing proof was rejected")
          | Some reply =>
            match VerifyClientProof (pc_Verifier credential) transcript (pr_MAC reply) with
            | Some _ => problem (str "proof_mismatch") (str "pairing proof was rejected")
            | None => finish h hello a
            end
          end
        end)
      end)
    end
  end).
Definition Serve (h : Handler) : prog (option ServeErr) :=
  if eqb (h_ServerID h) [] || eqb (h_SessionID h) [] || eqb (h_CandidatePublicKey h) [] || eqb (h_CandidateFingerprint h) []
  then Ret (Some EIncomplete) else
  Send (hello_frame h) (fun r =>
  match r with
  | Some e => Ret (Some (EPair e))
  | None =>
    Recv (fun r =>
    match r with
    | inl e => Ret (Some (EPair e))
    | inr frame =>
      if negb (Type_ frame =? FrameClientHello) then problem (str "invalid_frame") (str "expected client hello") else
      match decode client_hello_fields no_client_hello (Payload frame) with
      | None => problem (str "invalid_request") (str "client hello is invalid")
      | Some hello =>
        if negb (validateTranscript h (ch_Transcript hello))
        then problem (str "transcript_mismatch") (str "pairing transcript does not match this SSH session: " ++ mismatch h (ch_Transcript hello))
        else
        bind (credential hello) (fun r =>
        match r with
        | inl e => problem (problemCode e) (str "pairing authority is not available")
        | inr a => prove h hello a
        end)
      end
    end)
  end).

(** ** paired/pairing.go *)

Inductive CliErr := ErrPairing | ErrPairingFrame | ErrProblem (code detail : bytes).

Definition ReadServerHello : prog (CliErr + ServerHello) :=
  Recv (fun r => Ret
  match r with
  | inl _ => inl ErrPairing
  | inr frame =>
    if negb (Type_ frame =? FrameServerHello) then inl ErrPairingFrame else
    match decode server_hello_fields no_server_hello (Payload frame) with
    | None => inl ErrPairingFrame
    | Some hello =>
      if eqb (sh_ServerID hello) [] || eqb (sh_HostKeyAlgorithm hello) [] || eqb (sh_HostKeyFingerprint hello) [] || eqb (sh_ProductVersion hello) []
      then inl ErrPairingFrame else inr hello
    end
  end).

Definition decodePairProblem (payload : bytes) : CliErr :=
  match decode problem_fields no_problem payload with
  | None => ErrPairingFrame
  | Some p => ErrProblem (if eqb (pb_Code p) [] then str "pairing_failed" else pb_Code p) (pb_Detail p)
  end.

Record ExchangeOptions := mkOptions { eo_DeviceName : bytes; eo_RecoverySecret : bytes }.

(** The recovery material of the next generation. *)
Definition next_recovery (t : Transcript) (o : ExchangeOptions) : prog (CliErr + (bytes * bytes)) :=
  if eqb (Purpose t) PurposeNewAuthor || eqb (Purpose t) PurposeOfflineRecovery || eqb (Purpose t) PurposeOperatorRecovery then
    if len (eo_RecoverySecret o) <? 16 then Ret (inl ErrPairing) else
    Rand 16 (fun salt => Ret
    match salt with
    | None => inl ErrPairing
    | Some salt => match DeriveVerifier salt (eo_RecoverySecret o) with inl _ => inl ErrPairing | inr v => inr (salt, v) end
    end)
  else Ret (inr ([], [])).

Definition read_complete (r : PairErr + Frame) : CliErr + Complete :=
  match r with
  | inl _ => inl ErrPairing
  | inr frame =>
    if Type_ frame =? FrameProblem then inl (decodePairProblem (Payload frame)) else
    if negb (Type_ frame =? FrameComplete) then inl ErrPairingFrame else
    match decode complete_fields no_complete (Payload frame) with
    | None => inl ErrPairingFrame
    | Some c => if eqb (co_ServerID c) [] || eqb (co_DeviceID c) [] then inl ErrPairing else inr c
    end
  end.

(** The server's proof, checked, and the client's own. *)
Definition client_proof (t : Transcript) (secret : bytes) (r : PairErr + Frame) : CliErr + bytes :=
  match r with
  | inl _ => inl ErrPairing
  | inr frame =>
    if Type_ frame =? FrameProblem then inl (decodePairProblem (Payload frame)) else
    if negb (Type_ frame =? FrameServerProof) then inl ErrPairingFrame else
    match decode proof_fields no_proof (Payload frame) with
    | None => inl ErrPairingFrame
    | Some p =>
      if (len (pr_ServerNonce p) <? 16) || (64 <? len (pr_ServerNonce p)) then inl ErrPairingFrame else
      let t := with_nonce t (pr_ServerNonce p) in
      match Validate t with
      | Some _ => inl ErrPairing
      | None =>
        match DeriveVerifier (pr_Salt p) secret with
        | inl _ => inl ErrPairing
        | inr verifier =>
          match VerifyServerProof verifier t (pr_MAC p) with
          | Some _ => inl ErrPairing
          | None => match ClientProof verifier t with inl _ => inl ErrPairing | inr mac => inr mac end
          end
        end
      end
    end
  end.

Definition ExchangePairing (t : Transcript) (secret : bytes) (o : ExchangeOptions) : prog (CliErr + Complete) :=
  match Validate t with
  | Some _ => Ret (inl ErrPairing)
  | None =>
    ebind (next_recovery t o) (fun recovery =>
    Send (mkFrame FrameClientHello (print (client_hello_json (mkClientHello t (eo_DeviceName o) recovery.1 recovery.2)))) (fun r =>
    match r with
    | Some _ => Ret (inl ErrPairing)
    | None =>
      Recv (fun r =>
      match client_proof t secret r with
      | inl e => Ret (inl e)
      | inr mac =>
        Send (mkFrame FrameClientProof (print (proof_json (mkProof [] [] mac)))) (fun r =>
        match r with
        | Some _ => Ret (inl ErrPairing)
        | None => Recv (fun r => Ret (read_complete r))
        end)
      end)
    end))
  end.

(** The client half of a transcript; [info] is [PublicKeyInfoFor] of the signer: its
    authorized line and its fingerprint. *)
Definition NewTranscript (sessionID stableID fingerprint : bytes) (info : option (bytes * bytes)) (purpose identifier : bytes) : prog (CliErr + Transcript) :=
  if eqb sessionID [] || eqb stableID [] || eqb fingerprint [] then Ret (inl ErrPairing) else
  Rand 32 (fun nonce => Ret
  match nonce, info with
  | Some nonce, Some (authorized, keyFingerprint) =>
    inr (mkTranscript sessionID stableID fingerprint nonce (replicate 32 0) authorized keyFingerprint purpose identifier)
  | _, _ => inl ErrPairing
  end).

(** ** Runs *)

Inductive event :=
| EvSend (f : Frame) (r : option PairErr)
| EvRecv (r : PairErr + Frame)
| EvRand (size : nat) (b : option bytes)
| EvCall (c : idcall) (r : service.SvcErr + answer c).

(** The runs of a program, whatever it is answered. *)
Fixpoint runs {A} (p : prog A) (tr : list event) (a : A) : Prop :=
  match p with
  | Ret b => tr = [] /\ a = b
  | Send f k => exists r tr', tr = EvSend f r :: tr' /\ runs (k r) tr' a
  | Recv k => exists r tr', tr = EvRecv r :: tr' /\ runs (k r) tr' a
  | Rand n k => exists b tr', tr = EvRand n b :: tr' /\ runs (k b) tr' a
  | Call c k => exists r tr', tr = EvCall c r :: tr' /\ runs (k r) tr' a
  end.

Lemma runs_bind {A B} (p : prog A) (k : A -> prog B) tr b :
  runs (bind p k) tr b -> exists tr1 tr2 a, tr = tr1 ++ tr2 /\ runs p tr1 a /\ runs (k a) tr2 b.
Proof.
  revert tr. induction p as [a|f q IH|q IH|n q IH|c q IH]; cbn; intros tr Hr.
  { by exists [], tr, a. }
  all: destruct Hr as (r & tr' & -> & Hr); destruct (IH r tr' Hr) as (tr1 & tr2 & a & -> & Hp & Hk).
  all: exists (ltac:(first [exact (EvSend f r)|exact (EvRecv r)|exact (EvRand n r)|exact (EvCall c r)]) :: tr1), tr2, a; eauto 8.
Qed.
Lemma runs_ebind {E A B} (p : prog (E + A)) (k : A -> prog (E + B)) tr b :
  runs (ebind p k) tr b -> exists tr1 tr2, tr = tr1 ++ tr2 /\ ((exists e, runs p tr1 (inl e) /\ tr2 = [] /\ b = inl e) \/ exists a, runs p tr1 (inr a) /\ runs (k a) tr2 b).
Proof.
  intros Hr. apply runs_bind in Hr as (tr1 & tr2 & [e|a] & -> & Hp & Hk); exists tr1, tr2; (split; [done|]).
  - left. destruct Hk as [-> ->]. eauto.
  - right. eauto.
Qed.

(** A run in a world: the bytes that come in, the writer, the service, and what others do
    to the repository before each call. *)
Record World (T : Type) := mkWorld { w_in : bytes; w_out : T; w_svc : service.Service; w_others : list (list call) }.
Arguments mkWorld {T}.
Arguments w_in {T}.
Arguments w_out {T}.
Arguments w_svc {T}.
Arguments w_others {T}.

Definition perform (c : idcall) : service.Svc (answer c) :=
  match c return service.Svc (answer c) with
  | IBootstrapCredential id => service.BootstrapCredential id
  | IEnrollmentCredential id => service.EnrollmentCredential id
  | IRecoveryCredential handle => service.RecoveryCredential handle
  | ICompleteBootstrap id v i => service.CompleteBootstrapRegistration id v i
  | ICompleteAddition i => service.CompleteDeviceAdditionVerifier i
  | ICompleteRecovery i => service.CompleteRecovery i
  | IAuthor id => service.author id
  end.
(** A write that panics does not happen: [WriteFrame_spec]. *)
Definition sent (r : res PairErr unit) : option PairErr := match r with Ok _ => None | Err e => Some e | Panic => Some pairing.ErrInvalid end.
Definition on_repo (f : Repo -> Repo) (s : service.Service) : service.Service :=
  service.mkService (f (service.s_repo s)) (service.s_cfg s) (service.s_clock s) (service.s_rand s).
Definition others_act (l : list (list call)) (s : service.Service) : service.Service :=
  match l with [] => s | o :: _ => on_repo (run_calls o) s end.

Fixpoint play {T A} `{Writer T} (p : prog A) (w : World T) : World T * A * list event :=
  match p with
  | Ret a => (w, a, [])
  | Send f k =>
    let '(out, r) := WriteFrame (w_out w) f in
    let '(w, a, tr) := play (k (sent r)) (mkWorld (w_in w) out (w_svc w) (w_others w)) in
    (w, a, EvSend f (sent r) :: tr)
  | Recv k =>
    let '(rest, r) := ReadFrame (w_in w) in
    let '(w, a, tr) := play (k r) (mkWorld rest (w_out w) (w_svc w) (w_others w)) in
    (w, a, EvRecv r :: tr)
  | Rand n k =>
    let '(s, b) := service.draw n (w_svc w) in
    let '(w, a, tr) := play (k b) (mkWorld (w_in w) (w_out w) s (w_others w)) in
    (w, a, EvRand n b :: tr)
  | Call c k =>
    let '(s, r) := perform c (others_act (w_others w) (w_svc w)) in
    let '(w, a, tr) := play (k r) (mkWorld (w_in w) (w_out w) s (tail (w_others w))) in
    (w, a, EvCall c r :: tr)
  end.

Ltac run_play He := match goal with |- context [play (?k ?r) ?w] => destruct (play (k r) w) as [[? ?] ?] eqn:He | H : context [play (?k ?r) ?w] |- _ => destruct (play (k r) w) as [[? ?] ?] eqn:He end.
Lemma play_runs {T A} `{Writer T} (p : prog A) (w w' : World T) a tr : play p w = (w', a, tr) -> runs p tr a.
Proof.
  revert w tr. induction p as [b|f k IH|k IH|n k IH|c k IH]; intros w tr; cbn [play runs].
  - intros [= <- <- <-]. done.
  - destruct (WriteFrame (w_out w) f) as [out r]. run_play He. intros [= -> -> <-].
    eexists _, _. split; [done|]. by eapply IH.
  - destruct (ReadFrame (w_in w)) as [rest r]. run_play He. intros [= -> -> <-].
    eexists _, _. split; [done|]. by eapply IH.
  - destruct (service.draw n (w_svc w)) as [s r]. run_play He. intros [= -> -> <-].
    eexists _, _. split; [done|]. by eapply IH.
  - destruct (perform c _) as [s r]. run_play He. intros [= -> -> <-].
    eexists _, _. split; [done|]. by eapply IH.
Qed.

(** ** What the server requires *)

Definition completing (c : idcall) : Prop :=
  match c with ICompleteBootstrap _ _ _ | ICompleteAddition _ | ICompleteRecovery _ => True | _ => False end.
#[export] Instance completing_dec c : Decision (completing c).
Proof. destruct c; apply _. Defined.

(** The authority that the repository granted for a hello. *)
Definition granted (hello : ClientHello) (e : event) (a : Authority) : Prop :=
  match e with
  | EvCall c r =>
    match c return service.SvcErr + answer c -> Prop with
    | IBootstrapCredential id => fun r => Purpose (ch_Transcript hello) = PurposeNewAuthor /\ id = Identifier (ch_Transcript hello) /\
        exists b, r = inr b /\ pc_Salt a.1.1 = bs_salt (ba_row b) /\ pc_Verifier a.1.1 = bs_verifier (ba_row b) /\ a.1.2 = bs_handle (ba_row b) /\ a.2 = bs_name (ba_row b)
    | IEnrollmentCredential id => fun r => Purpose (ch_Transcript hello) = PurposeAddDevice /\ id = Identifier (ch_Transcript hello) /\ r = inr a.1.1
    | IRecoveryCredential handle => fun r => Purpose (ch_Transcript hello) = PurposeOfflineRecovery /\ handle = Identifier (ch_Transcript hello) /\ r = inr a.1.1
    | _ => fun _ => False
    end r
  | _ => False
  end.

(** The change that the authority allows: with its verifier, for the key of the session. *)
Definition completes (h : Handler) (hello : ClientHello) (a : Authority) (c : idcall) : Prop :=
  match c with
  | ICompleteBootstrap id v i => Purpose (ch_Transcript hello) = PurposeNewAuthor /\ id = Identifier (ch_Transcript hello) /\ v = pc_Verifier a.1.1 /\
      ri_Handle i = a.1.2 /\ ri_DeviceName i = a.2 /\ ri_PublicKey i = h_CandidatePublicKey h /\ ri_Fingerprint i = h_CandidateFingerprint h
  | ICompleteAddition i => Purpose (ch_Transcript hello) = PurposeAddDevice /\ de_TokenID i = Identifier (ch_Transcript hello) /\
      de_Verifier i = pc_Verifier a.1.1 /\ de_PublicKey i = h_CandidatePublicKey h /\ de_Fingerprint i = h_CandidateFingerprint h
  | ICompleteRecovery i => Purpose (ch_Transcript hello) = PurposeOfflineRecovery /\ re_AuthorID i = pc_AuthorID a.1.1 /\
      re_CurrentVerifier i = pc_Verifier a.1.1 /\ re_PublicKey i = h_CandidatePublicKey h /\ re_Fingerprint i = h_CandidateFingerprint h /\
      re_RevokeOldDevices i = true
  | _ => False
  end.

Definition proof_frame (a : Authority) (nonce mac : bytes) : Frame :=
  mkFrame FrameServerProof (print (proof_json (mkProof (pc_Salt a.1.1) nonce mac))).

(** A run that was let through. *)
Record admitted (h : Handler) (c : idcall) (tr : list event) : Prop := {
  ad_run : exists hello f1 e a nonce mac f2 reply rest,
    tr = [EvSend (hello_frame h) None; EvRecv (inr f1); e; EvRand 32 (Some nonce); EvSend (proof_frame a nonce mac) None; EvRecv (inr f2)] ++ rest /\
    decode client_hello_fields no_client_hello (Payload f1) = Some hello /\ validateTranscript h (ch_Transcript hello) = true /\ granted hello e a /\
    ServerProof (pc_Verifier a.1.1) (with_nonce (ch_Transcript hello) nonce) = inr mac /\
    decode proof_fields no_proof (Payload f2) = Some reply /\
    ClientProof (pc_Verifier a.1.1) (with_nonce (ch_Transcript hello) nonce) = inr (pr_MAC reply) /\
    completes h hello a c /\ exists r, EvCall c r ∈ rest }.

Lemma validate_binds h t : validateTranscript h t = true ->
  Validate t = None /\ SessionID t = h_SessionID h /\ ServerID t = h_ServerID h /\ HostKeyFingerprint t = h_HostKeyFingerprint h /\
  PublicKey t = h_CandidatePublicKey h /\ DeviceFingerprint t = h_CandidateFingerprint h.
Proof.
  unfold validateTranscript. destruct (Validate t); [done|]. intros Hv.
  repeat (apply andb_true_iff in Hv as [Hv ?]). repeat match goal with H : eqb _ _ = true |- _ => apply eqb_true in H end. done.
Qed.

(** Programs that complete nothing. *)
Definition quiet {A} (p : prog A) : Prop := forall tr a c r, runs p tr a -> EvCall c r ∈ tr -> ~ completing c.
Lemma problem_quiet code detail : quiet (problem code detail).
Proof. intros tr a c r (x & tr' & -> & -> & _) Hin. apply elem_of_cons in Hin as [?|Hin]; [done|]. by apply elem_of_nil in Hin. Qed.

Lemma credential_runs hello tr res : runs (credential hello) tr res ->
  (forall c r, EvCall c r ∈ tr -> ~ completing c) /\ forall a, res = inr a -> exists e, tr = [e] /\ granted hello e a.
Proof.
  unfold credential, invalid. intros Hr.
  destruct (eqb (Purpose (ch_Transcript hello)) PurposeNewAuthor) eqn:H1; [|destruct (eqb (Purpose (ch_Transcript hello)) PurposeAddDevice) eqn:H2;
    [|destruct (eqb (Purpose (ch_Transcript hello)) PurposeOfflineRecovery) eqn:H3]].
  - apply eqb_true in H1. destruct Hr as (r & tr' & -> & Hr). split.
    { intros c r' Hin. apply elem_of_cons in Hin as [[= -> _]|Hin]; [by intros []|]. destruct r as [e|b]; [|case_match]; destruct Hr as [-> _]; by apply elem_of_nil in Hin. }
    intros a ->. destruct r as [e|b]; [by destruct Hr|]. destruct (no_recovery hello); destruct Hr as [-> Ha]; [done|]. injection Ha as ->.
    eexists. split; [done|]. cbn. eauto 10.
  - apply eqb_true in H2. destruct Hr as (r & tr' & -> & -> & ->). split.
    { intros c r' Hin. apply elem_of_cons in Hin as [[= -> _]|Hin]; [by intros []|]. by apply elem_of_nil in Hin. }
    intros a Ha. destruct r as [e|b]; [done|]. injection Ha as <-. eexists. split; [done|]. done.
  - apply eqb_true in H3. destruct (_ || _).
    { destruct Hr as [-> ->]. split; [|done]. intros c r Hin. by apply elem_of_nil in Hin. }
    destruct Hr as (r & tr' & -> & -> & ->). split.
    { intros c r' Hin. apply elem_of_cons in Hin as [[= -> _]|Hin]; [by intros []|]. by apply elem_of_nil in Hin. }
    intros a Ha. destruct r as [e|b]; [done|]. injection Ha as <-. eexists. split; [done|]. done.
  - destruct Hr as [-> ->]. split; [|done]. intros c r Hin. by apply elem_of_nil in Hin.
Qed.

Lemma complete_runs h hello a tr res c r :
  validateTranscript h (ch_Transcript hello) = true -> runs (complete h hello a) tr res -> EvCall c r ∈ tr -> completing c -> completes h hello a c.
Proof.
  intros Hv. destruct (validate_binds _ _ Hv) as (_ & _ & _ & _ & Hk & Hf). unfold complete, invalid. destruct a as [[credential handle] name]. cbv iota beta zeta.
  intros Hr Hin Hc. unfold randomID in Hr. destruct Hr as (b & tr' & -> & Hr). apply elem_of_cons in Hin as [?|Hin]; [done|]. destruct b as [b|]; [|destruct Hr as [-> _]; by apply elem_of_nil in Hin].
  cbn [ebind bind] in Hr.
  destruct (eqb (Purpose (ch_Transcript hello)) PurposeNewAuthor) eqn:H1; [|destruct (eqb (Purpose (ch_Transcript hello)) PurposeAddDevice) eqn:H2;
    [|destruct (eqb (Purpose (ch_Transcript hello)) PurposeOfflineRecovery) eqn:H3]].
  - apply eqb_true in H1. destruct Hr as (b' & tr2 & -> & Hr). apply elem_of_cons in Hin as [?|Hin]; [done|].
    destruct b' as [b'|]; [|destruct Hr as [-> _]; by apply elem_of_nil in Hin]. destruct Hr as (x & tr3 & -> & -> & _).
    apply elem_of_cons in Hin as [[= -> _]|Hin]; [|by apply elem_of_nil in Hin]. by repeat split.
  - apply eqb_true in H2. destruct Hr as (x & tr2 & -> & Hr). apply elem_of_cons in Hin as [[= -> _]|Hin]; [by repeat split|].
    destruct x as [e|d]; [destruct Hr as [-> _]; by apply elem_of_nil in Hin|]. destruct Hr as (y & tr3 & -> & -> & _).
    apply elem_of_cons in Hin as [[= -> _]|Hin]; [done|by apply elem_of_nil in Hin].
  - apply eqb_true in H3. destruct Hr as (x & tr2 & -> & -> & _). apply elem_of_cons in Hin as [[= -> _]|Hin]; [by repeat split|by apply elem_of_nil in Hin].
  - destruct Hr as [-> _]. by apply elem_of_nil in Hin.
Qed.

Lemma verify_ok expected received : verify expected received = None -> expected = inr received.
Proof. unfold verify. destruct expected as [e|mac]; [done|]. case_bool_decide; [by subst|done]. Qed.

Lemma finish_runs h hello a tr res c r :
  validateTranscript h (ch_Transcript hello) = true -> runs (finish h hello a) tr res -> EvCall c r ∈ tr -> completing c -> completes h hello a c.
Proof.
  intros Hv Hr Hin Hc. apply runs_bind in Hr as (tr1 & tr2 & x & -> & Hr1 & Hr2). apply elem_of_app in Hin as [Hin|Hin]; [by eapply complete_runs|].
  exfalso. destruct x as [e|x]; [by eapply problem_quiet|]. destruct Hr2 as (y & tr3 & -> & -> & _).
  apply elem_of_cons in Hin as [?|Hin]; [done|by apply elem_of_nil in Hin].
Qed.

Ltac quiet_end :=
  cbn [runs] in *;
  match goal with
  | Hin : EvCall _ _ ∈ _ :: _ |- _ => apply elem_of_cons in Hin as [?|Hin]; [done|]; quiet_end
  | Hr : runs (problem _ _) ?tr _, Hin : EvCall _ _ ∈ ?tr |- _ => exfalso; by eapply problem_quiet
  | Hr : _ = [] /\ _, Hin : EvCall _ _ ∈ _ |- _ => exfalso; destruct Hr as [-> _]; by apply elem_of_nil in Hin
  end.

Lemma prove_runs h hello a tr res c r :
  validateTranscript h (ch_Transcript hello) = true -> runs (prove h hello a) tr res -> EvCall c r ∈ tr -> completing c ->
  exists nonce mac f2 reply rest,
    tr = [EvRand 32 (Some nonce); EvSend (proof_frame a nonce mac) None; EvRecv (inr f2)] ++ rest /\
    ServerProof (pc_Verifier a.1.1) (with_nonce (ch_Transcript hello) nonce) = inr mac /\
    decode proof_fields no_proof (Payload f2) = Some reply /\
    ClientProof (pc_Verifier a.1.1) (with_nonce (ch_Transcript hello) nonce) = inr (pr_MAC reply) /\
    completes h hello a c /\ exists r, EvCall c r ∈ rest.
Proof.
  intros Hv (b & tr1 & -> & Hr) Hin Hc. destruct b as [nonce|]; [|quiet_end]. cbv beta zeta iota in Hr.
  destruct (ServerProof _ _) as [e|mac] eqn:Hmac; [quiet_end|]. destruct Hr as (x & tr2 & -> & Hr). destruct x as [e|]; [quiet_end|].
  destruct Hr as (y & tr3 & -> & Hr). destruct y as [e|f2]; [quiet_end|]. destruct (negb (Type_ f2 =? FrameClientProof)); [quiet_end|].
  destruct (decode proof_fields no_proof (Payload f2)) as [reply|] eqn:Hd; [|quiet_end].
  destruct (VerifyClientProof _ _ _) eqn:Hver; [quiet_end|]. apply verify_ok in Hver.
  repeat (apply elem_of_cons in Hin as [?|Hin]; [done|]).
  exists nonce, mac, f2, reply, tr3. split; [done|]. split; [done|]. split; [done|]. split; [done|]. split; [by eapply finish_runs|]. by exists r.
Qed.

Lemma serve_admits h tr res c r : runs (Serve h) tr res -> EvCall c r ∈ tr -> completing c -> admitted h c tr.
Proof.
  unfold Serve. intros Hr Hin Hc. destruct (_ || _); [quiet_end|].
  destruct Hr as (x & tr1 & -> & Hr). destruct x as [e|]; [quiet_end|]. destruct Hr as (y & tr2 & -> & Hr). destruct y as [e|f1]; [quiet_end|].
  destruct (negb (Type_ f1 =? FrameClientHello)); [quiet_end|]. destruct (decode client_hello_fields no_client_hello (Payload f1)) as [hello|] eqn:Hd; [|quiet_end].
  destruct (validateTranscript h (ch_Transcript hello)) eqn:Hv; cbn [negb] in Hr; [|quiet_end].
  apply runs_bind in Hr as (tr3 & tr4 & a & -> & Hcr & Hr). destruct (credential_runs _ _ _ Hcr) as [Hq Hg].
  do 2 (apply elem_of_cons in Hin as [?|Hin]; [done|]). apply elem_of_app in Hin as [Hin|Hin]; [by destruct (Hq _ _ Hin)|].
  destruct a as [e|a]; [exfalso; by eapply problem_quiet|]. destruct (Hg a eq_refl) as (e & -> & Hgr).
  destruct (prove_runs h hello a tr4 res c r Hv Hr Hin Hc) as (nonce & mac & f2 & reply & rest & -> & ? & ? & ? & ? & ?).
  constructor. by exists hello, f1, e, a, nonce, mac, f2, reply, rest.
Qed.

(** Without a completion, the handler leaves the database as it was. *)
Lemma with_repo_db {A} (f : Repo -> Repo * (error + A)) s : (forall r, r_db (f r).1 = r_db r) -> r_db (service.s_repo (service.with_repo f s).1) = r_db (service.s_repo s).
Proof. intros Hf. unfold service.with_repo. specialize (Hf (service.s_repo s)). by destruct (f (service.s_repo s)). Qed.
Lemma guarded_db {A} r checks (op : Repo * (error + A)) : r_db op.1 = r_db r -> r_db (guarded r checks op).1 = r_db r.
Proof. unfold guarded. by destruct (head _). Qed.
Lemma query_row_db {A} r (f : DB -> option A) : r_db (query_row r f).1 = r_db r.
Proof. unfold query_row, query. destruct (r_fail r) as [|[] fs]; cbn; by try destruct (f _). Qed.
Lemma now_db (r : Repo) : r_db (now r).1 = r_db r.
Proof. unfold now. by destruct (r_clock r). Qed.
Lemma perform_db c s : ~ completing c -> r_db (service.s_repo (perform c s).1) = r_db (service.s_repo s).
Proof.
  destruct c; cbn [completing perform]; intros Hc; try (by destruct (Hc I)); apply with_repo_db; intros r0; apply guarded_db; try apply query_row_db.
  - destruct (query_row r0 _) as [r1 [e|b]] eqn:Hq; pose proof (f_equal (fun x => r_db x.1) Hq) as Hdb; cbv beta in Hdb; rewrite query_row_db in Hdb; cbn in Hdb; [done|].
    destruct (consumed_b _); [done|]. pose proof (now_db r1) as Hn. destruct (now r1) as [r2 t]. cbn in Hn. by destruct (_ || _); cbn; congruence.
  - destruct (query_row r0 _) as [r1 [e|b]] eqn:Hq; pose proof (f_equal (fun x => r_db x.1) Hq) as Hdb; cbv beta in Hdb; rewrite query_row_db in Hdb; cbn in Hdb; [done|].
    destruct (_ || _); [done|]. pose proof (now_db r1) as Hn. destruct (now r1) as [r2 t]. cbn in Hn. by destruct (_ || _); cbn; congruence.
Qed.
Lemma draw_db n s : service.s_repo (service.draw n s).1 = service.s_repo s.
Proof. unfold service.draw. by destruct (service.read_random n (service.s_rand s)). Qed.
Lemma play_db {T A} `{Writer T} (p : prog A) (w w' : World T) a tr :
  play p w = (w', a, tr) -> w_others w = [] -> (forall c r, EvCall c r ∈ tr -> ~ completing c) -> r_db (service.s_repo (w_svc w')) = r_db (service.s_repo (w_svc w)).
Proof.
  revert w tr. induction p as [b|f k IH|k IH|n k IH|c k IH]; intros w tr; cbn [play runs].
  - by intros [= <- _ _].
  - destruct (WriteFrame (w_out w) f) as [out r]. run_play He. intros [= -> -> <-] Ho Hq.
    rewrite (IH _ _ _ He); [done|done|]. intros c r' Hin. apply (Hq c r'). by right.
  - destruct (ReadFrame (w_in w)) as [rest r]. run_play He. intros [= -> -> <-] Ho Hq.
    rewrite (IH _ _ _ He); [done|done|]. intros c r' Hin. apply (Hq c r'). by right.
  - pose proof (draw_db n (w_svc w)) as Hd. destruct (service.draw n (w_svc w)) as [s r]. cbn in Hd. run_play He. intros [= -> -> <-] Ho Hq.
    rewrite (IH _ _ _ He); [cbn; by rewrite Hd|done|]. intros c r' Hin. apply (Hq c r'). by right.
  - intros He Ho. rewrite Ho in He. cbn [others_act tail] in He. pose proof (perform_db c (w_svc w)) as Hd. destruct (perform c (w_svc w)) as [s r]. cbn [fst] in Hd.
    run_play He1. injection He as -> -> <-. intros Hq.
    rewrite (IH _ _ _ He1); [|done|intros c' r' Hin; apply (Hq c' r'); by right]. cbn. apply Hd. apply (Hq c r). by left.
Qed.

(** C13 (Nobody is paired without proof): whatever the peer sends and whatever the repository
    answers, the handler registers an author, adds a device or recovers an account only in a
    run of one shape: a hello for this session, server, host key and candidate key; an
    authority the repository granted for it; a fresh nonce; and a proof of the client over
    that transcript and nonce under the verifier of the authority. The change is then made
    with that verifier and for that key. Against any writer, and with others at work on the
    repository, the handler runs like this; and alone on the repository it leaves the
    database as it was unless it made such a call. *)
Theorem pairing_requires_proof h res tr :
  (runs (Serve h) tr res -> forall c r, EvCall c r ∈ tr -> completing c -> admitted h c tr) /\
  (forall T (writer : Writer T) (w w' : World T), play (Serve h) w = (w', res, tr) ->
     runs (Serve h) tr res /\
     (w_others w = [] -> r_db (service.s_repo (w_svc w')) <> r_db (service.s_repo (w_svc w)) -> exists c r, EvCall c r ∈ tr /\ completing c)).
Proof.
  split; [intros Hr c r; by apply (serve_admits h tr res)|]. intros T writer w w' He. split; [by eapply play_runs|]. intros Ho Hne.
  set (P := fun e => match e with EvCall c _ => completing c | _ => False end). assert (Hdec : forall e, Decision (P e)) by (intros []; apply _).
  assert (Hx : Exists P tr).
  { destruct (decide (Exists P tr)) as [Hx|Hx]; [done|].
    destruct Hne. eapply play_db; [done..|]. intros c r Hin Hc. apply Hx, Exists_exists. by exists (EvCall c r). }
  apply Exists_exists in Hx as (e & Hin & Hc). destruct e as [| | |c r]; try done. by exists c, r.
Qed.
End Handler.
End pairserver.
