(* ===== verification/PairExchange.v ===== *)
(** * Pairing, both ends

    The client's exchange against any server, and against the handler: a conversation of the
    two over byte streams does exactly what the identity service does when called directly. *)

From S2P Require Import Prelude Utf8 GoStrings Keys Streams Sha256 Protocol Json Pairing SqlRepo SqlDB SqlIdentity SqlIdentityLaws SqlCredentials SqlApps Service PairServer.
Import json pairing sqlite db identity identitylaws credentials catalog pairserver.

Module exchange.

Section Exchange.
Context `{Platform}.

(** ** What the client requires *)

Lemma client_proof_ok t secret r mac : client_proof t secret r = inr mac ->
  exists frame p verifier, r = inr frame /\ Type_ frame = FrameServerProof /\ decode proof_fields no_proof (Payload frame) = Some p /\
    16 <= len (pr_ServerNonce p) <= 64 /\ DeriveVerifier (pr_Salt p) secret = inr verifier /\
    ServerProof verifier (with_nonce t (pr_ServerNonce p)) = inr (pr_MAC p) /\ ClientProof verifier (with_nonce t (pr_ServerNonce p)) = inr mac.
Proof.
  unfold client_proof. destruct r as [e|frame]; [done|]. destruct (Type_ frame =? FrameProblem); [done|].
  destruct (negb (Type_ frame =? FrameServerProof)) eqn:Ht; [done|]. apply negb_false_iff, Z.eqb_eq in Ht.
  destruct (decode proof_fields no_proof (Payload frame)) as [p|] eqn:Hd; [|done]. destruct (_ || _) eqn:Hn; [done|]. apply orb_false_iff in Hn as [Hn1 Hn2]. zbool.
  cbv zeta. destruct (Validate _); [done|]. destruct (DeriveVerifier (pr_Salt p) secret) as [e|verifier] eqn:Hv; [done|].
  destruct (VerifyServerProof _ _ _) eqn:Hs; [done|]. apply verify_ok in Hs. destruct (ClientProof verifier _) as [e|m] eqn:Hc; [done|]. intros [= <-].
  exists frame, p, verifier. done.
Qed.
Lemma read_complete_ok r c : read_complete r = inr c ->
  exists frame, r = inr frame /\ Type_ frame = FrameComplete /\ decode complete_fields no_complete (Payload frame) = Some c /\ co_ServerID c <> [] /\ co_DeviceID c <> [].
Proof.
  unfold read_complete. destruct r as [e|frame]; [done|]. destruct (Type_ frame =? FrameProblem); [done|].
  destruct (negb (Type_ frame =? FrameComplete)) eqn:Ht; [done|]. apply negb_false_iff, Z.eqb_eq in Ht.
  destruct (decode complete_fields no_complete (Payload frame)) as [c'|] eqn:Hd; [|done]. destruct (_ || _) eqn:He; [done|]. intros [= ->].
  apply orb_false_iff in He as [?%eqb_false ?%eqb_false]. by exists frame.
Qed.

(** (The client pairs with the holder of the phrase): whatever the other side sends, the
    exchange succeeds only after a server proof over the client's own transcript, with a
    nonce of 16 to 64 bytes, under the verifier that the phrase gives with the salt that was
    sent; the client's own proof is sent only then. *)
Theorem pairing_client_checks t secret o tr c :
  runs (ExchangePairing t secret o) tr (inr c) ->
  exists pre hello f1 p verifier mac f2,
    tr = pre ++ [EvSend (mkFrame FrameClientHello (print (client_hello_json hello))) None; EvRecv (inr f1);
                 EvSend (mkFrame FrameClientProof (print (proof_json (mkProof [] [] mac)))) None; EvRecv (inr f2)] /\
    Forall (fun e => match e with EvRand _ _ => True | _ => False end) pre /\ ch_Transcript hello = t /\
    Type_ f1 = FrameServerProof /\ decode proof_fields no_proof (Payload f1) = Some p /\ 16 <= len (pr_ServerNonce p) <= 64 /\
    DeriveVerifier (pr_Salt p) secret = inr verifier /\
    ServerProof verifier (with_nonce t (pr_ServerNonce p)) = inr (pr_MAC p) /\ ClientProof verifier (with_nonce t (pr_ServerNonce p)) = inr mac /\
    Type_ f2 = FrameComplete /\ decode complete_fields no_complete (Payload f2) = Some c.
Proof.
  unfold ExchangePairing. destruct (Validate t); [by intros [_ ?]|]. intros Hr.
  apply runs_ebind in Hr as (pre & tr2 & -> & [(e & _ & _ & ?)|([salt verifier0] & Hpre & Hr)]); [done|].
  destruct Hr as (x & tr3 & -> & Hr). destruct x as [e|]; [by destruct Hr as [_ ?]|]. destruct Hr as (r1 & tr4 & -> & Hr).
  destruct (client_proof t secret r1) as [e|mac] eqn:Hp; [by destruct Hr as [_ ?]|]. destruct (client_proof_ok _ _ _ _ Hp) as (f1 & p & verifier & -> & ? & ? & ? & ? & ? & ?).
  destruct Hr as (x & tr5 & -> & Hr). destruct x as [e|]; [by destruct Hr as [_ ?]|]. destruct Hr as (r2 & tr6 & -> & -> & Hc). symmetry in Hc.
  destruct (read_complete_ok _ _ Hc) as (f2 & -> & ? & ? & _).
  exists pre, (mkClientHello t (eo_DeviceName o) salt verifier0), f1, p, verifier, mac, f2. split; [done|]. split; [|done].
  unfold next_recovery in Hpre. destruct (_ || _); [|destruct Hpre as [-> _]; constructor]. destruct (len _ <? 16); [by destruct Hpre|].
  destruct Hpre as (b & tr & -> & -> & _). repeat constructor.
Qed.

(** ** A conversation *)

Record Wire := mkWire { to_server : bytes; to_client : bytes; wire_svc : service.Service; client_rand : list (option bytes) }.

Definition put_server (b : bytes) (w : Wire) : Wire := mkWire b (to_client w) (wire_svc w) (client_rand w).
Definition put_client (b : bytes) (w : Wire) : Wire := mkWire (to_server w) b (wire_svc w) (client_rand w).
Definition put_svc (s : service.Service) (w : Wire) : Wire := mkWire (to_server w) (to_client w) s (client_rand w).
Definition put_rand (l : list (option bytes)) (w : Wire) : Wire := mkWire (to_server w) (to_client w) (wire_svc w) l.

(** The client runs until it waits for bytes; then the server does. [None]: both wait. *)
Fixpoint converse {A B} (c : prog A) : prog B -> Wire -> option (A * B * Wire) :=
  fix serve (s : prog B) (w : Wire) : option (A * B * Wire) :=
    let server_turn (closed : bool) (ended : B -> option (A * B * Wire)) :=
      match s with
      | Ret b => ended b
      | Send f k => let '(out, r) := WriteFrame (to_client w) f in serve (k (sent r)) (put_client out w)
      | Recv k =>
        if negb closed && bool_decide (to_server w = []) then None else
        let '(rest, r) := ReadFrame (to_server w) in serve (k r) (put_server rest w)
      | Rand n k => let '(svc, b) := service.draw n (wire_svc w) in serve (k b) (put_svc svc w)
      | Call x k => let '(svc, r) := perform x (wire_svc w) in serve (k r) (put_svc svc w)
      end in
    match c with
    | Ret a => server_turn true (fun b => Some (a, b, w))
    | Send f k => let '(out, r) := WriteFrame (to_server w) f in converse (k (sent r)) s (put_server out w)
    | Rand n k => let '(l, b) := service.read_random n (client_rand w) in converse (k b) s (put_rand l w)
    | Call _ _ => None
    | Recv k =>
      match to_client w with
      | [] => server_turn false (fun b => converse (k (inl (ErrIO ErrEOF))) s w)
      | _ => let '(rest, r) := ReadFrame (to_client w) in converse (k r) s (put_client rest w)
      end
    end.

(** A program that only calls and draws, run directly. *)
Fixpoint direct {A} (p : prog A) (s : service.Service) : option (service.Service * A) :=
  match p with
  | Ret a => Some (s, a)
  | Rand n k => let '(s, b) := service.draw n s in direct (k b) s
  | Call x k => let '(s, r) := perform x s in direct (k r) s
  | Send _ _ | Recv _ => None
  end.
(** One that only draws. *)
Fixpoint draws {A} (p : prog A) (l : list (option bytes)) : option (list (option bytes) * A) :=
  match p with
  | Ret a => Some (l, a)
  | Rand n k => let '(l, b) := service.read_random n l in draws (k b) l
  | _ => None
  end.

Lemma writeFull_all (w data : bytes) : writeFull w data = (w ++ data, Ok tt).
Proof.
  destruct (writeFull w data) as [w' r] eqn:Hw. destruct (writeFull_spec w data w' r Hw) as (_ & _ & _ & Ho). cbn in Ho.
  assert (Hr : r = Ok tt); [|subst r; by rewrite Ho].
  revert Hw. clear. unfold writeFull. assert (Hf : (length data < S (length data))%nat) by lia. revert Hf. generalize (S (length data)) as fuel. intros fuel. revert w data.
  induction fuel as [|fuel IH]; intros w data Hf; [lia|]. cbn [writeFull_loop]. destruct (0 <? len data) eqn:Hd; cbn [negb]; [|by intros [= _ <-]].
  cbn [wr slow_writer]. zbool. rewrite (proj2 (Z.eqb_neq _ _)) by lia. rewrite slice_from_ok by lia. apply IH. rewrite length_drop. unfold len in *. lia.
Qed.
Lemma WriteFrame_all (w : bytes) f : frame_ok f -> WriteFrame w f = (w ++ frame_wire f, Ok tt).
Proof.
  intros Hf. unfold WriteFrame, frame_ok in *. rewrite (proj2 (Z.ltb_ge _ _)) by done. rewrite writeFull_all. cbv beta iota zeta. rewrite writeFull_all.
  cbv beta iota zeta. rewrite writeFull_all. cbn [lift_io]. unfold frame_wire. by rewrite <- !app_assoc.
Qed.
Lemma frame_wire_cons f rest : exists x l, frame_wire f ++ rest = x :: l.
Proof. unfold frame_wire, frame_header, be_bytes. cbn. eauto. Qed.

(** ** Steps of a conversation *)

Section Steps.
Context {A B : Type}.
Implicit Types (w : Wire).

Lemma client_sends f (k : option PairErr -> prog A) (s : prog B) w :
  frame_ok f -> converse (Send f k) s w = converse (k None) s (put_server (to_server w ++ frame_wire f) w).
Proof. intros Hf. destruct s; cbn [converse]; by rewrite WriteFrame_all. Qed.
Lemma client_receives f rest (k : PairErr + Frame -> prog A) (s : prog B) w :
  frame_ok f -> to_client w = frame_wire f ++ rest -> converse (Recv k) s w = converse (k (inr f)) s (put_client rest w).
Proof.
  intros Hf Hw. destruct (frame_wire_cons f rest) as (x & l & Hx).
  assert (Hc : converse (Recv k) s w = match to_client w with [] => converse (Recv k) s w | _ => let '(rest, r) := ReadFrame (to_client w) in converse (k r) s (put_client rest w) end).
  { destruct (to_client w) as [|y m] eqn:He; [done|]. destruct s; cbn [converse]; rewrite He; done. }
  rewrite Hc, Hw, Hx. rewrite <- Hx. by rewrite ReadFrame_wire.
Qed.
Lemma client_receives_only f (k : PairErr + Frame -> prog A) (s : prog B) w :
  frame_ok f -> to_client w = frame_wire f -> converse (Recv k) s w = converse (k (inr f)) s (put_client [] w).
Proof. intros Hf Hw. apply client_receives; [done|]. by rewrite app_nil_r. Qed.
Lemma client_draws {X} (p : prog X) (k : X -> prog A) (s : prog B) w l x :
  draws p (client_rand w) = Some (l, x) -> converse (bind p k) s w = converse (k x) s (put_rand l w).
Proof.
  revert w. induction p as [a|f q IH|q IH|n q IH|c q IH]; intros w; cbn [draws bind]; try done.
  - intros [= <- <-]. by destruct w.
  - destruct (service.read_random n (client_rand w)) as [l1 b] eqn:Hr. intros Hd.
    assert (Hs : converse (Rand n (fun r => bind (q r) k)) s w = converse (bind (q b) k) s (put_rand l1 w)) by (destruct s; cbn [converse]; by rewrite Hr).
    rewrite Hs. by rewrite (IH b (put_rand l1 w) Hd).
Qed.
Lemma server_sends f (k : PairErr + Frame -> prog A) (q : option PairErr -> prog B) w :
  frame_ok f -> to_client w = [] -> converse (Recv k) (Send f q) w = converse (Recv k) (q None) (put_client (frame_wire f) w).
Proof. intros Hf Hw. cbn [converse]. rewrite Hw, WriteFrame_all by done. done. Qed.
Lemma server_receives f (k : PairErr + Frame -> prog A) (q : PairErr + Frame -> prog B) w :
  frame_ok f -> to_client w = [] -> to_server w = frame_wire f -> converse (Recv k) (Recv q) w = converse (Recv k) (q (inr f)) (put_server [] w).
Proof.
  intros Hf Hc Hs. cbn [converse]. rewrite Hc, Hs. destruct (frame_wire_cons f []) as (x & l & Hx). rewrite app_nil_r in Hx.
  rewrite Hx, bool_decide_eq_false_2 by done. rewrite <- Hx. pose proof (ReadFrame_wire f [] Hf) as Hr. rewrite app_nil_r in Hr. by rewrite Hr.
Qed.
Lemma server_calls {X} (p : prog X) (k : PairErr + Frame -> prog A) (q : X -> prog B) w s x :
  to_client w = [] -> direct p (wire_svc w) = Some (s, x) -> converse (Recv k) (bind p q) w = converse (Recv k) (q x) (put_svc s w).
Proof.
  intros Hc. revert w Hc. induction p as [a|f r IH|r IH|n r IH|c r IH]; intros w Hc; cbn [direct bind]; try done.
  - intros [= <- <-]. by destruct w.
  - destruct (service.draw n (wire_svc w)) as [s1 b] eqn:Hr. intros Hd.
    transitivity (converse (Recv k) (bind (r b) q) (put_svc s1 w)); [cbn [converse]; by rewrite Hc, Hr|exact (IH b (put_svc s1 w) Hc Hd)].
  - destruct (perform c (wire_svc w)) as [s1 b] eqn:Hr. intros Hd.
    transitivity (converse (Recv k) (bind (r b) q) (put_svc s1 w)); [cbn [converse]; by rewrite Hc, Hr|exact (IH b (put_svc s1 w) Hc Hd)].
Qed.
Lemma server_draws n (k : PairErr + Frame -> prog A) (q : option bytes -> prog B) w s b :
  to_client w = [] -> service.draw n (wire_svc w) = (s, b) -> converse (Recv k) (Rand n q) w = converse (Recv k) (q b) (put_svc s w).
Proof. intros Hc Hd. cbn [converse]. by rewrite Hc, Hd. Qed.
Lemma server_ends (k : PairErr + Frame -> prog A) (b : B) w :
  to_client w = [] -> converse (Recv k) (Ret b) w = converse (k (inl (ErrIO ErrEOF))) (Ret b) w.
Proof. intros Hc. cbn [converse]. by rewrite Hc. Qed.
Lemma both_end (a : A) (b : B) w : converse (Ret a) (Ret b) w = Some (a, b, w).
Proof. done. Qed.
End Steps.

(** ** Sizes *)

Lemma len_escape m s : len (escape m s) <= 6 * len s.
Proof.
  revert s. induction m as [|m IH]; intros [|c s]; [done|cbn [escape]; rewrite len_cons; pose proof (len_nonneg s); change (len (@nil Z)) with 0; lia|done|]. cbn [escape].
  destruct (c <? 0x80).
  - rewrite len_app, len_cons. specialize (IH s). assert (len (escape_ascii c) <= 6); [|lia]. unfold escape_ascii. repeat case_match; vm_compute; done.
  - destruct (decode_rune_width (c :: s) ltac:(done)) as [Hw1 Hw2]. destruct (decode_rune (c :: s)) as [r n]. cbn [snd] in *. rewrite len_app.
    specialize (IH (drop n (c :: s))). assert (len (escape_rune r n (c :: s)) <= 6 * Z.of_nat n).
    { unfold escape_rune. destruct (_ && _); [change (len (str "\ufffd")) with 6; lia|]. destruct (_ || _); [change (len (u_escape r)) with 6; lia|].
      unfold len. rewrite length_take. lia. }
    assert (len (drop n (c :: s)) = len (c :: s) - Z.of_nat n) by (unfold len; rewrite length_drop; lia). lia.
Qed.
Lemma len_quote s : len (quote s) <= 6 * len s + 2.
Proof. unfold quote. rewrite !len_app. pose proof (len_escape (length s) s). change (len [34]) with 1. lia. Qed.
Lemma len_b64 b : len (b64_encode b) <= 2 * len b + 4.
Proof. induction b as [|x|x y|x y z b IH] using triples_ind; cbn [b64_encode]; rewrite ?len_cons; try change (len (@nil Z)) with 0; lia. Qed.

Definition member_size (kx : bytes * value) : Z := len (quote kx.1) + len (print kx.2) + 2.
Definition members_size (l : list (bytes * value)) : Z := fold_right (fun kx n => member_size kx + n) 0 l.
Lemma len_members l : len (print_members l) <= members_size l.
Proof.
  induction l as [|[k x] l IH]; [done|]. change (members_size ((k, x) :: l)) with (len (quote k) + len (print x) + 2 + members_size l). cbn [print_members]. destruct l as [|y l].
  - rewrite !len_app. change (len [58]) with 1. change (members_size []) with 0. lia.
  - rewrite !len_app. change (len [58]) with 1. change (len [44]) with 1. lia.
Qed.
Lemma members_size_app l1 l2 : members_size (l1 ++ l2) = members_size l1 + members_size l2.
Proof. unfold members_size. induction l1 as [|kx l1 IH]; cbn; lia. Qed.
Lemma omitempty_size k b j : members_size (omitempty k b j) <= member_size (k, j).
Proof.
  pose proof (len_nonneg (quote k)). pose proof (len_nonneg (print j)).
  destruct b; [change (members_size (omitempty k [] j)) with 0|change (members_size (omitempty k _ j)) with (member_size (k, j) + 0)]; unfold member_size; cbn [fst snd]; lia.
Qed.
Lemma bytes_size k b : len (quote k) <= 20 -> member_size (k, JBytes b) <= 48 + 12 * len b.
Proof. intros Hk. unfold member_size, JBytes. cbn [fst snd print]. pose proof (len_quote (b64_encode b)). pose proof (len_b64 b). lia. Qed.
Lemma proof_fits ty p : len (pr_Salt p) <= 1024 -> len (pr_ServerNonce p) <= 64 -> len (pr_MAC p) <= 64 -> frame_ok (mkFrame ty (print (proof_json p))).
Proof.
  intros Hs Hn Hm. unfold frame_ok, proof_json. cbn [Payload]. rewrite print_obj, !len_app. change (len [123]) with 1. change (len [125]) with 1. change MaxFrameSize with 65536.
  match goal with |- context [print_members ?l] => pose proof (len_members l) as Hl end. rewrite !members_size_app in Hl.
  pose proof (omitempty_size (str "salt") (pr_Salt p) (JBytes (pr_Salt p))) as H1. pose proof (omitempty_size (str "serverNonce") (pr_ServerNonce p) (JBytes (pr_ServerNonce p))) as H2.
  pose proof (bytes_size (str "salt") (pr_Salt p) ltac:(vm_compute; done)). pose proof (bytes_size (str "serverNonce") (pr_ServerNonce p) ltac:(vm_compute; done)).
  pose proof (bytes_size (str "mac") (pr_MAC p) ltac:(vm_compute; done)). assert (members_size [(str "mac", JBytes (pr_MAC p))] = member_size (str "mac", JBytes (pr_MAC p))) by (cbn; lia). lia.
Qed.

(** ** Directly *)

Lemma direct_bind {A B} (p : prog A) (k : A -> prog B) s :
  direct (bind p k) s = match direct p s with Some (s', a) => direct (k a) s' | None => None end.
Proof.
  revert s. induction p as [a|f q IH|q IH|n q IH|c q IH]; intros s; cbn [direct bind]; try done.
  - destruct (service.draw n s) as [s1 b]. apply IH.
  - destruct (perform c s) as [s1 b]. apply IH.
Qed.
Lemma with_repo_rand {A} (f : Repo -> Repo * (error + A)) s : service.s_rand (service.with_repo f s).1 = service.s_rand s.
Proof. unfold service.with_repo. by destruct (f (service.s_repo s)). Qed.
Lemma perform_rand c s : service.s_rand (perform c s).1 = service.s_rand s.
Proof. destruct c; apply with_repo_rand. Qed.

(** The authority for a hello, and the randomness it leaves. *)
Lemma credential_direct hello s : exists s' r, direct (credential hello) s = Some (s', r) /\ service.s_rand s' = service.s_rand s.
Proof.
  unfold credential, invalid. repeat case_match; cbn [direct]; eauto;
    match goal with |- context [perform ?c s] => pose proof (perform_rand c s) as Hr; destruct (perform c s) as [s1 [e|x]]; cbn [fst] in Hr; cbn [direct]; eauto end.
Qed.
Lemma complete_direct h hello a s : exists s' r, direct (complete h hello a) s = Some (s', r) /\ forall c, r = inr c -> co_ServerID c = h_ServerID h.
Proof.
  unfold complete, invalid, randomID, ebind. destruct a as [[credential handle] name]. cbn [bind direct]. destruct (service.draw 16 s) as [s1 [b|]]; cbn [bind direct]; [|by eexists _, _; split].
  repeat case_match; cbn [direct bind]; [..|by eexists _, _; split].
  - destruct (service.draw 16 s1) as [s2 [b2|]]; cbn [direct bind]; [|by eexists _, _; split].
    match goal with |- context [perform ?c ?t] => destruct (perform c t) as [s3 [e|[x y]]] end; cbn [direct]; eexists _, _; (split; [done|]); [done|]. by intros c [= <-].
  - match goal with |- context [perform ?c ?t] => destruct (perform c t) as [s3 [e|x]] end; cbn [direct]; [by eexists _, _; split|].
    match goal with |- context [perform ?c ?t] => destruct (perform c t) as [s4 [e|y]] end; cbn [direct]; eexists _, _; (split; [done|]); [done|]. by intros c [= <-].
  - match goal with |- context [perform ?c ?t] => destruct (perform c t) as [s3 [e|x]] end; cbn [direct]; eexists _, _; (split; [done|]); [done|]. by intros c [= <-].
Qed.
Lemma read_random_ok n l l' b : service.read_random n l = (l', Some b) -> Forall (from_option bytes_ok True) l -> length b = n /\ bytes_ok b.
Proof.
  unfold service.read_random. destruct l as [|[x|] bs]; [done| |done]. cbn [fmap option_fmap option_map]. intros [= _ <-] Hb. apply Forall_cons in Hb as [Hb _].
  split; [rewrite length_take, length_app, length_replicate; lia|]. apply Forall_take, Forall_app. split; [done|]. apply Forall_replicate. unfold is_u8. lia.
Qed.
Lemma draw_nonce s s' nonce : service.draw 32 s = (s', Some nonce) -> Forall (from_option bytes_ok True) (service.s_rand s) -> len nonce = 32 /\ bytes_ok nonce.
Proof.
  unfold service.draw. destruct (service.read_random 32 (service.s_rand s)) as [l b] eqn:Hr. intros [= _ ->] Hb.
  destruct (read_random_ok _ _ _ _ Hr Hb) as [Hl ?]. split; [|done]. unfold len. by rewrite Hl.
Qed.

(** What the server does for a hello, without the protocol around it. *)
Definition serve_directly (h : Handler) (hello : ClientHello) : prog (CliErr + Complete) :=
  bind (credential hello) (fun r =>
  match r with
  | inl e => Ret (inl (ErrProblem (problemCode e) (str "pairing authority is not available")))
  | inr a =>
    Rand 32 (fun nonce =>
    match nonce with
    | None => Ret (inl ErrPairing)
    | Some _ =>
      bind (complete h hello a) (fun r => Ret
      match r with inl e => inl (ErrProblem (problemCode e) (str "pairing could not be completed")) | inr c => inr c end)
    end)
  end).

Definition pair_client (t : Transcript) (secret : bytes) (o : ExchangeOptions) : prog (CliErr + Complete) :=
  ebind ReadServerHello (fun _ => ExchangePairing t secret o).

(** ** The exchange *)

(** An honest pair of ends: the handler greets in full, the transcript of the client is that
    of the session, its hello fits a frame, the phrase is that of the authority, and what the
    repository answers can be written. *)
Record honest (mismatch : Handler -> Transcript -> bytes) (h : Handler) (t : Transcript) (secret : bytes) (o : ExchangeOptions)
    (rand rand' : list (option bytes)) (hello : ClientHello) (s : service.Service) : Prop := {
  ho_greeting : h_HostKeyAlgorithm h <> [] /\ h_ProductVersion h <> [] /\ text (h_HostKeyAlgorithm h) /\ text (h_ProductVersion h) /\ frame_ok (hello_frame h);
  ho_session : validateTranscript h t = true;
  ho_recovery : exists v, draws (next_recovery t o) rand = Some (rand', inr v) /\ hello = mkClientHello t (eo_DeviceName o) v.1 v.2;
  ho_text : client_hello_text hello;
  ho_fits : frame_ok (mkFrame FrameClientHello (print (client_hello_json hello)));
  ho_random : Forall (from_option bytes_ok True) (service.s_rand s);
  ho_phrase : forall s' a, direct (credential hello) s = Some (s', inr a) ->
    DeriveVerifier (pc_Salt a.1.1) secret = inr (pc_Verifier a.1.1) /\ bytes_ok (pc_Salt a.1.1);
  ho_answer : forall s' c, direct (serve_directly h hello) s = Some (s', inr c) ->
    complete_text c /\ co_DeviceID c <> [] /\ frame_ok (mkFrame FrameComplete (print (complete_json c))) }.

Lemma problem_read code detail : text code -> code <> [] -> text detail -> len code + len detail <= 1000 ->
  frame_ok (mkFrame FrameProblem (print (problem_json (mkProblem code detail)))) /\
  decodePairProblem (print (problem_json (mkProblem code detail))) = ErrProblem code detail.
Proof.
  intros Hc Hne Hd Hl. assert (Hf : frame_ok (mkFrame FrameProblem (print (problem_json (mkProblem code detail))))).
  { unfold frame_ok. cbn [Payload]. unfold problem_json. rewrite print_obj, !len_app. change (len [123]) with 1. change (len [125]) with 1. change MaxFrameSize with 65536.
    match goal with |- context [print_members ?l] => pose proof (len_members l) as Hm end. unfold members_size, member_size in Hm. cbn [fold_right fst snd print pb_Code pb_Detail] in *.
    pose proof (len_quote code). pose proof (len_quote detail). pose proof (len_quote (str "code")) as Hq1. pose proof (len_quote (str "detail")) as Hq2.
    change (len (str "code")) with 4 in Hq1. change (len (str "detail")) with 6 in Hq2. pose proof (len_nonneg code). pose proof (len_nonneg detail). lia. }
  split; [done|]. unfold decodePairProblem. rewrite (decode_print _ _ 1), problem_set; [|by apply problem_printable|done|unfold frame_ok in Hf; cbn [Payload] in Hf; lia].
  cbn [pb_Code pb_Detail]. by rewrite (proj2 (eqb_false _ _) Hne).
Qed.
Lemma problemCode_ok e : text (problemCode e) /\ problemCode e <> [] /\ len (problemCode e) <= 20.
Proof. unfold problemCode. destruct e as [[]| | |]; (split_and!; [apply ascii_text; vm_compute; reflexivity|done|vm_compute; done]). Qed.

(** A problem of the server reaches the client. *)
Lemma problem_exchange {A} (k : PairErr + Frame -> prog (CliErr + A)) code detail svc l :
  text code -> code <> [] -> text detail -> len code + len detail <= 1000 ->
  (forall f, Type_ f = FrameProblem -> k (inr f) = Ret (inl (decodePairProblem (Payload f)))) ->
  converse (Recv k) (problem code detail) (mkWire [] [] svc l) = Some (inl (ErrProblem code detail), None, mkWire [] [] svc l).
Proof.
  intros Hc Hne Hd Hl Hk. destruct (problem_read code detail Hc Hne Hd Hl) as [Hf Hp]. unfold problem. rewrite server_sends by done.
  rewrite (client_receives_only (mkFrame FrameProblem (print (problem_json (mkProblem code detail))))) by done. rewrite Hk by done. cbn [Payload put_client]. rewrite Hp. done.
Qed.

Lemma client_proof_problem t secret f : Type_ f = FrameProblem -> client_proof t secret (inr f) = inl (decodePairProblem (Payload f)).
Proof. unfold client_proof. by intros ->. Qed.
Lemma read_complete_problem f : Type_ f = FrameProblem -> read_complete (inr f) = inl (decodePairProblem (Payload f)).
Proof. unfold read_complete. by intros ->. Qed.

Lemma with_nonce_valid t nonce : Validate t = None -> len nonce = 32 -> Validate (with_nonce t nonce) = None.
Proof.
  unfold Validate, with_nonce. cbn [SessionID ServerID HostKeyFingerprint ClientNonce ServerNonce PublicKey DeviceFingerprint Purpose Identifier]. intros Hv ->.
  destruct (_ || _) in Hv |- *; [done|]. destruct ((len (ClientNonce t) <? 16) || (64 <? len (ClientNonce t))); [done|]. cbn [orb] in *. change ((32 <? 16) || (64 <? 32)) with false.
  cbv iota. by destruct ((len (ServerNonce t) <? 16) || (64 <? len (ServerNonce t))).
Qed.
Lemma proof_made salt secret verifier t label : DeriveVerifier salt secret = inr verifier -> Validate t = None ->
  exists mac, proof verifier t label = inr mac /\ len mac = 32 /\ bytes_ok mac.
Proof.
  unfold DeriveVerifier. destruct (_ || _); [done|]. intros [= <-] Hv. unfold proof, DeriveKey, secret_length. rewrite len_sha256. unfold canonical. rewrite Hv.
  eexists. split; [reflexivity|]. split; [apply len_hmac|apply hmac_bytes].
Qed.
Lemma derive_salt salt secret verifier : DeriveVerifier salt secret = inr verifier -> len salt <= 1024.
Proof. unfold DeriveVerifier. destruct (_ || _) eqn:He; [done|]. intros _. apply orb_false_iff in He as [He _]. apply orb_false_iff in He as [_ He]. zbool. lia. Qed.

Section Honest.
Context (mismatch : Handler -> Transcript -> bytes) (h : Handler) (t : Transcript) (secret : bytes) (o : ExchangeOptions).
Context (rand rand' : list (option bytes)) (hello : ClientHello) (s : service.Service).
Context (Hhonest : honest mismatch h t secret o rand rand' hello s).

Lemma session_text : transcript_text t /\ ch_Transcript hello = t.
Proof using Hhonest. destruct Hhonest as [_ _ (v & _ & ->) [Ht _] _ _ _ _]. by split. Qed.

Lemma session_named : h_SessionID h <> [] /\ h_ServerID h <> [] /\ h_HostKeyFingerprint h <> [] /\ h_CandidatePublicKey h <> [] /\ h_CandidateFingerprint h <> [].
Proof using Hhonest.
  destruct (validate_binds _ _ (ho_session _ _ _ _ _ _ _ _ _ Hhonest)) as (Hv & E1 & E2 & E3 & E4 & E5).
  rewrite <- E1, <- E2, <- E3, <- E4, <- E5. unfold Validate in Hv. destruct (_ || _) eqn:He in Hv; [done|].
  repeat (apply orb_false_iff in He as [He ?]). repeat match goal with H : (_ || _) = false |- _ => apply orb_false_iff in H as [H _] end.
  repeat match goal with H : bool_decide _ = false |- _ => apply bool_decide_eq_false_1 in H end. done.
Qed.

(** The greeting. *)
Lemma greeting_exchange :
  converse (pair_client t secret o) (Serve mismatch h) (mkWire [] [] s rand) =
  converse (ExchangePairing t secret o) (Recv (fun r => match r with
    | inl e => Ret (Some (EPair e))
    | inr frame =>
      if negb (Type_ frame =? FrameClientHello) then problem (str "invalid_frame") (str "expected client hello") else
      match decode client_hello_fields no_client_hello (Payload frame) with
      | None => problem (str "invalid_request") (str "client hello is invalid")
      | Some hello =>
        if negb (validateTranscript h (ch_Transcript hello))
        then problem (str "transcript_mismatch") (str "pairing transcript does not match this SSH session: " ++ mismatch h (ch_Transcript hello))
        else bind (credential hello) (fun r => match r with inl e => problem (problemCode e) (str "pairing authority is not available") | inr a => prove h hello a end)
      end
    end)) (mkWire [] [] s rand).
Proof using Hhonest.
  destruct session_text as [(_ & HtS & HtF & _) _]. destruct (ho_greeting _ _ _ _ _ _ _ _ _ Hhonest) as (Ha & Hp & Hta & Htp & Hf).
  destruct (validate_binds _ _ (ho_session _ _ _ _ _ _ _ _ _ Hhonest)) as (Hv & E1 & E2 & E3 & E4 & E5).
  pose proof session_named as Hne.
  destruct Hne as (N1 & N2 & N3 & N4 & N5). unfold Serve. rewrite !(proj2 (eqb_false _ _)) by done. cbn [orb]. unfold pair_client, ReadServerHello, ebind. cbn [bind].
  rewrite server_sends by done. rewrite (client_receives_only (hello_frame h)) by done. cbn [hello_frame Type_ Payload]. rewrite Z.eqb_refl. cbn [negb bind].
  rewrite (decode_print _ _ 2), server_hello_set; [| |done|unfold frame_ok, hello_frame in Hf; cbn [Payload] in Hf; lia].
  { cbn [sh_ServerID sh_HostKeyAlgorithm sh_HostKeyFingerprint sh_ProductVersion]. rewrite !(proj2 (eqb_false _ _)) by done. cbn [orb bind]. done. }
  rewrite E2 in HtS. rewrite E3 in HtF. apply server_hello_printable; try done. cbn [sh_Protocols]. repeat (apply Forall_cons; split; [by apply ascii_text|]). apply List.Forall_nil.
Qed.

Lemma hello_exchange :
  converse (pair_client t secret o) (Serve mismatch h) (mkWire [] [] s rand) =
  converse (Recv (fun r => match client_proof t secret r with
    | inl e => Ret (inl e)
    | inr mac => Send (mkFrame FrameClientProof (print (proof_json (mkProof [] [] mac)))) (fun r =>
        match r with Some _ => Ret (inl ErrPairing) | None => Recv (fun r => Ret (read_complete r)) end)
    end))
   (bind (credential hello) (fun r => match r with inl e => problem (problemCode e) (str "pairing authority is not available") | inr a => prove h hello a end))
   (mkWire [] [] s rand').
Proof using Hhonest.
  rewrite greeting_exchange. destruct session_text as [_ Hht]. pose proof (ho_session _ _ _ _ _ _ _ _ _ Hhonest) as Hses.
  destruct (validate_binds _ _ Hses) as (Hv & _). pose proof (ho_fits _ _ _ _ _ _ _ _ _ Hhonest) as Hfit.
  pose proof (ho_text _ _ _ _ _ _ _ _ _ Hhonest) as Htx. destruct (ho_recovery _ _ _ _ _ _ _ _ _ Hhonest) as (v & Hd & Hh).
  unfold ExchangePairing. rewrite Hv. unfold ebind. rewrite (client_draws _ _ _ _ rand' (inr v)) by done. cbv iota beta. rewrite <- Hh.
  rewrite client_sends by done. rewrite (server_receives (mkFrame FrameClientHello (print (client_hello_json hello)))) by done. cbv iota beta. cbn [Type_ Payload]. rewrite Z.eqb_refl. cbn [negb].
  rewrite (decode_print _ _ 2), client_hello_set; [|done|by apply client_hello_printable|done|unfold frame_ok in Hfit; cbn [Payload] in Hfit; lia].
  rewrite Hht, Hses. cbn [negb]. done.
Qed.

(** C14 (Pairing works): an honest client and the handler, over their two byte streams, come
    to an end; the client gets exactly the answer that the identity service gives when the
    calls are made directly, errors included, and the repository is left as they leave it. *)
Theorem pairing_exchange_exact :
  exists s' answer served,
    direct (serve_directly h hello) s = Some (s', answer) /\
    converse (pair_client t secret o) (Serve mismatch h) (mkWire [] [] s rand) = Some (answer, served, mkWire [] [] s' rand').
Proof using Hhonest.
  rewrite hello_exchange. destruct session_text as [_ Hht]. destruct (validate_binds _ _ (ho_session _ _ _ _ _ _ _ _ _ Hhonest)) as (Hv & _ & Hsid & _).
  pose proof (ho_phrase _ _ _ _ _ _ _ _ _ Hhonest) as Hphrase. pose proof (ho_random _ _ _ _ _ _ _ _ _ Hhonest) as Hrand. pose proof (ho_answer _ _ _ _ _ _ _ _ _ Hhonest) as Hans.
  destruct (credential_direct hello s) as (s1 & r & Hc & Hr1).
  rewrite (server_calls _ _ _ _ s1 r) by done. unfold put_svc. cbn [to_server to_client client_rand].
  unfold serve_directly at 1. rewrite direct_bind, Hc. assert (Hans' := fun s' c => ho_answer _ _ _ _ _ _ _ _ _ Hhonest s' c). unfold serve_directly in Hans'.
  destruct r as [e|a].
  { destruct (problemCode_ok e) as (? & ? & ?). eexists _, _, _. split; [reflexivity|].
    apply problem_exchange; [done|done|by apply ascii_text|change (len (str "pairing authority is not available")) with 34; lia|].
    intros f Hf. by rewrite client_proof_problem. }
  destruct (Hphrase s1 a Hc) as [Hder Hsalt].
  assert (Hdone : forall s2 nonce s3 c, service.draw 32 s1 = (s2, Some nonce) -> direct (complete h hello a) s2 = Some (s3, inr c) ->
    complete_text c /\ co_DeviceID c <> [] /\ frame_ok (mkFrame FrameComplete (print (complete_json c)))).
  { intros s2 nonce s3 c Hdr Hco. apply (Hans' s3). rewrite direct_bind, Hc. cbn [direct]. rewrite Hdr, direct_bind, Hco. done. }
  cbn [direct]. unfold prove. rewrite Hht. destruct (service.draw 32 s1) as [s2 nonce] eqn:Hdr.
  rewrite (server_draws _ _ _ _ s2 nonce) by done. cbv zeta. unfold put_svc. cbn [to_server to_client client_rand wire_svc].
  destruct nonce as [nonce|]; [|eexists _, _, _; split; [reflexivity|]; by rewrite server_ends].
  destruct (draw_nonce _ _ _ Hdr) as [Hnl Hnb]; [by rewrite Hr1|]. pose proof (with_nonce_valid t nonce Hv Hnl) as Hvn.
  destruct (proof_made _ _ _ (with_nonce t nonce) (str "server") Hder Hvn) as (mac & Hmac & Hml & Hmb). destruct (proof_made _ _ _ (with_nonce t nonce) (str "client") Hder Hvn) as (cmac & Hcmac & Hcl & Hcb).
  change (proof ?v ?x (str "server")) with (ServerProof v x) in Hmac. change (proof ?v ?x (str "client")) with (ClientProof v x) in Hcmac.
  rewrite Hmac. set (p := mkProof (pc_Salt a.1.1) nonce mac). assert (Hpf : frame_ok (mkFrame FrameServerProof (print (proof_json p)))) by (apply proof_fits; cbn [pr_Salt pr_ServerNonce pr_MAC p]; [by eapply derive_salt|lia|lia]).
  set (q := mkProof [] [] cmac). assert (Hqf : frame_ok (mkFrame FrameClientProof (print (proof_json q)))) by (apply proof_fits; cbn [pr_Salt pr_ServerNonce pr_MAC q]; change (len (@nil Z)) with 0; lia).
  assert (Hqt : proof_text q) by (split_and!; [by constructor|by constructor|done]).
  rewrite server_sends by done. rewrite (client_receives_only (mkFrame FrameServerProof (print (proof_json p)))) by done.
  assert (Hcp : client_proof t secret (inr (mkFrame FrameServerProof (print (proof_json p)))) = inr cmac).
  { unfold client_proof. cbn [Type_ Payload]. change (FrameServerProof =? FrameProblem) with false. rewrite Z.eqb_refl. cbn [negb].
    rewrite (decode_print _ _ 1), proof_set; [|done|by apply proof_printable|done|unfold frame_ok in Hpf; cbn [Payload] in Hpf; lia].
    cbn [pr_ServerNonce pr_Salt pr_MAC p]. rewrite Hnl. cbn [Z.ltb orb]. change ((32 <? 16) || (64 <? 32)) with false. cbv iota zeta. rewrite Hvn, Hder.
    unfold VerifyServerProof, verify. rewrite Hmac, bool_decide_eq_true_2 by done. by rewrite Hcmac. }
  rewrite Hcp. fold q. rewrite (client_sends (mkFrame FrameClientProof (print (proof_json q)))) by done. rewrite (server_receives (mkFrame FrameClientProof (print (proof_json q)))) by done.
  cbv iota beta. cbn [Type_ Payload]. rewrite Z.eqb_refl. cbn [negb].
  rewrite (decode_print _ _ 1), proof_set; [|done|by apply proof_printable|done|unfold frame_ok in Hqf; cbn [Payload] in Hqf; lia].
  unfold VerifyClientProof, verify. cbn [pr_MAC q]. rewrite Hcmac, bool_decide_eq_true_2 by done.
  destruct (complete_direct h hello a s2) as (s3 & r & Hco & Hcs). rewrite direct_bind, Hco. unfold finish. rewrite (server_calls _ _ _ _ s3 r) by done.
  unfold put_svc. cbn [to_server to_client client_rand wire_svc put_client put_server].
  destruct r as [e|c].
  { destruct (problemCode_ok e) as (? & ? & ?). eexists _, _, _. split; [reflexivity|].
    apply problem_exchange; [done|done|by apply ascii_text|change (len (str "pairing could not be completed")) with 30; lia|].
    intros f Hf. by rewrite read_complete_problem. }
  destruct (Hdone _ _ _ _ eq_refl Hco) as (Htx & Hdev & Hcf). eexists _, _, _. split; [reflexivity|].
  rewrite server_sends by done. rewrite (client_receives_only (mkFrame FrameComplete (print (complete_json c)))) by done.
  unfold read_complete. cbn [Type_ Payload]. change (FrameComplete =? FrameProblem) with false. rewrite Z.eqb_refl. cbn [negb].
  rewrite (decode_print _ _ 1), complete_set; [|by apply complete_printable|done|unfold frame_ok in Hcf; cbn [Payload] in Hcf; lia].
  destruct session_named as (_ & Hsv & _). rewrite (Hcs c eq_refl), !(proj2 (eqb_false _ _)); [reflexivity|done|done].
Qed.
End Honest.
End Exchange.

(** ** Examples *)

Section Examples.
#[local] Existing Instance plain_platform.

Definition phrase : bytes := str "correct horse battery staple".
Definition invite_salt : bytes := replicate 16 7.
Definition invite_verifier : bytes := sha256 (invite_salt ++ phrase).
Definition phone_repo : Repo :=
  (run_call (CCreateEnrollmentToken (mkTokenInput (str "enroll_9") (str "author_1") (str "add_device") (str "device") (str "device_1") (str "phone")
     invite_salt invite_verifier 1000)) registered).1.
Definition server_nonce : bytes := replicate 32 9.
Definition phone_service : service.Service :=
  service.mkService phone_repo (service.mkConfig false true false 0 0 0) [] [Some server_nonce; Some (replicate 16 171)].
Definition phone_handler : Handler :=
  mkHandler (str "server_1") (str "ssh-ed25519") (str "SHA256:host") (str "1.0") (str "session") (str "ssh-ed25519 AAAA") (str "SHA256:phone").
Definition phone_transcript : Transcript :=
  mkTranscript (str "session") (str "server_1") (str "SHA256:host") (replicate 32 5) (replicate 32 0) (str "ssh-ed25519 AAAA") (str "SHA256:phone")
    PurposeAddDevice (str "enroll_9").
Definition phone_hello : ClientHello := mkClientHello phone_transcript [] [] [].
Definition no_text (_ : Handler) (_ : Transcript) : bytes := [].
Definition paired : Complete := mkComplete (str "server_1") (str "author_1") (str "ann") (str "device_abababababababababababababababab").

(** A run of the handler, and one of the client, with the two proofs. *)
Definition phone_device : Device := new_device (str "device_1") (str "author_1") (str "phone") (str "ssh-ed25519 AAAA") (str "SHA256:phone") 0.
Definition phone_completion : DeviceEnrollmentInput :=
  mkEnrollment (str "enroll_9") (str "device_abababababababababababababababab") (str "ssh-ed25519 AAAA") (str "SHA256:phone") invite_verifier.
Definition phone_credential : PairingCredential := mkCredential (str "author_1") [] (str "phone") invite_salt invite_verifier 0.
Definition phone_complete : Complete := mkComplete (str "server_1") (str "author_1") (str "ann") (str "device_1").
Definition server_trace (smac cmac : bytes) : list event :=
  [EvSend (hello_frame phone_handler) None; EvRecv (inr (mkFrame FrameClientHello (print (client_hello_json phone_hello))));
   EvCall (IEnrollmentCredential (str "enroll_9")) (inr phone_credential); EvRand 32 (Some server_nonce);
   EvSend (mkFrame FrameServerProof (print (proof_json (mkProof invite_salt server_nonce smac)))) None;
   EvRecv (inr (mkFrame FrameClientProof (print (proof_json (mkProof [] [] cmac))))); EvRand 16 (Some (replicate 16 171));
   EvCall (ICompleteAddition phone_completion) (inr phone_device); EvCall (IAuthor (str "author_1")) (inr (mkAuthorOut (str "author_1") (mkAuthor (str "ann") false 7 7)));
   EvSend (mkFrame FrameComplete (print (complete_json phone_complete))) None].
Definition client_trace (smac cmac : bytes) : list event :=
  [EvSend (mkFrame FrameClientHello (print (client_hello_json phone_hello))) None;
   EvRecv (inr (mkFrame FrameServerProof (print (proof_json (mkProof invite_salt server_nonce smac)))));
   EvSend (mkFrame FrameClientProof (print (proof_json (mkProof [] [] cmac)))) None;
   EvRecv (inr (mkFrame FrameComplete (print (complete_json phone_complete))))].

Lemma phone_proofs : exists smac cmac,
  ServerProof invite_verifier (with_nonce phone_transcript server_nonce) = inr smac /\ len smac = 32 /\ bytes_ok smac /\
  ClientProof invite_verifier (with_nonce phone_transcript server_nonce) = inr cmac /\ len cmac = 32 /\ bytes_ok cmac.
Proof.
  destruct (proof_made invite_salt phrase invite_verifier (with_nonce phone_transcript server_nonce) (str "server") eq_refl eq_refl) as (smac & Hs & ? & ?).
  destruct (proof_made invite_salt phrase invite_verifier (with_nonce phone_transcript server_nonce) (str "client") eq_refl eq_refl) as (cmac & Hc & ? & ?).
  exists smac, cmac. split_and!; assumption.
Qed.
Lemma decode_proof p : len (pr_Salt p) <= 1024 -> len (pr_ServerNonce p) <= 64 -> len (pr_MAC p) <= 64 -> proof_text p ->
  decode proof_fields no_proof (print (proof_json p)) = Some p.
Proof.
  intros Hs Hn Hm Ht. rewrite (decode_print _ _ 1), proof_set; [done|done|by apply proof_printable|done|].
  pose proof (proof_fits 0 p Hs Hn Hm) as Hf. unfold frame_ok in Hf. cbn [Payload] in Hf. lia.
Qed.
Lemma invite_salt_ok : bytes_ok invite_salt /\ bytes_ok server_nonce.
Proof. split; apply Forall_replicate; unfold is_u8; lia. Qed.

Ltac step := eexists _, _; split; [reflexivity|].
Lemma server_trace_runs smac cmac :
  ServerProof invite_verifier (with_nonce phone_transcript server_nonce) = inr smac ->
  ClientProof invite_verifier (with_nonce phone_transcript server_nonce) = inr cmac -> len cmac = 32 -> bytes_ok cmac ->
  runs (Serve no_text phone_handler) (server_trace smac cmac) None.
Proof.
  intros Hs Hc Hl Hb. unfold server_trace. do 2 step. cbv iota beta. cbn [Type_ Payload]. change (negb (FrameClientHello =? FrameClientHello)) with false. cbv iota.
  assert (Hd : decode client_hello_fields no_client_hello (print (client_hello_json phone_hello)) = Some phone_hello) by (vm_compute; reflexivity). rewrite Hd.
  change (negb (validateTranscript phone_handler (ch_Transcript phone_hello))) with false. cbv iota. step. cbv iota beta. step. cbv iota beta zeta. cbn [fst snd pc_Verifier phone_credential ch_Transcript phone_hello].
  rewrite Hs. step. cbv iota beta. step. cbv iota beta. cbn [Type_ Payload]. change (negb (FrameClientProof =? FrameClientProof)) with false. cbv iota.
  rewrite decode_proof; [|cbn [pr_Salt pr_ServerNonce pr_MAC]; try change (len (@nil Z)) with 0; lia..|split_and!; [constructor|constructor|done]].
  unfold VerifyClientProof. cbn [pr_MAC]. rewrite Hc. unfold verify. rewrite bool_decide_eq_true_2 by done. cbv iota. do 4 step. split; reflexivity.
Qed.
Lemma client_trace_runs smac cmac :
  ServerProof invite_verifier (with_nonce phone_transcript server_nonce) = inr smac -> len smac = 32 -> bytes_ok smac ->
  ClientProof invite_verifier (with_nonce phone_transcript server_nonce) = inr cmac ->
  runs (ExchangePairing phone_transcript phrase (mkOptions [] [])) (client_trace smac cmac) (inr phone_complete).
Proof.
  intros Hs Hl Hb Hc. unfold client_trace. step. cbv iota beta. eexists _, _. split; [reflexivity|].
  assert (Hcp : client_proof phone_transcript phrase (inr (mkFrame FrameServerProof (print (proof_json (mkProof invite_salt server_nonce smac))))) = inr cmac).
  { unfold client_proof. cbn [Type_ Payload]. change (FrameServerProof =? FrameProblem) with false. change (negb (FrameServerProof =? FrameServerProof)) with false. cbv iota.
    destruct invite_salt_ok. rewrite decode_proof; [|cbn [pr_Salt pr_ServerNonce pr_MAC]; first [lia|vm_compute; discriminate]..|by split_and!].
    cbn [pr_Salt pr_ServerNonce pr_MAC]. change ((len server_nonce <? 16) || (64 <? len server_nonce)) with false. cbv iota zeta.
    change (Validate (with_nonce phone_transcript server_nonce)) with (@None PairErr). cbv iota. change (DeriveVerifier invite_salt phrase) with (@inr PairErr bytes invite_verifier). cbv iota.
    unfold VerifyServerProof. rewrite Hs. unfold verify. rewrite bool_decide_eq_true_2 by done. cbv iota. by rewrite Hc. }
  rewrite Hcp. step. cbv iota beta. eexists _, _. split; [reflexivity|]. split; [done|]. vm_compute. reflexivity.
Qed.

Lemma pairing_requires_proof_witness : exists tr,
  runs (Serve no_text phone_handler) tr None /\ EvCall (ICompleteAddition phone_completion) (inr phone_device) ∈ tr /\
  admitted phone_handler (ICompleteAddition phone_completion) tr.
Proof.
  destruct phone_proofs as (smac & cmac & Hs & ? & ? & Hc & Hl & Hb). pose proof (server_trace_runs smac cmac Hs Hc Hl Hb) as Hr.
  assert (Hin : EvCall (ICompleteAddition phone_completion) (inr phone_device) ∈ server_trace smac cmac) by (unfold server_trace; do 7 right; left).
  exists (server_trace smac cmac). split; [exact Hr|]. split; [exact Hin|].
  exact (proj1 (pairing_requires_proof no_text phone_handler None (server_trace smac cmac)) Hr _ _ Hin I).
Defined.

Lemma pairing_client_checks_witness : exists tr,
  runs (ExchangePairing phone_transcript phrase (mkOptions [] [])) tr (inr phone_complete) /\
  exists f p verifier, EvRecv (inr f) ∈ tr /\ decode proof_fields no_proof (Payload f) = Some p /\ DeriveVerifier (pr_Salt p) phrase = inr verifier /\
    ServerProof verifier (with_nonce phone_transcript (pr_ServerNonce p)) = inr (pr_MAC p).
Proof.
  destruct phone_proofs as (smac & cmac & Hs & ? & ? & Hc & Hl & Hb). assert (Hr := client_trace_runs smac cmac Hs ltac:(assumption) ltac:(assumption) Hc).
  exists (client_trace smac cmac). split; [exact Hr|].
  destruct (pairing_client_checks phone_transcript phrase (mkOptions [] []) _ _ Hr) as (pre & hello & f1 & p & verifier & mac & f2 & Htr & _ & _ & _ & Hd & _ & Hv & Hsp & _).
  exists f1, p, verifier. split; [rewrite Htr; apply elem_of_app; right; right; left|]. split; [exact Hd|]. split; [exact Hv|exact Hsp].
Defined.

Lemma phone_honest : honest no_text phone_handler phone_transcript phrase (mkOptions [] []) [] [] phone_hello phone_service.
Proof.
  split.
  - split_and!; [discriminate|discriminate|apply ascii_text; vm_compute; reflexivity|apply ascii_text; vm_compute; reflexivity|vm_compute; discriminate].
  - vm_compute. reflexivity.
  - exists ([], []). split; reflexivity.
  - assert (Ht : forall l, forallb (fun b => (0 <=? b) && (b <? 128)) l = true -> text l) by (intros l; apply ascii_text).
    split; [|split_and!; [apply Ht; reflexivity|constructor|constructor]]. cbn [ch_Transcript phone_hello].
    split_and!; try (apply Ht; vm_compute; reflexivity); apply Forall_replicate; unfold is_u8; lia.
  - vm_compute. discriminate.
  - repeat constructor; cbn; lia.
  - intros s' a Hd. assert (He : snd <$> direct (credential phone_hello) phone_service = Some (inr (mkCredential (str "author_1") [] (str "phone") invite_salt invite_verifier 0, [], str "phone"))) by (vm_compute; reflexivity).
    rewrite Hd in He. injection He as ->. split; [vm_compute; reflexivity|]. apply Forall_replicate. unfold is_u8. lia.
  - intros s' c Hd. assert (He : snd <$> direct (serve_directly phone_handler phone_hello) phone_service = Some (inr paired)) by (vm_compute; reflexivity).
    rewrite Hd in He. injection He as ->. split_and!; [|discriminate|vm_compute; discriminate]. split_and!; apply ascii_text; vm_compute; reflexivity.
Qed.
Lemma pairing_exchange_exact_witness :
  honest no_text phone_handler phone_transcript phrase (mkOptions [] []) [] [] phone_hello phone_service /\
  exists s' answer served,
    direct (serve_directly phone_handler phone_hello) phone_service = Some (s', answer) /\
    converse (pair_client phone_transcript phrase (mkOptions [] [])) (Serve no_text phone_handler) (mkWire [] [] phone_service []) =
      Some (answer, served, mkWire [] [] s' []).
Proof.
  split; [exact phone_honest|].
  apply (pairing_exchange_exact no_text phone_handler phone_transcript phrase (mkOptions [] []) [] [] phone_hello phone_service phone_honest).
Defined.

End Examples.
End exchange.
