(* ===== verification/HttpApi.v ===== *)
(** * The control API of the server (internal/httpapi/v1/server.go)

    The handler behind the control transport: what a request must carry, which route it
    takes, which calls of the identity service and of the repository it makes, and what it
    answers, errors included.

    JSON, MIME and the compiler of wazero are libraries and parameters (class [HttpLib]).
    Answers hold the values that the code encodes. *)

From S2P Require Import Prelude Utf8 GoStrings Keys Sha256 Abi Json Transport Streams SqlRepo SqlDB SqlIdentity SqlApps Service.
Import sqlite db identity catalog service.

Module httpapi.
Open Scope svc_scope.

Definition APIVersion : Z := 1.
Definition DefaultArtifactBytes : Z := Z.shiftl 32 20.
Definition DefaultMetadataBytes : Z := Z.shiftl 64 10.
Definition MultipartOverhead : Z := Z.shiftl 16 10.
Definition ProductVersionHeader : bytes := control.VersionHeader.

Inductive ApiErr :=
| errUnauthorized | errForbidden | errVersion | errMalformed | errMetadata | errMediaType | errTooLarge | errABI | errArtifact
| errCall (e : SvcErr).

(** The device that the transport has authenticated. *)
Record Principal := mkPrincipal { p_ServerID : bytes; p_AuthorID : bytes; p_DeviceID : bytes; p_Fingerprint : bytes }.

Record deploymentMetadata := mkDeployMeta {
  dm_AppName : bytes; dm_AppType : bytes; dm_AccessMode : bytes; dm_ABIVersion : Z; dm_SourceDigest : bytes;
  dm_BuildMetadata : list (bytes * bytes) }.

(** A part of a multipart body: what can be read of it, and whether reading then ends with EOF. *)
Record Part := mkPart { pt_FormName : bytes; pt_FileName : bytes; pt_ContentType : bytes; pt_Data : bytes; pt_ok : bool }.

Class HttpLib := {
  decode_json : list bytes -> bytes -> option (bytes -> bytes);   (* a single object with string fields, none of them unknown *)
  parse_media : bytes -> option (bytes * bytes);                  (* mime.ParseMediaType: the type and the boundary *)
  multipart : bytes -> bytes -> Z -> option (list Part * bool);   (* the parts within a limit; does NextPart then give io.EOF? *)
  decode_metadata : bytes -> option deploymentMetadata;
  compile_module : bytes -> option (list (option bytes) * bool) }. (* imported modules; is _start exported? *)

Record Server := mkServer {
  sv_product : bytes; sv_abi : Z; sv_artifactMax : Z; sv_metadataMax : Z; sv_validateArtifact : option (bytes -> Z -> bool) }.

Record Config := mkConfig {
  cf_ProductVersion : bytes; cf_ABIVersion : Z; cf_ArtifactLimit : Z; cf_MetadataLimit : Z;
  cf_ValidateArtifact : option (bytes -> Z -> bool) }.

(** The repository and the identity service are the state. *)
Definition New (cfg : Config) : ApiErr + Server :=
  if bool_decide (TrimSpace (cf_ProductVersion cfg) = []) then inl errVersion else
  let artifactMax := if cf_ArtifactLimit cfg =? 0 then DefaultArtifactBytes else cf_ArtifactLimit cfg in
  let metadataMax := if cf_MetadataLimit cfg =? 0 then DefaultMetadataBytes else cf_MetadataLimit cfg in
  if (artifactMax <? 1) || (metadataMax <? 1) then inl errMalformed else
  inr (mkServer (cf_ProductVersion cfg) (if cf_ABIVersion cfg =? 0 then Version else cf_ABIVersion cfg) artifactMax metadataMax
         (cf_ValidateArtifact cfg)).

(** ** Requests and answers *)

Record Request := mkRequest {
  hr_Method : bytes; hr_Path : bytes; hr_Header : control.Header; hr_HasBody : bool; hr_ContentLength : Z; hr_Body : bytes;
  hr_Principal : option Principal }.

Record problem := mkProblem {
  pb_status : Z; pb_code : bytes; pb_title : bytes; pb_detail : bytes; pb_expected : bytes; pb_actual : bytes; pb_limit : Z }.
Definition simple_problem (status : Z) (code title detail : string) : problem :=
  mkProblem status (str code) (str title) (str detail) [] [] 0.

(** The values encoded as JSON. *)
Inductive Body :=
| BVersion (version : bytes) (apiVersion abiVersion artifactBytes metadataBytes : Z)
| BAuthor (author : Author) | BDevices (devices : list Device) | BInvitation (challenge : EnrollmentChallenge)
| BEvents (events : list AuditEvent) | BApps (apps : list App) | BApp (app : App)
| BAppDetail (app : App) (activeDeployment : option (Deployment * ArtifactMetadata))
| BKeys (keys : list AccessKey) | BKey (key : AccessKey)
| BSecrets (secrets : list SecretMetadata) | BSecret (meta : SecretMetadata)
| BHosts (hosts : list bytes) | BHost (host : bytes)
| BSessions (sessions : list SessionOut)
| BDeployment (result : ApplicationDeployment) (handle : bytes).

Inductive Response :=
| RJSON (status : Z) (version : bytes) (body : Body)
| RProblem (version : bytes) (p : problem)
| RNoContent.

(** A handler answers, or panics. *)
Definition Handler : Type := Service -> Service * res unit Response.
Definition answer (r : Response) : Handler := fun s => (s, Ok r).

Definition status_of (r : Response) : Z :=
  match r with RJSON status _ _ => status | RProblem _ p => pb_status p | RNoContent => 204 end.

Section Serving.
Context `{Platform} `{HttpLib} (sv : Server).

Definition writeJSON (status : Z) (body : Body) : Handler := answer (RJSON status (sv_product sv) body).
Definition send_problem (p : problem) : Handler :=
  answer (RProblem (sv_product sv) (if pb_status p =? 0
    then mkProblem 500 (pb_code p) (pb_title p) (pb_detail p) (pb_expected p) (pb_actual p) (pb_limit p) else p)).
Definition NoContent : Handler := answer RNoContent.

Definition problem_of (err : ApiErr) : problem :=
  match err with
  | errUnauthorized => simple_problem 401 "unauthorized" "Unauthorized" "device authentication is required"
  | errForbidden => simple_problem 403 "forbidden" "Forbidden" "the authenticated device is not allowed to perform this operation"
  | errVersion => simple_problem 409 "product_version_mismatch" "Product version mismatch" "pt and server must use the same Plumtree product version"
  | errMalformed => simple_problem 400 "malformed_request" "Malformed request" "the request is not valid"
  | errMetadata => simple_problem 400 "metadata_invalid" "Invalid metadata" "deployment metadata is invalid"
  | errMediaType => simple_problem 415 "media_type_unsupported" "Unsupported media type" "the request media type is not supported"
  | errTooLarge => simple_problem 413 "request_too_large" "Request too large" "the request exceeds a safe limit"
  | errABI => simple_problem 422 "abi_unsupported" "Unsupported ABI" "the artifact ABI is not supported"
  | errArtifact => simple_problem 422 "artifact_invalid" "Invalid artifact" "the uploaded artifact failed validation"
  | errCall (ErrSQL ErrNotFound) => simple_problem 404 "not_found" "Not found" "the requested resource was not found"
  | errCall (ErrSQL ErrConflict) => simple_problem 409 "deploy_conflict" "Conflict" "the requested state conflicts with current server state"
  | errCall (ErrSQL ErrQuota) => simple_problem 429 "quota_exceeded" "Quota exceeded" "the configured resource quota was exceeded"
  | errCall (ErrSQL ErrSuspended) => simple_problem 403 "forbidden" "Forbidden" "the resource is suspended"
  | errCall (ErrSQL ErrInvalid) => simple_problem 400 "metadata_invalid" "Invalid request" "one or more request fields are invalid"
  | errCall _ => simple_problem 500 "internal_error" "Internal server error" "the server could not complete the request"
  end.
Definition problemForError (err : ApiErr) : Handler := send_problem (problem_of err).

Definition notFound (detail : string) : Handler := send_problem (simple_problem 404 "not_found" "Not Found" detail).
Definition methodNotAllowed : Handler :=
  send_problem (simple_problem 405 "method_not_allowed" "Method not allowed" "the HTTP method is not supported for this route").

(** [if err != nil { s.problemForError(w, err); return }] after a call. *)
Definition on {A} (c : Svc A) (k : A -> Handler) : Handler :=
  fun s => let '(s, r) := c s in match r with inl e => problemForError (errCall e) s | inr a => k a s end.

Definition is_nil_b {A} (l : list A) : bool := match l with [] => true | _ => false end.

(** ** Requests *)

Definition routeSegments (path : bytes) : option (list bytes) :=
  let rest := TrimPrefix path (control.APIPrefix ++ str "/") in
  if bool_decide (rest = path) || bool_decide (rest = []) then None else
  let parts := Split 47 rest in
  if existsb (fun p => bool_decide (p = [])) parts then None else Some parts.

(** The body is cut at [metadataMax] bytes, and what follows the object must be the end of it. *)
Definition readJSON (fields : list bytes) (r : Request) (k : (bytes -> bytes) -> Handler) : Handler :=
  if sv_metadataMax sv <? len (hr_Body r) then problemForError errMalformed else
  match decode_json fields (hr_Body r) with
  | None => problemForError errMalformed
  | Some values => k values
  end.

Definition newID (prefix : bytes) : Svc bytes :=
  let* b := randomBytes 16 in svc_ret (prefix ++ str "_" ++ hex b).

(** What [hex.DecodeString] accepts. *)
Definition hex_digit (c : Z) : bool := within_b 48 57 c || within_b 97 102 c || within_b 65 70 c.
Definition validDigest (value : bytes) : bool :=
  if negb (len value =? 71) || negb (HasPrefix value (str "sha256:")) then false else
  Z.even (len (drop 7 value)) && forallb hex_digit (drop 7 value).

Definition contains_any (s chars : bytes) : bool := existsb (fun c => contains_byte c s) chars.
Definition line_breaks : bytes := [13; 10].

Definition build_entry_bad (kv : bytes * bytes) : bool :=
  let '(key, value) := kv in
  bool_decide (key = []) || (128 <? len key) || (2048 <? len value) || contains_any key line_breaks || contains_any value line_breaks.

Definition validateMetadata (m : deploymentMetadata) (abiVersion : Z) : option ApiErr :=
  if bool_decide (dm_AppName m = []) || (128 <? len (dm_AppName m)) || contains_any (dm_AppName m) [47; 92; 32; 9; 13; 10]
     || (negb (bool_decide (dm_AppType m = str "tui")) && negb (bool_decide (dm_AppType m = str "cli")) && negb (bool_decide (dm_AppType m = str "vm")))
     || (negb (bool_decide (dm_AccessMode m = str "public")) && negb (bool_decide (dm_AccessMode m = str "restricted")))
     || negb (validDigest (dm_SourceDigest m)) then Some errMetadata else
  if negb (dm_ABIVersion m =? abiVersion) then Some errABI else
  if 64 <? len (dm_BuildMetadata m) then Some errMetadata else
  if existsb build_entry_bad (dm_BuildMetadata m) then Some errMetadata else None.

Definition validateWASM (wasm : bytes) (abiVersion : Z) : option ApiErr :=
  if len wasm =? 0 then Some errArtifact else
  if match sv_validateArtifact sv with Some f => f wasm abiVersion | None => false end then Some errArtifact else
  match compile_module wasm with
  | None => Some errArtifact
  | Some (imports, start) =>
    if existsb (fun m => negb (bool_decide (m = Some (str "wasi_snapshot_preview1"))) && negb (bool_decide (m = Some (str "plumtree")))) imports
    then Some errArtifact else
    if negb start then Some errArtifact else None
  end.

Definition readBounded (p : Part) (limit : Z) : ApiErr + bytes :=
  if limit <? len (pt_Data p) then inl errTooLarge else
  if negb (pt_ok p) then inl errMalformed else
  inr (pt_Data p).

Definition readMultipart (r : Request) : ApiErr + (deploymentMetadata * bytes) :=
  match parse_media (control.Get (hr_Header r) (str "Content-Type")) with
  | None => inl errMediaType
  | Some (media, boundary) =>
    if negb (bool_decide (media = str "multipart/form-data")) || bool_decide (boundary = []) then inl errMediaType else
    let enc := TrimSpace (control.Get (hr_Header r) (str "Content-Encoding")) in
    if negb (bool_decide (enc = [])) && negb (bool_decide (map ascii_lower enc = str "identity")) then inl errMediaType else
    let totalLimit := sv_artifactMax sv + sv_metadataMax sv + MultipartOverhead in
    if totalLimit <? hr_ContentLength r then inl errTooLarge else
    match multipart (control.Get (hr_Header r) (str "Content-Type")) (hr_Body r) totalLimit with
    | None | Some ([], _) => inl errMalformed
    | Some (part :: parts, eof) =>
      if negb (bool_decide (pt_FormName part = str "metadata")) || negb (bool_decide (pt_FileName part = []))
         || negb (bool_decide (pt_ContentType part = str "application/json")) then inl errMalformed else
      match readBounded part (sv_metadataMax sv) with
      | inl e => inl e
      | inr metadataBytes =>
        match decode_metadata metadataBytes with
        | None => inl errMetadata
        | Some metadata =>
          match parts with
          | [] => inl errMalformed
          | part :: parts =>
            if negb (bool_decide (pt_FormName part = str "artifact")) || negb (bool_decide (pt_ContentType part = str "application/wasm"))
            then inl errMalformed else
            match readBounded part (sv_artifactMax sv) with
            | inl e => inl e
            | inr wasm =>
              if negb (is_nil_b parts) || negb eof then inl errMalformed else
              match validateMetadata metadata (sv_abi sv) with
              | Some e => inl e
              | None => inr (metadata, wasm)
              end
            end
          end
        end
      end
    end
  end.

(** ** Handlers *)

Definition GET : bytes := str "GET".
Definition POST : bytes := str "POST".
Definition PUT : bytes := str "PUT".
Definition DELETE : bytes := str "DELETE".
Definition is_method (r : Request) (m : bytes) : bool := bool_decide (hr_Method r = m).

Definition authorize (r : Request) : Service -> Service * (ApiErr + Principal) := fun s =>
  match hr_Principal r with
  | None => (s, inl errUnauthorized)
  | Some p =>
    if bool_decide (p_ServerID p = []) || bool_decide (p_AuthorID p = []) || bool_decide (p_DeviceID p = []) || bool_decide (p_Fingerprint p = [])
    then (s, inl errUnauthorized) else
    let '(s, server) := with_repo ServerIdentity s in
    match server with
    | inl _ => (s, inl errUnauthorized)
    | inr server =>
      if negb (bool_decide (sv_id server = p_ServerID p)) then (s, inl errUnauthorized) else
      let '(s, device) := with_repo (fun r => get_device r (p_DeviceID p)) s in
      match device with
      | inl _ => (s, inl errUnauthorized)
      | inr device =>
        if negb (bool_decide (dv_author (d_row device) = p_AuthorID p)) || negb (bool_decide (dv_fingerprint (d_row device) = p_Fingerprint p))
           || negb (device_active (d_row device)) then (s, inl errUnauthorized) else
        let '(s, author) := with_repo (fun r => get_author r (p_AuthorID p)) s in
        match author with
        | inl _ => (s, inl errUnauthorized)
        | inr author => if au_suspended (a_row author) then (s, inl errForbidden) else (s, inr p)
        end
      end
    end
  end.

Definition authorized (r : Request) (k : Principal -> Handler) : Handler := fun s =>
  let '(s, p) := authorize r s in
  match p with
  | inl err => problemForError err s
  | inr p => k p s
  end.

Definition handleVersion (r : Request) : Handler :=
  if negb (is_method r GET) then
    send_problem (simple_problem 405 "method_not_allowed" "Method not allowed" "use GET for the version endpoint")
  else authorized r (fun _ => writeJSON 200 (BVersion (sv_product sv) APIVersion (sv_abi sv) (sv_artifactMax sv) (sv_metadataMax sv))).

Definition handleAccess (r : Request) (p : Principal) (appID keyID : bytes) : Handler :=
  if is_method r GET then
    if negb (bool_decide (keyID = [])) then problemForError (errCall (ErrSQL ErrNotFound)) else
    on (with_repo (fun r => catalog.ListAccessKeys r (p_AuthorID p) appID)) (fun keys => writeJSON 200 (BKeys keys))
  else if is_method r POST then
    readJSON [str "Name"; str "PublicKey"; str "Fingerprint"] r (fun req =>
    on (newID (str "access")) (fun keyID =>
    on (with_repo (fun rp => catalog.AddAccessKey rp (mkKeyInput keyID appID (req (str "Name")) (req (str "PublicKey")) (req (str "Fingerprint"))
          (p_DeviceID p) zero_time))) (fun key => writeJSON 201 (BKey key))))
  else if is_method r DELETE then
    if bool_decide (keyID = []) then problemForError errMalformed else
    on (with_repo (fun rp => catalog.RemoveAccessKey rp (p_AuthorID p) appID keyID (p_DeviceID p))) (fun _ => NoContent)
  else methodNotAllowed.

Definition secret_limit : Z := Z.shiftl 128 10.

Definition handleSecrets (r : Request) (p : Principal) (appID key : bytes) : Handler :=
  if is_method r GET then
    if negb (bool_decide (key = [])) then problemForError (errCall (ErrSQL ErrNotFound)) else
    on (with_repo (fun rp => ListSecrets rp appID)) (fun items => writeJSON 200 (BSecrets items))
  else if is_method r PUT || is_method r POST then
    if bool_decide (key = []) then problemForError errMalformed else
    readJSON [str "Value"] r (fun req =>
    if secret_limit <? len (req (str "Value")) then
      send_problem (mkProblem 413 (str "request_too_large") (str "Request too large") (str "secret value exceeds the limit") [] [] secret_limit)
    else on (with_repo (fun rp => SetSecret rp appID key (req (str "Value")))) (fun meta => writeJSON 200 (BSecret meta)))
  else if is_method r DELETE then
    if bool_decide (key = []) then problemForError errMalformed else
    on (with_repo (fun rp => SetSecretDelete rp appID key)) (fun _ => NoContent)
  else methodNotAllowed.

Definition handleEgress (r : Request) (appID host : bytes) : Handler :=
  let allow host := on (with_repo (fun rp => SetEgressHost rp appID host true)) (fun _ => writeJSON 200 (BHost host)) in
  if is_method r GET then
    if negb (bool_decide (host = [])) then problemForError (errCall (ErrSQL ErrNotFound)) else
    on (with_repo (fun rp => ListEgressHosts rp appID)) (fun hosts => writeJSON 200 (BHosts hosts))
  else if is_method r PUT || is_method r POST then
    if bool_decide (host = []) then readJSON [str "Host"] r (fun req => allow (req (str "Host"))) else allow host
  else if is_method r DELETE then
    if bool_decide (host = []) then problemForError errMalformed else
    on (with_repo (fun rp => SetEgressHost rp appID host false)) (fun _ => NoContent)
  else methodNotAllowed.

(** What DeployApplication draws: [time.Now()] and the identifiers. *)
Record DeployDraws := mkDeployDraws { dd_created : Time; dd_app : bytes; dd_deployment : bytes }.

Definition handleDeployment (w : DeployDraws) (r : Request) (p : Principal) (previous : bytes) : Handler :=
  match readMultipart r with
  | inl err => problemForError err
  | inr (metadata, wasm) =>
    if negb (dm_ABIVersion metadata =? sv_abi sv) then
      send_problem (mkProblem 422 (str "abi_unsupported") (str "Unsupported ABI") (str "artifact ABI is not supported by this server")
                      (decimal (sv_abi sv)) (decimal (dm_ABIVersion metadata)) 0)
    else match validateWASM wasm (dm_ABIVersion metadata) with
    | Some err => problemForError err
    | None =>
      on (newID (str "artifact")) (fun artifactID =>
      on (with_repo (fun rp => DeployApplication rp (mkDeployInput (p_AuthorID p) (p_DeviceID p) (dm_AppName metadata) (dm_AppType metadata)
            (dm_AccessMode metadata) (dm_SourceDigest metadata) previous
            (mkArtifactInput artifactID (digest_of wasm) wasm (dm_ABIVersion metadata) zero_time (dm_BuildMetadata metadata)))
            (dd_created w) (dd_app w) (dd_deployment w))) (fun result =>
      on (with_repo (fun rp => get_author rp (p_AuthorID p))) (fun author =>
      writeJSON (if bool_decide (previous = []) then 201 else 200) (BDeployment result (au_handle (a_row author))))))
    end
  end.

(** [ownedApp], and the answer when the application is not the principal's. *)
Definition ownedApp (p : Principal) (appID : bytes) (k : App -> Handler) : Handler := fun s =>
  let '(s, r) := with_repo (fun rp => get_app rp appID) s in
  match r with
  | inr app => if bool_decide (ap_author (app_row app) = p_AuthorID p) then k app s else problemForError (errCall (ErrSQL ErrNotFound)) s
  | inl _ => problemForError (errCall (ErrSQL ErrNotFound)) s
  end.

(** [parts[0]] out of range, and the other routes of an application. *)
Definition routeApps (r : Request) (p : Principal) (parts : list bytes) : Handler :=
  match parts with
  | [] =>
    if is_method r GET then on (with_repo (fun rp => ListApps rp (p_AuthorID p))) (fun apps => writeJSON 200 (BApps apps))
    else if is_method r POST then
      readJSON [str "Name"; str "Kind"; str "AccessMode"] r (fun req =>
      on (newID (str "app")) (fun appID =>
      on (with_repo (fun rp => catalog.CreateApp rp (mkAppInput appID (p_AuthorID p) (req (str "Name")) (req (str "Kind")) (req (str "AccessMode"))
            (p_DeviceID p) zero_time))) (fun app => writeJSON 201 (BApp app))))
    else fun s => (s, Panic)
  | [id] =>
    ownedApp p id (fun app =>
    if negb (is_method r GET) then methodNotAllowed else fun s =>
    let '(s, current) := with_repo (fun rp => CurrentDeployment rp (app_ID app)) s in
    writeJSON 200 (BAppDetail app (match current with inr c => Some c | inl _ => None end)) s)
  | id :: section :: rest =>
    ownedApp p id (fun app =>
    let detail := match rest with [] => Some [] | [x] => Some x | _ => None end in
    let otherwise :=
      if is_nil_b rest && bool_decide (section = str "sessions") && is_method r GET then
        on (with_repo (fun rp => ListSessions rp (app_ID app) 100)) (fun sessions => writeJSON 200 (BSessions sessions))
      else notFound "app route not found" in
    match detail with
    | None => otherwise
    | Some x =>
      if bool_decide (section = str "access") then handleAccess r p (app_ID app) x
      else if bool_decide (section = str "secrets") then handleSecrets r p (app_ID app) x
      else if bool_decide (section = str "egress") then handleEgress r (app_ID app) x
      else otherwise
    end)
  end.

(** The routes in the order of the code. *)
Definition route (w : DeployDraws) (r : Request) (p : Principal) (parts : list bytes) : Handler :=
  let is_head name := bool_decide (head parts = Some (str name)) in
  let n := length parts in
  if (n =? 1)%nat && is_head "deployments"%string && is_method r POST then handleDeployment w r p []
  else if (n =? 2)%nat && is_head "deployments"%string && is_method r PUT then handleDeployment w r p (nth 1 parts [])
  else if (n =? 1)%nat && is_head "author"%string && is_method r GET then
    on (with_repo (fun rp => get_author rp (p_AuthorID p))) (fun author => writeJSON 200 (BAuthor author))
  else if (n =? 1)%nat && is_head "devices"%string && is_method r GET then
    on (Devices (p_AuthorID p)) (fun devices => writeJSON 200 (BDevices devices))
  else if (n =? 1)%nat && is_head "devices"%string && is_method r POST then
    readJSON [str "deviceName"] r (fun req =>
    on (BeginDeviceAddition (p_AuthorID p) (p_DeviceID p) (req (str "deviceName"))) (fun challenge => writeJSON 201 (BInvitation challenge)))
  else if (n =? 2)%nat && is_head "devices"%string && is_method r DELETE then
    on (service.RevokeDevice (p_AuthorID p) (p_DeviceID p) (nth 1 parts [])) (fun _ => NoContent)
  else if (n =? 1)%nat && is_head "audit"%string && is_method r GET then
    on (with_repo (fun rp => identity.ListAudit rp (p_AuthorID p) 100)) (fun events => writeJSON 200 (BEvents events))
  else if (1 <=? n)%nat && is_head "apps"%string then routeApps r p (tail parts)
  else notFound "API route not found".

Definition control_request (r : Request) : control.Request :=
  control.mkRequest (hr_Path r) (hr_Header r) (hr_HasBody r) (hr_ContentLength r).

Definition ServeHTTP (w : DeployDraws) (r : Request) : Handler :=
  if negb (HasPrefix (hr_Path r) control.APIPrefix)
     || (negb (bool_decide (hr_Path r = control.APIPrefix)) && negb (HasPrefix (hr_Path r) (control.APIPrefix ++ str "/")))
  then notFound "API route not found" else
  if negb (is_None_b (control.ValidateRequest (control_request r))) then
    send_problem (simple_problem 400 "malformed_request" "Malformed request" "request path or headers are invalid")
  else if bool_decide (hr_Path r = control.APIPrefix ++ str "/version") then handleVersion r
  else if negb (bool_decide (control.Get (hr_Header r) ProductVersionHeader = sv_product sv)) then
    send_problem (mkProblem 409 (str "product_version_mismatch") (str "Product version mismatch")
      (str "pt and server must use the same Plumtree product version") (sv_product sv) (control.Get (hr_Header r) ProductVersionHeader) 0)
  else authorized r (fun p =>
    match routeSegments (hr_Path r) with
    | None => notFound "API route not found"
    | Some segments => route w r p segments
    end).

End Serving.

End httpapi.
