(* ===== verification/HttpApiLaws.v ===== *)
(** * What the control API does

    Which requests are served, what they may change and what their answers hold: a request
    acts for the author of its device, and for nobody else. *)

From stdpp Require Import sorting.
From S2P Require Import Prelude Utf8 GoStrings Keys Sha256 Abi Json Transport Streams.
From S2P Require Import SqlRepo SqlDB SqlIdentity SqlIdentityLaws SqlCredentials SqlApps SqlAppsLaws SqlCatalog Tenants Service HttpApi.
Import sqlite db identity identitylaws credentials catalog cataloglaws catalogcalls tenants service httpapi.

Module httpapilaws.

Definition db_of (s : Service) : DB := r_db (s_repo s).

(** The principal of a request: an active device of an author who is not suspended, on this server. *)
Record permitted (p : Principal) (d : DB) : Prop := {
  pm_server : exists x, server_identity d = Some x /\ sv_id x = p_ServerID p;
  pm_device : exists x, devices d !! p_DeviceID p = Some x /\ dv_author x = p_AuthorID p /\ dv_fingerprint x = p_Fingerprint p /\ dv_revoked x = None;
  pm_author : exists x, authors d !! p_AuthorID p = Some x /\ au_suspended x = false }.

(** What an answer holds of the rows [d]: those of author [a]. *)
Definition own_app_row (a : bytes) (d : DB) (app : App) : Prop := apps d !! app_ID app = Some (app_row app) /\ ap_author (app_row app) = a.
Definition own_body (a : bytes) (d : DB) (b : Body) : Prop :=
  match b with
  | BVersion _ _ _ _ _ => True
  | BAuthor u => a_ID u = a /\ authors d !! a = Some (a_row u)
  | BDevices l => forall x, x ∈ l <-> devices d !! d_ID x = Some (d_row x) /\ dv_author (d_row x) = a
  | BInvitation c => ec_AuthorID c = a
  | BEvents l => forall x, x ∈ l -> audit_events d !! e_ID x = Some (e_row x) /\ ev_scope (e_row x) = a
  | BApps l => forall x, x ∈ l <-> own_app_row a d x
  | BApp x => ap_author (app_row x) = a
  | BAppDetail x current => own_app_row a d x /\
      forall dep art, current = Some (dep, art) -> active d !! app_ID x = Some (de_ID dep) /\ deployments d !! de_ID dep = Some (de_row dep) /\
        dp_artifact (de_row dep) = am_ID art /\ artifacts d !! am_ID art = Some (am_row art)
  | BKeys l => exists app, author_of_app d app = Some a /\ forall x, x ∈ l <-> access_keys d !! k_ID x = Some (k_row x) /\ ak_app (k_row x) = app
  | BKey x => author_of_app d (ak_app (k_row x)) = Some a
  | BSecrets l => exists app, author_of_app d app = Some a /\ forall x, x ∈ l <-> secrets d !! (app, sm_Key x) = Some (sm_row x) /\ sm_AppID x = app
  | BSecret x => author_of_app d (sm_AppID x) = Some a
  | BHosts l => exists app, author_of_app d app = Some a /\ forall x, x ∈ l <-> (app, x) ∈ egress d
  | BHost _ => True
  | BSessions l => exists app, author_of_app d app = Some a /\ forall x, x ∈ l -> sessions d !! so_ID x = Some (so_row x) /\ ss_app (so_row x) = app
  | BDeployment result handle => (forall u, author_of_app d (app_ID (out_App result)) = Some u -> u = a) /\ exists u, authors d !! a = Some u /\ au_handle u = handle
  end.
(** An answer without rows, or with those rows. *)
Definition own_answer (a : bytes) (d : DB) (r : Response) : Prop :=
  match r with RJSON _ _ b => own_body a d b | RProblem _ _ | RNoContent => True end.

(** ** Who is served *)

Section Authorize.
Context `{Platform}.

Lemma guarded_query_row {A} (r : Repo) cs (f : DB -> option A) :
  r_db (guarded r cs (query_row r f)).1 = r_db r /\ forall x, (guarded r cs (query_row r f)).2 = inr x -> f (r_db r) = Some x.
Proof.
  unfold guarded, query_row, query. destruct (head _); [done|]. destruct (pop (r_fail r)) as [[] fs]; cbn; [done|]. split; [done|].
  destruct (f (r_db r)); [|done]. by intros x [= ->].
Qed.
Lemma query_row_read {A} (r : Repo) (f : DB -> option A) :
  r_db (query_row r f).1 = r_db r /\ forall x, (query_row r f).2 = inr x -> f (r_db r) = Some x.
Proof. apply (guarded_query_row r []). Qed.
Lemma guarded_query {A} (r : Repo) cs (f : DB -> A) :
  r_db (guarded r cs (query r f)).1 = r_db r /\ forall x, (guarded r cs (query r f)).2 = inr x -> x = f (r_db r).
Proof. unfold guarded, query. destruct (head _); [done|]. destruct (pop (r_fail r)) as [[] fs]; cbn; [done|]. split; [done|]. by intros x [= ->]. Qed.

(** A call that only reads: the database stays, and the answer is a row of it. *)
Definition reads {A} (F : Repo -> Repo * (error + A)) (P : DB -> A -> Prop) : Prop :=
  forall r, r_db (F r).1 = r_db r /\ forall x, (F r).2 = inr x -> P (r_db r) x.
Lemma reads_query {A} cs (f : DB -> A) P : (forall d, P d (f d)) -> reads (fun r => guarded r cs (query r f)) P.
Proof. intros HP r. destruct (guarded_query r cs f) as [Hd Hx]. split; [exact Hd|]. intros x E. rewrite (Hx x E). apply HP. Qed.
Lemma reads_query_row {A} cs (f : DB -> option A) P : (forall d x, f d = Some x -> P d x) -> reads (fun r => guarded r cs (query_row r f)) P.
Proof. intros HP r. destruct (guarded_query_row r cs f) as [Hd Hx]. split; [exact Hd|]. intros x E. by apply HP, Hx. Qed.
Lemma with_repo_reads {A} (F : Repo -> Repo * (error + A)) P s : reads F P ->
  db_of (with_repo F s).1 = db_of s /\ forall x, (with_repo F s).2 = inr x -> P (db_of s) x.
Proof.
  intros HF. destruct (HF (s_repo s)) as [Hd Hx]. unfold with_repo. destruct (F (s_repo s)) as [r [e|x]]; cbn in *; split; try done. intros y [= <-]. by apply Hx.
Qed.
Lemma read_server : reads ServerIdentity (fun d x => server_identity d = Some x).
Proof. intros r. apply query_row_read. Qed.
Lemma read_device id : reads (fun r => get_device r id) (fun d x => devices d !! id = Some (d_row x)).
Proof.
  unfold get_device. apply reads_query_row. intros d x. destruct (devices d !! id); [|done]. by intros [= <-].
Qed.
Lemma read_author id : reads (fun r => get_author r id) (fun d x => a_ID x = id /\ authors d !! id = Some (a_row x)).
Proof.
  unfold get_author. apply reads_query_row. intros d x. destruct (authors d !! id); [|done]. by intros [= <-].
Qed.

(** Rows in some order. *)
Lemma elem_of_order_by {A} (R : A -> A -> Prop) `{!forall x y, Decision (R x y)} (l : list A) x : x ∈ order_by R l <-> x ∈ l.
Proof. unfold order_by. by rewrite (merge_sort_Permutation R l). Qed.
Lemma elem_of_listed {K V W} `{Countable K} (Q : K -> V -> bool) (m : gmap K V) (f : K * V -> W) x :
  x ∈ map f (rows_where Q m) <-> exists k v, m !! k = Some v /\ Q k v = true /\ x = f (k, v).
Proof.
  rewrite list_elem_of_fmap. split.
  - intros ([k v] & -> & Hkv). apply elem_of_rows in Hkv as [? ?]. eauto.
  - intros (k & v & ? & ? & ->). exists (k, v). split; [done|]. by apply elem_of_rows.
Qed.

Lemma read_devices u : reads (fun r => ListDevices r u) (fun d l => forall x, x ∈ l <-> devices d !! d_ID x = Some (d_row x) /\ dv_author (d_row x) = u).
Proof.
  unfold ListDevices. apply reads_query. intros d x.
  rewrite elem_of_order_by, elem_of_listed. split; [intros (k & v & ? & ?%eqb_true & ->); done|]. intros [Hk Hu]. exists (d_ID x), (d_row x).
  rewrite eqb_true. by destruct x.
Qed.
Lemma read_apps u : reads (fun r => ListApps r u) (fun d l => forall x, x ∈ l <-> own_app_row u d x).
Proof.
  unfold ListApps. apply reads_query. intros d x.
  rewrite elem_of_order_by, elem_of_listed. split; [intros (k & v & ? & ?%eqb_true & ->); done|]. intros [Hk Hu]. exists (app_ID x), (app_row x).
  rewrite eqb_true. by destruct x.
Qed.
Lemma read_audit u n : reads (fun r => identity.ListAudit r u n) (fun d l => forall x, x ∈ l -> audit_events d !! e_ID x = Some (e_row x) /\ ev_scope (e_row x) = u).
Proof.
  apply (reads_query []). intros d x Hin. unfold select_audit in Hin. apply (subseteq_take _ _) in Hin. revert Hin.
  rewrite elem_of_order_by, elem_of_listed. by intros (k & v & ? & ?%eqb_true & ->).
Qed.
Lemma read_keys u app : reads (fun r => catalog.ListAccessKeys r u app) (fun d l => app_of app u d = true ->
  forall x, x ∈ l <-> access_keys d !! k_ID x = Some (k_row x) /\ ak_app (k_row x) = app).
Proof.
  unfold catalog.ListAccessKeys. apply reads_query. intros d Ha x.
  rewrite elem_of_order_by, elem_of_listed, Ha. split; [intros (k & v & ? & [?%eqb_true _]%andb_true_iff & ->); done|].
  intros [Hk Hu]. exists (k_ID x), (k_row x). rewrite andb_true_iff, eqb_true. by destruct x.
Qed.
Lemma read_secrets app : reads (fun r => ListSecrets r app) (fun d l => forall x, x ∈ l <-> secrets d !! (app, sm_Key x) = Some (sm_row x) /\ sm_AppID x = app).
Proof.
  unfold ListSecrets. apply reads_query. intros d x.
  rewrite elem_of_order_by, elem_of_listed. split; [intros ([k1 k2] & v & ? & E1%eqb_true & ->); cbn in *; by subst|].
  intros [Hk Hu]. exists (app, sm_Key x), (sm_row x). rewrite eqb_true. destruct x; cbn in *. by subst.
Qed.
Lemma read_hosts app : reads (fun r => ListEgressHosts r app) (fun d l => forall x, x ∈ l <-> (app, x) ∈ egress d).
Proof.
  unfold ListEgressHosts. apply reads_query. intros d x.
  rewrite sort_keys_perm, list_elem_of_fmap. split.
  - intros ([k h] & -> & [Hk Hin]%list_elem_of_filter). cbn in *. subst. by apply elem_of_elements.
  - intros Hin. exists (app, x). split; [done|]. apply list_elem_of_filter. split; [done|]. by apply elem_of_elements.
Qed.
Lemma read_sessions app n : reads (fun r => ListSessions r app n) (fun d l => forall x, x ∈ l -> sessions d !! so_ID x = Some (so_row x) /\ ss_app (so_row x) = app).
Proof.
  unfold ListSessions. apply reads_query. intros d x Hin. apply (subseteq_take _ _) in Hin. revert Hin. rewrite elem_of_order_by, elem_of_listed. by intros (k & v & ? & ?%eqb_true & ->).
Qed.
Lemma read_app id : reads (fun r => get_app r id) (fun d x => app_ID x = id /\ apps d !! id = Some (app_row x)).
Proof.
  unfold get_app. apply reads_query_row. intros d x. destruct (apps d !! id); [|done]. by intros [= <-].
Qed.
Lemma read_current app : reads (fun r => CurrentDeployment r app) (fun d c => active d !! app = Some (de_ID c.1) /\
  deployments d !! de_ID c.1 = Some (de_row c.1) /\ dp_artifact (de_row c.1) = am_ID c.2 /\ artifacts d !! am_ID c.2 = Some (am_row c.2)).
Proof.
  unfold CurrentDeployment. apply reads_query_row. intros d c.
  destruct (active d !! app) as [id|]; [|done]. destruct (deployments d !! id) as [y|] eqn:Hy; [|done].
  destruct (artifacts d !! dp_artifact y) as [z|] eqn:Hz; [|done]. by intros [= <-].
Qed.

Lemma authorize_spec r s :
  db_of (authorize r s).1 = db_of s /\ forall p, (authorize r s).2 = inr p -> hr_Principal r = Some p /\ permitted p (db_of s).
Proof.
  unfold authorize. destruct (hr_Principal r) as [p|]; [|done]. destruct (_ || _); [done|].
  destruct (with_repo_reads _ _ s read_server) as [D1 X1]. destruct (with_repo ServerIdentity s) as [s1 [e|x]]; [done|]. cbn in D1, X1.
  destruct (negb (bool_decide (sv_id x = p_ServerID p))) eqn:Hid; [done|].
  destruct (with_repo_reads _ _ s1 (read_device (p_DeviceID p))) as [D2 X2]. destruct (with_repo _ s1) as [s2 [e|y]]; cbn in D2, X2; [cbn; split; [congruence|done]|].
  destruct (_ || _) eqn:Hy; [cbn; split; [congruence|done]|].
  destruct (with_repo_reads _ _ s2 (read_author (p_AuthorID p))) as [D3 X3]. destruct (with_repo _ s2) as [s3 [e|z]]; cbn in D3, X3; [cbn; split; [congruence|done]|].
  rewrite D2, D1 in *. destruct (au_suspended (a_row z)) eqn:Hz; cbn; (split; [congruence|]); [done|]. intros q [= <-]. split; [done|].
  apply negb_false_iff, bool_decide_eq_true in Hid. rewrite !orb_false_iff, !negb_false_iff, !bool_decide_eq_true in Hy. destruct Hy as [[Ha Hf] Hr].
  split; [by eauto| |by destruct (X3 z eq_refl); eauto]. exists (d_row y). split_and!; [by apply X2|done|done|].
  unfold device_active in Hr. by destruct (dv_revoked (d_row y)).
Qed.
End Authorize.

(** ** Calls and handlers, for an author and from a database *)

Section Handlers.
Context `{Platform} `{HttpLib} (sv : Server) (a : bytes) (d0 : DB) (Hstart : catalog_ok d0).
Abbreviation held := (held a d0).
Abbreviation start := (fun d : DB => d = d0).

(** Run where [P] holds, [c] fails and others keep what they have, or answers something of
    which [R] holds. *)
Definition rspec {A} (P : DB -> Prop) (F : Repo -> Repo * (error + A)) (R : A -> DB -> Prop) : Prop := forall r, P (r_db r) ->
  match (F r).2 with inl _ => held (r_db (F r).1) | inr x => R x (r_db (F r).1) end.
Definition sspec {A} (P : DB -> Prop) (c : Svc A) (R : A -> DB -> Prop) : Prop := forall s, P (db_of s) ->
  match (c s).2 with inl _ => held (db_of (c s).1) | inr x => R x (db_of (c s).1) end.
(** A handler leaves others what they have, and answers with rows of the author. *)
Definition hspec (P : DB -> Prop) (h : Handler) : Prop := forall s, P (db_of s) ->
  held (db_of (h s).1) /\ match (h s).2 with Ok r => own_answer a d0 r | _ => True end.

Lemma start_held d : d = d0 -> held d.
Proof. intros ->. split; [done|apply others_refl]. Qed.
Lemma answer_spec P r : (forall d, P d -> held d) -> own_answer a d0 r -> hspec P (answer r).
Proof. intros HP Hr s Hs. split; [by apply HP|done]. Qed.
Lemma problem_spec P p : (forall d, P d -> held d) -> hspec P (send_problem sv p).
Proof. intros HP. by apply answer_spec. Qed.
Lemma error_spec P e : (forall d, P d -> held d) -> hspec P (problemForError sv e).
Proof. apply problem_spec. Qed.
Lemma on_spec {A} P (c : Svc A) (R : A -> DB -> Prop) k : sspec P c R -> (forall x, hspec (R x) (k x)) -> hspec P (on sv c k).
Proof.
  intros Hc Hk s Hs. specialize (Hc s Hs). unfold on. destruct (c s) as [s' [e|x]]; cbn in Hc; [|by apply Hk].
  by apply (error_spec (fun d => held d) (errCall e) (fun d H => H)).
Qed.
Lemma readJSON_spec P fields r k : (forall d, P d -> held d) -> (forall v, hspec P (k v)) -> hspec P (readJSON sv fields r k).
Proof. intros HP Hk. unfold readJSON. destruct (_ <? _); [by apply error_spec|]. destruct (decode_json _ _); [done|by apply error_spec]. Qed.

(** *** Calls of the service *)

Lemma svc_bind_spec {A B} P (c : Svc A) (k : A -> Svc B) R Q : sspec P c R -> (forall x, sspec (R x) (k x) Q) -> sspec P (svc_bind c k) Q.
Proof. intros Hc Hk s Hs. specialize (Hc s Hs). unfold svc_bind. destruct (c s) as [s' [e|x]]; [done|by apply Hk]. Qed.
Lemma svc_ret_spec {A} (x : A) (P : DB -> Prop) (R : A -> DB -> Prop) : (forall d, P d -> R x d) -> sspec P (svc_ret x) R.
Proof. intros HP s Hs. by apply HP. Qed.
Lemma requireGate_spec P g : (forall d, P d -> held d) -> sspec P (requireGate g) (fun _ => P).
Proof. intros HP s Hs. unfold requireGate. destruct (enabled _ _); cbn; [done|by apply HP]. Qed.
Lemma randomBytes_spec P n : (forall d, P d -> held d) -> sspec P (randomBytes n) (fun _ => P).
Proof. intros HP s Hs. unfold randomBytes, draw. destruct (read_random _ _) as [bs [b|]]; cbn; [done|by apply HP]. Qed.
Lemma s_now_spec P : sspec P s_now (fun _ => P).
Proof. intros s Hs. unfold s_now. by destruct (s_clock s). Qed.
Lemma randomID_spec P p : (forall d, P d -> held d) -> sspec P (randomID p) (fun _ => P).
Proof.
  intros HP s Hs. unfold randomID, randomBytes, draw. destruct (read_random _ _) as [bs [b|]]; [done|].
  apply (svc_bind_spec P s_now _ (fun _ => P)); [apply s_now_spec| |done]. intros t. by apply svc_ret_spec.
Qed.
Lemma newID_spec P p : (forall d, P d -> held d) -> sspec P (newID p) (fun _ => P).
Proof. intros HP. eapply svc_bind_spec; [by apply randomBytes_spec|]. intros b. by apply svc_ret_spec. Qed.

(** *** Calls of the repository *)

Lemma with_repo_spec {A} P (F : Repo -> Repo * (error + A)) R : rspec P F R -> sspec P (with_repo F) R.
Proof. intros HF s Hs. specialize (HF (s_repo s) Hs). unfold with_repo. by destruct (F (s_repo s)) as [r [e|x]]. Qed.
Lemma reads_spec {A} P (F : Repo -> Repo * (error + A)) (X : DB -> A -> Prop) :
  (forall d, P d -> held d) -> reads F X -> rspec P F (fun x d => P d /\ X d x).
Proof.
  intros HP HF r Hr. destruct (HF r) as [Hd Hx]. destruct (F r) as [r' [e|x]]; cbn in *; rewrite Hd; [by apply HP|]. split; [done|by apply Hx].
Qed.
Lemma guarded_spec {A} cs (F : Repo -> Repo * (error + A)) R : rspec held F R -> rspec held (fun r => guarded r cs (F r)) R.
Proof. intros HF r Hr. destruct (guarded_cases r cs (F r)) as [->|[e ->]]; [by apply HF|done]. Qed.
Lemma now_held {A} (F : Repo -> Time -> Repo * (error + A)) R :
  (forall n, rspec held (fun r => F r n) R) -> rspec held (fun r => let '(r, n) := now r in F r n) R.
Proof. intros HF r Hr. unfold now. destruct (r_clock r) as [|t ts]; by apply HF. Qed.
Lemma given_held {A} t (F : Repo -> Z -> Repo * (error + A)) R :
  (forall n, rspec held (fun r => F r n) R) ->
  rspec held (fun r => let '(r, ns) := if UnixNano t =? 0 then let '(r, t) := now r in (r, UnixNano t) else (r, UnixNano t) in F r ns) R.
Proof. intros HF r Hr. unfold now. destruct (_ =? 0); [|by apply HF]. destruct (r_clock r) as [|u ts]; by apply HF. Qed.
(** A transaction that leaves others what they have. *)
Lemma mutate_held {A B} ev (c : TxDB A) (f : A -> B) R :
  keeps held c -> (forall x d, held d -> R (f x) d) ->
  rspec held (fun r => let '(r, res) := mutate r ev c in (r, match res with inl e => inl e | inr x => inr (f x) end)) R.
Proof.
  intros Hc HR r Hr. destruct (mutate r ev c) as [r' res] eqn:Hm. pose proof (mutate_keeps held r ev c r' res Hc Hm Hr) as Hk.
  destruct res as [e|x]; cbn; [done|by apply HR].
Qed.
Lemma mutate_held_id {A} ev (c : TxDB A) : keeps held c -> rspec held (fun r => mutate r ev c) (fun _ => held).
Proof.
  intros Hc r Hr. destruct (mutate r ev c) as [r' res] eqn:Hm. pose proof (mutate_keeps held r ev c r' res Hc Hm Hr) as Hk. by destruct res.
Qed.
(** With a fact about the answer. *)
Lemma mutate_held_fact {A} ev (c : TxDB A) (Q : A -> Prop) :
  keeps held c -> triple held c (fun x _ => Q x) -> rspec held (fun r => mutate r ev c) (fun x d => held d /\ Q x).
Proof.
  intros Hc HQ r Hr. destruct (mutate r ev c) as [r' res] eqn:Hm. pose proof (mutate_keeps held r ev c r' res Hc Hm Hr) as Hk.
  destruct res as [e|x]; [done|]. split; [done|].
  by destruct (mutate_triple held r ev c _ r' _ Hr HQ Hm) as (_ & _ & [(e & ? & _)|(y & Hy & [[= ->]|?])]).
Qed.
Lemma if_held {A} (b : bool) e (F : Repo -> Repo * (error + A)) R : rspec held F R -> rspec held (fun r => if b then (r, inl e) else F r) R.
Proof. intros HF r Hr. destruct b; [done|by apply HF]. Qed.

(** *** The operations behind the routes *)

Lemma CreateEnrollmentToken_spec i : ti_AuthorID i = a ->
  rspec held (fun r => CreateEnrollmentToken r i) (fun x d => held d /\ tk_author (t_row x) = a).
Proof.
  intros Ha. unfold CreateEnrollmentToken. apply guarded_spec, now_held. intros n. apply if_held.
  apply (mutate_held _ _ (fun _ => mkTokenOut _ _)); [by apply CreateEnrollmentToken_held|done].
Qed.
Lemma RevokeDeviceAuthorized_spec actor target : rspec held (fun r => RevokeDeviceAuthorized r a actor target) (fun _ => held).
Proof.
  unfold RevokeDeviceAuthorized. apply guarded_spec, now_held. intros n. apply now_held. intros m. apply mutate_held_id, RevokeDeviceAuthorized_held.
Qed.
Lemma CreateApp_spec i : in_AuthorID i = a -> rspec held (fun r => catalog.CreateApp r i) (fun x d => held d /\ ap_author (app_row x) = a).
Proof.
  intros Ha. unfold catalog.CreateApp. cbv zeta. apply guarded_spec, given_held. intros ns. apply now_held. intros n.
  apply (mutate_held _ _ (fun _ => mkAppOut _ _)); [by apply CreateApp_held|done].
Qed.
Lemma AddAccessKey_spec i : ~ foreign a d0 (ki_AppID i) ->
  rspec held (fun r => catalog.AddAccessKey r i) (fun x d => held d /\ ak_app (k_row x) = ki_AppID i).
Proof.
  intros Ha. unfold catalog.AddAccessKey. cbv zeta. apply guarded_spec, given_held. intros ns. apply now_held. intros n.
  apply (mutate_held _ _ (fun _ => mkAccessKey _ _)); [by apply AddAccessKey_held|done].
Qed.
Lemma RemoveAccessKey_spec app key actor : rspec held (fun r => catalog.RemoveAccessKey r a app key actor) (fun _ => held).
Proof. unfold catalog.RemoveAccessKey. apply guarded_spec, now_held. intros n. apply mutate_held_id, RemoveAccessKey_held. Qed.
Lemma SetSecret_app app key v n : triple held (SetSecret_tx app key v n) (fun x _ => sm_AppID x = app).
Proof.
  apply (triple_conseq (fun _ => True) _ _ (fun x _ => sm_AppID x = app)); [|done..].
  unfold SetSecret_tx. repeat (eapply (triple_bind _ _ _ (fun _ _ => True)); [by intros d fs _; repeat case_match|intros ?]). by apply triple_ret.
Qed.
Lemma SetSecret_spec app key v : ~ foreign a d0 app -> rspec held (fun r => SetSecret r app key v) (fun x d => held d /\ sm_AppID x = app).
Proof. intros Ha. unfold SetSecret. apply guarded_spec, now_held. intros n. apply mutate_held_fact; [by apply SetSecret_held|apply SetSecret_app]. Qed.
Lemma SetSecretDelete_spec app key : ~ foreign a d0 app -> rspec held (fun r => SetSecretDelete r app key) (fun _ => held).
Proof. intros Ha. unfold SetSecretDelete. by apply guarded_spec, mutate_held_id, SetSecretDelete_held. Qed.
Lemma SetEgressHost_spec app host b : ~ foreign a d0 app -> rspec held (fun r => SetEgressHost r app host b) (fun _ => held).
Proof. intros Ha. unfold SetEgressHost. by apply guarded_spec, mutate_held_id, SetEgressHost_held. Qed.
Lemma DeployApplication_spec i t x y : ad_AuthorID i = a -> 
  rspec held (fun r => DeployApplication r i t x y) (fun out d => held d /\ ~ foreign a d0 (app_ID (out_App out))).
Proof.
  intros Ha. unfold DeployApplication. apply guarded_spec. destruct (validateArtifact _ t) as [e|m] eqn:Hm; [by intros r Hr|].
  do 4 (apply now_held; intros ?). apply mutate_held_fact; [|by apply DeployApplication_own].
  apply DeployApplication_held; [done|done|]. by eapply validateArtifact_ok.
Qed.

(** ** Handlers *)

(** The branches of a handler, in the order of the code. *)
Ltac branch := match goal with |- hspec _ (if ?b then _ else _) => destruct b end.


Context (p : Principal) (Hp : p_AuthorID p = a).
Lemma hspec_held h : hspec held h -> hspec start h.
Proof. intros Hh s Hs. by apply Hh, start_held. Qed.
Lemma read_then {A} (F : Repo -> Repo * (error + A)) X k :
  reads F X -> (forall x, X d0 x -> hspec start (k x)) -> hspec start (on sv (with_repo F) k).
Proof.
  intros HF Hk. eapply on_spec; [by apply with_repo_spec, reads_spec; [apply start_held|exact HF]|]. intros x s [Hs Hx]. rewrite Hs in Hx. by apply Hk.
Qed.
Lemma write_then {A} (F : Repo -> Repo * (error + A)) k :
  rspec held F (fun _ => held) -> (forall x, hspec held (k x)) -> hspec held (on sv (with_repo F) k).
Proof. intros HF Hk. eapply on_spec; [by apply with_repo_spec|]. done. Qed.
Lemma write_fact {A} (F : Repo -> Repo * (error + A)) (Q : A -> Prop) k :
  rspec held F (fun x d => held d /\ Q x) -> (forall x, Q x -> hspec held (k x)) -> hspec held (on sv (with_repo F) k).
Proof. intros HF Hk. eapply on_spec; [by apply with_repo_spec|]. intros x s [Hs Hx]. by apply (Hk x Hx). Qed.
Lemma newID_then prefix k : (forall x, hspec held (k x)) -> hspec held (on sv (newID prefix) k).
Proof. intros Hk. eapply on_spec; [by apply newID_spec|done]. Qed.
Lemma json_spec P status b : (forall d, P d -> held d) -> own_body a d0 b -> hspec P (writeJSON sv status b).
Proof. intros HP Hb. by apply answer_spec. Qed.
Lemma no_content_spec P : (forall d, P d -> held d) -> hspec P NoContent.
Proof. intros HP. by apply answer_spec. Qed.

Lemma own_app_author app : own_app_row a d0 app -> author_of_app d0 (app_ID app) = Some a.
Proof. intros [Hr Hu]. unfold author_of_app. rewrite Hr. cbn. by rewrite Hu. Qed.
Lemma own_app_own app : own_app_row a d0 app -> ~ foreign a d0 (app_ID app).
Proof. intros [Hr Hu] (x & Hx & Hne). congruence. Qed.

Lemma handleAccess_spec r app keyID : own_app_row a d0 app -> hspec start (handleAccess sv r p (app_ID app) keyID).
Proof.
  intros Happ. unfold handleAccess. rewrite Hp. case_match.
  { case_match; [apply error_spec, start_held|]. apply (read_then _ _ _ (read_keys a (app_ID app))). intros l Hl.
    apply json_spec; [apply start_held|]. exists (app_ID app). split; [by apply own_app_author|]. apply Hl. unfold app_of.
    rewrite (proj1 Happ). apply eqb_true, Happ. }
  apply hspec_held. case_match.
  { apply readJSON_spec; [done|]. intros v. apply newID_then. intros id. eapply write_fact; [by apply AddAccessKey_spec, own_app_own|].
    intros x Hx. apply json_spec; [done|]. cbn in *. rewrite Hx. by apply own_app_author. }
  case_match; [|by apply problem_spec]. case_match; [by apply error_spec|]. apply write_then; [apply RemoveAccessKey_spec|].
  intros []. by apply no_content_spec.
Qed.
Lemma handleSecrets_spec r app key : own_app_row a d0 app -> hspec start (handleSecrets sv r p (app_ID app) key).
Proof.
  intros Happ. unfold handleSecrets. case_match.
  { case_match; [apply error_spec, start_held|]. apply (read_then _ _ _ (read_secrets (app_ID app))). intros l Hl.
    apply json_spec; [apply start_held|]. exists (app_ID app). split; [by apply own_app_author|done]. }
  apply hspec_held. case_match.
  { case_match; [by apply error_spec|]. apply readJSON_spec; [done|]. intros v. case_match; [by apply problem_spec|].
    eapply write_fact; [by apply SetSecret_spec, own_app_own|]. intros x Hx. apply json_spec; [done|]. cbn. rewrite Hx. by apply own_app_author. }
  case_match; [|by apply problem_spec]. case_match; [by apply error_spec|]. apply write_then; [by apply SetSecretDelete_spec, own_app_own|].
  intros []. by apply no_content_spec.
Qed.
Lemma handleEgress_spec r app host : own_app_row a d0 app -> hspec start (handleEgress sv r (app_ID app) host).
Proof.
  intros Happ. unfold handleEgress. cbv zeta.
  assert (Hallow : forall h, hspec held (on sv (with_repo (fun rp => SetEgressHost rp (app_ID app) h true)) (fun _ => writeJSON sv 200 (BHost h)))).
  { intros h. apply write_then; [by apply SetEgressHost_spec, own_app_own|]. intros []. by apply json_spec. }
  case_match.
  { case_match; [apply error_spec, start_held|]. apply (read_then _ _ _ (read_hosts (app_ID app))). intros l Hl.
    apply json_spec; [apply start_held|]. exists (app_ID app). split; [by apply own_app_author|done]. }
  apply hspec_held. case_match.
  { case_match; [|apply Hallow]. apply readJSON_spec; [done|]. intros v. apply Hallow. }
  case_match; [|by apply problem_spec]. case_match; [by apply error_spec|]. apply write_then; [by apply SetEgressHost_spec, own_app_own|].
  intros []. by apply no_content_spec.
Qed.

Lemma handleDeployment_spec w r previous : hspec start (handleDeployment sv w r p previous).
Proof.
  apply hspec_held. unfold handleDeployment. rewrite Hp. destruct (readMultipart sv r) as [e|[metadata wasm]]; [by apply error_spec|].
  case_match; [by apply problem_spec|]. destruct (validateWASM _ _ _); [by apply error_spec|]. apply newID_then. intros id.
  eapply write_fact; [by apply DeployApplication_spec|]. intros out Hout.
  eapply on_spec; [apply with_repo_spec, reads_spec; [done|apply read_author]|]. intros u s [Hs [_ Hu]]. rewrite (os_authors _ _ _ (proj2 Hs)) in Hu.
  split; [done|]. cbn. split; [|by eauto]. intros v Hv. destruct (decide (v = a)) as [|Hne]; [done|]. destruct Hout. unfold author_of_app in Hv.
  destruct (apps d0 !! _) as [y|] eqn:Hy; [|done]. injection Hv as <-. by exists y.
Qed.

Lemma ownedApp_spec id k : (forall app, own_app_row a d0 app -> hspec start (k app)) -> hspec start (ownedApp sv p id k).
Proof.
  intros Hk s Hs. unfold ownedApp. destruct (with_repo_reads _ _ s (read_app id)) as [Hd Hx].
  destruct (with_repo (fun rp => get_app rp id) s) as [s1 [e|app]]; cbn in Hd, Hx; rewrite Hs in *;
    [by apply (error_spec start _ start_held)|]. case_bool_decide as Ha; [|by apply (error_spec start _ start_held)]. destruct (Hx app eq_refl) as [E Hrow]. apply Hk; [|done].
  split; [by rewrite E|congruence].
Qed.
Lemma routeApps_spec r parts : hspec start (routeApps sv r p parts).
Proof.
  unfold routeApps. rewrite Hp. destruct parts as [|id [|section rest]].
  - case_match; [apply (read_then _ _ _ (read_apps a)); intros l Hl; by apply json_spec; [apply start_held|]|].
    case_match; [|intros s Hs; by split; [apply start_held|]]. apply hspec_held, readJSON_spec; [done|]. intros v. apply newID_then. intros i.
    eapply write_fact; [by apply CreateApp_spec|]. intros x Hx. by apply json_spec.
  - apply ownedApp_spec. intros app Happ. case_match; [apply problem_spec, start_held|]. intros s Hs.
    destruct (with_repo_reads _ _ s (read_current (app_ID app))) as [Hd Hx].
    destruct (with_repo (fun rp => CurrentDeployment rp (app_ID app)) s) as [s1 [e|c]]; cbn in Hd, Hx; rewrite Hs in *;
      (split; [by apply start_held|]); cbn; (split; [done|]); [done|]. intros dep art [= ->]. exact (Hx _ eq_refl).
  - apply ownedApp_spec. intros app Happ. cbv zeta.
    assert (Ho : hspec start (if is_nil_b rest && bool_decide (section = str "sessions") && is_method r GET
      then on sv (with_repo (fun rp => ListSessions rp (app_ID app) 100)) (fun l => writeJSON sv 200 (BSessions l)) else notFound sv "app route not found")).
    { case_match; [|apply problem_spec, start_held]. apply (read_then _ _ _ (read_sessions (app_ID app) 100)). intros l Hl.
      apply json_spec; [apply start_held|]. exists (app_ID app). split; [by apply own_app_author|done]. }
    destruct (match rest with [] => Some [] | [x] => Some x | _ => None end) as [x|]; [|exact Ho].
    branch; [by apply handleAccess_spec|]. branch; [by apply handleSecrets_spec|]. branch; [by apply handleEgress_spec|exact Ho].
Qed.

Lemma BeginDeviceAddition_spec device name :
  sspec held (BeginDeviceAddition a device name) (fun c d => held d /\ ec_AuthorID c = a).
Proof.
  unfold BeginDeviceAddition, beginDeviceAddition. eapply svc_bind_spec; [by apply requireGate_spec|]. intros [].
  eapply svc_bind_spec; [by apply randomBytes_spec|]. intros secret. eapply svc_bind_spec; [by apply randomBytes_spec|]. intros salt.
  eapply svc_bind_spec; [apply s_now_spec|]. intros t. cbv zeta. eapply svc_bind_spec; [by apply randomID_spec|]. intros id.
  eapply svc_bind_spec; [by apply with_repo_spec, CreateEnrollmentToken_spec|]. intros token. by apply svc_ret_spec.
Qed.
Lemma RevokeDevice_spec actor target : sspec held (service.RevokeDevice a actor target) (fun _ => held).
Proof.
  unfold service.RevokeDevice. eapply svc_bind_spec; [by apply requireGate_spec|]. intros []. apply with_repo_spec, RevokeDeviceAuthorized_spec.
Qed.
Lemma api_route_spec w r parts : hspec start (route sv w r p parts).
Proof.
  unfold route. rewrite Hp. cbv zeta. branch; [apply handleDeployment_spec|]. branch; [apply handleDeployment_spec|].
  branch; [apply (read_then _ _ _ (read_author a)); intros u Hu; by apply json_spec; [apply start_held|]|].
  branch; [apply (read_then _ _ _ (read_devices a)); intros l Hl; by apply json_spec; [apply start_held|]|].
  branch.
  { apply hspec_held, readJSON_spec; [done|]. intros v. eapply on_spec; [apply BeginDeviceAddition_spec|]. intros c s [Hs Hc]. by split. }
  branch.
  { apply hspec_held. eapply on_spec; [apply RevokeDevice_spec|]. intros []. by apply no_content_spec. }
  branch; [apply (read_then _ _ _ (read_audit a 100)); intros l Hl; by apply json_spec; [apply start_held|]|].
  branch; [apply routeApps_spec|apply problem_spec, start_held].
Qed.
End Handlers.

(** ** Requests *)

Section Requests.
Context `{Platform} `{HttpLib} (sv : Server).

Lemma answer_stays r s : db_of (answer r s).1 = db_of s.
Proof. done. Qed.
(** A request changes nothing and gets an answer without rows, or acts for a permitted principal. *)
Lemma authorized_spec r k s d0 : catalog_ok d0 -> db_of s = d0 ->
  (forall p, permitted p d0 -> hspec (p_AuthorID p) d0 (fun d => d = d0) (k p)) ->
  let out := authorized sv r k s in
  (db_of out.1 = d0 /\ exists pb, out.2 = Ok (RProblem (sv_product sv) pb)) \/
  exists p, hr_Principal r = Some p /\ permitted p d0 /\ held (p_AuthorID p) d0 (db_of out.1) /\
    match out.2 with Ok resp => own_answer (p_AuthorID p) d0 resp | _ => True end.
Proof.
  intros Hok Hs Hk. unfold authorized. destruct (authorize_spec r s) as [Hd Hx]. destruct (authorize r s) as [s1 [e|p]]; cbn in Hd, Hx.
  - left. cbn. split; [congruence|]. unfold problemForError, send_problem, answer. cbn. by eexists.
  - right. exists p. destruct (Hx p eq_refl) as [? Hperm]. rewrite Hs in *. split; [done|]. split; [done|]. by apply (Hk p Hperm).
Qed.

(** C7 (requests stay with their author): whatever fails, a request to the control
    API changes nothing and answers with a problem, or it carries the principal of an active
    device of an author who is not suspended, on this server; then the catalogue stays in
    order, the rows of every other author (devices, tokens, applications, keys, deployments
    with their artifacts and bytes, secrets, egress hosts), the accounts, the sessions and
    the audit log so far are as they were, and the answer holds only rows of that author. *)
Theorem api_isolation w r s s' res :
  catalog_ok (db_of s) -> ServeHTTP sv w r s = (s', res) ->
  (db_of s' = db_of s /\ exists pb, res = Ok (RProblem (sv_product sv) pb)) \/
  exists p, hr_Principal r = Some p /\ permitted p (db_of s) /\ catalog_ok (db_of s') /\ others_keep (p_AuthorID p) (db_of s) (db_of s') /\
    match res with Ok resp => own_answer (p_AuthorID p) (db_of s) resp | _ => True end.
Proof.
  intros Hok Hserve. assert (s' = (ServeHTTP sv w r s).1 /\ res = (ServeHTTP sv w r s).2) as [-> ->] by (by rewrite Hserve). clear Hserve.
  unfold ServeHTTP. do 2 (case_match; [left; split; [done|by eexists]|]).
  assert (Hauth : forall k, (forall p, permitted p (db_of s) -> hspec (p_AuthorID p) (db_of s) (fun d => d = db_of s) (k p)) ->
    (db_of (authorized sv r k s).1 = db_of s /\ exists pb, (authorized sv r k s).2 = Ok (RProblem (sv_product sv) pb)) \/
    exists p, hr_Principal r = Some p /\ permitted p (db_of s) /\ catalog_ok (db_of (authorized sv r k s).1) /\
      others_keep (p_AuthorID p) (db_of s) (db_of (authorized sv r k s).1) /\
      match (authorized sv r k s).2 with Ok resp => own_answer (p_AuthorID p) (db_of s) resp | _ => True end).
  { intros k Hk. destruct (authorized_spec r k s (db_of s) Hok eq_refl Hk) as [?|(p & ? & ? & [? ?] & ?)]; [by left|right; by exists p]. }
  case_match.
  - unfold handleVersion. case_match; [left; split; [done|by eexists]|]. apply Hauth. intros p _. apply json_spec; [by apply start_held|done].
  - case_match; [left; split; [done|by eexists]|]. apply Hauth. intros p _.
    destruct (routeSegments _); [by apply api_route_spec|]. apply problem_spec. by apply start_held.
Qed.

(** ** The handler that panics *)

Definition total (h : Handler) : Prop := forall s, (h s).2 <> Panic.
Lemma total_answer r : total (answer r).
Proof. done. Qed.
Lemma total_problem p : total (send_problem sv p).
Proof. done. Qed.
Lemma total_on {A} (c : Svc A) k : (forall x, total (k x)) -> total (on sv c k).
Proof. intros Hk s. unfold on. destruct (c s) as [s' [e|x]]; [done|apply Hk]. Qed.
Lemma total_readJSON fields r k : (forall v, total (k v)) -> total (readJSON sv fields r k).
Proof. intros Hk. unfold readJSON. destruct (_ <? _); [done|]. by destruct (decode_json _ _). Qed.
Lemma total_ownedApp p id k : (forall app, total (k app)) -> total (ownedApp sv p id k).
Proof. intros Hk s. unfold ownedApp. destruct (with_repo _ s) as [s' [e|app]]; [done|]. case_bool_decide; [apply Hk|done]. Qed.
Lemma total_if (b : bool) h1 h2 : total h1 -> total h2 -> total (if b then h1 else h2).
Proof. by destruct b. Qed.
Ltac total_tac := repeat first [ apply total_readJSON; intros ? | apply total_on; intros ? | apply total_if | apply total_answer | apply total_problem ].

Lemma handleAccess_total r p app key : total (handleAccess sv r p app key).
Proof. unfold handleAccess. total_tac. Qed.
Lemma handleSecrets_total r p app key : total (handleSecrets sv r p app key).
Proof. unfold handleSecrets. total_tac. Qed.
Lemma handleEgress_total r app host : total (handleEgress sv r app host).
Proof. unfold handleEgress. cbv zeta. total_tac. Qed.
Lemma handleDeployment_total w r p previous : total (handleDeployment sv w r p previous).
Proof.
  unfold handleDeployment. destruct (readMultipart sv r) as [e|[m wasm]]; [done|]. apply total_if; [done|].
  destruct (validateWASM _ _ _); [done|]. total_tac.
Qed.

Definition no_method (r : Request) : Prop := hr_Method r <> GET /\ hr_Method r <> POST.
Lemma routeApps_panics r p parts s : (routeApps sv r p parts s).2 = Panic <-> parts = [] /\ no_method r.
Proof.
  unfold routeApps, no_method, is_method. destruct parts as [|id [|section rest]].
  - case_bool_decide as Hg; [split; [intros Hx; by apply total_on in Hx|by intros (_ & [] & _)]|].
    case_bool_decide as Hm; [|done]. split; [|by intros (_ & _ & [])]. intros Hx. exfalso. revert Hx. total_tac.
  - split; [|by intros [? _]]. intros Hx. exfalso. revert Hx. apply total_ownedApp. intros app. apply total_if; [done|]. intros s'.
    destruct (with_repo _ s') as [s1 c]. done.
  - split; [|by intros [? _]]. intros Hx. exfalso. revert Hx. apply total_ownedApp. intros app. cbv zeta.
    match goal with |- total (match ?o with _ => _ end) => destruct o end;
      repeat first [apply handleAccess_total | apply handleSecrets_total | apply handleEgress_total | apply total_on; intros ? | apply total_problem | apply total_answer | apply total_if].
Qed.
Lemma route_apps w r p s : route sv w r p [str "apps"] s = routeApps sv r p [] s.
Proof. reflexivity. Qed.
Lemma route_panics w r p parts s : (route sv w r p parts s).2 = Panic <-> parts = [str "apps"] /\ no_method r.
Proof.
  split; [|intros [-> Hm]; rewrite route_apps; by apply routeApps_panics].
  assert (Hskip : forall (b : bool) h1 h2, total h1 -> ((h2 s).2 = Panic -> parts = [str "apps"] /\ no_method r) ->
    ((if b then h1 else h2) s).2 = Panic -> parts = [str "apps"] /\ no_method r) by (intros [] h1 h2 Ht; [intros _ Hx; by apply Ht in Hx|done]).
  unfold route. cbv zeta. do 2 (apply Hskip; [apply handleDeployment_total|]). do 5 (apply Hskip; [total_tac|]).
  destruct (_ && bool_decide (head parts = Some (str "apps"))) eqn:Hb; [|done]. apply andb_true_iff in Hb as [_ Hh%bool_decide_eq_true].
  rewrite routeApps_panics. destruct parts as [|x parts]; [done|]. injection Hh as ->. cbn. by intros [-> ?].
Qed.

(** C23 (the request that panics): a request makes the handler panic exactly when it passes
    the checks on its path, headers and version, its principal is authorized, and it asks
    for the collection of applications with a method other than GET and POST. *)
Theorem api_panic_exact w r s :
  (ServeHTTP sv w r s).2 = Panic <->
  control.ValidateRequest (control_request r) = None /\ hr_Path r <> control.APIPrefix ++ str "/version" /\
  control.Get (hr_Header r) ProductVersionHeader = sv_product sv /\ (exists p, (authorize r s).2 = inr p) /\
  routeSegments (hr_Path r) = Some [str "apps"] /\ no_method r.
Proof.
  unfold ServeHTTP. destruct (control.ValidateRequest (control_request r)) as [e|] eqn:Hv.
  { cbn [is_None_b negb]. split; [|by intros [? _]]. by destruct (_ || _). }
  assert (negb (HasPrefix (hr_Path r) control.APIPrefix) || (negb (bool_decide (hr_Path r = control.APIPrefix)) && negb (HasPrefix (hr_Path r) (control.APIPrefix ++ str "/"))) = false) as ->.
  { unfold control.ValidateRequest, control_request in Hv. cbn [control.rq_Path] in Hv. by destruct (_ || _). }
  cbn [is_None_b negb]. case_bool_decide as Hver.
  { split; [|by intros (_ & ? & _)]. unfold handleVersion. destruct (negb _); [done|]. unfold authorized. by destruct (authorize r s) as [s1 [e|p]]. }
  case_bool_decide as Hp; [|split; [done|]; by intros (_ & _ & ? & _)]. cbn [negb]. unfold authorized.
  destruct (authorize r s) as [s1 [e|p]]; [split; [done|]; by intros (_ & _ & _ & [? ?] & _)|].
  destruct (routeSegments (hr_Path r)) as [segments|]; [|split; [done|]; by intros (_ & _ & _ & _ & ? & _)].
  rewrite route_panics. split.
  - intros [-> Hm]. split_and!; try done. by exists p.
  - by intros (_ & _ & _ & _ & [= ->] & Hm).
Qed.
End Requests.

(** ** Examples *)

Section Examples.
#[local] Existing Instance plain_platform.
Definition fields_only : HttpLib := Build_HttpLib
  (fun _ _ => Some (fun k => if eqb k (str "Name") then str "world" else if eqb k (str "Kind") then str "tui" else str "public"))
  (fun _ => None) (fun _ _ _ => None) (fun _ => None) (fun _ => None).
#[local] Existing Instance fields_only.

Definition bob : RegistrationInput :=
  mkRegistration (str "author_2") (str "bob") (str "device_2") (str "desktop") (str "key2") (str "fp2") [5] [6] 7 None.
Definition bobs_app : AppInput := mkAppInput (str "app_bob") (str "author_2") (str "chat") (str "tui") (str "restricted") [] 7.
Definition two_calls : list any_call :=
  [Identity (CSetServerIdentity (str "server_1") (str "ed25519") (str "fps") 1); Identity (CRegisterAuthor ann); Identity (CRegisterAuthor bob);
   Catalogue (CCreateApp bobs_app)].
Definition two_authors : Service :=
  mkService (run_all two_calls at_start) (service.mkConfig true true true 0 0 0) [] [Some (replicate 16 1)].
Definition api : Server := mkServer (str "1.0.0") 1 100 100 None.
Definition request (method : string) : Request :=
  httpapi.mkRequest (str method) (control.APIPrefix ++ str "/apps") [(control.CanonicalHeaderKey ProductVersionHeader, [str "1.0.0"])] true 5 (str "{...}")
    (Some (httpapi.mkPrincipal (str "server_1") (str "author_1") (str "device_1") (str "fp1"))).
Definition draws : DeployDraws := mkDeployDraws 0 [] [].
Definition created : Service * res unit Response := ServeHTTP api draws (request "POST") two_authors.

Lemma two_authors_ok : catalog_ok (db_of two_authors).
Proof. unfold two_authors, db_of. cbn [s_repo]. apply database_invariant. reflexivity. Qed.
Lemma api_isolation_witness :
  status_of (match created.2 with Ok resp => resp | _ => RNoContent end) = 201 /\
  (exists app, foreign (str "author_1") (db_of two_authors) app) /\
  others_keep (str "author_1") (db_of two_authors) (db_of created.1).
Proof.
  split; [vm_compute; reflexivity|]. split.
  { exists (str "app_bob"). exists (mkApp (str "author_2") (str "chat") (str "tui") (str "restricted") false 7 7). split; [vm_compute; reflexivity|discriminate]. }
  destruct (api_isolation api draws (request "POST") two_authors created.1 created.2 two_authors_ok (surjective_pairing _)) as [[_ [pb Hpb]]|(p & Hp & _ & _ & Ho & _)].
  - exfalso. revert Hpb. vm_compute. discriminate.
  - injection Hp as <-. exact Ho.
Defined.

Example put_panics : (ServeHTTP api draws (request "PUT") two_authors).2 = Panic.
Proof. vm_compute. reflexivity. Qed.
End Examples.
End httpapilaws.
