(* ===== verification/Devhost.v ===== *)
(** * The session engine (internal/runner/devhost.go)

    The limits of a session, the watchdog that bounds a guest's compute, the two
    host imports every TUI guest drives its loop with ([recv] and [present]), and
    the in-process path from a presented frame to the sink.

    Instants are nanoseconds.  The WebAssembly runtime is wazero's; the guest is
    known only through the calls it makes, so a session is a sequence of calls
    with the instants at which each is entered and left. *)

From S2P Require Import Prelude Abi Protocol Render HostFns.

(** ** Limits *)

Definition MaxMemoryPages : Z := 65536.
Definition minute : Z := 60 * second.
Definition MaxSessionTimeout : Z := 24 * 60 * minute.
Definition DefaultLimits : Limits := mkLimits 512 (2 * second) (30 * minute) 200 120.

Inductive RunError :=
| ErrMemoryPages | ErrNegativeLimit
| ErrFrameDeadline | ErrSessionDeadline | ErrContext | ErrGuest.

Definition validateLimits (lim : Limits) : option RunError :=
  if (MemoryPages lim =? 0) || (MaxMemoryPages <? MemoryPages lim) then Some ErrMemoryPages
  else if (FrameTimeout lim <? 0) || (SessionTimeout lim <? 0)
          || (MaxEventsPerSec lim <? 0) || (MaxFramesPerSec lim <? 0)
  then Some ErrNegativeLimit
  else None.

Definition effectiveSessionTimeout (lim : Limits) : Z :=
  if 0 <? SessionTimeout lim then SessionTimeout lim else MaxSessionTimeout.

(** ** watchdog

    [wd_deadline] is the instant at which the pending timer fires, if one is
    pending; [wd_fired] is set by [fire], which also cancels the run. *)
Record watchdog := mkWatchdog { wd_timeout : Z; wd_deadline : option Z; wd_fired : bool }.

Definition new_watchdog (timeout : Z) : watchdog := mkWatchdog timeout None false.

Definition fire (w : watchdog) : watchdog := mkWatchdog (wd_timeout w) None true.

Definition arm (w : watchdog) (now : Z) : watchdog :=
  if wd_timeout w <=? 0 then w
  else mkWatchdog (wd_timeout w) (Some (now + wd_timeout w)) (wd_fired w).

Definition disarm (w : watchdog) : watchdog := mkWatchdog (wd_timeout w) None (wd_fired w).

(** The runtime timer: a pending deadline that has passed has fired. *)
Definition elapse (w : watchdog) (now : Z) : watchdog :=
  match wd_deadline w with
  | Some d => if d <=? now then fire w else w
  | None => w
  end.

(** ** Sources *)

Class Source (Src : Type) := src_Next : Src -> Src * option Event.

(** ** The host module *)

Section Host.
Context {M Src P : Type} `{Memory M} `{Source Src}.
(** Where a presented frame goes: [runGuest]'s adapter or the worker's stream. *)
Variable present_fn : P -> bytes -> res AbiErr P.

Record Host := mkHost {
  h_wd : watchdog; h_sessionWd : watchdog; h_src : Src; h_evBuf : bytes; h_mem : M; h_present : P }.

(** [recv], entered at [t0] and left at [t1].  [paced]: the input bucket gave a
    token (false when the session was cancelled first). *)
Definition recv (h : Host) (t0 t1 : Z) (paced : bool) (ptr capBytes : Z) : res AbiErr (Host * Z) :=
  let wd := disarm (elapse (h_wd h) t0) in
  let sessionWd := elapse (h_sessionWd h) t1 in
  let '(src, r) := src_Next (h_src h) in
  match r with
  | None => Ok (mkHost wd sessionWd src (h_evBuf h) (h_mem h) (h_present h), -1)
  | Some ev =>
    if negb paced then Ok (mkHost wd sessionWd src (h_evBuf h) (h_mem h) (h_present h), -1) else
    let? b := AppendEvent (h_evBuf h) ev in
    if capBytes <? i32 (len b)
    then Ok (mkHost wd sessionWd src b (h_mem h) (h_present h), -1) else
    let '(m, ok) := mem_write (h_mem h) (u32 ptr) b in
    if negb ok then Ok (mkHost wd sessionWd src b m (h_present h), -1) else
    Ok (mkHost (arm wd t1) (arm sessionWd t1) src b m (h_present h), i32 (len b))
  end.

(** [present], entered at [t0] and left at [t1].  [allowed]: the output bucket
    gave a token. *)
Definition present (h : Host) (t0 t1 : Z) (allowed : bool) (ptr length : Z) : res AbiErr Host :=
  let wd := disarm (elapse (h_wd h) t0) in
  let sessionWd := elapse (h_sessionWd h) t1 in
  if negb allowed then Ok (mkHost wd sessionWd (h_src h) (h_evBuf h) (h_mem h) (h_present h)) else
  if (length <? 0) || (MaxFrameBytes <? length)
  then Ok (mkHost wd sessionWd (h_src h) (h_evBuf h) (h_mem h) (h_present h)) else
  match mem_read (h_mem h) (u32 ptr) (u32 length) with
  | None => Ok (mkHost wd sessionWd (h_src h) (h_evBuf h) (h_mem h) (h_present h))
  | Some raw =>
    let? p := present_fn (h_present h) raw in
    Ok (mkHost wd (arm sessionWd t1) (h_src h) (h_evBuf h) (h_mem h) p)
  end.

(** A guest's calls, in order.  Between calls the guest may write its own memory:
    [mem] is the memory it leaves for the call. *)
Inductive Call :=
| CallRecv (t0 t1 : Z) (mem : M) (paced : bool) (ptr capBytes : Z)
| CallPresent (t0 t1 : Z) (mem : M) (allowed : bool) (ptr length : Z).

Definition with_mem (h : Host) (mem : M) : Host :=
  mkHost (h_wd h) (h_sessionWd h) (h_src h) (h_evBuf h) mem (h_present h).

Fixpoint guest_calls (h : Host) (cs : list Call) : res AbiErr (Host * list Z) :=
  match cs with
  | [] => Ok (h, [])
  | CallRecv t0 t1 mem paced ptr cap :: cs =>
    let? '(h, n) := recv (with_mem h mem) t0 t1 paced ptr cap in
    let? '(h, ns) := guest_calls h cs in Ok (h, n :: ns)
  | CallPresent t0 t1 mem allowed ptr length :: cs =>
    let? h := present (with_mem h mem) t0 t1 allowed ptr length in
    let? '(h, ns) := guest_calls h cs in Ok (h, 0 :: ns)
  end.

(** How the guest's run ended, as [InstantiateWithConfig] reports it. *)
Inductive GuestEnd := GuestReturned | GuestExit (code : Z) | GuestFailed.

(** The end of [runGuestEncoded]: what it returns. *)
Definition run_result (e : GuestEnd) (h : Host) (ctxErr sessDeadline : bool) : option RunError :=
  match e with
  | GuestReturned => None
  | _ =>
    if wd_fired (h_wd h) then Some ErrFrameDeadline
    else if wd_fired (h_sessionWd h) then Some ErrSessionDeadline
    else if ctxErr then Some ErrContext
    else if sessDeadline then Some ErrSessionDeadline
    else match e with
         | GuestExit code => if code =? 0 then None else Some ErrGuest
         | _ => Some ErrGuest
         end
  end.

(** [runGuestEncoded] of a guest that starts at [start], makes the calls [cs] and
    ends as [e] at the instant [tend]. *)
Definition runGuestEncoded (lim : Limits) (src : Src) (mem : M) (p : P) (start tend : Z)
    (cs : list Call) (e : GuestEnd) (ctxErr sessDeadline : bool)
  : res AbiErr (option Host * option RunError) :=
  match validateLimits lim with
  | Some err => Ok (None, Some err)
  | None =>
    let h := mkHost (new_watchdog (FrameTimeout lim))
               (arm (new_watchdog (effectiveSessionTimeout lim)) start) src [] mem p in
    let? '(h, _) := guest_calls h cs in
    let h := mkHost (disarm (elapse (h_wd h) tend)) (elapse (h_sessionWd h) tend)
               (h_src h) (h_evBuf h) (h_mem h) (h_present h) in
    Ok (Some h, run_result e h ctxErr sessDeadline)
  end.

End Host.

(** ** runGuest: decoding in process *)

Section Local.
Context {K : Type} `{Sink K}.

Record Screen := mkScreen { sc_cells : list Cell; sc_dedup : frameDedup; sc_sink : K }.

Definition present_local (s : Screen) (raw : bytes) : res AbiErr Screen :=
  if suppressed (sc_dedup s) raw (sc_sink s) then Ok s else
  match AppendDecodeFrame (sc_cells s) raw with
  | Ok (f, decoded) => Ok (mkScreen decoded (observe (sc_dedup s) raw) (sink_Present (sc_sink s) f))
  | Err _ => Ok s
  | Panic => Panic
  end.

End Local.
Arguments Host : clear implicits.
Arguments Screen : clear implicits.
Arguments Call : clear implicits.

(** ** Lemmas *)

Lemma frame_valid f : frame_wf f -> validFrame f = true.
Proof.
  intros (Hw & Hh & Hl & _). unfold validFrame.
  rewrite !(proj2 (Z.leb_le _ _)), (proj2 (Z.eqb_eq _ _)) by (done || lia). done.
Qed.

(** What a frame presented by the guest does to the screen. *)
Lemma present_local_spec {K} `{Sink K} (s : Screen K) raw :
  bytes_ok raw ->
  present_local s raw =
    if suppressed (sc_dedup s) raw (sc_sink s) then Ok s else
    match parse_frame raw with
    | inl _ => Ok s
    | inr f => Ok (mkScreen (Cells f) (mkDedup raw) (sink_Present (sc_sink s) f))
    end.
Proof.
  intros Hb. unfold present_local. destruct (suppressed _ _ _); [done|].
  rewrite AppendDecodeFrame_parse by done. by destruct (parse_frame raw).
Qed.

Section Timing.
Context {M Src P : Type} `{MemoryLaws M} `{Source Src}.
Context (present_fn : P -> bytes -> res AbiErr P).
Abbreviation host := (Host M Src P).

(** Entry and exit of a call, and whether it handed the guest an event. *)
Definition enter (c : Call M) : Z :=
  match c with CallRecv t0 _ _ _ _ _ => t0 | CallPresent t0 _ _ _ _ _ => t0 end.
Definition leave (c : Call M) : Z :=
  match c with CallRecv _ t1 _ _ _ _ => t1 | CallPresent _ t1 _ _ _ _ => t1 end.
Definition delivered (c : Call M) (n : Z) : bool :=
  match c with CallRecv _ _ _ _ _ _ => 0 <=? n | CallPresent _ _ _ _ _ _ => false end.

(** Some frame's compute, from the return of a [recv] that delivered an event to
    the guest's next call (or its end), lasted at least [timeout]. *)
Fixpoint overran (timeout : Z) (cs : list (Call M)) (ns : list Z) (tend : Z) : bool :=
  match cs, ns with
  | c :: cs', n :: ns' =>
    (delivered c n && (leave c + timeout <=? match cs' with [] => tend | c' :: _ => enter c' end))
    || overran timeout cs' ns' tend
  | _, _ => false
  end.

(** A source that, from the states satisfying [I], produces only events that the
    format can carry and whose encoding is short. *)
Definition sane_source (I : Src -> Prop) : Prop :=
  forall (src src' : Src) r, I src -> src_Next src = (src', r) ->
    I src' /\ forall ev, r = Some ev -> event_wf ev /\ len (event_wire ev) < 2 ^ 31.

Context (I : Src -> Prop).
Hypothesis Hsrc : sane_source I.

(** What a [recv] does to the frame watchdog, and what it hands over. *)
Lemma recv_spec (h : host) t0 t1 paced ptr cap h' n :
  I (h_src h) -> recv h t0 t1 paced ptr cap = Ok (h', n) ->
  I (h_src h') /\
  h_wd h' = (if 0 <=? n then arm (disarm (elapse (h_wd h) t0)) t1 else disarm (elapse (h_wd h) t0)) /\
  h_present h' = h_present h /\
  (n = -1 \/ 0 <= n <= cap /\ exists src ev, src_Next (h_src h) = (src, Some ev) /\ h_src h' = src /\
     n = len (event_wire ev) /\ mem_read (h_mem h') (u32 ptr) n = Some (event_wire ev)).
Proof.
  unfold recv. intros Hi Hr. destruct (src_Next (h_src h)) as [src r] eqn:Hs.
  destruct (Hsrc _ _ _ Hi Hs) as [Hi' Hev]. destruct r as [ev|]; [|by simplify_eq; auto].
  destruct (negb paced); [by simplify_eq; auto|].
  rewrite AppendEvent_wire in Hr. cbn [rbind] in Hr.
  destruct (Hev ev eq_refl) as [_ Hl]. len_pos.
  rewrite i32_small in Hr by (unfold is_i32; lia).
  destruct (cap <? len (event_wire ev)) eqn:Hc; [by simplify_eq; auto|]. apply Z.ltb_ge in Hc.
  destruct (mem_write _ _ _) as [m ok] eqn:Hw. destruct ok; cbn [negb] in Hr; [|by simplify_eq; auto].
  injection Hr as <- <-. rewrite (proj2 (Z.leb_le _ _)) by lia. split_and!; [done|done|done|].
  right. split; [lia|]. exists src, ev. split_and!; [done|done|done|]. by eapply write_read.
Qed.

Lemma recv_total (h : host) t0 t1 paced ptr cap : no_panic (recv h t0 t1 paced ptr cap).
Proof.
  unfold recv. destruct (src_Next _) as [src [ev|]]; [|done]. destruct (negb paced); [done|].
  rewrite AppendEvent_wire. cbn [rbind]. destruct (_ <? _); [done|].
  by destruct (mem_write _ _ _) as [m []].
Qed.

Lemma present_wd (h h' : host) t0 t1 allowed ptr length :
  present present_fn h t0 t1 allowed ptr length = Ok h' -> h_wd h' = disarm (elapse (h_wd h) t0) /\ h_src h' = h_src h.
Proof.
  unfold present. intros Hp. destruct (negb allowed); [by simplify_eq|].
  destruct (_ || _); [by simplify_eq|]. destruct (mem_read _ _ _); [|by simplify_eq].
  apply rbind_ok in Hp as (p & _ & Hp). by simplify_eq.
Qed.

Definition next_instant (cs : list (Call M)) (tend : Z) : Z :=
  match cs with [] => tend | c :: _ => enter c end.

(** Whether a pending timer fires before the instant [t]. *)
Definition due (w : watchdog) (t : Z) : bool :=
  match wd_deadline w with Some d => d <=? t | None => false end.

Lemma elapse_fired w t : wd_fired (elapse w t) = wd_fired w || due w t.
Proof.
  unfold elapse, due. destruct (wd_deadline w); [|by rewrite orb_false_r].
  destruct (_ <=? _); by rewrite ?orb_true_r, ?orb_false_r.
Qed.

Lemma elapse_timeout w t : wd_timeout (elapse w t) = wd_timeout w.
Proof. unfold elapse. destruct (wd_deadline w); [|done]. by destruct (_ <=? _). Qed.

Lemma arm_disarm_due w t0 t1 t :
  wd_timeout (arm (disarm (elapse w t0)) t1) = wd_timeout w /\
  wd_fired (arm (disarm (elapse w t0)) t1) = wd_fired w || due w t0 /\
  due (arm (disarm (elapse w t0)) t1) t = (0 <? wd_timeout w) && (t1 + wd_timeout w <=? t).
Proof.
  unfold arm. cbn [disarm wd_timeout wd_fired wd_deadline]. rewrite elapse_timeout.
  destruct (wd_timeout w <=? 0) eqn:Hz; zbool; cbn [due disarm wd_timeout wd_fired wd_deadline].
  - rewrite elapse_timeout, elapse_fired, (proj2 (Z.ltb_ge 0 _)) by lia. done.
  - rewrite elapse_fired, (proj2 (Z.ltb_lt 0 _)) by lia. done.
Qed.

Lemma guest_calls_fired cs (h h' : host) ns tend :
  I (h_src h) -> guest_calls present_fn h cs = Ok (h', ns) ->
  wd_timeout (h_wd h') = wd_timeout (h_wd h) /\
  wd_fired (h_wd h') || due (h_wd h') tend =
    wd_fired (h_wd h) || due (h_wd h) (next_instant cs tend)
    || ((0 <? wd_timeout (h_wd h)) && overran (wd_timeout (h_wd h)) cs ns tend).
Proof.
  revert h ns. induction cs as [|c cs IH]; intros h ns Hi Hg.
  { cbn in Hg. simplify_eq. cbn. by rewrite andb_false_r, orb_false_r. }
  destruct c as [t0 t1 mem paced ptr cap|t0 t1 mem allowed ptr length]; cbn [guest_calls] in Hg.
  - apply rbind_ok in Hg as ([h1 n] & Hr & Hg). apply rbind_ok in Hg as ([h2 ns'] & Hg & He).
    injection He as -> <-. destruct (recv_spec (with_mem h mem) _ _ _ _ _ _ _ Hi Hr) as (Hi' & Hw & _). cbn [h_wd with_mem] in Hw.
    destruct (IH _ _ Hi' Hg) as [Ht Hf]. rewrite Ht, Hf, Hw.
    destruct (arm_disarm_due (h_wd h) t0 t1 (next_instant cs tend)) as (A1 & A2 & A3).
    cbn [overran next_instant enter leave delivered]. fold (next_instant cs tend).
    destruct (0 <=? n); cbn [andb]; rewrite ?A1, ?A2, ?A3.
    + split; [done|]. rewrite andb_orb_distrib_r. by rewrite orb_assoc.
    + cbn [disarm wd_timeout wd_fired due wd_deadline]. rewrite elapse_timeout, elapse_fired.
      by rewrite orb_false_r.
  - apply rbind_ok in Hg as (h1 & Hr & Hg). apply rbind_ok in Hg as ([h2 ns'] & Hg & He).
    injection He as -> <-. apply present_wd in Hr as [Hr Hsr]. cbn [h_wd h_src with_mem] in Hr, Hsr.
    assert (Hi' : I (h_src h1)) by by rewrite Hsr.
    destruct (IH _ _ Hi' Hg) as [Ht Hf]. rewrite Ht, Hf, Hr.
    cbn [overran next_instant enter leave delivered disarm wd_timeout wd_fired due wd_deadline andb].
    rewrite elapse_timeout, elapse_fired. by rewrite orb_false_r.
Qed.

End Timing.

(** ** Theorems *)

Section Theorems.
Context {M Src P : Type} `{MemoryLaws M} `{Source Src}.
Context (present_fn : P -> bytes -> res AbiErr P).

(** (one event per receive): [recv] never panics; it either returns -1 or puts
    into guest memory, within the capacity the guest gave, exactly the bytes of
    the source's next event, which the guest's decoder reads back as that event,
    and returns their length.  It presents nothing. *)
Theorem recv_exact (I : Src -> Prop) (h : Host M Src P) t0 t1 paced ptr cap :
  sane_source I -> I (h_src h) ->
  no_panic (recv h t0 t1 paced ptr cap) /\
  forall h' n, recv h t0 t1 paced ptr cap = Ok (h', n) ->
    h_present h' = h_present h /\
    (n = -1 \/ 0 <= n <= cap /\ exists src ev b, src_Next (h_src h) = (src, Some ev) /\ h_src h' = src /\
       mem_read (h_mem h') (u32 ptr) n = Some b /\ DecodeEvent b = Ok ev).
Proof.
  intros Hsrc Hi. split; [apply recv_total|]. intros h' n Hr.
  destruct (recv_spec I Hsrc _ _ _ _ _ _ _ _ Hi Hr) as (_ & _ & Hp & Hc). split; [done|].
  destruct Hc as [->|[Hn (src & ev & Hs & Hs' & -> & Hm)]]; [by left|right]. split; [done|].
  exists src, ev, (event_wire ev). split_and!; [done|done|done|].
  apply DecodeEvent_wire. by eapply (Hsrc _ _ _ Hi Hs).
Qed.

(** C35 (the frame deadline is exact): a session with invalid limits never starts
    a guest.  Otherwise the frame watchdog has fired at the end exactly when
    [FrameTimeout] is positive and some frame's compute, from the return of a
    [recv] that delivered an event to the guest's next host call or its end, took
    at least [FrameTimeout]: time spent waiting for input is not charged, nor is
    compute after [present]; and a guest that was stopped is reported with
    [ErrFrameDeadline] exactly then. *)
Theorem frame_deadline_exact (I : Src -> Prop) lim (src : Src) (mem : M) (p : P) start tend cs e ctxErr sessDeadline oh r :
  sane_source I -> I src ->
  runGuestEncoded present_fn lim src mem p start tend cs e ctxErr sessDeadline = Ok (oh, r) ->
  (oh = None <-> validateLimits lim <> None) /\
  forall h, oh = Some h ->
    let init := mkHost (new_watchdog (FrameTimeout lim))
                  (arm (new_watchdog (effectiveSessionTimeout lim)) start) src [] mem p in
    exists h1 ns, guest_calls present_fn init cs = Ok (h1, ns) /\
      wd_fired (h_wd h) = (0 <? FrameTimeout lim) && overran (FrameTimeout lim) cs ns tend /\
      (e <> GuestReturned -> r = Some ErrFrameDeadline <-> wd_fired (h_wd h) = true).
Proof.
  intros Hsrc Hi Hr. unfold runGuestEncoded in Hr. destruct (validateLimits lim) as [err|] eqn:Hv.
  { injection Hr as <- <-. by split. }
  apply rbind_ok in Hr as ([h1 ns] & Hg & Hr). injection Hr as <- <-. split; [by split|].
  intros h [= <-]. exists h1, ns. split; [done|].
  destruct (guest_calls_fired present_fn I Hsrc cs (mkHost _ _ src _ _ _) _ _ tend Hi Hg) as [_ Hf].
  cbn [h_wd disarm wd_fired]. rewrite elapse_fired. split; [exact Hf|].
  intros He. destruct e; [done|..]; cbn [run_result h_wd disarm wd_fired]; rewrite elapse_fired.
  all: destruct (_ || due _ _); [done|]. all: split; [|done]; repeat case_match; done.
Qed.

End Theorems.

(** A scripted source. *)
#[export] Instance list_source : Source (list Event) := fun evs =>
  match evs with [] => ([], None) | e :: evs => (evs, Some e) end.

Definition key_x : Event := mkEvent KindKey KeyRune 120 0 0 0 [] [] 0 0 0 0 0.

Lemma key_x_sane : event_wf key_x /\ len (event_wire key_x) < 2 ^ 31.
Proof.
  split; [|reflexivity]. unfold event_wf, is_u8, is_u16, is_i32, bytes_ok. cbn.
  split_and!; try lia; try done; constructor.
Qed.

Lemma keys_sane : sane_source (Forall (fun e => e = key_x)).
Proof.
  intros src src' r Hs Hn. destruct Hs as [|e src He Hs]; injection Hn as <- <-.
  - split; [constructor|done].
  - split; [done|]. intros ev [= <-]. rewrite He. apply key_x_sane.
Qed.

Definition no_screen (p : unit) (raw : bytes) : res AbiErr unit := Ok p.
Definition blank_memory : LinearMemory := mkLinear (replicate 64 0).

Lemma recv_exact_witness : exists h' b,
  recv (mkHost (P:=unit) (new_watchdog 10) (new_watchdog 10) [key_x] [] blank_memory tt) 0 5 true 8 32 = Ok (h', 13) /\
  mem_read (h_mem h') 8 13 = Some b /\ DecodeEvent b = Ok key_x.
Proof.
  destruct (recv_exact (Forall (fun e => e = key_x))
    (mkHost (P:=unit) (new_watchdog 10) (new_watchdog 10) [key_x] [] blank_memory tt) 0 5 true 8 32
    keys_sane (Forall_cons_2 _ _ _ eq_refl (Forall_nil_2 _))) as [_ Hr].
  eexists. destruct (Hr _ 13 eq_refl) as [_ [Hn|[_ (src & ev & b & Hs & _ & Hm & Hd)]]]; [discriminate Hn|].
  exists b. injection Hs as <- <-. split; [reflexivity|]. split; [exact Hm|exact Hd].
Defined.

(** Two frames, the second of which takes longer than the deadline. *)
Definition slow_session : list (Call LinearMemory) :=
  [CallRecv 0 1000 blank_memory true 8 32; CallPresent 1005 1006 blank_memory true 8 4;
   CallRecv 1010 3000 blank_memory true 8 32; CallPresent 3012 3013 blank_memory true 8 4].

Definition slow_limits : Limits := mkLimits 16 10 0 0 0.

Lemma frame_deadline_exact_witness : exists h,
  runGuestEncoded no_screen slow_limits [key_x; key_x] blank_memory tt 0 3020 slow_session GuestFailed false false
    = Ok (Some h, Some ErrFrameDeadline) /\
  wd_fired (h_wd h) = true.
Proof.
  assert (Hrun : exists h,
    runGuestEncoded no_screen slow_limits [key_x; key_x] blank_memory tt 0 3020 slow_session GuestFailed false false
      = Ok (Some h, Some ErrFrameDeadline)) by (eexists; vm_compute; reflexivity).
  destruct Hrun as [h Hr]. exists h. split; [exact Hr|].
  destruct (frame_deadline_exact no_screen (Forall (fun e => e = key_x)) slow_limits [key_x; key_x]
    blank_memory tt 0 3020 slow_session GuestFailed false false _ _ keys_sane
    (Forall_cons_2 _ _ _ eq_refl (Forall_cons_2 _ _ _ eq_refl (Forall_nil_2 _))) Hr) as [_ Ht].
  destruct (Ht _ eq_refl) as (h1 & ns & _ & _ & Hd). apply Hd; [discriminate|reflexivity].
Defined.
