(* ===== verification/Worker.v ===== *)
(** * The process boundary (internal/runner: procrunner.go, procworker.go)

    In production a guest runs in a disposable worker process; the parent keeps
    the capabilities and answers the worker's calls.  [serve] is the parent's
    handler, [call] one lock-step exchange over the framed protocol of
    Protocol.v, and the proxies are the worker's stand-ins for the capabilities,
    instances of the same interfaces as the real ones. *)

From S2P Require Import Prelude Abi AbiCaps Protocol KVStore Bus Timer Exec Egress Streams Render HostFns Devhost.

(** ** More interfaces *)

(** [io.Reader.Read] into a buffer of the given length: the bytes delivered and
    the error, if any. *)
Inductive ReadErr := ReadEOF | ReadError.
Class Reader (R : Type) := rd_Read : R -> Z -> R * bytes * option ReadErr.

(** ** Bounds (procrunner.go) *)

Definition maxEncodedFrame : Z := 8 + 150000 * 11.
Definition maxWorkerOutput : Z := Z.shiftl 64 10.
Definition maxWorkerInput : Z := Z.shiftl 64 10.
Definition maxWorkerError : Z := Z.shiftl 64 10.
Definition maxSessionLog : Z := Z.shiftl 64 10.
Definition maxEncodedExec : Z := 4 + ExecMaxName + 4 + ExecMaxArgs * (4 + ExecMaxArg).

Definition maxWorkerPayload (o : Z) : Z :=
  if (o =? OpRecv) || (o =? OpAuth) then 0
  else if o =? OpInput then 4
  else if o =? OpPresent then maxEncodedFrame
  else if (o =? OpKVGet) || (o =? OpKVDel) then KVMaxKey
  else if o =? OpKVSet then 2 + KVMaxKey + KVMaxValue
  else if o =? OpKVList then 2 + KVMaxKey
  else if o =? OpKVCAS then 2 + KVMaxKey + KVHashSize + KVMaxValue
  else if o =? OpBusSub then BusMaxTopic
  else if o =? OpBusPub then 2 + BusMaxTopic + BusMaxData
  else if o =? OpEnv then EnvMaxKey
  else if o =? OpFetch then maxEncodedFetch
  else if o =? OpExec then maxEncodedExec
  else if o =? OpTimerStart then 9
  else if o =? OpTimerCancel then 4
  else if o =? OpDone then 8 + maxWorkerError + GoodbyeMaxLen + maxSessionLog
  else if (o =? OpOutput) || (o =? OpOutputStderr) then maxWorkerOutput
  else 0.

Definition stdinOK : Z := 0.
Definition stdinEOF : Z := 1.
Definition stdinError : Z := 2.

(** Why a session ends on the parent's side. *)
Inductive ServeErr := SErrProtocol | SErrOutput.

Section Worker.
Context {St B A E F C T Src K R W : Type}.
Context `{Store St} `{Bus B} `{Auth A} `{Env E} `{Fetcher F} `{Commander C} `{timerService T}
        `{Source Src} `{Sink K} `{Reader R} `{Writer W}.

(** ** The parent *)

(** Capabilities, input, output and the scratch state of [procSession].
    [p_sub]: the session has a bus subscription. *)
Record Parent := mkParent {
  p_KV : option St; p_Bus : option B; p_sub : bool; p_Auth : option A; p_Env : option E;
  p_Fetch : option F; p_Exec : option C; p_timers : option T;
  p_src : option Src; p_sink : option K;
  p_Stdin : option R; p_Stdout : option W; p_Stderr : option W;
  sess_ev : bytes; sess_cells : list Cell; sess_dedup : frameDedup }.

Definition set_KV p x := mkParent x (p_Bus p) (p_sub p) (p_Auth p) (p_Env p) (p_Fetch p) (p_Exec p)
  (p_timers p) (p_src p) (p_sink p) (p_Stdin p) (p_Stdout p) (p_Stderr p) (sess_ev p) (sess_cells p) (sess_dedup p).
Definition set_Bus p x := mkParent (p_KV p) x (p_sub p) (p_Auth p) (p_Env p) (p_Fetch p) (p_Exec p)
  (p_timers p) (p_src p) (p_sink p) (p_Stdin p) (p_Stdout p) (p_Stderr p) (sess_ev p) (sess_cells p) (sess_dedup p).
Definition set_Auth p x := mkParent (p_KV p) (p_Bus p) (p_sub p) x (p_Env p) (p_Fetch p) (p_Exec p)
  (p_timers p) (p_src p) (p_sink p) (p_Stdin p) (p_Stdout p) (p_Stderr p) (sess_ev p) (sess_cells p) (sess_dedup p).
Definition set_Env p x := mkParent (p_KV p) (p_Bus p) (p_sub p) (p_Auth p) x (p_Fetch p) (p_Exec p)
  (p_timers p) (p_src p) (p_sink p) (p_Stdin p) (p_Stdout p) (p_Stderr p) (sess_ev p) (sess_cells p) (sess_dedup p).
Definition set_Fetch p x := mkParent (p_KV p) (p_Bus p) (p_sub p) (p_Auth p) (p_Env p) x (p_Exec p)
  (p_timers p) (p_src p) (p_sink p) (p_Stdin p) (p_Stdout p) (p_Stderr p) (sess_ev p) (sess_cells p) (sess_dedup p).
Definition set_Exec p x := mkParent (p_KV p) (p_Bus p) (p_sub p) (p_Auth p) (p_Env p) (p_Fetch p) x
  (p_timers p) (p_src p) (p_sink p) (p_Stdin p) (p_Stdout p) (p_Stderr p) (sess_ev p) (sess_cells p) (sess_dedup p).
Definition set_timers p x := mkParent (p_KV p) (p_Bus p) (p_sub p) (p_Auth p) (p_Env p) (p_Fetch p) (p_Exec p)
  x (p_src p) (p_sink p) (p_Stdin p) (p_Stdout p) (p_Stderr p) (sess_ev p) (sess_cells p) (sess_dedup p).
Definition set_src p x ev := mkParent (p_KV p) (p_Bus p) (p_sub p) (p_Auth p) (p_Env p) (p_Fetch p) (p_Exec p)
  (p_timers p) x (p_sink p) (p_Stdin p) (p_Stdout p) (p_Stderr p) ev (sess_cells p) (sess_dedup p).
Definition set_sink p x cells dedup := mkParent (p_KV p) (p_Bus p) (p_sub p) (p_Auth p) (p_Env p) (p_Fetch p)
  (p_Exec p) (p_timers p) (p_src p) x (p_Stdin p) (p_Stdout p) (p_Stderr p) (sess_ev p) cells dedup.
Definition set_Stdin p x := mkParent (p_KV p) (p_Bus p) (p_sub p) (p_Auth p) (p_Env p) (p_Fetch p) (p_Exec p)
  (p_timers p) (p_src p) (p_sink p) x (p_Stdout p) (p_Stderr p) (sess_ev p) (sess_cells p) (sess_dedup p).
Definition set_Stdout p x := mkParent (p_KV p) (p_Bus p) (p_sub p) (p_Auth p) (p_Env p) (p_Fetch p) (p_Exec p)
  (p_timers p) (p_src p) (p_sink p) (p_Stdin p) x (p_Stderr p) (sess_ev p) (sess_cells p) (sess_dedup p).
Definition set_Stderr p x := mkParent (p_KV p) (p_Bus p) (p_sub p) (p_Auth p) (p_Env p) (p_Fetch p) (p_Exec p)
  (p_timers p) (p_src p) (p_sink p) (p_Stdin p) (p_Stdout p) x (sess_ev p) (sess_cells p) (sess_dedup p).

(** [serve] answers one request with the payload of an [opResp] message, or
    ends the session with an error.  One definition per case of its switch. *)
Abbreviation answer := (Parent * res ServeErr bytes)%type.

Definition serve_recv (p : Parent) : answer :=
  match p_src p with
  | None => (p, Err SErrProtocol)
  | Some src =>
    let '(src, r) := src_Next src in
    match r with
    | None => (set_src p (Some src) (sess_ev p), Ok [0])
    | Some ev =>
      match AppendEvent (sess_ev p) ev with
      | Ok enc => (set_src p (Some src) enc, Ok (1 :: enc))
      | _ => (set_src p (Some src) (sess_ev p), Panic)
      end
    end
  end.

Definition serve_present (p : Parent) (payload : bytes) : answer :=
  match p_sink p with
  | None => (p, Err SErrProtocol)
  | Some sink =>
    if suppressed (sess_dedup p) payload sink then (p, Ok []) else
    match AppendDecodeFrame (sess_cells p) payload with
    | Panic => (p, Panic)
    | Err _ => (p, Err SErrProtocol)
    | Ok (f, cells) =>
      if negb (validFrame f) then (p, Err SErrProtocol) else
      (set_sink p (Some (sink_Present sink f)) cells (observe (sess_dedup p) payload), Ok [])
    end
  end.

Definition serve_kvget (p : Parent) (payload : bytes) : answer :=
  match p_KV p with
  | None => (p, Ok [2])
  | Some kv =>
    if (len payload =? 0) || (KVMaxKey <? len payload) then (p, Ok [2]) else
    let '(kv, r) := kv_Get kv payload in
    let p := set_KV p (Some kv) in
    match r with
    | inl _ => (p, Ok [2])
    | inr None => (p, Ok [1])
    | inr (Some val) => (p, Ok (0 :: val))
    end
  end.

Definition serve_kvset (p : Parent) (payload : bytes) : answer :=
  match decodeKeyValue payload with
  | Ok (Some (key, val)) =>
    match p_KV p with
    | None => (p, Ok [2])
    | Some kv =>
      if (len key =? 0) || (KVMaxKey <? len key) || (KVMaxValue <? len val) then (p, Ok [2]) else
      let '(kv, err) := kv_Set kv key val in
      let p := set_KV p (Some kv) in
      match err with
      | Some ErrQuota => (p, Ok [1])
      | Some _ => (p, Ok [2])
      | None => (p, Ok [0])
      end
    end
  | Ok None => (p, Ok [2])
  | Err e => (p, Err e)
  | Panic => (p, Panic)
  end.

Definition serve_kvdel (p : Parent) (payload : bytes) : answer :=
  match p_KV p with
  | None => (p, Ok [2])
  | Some kv =>
    if (len payload =? 0) || (KVMaxKey <? len payload) then (p, Ok [2]) else
    let '(kv, err) := kv_Delete kv payload in
    let p := set_KV p (Some kv) in
    match err with
    | Some _ => (p, Ok [2])
    | None => (p, Ok [0])
    end
  end.

Definition serve_kvlist (p : Parent) (payload : bytes) : answer :=
  match decodeKVListRequest payload with
  | Ok (Some (prefix, limit)) =>
    match p_KV p with
    | None => (p, Ok [1])
    | Some kv =>
      if (KVMaxKey <? len prefix) || (limit <? 1) || (KVMaxList <? limit) then (p, Ok [1]) else
      let '(kv, r) := kv_List kv prefix limit in
      let p := set_KV p (Some kv) in
      match r with
      | inl _ => (p, Ok [1])
      | inr keys =>
        if (limit <? len keys) || (KVMaxList <? len keys) then (p, Ok [1])
        else (p, Ok (0 :: EncodeKVList keys))
      end
    end
  | Ok None => (p, Ok [1])
  | Err e => (p, Err e)
  | Panic => (p, Panic)
  end.

Definition serve_kvcas (p : Parent) (payload : bytes) : answer :=
  match decodeKVCAS payload with
  | Ok (Some (key, expected, value)) =>
    match p_KV p with
    | None => (p, Ok [3])
    | Some kv =>
      if (KVMaxKey <? len key) || (KVMaxValue <? len value) then (p, Ok [3]) else
      let '(kv, err) := kv_CompareAndSwap kv key expected value in
      (set_KV p (Some kv), Ok [match err with
                               | None => 0
                               | Some ErrConflict => 1
                               | Some ErrQuota => 2
                               | Some _ => 3
                               end])
    end
  | Ok None => (p, Ok [3])
  | Err e => (p, Err e)
  | Panic => (p, Panic)
  end.

Definition serve_bussub (p : Parent) (payload : bytes) : answer :=
  if (len payload =? 0) || (BusMaxTopic <? len payload) then (p, Err SErrProtocol) else
  match p_Bus p with
  | Some bus =>
    if p_sub p then
      let '(bus, refused) := bus_Subscribe bus payload in
      (set_Bus p (Some bus), Ok [if (refused : bool) then 1 else 0])
    else (p, Ok [0])
  | None => (p, Ok [0])
  end.

Definition serve_buspub (p : Parent) (payload : bytes) : answer :=
  match decodeKeyValue payload with
  | Ok (Some (topic, data)) =>
    if (len topic =? 0) || (BusMaxTopic <? len topic) || (BusMaxData <? len data)
    then (p, Err SErrProtocol) else
    match p_Bus p with
    | Some bus =>
      let '(bus, n) := bus_Publish bus topic data in
      (set_Bus p (Some bus), Ok (le_bytes 4 (u32 n)))
    | None => (p, Ok (le_bytes 4 (u32 0)))
    end
  | Ok None => (p, Err SErrProtocol)
  | Err e => (p, Err e)
  | Panic => (p, Panic)
  end.

Definition serve_auth (p : Parent) (payload : bytes) : answer :=
  if negb (len payload =? 0) then (p, Err SErrProtocol) else
  match p_Auth p with
  | None => (p, Ok [0])
  | Some a =>
    let '(a, id) := auth_Whoami a in
    match EncodeIdentity (to_abi id) with
    | Ok enc => (set_Auth p (Some a), Ok (1 :: enc))
    | _ => (set_Auth p (Some a), Panic)
    end
  end.

Definition serve_env (p : Parent) (payload : bytes) : answer :=
  if (len payload =? 0) || (EnvMaxKey <? len payload) then (p, Err SErrProtocol) else
  match p_Env p with
  | None => (p, Ok [0])
  | Some e =>
    let '(e, r) := env_Get e payload in
    match r with
    | None => (set_Env p (Some e), Ok [0])
    | Some val => (set_Env p (Some e), Ok (1 :: val))
    end
  end.

Definition serveFetch (p : Parent) (payload : bytes) : answer :=
  match p_Fetch p with
  | None => (p, Ok [4])
  | Some f =>
    match DecodeFetchRequest payload with
    | Panic => (p, Panic)
    | Err _ => (p, Ok [3])
    | Ok req =>
      if (FetchMaxMethod <? len (Method req)) || (FetchMaxURL <? len (URL req))
         || (FetchMaxBody <? len (req_Body req))
      then (p, Ok [3]) else
      let '(f, r) := fetch_Fetch f req in
      let p := set_Fetch p (Some f) in
      match r with
      | inl ErrEgressDenied => (p, Ok [1])
      | inl _ => (p, Ok [3])
      | inr resp => (p, Ok (0 :: EncodeFetchResponse resp))
      end
    end
  end.

Definition serve_exec (p : Parent) (payload : bytes) : answer :=
  match p_Exec p with
  | None => (p, Ok [1])
  | Some c =>
    match DecodeExecRequest payload with
    | Panic => (p, Panic)
    | Err _ => (p, Ok [2])
    | Ok req =>
      if negb (validExecRequest req) then (p, Ok [2]) else
      let '(c, r) := cmd_Run c req in
      let p := set_Exec p (Some c) in
      match r with
      | inl ErrExecTooLarge => (p, Ok [2])
      | inl _ => (p, Ok [3])
      | inr resp =>
        if (ExecMaxOutput <? len (Stdout resp)) || (ExecMaxOutput <? len (Stderr resp))
        then (p, Ok [2]) else (p, Ok (0 :: EncodeExecResponse resp))
      end
    end
  end.

Definition serve_timerstart (p : Parent) (payload : bytes) : answer :=
  match p_timers p with
  | None => (p, Err SErrProtocol)
  | Some t =>
    if negb (len payload =? 9) then (p, Err SErrProtocol) else
    match (let? b8 := index payload 8 in let? d := slice payload 0 8 in Ok (E:=ServeErr) (b8, d)) with
    | Ok (b8, d) =>
      if 1 <? b8 then (p, Err SErrProtocol) else
      let '(t, result) := tm_Start t (i64 (le_val d)) (b8 =? 1) in
      (set_timers p (Some t), Ok (le_bytes 4 (u32 result)))
    | Err e => (p, Err e)
    | Panic => (p, Panic)
    end
  end.

Definition serve_timercancel (p : Parent) (payload : bytes) : answer :=
  match p_timers p with
  | None => (p, Err SErrProtocol)
  | Some t =>
    if negb (len payload =? 4) then (p, Err SErrProtocol) else
    let '(t, active) := tm_Cancel t (le_val payload) in
    (set_timers p (Some t), Ok [if (active : bool) then 1 else 0])
  end.

(** A missing stream discards. *)
Definition serve_output (p : Parent) (stderr : bool) (payload : bytes) : answer :=
  if maxWorkerOutput <? len payload then (p, Err SErrProtocol) else
  match (if stderr then p_Stderr p else p_Stdout p) with
  | None => (p, Ok [])
  | Some w =>
    let '(w, _, e) := wr w payload in
    let p := if stderr then set_Stderr p (Some w) else set_Stdout p (Some w) in
    if (e : bool) then (p, Err SErrOutput) else (p, Ok [])
  end.

Definition serve_input (p : Parent) (payload : bytes) : answer :=
  if negb (len payload =? 4) then (p, Err SErrProtocol) else
  let requested := le_val payload in
  if (requested =? 0) || (maxWorkerInput <? requested) then (p, Err SErrProtocol) else
  match p_Stdin p with
  | None => (p, Ok [stdinEOF])
  | Some r =>
    let '(r, data, err) := rd_Read r requested in
    let p := set_Stdin p (Some r) in
    if requested <? len data then (p, Err SErrProtocol) else
    let status := match err with
                  | None => stdinOK
                  | Some ReadEOF => stdinEOF
                  | Some ReadError => stdinError
                  end in
    (p, Ok (status :: data))
  end.

Definition serve (p : Parent) (o : Z) (payload : bytes) : answer :=
  if o =? OpRecv then serve_recv p
  else if o =? OpPresent then serve_present p payload
  else if o =? OpKVGet then serve_kvget p payload
  else if o =? OpKVSet then serve_kvset p payload
  else if o =? OpKVDel then serve_kvdel p payload
  else if o =? OpKVList then serve_kvlist p payload
  else if o =? OpKVCAS then serve_kvcas p payload
  else if o =? OpBusSub then serve_bussub p payload
  else if o =? OpBusPub then serve_buspub p payload
  else if o =? OpAuth then serve_auth p payload
  else if o =? OpEnv then serve_env p payload
  else if o =? OpFetch then serveFetch p payload
  else if o =? OpExec then serve_exec p payload
  else if o =? OpTimerStart then serve_timerstart p payload
  else if o =? OpTimerCancel then serve_timercancel p payload
  else if (o =? OpOutput) || (o =? OpOutputStderr) then serve_output p (o =? OpOutputStderr) payload
  else if o =? OpInput then serve_input p payload
  else (p, Err SErrProtocol).

(** ** One exchange

    The pipes carry bytes faithfully (a [sink] on either side); [ses_alive] is
    false once the parent has returned and closed them. *)
Record Session := mkSession {
  ses_parent : Parent; ses_alive : bool;
  ses_pbuf : bytes;                      (* procSession.buf *)
  ses_wbuf : bytes }.                    (* workerRPC.buf *)

(** A pooled array of [protocol.Write]. *)
Definition scratch : bytes := replicate 4101 0.

(** One turn of the loop in [ProcessRunner.run] on the bytes [sent] by the
    worker: the reply's bytes, or [None] when the parent returns. *)
Definition parent_turn (p : Parent) (buf sent : bytes) : Parent * bytes * option bytes :=
  match (AppendReadBounded sent buf (Some maxWorkerPayload)).2 with
  | Err (_, buf) => (p, buf, None)
  | Panic => (p, buf, None)
  | Ok (o, payload) =>
    if o =? OpDone then (p, payload, None) else
    let '(p, r) := serve p o payload in
    match r with
    | Ok reply =>
      let '(w, e) := Write scratch (mkSink []) OpResp reply in
      match e with
      | Ok _ => (p, payload, Some (sunk w))
      | _ => (p, payload, None)
      end
    | _ => (p, payload, None)
    end
  end.

(** [workerRPC.call]; [None] is a non-nil error. *)
Definition call (s : Session) (o : Z) (payload : bytes) : Session * option bytes :=
  let '(w, e) := Write scratch (mkSink []) o payload in
  match e with
  | Ok _ =>
    if negb (ses_alive s) then (s, None) else
    let '(p, pbuf, r) := parent_turn (ses_parent s) (ses_pbuf s) (sunk w) in
    match r with
    | None => (mkSession p false pbuf (ses_wbuf s), None)
    | Some reply =>
      match (AppendRead reply (ses_wbuf s)).2 with
      | Ok (ro, rp) =>
        (mkSession p true pbuf rp, if negb (ro =? OpResp) then None else Some rp)
      | Err (_, buf) => (mkSession p true pbuf buf, None)
      | Panic => (mkSession p true pbuf (ses_wbuf s), None)
      end
    end
  | _ => (s, None)
  end.

(** ** procworker.go: the proxies *)

Definition proxyKV_Get (s : Session) (key : bytes) : Session * (StoreErr + option bytes) :=
  let '(s, r) := call s OpKVGet key in
  match r with
  | None | Some [] => (s, inl errRPC)
  | Some (st :: rest) =>
    if st =? 0 then (s, inr (Some rest))
    else if st =? 1 then (s, inr None)
    else (s, inl errRPC)
  end.

Definition proxyKV_Set (s : Session) (key value : bytes) : Session * option StoreErr :=
  let '(s, r) := call s OpKVSet (encodeKeyValue key value) in
  match r with
  | None | Some [] => (s, Some errRPC)
  | Some (st :: _) =>
    if st =? 0 then (s, None)
    else if st =? 1 then (s, Some ErrQuota)
    else (s, Some errRPC)
  end.

Definition proxyKV_Delete (s : Session) (key : bytes) : Session * option StoreErr :=
  let '(s, r) := call s OpKVDel key in
  match r with
  | None | Some [] => (s, Some errRPC)
  | Some (st :: _) => if negb (st =? 0) then (s, Some errRPC) else (s, None)
  end.

Definition proxyKV_List (s : Session) (prefix : bytes) (limit : Z) : Session * (StoreErr + list bytes) :=
  let '(s, r) := call s OpKVList (encodeKVListRequest prefix limit) in
  match r with
  | None | Some [] => (s, inl errRPC)
  | Some (st :: rest) =>
    if negb (st =? 0) then (s, inl errRPC) else
    match DecodeKVList rest with
    | Ok keys => (s, inr keys)
    | _ => (s, inl errRPC)
    end
  end.

Definition proxyKV_CompareAndSwap (s : Session) (key expected value : bytes) : Session * option StoreErr :=
  let '(s, r) := call s OpKVCAS (encodeKVCAS key expected value) in
  match r with
  | None | Some [] => (s, Some errRPC)
  | Some (st :: _) =>
    if st =? 0 then (s, None)
    else if st =? 1 then (s, Some ErrConflict)
    else if st =? 2 then (s, Some ErrQuota)
    else (s, Some errRPC)
  end.

#[export] Instance proxyKV : Store Session := {
  kv_Get := proxyKV_Get; kv_Set := proxyKV_Set; kv_Delete := proxyKV_Delete;
  kv_List := proxyKV_List; kv_CompareAndSwap := proxyKV_CompareAndSwap }.

Definition noIdentity : SessionIdentity := mkSessionIdentity [] false [] false [].

#[export] Instance proxyAuth : Auth Session := fun s =>
  let '(s, r) := call s OpAuth [] in
  match r with
  | None | Some [] => (s, noIdentity)
  | Some (st :: rest) =>
    if st =? 0 then (s, noIdentity) else
    match DecodeIdentity rest with
    | Ok id => (s, mkSessionIdentity (User id) (Authenticated id) (identityKindFromABI (id_Kind id)) (OwnsApp id) [])
    | _ => (s, noIdentity)
    end
  end.

#[export] Instance proxyEnv : Env Session := fun s key =>
  let '(s, r) := call s OpEnv key in
  match r with
  | None | Some [] => (s, None)
  | Some (st :: rest) => if st =? 0 then (s, None) else (s, Some rest)
  end.

#[export] Instance proxyFetch : Fetcher Session := fun s req =>
  let '(s, r) := call s OpFetch (EncodeFetchRequest req) in
  match r with
  | None | Some [] => (s, inl ErrFetchOther)
  | Some (st :: rest) =>
    if st =? 0 then
      match DecodeFetchResponse rest with
      | Ok resp => (s, inr resp)
      | _ => (s, inl ErrFetchOther)
      end
    else if st =? 1 then (s, inl ErrEgressDenied)
    else if st =? 4 then (s, inl errEgressUnavailable)
    else (s, inl ErrFetchOther)
  end.

#[export] Instance proxyExec : Commander Session := fun s req =>
  let '(s, r) := call s OpExec (EncodeExecRequest req) in
  match r with
  | None | Some [] => (s, inl ErrExecOther)
  | Some (st :: rest) =>
    if st =? 0 then
      match DecodeExecResponse rest with
      | Ok resp => (s, inr resp)
      | _ => (s, inl ErrExecOther)
      end
    else if st =? 2 then (s, inl ErrExecTooLarge)
    else (s, inl ErrExecOther)
  end.

Definition proxyBus_Publish (s : Session) (topic data : bytes) : Session * Z :=
  let '(s, r) := call s OpBusPub (encodeKeyValue topic data) in
  match r with
  | None => (s, 0)
  | Some rp => if len rp <? 4 then (s, 0) else (s, i32 (le_val (take 4 rp)))
  end.

Definition proxySubscriber_Subscribe (s : Session) (topic : bytes) : Session * bool :=
  let '(s, r) := call s OpBusSub topic in
  match r with
  | None => (s, true)
  | Some rp => (s, (0 <? len rp) && negb (nth 0 rp 0 =? 0))
  end.

#[export] Instance proxyBus : Bus Session := {
  bus_Publish := proxyBus_Publish; bus_Subscribe := proxySubscriber_Subscribe }.

Definition proxyTimers_Start (s : Session) (delay : Z) (recurring : bool) : Session * Z :=
  let '(s, r) := call s OpTimerStart (le_bytes 8 (u64 delay) ++ [if recurring then 1 else 0]) in
  match r with
  | None => (s, TimerErrInternal)
  | Some rp => if negb (len rp =? 4) then (s, TimerErrInternal) else (s, i32 (le_val rp))
  end.

Definition proxyTimers_Cancel (s : Session) (id : Z) : Session * bool :=
  let '(s, r) := call s OpTimerCancel (le_bytes 4 id) in
  match r with
  | None => (s, false)
  | Some rp => (s, (len rp =? 1) && (nth 0 rp 0 =? 1))
  end.

#[export] Instance proxyTimers : timerService Session := {
  tm_Start := proxyTimers_Start; tm_Cancel := proxyTimers_Cancel }.

#[export] Instance proxySource : Source Session := fun s =>
  let '(s, r) := call s OpRecv [] in
  match r with
  | None | Some [] => (s, None)
  | Some (st :: rest) =>
    if st =? 0 then (s, None) else
    match DecodeEvent rest with
    | Ok ev => (s, Some ev)
    | _ => (s, None)
    end
  end.

Definition rpc_present (s : Session) (raw : bytes) : Session := (call s OpPresent raw).1.

(** [proxyOutput.Write]: chunks of at most [maxWorkerOutput]; the result says
    how much was written and whether an error came back. *)
Fixpoint proxyOutput_loop (fuel : nat) (s : Session) (stderr : bool) (p : bytes) (written : Z)
  : Session * Z * bool :=
  match fuel with
  | O => (s, written, true)
  | S fuel' =>
    if negb (0 <? len p) then (s, written, false) else
    let n := Z.min (len p) maxWorkerOutput in
    let '(s, r) := call s (if stderr then OpOutputStderr else OpOutput) (take (Z.to_nat n) p) in
    match r with
    | None => (s, written, true)
    | Some _ => proxyOutput_loop fuel' s stderr (drop (Z.to_nat n) p) (written + n)
    end
  end.

Definition proxyOutput_Write (s : Session) (stderr : bool) (p : bytes) : Session * Z * bool :=
  proxyOutput_loop (S (length p)) s stderr p 0.

(** [proxyInput.Read] into a buffer of [n] bytes. *)
Definition proxyInput_Read (s : Session) (n : Z) : Session * bytes * option ReadErr :=
  if n =? 0 then (s, [], None) else
  let requested := Z.min n maxWorkerInput in
  let '(s, r) := call s OpInput (le_bytes 4 (u32 requested)) in
  match r with
  | None | Some [] => (s, [], Some ReadError)
  | Some (st :: data) =>
    if requested <? len data then (s, [], Some ReadError)
    else if st =? stdinOK then (s, data, None)
    else if st =? stdinEOF then (s, data, Some ReadEOF)
    else if st =? stdinError then (s, data, Some ReadError)
    else (s, [], Some ReadError)
  end.

End Worker.

Arguments Parent : clear implicits.
Arguments Session : clear implicits.

(** ** Start and end of a session *)

(** The capabilities a session holds, as [capMask] sees them. *)
Definition held {St B A E F C T Src K R W} (p : Parent St B A E F C T Src K R W) : CapSet :=
  mkCapSet (bool_decide (is_Some (p_KV p))) (bool_decide (is_Some (p_Bus p)))
    (bool_decide (is_Some (p_Auth p))) (bool_decide (is_Some (p_Env p)))
    (bool_decide (is_Some (p_Fetch p))) (bool_decide (is_Some (p_Exec p))).

(** The proxies the worker installs: one per presence bit. *)
Definition installed (capBits : Z) : CapSet :=
  let has b := negb (Z.land capBits b =? 0) in
  mkCapSet (has capKV) (has capBus) (has capAuth) (has capEnv) (has capFetch) (has capExec).

(** [RunWorker] on the bytes [input] of the first message.  [run] is the guest's
    run in the WebAssembly sandbox (TUI or CLI): the error text, empty for none,
    the goodbye message and the captured log.  The result is the final message
    to the parent. *)
Definition RunWorker (run : Limits -> bool -> CapSet -> list bytes -> bytes -> bytes * bytes * bytes)
    (input : bytes) : res ProtoErr bytes :=
  match (Read input).2 with
  | Err (e, _) => Err e
  | Panic => Panic
  | Ok (o, payload) =>
    if negb (o =? OpStart) then Err ErrProtocol else
    let? '(lim, cli, capBits, args, wasm) := decodeStart payload in
    let '(errStr, goodbye, logs) := run lim cli (installed capBits) args wasm in
    let '(w, r) := Write scratch (mkSink []) OpDone (encodeDone errStr goodbye logs) in
    let? _ := r in Ok (sunk w)
  end.

Inductive RunErr := RErrProtocol | RErrFrameDeadline | RErrGuest (msg : bytes).

Definition ErrFrameDeadline_Error : bytes := str "guest exceeded per-frame deadline; session terminated".

(** The [opDone] branch of [ProcessRunner.run]: what is stored in
    [*caps.Goodbye], what is written to the log, and the error returned. *)
Definition run_done (payload : bytes) : res RunErr (bytes * bytes * option RunErr) :=
  let? d := decodeDone payload in
  match d with
  | None => Err RErrProtocol
  | Some (errStr, goodbye, logBytes) =>
    if (maxWorkerError <? len errStr) || (GoodbyeMaxLen <? len goodbye) || (maxSessionLog <? len logBytes)
    then Err RErrProtocol else
    Ok (goodbye, logBytes,
        if bool_decide (errStr = []) then None
        else if bool_decide (errStr = ErrFrameDeadline_Error) then Some RErrFrameDeadline
        else Some (RErrGuest errStr))
  end.
