(* ===== verification/WorkerLaws.v ===== *)
(** * Isolation is transparent: theorems on the process boundary

    What a guest observes when its capabilities are the proxies of Worker.v,
    compared with the same capabilities held in process. *)

From S2P Require Import Prelude Abi AbiCaps Protocol Keys KVStore Bus Timer Exec Egress Streams Render HostFns Devhost Worker.

(** ** One exchange *)

Lemma writeAll_sink a p : writeAll (mkSink a) p = (mkSink (a ++ p), Ok tt).
Proof.
  unfold writeAll. destruct p as [|x p]; [cbn; by rewrite app_nil_r|].
  cbn [writeLoop length]. len_pos. rewrite len_cons, (proj2 (Z.ltb_lt _ _)) by len_lia. cbn [negb wr sink_writer sunk].
  rewrite (proj2 (Z.ltb_lt _ _)) by len_lia.
  rewrite slice_from_ok by len_lia. rewrite (proj2 (Z.eqb_neq _ _)) by len_lia.
  rewrite drop_ge; [done|]. unfold len; lia.
Qed.

Lemma Write_sink o payload :
  len payload <= MaxFrame -> Write scratch (mkSink []) o payload = (mkSink (frame_bytes o payload), Ok tt).
Proof.
  intros Hm. destruct (Write scratch (mkSink []) o payload) as [w r] eqn:Hw.
  assert (Hr : r = Ok tt).
  { unfold Write in Hw. rewrite (proj2 (Z.ltb_ge _ _)) in Hw by lia.
    destruct (len payload <=? inlineWriteMax) eqn:Hi; zbool.
    - rewrite inline_frame, writeAll_sink in Hw by done. by injection Hw as _ <-.
    - change (put (replicate 5 0) 0 o) with (Ok (E:=ProtoErr) ([o] ++ [0; 0; 0; 0] ++ [])) in Hw.
      cbn [rbind] in Hw. rewrite (put_slice_mid [o] [0; 0; 0; 0] []), !writeAll_sink in Hw by done.
      by injection Hw as _ <-. }
  subst r. destruct (Write_spec scratch (mkSink []) o payload w (Ok tt) eq_refl Hw) as (_ & Hok & _).
  destruct (Hok eq_refl) as [_ Hs]. destruct w. cbn in Hs. by rewrite Hs.
Qed.

Lemma Write_sink_refused o payload :
  MaxFrame < len payload -> Write scratch (mkSink []) o payload = (mkSink [], Err ErrProtocol).
Proof. intros Hm. unfold Write. by rewrite (proj2 (Z.ltb_lt _ _)). Qed.

Lemma len_keys_wire ks :
  Forall (fun k => 1 <= len k <= KVMaxKey) ks -> len (keys_wire ks) <= len ks * (2 + KVMaxKey).
Proof.
  induction 1 as [|k ks Hk _ IH]; [done|]. unfold keys_wire in *; cbn [map concat]; unfold field in *. len_lia.
Qed.

Lemma le4_wrap z : i32 (le_val (le_bytes 4 (u32 z))) = i32 z.
Proof. rewrite le_val_small by (apply Z.mod_pos_bound; lia). apply i32_u32. Qed.

Lemma maxWorkerPayload_bound o : maxWorkerPayload o <= MaxFrame.
Proof.
  unfold maxWorkerPayload. repeat case_match; vm_compute; congruence.
Qed.

(** Discharge the size bounds of an exchange. *)
Ltac bounds :=
  repeat match goal with |- context[maxWorkerPayload ?o] =>
    let v := eval vm_compute in (maxWorkerPayload o) in change (maxWorkerPayload o) with v end;
  change MaxFrame with 67108864;
  unfold key_ok, val_ok, KVMaxKey, KVMaxValue, KVMaxList, KVHashSize, BusMaxTopic, BusMaxData, EnvMaxKey in *;
  len_lia.

(** Refute the guards of a handler. *)
Ltac no_guard := rewrite ?(proj2 (Z.eqb_neq _ 0)), ?(proj2 (Z.ltb_ge _ _)) by bounds; cbn [orb].

Section Laws.
Context {St B A E F C T Src K R W : Type}.
Context `{Store St} `{Bus B} `{Auth A} `{Env E} `{Fetcher F} `{Commander C} `{timerService T}
        `{Source Src} `{Sink K} `{Reader R} `{Writer W}.
Abbreviation parent := (Parent St B A E F C T Src K R W).
Abbreviation session := (Session St B A E F C T Src K R W).

(** A request within its bound that the parent answers comes back as the answer,
    and the parent's state is the one its handler left. *)
Lemma call_ok (s : session) o payload p' reply :
  ses_alive s = true -> len payload <= maxWorkerPayload o -> o <> OpDone ->
  serve (ses_parent s) o payload = (p', Ok reply) -> len reply <= MaxFrame ->
  call s o payload = (mkSession p' true payload reply, Some reply).
Proof.
  intros Ha Hp Hd Hs Hr. pose proof (maxWorkerPayload_bound o).
  unfold call. rewrite Write_sink, Ha by lia. cbn [negb sunk].
  unfold parent_turn. rewrite <- (app_nil_r (frame_bytes o payload)), read_frame by (done || lia).
  cbn [snd]. rewrite (proj2 (Z.eqb_neq _ _)), Hs, Write_sink by done. cbn [sunk].
  unfold AppendRead. by rewrite <- (app_nil_r (frame_bytes OpResp reply)), read_frame.
Qed.

(** A request that the parent refuses ends the session; nothing more is served. *)
Lemma call_refused (s : session) o payload p' err :
  ses_alive s = true -> len payload <= maxWorkerPayload o -> o <> OpDone ->
  serve (ses_parent s) o payload = (p', Err err) ->
  call s o payload = (mkSession p' false payload (ses_wbuf s), None).
Proof.
  intros Ha Hp Hd Hs. pose proof (maxWorkerPayload_bound o).
  unfold call. rewrite Write_sink, Ha by lia. cbn [negb sunk].
  unfold parent_turn. rewrite <- (app_nil_r (frame_bytes o payload)), read_frame by (done || lia).
  cbn [snd]. by rewrite (proj2 (Z.eqb_neq _ _)), Hs by done.
Qed.

(** A request over its bound ends the session before any handler runs. *)
Lemma call_oversized (s : session) o payload :
  ses_alive s = true -> maxWorkerPayload o < len payload <= MaxFrame ->
  call s o payload = (mkSession (ses_parent s) false (ses_pbuf s) (ses_wbuf s), None).
Proof.
  intros Ha [Hp Hm]. unfold call. rewrite Write_sink, Ha by lia. cbn [negb sunk].
  unfold parent_turn. len_pos. unfold frame_bytes.
  rewrite app_comm_cons, read_oversized; [done| |cbn [within]; lia].
  change MaxFrame with 67108864 in Hm. unfold is_u32. lia.
Qed.

Lemma call_dead (s : session) o payload : ses_alive s = false -> call s o payload = (s, None).
Proof.
  intros Ha. unfold call. destruct (Z.leb_spec (len payload) MaxFrame).
  - by rewrite Write_sink, Ha.
  - by rewrite Write_sink_refused by lia.
Qed.

(** The session after an exchange that left the parent in [q]. *)
Definition attached (ses : session) (q : parent) : Prop :=
  ses_alive ses = true /\ ses_parent ses = q.

Lemma call_attached (s : session) o payload p' reply :
  ses_alive s = true -> len payload <= maxWorkerPayload o -> o <> OpDone ->
  serve (ses_parent s) o payload = (p', Ok reply) -> len reply <= MaxFrame ->
  exists s', call s o payload = (s', Some reply) /\ attached s' p'.
Proof. intros. eexists. split; [by apply call_ok|done]. Qed.

Lemma set_KV_id (p : parent) x : p_KV p = x -> set_KV p x = p.
Proof. intros <-. by destruct p. Qed.

(** ** Key/value calls *)

(** What the store reports, as the worker sees it. *)
Definition rpc_err (e : StoreErr) : StoreErr :=
  match e with ErrQuota => ErrQuota | ErrConflict => ErrConflict | _ => errRPC end.

Definition rpc_set_err (e : StoreErr) : StoreErr :=
  match e with ErrQuota => ErrQuota | _ => errRPC end.

Section KVCalls.
Context (ses : session) (s : St).
Hypothesis Halive : ses_alive ses = true.
Hypothesis Hkv : p_KV (ses_parent ses) = Some s.

Lemma proxy_get k s' r :
  key_ok k -> kv_Get s k = (s', r) -> (forall v, r = inr (Some v) -> val_ok v) ->
  exists ses', proxyKV_Get ses k = (ses', match r with inl _ => inl errRPC | inr o => inr o end) /\
    attached ses' (set_KV (ses_parent ses) (Some s')).
Proof.
  intros Hk Hg Hv.
  assert (Hs : serve (ses_parent ses) OpKVGet k =
    (set_KV (ses_parent ses) (Some s'),
     Ok match r with inl _ => [2] | inr None => [1] | inr (Some v) => 0 :: v end)).
  { change (serve (ses_parent ses) OpKVGet k) with (serve_kvget (ses_parent ses) k).
    unfold serve_kvget. rewrite Hkv, Hg. no_guard. by destruct r as [e|[v|]]. }
  apply call_attached in Hs as (ses' & Hc & Ha); [|done|bounds|done|].
  - exists ses'. split; [|done]. unfold proxyKV_Get. rewrite Hc. by destruct r as [e|[v|]].
  - destruct r as [e|[v|]]; [done| |done]. specialize (Hv v eq_refl). bounds.
Qed.

Lemma proxy_set k v s' e :
  key_ok k -> val_ok v -> kv_Set s k v = (s', e) ->
  exists ses', proxyKV_Set ses k v = (ses', option_map rpc_set_err e) /\
    attached ses' (set_KV (ses_parent ses) (Some s')).
Proof.
  intros Hk Hv Hg.
  assert (Hs : serve (ses_parent ses) OpKVSet (encodeKeyValue k v) =
    (set_KV (ses_parent ses) (Some s'),
     Ok match e with None => [0] | Some ErrQuota => [1] | Some _ => [2] end)).
  { change (serve (ses_parent ses) OpKVSet ?x) with (serve_kvset (ses_parent ses) x).
    unfold serve_kvset. rewrite decode_encodeKeyValue, Hkv, Hg by bounds. no_guard. by destruct e as [[]|]. }
  assert (Hl : len (encodeKeyValue k v) = 2 + len k + len v) by (unfold encodeKeyValue; len_lia).
  apply call_attached in Hs as (ses' & Hc & Ha); [|done|bounds|done|by destruct e as [[]|]].
  exists ses'. split; [|done]. unfold proxyKV_Set. rewrite Hc. by destruct e as [[]|].
Qed.

Lemma proxy_delete k s' e :
  key_ok k -> kv_Delete s k = (s', e) ->
  exists ses', proxyKV_Delete ses k = (ses', option_map (fun _ => errRPC) e) /\
    attached ses' (set_KV (ses_parent ses) (Some s')).
Proof.
  intros Hk Hg.
  assert (Hs : serve (ses_parent ses) OpKVDel k =
    (set_KV (ses_parent ses) (Some s'), Ok match e with None => [0] | Some _ => [2] end)).
  { change (serve (ses_parent ses) OpKVDel ?x) with (serve_kvdel (ses_parent ses) x).
    unfold serve_kvdel. rewrite Hkv, Hg. no_guard. by destruct e. }
  apply call_attached in Hs as (ses' & Hc & Ha); [|done|bounds|done|by destruct e].
  exists ses'. split; [|done]. unfold proxyKV_Delete. rewrite Hc. by destruct e.
Qed.

Lemma proxy_list p n s' r :
  len p <= KVMaxKey -> 1 <= n <= KVMaxList -> kv_List s p n = (s', r) ->
  (forall ks, r = inr ks -> fits ks /\ len ks <= n) ->
  exists ses', proxyKV_List ses p n = (ses', match r with inl _ => inl errRPC | inr ks => inr ks end) /\
    attached ses' (set_KV (ses_parent ses) (Some s')).
Proof.
  intros Hp Hn Hg Hf.
  assert (Hs : serve (ses_parent ses) OpKVList (encodeKVListRequest p n) =
    (set_KV (ses_parent ses) (Some s'),
     Ok match r with inl _ => [1] | inr ks => 0 :: EncodeKVList ks end)).
  { change (serve (ses_parent ses) OpKVList ?x) with (serve_kvlist (ses_parent ses) x).
    unfold serve_kvlist. rewrite decode_encodeKVListRequest, Hkv, Hg by (unfold is_u16; bounds). no_guard.
    destruct r as [e|ks]; [done|]. destruct (Hf ks eq_refl) as [[? _] ?]. by no_guard. }
  assert (Hl : len (encodeKVListRequest p n) = 2 + len p) by (unfold encodeKVListRequest; len_lia).
  apply call_attached in Hs as (ses' & Hc & Ha); [|done|bounds|done|].
  - exists ses'. split; [|done]. unfold proxyKV_List. rewrite Hc. destruct r as [e|ks]; [done|].
    change (negb (0 =? 0)) with false. cbv iota.
    change (DecodeKVList (EncodeKVList ks)) with (dec (enc ks)). by rewrite dec_enc by (by eapply Hf).
  - destruct r as [e|ks]; [done|]. destruct (Hf ks eq_refl) as [[Hc Hks] _].
    rewrite EncodeKVList_layout by done. pose proof (len_keys_wire ks Hks). bounds.
Qed.

Lemma proxy_cas k x v s' e :
  key_ok k -> len x = KVHashSize -> val_ok v -> kv_CompareAndSwap s k x v = (s', e) ->
  exists ses', proxyKV_CompareAndSwap ses k x v = (ses', option_map rpc_err e) /\
    attached ses' (set_KV (ses_parent ses) (Some s')).
Proof.
  intros Hk Hx Hv Hg.
  assert (Hs : serve (ses_parent ses) OpKVCAS (encodeKVCAS k x v) =
    (set_KV (ses_parent ses) (Some s'),
     Ok [match e with None => 0 | Some ErrConflict => 1 | Some ErrQuota => 2 | Some _ => 3 end])).
  { change (serve (ses_parent ses) OpKVCAS ?x) with (serve_kvcas (ses_parent ses) x).
    unfold serve_kvcas. rewrite decode_encodeKVCAS, Hkv, Hg by bounds. by no_guard. }
  assert (Hl : len (encodeKVCAS k x v) = 2 + len k + len x + len v) by (unfold encodeKVCAS; len_lia).
  apply call_attached in Hs as (ses' & Hc & Ha); [|done|bounds|done|done].
  exists ses'. split; [|done]. unfold proxyKV_CompareAndSwap. rewrite Hc. by destruct e as [[]|].
Qed.

End KVCalls.

(** *** The proxy keeps the promises of the store behind it *)

Section KVInterface.
Context `{!StoreLaws St}.

(** Contents within the caps of the interface. *)
Definition stored_ok (s : St) : Prop :=
  sinv s /\ map_Forall (fun k v => key_ok k /\ val_ok v) (view s).

Lemma stored_insert s s' k v :
  stored_ok s -> key_ok k -> val_ok v -> sinv s' -> view s' = <[k := v]> (view s) -> stored_ok s'.
Proof. intros [_ Hm] ? ? ? Hv. split; [done|]. rewrite Hv. by apply map_Forall_insert_2. Qed.

Lemma stored_same s s' : stored_ok s -> sinv s' -> view s' = view s -> stored_ok s'.
Proof. intros [_ Hm] ? Hv. split; [done|]. by rewrite Hv. Qed.

Lemma stored_get s k s' r :
  stored_ok s -> key_ok k -> kv_Get s k = (s', r) ->
  stored_ok s' /\ (forall v, r = inr (Some v) -> val_ok v).
Proof.
  intros Hs Hk Hg. destruct (get_spec s k s' r (proj1 Hs) Hk Hg) as (Hi & Hv & Hr).
  split; [by eapply stored_same|]. intros v ->. specialize (Hr _ eq_refl).
  by apply (proj2 Hs k v).
Qed.

Lemma stored_set s k v s' e :
  stored_ok s -> key_ok k -> val_ok v -> kv_Set s k v = (s', e) -> stored_ok s'.
Proof.
  intros Hs Hk Hv Hg. destruct (set_spec s k v s' e (proj1 Hs) Hk Hv Hg) as (Hi & Hw).
  destruct e; [by eapply stored_same|by eapply stored_insert].
Qed.

Lemma stored_delete s k s' e :
  stored_ok s -> key_ok k -> kv_Delete s k = (s', e) -> stored_ok s'.
Proof.
  intros Hs Hk Hg. destruct (delete_spec s k s' e (proj1 Hs) Hk Hg) as (Hi & Hw).
  destruct e; [by eapply stored_same|]. split; [done|]. rewrite Hw. apply map_Forall_delete, Hs.
Qed.

Lemma list_keys_fit s p n :
  stored_ok s -> 1 <= n <= KVMaxList -> fits (list_keys (view s) p n) /\ len (list_keys (view s) p n) <= n.
Proof.
  intros [_ Hm] Hn. unfold list_keys. split; [|rewrite len_take; lia].
  split; [rewrite len_take; lia|]. apply Forall_take. rewrite sort_keys_perm.
  apply Forall_forall. intros k Hk. apply list_elem_of_filter in Hk as [_ Hk].
  apply list_elem_of_fmap in Hk as ([k' v] & -> & Hk). apply elem_of_map_to_list in Hk.
  by apply (Hm k' v) in Hk as [Hk _].
Qed.

Lemma stored_list s p n s' r :
  stored_ok s -> len p <= KVMaxKey -> 1 <= n <= KVMaxList -> kv_List s p n = (s', r) ->
  stored_ok s' /\ (forall ks, r = inr ks -> fits ks /\ len ks <= n).
Proof.
  intros Hs Hp Hn Hg. destruct (list_spec s p n s' r (proj1 Hs) Hp Hn Hg) as (Hi & Hv & Hr).
  split; [by eapply stored_same|]. intros ks ->. rewrite (Hr _ eq_refl). by apply list_keys_fit.
Qed.

Lemma stored_cas s k x v s' e :
  stored_ok s -> key_ok k -> len x = KVHashSize -> val_ok v -> kv_CompareAndSwap s k x v = (s', e) ->
  stored_ok s'.
Proof.
  intros Hs Hk Hx Hv Hg. destruct (cas_spec s k x v s' e (proj1 Hs) Hk Hx Hv Hg) as (Hi & Hw & _).
  destruct e; [by eapply stored_same|by eapply stored_insert].
Qed.

(** The session is a store like the one the parent holds, also after the worker
    or the parent has gone: a dead session answers every call with an error and
    changes nothing.  The interface's clients need not know which one they use. *)
Definition remote_view (ses : session) : kvmap :=
  match p_KV (ses_parent ses) with Some s => view s | None => ∅ end.
Definition remote_inv (ses : session) : Prop :=
  exists s, p_KV (ses_parent ses) = Some s /\ stored_ok s.

Lemma attached_view ses q s : attached ses (set_KV q (Some s)) -> remote_view ses = view s.
Proof. intros [_ Hp]. unfold remote_view. by rewrite Hp. Qed.
Lemma attached_inv ses q s : attached ses (set_KV q (Some s)) -> stored_ok s -> remote_inv ses.
Proof. intros [_ Hp] Hs. exists s. by rewrite Hp. Qed.

Ltac remote ses Hr Hs :=
  let s := fresh "s" in let Hkv := fresh "Hkv" in let Ha := fresh "Ha" in
  destruct Hr as (s & Hkv & Hs);
  assert (Hview : remote_view ses = view s) by (unfold remote_view; by rewrite Hkv);
  destruct (ses_alive ses) eqn:Ha;
  [|unfold kv_Get, kv_Set, kv_Delete, kv_List, kv_CompareAndSwap, proxyKV, proxyKV_Get, proxyKV_Set,
      proxyKV_Delete, proxyKV_List, proxyKV_CompareAndSwap in *;
    rewrite call_dead in * by done; simplify_eq; split_and!; (done || by exists s)].

Ltac remote_step H Hr Ha :=
  rewrite H in Hr; injection Hr as <- <-;
  rewrite (attached_view _ _ _ Ha); split; [by eapply attached_inv|].

#[export] Instance proxyKV_laws : StoreLaws session.
Proof.
  refine {| view := remote_view; sinv := remote_inv |}.
  - intros ses k ses' r Hr Hk Hg. remote ses Hr Hs. destruct (kv_Get s k) as [s1 r1] eqn:Hg1.
    destruct (stored_get _ _ _ _ Hs Hk Hg1) as [Hs1 Hv1].
    destruct (get_spec _ _ _ _ (proj1 Hs) Hk Hg1) as (_ & Hw & Hr1).
    destruct (proxy_get ses s Ha Hkv _ _ _ Hk Hg1 Hv1) as (ses1 & Hp & Hat).
    change (kv_Get ses k) with (proxyKV_Get ses k) in Hg. remote_step Hp Hg Hat.
    split; [congruence|]. intros o Ho. rewrite Hview. apply Hr1. by destruct r1; simplify_eq.
  - intros ses k v ses' e Hr Hk Hv Hg. remote ses Hr Hs. destruct (kv_Set s k v) as [s1 e1] eqn:Hg1.
    pose proof (stored_set _ _ _ _ _ Hs Hk Hv Hg1) as Hs1.
    destruct (set_spec _ _ _ _ _ (proj1 Hs) Hk Hv Hg1) as (_ & Hw).
    destruct (proxy_set ses s Ha Hkv _ _ _ _ Hk Hv Hg1) as (ses1 & Hp & Hat).
    change (kv_Set ses k v) with (proxyKV_Set ses k v) in Hg. remote_step Hp Hg Hat.
    rewrite Hview. by destruct e1.
  - intros ses k ses' e Hr Hk Hg. remote ses Hr Hs. destruct (kv_Delete s k) as [s1 e1] eqn:Hg1.
    pose proof (stored_delete _ _ _ _ Hs Hk Hg1) as Hs1.
    destruct (delete_spec _ _ _ _ (proj1 Hs) Hk Hg1) as (_ & Hw).
    destruct (proxy_delete ses s Ha Hkv _ _ _ Hk Hg1) as (ses1 & Hp & Hat).
    change (kv_Delete ses k) with (proxyKV_Delete ses k) in Hg. remote_step Hp Hg Hat.
    rewrite Hview. by destruct e1.
  - intros ses p n ses' r Hr Hp Hn Hg. remote ses Hr Hs. destruct (kv_List s p n) as [s1 r1] eqn:Hg1.
    destruct (stored_list _ _ _ _ _ Hs Hp Hn Hg1) as [Hs1 Hv1].
    destruct (list_spec _ _ _ _ _ (proj1 Hs) Hp Hn Hg1) as (_ & Hw & Hr1).
    destruct (proxy_list ses s Ha Hkv _ _ _ _ Hp Hn Hg1 Hv1) as (ses1 & Hpx & Hat).
    change (kv_List ses p n) with (proxyKV_List ses p n) in Hg. remote_step Hpx Hg Hat.
    split; [congruence|]. intros o Ho. rewrite Hview. apply Hr1. by destruct r1; simplify_eq.
  - intros ses k x v ses' e Hr Hk Hx Hv Hg. remote ses Hr Hs.
    destruct (kv_CompareAndSwap s k x v) as [s1 e1] eqn:Hg1.
    pose proof (stored_cas _ _ _ _ _ _ Hs Hk Hx Hv Hg1) as Hs1.
    destruct (cas_spec _ _ _ _ _ _ (proj1 Hs) Hk Hx Hv Hg1) as (_ & Hw & Hd & Hc).
    destruct (proxy_cas ses s Ha Hkv _ _ _ _ _ Hk Hx Hv Hg1) as (ses1 & Hp & Hat).
    change (kv_CompareAndSwap ses k x v) with (proxyKV_CompareAndSwap ses k x v) in Hg.
    remote_step Hp Hg Hat. rewrite Hview.
    destruct e1 as [[]|]; cbn [option_map rpc_err]; split_and!; done || auto.
Qed.

(** *** Guest calls *)

Context {M : Type} `{MemoryLaws M}.

(** After a call that left the store in [s'], the session is alive, the parent
    differs only in its store, and the next call can be made. *)
Definition carried (ses ses' : session) (s' : option St) : Prop :=
  exists s1, s' = Some s1 /\ stored_ok s1 /\ attached ses' (set_KV (ses_parent ses) (Some s1)).

Lemma carried_refl ses s :
  ses_alive ses = true -> p_KV (ses_parent ses) = Some s -> stored_ok s -> carried ses ses (Some s).
Proof. intros Ha Hkv Hs. exists s. split_and!; [done|done|]. split; [done|]. by rewrite set_KV_id. Qed.

Ltac local_answer := simplify_eq; eexists; split; [reflexivity|by apply carried_refl].

Section Calls.
Context (ses : session) (s : St).
Hypothesis Ha : ses_alive ses = true.
Hypothesis Hkv : p_KV (ses_parent ses) = Some s.
Hypothesis Hs : stored_ok s.

Lemma kv_set_transparent (m : M) kp kl vp vl s' n :
  kv_set (Some s) m kp kl vp vl = (s', n) ->
  exists ses', kv_set (Some ses) m kp kl vp vl = (Some ses', n) /\ carried ses ses' s'.
Proof.
  intros Hg. unfold kv_set in *. destruct (readKey m kp kl) as [k|c] eqn:Hk; [|local_answer].
  destruct (readKey_spec _ _ _ _ Hk) as (Hko & _).
  destruct (_ || _) eqn:Hc; [local_answer|].
  destruct (mem_read _ _ _) as [v|] eqn:Hv; [|local_answer].
  destruct (read_val _ _ _ _ Hc Hv) as (Hvo & _).
  destruct (kv_Set s k v) as [s1 e1] eqn:Hg1.
  pose proof (stored_set _ _ _ _ _ Hs Hko Hvo Hg1) as Hs1.
  destruct (proxy_set ses s Ha Hkv _ _ _ _ Hko Hvo Hg1) as (ses1 & Hp & Hat).
  change (kv_Set ses k v) with (proxyKV_Set ses k v). rewrite Hp.
  exists ses1. destruct e1 as [[]|]; simplify_eq; (split; [done|by exists s1]).
Qed.

Lemma kv_get_transparent (m m' : M) kp kl op oc s' n :
  kv_get (Some s) m kp kl op oc = (s', m', n) ->
  exists ses', kv_get (Some ses) m kp kl op oc = (Some ses', m', n) /\ carried ses ses' s'.
Proof.
  intros Hg. unfold kv_get in *. destruct (readKey m kp kl) as [k|c] eqn:Hk; [|local_answer].
  destruct (readKey_spec _ _ _ _ Hk) as (Hko & _). destruct (kv_Get s k) as [s1 r1] eqn:Hg1.
  destruct (stored_get _ _ _ _ Hs Hko Hg1) as [Hs1 Hv1].
  destruct (proxy_get ses s Ha Hkv _ _ _ Hko Hg1 Hv1) as (ses1 & Hp & Hat).
  change (kv_Get ses k) with (proxyKV_Get ses k). rewrite Hp.
  exists ses1. destruct r1 as [e|[v|]]; try destruct (write_out _ _ _ _ _ _);
    simplify_eq; (split; [done|by exists s1]).
Qed.

Lemma kv_delete_transparent (m : M) kp kl s' n :
  kv_delete (Some s) m kp kl = (s', n) ->
  exists ses', kv_delete (Some ses) m kp kl = (Some ses', n) /\ carried ses ses' s'.
Proof.
  intros Hg. unfold kv_delete in *. destruct (readKey m kp kl) as [k|c] eqn:Hk; [|local_answer].
  destruct (readKey_spec _ _ _ _ Hk) as (Hko & _). destruct (kv_Delete s k) as [s1 e1] eqn:Hg1.
  pose proof (stored_delete _ _ _ _ Hs Hko Hg1) as Hs1.
  destruct (proxy_delete ses s Ha Hkv _ _ _ Hko Hg1) as (ses1 & Hp & Hat).
  change (kv_Delete ses k) with (proxyKV_Delete ses k). rewrite Hp.
  exists ses1. destruct e1; simplify_eq; (split; [done|by exists s1]).
Qed.

Lemma prefix_len (m : M) pp pl p :
  (pl <? 0) || (KVMaxKey <? pl) = false ->
  (if 0 <? pl then mem_read m (u32 pp) (u32 pl) else Some []) = Some p -> len p <= KVMaxKey.
Proof.
  intros Hc Hp. zbool. destruct (0 <? pl) eqn:Hz; zbool; simplify_eq; [|done].
  apply read_len in Hp. unfold KVMaxKey in *. rewrite u32_small in Hp by (unfold is_u32; lia). lia.
Qed.

Lemma kv_list_transparent (m m' : M) pp pl limit op oc s' n :
  kv_list (Some s) m pp pl limit op oc = (s', m', n) ->
  exists ses', kv_list (Some ses) m pp pl limit op oc = (Some ses', m', n) /\ carried ses ses' s'.
Proof.
  intros Hg. unfold kv_list in *. destruct (_ || (oc <? 0)) eqn:Hc; [local_answer|].
  apply orb_false_iff in Hc as [Hc _]. apply orb_false_iff in Hc as [Hc Hl2].
  apply orb_false_iff in Hc as [Hc Hl1].
  destruct (if 0 <? pl then _ else _) as [p|] eqn:Hp; [|local_answer].
  apply (prefix_len _ _ _ _ Hc) in Hp. destruct (kv_List s p limit) as [s1 r1] eqn:Hg1.
  assert (Hlim : 1 <= limit <= KVMaxList) by (zbool; lia).
  destruct (stored_list _ _ _ _ _ Hs Hp Hlim Hg1) as [Hs1 Hv1].
  destruct (proxy_list ses s Ha Hkv _ _ _ _ Hp Hlim Hg1 Hv1) as (ses1 & Hpx & Hat).
  change (kv_List ses p limit) with (proxyKV_List ses p limit). rewrite Hpx.
  exists ses1. destruct r1 as [e|ks]; [|destruct ((limit <? len ks) || _); [|destruct (write_out _ _ _ _ _ _)]];
    simplify_eq; (split; [done|by exists s1]).
Qed.

Lemma kv_cas_transparent (m : M) kp kl xp vp vl s' n :
  kv_compare_and_swap (Some s) m kp kl xp vp vl = (s', n) ->
  exists ses', kv_compare_and_swap (Some ses) m kp kl xp vp vl = (Some ses', n) /\ carried ses ses' s'.
Proof.
  intros Hg. unfold kv_compare_and_swap in *.
  destruct (readKey m kp kl) as [k|c] eqn:Hk; [|local_answer].
  destruct (readKey_spec _ _ _ _ Hk) as (Hko & _).
  destruct (_ || _) eqn:Hc; [local_answer|].
  destruct (mem_read _ (u32 xp) _) as [x|] eqn:Hx; [|local_answer]. apply read_len in Hx.
  destruct (mem_read _ _ _) as [v|] eqn:Hv; [|local_answer].
  destruct (read_val _ _ _ _ Hc Hv) as (Hvo & _).
  destruct (kv_CompareAndSwap s k x v) as [s1 e1] eqn:Hg1.
  pose proof (stored_cas _ _ _ _ _ _ Hs Hko Hx Hvo Hg1) as Hs1.
  destruct (proxy_cas ses s Ha Hkv _ _ _ _ _ Hko Hx Hvo Hg1) as (ses1 & Hp & Hat).
  change (kv_CompareAndSwap ses k x v) with (proxyKV_CompareAndSwap ses k x v). rewrite Hp.
  exists ses1. injection Hg as <- <-. split; [by destruct e1 as [[]|]|by exists s1].
Qed.

End Calls.
End KVInterface.

(** ** Events and frames *)

Section Screen.
Context (ses : session).
Hypothesis Ha : ses_alive ses = true.

Lemma recv_transparent src src' r :
  p_src (ses_parent ses) = Some src -> src_Next src = (src', r) ->
  (forall ev, r = Some ev -> event_wf ev /\ len (event_wire ev) < 2 ^ 25) ->
  exists ses' ev, src_Next ses = (ses', r) /\ attached ses' (set_src (ses_parent ses) (Some src') ev).
Proof.
  intros Hp Hn Hr.
  assert (Hs : serve (ses_parent ses) OpRecv [] =
    (set_src (ses_parent ses) (Some src') match r with Some ev => event_wire ev | None => sess_ev (ses_parent ses) end,
     Ok match r with None => [0] | Some ev => 1 :: event_wire ev end)).
  { change (serve (ses_parent ses) OpRecv []) with (serve_recv (ses_parent ses)).
    unfold serve_recv. rewrite Hp, Hn. destruct r as [ev|]; [|done]. by rewrite AppendEvent_wire. }
  apply call_attached in Hs as (ses' & Hc & Hat); [|done|done|done|].
  - exists ses'. eexists. split; [|exact Hat]. unfold src_Next, proxySource. rewrite Hc.
    destruct r as [ev|]; [|done]. change (1 =? 0) with false. cbv iota.
    by rewrite DecodeEvent_wire by (by eapply Hr).
  - destruct r as [ev|]; [|done]. destruct (Hr _ eq_refl). bounds.
Qed.

(** The parent's screen, as the in-process adapter keeps it. *)
Definition screen (p : parent) (k : K) : Screen K := mkScreen (sess_cells p) (sess_dedup p) k.

Lemma set_sink_id (p : parent) k : p_sink p = Some k -> set_sink p (Some k) (sess_cells p) (sess_dedup p) = p.
Proof. intros <-. by destruct p. Qed.

Lemma present_remote k raw :
  p_sink (ses_parent ses) = Some k -> bytes_ok raw -> len raw <= MaxFrameBytes ->
  let ses' := rpc_present ses raw in
  exists sc, present_local (screen (ses_parent ses) k) raw = Ok sc /\
    (ses_parent ses' = set_sink (ses_parent ses) (Some (sc_sink sc)) (sc_cells sc) (sc_dedup sc)) /\
    (ses_alive ses' = false <->
       suppressed (sess_dedup (ses_parent ses)) raw k = false /\ exists e, parse_frame raw = inl e).
Proof.
  intros Hp Hb Hl ses'. rewrite present_local_spec by done.
  cbn [sc_dedup sc_sink screen].
  assert (Hs : serve (ses_parent ses) OpPresent raw = serve_present (ses_parent ses) raw) by reflexivity.
  assert (Hmax : len raw <= maxWorkerPayload OpPresent) by exact Hl.
  unfold serve_present in Hs. rewrite Hp in Hs. subst ses'. unfold rpc_present.
  destruct (suppressed (sess_dedup (ses_parent ses)) raw k) eqn:Hd.
  { apply call_ok in Hs as ->; [|done|done|done|done]. eexists. split; [reflexivity|]. cbn [fst ses_parent ses_alive].
    split; [by rewrite set_sink_id|]. split; [done|]. by intros [? _]. }
  rewrite AppendDecodeFrame_parse in Hs by done.
  destruct (parse_frame raw) as [e|f] eqn:Hf.
  - apply call_refused in Hs as ->; [|done|done|done]. eexists. split; [reflexivity|]. cbn [fst ses_parent ses_alive].
    split; [by rewrite set_sink_id|]. split; eauto.
  - rewrite frame_valid in Hs by (by eapply parse_frame_wf). cbn [negb] in Hs.
    apply call_ok in Hs as ->; [|done|done|done|done]. eexists. split; [reflexivity|].
    split; [done|]. split; [done|]. intros [_ [e He]]. done.
Qed.

End Screen.

(** ** The other services *)

(** A call answered without an exchange. *)
Ltac kept lem := simplify_eq; eexists; split; [reflexivity|]; split; [done|]; by rewrite lem.

Section Services.
Context {M : Type} `{MemoryLaws M}.
Context (ses : session).
Hypothesis Ha : ses_alive ses = true.

Lemma kind_roundtrip k : identityKindToABI (identityKindFromABI (Z.land (identityKindToABI k) 3)) = identityKindToABI k.
Proof. unfold identityKindToABI at 2 3. by repeat case_bool_decide. Qed.

Lemma proxy_auth a a' id :
  p_Auth (ses_parent ses) = Some a -> auth_Whoami a = (a', id) ->
  exists ses' id', auth_Whoami ses = (ses', id') /\ attached ses' (set_Auth (ses_parent ses) (Some a')) /\
    EncodeIdentity (to_abi id') = EncodeIdentity (to_abi id).
Proof.
  intros Hp Hw.
  assert (Hu : len (User (identity_sent (to_abi id))) <= 256)
    by (cbn [User identity_sent]; unfold AuthMaxUser; len_lia).
  assert (Hs : serve (ses_parent ses) OpAuth [] = (set_Auth (ses_parent ses) (Some a'),
    Ok (1 :: identity_flags (to_abi id) :: field 2 (User (identity_sent (to_abi id)))
          ++ User (identity_sent (to_abi id))))).
  { change (serve (ses_parent ses) OpAuth []) with (serve_auth (ses_parent ses) []).
    unfold serve_auth. by rewrite Hp, Hw, EncodeIdentity_layout. }
  apply call_attached in Hs as (ses' & Hc & Hat); [|done|done|done|unfold field; bounds].
  eexists ses', _. split_and!; [|exact Hat|].
  - unfold auth_Whoami, proxyAuth. rewrite Hc. change (1 =? 0) with false. cbv iota.
    rewrite DecodeIdentity_layout by lia. reflexivity.
  - destruct (identity_flags_read (to_abi id)) as (Hf1 & Hf2 & Hf3).
    rewrite Hf1, Hf2, Hf3, !EncodeIdentity_layout. unfold identity_flags, identity_sent, to_abi.
    cbn [User Authenticated id_Kind OwnsApp si_User si_Authenticated si_Kind si_OwnsApp].
    rewrite kind_roundtrip, take_take, Nat.min_id. done.
Qed.

Lemma auth_transparent a (m m' : M) op oc a' n :
  p_Auth (ses_parent ses) = Some a -> auth_whoami (Some a) m op oc = Ok (a', m', n) ->
  exists ses', auth_whoami (Some ses) m op oc = Ok (Some ses', m', n) /\
    attached ses' (set_Auth (ses_parent ses) a').
Proof.
  intros Hp Hg. unfold auth_whoami in *. destruct (auth_Whoami a) as [a1 id] eqn:Hw.
  destruct (proxy_auth a a1 id Hp Hw) as (ses1 & id1 & Hs & Hat & He). rewrite Hs, He.
  exists ses1. rewrite EncodeIdentity_layout in *. cbn [rbind] in *.
  destruct (write_out _ _ _ _ _ _). by injection Hg as <- <- <-.
Qed.

Lemma set_Env_id (p : parent) x : p_Env p = x -> set_Env p x = p.
Proof. intros <-. by destruct p. Qed.

Lemma env_transparent e (m m' : M) kp kl op oc e' n :
  p_Env (ses_parent ses) = Some e ->
  (forall k e1 v, env_Get e k = (e1, Some v) -> len v < MaxFrame) ->
  env_get (Some e) m kp kl op oc = (e', m', n) ->
  exists ses', env_get (Some ses) m kp kl op oc = (Some ses', m', n) /\
    attached ses' (set_Env (ses_parent ses) e').
Proof.
  intros Hp Hmax Hg. unfold env_get in *.
  destruct (_ || _) eqn:Hc.
  { kept set_Env_id. }
  destruct (mem_read _ _ _) as [k|] eqn:Hk.
  2: { kept set_Env_id. }
  apply read_len in Hk. zbool. rewrite u32_small in Hk by (unfold is_u32, EnvMaxKey in *; lia).
  destruct (env_Get e k) as [e1 r] eqn:He.
  assert (Hs : serve (ses_parent ses) OpEnv k = (set_Env (ses_parent ses) (Some e1),
    Ok match r with None => [0] | Some v => 1 :: v end)).
  { change (serve (ses_parent ses) OpEnv k) with (serve_env (ses_parent ses) k).
    unfold serve_env. rewrite Hp, He. no_guard. by destruct r. }
  apply call_attached in Hs as (ses' & Hcl & Hat); [|done|bounds|done|].
  - exists ses'. unfold env_Get, proxyEnv. rewrite Hcl. destruct r as [v|];
      [change (1 =? 0) with false; cbv iota; destruct (write_out _ _ _ _ _ _)|]; by simplify_eq.
  - destruct r as [v|]; [|done]. specialize (Hmax _ _ _ He). rewrite len_cons. lia.
Qed.

Lemma set_Bus_id (p : parent) x : p_Bus p = x -> set_Bus p x = p.
Proof. intros <-. by destruct p. Qed.

Lemma readTopic_len (m : M) tp tl t : readTopic m tp tl = inl t -> 1 <= len t <= BusMaxTopic.
Proof.
  unfold readTopic. destruct (_ || _) eqn:Hc; [done|]. zbool.
  destruct (mem_read _ _ _) as [x|] eqn:Hx; [|done]. intros [= <-]. apply read_len in Hx.
  rewrite u32_small in Hx by (unfold is_u32, BusMaxTopic in *; lia). lia.
Qed.

Lemma bus_sub_transparent b (m : M) tp tl b' n :
  p_Bus (ses_parent ses) = Some b -> p_sub (ses_parent ses) = true ->
  bus_sub (Some b) m tp tl = (b', n) ->
  exists ses', bus_sub (Some ses) m tp tl = (Some ses', n) /\ attached ses' (set_Bus (ses_parent ses) b').
Proof.
  intros Hp Hsub Hg. unfold bus_sub in *. destruct (readTopic m tp tl) as [t|c] eqn:Ht.
  2: { kept set_Bus_id. }
  apply readTopic_len in Ht. destruct (bus_Subscribe b t) as [b1 refused] eqn:Hb.
  assert (Hs : serve (ses_parent ses) OpBusSub t =
    (set_Bus (ses_parent ses) (Some b1), Ok [if refused then 1 else 0])).
  { change (serve (ses_parent ses) OpBusSub t) with (serve_bussub (ses_parent ses) t).
    unfold serve_bussub. rewrite Hp, Hsub, Hb. by no_guard. }
  apply call_attached in Hs as (ses' & Hcl & Hat); [|done|bounds|done|by destruct refused].
  exists ses'. change (bus_Subscribe ses t) with (proxySubscriber_Subscribe ses t).
  unfold proxySubscriber_Subscribe. rewrite Hcl. injection Hg as <- <-. by destruct refused.
Qed.

Lemma bus_pub_transparent b (m : M) tp tl dp dl b' n :
  p_Bus (ses_parent ses) = Some b -> bus_pub (Some b) m tp tl dp dl = (b', n) ->
  exists ses', bus_pub (Some ses) m tp tl dp dl = (Some ses', n) /\ attached ses' (set_Bus (ses_parent ses) b').
Proof.
  intros Hp Hg. unfold bus_pub in *.
  destruct (readTopic m tp tl) as [t|c] eqn:Ht.
  2: { kept set_Bus_id. }
  apply readTopic_len in Ht.
  destruct (_ || _) eqn:Hc.
  { kept set_Bus_id. }
  destruct (mem_read _ _ _) as [d|] eqn:Hd.
  2: { kept set_Bus_id. }
  apply read_len in Hd. zbool. rewrite u32_small in Hd by (unfold is_u32, BusMaxData in *; lia).
  destruct (bus_Publish b t d) as [b1 k] eqn:Hb.
  assert (Hs : serve (ses_parent ses) OpBusPub (encodeKeyValue t d) =
    (set_Bus (ses_parent ses) (Some b1), Ok (le_bytes 4 (u32 k)))).
  { change (serve (ses_parent ses) OpBusPub ?x) with (serve_buspub (ses_parent ses) x).
    unfold serve_buspub. rewrite decode_encodeKeyValue, Hp, Hb by bounds. by no_guard. }
  assert (Hl : len (encodeKeyValue t d) = 2 + len t + len d) by (unfold encodeKeyValue; len_lia).
  apply call_attached in Hs as (ses' & Hcl & Hat); [|done|bounds|done|done].
  exists ses'. change (bus_Publish ses t d) with (proxyBus_Publish ses t d).
  unfold proxyBus_Publish. rewrite Hcl. change (len (le_bytes 4 (u32 k)) <? 4) with false. cbv iota.
  change (take 4 (le_bytes 4 (u32 k))) with (le_bytes 4 (u32 k)).
  injection Hg as <- <-. split; [|done].
  by rewrite le4_wrap, (i32_small (i32 k)) by apply i32_range.
Qed.

Lemma set_timers_id (p : parent) x : p_timers p = x -> set_timers p x = p.
Proof. intros <-. by destruct p. Qed.

Lemma timer_start_transparent t delay rec t' n :
  p_timers (ses_parent ses) = Some t -> is_i64 delay ->
  (forall d b t1 c, tm_Start t d b = (t1, c) -> is_i32 c) ->
  timer_start (Some t) delay rec = (t', n) ->
  exists ses', timer_start (Some ses) delay rec = (Some ses', n) /\
    attached ses' (set_timers (ses_parent ses) t').
Proof.
  intros Hp Hd Hi Hg. unfold timer_start in *. destruct (_ && _) eqn:Hc; [kept set_timers_id|].
  destruct (tm_Start t delay (rec =? 1)) as [t1 c] eqn:Ht. specialize (Hi _ _ _ _ Ht).
  set (pl := le_bytes 8 (u64 delay) ++ [if rec =? 1 then 1 else 0]).
  assert (Hs : serve (ses_parent ses) OpTimerStart pl =
    (set_timers (ses_parent ses) (Some t1), Ok (le_bytes 4 (u32 c)))).
  { change (serve (ses_parent ses) OpTimerStart pl) with (serve_timerstart (ses_parent ses) pl).
    unfold serve_timerstart. rewrite Hp. change (negb (len pl =? 9)) with false. cbv iota.
    change (index pl 8) with (Ok (E:=ServeErr) (if rec =? 1 then 1 else 0)).
    change (slice pl 0 8) with (Ok (E:=ServeErr) (le_bytes 8 (u64 delay))). cbn [rbind].
    rewrite le8_i64 by done.
    destruct (rec =? 1); change (1 <? 1) with false; change (1 <? 0) with false; cbv iota;
      change (1 =? 1) with true; change (0 =? 1) with false; by rewrite Ht. }
  apply call_attached in Hs as (ses' & Hcl & Hat); [|done|done|done|done].
  exists ses'. change (tm_Start ses ?d ?b) with (proxyTimers_Start ses d b).
  unfold proxyTimers_Start. fold pl. rewrite Hcl.
  change (negb (len (le_bytes 4 (u32 c)) =? 4)) with false. cbv iota.
  injection Hg as <- <-. split; [|done]. by rewrite le4_i32.
Qed.

Lemma timer_cancel_transparent t id t' n :
  p_timers (ses_parent ses) = Some t -> timer_cancel (Some t) id = (t', n) ->
  exists ses', timer_cancel (Some ses) id = (Some ses', n) /\
    attached ses' (set_timers (ses_parent ses) t').
Proof.
  intros Hp Hg. unfold timer_cancel in *. destruct (id <=? 0) eqn:Hc; [kept set_timers_id|].
  destruct (tm_Cancel t (u32 id)) as [t1 act] eqn:Ht.
  assert (Hs : serve (ses_parent ses) OpTimerCancel (le_bytes 4 (u32 id)) =
    (set_timers (ses_parent ses) (Some t1), Ok [if act then 1 else 0])).
  { change (serve (ses_parent ses) OpTimerCancel ?x) with (serve_timercancel (ses_parent ses) x).
    unfold serve_timercancel. rewrite Hp. change (negb (len (le_bytes 4 (u32 id)) =? 4)) with false. cbv iota.
    rewrite le_val_small by (apply Z.mod_pos_bound; lia). by rewrite Ht. }
  apply call_attached in Hs as (ses' & Hcl & Hat); [|done|done|done|by destruct act].
  exists ses'. change (tm_Cancel ses ?i) with (proxyTimers_Cancel ses i).
  unfold proxyTimers_Cancel. rewrite Hcl. injection Hg as <- <-. by destruct act.
Qed.

(** *** Outbound HTTP and local commands *)

Definition sane_response (r : FetchErr + FetchResponse) : Prop :=
  forall resp, r = inr resp -> fits resp /\ len (resp_Body resp) < 2 ^ 25.

Lemma proxy_fetch f req f' r :
  p_Fetch (ses_parent ses) = Some f -> fits req ->
  len (Method req) <= FetchMaxMethod -> len (URL req) <= FetchMaxURL -> len (req_Body req) <= FetchMaxBody ->
  fetch_Fetch f req = (f', r) -> sane_response r ->
  exists ses', attached ses' (set_Fetch (ses_parent ses) (Some f')) /\
    fetch_Fetch ses req = (ses', match r with
                                 | inl ErrEgressDenied => inl ErrEgressDenied
                                 | inl _ => inl ErrFetchOther
                                 | inr resp => inr resp
                                 end).
Proof.
  intros Hp Hfit Hm Hu Hb Hf Hr.
  assert (Hs : serve (ses_parent ses) OpFetch (EncodeFetchRequest req) =
    (set_Fetch (ses_parent ses) (Some f'),
     Ok match r with inl ErrEgressDenied => [1] | inl _ => [3] | inr resp => 0 :: EncodeFetchResponse resp end)).
  { change (serve (ses_parent ses) OpFetch ?x) with (serveFetch (ses_parent ses) x).
    unfold serveFetch. rewrite Hp. change (DecodeFetchRequest (EncodeFetchRequest req)) with (@dec FetchRequest _ (enc req)).
    rewrite dec_enc, Hf by done. no_guard. by destruct r as [[]|]. }
  apply call_attached in Hs as (ses' & Hcl & Hat); [|done| |done|].
  - exists ses'. split; [done|]. unfold fetch_Fetch, proxyFetch. rewrite Hcl.
    destruct r as [[]|resp]; try done. change (0 =? 0) with true. cbv iota.
    change (DecodeFetchResponse (EncodeFetchResponse resp)) with (@dec FetchResponse _ (enc resp)).
    by rewrite dec_enc by (by eapply Hr).
  - rewrite EncodeFetchRequest_layout by done. change (maxWorkerPayload OpFetch) with maxEncodedFetch.
    unfold maxEncodedFetch, field, FetchMaxMethod, FetchMaxURL in *. len_lia.
  - destruct r as [[]|resp]; try done. destruct (Hr _ eq_refl) as [? Hl].
    rewrite EncodeFetchResponse_layout by done. unfold field. bounds.
Qed.

Lemma set_Fetch_id (p : parent) x : p_Fetch p = x -> set_Fetch p x = p.
Proof. intros <-. by destruct p. Qed.
Lemma set_Exec_id (p : parent) x : p_Exec p = x -> set_Exec p x = p.
Proof. intros <-. by destruct p. Qed.

Ltac kept_code lem :=
  simplify_eq; eexists _, _; split; [reflexivity|]; split; [split; [done|by rewrite lem]|by left].

Lemma fetch_remote f (m m' : M) rp rl op oc f' n :
  p_Fetch (ses_parent ses) = Some f ->
  (forall o l b, mem_read m o l = Some b -> bytes_ok b) ->
  (forall req f1 r, fetch_Fetch f req = (f1, r) -> sane_response r) ->
  fetch (Some f) m rp rl op oc = Ok (f', m', n) ->
  exists ses' n', fetch (Some ses) m rp rl op oc = Ok (Some ses', m', n') /\
    attached ses' (set_Fetch (ses_parent ses) f') /\
    (n' = n \/ n' = FetchErrInternal /\ (n = FetchErrTooLarge \/ n = FetchErrUnavail)).
Proof.
  intros Hp Hmem Hsane Hg. unfold fetch in *.
  destruct (_ || _); [kept_code set_Fetch_id|].
  destruct (mem_read _ _ _) as [raw|] eqn:Hr; [|kept_code set_Fetch_id].
  destruct (DecodeFetchRequest raw) as [req|e|] eqn:Hd; [|kept_code set_Fetch_id|done].
  assert (Hfit : fits req) by exact (proj1 (@enc_dec FetchRequest _ _ raw req (Hmem _ _ _ Hr) Hd)).
  destruct (_ || _ || _) eqn:Hc; [kept_code set_Fetch_id|].
  apply orb_false_iff in Hc as [Hc H3']. apply orb_false_iff in Hc as [H1' H2'].
  apply Z.ltb_ge in H1', H2', H3'.
  destruct (fetch_Fetch f req) as [f1 r] eqn:Hf.
  destruct (proxy_fetch f req f1 r Hp Hfit H1' H2' H3' Hf (Hsane _ _ _ Hf)) as (ses1 & Hat & Hs).
  rewrite Hs. destruct r as [[]|resp]; [..|destruct (write_out _ _ _ _ _ _)]; simplify_eq;
    eexists ses1, _; (split; [reflexivity|split; [done|auto]]).
Qed.

Lemma len_args_wire_le args :
  Forall (fun a => len a <= ExecMaxArg) args -> len (args_wire args) <= len args * (4 + ExecMaxArg).
Proof.
  induction 1 as [|a args Ha' _ IH]; [done|]. unfold args_wire in *; cbn [map concat]; unfold field in *. len_lia.
Qed.

Lemma proxy_exec c req c' r :
  p_Exec (ses_parent ses) = Some c -> fits req -> validExecRequest req = true ->
  cmd_Run c req = (c', r) -> (forall resp, r = inr resp -> is_i32 (ExitCode resp)) ->
  exists ses', attached ses' (set_Exec (ses_parent ses) (Some c')) /\
    cmd_Run ses req = (ses', match r with
                             | inl ErrExecTooLarge => inl ErrExecTooLarge
                             | inl _ => inl ErrExecOther
                             | inr resp =>
                               if (ExecMaxOutput <? len (Stdout resp)) || (ExecMaxOutput <? len (Stderr resp))
                               then inl ErrExecTooLarge else inr resp
                             end).
Proof.
  intros Hp Hfit Hv Hr Hx.
  assert (Hs : serve (ses_parent ses) OpExec (EncodeExecRequest req) =
    (set_Exec (ses_parent ses) (Some c'),
     Ok match r with
        | inl ErrExecTooLarge => [2] | inl _ => [3]
        | inr resp => if (ExecMaxOutput <? len (Stdout resp)) || (ExecMaxOutput <? len (Stderr resp))
                      then [2] else 0 :: EncodeExecResponse resp
        end)).
  { change (serve (ses_parent ses) OpExec ?x) with (serve_exec (ses_parent ses) x).
    unfold serve_exec. rewrite Hp.
    change (DecodeExecRequest (EncodeExecRequest req)) with (@dec ExecRequest _ (enc req)).
    rewrite dec_enc, Hv, Hr by done. cbn [negb]. destruct r as [[]|resp]; try done. by destruct (_ || _). }
  assert (Hresp : forall resp, r = inr resp ->
    (ExecMaxOutput <? len (Stdout resp)) || (ExecMaxOutput <? len (Stderr resp)) = false ->
    fits resp /\ len (EncodeExecResponse resp) < 2 ^ 22).
  { intros resp -> Hc. apply orb_false_iff in Hc as [Ho He]. apply Z.ltb_ge in Ho, He.
    change ExecMaxOutput with 1048576 in Ho, He.
    assert (fits resp) by (split_and!; [by apply Hx|lia|lia]). split; [done|].
    rewrite EncodeExecResponse_layout by done. unfold field. len_lia. }
  apply call_attached in Hs as (ses' & Hcl & Hat); [|done| |done|].
  - exists ses'. split; [done|]. unfold cmd_Run, proxyExec. rewrite Hcl.
    destruct r as [[]|resp]; try done. destruct (_ || _) eqn:Hc; [done|].
    change (0 =? 0) with true. cbv iota.
    change (DecodeExecResponse (EncodeExecResponse resp)) with (@dec ExecResponse _ (enc resp)).
    rewrite dec_enc; [done|]. by apply Hresp.
  - rewrite EncodeExecRequest_layout by done. destruct Hfit as (Hn & Hk & Hargs).
    pose proof (len_args_wire_le _ Hargs) as Hl. change (maxWorkerPayload OpExec) with 16782344.
    change ExecMaxArg with 65536 in *. unfold ExecMaxName, ExecMaxArgs, field in *. len_lia.
  - destruct r as [[]|resp]; try done. destruct (_ || _) eqn:Hc; [done|].
    destruct (Hresp resp eq_refl Hc). bounds.
Qed.

Lemma exec_remote c (m m' : M) rp rl op oc c' n :
  p_Exec (ses_parent ses) = Some c ->
  (forall o l b, mem_read m o l = Some b -> bytes_ok b) ->
  (forall req c1 resp, cmd_Run c req = (c1, inr resp) -> is_i32 (ExitCode resp)) ->
  exec (Some c) m rp rl op oc = Ok (c', m', n) ->
  exists ses' n', exec (Some ses) m rp rl op oc = Ok (Some ses', m', n') /\
    attached ses' (set_Exec (ses_parent ses) c') /\
    (n' = n \/ n' = ExecErrFailed /\ n = ExecErrUnavailable).
Proof.
  intros Hp Hmem Hexit Hg. unfold exec in *.
  destruct (_ || _); [kept_code set_Exec_id|].
  destruct (mem_read _ _ _) as [raw|] eqn:Hr; [|kept_code set_Exec_id].
  destruct (DecodeExecRequest raw) as [req|e|] eqn:Hd; [|kept_code set_Exec_id|done].
  assert (Hfit : fits req) by exact (proj1 (@enc_dec ExecRequest _ _ raw req (Hmem _ _ _ Hr) Hd)).
  destruct (validExecRequest req) eqn:Hv; cbn [negb] in *; [|kept_code set_Exec_id].
  destruct (cmd_Run c req) as [c1 r] eqn:Hf.
  assert (Hx : forall resp, r = inr resp -> is_i32 (ExitCode resp)) by (intros resp ->; by eapply Hexit).
  destruct (proxy_exec c req c1 r Hp Hfit Hv Hf Hx) as (ses1 & Hat & Hs). rewrite Hs.
  destruct r as [[]|resp]; [..|destruct ((_ <? len (Stdout _)) || _) eqn:Hc;
    [|rewrite Hc; destruct (write_out _ _ _ _ _ _)]]; simplify_eq;
    eexists ses1, _; (split; [reflexivity|split; [done|auto]]).
Qed.

End Services.

(** ** Standard streams of a CLI guest *)

(** The documented contract of io.Writer: a call that reports no error has taken
    all of its input. *)
Definition full_writes : Prop := forall (w : W) p w' n, wr w p = (w', n, false) -> n = len p.

(** What has reached the parent's stream. *)
Definition streamed (stderr : bool) (p : parent) : bytes :=
  match (if stderr then p_Stderr p else p_Stdout p) with Some w => written w | None => [] end.

Section Output.
Context `{!WriterLaws W}.
Hypothesis Hfull : full_writes.

Lemma write_done (w w' : W) p n : wr w p = (w', n, false) -> written w' = written w ++ p.
Proof.
  intros Hw. rewrite (wr_prefix _ _ _ _ _ Hw), (Hfull _ _ _ _ Hw).
  by rewrite take_ge by (unfold len; lia).
Qed.

Lemma output_chunk (ses : session) (stderr : bool) p :
  ses_alive ses = true -> is_Some (if stderr then p_Stderr (ses_parent ses) else p_Stdout (ses_parent ses)) ->
  len p <= maxWorkerOutput ->
  exists ses' r, call ses (if stderr then OpOutputStderr else OpOutput) p = (ses', r) /\
    (r = Some [] /\ ses_alive ses' = true /\
     is_Some (if stderr then p_Stderr (ses_parent ses') else p_Stdout (ses_parent ses')) /\
     streamed stderr (ses_parent ses') = streamed stderr (ses_parent ses) ++ p \/
     r = None /\ exists k, streamed stderr (ses_parent ses') = streamed stderr (ses_parent ses) ++ take k p).
Proof.
  intros Hal [w Hw] Hl. set (o := if stderr then OpOutputStderr else OpOutput).
  assert (Hmax : len p <= maxWorkerPayload o) by (subst o; destruct stderr; exact Hl).
  assert (Hd : o <> OpDone) by (subst o; by destruct stderr).
  destruct (wr w p) as [[w' n] err] eqn:Hwr.
  set (q := if stderr then set_Stderr (ses_parent ses) (Some w') else set_Stdout (ses_parent ses) (Some w')).
  assert (Hs : serve (ses_parent ses) o p = (q, if err then Err SErrOutput else Ok [])).
  { assert (serve (ses_parent ses) o p = serve_output (ses_parent ses) stderr p) as ->
      by (subst o; by destruct stderr).
    unfold serve_output. rewrite (proj2 (Z.ltb_ge _ _)), Hw, Hwr by lia. by destruct err. }
  assert (Hq : streamed stderr q = written w' /\ streamed stderr (ses_parent ses) = written w)
    by (unfold streamed; rewrite Hw; by destruct stderr).
  destruct Hq as [Hq Hq0]. destruct err.
  - apply call_refused in Hs; [|done|done|done]. eexists _, _. split; [exact Hs|]. right. split; [done|].
    cbn [ses_parent]. rewrite Hq, Hq0. exists (Z.to_nat n). by eapply wr_prefix.
  - apply call_ok in Hs; [|done|done|done|done]. eexists _, _. split; [exact Hs|]. left. cbn [ses_parent ses_alive].
    rewrite Hq, Hq0. split_and!; [done|done|subst q; by destruct stderr|]. by eapply write_done.
Qed.

Lemma proxyOutput_loop_spec fuel (ses : session) (stderr : bool) p sent ses' n err :
  ses_alive ses = true -> is_Some (if stderr then p_Stderr (ses_parent ses) else p_Stdout (ses_parent ses)) ->
  (length p < fuel)%nat ->
  proxyOutput_loop fuel ses stderr p sent = (ses', n, err) ->
  (err = false /\ n = sent + len p /\ streamed stderr (ses_parent ses') = streamed stderr (ses_parent ses) ++ p) \/
  (err = true /\ exists k, streamed stderr (ses_parent ses') = streamed stderr (ses_parent ses) ++ take k p).
Proof.
  revert ses p sent. induction fuel as [|fuel IH]; intros ses p d Hal Hw Hf Hp; [lia|].
  cbn [proxyOutput_loop] in Hp. destruct (0 <? len p) eqn:Hz; cbn [negb] in Hp.
  2: { zbool. assert (p = []) as -> by (apply len_0_nil; len_lia). simplify_eq. left.
       split_and!; [done|rewrite len_nil; lia|by rewrite app_nil_r]. }
  apply Z.ltb_lt in Hz. set (c := Z.min (len p) maxWorkerOutput) in *.
  assert (Ec : c = Z.min (len p) maxWorkerOutput) by reflexivity.
  assert (HM : 0 < maxWorkerOutput) by done.
  destruct (output_chunk ses stderr (take (Z.to_nat c) p) Hal Hw) as (ses1 & r & Hc & Hr); [rewrite len_take; lia|].
  rewrite Hc in Hp. destruct Hr as [(-> & Hal1 & Hw1 & Hs1)|[-> [k Hs1]]].
  - apply IH in Hp as [(-> & -> & Hs)|(-> & k & Hs)]; [| |done|done|rewrite length_drop; unfold len in *; lia].
    + left. rewrite Hs, Hs1, <- app_assoc, take_drop, len_drop. split_and!; [done|lia|done].
    + right. split; [done|]. rewrite Hs, Hs1, <- app_assoc. exists (Z.to_nat c + k)%nat. f_equal.
      rewrite <- (take_drop (Z.to_nat c) p) at 3.
      rewrite take_app_add'; [done|]. rewrite length_take. unfold len in *. lia.
  - injection Hp as <- <- <-. right. split; [done|]. exists (Nat.min k (Z.to_nat c)). by rewrite Hs1, take_take.
Qed.

End Output.

(** [proxyInput.Read]: one read of the parent's stream, of at most the 64 KiB one
    reply carries. *)
Lemma input_transparent (ses : session) (r r' : R) n data err :
  ses_alive ses = true -> p_Stdin (ses_parent ses) = Some r -> 0 < n ->
  rd_Read r (Z.min n maxWorkerInput) = (r', data, err) -> len data <= Z.min n maxWorkerInput ->
  exists ses', proxyInput_Read ses n = (ses', data, err) /\ attached ses' (set_Stdin (ses_parent ses) (Some r')).
Proof.
  intros Hal Hp Hn Hr Hl. set (req := Z.min n maxWorkerInput) in *.
  assert (Er : req = Z.min n 65536) by reflexivity.
  assert (Hreq : le_val (le_bytes 4 (u32 req)) = req) by (apply le4_u32; unfold is_u32; lia).
  set (st := match err with None => stdinOK | Some ReadEOF => stdinEOF | Some ReadError => stdinError end).
  assert (Hs : serve (ses_parent ses) OpInput (le_bytes 4 (u32 req)) =
    (set_Stdin (ses_parent ses) (Some r'), Ok (st :: data))).
  { change (serve (ses_parent ses) OpInput ?x) with (serve_input (ses_parent ses) x). unfold serve_input.
    change (negb (len (le_bytes 4 (u32 req)) =? 4)) with false. cbv iota. rewrite Hreq, Hp, Hr.
    change maxWorkerInput with 65536 in *. by no_guard. }
  apply call_attached in Hs as (ses' & Hc & Hat); [|done|done|done|bounds].
  exists ses'. split; [|done]. unfold proxyInput_Read. rewrite (proj2 (Z.eqb_neq _ _)) by lia.
  fold req. rewrite Hc, (proj2 (Z.ltb_ge _ _)) by lia. subst st. by destruct err as [[]|].
Qed.

(** ** Start and end *)

Lemma installed_held (p : parent) : installed (capMask (held p)) = held p.
Proof.
  destruct (capMask_bits (held p)) as (H1' & H2' & H3' & H4' & H5' & H6' & _).
  unfold installed. rewrite H1', H2', H3', H4', H5', H6'. by destruct (held p).
Qed.

End Laws.
