(* ===== verification/Isolation.v ===== *)
(** * Process isolation: the theorems

    What a guest and its user observe when the guest runs in a worker process,
    compared with the same capabilities held in process.  The lemmas are in
    WorkerLaws.v; the in-process side is HostFns.v and Devhost.v. *)

From S2P Require Import Prelude Abi AbiCaps Protocol KVStore Bus Timer Exec Egress Streams Render HostFns Devhost Worker WorkerLaws.

(** The parent still serves the session. *)
Definition live {St B A E F C T Src K R W} (ses : Session St B A E F C T Src K R W) : Prop :=
  ses_alive ses = true.

Section Isolation.
Context {M St B A E F C T Src K R W : Type}.
Context `{MemoryLaws M} `{StoreLaws St} `{Bus B} `{Auth A} `{Env E} `{Fetcher F} `{Commander C}
        `{timerService T} `{Source Src} `{Sink K} `{Reader R} `{WriterLaws W}.
Abbreviation session := (Session St B A E F C T Src K R W).
Abbreviation parent := (Parent St B A E F C T Src K R W).

(** C1 (isolation is transparent for storage): for a live session whose parent
    holds a store that keeps its interface's promises, every guest storage call
    through the worker's proxy and the parent's handler returns the code and
    leaves the guest memory that the same call on the store itself does; the
    parent's store ends in the state of the direct call, the rest of the parent
    is untouched, and the session is ready for the next call. *)
Theorem process_kv_transparent (ses : session) (s : St) (m : M) :
  live ses -> p_KV (ses_parent ses) = Some s -> stored_ok s ->
  (forall kp kl vp vl s' n, kv_set (Some s) m kp kl vp vl = (s', n) ->
     exists ses', kv_set (Some ses) m kp kl vp vl = (Some ses', n) /\ carried ses ses' s') /\
  (forall kp kl op oc s' m' n, kv_get (Some s) m kp kl op oc = (s', m', n) ->
     exists ses', kv_get (Some ses) m kp kl op oc = (Some ses', m', n) /\ carried ses ses' s') /\
  (forall kp kl s' n, kv_delete (Some s) m kp kl = (s', n) ->
     exists ses', kv_delete (Some ses) m kp kl = (Some ses', n) /\ carried ses ses' s') /\
  (forall pp pl limit op oc s' m' n, kv_list (Some s) m pp pl limit op oc = (s', m', n) ->
     exists ses', kv_list (Some ses) m pp pl limit op oc = (Some ses', m', n) /\ carried ses ses' s') /\
  (forall kp kl xp vp vl s' n, kv_compare_and_swap (Some s) m kp kl xp vp vl = (s', n) ->
     exists ses', kv_compare_and_swap (Some ses) m kp kl xp vp vl = (Some ses', n) /\ carried ses ses' s').
Proof.
  intros Ha Hkv Hs. split_and!; intros.
  - by apply (kv_set_transparent ses s).
  - by apply (kv_get_transparent ses s).
  - by apply (kv_delete_transparent ses s).
  - by apply (kv_list_transparent ses s).
  - by apply (kv_cas_transparent ses s).
Qed.

(** C2 (isolation is transparent for input and screen): the worker receives
    exactly the events of the parent's source, and a frame presented in the
    worker leaves the parent's sink, cell buffer and duplicate filter exactly as
    presenting it in process would; the one difference is that a malformed frame,
    which is ignored in process, also ends the isolated session. *)
Theorem process_screen_transparent (ses : session) src k raw :
  live ses -> p_src (ses_parent ses) = Some src -> p_sink (ses_parent ses) = Some k ->
  (forall src' r, src_Next src = (src', r) ->
     (forall ev, r = Some ev -> event_wf ev /\ len (event_wire ev) < 2 ^ 25) ->
     exists ses' b, src_Next ses = (ses', r) /\ attached ses' (set_src (ses_parent ses) (Some src') b)) /\
  (bytes_ok raw -> len raw <= MaxFrameBytes ->
   let ses' := rpc_present ses raw in
   exists sc, present_local (mkScreen (sess_cells (ses_parent ses)) (sess_dedup (ses_parent ses)) k) raw = Ok sc /\
     ses_parent ses' = set_sink (ses_parent ses) (Some (sc_sink sc)) (sc_cells sc) (sc_dedup sc) /\
     (ses_alive ses' = false <->
        suppressed (sess_dedup (ses_parent ses)) raw k = false /\ exists e, parse_frame raw = inl e)).
Proof.
  intros Ha Hsrc Hk. split.
  - intros src' r Hn Hr. by eapply recv_transparent.
  - intros Hb Hl. by apply present_remote.
Qed.

(** (isolation is transparent for identity, environment, bus and timers): each
    of these guest calls returns through the proxies the code and the bytes that
    it returns on the capability itself, and changes the parent's capability as
    the direct call does, and nothing else of the parent. *)
Theorem process_services_transparent (ses : session) (m : M) :
  live ses ->
  (forall a op oc a' m' n, p_Auth (ses_parent ses) = Some a -> auth_whoami (Some a) m op oc = Ok (a', m', n) ->
     exists ses', auth_whoami (Some ses) m op oc = Ok (Some ses', m', n) /\
       attached ses' (set_Auth (ses_parent ses) a')) /\
  (forall e kp kl op oc e' m' n, p_Env (ses_parent ses) = Some e ->
     (forall k e1 v, env_Get e k = (e1, Some v) -> len v < MaxFrame) ->
     env_get (Some e) m kp kl op oc = (e', m', n) ->
     exists ses', env_get (Some ses) m kp kl op oc = (Some ses', m', n) /\
       attached ses' (set_Env (ses_parent ses) e')) /\
  (forall b tp tl b' n, p_Bus (ses_parent ses) = Some b -> p_sub (ses_parent ses) = true ->
     bus_sub (Some b) m tp tl = (b', n) ->
     exists ses', bus_sub (Some ses) m tp tl = (Some ses', n) /\ attached ses' (set_Bus (ses_parent ses) b')) /\
  (forall b tp tl dp dl b' n, p_Bus (ses_parent ses) = Some b -> bus_pub (Some b) m tp tl dp dl = (b', n) ->
     exists ses', bus_pub (Some ses) m tp tl dp dl = (Some ses', n) /\ attached ses' (set_Bus (ses_parent ses) b')) /\
  (forall t delay rec t' n, p_timers (ses_parent ses) = Some t -> is_i64 delay ->
     (forall d b t1 c, tm_Start t d b = (t1, c) -> is_i32 c) ->
     timer_start (Some t) delay rec = (t', n) ->
     exists ses', timer_start (Some ses) delay rec = (Some ses', n) /\
       attached ses' (set_timers (ses_parent ses) t')) /\
  (forall t id t' n, p_timers (ses_parent ses) = Some t -> timer_cancel (Some t) id = (t', n) ->
     exists ses', timer_cancel (Some ses) id = (Some ses', n) /\ attached ses' (set_timers (ses_parent ses) t')).
Proof.
  intros Ha. split_and!; intros.
  - by eapply auth_transparent.
  - by eapply env_transparent.
  - by eapply bus_sub_transparent.
  - by eapply bus_pub_transparent.
  - by eapply timer_start_transparent.
  - by eapply timer_cancel_transparent.
Qed.

(** (HTTP and commands through the worker): a guest's [fetch] and [exec] reach
    the parent's capability with the same request and return the same bytes or
    the same code, with two exceptions, both of which only change which negative
    code is seen: a fetch that fails with a too large response or with egress
    unavailable is reported as an internal error, and a command that is denied,
    not found or cannot be resolved is reported as failed instead of
    unavailable. *)
Theorem process_fetch_exec (ses : session) (m : M) :
  live ses -> (forall o l b, mem_read m o l = Some b -> bytes_ok b) ->
  (forall f rp rl op oc f' m' n, p_Fetch (ses_parent ses) = Some f ->
     (forall req f1 r, fetch_Fetch f req = (f1, r) -> sane_response r) ->
     fetch (Some f) m rp rl op oc = Ok (f', m', n) ->
     exists ses' n', fetch (Some ses) m rp rl op oc = Ok (Some ses', m', n') /\
       attached ses' (set_Fetch (ses_parent ses) f') /\
       (n' = n \/ n' = FetchErrInternal /\ (n = FetchErrTooLarge \/ n = FetchErrUnavail))) /\
  (forall c rp rl op oc c' m' n, p_Exec (ses_parent ses) = Some c ->
     (forall req c1 resp, cmd_Run c req = (c1, inr resp) -> is_i32 (ExitCode resp)) ->
     exec (Some c) m rp rl op oc = Ok (c', m', n) ->
     exists ses' n', exec (Some ses) m rp rl op oc = Ok (Some ses', m', n') /\
       attached ses' (set_Exec (ses_parent ses) c') /\
       (n' = n \/ n' = ExecErrFailed /\ n = ExecErrUnavailable)).
Proof.
  intros Ha Hm. split; intros.
  - by eapply fetch_remote.
  - by eapply exec_remote.
Qed.

(** (standard streams through the worker): over a stream that honours
    io.Writer's contract, [proxyOutput.Write] of any length returns; without an
    error, the whole of its argument has reached the parent's stream in order and
    it reports that length; with an error, a prefix has.  A read is one read of
    the parent's input, of at most 64 KiB, with its end of file. *)
Theorem process_streams (ses : session) (stderr : bool) p ses' n err :
  full_writes (W:=W) -> live ses ->
  is_Some (if stderr then p_Stderr (ses_parent ses) else p_Stdout (ses_parent ses)) ->
  proxyOutput_Write ses stderr p = (ses', n, err) ->
  (err = false -> n = len p /\ streamed stderr (ses_parent ses') = streamed stderr (ses_parent ses) ++ p) /\
  (exists k, streamed stderr (ses_parent ses') = streamed stderr (ses_parent ses) ++ take k p) /\
  (forall r r' k data e, p_Stdin (ses_parent ses) = Some r -> 0 < k ->
     rd_Read r (Z.min k maxWorkerInput) = (r', data, e) -> len data <= Z.min k maxWorkerInput ->
     exists ses1, proxyInput_Read ses k = (ses1, data, e) /\
       attached ses1 (set_Stdin (ses_parent ses) (Some r'))).
Proof.
  intros Hfull Ha Hw Hp. unfold proxyOutput_Write in Hp.
  apply (proxyOutput_loop_spec Hfull) in Hp; [|done|done|lia].
  split_and!.
  - intros ->. destruct Hp as [(_ & -> & Hs)|[? _]]; [by split|done].
  - destruct Hp as [(_ & _ & Hs)|[_ Hk]]; [|done]. exists (length p). by rewrite Hs, take_ge.
  - intros. by eapply input_transparent.
Qed.

(** How the parent reports the worker's error text. *)
Definition reported (errStr : bytes) : option RunErr :=
  if bool_decide (errStr = []) then None
  else if bool_decide (errStr = ErrFrameDeadline_Error) then Some RErrFrameDeadline
  else Some (RErrGuest errStr).

(** (start and end of an isolated session): given the parent's start message,
    the worker runs the guest with the parent's limits, mode, arguments and
    module, and with a proxy for exactly the capabilities the parent holds; its
    final message is within the parent's bound and gives the parent the goodbye
    text, the log and the error of the run, a frame deadline being recognised as
    such. *)
Theorem process_session run (p : parent) lim cli args wasm errStr goodbye logs :
  limits_wf lim -> len args < 2 ^ 32 -> Forall (fun a => len a < 2 ^ 32) args ->
  len (encodeStart lim cli (capMask (held p)) args wasm) <= MaxFrame ->
  run lim cli (held p) args wasm = (errStr, goodbye, logs) ->
  len errStr <= maxWorkerError -> len goodbye <= GoodbyeMaxLen -> len logs <= maxSessionLog ->
  exists start out payload,
    Write scratch (mkSink []) OpStart (encodeStart lim cli (capMask (held p)) args wasm) = (mkSink start, Ok tt) /\
    RunWorker run start = Ok out /\
    (forall buf, AppendReadBounded out buf (Some maxWorkerPayload) = ([], Ok (OpDone, payload))) /\
    run_done payload = Ok (goodbye, logs, reported errStr).
Proof.
  intros Hlim Hn Hargs Hmax Hrun He Hg Hl.
  change maxWorkerError with 65536 in He. change maxSessionLog with 65536 in Hl. unfold GoodbyeMaxLen in Hg.
  set (done_msg := encodeDone errStr goodbye logs).
  assert (Hd : len done_msg <= maxWorkerPayload OpDone)
    by (change (maxWorkerPayload OpDone) with 135176; subst done_msg; unfold encodeDone; len_lia).
  assert (Hd' : len done_msg <= MaxFrame) by (change (maxWorkerPayload OpDone) with 135176 in Hd;
    change MaxFrame with 67108864; lia).
  eexists (frame_bytes OpStart _), (frame_bytes OpDone done_msg), done_msg.
  split; [by apply Write_sink|]. split_and!.
  - unfold RunWorker, Read, ReadBounded.
    rewrite <- (app_nil_r (frame_bytes OpStart _)), read_frame by (done || exact Hmax).
    cbn [snd]. change (negb (OpStart =? OpStart)) with false. cbv iota.
    rewrite decode_encodeStart by done. cbn [rbind]. rewrite installed_held, Hrun.
    by rewrite Write_sink.
  - intros buf. rewrite <- (app_nil_r (frame_bytes OpDone _)). by apply read_frame.
  - unfold run_done. subst done_msg. rewrite decode_encodeDone by lia. cbn [rbind].
    rewrite !(proj2 (Z.ltb_ge _ _)); [done|..]; [exact Hl|exact Hg|exact He].
Qed.

End Isolation.

(** ** A concrete session *)

(** A screen that keeps the frames it is given. *)
#[export] Instance frame_log : Sink (list Frame) := {
  sink_Present k f := k ++ [f]; sink_Healthy _ := Some true }.

(** A stream of input that ends. *)
#[export] Instance bytes_reader : Reader bytes := fun b n =>
  let d := take (Z.to_nat n) b in
  (drop (length d) b, d, match b with [] => Some ReadEOF | _ => None end).

Definition sample_identity : SessionIdentity := mkSessionIdentity (str "ada") true kindSSHKey true (str "owner-1").

Definition sample_bus : BusSession := let '(b, a) := Open NewMemBus in mkBusSession b a.

Definition sample_parent : Parent MemStore BusSession StaticAuth MapEnv unit unit timerManager
    (list Event) (list Frame) bytes sink :=
  mkParent (Some sample_store) (Some sample_bus) true (Some (mkStaticAuth sample_identity))
    (Some {[ str "room" := str "lobby" ]}) (Some tt) (Some tt) (Some newTimerManager)
    (Some [key_x]) (Some []) (Some (str "input")) (Some (mkSink [])) (Some (mkSink [])) [] [] (mkDedup []).

Definition sample_session := mkSession sample_parent true [] [].

Lemma process_kv_transparent_witness : exists ses' m',
  kv_get (Some sample_session) sample_memory 0 4 32 64 = (Some ses', m', 5) /\
  mem_read m' 32 5 = Some (str "hello") /\ ses_alive ses' = true.
Proof.
  assert (Hs : stored_ok sample_store) by (split; [reflexivity|apply sample_store_ok]).
  destruct (process_kv_transparent sample_session sample_store sample_memory eq_refl eq_refl Hs) as (_ & Hget & _).
  destruct (kv_get (Some sample_store) sample_memory 0 4 32 64) as [[s' m'] n] eqn:Hg.
  destruct (Hget _ _ _ _ _ _ _ Hg) as (ses' & Hses & (s1 & _ & _ & Hal & _)).
  vm_compute in Hg. injection Hg as <- <- <-.
  eexists ses', _. split; [exact Hses|]. split; [reflexivity|exact Hal].
Defined.

Definition one_cell : bytes := [2; 4; 0; 0; 1; 0; 1; 0; 65; 0; 0; 0; 1; 2; 3; 4; 5; 6; 7].

Lemma process_screen_transparent_witness :
  p_sink (ses_parent (rpc_present sample_session one_cell)) =
    Some [mkFrame 1 1 false [mkCell 65 (mkRGB 1 2 3) (mkRGB 4 5 6) 7]] /\
  ses_alive (rpc_present sample_session one_cell) = true.
Proof.
  destruct (process_screen_transparent sample_session [key_x] [] one_cell eq_refl eq_refl eq_refl) as [_ Hp].
  destruct Hp as (sc & Hsc & Hpar & Hal); [by apply bytes_ok_eval|by apply Z.leb_le|].
  vm_compute in Hsc. injection Hsc as <-. rewrite Hpar. split; [reflexivity|].
  destruct (ses_alive _); [done|]. destruct (proj1 Hal eq_refl) as [_ [e He]]. vm_compute in He. discriminate He.
Defined.

Lemma process_services_transparent_witness : exists ses' m' b,
  auth_whoami (Some sample_session) sample_memory 32 64 = Ok (Some ses', m', 6) /\
  mem_read m' 32 6 = Some b /\ DecodeIdentity b = Ok (mkIdentity (str "ada") true IdentitySSHKey true).
Proof.
  destruct (process_services_transparent sample_session sample_memory eq_refl) as [Hauth _].
  destruct (auth_whoami (Some (mkStaticAuth sample_identity)) sample_memory 32 64) as [[[a' m'] n]| |] eqn:Hg;
    [|vm_compute in Hg; discriminate Hg..].
  destruct (Hauth _ _ _ _ _ _ eq_refl Hg) as (ses' & Hses & _).
  vm_compute in Hg. injection Hg as <- <- <-.
  eexists ses', _, _. split; [exact Hses|]. split; vm_compute; reflexivity.
Defined.

(** A memory holding one fetch request. *)
Definition fetch_memory : LinearMemory :=
  mkLinear (EncodeFetchRequest (mkFetchRequest (str "GET") (str "http://a") []) ++ replicate 32 0).

Lemma fetch_memory_bytes o l b : mem_read fetch_memory o l = Some b -> bytes_ok b.
Proof.
  cbn [mem_read LinearMemory_Memory]. case_match; [|done]. intros [= <-].
  apply Forall_take, Forall_drop. by apply bytes_ok_eval.
Qed.

Lemma process_fetch_exec_witness : exists ses',
  fetch (Some sample_session) fetch_memory 0 19 19 32 = Ok (Some ses', fetch_memory, FetchErrDenied) /\
  ses_alive ses' = true.
Proof.
  destruct (process_fetch_exec sample_session fetch_memory eq_refl fetch_memory_bytes) as [Hf _].
  destruct (Hf tt 0 19 19 32 (Some tt) fetch_memory FetchErrDenied eq_refl) as (ses' & n' & Hses & [Hal _] & Hn).
  - intros req f1 r [= _ <-] resp Hr. discriminate Hr.
  - vm_compute. reflexivity.
  - exists ses'. destruct Hn as [->|[_ [Hn|Hn]]]; [by split|discriminate Hn..].
Defined.

Lemma process_streams_witness : exists ses',
  proxyOutput_Write sample_session false (str "hello") = (ses', 5, false) /\
  streamed false (ses_parent ses') = str "hello".
Proof.
  destruct (proxyOutput_Write sample_session false (str "hello")) as [[ses' n] err] eqn:Hw.
  assert (Hfull : full_writes (W:=sink)) by (intros w p w' k [= _ <-]; reflexivity).
  destruct (process_streams sample_session false (str "hello") ses' n err Hfull eq_refl
    (ex_intro _ (mkSink []) eq_refl) Hw) as (Hok & _).
  assert (err = false) as -> by (vm_compute in Hw; by injection Hw as _ _ <-).
  destruct (Hok eq_refl) as [-> Hs]. exists ses'. split; [reflexivity|exact Hs].
Defined.

Lemma process_session_witness : exists start out,
  RunWorker (fun _ _ _ _ _ => ([], str "bye", str "log")) start = Ok out /\ out <> [].
Proof.
  destruct (process_session (fun _ _ _ _ _ => ([], str "bye", str "log")) sample_parent DefaultLimits false
    [str "arg"] [0; 97; 115; 109] [] (str "bye") (str "log")) as (start & out & pl & _ & Hrun & Hread & _).
  - unfold limits_wf, is_u32, is_i64. vm_compute. repeat split; discriminate.
  - done.
  - repeat constructor.
  - apply Z.leb_le. vm_compute. reflexivity.
  - reflexivity.
  - by apply Z.leb_le.
  - by apply Z.leb_le.
  - by apply Z.leb_le.
  - exists start, out. split; [exact Hrun|]. intros ->. specialize (Hread []). vm_compute in Hread. discriminate Hread.
Defined.

(** ** Where the two modes differ *)

Inductive big_fetcher := Big.
#[export] Instance big_Fetcher : Fetcher big_fetcher := fun f _ => (f, inl errResponseTooLarge).

Definition big_session := mkSession
  (mkParent (Some sample_store) (Some sample_bus) true (Some (mkStaticAuth sample_identity))
    (Some ({[ str "room" := str "lobby" ]} : MapEnv)) (Some Big) (Some tt) (Some newTimerManager)
    (Some [key_x]) (Some ([] : list Frame)) (Some (str "input")) (Some (mkSink [])) (Some (mkSink [])) [] []
    (mkDedup [])) true [] [].

(** The guest sees [FetchErrTooLarge] in process and [FetchErrInternal] in a
    worker for the same oversized response. *)
Theorem fetch_too_large_masked :
  fetch (Some Big) fetch_memory 0 19 19 32 = Ok (Some Big, fetch_memory, FetchErrTooLarge) /\
  exists ses', fetch (Some big_session) fetch_memory 0 19 19 32 = Ok (Some ses', fetch_memory, FetchErrInternal).
Proof. split; [vm_compute; reflexivity|]. eexists. vm_compute. reflexivity. Qed.

Definition exec_memory : LinearMemory :=
  mkLinear (EncodeExecRequest (mkExecRequest (str "git") []) ++ replicate 16 0).

(** The guest sees [ExecErrUnavailable] in process and [ExecErrFailed] in a worker
    for the same denied command. *)
Theorem exec_denied_masked :
  exec (Some tt) exec_memory 0 11 11 16 = Ok (Some tt, exec_memory, ExecErrUnavailable) /\
  exists ses', exec (Some sample_session) exec_memory 0 11 11 16 = Ok (Some ses', exec_memory, ExecErrFailed).
Proof. split; [vm_compute; reflexivity|]. eexists. vm_compute. reflexivity. Qed.
