(* ===== verification/GuestHeap.v ===== *)
(** * The guest side of a host call (sdk/kv, sdk/bus, sdk/fetch, sdk/hostexec,
      sdk/identity, sdk/secrets: the wasip1 files)

    An application passes pointers into its linear memory to the host functions.
    The slices it points to are objects of the Go heap of the guest, which lives
    in that memory; the allocator and the collector are the Go runtime's and a
    parameter, the class [GuestHeap].  [growing] is the loop that the reading
    bindings share: call the host with a buffer, and again with a larger one
    when the answer does not fit. *)

From Stdlib Require Import Sorting.Sorted.
From S2P Require Import Prelude HostFns.

(** ** Outcomes of guest code *)

Inductive guest (A : Type) : Type :=
| Done (a : A)
| OutOfMemory          (* the runtime of the guest could not allocate *)
| Crash                (* a panic *)
| Running.             (* the fuel of a loop ran out *)
Arguments Done {A} a.
Arguments OutOfMemory {A}.
Arguments Crash {A}.
Arguments Running {A}.

Definition gbind {A B} (c : guest A) (k : A -> guest B) : guest B :=
  match c with
  | Done a => k a
  | OutOfMemory => OutOfMemory
  | Crash => Crash
  | Running => Running
  end.

Notation "'let&' ' p ':=' c 'in' k" := (gbind c (fun x => match x with p => k end))
  (at level 10, p strict pattern, c at level 100, k at level 200) : go_scope.

(** ** The heap

    A slice is where its elements lie and how many there are. *)

Record block := mkBlock { b_ptr : Z; b_len : Z }.

(** [galloc m live v]: an object holding [v], of an allocator that may reuse
    everything but the objects [live] (what the code still uses, and what
    runtime.KeepAlive holds on to); [None] when memory is exhausted. *)
Class GuestHeap (M : Type) := galloc : M -> list block -> bytes -> option (M * Z).

(** The copy of [bytePtr] in each of the packages. *)
Definition bytePtr (value : block) : Z := if b_len value =? 0 then 0 else i32 (b_ptr value).

Definition make_bytes {M} `{GuestHeap M} (m : M) (live : list block) (v : bytes) : guest (M * block) :=
  match galloc m live v with
  | Some (m, p) => Done (m, mkBlock p (len v))
  | None => OutOfMemory
  end.

(** [make([]byte, n)] *)
Definition make_zero {M} `{GuestHeap M} (m : M) (live : list block) (n : Z) : guest (M * block) :=
  make_bytes m live (replicate (Z.to_nat n) 0).

(** What the object holds, as the host reads it. *)
Definition held {M} `{Memory M} (m : M) (b : block) (v : bytes) : Prop :=
  mem_read m (u32 (bytePtr b)) (b_len b) = Some v.

Definition keeps {M} `{Memory M} (m m' : M) (live : list block) : Prop :=
  forall b v, b ∈ live -> held m b v -> held m' b v.

(** [heap_ok m live]: the objects [live] lie in memory and do not overlap.  A new
    object is apart from them and leaves them alone, and a write inside an object
    succeeds and changes no other. *)
Class GuestHeapLaws (M : Type) `{Memory M} `{!GuestHeap M} := {
  heap_ok : M -> list block -> Prop;
  read_empty m : mem_read m 0 0 = Some [];
  heap_drop m b live : heap_ok m (b :: live) -> heap_ok m live;
  alloc_spec m live v m' p :
    heap_ok m live -> galloc m live v = Some (m', p) ->
    heap_ok m' (mkBlock p (len v) :: live) /\ held m' (mkBlock p (len v)) v /\ keeps m m' live;
  write_spec m b live v :
    heap_ok m (b :: live) -> v <> [] -> len v <= b_len b ->
    exists m', mem_write m (u32 (bytePtr b)) v = (m', true) /\ heap_ok m' (b :: live) /\ keeps m m' live }.

(** ** Calling with a buffer that grows *)

(** What the switch on the answer [n] decides. *)
Inductive branch (R : Type) : Type :=
| Return (r : R)
| Accept (k : bytes -> guest R)     (* goes on with [buffer[:n]] *)
| Grow.                             (* [buffer = make([]byte, n)] and again *)
Arguments Return {R} r.
Arguments Accept {R} k.
Arguments Grow {R}.

Section Growing.
Context {M H R : Type} `{Memory M} `{!GuestHeap M}.

(** [buffer[:n]] *)
Definition load (m : M) (buffer : block) (n : Z) : guest bytes :=
  if n =? 0 then Done [] else
  match mem_read m (u32 (bytePtr buffer)) n with
  | Some b => Done b
  | None => Crash
  end.

(** One round of the loop per unit of fuel. *)
Fixpoint growing (fuel : nat) (live : list block) (call : M -> H -> block -> M * H * Z)
    (switch : nat -> Z -> Z -> branch R) (round : nat) (m : M) (h : H) (buffer : block)
  : guest (M * H * R) :=
  match fuel with
  | O => Running
  | S fuel =>
    let '(m, h, n) := call m h buffer in
    match switch round n (b_len buffer) with
    | Return r => Done (m, h, r)
    | Accept k =>
      let& 'b := load m buffer n in
      let& 'r := k b in
      Done (m, h, r)
    | Grow =>
      let& '(m, buffer) := make_zero m live n in
      growing fuel live call switch (S round) m h buffer
    end
  end.

End Growing.

(** ** Lemmas *)

Section HeapLemmas.
Context {M : Type} `{MemoryLaws M} `{!GuestHeap M, !GuestHeapLaws M}.

Lemma keeps_refl (m : M) live : keeps m m live.
Proof. by intros b v _. Qed.

Lemma keeps_trans (m1 m2 m3 : M) live : keeps m1 m2 live -> keeps m2 m3 live -> keeps m1 m3 live.
Proof. intros H1 H2 b v Hb Hv. by apply H2, H1. Qed.

Lemma keeps_drop (m m' : M) b live : keeps m m' (b :: live) -> keeps m m' live.
Proof. intros Hk c v Hc. apply Hk. by apply elem_of_cons; right. Qed.

Lemma keeps_held (m m' : M) live b v : keeps m m' live -> b ∈ live -> held m b v -> held m' b v.
Proof. intros Hk. apply Hk. Qed.

Lemma held_len (m : M) b v : held m b v -> len v = b_len b.
Proof. apply read_len. Qed.

(** The two ways of an allocation. *)
Lemma make_bytes_spec (m : M) live v :
  heap_ok m live ->
  make_bytes m live v = OutOfMemory \/
  exists m' b, make_bytes m live v = Done (m', b) /\ heap_ok m' (b :: live) /\ b_len b = len v /\
    held m' b v /\ keeps m m' live.
Proof.
  intros Hok. unfold make_bytes. destruct (galloc m live v) as [[m' p]|] eqn:E; [|by left].
  destruct (alloc_spec _ _ _ _ _ Hok E) as (H1 & H2 & H3). right. eauto 10.
Qed.

Lemma make_zero_spec (m : M) live n :
  heap_ok m live -> 0 <= n ->
  make_zero m live n = OutOfMemory \/
  exists m' b, make_zero m live n = Done (m', b) /\ heap_ok m' (b :: live) /\ b_len b = n /\
    keeps m m' live.
Proof.
  intros Hok Hn. unfold make_zero.
  destruct (make_bytes_spec m live (replicate (Z.to_nat n) 0) Hok) as [->|(m' & b & -> & H1 & H2 & _ & H3)]; [by left|].
  right. exists m', b. split_and!; [done|done| |done]. rewrite H2. unfold len. rewrite length_replicate. lia.
Qed.

Lemma keeps_placed (m1 m2 m3 : M) b live : keeps m1 m2 live -> keeps m2 m3 (b :: live) -> keeps m1 m3 live.
Proof. intros H1 H2. eapply keeps_trans; [exact H1|by eapply keeps_drop]. Qed.

Lemma in_head (b : block) live : b ∈ b :: live.
Proof. by apply elem_of_cons; left. Qed.

(** The host reads what the application placed. *)
Lemma read_held (m : M) vb v :
  held m vb v -> len v < 2 ^ 31 -> i32 (b_len vb) = len v /\ mem_read m (u32 (bytePtr vb)) (u32 (len v)) = Some v.
Proof.
  intros Hh Hv. pose proof (held_len _ _ _ Hh) as Hl. len_pos.
  rewrite <- Hl, i32_small, (u32_small (len v)) by (unfold is_i32, is_u32; lia).
  split; [done|]. rewrite Hl. exact Hh.
Qed.

(** A host function that answers with [v] does it into the buffer, or measures. *)
Lemma write_out_heap (m : M) b live v err always m' n :
  heap_ok m (b :: live) -> 0 < b_len b -> len v < 2 ^ 31 -> (always = true -> v <> []) ->
  write_out m (bytePtr b) (b_len b) v err always = (m', n) ->
  n = len v /\ heap_ok m' (b :: live) /\ keeps m m' live /\
  (n <= b_len b -> load m' b n = Done v).
Proof.
  intros Hok Hb Hv Ha Hw. unfold write_out in Hw. len_pos.
  rewrite i32_small in Hw by (unfold is_i32; lia).
  destruct (b_len b <? len v) eqn:Hc; zbool.
  { injection Hw as <- <-. split_and!; [done|done|apply keeps_refl|lia]. }
  destruct (always || (0 <? len v)) eqn:Hal.
  - assert (v <> []) as Hne.
    { destruct always; [by apply Ha|]. cbn [orb] in Hal. by intros ->. }
    destruct (write_spec m b live v Hok Hne Hc) as (m1 & E & Hok' & Hk). rewrite E in Hw.
    injection Hw as <- <-. split_and!; [done|done|done|]. intros _. unfold load.
    destruct (len v =? 0) eqn:Hz; zbool; [by rewrite (len_0_nil v)|].
    by rewrite (write_read _ _ _ _ E).
  - injection Hw as <- <-. apply orb_false_iff in Hal as [_ Hal]. zbool.
    rewrite (len_0_nil v) by lia. split_and!; [done|done|apply keeps_refl|done].
Qed.

End HeapLemmas.

(** The loop ends whatever the host answers, as long as its answers are bounded:
    every further round has a larger buffer.  [I] holds before a round with a
    buffer of the given size, [Q] is what the last call leaves. *)
Section GrowingSpec.
Context {M H R : Type} `{MemoryLaws M} `{!GuestHeap M, !GuestHeapLaws M}.
Context (live : list block) (call : M -> H -> block -> M * H * Z)
  (switch : nat -> Z -> Z -> branch R) (bound : Z).
Context (I : Z -> M -> H -> Prop) (Q : H -> R -> Prop).

Hypothesis I_heap : forall cap m m' h, I cap m h -> keeps m m' live -> I cap m' h.
Hypothesis round_ok : forall round m h b,
  I (b_len b) m h -> heap_ok m (b :: live) -> 0 < b_len b <= bound ->
  let '(m', h', n) := call m h b in
  heap_ok m' (b :: live) /\ keeps m m' live /\
  match switch round n (b_len b) with
  | Return r => Q h' r
  | Accept k => exists v r, load m' b n = Done v /\ k v = Done r /\ Q h' r
  | Grow => b_len b < n <= bound /\ I n m' h'
  end.

Lemma growing_spec fuel round m h b :
  I (b_len b) m h -> heap_ok m (b :: live) -> 0 < b_len b <= bound -> (Z.to_nat (bound - b_len b) < fuel)%nat ->
  growing fuel live call switch round m h b = OutOfMemory \/
  exists m' h' r, growing fuel live call switch round m h b = Done (m', h', r) /\
    heap_ok m' live /\ keeps m m' live /\ Q h' r.
Proof using All.
  revert round m h b. induction fuel as [|fuel IH]; intros round m h b HI Hok Hb Hf; [lia|].
  cbn [growing]. pose proof (round_ok round m h b HI Hok Hb) as Hr.
  destruct (call m h b) as [[m1 h1] n]. destruct Hr as (Hok1 & Hk1 & Hs).
  pose proof (heap_drop _ _ _ Hok1) as Hdrop.
  destruct (switch round n (b_len b)) as [r|k|].
  - right. exists m1, h1, r. by split_and!.
  - destruct Hs as (v & r & -> & Hkv & HQ). cbn [gbind]. rewrite Hkv. cbn [gbind].
    right. exists m1, h1, r. by split_and!.
  - destruct Hs as [Hn HI1].
    destruct (make_zero_spec m1 live n Hdrop ltac:(lia)) as [->|(m2 & b2 & -> & Hok2 & Hl & Hk2)];
      [by left|]. cbn [gbind].
    destruct (IH (S round) m2 h1 b2) as [->|(m' & h' & r & -> & Hok' & Hk' & HQ)]; try done; try lia.
    + rewrite Hl. by eapply I_heap.
    + by left.
    + right. exists m', h', r. split_and!; try done. eapply keeps_trans; [exact Hk1|]. by eapply keeps_trans.
Qed.

End GrowingSpec.

(** ** A heap that only grows

    For the witnesses: linear memory with a bump allocator at its end. *)

#[export] Instance bump_heap : GuestHeap LinearMemory := fun m _ v =>
  if len (lin m) + len v <=? 2 ^ 32 then Some (mkLinear (lin m ++ v), len (lin m)) else None.

Definition apart (b c : block) : Prop := b_ptr b + b_len b <= b_ptr c \/ b_ptr c + b_len c <= b_ptr b.

Definition inside (m : LinearMemory) (b : block) : Prop :=
  0 <= b_ptr b /\ 0 <= b_len b /\ b_ptr b + b_len b <= len (lin m).

Definition bump_ok (m : LinearMemory) (live : list block) : Prop :=
  len (lin m) <= 2 ^ 32 /\ Forall (inside m) live /\ StronglySorted apart live.

Lemma inside_ptr m b : len (lin m) <= 2 ^ 32 -> inside m b -> b_len b <> 0 -> u32 (bytePtr b) = b_ptr b.
Proof.
  intros Hm (H1 & H2 & H3) Hn. unfold bytePtr. rewrite (proj2 (Z.eqb_neq _ _)) by done.
  unfold u32, i32. rewrite Zminus_mod_idemp_l.
  replace (b_ptr b + 2 ^ 31 - 2 ^ 31) with (b_ptr b) by lia. apply Z.mod_small. lia.
Qed.

Lemma linear_read_iff m o n : 0 <= o -> 0 <= n -> o + n <= len (lin m) ->
  mem_read m o n = Some (take (Z.to_nat n) (drop (Z.to_nat o) (lin m))).
Proof. intros. cbn. by rewrite !(proj2 (Z.leb_le _ _)) by lia. Qed.

(** An object of a smaller memory is the same in one that agrees on its bytes. *)
Lemma held_same m m' b v :
  len (lin m) <= 2 ^ 32 -> len (lin m') <= 2 ^ 32 -> inside m b -> inside m' b ->
  mem_read m' (b_ptr b) (b_len b) = mem_read m (b_ptr b) (b_len b) -> held m b v -> held m' b v.
Proof.
  intros Hm Hm' Hi Hi' E Hh. unfold held in *. destruct (Z.eq_dec (b_len b) 0) as [Hz|Hn].
  - pose proof (read_len _ _ _ _ Hh) as Hl. rewrite Hz in Hl. unfold bytePtr in *.
    rewrite Hz in *. cbn [Z.eqb] in *. rewrite linear_read_iff by (change (u32 0) with 0; len_lia).
    by rewrite (len_0_nil v).
  - rewrite (inside_ptr m) in Hh by done. rewrite (inside_ptr m') by done. by rewrite E.
Qed.

#[export] Instance bump_laws : GuestHeapLaws LinearMemory.
Proof.
  refine {| heap_ok := bump_ok |}.
  - intros m. by rewrite linear_read_iff by len_lia.
  - intros m b live (Hm & Hi & Ha). inversion Hi; inversion Ha; subst. by split_and!.
  - intros m live v m' p (Hm & Hi & Ha) E. unfold galloc, bump_heap in E.
    destruct (_ <=? _) eqn:Hc in E; [|done]. zbool. injection E as <- <-.
    assert (Hlen : len (lin m ++ v) = len (lin m) + len v) by apply len_app. len_pos.
    assert (Hin : forall b, inside m b -> inside (mkLinear (lin m ++ v)) b).
    { intros b (K1 & K2 & K3). unfold inside. cbn [lin]. rewrite Hlen. lia. }
    assert (Hk : keeps m (mkLinear (lin m ++ v)) live).
    { intros b w Hb Hw. pose proof (proj1 (Forall_forall _ _) Hi b Hb) as Hib.
      apply (held_same m); [done|cbn [lin]; lia|done|by apply Hin| |done].
      destruct Hib as (G1 & G2 & G3). rewrite !linear_read_iff by (cbn [lin]; lia). f_equal. cbn [lin].
      unfold len in *. rewrite drop_app_le by lia. rewrite take_app_le; [done|]. rewrite length_drop. lia. }
    split_and!.
    + split_and!; [cbn [lin]; lia| |].
      { constructor; [unfold inside; cbn [lin b_ptr b_len]; lia|]. eapply Forall_impl; [exact Hi|exact Hin]. }
      constructor; [exact Ha|]. eapply Forall_impl; [exact Hi|]. intros b (G1 & G2 & G3). right. cbn. lia.
    + unfold held. cbn [b_len]. destruct (Z.eq_dec (len v) 0) as [Hz|Hn].
      * unfold bytePtr. cbn [b_len]. rewrite Hz. cbn [Z.eqb]. rewrite (len_0_nil v) by done.
        rewrite linear_read_iff; [done|done|done|]. change (u32 0) with 0. cbn [lin]. len_lia.
      * rewrite (inside_ptr (mkLinear (lin m ++ v))) by (unfold inside; cbn [lin b_ptr b_len]; lia).
        cbn [b_ptr]. rewrite linear_read_iff by (cbn [lin]; lia). cbn [lin]. f_equal.
        unfold len. rewrite !Nat2Z.id, drop_app_length. apply firstn_all.
    + exact Hk.
  - intros m b live v (Hm & Hi & Ha) Hv Hl. apply Forall_cons in Hi as HiB; destruct HiB as [Hib Hil]; apply StronglySorted_inv in Ha as HaB; destruct HaB as [Hal Hab].
    assert (Hn : b_len b <> 0).
    { intros Hz. apply Hv, len_0_nil. len_pos. lia. }
    rewrite (inside_ptr m) by done. pose proof Hib as (J1 & J2 & J3). len_pos.
    assert (Hlen : len (overwrite (lin m) (Z.to_nat (b_ptr b)) v) = len (lin m)).
    { unfold len in *. rewrite overwrite_length by lia. done. }
    assert (Hin : forall c, inside m c -> inside (mkLinear (overwrite (lin m) (Z.to_nat (b_ptr b)) v)) c).
    { intros c (K1 & K2 & K3). unfold inside. cbn [lin]. rewrite Hlen. lia. }
    eexists. assert (E : mem_write m (b_ptr b) v = (mkLinear (overwrite (lin m) (Z.to_nat (b_ptr b)) v), true)).
    { cbn. by rewrite !(proj2 (Z.leb_le _ _)) by lia. }
    split; [exact E|]. split.
    + split_and!; [cbn [lin]; lia| |done]. eapply Forall_impl; [exact Hi|exact Hin].
    + intros c w Hc Hw. pose proof (proj1 (Forall_forall _ _) Hil c Hc) as Hic.
      pose proof (proj1 (Forall_forall _ _) Hab c Hc) as Hap.
      apply (held_same m); [done|cbn [lin]; lia|done|by apply Hin| |done].
      destruct Hic as (K1 & K2 & K3).
      apply (write_frame _ _ _ _ (b_ptr c) (b_len c) E); try lia. destruct Hap; lia.
Defined.

Lemma bump_start m live : bump_ok m live -> heap_ok m live.
Proof. exact id. Qed.
