(* ===== verification/GuestKV.v ===== *)
(** * Storage as an application sees it (sdk/kv)

    kv.go: the operations an application runs, over an adapter; wasip1.go: the
    adapter of the sandbox, on the host functions of the runner; native.go and
    fixture.go: the adapters of native runs and of tests.  The theorem says that an
    application gets the same answers from all of them, whatever store the host
    has behind the host functions. *)

From S2P Require Import Prelude Abi AbiCaps Keys Sha256 KVStore HostFns GuestHeap.

(** What [ctx.Err()] may give (package context). *)
Inductive ctx_error := Canceled | DeadlineExceeded.

Module guestkv.

(** ** kv.go *)

Inductive kv_error :=
| ErrUnavailable | ErrInvalid | ErrTooLarge | ErrQuota | ErrConflict
| ErrContext (e : ctx_error).

#[export] Instance kv_error_eq_dec : EqDecision kv_error.
Proof. repeat intro. unfold Decision. repeat decide equality. Defined.

Record GetResult := mkGetResult { gr_Value : bytes; gr_Found : bool; gr_Err : option kv_error }.
Record SetResult := mkSetResult { sr_Err : option kv_error }.
Record DeleteResult := mkDeleteResult { dr_Err : option kv_error }.
Record ListResult := mkListResult { lr_Keys : list bytes; lr_Err : option kv_error }.
Record CompareAndSwapResult := mkCASResult { cr_Err : option kv_error }.

(** [Adapter], which the functions chosen by the build tags implement as well. *)
Class Adapter (B : Type) := {
  ad_Get : B -> bytes -> guest (B * (bytes * bool * option kv_error));
  ad_Set : B -> bytes -> bytes -> guest (B * option kv_error);
  ad_Delete : B -> bytes -> guest (B * option kv_error);
  ad_List : B -> bytes -> Z -> guest (B * (list bytes * option kv_error));
  ad_CompareAndSwap : B -> bytes -> bytes -> bytes -> guest (B * option kv_error) }.

Definition validateKey (key : bytes) : option kv_error :=
  if len key =? 0 then Some ErrInvalid else
  if KVMaxKey <? len key then Some ErrTooLarge else
  None.

Definition validateKeyValue (key value : bytes) : option kv_error :=
  match validateKey key with
  | Some err => Some err
  | None => if KVMaxValue <? len value then Some ErrTooLarge else None
  end.

Definition normalize (err : option kv_error) : option kv_error :=
  match err with None => None | Some _ => err end.

(** The operations; [ctx] is what [ctx.Err()] gives when it is asked, [b] the
    adapter of the context, or else the one of the platform. *)
Section Operations.
Context {B : Type} `{Adapter B}.

Definition Get (ctx : option ctx_error) (b : B) (key : bytes) : guest (B * GetResult) :=
  match validateKey key with
  | Some err => Done (b, mkGetResult [] false (Some err))
  | None =>
    match ctx with
    | Some err => Done (b, mkGetResult [] false (Some (ErrContext err)))
    | None =>
      let& '(b, (value, found, err)) := ad_Get b key in
      Done (b, mkGetResult value found (normalize err))
    end
  end.

Definition Set_op (ctx : option ctx_error) (b : B) (key value : bytes) : guest (B * SetResult) :=
  match validateKeyValue key value with
  | Some err => Done (b, mkSetResult (Some err))
  | None =>
    match ctx with
    | Some err => Done (b, mkSetResult (Some (ErrContext err)))
    | None => let& '(b, err) := ad_Set b key value in Done (b, mkSetResult (normalize err))
    end
  end.

Definition Delete (ctx : option ctx_error) (b : B) (key : bytes) : guest (B * DeleteResult) :=
  match validateKey key with
  | Some err => Done (b, mkDeleteResult (Some err))
  | None =>
    match ctx with
    | Some err => Done (b, mkDeleteResult (Some (ErrContext err)))
    | None => let& '(b, err) := ad_Delete b key in Done (b, mkDeleteResult (normalize err))
    end
  end.

Definition List_op (ctx : option ctx_error) (b : B) (prefix : bytes) (limit : Z) : guest (B * ListResult) :=
  if (KVMaxKey <? len prefix) || (KVMaxList <? limit) then Done (b, mkListResult [] (Some ErrTooLarge)) else
  if limit <? 1 then Done (b, mkListResult [] (Some ErrInvalid)) else
  match ctx with
  | Some err => Done (b, mkListResult [] (Some (ErrContext err)))
  | None =>
    let& '(b, (keys, err)) := ad_List b prefix limit in
    Done (b, mkListResult keys (normalize err))
  end.

Definition CompareAndSwap (ctx : option ctx_error) (b : B) (key expected value : bytes)
  : guest (B * CompareAndSwapResult) :=
  match validateKeyValue key value with
  | Some err => Done (b, mkCASResult (Some err))
  | None =>
    match ctx with
    | Some err => Done (b, mkCASResult (Some (ErrContext err)))
    | None =>
      let& '(b, err) := ad_CompareAndSwap b key expected value in
      Done (b, mkCASResult (normalize err))
    end
  end.

(** Any of them, for the programs of an application. *)
Inductive kv_op :=
| OGet (key : bytes) | OSet (key value : bytes) | ODelete (key : bytes)
| OList (prefix : bytes) (limit : Z) | OCompareAndSwap (key expected value : bytes).

Inductive kv_answer :=
| AGet (r : GetResult) | ASet (r : SetResult) | ADelete (r : DeleteResult)
| AList (r : ListResult) | ACompareAndSwap (r : CompareAndSwapResult).

Definition gmap_guest {A C} (f : A -> C) (c : guest (B * A)) : guest (B * C) :=
  let& '(b, a) := c in Done (b, f a).

Definition run_op (ctx : option ctx_error) (b : B) (op : kv_op) : guest (B * kv_answer) :=
  match op with
  | OGet key => gmap_guest AGet (Get ctx b key)
  | OSet key value => gmap_guest ASet (Set_op ctx b key value)
  | ODelete key => gmap_guest ADelete (Delete ctx b key)
  | OList prefix limit => gmap_guest AList (List_op ctx b prefix limit)
  | OCompareAndSwap key expected value =>
    gmap_guest ACompareAndSwap (CompareAndSwap ctx b key expected value)
  end.

Fixpoint run_ops (b : B) (ops : list (option ctx_error * kv_op)) : guest (B * list kv_answer) :=
  match ops with
  | [] => Done (b, [])
  | (ctx, op) :: ops =>
    let& '(b, a) := run_op ctx b op in
    let& '(b, answers) := run_ops b ops in
    Done (b, a :: answers)
  end.

End Operations.

(** ** fixture.go: the store of tests

    Its lock makes every method one step. *)

Record FixtureMemory := mkMemory { data : kvmap }.

Definition NewMemory (initial : kvmap) : FixtureMemory := mkMemory initial.

(** The keys of a Go map come in any order; they are sorted. *)
Definition sorted_keys (d : kvmap) (prefix : bytes) (limit : Z) : list bytes :=
  let keys := filter (fun k => has_prefix k prefix) (map fst (map_to_list d)) in
  let keys := sort_keys keys in
  if limit <? len keys then take (Z.to_nat limit) keys else keys.

Definition revision (o : option bytes) : bytes :=
  match o with Some current => sha256 current | None => zero_hash end.

Definition Memory_Get (memory : FixtureMemory) (key : bytes) : bytes * bool * option kv_error :=
  match validateKey key with
  | Some err => ([], false, Some err)
  | None =>
    let value := data memory !! key in
    (default [] value, bool_decide (is_Some value), None)
  end.

Definition Memory_Set (memory : FixtureMemory) (key value : bytes) : FixtureMemory * option kv_error :=
  match validateKeyValue key value with
  | Some err => (memory, Some err)
  | None => (mkMemory (<[key := value]> (data memory)), None)
  end.

Definition Memory_Delete (memory : FixtureMemory) (key : bytes) : FixtureMemory * option kv_error :=
  match validateKey key with
  | Some err => (memory, Some err)
  | None => (mkMemory (delete key (data memory)), None)
  end.

Definition Memory_List (memory : FixtureMemory) (prefix : bytes) (limit : Z) : list bytes * option kv_error :=
  if (KVMaxKey <? len prefix) || (limit <? 1) || (KVMaxList <? limit) then ([], Some ErrTooLarge) else
  (sorted_keys (data memory) prefix limit, None).

Definition Memory_CompareAndSwap (memory : FixtureMemory) (key expected value : bytes)
  : FixtureMemory * option kv_error :=
  match validateKeyValue key value with
  | Some err => (memory, Some err)
  | None =>
    if negb (bool_decide (revision (data memory !! key) = expected)) then (memory, Some ErrConflict) else
    (mkMemory (<[key := value]> (data memory)), None)
  end.

(** [Value] *)
Definition Memory_Value (memory : FixtureMemory) (key : bytes) : bytes :=
  let '(value, _, _) := Memory_Get memory key in value.

#[export] Instance Memory_Adapter : Adapter FixtureMemory := {
  ad_Get b key := Done (b, Memory_Get b key);
  ad_Set b key value := Done (Memory_Set b key value);
  ad_Delete b key := Done (Memory_Delete b key);
  ad_List b prefix limit := Done (b, Memory_List b prefix limit);
  ad_CompareAndSwap b key expected value := Done (Memory_CompareAndSwap b key expected value) }.

(** ** native.go: the store of the process *)

Record native := mkNative { nativeStore : kvmap }.

Definition bad_key (key : bytes) : bool := (len key =? 0) || (KVMaxKey <? len key).

Definition native_kvGet (st : native) (key : bytes) : bytes * bool * option kv_error :=
  if bad_key key then ([], false, Some ErrTooLarge) else
  let value := nativeStore st !! key in
  (default [] value, bool_decide (is_Some value), None).

Definition native_kvSet (st : native) (key value : bytes) : native * option kv_error :=
  if bad_key key || (KVMaxValue <? len value) then (st, Some ErrTooLarge) else
  (mkNative (<[key := value]> (nativeStore st)), None).

Definition native_kvDelete (st : native) (key : bytes) : native * option kv_error :=
  if bad_key key then (st, Some ErrTooLarge) else
  (mkNative (delete key (nativeStore st)), None).

Definition native_kvList (st : native) (prefix : bytes) (limit : Z) : list bytes * option kv_error :=
  if (KVMaxKey <? len prefix) || (limit <? 1) || (KVMaxList <? limit) then ([], Some ErrTooLarge) else
  (sorted_keys (nativeStore st) prefix limit, None).

Definition native_kvCompareAndSwap (st : native) (key expected value : bytes) : native * option kv_error :=
  if bad_key key || (KVMaxValue <? len value) then (st, Some ErrTooLarge) else
  if negb (bool_decide (revision (nativeStore st !! key) = expected)) then (st, Some ErrConflict) else
  (mkNative (<[key := value]> (nativeStore st)), None).

#[export] Instance native_Adapter : Adapter native := {
  ad_Get b key := Done (b, native_kvGet b key);
  ad_Set b key value := Done (native_kvSet b key value);
  ad_Delete b key := Done (native_kvDelete b key);
  ad_List b prefix limit := Done (b, native_kvList b prefix limit);
  ad_CompareAndSwap b key expected value := Done (native_kvCompareAndSwap b key expected value) }.

(** ** wasip1.go: the store of the host *)

Definition kvError (code : Z) : option kv_error :=
  if (code =? KVOk) || (code =? KVErrNotFound) then None else
  if code =? KVErrTooLarge then Some ErrTooLarge else
  if code =? KVErrQuota then Some ErrQuota else
  if code =? KVErrConflict then Some ErrConflict else
  Some ErrUnavailable.

(** More rounds than a loop can take: every round but the first has a buffer
    larger than the one before, and no answer is longer. *)
Definition kv_bound : Z := KVMaxList * (2 + KVMaxKey).
Definition kv_rounds : nat := Z.to_nat kv_bound.

Section Hosted.
Context {M S : Type} `{Memory M} `{!GuestHeap M} `{Store S}.

(** The guest's memory, with its other objects, and the host's side. *)
Record hosted := mkHosted { hs_mem : M; hs_live : list block; hs_kv : option S }.

Definition with_host (st : hosted) (m : M) (kv : option S) : hosted := mkHosted m (hs_live st) kv.

(** What the switch of [kvGet] decides. *)
Definition kvGet_switch (_ : nat) (n cap : Z) : branch (bytes * bool * option kv_error) :=
  if n =? KVErrNotFound then Return ([], false, None) else
  if n <? 0 then Return ([], false, kvError n) else
  if n <=? cap then Accept (fun b => Done (b, true, None)) else
  Grow.

Definition kvGet (st : hosted) (key : bytes) : guest (hosted * (bytes * bool * option kv_error)) :=
  if bad_key key then Done (st, ([], false, Some ErrTooLarge)) else
  let& '(m, keyBytes) := make_bytes (hs_mem st) (hs_live st) key in
  let& '(m, buffer) := make_zero m (keyBytes :: hs_live st) 256 in
  let& '(m, kv, r) :=
    growing kv_rounds (keyBytes :: hs_live st)
      (fun m kv buffer =>
         let '(kv, m, n) := kv_get kv m (bytePtr keyBytes) (i32 (b_len keyBytes)) (bytePtr buffer) (i32 (b_len buffer)) in
         (m, kv, n))
      kvGet_switch 0 m (hs_kv st) buffer in
  Done (with_host st m kv, r).

(** [value] is the copy that [Set] made, placed in memory here. *)
Definition kvSet (st : hosted) (key value : bytes) : guest (hosted * option kv_error) :=
  if bad_key key || (KVMaxValue <? len value) then Done (st, Some ErrTooLarge) else
  let& '(m, valueBytes) := make_bytes (hs_mem st) (hs_live st) value in
  let& '(m, keyBytes) := make_bytes m (valueBytes :: hs_live st) key in
  let '(kv, result) :=
    kv_set (hs_kv st) m (bytePtr keyBytes) (i32 (b_len keyBytes)) (bytePtr valueBytes) (i32 (b_len valueBytes)) in
  Done (with_host st m kv, kvError result).

Definition kvDelete (st : hosted) (key : bytes) : guest (hosted * option kv_error) :=
  if bad_key key then Done (st, Some ErrTooLarge) else
  let& '(m, keyBytes) := make_bytes (hs_mem st) (hs_live st) key in
  let '(kv, result) := kv_delete (hs_kv st) m (bytePtr keyBytes) (i32 (b_len keyBytes)) in
  Done (with_host st m kv, kvError result).

Definition kvList_switch (_ : nat) (n cap : Z) : branch (list bytes * option kv_error) :=
  if n <? 0 then Return ([], kvError n) else
  if n <=? cap then
    Accept (fun b => match DecodeKVList b with
                     | Ok keys => Done (keys, None)
                     | Err _ => Done ([], Some ErrUnavailable)
                     | Panic => Crash
                     end)
  else Grow.

Definition kvList (st : hosted) (prefix : bytes) (limit : Z) : guest (hosted * (list bytes * option kv_error)) :=
  if (KVMaxKey <? len prefix) || (limit <? 1) || (KVMaxList <? limit) then Done (st, ([], Some ErrTooLarge)) else
  let& '(m, prefixBytes) := make_bytes (hs_mem st) (hs_live st) prefix in
  let& '(m, buffer) := make_zero m (prefixBytes :: hs_live st) 1024 in
  let& '(m, kv, r) :=
    growing kv_rounds (prefixBytes :: hs_live st)
      (fun m kv buffer =>
         let '(kv, m, n) := kv_list kv m (bytePtr prefixBytes) (i32 (b_len prefixBytes)) (i32 limit)
                              (bytePtr buffer) (i32 (b_len buffer)) in
         (m, kv, n))
      kvList_switch 0 m (hs_kv st) buffer in
  Done (with_host st m kv, r).

Definition kvCompareAndSwap (st : hosted) (key expected value : bytes) : guest (hosted * option kv_error) :=
  if bad_key key || (KVMaxValue <? len value) then Done (st, Some ErrTooLarge) else
  let& '(m, valueBytes) := make_bytes (hs_mem st) (hs_live st) value in
  let& '(m, expectedBytes) := make_bytes m (valueBytes :: hs_live st) expected in
  let& '(m, keyBytes) := make_bytes m (expectedBytes :: valueBytes :: hs_live st) key in
  let '(kv, result) :=
    kv_compare_and_swap (hs_kv st) m (bytePtr keyBytes) (i32 (b_len keyBytes)) (bytePtr expectedBytes)
      (bytePtr valueBytes) (i32 (b_len valueBytes)) in
  Done (with_host st m kv, kvError result).

#[export] Instance hosted_Adapter : Adapter hosted := {
  ad_Get := kvGet;
  ad_Set := kvSet;
  ad_Delete := kvDelete;
  ad_List := kvList;
  ad_CompareAndSwap := kvCompareAndSwap }.

End Hosted.

(** ** The sandbox against the reference

    [FixtureMemory] is the reference: a map.  An answer of the sandbox is the
    answer of the reference on the contents of the host's store, or reports that
    the store refused, and then nothing changed. *)

Section HostedLaws.
Context {M S : Type} `{MemoryLaws M} `{!GuestHeap M, !GuestHeapLaws M} `{StoreLaws S}.
Abbreviation hosted := (@hosted M S).

Definition bounded (c : kvmap) : Prop := map_Forall (fun k v => key_ok k /\ val_ok v) c.

Definition store_is (kv : option S) (c : kvmap) : Prop :=
  exists s, kv = Some s /\ sinv s /\ view s = c.

(** The state holds the contents [c], and the objects of the application are intact. *)
Definition holds (st : hosted) (c : kvmap) : Prop :=
  heap_ok (hs_mem st) (hs_live st) /\ store_is (hs_kv st) c /\ bounded c.

Definition undisturbed (st st' : hosted) : Prop :=
  hs_live st' = hs_live st /\ keeps (hs_mem st) (hs_mem st') (hs_live st).

(** A store that accepts everything within the caps. *)
Record Steady : Prop := mkSteady {
  steady_get s k s' e : sinv (S:=S) s -> kv_Get s k <> (s', inl e);
  steady_set s k v s' e : sinv (S:=S) s -> kv_Set s k v <> (s', Some e);
  steady_delete s k s' e : sinv (S:=S) s -> kv_Delete s k <> (s', Some e);
  steady_list s p n s' e : sinv (S:=S) s -> 1 <= n <= KVMaxList -> kv_List s p n <> (s', inl e);
  steady_cas s k x v s' e :
    sinv (S:=S) s -> e <> KVStore.ErrConflict -> kv_CompareAndSwap s k x v <> (s', Some e) }.

Definition refusal (err : option kv_error) : Prop :=
  ~ Steady /\ (err = Some ErrUnavailable \/ err = Some ErrQuota).

Ltac refuse :=
  split; [intros Hst; match goal with
    | E : kv_Get _ _ = _ |- _ => eapply (steady_get Hst); [|exact E]; done
    | E : kv_Set _ _ _ = _ |- _ => eapply (steady_set Hst); [|exact E]; done
    | E : kv_Delete _ _ = _ |- _ => eapply (steady_delete Hst); [|exact E]; done
    | E : kv_List _ _ _ = _ |- _ => eapply (steady_list Hst); [| |exact E]; done
    | E : kv_CompareAndSwap _ _ _ _ = _ |- _ => eapply (steady_cas Hst); [| |exact E]; done
    end
  | first [by left | by right]].

(** A call of the adapter with contents [c] against a function of the reference. *)
Definition answers {A : Type} (st : hosted) (c : kvmap) (call : guest (hosted * A))
    (reference : FixtureMemory * A) (err : A -> option kv_error) : Prop :=
  call = OutOfMemory \/
  exists st' c' r, call = Done (st', r) /\ holds st' c' /\ undisturbed st st' /\
    ((mkMemory c', r) = reference \/ (c' = c /\ refusal (err r))).

Lemma undisturbed_refl st : undisturbed st st.
Proof. split; [done|apply keeps_refl]. Qed.

Lemma undisturbed_trans st1 st2 st3 : undisturbed st1 st2 -> undisturbed st2 st3 -> undisturbed st1 st3.
Proof. intros [E1 K1] [E2 K2]. split; [congruence|]. rewrite E1 in K2. by eapply keeps_trans. Qed.

Lemma bounded_insert c k v : bounded c -> key_ok k -> val_ok v -> bounded (<[k := v]> c).
Proof. intros Hc Hk Hv. by apply map_Forall_insert_2. Qed.

Lemma bounded_delete c k : bounded c -> bounded (delete k c).
Proof. intros Hc k' v [_ Hv]%lookup_delete_Some. by apply Hc. Qed.

Lemma bad_key_ok key : bad_key key = false -> key_ok key.
Proof. unfold bad_key, key_ok. intros. zbool. len_pos. lia. Qed.

Lemma validateKey_bad key : validateKey key = None <-> bad_key key = false.
Proof. unfold validateKey, bad_key. destruct (len key =? 0), (KVMaxKey <? len key); cbn; split; congruence. Qed.

Lemma sorted_keys_list c p n : 1 <= n -> sorted_keys c p n = list_keys c p n.
Proof.
  intros Hn. unfold sorted_keys, list_keys. destruct (n <? len _) eqn:Hl; [done|]. zbool.
  rewrite take_ge; [done|]. unfold len in Hl. lia.
Qed.

Lemma revision_digest o : revision o = digest o.
Proof. by destruct o. Qed.

(** The host reads what the application placed. *)
Lemma readKey_held (m : M) kb key :
  held m kb key -> key_ok key -> readKey m (bytePtr kb) (i32 (b_len kb)) = inl key.
Proof.
  intros Hh [K1 K2]. pose proof (held_len _ _ _ Hh) as Hl. unfold KVMaxKey in *.
  rewrite i32_small by (unfold is_i32; lia). unfold readKey, KVMaxKey.
  rewrite (proj2 (Z.leb_gt _ _)), (proj2 (Z.ltb_ge _ _)) by lia. cbn [orb].
  rewrite (u32_small (b_len kb)) by (unfold is_u32; lia). by rewrite Hh.
Qed.


Lemma undisturbed_with (st : hosted) m kv : keeps (hs_mem st) m (hs_live st) -> undisturbed st (with_host st m kv).
Proof. by split. Qed.

Lemma holds_with (st : hosted) m kv c : heap_ok m (hs_live st) -> store_is kv c -> bounded c -> holds (with_host st m kv) c.
Proof. intros. split; [done|]. by split. Qed.

Lemma valid_pair key value :
  validateKeyValue key value = None -> bad_key key = false /\ key_ok key /\ val_ok value /\ (KVMaxValue <? len value) = false.
Proof.
  unfold validateKeyValue. destruct (validateKey key) eqn:Hk; [done|]. apply validateKey_bad in Hk.
  destruct (KVMaxValue <? len value) eqn:Hv; [done|]. intros _. split_and!; [done|by apply bad_key_ok| |done].
  unfold val_ok. by zbool.
Qed.

Lemma kvSet_answers st c key value :
  holds st c -> validateKeyValue key value = None ->
  answers st c (kvSet st key value) (Memory_Set (mkMemory c) key value) id.
Proof.
  intros (Hok & (s & Hs & Hi & Hc) & Hb) Hv. unfold kvSet, Memory_Set. rewrite Hv.
  destruct (valid_pair _ _ Hv) as (Hbk & Hko & Hvo & Hvl). rewrite Hbk, Hvl. cbn [orb].
  destruct (make_bytes_spec (hs_mem st) (hs_live st) value Hok) as [->|(m1 & vb & -> & Hok1 & _ & Hh1 & Hk1)]; [by left|].
  cbn [gbind]. destruct (make_bytes_spec m1 (vb :: hs_live st) key Hok1) as [->|(m2 & kb & -> & Hok2 & _ & Hh2 & Hk2)]; [by left|].
  cbn [gbind]. right. unfold kv_set. rewrite Hs, (readKey_held _ _ key) by done.
  pose proof (keeps_held _ _ _ _ _ Hk2 (in_head _ _) Hh1) as Hh1'.
  destruct (read_held _ _ _ Hh1') as [-> ->]; [unfold val_ok, KVMaxValue in Hvo; lia|].
  rewrite (proj2 (Z.ltb_ge _ 0)) by len_lia. rewrite Hvl. cbn [orb].
  destruct (kv_Set s key value) as [s' e] eqn:He. destruct (set_spec _ _ _ _ _ Hi Hko Hvo He) as [Hi' Hview].
  rewrite Hc in Hview. assert (Hheap : heap_ok m2 (hs_live st)) by (do 2 eapply heap_drop; exact Hok2).
  assert (Hkeep : keeps (hs_mem st) m2 (hs_live st)) by (by eapply keeps_placed).
  destruct e as [[]|];
    (eexists _, (view s'), _; split; [reflexivity|]; split;
     [apply holds_with; [done|by exists s'|rewrite Hview; first [done|by apply bounded_insert]]|]; split; [by apply undisturbed_with|]);
    rewrite Hview; first [right; split; [done|refuse] | by left].
Qed.

Lemma kvDelete_answers st c key :
  holds st c -> validateKey key = None ->
  answers st c (kvDelete st key) (Memory_Delete (mkMemory c) key) id.
Proof.
  intros (Hok & (s & Hs & Hi & Hc) & Hb) Hv. unfold kvDelete, Memory_Delete. rewrite Hv.
  apply validateKey_bad in Hv. rewrite Hv. apply bad_key_ok in Hv.
  destruct (make_bytes_spec (hs_mem st) (hs_live st) key Hok) as [->|(m1 & kb & -> & Hok1 & _ & Hh1 & Hk1)]; [by left|].
  cbn [gbind]. right. unfold kv_delete. rewrite Hs, (readKey_held _ _ key) by done.
  destruct (kv_Delete s key) as [s' e] eqn:He. destruct (delete_spec _ _ _ _ Hi Hv He) as [Hi' Hview].
  rewrite Hc in Hview. apply heap_drop in Hok1.
  destruct e as [e|];
    (eexists _, (view s'), _; split; [reflexivity|]; split;
     [apply holds_with; [done|by exists s'|rewrite Hview; first [done|by apply bounded_delete]]|]; split; [by apply undisturbed_with|]);
    rewrite Hview; first [right; split; [done|refuse] | by left].
Qed.

Lemma kvCompareAndSwap_answers st c key x value :
  holds st c -> validateKeyValue key value = None -> len x = KVHashSize ->
  answers st c (kvCompareAndSwap st key x value) (Memory_CompareAndSwap (mkMemory c) key x value) id.
Proof.
  intros (Hok & (s & Hs & Hi & Hc) & Hb) Hv Hx. unfold kvCompareAndSwap, Memory_CompareAndSwap. rewrite Hv.
  destruct (valid_pair _ _ Hv) as (Hbk & Hko & Hvo & Hvl). rewrite Hbk, Hvl. cbn [orb].
  destruct (make_bytes_spec (hs_mem st) (hs_live st) value Hok) as [->|(m1 & vb & -> & Hok1 & _ & Hh1 & Hk1)]; [by left|].
  cbn [gbind]. destruct (make_bytes_spec m1 (vb :: hs_live st) x Hok1) as [->|(m2 & xb & -> & Hok2 & _ & Hh2 & Hk2)]; [by left|].
  cbn [gbind]. destruct (make_bytes_spec m2 (xb :: vb :: hs_live st) key Hok2) as [->|(m3 & kb & -> & Hok3 & _ & Hh3 & Hk3)]; [by left|].
  cbn [gbind]. right. unfold kv_compare_and_swap. rewrite Hs, (readKey_held _ _ key) by done.
  pose proof (keeps_held _ _ _ _ _ Hk3 (in_head _ _) Hh2) as Hh2'.
  pose proof (keeps_held _ _ _ _ _ (keeps_placed _ _ _ _ _ Hk2 Hk3) (in_head _ _) Hh1) as Hh1'.
  destruct (read_held _ _ _ Hh1') as [-> ->]; [unfold val_ok, KVMaxValue in Hvo; lia|].
  rewrite (proj2 (Z.ltb_ge _ 0)) by len_lia. rewrite Hvl. cbn [orb].
  assert (Hxr : mem_read m3 (u32 (bytePtr xb)) KVHashSize = Some x).
  { rewrite <- Hx, (held_len _ _ _ Hh2'). exact Hh2'. }
  rewrite Hxr. destruct (kv_CompareAndSwap s key x value) as [s' e] eqn:He.
  destruct (cas_spec _ _ _ _ _ _ Hi Hko Hx Hvo He) as (Hi' & Hview & Hd & Hcf). rewrite Hc in Hview, Hd, Hcf.
  assert (Hheap : heap_ok m3 (hs_live st)) by (do 3 eapply heap_drop; exact Hok3).
  assert (Hkeep : keeps (hs_mem st) m3 (hs_live st)).
  { eapply keeps_placed; [exact Hk1|]. by eapply keeps_placed. }
  cbn [data]. rewrite revision_digest.
  destruct e as [e|]; [|rewrite (bool_decide_eq_true_2 (digest _ = _)) by auto]; cbn [negb];
    (eexists _, (view s'), _; split; [reflexivity|]; split;
     [apply holds_with; [done|by exists s'|rewrite Hview; first [done|by apply bounded_insert]]|]; split; [by apply undisturbed_with|]);
    rewrite Hview; [|by left].
  destruct e; try (right; split; [done|refuse]).
  left. rewrite bool_decide_eq_false_2 by auto. done.
Qed.

(** *** The reading calls *)

Lemma grow_answers {A : Type} st c kb (arg : bytes) m call switch cap (spec : A) (err : A -> option kv_error) :
  heap_ok m (kb :: hs_live st) -> keeps (hs_mem st) m (hs_live st) -> held m kb arg ->
  store_is (hs_kv st) c -> bounded c -> 0 < cap <= kv_bound ->
  (forall round m kv b,
     (store_is kv c /\ held m kb arg) -> heap_ok m (b :: kb :: hs_live st) -> 0 < b_len b <= kv_bound ->
     let '(m', kv', n) := call m kv b in
     (store_is kv' c /\ held m' kb arg) /\ heap_ok m' (b :: kb :: hs_live st) /\ keeps m m' (kb :: hs_live st) /\
     match switch round n (b_len b) with
     | Return r => r = spec \/ refusal (err r)
     | Accept k => exists v r, load m' b n = Done v /\ k v = Done r /\ (r = spec \/ refusal (err r))
     | Grow => b_len b < n <= kv_bound
     end) ->
  answers st c
    (let& '(m, buffer) := make_zero m (kb :: hs_live st) cap in
     let& '(m, kv, r) := growing kv_rounds (kb :: hs_live st) call switch 0 m (hs_kv st) buffer in
     Done (with_host st m kv, r))
    (mkMemory c, spec) err.
Proof.
  intros Hok Hk Hh Hs Hb Hcap Hround.
  destruct (make_zero_spec m (kb :: hs_live st) cap Hok ltac:(lia)) as [->|(m1 & b & -> & Hok1 & Hl & Hk1)]; [by left|].
  cbn [gbind].
  destruct (growing_spec (kb :: hs_live st) call switch kv_bound (fun _ m kv => store_is kv c /\ held m kb arg)
              (fun kv r => store_is kv c /\ (r = spec \/ refusal (err r)))) with (fuel := kv_rounds) (round := 0%nat) (m := m1)
              (h := hs_kv st) (b := b) as [->|(m2 & kv2 & r & -> & Hok2 & Hk2 & Hs2 & Hr)]; try done.
  - intros _ ma mb kv [Hsa Hha] Hkab. split; [done|]. eapply keeps_held; [exact Hkab|apply in_head|done].
  - intros round ma kv ba Hia Hoka Hca. pose proof (Hround round ma kv ba Hia Hoka Hca) as Hx.
    destruct (call ma kv ba) as [[mb kvb] n]. destruct Hx as ((Hsb & Hhb) & Hokb & Hkb & Hsw).
    split; [done|]. split; [done|]. destruct (switch round n (b_len ba)); [done| |done].
    destruct Hsw as (v & r & ? & ? & ?). by exists v, r.
  - split; [done|]. eapply keeps_held; [exact Hk1|apply in_head|done].
  - lia.
  - unfold kv_rounds. lia.
  - by left.
  - cbn [gbind]. right. eexists _, c, _. split; [reflexivity|]. split.
    { apply holds_with; [by eapply heap_drop|done|done]. }
    split; [|destruct Hr as [->|Hr]; [by left|right; by split]].
    apply undisturbed_with. eapply keeps_trans; [exact Hk|].
    eapply keeps_trans; [eapply keeps_drop; exact Hk1|]. eapply keeps_drop; exact Hk2.
Qed.

Lemma buffer_cap (b : block) : 0 < b_len b <= kv_bound -> i32 (b_len b) = b_len b.
Proof. intros. apply i32_small. unfold is_i32, kv_bound, KVMaxList, KVMaxKey in *. lia. Qed.

Lemma kvGet_answers st c key :
  holds st c -> validateKey key = None ->
  answers st c (kvGet st key) (mkMemory c, Memory_Get (mkMemory c) key) snd.
Proof.
  intros (Hok & Hs & Hb) Hv. unfold kvGet, Memory_Get. rewrite Hv.
  apply validateKey_bad in Hv. rewrite Hv. apply bad_key_ok in Hv.
  destruct (make_bytes_spec (hs_mem st) (hs_live st) key Hok) as [->|(m1 & kb & -> & Hok1 & _ & Hh1 & Hk1)]; [by left|].
  cbn [gbind data]. eapply grow_answers; [exact Hok1|exact Hk1|exact Hh1|done|done|unfold kv_bound; done|].
  clear Hs Hok Hok1 Hh1 Hk1. intros round m kv b [(s & -> & Hi & Hc) Hh] Hok Hcap. unfold kv_get.
  rewrite (readKey_held _ _ key), (buffer_cap b) by done.
  destruct (kv_Get s key) as [s' r] eqn:Hg. destruct (get_spec _ _ _ _ Hi Hv Hg) as (Hi' & Hview & Hr).
  assert (Hs' : store_is (Some s') c) by (exists s'; split_and!; [done|done|congruence]). rewrite Hc in Hr.
  destruct r as [e|[v|]].
  - split_and!; [done|done|done|apply keeps_refl|]. cbn. right. refuse.
  - specialize (Hr _ eq_refl). symmetry in Hr. destruct (Hb _ _ Hr) as [_ Hvo]. unfold val_ok, KVMaxValue in Hvo.
    destruct (write_out m (bytePtr b) (b_len b) v KVErrInternal false) as [m' n] eqn:Hw.
    assert (H31 : len v < 2 ^ 31) by lia.
    destruct (write_out_heap m b (kb :: hs_live st) v KVErrInternal false m' n Hok (proj1 Hcap) H31 ltac:(done) Hw) as (-> & Hok' & Hk & Hload).
    split_and!; [done|eapply keeps_held; [exact Hk|apply in_head|done]|done|done|]. len_pos.
    unfold kvGet_switch, KVErrNotFound. rewrite (proj2 (Z.eqb_neq _ _)), (proj2 (Z.ltb_ge _ _)) by lia.
    destruct (len v <=? b_len b) eqn:Hle; zbool.
    + eexists v, _. split_and!; [by apply Hload|reflexivity|]. left. by rewrite Hr.
    + unfold kv_bound, KVMaxList, KVMaxKey. lia.
  - specialize (Hr _ eq_refl). split_and!; [done|done|done|apply keeps_refl|]. cbn. left. by rewrite <- Hr.
Qed.

Lemma list_keys_fits c p n :
  bounded c -> n <= KVMaxList -> fits (list_keys c p n) /\ len (EncodeKVList (list_keys c p n)) <= kv_bound.
Proof.
  intros Hb Hn.
  assert (Hks : Forall (fun k => 1 <= len k <= KVMaxKey) (list_keys c p n)).
  { apply Forall_forall. intros k Hk. unfold list_keys in Hk. fold (matching c p) in Hk.
    apply (subseteq_take _ _) in Hk. rewrite sort_keys_perm, matching_spec in Hk.
    destruct Hk as [[v Hv] _]. apply (Hb k v Hv). }
  assert (Hl : len (list_keys c p n) <= KVMaxList).
  { unfold list_keys, len, KVMaxList in *. rewrite length_take. lia. }
  split; [done|]. rewrite EncodeKVList_layout by done.
  assert (Hw : len (keys_wire (list_keys c p n)) <= (2 + KVMaxKey) * len (list_keys c p n)).
  { clear -Hks. induction Hks as [|k ks Hk _ IH]; [done|]. unfold keys_wire in *; cbn [map concat].
    unfold field in *. unfold KVMaxKey in *. len_lia. }
  unfold kv_bound, KVMaxList, KVMaxKey in *. lia.
Qed.

Lemma read_prefix (m : M) pb p :
  held m pb p -> len p <= KVMaxKey ->
  i32 (b_len pb) = len p /\
  (if 0 <? len p then mem_read m (u32 (bytePtr pb)) (u32 (len p)) else Some []) = Some p.
Proof.
  intros Hh Hl. unfold KVMaxKey in Hl. destruct (read_held _ _ _ Hh) as [-> ->]; [lia|]. split; [done|].
  destruct (0 <? len p) eqn:E; [done|]. zbool. len_pos. by rewrite (len_0_nil p) by lia.
Qed.

Lemma kvList_answers st c p n :
  holds st c -> len p <= KVMaxKey -> 1 <= n <= KVMaxList ->
  answers st c (kvList st p n) (mkMemory c, Memory_List (mkMemory c) p n) snd.
Proof.
  intros (Hok & Hs & Hb) Hp Hn. unfold kvList, Memory_List.
  rewrite (proj2 (Z.ltb_ge _ _)), (proj2 (Z.ltb_ge _ _)), (proj2 (Z.ltb_ge _ _)) by lia. cbn [orb].
  destruct (make_bytes_spec (hs_mem st) (hs_live st) p Hok) as [->|(m1 & pb & -> & Hok1 & _ & Hh1 & Hk1)]; [by left|].
  cbn [gbind data]. eapply grow_answers; [exact Hok1|exact Hk1|exact Hh1|done|done|unfold kv_bound; done|].
  clear Hs Hok Hok1 Hh1 Hk1. intros round m kv b [(s & -> & Hi & Hc) Hh] Hok Hcap. unfold kv_list.
  destruct (read_prefix _ _ _ Hh Hp) as [-> ->]. rewrite (buffer_cap b) by done.
  rewrite (i32_small n) by (unfold is_i32, KVMaxList in *; lia). len_pos.
  rewrite !(proj2 (Z.ltb_ge _ _)) by (unfold KVMaxList, KVMaxKey in *; lia). cbn [orb].
  destruct (kv_List s p n) as [s' r] eqn:Hl. destruct (list_spec _ _ _ _ _ Hi Hp Hn Hl) as (Hi' & Hview & Hr).
  assert (Hs' : store_is (Some s') c) by (exists s'; split_and!; [done|done|congruence]). rewrite Hc in Hr.
  destruct r as [e|ks]; [split_and!; [done|done|done|apply keeps_refl|]; cbn; right; refuse|].
  specialize (Hr _ eq_refl). destruct (list_keys_fits c p n Hb ltac:(lia)) as [Hf Hle]. rewrite <- Hr in Hf, Hle.
  assert (Hlk : len ks <= n) by (rewrite Hr; unfold list_keys, len; rewrite length_take; lia).
  rewrite !(proj2 (Z.ltb_ge _ _)) by (unfold KVMaxList in *; lia). cbn [orb].
  destruct (write_out m (bytePtr b) (b_len b) (EncodeKVList ks) KVErrInternal false) as [m' k] eqn:Hw.
  assert (H31 : len (EncodeKVList ks) < 2 ^ 31) by (unfold kv_bound, KVMaxList, KVMaxKey in Hle; lia).
  destruct (write_out_heap m b (pb :: hs_live st) (EncodeKVList ks) KVErrInternal false m' k Hok (proj1 Hcap) H31 ltac:(done) Hw) as (-> & Hok' & Hk & Hload).
  split_and!; [done|eapply keeps_held; [exact Hk|apply in_head|done]|done|done|]. len_pos.
  unfold kvList_switch. rewrite (proj2 (Z.ltb_ge _ 0)) by lia.
  destruct (_ <=? b_len b) eqn:Hcmp; zbool; [|lia].
  eexists _, _. split_and!; [by apply Hload| |].
  - pose proof (dec_enc (A:=list bytes) ks Hf) as Hd. cbn [dec enc KVList_codec] in Hd. rewrite Hd. reflexivity.
  - left. rewrite Hr. by rewrite sorted_keys_list by lia.
Qed.

(** *** Programs *)

Definition answer_err (a : kv_answer) : option kv_error :=
  match a with
  | AGet r => gr_Err r
  | ASet r => sr_Err r
  | ADelete r => dr_Err r
  | AList r => lr_Err r
  | ACompareAndSwap r => cr_Err r
  end.

(** [expected] is a [[sha256.Size]byte]. *)
Definition op_typed (op : kv_op) : Prop :=
  match op with OCompareAndSwap _ expected _ => len expected = KVHashSize | _ => True end.

(** The answers [answers] to [ops] on the contents [c], leaving [c']. *)
Inductive agrees : kvmap -> list (option ctx_error * kv_op) -> list kv_answer -> kvmap -> Prop :=
| agrees_done c : agrees c [] [] c
| agrees_answer c ctx op ops a c1 l c' :
    run_op ctx (mkMemory c) op = Done (mkMemory c1, a) -> agrees c1 ops l c' ->
    agrees c ((ctx, op) :: ops) (a :: l) c'
| agrees_refusal c ctx op ops a l c' :
    refusal (answer_err a) -> agrees c ops l c' ->
    agrees c ((ctx, op) :: ops) (a :: l) c'.

(** One operation, as [answers] says of the adapter's call. *)
Definition op_answers (st : hosted) (c : kvmap) (call : guest (hosted * kv_answer))
    (reference : guest (FixtureMemory * kv_answer)) : Prop :=
  call = OutOfMemory \/
  exists st' c' a, call = Done (st', a) /\ holds st' c' /\ undisturbed st st' /\
    (reference = Done (mkMemory c', a) \/ (c' = c /\ refusal (answer_err a))).

Lemma op_answers_call {A : Type} st c (call : guest (hosted * A)) reference err (wrap : A -> kv_answer) k1 k2 :
  answers st c call reference err ->
  (forall b r, k1 (b, r) = Done (b, wrap r)) -> (forall b r, k2 (b, r) = Done (b, wrap r)) ->
  (forall r, answer_err (wrap r) = err r) ->
  op_answers st c (gbind call k1) (gbind (Done reference) k2).
Proof.
  intros [->|(st' & c' & r & -> & Hh & Hu & Hr)] E1 E2 He; [by left|]. right. exists st', c', (wrap r).
  split; [apply E1|]. split; [done|]. split; [done|].
  destruct Hr as [<-|[-> Hr]]; [left; apply E2|right]. by rewrite He.
Qed.

Lemma gmap_bind {B C D E : Type} (f : D -> E) (c : guest C) (k : C -> guest (B * D)) :
  gmap_guest f (gbind c k) = gbind c (fun x => gmap_guest f (k x)).
Proof. by destruct c. Qed.

Lemma op_answers_local st c a : holds st c -> op_answers st c (Done (st, a)) (Done (mkMemory c, a)).
Proof. intros Hh. right. exists st, c, a. split; [done|]. split; [done|]. split; [apply undisturbed_refl|by left]. Qed.

Lemma normalize_id err : normalize err = err.
Proof. by destruct err. Qed.

(** The end of every operation: the call of the adapter on both sides. *)
Ltac adapter_call lemma err wrap :=
  cbn [ad_Get ad_Set ad_Delete ad_List ad_CompareAndSwap hosted_Adapter Memory_Adapter];
  rewrite !gmap_bind; eapply (op_answers_call _ _ _ _ err wrap); [by apply lemma|..];
  intros; destruct_and?; repeat match goal with r : _ * _ |- _ => destruct r end;
  cbn [gmap_guest gbind]; by rewrite ?normalize_id.

Lemma run_op_answers st c ctx op :
  holds st c -> op_typed op -> op_answers st c (run_op ctx st op) (run_op ctx (mkMemory c) op).
Proof.
  intros Hh Ht. destruct op as [key|key value|key|p n|key x value]; cbn [run_op].
  - unfold Get. destruct (validateKey key) eqn:Hv; [by apply op_answers_local|].
    destruct ctx; [by apply op_answers_local|].
    adapter_call kvGet_answers (@snd (bytes * bool) (option kv_error)) (fun '(v, f, e) => AGet (mkGetResult v f e)).
  - unfold Set_op. destruct (validateKeyValue key value) eqn:Hv; [by apply op_answers_local|].
    destruct ctx; [by apply op_answers_local|].
    adapter_call kvSet_answers (@id (option kv_error)) (fun e => ASet (mkSetResult e)).
  - unfold Delete. destruct (validateKey key) eqn:Hv; [by apply op_answers_local|].
    destruct ctx; [by apply op_answers_local|].
    adapter_call kvDelete_answers (@id (option kv_error)) (fun e => ADelete (mkDeleteResult e)).
  - unfold List_op. destruct (_ || _) eqn:Hc; [by apply op_answers_local|]. zbool.
    destruct (n <? 1) eqn:Hn; [by apply op_answers_local|]. zbool.
    destruct ctx; [by apply op_answers_local|].
    assert (Hl : 1 <= n <= KVMaxList) by lia.
    adapter_call kvList_answers (@snd (list bytes) (option kv_error)) (fun '(ks, e) => AList (mkListResult ks e)).
  - unfold CompareAndSwap. destruct (validateKeyValue key value) eqn:Hv; [by apply op_answers_local|].
    destruct ctx; [by apply op_answers_local|].
    adapter_call kvCompareAndSwap_answers (@id (option kv_error)) (fun e => ACompareAndSwap (mkCASResult e)).
Qed.

(** C31 (storage in the sandbox): whatever operations an application runs, on any
    store that keeps the promises of its interface: unless the guest's memory is
    exhausted, every operation returns, the objects of the application keep their
    contents, and each answer is the one of the map that tests use as a store, or
    reports ErrUnavailable or ErrQuota because the store refused, and then nothing
    changed; a store that accepts everything within the caps refuses nothing. *)
Theorem guest_storage_exact st c ops :
  holds st c -> Forall (fun '(_, op) => op_typed op) ops ->
  run_ops st ops = OutOfMemory \/
  exists st' l c', run_ops st ops = Done (st', l) /\ holds st' c' /\ undisturbed st st' /\
    agrees c ops l c' /\
    (Steady -> run_ops (mkMemory c) ops = Done (mkMemory c', l)).
Proof.
  intros Hh Ht. revert st c Hh. induction Ht as [|[ctx op] ops Hop _ IH]; intros st c Hh.
  { right. exists st, [], c. split; [done|]. split; [done|]. split; [apply undisturbed_refl|]. by split; [constructor|]. }
  cbn [run_ops]. destruct (run_op_answers st c ctx op Hh Hop) as [->|(st1 & c1 & a & -> & Hh1 & Hu1 & Ha)]; [by left|].
  cbn [gbind]. destruct (IH st1 c1 Hh1) as [->|(st2 & l & c2 & -> & Hh2 & Hu2 & Hl & Hs)]; [by left|].
  cbn [gbind]. right. exists st2, (a :: l), c2. split; [done|]. split; [done|].
  split; [by eapply undisturbed_trans|]. destruct Ha as [Ha|[-> Ha]].
  - split; [by eapply agrees_answer|]. intros Hst. rewrite Ha. cbn [gbind]. by rewrite Hs.
  - split; [by eapply agrees_refusal|]. intros Hst. by destruct Ha.
Qed.

End HostedLaws.

(** ** Native runs

    The store of the process answers as the store of tests. *)

Lemma native_op ctx c op :
  run_op ctx (mkNative c) op = (let& '(b, a) := run_op ctx (mkMemory c) op in Done (mkNative (data b), a)).
Proof.
  destruct op as [key|key value|key|p n|key x value]; cbn [run_op];
    unfold Get, Set_op, Delete, List_op, CompareAndSwap.
  - destruct (validateKey key) eqn:Hv; [done|]. destruct ctx; [done|].
    cbn [ad_Get native_Adapter Memory_Adapter]. unfold native_kvGet, Memory_Get.
    rewrite Hv. apply validateKey_bad in Hv. by rewrite Hv.
  - destruct (validateKeyValue key value) eqn:Hv; [done|]. destruct ctx; [done|].
    cbn [ad_Set native_Adapter Memory_Adapter]. unfold native_kvSet, Memory_Set. rewrite Hv.
    by destruct (valid_pair _ _ Hv) as (-> & _ & _ & ->).
  - destruct (validateKey key) eqn:Hv; [done|]. destruct ctx; [done|].
    cbn [ad_Delete native_Adapter Memory_Adapter]. unfold native_kvDelete, Memory_Delete.
    rewrite Hv. apply validateKey_bad in Hv. by rewrite Hv.
  - destruct (_ || _); [done|]. destruct (n <? 1); [done|]. destruct ctx; [done|].
    cbn [ad_List native_Adapter Memory_Adapter]. unfold native_kvList, Memory_List. by destruct (_ || _ || _).
  - destruct (validateKeyValue key value) eqn:Hv; [done|]. destruct ctx; [done|].
    cbn [ad_CompareAndSwap native_Adapter Memory_Adapter]. unfold native_kvCompareAndSwap, Memory_CompareAndSwap.
    rewrite Hv. destruct (valid_pair _ _ Hv) as (-> & _ & _ & ->). cbn [orb nativeStore data].
    by destruct (negb _).
Qed.

(** Native runs: every program of storage operations gives natively what it
    gives on the store of tests. *)
Theorem native_storage_exact c ops :
  run_ops (mkNative c) ops = (let& '(b, l) := run_ops (mkMemory c) ops in Done (mkNative (data b), l)).
Proof.
  revert c. induction ops as [|[ctx op] ops IH]; intros c; [done|]. cbn [run_ops]. rewrite native_op.
  destruct (run_op ctx (mkMemory c) op) as [[[c1] a]| | |]; try done. cbn [gbind data]. rewrite IH.
  by destruct (run_ops (mkMemory c1) ops) as [[[c2] l]| | |].
Qed.

(** ** A store without quotas refuses nothing *)

Definition unlimited (s : MemStore) : Prop := counted s /\ maxKeys s = 0 /\ maxBytes s = 0.

Lemma unlimited_set s k v : unlimited s ->
  exists s', MemStore_Set s k v = (s', None) /\ unlimited s' /\ m s' = <[k := v]> (m s).
Proof.
  intros (Hc & Hk & Hb). destruct (MemStore_Set s k v) as [s' e] eqn:E.
  pose proof E as E'. unfold MemStore_Set in E'. rewrite Hk, Hb in E'. cbn in E'. rewrite andb_false_r in E'. cbn in E'.
  injection E' as <- <-. eexists. split; [done|].
  destruct (MemStore_Set_cases _ _ _ _ _ Hc E) as [[? _]|(_ & Hm & Hc' & _)]; [done|]. by split.
Qed.

Definition unlimited_laws : StoreLaws MemStore.
Proof.
  refine {| view := m; sinv := unlimited |}.
  - intros s k s' r Hi _ H. injection H as <- <-. split_and!; try done. by intros o [= <-].
  - intros s k v s' e Hi _ _ H. destruct (unlimited_set s k v Hi) as (s1 & E & Hi1 & Hm).
    cbn in H. rewrite E in H. injection H as <- <-. by split.
  - intros s k s' e (Hc & Hk & Hb) _ H. cbn in H. destruct (MemStore_Delete_spec _ _ _ _ Hc H) as (-> & Hm & Hc' & Hq).
    destruct Hq as [Hq1 Hq2]. split; [|done]. split_and!; [done|congruence|congruence].
  - intros s p n s' r Hi Hp Hn H. cbn in H. injection H as <- <-. split_and!; try done.
    rewrite MemStore_List_keys by done. by intros ks [= <-].
  - intros s k x v s' e Hi _ _ _ H. cbn in H. unfold MemStore_CompareAndSwap in H. rewrite cas_is_set in H.
    destruct (bool_decide _) eqn:Hd; zbool.
    + apply bool_decide_eq_true in Hd. destruct (unlimited_set s k v Hi) as (s1 & E & Hi1 & Hm).
      rewrite E in H. injection H as <- <-. by split_and!.
    + apply bool_decide_eq_false in Hd. injection H as <- <-. by split_and!.
Defined.

Lemma unlimited_steady : @Steady MemStore _ unlimited_laws.
Proof.
  constructor.
  - intros s k s' e _ H. cbn in H. congruence.
  - intros s k v s' e Hi H. destruct (unlimited_set s k v Hi) as (s1 & E & _). cbn in H. congruence.
  - intros s k s' e (Hc & _) H. cbn in H. by destruct (MemStore_Delete_spec _ _ _ _ Hc H) as [? _].
  - intros s p n s' e _ Hn H. cbn in H. rewrite MemStore_List_keys in H by done. congruence.
  - intros s k x v s' e Hi He H. cbn in H. unfold MemStore_CompareAndSwap in H. rewrite cas_is_set in H.
    destruct (bool_decide _); [|congruence]. destruct (unlimited_set s k v Hi) as (s1 & E & _). congruence.
Qed.

(** A program that reads a value larger than the first buffer. *)
Definition sample_program : list (option ctx_error * kv_op) :=
  [(None, OSet (str "page") (replicate 300 7)); (None, OGet (str "page")); (None, OGet []);
   (Some Canceled, ODelete (str "page")); (None, OList (str "pa") 10); (None, ODelete (str "page"));
   (None, OGet (str "page"))].

Definition sample_state : @hosted LinearMemory MemStore :=
  mkHosted (mkLinear (str "app")) [mkBlock 0 3] (Some (NewMemStore 0 0)).

Lemma guest_storage_exact_witness : exists st' l,
  run_ops sample_state sample_program = Done (st', l) /\
  held (hs_mem st') (mkBlock 0 3) (str "app") /\
  run_ops (mkMemory ∅) sample_program = Done (mkMemory ∅, l) /\
  l !! 1%nat = Some (AGet (mkGetResult (replicate 300 7) true None)).
Proof.
  assert (Hh : @holds _ _ _ _ _ _ unlimited_laws sample_state ∅).
  { split; [|split; [exists (NewMemStore 0 0); by split_and!|apply map_Forall_empty]].
    apply bump_start. split; [done|]. split; [|by repeat constructor].
    apply Forall_cons. split; [by unfold inside|apply Forall_nil_2]. }
  assert (Ht : Forall (fun '(_, op) => op_typed op) sample_program) by (repeat constructor).
  destruct (@guest_storage_exact _ _ _ _ _ _ _ unlimited_laws sample_state ∅ sample_program Hh Ht)
    as [Hoom|(st' & l & c' & E & _ & [_ Hk] & _ & Hs)]; [vm_compute in Hoom; discriminate Hoom|].
  specialize (Hs unlimited_steady). exists st', l. split; [exact E|]. split; [|split].
  - apply Hk; [apply in_head|reflexivity].
  - rewrite Hs. vm_compute in Hs. by injection Hs as <- _.
  - vm_compute in Hs. injection Hs as _ <-. reflexivity.
Defined.

End guestkv.
