(* ===== verification/GuestSvc.v ===== *)
(** * Services as an application sees them (sdk/identity, sdk/secrets, sdk/bus,
      sdk/fetch, sdk/hostexec)

    The operations and their wasip1 adapters on the host functions of the
    runner.  The theorems say what an application gets, and how often a request
    reaches the network or the machine. *)

From S2P Require Import Prelude Abi AbiCaps Bus Exec Egress HostFns GuestHeap GuestKV.

Module guestsvc.

Section Bindings.
Context {M : Type} `{Memory M} `{!GuestHeap M}.
(** The other objects of the application. *)
Context (live : list block).

(** More rounds than there are sizes of a buffer. *)
Definition rounds (bound : Z) : nat := Z.to_nat bound.

(** ** identity *)

Inductive identity_error := IdentityUnavailable | IdentityContext (e : ctx_error).

Record GuestIdentity := mkGuestIdentity {
  gi_User : bytes; gi_Authenticated : bool; gi_Kind : bytes; gi_OwnsApp : bool }.

Definition no_identity : GuestIdentity := mkGuestIdentity [] false [] false.

Definition identityKind (kind : Z) : bytes :=
  if kind =? IdentitySSHKey then str "ssh-key" else
  if kind =? IdentityAnonymous then str "anonymous" else
  [].

Definition whoami_switch (_ : nat) (n cap : Z) : branch (GuestIdentity * option identity_error) :=
  if (n =? AuthErrInternal) || (n <? 0) then Return (no_identity, Some IdentityUnavailable) else
  if n <=? cap then
    Accept (fun b => match DecodeIdentity b with
                     | Ok value => Done (mkGuestIdentity (User value) (Authenticated value)
                                           (identityKind (id_Kind value)) (OwnsApp value), None)
                     | Err _ => Done (no_identity, Some IdentityUnavailable)
                     | Panic => Crash
                     end)
  else Grow.

(** The host functions of auth, fetch and exec decode and encode; that they do not
    panic is host_calls_total, so what stands for a panic here is of no account. *)
Definition host_answer {H} (h : H) (m : M) (r : res AbiErr (H * M * Z)) : M * H * Z :=
  match r with
  | Ok (h, m, n) => (m, h, n)
  | _ => (m, h, -1)
  end.

Definition whoami {A} `{Auth A} (m : M) (auth : option A)
  : guest (M * option A * (GuestIdentity * option identity_error)) :=
  let& '(m, buffer) := make_zero m live 320 in
  growing (rounds (2 ^ 16)) live
    (fun m auth buffer => host_answer auth m (auth_whoami auth m (bytePtr buffer) (i32 (b_len buffer))))
    whoami_switch 0 m auth buffer.

Definition Whoami {A} `{Auth A} (ctx : option ctx_error) (m : M) (auth : option A)
  : guest (M * option A * (GuestIdentity * option identity_error)) :=
  match ctx with
  | Some e => Done (m, auth, (no_identity, Some (IdentityContext e)))
  | None => whoami m auth
  end.

(** ** secrets *)

Inductive secrets_error := SecretsUnavailable | SecretsInvalid | SecretsTooLarge | SecretsContext (e : ctx_error).

Record SecretResult := mkSecretResult { se_Value : bytes; se_Found : bool; se_Err : option secrets_error }.

Definition envGet_switch (_ : nat) (n cap : Z) : branch SecretResult :=
  if n =? EnvErrNotFound then Return (mkSecretResult [] false None) else
  if n =? EnvErrTooLarge then Return (mkSecretResult [] false (Some SecretsTooLarge)) else
  if n <? 0 then Return (mkSecretResult [] false (Some SecretsUnavailable)) else
  if n <=? cap then Accept (fun b => Done (mkSecretResult b true None)) else
  Grow.

(** [bound]: no secret is longer. *)
Definition envGet {E} `{Env E} (bound : Z) (m : M) (env : option E) (key : bytes) : guest (M * option E * SecretResult) :=
  if (len key =? 0) || (EnvMaxKey <? len key)
  then Done (m, env, mkSecretResult [] false (Some SecretsTooLarge)) else
  let& '(m, keyBytes) := make_bytes m live key in
  let& '(m, buffer) := make_zero m (keyBytes :: live) 256 in
  growing (rounds bound) (keyBytes :: live)
    (fun m env buffer =>
       let '(env, m, n) := env_get env m (bytePtr keyBytes) (i32 (b_len keyBytes)) (bytePtr buffer) (i32 (b_len buffer)) in
       (m, env, n))
    envGet_switch 0 m env buffer.

Definition Secrets_Get {E} `{Env E} (bound : Z) (ctx : option ctx_error) (m : M) (env : option E) (key : bytes)
  : guest (M * option E * SecretResult) :=
  if len key =? 0 then Done (m, env, mkSecretResult [] false (Some SecretsInvalid)) else
  if EnvMaxKey <? len key then Done (m, env, mkSecretResult [] false (Some SecretsTooLarge)) else
  match ctx with
  | Some e => Done (m, env, mkSecretResult [] false (Some (SecretsContext e)))
  | None => envGet bound m env key
  end.

(** ** bus *)

Inductive bus_error := BusUnavailable | BusInvalid | BusTooLarge | BusContext (e : ctx_error).

Definition bus_validate (topic data : bytes) : option bus_error :=
  if bool_decide (topic = []) then Some BusInvalid else
  if (BusMaxTopic <? len topic) || (BusMaxData <? len data) then Some BusTooLarge else
  None.

Definition publish {B} `{Bus B} (m : M) (bus : option B) (topic data : bytes)
  : guest (M * option B * option bus_error) :=
  match bus_validate topic data with
  | Some err => Done (m, bus, Some err)
  | None =>
    let& '(m, dataBytes) := make_bytes m live data in
    let& '(m, topicBytes) := make_bytes m (dataBytes :: live) topic in
    let '(bus, result) := bus_pub bus m (bytePtr topicBytes) (i32 (b_len topicBytes)) (bytePtr dataBytes) (i32 (b_len dataBytes)) in
    Done (m, bus, if 0 <=? result then None
                  else if result =? BusErrTooLarge then Some BusTooLarge
                  else Some BusUnavailable)
  end.

Definition Bus_Publish {B} `{Bus B} (ctx : option ctx_error) (m : M) (bus : option B) (topic data : bytes)
  : guest (M * option B * option bus_error) :=
  match bus_validate topic data with
  | Some err => Done (m, bus, Some err)
  | None =>
    match ctx with
    | Some e => Done (m, bus, Some (BusContext e))
    | None => publish m bus topic data
    end
  end.

(** The call of [messageSource] and of [registerTopic]; its answer. *)
Definition host_bus_sub {B} `{Bus B} (m : M) (sub : option B) (topic : bytes) : guest (M * option B * Z) :=
  let& '(m, topicBytes) := make_bytes m live topic in
  let '(sub, result) := bus_sub sub m (bytePtr topicBytes) (i32 (b_len topicBytes)) in
  Done (m, sub, result).

Definition registerTopic {B} `{Bus B} (m : M) (sub : option B) (topic : bytes) : guest (M * option B) :=
  if (len topic =? 0) || (BusMaxTopic <? len topic) then Done (m, sub) else
  let& '(m, sub, _) := host_bus_sub m sub topic in Done (m, sub).

(** ** fetch *)

Inductive fetch_error := FetchDenied | FetchUnavailable | FetchTooLarge | FetchFailed | FetchInvalid
| FetchContext (e : ctx_error).

Record FetchResult := mkFetchResult { fr_Status : Z; fr_Body : bytes; fr_Err : option fetch_error }.
Definition fetch_failed (e : fetch_error) : FetchResult := mkFetchResult 0 [] (Some e).

Definition normalizeMethod (method : bytes) : bytes := if bool_decide (method = []) then str "GET" else method.

Definition fetch_validate (method url body : bytes) : option fetch_error :=
  if bool_decide (method = []) || (FetchMaxMethod <? len method) || (len url =? 0) then Some FetchInvalid else
  if (FetchMaxURL <? len url) || (FetchMaxBody <? len body) then Some FetchTooLarge else
  None.

(** [ctx i] is what the i-th call of [ctx.Err()] gives. *)
Definition fetch_switch (ctx : nat -> option ctx_error) (round : nat) (n cap : Z) : branch FetchResult :=
  match ctx (2 + round)%nat with
  | Some e => Return (fetch_failed (FetchContext e))
  | None =>
    if n =? FetchErrDenied then Return (fetch_failed FetchDenied) else
    if n =? FetchErrTooLarge then Return (fetch_failed FetchTooLarge) else
    if n =? FetchErrUnavail then Return (fetch_failed FetchUnavailable) else
    if n <? 0 then Return (fetch_failed FetchFailed) else
    if n <=? cap then
      Accept (fun b => match DecodeFetchResponse b with
                       | Ok response => Done (mkFetchResult (Status response) (resp_Body response) None)
                       | Err _ => Done (fetch_failed FetchFailed)
                       | Panic => Crash
                       end)
    else Grow
  end.

(** No response is longer than a status, a length and a body. *)
Definition fetch_bound : Z := 6 + FetchMaxBody.

Definition guest_fetch {F} `{Fetcher F} (ctx : nat -> option ctx_error) (m : M) (f : option F) (method url body : bytes)
  : guest (M * option F * FetchResult) :=
  if (len url =? 0) || (FetchMaxURL <? len url) || (FetchMaxBody <? len body)
  then Done (m, f, fetch_failed FetchTooLarge) else
  match ctx 1%nat with
  | Some e => Done (m, f, fetch_failed (FetchContext e))
  | None =>
    let& '(m, request) := make_bytes m live (EncodeFetchRequest (mkFetchRequest method url body)) in
    let& '(m, buffer) := make_zero m (request :: live) 4096 in
    growing (rounds fetch_bound) (request :: live)
      (fun m f buffer => host_answer f m
         (fetch f m (bytePtr request) (i32 (b_len request)) (bytePtr buffer) (i32 (b_len buffer))))
      (fetch_switch ctx) 0 m f buffer
  end.

Definition Fetch_Request {F} `{Fetcher F} (ctx : nat -> option ctx_error) (m : M) (f : option F) (method url body : bytes)
  : guest (M * option F * FetchResult) :=
  let method := normalizeMethod method in
  match fetch_validate method url body with
  | Some e => Done (m, f, fetch_failed e)
  | None =>
    match ctx 0%nat with
    | Some e => Done (m, f, fetch_failed (FetchContext e))
    | None => guest_fetch ctx m f method url body
    end
  end.

(** ** hostexec *)

Inductive exec_error := ExecUnavailable | ExecTooLarge | ExecFailed | ExecInvalid | ExecContext (e : ctx_error).

Record ExecResult := mkExecResult {
  er_ExitCode : Z; er_Stdout : bytes; er_Stderr : bytes; er_Err : option exec_error }.
Definition exec_failed (e : exec_error) : ExecResult := mkExecResult 0 [] [] (Some e).

Definition exec_valid (name : bytes) (args : list bytes) : bool :=
  if bool_decide (name = []) || (ExecMaxName <? len name) || (ExecMaxArgs <? len args) then false
  else forallb (fun arg => negb (ExecMaxArg <? len arg)) args.

Definition exec_bound : Z := 2 * ExecMaxOutput + 12.

Definition exec_switch (ctx : nat -> option ctx_error) (round : nat) (n cap : Z) : branch ExecResult :=
  match ctx (2 + round)%nat with
  | Some e => Return (exec_failed (ExecContext e))
  | None =>
    if n =? ExecErrUnavailable then Return (exec_failed ExecUnavailable) else
    if n =? ExecErrTooLarge then Return (exec_failed ExecTooLarge) else
    if n <? 0 then Return (exec_failed ExecFailed) else
    if n <=? cap then
      Accept (fun b => match DecodeExecResponse b with
                       | Ok response => Done (mkExecResult (ExitCode response) (Stdout response) (Stderr response) None)
                       | Err _ => Done (exec_failed ExecFailed)
                       | Panic => Crash
                       end)
    else if exec_bound <? n then Return (exec_failed ExecTooLarge)
    else Grow
  end.

Definition execCommand {C} `{Commander C} (ctx : nat -> option ctx_error) (m : M) (c : option C) (name : bytes) (args : list bytes)
  : guest (M * option C * ExecResult) :=
  if negb (exec_valid name args) then Done (m, c, exec_failed ExecTooLarge) else
  match ctx 1%nat with
  | Some e => Done (m, c, exec_failed (ExecContext e))
  | None =>
    let& '(m, request) := make_bytes m live (EncodeExecRequest (mkExecRequest name args)) in
    let& '(m, buffer) := make_zero m (request :: live) 4096 in
    growing (rounds exec_bound) (request :: live)
      (fun m c buffer => host_answer c m
         (exec c m (bytePtr request) (i32 (b_len request)) (bytePtr buffer) (i32 (b_len buffer))))
      (exec_switch ctx) 0 m c buffer
  end.

Definition Hostexec_Run {C} `{Commander C} (ctx : nat -> option ctx_error) (m : M) (c : option C) (name : bytes) (args : list bytes)
  : guest (M * option C * ExecResult) :=
  if negb (exec_valid name args) then Done (m, c, exec_failed ExecInvalid) else
  match ctx 0%nat with
  | Some e => Done (m, c, exec_failed (ExecContext e))
  | None => execCommand ctx m c name args
  end.

End Bindings.

(** ** How often the host acts

    [fetched req cap f n f' r]: from the state [f] of the fetcher, [n] requests
    [req] are made until an answer is an error or fits a buffer, the first of which
    has [cap] bytes; [r] is what the application gets of the last. *)

Definition fetch_error_of (e : FetchErr) : fetch_error :=
  match e with
  | ErrEgressDenied => FetchDenied
  | errResponseTooLarge => FetchTooLarge
  | errEgressUnavailable => FetchUnavailable
  | _ => FetchFailed
  end.

Definition http_request (method url body : bytes) : FetchRequest :=
  mkFetchRequest (normalizeMethod method) url body.

Inductive fetched {F} `{Fetcher F} (req : FetchRequest) : Z -> F -> nat -> F -> FetchResult -> Prop :=
| fetched_error cap f f' e :
    fetch_Fetch f req = (f', inl e) -> fetched req cap f 1 f' (fetch_failed (fetch_error_of e))
| fetched_fits cap f f' resp :
    fetch_Fetch f req = (f', inr resp) -> len (EncodeFetchResponse resp) <= cap ->
    fetched req cap f 1 f' (mkFetchResult (Status resp) (resp_Body resp) None)
| fetched_again cap f f1 resp n f' r :
    fetch_Fetch f req = (f1, inr resp) -> cap < len (EncodeFetchResponse resp) ->
    fetched req (len (EncodeFetchResponse resp)) f1 n f' r -> fetched req cap f (S n) f' r.

Definition exec_error_of (e : ExecErr) : exec_error :=
  match e with
  | ErrExecTooLarge => ExecTooLarge
  | ErrExecDenied | ErrExecNotFound | ErrExecUnresolved => ExecUnavailable
  | _ => ExecFailed
  end.

Inductive ran {C} `{Commander C} (req : ExecRequest) : Z -> C -> nat -> C -> ExecResult -> Prop :=
| ran_error cap c c' e :
    cmd_Run c req = (c', inl e) -> ran req cap c 1 c' (exec_failed (exec_error_of e))
| ran_too_large cap c c' resp :
    cmd_Run c req = (c', inr resp) -> ExecMaxOutput < len (Stdout resp) \/ ExecMaxOutput < len (Stderr resp) ->
    ran req cap c 1 c' (exec_failed ExecTooLarge)
| ran_fits cap c c' resp :
    cmd_Run c req = (c', inr resp) -> len (Stdout resp) <= ExecMaxOutput -> len (Stderr resp) <= ExecMaxOutput ->
    len (EncodeExecResponse resp) <= cap ->
    ran req cap c 1 c' (mkExecResult (ExitCode resp) (Stdout resp) (Stderr resp) None)
| ran_again cap c c1 resp n c' r :
    cmd_Run c req = (c1, inr resp) -> len (Stdout resp) <= ExecMaxOutput -> len (Stderr resp) <= ExecMaxOutput ->
    cap < len (EncodeExecResponse resp) ->
    ran req (len (EncodeExecResponse resp)) c1 n c' r -> ran req cap c (S n) c' r.

Section Laws.
Context {M : Type} `{MemoryLaws M} `{!GuestHeap M, !GuestHeapLaws M}.
Context (live : list block).

(** A call ended with [Q] of the host's state and the answer, or memory ran out;
    the objects of the application are intact. *)
Definition gives {T R : Type} (m : M) (c : guest (M * T * R)) (Q : T -> R -> Prop) : Prop :=
  c = OutOfMemory \/
  exists m' h r, c = Done (m', h, r) /\ heap_ok m' live /\ keeps m m' live /\ Q h r.

Lemma gives_local {T R : Type} (m : M) (h : T) (r : R) (Q : T -> R -> Prop) :
  heap_ok m live -> Q h r -> gives m (Done (m, h, r)) Q.
Proof. intros Hok HQ. right. exists m, h, r. split_and!; [done|done|apply keeps_refl|done]. Qed.

Lemma gives_placed {T R : Type} (m m1 : M) kb (c : guest (M * T * R)) (Q : T -> R -> Prop) :
  keeps m m1 live ->
  (c = OutOfMemory \/ exists m' h r, c = Done (m', h, r) /\ heap_ok m' (kb :: live) /\ keeps m1 m' (kb :: live) /\ Q h r) ->
  gives m c Q.
Proof.
  intros Hk [->|(m' & h & r & -> & Hok & Hk' & HQ)]; [by left|]. right. exists m', h, r.
  split_and!; [done|by eapply heap_drop|by eapply keeps_placed|done].
Qed.

(** *** fetch *)

Section Fetching.
Context {F : Type} `{Fetcher F} (req : FetchRequest).
Hypothesis req_ok : 0 < len (URL req) <= FetchMaxURL /\ len (Method req) <= FetchMaxMethod /\ len (req_Body req) <= FetchMaxBody.
Hypothesis responses : forall f f' resp, fetch_Fetch f req = (f', inr resp) ->
  is_u16 (Status resp) /\ len (resp_Body resp) <= FetchMaxBody.

Lemma fetch_request_fits : fits req /\ 0 < len (EncodeFetchRequest req) <= maxEncodedFetch.
Proof using req_ok.
  unfold FetchMaxURL, FetchMaxMethod, FetchMaxBody in *. change (Z.shiftl 1 20) with 1048576 in *.
  assert (Hf : fits req) by (cbn; lia). split; [done|]. rewrite EncodeFetchRequest_layout by done.
  unfold maxEncodedFetch, FetchMaxURL, FetchMaxMethod, FetchMaxBody, field.
  change (Z.shiftl 1 20) with 1048576. len_lia.
Qed.

Lemma fetch_response_len resp :
  is_u16 (Status resp) -> len (resp_Body resp) <= FetchMaxBody ->
  fits resp /\ 6 <= len (EncodeFetchResponse resp) <= fetch_bound.
Proof.
  unfold fetch_bound, FetchMaxBody. change (Z.shiftl 1 20) with 1048576. intros Hs Hb.
  assert (Hf : fits resp) by (cbn; split; [done|lia]). split; [done|].
  rewrite EncodeFetchResponse_layout by done. unfold field. len_lia.
Qed.

(** One call of the host function. *)
Lemma fetch_host (m : M) f rb b roots :
  held m rb (EncodeFetchRequest req) -> heap_ok m (b :: roots) -> 0 < b_len b <= fetch_bound ->
  let '(f', r) := fetch_Fetch f req in
  exists m' n, fetch (Some f) m (bytePtr rb) (i32 (b_len rb)) (bytePtr b) (i32 (b_len b)) = Ok (Some f', m', n) /\
    heap_ok m' (b :: roots) /\ keeps m m' roots /\
    match r with
    | inl ErrEgressDenied => n = FetchErrDenied
    | inl errEgressUnavailable => n = FetchErrUnavail
    | inl errResponseTooLarge => n = FetchErrTooLarge
    | inl _ => n = FetchErrInternal
    | inr resp => n = len (EncodeFetchResponse resp) /\ 6 <= n <= fetch_bound /\
                  DecodeFetchResponse (EncodeFetchResponse resp) = Ok resp /\
                  (n <= b_len b -> load m' b n = Done (EncodeFetchResponse resp))
    end.
Proof using req_ok responses H0.
  intros Hh Hok Hb. destruct (fetch_Fetch f req) as [f' r] eqn:Hf.
  destruct fetch_request_fits as [Hfits Hlen]. unfold fetch.
  assert (H31 : maxEncodedFetch < 2 ^ 31) by done.
  destruct (read_held _ _ _ Hh) as [-> Hr]; [lia|]. rewrite (proj2 (Z.leb_gt _ _)), (proj2 (Z.ltb_ge _ _)) by lia.
  cbn [orb]. rewrite Hr. pose proof (dec_enc (A:=FetchRequest) req Hfits) as Hd. cbn [dec enc FetchRequest_codec] in Hd.
  rewrite Hd, !(proj2 (Z.ltb_ge _ _)) by lia. cbn [orb]. rewrite Hf.
  rewrite (i32_small (b_len b)) by (unfold is_i32, fetch_bound, FetchMaxBody in *; change (Z.shiftl 1 20) with 1048576 in *; lia).
  destruct r as [e|resp]; [destruct e; eexists m, _; (split; [reflexivity|]); split_and!; first [done|apply keeps_refl]|].
  destruct (responses _ _ _ Hf) as [Hs Hbody]. destruct (fetch_response_len resp Hs Hbody) as [Hrf Hrl].
  destruct (write_out m (bytePtr b) (b_len b) (EncodeFetchResponse resp) FetchErrInternal true) as [m' n] eqn:Hw.
  assert (Hv : len (EncodeFetchResponse resp) < 2 ^ 31)
    by (unfold fetch_bound, FetchMaxBody in *; change (Z.shiftl 1 20) with 1048576 in *; lia).
  assert (Hne : true = true -> EncodeFetchResponse resp <> []) by (intros _ E; rewrite E, len_nil in Hrl; lia).
  destruct (write_out_heap m b roots _ _ _ _ _ Hok (proj1 Hb) Hv Hne Hw) as (-> & Hok' & Hk & Hload).
  eexists m', _. split; [reflexivity|]. split_and!; try done; try lia.
  exact (dec_enc (A:=FetchResponse) resp Hrf).
Qed.

Lemma guest_fetch_spec (m : M) f (ctx : nat -> option ctx_error) :
  (forall i, ctx i = None) -> heap_ok m live ->
  gives m (guest_fetch live ctx m (Some f) (Method req) (URL req) (req_Body req))
    (fun f' r => exists n f1, f' = Some f1 /\ fetched req 4096 f n f1 r).
Proof using req_ok responses H0.
  intros Hctx Hok. unfold guest_fetch. destruct req_ok as (Hu & Hm & Hbd).
  rewrite (proj2 (Z.eqb_neq _ _)), !(proj2 (Z.ltb_ge _ _)), Hctx by lia. cbn [orb].
  replace (mkFetchRequest (Method req) (URL req) (req_Body req)) with req by (by destruct req).
  destruct (make_bytes_spec m live (EncodeFetchRequest req) Hok) as [->|(m1 & rb & -> & Hok1 & _ & Hh1 & Hk1)]; [by left|].
  cbn [gbind]. destruct (make_zero_spec m1 (rb :: live) 4096 Hok1 ltac:(lia)) as [->|(m2 & b & -> & Hok2 & Hl2 & Hk2)]; [by left|].
  cbn [gbind]. eapply (gives_placed m m2 rb); [by eapply keeps_placed|].
  set (I := fun cap (m : M) (h : option F) => held m rb (EncodeFetchRequest req) /\
              exists f1, h = Some f1 /\ forall n f' r, fetched req cap f1 n f' r -> exists n0, fetched req 4096 f n0 f' r).
  apply (growing_spec (rb :: live) _ _ fetch_bound I); subst I; cbn beta.
  - intros cap ma mb h (Hh & Hx) Hk. split; [|done]. eapply keeps_held; [exact Hk|apply in_head|done].
  - intros round ma h ba (Hh & f1 & -> & Hx) Hoka Hb. pose proof (fetch_host ma f1 rb ba _ Hh Hoka Hb) as Hc.
    destruct (fetch_Fetch f1 req) as [f2 r] eqn:Hf. destruct Hc as (m' & n & -> & Hok' & Hk' & Hn). cbn [host_answer].
    split; [done|]. split; [done|]. unfold fetch_switch. rewrite Hctx.
    destruct r as [e|resp].
    + destruct (Hx 1%nat f2 (fetch_failed (fetch_error_of e))) as [n0 Hn0]; [by eapply fetched_error|].
      destruct e; rewrite Hn; cbn; by exists n0, f2.
    + destruct Hn as (-> & Hn & Hd & Hload).
      unfold FetchErrDenied, FetchErrTooLarge, FetchErrUnavail. rewrite !(proj2 (Z.eqb_neq _ _)), (proj2 (Z.ltb_ge _ _)) by lia.
      destruct (_ <=? b_len ba) eqn:Hle; zbool.
      * destruct (Hx 1%nat f2 (mkFetchResult (Status resp) (resp_Body resp) None)) as [n0 Hn0]; [by eapply fetched_fits|].
        eexists _, _. split_and!; [by apply Hload|by rewrite Hd|]. by exists n0, f2.
      * split; [lia|]. split; [eapply keeps_held; [exact Hk'|apply in_head|done]|].
        exists f2. split; [done|]. intros n f' r Hr. eapply Hx. by eapply fetched_again.
  - split; [eapply keeps_held; [exact Hk2|apply in_head|done]|]. exists f. split; [done|]. rewrite Hl2. eauto.
  - done.
  - rewrite Hl2. done.
  - unfold rounds. rewrite Hl2. unfold fetch_bound, FetchMaxBody. change (Z.shiftl 1 20) with 1048576. lia.
Qed.

End Fetching.

(** *** hostexec *)

Section Running.
Context {C : Type} `{Commander C} (req : ExecRequest).
Hypothesis req_valid : exec_valid (Name req) (Args req) = true.
Hypothesis codes : forall c c' resp, cmd_Run c req = (c', inr resp) -> is_i32 (ExitCode resp).

Lemma exec_request_fits :
  validExecRequest req = true /\ fits req /\ 0 < len (EncodeExecRequest req) < 2 ^ 31.
Proof using req_valid.
  assert (Hv : validExecRequest req = true) by exact req_valid. split; [done|].
  unfold exec_valid in req_valid. destruct (_ || _ || _) eqn:Hc in req_valid; [done|]. zbool.
  assert (Ha : Forall (fun a => len a <= ExecMaxArg) (Args req)).
  { apply Forall_forall. intros a Hin. rewrite forallb_forall in req_valid.
    specialize (req_valid a ltac:(by apply list_elem_of_In)). by zbool. }
  assert (Hf : fits req) by (by cbn). split; [done|]. rewrite EncodeExecRequest_layout by done.
  assert (Hw : len (args_wire (Args req)) <= len (Args req) * (4 + ExecMaxArg)).
  { clear -Ha. induction Ha as [|a args Ha' _ IH]; [done|].
    unfold args_wire in *; cbn [map concat]; unfold field in *. len_lia. }
  unfold ExecMaxName, ExecMaxArgs in *. change ExecMaxArg with 65536 in *. unfold field. len_lia.
Qed.

Lemma exec_response_len resp :
  is_i32 (ExitCode resp) -> len (Stdout resp) <= ExecMaxOutput -> len (Stderr resp) <= ExecMaxOutput ->
  fits resp /\ 12 <= len (EncodeExecResponse resp) <= exec_bound.
Proof.
  unfold exec_bound, ExecMaxOutput. change (Z.shiftl 1 20) with 1048576. intros Hc Ho He.
  assert (Hf : fits resp) by (cbn; split; [exact Hc|lia]). split; [done|].
  rewrite EncodeExecResponse_layout by done. unfold field. len_lia.
Qed.

Definition exec_fits_out (resp : ExecResponse) : Prop :=
  len (Stdout resp) <= ExecMaxOutput /\ len (Stderr resp) <= ExecMaxOutput.

(** One call of the host function. *)
Lemma exec_host (m : M) c rb b roots :
  held m rb (EncodeExecRequest req) -> heap_ok m (b :: roots) -> 0 < b_len b <= exec_bound ->
  let '(c', r) := cmd_Run c req in
  exists m' n, exec (Some c) m (bytePtr rb) (i32 (b_len rb)) (bytePtr b) (i32 (b_len b)) = Ok (Some c', m', n) /\
    heap_ok m' (b :: roots) /\ keeps m m' roots /\
    match r with
    | inl ErrExecTooLarge => n = ExecErrTooLarge
    | inl ErrExecDenied | inl ErrExecNotFound | inl ErrExecUnresolved => n = ExecErrUnavailable
    | inl _ => n = ExecErrFailed
    | inr resp =>
      (n = ExecErrTooLarge /\ (ExecMaxOutput < len (Stdout resp) \/ ExecMaxOutput < len (Stderr resp))) \/
      (n = len (EncodeExecResponse resp) /\ exec_fits_out resp /\ 12 <= n <= exec_bound /\
       DecodeExecResponse (EncodeExecResponse resp) = Ok resp /\
       (n <= b_len b -> load m' b n = Done (EncodeExecResponse resp)))
    end.
Proof using req_valid codes H0.
  intros Hh Hok Hb. destruct (cmd_Run c req) as [c' r] eqn:Hc.
  destruct exec_request_fits as (Hv & Hfits & Hlen). unfold exec.
  destruct (read_held _ _ _ Hh) as [-> Hr]; [lia|].
  rewrite (i32_small (b_len b)) by (unfold is_i32, exec_bound, ExecMaxOutput in *; change (Z.shiftl 1 20) with 1048576 in *; lia).
  rewrite (proj2 (Z.leb_gt _ _)), (proj2 (Z.ltb_ge _ _)) by lia.
  cbn [orb]. rewrite Hr. pose proof (dec_enc (A:=ExecRequest) req Hfits) as Hd. cbn [dec enc ExecRequest_codec] in Hd.
  rewrite Hd, Hv. cbn [negb]. rewrite Hc.
  destruct r as [e|resp]; [destruct e; eexists m, _; (split; [reflexivity|]); split_and!; first [done|apply keeps_refl]|].
  destruct (_ || _) eqn:Hbig.
  { eexists m, _. split; [reflexivity|]. split; [done|]. split; [apply keeps_refl|]. left. split; [done|].
    apply orb_true_iff in Hbig as [Hx|Hx]; apply Z.ltb_lt in Hx; [by left|by right]. }
  zbool. destruct (exec_response_len resp (codes _ _ _ Hc) ltac:(done) ltac:(done)) as [Hrf Hrl].
  destruct (write_out m (bytePtr b) (b_len b) (EncodeExecResponse resp) ExecErrFailed false) as [m' n] eqn:Hw.
  assert (Hvl : len (EncodeExecResponse resp) < 2 ^ 31)
    by (unfold exec_bound, ExecMaxOutput in *; change (Z.shiftl 1 20) with 1048576 in *; lia).
  destruct (write_out_heap m b roots _ _ false _ _ Hok (proj1 Hb) Hvl ltac:(done) Hw) as (-> & Hok' & Hk & Hload).
  eexists m', _. split; [reflexivity|]. split; [done|]. split; [done|]. right. split_and!; try done; try lia.
  exact (dec_enc (A:=ExecResponse) resp Hrf).
Qed.

Lemma execCommand_spec (m : M) c (ctx : nat -> option ctx_error) :
  (forall i, ctx i = None) -> heap_ok m live ->
  gives m (execCommand live ctx m (Some c) (Name req) (Args req))
    (fun c' r => exists n c1, c' = Some c1 /\ ran req 4096 c n c1 r).
Proof using req_valid codes H0.
  intros Hctx Hok. unfold execCommand. rewrite req_valid, Hctx. cbn [negb].
  replace (mkExecRequest (Name req) (Args req)) with req by (by destruct req).
  destruct (make_bytes_spec m live (EncodeExecRequest req) Hok) as [->|(m1 & rb & -> & Hok1 & _ & Hh1 & Hk1)]; [by left|].
  cbn [gbind]. destruct (make_zero_spec m1 (rb :: live) 4096 Hok1 ltac:(lia)) as [->|(m2 & b & -> & Hok2 & Hl2 & Hk2)]; [by left|].
  cbn [gbind]. eapply (gives_placed m m2 rb); [by eapply keeps_placed|].
  set (I := fun cap (m : M) (h : option C) => held m rb (EncodeExecRequest req) /\
              exists c1, h = Some c1 /\ forall n c' r, ran req cap c1 n c' r -> exists n0, ran req 4096 c n0 c' r).
  apply (growing_spec (rb :: live) _ _ exec_bound I); subst I; cbn beta.
  - intros cap ma mb h (Hh & Hx) Hk. split; [|done]. eapply keeps_held; [exact Hk|apply in_head|done].
  - intros round ma h ba (Hh & c1 & -> & Hx) Hoka Hb. pose proof (exec_host ma c1 rb ba _ Hh Hoka Hb) as Hc.
    destruct (cmd_Run c1 req) as [c2 r] eqn:Hf. destruct Hc as (m' & n & -> & Hok' & Hk' & Hn). cbn [host_answer].
    split; [done|]. split; [done|]. unfold exec_switch. rewrite Hctx.
    destruct r as [e|resp]; [|destruct Hn as [[-> Hbig]|(-> & [Ho He] & Hn & Hd & Hload)]].
    + destruct (Hx 1%nat c2 (exec_failed (exec_error_of e))) as [n0 Hn0]; [by eapply ran_error|].
      destruct e; rewrite Hn; cbn; by exists n0, c2.
    + destruct (Hx 1%nat c2 (exec_failed ExecTooLarge)) as [n0 Hn0]; [by eapply ran_too_large|].
      cbn. by exists n0, c2.
    + unfold ExecErrUnavailable, ExecErrTooLarge. rewrite !(proj2 (Z.eqb_neq _ _)), (proj2 (Z.ltb_ge _ 0)) by lia.
      destruct (_ <=? b_len ba) eqn:Hle; zbool.
      * destruct (Hx 1%nat c2 (mkExecResult (ExitCode resp) (Stdout resp) (Stderr resp) None)) as [n0 Hn0]; [by eapply ran_fits|].
        eexists _, _. split_and!; [by apply Hload|by rewrite Hd|]. by exists n0, c2.
      * rewrite (proj2 (Z.ltb_ge exec_bound _)) by lia.
        split; [lia|]. split; [eapply keeps_held; [exact Hk'|apply in_head|done]|].
        exists c2. split; [done|]. intros n c' r Hr. eapply Hx. by eapply ran_again.
  - split; [eapply keeps_held; [exact Hk2|apply in_head|done]|]. exists c. split; [done|]. rewrite Hl2. eauto.
  - done.
  - rewrite Hl2. done.
  - unfold rounds. rewrite Hl2. unfold exec_bound, ExecMaxOutput. change (Z.shiftl 1 20) with 1048576. lia.
Qed.

End Running.

(** *** identity *)

(** What an application is told: the name is cut at [AuthMaxUser] bytes, and a
    kind it does not know is empty. *)
Definition told (id : SessionIdentity) : GuestIdentity :=
  mkGuestIdentity (take (Z.to_nat AuthMaxUser) (si_User id)) (si_Authenticated id)
    (if bool_decide (si_Kind id = kindSSHKey) then kindSSHKey
     else if bool_decide (si_Kind id = kindAnonymous) then kindAnonymous else [])
    (si_OwnsApp id).

Lemma told_kind id : identityKind (id_Kind (identity_sent (to_abi id))) = gi_Kind (told id).
Proof.
  unfold told, to_abi, identity_sent, identityKindToABI. cbn [id_Kind gi_Kind].
  by repeat case_bool_decide.
Qed.

Lemma whoami_spec {A} `{Auth A} (m : M) (a : A) :
  heap_ok m live ->
  gives m (whoami live m (Some a))
    (fun h r => let '(a', id) := auth_Whoami a in h = Some a' /\ r = (told id, None)).
Proof using H0.
  intros Hok. unfold whoami. destruct (make_zero_spec m live 320 Hok ltac:(lia)) as [->|(m1 & b & -> & Hok1 & Hl1 & Hk1)]; [by left|].
  cbn [gbind]. destruct (rounds (2 ^ 16)) as [|k] eqn:Hrounds; [unfold rounds in Hrounds; lia|]. clear Hrounds. cbn [growing].
  unfold auth_whoami. destruct (auth_Whoami a) as [a' id]. rewrite EncodeIdentity_layout. cbn [rbind].
  set (enc := _ :: _). assert (Hlen : len enc <= 320 /\ enc <> []).
  { split; [|done]. subst enc. unfold identity_sent, AuthMaxUser, field. cbn [User]. len_lia. }
  destruct Hlen as [Hlen Hne]. rewrite Hl1. change (i32 320) with 320.
  destruct (write_out m1 (bytePtr b) 320 enc AuthErrInternal true) as [m2 n] eqn:Hw. rewrite <- Hl1 in Hw.
  assert (H31 : len enc < 2 ^ 31) by lia.
  destruct (write_out_heap m1 b live enc _ true _ _ Hok1 ltac:(lia) H31 ltac:(done) Hw) as (-> & Hok2 & Hk2 & Hload).
  cbn [host_answer]. unfold whoami_switch, AuthErrInternal. len_pos.
  rewrite (proj2 (Z.eqb_neq _ _)), (proj2 (Z.ltb_ge _ 0)), (proj2 (Z.leb_le _ 320)) by lia. cbn [orb].
  rewrite Hload by lia. cbn [gbind]. subst enc.
  rewrite DecodeIdentity_layout by (unfold identity_sent, AuthMaxUser; cbn [User]; len_lia).
  destruct (identity_flags_read (to_abi id)) as (-> & -> & ->). cbn [gbind User Authenticated id_Kind OwnsApp].
  right. eexists m2, _, _. split; [reflexivity|]. split; [by eapply heap_drop|]. split; [by eapply keeps_trans|].
  split; [done|]. f_equal. pose proof (told_kind id) as Hkind. cbn [id_Kind identity_sent] in Hkind.
  rewrite Hkind. done.
Qed.

(** *** secrets *)

Lemma envGet_spec bound (m : M) (env : MapEnv) key :
  heap_ok m live -> 1 <= len key <= EnvMaxKey -> 256 <= bound < 2 ^ 31 ->
  (forall v, env !! key = Some v -> len v <= bound) ->
  gives m (envGet live bound m (Some env) key)
    (fun h r => h = Some env /\ r = mkSecretResult (default [] (env !! key)) (bool_decide (is_Some (env !! key))) None).
Proof using H0.
  intros Hok Hkey Hbound Hv. unfold envGet. rewrite (proj2 (Z.eqb_neq _ _)), (proj2 (Z.ltb_ge _ _)) by lia. cbn [orb].
  destruct (make_bytes_spec m live key Hok) as [->|(m1 & kb & -> & Hok1 & _ & Hh1 & Hk1)]; [by left|].
  cbn [gbind]. destruct (make_zero_spec m1 (kb :: live) 256 Hok1 ltac:(lia)) as [->|(m2 & b & -> & Hok2 & Hl2 & Hk2)]; [by left|].
  cbn [gbind]. eapply (gives_placed m m2 kb); [by eapply keeps_placed|].
  apply (growing_spec (kb :: live) _ _ bound (fun _ m h => h = Some env /\ held m kb key)).
  - intros _ ma mb h [-> Hh] Hk. split; [done|]. eapply keeps_held; [exact Hk|apply in_head|done].
  - intros round ma h ba [-> Hh] Hoka Hb. unfold env_get. unfold EnvMaxKey in *.
    destruct (read_held _ _ _ Hh) as [-> ->]; [lia|]. rewrite (proj2 (Z.leb_gt _ _)), (proj2 (Z.ltb_ge _ _)) by lia. cbn [orb].
    rewrite (i32_small (b_len ba)) by (unfold is_i32; lia). cbn [env_Get MapEnv_Env].
    destruct (env_Get env key) as [env1 r1] eqn:Eg. unfold env_Get, MapEnv_Env in Eg. injection Eg as <- <-.
    destruct (env !! key) as [v|] eqn:Hl.
    + specialize (Hv v eq_refl). destruct (write_out ma (bytePtr ba) (b_len ba) v EnvErrInternal false) as [m' n] eqn:Hw.
      assert (H31 : len v < 2 ^ 31) by lia.
      destruct (write_out_heap ma ba _ v _ false _ _ Hoka (proj1 Hb) H31 ltac:(done) Hw) as (-> & Hok' & Hk' & Hload).
      split; [done|]. split; [done|]. unfold envGet_switch, EnvErrNotFound, EnvErrTooLarge. len_pos.
      rewrite !(proj2 (Z.eqb_neq _ _)), (proj2 (Z.ltb_ge _ 0)) by lia.
      destruct (_ <=? b_len ba) eqn:Hle; zbool.
      * eexists _, _. by split_and!; [apply Hload|..].
      * split; [lia|]. split; [done|]. eapply keeps_held; [exact Hk'|apply in_head|done].
    + split; [done|]. split; [apply keeps_refl|]. done.
  - split; [done|]. eapply keeps_held; [exact Hk2|apply in_head|done].
  - done.
  - rewrite Hl2. lia.
  - unfold rounds. rewrite Hl2. lia.
Qed.

(** *** bus *)

Lemma publish_spec {B} `{Bus B} (m : M) (bus : B) topic data :
  heap_ok m live -> bus_validate topic data = None ->
  gives m (publish live m (Some bus) topic data)
    (fun h r => let '(bus', n) := bus_Publish bus topic data in
       h = Some bus' /\ (0 <= i32 n -> r = None)).
Proof using H0.
  intros Hok Hv. unfold publish. rewrite Hv. unfold bus_validate in Hv.
  case_bool_decide as Hne; [done|]. destruct (_ || _) eqn:Hc; [done|]. zbool.
  destruct (make_bytes_spec m live data Hok) as [->|(m1 & db & -> & Hok1 & _ & Hh1 & Hk1)]; [by left|].
  cbn [gbind]. destruct (make_bytes_spec m1 (db :: live) topic Hok1) as [->|(m2 & tb & -> & Hok2 & _ & Hh2 & Hk2)]; [by left|].
  cbn [gbind]. right. unfold bus_pub, readTopic. unfold BusMaxTopic, BusMaxData in *.
  assert (0 < len topic) by (destruct topic; [done|len_lia]).
  destruct (read_held _ _ _ Hh2) as [-> ->]; [lia|].
  pose proof (keeps_held _ _ _ _ _ Hk2 (in_head _ _) Hh1) as Hh1'.
  destruct (read_held _ _ _ Hh1') as [-> ->]; [lia|].
  rewrite (proj2 (Z.leb_gt _ _)), !(proj2 (Z.ltb_ge _ _)) by len_lia. cbn [orb].
  destruct (bus_Publish bus topic data) as [bus' n]. eexists m2, _, _. split; [reflexivity|].
  split; [by do 2 eapply heap_drop|]. split; [by eapply keeps_placed|]. split; [done|].
  intros Hn. by rewrite (proj2 (Z.leb_le _ _)).
Qed.

(** What an application is told: an identity lookup makes one lookup of the
    session's identity and gives it, the name cut at [AuthMaxUser] bytes and
    without the owner's id; a secret is given in full or as absent, whatever its
    size; a publication reaches the bus once with its topic and data.  No call
    touches the objects of the application, and a cancelled context makes none. *)
Theorem guest_services_exact {A B} `{Auth A} `{Bus B} (m : M) (a : A) (env : MapEnv) (bus : B) key topic data bound :
  heap_ok m live -> 1 <= len key <= EnvMaxKey -> 256 <= bound < 2 ^ 31 ->
  (forall v, env !! key = Some v -> len v <= bound) -> bus_validate topic data = None ->
  (gives m (Whoami live None m (Some a))
    (fun h r => let '(a', id) := auth_Whoami a in h = Some a' /\ r = (told id, None)) /\
  gives m (Secrets_Get live bound None m (Some env) key)
    (fun h r => h = Some env /\ r = mkSecretResult (default [] (env !! key)) (bool_decide (is_Some (env !! key))) None) /\
  gives m (Bus_Publish live None m (Some bus) topic data)
    (fun h r => let '(bus', n) := bus_Publish bus topic data in h = Some bus' /\ (0 <= i32 n -> r = None))) /\
  (forall e, Whoami live (Some e) m (Some a) = Done (m, Some a, (no_identity, Some (IdentityContext e))) /\
     Secrets_Get live bound (Some e) m (Some env) key = Done (m, Some env, mkSecretResult [] false (Some (SecretsContext e))) /\
     Bus_Publish live (Some e) m (Some bus) topic data = Done (m, Some bus, Some (BusContext e))).
Proof.
  intros Hok Hkey Hb Hv Hbv. unfold Whoami, Secrets_Get, Bus_Publish.
  rewrite (proj2 (Z.eqb_neq _ _)), (proj2 (Z.ltb_ge _ _)), Hbv by lia. split; [|done]. split_and!.
  - by apply whoami_spec.
  - by apply envGet_spec.
  - by apply publish_spec.
Qed.

(** C24 (requests and commands): an HTTP request or a host command of an application
    is made with exactly its arguments, and what the application gets is the
    last answer: of the first one if that is an error or its encoding fits 4096
    bytes; otherwise the same request is made again, with a larger buffer, until
    an answer fits.  It always ends. *)
Theorem guest_requests_exact {F C} `{Fetcher F} `{Commander C} (m : M) (f : F) (c : C) method url body name args :
  heap_ok m live ->
  fetch_validate (normalizeMethod method) url body = None -> exec_valid name args = true ->
  (forall f f' resp, fetch_Fetch f (http_request method url body) = (f', inr resp) -> is_u16 (Status resp) /\ len (resp_Body resp) <= FetchMaxBody) ->
  (forall c c' resp, cmd_Run c (mkExecRequest name args) = (c', inr resp) -> is_i32 (ExitCode resp)) ->
  gives m (Fetch_Request live (fun _ => None) m (Some f) method url body)
    (fun h r => exists n f1, h = Some f1 /\ fetched (http_request method url body) 4096 f n f1 r) /\
  gives m (Hostexec_Run live (fun _ => None) m (Some c) name args)
    (fun h r => exists n c1, h = Some c1 /\ ran (mkExecRequest name args) 4096 c n c1 r).
Proof.
  intros Hok Hv Hx Hresp Hcodes. unfold Fetch_Request, Hostexec_Run. rewrite Hv, Hx. cbn [negb].
  split; [|by apply (execCommand_spec (mkExecRequest name args))].
  apply (guest_fetch_spec (http_request method url body)); [|done|done|done]. unfold http_request. cbn [URL Method req_Body]. unfold fetch_validate in Hv.
  case_bool_decide; [done|]. cbn [orb] in Hv. destruct (_ || _) eqn:H1' in Hv; [done|].
  destruct (_ || _) eqn:H2' in Hv; [done|]. zbool. len_pos. lia.
Qed.

End Laws.

(** ** A large answer is asked for twice *)

Lemma large_response_repeats {F} `{Fetcher F} req (f f1 f' : F) resp n r :
  fetch_Fetch f req = (f1, inr resp) -> 4096 < len (EncodeFetchResponse resp) ->
  fetched req 4096 f n f' r -> (2 <= n)%nat.
Proof.
  intros Hf Hl Hr. inversion Hr; subst; try congruence.
  - assert (resp0 = resp) by congruence. subst. lia.
  - match goal with G : fetched _ _ _ _ _ _ |- _ => inversion G; subst; lia end.
Qed.

(** A server that counts the requests it gets and answers with 5000 bytes, and a
    command that counts its runs and prints as much. *)
Definition big_body : bytes := replicate 5000 65.
#[local] Instance counting_fetcher : Fetcher nat :=
  fun n _ => (S n, inr (mkFetchResponse 200 big_body)).
#[local] Instance counting_commander : Commander nat :=
  fun n _ => (S n, inr (mkExecResponse 0 big_body [])).

Definition app_memory : LinearMemory := mkLinear (str "app").
Definition app_live : list block := [mkBlock 0 3].

Lemma app_heap : heap_ok app_memory app_live.
Proof.
  apply bump_start. split; [done|]. split; [|by repeat constructor].
  apply Forall_cons. split; [by unfold inside|apply Forall_nil_2].
Qed.

(** A POST is sent twice: one request of an application, answered by 5000
    bytes, reaches the server twice; one command runs twice. *)
Theorem large_answer_twice :
  (exists m r, Fetch_Request app_live (fun _ => None) app_memory (Some 0%nat) (str "POST") (str "https://pay/order") (str "x")
     = Done (m, Some 2%nat, r) /\ fr_Err r = None) /\
  (exists m r, Hostexec_Run app_live (fun _ => None) app_memory (Some 0%nat) (str "deploy") [] = Done (m, Some 2%nat, r) /\
     er_Err r = None).
Proof. split; eexists _, _; split; vm_compute; reflexivity. Qed.

Definition sample_env : MapEnv := {[ str "TOKEN" := replicate 300 7 ]}.
Definition sample_guest : StaticAuth :=
  mkStaticAuth (mkSessionIdentity (str "SHA256:k") true kindSSHKey true (str "owner")).
#[local] Instance quiet_bus : Bus nat := { bus_Publish b _ _ := (S b, 0); bus_Subscribe b _ := (b, false) }.

Lemma guest_services_exact_witness :
  (exists m, Whoami app_live None app_memory (Some sample_guest) =
     Done (m, Some sample_guest, (mkGuestIdentity (str "SHA256:k") true (str "ssh-key") true, None))) /\
  (exists m, Secrets_Get app_live 4096 None app_memory (Some sample_env) (str "TOKEN") =
     Done (m, Some sample_env, mkSecretResult (replicate 300 7) true None)) /\
  (exists m, Bus_Publish app_live None app_memory (Some 0%nat) (str "t") (str "d") = Done (m, Some 1%nat, None)).
Proof.
  assert (Hv : forall v, sample_env !! str "TOKEN" = Some v -> len v <= 4096).
  { intros v E. vm_compute in E. injection E as <-. done. }
  destruct (guest_services_exact app_live app_memory sample_guest sample_env 0%nat (str "TOKEN") (str "t") (str "d") 4096
              app_heap ltac:(done) ltac:(done) Hv eq_refl) as [(Hw & Hs & Hp) _].
  split_and!.
  - destruct Hw as [Hw|(m & h & r & E & _ & _ & Hh & Hr)]; [vm_compute in Hw; discriminate Hw|].
    exists m. rewrite E, Hh, Hr. reflexivity.
  - destruct Hs as [Hs|(m & h & r & E & _ & _ & Hh & Hr)]; [vm_compute in Hs; discriminate Hs|].
    exists m. rewrite E, Hh, Hr. vm_compute. reflexivity.
  - destruct Hp as [Hp|(m & h & r & E & _ & _ & Hh & Hr)]; [vm_compute in Hp; discriminate Hp|].
    exists m. rewrite E, Hh, Hr; [reflexivity|done].
Defined.

Lemma guest_requests_exact_witness : exists m f r n,
  Fetch_Request app_live (fun _ => None) app_memory (Some 0%nat) [] (str "https://a/") [] = Done (m, Some f, r) /\
  fetched (http_request [] (str "https://a/") []) 4096 0%nat n f r /\ (2 <= n)%nat.
Proof.
  assert (Hresp : forall f f' resp, fetch_Fetch f (http_request [] (str "https://a/") []) = (f', inr resp) ->
            is_u16 (Status resp) /\ len (resp_Body resp) <= FetchMaxBody).
  { intros f f' resp E. unfold fetch_Fetch, counting_fetcher in E.
    injection E as <- <-. done. }
  assert (Hcodes : forall c c' resp, cmd_Run c (mkExecRequest (str "ls") []) = (c', inr resp) -> is_i32 (ExitCode resp)).
  { intros c c' resp E. unfold cmd_Run, counting_commander in E. injection E as <- <-. done. }
  destruct (guest_requests_exact app_live app_memory 0%nat 0%nat [] (str "https://a/") [] (str "ls") [] app_heap
              ltac:(reflexivity) ltac:(reflexivity) Hresp Hcodes) as [[Hf|(m & h & r & E & _ & _ & n & f1 & -> & Hr)] _];
    [vm_compute in Hf; discriminate Hf|].
  exists m, f1, r, n. split; [exact E|]. split; [exact Hr|].
  eapply large_response_repeats; [reflexivity| |exact Hr]. done.
Defined.

End guestsvc.
