(* ===== verification/OsFs.v ===== *)
(** * Files under failing calls and crashes

    A file system as a map from paths (lists of names) to files, directories and links, the
    calls of the os package on it, and a monad for code that makes such calls: every call
    may fail, and the process may stop at every call; a write that fails or is stopped
    leaves a prefix. Links are recognised and never followed. What a power failure does to
    files that are not synced is not modelled. *)

From stdpp Require Import sorting.
From S2P Require Import Prelude Utf8 GoStrings Keys.

Module osfs.

Abbreviation path := (list bytes).

(** The permissions of files and directories. *)
Inductive node := NFile (perm : Z) (data : bytes) | NDir (perm : Z) | NLink.
Abbreviation FS := (gmap path node).

(** ** Subtrees *)

Fixpoint strip (p k : path) : option path :=
  match p, k with
  | [], _ => Some k
  | x :: p, y :: k => if bool_decide (x = y) then strip p k else None
  | _ :: _, [] => None
  end.
(** What is at a path and below it, relative to the path. *)
Definition sub (p : path) (fs : FS) : FS := map_fold (fun k n t => match strip p k with Some r => <[r := n]> t | None => t end) ∅ fs.
Definition set_sub (p : path) (t fs : FS) : FS := kmap (app p) t ∪ filter (fun kv => strip p kv.1 = None) fs.
Definition remove_sub (p : path) : FS -> FS := set_sub p ∅.

Definition parent (p : path) : path := removelast p.
Definition is_dir (p : path) (fs : FS) : bool := match fs !! p with Some (NDir _) => true | _ => false end.

(** ** Code that calls the operating system *)

Inductive OsErr := ErrOS | ErrNotExist | ErrExist.

(** What becomes of a call: it is made, it fails, or the process stops. A number says how far
    a call that is not atomic got. *)
Inductive fault := Go | Bad (progress : nat) | Stop (progress : nat).
Record World := mkWorld { w_fs : FS; w_faults : list fault }.

Section Monad.
Context {E : Type} (os_err : OsErr -> E).
Inductive outcome (A : Type) := Ret (a : A) | Fail (e : E) | Crashed.
Arguments Ret {A} a.
Arguments Fail {A} e.
Arguments Crashed {A}.

Definition M (A : Type) : Type := World -> World * outcome A.
Definition ret {A} (a : A) : M A := fun w => (w, Ret a).
Definition fail {A} (e : E) : M A := fun w => (w, Fail e).
Definition bind {A B} (c : M A) (k : A -> M B) : M B := fun w =>
  match c w with
  | (w, Ret a) => k a w
  | (w, Fail e) => (w, Fail e)
  | (w, Crashed) => (w, Crashed)
  end.
(** An error that the code looks at, or ignores. *)
Definition try {A} (c : M A) : M (E + A) := fun w =>
  match c w with
  | (w, Ret a) => (w, Ret (inr a))
  | (w, Fail e) => (w, Ret (inl e))
  | (w, Crashed) => (w, Crashed)
  end.

(** [f] is the whole effect of a call, [part] that of one that got no further. *)
Definition call {A} (f : FS -> FS * (OsErr + A)) (part : nat -> FS -> FS) : M A := fun w =>
  match w_faults w with
  | Bad n :: l => (mkWorld (part n (w_fs w)) l, Fail (os_err ErrOS))
  | Stop n :: l => (mkWorld (part n (w_fs w)) l, Crashed)
  | l => let '(fs, r) := f (w_fs w) in
         (mkWorld fs (tail l), match r with inl e => Fail (os_err e) | inr a => Ret a end)
  end.
(** A call that has its whole effect or none. *)
Definition atomic_call {A} (f : FS -> FS * (OsErr + A)) : M A := call f (fun _ fs => fs).
(** A call that reads. *)
Definition read_call {A} (f : FS -> OsErr + A) : M A := atomic_call (fun fs => (fs, f fs)).
(** A call that changes the tree, or refuses. *)
Definition change_call (f : FS -> OsErr + FS) : M unit :=
  atomic_call (fun fs => match f fs with inl e => (fs, inl e) | inr fs' => (fs', inr tt) end).

(** ** Calls *)

(** [os.Lstat]; [None] is os.ErrNotExist. *)
Definition Lstat (p : path) : M (option node) := read_call (fun fs => inr (fs !! p)).
(** Opening and reading a file. *)
Definition ReadFile (p : path) : M bytes :=
  read_call (fun fs => match fs !! p with Some (NFile _ data) => inr data | None => inl ErrNotExist | Some _ => inl ErrOS end).
(** [os.OpenFile] with O_CREATE|O_EXCL *)
Definition Create (p : path) (perm : Z) : M unit := change_call (fun fs =>
  match fs !! p with Some _ => inl ErrExist | None => if is_dir (parent p) fs then inr (<[p := NFile perm []]> fs) else inl ErrNotExist end).
(** Writing to the new file. *)
Definition write_data (p : path) (perm : Z) (data : bytes) (fs : FS) : FS := <[p := NFile perm data]> fs.
Definition WriteNew (p : path) (perm : Z) (data : bytes) : M unit :=
  call (fun fs => (write_data p perm data fs, inr tt)) (fun n fs => write_data p perm (take n data) fs).
Definition Sync : M unit := read_call (fun _ => inr tt).
Definition CloseFile : M unit := read_call (fun _ => inr tt).
(** [os.Rename]: a directory that is there is not replaced. *)
Definition rename_tree (p q : path) (fs : FS) : OsErr + FS :=
  match fs !! p with
  | None => inl ErrNotExist
  | Some n =>
    match fs !! q with
    | Some (NDir _) => inl ErrExist
    | old => if negb (is_dir (parent q) fs) then inl ErrNotExist else
             match n, old with
             | NDir _, Some _ => inl ErrOS
             | _, _ => match strip p q with Some _ => inl ErrOS | None => inr (set_sub q (sub p fs) (remove_sub p fs)) end
             end
    end
  end.
Definition Rename (p q : path) : M unit := change_call (rename_tree p q).
(** [os.Remove] *)
Definition Remove (p : path) : M unit := change_call (fun fs =>
  match fs !! p with
  | None => inl ErrNotExist
  | Some (NDir _) => if bool_decide (size (sub p fs) = 1%nat) then inr (delete p fs) else inl ErrOS
  | Some _ => inr (delete p fs)
  end).
(** [os.RemoveAll]; one that stops has removed some entries. *)
Definition remove_some (n : nat) (p : path) (fs : FS) : FS :=
  fold_left (fun fs k => delete (p ++ k) fs) (take n (map fst (map_to_list (sub p fs)))) fs.
Definition RemoveAll (p : path) : M unit := call (fun fs => (remove_sub p fs, inr tt)) (fun n fs => remove_some n p fs).
(** [os.MkdirAll] with permissions 0700 *)
Definition mkdir_one (r : OsErr + FS) (p : path) : OsErr + FS :=
  match r with
  | inl e => inl e
  | inr fs => match fs !! p with None => inr (<[p := NDir 0x1C0]> fs) | Some (NDir _) => inr fs | Some _ => inl ErrOS end
  end.
Definition prefixes (p : path) : list path := map (fun n => take n p) (seq 1 (length p)).
Definition mkdir_all (p : path) (fs : FS) : OsErr + FS := fold_left mkdir_one (prefixes p) (inr fs).
Definition MkdirAll (p : path) : M unit := change_call (mkdir_all p).
(** [os.MkdirTemp] with the name it draws, which is free. *)
Definition MkdirTemp (p : path) (perm : Z) : M unit := change_call (fun fs =>
  match fs !! p with Some _ => inl ErrExist | None => if is_dir (parent p) fs then inr (<[p := NDir perm]> fs) else inl ErrNotExist end).
Definition Chmod (p : path) (perm : Z) : M unit := change_call (fun fs =>
  match fs !! p with
  | Some (NFile _ data) => inr (<[p := NFile perm data]> fs)
  | Some (NDir _) => inr (<[p := NDir perm]> fs)
  | Some NLink => inl ErrOS
  | None => inl ErrNotExist
  end).
(** The entries below a directory, in the lexical order of filepath.WalkDir. *)
Fixpoint path_leb (p q : path) : bool :=
  match p, q with
  | [], _ => true
  | _ :: _, [] => false
  | x :: p, y :: q => if bool_decide (x = y) then path_leb p q else bytes_leb x y
  end.
Definition entry_before (x y : path * node) : Prop := path_leb x.1 y.1 = true.
#[global] Instance entry_before_dec x y : Decision (entry_before x y) := bool_eq_dec _ _.
Definition entries_below (p : path) (fs : FS) : list (path * node) :=
  merge_sort entry_before (filter (fun kn => kn.1 <> []) (map_to_list (sub p fs))).
Definition ListTree (p : path) : M (list (path * node)) := read_call (fun fs => inr (entries_below p fs)).

End Monad.
#[global] Arguments M : clear implicits.
#[global] Arguments outcome : clear implicits.
#[global] Arguments Ret {E A} a.
#[global] Arguments Fail {E A} e.
#[global] Arguments Crashed {E A}.
Declare Scope os_scope.
Delimit Scope os_scope with os.
Notation "'let%' x ':=' c 'in' k" := (bind c (fun x => k))
  (at level 10, x binder, c at level 100, k at level 200, right associativity) : os_scope.

(** ** Subtrees and renaming *)

Lemma strip_Some p k r : strip p k = Some r <-> k = p ++ r.
Proof.
  revert k. induction p as [|x p IH]; intros k; cbn; [split; congruence|]. destruct k as [|y k]; [done|]. case_bool_decide as Hxy; subst.
  - rewrite IH. split; [by intros ->|]. by intros [= ->].
  - split; [done|]. by intros [= ? _].
Qed.
Lemma strip_app p r : strip p (p ++ r) = Some r.
Proof. by apply strip_Some. Qed.
Lemma strip_None p k : strip p k = None <-> forall r, k <> p ++ r.
Proof.
  destruct (strip p k) as [r|] eqn:Hs.
  - apply strip_Some in Hs. split; [done|]. intros Hn. by destruct (Hn r).
  - split; [|done]. intros _ r Hr. apply strip_Some in Hr. congruence.
Qed.

Lemma lookup_sub p fs r : sub p fs !! r = fs !! (p ++ r).
Proof.
  unfold sub. revert r. apply (map_fold_weak_ind (fun t fs => forall r, t !! r = fs !! (p ++ r))).
  - intros r. by rewrite !lookup_empty.
  - intros k n fs' t Hk IH r. destruct (strip p k) as [r'|] eqn:Hs.
    + apply strip_Some in Hs as ->. destruct (decide (r = r')) as [->|Hne].
      * by rewrite !lookup_insert_eq.
      * rewrite !lookup_insert_ne; [apply IH| |done]. intros E. by apply app_inv_head in E.
    + rewrite strip_None in Hs. rewrite lookup_insert_ne; [apply IH|]. intros E. by apply (Hs r).
Qed.
#[local] Instance app_inj (p : path) : Inj (=) (=) (app p).
Proof. intros x y E. by apply app_inv_head in E. Qed.
Lemma lookup_set_sub_in p t fs r : set_sub p t fs !! (p ++ r) = t !! r.
Proof.
  unfold set_sub. rewrite lookup_union, lookup_kmap by apply _. destruct (t !! r) as [n|]; [by destruct (filter _ _ !! _)|].
  rewrite (left_id_L None _). apply map_lookup_filter_None. right. intros x _. cbn. by rewrite strip_app.
Qed.
Lemma lookup_set_sub_out p t fs k : strip p k = None -> set_sub p t fs !! k = fs !! k.
Proof.
  intros Hs. unfold set_sub. rewrite lookup_union. assert (kmap (app p) t !! k = None) as ->.
  { apply lookup_kmap_None; [apply _|]. intros r ->. by rewrite strip_app in Hs. }
  rewrite (left_id_L None _). destruct (fs !! k) as [n|] eqn:Hk.
  - by apply map_lookup_filter_Some.
  - apply map_lookup_filter_None. by left.
Qed.
Lemma sub_set_sub p t fs : sub p (set_sub p t fs) = t.
Proof. apply map_eq. intros r. by rewrite lookup_sub, lookup_set_sub_in. Qed.

(** Neither path is at or below the other. *)
Definition apart (p q : path) : Prop := strip p q = None /\ strip q p = None.
Lemma apart_sym p q : apart p q -> apart q p.
Proof. unfold apart. tauto. Qed.
Lemma apart_app p q r : apart p q -> strip p (q ++ r) = None.
Proof.
  intros [Hp Hq]. rewrite strip_None in *. intros r' E.
  destruct (app_eq_inv _ _ _ _ E) as [(k & E1 & _)|(k & E1 & _)]; [by apply (Hp k)|by apply (Hq k)].
Qed.
(** The directory a path is in is not moved with a path apart. *)
Lemma apart_parent p q : apart p q -> strip p (parent q) = None.
Proof.
  intros [Hp _]. rewrite strip_None in *. intros r E. destruct q as [|x q] using rev_ind; [|unfold parent in E; rewrite removelast_last in E].
  - destruct p; [by apply (Hp [])|]. cbn in E. done.
  - apply (Hp (r ++ [x])). by rewrite E, app_assoc.
Qed.
Lemma sub_set_sub_apart p q t fs : apart p q -> sub p (set_sub q t fs) = sub p fs.
Proof. intros Ha. apply map_eq. intros r. rewrite !lookup_sub. apply lookup_set_sub_out. by apply apart_app, apart_sym. Qed.
Lemma sub_insert p k n fs : strip p k = None -> sub p (<[k := n]> fs) = sub p fs.
Proof.
  intros Hs. apply map_eq. intros r. rewrite !lookup_sub, lookup_insert_ne; [done|]. intros ->. by rewrite strip_app in Hs.
Qed.
Lemma sub_delete p k fs : strip p k = None -> sub p (delete k fs) = sub p fs.
Proof.
  intros Hs. apply map_eq. intros r. rewrite !lookup_sub, lookup_delete_ne; [done|]. intros ->. by rewrite strip_app in Hs.
Qed.

(** A rename between paths apart moves the tree and nothing else. *)
Definition moved (p q : path) (fs : FS) : FS := set_sub q (sub p fs) (remove_sub p fs).
Lemma moved_to p q fs : sub q (moved p q fs) = sub p fs.
Proof. apply sub_set_sub. Qed.
Lemma moved_from p q fs : apart p q -> sub p (moved p q fs) = ∅.
Proof. intros Ha. unfold moved. rewrite sub_set_sub_apart by done. apply sub_set_sub. Qed.
Lemma moved_other p q r fs : apart r p -> apart r q -> sub r (moved p q fs) = sub r fs.
Proof. intros Hp Hq. unfold moved. rewrite sub_set_sub_apart by done. by apply sub_set_sub_apart. Qed.
Lemma moved_lookup p q k fs : strip p k = None -> strip q k = None -> moved p q fs !! k = fs !! k.
Proof. intros Hp Hq. unfold moved. rewrite lookup_set_sub_out by done. by apply lookup_set_sub_out. Qed.
Lemma sub_empty_lookup p fs : sub p fs = ∅ -> fs !! p = None.
Proof. intros Hs. pose proof (lookup_sub p fs []) as Hl. rewrite Hs, app_nil_r in Hl. by rewrite <- Hl. Qed.
Lemma sub_root p fs : sub p fs !! [] = fs !! p.
Proof. by rewrite lookup_sub, app_nil_r. Qed.

Lemma rename_tree_ok p q fs n : fs !! p = Some n -> fs !! q = None -> is_dir (parent q) fs = true -> apart p q ->
  rename_tree p q fs = inr (moved p q fs).
Proof. intros Hp Hq Hd [Ha _]. unfold rename_tree. rewrite Hp, Hq, Hd, Ha. cbn. by destruct n. Qed.
(** Over a file. *)
Lemma rename_tree_file p q fs perm data perm' data' : fs !! p = Some (NFile perm data) -> fs !! q = Some (NFile perm' data') ->
  is_dir (parent q) fs = true -> apart p q -> rename_tree p q fs = inr (moved p q fs).
Proof. intros Hp Hq Hd [Ha _]. unfold rename_tree. rewrite Hp, Hq, Hd, Ha. done. Qed.

(** ** Specifications

    [safe R P c Q]: from a tree of which [P] holds, whatever calls fail and wherever the
    process stops, [c] ends with an answer and a tree of which [Q] holds, or fails or stops
    with a tree of which [R] holds. [runs P c Q]: when no call is made to fail, it ends with
    an answer and a tree of which [Q] holds. *)
Section Spec.
Context {E : Type} (os_err : OsErr -> E).
Definition safe {A : Type} (R P : FS -> Prop) (c : M E A) (Q : A -> FS -> Prop) : Prop := forall w, P (w_fs w) ->
  match (c w).2 with Ret a => Q a (w_fs (c w).1) | Fail _ | Crashed => R (w_fs (c w).1) end.
Definition runs {A : Type} (P : FS -> Prop) (c : M E A) (Q : A -> FS -> Prop) : Prop := forall fs, P fs ->
  exists fs' a, c (mkWorld fs []) = (mkWorld fs' [], Ret a) /\ Q a fs'.

Lemma safe_ret {A : Type} (R P : FS -> Prop) (a : A) (Q : A -> FS -> Prop) : (forall fs, P fs -> Q a fs) -> safe R P (ret a) Q.
Proof. intros HQ w Hw. by apply HQ. Qed.
Lemma safe_fail {A : Type} (R P : FS -> Prop) (e : E) (Q : A -> FS -> Prop) : (forall fs, P fs -> R fs) -> safe R P (fail e) Q.
Proof. intros HR w Hw. by apply HR. Qed.
Lemma safe_bind {A B : Type} (R P : FS -> Prop) (c : M E A) (k : A -> M E B) (S : A -> FS -> Prop) (Q : B -> FS -> Prop) :
  safe R P c S -> (forall a, safe R (S a) (k a) Q) -> safe R P (bind c k) Q.
Proof. intros Hc Hk w Hw. specialize (Hc w Hw). unfold bind. destruct (c w) as [w1 [a|e|]]; cbn [fst snd] in *; [by apply Hk|done|done]. Qed.
Lemma safe_conseq {A : Type} (R R' P P' : FS -> Prop) (c : M E A) (Q Q' : A -> FS -> Prop) :
  safe R P c Q -> (forall fs, R fs -> R' fs) -> (forall fs, P' fs -> P fs) -> (forall a fs, Q a fs -> Q' a fs) -> safe R' P' c Q'.
Proof. intros Hc HR HP HQ w Hw. specialize (Hc w (HP _ Hw)). destruct (c w).2; eauto. Qed.
(** It is enough to look at one tree at a time. *)
Lemma safe_at {A : Type} (R P : FS -> Prop) (c : M E A) (Q : A -> FS -> Prop) : (forall fs, P fs -> safe R (fun x => x = fs) c Q) -> safe R P c Q.
Proof. intros Hc w Hw. by apply (Hc (w_fs w)). Qed.
Lemma safe_pure {A : Type} (R P : FS -> Prop) (F : Prop) (c : M E A) (Q : A -> FS -> Prop) :
  (F -> safe R P c Q) -> safe R (fun fs => P fs /\ F) c Q.
Proof. intros Hc w [Hw HF]. by apply Hc. Qed.
Lemma safe_try {A : Type} (R P S : FS -> Prop) (c : M E A) (Q : A -> FS -> Prop) :
  safe S P c Q -> (forall fs, S fs -> R fs) -> safe R P (try c) (fun r fs => match r with inl _ => S fs | inr a => Q a fs end).
Proof. intros Hc HR w Hw. specialize (Hc w Hw). unfold try. destruct (c w) as [w1 [a|e|]]; cbn in *; eauto. Qed.
(** A call: what it leaves when it fails, stops or refuses keeps [R]. *)
Lemma safe_call {A : Type} (R P : FS -> Prop) (f : FS -> FS * (OsErr + A)) (part : nat -> FS -> FS) (Q : A -> FS -> Prop) :
  (forall fs n, P fs -> R (part n fs)) -> (forall fs, P fs -> match (f fs).2 with inl _ => R (f fs).1 | inr a => Q a (f fs).1 end) ->
  safe R P (call os_err f part) Q.
Proof.
  intros HR Hf w Hw. specialize (Hf _ Hw). unfold call.
  destruct (w_faults w) as [|[|n|n] l]; cbn; try (by apply HR); destruct (f (w_fs w)) as [fs' [e|a]]; done.
Qed.
Lemma safe_read {A : Type} (R P : FS -> Prop) (f : FS -> OsErr + A) (Q : A -> FS -> Prop) :
  (forall fs, P fs -> R fs) -> (forall fs a, P fs -> f fs = inr a -> Q a fs) -> safe R P (read_call os_err f) Q.
Proof. intros HR Hf. apply safe_call; [eauto|]. intros fs Hfs. cbn. destruct (f fs) eqn:Hx; eauto. Qed.
Lemma safe_change (R P : FS -> Prop) (f : FS -> OsErr + FS) (Q : unit -> FS -> Prop) :
  (forall fs, P fs -> R fs) -> (forall fs fs', P fs -> f fs = inr fs' -> Q tt fs') -> safe R P (change_call os_err f) Q.
Proof. intros HR Hf. apply safe_call; [eauto|]. intros fs Hfs. destruct (f fs) eqn:Hx; cbn; eauto. Qed.

Lemma runs_ret {A : Type} (P : FS -> Prop) (a : A) (Q : A -> FS -> Prop) : (forall fs, P fs -> Q a fs) -> runs P (ret a) Q.
Proof. intros HQ fs Hfs. exists fs, a. split; [done|by apply HQ]. Qed.
Lemma runs_comp {A B : Type} (P : FS -> Prop) (c : M E A) (k : A -> M E B) (S : A -> FS -> Prop) (Q : B -> FS -> Prop) :
  runs P c S -> (forall a, runs (S a) (k a) Q) -> runs P (bind c k) Q.
Proof. intros Hc Hk fs Hfs. destruct (Hc fs Hfs) as (fs1 & a & E1 & H1). unfold bind. rewrite E1. by apply Hk. Qed.
Lemma runs_conseq {A : Type} (P P' : FS -> Prop) (c : M E A) (Q Q' : A -> FS -> Prop) :
  runs P c Q -> (forall fs, P' fs -> P fs) -> (forall a fs, Q a fs -> Q' a fs) -> runs P' c Q'.
Proof. intros Hc HP HQ fs Hfs. destruct (Hc fs (HP _ Hfs)) as (fs1 & a & ? & ?). exists fs1, a. eauto. Qed.
Lemma runs_at {A : Type} (P : FS -> Prop) (c : M E A) (Q : A -> FS -> Prop) : (forall fs, P fs -> runs (fun x => x = fs) c Q) -> runs P c Q.
Proof. intros Hc fs Hfs. by apply (Hc fs). Qed.
Lemma runs_call {A : Type} (P : FS -> Prop) (f : FS -> FS * (OsErr + A)) (part : nat -> FS -> FS) (Q : A -> FS -> Prop) :
  (forall fs, P fs -> exists fs' a, f fs = (fs', inr a) /\ Q a fs') -> runs P (call os_err f part) Q.
Proof. intros Hf fs Hfs. destruct (Hf fs Hfs) as (fs' & a & Ha & HQ). exists fs', a. unfold call. cbn. by rewrite Ha. Qed.
Lemma runs_read {A : Type} (P : FS -> Prop) (f : FS -> OsErr + A) (Q : A -> FS -> Prop) :
  (forall fs, P fs -> exists a, f fs = inr a /\ Q a fs) -> runs P (read_call os_err f) Q.
Proof. intros Hf. apply runs_call. intros fs Hfs. destruct (Hf fs Hfs) as (a & Ha & HQ). exists fs, a. by rewrite Ha. Qed.
Lemma runs_change (P : FS -> Prop) (f : FS -> OsErr + FS) (Q : unit -> FS -> Prop) :
  (forall fs, P fs -> exists fs', f fs = inr fs' /\ Q tt fs') -> runs P (change_call os_err f) Q.
Proof. intros Hf. apply runs_call. intros fs Hfs. destruct (Hf fs Hfs) as (fs' & Hd & HQ). exists fs', tt. by rewrite Hd. Qed.

(** Both, for calls that are never refused. *)
Definition spec {A : Type} (R P : FS -> Prop) (c : M E A) (Q : A -> FS -> Prop) : Prop := safe R P c Q /\ runs P c Q.
Lemma spec_ret {A : Type} (R P : FS -> Prop) (a : A) (Q : A -> FS -> Prop) : (forall fs, P fs -> Q a fs) -> spec R P (ret a) Q.
Proof. intros HQ. split; [by apply safe_ret|by apply runs_ret]. Qed.
Lemma spec_bind {A B : Type} (R P : FS -> Prop) (c : M E A) (k : A -> M E B) (S : A -> FS -> Prop) (Q : B -> FS -> Prop) :
  spec R P c S -> (forall a, spec R (S a) (k a) Q) -> spec R P (bind c k) Q.
Proof. intros [? ?] Hk. split; [eapply safe_bind|eapply runs_comp]; [done|apply Hk|done|apply Hk]. Qed.
Lemma spec_conseq {A : Type} (R P P' : FS -> Prop) (c : M E A) (Q Q' : A -> FS -> Prop) :
  spec R P c Q -> (forall fs, P' fs -> P fs) -> (forall a fs, Q a fs -> Q' a fs) -> spec R P' c Q'.
Proof. intros [? ?] HP HQ. split; [by eapply safe_conseq|by eapply runs_conseq]. Qed.
Lemma spec_at {A : Type} (R P : FS -> Prop) (c : M E A) (Q : A -> FS -> Prop) : (forall fs, P fs -> spec R (fun x => x = fs) c Q) -> spec R P c Q.
Proof. intros Hc. split; [apply safe_at|apply runs_at]; intros fs Hfs; by apply Hc. Qed.
Lemma spec_call {A : Type} (R P : FS -> Prop) (f : FS -> FS * (OsErr + A)) (part : nat -> FS -> FS) (Q : A -> FS -> Prop) :
  (forall fs n, P fs -> R (part n fs)) -> (forall fs, P fs -> exists fs' a, f fs = (fs', inr a) /\ Q a fs') -> spec R P (call os_err f part) Q.
Proof. intros HR Hf. split; [|by apply runs_call]. apply safe_call; [done|]. intros fs Hfs. by destruct (Hf fs Hfs) as (fs' & a & -> & ?). Qed.
Lemma spec_read {A : Type} (R P : FS -> Prop) (f : FS -> OsErr + A) (Q : A -> FS -> Prop) :
  (forall fs, P fs -> R fs) -> (forall fs, P fs -> exists a, f fs = inr a /\ Q a fs) -> spec R P (read_call os_err f) Q.
Proof. intros HR Hf. apply spec_call; [eauto|]. intros fs Hfs. destruct (Hf fs Hfs) as (a & Ha & HQ). exists fs, a. by rewrite Ha. Qed.
Lemma spec_change (R P : FS -> Prop) (f : FS -> OsErr + FS) (Q : unit -> FS -> Prop) :
  (forall fs, P fs -> R fs) -> (forall fs, P fs -> exists fs', f fs = inr fs' /\ Q tt fs') -> spec R P (change_call os_err f) Q.
Proof. intros HR Hf. apply spec_call; [eauto|]. intros fs Hfs. destruct (Hf fs Hfs) as (fs' & Hd & HQ). exists fs', tt. by rewrite Hd. Qed.
(** Looking at a tree of a known state. *)
Lemma spec_Lstat (R : FS -> Prop) (fs : FS) p : R fs -> spec R (fun x => x = fs) (Lstat os_err p) (fun n x => n = fs !! p /\ x = fs).
Proof. intros HR. apply spec_read; [by intros ? ->|]. intros x ->. by eexists. Qed.
Lemma spec_then {A B : Type} (R : FS -> Prop) (fs : FS) (c : M E A) (k : A -> M E B) (a : A) (Q : B -> FS -> Prop) :
  spec R (fun x => x = fs) c (fun b x => b = a /\ x = fs) -> spec R (fun x => x = fs) (k a) Q -> spec R (fun x => x = fs) (bind c k) Q.
Proof.
  intros Hc Hk. eapply spec_bind; [exact Hc|]. intros b. split.
  - intros w [-> Hw]. by apply Hk.
  - intros x [-> Hx]. by apply Hk.
Qed.
End Spec.

Lemma strip_parent p q : apart p q -> strip p (parent p) = None.
Proof.
  intros [Hq _]. apply strip_None. intros r E. destruct p as [|x p] using rev_ind; [done|].
  unfold parent in E. rewrite removelast_last in E. apply (f_equal length) in E. rewrite !length_app in E. cbn in E. lia.
Qed.
End osfs.
