(* ===== verification/State.v ===== *)
(** * The offline state bundle (internal/state/state.go)

    Backup, verification and restore of the three components of a server: the database, the
    directory of key/value files and the SSH identity. A restore stages everything, writes a
    journal of its intent, and replaces the components one after the other; an interrupted
    one is rolled forward from the journal.

    A path is its list of names. The SQLite engine, the SSH key format and encoding/json are
    parameters. *)

From stdpp Require Import sorting.
From S2P Require Import Prelude Utf8 GoStrings Keys Sha256 SqlApps OsFs.
Import osfs.

Module state.
Open Scope os_scope.

Inductive StErr :=
| ErrInvalid | ErrUnsafePath | ErrCorrupt | ErrInsufficient | ErrJournalExists | ErrInterrupted | ErrEngine | ErrCall (e : OsErr).
Abbreviation Op := (M StErr).
Abbreviation os := ErrCall.

Definition formatVersion : Z := 1.

Record Paths := mkPaths { ph_Database : path; ph_KVRoot : path; ph_SSHIdentity : path }.
(** [Now], the phases at which [Interrupt] gives an error, and what [AvailableBytes] answers. *)
Record Options := mkOptions { op_Now : Z; op_Interrupt : bytes -> bool; op_AvailableBytes : option (option Z) }.

Record fileEntry := mkEntry { fe_Path : bytes; fe_Size : Z; fe_SHA256 : bytes }.
Record manifest := mkManifest {
  mf_Version : Z; mf_CreatedAt : Z; mf_Database : fileEntry; mf_DatabaseKeyID : bytes; mf_KV : list fileEntry; mf_SSH : fileEntry;
  mf_SSHFingerprint : bytes; mf_SSHKeyType : bytes }.
Record journalOp := mkOp { jo_Name : bytes; jo_Target : path; jo_Staged : path; jo_Backup : path; jo_Done : bool }.
Record journal := mkJournal { jn_Version : Z; jn_CreatedAt : Z; jn_Operations : list journalOp }.

Record InventoryReport := mkInventory {
  iv_Path : path; iv_Encrypted : bool; iv_KeyID : bytes; iv_Files : Z; iv_Bytes : Z; iv_SSHPath : path; iv_Fingerprint : bytes; iv_KeyType : bytes }.

Class StateLib := {
  marshal_manifest : manifest -> bytes;                   (* json.MarshalIndent and a line break *)
  unmarshal_manifest : bytes -> option manifest;
  marshal_journal : journal -> bytes;
  unmarshal_journal : bytes -> option journal;
  parse_identity : bytes -> option (bytes * bytes);       (* ssh.ParsePrivateKey: the fingerprint and the type *)
  sqlite_open : bytes -> bytes -> bool;                   (* sqlite.Open of a file with a key *)
  sqlite_verify : bytes -> bytes -> bool;
  sqlite_encrypted : bytes -> bytes -> option bool;       (* Info *)
  sqlite_backup : bytes -> bytes -> option bytes;         (* the file that sqlite.Backup writes *)
  sqlite_rekey : bytes -> bytes -> bytes -> option bytes }.

Section Operations.
Context `{StateLib}.

Definition guard (b : bool) (e : StErr) : Op unit := if b then fail e else ret tt.

Definition validatePaths (p : Paths) : Op unit :=
  guard (bool_decide (ph_Database p = []) || bool_decide (ph_KVRoot p = []) || bool_decide (ph_SSHIdentity p = [])) ErrInvalid.
Definition is_link (n : option node) : bool := match n with Some NLink => true | _ => false end.
Definition validateBundlePath (p : path) : Op unit :=
  let% _ := guard (bool_decide (p = [])) ErrInvalid in
  let% n := try (Lstat os p) in
  guard (match n with inr n => is_link n | inl _ => false end) ErrUnsafePath.

(** Permissions for group or others. *)
Definition insecure (perm : Z) : bool := negb (Z.land perm 63 =? 0).
(** The size of a private regular file; [None] when it may be missing and is. *)
Definition privateRegular (p : path) (allowMissing : bool) : Op (option Z) :=
  let% n := Lstat os p in
  match n with
  | None => if allowMissing then ret None else fail (ErrCall ErrNotExist)
  | Some NLink => fail ErrUnsafePath
  | Some (NDir _) => fail ErrInvalid
  | Some (NFile perm data) => if insecure perm then fail ErrUnsafePath else ret (Some (len data))
  end.
Definition privateDir (p : path) : Op unit :=
  let% n := Lstat os p in
  match n with
  | None => fail (ErrCall ErrNotExist)
  | Some (NDir perm) => guard (insecure perm) ErrUnsafePath
  | Some _ => fail ErrUnsafePath
  end.

Definition entry_of (name data : bytes) : fileEntry := mkEntry name (len data) (catalog.hex (sha256 data)).
#[global] Arguments entry_of _ _ : simpl never.
Definition hashFile (name : bytes) (p : path) : Op fileEntry := let% data := ReadFile os p in ret (entry_of name data).

(** A file is created, written, synced and closed. *)
Definition write_file (p : path) (perm : Z) (data : bytes) : Op unit :=
  let% _ := Create os p perm in
  let% _ := WriteNew os p perm data in
  let% _ := Sync os in
  CloseFile os.
Definition copyFile (src dst : path) (mode : Z) : Op unit :=
  let% data := ReadFile os src in
  let% _ := MkdirAll os (parent dst) in
  write_file dst mode data.
Definition privateMode : Z := 0x180. (* 0600 *)
Definition dirMode : Z := 0x1C0. (* 0700 *)
Definition writeJSON (p : path) (data : bytes) : Op unit := write_file p privateMode data.

(** [filepath.Join] of a relative path in slash form. *)
Definition segs (rel : bytes) : path := List.filter (fun e => negb (bool_decide (e = [])) && negb (bool_decide (e = str "."))) (Split slash (Clean rel)).
Definition join (root : path) (rel : bytes) : path := root ++ segs rel.

Definition manifest_name : bytes := str "manifest.json".
Definition readManifest (bundle : path) : Op manifest :=
  let% size := privateRegular (bundle ++ [manifest_name]) false in
  let% _ := guard (match size with Some n => 2 ^ 20 <? n | None => false end) ErrCorrupt in
  let% data := ReadFile os (bundle ++ [manifest_name]) in
  match unmarshal_manifest data with
  | None => fail ErrCorrupt
  | Some m => if negb (mf_Version m =? formatVersion) || (100000 <? len (mf_KV m)) then fail ErrCorrupt else ret m
  end.

Definition bad_entry (name : bytes) : bool :=
  bool_decide (name = []) || IsAbs name || negb (bool_decide (Clean name = name)) || HasPrefix name (str "../") || bool_decide (name = str "..").
Definition verifyEntry (root : path) (e : fileEntry) : Op unit :=
  let% _ := guard (bad_entry (fe_Path e)) ErrCorrupt in
  let p := join root (fe_Path e) in
  let% size := try (privateRegular p false) in
  match size with
  | inl _ => fail ErrCorrupt
  | inr size =>
    let% _ := guard (negb (bool_decide (size = Some (fe_Size e)))) ErrCorrupt in
    let% got := hashFile (fe_Path e) p in
    guard (negb (bool_decide (fe_SHA256 got = fe_SHA256 e))) ErrCorrupt
  end.

(** The walk over the files of the key/value directory. *)
Fixpoint walk (root : path) (l : list (path * node)) : Op (list fileEntry) :=
  match l with
  | [] => ret []
  | (rel, n) :: l =>
    let% _ := read_call os (fun _ => inr tt) in (* the type and the information of the entry *)
    match n with
    | NLink => fail ErrUnsafePath
    | NDir perm => let% _ := guard (insecure perm) ErrUnsafePath in walk root l
    | NFile perm _ =>
      let% _ := guard (insecure perm) ErrUnsafePath in
      let% e := hashFile (Join slash rel) (root ++ rel) in
      let% rest := walk root l in
      ret (e :: rest)
    end
  end.
Definition by_path (x y : fileEntry) : Prop := bytes_leb (fe_Path x) (fe_Path y) = true.
#[local] Instance by_path_dec x y : Decision (by_path x y) := bool_eq_dec _ _.
Definition collectKV (root : path) : Op (list fileEntry) :=
  let% _ := privateDir root in
  let% l := ListTree os root in
  let% entries := walk root l in
  ret (merge_sort by_path entries).

Definition identityInfo (p : path) : Op (bytes * bytes) :=
  let% data := ReadFile os p in
  match parse_identity data with None => fail ErrCorrupt | Some i => ret i end.

Definition keyID (key : bytes) : bytes := if len key =? 0 then str "plaintext" else str "sha256:" ++ catalog.hex (sha256 key).
#[global] Arguments keyID _ : simpl never.

Definition total_size (l : list fileEntry) : Z := fold_right (fun e n => fe_Size e + n) 0 l.

Definition open_database (p : path) (key : bytes) : Op bytes :=
  let% data := ReadFile os p in
  if sqlite_open key data then ret data else fail ErrEngine.

Definition Inventory (paths : Paths) (key : bytes) : Op InventoryReport :=
  let% _ := validatePaths paths in
  let% _ := privateRegular (ph_Database paths) false in
  let% _ := privateDir (ph_KVRoot paths) in
  let% _ := privateRegular (ph_SSHIdentity paths) false in
  let% data := open_database (ph_Database paths) key in
  match sqlite_encrypted key data with
  | None => fail ErrEngine
  | Some encrypted =>
    let% entries := collectKV (ph_KVRoot paths) in
    let% id := identityInfo (ph_SSHIdentity paths) in
    ret (mkInventory (ph_Database paths) encrypted (keyID key) (len entries) (i64 (total_size entries)) (ph_SSHIdentity paths) id.1 id.2)
  end.

Definition Preflight (bytesNeeded : Z) (o : Options) : Op unit :=
  let% _ := guard (bytesNeeded <? 0) ErrInvalid in
  match op_AvailableBytes o with
  | None => ret tt
  | Some None => fail (ErrCall ErrOS)
  | Some (Some free) => guard (free <? bytesNeeded) ErrInsufficient
  end.

Definition interrupt (o : Options) (phase : string) : Op unit := guard (op_Interrupt o (str phase)) ErrInterrupted.

(** ** Backup *)

Definition copyDatabase (source destination : path) (key : bytes) : Op unit :=
  let% data := open_database source key in
  let% _ := guard (negb (sqlite_verify key data)) ErrEngine in
  let% _ := Create os destination 0x1A4 in
  match sqlite_backup key data with
  | None => fail ErrEngine
  | Some copy =>
    let% _ := WriteNew os destination 0x1A4 copy in
    let% _ := CloseFile os in
    Chmod os destination privateMode
  end.

Definition previous_of (p : path) : path := parent p ++ [List.last p [] ++ str ".previous"].
Definition publishDirectory (stage destination : path) : Op unit :=
  let% _ := validateBundlePath destination in
  let% there := Lstat os destination in
  match there with
  | None => Rename os stage destination
  | Some _ =>
    let previous := previous_of destination in
    let% p := try (Lstat os previous) in
    match p with
    | inr (Some _) => fail ErrInvalid
    | _ =>
      let% _ := Rename os destination previous in
      let% r := try (Rename os stage destination) in
      match r with
      | inr _ => ret tt
      | inl e => let% _ := try (Rename os previous destination) in fail e
      end
    end
  end.

Definition verifyBundle (bundle : path) (m : manifest) (key : bytes) : Op unit :=
  let% _ := verifyEntry bundle (mf_Database m) in
  let% _ := verifyEntry bundle (mf_SSH m) in
  let% _ := (fix all l := match l with [] => ret tt | e :: l => let% _ := verifyEntry bundle e in all l end) (mf_KV m) in
  let% _ := identityInfo (join bundle (fe_Path (mf_SSH m))) in
  let% data := open_database (join bundle (fe_Path (mf_Database m))) key in
  guard (negb (sqlite_verify key data)) ErrEngine.

Definition kv_name (rel : bytes) : bytes := JoinPath (str "kv") rel.
Fixpoint copy_entries (src dst : fileEntry -> path) (l : list fileEntry) : Op unit :=
  match l with
  | [] => ret tt
  | e :: l => let% _ := copyFile (src e) (dst e) privateMode in copy_entries src dst l
  end.

(** What is done in the staging directory, which is removed afterwards. *)
Definition backup_staged (paths : Paths) (destination stage : path) (key : bytes) (o : Options) (entries : list fileEntry) (id : bytes * bytes) : Op unit :=
  let% _ := interrupt o "backup-staging" in
  let% _ := copyDatabase (ph_Database paths) (stage ++ [str "database.db"]) key in
  let% _ := copyFile (ph_SSHIdentity paths) (stage ++ [str "ssh-identity"]) privateMode in
  let% _ := copy_entries (fun e => join (ph_KVRoot paths) (fe_Path e)) (fun e => join (stage ++ [str "kv"]) (fe_Path e)) entries in
  let% db := hashFile (str "database.db") (stage ++ [str "database.db"]) in
  let% ssh := hashFile (str "ssh-identity") (stage ++ [str "ssh-identity"]) in
  let kv := map (fun e => mkEntry (kv_name (fe_Path e)) (fe_Size e) (fe_SHA256 e)) entries in
  let m := mkManifest formatVersion (op_Now o) db (keyID key) kv ssh id.1 id.2 in
  let% _ := writeJSON (stage ++ [manifest_name]) (marshal_manifest m) in
  let% _ := verifyBundle stage m key in
  let% _ := interrupt o "backup-verified" in
  let% _ := publishDirectory stage destination in
  interrupt o "backup-committed".

(** A function that removes a directory when it returns. *)
Definition removing {A} (stage : path) (c : Op A) : Op A :=
  let% r := try c in
  let% _ := try (RemoveAll os stage) in
  match r with inl e => fail e | inr a => ret a end.

(** [name] is the one MkdirTemp draws. *)
Definition Backup (paths : Paths) (destination : path) (key : bytes) (o : Options) (name : bytes) : Op unit :=
  let% _ := validatePaths paths in
  let% _ := validateBundlePath destination in
  let% _ := privateRegular (ph_Database paths) false in
  let% _ := privateDir (ph_KVRoot paths) in
  let% _ := privateRegular (ph_SSHIdentity paths) false in
  let% entries := collectKV (ph_KVRoot paths) in
  let% id := identityInfo (ph_SSHIdentity paths) in
  let% data := ReadFile os (ph_Database paths) in
  let% _ := Preflight (i64 (len data + total_size entries)) o in
  let% _ := MkdirAll os (parent destination) in
  let stage := parent destination ++ [str ".plumtree-backup-" ++ name] in
  let% _ := MkdirTemp os stage dirMode in
  removing stage (backup_staged paths destination stage key o entries id).

(** ** Restore *)

Definition exists_ (p : path) : Op bool := let% n := Lstat os p in ret (match n with Some _ => true | None => false end).

Definition replaceOperation (op : journalOp) : Op unit :=
  let% stageExists := exists_ (jo_Staged op) in
  let% target := Lstat os (jo_Target op) in
  let% _ := guard (is_link target) ErrUnsafePath in
  let targetExists := match target with Some _ => true | None => false end in
  if negb stageExists then (if targetExists then ret tt else fail ErrCorrupt) else
  let% _ := if targetExists then
              let% backup := exists_ (jo_Backup op) in
              if negb backup then Rename os (jo_Target op) (jo_Backup op) else ret tt
            else ret tt in
  Rename os (jo_Staged op) (jo_Target op).

Definition tmp_of (p : path) : path := parent p ++ [List.last p [] ++ str ".tmp"].
Definition writeJournal (p : path) (j : journal) : Op unit :=
  let% _ := try (Remove os (tmp_of p)) in
  let% _ := writeJSON (tmp_of p) (marshal_journal j) in
  Rename os (tmp_of p) p.

Definition set_done (op : journalOp) : journalOp := mkOp (jo_Name op) (jo_Target op) (jo_Staged op) (jo_Backup op) true.
Definition with_ops (j : journal) (l : list journalOp) : journal := mkJournal (jn_Version j) (jn_CreatedAt j) l.
(** [before] are the operations already seen. *)
Fixpoint apply_ops (p : path) (j : journal) (before todo : list journalOp) : Op unit :=
  match todo with
  | [] => Remove os p
  | op :: todo =>
    if jo_Done op then apply_ops p j (before ++ [op]) todo else
    let% _ := replaceOperation op in
    let% _ := writeJournal p (with_ops j (before ++ set_done op :: todo)) in
    apply_ops p j (before ++ [set_done op]) todo
  end.
Definition applyJournal (p : path) (j : journal) : Op unit := apply_ops p j [] (jn_Operations j).

Definition journal_path (paths : Paths) : path := parent (ph_Database paths) ++ [str ".plumtree-restore-journal.json"].
Definition backup_of (p : path) : path := parent p ++ [List.last p [] ++ str ".restore-previous"].
Definition restore_ops (paths : Paths) (stage : path) : list journalOp :=
  [mkOp (str "database") (ph_Database paths) (stage ++ [str "database.db"]) (backup_of (ph_Database paths)) false;
   mkOp (str "kv") (ph_KVRoot paths) (stage ++ [str "kv"]) (backup_of (ph_KVRoot paths)) false;
   mkOp (str "ssh-identity") (ph_SSHIdentity paths) (stage ++ [str "ssh-identity"]) (backup_of (ph_SSHIdentity paths)) false].

Definition verified_manifest (bundle : path) (paths : Paths) (key : bytes) : Op manifest :=
  let% _ := validateBundlePath bundle in
  let% _ := privateDir bundle in
  let% _ := validatePaths paths in
  let% there := exists_ (bundle ++ [manifest_name]) in
  let% _ := guard (negb there) (ErrCall ErrNotExist) in
  let% m := readManifest bundle in
  let% _ := verifyBundle bundle m key in
  let% _ := guard (negb (bool_decide (mf_DatabaseKeyID m = keyID key))) ErrCorrupt in
  let% id := identityInfo (join bundle (fe_Path (mf_SSH m))) in
  let% _ := guard (negb (bool_decide (id = (mf_SSHFingerprint m, mf_SSHKeyType m)))) ErrCorrupt in
  ret m.

(** The name of a key/value file below the directory. *)
Definition kv_rel (name : bytes) : bytes := TrimPrefix name (str "kv/").
Definition stage_bundle (bundle stage : path) (m : manifest) : Op unit :=
  let% _ := copyFile (join bundle (fe_Path (mf_Database m))) (stage ++ [str "database.db"]) privateMode in
  let% _ := copyFile (join bundle (fe_Path (mf_SSH m))) (stage ++ [str "ssh-identity"]) privateMode in
  let% _ := copy_entries (fun e => join bundle (fe_Path e)) (fun e => join (stage ++ [str "kv"]) (kv_rel (fe_Path e))) (mf_KV m) in
  MkdirAll os (stage ++ [str "kv"]).

Definition stage_path (paths : Paths) (name : bytes) : path := parent (ph_Database paths) ++ [str ".plumtree-restore-" ++ name].
(** The staging directory is only removed after a success. *)
Definition Restore (bundle : path) (paths : Paths) (key : bytes) (o : Options) (name : bytes) : Op unit :=
  let% m := verified_manifest bundle paths key in
  let p := journal_path paths in
  let% there := exists_ p in
  let% _ := guard there ErrJournalExists in
  let stage := stage_path paths name in
  let% _ := MkdirTemp os stage dirMode in
  let% _ := stage_bundle bundle stage m in
  let j := mkJournal formatVersion (op_Now o) (restore_ops paths stage) in
  let% _ := writeJSON p (marshal_journal j) in
  let% _ := interrupt o "restore-journal-written" in
  let% _ := applyJournal p j in
  let% _ := try (RemoveAll os stage) in
  ret tt.

Definition Recover (paths : Paths) : Op unit :=
  let% _ := validatePaths paths in
  let p := journal_path paths in
  let% data := try (ReadFile os p) in
  match data with
  | inl (ErrCall ErrNotExist) => ret tt
  | inl e => fail e
  | inr data =>
    match unmarshal_journal data with
    | None => fail ErrCorrupt
    | Some j => if negb (jn_Version j =? formatVersion) then fail ErrCorrupt else applyJournal p j
    end
  end.

(** The database file after a new key is set. *)
Definition RekeyDatabase (p : path) (oldKey newKey : bytes) : Op unit :=
  let% _ := privateRegular p false in
  let% data := open_database p oldKey in
  match sqlite_rekey oldKey newKey data with
  | None => fail ErrEngine
  | Some data' =>
    let% _ := call os (fun fs => (match fs !! p with Some (NFile perm _) => <[p := NFile perm data']> fs | _ => fs end, inr tt)) (fun _ fs => fs) in
    guard (negb (sqlite_verify newKey data')) ErrEngine
  end.
End Operations.
End state.
