(* ===== verification/StateLaws.v ===== *)
(** * What the offline state bundle guarantees

    A restore is rolled forward: once its journal is written, whatever calls fail and
    wherever the process stops, every component is wholly the old one, wholly the new one,
    or on the way with the old one kept, and a run of Recover that is left alone ends the
    restore. *)

From S2P Require Import Prelude Utf8 GoStrings Keys Sha256 SqlApps OsFs State.
Import osfs state.

Module statelaws.
Open Scope os_scope.

(** ** One component *)

Section Replace.
Context `{StateLib}.

(** A replacement with the trees before and after. *)
Record comp := mkComp { c_name : bytes; c_target : path; c_staged : path; c_backup : path; c_old : FS; c_new : FS }.
Definition op_of (c : comp) (done : bool) : journalOp := mkOp (c_name c) (c_target c) (c_staged c) (c_backup c) done.
Definition c_paths (c : comp) : list path := [c_target c; c_staged c; c_backup c].

(** The three paths are apart; what is replaced is missing or no link, and what replaces it
    is there and no link. *)
Record comp_ok (c : comp) : Prop := {
  co_ts : apart (c_target c) (c_staged c); co_tb : apart (c_target c) (c_backup c); co_sb : apart (c_staged c) (c_backup c);
  co_old : c_old c = ∅ \/ exists n, c_old c !! [] = Some n /\ n <> NLink;
  co_new : exists n, c_new c !! [] = Some n /\ n <> NLink }.

Inductive stage := Pending | Moved | Placed.
Definition at_stage (c : comp) (s : stage) (fs : FS) : Prop :=
  match s with
  | Pending => sub (c_staged c) fs = c_new c /\ sub (c_target c) fs = c_old c /\ sub (c_backup c) fs = ∅
  | Moved => sub (c_staged c) fs = c_new c /\ sub (c_target c) fs = ∅ /\ sub (c_backup c) fs = c_old c /\ c_old c <> ∅
  | Placed => sub (c_staged c) fs = ∅ /\ sub (c_target c) fs = c_new c /\ sub (c_backup c) fs = c_old c
  end.
Definition dirs_ok (c : comp) (fs : FS) : Prop := is_dir (parent (c_target c)) fs = true /\ is_dir (parent (c_backup c)) fs = true.
Definition component (c : comp) (fs : FS) : Prop := dirs_ok c fs /\ exists s, at_stage c s fs.

(** Nothing changes outside the three paths. *)
Definition elsewhere (c : comp) (fs0 fs : FS) : Prop := forall k, (forall p, p ∈ c_paths c -> strip p k = None) -> fs !! k = fs0 !! k.

Lemma elsewhere_refl c fs : elsewhere c fs fs.
Proof. done. Qed.
Lemma elsewhere_moved c p q fs0 fs : p ∈ c_paths c -> q ∈ c_paths c -> elsewhere c fs0 fs -> elsewhere c fs0 (moved p q fs).
Proof.
  intros Hp Hq He k Hk. rewrite moved_lookup; [by apply He|by apply Hk|by apply Hk].
Qed.

Context (c : comp) (Hc : comp_ok c).

Lemma staged_exists s fs : at_stage c s fs -> (match fs !! c_staged c with Some _ => true | None => false end) = match s with Placed => false | _ => true end.
Proof.
  destruct (co_new c Hc) as (n & Hn & _). destruct s; cbn; intros (Hs & _); rewrite <- (sub_root (c_staged c) fs), Hs, ?Hn, ?lookup_empty; done.
Qed.
Lemma target_no_link s fs : at_stage c s fs -> is_link (fs !! c_target c) = false.
Proof.
  destruct (co_new c Hc) as (n & Hn & Hl). destruct (co_old c Hc) as [Ho|(o & Ho & Hol)];
    destruct s; cbn; intros (_ & Ht & _); rewrite <- (sub_root (c_target c) fs), Ht, ?Hn, ?Ho, ?lookup_empty; cbn; first [done | by destruct n | by destruct o].
Qed.

(** The first rename puts the old tree aside. *)
Lemma put_aside fs : at_stage c Pending fs -> dirs_ok c fs -> fs !! c_target c <> None ->
  fs !! c_backup c = None /\ rename_tree (c_target c) (c_backup c) fs = inr (moved (c_target c) (c_backup c) fs) /\
  at_stage c Moved (moved (c_target c) (c_backup c) fs).
Proof.
  intros (Hs & Ht & Hb) [_ Hd] Hn. destruct (fs !! c_target c) as [n|] eqn:Hx; [|done].
  pose proof (co_ts c Hc). pose proof (co_tb c Hc). pose proof (co_sb c Hc).
  assert (fs !! c_backup c = None) by by apply sub_empty_lookup. split; [done|]. split; [by eapply rename_tree_ok|].
  cbn. rewrite moved_to, moved_from by done. rewrite moved_other by (done || by apply apart_sym). split; [done|]. split; [done|]. split; [done|].
  intros E. rewrite <- Ht in E. apply sub_empty_lookup in E. congruence.
Qed.
(** The second one puts the new tree in place. *)
Lemma put_in_place s fs : at_stage c s fs -> dirs_ok c fs -> s <> Placed -> sub (c_target c) fs = ∅ ->
  rename_tree (c_staged c) (c_target c) fs = inr (moved (c_staged c) (c_target c) fs) /\ at_stage c Placed (moved (c_staged c) (c_target c) fs).
Proof.
  intros Hst [Hd _] Hs Ht. pose proof (co_ts c Hc). pose proof (co_tb c Hc). pose proof (co_sb c Hc).
  assert (Hsub : sub (c_staged c) fs = c_new c /\ sub (c_backup c) fs = c_old c).
  { destruct s; cbn in Hst; [|tauto|done]. destruct Hst as (? & E & ->). split; [done|]. by rewrite <- E, Ht. }
  destruct Hsub as [Hsub Hb]. destruct (co_new c Hc) as (n & Hn & _). split.
  - apply (rename_tree_ok _ _ _ n); [by rewrite <- (sub_root (c_staged c)), Hsub|by apply sub_empty_lookup|done|by apply apart_sym].
  - cbn. rewrite moved_from by (by apply apart_sym). rewrite moved_to, Hsub. split; [done|]. split; [done|].
    rewrite moved_other; [done|by apply apart_sym|by apply apart_sym].
Qed.
Lemma parents_elsewhere p q : p ∈ c_paths c -> q ∈ [c_target c; c_backup c] -> strip p (parent q) = None.
Proof.
  pose proof (co_ts c Hc). pose proof (co_tb c Hc). pose proof (co_sb c Hc).
  unfold c_paths. intros Hp Hq. rewrite !elem_of_cons, elem_of_nil in Hp. rewrite !elem_of_cons, elem_of_nil in Hq.
  destruct Hp as [->|[->|[->|[]]]], Hq as [->|[->|[]]];
    first [apply apart_parent; assumption|apply apart_parent, apart_sym; assumption|eapply strip_parent; eassumption|eapply strip_parent, apart_sym; eassumption].
Qed.
Lemma dirs_elsewhere fs0 fs : elsewhere c fs0 fs -> dirs_ok c fs0 -> dirs_ok c fs.
Proof.
  unfold dirs_ok, is_dir. intros He. rewrite !He; [done| |]; intros p Hp; apply parents_elsewhere; (done || by set_solver).
Qed.

(** On the way, from the tree [fs0]. *)
Definition underway (fs0 fs : FS) : Prop := elsewhere c fs0 fs /\ exists s, at_stage c s fs.
Lemma spec_exists (R : FS -> Prop) (fs : FS) p : R fs ->
  spec R (fun x => x = fs) (exists_ p) (fun b x => b = (match fs !! p with Some _ => true | None => false end) /\ x = fs).
Proof. intros HR. unfold exists_. eapply spec_then; [by apply spec_Lstat|]. by apply spec_ret. Qed.

Lemma final_rename fs0 s fs : elsewhere c fs0 fs -> at_stage c s fs -> dirs_ok c fs0 -> s <> Placed -> sub (c_target c) fs = ∅ ->
  spec (underway fs0) (fun x => x = fs) (Rename os (c_staged c) (c_target c)) (fun _ fs => elsewhere c fs0 fs /\ at_stage c Placed fs).
Proof.
  intros He Hst Hd Hs Ht. destruct (put_in_place s fs Hst (dirs_elsewhere _ _ He Hd) Hs Ht) as [Hr Hp].
  apply spec_change; [intros ? ->; split; [done|by exists s]|]. intros ? ->. eexists. split; [exact Hr|]. split; [|done].
  apply elsewhere_moved; [set_solver|set_solver|done].
Qed.
Lemma replace_spec d fs0 s : dirs_ok c fs0 -> at_stage c s fs0 ->
  spec (underway fs0) (fun x => x = fs0) (replaceOperation (op_of c d)) (fun _ fs => elsewhere c fs0 fs /\ at_stage c Placed fs).
Proof.
  intros Hd Hs. assert (HR : underway fs0 fs0) by (split; [done|by exists s]). unfold replaceOperation. cbn [jo_Staged jo_Target jo_Backup op_of].
  eapply spec_then; [by apply spec_exists|]. eapply spec_then; [by apply spec_Lstat|]. rewrite (staged_exists s) by done.
  unfold guard. rewrite (target_no_link s) by done. eapply spec_then; [by apply spec_ret|]. cbv zeta.
  destruct s; cbn [negb].
  - destruct (fs0 !! c_target c) as [n|] eqn:Hx.
    + destruct (put_aside fs0 Hs Hd ltac:(congruence)) as (Hb & Hr & Hm).
      eapply (spec_bind _ _ _ _ (fun _ fs => fs = moved (c_target c) (c_backup c) fs0)).
      { eapply spec_then; [by apply spec_exists|]. rewrite Hb. cbn [negb]. apply spec_change; [by intros ? ->|]. intros ? ->. by eexists. }
      intros []. apply (final_rename _ Moved); [|done|done|done|by apply Hm]. apply elsewhere_moved; [set_solver|set_solver|done].
    + eapply spec_then; [by apply spec_ret|]. apply (final_rename _ Pending); try done. apply map_eq. intros r.
      destruct (co_old c Hc) as [Ho|(o & Ho & _)]; destruct Hs as (_ & Ht & _); [by rewrite Ht, Ho|].
      rewrite <- (sub_root (c_target c)), Ht, Ho in Hx. done.
  - destruct Hs as (? & Ht & ? & ?). rewrite (sub_empty_lookup _ _ Ht). eapply spec_then; [by apply spec_ret|].
    apply (final_rename _ Moved); done.
  - destruct (co_new c Hc) as (n & Hn & _). pose proof Hs as (_ & Ht & _). rewrite <- (sub_root (c_target c)), Ht, Hn. by apply spec_ret; intros ? ->.
Qed.
End Replace.

(** ** Writing the journal anew *)

Definition except (ps : list path) (fs0 fs : FS) : Prop := forall k, (forall x, x ∈ ps -> strip x k = None) -> fs !! k = fs0 !! k.
Lemma except_sub ps fs0 fs x : except ps fs0 fs -> (forall y, y ∈ ps -> apart y x) -> sub x fs = sub x fs0.
Proof. intros He Ha. apply map_eq. intros r. rewrite !lookup_sub. apply He. intros y Hy. by apply apart_app, Ha. Qed.
Lemma except_insert ps fs0 fs k n : k ∈ ps -> except ps fs0 fs -> except ps fs0 (<[k := n]> fs).
Proof.
  intros Hk He i Hi. rewrite lookup_insert_ne; [by apply He|]. intros <-. specialize (Hi k Hk). rewrite strip_None in Hi. apply (Hi []). by rewrite app_nil_r.
Qed.
Lemma except_delete ps fs0 fs k : k ∈ ps -> except ps fs0 fs -> except ps fs0 (delete k fs).
Proof.
  intros Hk He i Hi. rewrite lookup_delete_ne; [by apply He|]. intros <-. specialize (Hi k Hk). rewrite strip_None in Hi. apply (Hi []). by rewrite app_nil_r.
Qed.
Lemma except_moved ps fs0 fs x y : x ∈ ps -> y ∈ ps -> except ps fs0 fs -> except ps fs0 (moved x y fs).
Proof. intros Hx Hy He k Hk. rewrite moved_lookup; [by apply He|by apply Hk|by apply Hk]. Qed.

(** A path and the same with a suffix. *)
Lemma suffixed_apart p e : p <> [] -> e <> [] -> apart (parent p ++ [List.last p [] ++ e]) p.
Proof.
  intros Hp He. destruct p as [|x p _] using rev_ind; [done|]. unfold parent. rewrite removelast_last, List.last_last.
  assert (Hne : x ++ e <> x) by (intros E; rewrite <- (app_nil_r x) in E at 2; by apply app_inv_head in E).
  split; apply strip_None; intros r E; rewrite <- app_assoc in E; apply app_inv_head in E; cbn in E; injection E; congruence.
Qed.
Lemma parent_suffixed p e : parent (parent p ++ [e]) = parent p.
Proof. unfold parent at 1. by rewrite removelast_last. Qed.

Section WriteJournal.
Context `{StateLib} (p : path) (Hp : p <> []).
Abbreviation tmp := (tmp_of p).
Lemma tmp_apart : apart tmp p.
Proof. by apply suffixed_apart. Qed.
Lemma tmp_parent : parent tmp = parent p.
Proof. apply parent_suffixed. Qed.

(** The temporary file is anything but a directory. *)
Definition tmp_ok (fs : FS) : Prop := is_dir tmp fs = false.
Definition rewriting (fs0 fs : FS) : Prop := except [tmp] fs0 fs /\ tmp_ok fs.

Lemma rewriting_p fs0 fs : rewriting fs0 fs -> fs !! p = fs0 !! p.
Proof. intros [He _]. apply He. intros x ->%list_elem_of_singleton. apply tmp_apart. Qed.
Lemma rewriting_dir fs0 fs : rewriting fs0 fs -> is_dir (parent p) fs = is_dir (parent p) fs0.
Proof.
  intros [He _]. unfold is_dir. rewrite He; [done|]. intros x ->%list_elem_of_singleton. rewrite <- tmp_parent. by eapply strip_parent, tmp_apart.
Qed.
Lemma rewriting_insert fs0 fs perm data : rewriting fs0 fs -> rewriting fs0 (<[tmp := NFile perm data]> fs).
Proof. intros [He _]. split; [by apply except_insert; [apply list_elem_of_singleton|]|]. unfold tmp_ok, is_dir. by rewrite lookup_insert_eq. Qed.
Lemma rewriting_delete fs0 fs : rewriting fs0 fs -> rewriting fs0 (delete tmp fs).
Proof. intros [He _]. split; [by apply except_delete; [apply list_elem_of_singleton|]|]. unfold tmp_ok, is_dir. by rewrite lookup_delete_eq. Qed.

(** What is there once the new journal has its name. *)
Definition rewritten (j : journal) (fs0 fs : FS) : Prop :=
  except [tmp; p] fs0 fs /\ fs !! p = Some (NFile privateMode (marshal_journal j)) /\ fs !! tmp = None.

Lemma written_spec fs0 data : spec (rewriting fs0) (rewriting fs0)
  (let% _ := WriteNew os tmp privateMode data in let% _ := Sync os in CloseFile os) (fun _ fs => rewriting fs0 fs /\ fs !! tmp = Some (NFile privateMode data)).
Proof.
  eapply (spec_bind _ _ _ _ (fun _ fs => rewriting fs0 fs /\ fs !! tmp = Some (NFile privateMode data))).
  { apply spec_call; [intros fs n Hr; by apply rewriting_insert|]. intros fs Hr. eexists _, tt. split; [done|].
    split; [by apply rewriting_insert|]. unfold write_data. by rewrite lookup_insert_eq. }
  intros []. eapply (spec_bind _ _ _ _ (fun _ fs => rewriting fs0 fs /\ fs !! tmp = Some (NFile privateMode data)));
    [|intros []]; (apply spec_read; [by intros fs [? _]|by intros fs ?; exists tt]).
Qed.
Lemma tmp_file_safe fs0 data :
  safe (rewriting fs0) (rewriting fs0) (writeJSON tmp data) (fun _ fs => rewriting fs0 fs /\ fs !! tmp = Some (NFile privateMode data)).
Proof.
  unfold writeJSON, write_file. eapply (safe_bind _ _ _ _ (fun _ => rewriting fs0)); [|intros []; apply written_spec].
  apply safe_change; [done|]. intros fs fs' Hr. destruct (fs !! tmp); [done|]. destruct (is_dir _ fs); [|done]. intros [= <-]. by apply rewriting_insert.
Qed.
Lemma tmp_file_runs fs0 data : is_dir (parent p) fs0 = true ->
  runs (fun fs => rewriting fs0 fs /\ fs !! tmp = None) (writeJSON tmp data) (fun _ fs => rewriting fs0 fs /\ fs !! tmp = Some (NFile privateMode data)).
Proof.
  intros Hd. unfold writeJSON, write_file. eapply (runs_comp _ _ _ (fun _ => rewriting fs0)); [|intros []; apply written_spec].
  apply runs_change. intros fs [Hr Hn]. eexists. rewrite Hn, tmp_parent, (rewriting_dir _ _ Hr), Hd. split; [done|]. by apply rewriting_insert.
Qed.
Lemma rename_tmp_spec fs0 j perm data : is_dir (parent p) fs0 = true -> fs0 !! p = Some (NFile perm data) ->
  spec (rewriting fs0) (fun fs => rewriting fs0 fs /\ fs !! tmp = Some (NFile privateMode (marshal_journal j))) (Rename os tmp p)
    (fun _ fs => rewritten j fs0 fs).
Proof.
  intros Hd Hx. apply spec_change; [by intros fs [? _]|]. intros fs [Hr Ht].
  exists (moved tmp p fs). split.
  { eapply rename_tree_file; [done|by rewrite (rewriting_p _ _ Hr)|by rewrite (rewriting_dir _ _ Hr)|apply tmp_apart]. }
  split_and!.
  - apply except_moved; [set_solver|set_solver|]. intros k Hk. apply (proj1 Hr). intros x ->%list_elem_of_singleton. apply Hk. set_solver.
  - rewrite <- (sub_root p), moved_to, sub_root. done.
  - apply sub_empty_lookup, moved_from, tmp_apart.
Qed.
(** The temporary file of an earlier attempt. *)
Lemma remove_tmp_safe fs0 : tmp_ok fs0 -> safe (rewriting fs0) (fun fs => fs = fs0) (try (Remove os tmp)) (fun _ => rewriting fs0).
Proof.
  intros Ht. assert (Hr : rewriting fs0 fs0) by (by split).
  eapply safe_conseq; [apply (safe_try (rewriting fs0) (fun fs => fs = fs0) (rewriting fs0) _ (fun _ => rewriting fs0)); [|done]|done|done|by intros []].
  apply safe_change; [by intros fs ->|]. intros fs fs' ->. unfold tmp_ok, is_dir in Ht. destruct (fs0 !! tmp) as [[]|] eqn:Hn; try done;
    intros [= <-]; by apply rewriting_delete.
Qed.
Lemma remove_tmp_runs fs0 : tmp_ok fs0 -> runs (fun fs => fs = fs0) (try (Remove os tmp)) (fun _ fs => rewriting fs0 fs /\ fs !! tmp = None).
Proof.
  intros Ht. assert (Hr : rewriting fs0 fs0) by (by split). intros fs ->. unfold try, Remove, change_call, atomic_call, call. cbn.
  unfold tmp_ok, is_dir in Ht. destruct (fs0 !! tmp) as [[]|] eqn:Hn; cbn; try done; eexists _, _; (split; [done|]).
  - split; [by apply rewriting_delete|]. by rewrite lookup_delete_eq.
  - split; [by apply rewriting_delete|]. by rewrite lookup_delete_eq.
  - done.
Qed.
Lemma writeJournal_safe fs0 j perm data : is_dir (parent p) fs0 = true -> fs0 !! p = Some (NFile perm data) -> tmp_ok fs0 ->
  safe (rewriting fs0) (fun fs => fs = fs0) (writeJournal p j) (fun _ => rewritten j fs0).
Proof.
  intros Hd Hx Ht. unfold writeJournal. eapply safe_bind; [by apply remove_tmp_safe|]. intros r. cbv beta. eapply safe_bind; [apply tmp_file_safe|].
  intros []. by eapply rename_tmp_spec.
Qed.
Lemma writeJournal_runs fs0 j perm data : is_dir (parent p) fs0 = true -> fs0 !! p = Some (NFile perm data) -> tmp_ok fs0 ->
  runs (fun fs => fs = fs0) (writeJournal p j) (fun _ => rewritten j fs0).
Proof.
  intros Hd Hx Ht. unfold writeJournal. eapply runs_comp; [by apply remove_tmp_runs|]. intros r. cbv beta. eapply runs_comp; [by apply tmp_file_runs|].
  intros []. by eapply rename_tmp_spec.
Qed.
End WriteJournal.

(** ** Rolling forward *)

Section Journal.
Context `{StateLib} (p : path) (cs : list comp) (created : Z).
Definition journal_of (fl : list bool) : journal := mkJournal formatVersion created (zip_with op_of cs fl).
(** The journals of these components are read back. *)
Context (Hcodec : forall fl, unmarshal_journal (marshal_journal (journal_of fl)) = Some (journal_of fl)).
Abbreviation tmp := (tmp_of p).

(** The paths of the components, of the journal and of its temporary file are apart. *)
Record layout : Prop := {
  ly_path : p <> []; ly_ok : forall c, c ∈ cs -> comp_ok c;
  ly_apart : forall i j c1 c2 x y, cs !! i = Some c1 -> cs !! j = Some c2 -> i <> j -> x ∈ c_paths c1 -> y ∈ c_paths c2 -> apart x y;
  ly_journal : forall c x, c ∈ cs -> x ∈ c_paths c -> apart x p /\ apart x tmp }.
Context (Hly : layout).

(** What is marked as done is in place. *)
Definition flags_ok (fl : list bool) (fs : FS) : Prop :=
  length fl = length cs /\ forall i c, cs !! i = Some c -> fl !! i = Some true -> at_stage c Placed fs.
Definition grounds (fs : FS) : Prop :=
  (forall c, c ∈ cs -> component c fs) /\ is_dir (parent p) fs = true /\ tmp_ok p fs.
(** The journal is there with these marks. *)
Definition journaled (fl : list bool) (fs : FS) : Prop :=
  grounds fs /\ flags_ok fl fs /\ exists perm data, fs !! p = Some (NFile perm data) /\ unmarshal_journal data = Some (journal_of fl).
Definition in_progress (fs : FS) : Prop := exists fl, journaled fl fs.
Definition finished (fs : FS) : Prop := grounds fs /\ fs !! p = None /\ forall c, c ∈ cs -> at_stage c Placed fs.

(** What a change elsewhere leaves of a component. *)
Lemma stage_same c s fs0 fs : (forall x, x ∈ c_paths c -> sub x fs = sub x fs0) -> at_stage c s fs0 -> at_stage c s fs.
Proof. intros Hx. destruct s; cbn; rewrite !Hx by (unfold c_paths; set_solver); done. Qed.
Lemma other_stage i j c c' s fs0 fs : cs !! i = Some c -> cs !! j = Some c' -> i <> j -> elsewhere c fs0 fs -> at_stage c' s fs0 -> at_stage c' s fs.
Proof.
  intros Hi Hj Hne He. apply stage_same. intros x Hx. apply map_eq. intros r. rewrite !lookup_sub. apply He. intros y Hy.
  by apply apart_app, (ly_apart Hly i j c c').
Qed.
Lemma other_dirs c c' fs0 fs : c ∈ cs -> c' ∈ cs -> elsewhere c fs0 fs -> dirs_ok c' fs0 -> dirs_ok c' fs.
Proof.
  intros [i Hi]%list_elem_of_lookup [j Hj]%list_elem_of_lookup He. destruct (decide (i = j)) as [->|Hne].
  - assert (c' = c) as -> by congruence. apply dirs_elsewhere; [|done]. eapply (ly_ok Hly), list_elem_of_lookup_2; done.
  - unfold dirs_ok, is_dir. rewrite !He; [done| |]; intros y Hy; apply apart_parent, (ly_apart Hly i j c c'); (done || unfold c_paths; set_solver).
Qed.
Lemma elsewhere_journal c fs0 fs k : c ∈ cs -> elsewhere c fs0 fs -> k ∈ [p; tmp; parent p] -> fs !! k = fs0 !! k.
Proof.
  intros Hc He Hk. apply He. intros x Hx. destruct (ly_journal Hly c x Hc Hx) as [Hp Ht].
  rewrite !elem_of_cons, elem_of_nil in Hk. destruct Hk as [->|[->|[->|[]]]]; [apply Hp|apply Ht|by apply apart_parent].
Qed.
Lemma grounds_elsewhere i c s fs0 fs : cs !! i = Some c -> elsewhere c fs0 fs -> at_stage c s fs -> grounds fs0 -> grounds fs.
Proof.
  intros Hi He Hs (Hc & Hd & Ht). pose proof (list_elem_of_lookup_2 _ _ _ Hi) as Hin. split; [|split].
  - intros c' Hc'. destruct (Hc c' Hc') as [Hdirs [s' Hs']]. split; [by apply (other_dirs c c' fs0)|].
    apply list_elem_of_lookup in Hc' as [j Hj]. destruct (decide (i = j)) as [->|Hne]; [|exists s'; by apply (other_stage i j c c' s' fs0)].
    assert (c' = c) as -> by congruence. by exists s.
  - unfold is_dir in *. rewrite (elsewhere_journal c fs0 fs); [done|done|done|set_solver].
  - unfold tmp_ok, is_dir in *. rewrite (elsewhere_journal c fs0 fs); [done|done|done|set_solver].
Qed.
Lemma flags_elsewhere i c fl fs0 fs : cs !! i = Some c -> fl !! i = Some false -> elsewhere c fs0 fs -> flags_ok fl fs0 -> flags_ok fl fs.
Proof.
  intros Hi Hf He [Hl Hfl]. split; [done|]. intros j c' Hj Ht. assert (i <> j) by (intros ->; congruence).
  apply (other_stage i j c c' Placed fs0); try done. by apply (Hfl j).
Qed.

(** Replacing one component, and what the journal then says. *)
Lemma replace_step i c fl : cs !! i = Some c -> fl !! i = Some false ->
  spec in_progress (journaled fl) (replaceOperation (op_of c false)) (fun _ fs => journaled fl fs /\ at_stage c Placed fs).
Proof.
  intros Hi Hf. pose proof (list_elem_of_lookup_2 _ _ _ Hi) as Hin. apply spec_at. intros fs0 (Hg & Hfl & perm & data & Hp & Hdata).
  destruct (proj1 Hg c Hin) as [Hdirs [s Hs]].
  assert (Hkeep : forall fs, underway c fs0 fs -> journaled fl fs).
  { intros fs [He [s' Hs']]. split; [by eapply grounds_elsewhere|]. split; [by eapply flags_elsewhere|]. exists perm, data.
    rewrite (elsewhere_journal c fs0 fs); [done|done|done|set_solver]. }
  destruct (replace_spec c (ly_ok Hly c Hin) false fs0 s Hdirs Hs) as [Hsafe Hruns]. split.
  - eapply safe_conseq; [exact Hsafe| |done|]; [intros fs Hu; exists fl; by apply Hkeep|].
    intros [] fs [He Hpl]. split; [|done]. apply Hkeep. split; [done|by exists Placed].
  - eapply runs_conseq; [exact Hruns|done|]. intros [] fs [He Hpl]. split; [|done]. apply Hkeep. split; [done|by exists Placed].
Qed.

(** A change of the journal and its temporary file only. *)
Lemma except_journal c ps fs0 fs : c ∈ cs -> (forall x, x ∈ ps -> x ∈ [p; tmp]) -> except ps fs0 fs ->
  (forall x, x ∈ c_paths c -> sub x fs = sub x fs0) /\ (dirs_ok c fs0 -> dirs_ok c fs).
Proof.
  intros Hc Hps He. assert (Ha : forall x y, x ∈ c_paths c -> y ∈ ps -> apart y x).
  { intros x y Hx Hy. destruct (ly_journal Hly c x Hc Hx). specialize (Hps y Hy). rewrite !elem_of_cons, elem_of_nil in Hps.
    destruct Hps as [->|[->|[]]]; by apply apart_sym. }
  split; [intros x Hx; apply (except_sub ps); eauto|]. unfold dirs_ok, is_dir.
  rewrite !He; [done| |]; intros y Hy; apply apart_parent, Ha; (done || unfold c_paths; set_solver).
Qed.
Lemma grounds_except ps fs0 fs : (forall x, x ∈ ps -> x ∈ [p; tmp]) -> except ps fs0 fs -> tmp_ok p fs -> grounds fs0 -> grounds fs.
Proof.
  intros Hps He Ht (Hc & Hd & _). split; [|split; [|done]].
  - intros c Hin. destruct (Hc c Hin) as [Hdirs [s Hs]], (except_journal c ps fs0 fs Hin Hps He) as [Hsub Hdir]. split; [by apply Hdir|].
    exists s. by apply (stage_same c s fs0).
  - unfold is_dir in *. rewrite He; [done|]. intros x Hx. specialize (Hps x Hx). rewrite !elem_of_cons, elem_of_nil in Hps.
    pose proof (tmp_apart p (ly_path Hly)). destruct Hps as [->|[->|[]]]; [by eapply strip_parent, apart_sym|].
    rewrite <- (tmp_parent p). by eapply strip_parent.
Qed.
Lemma flags_except ps fl fs0 fs : (forall x, x ∈ ps -> x ∈ [p; tmp]) -> except ps fs0 fs -> flags_ok fl fs0 -> flags_ok fl fs.
Proof.
  intros Hps He [Hl Hf]. split; [done|]. intros i c Hi Ht. apply (stage_same c Placed fs0); [|by apply (Hf i)].
  apply (except_journal c ps fs0 fs); [by eapply list_elem_of_lookup_2|done|done].
Qed.

(** The journal is written with one more mark. *)
Lemma mark_rewritten i c fl fs0 fs : cs !! i = Some c -> at_stage c Placed fs0 -> journaled fl fs0 ->
  rewritten p (journal_of (<[i := true]> fl)) fs0 fs -> journaled (<[i := true]> fl) fs.
Proof.
  intros Hi Hpl (Hg & [Hl Hf] & _) (He & Hp & Ht). split; [|split].
  - apply (grounds_except [tmp; p] fs0); [set_solver|done| |done]. unfold tmp_ok, is_dir. by rewrite Ht.
  - apply (flags_except [tmp; p] _ fs0); [set_solver|done|]. split; [by rewrite length_insert|]. intros j c' Hj. destruct (decide (i = j)) as [->|Hne].
    + by assert (c' = c) as -> by congruence.
    + rewrite list_lookup_insert_ne by done. by apply Hf.
  - eexists _, _. split; [exact Hp|apply Hcodec].
Qed.
Lemma mark_step i c fl : cs !! i = Some c ->
  let run := writeJournal p (journal_of (<[i := true]> fl)) in
  safe in_progress (fun fs => journaled fl fs /\ at_stage c Placed fs) run (fun _ => journaled (<[i := true]> fl)) /\
  runs (fun fs => journaled fl fs /\ at_stage c Placed fs) run (fun _ => journaled (<[i := true]> fl)).
Proof.
  intros Hi run. unfold run. split; [apply safe_at|apply runs_at]; intros fs0 [Hj Hpl]; pose proof Hj as (Hg & Hf & perm & data & Hp & Hdata);
    pose proof Hg as (_ & Hd & Ht).
  - eapply safe_conseq; [exact (writeJournal_safe p (ly_path Hly) fs0 _ _ _ Hd Hp Ht)| |done|intros ? fs Hr; by eapply mark_rewritten].
    intros fs [He Ht']. exists fl. split; [by apply (grounds_except [tmp] fs0); [set_solver|..]|].
    split; [by apply (flags_except [tmp] _ fs0); [set_solver|..]|]. exists perm, data. by rewrite (rewriting_p p (ly_path Hly) fs0).
  - eapply runs_conseq; [exact (writeJournal_runs p (ly_path Hly) fs0 _ _ _ Hd Hp Ht)|done|intros ? fs Hr; by eapply mark_rewritten].
Qed.

(** The last step. *)
Lemma remove_spec fl : Forall (fun b => b = true) fl -> spec in_progress (journaled fl) (Remove os p) (fun _ => finished).
Proof.
  intros Hall. apply spec_change; [intros fs Hj; by exists fl|]. intros fs (Hg & [Hl Hf] & perm & data & Hp & _). rewrite Hp. eexists. split; [done|].
  assert (He : except [p] fs (delete p fs)) by (apply except_delete; [set_solver|done]).
  assert (Ht : tmp_ok p (delete p fs)).
  { destruct Hg as (_ & _ & Ht). unfold tmp_ok, is_dir in *. rewrite lookup_delete_ne; [done|]. intros E.
    destruct (tmp_apart p (ly_path Hly)) as [Ha _]. rewrite <- E in Ha. rewrite strip_None in Ha. apply (Ha []). by rewrite app_nil_r. }
  split; [by apply (grounds_except [p] fs); [set_solver|..]|]. split; [apply lookup_delete_eq|]. intros c Hc.
  apply (stage_same c Placed fs); [apply (except_journal c [p] fs); [done|set_solver|done]|]. apply list_elem_of_lookup in Hc as [i Hi].
  apply (Hf i); [done|]. destruct (lookup_lt_is_Some_2 fl i) as [b Hb]; [rewrite Hl; by eapply lookup_lt_Some|]. rewrite Hb. f_equal.
  exact (Forall_lookup_1 _ _ _ _ Hall Hb).
Qed.

Lemma ops_app cs1 cs2 c fl1 fl2 b : length fl1 = length cs1 ->
  zip_with op_of (cs1 ++ c :: cs2) (fl1 ++ b :: fl2) = zip_with op_of cs1 fl1 ++ op_of c b :: zip_with op_of cs2 fl2.
Proof. intros Hl. by rewrite zip_with_app. Qed.
Lemma apply_ops_spec fl0 cs1 cs2 fl1 fl2 : cs = cs1 ++ cs2 -> length fl1 = length cs1 -> length fl2 = length cs2 -> Forall (fun b => b = true) fl1 ->
  let run := apply_ops p (journal_of fl0) (zip_with op_of cs1 fl1) (zip_with op_of cs2 fl2) in
  safe in_progress (journaled (fl1 ++ fl2)) run (fun _ => finished) /\ runs (journaled (fl1 ++ fl2)) run (fun _ => finished).
Proof.
  cbv zeta. revert cs1 fl1 fl2. induction cs2 as [|c cs2 IH]; intros cs1 fl1 fl2 Hcs Hl1 Hl2 Hall; destruct fl2 as [|b fl2]; try done.
  - rewrite app_nil_r. exact (remove_spec fl1 Hall).
  - injection Hl2 as Hl2. cbn [zip_with apply_ops]. change (jo_Done (op_of c b)) with b.
    specialize (IH (cs1 ++ [c]) (fl1 ++ [true]) fl2 ltac:(by rewrite <- app_assoc) ltac:(rewrite !length_app; cbn; lia) Hl2 ltac:(by apply Forall_app_2; [|constructor])).
    rewrite <- app_assoc in IH. cbn [app] in IH. assert (Hz : zip_with op_of (cs1 ++ [c]) (fl1 ++ [true]) = zip_with op_of cs1 fl1 ++ [op_of c true]) by (by rewrite zip_with_app).
    rewrite Hz in IH. destruct b; [done|]. set (i := length cs1).
    assert (Hi : cs !! i = Some c) by (rewrite Hcs; by apply list_lookup_middle).
    assert (Hf : (fl1 ++ false :: fl2) !! i = Some false) by (apply list_lookup_middle; unfold i; lia).
    assert (Hins : <[i := true]> (fl1 ++ false :: fl2) = fl1 ++ true :: fl2) by (unfold i; rewrite <- Hl1, insert_app_r_alt, Nat.sub_diag by lia; done).
    assert (Hj : with_ops (journal_of fl0) (zip_with op_of cs1 fl1 ++ set_done (op_of c false) :: zip_with op_of cs2 fl2) = journal_of (<[i := true]> (fl1 ++ false :: fl2))).
    { rewrite Hins. unfold journal_of. rewrite Hcs, ops_app by done. done. }
    rewrite Hj. destruct (replace_step i c _ Hi Hf) as [Rs Rr], (mark_step i c (fl1 ++ false :: fl2) Hi) as [Ms Mr]. rewrite Hins in Ms, Mr. rewrite Hins.
    destruct IH as [Is Ir]. split.
    + eapply safe_bind; [exact Rs|]. intros []. eapply safe_bind; [exact Ms|]. intros []. exact Is.
    + eapply runs_comp; [exact Rr|]. intros []. eapply runs_comp; [exact Mr|]. intros []. exact Ir.
Qed.
Lemma applyJournal_spec fl :
  safe in_progress (journaled fl) (applyJournal p (journal_of fl)) (fun _ => finished) /\
  runs (journaled fl) (applyJournal p (journal_of fl)) (fun _ => finished).
Proof.
  destruct (decide (length fl = length cs)) as [Hl|Hl].
  - exact (apply_ops_spec fl [] cs [] fl eq_refl eq_refl Hl (List.Forall_nil _)).
  - split; [intros w|intros fs]; intros (_ & [? _] & _); done.
Qed.

(** ** Recover *)

Definition resumable (fs : FS) : Prop := in_progress fs \/ finished fs.
(** What reading the journal shows. *)
Definition journal_read (r : StErr + bytes) (fs : FS) : Prop :=
  match r with
  | inl e => resumable fs /\ (e = ErrCall ErrNotExist -> finished fs)
  | inr data => exists fl, unmarshal_journal data = Some (journal_of fl) /\ journaled fl fs
  end.
Lemma read_journal :
  safe resumable resumable (try (ReadFile os p)) journal_read /\
  runs resumable (try (ReadFile os p)) (fun r fs => journal_read r fs /\ match r with inl e => e = ErrCall ErrNotExist | inr _ => True end).
Proof.
  assert (Hread : forall fs, resumable fs -> (fs !! p = None /\ finished fs) \/ exists fl perm data, fs !! p = Some (NFile perm data) /\ unmarshal_journal data = Some (journal_of fl) /\ journaled fl fs).
  { intros fs [[fl Hj]|Hfin]; [right|left; by split; [apply Hfin|]]. pose proof Hj as (_ & _ & perm & data & Hx & Hdata). by exists fl, perm, data. }
  unfold try, ReadFile, read_call, atomic_call, call. split.
  - intros w Hw. destruct (Hread _ Hw) as [[Hx Hfin]|(fl & perm & data & Hx & Hdata & Hj)], (w_faults w) as [|[|n|n] l]; cbn; rewrite ?Hx; cbn; try done; by exists fl.
  - intros fs Hfs. cbn. destruct (Hread _ Hfs) as [[Hx Hfin]|(fl & perm & data & Hx & Hdata & Hj)]; rewrite Hx; cbn; eexists _, _; (split; [done|]); cbn; [done|].
    split; [by exists fl|done].
Qed.
Lemma recover_spec paths : p = journal_path paths -> validatePaths paths = ret tt ->
  safe resumable resumable (Recover paths) (fun _ => finished) /\ runs resumable (Recover paths) (fun _ => finished).
Proof.
  intros Hpath Hv. destruct read_journal as [Rs Rr]. unfold Recover. rewrite Hv, <- Hpath.
  assert (Hdone : forall data fl, unmarshal_journal data = Some (journal_of fl) -> match unmarshal_journal data with
    | None => fail ErrCorrupt | Some j => if negb (jn_Version j =? formatVersion) then fail ErrCorrupt else applyJournal p j end = applyJournal p (journal_of fl)).
  { by intros data fl ->. }
  split.
  - eapply safe_bind; [by apply (safe_ret _ resumable _ (fun _ => resumable))|]. intros []. cbv zeta. eapply safe_bind; [exact Rs|]. intros [e|data].
    + assert (Hf : safe resumable (journal_read (inl e)) (fail e) (fun _ : unit => finished)) by (apply safe_fail; by intros fs [? _]).
      destruct e as [| | | | | | |[]]; try exact Hf. apply safe_ret. intros fs [_ Hfin]. by apply Hfin.
    + intros w (fl & Hd & Hj). rewrite (Hdone data fl Hd). pose proof (proj1 (applyJournal_spec fl) w Hj) as Hs.
      destruct (applyJournal _ _ w) as [w' [[]|e|]]; cbn in *; [done|by left|by left].
  - eapply runs_comp; [by apply (runs_ret resumable _ (fun _ => resumable))|]. intros []. cbv zeta. eapply runs_comp; [exact Rr|]. intros [e|data].
    + intros fs [[_ Hfin] ->]. exists fs, tt. split; [done|by apply Hfin].
    + intros fs [(fl & Hd & Hj) _]. rewrite (Hdone data fl Hd). by apply (proj2 (applyJournal_spec fl)).
Qed.
End Journal.
End statelaws.
