(* ===== verification/StateRestore.v ===== *)
(** * Restoring a bundle, under failing calls and crashes

    Restore checks the bundle, copies it into a staging directory, writes the journal and
    rolls forward. Here is what the tree looks like however far it got, and after any number
    of attempts to recover. *)

From S2P Require Import Prelude Utf8 GoStrings Keys Sha256 Json SqlApps OsFs State StateLaws.
Import osfs state statelaws.

Module staterestore.
Open Scope os_scope.

(** ** Code that only looks *)

(** From the tree [fs] the code leaves [fs], and an answer has the property [F]. *)
Definition looks {E A : Type} (fs : FS) (c : M E A) (F : A -> Prop) : Prop :=
  safe (fun x => x = fs) (fun x => x = fs) c (fun a x => x = fs /\ F a).

Section Looks.
Context {E : Type} (os_err : OsErr -> E) (fs : FS).
Lemma looks_ret {A : Type} (a : A) (F : A -> Prop) : F a -> looks fs (@ret E A a) F.
Proof. intros HF. by apply safe_ret. Qed.
Lemma looks_fail {A : Type} (e : E) (F : A -> Prop) : looks fs (@fail E A e) F.
Proof. by apply safe_fail. Qed.
Lemma looks_bind {A B : Type} (c : M E A) (k : A -> M E B) (F : A -> Prop) (G : B -> Prop) :
  looks fs c F -> (forall a, F a -> looks fs (k a) G) -> looks fs (bind c k) G.
Proof.
  intros Hc Hk. eapply safe_bind; [exact Hc|]. intros a w [Hw HF]. by apply Hk.
Qed.
Lemma looks_try {A : Type} (c : M E A) (F : A -> Prop) : looks fs c F -> looks fs (try c) (fun r => match r with inl _ => True | inr a => F a end).
Proof.
  intros Hc. eapply safe_conseq; [by apply (safe_try (fun x => x = fs) _ (fun x => x = fs) _ _ Hc)|done|done|]. intros [e|a] x; [done|by intros [? ?]].
Qed.
Lemma looks_read {A : Type} (f : FS -> OsErr + A) (F : A -> Prop) : (forall a, f fs = inr a -> F a) -> looks fs (read_call os_err f) F.
Proof. intros HF. apply safe_read; [done|]. intros x a -> Ha. split; [done|by apply HF]. Qed.
Lemma looks_conseq {A : Type} (c : M E A) (F G : A -> Prop) : looks fs c F -> (forall a, F a -> G a) -> looks fs c G.
Proof. intros Hc HG. eapply safe_conseq; [exact Hc|done|done|]. intros a x [-> HF]. split; [done|by apply HG]. Qed.
(** A look in the middle of code that changes the tree. *)
Lemma safe_look {A B : Type} (R : FS -> Prop) (c : M E A) (k : A -> M E B) (F : A -> Prop) (Q : B -> FS -> Prop) :
  R fs -> looks fs c F -> (forall a, F a -> safe R (fun x => x = fs) (k a) Q) -> safe R (fun x => x = fs) (bind c k) Q.
Proof.
  intros HR Hc Hk. eapply safe_bind; [eapply safe_conseq; [exact Hc|by intros ? ->|done|done]|]. intros a w [Hw HF]. by apply Hk.
Qed.
End Looks.

(** The next call is a look with the fact [t] shows. *)
Ltac look_at t := eapply looks_bind; [eapply t|]; cbv beta.

Section Bundle.
Context `{StateLib} (fs : FS).
Lemma looks_guard b e : looks fs (guard b e) (fun _ => b = false).
Proof. unfold guard. destruct b; [apply looks_fail|by apply looks_ret]. Qed.
Lemma looks_Lstat p : looks fs (Lstat os p) (fun n => n = fs !! p).
Proof. apply looks_read. by intros a [= <-]. Qed.
Lemma looks_ReadFile p : looks fs (ReadFile os p) (fun data => exists perm, fs !! p = Some (NFile perm data)).
Proof. apply looks_read. intros a. destruct (fs !! p) as [[perm data| |]|]; try done. intros [= <-]. by exists perm. Qed.
Lemma looks_exists p : looks fs (exists_ p) (fun b => b = (match fs !! p with Some _ => true | None => false end)).
Proof. look_at looks_Lstat. intros n ->. by apply looks_ret. Qed.
End Bundle.

(** ** The bundle that is verified *)

Section Verified.
Context `{StateLib}.

(** The content of a file has the size and the digest of its entry. *)
Definition entry_ok (e : fileEntry) (data : bytes) : Prop := fe_Size e = len data /\ fe_SHA256 e = fe_SHA256 (entry_of (fe_Path e) data).
Definition bundle_file (fs : FS) (bundle : path) (e : fileEntry) (data : bytes) : Prop :=
  exists perm, fs !! join bundle (fe_Path e) = Some (NFile perm data) /\ insecure perm = false /\ entry_ok e data.
Definition in_bundle (fs : FS) (bundle : path) (e : fileEntry) : Prop := exists data, bundle_file fs bundle e data.

Record verified (fs : FS) (bundle : path) (key : bytes) (m : manifest) : Prop := {
  vf_manifest : exists perm data, fs !! (bundle ++ [manifest_name]) = Some (NFile perm data) /\ unmarshal_manifest data = Some m;
  vf_version : mf_Version m = formatVersion;
  vf_key : mf_DatabaseKeyID m = keyID key;
  vf_database : exists data, bundle_file fs bundle (mf_Database m) data /\ sqlite_open key data = true /\ sqlite_verify key data = true;
  vf_ssh : exists data, bundle_file fs bundle (mf_SSH m) data /\ parse_identity data = Some (mf_SSHFingerprint m, mf_SSHKeyType m);
  vf_kv : Forall (in_bundle fs bundle) (mf_KV m) }.

Context (fs : FS) (bundle : path) (key : bytes).

Lemma looks_privateRegular p : looks fs (privateRegular p false) (fun size =>
  exists perm data, fs !! p = Some (NFile perm data) /\ insecure perm = false /\ size = Some (len data)).
Proof.
  look_at looks_Lstat. intros n ->. destruct (fs !! p) as [[perm data| |]|]; try apply looks_fail.
  destruct (insecure perm) eqn:Hi; [apply looks_fail|]. apply looks_ret. by exists perm, data.
Qed.
Lemma looks_privateDir p : looks fs (privateDir p) (fun _ => True).
Proof.
  look_at looks_Lstat. intros n ->. destruct (fs !! p) as [[| |]|]; try apply looks_fail.
  eapply looks_conseq; [apply looks_guard|done].
Qed.
Lemma looks_validateBundlePath p : looks fs (validateBundlePath p) (fun _ => True).
Proof.
  look_at looks_guard. intros _ _. eapply looks_bind; [apply looks_try, looks_Lstat|]; cbv beta. intros n _.
  eapply looks_conseq; [apply looks_guard|done].
Qed.
Lemma looks_verifyEntry e : looks fs (verifyEntry bundle e) (fun _ => in_bundle fs bundle e).
Proof.
  look_at looks_guard. intros _ _. eapply looks_bind; [apply looks_try, looks_privateRegular|]; cbv beta.
  intros [err|size]; [intros _; apply looks_fail|]. intros (perm & data & Hp & Hi & ->). look_at looks_guard. intros _ Hs.
  eapply looks_bind; [eapply looks_bind; [apply looks_ReadFile|]|].
  { intros data' (perm' & Hp'). rewrite Hp in Hp'. injection Hp' as <- <-. apply looks_ret. exact (eq_refl (entry_of (fe_Path e) data)). }
  intros got Hgot. cbv beta in Hgot. eapply looks_conseq; [apply looks_guard|]; cbv beta. intros _ Hd. exists data, perm. split; [done|]. split; [done|].
  apply negb_false_iff, bool_decide_eq_true_1 in Hs. apply negb_false_iff, bool_decide_eq_true_1 in Hd.
  split; [congruence|]. by rewrite <- Hd, <- Hgot.
Qed.
Lemma looks_identityInfo p : looks fs (identityInfo p) (fun id => exists perm data, fs !! p = Some (NFile perm data) /\ parse_identity data = Some id).
Proof.
  look_at looks_ReadFile. intros data (perm & Hp). destruct (parse_identity data) as [id|] eqn:Hid; [|apply looks_fail].
  apply looks_ret. by exists perm, data.
Qed.
Lemma looks_open_database p : looks fs (open_database p key) (fun data => (exists perm, fs !! p = Some (NFile perm data)) /\ sqlite_open key data = true).
Proof.
  look_at looks_ReadFile. intros data Hp. destruct (sqlite_open key data) eqn:Ho; [|apply looks_fail]. by apply looks_ret.
Qed.
Lemma looks_readManifest : looks fs (readManifest bundle) (fun m => mf_Version m = formatVersion /\
  exists perm data, fs !! (bundle ++ [manifest_name]) = Some (NFile perm data) /\ unmarshal_manifest data = Some m).
Proof.
  look_at looks_privateRegular. intros size _. look_at looks_guard. intros _ _.
  look_at looks_ReadFile. intros data (perm & Hp). destruct (unmarshal_manifest data) as [m|] eqn:Hm; [|apply looks_fail].
  destruct (mf_Version m =? formatVersion) eqn:Hv; [|apply looks_fail]. cbn [negb orb]. destruct (_ <? _); [apply looks_fail|]. apply looks_ret.
  split; [lia|]. by exists perm, data.
Qed.
Lemma looks_verifyBundle m : looks fs (verifyBundle bundle m key) (fun _ =>
  in_bundle fs bundle (mf_Database m) /\ in_bundle fs bundle (mf_SSH m) /\ Forall (in_bundle fs bundle) (mf_KV m) /\
  exists perm data, fs !! join bundle (fe_Path (mf_Database m)) = Some (NFile perm data) /\ sqlite_open key data = true /\ sqlite_verify key data = true).
Proof.
  look_at looks_verifyEntry. intros _ Hdb. look_at looks_verifyEntry. intros _ Hssh.
  eapply (looks_bind _ _ _ (fun _ => Forall (in_bundle fs bundle) (mf_KV m))).
  { induction (mf_KV m) as [|e l IH]; [by apply looks_ret|]. look_at looks_verifyEntry. intros _ He.
    eapply looks_conseq; [exact IH|]; cbv beta. intros _ Hl. by constructor. }
  intros _ Hkv. look_at looks_identityInfo. intros _ _. look_at looks_open_database.
  intros data ((perm & Hp) & Ho). eapply looks_conseq; [apply looks_guard|]; cbv beta. intros _ Hv%negb_false_iff. split_and!; try done. by exists perm, data.
Qed.
Lemma looks_verified paths : looks fs (verified_manifest bundle paths key) (verified fs bundle key).
Proof.
  look_at looks_validateBundlePath. intros _ _. look_at looks_privateDir. intros _ _.
  look_at looks_guard. intros _ _. look_at looks_exists. intros there _.
  look_at looks_guard. intros _ _. look_at looks_readManifest. intros m [Hv Hm].
  look_at looks_verifyBundle. intros _ ((ddb & pd & Hd & Hdi & Hde) & (dssh & ps & Hs & Hsi & Hse) & Hkv & (perm & data & Hp & Ho & Hsv)).
  look_at looks_guard. intros _ Hk. look_at looks_identityInfo. intros id (permi & datai & Hpi & Hid).
  look_at looks_guard. intros _ Hi. apply looks_ret. apply negb_false_iff, bool_decide_eq_true_1 in Hk. apply negb_false_iff, bool_decide_eq_true_1 in Hi. subst id.
  rewrite Hd in Hp. injection Hp as <- <-. rewrite Hs in Hpi. injection Hpi as <- <-.
  constructor; try done; eexists; (split; [eexists; split_and!; eassumption|done]).
Qed.
End Verified.
(** ** Filling the staging directory *)

(** What is new: directories, and the files listed. *)
Definition grew (new : list (path * bytes)) (fs fs' : FS) : Prop :=
  fs ⊆ fs' /\ (forall k n, fs !! k = None -> fs' !! k = Some n -> n = NDir dirMode \/ exists data, (k, data) ∈ new /\ n = NFile privateMode data) /\
  forall k data, (k, data) ∈ new -> fs' !! k = Some (NFile privateMode data).
Lemma grew_refl fs : grew [] fs fs.
Proof. split; [done|]. split; [congruence|]. by intros k data ?%elem_of_nil. Qed.
Lemma grew_trans l1 l2 fs1 fs2 fs3 : grew l1 fs1 fs2 -> grew l2 fs2 fs3 -> grew (l1 ++ l2) fs1 fs3.
Proof.
  intros (S1 & N1 & F1) (S2 & N2 & F2). split; [by etrans|]. split.
  - intros k n Hk Hn. destruct (fs2 !! k) as [n'|] eqn:Hk2.
    + assert (n' = n) as -> by (eapply lookup_weaken in Hk2; [|exact S2]; congruence).
      destruct (N1 k n Hk Hk2) as [->|(data & Hin & ->)]; [by left|]. right. exists data. split; [set_solver|done].
    + destruct (N2 k n Hk2 Hn) as [->|(data & Hin & ->)]; [by left|]. right. exists data. split; [set_solver|done].
  - intros k data [Hin|Hin]%elem_of_app; [|by apply F2]. eapply lookup_weaken; [by apply F1|done].
Qed.

Lemma mkdir_fold l fs fs' : fold_left mkdir_one l (inr fs) = inr fs' ->
  fs ⊆ fs' /\ (forall k n, fs !! k = None -> fs' !! k = Some n -> k ∈ l /\ n = NDir dirMode) /\ Forall (fun k => is_dir k fs' = true) l.
Proof.
  assert (Herr : forall e l, fold_left mkdir_one l (inl e) = inl e) by (intros e; by induction l0).
  revert fs. induction l as [|x l IH]; intros fs; cbn; [intros [= <-]; split; [done|]; split; [congruence|constructor]|].
  destruct (fs !! x) as [[perm data|perm|]|] eqn:Hx; try (by rewrite Herr).
  - intros (Hs & Hn & Hd)%IH. split; [done|]. split.
    + intros k n Hk Hk'. destruct (Hn k n Hk Hk'). split; [by right|done].
    + constructor; [|done]. unfold is_dir. by rewrite (lookup_weaken _ _ _ _ Hx Hs).
  - intros (Hs & Hn & Hd)%IH. assert (Hx' : fs' !! x = Some (NDir 0x1C0)) by (eapply lookup_weaken; [|exact Hs]; apply lookup_insert_eq).
    split; [etrans; [by apply insert_subseteq|done]|]. split.
    + intros k n Hk Hk'. destruct (decide (k = x)) as [->|Hne]; [split; [by left|by injection (eq_trans (eq_sym Hk') Hx')]|].
      destruct (Hn k n); [by rewrite lookup_insert_ne|done|]. split; [by right|done].
    + constructor; [|done]. unfold is_dir. by rewrite Hx'.
Qed.
Lemma mkdir_grew q fs fs' : mkdir_all q fs = inr fs' -> grew [] fs fs'.
Proof.
  intros (Hs & Hn & _)%mkdir_fold. split; [done|]. split; [|by intros k data ?%elem_of_nil]. intros k n Hk Hk'. left. by apply (Hn k n).
Qed.
Lemma mkdir_dir q fs fs' : q <> [] -> mkdir_all q fs = inr fs' -> is_dir q fs' = true.
Proof.
  intros Hq (_ & _ & Hd)%mkdir_fold. rewrite Forall_forall in Hd. apply Hd. unfold prefixes. apply list_elem_of_In, in_map_iff. exists (length q).
  split; [apply firstn_all|]. apply in_seq. destruct q; [done|cbn; lia].
Qed.
(** The names a path passes through. *)
Lemma prefixes_below q r k : k ∈ prefixes (q ++ r) -> k ∈ prefixes q \/ exists r', k = q ++ r'.
Proof.
  unfold prefixes. rewrite !list_elem_of_In, !in_map_iff. intros (n & <- & Hn). apply in_seq in Hn. rewrite length_app in Hn.
  destruct (decide (n <= length q)%nat) as [Hle|Hgt].
  - left. exists n. split; [by rewrite take_app_le|]. apply in_seq. lia.
  - right. exists (take (n - length q) r). by rewrite take_app_ge by lia.
Qed.
Lemma prefixes_at q k : k ∈ prefixes q -> exists r, q = k ++ r.
Proof. unfold prefixes. rewrite list_elem_of_In, in_map_iff. intros (n & <- & _). exists (drop n q). by rewrite take_drop. Qed.

Section Staging.
Context `{StateLib} (stage : path) (fs0 : FS).
(** Nothing changes outside the staging directory, and the directories it is in are there. *)
Definition staging (fs : FS) : Prop := except [stage] fs0 fs /\ Forall (fun k => is_dir k fs = true) (prefixes stage).

Lemma staging_mkdir r fs fs' : staging fs -> mkdir_all (stage ++ r) fs = inr fs' -> staging fs'.
Proof.
  intros [He Hd] (Hs & Hn & Hd')%mkdir_fold. rewrite Forall_forall in Hd. assert (Hdir : forall k, is_dir k fs = true -> is_dir k fs' = true).
  { intros k. unfold is_dir. destruct (fs !! k) as [[| |]|] eqn:Hk; try done. intros _. by rewrite (lookup_weaken _ _ _ _ Hk Hs). }
  split; [|by apply Forall_forall; auto]. intros k Hk. rewrite <- (He k Hk). destruct (fs !! k) as [n|] eqn:Hx; [by eapply lookup_weaken|].
  destruct (fs' !! k) as [n|] eqn:Hx'; [|done]. destruct (Hn k n Hx Hx') as [Hin _]. destruct (prefixes_below _ _ _ Hin) as [Hin'|(r' & ->)].
  - specialize (Hd k Hin'). unfold is_dir in Hd. by rewrite Hx in Hd.
  - specialize (Hk stage ltac:(set_solver)). by rewrite strip_app in Hk.
Qed.
Lemma staging_insert r n fs : r <> [] -> staging fs -> staging (<[stage ++ r := n]> fs).
Proof.
  intros Hr [He Hd]. split.
  - intros k Hk. rewrite lookup_insert_ne; [by apply He|]. intros <-. specialize (Hk stage ltac:(set_solver)). by rewrite strip_app in Hk.
  - rewrite Forall_forall in *. intros k Hk. unfold is_dir. rewrite lookup_insert_ne; [by apply Hd|]. intros <-.
    apply prefixes_at in Hk as (s & E). apply (f_equal length) in E. rewrite !length_app in E. destruct r; [done|cbn in E; lia].
Qed.

Lemma write_file_safe (R : FS -> Prop) fs p perm data : R fs -> (forall n, fs !! p = None -> R (<[p := NFile perm (take n data)]> fs)) ->
  safe R (fun x => x = fs) (write_file p perm data) (fun _ fs' => fs !! p = None /\ fs' = <[p := NFile perm data]> fs).
Proof.
  intros HR Hw. assert (Hall : fs !! p = None -> R (<[p := NFile perm data]> fs)) by (rewrite <- (firstn_all data); apply Hw).
  eapply (safe_bind _ _ _ _ (fun _ fs' => fs !! p = None /\ fs' = <[p := NFile perm []]> fs)).
  { apply safe_change; [by intros ? ->|]. intros ? fs' ->. destruct (fs !! p); [done|]. destruct (is_dir _ _); [|done]. by intros [= <-]. }
  intros []. eapply (safe_bind _ _ _ _ (fun _ fs' => fs !! p = None /\ fs' = <[p := NFile perm data]> fs)).
  { apply safe_call; unfold write_data; [intros ? n [Hp ->]|intros ? [Hp ->]; cbn]; rewrite insert_insert_eq; [by apply Hw|done]. }
  intros []. eapply (safe_bind _ _ _ _ (fun _ fs' => fs !! p = None /\ fs' = <[p := NFile perm data]> fs)); [|intros []];
    (apply safe_read; [intros ? [? ->]; by apply Hall|done]).
Qed.
Lemma copyFile_safe fs src r : r <> [] -> staging fs ->
  safe staging (fun x => x = fs) (copyFile src (stage ++ r) privateMode) (fun _ fs' => staging fs' /\
    exists perm data, fs !! src = Some (NFile perm data) /\ grew [(stage ++ r, data)] fs fs').
Proof.
  intros Hr Hst. eapply safe_look; [done|by apply (looks_ReadFile fs)|]. intros data (perm & Hsrc).
  eapply (safe_bind _ _ _ _ (fun _ fs' => staging fs' /\ grew [] fs fs')).
  { apply safe_change; [by intros ? ->|]. intros ? fs' -> Hm. split; [|by eapply mkdir_grew].
    destruct r as [|x r _] using rev_ind; [done|]. unfold parent in Hm. rewrite app_assoc, removelast_last in Hm. by eapply staging_mkdir. }
  intros []. apply safe_at. intros fs2 [Hst2 Hg]. eapply safe_conseq; [apply (write_file_safe staging fs2); [done|by intros; apply staging_insert]|done|done|]; cbv beta.
  intros _ fs3 [Hn ->]. split; [by apply staging_insert|]. exists perm, data. split; [done|]. eapply (grew_trans []); [done|]. split; [by apply insert_subseteq|].
  split.
  - intros k n Hk. rewrite lookup_insert_Some. intros [[<- <-]|[_ ?]]; [|congruence]. right. exists data. split; [set_solver|done].
  - intros k d [= -> ->]%list_elem_of_singleton. apply lookup_insert_eq.
Qed.
Lemma staging_same k fs : staging fs -> strip stage k = None -> fs !! k = fs0 !! k.
Proof. intros [He _] Hk. apply He. by intros x ->%list_elem_of_singleton. Qed.

(** Each entry with the file it became. *)
Definition copied (src : fileEntry -> path) (rel : fileEntry -> path) (l : list fileEntry) (new : list (path * bytes)) : Prop :=
  Forall2 (fun e kd => kd.1 = stage ++ rel e /\ exists perm, fs0 !! src e = Some (NFile perm kd.2)) l new.
Lemma copy_entries_safe src rel l fs : (forall e, rel e <> [] /\ strip stage (src e) = None) -> staging fs ->
  safe staging (fun x => x = fs) (copy_entries src (fun e => stage ++ rel e) l)
    (fun _ fs' => staging fs' /\ exists new, copied src rel l new /\ grew new fs fs').
Proof.
  intros Hr. revert fs. induction l as [|e l IH]; intros fs Hst; cbn [copy_entries].
  - apply safe_ret. intros ? ->. split; [done|]. exists []. split; [constructor|apply grew_refl].
  - destruct (Hr e) as [Hne Hsrc]. eapply safe_bind; [by apply copyFile_safe|]. intros []. apply safe_at.
    intros fs2 [Hst2 (perm & data & Hd & Hg)]. eapply safe_conseq; [by apply IH|done|done|]; cbv beta. intros _ fs3 [Hst3 (new & Hc & Hg3)].
    split; [done|]. exists ((stage ++ rel e, data) :: new). split; [|by apply (grew_trans [_] new _ fs2)].
    constructor; [|done]. split; [done|]. exists perm. by rewrite <- (staging_same _ fs).
Qed.
End Staging.

(** The trees that replace the components hold the verified files of the bundle. *)
Record from_bundle (fs0 : FS) (bundle : path) `{StateLib} (m : manifest) (db kv ssh : FS) : Prop := {
  fb_database : exists data, bundle_file fs0 bundle (mf_Database m) data /\ db !! [] = Some (NFile privateMode data);
  fb_ssh : exists data, bundle_file fs0 bundle (mf_SSH m) data /\ ssh !! [] = Some (NFile privateMode data);
  fb_kv : kv !! [] = Some (NDir dirMode);
  fb_kv_files : forall r n, kv !! r = Some n -> n = NDir dirMode \/
    exists e data, e ∈ mf_KV m /\ r = segs (kv_rel (fe_Path e)) /\ bundle_file fs0 bundle e data /\ n = NFile privateMode data;
  fb_kv_all : forall e, e ∈ mf_KV m -> exists data, bundle_file fs0 bundle e data /\ kv !! segs (kv_rel (fe_Path e)) = Some (NFile privateMode data) }.

Section Filled.
Context `{StateLib} (fs0 : FS) (bundle stage : path) (key : bytes) (m : manifest).
Context (Hapart : apart bundle stage) (Hver : verified fs0 bundle key m).
Definition db_at : path := stage ++ [str "database.db"].
Definition kv_at : path := stage ++ [str "kv"].
Definition ssh_at : path := stage ++ [str "ssh-identity"].
Definition kv_tail (e : fileEntry) : path := str "kv" :: segs (kv_rel (fe_Path e)).

Lemma bundle_outside e : strip stage (join bundle (fe_Path e)) = None.
Proof. apply apart_app. by apply apart_sym. Qed.
Lemma copy_entries_kv l : copy_entries (fun e => join bundle (fe_Path e)) (fun e => join (stage ++ [str "kv"]) (kv_rel (fe_Path e))) l =
  copy_entries (fun e => join bundle (fe_Path e)) (fun e => stage ++ kv_tail e) l.
Proof. induction l as [|e l IH]; [done|]. cbn [copy_entries]. unfold join at 2, kv_tail at 1. by rewrite IH, <- app_assoc. Qed.
Lemma stage_bundle_safe fs : staging stage fs0 fs -> (forall r, r <> [] -> fs !! (stage ++ r) = None) ->
  safe (staging stage fs0) (fun x => x = fs) (stage_bundle bundle stage m) (fun _ fs' => staging stage fs0 fs' /\
    exists ddb dssh new pdb pssh, fs0 !! join bundle (fe_Path (mf_Database m)) = Some (NFile pdb ddb) /\
      fs0 !! join bundle (fe_Path (mf_SSH m)) = Some (NFile pssh dssh) /\
      copied stage fs0 (fun e => join bundle (fe_Path e)) kv_tail (mf_KV m) new /\
      grew ((db_at, ddb) :: (ssh_at, dssh) :: new) fs fs' /\ is_dir kv_at fs' = true).
Proof.
  intros Hst Hempty. unfold stage_bundle. eapply safe_bind; [by apply copyFile_safe|]. intros []. apply safe_at.
  intros fs1 [Hst1 (pdb & ddb & Hdb & Hg1)]. eapply safe_bind; [by apply copyFile_safe|]. intros []. apply safe_at.
  intros fs2 [Hst2 (pssh & dssh & Hssh & Hg2)].
  rewrite copy_entries_kv. eapply safe_bind; [apply copy_entries_safe; [|exact Hst2]; intros e; split; [done|apply bundle_outside]|].
  intros []. apply safe_at. intros fs3 [Hst3 (new & Hc & Hg3)]. apply safe_change; [by intros ? ->|]. intros ? fs4 -> Hm.
  split; [by eapply staging_mkdir|]. exists ddb, dssh, new, pdb, pssh.
  rewrite <- (staging_same stage fs0 _ fs), <- (staging_same stage fs0 _ fs1) by (done || apply bundle_outside). split_and!; try done.
  - eapply (grew_trans [_] (_ :: new)); [done|]. eapply (grew_trans [_] new); [done|]. rewrite <- (app_nil_r new).
    eapply grew_trans; [done|by eapply mkdir_grew].
  - eapply mkdir_dir; [|done]. intros E. by apply app_eq_nil in E as [_ ?].
Qed.

Lemma bundle_file_is e perm data : fs0 !! join bundle (fe_Path e) = Some (NFile perm data) -> in_bundle fs0 bundle e -> bundle_file fs0 bundle e data.
Proof. intros Hp (data' & perm' & Hp' & Hi & He). rewrite Hp in Hp'. injection Hp' as <- <-. by exists perm. Qed.
Lemma stage_bundle_filled fs : staging stage fs0 fs -> (forall r, r <> [] -> fs !! (stage ++ r) = None) ->
  safe (staging stage fs0) (fun x => x = fs) (stage_bundle bundle stage m) (fun _ fs' => staging stage fs0 fs' /\
    from_bundle fs0 bundle m (sub db_at fs') (sub kv_at fs') (sub ssh_at fs')).
Proof.
  intros Hst Hempty. eapply safe_conseq; [by apply stage_bundle_safe|done|done|]. cbv beta.
  intros _ fs' [Hst' (ddb & dssh & new & pdb & pssh & Hdb & Hssh & Hc & (_ & Hnew & Hall) & Hdir)]. split; [done|].
  destruct (vf_database _ _ _ _ Hver) as (ddb' & Bdb & _), (vf_ssh _ _ _ _ Hver) as (dssh' & Bssh & _).
  pose proof (vf_kv _ _ _ _ Hver) as Hkv. rewrite Forall_forall in Hkv.
  assert (Hin : forall k d, (k, d) ∈ new -> exists e, e ∈ mf_KV m /\ k = stage ++ kv_tail e /\ bundle_file fs0 bundle e d).
  { intros k d [i Hi]%list_elem_of_lookup. destruct (Forall2_lookup_r _ _ _ _ _ Hc Hi) as (e & He & E & perm & Hp). cbn in E, Hp.
    subst k. apply list_elem_of_lookup_2 in He. exists e. split; [done|]. split; [done|]. eapply bundle_file_is; [done|by apply Hkv]. }
  constructor.
  - exists ddb. split; [eapply bundle_file_is; [done|by eexists]|]. rewrite sub_root. apply Hall. set_solver.
  - exists dssh. split; [eapply bundle_file_is; [done|by eexists]|]. rewrite sub_root. apply Hall. set_solver.
  - rewrite sub_root. unfold is_dir in Hdir. destruct (fs' !! kv_at) as [[]|] eqn:Hk; try done.
    destruct (Hnew _ _ (Hempty [str "kv"] ltac:(done)) Hk) as [E|(d & _ & E)]; [by rewrite E|done].
  - intros r n. rewrite lookup_sub. unfold kv_at. rewrite <- app_assoc. intros Hr.
    destruct (Hnew _ _ (Hempty ([str "kv"] ++ r) ltac:(done)) Hr) as [->|(d & Hd & ->)]; [by left|]. right.
    rewrite !elem_of_cons in Hd. destruct Hd as [[= E _]|[[= E _]|Hd]]; try (unfold db_at, ssh_at in E; apply app_inv_head in E; cbn in E; discriminate E).
    destruct (Hin _ _ Hd) as (e & He & Hk & Hb). apply app_inv_head in Hk. injection Hk as ->. by exists e, d.
  - intros e He. apply list_elem_of_lookup in He as [i Hi]. destruct (Forall2_lookup_l _ _ _ _ _ Hc Hi) as ([k d] & Hk & E & perm & Hp). cbn in E, Hp.
    apply list_elem_of_lookup_2 in Hi, Hk. exists d. split; [eapply bundle_file_is; [done|by apply Hkv]|]. rewrite lookup_sub. unfold kv_at.
    rewrite <- app_assoc. apply Hall. subst k. by do 2 apply list_elem_of_further.
Qed.
End Filled.

(** ** Without failing calls *)

Lemma runs_and {E A : Type} (R P : FS -> Prop) (c : M E A) (Q Q' : A -> FS -> Prop) :
  safe R P c Q -> runs P c Q' -> runs P c (fun a fs => Q a fs /\ Q' a fs).
Proof.
  intros Hs Hr fs Hfs. destruct (Hr fs Hfs) as (fs' & a & Hc & HQ). exists fs', a. split; [done|]. split; [|done].
  specialize (Hs (mkWorld fs []) Hfs). by rewrite Hc in Hs.
Qed.
(** Code that looks and answers [a]. *)
Definition shows {E A : Type} (fs : FS) (c : M E A) (a : A) : Prop := c (mkWorld fs []) = (mkWorld fs [], Ret a).
Lemma shows_bind {E A B : Type} (fs : FS) (c : M E A) (k : A -> M E B) (a : A) (b : B) : shows fs c a -> shows fs (k a) b -> shows fs (bind c k) b.
Proof. unfold shows, bind. by intros ->. Qed.
Lemma shows_try {E A : Type} (fs : FS) (c : M E A) (a : A) : shows fs c a -> shows fs (try c) (inr a).
Proof. unfold shows, try. by intros ->. Qed.
Lemma runs_shows {E A B : Type} (fs : FS) (c : M E A) (k : A -> M E B) (a : A) (Q : B -> FS -> Prop) :
  shows fs c a -> runs (fun x => x = fs) (k a) Q -> runs (fun x => x = fs) (bind c k) Q.
Proof. intros Hc Hk x ->. unfold bind. rewrite Hc. by apply Hk. Qed.

Section Shows.
Context `{StateLib} (fs : FS).
Lemma shows_guard b e : b = false -> shows fs (guard b e) tt.
Proof. by intros ->. Qed.
Lemma shows_Lstat p : shows fs (Lstat os p) (fs !! p).
Proof. done. Qed.
Lemma shows_ReadFile p perm data : fs !! p = Some (NFile perm data) -> shows fs (ReadFile os p) data.
Proof. intros Hp. unfold shows, ReadFile, read_call, atomic_call, call. cbn. by rewrite Hp. Qed.
Lemma shows_privateRegular p perm data : fs !! p = Some (NFile perm data) -> insecure perm = false -> shows fs (privateRegular p false) (Some (len data)).
Proof. intros Hp Hi. eapply shows_bind; [apply shows_Lstat|]. by rewrite Hp, Hi. Qed.
Lemma shows_verifyEntry bundle e data : bundle_file fs bundle e data -> bad_entry (fe_Path e) = false -> shows fs (verifyEntry bundle e) tt.
Proof.
  intros (perm & Hp & Hi & Hs & Hd) Hb. eapply shows_bind; [by apply shows_guard|]. eapply shows_bind; [by eapply shows_try, shows_privateRegular|].
  cbv beta iota. eapply shows_bind; [apply shows_guard; by rewrite bool_decide_eq_true_2 by (by rewrite Hs)|].
  eapply shows_bind; [eapply shows_bind; [by eapply shows_ReadFile|done]|]. apply shows_guard. by rewrite bool_decide_eq_true_2 by done.
Qed.
Lemma shows_identityInfo p perm data id : fs !! p = Some (NFile perm data) -> parse_identity data = Some id -> shows fs (identityInfo p) id.
Proof. intros Hp Hi. eapply shows_bind; [by eapply shows_ReadFile|]. cbv beta. by rewrite Hi. Qed.
Lemma shows_open_database p perm key data : fs !! p = Some (NFile perm data) -> sqlite_open key data = true -> shows fs (open_database p key) data.
Proof. intros Hp Ho. eapply shows_bind; [by eapply shows_ReadFile|]. cbv beta. by rewrite Ho. Qed.

(** A bundle that passes: it verifies, it and its manifest are private, the names are proper
    and the key/value files lie apart. *)
Record good_bundle (bundle : path) (key : bytes) (m : manifest) : Prop := {
  gb_verified : verified fs bundle key m;
  gb_dir : exists perm, fs !! bundle = Some (NDir perm) /\ insecure perm = false;
  gb_manifest : exists perm data, fs !! (bundle ++ [manifest_name]) = Some (NFile perm data) /\ insecure perm = false /\ len data <= 2 ^ 20;
  gb_few : len (mf_KV m) <= 100000;
  gb_names : Forall (fun e => bad_entry (fe_Path e) = false) (mf_Database m :: mf_SSH m :: mf_KV m);
  gb_below : Forall (fun e => segs (kv_rel (fe_Path e)) <> []) (mf_KV m);
  gb_apart : ForallOrdPairs apart (map kv_tail (mf_KV m)) }.

Lemma shows_verifyBundle bundle key m : good_bundle bundle key m -> shows fs (verifyBundle bundle m key) tt.
Proof.
  intros [Hv _ _ _ Hn _ _]. rewrite !Forall_cons in Hn. destruct Hn as (N1 & N2 & N3), (vf_database _ _ _ _ Hv) as (ddb & Bdb & Ho & Hsv), (vf_ssh _ _ _ _ Hv) as (dssh & Bssh & Hid).
  pose proof Bdb as (p1 & P1 & _). pose proof Bssh as (p2 & P2 & _).
  eapply shows_bind; [by eapply shows_verifyEntry|]. eapply shows_bind; [by eapply shows_verifyEntry|]. eapply (shows_bind _ _ _ tt).
  { pose proof (vf_kv _ _ _ _ Hv) as Hkv. induction Hkv as [|e l (data & He) _ IH]; [done|]. apply Forall_cons in N3 as [N N3].
    eapply shows_bind; [by eapply shows_verifyEntry|]. by apply IH. }
  eapply shows_bind; [by eapply shows_identityInfo|]. eapply shows_bind; [by eapply shows_open_database|]. apply shows_guard. by rewrite Hsv.
Qed.
Lemma shows_verified bundle paths key m : bundle <> [] -> validatePaths paths = ret tt -> good_bundle bundle key m -> shows fs (verified_manifest bundle paths key) m.
Proof.
  intros Hb Hp Hg. destruct (gb_dir _ _ _ Hg) as (bp & Hdir & Hbp), (gb_manifest _ _ _ Hg) as (mp & md & Hm & Hmp & Hlen).
  pose proof (gb_verified _ _ _ Hg) as Hv. destruct (vf_manifest _ _ _ _ Hv) as (mp' & md' & Hm' & Hun), (vf_ssh _ _ _ _ Hv) as (ds & (ps & P & _) & Hid).
  rewrite Hm in Hm'. injection Hm' as <- <-.
  eapply shows_bind. { eapply shows_bind; [by apply shows_guard, bool_decide_eq_false_2|]. eapply shows_bind; [apply shows_try, shows_Lstat|]. by rewrite Hdir. }
  eapply (shows_bind _ _ _ tt). { eapply shows_bind; [apply shows_Lstat|]. rewrite Hdir. by apply shows_guard. }
  eapply (shows_bind _ _ _ tt); [by rewrite Hp|]. eapply (shows_bind _ _ _ true). { eapply shows_bind; [apply shows_Lstat|]. by rewrite Hm. }
  eapply (shows_bind _ _ _ tt); [by apply shows_guard|]. eapply (shows_bind _ _ _ m).
  { eapply shows_bind; [by eapply shows_privateRegular|]. eapply shows_bind; [apply shows_guard; lia|]. eapply shows_bind; [by eapply shows_ReadFile|].
    cbv beta. rewrite Hun, (vf_version _ _ _ _ Hv). pose proof (gb_few _ _ _ Hg). cbn [negb orb]. destruct (100000 <? _) eqn:E; [lia|]. done. }
  eapply shows_bind; [by apply shows_verifyBundle|]. eapply (shows_bind _ _ _ tt); [apply shows_guard; by rewrite bool_decide_eq_true_2 by apply (vf_key _ _ _ _ Hv)|].
  eapply shows_bind; [by eapply shows_identityInfo|]. eapply (shows_bind _ _ _ tt); [apply shows_guard; by rewrite bool_decide_eq_true_2|]. done.
Qed.
End Shows.

Lemma mkdir_fold_ok l fs : (forall k, k ∈ l -> fs !! k = None \/ is_dir k fs = true) -> exists fs', fold_left mkdir_one l (inr fs) = inr fs'.
Proof.
  revert fs. induction l as [|x l IH]; intros fs Hl; [by eexists|]. cbn. destruct (Hl x ltac:(by left)) as [Hx|Hx].
  - rewrite Hx. apply IH. intros k Hk. destruct (decide (k = x)) as [->|Hne]; [right; unfold is_dir; by rewrite lookup_insert_eq|].
    unfold is_dir. rewrite !lookup_insert_ne by done. apply Hl. by right.
  - unfold is_dir in Hx. destruct (fs !! x) as [[]|]; try done. apply IH. intros k Hk. apply Hl. by right.
Qed.
Lemma apart_not_below p q s : apart p q -> p <> q ++ s /\ q <> p ++ s.
Proof. intros [Hp Hq]. rewrite !strip_None in *. split; [apply Hq|apply Hp]. Qed.

Section Placing.
Context `{StateLib} (stage : path) (fs0 : FS).
(** The staging directory holds files at [ds], and directories on the way to them. *)
Definition placed (ds : list path) (fs : FS) : Prop := forall r n, fs !! (stage ++ r) = Some n ->
  r ∈ ds \/ (exists perm, n = NDir perm) /\ (r = [] \/ exists d s, d ∈ ds /\ d = r ++ s).

(** The directories on the way to a new file can be made. *)
Lemma mkdir_way r ds fs : staging stage fs0 fs -> placed ds fs -> Forall (apart r) ds -> r <> [] ->
  exists fs1, mkdir_all (parent (stage ++ r)) fs = inr fs1 /\ placed (r :: ds) fs1 /\ fs1 !! (stage ++ r) = None.
Proof.
  intros [_ Hst] Hpl Ha Hr. rewrite Forall_forall in Hst, Ha. destruct r as [|x r _] using rev_ind; [done|]. clear Hr.
  unfold parent. rewrite app_assoc, removelast_last.
  assert (Hway : forall k, k ∈ prefixes (stage ++ r) -> k ∈ prefixes stage \/ exists s t, k = stage ++ s /\ r = s ++ t).
  { intros k Hk. destruct (prefixes_below _ _ _ Hk) as [|(s & ->)]; [by left|]. right. apply prefixes_at in Hk as (t & E).
    rewrite <- app_assoc in E. apply app_inv_head in E. by exists s, t. }
  destruct (mkdir_fold_ok (prefixes (stage ++ r)) fs) as (fs1 & Hm).
  { intros k Hk. destruct (Hway k Hk) as [Hin|(s & t & -> & ->)]; [right; by apply Hst|]. destruct (fs !! (stage ++ s)) as [n|] eqn:Hn; [|by left]. right.
    destruct (Hpl _ _ Hn) as [Hs|[[perm ->] _]]; [|unfold is_dir; by rewrite Hn]. specialize (Ha s Hs). rewrite <- app_assoc in Ha.
    by destruct (apart_not_below _ _ (t ++ [x]) Ha). }
  exists fs1. split; [done|]. destruct (mkdir_fold _ _ _ Hm) as (Hs & Hn & _). split.
  - intros q n Hq. destruct (fs !! (stage ++ q)) as [n'|] eqn:Hq'.
    + assert (n' = n) as -> by (eapply lookup_weaken in Hq'; [|exact Hs]; congruence). destruct (Hpl _ _ Hq') as [?|[? [?|(d & t & ? & ?)]]]; [left; by right|right; split; [done|by left]|].
      right. split; [done|]. right. exists d, t. split; [by right|done].
    + destruct (Hn _ _ Hq' Hq) as [Hin ->]. right. split; [by eexists|]. destruct (Hway _ Hin) as [Hin'|(s & t & E & ->)].
      * left. apply prefixes_at in Hin' as (t & E). rewrite <- app_assoc in E. rewrite <- (app_nil_r stage) in E at 1. apply app_inv_head in E. by destruct q.
      * right. apply app_inv_head in E as ->. exists ((s ++ t) ++ [x]), (t ++ [x]). split; [by left|by rewrite app_assoc].
  - destruct (fs1 !! (stage ++ r ++ [x])) as [n|] eqn:Hx; [|by rewrite <- app_assoc]. exfalso. destruct (fs !! (stage ++ r ++ [x])) as [n'|] eqn:Hx'.
    + destruct (Hpl _ _ Hx') as [Hin|[_ [E|(d & t & Hin & ->)]]]; [|by apply app_eq_nil in E as [_ ?]|].
      * destruct (apart_not_below _ _ [] (Ha _ Hin)) as [Hne _]. by rewrite app_nil_r in Hne.
      * by destruct (apart_not_below _ _ t (Ha _ Hin)).
    + destruct (Hn _ _ Hx' Hx) as [Hin _]. apply prefixes_at in Hin as (t & E). apply (f_equal length) in E. rewrite !length_app in E. cbn in E. lia.
Qed.
Lemma write_file_runs fs p perm data : fs !! p = None -> is_dir (parent p) fs = true ->
  runs (fun x => x = fs) (write_file p perm data) (fun _ fs' => fs' = <[p := NFile perm data]> fs).
Proof.
  intros Hp Hd x ->. exists (<[p := NFile perm data]> fs), tt. split; [|done].
  unfold write_file, bind, Create, change_call, atomic_call, call. cbn. rewrite Hp, Hd. cbn. unfold write_data. by rewrite insert_insert_eq.
Qed.
Lemma copyFile_runs src r ds perm data fs : staging stage fs0 fs -> placed ds fs -> Forall (apart r) ds -> r <> [] ->
  fs !! src = Some (NFile perm data) -> stage <> [] ->
  runs (fun x => x = fs) (copyFile src (stage ++ r) privateMode) (fun _ => placed (r :: ds)).
Proof.
  intros Hst Hpl Ha Hr Hsrc Hne. eapply runs_shows; [by eapply shows_ReadFile|]. cbv beta.
  destruct (mkdir_way r ds fs Hst Hpl Ha Hr) as (fs1 & Hm & Hpl1 & Hnew). eapply (runs_comp _ _ _ (fun _ x => x = fs1)).
  { apply runs_change. intros ? ->. by exists fs1. }
  intros []. eapply runs_conseq; [apply (write_file_runs fs1); [done|]|done|].
  - eapply mkdir_dir; [|exact Hm]. destruct r as [|x r _] using rev_ind; [done|]. unfold parent. rewrite app_assoc, removelast_last.
    intros E. by apply app_eq_nil in E as [? _].
  - cbv beta. intros _ fs2 -> q n. destruct (decide (q = r)) as [->|Hq]; [left; by left|]. rewrite lookup_insert_ne; [by apply Hpl1|].
    intros E. apply app_inv_head in E. congruence.
Qed.
Lemma copy_entries_runs src rel l ds fs : (forall e, rel e <> [] /\ strip stage (src e) = None) -> stage <> [] ->
  ForallOrdPairs apart (map rel l) -> Forall (fun e => Forall (apart (rel e)) ds) l -> Forall (fun e => exists perm data, fs0 !! src e = Some (NFile perm data)) l ->
  staging stage fs0 fs -> placed ds fs ->
  runs (fun x => x = fs) (copy_entries src (fun e => stage ++ rel e) l) (fun _ fs' => staging stage fs0 fs' /\ placed (rev (map rel l) ++ ds) fs').
Proof.
  intros Hr Hne. revert ds fs. induction l as [|e l IH]; intros ds fs Hp Hds Hsrc Hst Hpl; cbn [copy_entries]; [by apply runs_ret; intros ? ->|].
  inversion Hp as [|? ? Hpe Hpl']; subst. apply Forall_cons in Hds as [He Hds], Hsrc as [(perm & data & Hd) Hsrc].
  rewrite <- (staging_same stage fs0 _ fs) in Hd by (done || apply Hr).
  eapply runs_comp; [eapply runs_and; [apply copyFile_safe; [apply Hr|exact Hst]|eapply copyFile_runs; try done; apply Hr]|].
  intros []. apply runs_at. intros fs1 [[Hst1 _] Hpl1]. cbn [map rev]. rewrite <- app_assoc. apply IH; try done.
  apply Forall_forall. intros e' He'. rewrite Forall_forall in Hds. constructor; [|by apply Hds].
  apply apart_sym. rewrite Stdlib.Lists.List.Forall_forall in Hpe. apply Hpe, in_map, list_elem_of_In, He'.
Qed.

Lemma stage_bundle_runs bundle key m fs : apart bundle stage -> stage <> [] -> good_bundle fs0 bundle key m -> staging stage fs0 fs -> placed [] fs ->
  runs (fun x => x = fs) (stage_bundle bundle stage m) (fun _ _ => True).
Proof.
  intros Hab Hne Hg Hst Hpl. assert (Hout : forall e, strip stage (join bundle (fe_Path e)) = None) by (intros e; apply apart_app; by apply apart_sym).
  pose proof (gb_verified _ _ _ _ Hg) as Hv. destruct (vf_database _ _ _ _ Hv) as (d1 & (p1 & P1 & _) & _), (vf_ssh _ _ _ _ Hv) as (d2 & (p2 & P2 & _) & _).
  assert (Hsrc : forall e perm data fs', staging stage fs0 fs' -> fs0 !! join bundle (fe_Path e) = Some (NFile perm data) -> fs' !! join bundle (fe_Path e) = Some (NFile perm data)).
  { intros e perm data fs' Hst' <-. by apply (staging_same stage fs0). }
  unfold stage_bundle. eapply runs_comp; [eapply runs_and; [by apply copyFile_safe|eapply (copyFile_runs _ [str "database.db"] []); [done|done|by constructor|done|by apply Hsrc|done]]|].
  intros []. apply runs_at. intros fs1 [[Hst1 _] Hpl1].
  eapply runs_comp; [eapply runs_and; [by apply copyFile_safe|eapply (copyFile_runs _ [str "ssh-identity"] [[str "database.db"]]); [done|exact Hpl1| |done|by apply Hsrc|done]; by repeat constructor]|].
  intros []. apply runs_at. intros fs2 [[Hst2 _] Hpl2].
  eapply (runs_comp _ _ _ (fun _ fs' => staging stage fs0 fs' /\ placed (rev (map kv_tail (mf_KV m)) ++ [[str "ssh-identity"]; [str "database.db"]]) fs')).
  { rewrite (copy_entries_kv bundle stage). apply (copy_entries_runs _ kv_tail); try done.
    - apply (gb_apart _ _ _ _ Hg).
    - apply Forall_forall. intros e _. repeat constructor.
    - eapply Forall_impl; [apply (vf_kv _ _ _ _ Hv)|]. intros e (data & perm & Hp & _). by exists perm, data. }
  intros []. apply runs_change. intros fs3 [Hst3 Hpl3]. destruct (mkdir_fold_ok (prefixes (stage ++ [str "kv"])) fs3) as (fs4 & Hm); [|by exists fs4].
  intros k Hk. destruct (prefixes_below _ _ _ Hk) as [Hin|(r & ->)]; [right; destruct Hst3 as [_ Hd]; rewrite Forall_forall in Hd; by apply Hd|].
  apply prefixes_at in Hk as (t & E). rewrite <- app_assoc in E. apply app_inv_head in E. destruct (fs3 !! (stage ++ r)) as [n|] eqn:Hn; [|by left]. right.
  destruct (Hpl3 _ _ Hn) as [Hr|[[perm ->] _]]; [|unfold is_dir; by rewrite Hn]. exfalso.
  rewrite elem_of_app, list_elem_of_In, <- in_rev, in_map_iff, !elem_of_cons, elem_of_nil in Hr. destruct Hr as [(e & <- & He)|[->|[->|[]]]]; [|done..].
  injection E as E. pose proof (gb_below _ _ _ _ Hg) as Hb. rewrite Forall_forall in Hb. apply (Hb e); [by apply list_elem_of_In|]. symmetry in E. by apply app_eq_nil in E as [? _].
Qed.
End Placing.
(** ** Restore and Recover *)

Lemma apart_below p q r : apart p q -> apart p (q ++ r).
Proof.
  intros [Hp Hq]. split; [by apply apart_app|]. rewrite strip_None in *. intros s ->. apply (Hq (r ++ s)). by rewrite app_assoc.
Qed.
Lemma siblings_apart p x y : x <> y -> apart (p ++ [x]) (p ++ [y]).
Proof. intros Hne. split; apply strip_None; intros r E; rewrite <- app_assoc in E; apply app_inv_head in E; cbn in E; congruence. Qed.
Lemma apart_ne p q : apart p q -> p <> q.
Proof. intros [Hp _] ->. rewrite strip_None in Hp. apply (Hp []). by rewrite app_nil_r. Qed.

(** What encoding/json keeps: a time in the years of an int64 of nanoseconds, and strings
    that are valid UTF-8. *)
Definition path_text (x : path) : Prop := Forall (fun name => json.text name /\ name <> [] /\ ~ 47 ∈ name) x.
Definition journal_text (j : journal) : Prop := - 2 ^ 63 <= jn_CreatedAt j < 2 ^ 63 /\
  Forall (fun op => json.text (jo_Name op) /\ path_text (jo_Target op) /\ path_text (jo_Staged op) /\ path_text (jo_Backup op)) (jn_Operations j).

Section Restoring.
Context `{StateLib}.
(** Reading back what was written, and a part of it. *)
Context (Hcodec : forall j, journal_text j -> unmarshal_journal (marshal_journal j) = Some j).
Context (Htorn : forall j n, journal_text j -> unmarshal_journal (take n (marshal_journal j)) = None \/ unmarshal_journal (take n (marshal_journal j)) = Some j).
Context (bundle : path) (paths : Paths) (key : bytes) (o : Options) (name : bytes) (fs0 : FS).
Abbreviation p := (journal_path paths).
Abbreviation stage := (stage_path paths name).

Definition targets : list path := [ph_Database paths; ph_KVRoot paths; ph_SSHIdentity paths].
Definition places : list path := targets ++ map backup_of targets ++ [stage; p; tmp_of p].
(** No restore is pending and none has left backups; nothing of the server is a link. *)
Record ready : Prop := {
  rd_paths : Forall (fun t => t <> []) targets;
  rd_apart : ForallOrdPairs apart places;
  rd_bundle : apart bundle stage;
  rd_dirs : Forall (fun k => is_dir k fs0 = true) (parent p :: map parent targets ++ prefixes (parent stage));
  rd_new : Forall (fun k => sub k fs0 = ∅) (stage :: map backup_of targets);
  rd_targets : Forall (fun t => sub t fs0 = ∅ \/ exists n, fs0 !! t = Some n /\ n <> NLink) targets;
  rd_journal : fs0 !! p = None /\ is_dir (tmp_of p) fs0 = false }.

(** The components, when the staging directory of [fs1] has been filled. *)
Definition comps (fs1 : FS) : list comp :=
  [mkComp (str "database") (ph_Database paths) (db_at stage) (backup_of (ph_Database paths)) (sub (ph_Database paths) fs0) (sub (db_at stage) fs1);
   mkComp (str "kv") (ph_KVRoot paths) (kv_at stage) (backup_of (ph_KVRoot paths)) (sub (ph_KVRoot paths) fs0) (sub (kv_at stage) fs1);
   mkComp (str "ssh-identity") (ph_SSHIdentity paths) (ssh_at stage) (backup_of (ph_SSHIdentity paths)) (sub (ph_SSHIdentity paths) fs0) (sub (ssh_at stage) fs1)].
(** Components whose old trees are those of the tree before, and whose new ones are those of a verified bundle. *)
Definition restoring (cs : list comp) : Prop := exists m fs1,
  verified fs0 bundle key m /\ from_bundle fs0 bundle m (sub (db_at stage) fs1) (sub (kv_at stage) fs1) (sub (ssh_at stage) fs1) /\ cs = comps fs1.
(** Nothing has changed but the staging directory and a journal that cannot be read. *)
Definition untouched (fs : FS) : Prop := except [stage; p] fs0 fs /\
  (fs !! p = None \/ exists perm data, fs !! p = Some (NFile perm data) /\ unmarshal_journal data = None).
Definition consistent (fs : FS) : Prop := untouched fs \/ exists cs, restoring cs /\ resumable p cs (op_Now o) fs.

Context (Hready : ready).
(** The paths of the server and the time are such text. *)
Context (Htext : journal_text (mkJournal formatVersion (op_Now o) (restore_ops paths stage))).

Lemma comps_codec fs1 fl : unmarshal_journal (marshal_journal (journal_of (comps fs1) (op_Now o) fl)) = Some (journal_of (comps fs1) (op_Now o) fl).
Proof.
  apply Hcodec. destruct Htext as [Hn Hops]. split; [exact Hn|]. unfold restore_ops in Hops. cbn [jn_Operations] in Hops. rewrite !Forall_cons in Hops. destruct Hops as (H0 & H1 & H2 & _).
  unfold journal_of, comps. cbn [jn_Operations]. destruct fl as [|? [|? [|? ?]]]; cbn [zip_with];
    repeat (apply Forall_cons; split; [first [exact H0|exact H1|exact H2]|]); by apply Forall_nil.
Qed.

Lemma place_apart i j x y : places !! i = Some x -> places !! j = Some y -> i <> j -> apart x y.
Proof.
  pose proof (rd_apart Hready) as Ha. revert i j. induction Ha as [|z l Hz Hl IH]; intros i j Hi Hj Hne; [done|].
  rewrite Stdlib.Lists.List.Forall_forall in Hz. destruct i as [|i], j as [|j]; cbn in Hi, Hj; try done.
  - injection Hi as ->. apply Hz, list_elem_of_In. by eapply list_elem_of_lookup_2.
  - injection Hj as ->. apply apart_sym, Hz, list_elem_of_In. by eapply list_elem_of_lookup_2.
  - apply (IH i j); auto.
Qed.
(** The paths of a component are a target, its backup, and a name in the staging directory. *)
Definition own (i : nat) (x : path) : Prop := places !! i = Some x \/ places !! (3 + i)%nat = Some x.
Definition staged_name (i : nat) : bytes := nth i [str "database.db"; str "kv"; str "ssh-identity"] [].
Lemma comp_paths fs1 i c x : comps fs1 !! i = Some c -> x ∈ c_paths c -> (i < 3)%nat /\ (own i x \/ x = stage ++ [staged_name i]).
Proof.
  unfold c_paths, own. rewrite !elem_of_cons, elem_of_nil. intros Hc Hx. destruct i as [|[|[|i]]]; try done; injection Hc as <-; cbn in Hx;
    (split; [lia|]); destruct Hx as [->|[->|[->|[]]]]; auto.
Qed.
Lemma own_apart i k x y : own i x -> (i < 3)%nat -> places !! k = Some y -> k <> i -> k <> (3 + i)%nat -> apart x y.
Proof. intros [Hx|Hx] Hi Hy H1 H2; by eapply place_apart. Qed.
Lemma own_other i j x y : own i x -> own j y -> (i < 3)%nat -> (j < 3)%nat -> i <> j -> apart x y.
Proof. intros Hx [Hy|Hy] Hi Hj Hne; eapply own_apart; eauto; lia. Qed.
Lemma names_ne i j : (i < 3)%nat -> (j < 3)%nat -> i <> j -> staged_name i <> staged_name j.
Proof. intros Hi Hj Hne. by destruct i as [|[|[|i]]], j as [|[|[|j]]]; try done; try lia. Qed.
Lemma stage_place : places !! 6%nat = Some stage. Proof. done. Qed.
Lemma own_stage i x r : own i x -> (i < 3)%nat -> apart x (stage ++ r).
Proof. intros Hx Hi. apply apart_below. eapply own_apart; [done|done|exact stage_place|lia|lia]. Qed.

Lemma comps_layout m fs1 : from_bundle fs0 bundle m (sub (db_at stage) fs1) (sub (kv_at stage) fs1) (sub (ssh_at stage) fs1) -> layout p (comps fs1).
Proof.
  intros Hb. assert (Hown : forall i c, comps fs1 !! i = Some c -> own i (c_target c) /\ own i (c_backup c) /\ c_staged c = stage ++ [staged_name i] /\
    c_old c = sub (c_target c) fs0 /\ c_target c ∈ targets /\ places !! i = Some (c_target c) /\ places !! (3 + i)%nat = Some (c_backup c) /\ (i < 3)%nat).
  { intros i c Hc. unfold own. destruct i as [|[|[|i]]]; try done; injection Hc as <-; cbn; split_and!; auto; (done || lia || set_solver). }
  constructor.
  - intros E. by apply app_eq_nil in E as [_ ?].
  - intros c [i Hc]%list_elem_of_lookup. destruct (Hown i c Hc) as (Ht & Hbk & Hs & Ho & Hin & P1 & P2 & Hi). constructor.
    + rewrite Hs. by apply own_stage with i.
    + eapply place_apart; [exact P1|exact P2|lia].
    + rewrite Hs. by apply apart_sym, own_stage with i.
    + rewrite Ho. pose proof (rd_targets Hready) as Hall. rewrite Forall_forall in Hall. destruct (Hall _ Hin) as [E|(n & Hn & Hl)]; [by left|].
      right. exists n. by rewrite sub_root.
    + destruct (fb_database _ _ _ _ _ _ Hb) as (d1 & _ & E1), (fb_ssh _ _ _ _ _ _ Hb) as (d2 & _ & E2). pose proof (fb_kv _ _ _ _ _ _ Hb) as E3.
      destruct i as [|[|[|i]]]; try done; injection Hc as <-; by eexists.
  - intros i j c1 c2 x y H1 H2 Hne Hx Hy. destruct (comp_paths _ _ _ _ H1 Hx) as [Hi [Hx'| ->]], (comp_paths _ _ _ _ H2 Hy) as [Hj [Hy'| ->]].
    + by eapply own_other.
    + by apply own_stage with i.
    + by apply apart_sym, own_stage with j.
    + by apply siblings_apart, names_ne.
  - intros c x [i Hc]%list_elem_of_lookup Hx. destruct (comp_paths _ _ _ _ Hc Hx) as [Hi [Hx'| ->]].
    + split; [apply (own_apart i 7)|apply (own_apart i 8)]; (done || lia).
    + split; apply apart_sym, apart_below; [by apply (place_apart 7 6)|by apply (place_apart 8 6)].
Qed.

(** The tree when the journal is there and no component has moved. *)
Lemma pending_journaled m fs1 fs perm data : staging stage fs0 fs1 ->
  from_bundle fs0 bundle m (sub (db_at stage) fs1) (sub (kv_at stage) fs1) (sub (ssh_at stage) fs1) ->
  fs = <[p := NFile perm data]> fs1 -> unmarshal_journal data = Some (journal_of (comps fs1) (op_Now o) [false; false; false]) ->
  journaled p (comps fs1) (op_Now o) [false; false; false] fs.
Proof.
  intros [He _] Hb -> Hdata. set (fs := <[p := NFile perm data]> fs1).
  assert (Hp : apart stage p) by (by apply (place_apart 6 7)).
  assert (Ht : apart stage (tmp_of p) /\ p <> tmp_of p) by (split; [by apply (place_apart 6 8)|by apply apart_ne, (place_apart 7 8)]).
  assert (Hsame : forall k, strip stage k = None -> k <> p -> fs !! k = fs0 !! k).
  { intros k Hk Hne. unfold fs. rewrite lookup_insert_ne by done. apply He. by intros x ->%list_elem_of_singleton. }
  assert (Hsub : forall i x, (i < 6)%nat -> places !! i = Some x -> sub x fs = sub x fs0).
  { intros i x Hi Hx. apply map_eq. intros r. rewrite !lookup_sub. apply Hsame; [apply apart_app; apply (place_apart 6 i); (done || lia)|].
    intros E. assert (Ha : apart x p) by (apply (place_apart i 7); [done|done|lia]). destruct Ha as [Ha _]. rewrite <- E, strip_app in Ha. done. }
  assert (Hstaged : forall x, sub (stage ++ [x]) fs = sub (stage ++ [x]) fs1).
  { intros x. apply sub_insert. exact (proj2 (apart_below _ _ _ (apart_sym _ _ Hp))). }
  assert (Hdir : forall i x, places !! i = Some x -> i <> 6%nat -> is_dir (parent x) fs0 = true -> is_dir (parent x) fs = true).
  { intros i x Hx Hi Hd. unfold is_dir. rewrite Hsame; [done|apply apart_parent; apply (place_apart 6 i); (done || lia)|]. intros E.
    assert (Hn : strip p (parent x) = None).
    { destruct (decide (i = 7%nat)) as [->|Hne]; [assert (x = p) as -> by (by injection Hx); by apply (strip_parent p stage), apart_sym|]. apply apart_parent. by apply (place_apart 7 i). }
    rewrite strip_None in Hn. apply (Hn []). by rewrite app_nil_r. }
  pose proof (rd_dirs Hready) as Hd. unfold targets in Hd. cbn [map app] in Hd. rewrite !Forall_cons in Hd. destruct Hd as (D7 & D0 & D1 & D2 & _).
  pose proof (rd_new Hready) as Hn. unfold targets in Hn. cbn [map] in Hn. rewrite !Forall_cons in Hn. destruct Hn as (_ & N0 & N1 & N2 & _).
  split; [split; [|split]|split].
  - intros c [i Hc]%list_elem_of_lookup. destruct i as [|[|[|i]]]; try done; injection Hc as <-; (split; [unfold dirs_ok, backup_of; cbn; rewrite parent_suffixed|]).
    1: by split; apply (Hdir 0%nat).
    2: by split; apply (Hdir 1%nat).
    3: by split; apply (Hdir 2%nat).
    all: exists Pending; split_and!; cbn; [apply Hstaged| |].
    1: by apply (Hsub 0%nat); [lia|].
    1: by rewrite (Hsub 3%nat); [|lia|].
    1: by apply (Hsub 1%nat); [lia|].
    1: by rewrite (Hsub 4%nat); [|lia|].
    1: by apply (Hsub 2%nat); [lia|].
    1: by rewrite (Hsub 5%nat); [|lia|].
  - by apply (Hdir 7%nat).
  - unfold tmp_ok, is_dir. rewrite Hsame; [apply (rd_journal Hready)|apply Ht|exact (not_eq_sym (proj2 Ht))].
  - split; [done|]. intros i c _ Hf. destruct i as [|[|[|i]]]; done.
  - exists perm, data. split; [apply lookup_insert_eq|done].
Qed.

Lemma stage_journal : strip stage p = None.
Proof. exact (proj1 (place_apart 6 7 _ _ eq_refl eq_refl ltac:(done))). Qed.
Lemma untouched_staging fs : staging stage fs0 fs -> untouched fs.
Proof.
  intros [He _]. split.
  - intros k Hk. apply He. intros x ->%list_elem_of_singleton. apply Hk. set_solver.
  - left. rewrite He; [apply (rd_journal Hready)|]. intros x ->%list_elem_of_singleton. exact stage_journal.
Qed.
Lemma resumable_journaled cs fl fs : restoring cs -> journaled p cs (op_Now o) fl fs -> consistent fs.
Proof. intros Hcs Hj. right. exists cs. split; [done|]. left. by exists fl. Qed.

(** Writing the journal the first time: it may be torn. *)
Lemma first_journal m fs1 : verified fs0 bundle key m -> staging stage fs0 fs1 ->
  from_bundle fs0 bundle m (sub (db_at stage) fs1) (sub (kv_at stage) fs1) (sub (ssh_at stage) fs1) ->
  safe consistent (fun x => x = fs1) (writeJSON p (marshal_journal (mkJournal formatVersion (op_Now o) (restore_ops paths stage))))
    (fun _ => journaled p (comps fs1) (op_Now o) [false; false; false]).
Proof.
  intros Hv Hst Hb. set (j := mkJournal _ _ _). assert (Hj : j = journal_of (comps fs1) (op_Now o) [false; false; false]) by done.
  assert (Hcs : restoring (comps fs1)) by (by exists m, fs1).
  eapply safe_conseq; [apply (write_file_safe consistent fs1)|done|done|].
  - left. by apply untouched_staging.
  - intros n Hn. destruct (Htorn j n Htext) as [Hx|Hx].
    + left. destruct (untouched_staging _ Hst) as [He _]. split; [by apply except_insert; [set_solver|]|]. right. eexists _, _. split; [apply lookup_insert_eq|done].
    + eapply resumable_journaled; [done|]. eapply pending_journaled; [done|exact Hb|done|done].
  - cbv beta. intros _ fs [_ ->]. eapply pending_journaled; [done|exact Hb|done|]. rewrite <- Hj. by apply Hcodec.
Qed.

(** What a removal of the staging directory leaves. *)
Lemma finished_except cs fs fs' : (exists m fs1, cs = comps fs1 /\ from_bundle fs0 bundle m (sub (db_at stage) fs1) (sub (kv_at stage) fs1) (sub (ssh_at stage) fs1)) ->
  except [stage] fs fs' -> fs' ⊆ fs -> finished p cs fs -> finished p cs fs'.
Proof.
  intros (m & fs1 & -> & Hb) He Hsubset (Hg & Hp & Hpl). assert (Hly := comps_layout _ _ Hb).
  assert (Hk : forall k, strip stage k = None -> fs' !! k = fs !! k) by (intros k Hk; apply He; by intros x ->%list_elem_of_singleton).
  assert (Hout : forall i x, places !! i = Some x -> i <> 6%nat -> fs' !! x = fs !! x /\ fs' !! parent x = fs !! parent x /\ sub x fs' = sub x fs).
  { intros i x Hx Hi. assert (Ha : apart stage x) by (by apply (place_apart 6 i)). split; [apply Hk, Ha|]. split; [by apply Hk, apart_parent|].
    apply (except_sub [stage]); [done|]. by intros y ->%list_elem_of_singleton. }
  assert (Hgone : forall x, sub x fs = ∅ -> sub x fs' = ∅).
  { intros x Hx. apply map_eq. intros r. rewrite lookup_empty, lookup_sub. destruct (fs' !! (x ++ r)) as [n|] eqn:Hr; [|done].
    eapply lookup_weaken in Hr; [|exact Hsubset]. rewrite <- lookup_sub, Hx in Hr. done. }
  assert (Hcomp : forall i c, comps fs1 !! i = Some c -> dirs_ok c fs' /\ at_stage c Placed fs').
  { intros i c Hc. pose proof (list_elem_of_lookup_2 _ _ _ Hc) as Hin. destruct (Hpl c Hin) as (S1 & S2 & S3), (proj1 Hg c Hin) as [[D1 D2] _].
    assert (Ht : places !! i = Some (c_target c) /\ places !! (3 + i)%nat = Some (c_backup c) /\ (i < 3)%nat)
      by (destruct i as [|[|[|i]]]; try done; injection Hc as <-; cbn; split_and!; (done || lia)).
    destruct Ht as (T1 & T2 & Hi), (Hout _ _ T1 ltac:(lia)) as (_ & E1 & E2), (Hout _ _ T2 ltac:(lia)) as (_ & E3 & E4).
    unfold dirs_ok, is_dir in *. cbn. rewrite E1, E2, E3, E4, (Hgone _ S1). done. }
  destruct (Hout 7%nat p ltac:(done) ltac:(done)) as (P1 & P2 & _), (Hout 8%nat (tmp_of p) ltac:(done) ltac:(done)) as (P3 & _ & _).
  destruct Hg as (_ & Hd & Ht). split; [split; [|split]|split].
  - intros c [i Hc]%list_elem_of_lookup. destruct (Hcomp i c Hc) as [? ?]. split; [done|by exists Placed].
  - unfold is_dir in *. by rewrite P2.
  - unfold tmp_ok, is_dir in *. by rewrite P3.
  - by rewrite P1.
  - intros c [i Hc]%list_elem_of_lookup. by apply (Hcomp i c).
Qed.
Lemma remove_some_except n fs : except [stage] fs (remove_some n stage fs) /\ remove_some n stage fs ⊆ fs.
Proof.
  unfold remove_some. generalize (take n (map fst (map_to_list (sub stage fs)))). intros l.
  assert (Hall : forall fs', except [stage] fs fs' /\ fs' ⊆ fs -> except [stage] fs (fold_left (fun fs k => delete (stage ++ k) fs) l fs') /\
    fold_left (fun fs k => delete (stage ++ k) fs) l fs' ⊆ fs); [|by apply Hall].
  induction l as [|k l IH]; intros fs' [He Hs]; [done|]. cbn. apply IH. split.
  - intros i Hi. rewrite lookup_delete_ne; [by apply He|]. intros <-. specialize (Hi stage ltac:(set_solver)). by rewrite strip_app in Hi.
  - etrans; [apply delete_subseteq|done].
Qed.
Lemma remove_sub_except fs : except [stage] fs (remove_sub stage fs) /\ remove_sub stage fs ⊆ fs.
Proof.
  unfold remove_sub. split.
  - intros k Hk. apply lookup_set_sub_out, Hk. set_solver.
  - apply map_subseteq_spec. intros k n. destruct (strip stage k) as [r|] eqn:Hr; [apply strip_Some in Hr as ->; by rewrite lookup_set_sub_in|].
    by rewrite lookup_set_sub_out.
Qed.

Lemma temp_staging : staging stage fs0 (<[stage := NDir dirMode]> fs0).
Proof.
  split; [by apply except_insert; [set_solver|]|]. apply Forall_forall. intros k Hk.
  destruct (decide (k = stage)) as [->|Hne]; [unfold is_dir; by rewrite lookup_insert_eq|]. unfold is_dir. rewrite lookup_insert_ne by done.
  pose proof (rd_dirs Hready) as Hd. rewrite Forall_forall in Hd. apply (Hd k). right. apply elem_of_app. right.
  unfold stage_path in *. unfold parent at 1. rewrite removelast_last. revert Hk Hne. unfold prefixes. rewrite !list_elem_of_In, !in_map_iff.
  intros (n & <- & Hn) Hne. apply in_seq in Hn. rewrite length_app in Hn. cbn in Hn.
  destruct (decide (n <= length (parent (ph_Database paths)))%nat) as [Hle|Hgt].
  - exists n. split; [by rewrite take_app_le|]. apply in_seq. lia.
  - destruct Hne. apply firstn_all2. rewrite length_app. cbn. lia.
Qed.
Lemma restore_safe : safe consistent (fun x => x = fs0) (Restore bundle paths key o name)
  (fun _ fs => exists cs, restoring cs /\ finished p cs fs).
Proof.
  assert (Hc0 : forall fs, staging stage fs0 fs -> consistent fs) by (intros fs Hst; left; by apply untouched_staging).
  assert (H0 : consistent fs0) by (left; split; [done|left; apply (rd_journal Hready)]).
  pose proof (rd_new Hready) as Hnew. rewrite Forall_cons in Hnew. destruct Hnew as [Hns _].
  eapply safe_look; [exact H0|apply looks_verified|]. intros m Hv. eapply safe_look; [exact H0|apply looks_exists|]. intros there _.
  eapply safe_look; [exact H0|apply looks_guard|]. intros _ _.
  eapply (safe_bind _ _ _ _ (fun _ fs => fs = <[stage := NDir dirMode]> fs0 /\ staging stage fs0 fs)).
  { apply safe_change; [by intros ? ->|]. intros ? fs ->. destruct (fs0 !! stage); [done|]. destruct (is_dir _ _); [|done]. intros [= <-].
    split; [done|apply temp_staging]. }
  intros []. apply safe_at. intros fs [Hfs Hst]. eapply safe_bind.
  { eapply safe_conseq; [apply (stage_bundle_filled fs0 bundle stage key m (rd_bundle Hready) Hv fs Hst)|exact Hc0|done|done].
    intros r Hr. rewrite Hfs, lookup_insert_ne; [by rewrite <- lookup_sub, Hns|]. intros E. by rewrite <- (app_nil_r stage) in E at 1; apply app_inv_head in E. }
  intros []. apply safe_at. intros fs1 [Hst1 Hb]. cbv zeta. assert (Hcs : restoring (comps fs1)) by (by exists m, fs1).
  eapply safe_bind; [by eapply first_journal|]. intros [].
  eapply (safe_bind _ _ _ _ (fun _ => journaled p (comps fs1) (op_Now o) [false; false; false])).
  { unfold interrupt, guard. destruct (op_Interrupt _ _); [apply safe_fail; intros fs2 Hj; by eapply resumable_journaled|by apply safe_ret]. }
  intros []. eapply (safe_bind _ _ _ _ (fun _ => finished p (comps fs1))).
  { eapply safe_conseq; [apply (applyJournal_spec p (comps fs1) (op_Now o) (comps_codec fs1) (comps_layout _ _ Hb) [false; false; false])| |done|done].
    intros fs2 Hp. right. exists (comps fs1). split; [done|by left]. }
  intros []. assert (Hfin : forall fs2 fs3, finished p (comps fs1) fs2 -> except [stage] fs2 fs3 /\ fs3 ⊆ fs2 -> finished p (comps fs1) fs3).
  { intros fs2 fs3 Hf [He Hs]. eapply finished_except; [by exists m, fs1|done..]. }
  eapply (safe_bind _ _ _ _ (fun _ => finished p (comps fs1))).
  - eapply safe_conseq; [eapply (safe_try _ _ (finished p (comps fs1)) _ (fun _ => finished p (comps fs1)))| |done|by intros []].
    + apply safe_call; [intros fs2 n Hf; by eapply Hfin, remove_some_except|intros fs2 Hf; by eapply Hfin, remove_sub_except].
    + intros fs2 Hf. exact Hf.
    + intros fs2 Hf. right. exists (comps fs1). split; [done|by right].
  - intros r. apply safe_ret. intros fs2 Hf. exists (comps fs1). by destruct r.
Qed.

(** Recover only looks when no journal can be read. *)
Lemma recover_looks fs : untouched fs -> looks fs (Recover paths) (fun _ => True).
Proof.
  intros [_ Hj]. eapply looks_bind; [apply looks_guard|]; cbv beta. intros _ _. cbv zeta. eapply looks_bind; [apply looks_try, looks_ReadFile|]; cbv beta.
  intros [e|data].
  - intros _. destruct e as [| | | | | | |[]]; first [by apply looks_ret|apply looks_fail].
  - intros (perm & Hp). destruct Hj as [Hj|(perm' & data' & Hj & Hd)]; [congruence|]. rewrite Hp in Hj. injection Hj as <- <-.
    rewrite Hd. apply looks_fail.
Qed.
Lemma paths_valid : validatePaths paths = ret tt.
Proof.
  pose proof (rd_paths Hready) as Hp. unfold targets in Hp. rewrite !Forall_cons in Hp. destruct Hp as (H1 & H2 & H3 & _).
  unfold validatePaths. by rewrite !bool_decide_eq_false_2.
Qed.
Lemma safe_tree {A : Type} (P R : FS -> Prop) (c : Op A) fs l : safe R P c (fun _ => R) -> P fs -> R (w_fs (c (mkWorld fs l)).1).
Proof. intros Hc HP. specialize (Hc (mkWorld fs l) HP). by destruct (c _).2. Qed.
Lemma recover_consistent fs l : consistent fs -> consistent (w_fs (Recover paths (mkWorld fs l)).1).
Proof.
  intros [Hu|(cs & Hcs & Hr)].
  - rewrite (safe_tree (fun x => x = fs) (fun x => x = fs)); [by left| |done]. eapply safe_conseq; [by apply recover_looks|done|done|by intros ?? [-> _]].
  - right. exists cs. split; [done|]. destruct Hcs as (m & fs1 & _ & Hb & ->).
    eapply safe_tree; [|exact Hr]. eapply safe_conseq; [apply (recover_spec p _ (op_Now o) (comps_codec fs1) (comps_layout _ _ Hb) paths eq_refl paths_valid)|done|done|]; cbv beta.
    intros _ fs2 Hf. by right.
Qed.

(** A restore of a good bundle that is left alone finishes. *)
Lemma restore_runs m : bundle <> [] -> good_bundle fs0 bundle key m -> op_Interrupt o (str "restore-journal-written") = false ->
  runs (fun x => x = fs0) (Restore bundle paths key o name) (fun _ _ => True).
Proof.
  intros Hne Hg Hi. pose proof (gb_verified _ _ _ _ Hg) as Hv. destruct (rd_journal Hready) as [Hp _].
  pose proof (rd_new Hready) as Hnew. rewrite Forall_cons in Hnew. destruct Hnew as [Hns _].
  assert (Hdir : is_dir (parent p) fs0 = true) by (pose proof (rd_dirs Hready) as Hd; rewrite Forall_cons in Hd; apply Hd).
  assert (Hpar : parent stage = parent p) by (unfold stage_path, journal_path, parent at 1 3; by rewrite !removelast_last).
  eapply runs_shows; [by apply shows_verified; [|apply paths_valid|]|]. cbv zeta. eapply (runs_shows _ _ _ false). { eapply shows_bind; [apply shows_Lstat|]. by rewrite Hp. }
  eapply runs_shows; [by apply shows_guard|]. eapply (runs_comp _ _ _ (fun _ fs => fs = <[stage := NDir dirMode]> fs0)).
  { apply runs_change. intros ? ->. rewrite (sub_empty_lookup _ _ Hns), Hpar, Hdir. by eexists. }
  intros []. set (fs := <[stage := NDir dirMode]> fs0). pose proof temp_staging as Hst. fold fs in Hst.
  assert (Hempty : forall r, r <> [] -> fs !! (stage ++ r) = None).
  { intros r Hr. unfold fs. rewrite lookup_insert_ne; [by rewrite <- lookup_sub, Hns|]. intros E. rewrite <- (app_nil_r stage) in E at 1. by apply app_inv_head in E. }
  eapply runs_comp; [eapply runs_and; [apply (stage_bundle_filled fs0 bundle stage key m (rd_bundle Hready) Hv fs Hst Hempty)|]|].
  { apply (stage_bundle_runs stage fs0 bundle key m fs); [by apply Hready| |done|done|].
    - intros E. by apply app_eq_nil in E as [_ ?].
    - intros r n Hn. destruct (decide (r = [])) as [->|Hr]; [|by rewrite (Hempty r Hr) in Hn]. right. split; [|by left].
      unfold fs in Hn. rewrite app_nil_r, lookup_insert_eq in Hn. injection Hn as <-. by eexists. }
  intros []. apply runs_at. intros fs1 [[Hst1 Hb] _]. eapply runs_comp.
  { eapply runs_and; [by eapply first_journal|]. eapply runs_conseq; [apply (write_file_runs fs1)|done|done].
    - rewrite (staging_same stage fs0); [done|done|exact stage_journal].
    - unfold is_dir in *. rewrite (staging_same stage fs0); [done|done|]. apply apart_parent. by apply (place_apart 6 7). }
  intros []. cbv beta. eapply (runs_comp _ _ _ (fun _ => journaled p (comps fs1) (op_Now o) [false; false; false])).
  { unfold interrupt. rewrite Hi. by apply runs_ret; intros fs2 [? _]. }
  intros []. eapply runs_comp; [apply (applyJournal_spec p (comps fs1) (op_Now o) (comps_codec fs1) (comps_layout _ _ Hb) [false; false; false])|].
  intros []. intros fs2 _. unfold bind, try. destruct (RemoveAll os stage (mkWorld fs2 [])) as [w r] eqn:Hr.
  injection Hr as <- <-. by eexists _, _.
Qed.
End Restoring.

(** Attempts to recover, each with the calls that fail and the call at which it stops. *)
Definition attempts `{StateLib} (paths : Paths) (l : list (list fault)) (fs : FS) : FS :=
  fold_left (fun fs faults => w_fs (Recover paths (mkWorld fs faults)).1) l fs.




(** ** A second restore

    The trees put aside are never removed. When the target and its backup are directories
    that are there, the target is not put aside again, a directory is not renamed over
    another, and every run of Recover ends with the same error; the database, which comes
    first, has been replaced by then, without a backup. *)
Theorem recover_stuck `{StateLib} paths fs perm data j before op todo :
  validatePaths paths = ret tt -> fs !! journal_path paths = Some (NFile perm data) -> unmarshal_journal data = Some j ->
  jn_Version j = formatVersion -> jn_Operations j = before ++ op :: todo -> Forall (fun o => jo_Done o = true) before -> jo_Done op = false ->
  is_dir (jo_Staged op) fs = true -> is_dir (jo_Target op) fs = true -> is_dir (jo_Backup op) fs = true ->
  Recover paths (mkWorld fs []) = (mkWorld fs [], Fail (ErrCall ErrExist)).
Proof.
  intros Hv Hj Hd Hver Hops Hdone Hop Hs Ht Hb. unfold is_dir in *.
  destruct (fs !! jo_Staged op) as [[]|] eqn:Es; try done. destruct (fs !! jo_Target op) as [[]|] eqn:Et; try done.
  destruct (fs !! jo_Backup op) as [[]|] eqn:Eb; try done.
  assert (Hrep : replaceOperation op (mkWorld fs []) = (mkWorld fs [], Fail (ErrCall ErrExist))).
  { unfold replaceOperation, bind, exists_, Lstat, Rename, change_call, read_call, atomic_call, call, rename_tree. cbn.
    rewrite Es, Et. cbn. rewrite Eb. cbn. by rewrite Es, Et. }
  assert (Happly : forall l, apply_ops (journal_path paths) j l (before ++ op :: todo) (mkWorld fs []) = (mkWorld fs [], Fail (ErrCall ErrExist))).
  { clear Hops. induction Hdone as [|o before Ho _ IH]; intros l; cbn [app apply_ops]; [rewrite Hop; unfold bind; by rewrite Hrep|]. rewrite Ho. apply IH. }
  unfold Recover. rewrite Hv. unfold bind at 1. cbn [ret]. unfold bind, try, ReadFile, read_call, atomic_call, call. cbn. rewrite Hj. cbn.
  rewrite Hd, Hver. cbn. unfold applyJournal. by rewrite Hops.
Qed.

(** *** A server and a bundle *)

#[local] Instance journalOp_eq_dec : EqDecision journalOp.
Proof. solve_decision. Defined.
#[local] Instance journalOp_countable : Countable journalOp.
Proof.
  refine (inj_countable' (fun op => (jo_Name op, jo_Target op, jo_Staged op, jo_Backup op, jo_Done op)) (fun '(a, b, c, d, e) => mkOp a b c d e) _). by intros [].
Defined.
#[local] Instance journal_eq_dec : EqDecision journal.
Proof. solve_decision. Defined.
#[local] Instance journal_countable : Countable journal.
Proof.
  refine (inj_countable' (fun j => (jn_Version j, jn_CreatedAt j, jn_Operations j)) (fun '(a, b, c) => mkJournal a b c) _). by intros [].
Defined.
(** A journal as its number in unary and a mark at the end. *)
Definition unary (j : journal) : bytes := replicate (Pos.to_nat (encode j)) 0 ++ [1].
Definition of_unary (data : bytes) : option journal :=
  match reverse data with 1 :: zeros => decode (Pos.of_nat (length zeros)) | _ => None end.
Lemma unary_codec j : of_unary (unary j) = Some j.
Proof. unfold of_unary, unary. rewrite reverse_snoc, reverse_replicate, length_replicate, Pos2Nat.id. apply decode_encode. Qed.
Lemma unary_torn j n : of_unary (take n (unary j)) = None \/ of_unary (take n (unary j)) = Some j.
Proof.
  destruct (decide (n <= Pos.to_nat (encode j))%nat) as [Hle|Hgt].
  - left. unfold of_unary, unary. rewrite take_app_le by (by rewrite length_replicate). rewrite take_replicate.
    rewrite reverse_replicate. by destruct (min n _).
  - right. rewrite firstn_all2; [apply unary_codec|]. unfold unary. rewrite length_app, length_replicate. cbn. lia.
Qed.

Definition ex_dir : path := [str "srv"].
Definition ex_bundle : path := ex_dir ++ [str "bundle"].
Definition ex_paths : Paths := mkPaths (ex_dir ++ [str "plumtree.db"]) (ex_dir ++ [str "kv"]) (ex_dir ++ [str "ssh_key"]).
Definition ex_manifest : manifest := mkManifest 1 0 (entry_of (str "database.db") [1]) (keyID []) [entry_of (str "kv/a") [2; 2]] (entry_of (str "ssh-identity") [3]) [] [].
#[local] Instance ex_lib : StateLib := {|
  marshal_manifest _ := []; unmarshal_manifest _ := Some ex_manifest; marshal_journal := unary; unmarshal_journal := of_unary;
  parse_identity _ := Some ([], []); sqlite_open _ _ := true; sqlite_verify _ _ := true; sqlite_encrypted _ _ := Some false;
  sqlite_backup _ data := Some data; sqlite_rekey _ _ data := Some data |}.
Definition ex_fs : FS := list_to_map [
  (ex_dir, NDir 448); (ex_dir ++ [str "plumtree.db"], NFile 384 [9]); (ex_dir ++ [str "kv"], NDir 448); (ex_dir ++ [str "kv"; str "old"], NFile 384 [8]);
  (ex_dir ++ [str "ssh_key"], NFile 384 [7]); (ex_bundle, NDir 448); (ex_bundle ++ [manifest_name], NFile 384 [0]);
  (ex_bundle ++ [str "database.db"], NFile 384 [1]); (ex_bundle ++ [str "kv"], NDir 448); (ex_bundle ++ [str "kv"; str "a"], NFile 384 [2; 2]);
  (ex_bundle ++ [str "ssh-identity"], NFile 384 [3])].
Definition ex_options : Options := mkOptions 0 (fun _ => false) None.

Lemma ex_ready : ready ex_bundle ex_paths (str "x") ex_fs.
Proof.
  constructor.
  - by repeat constructor.
  - repeat constructor.
  - by split; vm_compute.
  - repeat constructor.
  - repeat constructor; vm_compute; reflexivity.
  - do 3 (constructor; [right; eexists; split; [vm_compute; reflexivity|done]|]). constructor.
  - by split; vm_compute.
Qed.
Lemma ex_good : good_bundle ex_fs ex_bundle [] ex_manifest.
Proof.
  assert (Hin : forall e data, ex_fs !! join ex_bundle (fe_Path e) = Some (NFile 384 data) -> e = entry_of (fe_Path e) data -> bundle_file ex_fs ex_bundle e data).
  { intros e data Hp He. exists 384. split; [done|]. split; [done|]. split; [|by rewrite <- He]. by rewrite He. }
  constructor.
  - constructor; try done.
    + exists 384, [0]. split; [by vm_compute|done].
    + exists [1]. split; [|done]. apply Hin; [by vm_compute|done].
    + exists [3]. split; [|done]. apply Hin; [by vm_compute|done].
    + constructor; [|constructor]. exists [2; 2]. apply Hin; [by vm_compute|done].
  - exists 448. by split; vm_compute.
  - exists 384, [0]. split_and!; by vm_compute.
  - done.
  - by repeat constructor.
  - by repeat constructor.
  - by repeat constructor.
Qed.
Lemma ex_text : journal_text (mkJournal formatVersion (op_Now ex_options) (restore_ops ex_paths (stage_path ex_paths (str "x")))).
Proof.
  assert (Hs : forall l, forallb (fun s => forallb (fun c => (0 <=? c) && (c <? 128) && negb (c =? 47)) s && negb (bool_decide (s = []))) l = true -> path_text l).
  { intros l Hl. apply Forall_forall. intros s Hin. eapply forallb_forall in Hl; [|by apply list_elem_of_In]. apply andb_true_iff in Hl as [Hl Hn%negb_true_iff%bool_decide_eq_false_1].
    rewrite forallb_forall in Hl. split_and!; [|done|].
    - apply json.text_ascii, Forall_forall. intros c Hc. apply list_elem_of_In, Hl in Hc. apply andb_true_iff in Hc as [[? ?]%andb_true_iff _]. lia.
    - intros Hc%list_elem_of_In%Hl. done. }
  assert (Ht : forall s, path_text [s] -> json.text s) by (intros s Hp; apply Forall_cons in Hp; apply Hp).
  split; [by split|]. repeat (apply Forall_cons; split; [split_and!; [apply Ht|..]; apply Hs; vm_compute; reflexivity|]). by apply Forall_nil.
Qed.
End staterestore.
