(* ===== verification/Gateway.v ===== *)
(** * The leaf gateway (internal/gateway: server.go, session.go, backend.go, hostcaps.go,
      sqlitebackend.go, vmguest.go, logbuf.go; internal/sshconn)

    Who a connection is, what a handle resolves to, which capabilities a session is given,
    the requests of a client on its channel, and a session from its admission to its end.
    The repository is the one of SqlApps.v; SSH itself, the run of the guest and strconv.Quote
    are parameters. *)

From stdpp Require Import list gmap.
From S2P Require Import Prelude Utf8 GoStrings Keys Sha256 Streams Json Abi AbiCaps Bus Exec Egress HostFns Screen Transport.
From S2P Require Import SqlRepo SqlDB SqlIdentity SqlApps.
Import sqlite db identity catalog.

(** ** internal/sshconn *)

Module sshconn.

Record Admission := mkAdmission { a_maxTotal : Z; a_maxPerIP : Z; a_total : Z; a_byIP : gmap bytes Z }.
Definition NewAdmission (maxTotal maxPerIP : Z) : Admission := mkAdmission maxTotal maxPerIP 0 ∅.
Definition from_ip (a : Admission) (ip : bytes) : Z := default 0 (a_byIP a !! ip).
Definition Acquire (a : Admission) (ip : bytes) : Admission * bool :=
  if (0 <? a_maxTotal a) && (a_maxTotal a <=? a_total a) then (a, false) else
  if (0 <? a_maxPerIP a) && (a_maxPerIP a <=? from_ip a ip) then (a, false) else
  (mkAdmission (a_maxTotal a) (a_maxPerIP a) (a_total a + 1) (<[ip := from_ip a ip + 1]> (a_byIP a)), true).
Definition Release (a : Admission) (ip : bytes) : Admission :=
  if from_ip a ip =? 0 then a else
  let n := from_ip a ip - 1 in
  mkAdmission (a_maxTotal a) (a_maxPerIP a) (a_total a - 1) (if n =? 0 then delete ip (a_byIP a) else <[ip := n]> (a_byIP a)).

(** A connection with the deadline set on it; [None] is none. *)
Record ActivityConn := mkActivityConn { c_idle : Z; c_enabled : bool; c_nextRefresh : option Z; c_deadline : option Z }.
Definition NewActivityConn (idle : Z) (deadline : option Z) : ActivityConn := mkActivityConn idle false None deadline.
Definition refreshDeadline (now : Z) (c : ActivityConn) : ActivityConn :=
  if negb (c_enabled c) then c else
  if c_idle c <=? 0 then mkActivityConn (c_idle c) true (c_nextRefresh c) None else
  if (match c_nextRefresh c with Some t => now <? t | None => false end) then c else
  let refreshInterval := c_idle c ÷ 2 in
  mkActivityConn (c_idle c) true (Some (now + refreshInterval)) (Some (now + (c_idle c + refreshInterval))).
Definition EnableIdleDeadline (now : Z) (c : ActivityConn) : ActivityConn :=
  refreshDeadline now (mkActivityConn (c_idle c) true (c_nextRefresh c) (c_deadline c)).
(** Read and Write, which moved [n] bytes. *)
Definition moved (n now : Z) (c : ActivityConn) : ActivityConn := if 0 <? n then refreshDeadline now c else c.
End sshconn.

Module gateway.

(** ** Errors and configuration *)

Inductive GwErr := GwSuspended | GwQuota | CapsUnavailable | NotConfigured | GwRepo (e : error).
(** [errors.Is] for the errors that are passed on as they are; a context is never cancelled here. *)
Definition unavailable (e : error) : GwErr :=
  match e with ErrInvalid | ErrNotFound | ErrConflict | ErrSuspended | ErrQuota => GwRepo e | _ => CapsUnavailable end.

Definition DefaultHandshakeTimeout : Z := 10 * 10 ^ 9.
Definition DefaultIdleTimeout : Z := 5 * 60 * 10 ^ 9.
Definition DefaultMaxConnections : Z := 1024.
Definition DefaultMaxConnectionsPerIP : Z := 32.
Definition effectiveLimit (configured fallback : Z) : Z := if configured =? 0 then fallback else if configured <? 0 then 0 else configured.
Definition effectiveDuration (configured fallback : Z) : Z := if configured =? 0 then fallback else if configured <? 0 then 0 else configured.

(** The fields of Config that decide something. *)
Record Config := mkConfig {
  cf_Backend : bool; cf_Suspensions : bool; cf_RunnerWorker : bytes; cf_RunnerEndpoint : bytes; cf_RunnerToken : bytes;
  cf_EnableHostCommands : bool; cf_HostCommandAllowlist : list bytes; cf_MaxConcurrentSessions : Z;
  cf_HandshakeTimeout : Z; cf_IdleTimeout : Z; cf_MaxConnections : Z; cf_MaxConnectionsPerIP : Z }.
Inductive ConfigErr := NoBackend | NoSuspensions | TwoRunners | NoRunnerToken | EmptyCommandAllowlist.
Record ServerSettings := mkSettings {
  sv_enableHostCommands : bool; sv_hostCommandAllowlist : list bytes; sv_maxConcurrentSessions : Z;
  sv_handshakeTimeout : Z; sv_idleTimeout : Z; sv_admission : sshconn.Admission }.
Definition New (c : Config) : ConfigErr + ServerSettings :=
  if negb (cf_Backend c) then inl NoBackend else
  if negb (cf_Suspensions c) then inl NoSuspensions else
  if negb (bool_decide (cf_RunnerEndpoint c = [])) && negb (bool_decide (cf_RunnerWorker c = [])) then inl TwoRunners else
  if negb (bool_decide (cf_RunnerEndpoint c = [])) && bool_decide (cf_RunnerToken c = []) then inl NoRunnerToken else
  if cf_EnableHostCommands c && bool_decide (cf_HostCommandAllowlist c = []) then inl EmptyCommandAllowlist else
  inr (mkSettings (cf_EnableHostCommands c) (cf_HostCommandAllowlist c) (cf_MaxConcurrentSessions c)
         (effectiveDuration (cf_HandshakeTimeout c) DefaultHandshakeTimeout) (effectiveDuration (cf_IdleTimeout c) DefaultIdleTimeout)
         (sshconn.NewAdmission (effectiveLimit (cf_MaxConnections c) DefaultMaxConnections) (effectiveLimit (cf_MaxConnectionsPerIP c) DefaultMaxConnectionsPerIP))).

(** ** The backend over the repository *)

Section Backend.
Context `{Platform}.

Record GwRunnable := mkGwRunnable { gr_AppID : bytes; gr_AppName : bytes; gr_OwnerID : bytes; gr_DeployID : bytes; gr_ArtifactDigest : bytes; gr_AppType : bytes; gr_WASM : bytes }.

(** A backend built without a repository. *)
Definition requireRepo {A} (b : option Repo) (k : Repo -> Repo * (GwErr + A)) : option Repo * (GwErr + A) :=
  match b with
  | None => (None, inl NotConfigured)
  | Some r => let '(r, a) := k r in (Some r, a)
  end.

Definition ResolveIdentity (b : option Repo) (fingerprint : bytes) : option Repo * (GwErr + SessionIdentity) :=
  requireRepo b (fun r =>
    let '(r, d) := DeviceByFingerprint r fingerprint in
    (r, match d with
        | inl ErrNotFound => inr (mkSessionIdentity fingerprint false kindSSHKey false [])
        | inl e => inl (unavailable e)
        | inr d => inr (mkSessionIdentity fingerprint true kindSSHKey false (dv_author (d_row d)))
        end)).

(** [strings.Cut] at the first slash, and nothing else with a slash. *)
Definition split_handle (handle : bytes) : option (bytes * bytes) :=
  match Split slash handle with
  | [author; app] => if bool_decide (author = []) || bool_decide (app = []) then None else Some (author, app)
  | _ => None
  end.
Definition ResolveRunnable (b : option Repo) (handle : bytes) (identity : SessionIdentity) : option Repo * (GwErr + GwRunnable) :=
  requireRepo b (fun r =>
    match split_handle handle with
    | None => (r, inl (GwRepo ErrNotFound))
    | Some (author, app) =>
      let fingerprint := if bool_decide (si_Kind identity = kindSSHKey) then si_User identity else [] in
      let '(r, res) := ResolveLeafRunnable r author app fingerprint (si_OwnerID identity) in
      (r, match res with
          | inl ErrSuspended => inl GwSuspended
          | inl e => inl (match e with ErrNotFound | ErrInvalid => GwRepo e | _ => unavailable e end)
          | inr run => inr (mkGwRunnable (app_ID (rn_App run)) (ap_name (app_row (rn_App run))) (ap_author (app_row (rn_App run))) (rn_DeploymentID run)
                              (ar_digest (am_row (rn_Artifact run))) (ap_kind (app_row (rn_App run))) (rn_WASM run))
          end)
    end).

(** [id] is what randomSessionID draws; the zero time stands for the moment of the call. *)
Definition StartSession (b : option Repo) (id appID deployID artifactDigest identitySummary : bytes) : option Repo * (GwErr + bytes) :=
  requireRepo b (fun r =>
    let '(r, res) := SqlApps.catalog.StartSession r (mkSessionInput id appID deployID artifactDigest [] identitySummary zero_time false) in
    (r, match res with
        | inr _ => inr id
        | inl ErrSuspended => inl GwSuspended
        | inl ErrQuota => inl GwQuota
        | inl e => inl (match e with ErrNotFound | ErrInvalid => GwRepo e | _ => unavailable e end)
        end)).
Definition accounting {A} (res : error + A) : GwErr + unit :=
  match res with
  | inr _ => inr tt
  | inl e => inl (match e with ErrNotFound | ErrInvalid => GwRepo e | _ => unavailable e end)
  end.
Definition RecordSessionLog (b : option Repo) (sessionID log : bytes) (truncated : bool) : option Repo * (GwErr + unit) :=
  requireRepo b (fun r => let '(r, res) := SqlApps.catalog.RecordSessionLog r sessionID log truncated in (r, accounting res)).
Definition EndSession (b : option Repo) (sessionID : bytes) : option Repo * (GwErr + unit) :=
  requireRepo b (fun r => let '(r, res) := SqlApps.catalog.EndSession r sessionID in (r, accounting res)).

Definition secrets_error (e : error) : GwErr := match e with ErrInvalid | ErrNotFound => GwRepo e | _ => unavailable e end.
Fixpoint read_secrets (appID : bytes) (l : list SecretMetadata) (r : Repo) (acc : gmap bytes bytes) : Repo * (GwErr + gmap bytes bytes) :=
  match l with
  | [] => (r, inr acc)
  | m :: l =>
    let '(r, v) := Secret r appID (sm_Key m) in
    match v with
    | inl e => (r, inl (secrets_error e))
    | inr (_, value) => read_secrets appID l r (<[sm_Key m := value]> acc)
    end
  end.
Definition SecretsForApp (b : option Repo) (appID : bytes) : option Repo * (GwErr + gmap bytes bytes) :=
  requireRepo b (fun r =>
    let '(r, metadata) := ListSecrets r appID in
    match metadata with
    | inl e => (r, inl (match e with ErrInvalid => GwRepo e | _ => unavailable e end))
    | inr l => read_secrets appID l r ∅
    end).
Definition EgressAllowlist (b : option Repo) (appID : bytes) : option Repo * (GwErr + list bytes) :=
  requireRepo b (fun r =>
    let '(r, allow) := ListEgressHosts r appID in
    (r, match allow with
        | inl e => inl (match e with ErrInvalid => GwRepo e | _ => unavailable e end)
        | inr l => inr l
        end)).
End Backend.

(** ** What a session may use *)

Record HostCapabilityOptions := mkHostOptions { ho_EnableHostCommands : bool; ho_HostCommandAllowlist : list bytes }.

(** The sources of one session, which work on a state [S]; [K] are stores and [B] buses. *)
Record HostCapabilitySources (S K B : Type) := mkSources {
  hs_Secrets : option (bytes -> S -> S * (GwErr + gmap bytes bytes));
  hs_Egress : option (bytes -> S -> S * (GwErr + list bytes));
  hs_KV : option (bytes -> S -> S * (GwErr + option K));
  hs_Bus : option (bytes -> S -> S * B) }.
Arguments hs_Secrets {S K B} h.
Arguments hs_Egress {S K B} h.
Arguments hs_KV {S K B} h.
Arguments hs_Bus {S K B} h.

(** runner.Capabilities; [Goodbye] starts empty and is the run's own. *)
Record Capabilities (K B : Type) := mkCaps {
  cp_Auth : SessionIdentity; cp_Bus : option B; cp_KV : option K; cp_Exec : option LocalCommander; cp_Env : option (gmap bytes bytes); cp_Fetch : option AllowlistFetcher }.
Arguments mkCaps {K B} _ _ _ _ _ _.
Arguments cp_Auth {K B} c.
Arguments cp_Bus {K B} c.
Arguments cp_KV {K B} c.
Arguments cp_Exec {K B} c.
Arguments cp_Env {K B} c.
Arguments cp_Fetch {K B} c.
Inductive CapErr := NoAppID | NoBusSource | NoKVSource | NoSecretsSource | NoEgressSource | KVFailed (e : GwErr) | SecretsFailed (e : GwErr) | EgressFailed (e : GwErr) | EgressRejected (bad : list bytes).

Section Assemble.
Context {S K B : Type} (src : HostCapabilitySources S K B).
Definition assemble_bus (appID : bytes) (s : S) : S * option B * list CapErr :=
  match hs_Bus src with
  | None => (s, None, [NoBusSource])
  | Some f => let '(s, b) := f appID s in (s, Some b, [])
  end.
Definition assemble_kv (appID : bytes) (s : S) : S * option K * list CapErr :=
  match hs_KV src with
  | None => (s, None, [NoKVSource])
  | Some f => let '(s, r) := f appID s in match r with inl e => (s, None, [KVFailed e]) | inr k => (s, k, []) end
  end.
Definition assemble_env (appID : bytes) (s : S) : S * option (gmap bytes bytes) * list CapErr :=
  match hs_Secrets src with
  | None => (s, None, [NoSecretsSource])
  | Some f => let '(s, r) := f appID s in
              match r with inl e => (s, None, [SecretsFailed e]) | inr m => (s, if bool_decide (m = ∅) then None else Some m, []) end
  end.
Definition assemble_fetch (appID : bytes) (s : S) : S * option AllowlistFetcher * list CapErr :=
  match hs_Egress src with
  | None => (s, None, [NoEgressSource])
  | Some f => let '(s, r) := f appID s in
              match r with
              | inl e => (s, None, [EgressFailed e])
              | inr [] => (s, None, [])
              | inr allow => match NewValidatedAllowlistFetcher allow with inl bad => (s, None, [EgressRejected bad]) | inr fetcher => (s, Some fetcher, []) end
              end
  end.
Definition AssembleHostCapabilities (app : GwRunnable) (identity : SessionIdentity) (opts : HostCapabilityOptions) (s : S) : S * Capabilities K B * list CapErr :=
  if bool_decide (gr_AppID app = []) then (s, mkCaps identity None None None None None, [NoAppID]) else
  let '(s, bus, e1) := assemble_bus (gr_AppID app) s in
  let '(s, kv, e2) := assemble_kv (gr_AppID app) s in
  if bool_decide (gr_OwnerID app = []) then (s, mkCaps identity bus kv None None None, e1 ++ e2) else
  let exec := if ho_EnableHostCommands opts && negb (bool_decide (ho_HostCommandAllowlist opts = []))
              then Some (mkLocalCommander (ho_HostCommandAllowlist opts) [] 0) else None in
  let '(s, env, e3) := assemble_env (gr_AppID app) s in
  let '(s, fetch, e4) := assemble_fetch (gr_AppID app) s in
  (s, mkCaps identity bus kv exec env fetch, e1 ++ e2 ++ e3 ++ e4).
End Assemble.

(** ** Who a connection is *)

Definition hex_of (b : bytes) : bytes := catalog.hex b.
(** The proved fingerprint of the permissions, and the session identifier of SSH. *)
Definition identityFromConn `{Platform} (b : option Repo) (fp sid : bytes) : option Repo * SessionIdentity :=
  if bool_decide (fp = []) then (b, mkSessionIdentity (str "anonymous:" ++ hex_of (take 8 sid)) false kindAnonymous false []) else
  let '(b, res) := ResolveIdentity b fp in
  (b, match res with
      | inr id => if bool_decide (si_User id = []) then mkSessionIdentity fp false kindSSHKey false [] else
                  if si_Authenticated id then id else mkSessionIdentity (si_User id) false (si_Kind id) (si_OwnsApp id) []
      | inl _ => mkSessionIdentity fp false kindSSHKey false []
      end).
Definition appRelativeIdentity (identity : SessionIdentity) (appOwnerID : bytes) : SessionIdentity :=
  mkSessionIdentity (si_User identity) (si_Authenticated identity) (si_Kind identity)
    (si_Authenticated identity && negb (bool_decide (si_OwnerID identity = [])) && bool_decide (si_OwnerID identity = appOwnerID)) [].
Definition IdentityLogValue (identity : SessionIdentity) : bytes :=
  let value := si_User identity in
  if (HasPrefix value (str "SHA256:") || HasPrefix value (str "anonymous:")) && (18 <? len value) then take 18 value ++ [0xE2; 0x80; 0xA6] else value.
Fixpoint trim_brackets (s : bytes) : bytes := match s with b :: s' => if (b =? 91) || (b =? 93) then trim_brackets s' else s | [] => [] end.
Definition HostFromListen (listenHost : bytes) : bytes :=
  if bool_decide (listenHost ∈ [[]; str "0.0.0.0"; str "::"]) then str "127.0.0.1" else rev (trim_brackets (rev (trim_brackets listenHost))).

(** ** The captured log *)

Definition maxSessionLogBytes : Z := 64 * 2 ^ 10.
Record capWriter := mkCapWriter { cw_buf : bytes; cw_cap : Z; cw_truncated : bool }.
Definition newCapWriter (capBytes : Z) : capWriter := mkCapWriter [] capBytes false.
Definition capWriter_Write (w : capWriter) (p : bytes) : capWriter :=
  let remaining := cw_cap w - len (cw_buf w) in
  if 0 <? remaining then
    if remaining <? len p then mkCapWriter (cw_buf w ++ take (Z.to_nat remaining) p) (cw_cap w) true
    else mkCapWriter (cw_buf w ++ p) (cw_cap w) (cw_truncated w)
  else if 0 <? len p then mkCapWriter (cw_buf w) (cw_cap w) true else w.

(** ** Guest virtual machines *)

Record VMGuest := mkVMGuest { vm_Addr : bytes; vm_User : bytes; vm_KeyFile : bytes; vm_HostKey : bytes }.
Inductive VMErr := VMNotConfigured | VMMisconfigured | VMUnmapped | VMUnreachable.
Definition has_any (chars s : bytes) : bool := existsb (fun b => existsb (Z.eqb b) chars) s.
Definition vm_validate (g : VMGuest) : bool :=
  negb (bool_decide (vm_Addr g = [])) && negb (has_any [32; 9; 13; 10] (vm_Addr g)) &&
  negb (bool_decide (vm_User g = [])) && negb (has_any [32; 9; 13; 10; 47] (vm_User g)) &&
  negb (bool_decide (vm_KeyFile g = [])) && negb (bool_decide (vm_HostKey g = [])).
Definition maxVMGuestFileBytes : Z := 2 ^ 20.
(** [file] is what os.ReadFile gives, [parse] the decoder of the mapping. *)
Definition loadVMGuests (parse : bytes -> option (gmap bytes VMGuest)) (file : option bytes) : option (gmap bytes VMGuest) :=
  match file with
  | None => None
  | Some data => if maxVMGuestFileBytes <? len data then None else parse data
  end.
Definition lookupVMGuest (parse : bytes -> option (gmap bytes VMGuest)) (vmGuestFile : bytes) (file : option bytes) (appID : bytes) : VMErr + VMGuest :=
  if bool_decide (vmGuestFile = []) then inl VMNotConfigured else
  match loadVMGuests parse file with
  | None => inl VMMisconfigured
  | Some guests =>
    match guests !! appID with
    | None => inl VMUnmapped
    | Some g => if vm_validate g then inr g else inl VMMisconfigured
    end
  end.
(** The modes of a pty request: an opcode and four bytes each, up to the end or a tail that is cut off. *)
Fixpoint decode_modes (fuel : nat) (data : bytes) (modes : gmap Z Z) : gmap Z Z :=
  match fuel, data with
  | S fuel, op :: a :: b :: c :: d :: rest =>
    if op =? 0 then modes else decode_modes fuel rest (<[op := ((a * 256 + b) * 256 + c) * 256 + d]> modes)
  | _, _ => modes
  end.
Definition decodeTerminalModes (raw : bytes) : gmap Z Z := decode_modes (length raw) raw ∅.

(** ** The requests on a session channel *)

Record ptyRequest := mkPty { pt_Term : bytes; pt_Columns : Z; pt_Rows : Z; pt_Modes : bytes }.
(** Dimensions are uint32. *)
Definition validateRequestDimensions (columns rows : Z) : bool :=
  negb ((columns <? MinWidth) || (MaxWidth <? columns) || (rows <? MinHeight) || (MaxHeight <? rows) || (MaxCells <? columns * rows)).
Definition parsePTYRequest (p : option ptyRequest) : option ptyRequest :=
  match p with Some p => if validateRequestDimensions (pt_Columns p) (pt_Rows p) then Some p else None | None => None end.
Definition parseWindowChange (p : option (Z * Z)) : option (Z * Z) :=
  match p with Some (c, r) => if validateRequestDimensions c r then Some (c, r) else None | None => None end.

Definition maxLeafEnvVars : Z := 32.
Definition maxLeafEnvName : Z := 128.
Definition maxLeafEnvValue : Z := 4096.
Definition maxLeafRawCmdLen : Z := 64 * 1024.
(** A request with what ssh.Unmarshal makes of its payload, and the length of the payload. *)
Inductive Request :=
| ReqPTY (p : option ptyRequest) | ReqWindow (p : option (Z * Z)) | ReqShell | ReqExec (n : Z) (command : option bytes)
| ReqEnv (n : Z) (env : option (bytes * bytes)) | ReqOther.
Record leafChannel := mkLeaf { lf_pty : bool; lf_term : bytes; lf_modes : bytes; lf_env : gmap bytes bytes; lf_cmd : bytes; lf_exec : bool }.
Record Channel := mkChannel { ch_w : Z; ch_h : Z; ch_winch : bool; ch_started : bool; ch_leaf : leafChannel }.
Definition new_channel : Channel := mkChannel 80 24 false false (mkLeaf false [] [] ∅ [] false).
(** What a request brings about: a reply, the start of the session, or the end of the channel
    after a command that is refused. *)
Inductive ChannelEvent := Reply (ok : bool) | StartWith (args : list bytes) (leaf : leafChannel) | InvalidCommand | CommandPanic.

Definition handle_start (c : Channel) (args : list bytes) (cmd : bytes) (isExec : bool) : Channel * list ChannelEvent :=
  if ch_started c then (c, [Reply true]) else
  let l := ch_leaf c in
  let leaf := mkLeaf (lf_pty l) (lf_term l) (lf_modes l) (lf_env l) cmd isExec in
  (mkChannel (ch_w c) (ch_h c) (ch_winch c) true leaf, [Reply true; StartWith args leaf]).
Definition handle_request (c : Channel) (r : Request) : Channel * list ChannelEvent :=
  let l := ch_leaf c in
  match r with
  | ReqPTY p =>
    match parsePTYRequest p with
    | None => (c, [Reply false])
    | Some p => (mkChannel (pt_Columns p) (pt_Rows p) (ch_winch c) (ch_started c) (mkLeaf true (pt_Term p) (pt_Modes p) (lf_env l) (lf_cmd l) (lf_exec l)), [Reply true])
    end
  | ReqWindow p =>
    match parseWindowChange p with
    | None => (c, [Reply false])
    | Some (w, h) => (mkChannel w h true (ch_started c) l, [Reply true])
    end
  | ReqShell => handle_start c [] [] false
  | ReqExec n command =>
    match command with
    | Some cmd =>
      if 4 + maxLeafRawCmdLen <? n then (c, [Reply false]) else
      match execprotocol.ParseExecCommand cmd with
      | Ok args => handle_start c args cmd true
      | Err _ => (c, [Reply true; InvalidCommand])
      | Panic => (c, [CommandPanic])
      end
    | None => (c, [Reply false])
    end
  | ReqEnv n env =>
    match env with
    | Some (name, value) =>
      if (4 + maxLeafEnvName + 4 + maxLeafEnvValue <? n) || bool_decide (name = []) || (maxLeafEnvName <? len name) || (maxLeafEnvValue <? len value) then (c, [Reply false]) else
      let env := if Z.of_nat (size (lf_env l)) <? maxLeafEnvVars then <[name := value]> (lf_env l) else lf_env l in
      (mkChannel (ch_w c) (ch_h c) (ch_winch c) (ch_started c) (mkLeaf (lf_pty l) (lf_term l) (lf_modes l) env (lf_cmd l) (lf_exec l)), [Reply true])
    | None => (c, [Reply false])
    end
  | ReqOther => (c, [Reply false])
  end.
(** The loop ends at the end of the requests or after a command that is refused. *)
Fixpoint handleRequests (c : Channel) (l : list Request) : Channel * list ChannelEvent :=
  match l with
  | [] => (c, [])
  | r :: l =>
    let '(c, ev) := handle_request c r in
    if existsb (fun e => match e with InvalidCommand | CommandPanic => true | _ => false end) ev then (c, ev) else
    let '(c, ev') := handleRequests c l in (c, ev ++ ev')
  end.
End gateway.
