(* ===== verification/GatewayKill.v ===== *)
(** * Ending sessions of a suspended deployment (internal/gateway: killswitch.go,
      lifecycle.go, the delivery of sqlitebackend.go, the life of a session in session.go;
      internal/backoff)

    A suspension is committed by the repository, whose listener hands it to the kill switch:
    the sessions of the deployment are cancelled and waited for. Suspensions that cannot be
    delivered are kept and tried again by a timer. Sessions start and end meanwhile.

    The state is what the mutexes guard; a step is one critical section, the start or the
    firing of a timer, one call of a cancel function, or a call of the repository. A label
    says which goroutine makes the step, so a sequence of labels is an interleaving. *)

From stdpp Require Import list gmap.
From S2P Require Import Prelude.

Module killswitch.

(** ** internal/backoff *)

Fixpoint grow (attempt : nat) (max delay : Z) : Z :=
  match attempt with
  | O => delay
  | S attempt => let delay := delay * 2 in if max <=? delay then delay else grow attempt max delay
  end.
(** [jitter] is what rand.Int64N draws. *)
Definition Delay (attempt : nat) (base max jitter : Z) : Z :=
  let base := if base <=? 0 then 1000000 else base in
  let delay := grow attempt max base in
  let delay := if (delay <=? 0) || (max <? delay) then max else delay in
  if 0 <? delay ÷ 2 then delay + jitter else delay.

Definition maxPendingSuspensions : Z := 64.
Definition suspensionRetryBase : Z := 500000000.
Definition suspensionRetryMax : Z := 30000000000.

(** ** The registry of sessions *)

Inductive KillScope := KillApp | KillOwner | KillDeploy.
#[global] Instance KillScope_eq_dec : EqDecision KillScope.
Proof. solve_decision. Defined.
Record Suspension := mkSuspension { sp_Scope : KillScope; sp_ID : bytes }.
#[global] Instance Suspension_eq_dec : EqDecision Suspension.
Proof. solve_decision. Defined.

(** The cancel function is the membership in [cancelled] below, and the channel is closed when
    the session leaves the registry: no identifier is drawn twice. *)
Record sessionEntry := mkEntry { se_owner : bytes; se_app : bytes; se_deploy : bytes }.
Definition in_scope (e : Suspension) (s : sessionEntry) : bool :=
  match sp_Scope e with
  | KillApp => bool_decide (se_app s = sp_ID e)
  | KillOwner => bool_decide (se_owner s = sp_ID e)
  | KillDeploy => bool_decide (se_deploy s = sp_ID e)
  end.
Definition matching (r : gmap bytes sessionEntry) (e : Suspension) : list bytes :=
  map fst (filter (fun kv => in_scope e kv.2 = true) (map_to_list r)).

(** ** The backend *)

(** A suspension with the commits it stands for, which only the proofs look at. *)
Record Item := mkItem { it_event : Suspension; it_commits : list nat }.
Record Backend := mkBackend {
  bk_watch : bool;                                       (* the kill switch is registered *)
  bk_pending : list Item;
  bk_retry : option nat;                                 (* the timer *)
  bk_retryAttempts : nat;
  bk_timers : gmap nat Z;                                (* the timers that are running *)
  bk_next_timer : nat;
  bk_dropped : list nat }.                               (* the commits given up *)
Definition with_pending (b : Backend) (l : list Item) : Backend :=
  mkBackend (bk_watch b) l (bk_retry b) (bk_retryAttempts b) (bk_timers b) (bk_next_timer b) (bk_dropped b).

(** A later event of the same kind is not queued again. *)
Fixpoint coalesce (it : Item) (l : list Item) : option (list Item) :=
  match l with
  | [] => None
  | x :: l =>
    if bool_decide (it_event x = it_event it) then Some (mkItem (it_event x) (it_commits x ++ it_commits it) :: l)
    else option_map (cons x) (coalesce it l)
  end.
Definition enqueueLocked (b : Backend) (it : Item) : Backend :=
  match coalesce it (bk_pending b) with
  | Some l => with_pending b l
  | None =>
    let '(l, lost) := match bk_pending b with
                      | x :: l => if maxPendingSuspensions <=? len (bk_pending b) then (l, it_commits x) else (x :: l, [])
                      | [] => ([], [])
                      end in
    mkBackend (bk_watch b) (l ++ [it]) (bk_retry b) (bk_retryAttempts b) (bk_timers b) (bk_next_timer b) (bk_dropped b ++ lost)
  end.
Definition scheduleRetryLocked (b : Backend) (jitter : Z) : Backend :=
  let delay := Delay (bk_retryAttempts b) suspensionRetryBase suspensionRetryMax jitter in
  match bk_retry b with
  | None => mkBackend (bk_watch b) (bk_pending b) (Some (bk_next_timer b)) (S (bk_retryAttempts b)) (<[bk_next_timer b := delay]> (bk_timers b))
              (S (bk_next_timer b)) (bk_dropped b)
  | Some t => mkBackend (bk_watch b) (bk_pending b) (Some t) (S (bk_retryAttempts b)) (<[t := delay]> (bk_timers b)) (bk_next_timer b) (bk_dropped b)
  end.
Definition requeue (b : Backend) (it : Item) (jitter : Z) : Backend := scheduleRetryLocked (enqueueLocked b it) jitter.
Definition stop_timer (b : Backend) (t : option nat) : Backend :=
  match t with
  | Some t => mkBackend (bk_watch b) (bk_pending b) (bk_retry b) (bk_retryAttempts b) (delete t (bk_timers b)) (bk_next_timer b) (bk_dropped b)
  | None => b
  end.
(** What [StartSuspensionWatcher] and [flushPending] take under the lock. *)
Definition take_watcher (b : Backend) : Backend :=
  mkBackend true [] None 0 (bk_timers b) (bk_next_timer b) (bk_dropped b).
Definition take_flush (b : Backend) : Backend :=
  mkBackend (bk_watch b) [] None (bk_retryAttempts b) (bk_timers b) (bk_next_timer b) (bk_dropped b).
Definition reset_attempts (b : Backend) : Backend :=
  mkBackend (bk_watch b) (bk_pending b) (bk_retry b) 0 (bk_timers b) (bk_next_timer b) (bk_dropped b).
(** The end of a pass of [flushPending]. *)
Definition flush_end (b : Backend) (failed : list Item) (jitter : Z) : Backend :=
  match failed with
  | [] => reset_attempts b
  | _ => scheduleRetryLocked (with_pending b (failed ++ bk_pending b)) jitter
  end.

(** ** Goroutines and sessions *)

Inductive Kind := KCommitted | KWatcher | KFlush.
Inductive Proc :=
| PCommit (it : Item)                                    (* [committed], before it takes the lock *)
| PStop (timer : option nat) (todo : list Item)          (* [StartSuspensionWatcher], before timer.Stop *)
| PFlush                                                 (* [flushPending], before it takes the lock *)
| PPass (k : Kind) (todo failed : list Item)             (* between two deliveries *)
| PWait (k : Kind) (it : Item) (found to_cancel : list bytes) (todo failed : list Item). (* in [killAndWait] *)

(** A session, from the slot it takes to the slot it gives back. *)
Inductive Phase :=
| Slotted                                                (* in [resolveRunnable] *)
| Resolved (e : sessionEntry)                            (* in [startAccountedSession] *)
| Accounted (e : sessionEntry)                           (* recorded, not yet in the registry *)
| Registered (e : sessionEntry)                          (* in the registry; the guest runs *)
| Left.                                                  (* about to give the slot back *)

Record St := mkSt {
  st_b : Backend; st_procs : gmap nat Proc; st_next : nat;
  st_slots : Z; st_threads : gmap bytes Phase; st_used : gset bytes;
  st_registry : gmap bytes sessionEntry; st_cancelled : gset bytes;
  st_suspended : gset bytes;                             (* suspended_deployments *)
  st_commits : nat; st_acked : list nat }.               (* commits made and acknowledged *)
Definition init : St := mkSt (mkBackend false [] None 0 ∅ 0 []) ∅ 0 0 ∅ ∅ ∅ ∅ ∅ 0 [].

Definition set_b (s : St) (b : Backend) : St :=
  mkSt b (st_procs s) (st_next s) (st_slots s) (st_threads s) (st_used s) (st_registry s) (st_cancelled s) (st_suspended s) (st_commits s) (st_acked s).
Definition set_proc (s : St) (p : nat) (o : option Proc) : St :=
  mkSt (st_b s) (match o with Some x => <[p := x]> (st_procs s) | None => delete p (st_procs s) end) (st_next s) (st_slots s) (st_threads s) (st_used s)
    (st_registry s) (st_cancelled s) (st_suspended s) (st_commits s) (st_acked s).
Definition spawn (s : St) (x : Proc) : St :=
  mkSt (st_b s) (<[st_next s := x]> (st_procs s)) (S (st_next s)) (st_slots s) (st_threads s) (st_used s)
    (st_registry s) (st_cancelled s) (st_suspended s) (st_commits s) (st_acked s).
Definition set_thread (s : St) (sid : bytes) (o : option Phase) : St :=
  mkSt (st_b s) (st_procs s) (st_next s) (st_slots s) (match o with Some x => <[sid := x]> (st_threads s) | None => delete sid (st_threads s) end) (st_used s)
    (st_registry s) (st_cancelled s) (st_suspended s) (st_commits s) (st_acked s).
Definition set_slots (s : St) (n : Z) : St :=
  mkSt (st_b s) (st_procs s) (st_next s) n (st_threads s) (st_used s) (st_registry s) (st_cancelled s) (st_suspended s) (st_commits s) (st_acked s).
Definition set_registry (s : St) (r : gmap bytes sessionEntry) : St :=
  mkSt (st_b s) (st_procs s) (st_next s) (st_slots s) (st_threads s) (st_used s) r (st_cancelled s) (st_suspended s) (st_commits s) (st_acked s).
Definition add (s : St) (sid : bytes) (e : sessionEntry) : St := set_registry s (<[sid := e]> (st_registry s)).
Definition remove (s : St) (sid : bytes) : St := set_registry s (delete sid (st_registry s)).
Definition cancel (s : St) (sid : bytes) : St :=
  mkSt (st_b s) (st_procs s) (st_next s) (st_slots s) (st_threads s) (st_used s) (st_registry s) ({[ sid ]} ∪ st_cancelled s) (st_suspended s) (st_commits s) (st_acked s).
Definition use (s : St) (sid : bytes) : St :=
  mkSt (st_b s) (st_procs s) (st_next s) (st_slots s) (st_threads s) ({[ sid ]} ∪ st_used s) (st_registry s) (st_cancelled s) (st_suspended s) (st_commits s) (st_acked s).
(** The acknowledgement of a delivery. *)
Definition ack (s : St) (it : Item) : St :=
  mkSt (st_b s) (st_procs s) (st_next s) (st_slots s) (st_threads s) (st_used s) (st_registry s) (st_cancelled s) (st_suspended s) (st_commits s) (st_acked s ++ it_commits it).
(** The transaction of SetDeploymentSuspended commits, and its listener is called. *)
Definition commit (s : St) (d : bytes) (on : bool) : St :=
  spawn (mkSt (st_b s) (st_procs s) (st_next s) (st_slots s) (st_threads s) (st_used s) (st_registry s) (st_cancelled s)
           (if on then {[ d ]} ∪ st_suspended s else st_suspended s ∖ {[ d ]}) (S (st_commits s)) (st_acked s))
    (PCommit (mkItem (mkSuspension KillDeploy d) [st_commits s])).

(** The counting semaphore of the server; 0 is no limit. *)
Definition acquireSlot (max n : Z) : option Z := if max <=? 0 then Some n else if n <? max then Some (n + 1) else None.
Definition releaseSlot (max n : Z) : Z := if max <=? 0 then n else if 0 <? n then n - 1 else n.

Inductive Label :=
| LSuspend (d : bytes) | LResume (d : bytes)
| LCommitted (p : nat) | LWatch | LStop (p : nat) | LFire (t : nat) | LFlush (p : nat)
| LMatch (p : nat) | LCancel (p : nat) | LAck (p : nat) | LError (p : nat) (jitter : Z) | LEnd (p : nat) (jitter : Z)
| LAcquire (sid : bytes) | LResolve (sid : bytes) (e : sessionEntry) | LAccount (sid : bytes) | LRefuse (sid : bytes)
| LRegister (sid : bytes) | LUnregister (sid : bytes) | LRelease (sid : bytes).

(** A delivery failed. *)
Definition delivery_failed (s : St) (p : nat) (k : Kind) (it : Item) (todo failed : list Item) (jitter : Z) : St :=
  match k with
  | KFlush => set_proc s p (Some (PPass k todo (failed ++ [it])))
  | _ => set_proc (set_b s (requeue (st_b s) it jitter)) p (Some (PPass k todo failed))
  end.

Definition step (max : Z) (l : Label) (s : St) : option St :=
  match l with
  | LSuspend d => Some (commit s d true)
  | LResume d => Some (commit s d false)
  | LCommitted p =>
    match st_procs s !! p with
    | Some (PCommit it) =>
      if bk_watch (st_b s) then Some (set_proc s p (Some (PPass KCommitted [it] [])))
      else Some (set_proc (set_b s (enqueueLocked (st_b s) it)) p None)
    | _ => None
    end
  | LWatch => Some (spawn (set_b s (take_watcher (st_b s))) (PStop (bk_retry (st_b s)) (bk_pending (st_b s))))
  | LStop p =>
    match st_procs s !! p with
    | Some (PStop t todo) => Some (set_proc (set_b s (stop_timer (st_b s) t)) p (Some (PPass KWatcher todo [])))
    | _ => None
    end
  | LFire t =>
    match bk_timers (st_b s) !! t with
    | Some _ => Some (spawn (set_b s (stop_timer (st_b s) (Some t))) PFlush)
    | None => None
    end
  | LFlush p =>
    match st_procs s !! p with
    | Some PFlush =>
      let pending := bk_pending (st_b s) in
      let s1 := set_b s (take_flush (st_b s)) in
      if bk_watch (st_b s) && negb (bool_decide (pending = [])) then Some (set_proc s1 p (Some (PPass KFlush pending [])))
      else Some (set_proc s1 p None)
    | _ => None
    end
  | LMatch p =>
    match st_procs s !! p with
    | Some (PPass k (it :: todo) failed) =>
      if bk_watch (st_b s) then
        let found := matching (st_registry s) (it_event it) in Some (set_proc s p (Some (PWait k it found found todo failed)))
      else None
    | _ => None
    end
  | LCancel p =>
    match st_procs s !! p with
    | Some (PWait k it found (sid :: l) todo failed) => Some (set_proc (cancel s sid) p (Some (PWait k it found l todo failed)))
    | _ => None
    end
  | LAck p =>
    match st_procs s !! p with
    | Some (PWait k it found [] todo failed) =>
      if forallb (fun sid => match st_registry s !! sid with None => true | Some _ => false end) found
      then Some (set_proc (ack s it) p (Some (PPass k todo failed))) else None
    | _ => None
    end
  | LError p jitter =>
    match st_procs s !! p with
    | Some (PWait k it _ [] todo failed) => Some (delivery_failed s p k it todo failed jitter)
    | Some (PPass k (it :: todo) failed) => if bk_watch (st_b s) then None else Some (delivery_failed s p k it todo failed jitter)
    | _ => None
    end
  | LEnd p jitter =>
    match st_procs s !! p with
    | Some (PPass KFlush [] failed) => Some (set_proc (set_b s (flush_end (st_b s) failed jitter)) p None)
    | Some (PPass _ [] _) => Some (set_proc s p None)
    | _ => None
    end
  | LAcquire sid =>
    if bool_decide (sid ∈ st_used s) then None else
    match acquireSlot max (st_slots s) with
    | Some n => Some (use (set_thread (set_slots s n) sid (Some Slotted)) sid)
    | None => None
    end
  | LResolve sid e =>
    match st_threads s !! sid with
    | Some Slotted => if bool_decide (se_deploy e ∈ st_suspended s) then None else Some (set_thread s sid (Some (Resolved e)))
    | _ => None
    end
  | LAccount sid =>
    match st_threads s !! sid with
    | Some (Resolved e) => if bool_decide (se_deploy e ∈ st_suspended s) then None else Some (set_thread s sid (Some (Accounted e)))
    | _ => None
    end
  | LRefuse sid =>
    match st_threads s !! sid with
    | Some Slotted | Some (Resolved _) => Some (set_thread s sid (Some Left))
    | _ => None
    end
  | LRegister sid =>
    match st_threads s !! sid with
    | Some (Accounted e) => Some (add (set_thread s sid (Some (Registered e))) sid e)
    | _ => None
    end
  | LUnregister sid =>
    match st_threads s !! sid with
    | Some (Registered _) => Some (remove (set_thread s sid (Some Left)) sid)
    | _ => None
    end
  | LRelease sid =>
    match st_threads s !! sid with
    | Some Left => Some (set_thread (set_slots s (releaseSlot max (st_slots s))) sid None)
    | _ => None
    end
  end.
Fixpoint steps (max : Z) (ls : list Label) (s : St) : option St :=
  match ls with
  | [] => Some s
  | l :: ls => match step max l s with Some s => steps max ls s | None => None end
  end.

(** ** What stays true *)

Ltac step_cases H := unfold step in H; repeat case_match; simplify_eq; cbn in *.

(** *** Slots, sessions and the registry *)

Record sessions_ok (max : Z) (s : St) : Prop := {
  so_slots : 0 < max -> st_slots s = Z.of_nat (size (st_threads s)) /\ st_slots s <= max;
  so_used : forall sid, st_threads s !! sid <> None -> sid ∈ st_used s;
  so_registry : forall sid e, st_registry s !! sid = Some e <-> st_threads s !! sid = Some (Registered e) }.

(** A session that goes on to another phase. *)
Lemma sessions_phase max s sid x y r : sessions_ok max s -> st_threads s !! sid = Some x ->
  (forall i e, r !! i = Some e <-> <[sid := y]> (st_threads s) !! i = Some (Registered e)) ->
  sessions_ok max (set_registry (set_thread s sid (Some y)) r).
Proof.
  intros [Hs Hu _] Hx Hr. constructor; cbn; [|intros i Hi; apply Hu|done].
  - intros Hm. rewrite map_size_insert_Some by by eexists. by apply Hs.
  - destruct (decide (i = sid)) as [->|Hne]; [congruence|]. by rewrite lookup_insert_ne in Hi.
Qed.
Lemma registry_same max s sid x y : sessions_ok max s -> st_threads s !! sid = Some x -> (forall e, x <> Registered e) -> (forall e, y <> Registered e) ->
  forall i e, st_registry s !! i = Some e <-> <[sid := y]> (st_threads s) !! i = Some (Registered e).
Proof.
  intros Hok Hx Hn Hy i e. rewrite (so_registry _ _ Hok). destruct (decide (i = sid)) as [->|Hne]; [|by rewrite lookup_insert_ne].
  rewrite lookup_insert_eq, Hx. split; intros [= E]; [by destruct (Hn e)|by destruct (Hy e)].
Qed.
Lemma set_registry_id s sid o : set_registry (set_thread s sid o) (st_registry s) = set_thread s sid o.
Proof. done. Qed.
Lemma sessions_same max s s' : st_slots s' = st_slots s -> st_threads s' = st_threads s -> st_used s' = st_used s -> st_registry s' = st_registry s ->
  sessions_ok max s -> sessions_ok max s'.
Proof. intros E1 E2 E3 E4 [H1 H2 H3]. constructor; rewrite ?E1, ?E2, ?E3, ?E4; done. Qed.

Lemma acquire_ok max s sid n : sid ∉ st_used s -> acquireSlot max (st_slots s) = Some n -> sessions_ok max s ->
  sessions_ok max (use (set_thread (set_slots s n) sid (Some Slotted)) sid).
Proof.
  intros Hn Ha [Hs Hu Hr]. assert (Hx : st_threads s !! sid = None) by (destruct (st_threads s !! sid) eqn:E; [|done]; by destruct Hn; apply Hu; congruence).
  constructor; cbn.
  - intros Hm. destruct (Hs Hm) as [E Hle]. unfold acquireSlot in Ha. destruct (max <=? 0) eqn:?; [lia|]. destruct (st_slots s <? max) eqn:?; [|done].
    injection Ha as <-. rewrite map_size_insert_None by done. lia.
  - intros i Hi. destruct (decide (i = sid)) as [->|Hne]; [by apply elem_of_union_l, elem_of_singleton|]. rewrite lookup_insert_ne in Hi by done. apply elem_of_union_r. by apply Hu.
  - intros i e. rewrite Hr. destruct (decide (i = sid)) as [->|Hne]; [|by rewrite lookup_insert_ne]. by rewrite lookup_insert_eq, Hx.
Qed.
Lemma release_ok max s sid : st_threads s !! sid = Some Left -> sessions_ok max s -> sessions_ok max (set_thread (set_slots s (releaseSlot max (st_slots s))) sid None).
Proof.
  intros Hx [Hs Hu Hr]. constructor; cbn.
  - intros Hm. destruct (Hs Hm) as [E Hle]. unfold releaseSlot. destruct (max <=? 0) eqn:?; [lia|]. rewrite map_size_delete_Some by by eexists.
    assert (0 < size (st_threads s))%nat by (destruct (size (st_threads s)) eqn:E0; [apply map_size_empty_inv in E0; by rewrite E0 in Hx|lia]).
    destruct (0 <? st_slots s) eqn:?; lia.
  - intros i Hi. apply Hu. destruct (decide (i = sid)) as [->|Hne]; [by rewrite lookup_delete_eq in Hi|]. by rewrite lookup_delete_ne in Hi.
  - intros i e. rewrite Hr. destruct (decide (i = sid)) as [->|Hne]; [by rewrite lookup_delete_eq, Hx|]. by rewrite lookup_delete_ne.
Qed.
Lemma delivery_failed_sessions s p k it todo failed j : let s' := delivery_failed s p k it todo failed j in
  st_slots s' = st_slots s /\ st_threads s' = st_threads s /\ st_used s' = st_used s /\ st_registry s' = st_registry s /\ st_suspended s' = st_suspended s.
Proof. by destruct k. Qed.

Lemma step_sessions max l s s' : step max l s = Some s' -> sessions_ok max s -> sessions_ok max s'.
Proof.
  intros Hst Hok. destruct l; try (by step_cases Hst; apply (sessions_same max s)).
  - step_cases Hst; apply (sessions_same max s); try done; unfold delivery_failed; by repeat case_match.
  - step_cases Hst. apply acquire_ok; [by eapply bool_decide_eq_false_1|done|done].
  - step_cases Hst. rewrite <- set_registry_id. eapply sessions_phase; [done|done|]. by eapply registry_same.
  - step_cases Hst. rewrite <- set_registry_id. eapply sessions_phase; [done|done|]. by eapply registry_same.
  - step_cases Hst; rewrite <- set_registry_id; (eapply sessions_phase; [done|done|]); by eapply registry_same.
  - step_cases Hst. unfold add. eapply sessions_phase; [done|done|]. intros i e'. destruct (decide (i = sid)) as [->|Hne].
    + rewrite !lookup_insert_eq. split; intros [= ->]; done.
    + cbn. rewrite !lookup_insert_ne by done. apply (so_registry _ _ Hok).
  - step_cases Hst. unfold remove. eapply sessions_phase; [done|done|]. intros i e'. destruct (decide (i = sid)) as [->|Hne].
    + cbn. rewrite lookup_delete_eq, lookup_insert_eq. done.
    + cbn. rewrite lookup_delete_ne, lookup_insert_ne by done. apply (so_registry _ _ Hok).
  - step_cases Hst. by apply release_ok.
Qed.

(** *** No suspension is lost *)

Definition items (x : Proc) : list Item :=
  match x with
  | PCommit it => [it]
  | PStop _ todo => todo
  | PFlush => []
  | PPass _ todo failed => todo ++ failed
  | PWait _ it _ _ todo failed => it :: todo ++ failed
  end.
(** The commit [t] is among those that the queue or goroutine still has to deliver. *)
Definition owes (l : list Item) (t : nat) : Prop := exists it, it ∈ l /\ t ∈ it_commits it.
Definition outstanding (s : St) (t : nat) : Prop := owes (bk_pending (st_b s)) t \/ exists p x, st_procs s !! p = Some x /\ owes (items x) t.
Definition tracked (s : St) (t : nat) : Prop := t ∈ st_acked s \/ t ∈ bk_dropped (st_b s) \/ outstanding s t.

Lemma owes_app l1 l2 t : owes (l1 ++ l2) t <-> owes l1 t \/ owes l2 t.
Proof. unfold owes. set_solver. Qed.
Lemma owes_cons it l t : owes (it :: l) t <-> t ∈ it_commits it \/ owes l t.
Proof. unfold owes. set_solver. Qed.
Lemma owes_nil t : ~ owes [] t.
Proof. intros (it & Hin & _). by apply elem_of_nil in Hin. Qed.
Lemma coalesce_owes it l l' t : coalesce it l = Some l' -> owes (it :: l) t -> owes l' t.
Proof.
  revert l'. induction l as [|x l IH]; intros l'; cbn; [done|]. rewrite !owes_cons. case_bool_decide.
  - intros [= <-]. rewrite owes_cons. cbn. rewrite elem_of_app. tauto.
  - destruct (coalesce it l) as [l1|]; [|done]. cbn. intros [= <-]. rewrite owes_cons. specialize (IH l1 eq_refl). rewrite owes_cons in IH. tauto.
Qed.
Lemma enqueue_owes b it t : owes (it :: bk_pending b) t \/ t ∈ bk_dropped b ->
  owes (bk_pending (enqueueLocked b it)) t \/ t ∈ bk_dropped (enqueueLocked b it).
Proof.
  unfold enqueueLocked. destruct (coalesce it (bk_pending b)) as [l|] eqn:Hc; [intros [Ho|Hd]; [left; by eapply coalesce_owes|by right]|].
  destruct (bk_pending b) as [|x l]; [|destruct (_ <=? _)]; cbn; rewrite !owes_cons, ?owes_app, ?owes_cons, ?elem_of_app, ?elem_of_nil; pose proof (owes_nil t); tauto.
Qed.
Lemma schedule_pending b j : bk_pending (scheduleRetryLocked b j) = bk_pending b /\ bk_dropped (scheduleRetryLocked b j) = bk_dropped b.
Proof. unfold scheduleRetryLocked. by destruct (bk_retry b). Qed.

(** The goroutine [p] goes on as [o]. *)
Definition set_procs (m : gmap nat Proc) (p : nat) (o : option Proc) : gmap nat Proc := match o with Some y => <[p := y]> m | None => delete p m end.
Lemma set_procs_lookup m p o q x : set_procs m p o !! q = Some x <-> (q = p /\ o = Some x) \/ (q <> p /\ m !! q = Some x).
Proof.
  destruct o as [y|]; cbn.
  - rewrite lookup_insert_Some. naive_solver.
  - rewrite lookup_delete_Some. naive_solver.
Qed.
Lemma tracked_proc s s' p x o t : st_procs s !! p = Some x -> st_procs s' = set_procs (st_procs s) p o -> (t ∈ st_acked s -> t ∈ st_acked s') ->
  (t ∈ bk_dropped (st_b s) -> t ∈ bk_dropped (st_b s')) -> (owes (bk_pending (st_b s)) t -> tracked s' t) -> (owes (items x) t -> tracked s' t) ->
  tracked s t -> tracked s' t.
Proof.
  intros Hx Hp Ha Hd Hpend Hit [H|[H|[H|(q & y & Hq & H)]]].
  - left. by apply Ha.
  - right; left. by apply Hd.
  - by apply Hpend.
  - destruct (decide (q = p)) as [->|Hne]; [apply Hit; congruence|]. right; right; right. exists q, y. split; [|done].
    rewrite Hp. apply set_procs_lookup. by right.
Qed.
Lemma tracked_pending s t : owes (bk_pending (st_b s)) t -> tracked s t.
Proof. intros H. by right; right; left. Qed.
Lemma tracked_items s p x t : st_procs s !! p = Some x -> owes (items x) t -> tracked s t.
Proof. intros H1 H2. right; right; right. by exists p, x. Qed.

Ltac still_pending := let HK := fresh in intros HK; apply tracked_pending; exact HK.

(** *** The queue and its timer *)

Definition stopping (s : St) (t : nat) : Prop := exists p todo, st_procs s !! p = Some (PStop (Some t) todo).
Definition about_to_flush (s : St) : Prop := exists p, st_procs s !! p = Some PFlush.
Definition armed (s : St) (t : nat) : Prop := is_Some (bk_timers (st_b s) !! t).
Definition passes_ok (x : Proc) : Prop :=
  match x with PPass k _ failed | PWait k _ _ _ _ failed => k = KFlush \/ failed = [] | _ => True end.
Record backend_ok (s : St) : Prop := {
  bo_next : forall p x, st_procs s !! p = Some x -> (p < st_next s)%nat /\ passes_ok x;
  bo_timers : forall t, armed s t \/ stopping s t \/ bk_retry (st_b s) = Some t -> (t < bk_next_timer (st_b s))%nat;
  bo_retry : forall t, bk_retry (st_b s) = Some t -> ~ stopping s t;
  bo_off : bk_watch (st_b s) = false -> bk_retry (st_b s) = None /\ (forall t, ~ armed s t) /\ forall p x, st_procs s !! p = Some x -> exists it, x = PCommit it;
  bo_live : bk_watch (st_b s) = true -> bk_pending (st_b s) <> [] -> (exists t, armed s t /\ ~ stopping s t) \/ about_to_flush s }.

Lemma tracked_spawn s s' x t : backend_ok s -> st_procs s' = <[st_next s := x]> (st_procs s) -> st_acked s' = st_acked s ->
  bk_dropped (st_b s') = bk_dropped (st_b s) -> (owes (bk_pending (st_b s)) t -> tracked s' t) -> tracked s t -> tracked s' t.
Proof.
  intros Hb Hp Ha Hd Hpend [H|[H|[H|(q & y & Hq & H)]]]; [left; by rewrite Ha|right; left; by rewrite Hd|by apply Hpend|].
  right; right; right. exists q, y. split; [|done]. rewrite Hp, lookup_insert_ne; [done|]. intros <-. destruct (bo_next _ Hb _ _ Hq). lia.
Qed.
Lemma tracked_same s s' t : st_procs s' = st_procs s -> st_acked s' = st_acked s -> st_b s' = st_b s -> tracked s t -> tracked s' t.
Proof. intros E1 E2 E3. unfold tracked, outstanding. by rewrite E1, E2, E3. Qed.

Lemma delivery_failed_tracked s p k it todo failed x j t : st_procs s !! p = Some x -> items x = it :: todo ++ failed ->
  tracked s t -> tracked (delivery_failed s p k it todo failed j) t.
Proof.
  intros Hx Hi. unfold delivery_failed.
  assert (Hq : k <> KFlush -> tracked s t -> tracked (set_proc (set_b s (requeue (st_b s) it j)) p (Some (PPass k todo failed))) t).
  { intros _. set (s' := set_proc _ _ _). destruct (schedule_pending (enqueueLocked (st_b s) it) j) as [Ep Ed].
    assert (Ho : owes (it :: bk_pending (st_b s)) t \/ t ∈ bk_dropped (st_b s) -> tracked s' t).
    { intros H. destruct (enqueue_owes _ _ _ H) as [H1|H1]; [apply tracked_pending|right; left]; cbn; unfold requeue; congruence. }
    intros [H|[H|[H|(q & y & Hq & H)]]].
    - by left.
    - apply Ho. by right.
    - apply Ho. left. apply owes_cons. by right.
    - destruct (decide (q = p)) as [->|Hne].
      + assert (y = x) as -> by congruence. rewrite Hi, owes_cons in H. destruct H as [H|H]; [apply Ho; left; apply owes_cons; by left|].
        apply (tracked_items _ p (PPass k todo failed)); [apply lookup_insert_eq|done].
      + apply (tracked_items _ q y); [unfold s'; cbn; by rewrite lookup_insert_ne|done]. }
  destruct k; [by apply Hq|by apply Hq|]. apply (tracked_proc s _ p x (Some (PPass KFlush todo (failed ++ [it]))) t); try done.
  - still_pending.
  - rewrite Hi. intros H. apply (tracked_items _ p (PPass KFlush todo (failed ++ [it]))); [apply lookup_insert_eq|].
    revert H. cbn. rewrite owes_cons, !owes_app, owes_cons. tauto.
Qed.

Lemma step_tracked max l s s' t : step max l s = Some s' -> backend_ok s -> tracked s t -> tracked s' t.
Proof.
  intros Hst Hb. destruct l; try (by step_cases Hst; apply tracked_same).
  - step_cases Hst. eapply (tracked_spawn s); [done|reflexivity|done|done|still_pending].
  - step_cases Hst. eapply (tracked_spawn s); [done|reflexivity|done|done|still_pending].
  - step_cases Hst.
    + apply (tracked_proc s _ p (PCommit it) (Some (PPass KCommitted [it] [])) t); try done; [still_pending|].
      intros HH. apply (tracked_items _ p (PPass KCommitted [it] [])); [apply lookup_insert_eq|done].
    + set (s' := set_proc _ _ _). assert (Ho : owes (it :: bk_pending (st_b s)) t \/ t ∈ bk_dropped (st_b s) -> tracked s' t).
      { intros HH. destruct (enqueue_owes _ _ _ HH) as [HH1|HH1]; [by apply tracked_pending|by right; left]. }
      intros [HH|[HH|[HH|(q & y & Hq & HH)]]]; [by left|apply Ho; by right|apply Ho; left; apply owes_cons; by right|].
      destruct (decide (q = p)) as [->|Hne].
      * assert (y = PCommit it) as -> by congruence. apply Ho. left. apply owes_cons. left. cbn in HH. by apply owes_cons in HH as [HH|HH%owes_nil].
      * eapply tracked_items; [|exact HH]. unfold s'. cbn. by rewrite lookup_delete_ne.
  - step_cases Hst. apply (tracked_spawn s _ (PStop (bk_retry (st_b s)) (bk_pending (st_b s))) t Hb); try done.
    intros H. apply (tracked_items _ (st_next s) (PStop (bk_retry (st_b s)) (bk_pending (st_b s)))); [apply lookup_insert_eq|done].
  - step_cases Hst. apply (tracked_proc s _ p (PStop timer todo) (Some (PPass KWatcher todo [])) t); try (by destruct timer); [intros HH; apply tracked_pending; by destruct timer|].
    + intros HH. apply (tracked_items _ p (PPass KWatcher todo [])); [apply lookup_insert_eq|cbn; rewrite ?app_nil_r; exact HH].
  - step_cases Hst. apply (tracked_spawn s _ PFlush t Hb); try done. still_pending.
  - step_cases Hst.
    + apply (tracked_proc s _ p PFlush (Some (PPass KFlush (bk_pending (st_b s)) [])) t); try done; [|by intros ?%owes_nil].
      intros HH. apply (tracked_items _ p (PPass KFlush (bk_pending (st_b s)) [])); [apply lookup_insert_eq|cbn; rewrite ?app_nil_r; exact HH].
    + apply (tracked_proc s _ p PFlush None t); try done; [|by intros ?%owes_nil]. intros HH. exfalso.
      destruct (bk_watch (st_b s)) eqn:Hw; [|by destruct (bo_off _ Hb Hw) as (_ & _ & Hp); destruct (Hp p PFlush) as [? ?]].
      destruct (bk_pending (st_b s)); [by apply owes_nil in HH|done].
  - step_cases Hst. eapply (tracked_proc s _ p _ (Some _)); [eassumption|reflexivity|done|done|still_pending|].
    intros HH. eapply tracked_items; [apply lookup_insert_eq|exact HH].
  - step_cases Hst. eapply (tracked_proc s _ p _ (Some _)); [eassumption|reflexivity|done|done|still_pending|].
    intros HH. eapply tracked_items; [apply lookup_insert_eq|exact HH].
  - step_cases Hst. eapply (tracked_proc s _ p _ (Some _)); [eassumption|reflexivity|cbn; rewrite elem_of_app; by left|done|still_pending|].
    cbn. rewrite owes_cons. intros [HH|HH]; [left; cbn; rewrite elem_of_app; by right|]. eapply tracked_items; [apply lookup_insert_eq|exact HH].
  - step_cases Hst; eapply delivery_failed_tracked; done.
  - assert (Hend : forall k failed, st_procs s !! p = Some (PPass k [] failed) -> failed = [] -> tracked s t -> tracked (set_proc s p None) t).
    { intros k failed Hx ->. eapply (tracked_proc s _ p _ None); [exact Hx|reflexivity|done|done|still_pending|by intros ?%owes_nil]. }
    step_cases Hst; try (destruct (bo_next _ Hb p _ ltac:(eassumption)) as [_ [?|?]]; [done|]; by eapply Hend).
    assert (Hf : bk_dropped (flush_end (st_b s) failed jitter) = bk_dropped (st_b s) /\ (owes (failed ++ bk_pending (st_b s)) t -> owes (bk_pending (flush_end (st_b s) failed jitter)) t)).
    { unfold flush_end. destruct failed; [done|]. destruct (schedule_pending (with_pending (st_b s) ((i :: failed) ++ bk_pending (st_b s))) jitter) as [-> ->]. done. }
    destruct Hf as [Hd Ho]. eapply (tracked_proc s _ p _ None); [eassumption|reflexivity|done|cbn; by rewrite Hd|..]; intros HH; apply tracked_pending, Ho, owes_app; auto.
Qed.

Definition no_stop (x : Proc) : Prop := forall t todo, x <> PStop t todo.
Lemma stopping_set s s' p o t : st_procs s' = set_procs (st_procs s) p o -> (forall y, o = Some y -> no_stop y) -> stopping s' t -> stopping s t.
Proof.
  intros Hp Ho (q & todo & Hq). rewrite Hp in Hq. apply set_procs_lookup in Hq as [[-> E]|[_ Hq]]; [by destruct (Ho _ E (Some t) todo)|by exists q, todo].
Qed.
Lemma flush_set s s' p x o : st_procs s !! p = Some x -> x <> PFlush -> st_procs s' = set_procs (st_procs s) p o -> about_to_flush s -> about_to_flush s'.
Proof. intros Hx Hn Hp (q & Hq). exists q. rewrite Hp. apply set_procs_lookup. right. split; [congruence|done]. Qed.
Lemma next_set s s' p x o : backend_ok s -> st_procs s !! p = Some x -> st_procs s' = set_procs (st_procs s) p o -> st_next s' = st_next s ->
  (forall y, o = Some y -> passes_ok y) -> forall q y, st_procs s' !! q = Some y -> (q < st_next s')%nat /\ passes_ok y.
Proof.
  intros Hb Hx Hp Hn Ho q y Hq. rewrite Hp in Hq. rewrite Hn. apply set_procs_lookup in Hq as [[-> E]|[_ Hq]]; [|by apply (bo_next _ Hb)].
  split; [by apply (bo_next _ Hb _ _ Hx)|by apply Ho].
Qed.

(** What the queue and its timer are, apart from the number of attempts and what was dropped. *)
Definition queue (b : Backend) := (bk_watch b, bk_pending b, bk_retry b, bk_timers b, bk_next_timer b).
Lemma ok_proc s s' p x o : backend_ok s -> st_procs s !! p = Some x -> st_procs s' = set_procs (st_procs s) p o -> st_next s' = st_next s ->
  queue (st_b s') = queue (st_b s) -> (forall y, o = Some y -> passes_ok y /\ no_stop y) -> x <> PFlush -> bk_watch (st_b s) = true -> backend_ok s'.
Proof.
  intros Hb Hx Hp Hn Hq Ho Hf Hw. injection Hq as Q1 Q2 Q3 Q4 Q5.
  assert (Hstop : forall t, stopping s' t -> stopping s t) by (intros t; apply (stopping_set s s' p o); [done|intros y Hy; by apply Ho]).
  constructor.
  - eapply next_set; try done. intros y Hy. by apply Ho.
  - intros t Ht. rewrite Q5. apply (bo_timers _ Hb). unfold armed in *. rewrite Q3, Q4 in Ht. naive_solver.
  - intros t Ht Hs. rewrite Q3 in Ht. eapply (bo_retry _ Hb); [done|by apply Hstop].
  - rewrite Q1. congruence.
  - intros _ Hne. rewrite Q2 in Hne. destruct (bo_live _ Hb Hw Hne) as [(t & Ha & Hs)|Hfl]; [left; exists t|right; by eapply flush_set].
    unfold armed. rewrite Q4. split; [done|]. intros Hs'. by apply Hs, Hstop.
Qed.
Lemma ok_schedule s s' p x o b j : backend_ok s -> st_procs s !! p = Some x -> st_procs s' = set_procs (st_procs s) p o -> st_next s' = st_next s ->
  st_b s' = scheduleRetryLocked b j -> bk_watch b = true -> bk_retry b = bk_retry (st_b s) -> bk_timers b = bk_timers (st_b s) ->
  bk_next_timer b = bk_next_timer (st_b s) -> (forall y, o = Some y -> passes_ok y /\ no_stop y) -> bk_watch (st_b s) = true -> backend_ok s'.
Proof.
  intros Hb Hx Hp Hn Hs' W R T N Ho Hw. assert (Hstop : forall t, stopping s' t -> stopping s t) by (intros t; apply (stopping_set s s' p o); [done|intros y Hy; by apply Ho]).
  set (t0 := match bk_retry (st_b s) with Some t => t | None => bk_next_timer (st_b s) end).
  assert (Hf : bk_watch (st_b s') = true /\ bk_retry (st_b s') = Some t0 /\ (exists d, bk_timers (st_b s') = <[t0 := d]> (bk_timers (st_b s))) /\
    (bk_next_timer (st_b s) <= bk_next_timer (st_b s'))%nat /\ (t0 < bk_next_timer (st_b s'))%nat).
  { rewrite Hs'. unfold scheduleRetryLocked, t0. rewrite R, N. destruct (bk_retry (st_b s)) as [t|] eqn:Hr; cbn; rewrite T, ?N; split_and!; try done; try (by eexists); try lia.
    apply (bo_timers _ Hb). by right; right. }
  destruct Hf as (F1 & F2 & (d & F3) & F4 & F5).
  assert (Hns : ~ stopping s t0).
  { unfold t0. destruct (bk_retry (st_b s)) as [t|] eqn:Hr; [by apply (bo_retry _ Hb)|]. intros Hst. pose proof (bo_timers _ Hb _ (or_intror (or_introl Hst))). lia. }
  constructor.
  - eapply next_set; try done. intros y Hy. by apply Ho.
  - intros t. unfold armed. rewrite F2, F3. intros [Ha|[Hst|[= <-]]]; [|pose proof (bo_timers _ Hb t (or_intror (or_introl (Hstop _ Hst)))); lia|done].
    destruct (decide (t = t0)) as [->|Hne]; [done|]. rewrite lookup_insert_ne in Ha by done. pose proof (bo_timers _ Hb t (or_introl Ha)). lia.
  - intros t. rewrite F2. intros [= <-] Hst. by apply Hns, Hstop.
  - congruence.
  - intros _ _. left. exists t0. unfold armed. rewrite F3, lookup_insert_eq. split; [by eexists|]. intros Hst. by apply Hns, Hstop.
Qed.
Lemma enqueue_queue b it : bk_watch (enqueueLocked b it) = bk_watch b /\ bk_retry (enqueueLocked b it) = bk_retry b /\
  bk_timers (enqueueLocked b it) = bk_timers b /\ bk_next_timer (enqueueLocked b it) = bk_next_timer b.
Proof. unfold enqueueLocked. destruct (coalesce _ _); [done|]. destruct (bk_pending b); [done|]. by destruct (_ <=? _). Qed.
Lemma delivery_failed_ok s p k it todo failed x j : backend_ok s -> st_procs s !! p = Some x -> x <> PFlush -> bk_watch (st_b s) = true ->
  (k = KFlush \/ failed = []) -> backend_ok (delivery_failed s p k it todo failed j).
Proof.
  intros Hb Hx Hn Hw Hk. unfold delivery_failed. destruct (enqueue_queue (st_b s) it) as (E1 & E2 & E3 & E4).
  destruct k; [eapply (ok_schedule s _ p x (Some _)); try done; [by rewrite E1|intros y [= <-]; destruct Hk as [?|?]; [done|split; [by right|done]]].. |].
  eapply (ok_proc s _ p x (Some _)); try done. intros y [= <-]. split; [by left|done].
Qed.

Lemma ok_same s s' : st_b s' = st_b s -> st_procs s' = st_procs s -> st_next s' = st_next s -> backend_ok s -> backend_ok s'.
Proof. intros E1 E2 E3 [H1 H2 H3 H4 H5]. unfold armed, stopping, about_to_flush in *. constructor; unfold armed, stopping, about_to_flush; rewrite ?E1, ?E2, ?E3; done. Qed.
Lemma watched s p x : backend_ok s -> st_procs s !! p = Some x -> (forall it, x <> PCommit it) -> bk_watch (st_b s) = true.
Proof. intros Hb Hx Hn. destruct (bk_watch (st_b s)) eqn:Hw; [done|]. destruct (bo_off _ Hb Hw) as (_ & _ & Hp). destruct (Hp p x Hx) as [it ->]. by destruct (Hn it). Qed.

(** A goroutine starts. *)
Lemma spawn_lookup s x q y : backend_ok s -> st_procs (spawn s x) !! q = Some y <-> (q = st_next s /\ y = x) \/ st_procs s !! q = Some y.
Proof.
  intros Hb. cbn. rewrite lookup_insert_Some. split; [naive_solver|]. intros [[-> ->]|Hq]; [by left|right]. split; [|done].
  intros <-. destruct (bo_next _ Hb _ _ Hq). lia.
Qed.
Lemma ok_spawn s x b' : backend_ok s -> passes_ok x -> (forall t todo, x = PStop (Some t) todo -> (t < bk_next_timer b')%nat /\ bk_retry b' <> Some t) ->
  bk_next_timer b' = bk_next_timer (st_b s) -> (forall t, is_Some (bk_timers b' !! t) -> armed s t) -> (bk_retry b' = bk_retry (st_b s) \/ bk_retry b' = None) ->
  (bk_watch b' = false -> bk_watch (st_b s) = false /\ exists it, x = PCommit it) ->
  (bk_watch b' = true -> bk_pending b' <> [] -> x = PFlush \/ (no_stop x /\ bk_watch (st_b s) = true /\ bk_pending (st_b s) <> [] /\ bk_timers b' = bk_timers (st_b s))) ->
  backend_ok (spawn (set_b s b') x).
Proof.
  intros Hb Hpass Hx N T R Hoff Hlive. assert (Hl : forall q y, st_procs (spawn (set_b s b') x) !! q = Some y <-> (q = st_next s /\ y = x) \/ st_procs s !! q = Some y)
    by (intros q y; exact (spawn_lookup s x q y Hb)).
  assert (Hst : forall t, stopping (spawn (set_b s b') x) t -> stopping s t \/ exists todo, x = PStop (Some t) todo).
  { intros t (q & todo & Hq). apply Hl in Hq as [[_ E]|Hq]; [right; by exists todo|left; by exists q, todo]. }
  constructor.
  - intros q y. rewrite Hl. cbn. intros [[-> ->]|Hq]; [split; [lia|done]|]. destruct (bo_next _ Hb _ _ Hq). split; [lia|done].
  - intros t Ht. cbn in *. rewrite N. destruct Ht as [Ht|[Ht|Ht]].
    + apply (bo_timers _ Hb). left. by apply T.
    + destruct (Hst _ Ht) as [Hs|[todo E]]; [apply (bo_timers _ Hb); by right; left|]. rewrite <- N. by eapply Hx.
    + apply (bo_timers _ Hb). right; right. destruct R as [R|R]; congruence.
  - intros t Ht Hs. cbn in Ht. destruct (Hst _ Hs) as [Hs'|[todo E]]; [|by destruct (Hx _ _ E)]. destruct R as [R|R]; [|congruence].
    eapply (bo_retry _ Hb); [by rewrite <- R|done].
  - intros Hw. cbn in *. destruct (Hoff Hw) as [Hw0 [it ->]]. destruct (bo_off _ Hb Hw0) as (O1 & O2 & O3). split; [destruct R; congruence|]. split.
    + intros t Ht. by destruct (O2 t); apply T.
    + intros q y. rewrite Hl. intros [[_ ->]|Hq]; [by exists it|by eapply O3].
  - intros Hw Hne. cbn in *. destruct (Hlive Hw Hne) as [->|(Hns & Hw0 & Hne0 & ET)].
    + right. exists (st_next s). apply Hl. by left.
    + destruct (bo_live _ Hb Hw0 Hne0) as [(t & Ha & Hs)|(q & Hq)]; [left; exists t|right; exists q; apply Hl; by right].
      unfold armed. cbn. rewrite ET. split; [done|]. intros Hs'. destruct (Hst _ Hs') as [?|[todo E]]; [done|by destruct (Hns (Some t) todo)].
Qed.
Lemma commit_ok s d on : backend_ok s -> backend_ok (commit s d on).
Proof.
  intros Hb. unfold commit. set (s1 := mkSt _ _ _ _ _ _ _ _ _ _ _). assert (Hb1 : backend_ok s1) by by apply (ok_same s).
  change (backend_ok (spawn (set_b s1 (st_b s1)) (PCommit (mkItem (mkSuspension KillDeploy d) [st_commits s])))).
  apply ok_spawn; try done; [by left|intros Hw; split; [done|by eexists]|]. intros Hw Hne. by right.
Qed.
Lemma commit_waits s p it : backend_ok s -> st_procs s !! p = Some (PCommit it) -> bk_watch (st_b s) = false ->
  backend_ok (set_proc (set_b s (enqueueLocked (st_b s) it)) p None).
Proof.
  intros Hb Hx Hw. set (s' := set_proc _ _ _). destruct (enqueue_queue (st_b s) it) as (E1 & E2 & E3 & E4), (bo_off _ Hb Hw) as (O1 & O2 & O3).
  assert (Hp : st_procs s' = set_procs (st_procs s) p None) by done.
  assert (Hstop : forall t, ~ stopping s' t).
  { intros t Hs. apply (stopping_set s s' p None) in Hs as (q & todo & Hq); [|done|done]. by destruct (O3 _ _ Hq). }
  constructor.
  - by eapply next_set.
  - intros t. unfold armed, s'. cbn. rewrite E2, E3, O1. intros [Ha|[Hs|?]]; [by destruct (O2 t)|by destruct (Hstop t)|done].
  - intros t. cbn. by rewrite E2, O1.
  - intros _. unfold armed, s'. cbn. rewrite E2, E3. split; [done|]. split; [done|]. intros q y Hq. change (st_procs s' !! q = Some y) in Hq.
    rewrite Hp in Hq. apply set_procs_lookup in Hq as [[_ ?]|[_ Hq]]; [done|by eapply O3].
  - cbn. by rewrite E1, Hw.
Qed.
Lemma stop_ok s p t todo : backend_ok s -> st_procs s !! p = Some (PStop t todo) ->
  backend_ok (set_proc (set_b s (stop_timer (st_b s) t)) p (Some (PPass KWatcher todo []))).
Proof.
  intros Hb Hx. pose proof (watched s p _ Hb Hx ltac:(done)) as Hw. destruct t as [t|]; [|eapply (ok_proc s _ p _ (Some _)); try done; intros y [= <-]; split; [by right|done]].
  set (s' := set_proc _ _ _). assert (Hst : stopping s t) by by exists p, todo.
  assert (Hstop : forall t, stopping s' t -> stopping s t) by (intros t'; apply (stopping_set s s' p (Some (PPass KWatcher todo []))); [done|by intros y [= <-]]).
  constructor.
  - eapply (next_set s s' p _ (Some _)); try done. intros y [= <-]. by right.
  - intros t'. unfold armed, s'. cbn. intros Ht. apply (bo_timers _ Hb). destruct Ht as [Ha|[Hs|?]]; [left|right; left; by apply Hstop|by right; right].
    by apply lookup_delete_is_Some in Ha as [_ ?].
  - intros t' Ht Hs. eapply (bo_retry _ Hb); [exact Ht|by apply Hstop].
  - cbn. by rewrite Hw.
  - intros _ Hne. destruct (bo_live _ Hb Hw Hne) as [(t' & Ha & Hs)|Hf]; [left; exists t'|right; by eapply (flush_set s s' p _ (Some _))].
    split; [|intros Hs'; by apply Hs, Hstop]. apply lookup_delete_is_Some. split; [|done]. intros <-. done.
Qed.
Lemma flush_ok s p o : backend_ok s -> st_procs s !! p = Some PFlush -> (forall y, o = Some y -> exists l, y = PPass KFlush l []) ->
  backend_ok (set_proc (set_b s (take_flush (st_b s))) p o).
Proof.
  intros Hb Hx Ho. pose proof (watched s p _ Hb Hx ltac:(done)) as Hw. set (s' := set_proc _ _ _).
  assert (Hstop : forall t, stopping s' t -> stopping s t) by (intros t'; apply (stopping_set s s' p o); [done|intros y Hy; by destruct (Ho y Hy) as [l ->]]).
  constructor.
  - eapply (next_set s s' p _ o); try done. intros y Hy. destruct (Ho y Hy) as [l ->]. by left.
  - intros t' Ht. apply (bo_timers _ Hb). destruct Ht as [Ha|[Hs|?]]; [by left|right; left; by apply Hstop|done].
  - done.
  - cbn. by rewrite Hw.
  - done.
Qed.
Lemma step_backend max l s s' : step max l s = Some s' -> backend_ok s -> backend_ok s'.
Proof.
  intros Hst Hb. destruct l; try (by step_cases Hst; apply (ok_same s)).
  - step_cases Hst. by apply commit_ok.
  - step_cases Hst. by apply commit_ok.
  - step_cases Hst.
    + eapply (ok_proc s _ p _ (Some _)); try done. intros y [= <-]. split; [by right|done].
    + eapply commit_waits; done.
  - step_cases Hst. apply ok_spawn; try done; [intros t todo [= E _]|by right].
    split; [apply (bo_timers _ Hb); by right; right|done].
  - step_cases Hst. by eapply stop_ok.
  - step_cases Hst. apply ok_spawn; try done.
    + intros t0 Ht. cbn in Ht. unfold armed. destruct (decide (t0 = t)) as [->|Hne]; [by rewrite lookup_delete_eq in Ht; destruct Ht|by rewrite lookup_delete_ne in Ht].
    + by left.
    + intros Hw. cbn in Hw. destruct (bo_off _ Hb Hw) as (_ & Ha & _). destruct (Ha t). by eexists.
    + by left.
  - step_cases Hst; (apply flush_ok; [done|done|]); [intros y [= <-]; by eexists|done].
  - step_cases Hst. eapply (ok_proc s _ p _ (Some _)); try done. intros y [= <-]. by destruct (bo_next _ Hb _ _ H).
  - step_cases Hst. eapply (ok_proc s _ p _ (Some _)); try done; [intros y [= <-]; by destruct (bo_next _ Hb _ _ H)|by eapply watched].
  - step_cases Hst. eapply (ok_proc s _ p _ (Some _)); try done; [intros y [= <-]; by destruct (bo_next _ Hb _ _ H)|by eapply watched].
  - step_cases Hst.
    + pose proof (watched s p _ Hb H ltac:(done)). congruence.
    + eapply delivery_failed_ok; [done|exact H|done|by eapply watched|apply (bo_next _ Hb _ _ H)].
  - step_cases Hst; try (eapply (ok_proc s _ p _ None); [done|exact H|done..|by eapply watched]).
    pose proof (watched s p _ Hb H ltac:(done)) as Hw. destruct failed as [|it failed]; cbn [flush_end].
    + eapply (ok_proc s _ p _ None); [done|exact H|done..].
    + eapply (ok_schedule s _ p _ None); [done|exact H|done|done|reflexivity|done..].
Qed.

(** *** All of it, over any interleaving *)

Definition all_tracked (s : St) : Prop := forall t, (t < st_commits s)%nat -> tracked s t.
Lemma step_commits max l s s' : step max l s = Some s' -> backend_ok s -> all_tracked s -> all_tracked s'.
Proof.
  intros Hst Hb Ht t Hlt. assert (Hc : (t < st_commits s)%nat \/ t = st_commits s /\ exists d on, s' = commit s d on).
  { destruct l; try (step_cases Hst; try (unfold delivery_failed in Hlt; repeat case_match; cbn in Hlt); by left).
    - step_cases Hst. destruct (decide (t = st_commits s)); [right; split; [done|by eexists _, _]|left; lia].
    - step_cases Hst. destruct (decide (t = st_commits s)); [right; split; [done|by eexists _, _]|left; lia]. }
  destruct Hc as [Hc|[-> (d & on & ->)]]; [by eapply step_tracked; [..|by apply Ht]|].
  apply (tracked_items _ (st_next s) (PCommit (mkItem (mkSuspension KillDeploy d) [st_commits s]))); [apply lookup_insert_eq|].
  eexists. split; [by left|]. by left.
Qed.
Record kill_ok (max : Z) (s : St) : Prop := { ko_sessions : sessions_ok max s; ko_backend : backend_ok s; ko_tracked : all_tracked s }.
Lemma init_ok max : 0 <= max -> kill_ok max init.
Proof.
  intros Hm. constructor.
  - constructor; cbn; [intros _; split; [done|lia]|by intros sid|done].
  - constructor; cbn; try done.
    + intros t [[? Ht]|[(p & todo & Hp)|Ht]]; done.
    + intros _. split; [done|]. split; [by intros t [? ?]|done].
  - intros t Ht. cbn in Ht. lia.
Qed.
Lemma step_ok max l s s' : step max l s = Some s' -> kill_ok max s -> kill_ok max s'.
Proof.
  intros Hst [H1 H2 H3]. constructor; [by eapply step_sessions|by eapply step_backend|by eapply step_commits].
Qed.
Lemma steps_ok max ls s s' : steps max ls s = Some s' -> kill_ok max s -> kill_ok max s'.
Proof.
  revert s. induction ls as [|l ls IH]; intros s; cbn; [by intros [= <-]|]. destruct (step max l s) as [s1|] eqn:Hl; [|done].
  intros Hs Hok. eapply IH; [done|]. by eapply step_ok.
Qed.
Lemma steps_app max l1 l2 s : steps max (l1 ++ l2) s = match steps max l1 s with Some s => steps max l2 s | None => None end.
Proof. revert s. induction l1 as [|l l1 IH]; intros s; cbn; [done|]. destruct (step max l s); [apply IH|done]. Qed.

(** C9 (no suspension is lost): however commits, deliveries, retries and sessions
    interleave, every suspension that was committed has been acknowledged by the kill switch,
    is still to be delivered, or was given up because the queue was full; once the kill
    switch is registered, a queue that is not empty has a timer that will run or a flush that
    is about to; the registry holds exactly the running sessions, and there are never more sessions than slots. *)
Theorem suspension_delivered max (Hmax : 0 <= max) ls s (Hs : steps max ls init = Some s) :
  (forall t, (t < st_commits s)%nat -> t ∈ st_acked s \/ t ∈ bk_dropped (st_b s) \/ outstanding s t) /\
  (bk_watch (st_b s) = true -> bk_pending (st_b s) <> [] -> (exists t, armed s t /\ ~ stopping s t) \/ about_to_flush s) /\
  (forall sid e, st_registry s !! sid = Some e <-> st_threads s !! sid = Some (Registered e)) /\
  (0 < max -> st_slots s = Z.of_nat (size (st_threads s)) /\ st_slots s <= max).
Proof.
  destruct (steps_ok _ _ _ _ Hs (init_ok max Hmax)) as [[H1 _ H2] [_ _ _ _ H3] H4]. by split_and!.
Qed.

(** ** The boundary of a suspension *)

Definition runs_deploy (s : St) (d : bytes) : Prop := exists sid e, (st_threads s !! sid = Some (Accounted e) \/ st_threads s !! sid = Some (Registered e)) /\ se_deploy e = d.
(** While the goroutine [p] waits for the sessions it found. *)
Definition closing (p : nat) (d : bytes) (s : St) : Prop :=
  d ∈ st_suspended s /\ exists k it found l todo failed, st_procs s !! p = Some (PWait k it found l todo failed) /\
    forall sid e, (st_threads s !! sid = Some (Accounted e) -> se_deploy e <> d) /\ (st_threads s !! sid = Some (Registered e) -> se_deploy e = d -> sid ∈ found).
Definition closed (d : bytes) (s : St) : Prop := d ∈ st_suspended s /\ ~ runs_deploy s d.

(** While a deployment is suspended no session of it is admitted. *)
Lemma no_new max l s s' d : step max l s = Some s' -> d ∈ st_suspended s -> l <> LResume d ->
  d ∈ st_suspended s' /\ forall sid e, se_deploy e = d ->
    (st_threads s' !! sid = Some (Accounted e) -> st_threads s !! sid = Some (Accounted e)) /\
    (st_threads s' !! sid = Some (Registered e) -> st_threads s !! sid = Some (Registered e) \/ st_threads s !! sid = Some (Accounted e)).
Proof.
  intros Hst Hd Hl. destruct l; try (step_cases Hst; (split; [done|]); intros; (split; [done|by left])).
  - step_cases Hst. split; [set_solver|]. intros. split; [done|by left].
  - step_cases Hst. split; [|intros; split; [done|by left]]. apply elem_of_difference. split; [done|]. rewrite elem_of_singleton. congruence.
  - step_cases Hst; unfold delivery_failed; (split; [by repeat case_match|]); intros; split; repeat case_match; auto.
  - step_cases Hst. split; [done|]. intros i e _. rewrite !lookup_insert_Some. naive_solver.
  - step_cases Hst. split; [done|]. intros i e' _. rewrite !lookup_insert_Some. naive_solver.
  - step_cases Hst. split; [done|]. intros i e' He. rewrite !lookup_insert_Some. split; [|naive_solver]. intros [[<- [= ->]]|[_ ?]]; [|done].
    rewrite He in H1. by apply bool_decide_eq_false_1 in H1.
  - step_cases Hst; (split; [done|]); intros i e' _; rewrite !lookup_insert_Some; naive_solver.
  - step_cases Hst. split; [done|]. intros i e' _. rewrite !lookup_insert_Some. naive_solver.
  - step_cases Hst. split; [done|]. intros i e' _. rewrite !lookup_insert_Some. naive_solver.
  - step_cases Hst. split; [done|]. intros i e' _. rewrite !lookup_delete_Some. naive_solver.
Qed.
(** A goroutine that waits goes on waiting while others act. *)
Definition is_own (p : nat) (l : Label) : bool := match l with LAck q | LError q _ => bool_decide (q = p) | _ => false end.
Lemma waits_on max l s s' p k it found tc todo failed : step max l s = Some s' -> backend_ok s -> st_procs s !! p = Some (PWait k it found tc todo failed) ->
  is_own p l = false -> exists tc', st_procs s' !! p = Some (PWait k it found tc' todo failed).
Proof.
  intros Hst Hb Hp Hl. assert (Hn : (p < st_next s)%nat) by by apply (bo_next _ Hb _ _ Hp).
  destruct l as [| |q| |q| |q|q|q|q|q|q| | | | | | |]; try (step_cases Hst; by exists tc); cbn in Hl; try apply bool_decide_eq_false_1 in Hl.
  all: try (destruct (decide (q = p)) as [->|Hne]; [|step_cases Hst; unfold delivery_failed; repeat case_match; cbn; rewrite ?lookup_insert_ne, ?lookup_delete_ne by done; by exists tc]).
  all: unfold step in Hst; rewrite ?Hp in Hst; try done.
  - injection Hst as <-. exists tc. cbn. rewrite lookup_insert_ne by lia. done.
  - injection Hst as <-. exists tc. cbn. rewrite lookup_insert_ne by lia. done.
  - injection Hst as <-. exists tc. cbn. rewrite lookup_insert_ne by lia. done.
  - destruct (bk_timers _ !! _); [|done]. injection Hst as <-. exists tc. cbn. rewrite lookup_insert_ne by lia. done.
  - destruct tc as [|sid tc]; [done|]. injection Hst as <-. exists tc. apply lookup_insert_eq.
Qed.
Lemma closing_step max l s s' p d : step max l s = Some s' -> backend_ok s -> l <> LResume d -> is_own p l = false -> closing p d s -> closing p d s'.
Proof.
  intros Hst Hb Hl Hown (Hd & k & it & found & tc & todo & failed & Hp & Hs). destruct (no_new _ _ _ _ _ Hst Hd Hl) as [Hd' Hnew].
  destruct (waits_on _ _ _ _ _ _ _ _ _ _ _ Hst Hb Hp Hown) as [tc' Hp']. split; [done|]. exists k, it, found, tc', todo, failed. split; [done|].
  intros sid e. destruct (Hs sid e) as [Ha Hr]. split.
  - intros Hx E. destruct (Hnew sid e E) as [Hn _]. by apply Ha; [apply Hn|].
  - intros Hx E. destruct (Hnew sid e E) as [_ Hn]. destruct (Hn Hx) as [Hx'|Hx']; [by apply Hr|by destruct (Ha Hx')].
Qed.
Lemma closed_step max l s s' d : step max l s = Some s' -> l <> LResume d -> closed d s -> closed d s'.
Proof.
  intros Hst Hl [Hd Hn]. destruct (no_new _ _ _ _ _ Hst Hd Hl) as [Hd' Hnew]. split; [done|]. intros (sid & e & Hx & E). apply Hn. exists sid, e.
  destruct (Hnew sid e E) as [H1 H2]. split; [|done]. destruct Hx as [Hx|Hx]; [left; by apply H1|]. destruct (H2 Hx); auto.
Qed.
Lemma ack_closes max s s' p d : step max (LAck p) s = Some s' -> kill_ok max s -> closing p d s -> closed d s'.
Proof.
  intros Hst Hok (Hd & k & it & found & tc & todo & failed & Hp & Hs). unfold step in Hst. rewrite Hp in Hst. destruct tc; [|done].
  destruct (forallb _ _) eqn:Hall; [|done]. injection Hst as <-. rewrite forallb_forall in Hall. split; [done|]. intros (sid & e & Hx & E). cbn in Hx.
  destruct (Hs sid e) as [Ha Hr]. destruct Hx as [Hx|Hx]; [by destruct (Ha Hx)|]. specialize (Hall sid ltac:(apply list_elem_of_In; by apply Hr)).
  apply (so_registry _ _ (ko_sessions _ _ Hok)) in Hx. by rewrite Hx in Hall.
Qed.
Lemma closing_steps max ls s s' p d : steps max ls s = Some s' -> kill_ok max s -> LResume d ∉ ls -> forallb (fun l => negb (is_own p l)) ls = true ->
  closing p d s -> closing p d s' /\ kill_ok max s'.
Proof.
  revert s. induction ls as [|l ls IH]; intros s; cbn; [by intros [= <-]|]. destruct (step max l s) as [s1|] eqn:Hl; [|done].
  intros Hs Hok Hd Hown Hc. rewrite elem_of_cons in Hd. apply andb_true_iff in Hown as [Ho1%negb_true_iff Ho2].
  eapply IH; try done; [by eapply step_ok|naive_solver|]. eapply closing_step; try done; [apply Hok|naive_solver].
Qed.
Lemma closed_steps max ls s s' d : steps max ls s = Some s' -> LResume d ∉ ls -> closed d s -> closed d s'.
Proof.
  revert s. induction ls as [|l ls IH]; intros s; cbn; [by intros [= <-]|]. destruct (step max l s) as [s1|] eqn:Hl; [|done].
  intros Hs Hd Hc. rewrite elem_of_cons in Hd. eapply IH; [done|naive_solver|]. eapply closed_step; [done|naive_solver|done].
Qed.
Lemma match_closing max s s' p d : step max (LMatch p) s = Some s' -> kill_ok max s -> d ∈ st_suspended s ->
  (forall sid e, st_threads s !! sid = Some (Accounted e) -> se_deploy e <> d) ->
  (exists k it todo failed, st_procs s !! p = Some (PPass k (it :: todo) failed) /\ it_event it = mkSuspension KillDeploy d) -> closing p d s'.
Proof.
  intros Hst Hok Hd Ha (k & it & todo & failed & Hp & Hit). unfold step in Hst. rewrite Hp in Hst. destruct (bk_watch _); [|done]. injection Hst as <-.
  split; [done|]. exists k, it, (matching (st_registry s) (it_event it)), (matching (st_registry s) (it_event it)), todo, failed. split; [apply lookup_insert_eq|].
  intros sid e. split; [apply Ha|]. cbn. intros Hx E. apply (so_registry _ _ (ko_sessions _ _ Hok)) in Hx.
  unfold matching. apply list_elem_of_fmap. exists (sid, e). split; [done|]. apply list_elem_of_filter. split; [|by apply elem_of_map_to_list].
  unfold in_scope. rewrite Hit. cbn. by apply bool_decide_eq_true_2.
Qed.

(** C10 (an acknowledged suspension is a boundary): when the kill switch looks for the
    sessions of a suspended deployment, and none is between its admission by the repository
    and the registry at that moment, then from its acknowledgement on no session of the
    deployment is admitted or runs, until it is resumed. *)
Theorem kill_boundary max (Hmax : 0 <= max) ls0 s0 p d ls1 ls2 s
  (H0 : steps max ls0 init = Some s0) (Hd : d ∈ st_suspended s0)
  (Hin : forall sid e, st_threads s0 !! sid = Some (Accounted e) -> se_deploy e <> d)
  (Hp : exists k it todo failed, st_procs s0 !! p = Some (PPass k (it :: todo) failed) /\ it_event it = mkSuspension KillDeploy d)
  (Hown : forallb (fun l => negb (is_own p l)) ls1 = true) (Hres : LResume d ∉ (ls1 ++ ls2))
  (Hs : steps max (LMatch p :: ls1 ++ LAck p :: ls2) s0 = Some s) :
  closed d s.
Proof.
  pose proof (steps_ok _ _ _ _ H0 (init_ok max Hmax)) as Hok. cbn [steps] in Hs. destruct (step max (LMatch p) s0) as [s1|] eqn:E1; [|done].
  rewrite steps_app in Hs. destruct (steps max ls1 s1) as [s2|] eqn:E2; [|done]. cbn [steps] in Hs. destruct (step max (LAck p) s2) as [s3|] eqn:E3; [|done].
  assert (Hok1 : kill_ok max s1) by by eapply step_ok.
  assert (Hres1 : (LResume d ∉ ls1) /\ (LResume d ∉ ls2)) by (split; intros Hx; apply Hres, elem_of_app; auto).
  destruct (closing_steps _ _ _ _ _ _ E2 Hok1 (proj1 Hres1) Hown (match_closing _ _ _ _ _ E1 Hok Hd Hin Hp)) as [Hc Hok2].
  exact (closed_steps _ _ _ _ _ Hs (proj2 Hres1) (ack_closes _ _ _ _ _ E3 Hok2 Hc)).
Qed.

(** ** A session that is suspended while it runs *)

Definition ex_session : sessionEntry := mkEntry (str "ann") (str "app") (str "dep").
Definition ex_admit : list Label := [LWatch; LStop 0; LEnd 0 0; LAcquire (str "s1"); LResolve (str "s1") ex_session; LAccount (str "s1")].
Definition ex_running : list Label := ex_admit ++ [LRegister (str "s1"); LSuspend (str "dep"); LCommitted 1].
Definition ex_stopped : list Label := ex_running ++ [LMatch 1; LCancel 1; LUnregister (str "s1"); LAck 1; LRelease (str "s1")].
Definition at_end (ls : list Label) : St := default init (steps 2 ls init).
Lemma ex_running_steps : steps 2 ex_running init = Some (at_end ex_running).
Proof. vm_compute. reflexivity. Qed.
Lemma suspension_delivered_witness : tracked (at_end ex_running) 0 /\ st_registry (at_end ex_running) !! str "s1" = Some ex_session.
Proof.
  split.
  - apply (proj1 (suspension_delivered 2 ltac:(lia) ex_running (at_end ex_running) ex_running_steps)). vm_compute. lia.
  - apply (proj1 (proj2 (proj2 (suspension_delivered 2 ltac:(lia) ex_running (at_end ex_running) ex_running_steps)))). vm_compute. reflexivity.
Defined.
Lemma kill_boundary_witness : closed (str "dep") (at_end ex_stopped).
Proof.
  apply (kill_boundary 2 ltac:(lia) ex_running (at_end ex_running) 1 (str "dep") [LCancel 1; LUnregister (str "s1")] [LRelease (str "s1")]).
  - exact ex_running_steps.
  - eapply bool_decide_eq_true_1. vm_compute. reflexivity.
  - assert (E : st_threads (at_end ex_running) = <[str "s1" := Registered ex_session]> (∅ : gmap bytes Phase)) by (vm_compute; reflexivity).
    intros sid e. rewrite E, lookup_insert_Some. intros [[_ ?]|[_ ?]]; discriminate.
  - eexists KCommitted, _, [], []. split; [vm_compute; reflexivity|reflexivity].
  - reflexivity.
  - cbn. rewrite !elem_of_cons, elem_of_nil. intros [?|[?|[?|[]]]]; discriminate.
  - vm_compute. reflexivity.
Defined.

(** A session that the repository admitted before the suspension, and that enters the
    registry after the kill switch looked there, is not cancelled: the suspension has been
    acknowledged and the session runs on. *)
Definition ex_late : list Label := ex_admit ++ [LSuspend (str "dep"); LCommitted 1; LMatch 1; LAck 1; LEnd 1 0; LRegister (str "s1")].
Example suspension_race : st_acked (at_end ex_late) = [0%nat] /\ str "dep" ∈ st_suspended (at_end ex_late) /\
  st_threads (at_end ex_late) !! str "s1" = Some (Registered ex_session) /\ st_cancelled (at_end ex_late) = ∅ /\ st_procs (at_end ex_late) = ∅.
Proof.
  split_and!; vm_compute; reflexivity.
Qed.
End killswitch.
