(* ===== verification/GatewayRun.v ===== *)
(** * A session of the leaf gateway (internal/gateway: session.go, hostcaps.go, vmguest.go)

    [startSessionArgs] from the slot it takes to the slot it gives back: the application is
    resolved, the session recorded and registered, its capabilities assembled, the guest run,
    the log kept and the session ended. The compiled guest, the SSH client of a guest virtual
    machine, strconv.Quote and the decoder of the mapping of machines are parameters. The
    trace of a session is what its client sees with the guest that was run. Sessions that run
    at the same time are in GatewayKill.v. *)

From stdpp Require Import list gmap.
From S2P Require Import Prelude Utf8 GoStrings Json Streams Exec Egress HostFns.
From S2P Require Import SqlRepo SqlDB SqlIdentity SqlApps SqlIdentityLaws SqlAppsLaws SqlCatalog SqlRun Gateway GatewayKill.
Import json sqlite db identity catalog gateway.

Module session.

(** ** Text that is shown on a terminal *)

Definition is_control (r : Z) : bool := (r <? 32) || ((127 <=? r) && (r <=? 159)).
(** A run of bytes that are not UTF-8 becomes one space; [bad] is whether the byte before was
    one of them. *)
Fixpoint sanitize (fuel : nat) (bad : bool) (s : bytes) : bytes :=
  match fuel, s with
  | S fuel, _ :: _ =>
    let '(r, size) := decode_rune s in
    if (r =? RuneError) && (size =? 1)%nat then (if bad then [] else [32]) ++ sanitize fuel true (drop 1 s) else
    (if (r =? 10) || (r =? 9) then [r] else if (r =? RuneError) || is_control r then [32] else take size s) ++ sanitize fuel false (drop size s)
  | _, _ => []
  end.
Definition SanitizeTerminalText (s : bytes) : bytes := sanitize (length s) false s.

Definition esc (s : bytes) : bytes := 27 :: s.
Definition HIDE_CURSOR : bytes := esc (str "[?25l").
Definition SHOW_CURSOR : bytes := esc (str "[?25h").
Definition OPEN_ALT : bytes := esc (str "[?1049h").
Definition CLOSE_ALT : bytes := esc (str "[?1049l").
Definition ENABLE_MOUSE : bytes := esc (str "[?1000h") ++ esc (str "[?1002h") ++ esc (str "[?1006h").
Definition DISABLE_MOUSE : bytes := esc (str "[?1006l") ++ esc (str "[?1002l") ++ esc (str "[?1000l").
Definition CLEAR_SCREEN : bytes := esc (str "[2J").
Definition MOVE_CURSOR : bytes := esc (str "[H").
Definition crlf : bytes := [13; 10].

(** ** The guest *)

(** The error a guest ended with, its message and whether it is context.Canceled. *)
Record GuestErr := mkGuestErr { ge_message : bytes; ge_canceled : bool }.
Definition session_err (e : option GuestErr) : SessionErr :=
  match e with None => NoErr | Some e => if ge_canceled e then Canceled else Failed (ge_message e) end.
(** What a run of the guest wrote to the channel and to its log, and how it ended. *)
Record GuestRun := mkGuestRun { gs_written : list bytes; gs_logged : list bytes; gs_err : option GuestErr; gs_goodbye : bytes }.
(** Where the guest runs. *)
Inductive Engine := InProcess | Worker (binary : bytes) | Remote (endpoint token : bytes).
Definition isolatedRunner (c : Config) : Engine :=
  if negb (bool_decide (cf_RunnerEndpoint c = [])) then Remote (cf_RunnerEndpoint c) (cf_RunnerToken c) else
  if negb (bool_decide (cf_RunnerWorker c = [])) then Worker (cf_RunnerWorker c) else InProcess.

(** A store is the repository's, for one application; a bus is a pointer. *)
Definition Caps : Type := Capabilities bytes nat.
Inductive Launch := LaunchCLI (wasm : bytes) (caps : Caps) (args : list bytes) | LaunchTUI (wasm : bytes) (caps : Caps) (w h : Z)
                  | LaunchVM (guest : VMGuest) (leaf : leafChannel) (w h : Z).
(** What the SSH client of a machine came to: what it wrote to both sides and the exit status
    of the guest, or [None] when the guest could not be reached or started. *)
Record VMRun := mkVMRun { vr_out : list (bool * bytes); vr_status : option Z }.

Inductive Event := Out (b : bytes) | ErrOut (b : bytes) | Run (l : Launch) | ExitStatus (n : Z) | Close.

(** ** The state of the server *)

Record Gw := mkGw {
  gw_repo : option Repo; gw_slots : Z; gw_registry : gmap bytes killswitch.sessionEntry; gw_buses : gmap bytes nat; gw_next_bus : nat }.
Definition with_repo (g : Gw) (r : option Repo) : Gw := mkGw r (gw_slots g) (gw_registry g) (gw_buses g) (gw_next_bus g).
Definition with_slots (g : Gw) (n : Z) : Gw := mkGw (gw_repo g) n (gw_registry g) (gw_buses g) (gw_next_bus g).
Definition with_registry (g : Gw) (m : gmap bytes killswitch.sessionEntry) : Gw := mkGw (gw_repo g) (gw_slots g) m (gw_buses g) (gw_next_bus g).
Definition repo_call {A} (f : option Repo -> option Repo * A) (g : Gw) : Gw * A := let '(r, a) := f (gw_repo g) in (with_repo g r, a).
Definition busFor (appID : bytes) (g : Gw) : Gw * nat :=
  match gw_buses g !! appID with
  | Some b => (g, b)
  | None => (mkGw (gw_repo g) (gw_slots g) (gw_registry g) (<[appID := gw_next_bus g]> (gw_buses g)) (S (gw_next_bus g)), gw_next_bus g)
  end.
(** [cancelled] is whether the context of the session has ended. *)
Definition KVStore `{Platform} (cancelled : bool) (appID : bytes) (b : option Repo) : option Repo * (GwErr + option bytes) :=
  requireRepo b (fun r => (r, if cancelled then inl CapsUnavailable else inr (Some appID))).

Section Run.
Context `{Platform}.
Context (quote : bytes -> bytes) (parse : bytes -> option (gmap bytes VMGuest)).
Context (guest : Launch -> option Repo -> option Repo * GuestRun) (machine : Launch -> VMRun).
Context (settings : ServerSettings) (vmGuestFile : bytes) (file : option bytes).

Definition hostCapabilityOptions : HostCapabilityOptions := mkHostOptions (sv_enableHostCommands settings) (sv_hostCommandAllowlist settings).
Definition hostCapabilitySources (cancelled : bool) : HostCapabilitySources Gw bytes nat :=
  mkSources _ _ _ (Some (fun app => repo_call (fun r => SecretsForApp r app))) (Some (fun app => repo_call (fun r => EgressAllowlist r app)))
    (Some (fun app => repo_call (KVStore cancelled app))) (Some busFor).

(** ** Running the guest *)

Definition log_of (l : list bytes) : bytes * bool := let w := fold_left capWriter_Write l (newCapWriter maxSessionLogBytes) in (cw_buf w, cw_truncated w).
Definition goodbye (b : bytes) : bytes := if bool_decide (b = []) then [] else crlf ++ SanitizeTerminalText b ++ crlf.
Definition runSessionArgsStatus (wasm appType : bytes) (caps : Caps) (wh : Z * Z) (args : list bytes) (g : Gw) : Gw * list Event * (bytes * bool * Z) :=
  if bool_decide (appType ∈ [str "cli"; str "vm"]) || negb (bool_decide (args = [])) then
    let launch := LaunchCLI wasm caps args in
    let '(g, run) := repo_call (guest launch) g in
    (g, Run launch :: map Out (gs_written run)
        ++ match gs_err run with Some e => [ErrOut (str "app error: " ++ SanitizeTerminalText (ge_message e) ++ crlf)] | None => [] end
        ++ (if bool_decide (gs_goodbye run = []) then [] else [Out (goodbye (gs_goodbye run))]),
     (log_of (gs_written run), Streams.ExitStatus (session_err (gs_err run))))
  else
    let '(w, h) := if (wh.1 <=? 0) || (wh.2 <=? 0) then (80, 24) else wh in
    let launch := LaunchTUI wasm caps w h in
    let '(g, run) := repo_call (guest launch) g in
    (g, Out (HIDE_CURSOR ++ OPEN_ALT ++ ENABLE_MOUSE ++ CLEAR_SCREEN ++ MOVE_CURSOR) :: Run launch :: map Out (gs_written run)
        ++ [Out (DISABLE_MOUSE ++ SHOW_CURSOR ++ CLOSE_ALT ++ goodbye (gs_goodbye run))],
     (log_of (gs_logged run), Streams.ExitStatus (session_err (gs_err run)))).

Definition runVMSession (run : GwRunnable) (leaf : leafChannel) (wh : Z * Z) : list Event * (bytes * bool * Z) :=
  match lookupVMGuest parse vmGuestFile file (gr_AppID run) with
  | inl _ => ([ErrOut (str "vm backend is not configured for app " ++ quote (gr_AppName run) ++ crlf)], ([], false, 1))
  | inr g =>
    let '(w, h) := if (0 <? wh.1) && (0 <? wh.2) then wh else (80, 24) in
    let launch := LaunchVM g leaf w h in
    let vr := machine launch in
    let ev := Run launch :: map (fun o => if o.1 : bool then Out o.2 else ErrOut o.2) (vr_out vr) in
    match vr_status vr with
    | None => (ev ++ [ErrOut (str "gateway: vm guest is unreachable" ++ crlf)], (log_of (map snd (vr_out vr)), 1))
    | Some status => (ev, (log_of (map snd (vr_out vr)), status))
    end
  end.

(** ** The session *)

Definition summary (id : SessionIdentity) : bytes :=
  print (JObj [(str "authenticated", JBool (si_Authenticated id)); (str "kind", JStr (si_Kind id));
                    (str "ownsApp", JBool (si_OwnsApp id)); (str "user", JStr (si_User id))]).
Definition startAccountedSession (draw : bytes) (run : GwRunnable) (id : SessionIdentity) (g : Gw) : Gw * (GwErr + bytes) :=
  repo_call (fun b => StartSession b draw (gr_AppID run) (gr_DeployID run) (gr_ArtifactDigest run) (summary id)) g.
Definition refuse (m : bytes) : list Event := [ErrOut (m ++ crlf); ExitStatus 1; Close].
Definition suspended_message (handle : bytes) : bytes := str "app " ++ quote handle ++ str " is temporarily unavailable (suspended)".
Definition resolve_message (handle : bytes) (e : GwErr) : bytes :=
  match e with GwSuspended => suspended_message handle | _ => str "app " ++ quote handle ++ str " is not available" end.
Definition start_message (handle : bytes) (e : GwErr) : bytes :=
  match e with
  | GwSuspended => suspended_message handle
  | GwQuota => str "this app has reached its daily connection limit; try again later"
  | _ => str "session unavailable; try again later"
  end.

(** From the registration of the session to its end. *)
Definition run_registered (cancelled : bool) (sid : bytes) (run : GwRunnable) (identity : SessionIdentity) (wh : Z * Z)
  (args : list bytes) (leaf : leafChannel) (g : Gw) : Gw * list Event :=
  let g := with_registry g (<[sid := killswitch.mkEntry (gr_OwnerID run) (gr_AppID run) (gr_DeployID run)]> (gw_registry g)) in
  let '(g, caps, _) := AssembleHostCapabilities (hostCapabilitySources cancelled) run identity hostCapabilityOptions g in
  let '(g, ev, (log, truncated, status)) :=
    if bool_decide (gr_AppType run = str "vm") then (let '(ev, res) := runVMSession run leaf wh in (g, ev, res))
    else runSessionArgsStatus (gr_WASM run) (gr_AppType run) caps wh args g in
  let '(g, _) := repo_call (fun b => RecordSessionLog b sid log truncated) g in
  let '(g, _) := repo_call (fun b => EndSession b sid) g in
  (with_registry g (delete sid (gw_registry g)), ev ++ [ExitStatus status; Close]).

Definition with_slot (handle draw : bytes) (identity : SessionIdentity) (cancelled : bool) (wh : Z * Z) (args : list bytes) (leaf : leafChannel)
  (g : Gw) : Gw * list Event :=
  let '(g, res) := repo_call (fun b => ResolveRunnable b handle identity) g in
  match res with
  | inl e => (g, refuse (resolve_message handle e))
  | inr run =>
    let identity := appRelativeIdentity identity (gr_OwnerID run) in
    let '(g, res) := startAccountedSession draw run identity g in
    match res with
    | inl e => (g, refuse (start_message handle e))
    | inr sid => run_registered cancelled sid run identity wh args leaf g
    end
  end.
Definition startSessionArgs (handle draw : bytes) (identity : SessionIdentity) (cancelled : bool) (wh : Z * Z) (args : list bytes) (leaf : leafChannel)
  (g : Gw) : Gw * list Event :=
  match killswitch.acquireSlot (sv_maxConcurrentSessions settings) (gw_slots g) with
  | None => (g, refuse (str "the runner is at capacity; try again shortly"))
  | Some n =>
    let '(g, ev) := with_slot handle draw identity cancelled wh args leaf (with_slots g n) in
    (with_slots g (killswitch.releaseSlot (sv_maxConcurrentSessions settings) (gw_slots g)), ev)
  end.
End Run.
End session.
