(* ===== verification/GatewayLaws.v ===== *)
(** * What a session of the leaf gateway is (GatewayRun.v)

    [leaf_session] says which guest a session runs, for whom, with which capabilities, and
    that the session leaves the slots and the registry as they were; [session_steps] that its
    steps are those of the model of concurrent sessions in GatewayKill.v;
    [requests_bounded] what the requests of a client can bring about. *)

From stdpp Require Import list gmap.
From S2P Require Import Prelude Utf8 GoStrings CliText Keys Streams Exec Egress HostFns Screen Transport.
From S2P Require Import SqlRepo SqlDB SqlIdentity SqlApps SqlIdentityLaws SqlAppsLaws SqlCatalog SqlRun SqlCredentials Gateway GatewayKill GatewayRun.
Import sqlite db identity identitylaws catalog cataloglaws catalogcalls credentials running gateway session.

Module sessionlaws.

Lemma acquire_release max n m : 0 <= n -> killswitch.acquireSlot max n = Some m -> killswitch.releaseSlot max m = n.
Proof.
  unfold killswitch.acquireSlot, killswitch.releaseSlot. intros Hn. destruct (max <=? 0); [by intros [= <-]|]. destruct (n <? max); [|done].
  intros [= <-]. rewrite (proj2 (Z.ltb_lt _ _)) by lia. lia.
Qed.

Section Laws.
Context `{Platform}.

(** ** Reading the repository *)

Definition db_of (b : option Repo) : option DB := r_db <$> b.
Lemma query_reads {A} (r : Repo) (f : DB -> A) :
  r_db (query r f).1 = r_db r /\ forall a, (query r f).2 = inr a -> a = f (r_db r).
Proof. unfold query. destruct (pop (r_fail r)) as [[] fs]; cbn; (split; [done|]); [done|by intros a [= <-]]. Qed.
Lemma ListSecrets_reads (r : Repo) app : r_db (ListSecrets r app).1 = r_db r.
Proof. unfold ListSecrets, guarded. destruct (head _); [done|]. apply query_reads. Qed.
Definition egress_hosts_of (app : bytes) (d : DB) : list bytes := sort_keys (map snd (filter (fun p => p.1 = app) (elements (egress d)))).
Lemma ListEgressHosts_reads (r : Repo) app :
  r_db (ListEgressHosts r app).1 = r_db r /\ forall l, (ListEgressHosts r app).2 = inr l -> l = egress_hosts_of app (r_db r).
Proof. unfold ListEgressHosts, guarded. destruct (head _); [done|]. apply query_reads. Qed.

Lemma Secret_reads (r : Repo) app key :
  r_db (Secret r app key).1 = r_db r /\ forall m v, (Secret r app key).2 = inr (m, v) -> secret_values (r_db r) !! (app, key) = Some v.
Proof.
  unfold Secret. match goal with |- context [query_row r ?f] => destruct (query_row_cases r f) as [Hd Hq]; set (res := query_row r f) in * end.
  split; [done|]. intros m v Hr. destruct Hq as [Hq|Hq]; rewrite Hr in Hq; [done|].
  destruct (secrets (r_db r) !! (app, key)); [|done]. destruct (secret_values (r_db r) !! (app, key)) as [v'|]; [|done]. by injection Hq as _ ->.
Qed.
Lemma read_secrets_reads app l r acc :
  r_db (read_secrets app l r acc).1 = r_db r /\
  forall m, (read_secrets app l r acc).2 = inr m -> forall k v, m !! k = Some v -> acc !! k = Some v \/ secret_values (r_db r) !! (app, k) = Some v.
Proof.
  revert r acc. induction l as [|x l IH]; intros r acc; cbn [read_secrets]; [split; [done|intros m [= <-]; by left]|].
  destruct (Secret_reads r app (sm_Key x)) as [Hd Hs]. destruct (Secret r app (sm_Key x)) as [r1 [e|[y v]]]; cbn in Hd, Hs; [done|].
  destruct (IH r1 (<[sm_Key x := v]> acc)) as [Hd1 Hm]. rewrite Hd in Hd1, Hm. split; [done|]. intros m Hr k w Hk.
  destruct (Hm m Hr k w Hk) as [Hi|Hi]; [|by right]. apply lookup_insert_Some in Hi as [[<- <-]|[_ Hi]]; [right; by eapply Hs|by left].
Qed.
Lemma SecretsForApp_reads b app :
  db_of (SecretsForApp b app).1 = db_of b /\
  forall m, (SecretsForApp b app).2 = inr m -> exists d, db_of b = Some d /\ forall k v, m !! k = Some v -> secret_values d !! (app, k) = Some v.
Proof.
  unfold SecretsForApp, requireRepo. destruct b as [r|]; [|done].
  pose proof (ListSecrets_reads r app) as Hd. destruct (ListSecrets r app) as [r1 [e|l]]; cbn in Hd; [cbn; by rewrite Hd|].
  destruct (read_secrets_reads app l r1 ∅) as [Hd1 Hm]. destruct (read_secrets app l r1 ∅) as [r2 res]. cbn in Hd1, Hm |- *. rewrite Hd1, Hd in *.
  split; [done|]. intros m ->. eexists. split; [done|]. intros k v Hk. destruct (Hm m eq_refl k v Hk) as [Hi|Hi]; [by rewrite lookup_empty in Hi|done].
Qed.
Lemma EgressAllowlist_reads b app :
  db_of (EgressAllowlist b app).1 = db_of b /\ forall l, (EgressAllowlist b app).2 = inr l -> exists d, db_of b = Some d /\ l = egress_hosts_of app d.
Proof.
  unfold EgressAllowlist, requireRepo. destruct b as [r|]; [|done].
  destruct (ListEgressHosts_reads r app) as [Hd Hl]. destruct (ListEgressHosts r app) as [r1 [e|l]]; cbn in *; rewrite Hd; (split; [done|]).
  - by destruct e.
  - intros l' [= <-]. eexists. split; [done|]. by apply Hl.
Qed.

(** ** Who a connection is *)

(** An active device with a proved fingerprint makes its author the owner of the connection. *)
Definition device_of (d : DB) (fp author : bytes) : Prop :=
  exists k x, devices d !! k = Some x /\ dv_fingerprint x = fp /\ dv_author x = author /\ device_active x = true.
Lemma connection_identity (r : Repo) fp sid : exists r' id, identityFromConn (Some r) fp sid = (Some r', id) /\ r_db r' = r_db r /\
  (if bool_decide (si_Kind id = kindSSHKey) then si_User id else []) = fp /\
  (si_OwnerID id <> [] -> si_Authenticated id = true /\ device_of (r_db r) fp (si_OwnerID id)).
Proof.
  unfold identityFromConn. case_bool_decide as Hfp; [by eexists _, _; subst|]. unfold ResolveIdentity, requireRepo.
  unfold DeviceByFingerprint, guarded. destruct (head _) as [e|]; [destruct e; eexists _, _; (split; [cbn; rewrite ?bool_decide_eq_false_2 by done; reflexivity|by cbn])|].
  destruct (query_row_cases r (select_fingerprint fp)) as [Hd Hq]. destruct (query_row r (select_fingerprint fp)) as [r1 res]. cbn in Hd, Hq.
  destruct Hq as [->|Hq].
  { eexists _, _. split; [reflexivity|]. by cbn. }
  unfold select_fingerprint in Hq. destruct (select_where _ (devices (r_db r))) as [[k x]|] eqn:Hs; cbn in Hq; rewrite Hq.
  - apply select_where_Some in Hs as [Hk [Hx%eqb_true Hact]%andb_true_iff]. eexists _, _. split; [cbn; rewrite bool_decide_eq_false_2 by done; reflexivity|].
    cbn. split_and!; [done|done|]. intros _. split; [done|]. by exists k, x.
  - eexists _, _. split; [cbn; rewrite bool_decide_eq_false_2 by done; reflexivity|]. by cbn.
Qed.
(** ** Capabilities *)

(** Applications have buses of their own. *)
Definition buses_ok (g : Gw) : Prop :=
  (forall a b, gw_buses g !! a = Some b -> (b < gw_next_bus g)%nat) /\
  forall a a' b, gw_buses g !! a = Some b -> gw_buses g !! a' = Some b -> a = a'.
(** What is read and what a session may add. *)
Record advances (g g' : Gw) : Prop := {
  av_db : db_of (gw_repo g') = db_of (gw_repo g); av_slots : gw_slots g' = gw_slots g; av_registry : gw_registry g' = gw_registry g;
  av_buses : gw_buses g ⊆ gw_buses g'; av_own : buses_ok g -> buses_ok g' }.
Lemma advances_refl g : advances g g.
Proof. by split. Qed.
Lemma advances_trans g1 g2 g3 : advances g1 g2 -> advances g2 g3 -> advances g1 g3.
Proof. intros [] []. split; try congruence; [by etrans|auto]. Qed.
Lemma repo_call_reads {A} (f : option Repo -> option Repo * A) g : db_of (f (gw_repo g)).1 = db_of (gw_repo g) ->
  advances g (repo_call f g).1 /\ (repo_call f g).2 = (f (gw_repo g)).2.
Proof. unfold repo_call. destruct (f (gw_repo g)) as [r a]. intros Hd. split; [by split|done]. Qed.
Lemma busFor_spec app g : advances g (busFor app g).1 /\ gw_buses (busFor app g).1 !! app = Some (busFor app g).2.
Proof.
  unfold busFor. destruct (gw_buses g !! app) as [b|] eqn:Hb; [by split; [apply advances_refl|]|]. split; [|apply lookup_insert_eq].
  split; try done; cbn; [by apply insert_subseteq|]. intros [Hlt Hinj]. split; cbn.
  - intros a b. rewrite lookup_insert_Some. intros [[_ <-]|[_ Ha]]; [lia|]. specialize (Hlt _ _ Ha). lia.
  - intros a a' b. rewrite !lookup_insert_Some. intros [[<- <-]|[Hne Ha]] [[<- E]|[Hne' Ha']]; try done.
    + specialize (Hlt _ _ Ha'). lia.
    + specialize (Hlt _ _ Ha). lia.
    + by eapply Hinj.
Qed.

Context (settings : ServerSettings).
Record caps_ok (run : GwRunnable) (id : SessionIdentity) (d : option DB) (g : Gw) (caps : Caps) : Prop := {
  co_auth : cp_Auth caps = id;
  co_bus : forall b, cp_Bus caps = Some b -> gw_buses g !! gr_AppID run = Some b;
  co_kv : forall app, cp_KV caps = Some app -> app = gr_AppID run;
  co_exec : forall c, cp_Exec caps = Some c -> gr_OwnerID run <> [] /\ sv_enableHostCommands settings = true /\
    sv_hostCommandAllowlist settings <> [] /\ c = mkLocalCommander (sv_hostCommandAllowlist settings) [] 0;
  co_env : forall m, cp_Env caps = Some m -> gr_OwnerID run <> [] /\
    exists d', d = Some d' /\ forall k v, m !! k = Some v -> secret_values d' !! (gr_AppID run, k) = Some v;
  co_fetch : forall f, cp_Fetch caps = Some f -> gr_OwnerID run <> [] /\
    exists d', d = Some d' /\ egress_hosts_of (gr_AppID run) d' <> [] /\ NewValidatedAllowlistFetcher (egress_hosts_of (gr_AppID run) d') = inr f }.

Lemma assemble_bus_spec c app g g' bus e : assemble_bus (hostCapabilitySources c) app g = (g', bus, e) ->
  advances g g' /\ forall b, bus = Some b -> gw_buses g' !! app = Some b.
Proof.
  unfold assemble_bus. cbn. destruct (busFor_spec app g) as [Ha Hb]. destruct (busFor app g). intros [= <- <- _]. split; [done|]. by intros b' [= <-].
Qed.
Lemma assemble_kv_spec c app g g' kv e : assemble_kv (hostCapabilitySources c) app g = (g', kv, e) ->
  advances g g' /\ forall a, kv = Some a -> a = app.
Proof.
  unfold assemble_kv. cbn. destruct (repo_call_reads (KVStore c app) g) as [Ha Hr]; [by destruct (gw_repo g)|].
  destruct (repo_call _ g) as [g1 res]. cbn in Ha, Hr. subst res. destruct (gw_repo g); cbn; [destruct c; cbn|]; intros [= <- <- _]; (split; [done|]); naive_solver.
Qed.
Lemma assemble_env_spec c app g g' env e : assemble_env (hostCapabilitySources c) app g = (g', env, e) ->
  advances g g' /\ forall m, env = Some m -> exists d, db_of (gw_repo g) = Some d /\ forall k v, m !! k = Some v -> secret_values d !! (app, k) = Some v.
Proof.
  unfold assemble_env. cbn. destruct (SecretsForApp_reads (gw_repo g) app) as [Hd Hm].
  destruct (repo_call_reads (fun r => SecretsForApp r app) g Hd) as [Ha Hr]. destruct (repo_call _ g) as [g1 res]. cbn in Ha, Hr.
  destruct res as [er|m]; intros [= <- <- _]; (split; [done|]); [done|]. intros m'. case_bool_decide; [done|]. intros [= <-]. by apply Hm.
Qed.
Lemma assemble_fetch_spec c app g g' fetch e : assemble_fetch (hostCapabilitySources c) app g = (g', fetch, e) ->
  advances g g' /\ forall f, fetch = Some f -> exists d, db_of (gw_repo g) = Some d /\ egress_hosts_of app d <> [] /\
    NewValidatedAllowlistFetcher (egress_hosts_of app d) = inr f.
Proof.
  unfold assemble_fetch. cbn. destruct (EgressAllowlist_reads (gw_repo g) app) as [Hd Hm].
  destruct (repo_call_reads (fun r => EgressAllowlist r app) g Hd) as [Ha Hr]. destruct (repo_call _ g) as [g1 res]. cbn in Ha, Hr.
  destruct res as [er|[|h l]]; [by intros [= <- <- _]|by intros [= <- <- _]|]. symmetry in Hr. destruct (Hm _ Hr) as (d & Hdb & El).
  destruct (NewValidatedAllowlistFetcher (h :: l)) as [bad|f] eqn:Hf; intros [= <- <- _]; (split; [done|]); [done|].
  intros f' [= <-]. exists d. rewrite <- El. by split_and!.
Qed.
Lemma assemble_ok c run id g g' caps e :
  AssembleHostCapabilities (hostCapabilitySources c) run id (hostCapabilityOptions settings) g = (g', caps, e) ->
  advances g g' /\ caps_ok run id (db_of (gw_repo g)) g' caps.
Proof.
  unfold AssembleHostCapabilities. case_bool_decide; [intros [= <- <- _]; split; [apply advances_refl|by split]|].
  destruct (assemble_bus _ _ g) as [[g1 bus] e1] eqn:E1. destruct (assemble_bus_spec _ _ _ _ _ _ E1) as [A1 B1].
  destruct (assemble_kv _ _ g1) as [[g2 kv] e2] eqn:E2. destruct (assemble_kv_spec _ _ _ _ _ _ E2) as [A2 B2].
  assert (A12 := advances_trans _ _ _ A1 A2).
  case_bool_decide as Ho.
  { intros [= <- <- _]. split; [done|]. split; try done; cbn. intros b Hb. eapply lookup_weaken; [by apply B1|apply A2]. }
  destruct (assemble_env _ _ g2) as [[g3 env] e3] eqn:E3. destruct (assemble_env_spec _ _ _ _ _ _ E3) as [A3 B3].
  destruct (assemble_fetch _ _ g3) as [[g4 fetch] e4] eqn:E4. destruct (assemble_fetch_spec _ _ _ _ _ _ E4) as [A4 B4].
  assert (A13 := advances_trans _ _ _ A12 A3). intros [= <- <- _]. split; [by eapply advances_trans|].
  rewrite (av_db _ _ A12) in B3. rewrite (av_db _ _ A13) in B4. split; cbn; try done.
  - intros b Hb. eapply lookup_weaken; [by apply B1|]. etrans; [apply A2|]. etrans; [apply A3|apply A4].
  - intros x. destruct (_ && _) eqn:Hx; [|done]. apply andb_true_iff in Hx as [? Hx%negb_true_iff%bool_decide_eq_false_1]. intros [= <-]. by split_and!.
  - intros m Hm. split; [done|]. by apply B3.
  - intros f Hf. split; [done|]. by apply B4.
Qed.
(** ** A session *)

Context (quote : bytes -> bytes) (parse : bytes -> option (gmap bytes VMGuest)).
Context (guest : Launch -> option Repo -> option Repo * GuestRun) (machine : Launch -> VMRun).
Context (vmGuestFile : bytes) (file : option bytes).

Definition shown (e : Event) : bool := match e with ExitStatus _ | Close => false | _ => true end.
Definition launches (l : list Event) : list Launch := omap (fun e => match e with Run x => Some x | _ => None end) l.
(** A guest does what it likes to the repository; the server it leaves alone. *)
Record keeps_server (g g' : Gw) : Prop := {
  ks_slots : gw_slots g' = gw_slots g; ks_registry : gw_registry g' = gw_registry g; ks_buses : gw_buses g' = gw_buses g;
  ks_next : gw_next_bus g' = gw_next_bus g }.
Lemma repo_call_server {A} (f : option Repo -> option Repo * A) g : keeps_server g (repo_call f g).1.
Proof. unfold repo_call. by destruct (f (gw_repo g)). Qed.
Lemma keeps_server_trans g1 g2 g3 : keeps_server g1 g2 -> keeps_server g2 g3 -> keeps_server g1 g3.
Proof. intros [] []. split; congruence. Qed.
Lemma keeps_buses_ok g g' : keeps_server g g' -> buses_ok g -> buses_ok g'.
Proof. intros [_ _ Hb Hn] [H1 H2]. unfold buses_ok. by rewrite Hb, Hn. Qed.

Lemma launches_app l l' : launches (l ++ l') = launches l ++ launches l'.
Proof. apply omap_app. Qed.
Lemma launches_quiet {A} (f : A -> Event) l : (forall a, shown (f a) = true /\ forall x, f a <> Run x) ->
  launches (map f l) = [] /\ Forall (fun e => shown e = true) (map f l).
Proof.
  intros Hf. induction l as [|a l [IH1 IH2]]; [by split|]. cbn. destruct (Hf a) as [Hs Hn]. split; [|by constructor].
  destruct (f a) eqn:E; try exact IH1. by destruct (Hn l0).
Qed.
(** The launch of an application: its bytes, its capabilities and what the client asked for. *)
Definition launch_of (run : GwRunnable) (caps : Caps) (wh : Z * Z) (args : list bytes) (leaf : leafChannel) (l : Launch) : Prop :=
  match l with
  | LaunchCLI wasm c a => gr_AppType run <> str "vm" /\ wasm = gr_WASM run /\ c = caps /\ a = args
  | LaunchTUI wasm c w h => gr_AppType run <> str "vm" /\ gr_AppType run <> str "cli" /\ args = [] /\ wasm = gr_WASM run /\ c = caps /\ 0 < w /\ 0 < h
  | LaunchVM vm lf w h => gr_AppType run = str "vm" /\ lookupVMGuest parse vmGuestFile file (gr_AppID run) = inr vm /\ vm_validate vm = true /\ lf = leaf /\ 0 < w /\ 0 < h
  end.
Definition part_ok (run : GwRunnable) caps wh args leaf (ev : list Event) : Prop :=
  Forall (fun e => shown e = true) ev /\ (length (launches ev) <= 1)%nat /\ Forall (launch_of run caps wh args leaf) (launches ev).
Lemma run_app_spec run caps wh args leaf g g' ev res : gr_AppType run <> str "vm" ->
  runSessionArgsStatus guest (gr_WASM run) (gr_AppType run) caps wh args g = (g', ev, res) ->
  keeps_server g g' /\ part_ok run caps wh args leaf ev.
Proof.
  intros Hvm. unfold runSessionArgsStatus. destruct (_ || _) eqn:Hmode.
  - pose proof (repo_call_server (guest (LaunchCLI (gr_WASM run) caps args)) g) as Hk. destruct (repo_call _ g) as [g1 o].
    destruct (launches_quiet Out (gs_written o) ltac:(done)) as [Hq Hs]. match goal with |- context [map Out _ ++ ?t] => set (tail := t) end.
    assert (Ht : launches tail = [] /\ Forall (fun e => shown e = true) tail)
      by (subst tail; destruct (gs_err o), (bool_decide (gs_goodbye o = [])); split; by repeat constructor).
    clearbody tail. destruct Ht as [Hq2 Hs2]. intros [= <- <- _]. split; [done|]. split; [constructor; [done|by apply Forall_app]|].
    change (launches (Run ?b :: ?l)) with (b :: launches l). rewrite launches_app, Hq, Hq2. cbn. split; [lia|]. by repeat constructor.
  - assert (Hcli : gr_AppType run <> str "cli") by (intros E; rewrite E in Hmode; by vm_compute in Hmode).
    apply orb_false_iff in Hmode as [_ Ha%negb_false_iff%bool_decide_eq_true_1]. 
    assert (Hwh : exists w h, (if (wh.1 <=? 0) || (wh.2 <=? 0) then (80, 24) else wh) = (w, h) /\ 0 < w /\ 0 < h).
    { destruct wh as [w h]. cbn. destruct ((w <=? 0) || (h <=? 0)) eqn:E; [by exists 80, 24|]. apply orb_false_iff in E as [? ?]. exists w, h. split_and!; [done|lia|lia]. }
    destruct Hwh as (w & h & -> & Hw & Hh).
    pose proof (repo_call_server (guest (LaunchTUI (gr_WASM run) caps w h)) g) as Hk. destruct (repo_call _ g) as [g1 o]. intros [= <- <- _]. split; [done|].
    destruct (launches_quiet Out (gs_written o) ltac:(done)) as [Hq Hs]. split; [repeat constructor; apply Forall_app; by repeat constructor|].
    change (launches (?a :: Run ?b :: ?l)) with (b :: launches l). rewrite launches_app, Hq. cbn. split; [lia|]. repeat constructor; tauto.
Qed.
Lemma lookup_valid app vm : lookupVMGuest parse vmGuestFile file app = inr vm -> vm_validate vm = true.
Proof.
  unfold lookupVMGuest. case_bool_decide; [done|]. destruct (loadVMGuests _ _) as [m|]; [|done]. destruct (m !! app) as [x|]; [|done].
  destruct (vm_validate x) eqn:Hv; [|done]. by intros [= <-].
Qed.
Lemma run_vm_spec run caps wh args leaf ev res : gr_AppType run = str "vm" ->
  runVMSession quote parse machine vmGuestFile file run leaf wh = (ev, res) -> part_ok run caps wh args leaf ev.
Proof.
  intros Hvm. unfold runVMSession. destruct (lookupVMGuest _ _ _ _) as [e|vm] eqn:Hl; [intros [= <- _]; split; [repeat constructor|cbn; split; [lia|constructor]]|].
  assert (Hwh : exists w h, (if (0 <? wh.1) && (0 <? wh.2) then wh else (80, 24)) = (w, h) /\ 0 < w /\ 0 < h).
  { destruct wh as [w h]. cbn. destruct ((0 <? w) && (0 <? h)) eqn:E; [|by exists 80, 24]. apply andb_true_iff in E as [? ?]. exists w, h. split_and!; [done|lia|lia]. }
  destruct Hwh as (w & h & -> & Hw & Hh). cbv zeta. set (vr := machine _).
  destruct (launches_quiet (fun o : bool * bytes => if o.1 then Out o.2 else ErrOut o.2) (vr_out vr) ltac:(by intros [[] ?])) as [Hq Hs].
  assert (Hlv := lookup_valid _ _ Hl).
  destruct (vr_status vr); intros [= <- _]; (split; [repeat constructor; rewrite ?Forall_app; by repeat constructor|]);
    cbn [app]; change (launches (Run ?b :: ?l)) with (b :: launches l); rewrite ?launches_app, Hq; cbn; (split; [lia|]); by repeat constructor.
Qed.
(** The application a leaf runs, as the gateway sees it. *)
Definition gateway_runnable (run : SqlApps.catalog.Runnable) : GwRunnable :=
  mkGwRunnable (app_ID (rn_App run)) (ap_name (app_row (rn_App run))) (ap_author (app_row (rn_App run))) (rn_DeploymentID run)
    (ar_digest (am_row (rn_Artifact run))) (ap_kind (app_row (rn_App run))) (rn_WASM run).
(** A guest that may run: the name of the application and the keys of the client admit it,
    its bytes are those of the active deployment, the session is on record, and it has the
    capabilities of the application and an identity that names no author. [r0] is the
    repository when the connection opened, [r] when the session starts. *)
Definition guest_allowed (r0 r : Repo) (handle fp draw : bytes) (who : SessionIdentity) wh args leaf (g' : Gw) (l : Launch) : Prop :=
  exists author app run d1 caps,
    let gr := gateway_runnable run in
    let id := appRelativeIdentity who (gr_OwnerID gr) in
    split_handle handle = Some (author, app) /\
    may_run (r_db r) author app fp (si_OwnerID who) run /\ VerifyDigest_ok run /\
    started (mkSessionInput draw (gr_AppID gr) (gr_DeployID gr) (gr_ArtifactDigest gr) [] (summary id) zero_time false) (r_db r) d1 /\
    caps_ok gr id (Some d1) g' caps /\ launch_of gr caps wh args leaf l /\
    si_OwnerID id = [] /\ (si_OwnsApp id = true -> device_of (r_db r0) fp (gr_OwnerID gr)).

Lemma ResolveRunnable_sound (r : Repo) handle who fp b' run :
  identity_ok (r_db r) -> catalog_ok (r_db r) -> (if bool_decide (si_Kind who = kindSSHKey) then si_User who else []) = fp ->
  Gateway.gateway.ResolveRunnable (Some r) handle who = (b', inr run) ->
  exists author app lr, split_handle handle = Some (author, app) /\ may_run (r_db r) author app fp (si_OwnerID who) lr /\ VerifyDigest_ok lr /\
    run = gateway_runnable lr.
Proof.
  intros Hid Hok <-. unfold Gateway.gateway.ResolveRunnable, requireRepo. destruct (split_handle handle) as [[author app]|]; [|done].
  pose proof (leaf_sound r author app (if bool_decide (si_Kind who = kindSSHKey) then si_User who else []) (si_OwnerID who)) as Hl.
  cbv zeta. destruct (ResolveLeafRunnable r author app _ (si_OwnerID who)) as [r1 [e|lr]]; [by destruct e|]. intros [= _ <-].
  destruct (Hl lr Hid Hok eq_refl) as [Hm Hv]. by exists author, app, lr.
Qed.
(** Resolving an application reads. *)
Lemma resolve_db (r : Repo) u n : r_db (SqlApps.catalog.ResolveRunnable r u n).1 = r_db r.
Proof.
  unfold SqlApps.catalog.ResolveRunnable, guarded. destruct (head _); [done|].
  match goal with |- context [query_row r ?f] => pose proof (proj1 (query_row_cases r f)) as H1; destruct (query_row r f) as [r1 [e|[[[app dep] m] s]]] end; cbn in H1; [done|].
  destruct (_ || _); [done|].
  match goal with |- context [query_row r1 ?f] => pose proof (proj1 (query_row_cases r1 f)) as H2; destruct (query_row r1 f) as [r2 [e|w]] end; cbn in H2; [by etrans|].
  cbn. destruct (_ || _); cbn; by etrans.
Qed.
Lemma leaf_db (r : Repo) h n fp who : r_db (ResolveLeafRunnable r h n fp who).1 = r_db r.
Proof.
  unfold ResolveLeafRunnable, guarded. destruct (head _); [done|].
  match goal with |- context [query_row r ?f] => pose proof (proj1 (query_row_cases r f)) as H1; destruct (query_row r f) as [r1 [e|[u a]]] end; cbn in H1; [done|].
  destruct (au_suspended a); [done|]. pose proof (resolve_db r1 u n) as H2. destruct (SqlApps.catalog.ResolveRunnable r1 u n) as [r2 [e|run]]; cbn in H2; [cbn; congruence|].
  cbv zeta. destruct (_ || _); [cbn; congruence|]. destruct (eqb _ []); [cbn; congruence|].
  match goal with |- context [query_count r2 ?f] => pose proof (proj1 (query_count_cases r2 f)) as H3; destruct (query_count r2 f) as [r3 [e|[]]] end; cbn in H3; try (cbn; congruence).
  match goal with |- context [query_count r3 ?f] => pose proof (proj1 (query_count_cases r3 f)) as H4; destruct (query_count r3 f) as [r4 [e|[]]] end; cbn in H4; cbn; congruence.
Qed.
Lemma ResolveRunnable_db (r : Repo) handle who : exists r', (Gateway.gateway.ResolveRunnable (Some r) handle who).1 = Some r' /\ r_db r' = r_db r.
Proof.
  unfold Gateway.gateway.ResolveRunnable, requireRepo. destruct (split_handle handle) as [[author app]|]; [|by eexists]. cbv zeta.
  match goal with |- context [ResolveLeafRunnable r ?a ?b ?c ?d] => pose proof (leaf_db r a b c d) as Hd; destruct (ResolveLeafRunnable r a b c d) as [r1 res] end. by exists r1.
Qed.
Lemma StartSession_sound (r : Repo) draw app dep digest sum b' res :
  Gateway.gateway.StartSession (Some r) draw app dep digest sum = (b', res) ->
  exists r', b' = Some r' /\ forall sid, res = inr sid -> sid = draw /\ started (mkSessionInput draw app dep digest [] sum zero_time false) (r_db r) (r_db r').
Proof.
  unfold Gateway.gateway.StartSession, requireRepo.
  destruct (SqlApps.catalog.StartSession r _) as [r1 [e|[]]] eqn:Hs; intros [= <- <-]; exists r1; (split; [done|]).
  - by destruct e.
  - intros sid [= <-]. split; [done|]. by apply session_admission.
Qed.
Lemma caps_keep run id d g g' caps : gw_buses g' = gw_buses g -> caps_ok run id d g caps -> caps_ok run id d g' caps.
Proof. intros Hb []. split; try done. by rewrite Hb. Qed.

(** What a session shows its client: output, at most one launch, one exit status, the end. *)
Definition session_trace (P : Launch -> Prop) (tr : list Event) : Prop :=
  exists ev n, tr = ev ++ [ExitStatus n; Close] /\ Forall (fun e => shown e = true) ev /\ (length (launches ev) <= 1)%nat /\ Forall P (launches ev).
Lemma refuse_trace P m : session_trace P (refuse m).
Proof. exists [ErrOut (m ++ crlf)], 1. split_and!; [done|by constructor|cbn; lia|constructor]. Qed.

Lemma run_registered_spec cancelled sid run id wh args leaf g g' tr :
  run_registered quote parse guest machine settings vmGuestFile file cancelled sid run id wh args leaf g = (g', tr) ->
  gw_slots g' = gw_slots g /\ gw_registry g' = delete sid (gw_registry g) /\ gw_buses g ⊆ gw_buses g' /\ (buses_ok g -> buses_ok g') /\
  exists caps, caps_ok run id (db_of (gw_repo g)) g' caps /\ session_trace (launch_of run caps wh args leaf) tr.
Proof.
  unfold run_registered. cbv zeta. set (g0 := with_registry g _). destruct (AssembleHostCapabilities _ run id _ g0) as [[g1 caps] e] eqn:Ha.
  destruct (assemble_ok _ _ _ _ _ _ _ Ha) as [Adv Hc].
  assert (Hpart : exists g2 ev log truncated status, (if bool_decide (gr_AppType run = str "vm")
     then let '(ev, res) := runVMSession quote parse machine vmGuestFile file run leaf wh in (g1, ev, res)
     else runSessionArgsStatus guest (gr_WASM run) (gr_AppType run) caps wh args g1) = (g2, ev, (log, truncated, status)) /\
     keeps_server g1 g2 /\ part_ok run caps wh args leaf ev).
  { case_bool_decide as Hvm.
    - destruct (runVMSession _ _ _ _ _ run leaf wh) as [ev [[log tr'] st]] eqn:Hr. exists g1, ev, log, tr', st. split_and!; [done|done|].
      eapply run_vm_spec; [exact Hvm|exact Hr].
    - destruct (runSessionArgsStatus guest _ _ caps wh args g1) as [[g2 ev] [[log tr'] st]] eqn:Hr. exists g2, ev, log, tr', st.
      split; [done|]. eapply run_app_spec; [exact Hvm|exact Hr]. }
  destruct Hpart as (g2 & ev & log & truncated & status & -> & Hk & Hev & Hone & Hl).
  pose proof (repo_call_server (fun b => Gateway.gateway.RecordSessionLog b sid log truncated) g2) as K1. destruct (repo_call _ g2) as [g3 x]. cbn in K1.
  pose proof (repo_call_server (fun b => Gateway.gateway.EndSession b sid) g3) as K2. destruct (repo_call _ g3) as [g4 y]. cbn in K2.
  assert (K : keeps_server g1 g4) by (eapply keeps_server_trans; [exact Hk|by eapply keeps_server_trans]).
  intros [= <- <-]. pose proof K as [Ks Kr Kb Kn]. cbn. split_and!.
  - by rewrite Ks, (av_slots _ _ Adv).
  - rewrite Kr, (av_registry _ _ Adv). cbn. apply delete_insert_eq.
  - rewrite Kb. apply Adv.
  - intros Hb. change (buses_ok g4). apply (keeps_buses_ok g1); [done|]. by apply Adv.
  - exists caps. split; [by apply (caps_keep _ _ _ g1)|]. exists ev, status. by split_and!.
Qed.

(** How far a session gets: it is refused, or the application is resolved, the session
    recorded, and the rest runs from there. *)
Inductive session_course (r : Repo) handle draw who cancelled wh args leaf (g : Gw) : Gw -> list Event -> Prop :=
| course_full m : killswitch.acquireSlot (sv_maxConcurrentSessions settings) (gw_slots g) = None -> session_course r handle draw who cancelled wh args leaf g g (refuse m)
| course_refused n b m : killswitch.acquireSlot (sv_maxConcurrentSessions settings) (gw_slots g) = Some n ->
    session_course r handle draw who cancelled wh args leaf g (with_repo g b) (refuse m)
| course_run n author app lr r2 g2 tr (gr := gateway_runnable lr) (id := appRelativeIdentity who (gr_OwnerID gr)) :
    killswitch.acquireSlot (sv_maxConcurrentSessions settings) (gw_slots g) = Some n ->
    split_handle handle = Some (author, app) ->
    may_run (r_db r) author app (if bool_decide (si_Kind who = kindSSHKey) then si_User who else []) (si_OwnerID who) lr -> VerifyDigest_ok lr ->
    started (mkSessionInput draw (gr_AppID gr) (gr_DeployID gr) (gr_ArtifactDigest gr) [] (summary id) zero_time false) (r_db r) (r_db r2) ->
    run_registered quote parse guest machine settings vmGuestFile file cancelled draw gr id wh args leaf (with_repo (with_slots g n) (Some r2)) = (g2, tr) ->
    session_course r handle draw who cancelled wh args leaf g (with_slots g2 (gw_slots g)) tr.

Lemma session_cases (r : Repo) handle draw who cancelled wh args leaf g g' tr :
  gw_repo g = Some r -> identity_ok (r_db r) -> catalog_ok (r_db r) -> 0 <= gw_slots g ->
  startSessionArgs quote parse guest machine settings vmGuestFile file handle draw who cancelled wh args leaf g = (g', tr) ->
  session_course r handle draw who cancelled wh args leaf g g' tr.
Proof.
  intros Hrepo Hid Hok Hslots. unfold startSessionArgs. destruct (killswitch.acquireSlot _ (gw_slots g)) as [n|] eqn:Hacq; [|intros [= <- <-]; by apply course_full].
  assert (Hrel : killswitch.releaseSlot (sv_maxConcurrentSessions settings) n = gw_slots g) by (by apply acquire_release).
  assert (Href : forall b, with_slots (with_repo (with_slots g n) b) (killswitch.releaseSlot (sv_maxConcurrentSessions settings) n) = with_repo g b)
    by (intros; rewrite Hrel; by destruct g).
  unfold with_slot, repo_call at 1. cbn [gw_repo with_slots]. rewrite Hrepo.
  destruct (ResolveRunnable_db r handle who) as (r1 & Hr1 & Hd1). destruct (Gateway.gateway.ResolveRunnable (Some r) handle who) as [b1 res] eqn:Hres.
  cbn in Hr1. subst b1. destruct res as [e|run]; [intros [= <- <-]; cbn [gw_slots with_repo with_slots]; rewrite Href; by eapply course_refused|].
  destruct (ResolveRunnable_sound _ _ _ _ _ _ Hid Hok eq_refl Hres) as (author & app & lr & Hh & Hm & Hv & ->).
  set (gr := gateway_runnable lr). cbv zeta. set (id := appRelativeIdentity who (gr_OwnerID gr)).
  unfold startAccountedSession, repo_call at 1. cbn [gw_repo with_repo with_slots].
  destruct (Gateway.gateway.StartSession (Some r1) draw _ _ _ (summary id)) as [b2 res2] eqn:Hst.
  destruct (StartSession_sound _ _ _ _ _ _ _ _ Hst) as (r2 & -> & Hstd). change (with_repo (with_repo ?a _) ?b) with (with_repo a b).
  destruct res2 as [e|sid]; [intros [= <- <-]; cbn [gw_slots with_repo with_slots]; rewrite Href; by eapply course_refused|].
  destruct (Hstd sid eq_refl) as [-> Hs]. rewrite Hd1 in Hs. destruct (run_registered _ _ _ _ _ _ _ _ _ _ _ _ _ _ _) as [g2 ev] eqn:Hw.
  intros [= <- <-]. rewrite (proj1 (run_registered_spec _ _ _ _ _ _ _ _ _ _ Hw)). cbn [gw_slots with_repo with_slots]. rewrite Hrel.
  by eapply course_run.
Qed.

(** C8 (a session of the leaf gateway): whatever the repository, the guest, the machines and
    the client do, a session takes a slot and gives it back, leaves the registry as it was,
    and tells its client exactly one exit status, last. It runs at most one guest: the active
    deployment of a live application that the proved key of the client admits, byte for byte
    what its digest says, after the session is on record within the quota of the author. The
    guest gets the store and the bus of its application, host commands only if the operator
    allows them, the secrets and the validated egress hosts of that application alone, and an
    identity that names no author and owns the application only when the key was that of an
    active device of the author as the connection opened. *)
Theorem leaf_session (r0 r : Repo) (fp ssh handle draw : bytes) cancelled wh args leaf g g' tr (who : SessionIdentity)
  (Hwho : who = (identityFromConn (Some r0) fp ssh).2)
  (Hrepo : gw_repo g = Some r) (Hid : identity_ok (r_db r)) (Hok : catalog_ok (r_db r))
  (Hslots : 0 <= gw_slots g) (Hnew : gw_registry g !! draw = None) (Hbus : buses_ok g)
  (Hrun : startSessionArgs quote parse guest machine settings vmGuestFile file handle draw who cancelled wh args leaf g = (g', tr)) :
  gw_slots g' = gw_slots g /\ gw_registry g' = gw_registry g /\ gw_buses g ⊆ gw_buses g' /\ buses_ok g' /\
  session_trace (guest_allowed r0 r handle fp draw who wh args leaf g') tr.
Proof.
  destruct (connection_identity r0 fp ssh) as (r0' & id0 & E & _ & Hfp & Hown). rewrite E in Hwho. cbn in Hwho. subst id0 fp.
  destruct (session_cases _ _ _ _ _ _ _ _ _ _ _ Hrepo Hid Hok Hslots Hrun) as [m _|n b m _|n author app lr r2 g2 tr gr id Hacq Hh Hm Hv Hs Hw];
    [split_and!; [done..|apply refuse_trace]|split_and!; [done..|apply refuse_trace]|].
  destruct (run_registered_spec _ _ _ _ _ _ _ _ _ _ Hw) as (Es & Er & Eb & Eo & caps & Hc & ev' & n' & -> & Hsh & Hone & Hl).
  cbn in Es, Er, Eb, Hc |- *. split_and!; [done|by rewrite Er, delete_id|done|by apply Eo|]. exists ev', n'. split_and!; try done.
  eapply Forall_impl; [exact Hl|]. intros l Hlaunch. exists author, app, lr, (r_db r2), caps. fold gr. cbv zeta. fold id. split_and!; try done.
  - by eapply caps_keep; [|exact Hc].
  - subst id. cbn. intros [[_ Ho%negb_true_iff%bool_decide_eq_false_1]%andb_true_iff Heq%bool_decide_eq_true_1]%andb_true_iff.
    destruct (Hown Ho) as [_ Hdev]. by rewrite Heq in Hdev.
Qed.
(** The slots, the registry and the suspended deployments of the model of concurrent sessions
    are those of the server. *)
Record mirrors (g : Gw) (d : DB) (s : killswitch.St) : Prop := {
  mi_slots : killswitch.st_slots s = gw_slots g; mi_registry : killswitch.st_registry s = gw_registry g; mi_suspended : killswitch.st_suspended s = suspended d }.
Definition registry_entry (gr : GwRunnable) : killswitch.sessionEntry := killswitch.mkEntry (gr_OwnerID gr) (gr_AppID gr) (gr_DeployID gr).
Definition session_labels (sid : bytes) (e : killswitch.sessionEntry) : list killswitch.Label :=
  [killswitch.LAcquire sid; killswitch.LResolve sid e; killswitch.LAccount sid; killswitch.LRegister sid; killswitch.LUnregister sid; killswitch.LRelease sid].
Lemma session_labels_run max n (s : killswitch.St) sid e :
  killswitch.acquireSlot max (killswitch.st_slots s) = Some n -> sid ∉ killswitch.st_used s -> killswitch.se_deploy e ∉ killswitch.st_suspended s ->
  exists s', killswitch.steps max (session_labels sid e) s = Some s' /\ killswitch.st_slots s' = killswitch.releaseSlot max n /\
    killswitch.st_registry s' = delete sid (killswitch.st_registry s).
Proof.
  intros Hn Hu Hs. unfold session_labels. cbn [killswitch.steps killswitch.step]. rewrite bool_decide_eq_false_2, Hn by done.
  cbn. repeat first [rewrite lookup_insert_eq; cbn | rewrite bool_decide_eq_false_2 by done; cbn]. eexists. split; [done|]. cbn. split; [done|]. apply delete_insert_eq.
Qed.
Lemma refused_labels_run max n (s : killswitch.St) sid : killswitch.acquireSlot max (killswitch.st_slots s) = Some n -> sid ∉ killswitch.st_used s ->
  exists s', killswitch.steps max [killswitch.LAcquire sid; killswitch.LRefuse sid; killswitch.LRelease sid] s = Some s' /\
    killswitch.st_slots s' = killswitch.releaseSlot max n /\ killswitch.st_registry s' = killswitch.st_registry s.
Proof.
  intros Hn Hu. cbn [killswitch.steps killswitch.step]. rewrite bool_decide_eq_false_2, Hn by done.
  cbn. rewrite lookup_insert_eq. cbn. rewrite lookup_insert_eq. cbn. by eexists.
Qed.
(** What the code does in one go the model of concurrent sessions does in steps: a session
    that is refused takes a slot at most and gives it back, one that runs a guest goes through
    the six steps from its slot to its end, and slots and registry end as in the code. *)
Lemma session_steps (r : Repo) handle draw who cancelled wh args leaf g g' tr s :
  gw_repo g = Some r -> identity_ok (r_db r) -> catalog_ok (r_db r) -> 0 <= gw_slots g ->
  mirrors g (r_db r) s -> draw ∉ killswitch.st_used s ->
  startSessionArgs quote parse guest machine settings vmGuestFile file handle draw who cancelled wh args leaf g = (g', tr) ->
  exists ls s', killswitch.steps (sv_maxConcurrentSessions settings) ls s = Some s' /\
    killswitch.st_slots s' = gw_slots g' /\ killswitch.st_registry s' = gw_registry g' /\
    (launches tr <> [] -> exists lr, ls = session_labels draw (registry_entry (gateway_runnable lr))).
Proof.
  intros Hrepo Hid Hok Hslots [Ms Mr Md] Hu Hrun. pose proof (fun n => acquire_release (sv_maxConcurrentSessions settings) (gw_slots g) n Hslots) as Hrel.
  destruct (session_cases _ _ _ _ _ _ _ _ _ _ _ Hrepo Hid Hok Hslots Hrun) as [m _|n b m Hacq|n author app lr r2 g2 tr gr id Hacq Hh Hm Hv Hs Hw].
  - exists [], s. by split_and!.
  - rewrite <- Ms in Hacq. destruct (refused_labels_run _ _ _ _ Hacq Hu) as (s' & Hst & E1 & E2). eexists _, s'. split; [exact Hst|].
    rewrite E1, E2, Hrel by (by rewrite <- Ms). by split_and!.
  - rewrite <- Ms in Hacq. destruct (session_labels_run _ _ _ _ (registry_entry gr) Hacq Hu) as (s' & Hst & E1 & E2).
    { rewrite Md. destruct (sd_run _ _ _ Hs) as (a & x & ar & _ & _ & _ & Hopen & _). exact Hopen. }
    eexists _, s'. split; [exact Hst|]. destruct (run_registered_spec _ _ _ _ _ _ _ _ _ _ Hw) as (_ & Er & _).
    rewrite E1, E2, Hrel, Mr by (by rewrite <- Ms). cbn in Er |- *. rewrite Er. split_and!; [done|done|]. intros _. by exists lr.
Qed.
End Laws.

(** ** The requests of a client *)

(** The lengths of what ssh.Unmarshal takes out of a payload of [n] bytes. *)
Definition wire_ok (r : Request) : Prop :=
  match r with
  | ReqExec n (Some cmd) => n = 4 + len cmd
  | ReqEnv n (Some (name, value)) => n = 4 + len name + 4 + len value
  | _ => True
  end.
Record leaf_ok (l : leafChannel) : Prop := {
  lo_count : Z.of_nat (size (lf_env l)) <= maxLeafEnvVars;
  lo_env : forall name value, lf_env l !! name = Some value -> name <> [] /\ len name <= maxLeafEnvName /\ len value <= maxLeafEnvValue;
  lo_cmd : len (lf_cmd l) <= maxLeafRawCmdLen }.
Record channel_ok (c : Channel) : Prop := {
  co_dims : MinWidth <= ch_w c <= MaxWidth /\ MinHeight <= ch_h c <= MaxHeight /\ ch_w c * ch_h c <= MaxCells;
  co_leaf : leaf_ok (ch_leaf c) }.
Definition starts (l : list ChannelEvent) : list (list bytes * leafChannel) := omap (fun e => match e with StartWith a l => Some (a, l) | _ => None end) l.
Definition replies (l : list ChannelEvent) : list bool := omap (fun e => match e with Reply b => Some b | _ => None end) l.
Definition cut_short (l : list ChannelEvent) : bool := existsb (fun e => match e with InvalidCommand | CommandPanic => true | _ => false end) l.
(** A start runs what the request said: a shell without arguments, or the command as parsed. *)
Definition start_ok (s : list bytes * leafChannel) : Prop :=
  leaf_ok s.2 /\ (if lf_exec s.2 then execprotocol.ParseExecCommand (lf_cmd s.2) = Ok s.1 else s.1 = [] /\ lf_cmd s.2 = []).

(** A command that is not too long to be looked at, and what parsing it comes to. *)
Definition parsed (r : Request) : option (res execprotocol.ExecErr (list bytes)) :=
  match r with
  | ReqExec n (Some cmd) => if n <=? 4 + maxLeafRawCmdLen then Some (execprotocol.ParseExecCommand cmd) else None
  | _ => None
  end.
(** A command that does not parse is the last request that is looked at. *)
Definition last_request (r : Request) : bool := match parsed r with Some (Err _) => true | _ => false end.
Fixpoint looked_at (l : list Request) : list Request :=
  match l with [] => [] | r :: l => r :: (if last_request r then [] else looked_at l) end.
(** The requests that are accepted. *)
Definition accepted (r : Request) : bool :=
  match r with
  | ReqPTY (Some p) => validateRequestDimensions (pt_Columns p) (pt_Rows p)
  | ReqWindow (Some (w, h)) => validateRequestDimensions w h
  | ReqShell => true
  | ReqExec _ _ => match parsed r with Some _ => true | None => false end
  | ReqEnv _ (Some (name, value)) => negb (bool_decide (name = [])) && (len name <=? maxLeafEnvName) && (len value <=? maxLeafEnvValue)
  | _ => false
  end.
Definition opens (r : Request) : bool := match r with ReqShell => true | _ => match parsed r with Some (Ok _) => true | _ => false end end.

Lemma dims_ok c h : validateRequestDimensions c h = true -> MinWidth <= c <= MaxWidth /\ MinHeight <= h <= MaxHeight /\ c * h <= MaxCells.
Proof. unfold validateRequestDimensions. intros Hv%negb_true_iff. repeat apply orb_false_iff in Hv as [Hv ?]. zbool. lia. Qed.
Lemma leaf_env_ok l n name value t term modes cmd ex : leaf_ok l -> n = 4 + len name + 4 + len value ->
  (4 + maxLeafEnvName + 4 + maxLeafEnvValue <? n) || bool_decide (name = []) || (maxLeafEnvName <? len name) || (maxLeafEnvValue <? len value) = false ->
  len cmd <= maxLeafRawCmdLen ->
  leaf_ok (mkLeaf t term modes (if Z.of_nat (size (lf_env l)) <? maxLeafEnvVars then <[name := value]> (lf_env l) else lf_env l) cmd ex).
Proof.
  intros [Hc He _] _ Hv Hl. apply orb_false_iff in Hv as [[[_ Hn%bool_decide_eq_false_1]%orb_false_iff H1]%orb_false_iff H2].
  destruct (Z.of_nat (size (lf_env l)) <? maxLeafEnvVars) eqn:Hs; split; try done; cbn.
  - rewrite map_size_insert. destruct (lf_env l !! name); cbn; lia.
  - intros k v. rewrite lookup_insert_Some. intros [[<- <-]|[_ Hk]]; [split_and!; [done|lia|lia]|by eapply He].
Qed.

Lemma lex_loop_total n command words word inWord quote : (length command <= n)%nat -> lex_loop command words word inWord quote <> Panic.
Proof.
  revert command words word inWord quote. induction n as [|n IH]; intros [|ch rest] words word inWord quote Hn; cbn [length] in Hn; try lia; cbn [lex_loop].
  1,2: destruct (negb _); [done|]; destruct inWord; [|done]; unfold appendLexWord; repeat (case_match; try done).
  assert (Hr : forall w x b q, lex_loop rest w x b q <> Panic) by (intros; apply IH; lia).
  assert (Hq : forall b q, match rest with [] => Err trailing_escape | c :: rest' => lex_loop rest' words (word ++ [c]) b q end <> Panic)
    by (intros b q; destruct rest as [|c rest']; [done|]; apply IH; cbn in Hn; lia).
  destruct (lex_control ch); [done|]. destruct (quote =? 0).
  - destruct (is_quote ch); [apply Hr|]. destruct (ch =? 92); [apply Hq|]. destruct (is_blank ch); [|destruct (is_operator ch); [done|apply Hr]].
    destruct inWord; [|apply Hr]. unfold appendLexWord. destruct (_ <? _); [done|]. destruct (_ <=? _); [done|apply Hr].
  - destruct (ch =? quote); [apply Hr|]. destruct (_ && _); [apply Hq|apply Hr].
Qed.
(** Parsing a command does not panic. *)
Lemma ParseExecCommand_total cmd : execprotocol.ParseExecCommand cmd <> Panic.
Proof.
  unfold execprotocol.ParseExecCommand, Lex. destruct (_ =? 0); [done|]. destruct (_ <? _); [done|]. destruct (_ <? _); [done|].
  pose proof (lex_loop_total (length cmd) cmd [] [] false 0 ltac:(lia)) as Hl. by destruct (lex_loop _ _ _ _ _).
Qed.
Definition started_once (c c' : Channel) (l : list (list bytes * leafChannel)) : Prop :=
  (l = [] /\ ch_started c' = ch_started c) \/ (ch_started c = false /\ ch_started c' = true /\ length l = 1%nat).
Lemma handle_start_spec c args cmd ex c' ev : channel_ok c -> len cmd <= maxLeafRawCmdLen ->
  (if ex : bool then execprotocol.ParseExecCommand cmd = Ok args else args = [] /\ cmd = []) ->
  handle_start c args cmd ex = (c', ev) ->
  channel_ok c' /\ Forall start_ok (starts ev) /\ started_once c c' (starts ev) /\ (ch_started c || negb (bool_decide (starts ev = []))) = true /\ replies ev = [true] /\ cut_short ev = false.
Proof.
  intros Hc Hl Ha. unfold handle_start. destruct (ch_started c) eqn:Hs; intros [= <- <-].
  - split_and!; try done. by left.
  - assert (Hok : leaf_ok (mkLeaf (lf_pty (ch_leaf c)) (lf_term (ch_leaf c)) (lf_modes (ch_leaf c)) (lf_env (ch_leaf c)) cmd ex))
      by (destruct Hc as [_ []]; by split).
    split_and!; [by split; [apply Hc|]|apply Forall_singleton; by split|by right|by rewrite orb_true_r|done|done].
Qed.
(** What one request does. *)
Record request_ok (c : Channel) (r : Request) (c' : Channel) (ev : list ChannelEvent) : Prop := {
  ro_channel : channel_ok c'; ro_starts : Forall start_ok (starts ev); ro_once : started_once c c' (starts ev);
  ro_answers : replies ev = [accepted r]; ro_last : cut_short ev = last_request r; ro_opens : ch_started c' = ch_started c || opens r }.
Lemma request_quiet c r c' b : channel_ok c' -> ch_started c' = ch_started c -> parsed r = None -> r <> ReqShell -> accepted r = b -> request_ok c r c' [Reply b].
Proof.
  intros Hc Hs Hp Hr Ha. split; [done|constructor|by left|..].
  - by rewrite Ha.
  - unfold last_request. by rewrite Hp.
  - unfold opens. rewrite Hp, Hs. destruct r; by rewrite ?orb_false_r.
Qed.
Lemma env_accepted n name value : n = 4 + len name + 4 + len value ->
  accepted (ReqEnv n (Some (name, value))) =
  negb ((4 + maxLeafEnvName + 4 + maxLeafEnvValue <? n) || bool_decide (name = []) || (maxLeafEnvName <? len name) || (maxLeafEnvValue <? len value)).
Proof.
  intros ->. cbn [accepted]. rewrite !negb_orb, <- !Z.leb_antisym. destruct (bool_decide _); cbn; rewrite ?andb_false_r; [done|].
  destruct (len name <=? maxLeafEnvName) eqn:H1, (len value <=? maxLeafEnvValue) eqn:H2; cbn; rewrite ?andb_false_r, ?andb_true_r; try done. zbool. lia.
Qed.
Lemma start_request_ok c r args cmd ex c' ev : channel_ok c -> len cmd <= maxLeafRawCmdLen ->
  (if ex : bool then execprotocol.ParseExecCommand cmd = Ok args else args = [] /\ cmd = []) ->
  accepted r = true -> last_request r = false -> opens r = true ->
  handle_start c args cmd ex = (c', ev) -> request_ok c r c' ev.
Proof.
  intros Hc Hl Ha Hr Hn Ho Hs. destruct (handle_start_spec c args cmd ex c' ev Hc Hl Ha Hs) as (H1 & H2 & H3 & H4 & H5 & H6).
  split; [done..|by rewrite Hr|by rewrite Hn|]. rewrite Ho, orb_true_r. destruct H3 as [[E ->]|(_ & ? & _)]; [|done].
  rewrite E in H4. cbn in H4. by rewrite orb_false_r in H4.
Qed.
Lemma handle_request_spec c r c' ev : channel_ok c -> wire_ok r -> handle_request c r = (c', ev) -> request_ok c r c' ev.
Proof.
  intros Hc Hw. destruct r as [p|p| |n cmd|n env|]; cbn [handle_request].
  - destruct p as [p|]; cbn [parsePTYRequest]; [|intros [= <- <-]; by apply request_quiet]. destruct (validateRequestDimensions _ _) eqn:Hd; intros [= <- <-]; [|by apply request_quiet].
    apply request_quiet; try done. split; [by apply dims_ok|]. destruct Hc as [_ []]. by split.
  - destruct p as [[w h]|]; cbn [parseWindowChange]; [|intros [= <- <-]; by apply request_quiet]. destruct (validateRequestDimensions _ _) eqn:Hd; intros [= <- <-]; [|by apply request_quiet].
    apply request_quiet; try done. split; [by apply dims_ok|apply Hc].
  - apply start_request_ok; done.
  - destruct cmd as [cmd|]; [|intros [= <- <-]; by apply request_quiet]. cbn in Hw. rewrite Z.ltb_antisym.
    destruct (n <=? 4 + maxLeafRawCmdLen) eqn:Hn; cbn [negb]; [|intros [= <- <-]; apply request_quiet; cbn; by rewrite ?Hn].
    destruct (execprotocol.ParseExecCommand cmd) as [args|e|] eqn:Hp.
    + assert (Hq : parsed (ReqExec n (Some cmd)) = Some (Ok args)) by (cbn; by rewrite Hn, Hp).
      apply start_request_ok; unfold last_request, opens; cbn [accepted]; rewrite ?Hq; try done. zbool. lia.
    + intros [= <- <-]. assert (Hq : parsed (ReqExec n (Some cmd)) = Some (Err e)) by (cbn; by rewrite Hn, Hp).
      split; [done|constructor|by left|..]; unfold last_request, opens; cbn [accepted]; by rewrite Hq, ?orb_false_r.
    + by apply ParseExecCommand_total in Hp.
  - destruct env as [[name value]|]; [|intros [= <- <-]; by apply request_quiet]. pose proof (env_accepted n name value Hw) as Ha.
    destruct (_ || _) eqn:Hv; intros [= <- <-]; apply request_quiet; try done.
    split; [apply Hc|]. eapply leaf_env_ok; [apply Hc|exact Hw|exact Hv|apply Hc].
  - intros [= <- <-]. by apply request_quiet.
Qed.

(** C17 (what a client can ask of its channel): whatever requests arrive in whatever order,
    the window stays within its bounds, a session has at most 32 variables with names of 1 to
    128 bytes and values of at most 4096, and a command of at most 64 KiB. The requests are
    looked at in order up to the end, or up to the first command of at most that length that
    does not parse, which closes the channel: what comes after it is not answered. Each
    request that is looked at is answered once, with success exactly when its dimensions, its
    variable or its size are within the bounds. A channel starts one session at most, with the arguments its command parses to, and it
    starts one exactly when a shell or a command that parses was looked at. *)
Theorem requests_bounded (reqs : list Request) c ev (Hw : Forall wire_ok reqs) (Hrun : handleRequests new_channel reqs = (c, ev)) :
  channel_ok c /\ Forall start_ok (starts ev) /\ length (starts ev) = (if existsb opens (looked_at reqs) then 1%nat else 0%nat) /\
  replies ev = map accepted (looked_at reqs) /\ cut_short ev = existsb last_request reqs.
Proof.
  assert (Hgen : forall c0 c ev, channel_ok c0 -> handleRequests c0 reqs = (c, ev) ->
    channel_ok c /\ Forall start_ok (starts ev) /\ started_once c0 c (starts ev) /\ ch_started c = ch_started c0 || existsb opens (looked_at reqs) /\
    replies ev = map accepted (looked_at reqs) /\ cut_short ev = existsb last_request reqs).
  { clear c ev Hrun. induction Hw as [|r reqs Hr Hw IH]; intros c0 c ev Hc; cbn [handleRequests looked_at existsb].
    { intros [= <- <-]. split_and!; try done; [by left|by rewrite orb_false_r]. }
    destruct (handle_request c0 r) as [c1 ev1] eqn:E1. destruct (handle_request_spec _ _ _ _ Hc Hr E1) as [Hc1 Hs1 Ho1 Hr1 Hl1 Hop1].
    fold (cut_short ev1). rewrite Hl1. destruct (last_request r) eqn:He.
    - intros [= <- <-]. cbn. rewrite ?orb_false_r. by split_and!.
    - destruct (handleRequests c1 reqs) as [c2 ev2] eqn:E2. intros [= <- <-]. destruct (IH _ _ _ Hc1 E2) as (Hc2 & Hs2 & Ho2 & Hop2 & Hr2 & Hl2).
      unfold starts, replies, cut_short in *. cbn. rewrite !omap_app, existsb_app, Hl1, Hl2, Hr1, Hr2, Hop2, Hop1, orb_assoc.
      split_and!; [done|by apply Forall_app| |done..].
      destruct Ho1 as [[-> H1]|(H1 & H2 & H3)], Ho2 as [[-> H4]|(H4 & H5 & H6)]; rewrite ?app_nil_r; unfold started_once; [left; by rewrite H4|right; by rewrite <- H1|right; by rewrite H4|congruence]. }
  destruct (Hgen new_channel c ev) as (H1 & H2 & H3 & H4 & H5 & H6); [|exact Hrun|].
  - split; [by vm_compute|]. by split.
  - split_and!; try done. cbn in H4. rewrite <- H4. by destruct H3 as [[-> ->]|(_ & -> & ->)].
Qed.
(** ** Examples *)

#[local] Existing Instance plain_platform.

(** The application of SqlRun.v, on a server with two slots and no host commands. *)
Definition plain_settings : ServerSettings := mkSettings false [] 2 0 0 (sshconn.NewAdmission 0 0).
Definition idle_gw : Gw := mkGw (Some serving) 0 ∅ ∅ 0.
Definition greeting (l : Launch) (b : option Repo) : option Repo * GuestRun := (b, mkGuestRun [str "hello"] [str "hello"] None []).
Definition ann_conn : SessionIdentity := (identityFromConn (Some serving) (str "fp1") []).2.
Definition visit_args (handle : bytes) : Gw * list Event :=
  startSessionArgs (fun b => b) (fun _ => None) greeting (fun _ => mkVMRun [] None) plain_settings [] None handle (str "session_1") ann_conn false (80, 24) []
    new_channel.(ch_leaf) idle_gw.
Lemma leaf_session_witness : session_trace (guest_allowed plain_settings (fun _ => None) [] None serving serving (str "ann/hello") (str "fp1") (str "session_1") ann_conn (80, 24) []
  new_channel.(ch_leaf) (visit_args (str "ann/hello")).1) (visit_args (str "ann/hello")).2.
Proof.
  eapply leaf_session with (g := idle_gw).
  - unfold ann_conn. reflexivity.
  - reflexivity.
  - apply serving_ok.
  - apply serving_ok.
  - apply Z.le_refl.
  - apply lookup_empty.
  - split; [intros a b E|intros a a' b E]; discriminate E.
  - unfold visit_args. apply surjective_pairing.
Defined.
(** The guest is launched with the bytes that were deployed, for the author; another handle is
    refused with a message. *)
Example session_runs : launches (visit_args (str "ann/hello")).2 =
  [LaunchTUI hello_bytes (mkCaps (mkSessionIdentity (str "fp1") true kindSSHKey true []) (Some 0%nat) (Some (str "app_r1")) None None None) 80 24].
Proof. vm_compute. reflexivity. Qed.
Example session_refused : (visit_args (str "ann")).2 = refuse (str "app ann is not available").
Proof. vm_compute. reflexivity. Qed.

Definition some_requests : list Request :=
  [ReqPTY (Some (mkPty (str "xterm") 0 24 [])); ReqEnv 18 (Some (str "LANG", str "C.UTF8")); ReqWindow (Some (120, 40)); ReqShell;
   ReqExec 7 (Some (str "a;b")); ReqShell].
Lemma requests_bounded_witness : channel_ok (handleRequests new_channel some_requests).1 /\
  replies (handleRequests new_channel some_requests).2 = [false; true; true; true; true].
Proof.
  destruct (requests_bounded some_requests (handleRequests new_channel some_requests).1 (handleRequests new_channel some_requests).2) as (H1 & _ & _ & H2 & _).
  - by repeat constructor.
  - apply surjective_pairing.
  - split; [exact H1|]. rewrite H2. vm_compute. reflexivity.
Defined.
End sessionlaws.

(** ** Connections *)

Module connectionlaws.
Import sshconn.

Definition held (m : gmap bytes Z) : Z := map_fold (fun _ n acc => n + acc) 0 m.
Lemma held_insert m ip n : held (<[ip := n]> m) = held m - default 0 (m !! ip) + n.
Proof.
  assert (Hc : forall m i x, m !! i = None -> held (<[i := x]> m) = x + held m)
    by (intros; unfold held; rewrite map_fold_insert_L by (done || lia); lia).
  destruct (m !! ip) as [x|] eqn:Hm; cbn; [|rewrite Hc by done; lia].
  rewrite <- (insert_delete_id m ip x Hm) at 2. rewrite <- (insert_delete_eq m ip n). rewrite !Hc by apply lookup_delete_eq. lia.
Qed.
Lemma held_delete m ip : held (delete ip m) = held m - default 0 (m !! ip).
Proof.
  destruct (m !! ip) as [x|] eqn:Hm; cbn; [|rewrite delete_id by done; lia]. rewrite <- (insert_delete_id m ip x Hm) at 2.
  rewrite held_insert, lookup_delete_eq. cbn. lia.
Qed.
(** The total counts what every address holds; both are within their limits. *)
Record admission_ok (a : Admission) : Prop := {
  ao_total : a_total a = held (a_byIP a); ao_pos : map_Forall (fun _ n => 0 < n) (a_byIP a);
  ao_max : 0 < a_maxTotal a -> a_total a <= a_maxTotal a; ao_ip : 0 < a_maxPerIP a -> forall ip, from_ip a ip <= a_maxPerIP a }.
Lemma from_ip_nonneg a ip : admission_ok a -> 0 <= from_ip a ip.
Proof. intros [_ Hp _ _]. unfold from_ip. destruct (a_byIP a !! ip) as [n|] eqn:Hn; cbn; [|lia]. specialize (Hp _ _ Hn). cbn in Hp. lia. Qed.
Lemma Acquire_ok a ip : admission_ok a -> admission_ok (Acquire a ip).1 /\
  ((Acquire a ip).2 = true <-> (a_maxTotal a <= 0 \/ a_total a < a_maxTotal a) /\ (a_maxPerIP a <= 0 \/ from_ip a ip < a_maxPerIP a)).
Proof.
  intros Ha. pose proof (from_ip_nonneg a ip Ha) as Hn. unfold Acquire. destruct (_ && _) eqn:E1; [split; [done|]; zbool; cbn; split; [done|lia]|].
  destruct (_ && (_ <=? from_ip a ip)) eqn:E2; [split; [done|]; zbool; cbn; split; [done|lia]|]. apply andb_false_iff in E1, E2. cbn [fst snd].
  split; [|split; [intros _; split; lia|done]]. destruct Ha as [Ht Hp Hm Hi]. split; cbn.
  - rewrite held_insert. fold (from_ip a ip). lia.
  - apply map_Forall_insert_2; [lia|done].
  - lia.
  - intros H j. unfold from_ip at 1. cbn. destruct (decide (j = ip)) as [->|Hne]; [rewrite lookup_insert_eq|rewrite lookup_insert_ne by done]; cbn; [lia|by apply Hi].
Qed.
Lemma Release_ok a ip : admission_ok a -> admission_ok (Release a ip).
Proof.
  intros Ha. pose proof (from_ip_nonneg a ip Ha) as Hn. unfold Release. destruct (from_ip a ip =? 0) eqn:E0; [done|].
  cbv zeta. destruct Ha as [Ht Hp Hm Hi]. destruct (from_ip a ip - 1 =? 0) eqn:E1; (split; cbn [a_total a_byIP a_maxTotal a_maxPerIP]; [| |lia|]).
  - rewrite held_delete. fold (from_ip a ip). lia.
  - by apply map_Forall_delete.
  - intros H j. specialize (Hi H j). unfold from_ip at 1. cbn. destruct (decide (j = ip)) as [->|Hne]; [rewrite lookup_delete_eq; cbn; lia|].
    by rewrite lookup_delete_ne.
  - rewrite held_insert. fold (from_ip a ip). lia.
  - apply map_Forall_insert_2; [lia|done].
  - intros H j. specialize (Hi H j). unfold from_ip at 1. cbn. destruct (decide (j = ip)) as [->|Hne]; [rewrite lookup_insert_eq; cbn; lia|].
    by rewrite lookup_insert_ne.
Qed.
Lemma NewAdmission_ok total perIP : admission_ok (NewAdmission total perIP).
Proof. split; cbn; [done|apply map_Forall_empty|lia|]. intros H ip. unfold from_ip. cbn [NewAdmission a_byIP]. rewrite lookup_empty. cbn. lia. Qed.

(** An established connection with traffic last at [a] has a deadline between one and one and
    a half idle times after [a]. *)
Definition idle_ok (a : Z) (c : ActivityConn) : Prop :=
  c_enabled c = true /\ 0 < c_idle c /\ exists r, r <= a <= r + c_idle c ÷ 2 /\ c_nextRefresh c = Some (r + c_idle c ÷ 2) /\
    c_deadline c = Some (r + (c_idle c + c_idle c ÷ 2)).
Lemma moved_ok n a t c : idle_ok a c -> 0 < n -> a <= t -> idle_ok t (moved n t c) /\ c_idle (moved n t c) = c_idle c.
Proof.
  intros (He & Hi & r & Hr & Hn & Hd) Hpos Ht. unfold moved. rewrite (proj2 (Z.ltb_lt 0 n) Hpos). unfold refreshDeadline. rewrite He, Hn. cbn.
  rewrite (proj2 (Z.leb_gt _ _)) by lia. assert (0 <= c_idle c ÷ 2) by (apply Z.quot_pos; lia).
  destruct (t <? r + c_idle c ÷ 2) eqn:E; (split; [|done]); (split; [done|]); (split; [done|]).
  - exists r. split_and!; [lia|lia|done|done].
  - exists t. cbn. split_and!; [lia|lia|done|done].
Qed.
Lemma enable_ok now idle d : 0 < idle -> idle_ok now (EnableIdleDeadline now (NewActivityConn idle d)).
Proof.
  intros Hi. unfold EnableIdleDeadline, refreshDeadline. cbn. rewrite (proj2 (Z.leb_gt _ _)) by lia. assert (0 <= idle ÷ 2) by (apply Z.quot_pos; lia).
  split; [done|]. split; [done|]. exists now. cbn. split_and!; [lia|lia|done|done].
Qed.
Lemma deadline_bounds a c : idle_ok a c -> exists d, c_deadline c = Some d /\ a + c_idle c <= d <= a + c_idle c + c_idle c ÷ 2.
Proof. intros (_ & _ & r & Hr & _ & ->). eexists. split; [done|]. lia. Qed.
End connectionlaws.
